(* ===== verification/_CoqProject ===== *)
-Q . S2P
Prelude.v
Order.v
Net.v
NodeId.v
Text.v
F64.v
Utf8.v
Wire.v
Tag.v
PacketTypes.v
Packet.v
Contact.v
Bin.v
Zone.v
Table.v
Traversal.v
SearchWalk.v
Tracker.v
UploadQueue.v
SearchExpr.v
KadStore.v
SnoopQueue.v
Responder.v
KadFirewall.v
Hashset.v
Transfer.v
TransferOk.v
TransferRun.v
TransferFrame.v
PeerTransport.v
PeerCodec.v
KadObfuscation.v
Rpc.v
RpcOk.v
NodesDat.v
DhtSearch.v
DhtPublish.v
DhtNode.v
PeerParts.v
Hello.v
AgentPublish.v
PortMap.v
Session.v
ServerTypes.v
Download.v
DownloadOk.v
Listener.v
ListenerOk.v
FirewallHelper.v
KadHandler.v
UdpCheck.v
ServerQuery.v
ServerCodec.v
ServerLink.v
ServerDriver.v
ServerStep.v
ServerOk.v
ServerRun.v
ServerActive.v
NativeDownload.v
