(* ===== verification/Prelude.v ===== *)
(** * Overlord agents: a verification development

    The program is a Rust workspace: an eMule agent that keeps a Kademlia (Kad)
    node and an eD2k client running. This library models the parts that hold its
    own logic and proves them correct. It is a shallow embedding: functions of
    the code are Rocq functions of the same name where Rocq allows it, stateful
    code passes its state explicitly or runs in a small monad, and fallible code
    returns [res], which has a value, an error, and a panic. Integers are [Z] with
    their Rust width as a [bool] predicate ([is_u8] .. [is_u64]) and their
    wrap-around or saturation written out; bytes are [Z]s below 256; a string is the
    list of its UTF-8 bytes; instants and durations are nanoseconds, milliseconds
    in the files on sessions. Tasks that race are modelled by events: a turn of a
    loop is a function of what happened, and a theorem over all lists of events
    covers every interleaving.

    ** The program and the files that model it

    Shared: this file; [Order.v], comparison functions; [Utf8.v], [Net.v],
    [Text.v] and [F64.v], the parts of [std] strings, addresses, formatting and
    floating-point numbers that are used.

    Protocol of Kad, [crates/overlord-kad-proto/src]:
    - [NodeId.v]: [node_id.rs], [hash.rs]: 128-bit identifiers as 16 bytes in
      32-bit little-endian chunks, XOR distance, order, bits, text form.
    - [Wire.v]: readers and writers of machine words; [Tag.v]: [tag.rs].
    - [PacketTypes.v]: the packet structures of [packet/types.rs] with the readers
      and writers of [packet/codec.rs] and of the derived codecs;
      [Packet.v]: [packet.rs], the packet type, [encode] and [decode].

    Routing, [crates/overlord-kad-routing/src]:
    - [Contact.v]: [contact.rs], [error.rs]; [Bin.v]: [bin.rs], a bucket;
      [Zone.v]: [zone.rs], the tree of buckets with its splits;
      [Table.v]: [table.rs], the tree with its address and subnet counters.

    The Kad node, [crates/overlord-kad-dht/src]:
    - [Traversal.v]: phase 1 of [traversal.rs], the iterative lookup;
      [SearchWalk.v]: phase 2, the paced walk over the responders with the
      collection of search results.
    - [DhtSearch.v]: [search.rs], [types.rs], results and the streams of searches;
      [DhtPublish.v]: [publish.rs], the placement of publishes.
    - [NodesDat.v]: [bootstrap.rs], the formats of [nodes.dat]; [DhtNode.v]:
      [node.rs] and [node/], the node with its contacts, keys and bootstrap, and
      the file that it leaves for the next start.

    Network of Kad, [crates/overlord-kad-net/src]:
    - [Tracker.v]: [tracker.rs], the flood counter and the table of outstanding
      requests; [KadObfuscation.v]: [obfuscation.rs], obfuscated datagrams.
    - [Rpc.v]: [rpc.rs], [rate_limiter.rs], the manager that pairs requests with
      the answers that its receive loop takes; [RpcOk.v] has its invariants.

    The Kad side of the agent, [crates/overlord-agent-emule/src]:
    - [SearchExpr.v]: [kad_search_expr.rs], parser and evaluator of restrictive
      keyword searches; [KadStore.v]: [kad_store.rs], the cache of published
      keywords, sources and notes; [Responder.v]: the arms of
      [agent/kad_unsolicited.rs] that answer requests of peers from the routing table
      and the cache.
    - [KadHandler.v]: [agent/kad_unsolicited.rs] as a whole, [agent/kad_runtime.rs], the
      greetings, and the tasks of [agent/kad_firewall_runtime.rs] that the handler
      starts; [UdpCheck.v]: the rest of it, [agent/background_firewall.rs], the check
      of the UDP port, and the greetings of [agent/background_routing.rs].
    - [KadFirewall.v]: [kad_firewall.rs], the firewall checks; [SnoopQueue.v]:
      [snoop_queue.rs] and [agent/snoop.rs], searches seen and replayed.
    - [AgentPublish.v]: [agent/publish.rs], [agent/publish_runtime.rs] and
      [agent/keyword.rs], what the agent publishes and how it counts it.

    Files of the agent, [ed2k_transfer/]:
    - [Hashset.v]: MD4 hash sets and AICH trees; [Transfer.v]: manifests, pieces,
      payload files and the catalog, over a disk whose accesses may fail; its
      invariant in [TransferOk.v], complete downloads in [TransferRun.v], what
      operations leave alone in [TransferFrame.v]; [UploadQueue.v]: upload slots
      and the waiting queue.

    Peers, [ed2k_tcp/]:
    - [PeerTransport.v]: framing, obfuscation; [PeerCodec.v]: the messages;
      [PeerParts.v]: ranges of files in fragments; [Hello.v]: hellos and
      identification; [Session.v]: the monad of sessions.
    - [Download.v]: download sessions, with [DownloadOk.v]; [Listener.v]: sessions
      that peers open, with [ListenerOk.v]; [FirewallHelper.v]: the connections of
      firewall checks.

    Servers, [ed2k_server/]:
    - [ServerTypes.v]: what the agent knows of its server; [ServerQuery.v]: search
      queries; [ServerCodec.v]: messages; [ServerLink.v]: configured servers,
      obfuscated connections, datagrams, sessions.
    - [ServerDriver.v]: the background session and its searches for jobs;
      [ServerStep.v] has what its steps keep, [ServerOk.v] its invariants,
      [ServerRun.v] complete searches; [ServerActive.v]: one-shot searches.

    Jobs, [agent/]: [NativeDownload.v]: [ed2k_download.rs] and [ed2k_download/],
    [ed2k_runtime.rs], [ed2k_enrich.rs], [source_merge.rs] and the sources of
    [ed2k_search.rs], the download of a file from its sources.

    Port mappings, [crates/overlord-agent-nat/src]: [PortMap.v]: [manager.rs] and
    the providers [provider/miniupnpc.rs] and [provider/igd.rs].

    The node opens the datagrams it receives ([KadObfuscation]), reads them
    ([Packet.decode]), the flood counter admits them ([Tracker]) and the manager
    gives answers to those who asked ([Rpc]); the handler ([KadHandler]) takes greetings and
    firewall checks and answers requests ([Responder] over [Table] and
    [KadStore], which calls [SearchExpr]) and lookups use the answers
    ([Traversal], then [SearchWalk]) to find contacts, which the routing table
    keeps. [DhtNode] is the state they share; searches ([DhtSearch]) and publishes
    ([DhtPublish], called by [AgentPublish]) run over lookups. Peers connect over [PeerTransport]; a session that they open
    ([Listener]) takes its place in [UploadQueue] and serves bytes of [Transfer]
    in the packets of [PeerParts]; a session that the agent opens ([Download])
    requests pieces and writes them to [Transfer], which verifies them by
    [Hashset]. Sources come from the servers ([ServerDriver], [ServerActive]), which
    are told of the shared catalog and whose state enters the hellos, and from Kad; a
    job ([NativeDownload]) gathers them, dials them and asks for callbacks. [PortMap]
    keeps the ports of both networks open on the router.

    Interfaces between components are type classes: [ZlibLaws] of the streams that
    [PeerParts] inflates, [GatewayLaws] of the router that [PortMap] drives, [TotalCmp]
    of the orders that sorts use, [Stable] of the relations that the steps on a server
    connection keep.

    ** What the theorems show

    - Codec: decoding inverts encoding on every packet that fits its length
      fields, and decoding bytes of a peer never panics and gives well-typed
      packets ([Packet]).
    - Routing: every operation preserves the invariant of its structure and has
      the specified effect on every branch ([Bin], [Zone], [Table]); the tree
      refines a finite map; [get_closest] is the Kademlia answer.
    - Lookup: under every order of events, the candidates stay sorted, at most
      [ALPHA] queries are in flight, nobody is asked twice, every iteration
      consumes a query, and the result is the closest responders; the walk keeps
      its order, pace and deadline.
    - Network: a datagram that was obfuscated for its receiver opens to its
      packet; the manager hands out only answers that were asked for, from the
      host that was asked, panics only when it is told to send a packet that the
      encoder cannot write, and an exchange whose answer arrives completes.
    - Node: it stays sound through every interleaving of its tasks, with the setup it
      started with, and does not panic; a bootstrap fails
      exactly when nobody answered, and its contacts survive a restart; searches
      return distinct results that asked contacts said; publishes reach the closest
      responders within the tolerance, and what the agent publishes is found.
    - Guards: the flood counter refines one counter per key. Firewall checks reach
      the verdict that the helpers' packets prove, and keep their state consistent.
      Harvested searches are replayed, within the budget.
    - Searches and publishes: the expression parser accepts exactly the encodings
      of bounded depth; the cache keeps its bounds and finds what was published.
    - Handler: through every sequence of packets and tasks the agent stays sound, what a
      packet causes concerns its sender only, and it panics only at a search that meets
      a cached entry of more than 254 tags or with a tag that cannot be encoded, so
      never when all publishes are smaller; two agents that greet introduce each other
      to their routing tables; the check of the TCP port finds the address we are seen
      at, and that of the UDP port asks the best helpers and reaches their verdict.
    - Files: the AICH tree is the recursive definition; through every sequence of
      operations (but for those that [TransferOk.op_ok] excludes: a file that is
      ingested over the payload of a transfer, and sizes of more than 2^32 - 1 parts),
      failures of the disk and restarts, each manifest describes its
      payload, and what is served is authentic; a download of the right blocks,
      cut in any way, ends with the file. Slots, waiting order and sessions of the
      upload queue stay consistent.
    - Peers: a connection, obfuscated or not, delivers the packets of both sides;
      reading has the outcome that the bytes say; the packets of a range carry it;
      hellos survive the wire; whatever peers send (but for sizes of more than 2^32 - 1
      parts) and in whatever interleaving with each other and with operations that
      respect [op_ok], download and listener sessions do not panic and keep the
      invariants of the store and the queue, and parts go only to peers with a slot.
    - Servers: queries are parsed by the grammar and understood by the receiving
      parser; messages are typed; the advertisement reads back as the catalog; an
      obfuscated connection delivers; as long as no shared name has 64 KiB or more,
      which the advertisement cannot write, the background session never panics; it
      shares what it knows, answers each request at most once and in its kind, with
      sources marked with its server, and sends a search and completes it when the
      server answers; one-shot searches return only sources of the requested file from
      the servers asked, and do not panic under the same condition on names.
    - Jobs: a download hands each endpoint to its direct downloads once, which dial it
      once and at most once more in the clear (in rounds for sources on the own host
      only), asks for each callback once, ends, and succeeds only on a manifest that
      says so; a firewall check is asked once and only after the helper said hello.
    - Port mappings: after any history a stop leaves no mapping on the router but what a
      reconcile that it interrupts had still to map, and no other port of it is ever
      touched.

    Each property has its number in the comment before it; a theorem with
    hypotheses has a witness that applies it to concrete data.

    ** Fuel and bounds

    - [Zone.zone_add] recurses through splits: [ROOT_FUEL] is 255, two calls for
      each of the 127 levels a zone can split and one for the last; the theorems
      show that it does not run out, so running out counts as a panic.
    - The promotion and trimming loops of [UploadQueue] have the length of the
      queue plus one as fuel, and their theorems state what holds at the end of
      the loop itself.
    - [SearchExpr.tokenize_loop] has one unit for each character, and each turn
      consumes one; [parse_search_term] recurses on the depth the code bounds.
    - [Text.decimal] prints 64-bit numbers: 20 digits are enough.
    - The recursions of [Hashset] have the number of leaves as fuel; the inflating
      and compressing loops of [PeerParts] have the bytes that the laws of the
      zlib streams bound them by; the loops of decoders over an announced count
      have the length of the message, since every round takes bytes; the window
      and flush loops of [Download] have the number of requests and bytes at hand.
    - The parser of [ServerQuery] has three units for each token and two more,
      and [query_parsed] shows that they are enough on every text.
    - The loops of jobs, bootstraps and firewall checks are functions of the events
      that they meet, and need no fuel; [download_job_correct] bounds their turns.
    - The counters of a table are unbounded integers; [Table.table_ok] shows that
      they stay below [2^32].

    ** Parameters

    Code outside the repository is an argument of the definitions that use it:
    text ([windows_1252], [to_lowercase], [str::trim], [is_alphanumeric]), hashes and keys (MD4, SHA-1,
    MD5, RSA signing, the [hex] crate, the fingerprint of [DefaultHasher]), zlib
    ([zlib_decode], [zlib_encode], [zlib_reads] and the streams of [PeerParts]),
    the operations of a UPnP gateway ([GatewayApi]), and the parsing and resolution of socket addresses. Theorems assume of them
    only what their documentation says: a decoder yields text or bytes, hashes
    have their length, [hex] decodes what it encoded, and the laws [ZlibLaws] and
    [GatewayLaws].
    Random choices and the clock are arguments or fields of the state.

    ** Not modelled

    Input and output, which has no logic of its own to verify: sockets, HTTP
    handlers and clients, logging and packet dumps, configuration files (read by
    derived deserializers), the bindings to [miniupnpc], the SOAP client of the
    [rupnp] provider (not in the default order of backends) and the enumeration of
    network interfaces; failure to allocate memory. The background tasks
    ([agent/background_*.rs], [agent/passive_runtime.rs]) call the modelled operations on
    timers and report to the coordinator; the theorems hold for every order of the
    operations, so their schedule is left out. The handler ignores
    requests of buddies, and so does the model. Of the peers, accepting and connecting; of the
    servers, the ends of the channels that jobs hold and the sleeps of the outer
    loop; of the node, the semaphore that nothing uses.

    This file holds what the others share: [res], machine integers, byte
    conversions, sorting, counting, and the tactics and hints for them. *)

From stdpp Require Export base tactics list gmap strings sorting.
From Stdlib Require Export ZArith Lia.
From Stdlib Require Import Sorted Permutation.

#[export] Set Default Goal Selector "!".
#[export] Set Warnings "-clear-no-such-hyp".

Declare Scope rust_scope.
Delimit Scope rust_scope with rust.
#[global] Open Scope Z_scope.

(** An [Instant] or a [Duration] is a number of nanoseconds. *)
Definition NANOS_PER_SEC : Z := 1000000000.

(** ** Outcomes of Rust code *)

(** The outcome of a Rust call: a value, an [Err], or a panic (a failed
    [expect], an out-of-range slice, [unreachable!]). *)
Inductive res (E A : Type) : Type :=
| Ok (a : A)
| Err (e : E)
| Panic.
Arguments Ok {E A} a.
Arguments Err {E A} e.
Arguments Panic {E A}.

#[export] Instance res_ret {E} : MRet (res E) := λ A a, Ok a.
#[export] Instance res_bind {E} : MBind (res E) := λ A B k m,
  match m with Ok a => k a | Err e => Err e | Panic => Panic end.

(** [map_err] of [Result]. *)
Definition map_err {E F A} (f : E → F) (m : res E A) : res F A :=
  match m with Ok a => Ok a | Err e => Err (f e) | Panic => Panic end.

(** A loop whose body may fail or panic. *)
Fixpoint fold_res {E A B} (f : B → A → res E B) (b : B) (l : list A) : res E B :=
  match l with
  | [] => Ok b
  | a :: l' => match f b a with Ok b' => fold_res f b' l' | Err e => Err e | Panic => Panic end
  end.

Definition is_ok {E A} (m : res E A) : bool :=
  match m with Ok _ => true | _ => false end.

(** [.expect(..)] on an [Option]. *)
Definition expect {E A} (o : option A) : res E A :=
  match o with Some a => Ok a | None => Panic end.

(** ** Machine integers

    A [w]-bit unsigned integer is a [Z]; [is_u w z] is its type. *)
Definition is_u (w z : Z) : bool := (0 <=? z) && (z <? 2 ^ w).
Definition is_u8 : Z → bool := is_u 8.
Definition is_u16 : Z → bool := is_u 16.
Definition is_u32 : Z → bool := is_u 32.
Definition is_u64 : Z → bool := is_u 64.
Definition U16_MAX : Z := 65535.
Definition U32_MAX : Z := 4294967295.
Definition U64_MAX : Z := 18446744073709551615.
(** [usize] on the 64-bit targets the agent is built for. *)
Definition USIZE_MAX : Z := 18446744073709551615.

(** [u8::try_from], [u16::try_from], ... of a non-negative value. *)
Definition try_from_u (w z : Z) : option Z := if is_u w z then Some z else None.
Definition saturating_add (w a b : Z) : Z := Z.min (a + b) (2 ^ w - 1).
Definition saturating_mul (w a b : Z) : Z := Z.min (a * b) (2 ^ w - 1).
Definition saturating_sub (a b : Z) : Z := Z.max (a - b) 0.
(** [len()] as an integer. *)
Definition zlen {A} (l : list A) : Z := Z.of_nat (length l).

(** [to_le_bytes] / [from_le_bytes] at [n] bytes, and the big-endian pair. *)
Fixpoint to_le_bytes (n : nat) (z : Z) : list Z :=
  match n with
  | O => []
  | S n' => z mod 256 :: to_le_bytes n' (z / 256)
  end.
Fixpoint from_le_bytes (l : list Z) : Z :=
  match l with
  | [] => 0
  | b :: l' => b + 256 * from_le_bytes l'
  end.
Definition to_be_bytes (n : nat) (z : Z) : list Z := rev (to_le_bytes n z).
Definition from_be_bytes (l : list Z) : Z := from_le_bytes (rev l).

(** A byte slice: every element is a [u8]. *)
Definition is_bytes (l : list Z) : bool := forallb is_u8 l.

(** ** Slices and vectors *)

(** [iter().position(f)] *)
Fixpoint position {A} (f : A → bool) (l : list A) : option nat :=
  match l with
  | [] => None
  | x :: l' => if f x then Some O else S <$> position f l'
  end.
(** [dedup_by(same)]: drops an element equal to the last one kept;
    the kept element is the second argument of [same]. *)
Fixpoint dedup_from {A} (same : A → A → bool) (kept : A) (l : list A) : list A :=
  match l with
  | [] => []
  | x :: l' => if same x kept then dedup_from same kept l' else x :: dedup_from same x l'
  end.
Definition dedup_by {A} (same : A → A → bool) (l : list A) : list A :=
  match l with [] => [] | x :: l' => x :: dedup_from same x l' end.

(** [sort_by(cmp)]: the stable sort, as an insertion sort (a stable sort is
    determined by its input, so the algorithm does not matter). *)
Definition cmp_le {A} (cmp : A → A → comparison) (x y : A) : bool :=
  match cmp x y with Gt => false | _ => true end.
Fixpoint insert_by {A} (cmp : A → A → comparison) (x : A) (l : list A) : list A :=
  match l with
  | [] => [x]
  | y :: l' => if cmp_le cmp x y then x :: y :: l' else y :: insert_by cmp x l'
  end.
Definition sort_by {A} (cmp : A → A → comparison) (l : list A) : list A :=
  foldr (insert_by cmp) [] l.

(** [Ordering::then_with] *)
Definition then_with (a b : comparison) : comparison :=
  match a with Eq => b | _ => a end.
(** [Ord for bool]: [false < true]. *)
Definition bool_cmp (a b : bool) : comparison :=
  match a, b with
  | false, true => Lt
  | true, false => Gt
  | _, _ => Eq
  end.

(** [iter().filter(f).count()] *)
Definition countb {A} (f : A → bool) (l : list A) : nat := length (List.filter f l).
#[global] Arguments countb : simpl never.
#[global] Arguments zlen : simpl never.

(** ** Automation *)

Create HintDb rust.

(** Turns boolean tests in hypotheses into propositions. *)
Ltac bool_hyps :=
  repeat match goal with
  | H : _ && _ = true |- _ => apply andb_true_iff in H as [? ?]
  | H : _ || _ = false |- _ => apply orb_false_iff in H as [? ?]
  | H : negb _ = true |- _ => apply negb_true_iff in H
  | H : negb _ = false |- _ => apply negb_false_iff in H
  | H : (_ <=? _)%Z = true |- _ => apply Z.leb_le in H
  | H : (_ <=? _)%Z = false |- _ => apply Z.leb_gt in H
  | H : (_ <? _)%Z = true |- _ => apply Z.ltb_lt in H
  | H : (_ <? _)%Z = false |- _ => apply Z.ltb_ge in H
  | H : (_ =? _)%Z = true |- _ => apply Z.eqb_eq in H
  | H : (_ =? _)%Z = false |- _ => apply Z.eqb_neq in H
  | H : (_ <=? _)%nat = true |- _ => apply Nat.leb_le in H
  | H : (_ <=? _)%nat = false |- _ => apply Nat.leb_gt in H
  | H : (_ <? _)%nat = true |- _ => apply Nat.ltb_lt in H
  | H : (_ <? _)%nat = false |- _ => apply Nat.ltb_ge in H
  | H : bool_decide _ = true |- _ => apply bool_decide_eq_true in H
  | H : bool_decide _ = false |- _ => apply bool_decide_eq_false in H
  end.

(** ** Lemmas on outcomes *)

Lemma res_bind_Ok {E A B} (m : res E A) (k : A → res E B) b :
  (m ≫= k) = Ok b ↔ ∃ a, m = Ok a ∧ k a = Ok b.
Proof. destruct m; cbn; naive_solver. Qed.

(** A loop whose steps keep an invariant and succeed. *)
Lemma fold_res_ok {E A B} (f : B → A → res E B) (P : B → Prop) (wf : A → bool) l b :
  (∀ b a, P b → wf a = true → ∃ b', f b a = Ok b' ∧ P b') → forallb wf l = true → P b → ∃ b', fold_res f b l = Ok b' ∧ P b'.
Proof.
  intros Hf. revert b. induction l as [|a l IH]; intros b Hl Hb; cbn in *; [by exists b|]. apply andb_true_iff in Hl as [Ha Hl].
  destruct (Hf b a Hb Ha) as (b' & -> & Hb'). by apply IH.
Qed.
Lemma map_err_Ok {E F A} (f : E → F) (m : res E A) a :
  map_err f m = Ok a ↔ m = Ok a.
Proof. destruct m; cbn; naive_solver. Qed.

(** ** Lemmas on machine integers *)

Lemma is_u_spec w z : is_u w z = true ↔ 0 ≤ z < 2 ^ w.
Proof. unfold is_u. rewrite andb_true_iff, Z.leb_le, Z.ltb_lt. done. Qed.

Lemma is_u8_spec z : is_u8 z = true ↔ 0 ≤ z < 256.
Proof. apply is_u_spec. Qed.
Lemma is_u16_spec z : is_u16 z = true ↔ 0 ≤ z < 65536.
Proof. apply is_u_spec. Qed.
Lemma is_u32_spec z : is_u32 z = true ↔ 0 ≤ z < 4294967296.
Proof. apply is_u_spec. Qed.
Lemma is_u64_spec z : is_u64 z = true ↔ 0 ≤ z < 18446744073709551616.
Proof. apply is_u_spec. Qed.

Lemma try_from_u_Some w z v : try_from_u w z = Some v ↔ v = z ∧ 0 ≤ z < 2 ^ w.
Proof. unfold try_from_u. rewrite <- is_u_spec. destruct (is_u w z); naive_solver. Qed.

Lemma try_from_u_fits w z : is_u w z = true → try_from_u w z = Some z.
Proof. unfold try_from_u. by intros ->. Qed.

Lemma is_bytes_app l k : is_bytes (l ++ k) = is_bytes l && is_bytes k.
Proof. apply forallb_app. Qed.

Lemma is_bytes_spec l : is_bytes l = true ↔ Forall (λ b, 0 ≤ b < 256) l.
Proof.
  unfold is_bytes. rewrite forallb_forall, List.Forall_forall.
  split; intros H x Hx; by apply is_u8_spec, H.
Qed.

Lemma is_bytes_lookup l i b : is_bytes l = true → l !! i = Some b → 0 ≤ b < 256.
Proof. intros H%is_bytes_spec Hi. by eapply Forall_lookup in H. Qed.

Lemma is_bytes_rev l : is_bytes (rev l) = is_bytes l.
Proof.
  induction l as [|b l IH]; [done|]. cbn [rev]. rewrite is_bytes_app, IH. cbn.
  rewrite andb_true_r. apply andb_comm.
Qed.

Lemma is_bytes_take n l : is_bytes l = true → is_bytes (take n l) = true.
Proof. rewrite !is_bytes_spec. apply Forall_take. Qed.
Lemma is_bytes_drop n l : is_bytes l = true → is_bytes (drop n l) = true.
Proof. rewrite !is_bytes_spec. apply Forall_drop. Qed.

Lemma length_to_le_bytes n z : length (to_le_bytes n z) = n.
Proof. revert z; induction n; intros z; cbn; [done|]. by rewrite IHn. Qed.
Lemma length_to_be_bytes n z : length (to_be_bytes n z) = n.
Proof. unfold to_be_bytes. by rewrite length_rev, length_to_le_bytes. Qed.

Lemma is_bytes_to_le n z : is_bytes (to_le_bytes n z) = true.
Proof.
  revert z; induction n as [|n IH]; intros z; [done|]. cbn -[is_u8].
  apply andb_true_iff. split; [|apply IH].
  apply is_u8_spec, Z.mod_pos_bound. lia.
Qed.
Lemma is_bytes_to_be n z : is_bytes (to_be_bytes n z) = true.
Proof. unfold to_be_bytes. rewrite is_bytes_rev. apply is_bytes_to_le. Qed.

Lemma pow256_succ n : 256 ^ Z.of_nat (S n) = 256 * 256 ^ Z.of_nat n.
Proof. rewrite Nat2Z.inj_succ, Z.pow_succ_r; lia. Qed.

Lemma from_to_le_bytes n z : 0 ≤ z < 256 ^ Z.of_nat n → from_le_bytes (to_le_bytes n z) = z.
Proof.
  revert z; induction n as [|n IH]; intros z Hz; cbn [to_le_bytes from_le_bytes].
  - cbn in Hz. lia.
  - rewrite pow256_succ in Hz. rewrite IH.
    + pose proof (Z.div_mod z 256). lia.
    + split; [apply Z.div_pos; lia|]. apply Z.div_lt_upper_bound; lia.
Qed.

Lemma to_from_le_bytes l : is_bytes l = true → to_le_bytes (length l) (from_le_bytes l) = l.
Proof.
  induction l as [|b l IH]; intros H; [done|]. cbn -[is_u8] in H |- *.
  apply andb_true_iff in H as [Hb Hl]. apply is_u8_spec in Hb.
  replace ((b + 256 * from_le_bytes l) mod 256) with b.
  2:{ rewrite Z.mul_comm, Z.mod_add by lia. symmetry. apply Z.mod_small. lia. }
  replace ((b + 256 * from_le_bytes l) / 256) with (from_le_bytes l).
  2:{ rewrite Z.mul_comm, Z.div_add by lia. rewrite (Z.div_small b) by lia. lia. }
  by rewrite IH.
Qed.

Lemma from_le_bytes_bound l :
  is_bytes l = true → 0 ≤ from_le_bytes l < 256 ^ Z.of_nat (length l).
Proof.
  induction l as [|b l IH]; intros H; cbn [from_le_bytes length]; [cbn; lia|].
  cbn -[is_u8] in H. apply andb_true_iff in H as [Hb Hl]. apply is_u8_spec in Hb.
  specialize (IH Hl). rewrite pow256_succ. lia.
Qed.

Lemma from_to_be_bytes n z : 0 ≤ z < 256 ^ Z.of_nat n → from_be_bytes (to_be_bytes n z) = z.
Proof. unfold from_be_bytes, to_be_bytes. rewrite rev_involutive. apply from_to_le_bytes. Qed.

(** ** Lemmas on slices and vectors *)

Lemma position_Some {A} (f : A → bool) l i :
  position f l = Some i → ∃ x, l !! i = Some x ∧ f x = true.
Proof.
  revert i; induction l as [|x l IH]; intros i; cbn; [done|].
  destruct (f x) eqn:Hf; [naive_solver|].
  intros (j & Hj & ->)%fmap_Some. naive_solver.
Qed.

Lemma position_Some_first {A} (f : A → bool) l i j y :
  position f l = Some i → (j < i)%nat → l !! j = Some y → f y = false.
Proof.
  revert i j; induction l as [|x l IH]; intros i j; cbn; [done|].
  destruct (f x) eqn:Hf; [intros; simplify_eq; lia|].
  intros (i' & Hi & ->)%fmap_Some Hlt Hj. destruct j; [naive_solver|].
  cbn in Hj. eapply (IH i' j); [done|lia|done].
Qed.

Lemma position_None {A} (f : A → bool) l :
  position f l = None ↔ Forall (λ x, f x = false) l.
Proof.
  induction l as [|x l IH]; cbn; [by split|].
  rewrite Forall_cons, <- IH. destruct (f x), (position f l); naive_solver.
Qed.

Lemma zlen_app {A} (l k : list A) : zlen (l ++ k) = zlen l + zlen k.
Proof. unfold zlen. rewrite length_app. lia. Qed.

#[export] Instance zlen_perm {A} : Proper ((≡ₚ) ==> (=)) (@zlen A).
Proof. intros l k H. unfold zlen. by rewrite H. Qed.

Lemma zlen_cons {A} (x : A) l : zlen (x :: l) = 1 + zlen l.
Proof. unfold zlen. cbn. lia. Qed.

Lemma zlen_nil {A} : zlen (@nil A) = 0.
Proof. done. Qed.

Lemma zlen_nonneg {A} (l : list A) : 0 ≤ zlen l.
Proof. unfold zlen. lia. Qed.

Lemma filter_sublist {A} (f : A → bool) l : sublist (List.filter f l) l.
Proof.
  induction l as [|x l IH]; cbn; [constructor|]. destruct (f x); by constructor.
Qed.

Lemma elem_of_filter_bool {A} (f : A → bool) l x : x ∈ List.filter f l ↔ x ∈ l ∧ f x = true.
Proof. by rewrite !list_elem_of_In, filter_In. Qed.

Lemma Forall_sublist {A} (P : A → Prop) l k : Forall P k → sublist l k → Forall P l.
Proof. intros Hk Hs. revert Hk. induction Hs; rewrite ?Forall_cons; naive_solver. Qed.

Lemma elem_of_take_l {A} n (l : list A) x : x ∈ take n l → x ∈ l.
Proof. intros (i & Hi & _)%elem_of_take. by eapply list_elem_of_lookup_2. Qed.

Lemma elem_of_drop_l {A} n (l : list A) x : x ∈ drop n l → x ∈ l.
Proof. intros Hx. rewrite <- (take_drop n l). apply elem_of_app. by right. Qed.

Lemma zlen_take {A} n (l : list A) : 0 ≤ n → zlen (take (Z.to_nat n) l) ≤ n.
Proof. intros Hn. unfold zlen. rewrite length_take. lia. Qed.

Lemma zlen_sublist {A} (l k : list A) : sublist l k → zlen l ≤ zlen k.
Proof. intros H%sublist_length. unfold zlen. lia. Qed.

Lemma countb_cons {A} (f : A → bool) x l :
  countb f (x :: l) = ((if f x then 1 else 0) + countb f l)%nat.
Proof. unfold countb. cbn. by destruct (f x). Qed.

Lemma countb_nil {A} (f : A → bool) : countb f [] = O.
Proof. done. Qed.

Lemma countb_app {A} (f : A → bool) l k : countb f (l ++ k) = (countb f l + countb f k)%nat.
Proof. unfold countb. by rewrite List.filter_app, length_app. Qed.

#[export] Instance countb_perm {A} (f : A → bool) : Proper ((≡ₚ) ==> (=)) (countb f).
Proof.
  induction 1; rewrite ?countb_cons; [done| | |]; lia || congruence.
Qed.

Lemma countb_le_length {A} (f : A → bool) l : (countb f l ≤ length l)%nat.
Proof. induction l; [done|]. rewrite countb_cons. cbn. destruct (f a); lia. Qed.

Lemma countb_ext {A} (f g : A → bool) l :
  (∀ x, x ∈ l → f x = g x) → countb f l = countb g l.
Proof.
  induction l as [|x l IH]; intros H; [done|].
  rewrite !countb_cons, (H x), IH by set_solver. done.
Qed.

Lemma countb_sublist {A} (f : A → bool) l k : sublist l k → (countb f l ≤ countb f k)%nat.
Proof.
  induction 1; rewrite ?countb_cons; [done| |]; destruct (f x); lia.
Qed.

Lemma countb_zero {A} (f : A → bool) l :
  countb f l = O ↔ Forall (λ x, f x = false) l.
Proof.
  induction l as [|x l IH]; [by split|]. rewrite countb_cons, Forall_cons, <- IH.
  destruct (f x); naive_solver lia.
Qed.

Lemma countb_impl {A} (f g : A → bool) l :
  (∀ x, f x = true → g x = true) → (countb f l ≤ countb g l)%nat.
Proof.
  intros H. induction l as [|x l IH]; [done|]. rewrite !countb_cons.
  specialize (H x). destruct (f x), (g x); naive_solver lia.
Qed.

Lemma StronglySorted_lookup {A} (R : A → A → Prop) (l : list A) i j x y :
  StronglySorted R l → (i < j)%nat → l !! i = Some x → l !! j = Some y → R x y.
Proof.
  intros Hs Hij Hi Hj. rewrite <- (take_drop (S i) l) in Hs.
  eapply StronglySorted_app_1_elem_of; [exact Hs|..].
  - apply (list_elem_of_lookup_2 _ i). by rewrite lookup_take_lt by lia.
  - apply (list_elem_of_lookup_2 _ (j - S i)). rewrite lookup_drop.
    by replace (S i + (j - S i))%nat with j by lia.
Qed.

(** *** The stable sort *)

Lemma insert_by_perm {A} (cmp : A → A → comparison) x l : insert_by cmp x l ≡ₚ x :: l.
Proof.
  induction l as [|y l IH]; cbn; [done|]. destruct (cmp_le cmp x y); [done|].
  rewrite IH. apply Permutation_swap.
Qed.

Lemma sort_by_perm {A} (cmp : A → A → comparison) l : sort_by cmp l ≡ₚ l.
Proof.
  induction l as [|x l IH]; cbn; [done|].
  fold (sort_by cmp l). by rewrite insert_by_perm, IH.
Qed.

(** The sort only compares elements of the list. *)
Lemma sort_by_ext {A} (cmp cmp' : A → A → comparison) l :
  (∀ x y, x ∈ l → y ∈ l → cmp x y = cmp' x y) → sort_by cmp l = sort_by cmp' l.
Proof.
  induction l as [|x l IH]; intros Hl; [done|]. cbn. fold (sort_by cmp l) (sort_by cmp' l).
  rewrite <- IH by (intros; apply Hl; set_solver).
  assert (Hk : ∀ y, y ∈ sort_by cmp l → cmp x y = cmp' x y).
  { intros y Hy. rewrite sort_by_perm in Hy. apply Hl; set_solver. }
  revert Hk. generalize (sort_by cmp l). intros k Hk. clear -Hk.
  induction k as [|y k IH]; [done|]. cbn. unfold cmp_le. rewrite Hk by (by left).
  by rewrite IH by (intros; apply Hk; by right).
Qed.

Section sorted.
Context {A : Type} (cmp : A → A → comparison).
Context (cmp_total : ∀ x y, cmp_le cmp x y = false → cmp_le cmp y x = true).
Context (cmp_trans : ∀ x y z, cmp_le cmp x y = true → cmp_le cmp y z = true → cmp_le cmp x z = true).

(** Ascending with respect to [cmp]. *)
Definition ordered (l : list A) : Prop := StronglySorted (λ x y, cmp_le cmp x y = true) l.

Lemma insert_by_ordered x l : ordered l → ordered (insert_by cmp x l).
Proof.
  unfold ordered. induction l as [|y l IH]; intros Hl; cbn.
  - repeat constructor.
  - apply StronglySorted_inv in Hl as [Hl Hy].
    destruct (cmp_le cmp x y) eqn:Hxy.
    + constructor; [by constructor|]. constructor; [done|].
      eapply Forall_impl; [exact Hy|]. cbn. eauto.
    + constructor; [auto|]. rewrite insert_by_perm. constructor; auto.
Qed.

Lemma sort_by_ordered l : ordered (sort_by cmp l).
Proof.
  induction l as [|x l IH]; cbn; [constructor|]. by apply insert_by_ordered.
Qed.

Lemma ordered_take_drop n l x y :
  ordered l → x ∈ take n l → y ∈ drop n l → cmp_le cmp x y = true.
Proof.
  intros Hl Hx Hy. rewrite <- (take_drop n l) in Hl.
  revert Hl Hx. generalize (take n l) as k. induction k as [|z k IH]; intros Hs Hx.
  - set_solver.
  - cbn in Hs. apply StronglySorted_inv in Hs as [Hs Hz].
    apply elem_of_cons in Hx as [->|Hx]; [|by apply IH].
    rewrite Forall_forall in Hz. apply Hz. set_solver.
Qed.
End sorted.

Lemma cmp_le_Z x y : cmp_le Z.compare x y = (x <=? y).
Proof. unfold cmp_le, Z.leb. by destruct (x ?= y). Qed.

(** *** Positional notation

    A number [d + 2^k * x] with a digit [0 <= d < 2^k]. *)

Lemma testbit_digit k d x n :
  0 ≤ k → 0 ≤ d < 2 ^ k →
  Z.testbit (d + 2 ^ k * x) n = if n <? k then Z.testbit d n else Z.testbit x (n - k).
Proof.
  intros Hk Hd. destruct (Z.ltb_spec n k) as [Hn|Hn].
  - destruct (Z.ltb_spec n 0) as [Hneg|Hpos].
    { by rewrite !Z.testbit_neg_r by lia. }
    rewrite <- (Z.mod_pow2_bits_low _ k n) by lia.
    rewrite Z.mul_comm, Z.mod_add by lia. by rewrite Z.mod_small by lia.
  - replace (Z.testbit x (n - k)) with (Z.testbit ((d + 2 ^ k * x) / 2 ^ k) (n - k)).
    + rewrite Z.div_pow2_bits by lia. f_equal. lia.
    + f_equal. rewrite Z.mul_comm, Z.div_add by lia. rewrite Z.div_small by lia. lia.
Qed.

Lemma lxor_bound k d e : 0 ≤ k → 0 ≤ d < 2 ^ k → 0 ≤ e < 2 ^ k → 0 ≤ Z.lxor d e < 2 ^ k.
Proof.
  intros Hk Hd He. rewrite <- (Z.mod_small d (2 ^ k)), <- (Z.mod_small e (2 ^ k)) by lia.
  rewrite <- !Z.land_ones by lia.
  replace (Z.lxor (Z.land d (Z.ones k)) (Z.land e (Z.ones k))) with
    (Z.land (Z.lxor d e) (Z.ones k)).
  - rewrite Z.land_ones by lia. apply Z.mod_pos_bound. lia.
  - apply Z.bits_inj'; intros n Hn. rewrite Z.lxor_spec, !Z.land_spec, Z.lxor_spec.
    by destruct (Z.testbit d n), (Z.testbit e n), (Z.testbit (Z.ones k) n).
Qed.

Lemma lxor_digit k d e x y :
  0 ≤ k → 0 ≤ d < 2 ^ k → 0 ≤ e < 2 ^ k →
  Z.lxor (d + 2 ^ k * x) (e + 2 ^ k * y) = Z.lxor d e + 2 ^ k * Z.lxor x y.
Proof.
  intros Hk Hd He. apply Z.bits_inj'; intros n Hn.
  rewrite Z.lxor_spec, !testbit_digit by (done || by apply lxor_bound).
  by destruct (n <? k); rewrite Z.lxor_spec.
Qed.

Lemma from_le_bytes_lxor l k :
  length l = length k → is_bytes l = true → is_bytes k = true →
  from_le_bytes (zip_with Z.lxor l k) = Z.lxor (from_le_bytes l) (from_le_bytes k).
Proof.
  revert k; induction l as [|b l IH]; intros [|c k]; try done.
  cbn -[Z.mul is_u8]. intros [= Hlen] [Hb Hl]%andb_true_iff [Hc Hk]%andb_true_iff.
  apply is_u8_spec in Hb, Hc. rewrite IH by done. change 256 with (2 ^ 8).
  by rewrite lxor_digit by lia.
Qed.

Lemma compare_digit B x y x' y' :
  0 ≤ y < B → 0 ≤ y' < B →
  (x * B + y ?= x' * B + y') = then_with (x ?= x') (y ?= y').
Proof.
  intros Hy Hy'. unfold then_with. destruct (Z.compare_spec x x') as [->|Hlt|Hgt].
  - destruct (Z.compare_spec y y'); [apply Z.compare_eq_iff|apply Z.compare_lt_iff|
      apply Z.compare_gt_iff]; lia.
  - apply Z.compare_lt_iff. nia.
  - apply Z.compare_gt_iff. nia.
Qed.

(** [x xor y <= x + y]: the triangle inequality of the XOR metric. *)
Lemma lxor_le_add x y : 0 ≤ x → 0 ≤ y → Z.lxor x y ≤ x + y.
Proof.
  intros Hx Hy. pose proof (Z.add_lxor_2land x y).
  assert (0 ≤ Z.land x y) by (apply Z.land_nonneg; lia). lia.
Qed.
Lemma forallb_elem {A} (f : A → bool) l : forallb f l = true ↔ ∀ x, x ∈ l → f x = true.
Proof. rewrite forallb_forall. by setoid_rewrite list_elem_of_In. Qed.
Lemma countb_elem {A} (f : A → bool) l x : x ∈ l → f x = true → (0 < countb f l)%nat.
Proof.
  intros Hx Hf. destruct (countb f l) eqn:Hc; [|lia]. apply countb_zero in Hc.
  rewrite Forall_forall in Hc. specialize (Hc x Hx). congruence.
Qed.
