(* ===== verification/Order.v ===== *)
(** * Comparison functions

    The [cmp] closures of the code are chains of [Ordering::then_with] over
    comparisons of fields, some reversed. [TotalCmp] says that a comparison is a
    total preorder; its instances follow the shape of the closures, so that the
    order of a sort is derived by type class resolution. *)

From S2P Require Import Prelude.

(** [Ord for str]: lexicographic on the bytes. *)
Fixpoint str_cmp (a b : list Z) : comparison :=
  match a, b with
  | [], [] => Eq
  | [], _ :: _ => Lt
  | _ :: _, [] => Gt
  | x :: a', y :: b' => then_with (Z.compare x y) (str_cmp a' b')
  end.

(** ** Total preorders *)

Class TotalCmp {A} (cmp : A → A → comparison) : Prop := {
  tc_opp : ∀ x y, cmp y x = CompOpp (cmp x y);
  tc_eq_l : ∀ x y z, cmp x y = Eq → cmp x z = cmp y z;
  tc_lt_trans : ∀ x y z, cmp x y = Lt → cmp y z = Lt → cmp x z = Lt;
}.

#[export] Instance Z_compare_total : TotalCmp Z.compare.
Proof.
  split.
  - intros x y. apply Z.compare_antisym.
  - by intros x y z ->%Z.compare_eq.
  - intros x y z. rewrite !Z.compare_lt_iff. lia.
Qed.
#[export] Instance bool_cmp_total : TotalCmp bool_cmp.
Proof. split; by intros [] []; try intros []. Qed.

(** Comparing by a field, in the other direction, and by one test after another. *)
Lemma on_total {A B} (f : A → B) cmp : TotalCmp cmp → TotalCmp (λ x y, cmp (f x) (f y)).
Proof.
  intros [H1 H2 H3]. split; [intros; apply H1|intros; by apply H2|].
  intros x y z Hxy Hyz. by eapply H3.
Qed.
Lemma rev_total {A B} (f : A → B) cmp : TotalCmp cmp → TotalCmp (λ x y, cmp (f y) (f x)).
Proof.
  intros [H1 H2 H3]. split.
  - intros x y. apply H1.
  - intros x y z Hxy. rewrite (H1 (f x) (f z)), (H1 (f y) (f z)), (H2 (f x) (f y)); [done|].
    by rewrite (H1 (f y) (f x)), Hxy.
  - intros x y z Hxy Hyz. by eapply H3.
Qed.
#[export] Instance then_total {A} (c d : A → A → comparison) :
  TotalCmp c → TotalCmp d → TotalCmp (λ x y, then_with (c x y) (d x y)).
Proof.
  intros [C1 C2 C3] [D1 D2 D3]. split.
  - intros x y. rewrite C1, D1. by destruct (c x y).
  - intros x y z. destruct (c x y) eqn:Hc; cbn; [|done..]. intros Hd. by rewrite (C2 x y), (D2 x y).
  - intros x y z. destruct (c x y) eqn:Hxy; cbn; [| |done].
    + rewrite (C2 x y z) by done. destruct (c y z); cbn; [|done..]. apply D3.
    + intros _. destruct (c y z) eqn:Hyz; cbn; [| |done].
      * intros _. assert (c x z = Lt) as ->; [|done].
        rewrite C1. rewrite (C2 z y x) by (by rewrite C1, Hyz). by rewrite C1, Hxy.
      * intros _. by rewrite (C3 x y z).
Qed.

#[export] Instance str_cmp_total : TotalCmp str_cmp.
Proof.
  split.
  - induction x as [|a x IH]; intros [|b y]; cbn; [done..|]. rewrite Z.compare_antisym, IH.
    by destruct (a ?= b).
  - induction x as [|a x IH]; intros [|b y] [|c z]; cbn; try done.
    destruct (a ?= b) eqn:Hab; cbn; try done. apply Z.compare_eq in Hab as ->. intros Hxy. by rewrite (IH y z).
  - induction x as [|a x IH]; intros [|b y] [|c z]; cbn; try done.
    destruct (Z.compare_spec a b), (Z.compare_spec b c), (Z.compare_spec a c); cbn; try done; try lia.
    apply IH.
Qed.

(** The tests the closures are made of. *)
#[export] Instance on_Z {A} (f : A → Z) : TotalCmp (λ x y, Z.compare (f x) (f y)) := on_total f _ _.
#[export] Instance rev_Z {A} (f : A → Z) : TotalCmp (λ x y, Z.compare (f y) (f x)) := rev_total f _ _.
#[export] Instance rev_bool {A} (f : A → bool) : TotalCmp (λ x y, bool_cmp (f y) (f x)) := rev_total f _ _.
#[export] Instance on_str {A} (f : A → list Z) : TotalCmp (λ x y, str_cmp (f x) (f y)) := on_total f _ _.

Lemma str_cmp_Eq a b : str_cmp a b = Eq → a = b.
Proof.
  revert b. induction a as [|x a IH]; intros [|y b]; cbn; try done.
  destruct (x ?= y) eqn:Hxy; cbn; try done. apply Z.compare_eq in Hxy as ->. intros H. f_equal. by apply IH.
Qed.

Lemma then_with_Eq a b : then_with a b = Eq ↔ a = Eq ∧ b = Eq.
Proof. destruct a; cbn; naive_solver. Qed.
Lemma bool_cmp_Eq a b : bool_cmp a b = Eq → a = b.
Proof. by destruct a, b. Qed.

(** ** The first element of a sort *)

Section total_sort.
Context {A : Type} (cmp : A → A → comparison) {Hcmp : TotalCmp cmp}.

Lemma cmp_le_total x y : cmp_le cmp x y = false → cmp_le cmp y x = true.
Proof. unfold cmp_le. rewrite (tc_opp x y). by destruct (cmp x y). Qed.

Lemma cmp_le_trans x y z : cmp_le cmp x y = true → cmp_le cmp y z = true → cmp_le cmp x z = true.
Proof.
  unfold cmp_le. destruct (cmp x y) eqn:Hxy; [|destruct (cmp y z) eqn:Hyz|]; intros Ha Hb; try done.
  - by rewrite (tc_eq_l x y z).
  - rewrite (tc_opp z x), (tc_eq_l z y x); [by rewrite (tc_opp x y), Hxy|]. by rewrite (tc_opp y z), Hyz.
  - by rewrite (tc_lt_trans x y z).
Qed.

(** The first element precedes every other one, ties apart. *)
Lemma head_sort_by l :
  match head (sort_by cmp l) with
  | None => l = []
  | Some x => x ∈ l ∧ ∀ y, y ∈ l → cmp_le cmp x y = true
  end.
Proof.
  pose proof (sort_by_ordered cmp cmp_le_total cmp_le_trans l) as Ho.
  pose proof (sort_by_perm cmp l) as Hp. destruct (sort_by cmp l) as [|x k]; cbn.
  - by apply Permutation_nil.
  - apply StronglySorted_inv in Ho as [_ Hx]. rewrite Forall_forall in Hx. split.
    + rewrite <- Hp. by left.
    + intros y Hy. rewrite <- Hp in Hy. apply elem_of_cons in Hy as [->|Hy]; [|by apply Hx].
      unfold cmp_le. assert (cmp x x = Eq) as ->; [|done]. pose proof (tc_opp x x). by destruct (cmp x x).
Qed.

Lemma head_sort_by_eq l x : x ∈ l → (∀ y, y ∈ l → cmp_le cmp x y = true) →
  (∀ y, y ∈ l → cmp x y = Eq → x = y) → head (sort_by cmp l) = Some x.
Proof.
  intros Hx Hle Heq. pose proof (head_sort_by l) as Hl. destruct (head (sort_by cmp l)) as [y|].
  - destruct Hl as [Hy Hyl]. f_equal. symmetry. apply Heq; [done|]. specialize (Hle y Hy). specialize (Hyl x Hx).
    unfold cmp_le in *. rewrite (tc_opp x y) in Hyl. by destruct (cmp x y).
  - subst l. by apply elem_of_nil in Hx.
Qed.

(** Where equal elements are the same element, the order of the input does not
    matter. *)
Lemma head_sort_by_perm l k : l ≡ₚ k → (∀ x y, x ∈ l → y ∈ l → cmp x y = Eq → x = y) →
  head (sort_by cmp l) = head (sort_by cmp k).
Proof.
  intros Hlk Heq. pose proof (head_sort_by l) as Hl. pose proof (head_sort_by k) as Hk.
  destruct (head (sort_by cmp l)) as [x|], (head (sort_by cmp k)) as [y|]; [..|done].
  - destruct Hl as [Hx Hxl], Hk as [Hy Hyk]. f_equal. rewrite <- Hlk in Hy.
    apply Heq; [done|done|]. specialize (Hxl y Hy). specialize (Hyk x ltac:(by rewrite <- Hlk)).
    unfold cmp_le in *. rewrite (tc_opp x y) in Hyk. by destruct (cmp x y).
  - subst k. destruct Hl as [Hx _]. rewrite Hlk in Hx. by apply elem_of_nil in Hx.
  - subst l. destruct Hk as [Hy _]. rewrite <- Hlk in Hy. by apply elem_of_nil in Hy.
Qed.
End total_sort.
