(* ===== verification/Net.v ===== *)
(** * Network addresses

    The parts of [std::net] the code uses: [Ipv4Addr] as its four octets,
    [IpAddr], [SocketAddr], and the address classes. *)

From S2P Require Import Prelude.

(** ** Data *)

Definition Ipv4Addr : Type := Z * Z * Z * Z.
(** An IPv6 address is opaque to the code: its 128-bit value. *)
Inductive IpAddr : Type := V4 (ip : Ipv4Addr) | V6 (ip : Z).
Record SocketAddr : Type := mkSocketAddr { sa_ip : IpAddr; sa_port : Z }.

#[export] Instance IpAddr_eq_dec : EqDecision IpAddr.
Proof. solve_decision. Defined.
#[export] Instance SocketAddr_eq_dec : EqDecision SocketAddr.
Proof. solve_decision. Defined.
#[export] Instance IpAddr_countable : Countable IpAddr.
Proof.
  refine (inj_countable' (λ a, match a with V4 ip => inl ip | V6 z => inr z end)
    (λ s, match s with inl ip => V4 ip | inr z => V6 z end) _). by intros [].
Defined.
#[export] Instance SocketAddr_countable : Countable SocketAddr.
Proof.
  refine (inj_countable' (λ a, (sa_ip a, sa_port a)) (λ '(i, p), mkSocketAddr i p) _). by intros [].
Defined.

(** ** Operations *)

(** [u32::from_be_bytes(ip.octets())] *)
Definition ip_val (ip : Ipv4Addr) : Z :=
  let '(o0, o1, o2, o3) := ip in from_be_bytes [o0; o1; o2; o3].
(** [Ipv4Addr::from(u32)] *)
Definition ipv4_from_u32 (z : Z) : Ipv4Addr :=
  match to_be_bytes 4 z with
  | [o0; o1; o2; o3] => (o0, o1, o2, o3)
  | _ => (0, 0, 0, 0)
  end.

Definition is_private (ip : Ipv4Addr) : bool :=
  let '(o0, o1, _, _) := ip in
  (o0 =? 10) || ((o0 =? 172) && ((16 <=? o1) && (o1 <=? 31))) || ((o0 =? 192) && (o1 =? 168)).
Definition is_loopback (ip : Ipv4Addr) : bool := let '(o0, _, _, _) := ip in o0 =? 127.
Definition is_link_local (ip : Ipv4Addr) : bool :=
  let '(o0, o1, _, _) := ip in (o0 =? 169) && (o1 =? 254).

Definition wf_ip (ip : Ipv4Addr) : bool :=
  let '(o0, o1, o2, o3) := ip in is_bytes [o0; o1; o2; o3].

(** ** Lemmas *)

Lemma ip_val_inj a b : wf_ip a = true → wf_ip b = true → ip_val a = ip_val b → a = b.
Proof.
  destruct a as [[[a0 a1] a2] a3], b as [[[b0 b1] b2] b3].
  intros Ha%is_bytes_spec Hb%is_bytes_spec. unfold ip_val, from_be_bytes.
  cbn -[Z.mul]. intros H. repeat (apply Forall_cons in Ha as [? Ha]).
  repeat (apply Forall_cons in Hb as [? Hb]). repeat f_equal; lia.
Qed.

Lemma ip_val_bound ip : wf_ip ip = true → 0 ≤ ip_val ip < 2 ^ 32.
Proof.
  destruct ip as [[[o0 o1] o2] o3]. unfold ip_val, from_be_bytes, wf_ip. intros H.
  rewrite <- is_bytes_rev in H. apply from_le_bytes_bound in H. done.
Qed.

Lemma ip_val_from_u32 z : is_u32 z = true → ip_val (ipv4_from_u32 z) = z.
Proof.
  intros Hz%is_u32_spec. unfold ip_val, ipv4_from_u32.
  pose proof (from_to_be_bytes 4 z ltac:(lia)) as H.
  pose proof (length_to_be_bytes 4 z) as Hl.
  destruct (to_be_bytes 4 z) as [|o0 [|o1 [|o2 [|o3 [|]]]]]; done.
Qed.

Lemma ipv4_from_u32_inj a b : is_u32 a = true → is_u32 b = true →
  ipv4_from_u32 a = ipv4_from_u32 b → a = b.
Proof. intros Ha Hb H. rewrite <- (ip_val_from_u32 a), <- (ip_val_from_u32 b) by done. by rewrite H. Qed.
