(* ===== verification/NodeId.v ===== *)
(** * Kad identifiers

    Models [overlord-kad-proto/src/node_id.rs] and [hash.rs]: the 128-bit Kad
    [NodeId] in its wire layout (four 32-bit chunks, each little-endian), the
    eD2k file hash, and the UDP verify key.

    The abstract view of an identifier is the 128-bit integer [node_val]: the
    distance refines the exclusive or of integers, [cmp] their order, [bit] and
    [distance_exp] their binary digits. *)

From S2P Require Import Prelude.

(** ** Data *)

(** [pub struct NodeId(pub [u8; 16])]; the array type is [wf_NodeId]. *)
Definition NodeId : Type := list Z.
#[export] Instance NodeId_eq_dec : EqDecision NodeId := list_eq_dec.
#[export] Instance NodeId_countable : Countable NodeId := list_countable.

Definition wf_NodeId (id : NodeId) : bool := (length id =? 16)%nat && is_bytes id.

Definition NodeId_ZERO : NodeId := replicate 16 0.

(** [pub struct Ed2kHash(pub [u8; 16])] *)
Definition Ed2kHash : Type := list Z.
#[export] Instance Ed2kHash_eq_dec : EqDecision Ed2kHash := list_eq_dec.
#[export] Instance Ed2kHash_countable : Countable Ed2kHash := list_countable.
Definition wf_Ed2kHash (h : Ed2kHash) : bool := (length h =? 16)%nat && is_bytes h.
Definition Ed2kHash_ZERO : Ed2kHash := replicate 16 0.

(** [pub struct KadUdpKey(pub u32)] *)
Definition KadUdpKey : Type := Z.
Definition KadUdpKey_ZERO : KadUdpKey := 0.

(** [enum ProtoError] of [error.rs]. The [BinRw] payload keeps the cause of the
    decoding error (end of input, or the custom error of the tag decoder) and
    drops the stream position and backtrace, which only feed messages. *)
Inductive BinErr : Type :=
| BinEof
| BinUnknownTagType (t : Z).
Inductive ProtoError : Type :=
| PIo
| InvalidNodeId
| UnknownTagType (t : Z)
| UnknownOpcode (op : Z)
| InvalidProtocol (b : Z)
| BinRw (e : BinErr)
| InvalidUtf8
| BufferTooShort
| InvalidPacketSize (opcode expected actual : Z)
| DecompressError.

(** Array indexing; the indices the code uses are below the array length. *)
Definition byte_at (l : list Z) (i : nat) : Z := nth i l 0.

(** ** Operations of [NodeId] *)

Definition swap_chunk (b : list Z) (chunk_idx : nat) : list Z :=
  let start := (chunk_idx * 4)%nat in
  [byte_at b (start + 3); byte_at b (start + 2); byte_at b (start + 1); byte_at b start].

Definition id_from_be_bytes (bytes : list Z) : NodeId := flat_map (swap_chunk bytes) (seq 0 4).
Definition id_to_be_bytes (id : NodeId) : list Z := flat_map (swap_chunk id) (seq 0 4).

Definition chunk_u32 (id : NodeId) (index : nat) : Z :=
  let start := (index * 4)%nat in
  from_le_bytes [byte_at id start; byte_at id (start + 1); byte_at id (start + 2);
                 byte_at id (start + 3)].

Definition distance (a b : NodeId) : NodeId :=
  map (λ index, Z.lxor (byte_at a index) (byte_at b index)) (seq 0 16).

(** [u32::leading_zeros] *)
Definition leading_zeros32 (z : Z) : Z := if z =? 0 then 32 else 31 - Z.log2 z.

Fixpoint distance_exp_loop (xor : NodeId) (chunks : list nat) : option Z :=
  match chunks with
  | [] => None
  | chunk_idx :: rest =>
      let chunk := chunk_u32 xor chunk_idx in
      if chunk =? 0 then distance_exp_loop xor rest
      else Some (Z.of_nat chunk_idx * 32 + leading_zeros32 chunk)
  end.
Definition distance_exp (a b : NodeId) : option Z :=
  distance_exp_loop (distance a b) (seq 0 4).

(** [bit]: the bit at position [pos], 0 being the most significant. *)
Definition id_bit (id : NodeId) (pos : Z) : bool :=
  let chunk_idx := Z.to_nat (pos / 32) in
  if (4 <=? chunk_idx)%nat then false
  else let bit_idx := 31 - pos mod 32 in
       Z.land (Z.shiftr (chunk_u32 id chunk_idx) bit_idx) 1 =? 1.

(** [Ord::cmp]: chunk by chunk. *)
Fixpoint id_cmp_loop (a b : NodeId) (chunks : list nat) : comparison :=
  match chunks with
  | [] => Eq
  | chunk_idx :: rest =>
      match chunk_u32 a chunk_idx ?= chunk_u32 b chunk_idx with
      | Eq => id_cmp_loop a b rest
      | o => o
      end
  end.
Definition id_cmp (a b : NodeId) : comparison := id_cmp_loop a b (seq 0 4).

(** *** Text form

    A [str] is its UTF-8 bytes. *)

Definition hex_digit (d : Z) : Z := if d <? 10 then 48 + d else 87 + d.
(** [{:0nx}] of a value below [16^n]. *)
Fixpoint hex_fixed (n : nat) (z : Z) : list Z :=
  match n with
  | O => []
  | S n' => hex_fixed n' (z / 16) ++ [hex_digit (z mod 16)]
  end.

Definition id_display (id : NodeId) : list Z :=
  flat_map (λ chunk_idx, hex_fixed 8 (chunk_u32 id chunk_idx)) (seq 0 4).

(** [char::to_digit(16)] *)
Definition hex_val (c : Z) : option Z :=
  if (48 <=? c) && (c <=? 57) then Some (c - 48)
  else if (97 <=? c) && (c <=? 102) then Some (c - 87)
  else if (65 <=? c) && (c <=? 70) then Some (c - 55)
  else None.
Fixpoint radix16_loop (w acc : Z) (s : list Z) : option Z :=
  match s with
  | [] => Some acc
  | c :: s' =>
      match hex_val c with
      | Some d => if is_u w (acc * 16 + d) then radix16_loop w (acc * 16 + d) s' else None
      | None => None
      end
  end.
(** [uN::from_str_radix(s, 16)]: one leading plus sign is allowed. *)
Definition from_str_radix16 (w : Z) (s : list Z) : option Z :=
  match s with
  | [] => None
  | 43 :: [] => None
  | 43 :: s' => radix16_loop w 0 s'
  | _ => radix16_loop w 0 s
  end.

(** [is_char_boundary]: the end, or a byte that does not continue a character. *)
Definition is_char_boundary (s : list Z) (i : nat) : bool :=
  (i =? length s)%nat ||
  match s !! i with Some b => (b <? 128) || (192 <=? b) | None => false end.
(** [&s[i..j]], which panics off a character boundary. *)
Definition str_slice {E} (s : list Z) (i j : nat) : res E (list Z) :=
  if is_char_boundary s i && is_char_boundary s j && (i <=? j)%nat
  then Ok (take (j - i) (drop i s)) else Panic.

Fixpoint id_from_str_loop (s : list Z) (chunks : list nat) : res ProtoError (list Z) :=
  match chunks with
  | [] => Ok []
  | chunk_idx :: rest =>
      let start := (chunk_idx * 8)%nat in
      digits ← str_slice s start (start + 8);
      match from_str_radix16 32 digits with
      | None => Err InvalidNodeId
      | Some chunk =>
          bytes ← id_from_str_loop s rest;
          Ok (to_be_bytes 4 chunk ++ bytes)
      end
  end.
Definition id_from_str (s : list Z) : res ProtoError NodeId :=
  if negb (length s =? 32)%nat then Err InvalidNodeId
  else bytes ← id_from_str_loop s (seq 0 4); Ok (id_from_be_bytes bytes).

(** ** Operations of [Ed2kHash] *)

Definition hash_display (h : Ed2kHash) : list Z := flat_map (hex_fixed 2) h.

Fixpoint hash_from_str_loop (s : list Z) (idx : list nat) : res ProtoError (list Z) :=
  match idx with
  | [] => Ok []
  | i :: rest =>
      digits ← str_slice s (i * 2) (i * 2 + 2);
      match from_str_radix16 8 digits with
      | None => Err InvalidNodeId
      | Some b => bytes ← hash_from_str_loop s rest; Ok (b :: bytes)
      end
  end.
Definition hash_from_str (s : list Z) : res ProtoError Ed2kHash :=
  if negb (length s =? 32)%nat then Err InvalidNodeId
  else hash_from_str_loop s (seq 0 16).

(** [Ord for Ed2kHash]: lexicographic on the bytes. *)
Fixpoint bytes_cmp (a b : list Z) : comparison :=
  match a, b with
  | [], [] => Eq
  | [], _ :: _ => Lt
  | _ :: _, [] => Gt
  | x :: a', y :: b' => match x ?= y with Eq => bytes_cmp a' b' | o => o end
  end.
Definition hash_cmp (a b : Ed2kHash) : comparison := bytes_cmp a b.

(** ** Abstract view *)

(** The 128-bit integer an identifier stands for. *)
Definition node_val (id : NodeId) : Z :=
  chunk_u32 id 0 * 2 ^ 96 + chunk_u32 id 1 * 2 ^ 64 + chunk_u32 id 2 * 2 ^ 32 + chunk_u32 id 3.

(** The 32-byte text of seven ASCII zeros, the two bytes of U+00E9, and 23
    zeros. *)
Definition split_char_text : list Z := replicate 7 48 ++ [195; 169] ++ replicate 23 48.

(** ** Lemmas *)

Lemma wf_NodeId_spec id : wf_NodeId id = true ↔ length id = 16%nat ∧ is_bytes id = true.
Proof. unfold wf_NodeId. by rewrite andb_true_iff, Nat.eqb_eq. Qed.

Lemma wf_Ed2kHash_spec h : wf_Ed2kHash h = true ↔ length h = 16%nat ∧ is_bytes h = true.
Proof. apply wf_NodeId_spec. Qed.

(** A 16-byte array, byte by byte. *)
Ltac destruct_id id Hwf :=
  apply wf_NodeId_spec in Hwf as [? ?];
  do 16 (destruct id as [|? id]; [discriminate|]);
  destruct id; [|discriminate].

Lemma byte_at_range l i : is_bytes l = true → 0 ≤ byte_at l i < 256.
Proof.
  intros Hl. unfold byte_at. destruct (nth_in_or_default i l 0) as [Hin| ->]; [|lia].
  apply is_bytes_spec in Hl. rewrite List.Forall_forall in Hl. auto.
Qed.

Lemma wf_NodeId_ZERO : wf_NodeId NodeId_ZERO = true.
Proof. done. Qed.

Lemma id_from_to_be_bytes id : wf_NodeId id = true → id_from_be_bytes (id_to_be_bytes id) = id.
Proof. intros Hwf. by destruct_id id Hwf. Qed.

Lemma id_to_from_be_bytes b : wf_NodeId b = true → id_to_be_bytes (id_from_be_bytes b) = b.
Proof. apply id_from_to_be_bytes. Qed.

Lemma swap_chunk_bytes b i : is_bytes b = true → is_bytes (swap_chunk b i) = true.
Proof.
  intros Hb. apply is_bytes_spec. unfold swap_chunk.
  repeat constructor; by apply byte_at_range.
Qed.

Lemma wf_id_from_be_bytes b : is_bytes b = true → wf_NodeId (id_from_be_bytes b) = true.
Proof.
  intros Hb. apply wf_NodeId_spec. split; [done|].
  unfold id_from_be_bytes. cbn [seq flat_map].
  rewrite !is_bytes_app, !swap_chunk_bytes by done. done.
Qed.
Lemma wf_id_to_be_bytes b : is_bytes b = true → wf_NodeId (id_to_be_bytes b) = true.
Proof. apply wf_id_from_be_bytes. Qed.

Lemma chunk_bound id i : is_bytes id = true → 0 ≤ chunk_u32 id i < 2 ^ 32.
Proof.
  intros Hb. unfold chunk_u32. change (2 ^ 32) with (256 ^ Z.of_nat 4).
  eapply (from_le_bytes_bound [_; _; _; _]). apply is_bytes_spec.
  repeat constructor; by apply byte_at_range.
Qed.

Lemma node_val_bound id : is_bytes id = true → 0 ≤ node_val id < 2 ^ 128.
Proof.
  intros Hb. unfold node_val.
  pose proof (chunk_bound id 0 Hb). pose proof (chunk_bound id 1 Hb).
  pose proof (chunk_bound id 2 Hb). pose proof (chunk_bound id 3 Hb). lia.
Qed.

Lemma chunk_inj a b : wf_NodeId a = true → wf_NodeId b = true →
  (∀ i, (i < 4)%nat → chunk_u32 a i = chunk_u32 b i) → a = b.
Proof.
  intros Ha Hb H. destruct_id a Ha. destruct_id b Hb.
  cbn -[is_u8] in *. bool_hyps.
  repeat match goal with H : is_u8 _ = true |- _ => apply is_u8_spec in H end.
  pose proof (H 0%nat) as E0. pose proof (H 1%nat) as E1.
  pose proof (H 2%nat) as E2. pose proof (H 3%nat) as E3. clear H.
  unfold chunk_u32, byte_at in *. cbn -[Z.mul] in *.
  repeat (apply (f_equal2 cons); [lia|]). done.
Qed.

Lemma node_val_inj a b : wf_NodeId a = true → wf_NodeId b = true →
  node_val a = node_val b → a = b.
Proof.
  intros Ha Hb H. apply chunk_inj; [done..|]. intros i Hi.
  apply wf_NodeId_spec in Ha as [_ Ha], Hb as [_ Hb]. unfold node_val in H.
  pose proof (λ i, chunk_bound a i Ha) as Ca. pose proof (λ i, chunk_bound b i Hb) as Cb.
  pose proof (Ca 0%nat); pose proof (Ca 1%nat); pose proof (Ca 2%nat); pose proof (Ca 3%nat).
  pose proof (Cb 0%nat); pose proof (Cb 1%nat); pose proof (Cb 2%nat); pose proof (Cb 3%nat).
  clear Ca Cb. destruct i as [|[|[|[|]]]]; lia.
Qed.

(** *** Distance *)

Lemma wf_distance a b : wf_NodeId a = true → wf_NodeId b = true →
  wf_NodeId (distance a b) = true.
Proof.
  intros [_ Ha]%wf_NodeId_spec [_ Hb]%wf_NodeId_spec. apply wf_NodeId_spec.
  split; [done|]. apply is_bytes_spec, Forall_forall. unfold distance.
  intros x (i & -> & _)%list_elem_of_fmap. apply (lxor_bound 8); [done|..];
    by apply byte_at_range.
Qed.

Lemma chunk_distance a b i : wf_NodeId a = true → wf_NodeId b = true → (i < 4)%nat →
  chunk_u32 (distance a b) i = Z.lxor (chunk_u32 a i) (chunk_u32 b i).
Proof.
  intros [_ Ha]%wf_NodeId_spec [_ Hb]%wf_NodeId_spec Hi. unfold chunk_u32.
  rewrite <- from_le_bytes_lxor.
  - destruct i as [|[|[|[|]]]]; try lia; done.
  - done.
  - apply is_bytes_spec. repeat constructor; by apply byte_at_range.
  - apply is_bytes_spec. repeat constructor; by apply byte_at_range.
Qed.

(** [node_val] in Horner form, as nested digits of width 32. *)
Lemma node_val_horner id :
  node_val id = chunk_u32 id 3 + 2 ^ 32 * (chunk_u32 id 2 + 2 ^ 32 *
    (chunk_u32 id 1 + 2 ^ 32 * chunk_u32 id 0)).
Proof. unfold node_val. lia. Qed.

Lemma node_val_distance a b : wf_NodeId a = true → wf_NodeId b = true →
  node_val (distance a b) = Z.lxor (node_val a) (node_val b).
Proof.
  intros Ha Hb. rewrite !node_val_horner, !chunk_distance by (done || lia).
  apply wf_NodeId_spec in Ha as [_ Ha], Hb as [_ Hb].
  rewrite !lxor_digit; try by apply chunk_bound. all: done.
Qed.

Lemma distance_sym a b : distance a b = distance b a.
Proof. unfold distance. apply map_ext. intros i. apply Z.lxor_comm. Qed.

Lemma distance_inj_l t a b :
  wf_NodeId t = true → wf_NodeId a = true → wf_NodeId b = true →
  distance t a = distance t b → a = b.
Proof.
  intros Ht Ha Hb H. apply node_val_inj; [done..|].
  apply (f_equal node_val) in H. rewrite !node_val_distance in H by done.
  apply (f_equal (Z.lxor (node_val t))) in H.
  by rewrite <- !Z.lxor_assoc, Z.lxor_nilpotent, !Z.lxor_0_l in H.
Qed.

(** *** Order *)

Lemma id_cmp_val a b : wf_NodeId a = true → wf_NodeId b = true →
  id_cmp a b = (node_val a ?= node_val b).
Proof.
  intros [_ Ha]%wf_NodeId_spec [_ Hb]%wf_NodeId_spec.
  replace (node_val a) with (((chunk_u32 a 0 * 2 ^ 32 + chunk_u32 a 1) * 2 ^ 32
    + chunk_u32 a 2) * 2 ^ 32 + chunk_u32 a 3) by (unfold node_val; lia).
  replace (node_val b) with (((chunk_u32 b 0 * 2 ^ 32 + chunk_u32 b 1) * 2 ^ 32
    + chunk_u32 b 2) * 2 ^ 32 + chunk_u32 b 3) by (unfold node_val; lia).
  rewrite !compare_digit by (by apply chunk_bound).
  unfold id_cmp. cbn [seq id_cmp_loop]. unfold then_with.
  by repeat destruct (_ ?= _).
Qed.

Lemma id_cmp_le_val a b : wf_NodeId a = true → wf_NodeId b = true →
  cmp_le id_cmp a b = (node_val a <=? node_val b).
Proof. intros. rewrite <- cmp_le_Z. unfold cmp_le. by rewrite id_cmp_val. Qed.

(** [cmp] is lexicographic on the chunks, hence a total preorder. *)
Lemma id_cmp_le_lex a b :
  let c := chunk_u32 in
  cmp_le id_cmp a b = true ↔
    c a 0%nat < c b 0%nat ∨ c a 0%nat = c b 0%nat ∧
   (c a 1%nat < c b 1%nat ∨ c a 1%nat = c b 1%nat ∧
   (c a 2%nat < c b 2%nat ∨ c a 2%nat = c b 2%nat ∧ c a 3%nat ≤ c b 3%nat)).
Proof.
  cbn zeta. unfold cmp_le, id_cmp. cbn [seq id_cmp_loop].
  repeat match goal with |- context [?x ?= ?y] => destruct (Z.compare_spec x y) end;
    split; intros; try done; lia.
Qed.

Lemma id_cmp_total a b : cmp_le id_cmp a b = false → cmp_le id_cmp b a = true.
Proof. rewrite <- not_true_iff_false, !id_cmp_le_lex. lia. Qed.

Lemma id_cmp_trans a b c :
  cmp_le id_cmp a b = true → cmp_le id_cmp b c = true → cmp_le id_cmp a c = true.
Proof. rewrite !id_cmp_le_lex. lia. Qed.

(** *** Bits *)

Lemma id_bit_val id pos : wf_NodeId id = true → 0 ≤ pos →
  id_bit id pos = (pos <? 128) && Z.testbit (node_val id) (127 - pos).
Proof.
  intros [_ Hb]%wf_NodeId_spec Hpos. unfold id_bit.
  assert (Hpd : pos = 32 * (pos / 32) + pos mod 32) by (apply Z.div_mod; lia).
  pose proof (Z.mod_pos_bound pos 32 ltac:(lia)) as Hm.
  assert (0 ≤ pos / 32) by (apply Z.div_pos; lia).
  rewrite (node_val_horner id).
  destruct (Nat.leb_spec 4 (Z.to_nat (pos / 32))).
  { replace (pos <? 128) with false by lia. done. }
  replace (pos <? 128) with true by lia.
  replace (Z.land (Z.shiftr (chunk_u32 id (Z.to_nat (pos / 32))) (31 - pos mod 32)) 1 =? 1)
    with (Z.testbit (chunk_u32 id (Z.to_nat (pos / 32))) (31 - pos mod 32)).
  2:{ change 1 with (Z.ones 1). rewrite Z.land_ones by lia. change (2 ^ 1) with 2.
      replace (31 - pos mod 32) with (0 + (31 - pos mod 32)) at 1 by lia.
      rewrite <- Z.shiftr_spec by lia. rewrite Z.bit0_odd, Zmod_odd.
      by destruct (Z.odd _). }
  rewrite !testbit_digit by (done || by apply chunk_bound). cbn [andb].
  remember (pos / 32) as q eqn:Eq. remember (pos mod 32) as m eqn:Em. clear Eq Em.
  assert (q = 0 ∨ q = 1 ∨ q = 2 ∨ q = 3) as [-> | [-> | [-> | ->]]] by lia; cbn [Z.to_nat Pos.to_nat];
    repeat match goal with |- context [?a <? 32] =>
      first [replace (a <? 32) with true by lia | replace (a <? 32) with false by lia] end;
    f_equal; lia.
Qed.

Lemma log2_digit k d x : 0 ≤ k → 0 ≤ d < 2 ^ k → 0 < x → Z.log2 (d + 2 ^ k * x) = k + Z.log2 x.
Proof.
  intros Hk Hd Hx. pose proof (Z.log2_spec x Hx) as [Hlo Hhi].
  pose proof (Z.log2_nonneg x).
  assert (Hp : 2 ^ (k + Z.log2 x) = 2 ^ k * 2 ^ Z.log2 x) by (apply Z.pow_add_r; lia).
  assert (Hq : 2 ^ Z.succ (k + Z.log2 x) = 2 ^ k * 2 ^ Z.succ (Z.log2 x)).
  { rewrite <- Z.pow_add_r by lia. f_equal. lia. }
  apply Z.log2_unique; [lia|]. rewrite Hp, Hq. nia.
Qed.

Lemma distance_exp_val a b : wf_NodeId a = true → wf_NodeId b = true →
  distance_exp a b =
    let x := Z.lxor (node_val a) (node_val b) in
    if x =? 0 then None else Some (127 - Z.log2 x).
Proof.
  intros Ha Hb. unfold distance_exp. rewrite <- node_val_distance by done.
  pose proof (wf_distance a b Ha Hb) as [_ Hd]%wf_NodeId_spec. generalize dependent (distance a b).
  intros x Hx. cbn zeta. rewrite node_val_horner. cbn [seq distance_exp_loop].
  pose proof (chunk_bound x 0 Hx) as C0. pose proof (chunk_bound x 1 Hx) as C1.
  pose proof (chunk_bound x 2 Hx) as C2. pose proof (chunk_bound x 3 Hx) as C3.
  unfold leading_zeros32.
  generalize dependent (chunk_u32 x 0). generalize dependent (chunk_u32 x 1).
  generalize dependent (chunk_u32 x 2). generalize dependent (chunk_u32 x 3).
  intros c3 B3 c2 B2 c1 B1 c0 B0.
  destruct (Z.eqb_spec c0 0) as [->|N0].
  - destruct (Z.eqb_spec c1 0) as [->|N1].
    + destruct (Z.eqb_spec c2 0) as [->|N2].
      * rewrite !Z.mul_0_r, !Z.add_0_r. destruct (Z.eqb_spec c3 0); [done|].
        f_equal. lia.
      * rewrite Z.mul_0_r, !Z.add_0_r. destruct (Z.eqb_spec (c3 + 2 ^ 32 * c2) 0); [lia|].
        rewrite log2_digit by lia. f_equal. lia.
    + rewrite Z.mul_0_r, Z.add_0_r.
      destruct (Z.eqb_spec (c3 + 2 ^ 32 * (c2 + 2 ^ 32 * c1)) 0); [lia|].
      rewrite !log2_digit by lia. f_equal. lia.
  - destruct (Z.eqb_spec (c3 + 2 ^ 32 * (c2 + 2 ^ 32 * (c1 + 2 ^ 32 * c0))) 0); [lia|].
    rewrite !log2_digit by lia. f_equal. lia.
Qed.

(** Two identifiers share exactly the [e] leading bits when their distance
    exponent is [e]. *)
Lemma distance_exp_bits a b e : wf_NodeId a = true → wf_NodeId b = true →
  distance_exp a b = Some e →
  0 ≤ e < 128 ∧ id_bit a e ≠ id_bit b e ∧
  (∀ pos, 0 ≤ pos < e → id_bit a pos = id_bit b pos).
Proof.
  intros Ha Hb. rewrite distance_exp_val by done. cbn zeta.
  pose proof (node_val_bound a ltac:(by apply wf_NodeId_spec)) as Ba.
  pose proof (node_val_bound b ltac:(by apply wf_NodeId_spec)) as Bb.
  pose proof (lxor_bound 128 _ _ ltac:(lia) Ba Bb) as Bx.
  set (x := Z.lxor (node_val a) (node_val b)) in *.
  destruct (Z.eqb_spec x 0) as [|Hnz]; intros [= <-].
  pose proof (Z.log2_nonneg x). pose proof (Z.log2_lt_pow2 x 128 ltac:(lia)) as Hl.
  assert (Hlt : Z.log2 x < 128) by lia.
  assert (Hbits : ∀ n, xorb (Z.testbit (node_val a) n) (Z.testbit (node_val b) n)
    = Z.testbit x n) by (intros n; by rewrite <- Z.lxor_spec).
  split; [lia|]. rewrite !id_bit_val by (done || lia).
  replace (127 - Z.log2 x <? 128) with true by lia.
  replace (127 - (127 - Z.log2 x)) with (Z.log2 x) by lia. split.
  - specialize (Hbits (Z.log2 x)). rewrite (Z.bit_log2 x) in Hbits by lia.
    destruct (Z.testbit _ _), (Z.testbit _ _); cbn in *; done.
  - intros pos Hpos. rewrite !id_bit_val by (done || lia). f_equal.
    specialize (Hbits (127 - pos)). rewrite (Z.bits_above_log2 x) in Hbits by lia.
    by apply xorb_eq.
Qed.

(** *** Text form *)

Lemma hex_digit_val d : 0 ≤ d < 16 → hex_val (hex_digit d) = Some d.
Proof.
  intros Hd. unfold hex_val, hex_digit. destruct (Z.ltb_spec d 10).
  - replace ((48 <=? 48 + d) && (48 + d <=? 57)) with true by lia. f_equal. lia.
  - replace ((48 <=? 87 + d) && (87 + d <=? 57)) with false by lia.
    replace ((97 <=? 87 + d) && (87 + d <=? 102)) with true by lia. f_equal. lia.
Qed.

Lemma hex_digit_range d : 0 ≤ d < 16 → 48 ≤ hex_digit d < 128.
Proof. intros. unfold hex_digit. destruct (Z.ltb_spec d 10); lia. Qed.

Lemma length_hex_fixed n z : length (hex_fixed n z) = n.
Proof. revert z; induction n; intros z; cbn; [done|]. rewrite length_app, IHn. cbn. lia. Qed.

Lemma hex_fixed_ascii n z : Forall (λ c, 48 ≤ c < 128) (hex_fixed n z).
Proof.
  revert z; induction n as [|n IH]; intros z; cbn; [constructor|].
  apply Forall_app. split; [apply IH|]. repeat constructor;
    apply hex_digit_range, Z.mod_pos_bound; lia.
Qed.

Lemma radix16_app w acc s t :
  radix16_loop w acc (s ++ t) = radix16_loop w acc s ≫= λ a, radix16_loop w a t.
Proof.
  revert acc; induction s as [|c s IH]; intros acc; cbn; [done|].
  destruct (hex_val c) as [d|]; [|done]. destruct (is_u w (acc * 16 + d)); [|done]. apply IH.
Qed.

Lemma radix16_hex w n z : 0 ≤ z < 16 ^ Z.of_nat n → 16 ^ Z.of_nat n ≤ 2 ^ w →
  radix16_loop w 0 (hex_fixed n z) = Some z.
Proof.
  revert z; induction n as [|n IH]; intros z Hz Hw; cbn [hex_fixed].
  { cbn in *. f_equal. lia. }
  rewrite Nat2Z.inj_succ, Z.pow_succ_r in Hz, Hw by lia.
  pose proof (Z.div_mod z 16 ltac:(lia)) as Hdm.
  pose proof (Z.mod_pos_bound z 16 ltac:(lia)).
  assert (0 ≤ z / 16 < 16 ^ Z.of_nat n).
  { split; [apply Z.div_pos; lia|]. apply Z.div_lt_upper_bound; lia. }
  rewrite radix16_app, IH by lia. cbn. rewrite hex_digit_val by lia.
  replace (is_u w (z / 16 * 16 + z mod 16)) with true
    by (symmetry; apply is_u_spec; lia).
  f_equal. lia.
Qed.

Lemma from_str_radix16_hex w n z : (0 < n)%nat → 0 ≤ z < 16 ^ Z.of_nat n →
  16 ^ Z.of_nat n ≤ 2 ^ w → from_str_radix16 w (hex_fixed n z) = Some z.
Proof.
  intros Hn Hz Hw. rewrite <- (radix16_hex w n z) by done.
  pose proof (hex_fixed_ascii n z) as Ha. pose proof (length_hex_fixed n z) as Hl.
  unfold from_str_radix16. destruct (hex_fixed n z) as [|c s]; [cbn in *; lia|].
  apply Forall_cons in Ha as [Hc _]. 
  destruct c as [|[p|p|]|p]; try done; try lia.
  all: repeat (destruct p as [p|p|]; try done; try lia).
Qed.

(** Every offset of an ASCII string is a character boundary. *)
Lemma ascii_boundary s i : Forall (λ c, 48 ≤ c < 128) s → (i ≤ length s)%nat →
  is_char_boundary s i = true.
Proof.
  intros Hs Hi. unfold is_char_boundary.
  destruct (Nat.eqb_spec i (length s)); [done|]. cbn.
  destruct (lookup_lt_is_Some_2 s i) as [b Hb]; [lia|]. rewrite Hb.
  eapply Forall_lookup in Hs; [|exact Hb]. cbn in Hs. lia.
Qed.

Lemma str_slice_ascii {E} s i j : Forall (λ c, 48 ≤ c < 128) s →
  (i ≤ j)%nat → (j ≤ length s)%nat →
  str_slice (E:=E) s i j = Ok (take (j - i) (drop i s)).
Proof.
  intros Hs Hij Hj. unfold str_slice.
  rewrite !ascii_boundary by (done || lia). by rewrite (proj2 (Nat.leb_le i j)) by lia.
Qed.

(** Slicing field [i] out of a row of equal-width fields. *)
Lemma flat_map_slice {A B} (f : A → list B) w (l : list A) i x :
  (∀ y, length (f y) = w) → l !! i = Some x → take w (drop (i * w) (flat_map f l)) = f x.
Proof.
  intros Hw. revert i; induction l as [|y l IH]; intros [|i] Hi; try done.
  - injection Hi as ->. cbn [flat_map Nat.mul]. rewrite drop_0, <- (Hw x). apply take_app_length.
  - cbn [flat_map Nat.mul]. rewrite <- (IH i Hi). f_equal.
    rewrite <- (Hw y) at 1. by rewrite <- drop_drop, drop_app_length.
Qed.

Lemma id_display_ascii id : Forall (λ c, 48 ≤ c < 128) (id_display id).
Proof. unfold id_display. cbn [seq flat_map]. rewrite !Forall_app. eauto 10 using hex_fixed_ascii. Qed.

Lemma length_id_display id : length (id_display id) = 32%nat.
Proof. unfold id_display. cbn [seq flat_map]. by rewrite !length_app, !length_hex_fixed. Qed.

Lemma to_be_bytes_chunk id i : is_bytes id = true → (i < 4)%nat →
  to_be_bytes 4 (chunk_u32 id i) = swap_chunk id i.
Proof.
  intros Hb Hi. unfold to_be_bytes, chunk_u32.
  erewrite (to_from_le_bytes [_; _; _; _]); [done|].
  apply is_bytes_spec. repeat constructor; by apply byte_at_range.
Qed.

Lemma id_from_str_display id : wf_NodeId id = true → id_from_str (id_display id) = Ok id.
Proof.
  intros Hwf. pose proof Hwf as [_ Hb]%wf_NodeId_spec.
  unfold id_from_str. rewrite length_id_display. cbn [Nat.eqb negb].
  assert (Hslice : ∀ i, (i < 4)%nat → str_slice (E:=ProtoError) (id_display id) (i * 8) (i * 8 + 8)
    = Ok (hex_fixed 8 (chunk_u32 id i))).
  { intros i Hi. rewrite str_slice_ascii;
      [|apply id_display_ascii|lia|rewrite length_id_display; lia].
    replace (i * 8 + 8 - i * 8)%nat with 8%nat by lia. f_equal.
    apply (flat_map_slice (λ c, hex_fixed 8 (chunk_u32 id c))); [intros; apply length_hex_fixed|].
    destruct i as [|[|[|[|]]]]; done || lia. }
  assert (Hradix : ∀ i, from_str_radix16 32 (hex_fixed 8 (chunk_u32 id i))
    = Some (chunk_u32 id i)).
  { intros i. apply from_str_radix16_hex; [lia| |done]. by apply (chunk_bound id i). }
  cbn [seq id_from_str_loop]. rewrite !Hslice by lia. cbn [mbind res_bind].
  rewrite !Hradix, !to_be_bytes_chunk by (done || lia). cbn [mbind res_bind].
  f_equal. by apply id_from_to_be_bytes.
Qed.

Lemma hash_from_str_display h : wf_Ed2kHash h = true → hash_from_str (hash_display h) = Ok h.
Proof.
  intros [Hlen Hb]%wf_Ed2kHash_spec.
  assert (Ha : Forall (λ c, 48 ≤ c < 128) (hash_display h)).
  { unfold hash_display. clear. induction h; cbn [flat_map]; [constructor|].
    apply Forall_app. eauto using hex_fixed_ascii. }
  assert (Hl : length (hash_display h) = (2 * length h)%nat).
  { unfold hash_display. clear. induction h; cbn -[hex_fixed]; [done|].
    rewrite length_app, length_hex_fixed. lia. }
  unfold hash_from_str. rewrite Hl, Hlen. cbn [Nat.eqb Nat.mul Nat.add negb].
  assert (Hloop : ∀ n i, (i + n = 16)%nat →
    hash_from_str_loop (hash_display h) (seq i n) = Ok (drop i h)).
  { induction n as [|n IH]; intros i Hin; cbn [seq hash_from_str_loop].
    - rewrite drop_ge by lia. done.
    - destruct (lookup_lt_is_Some_2 h i ltac:(lia)) as [b Hi].
      rewrite str_slice_ascii; [|done|lia|lia]. cbn [mbind res_bind].
      replace (i * 2 + 2 - i * 2)%nat with 2%nat by lia.
      unfold hash_display. rewrite (flat_map_slice (hex_fixed 2) 2 h i b)
        by (apply length_hex_fixed || done). fold (hash_display h).
      rewrite from_str_radix16_hex by (lia || by apply (is_bytes_lookup h i b)).
      rewrite IH by lia. cbn [mbind res_bind]. by rewrite (drop_S h b i). }
  by rewrite Hloop.
Qed.

(** ** Correctness of the identifier operations *)

(** The chunked little-endian code computes on 128-bit integers: [distance]
    is the exclusive or, [cmp] the integer order, [bit pos] the binary digit
    [127 - pos] ([false] from 128 on), and [distance_exp] the number of leading
    zero digits of the exclusive or, [None] exactly for equal identifiers. *)
Lemma id_refines_integers a b pos :
  wf_NodeId a = true → wf_NodeId b = true → 0 ≤ pos →
  node_val (distance a b) = Z.lxor (node_val a) (node_val b) ∧
  id_cmp a b = (node_val a ?= node_val b) ∧
  id_bit a pos = (pos <? 128) && Z.testbit (node_val a) (127 - pos) ∧
  (distance_exp a b = None ↔ a = b) ∧
  (∀ e, distance_exp a b = Some e → e = 127 - Z.log2 (node_val (distance a b))).
Proof.
  intros Ha Hb Hpos. rewrite node_val_distance, id_cmp_val, id_bit_val, distance_exp_val by done.
  cbn zeta. repeat split; try done.
  - case_match; [|done]. bool_hyps. intros _. apply node_val_inj; [done..|].
    by apply Z.lxor_eq.
  - intros ->. by rewrite Z.lxor_nilpotent.
  - intros e. case_match; naive_solver.
Qed.

(** [distance], ordered by [cmp], is the XOR metric of Kademlia: it is
    symmetric, zero exactly between equal identifiers, satisfies the triangle
    inequality, and is unidirectional: for every target and every distance there
    is exactly one identifier at that distance. *)
Lemma distance_metric a b c :
  wf_NodeId a = true → wf_NodeId b = true → wf_NodeId c = true →
  distance a b = distance b a ∧
  (distance a b = NodeId_ZERO ↔ a = b) ∧
  node_val (distance a c) ≤ node_val (distance a b) + node_val (distance b c) ∧
  (distance a (distance a b) = b ∧ ∀ b', wf_NodeId b' = true → distance a b' = distance a b → b' = b).
Proof.
  intros Ha Hb Hc. repeat split.
  - apply distance_sym.
  - intros H. apply node_val_inj; [done..|]. apply Z.lxor_eq.
    by rewrite <- node_val_distance, H.
  - intros ->. apply node_val_inj; [by apply wf_distance|done|].
    by rewrite node_val_distance, Z.lxor_nilpotent.
  - assert (H : Z.lxor (node_val a) (node_val c) =
      Z.lxor (node_val (distance a b)) (node_val (distance b c))).
    { rewrite !node_val_distance by done.
      rewrite Z.lxor_assoc, <- (Z.lxor_assoc (node_val b)), Z.lxor_nilpotent. done. }
    rewrite (node_val_distance a c), H by done.
    apply lxor_le_add; apply node_val_bound, wf_NodeId_spec, wf_distance; done.
  - apply node_val_inj; [by repeat apply wf_distance|done|].
    rewrite !node_val_distance by (done || by apply wf_distance).
    by rewrite <- Z.lxor_assoc, Z.lxor_nilpotent, Z.lxor_0_l.
  - intros b' Hb' H. by apply (distance_inj_l a).
Qed.

(** [from_str] of both types slices the text at fixed byte offsets after
    checking only its byte length, so a 32-byte text with a character across
    such an offset panics instead of returning [InvalidNodeId]. *)
Lemma from_str_panics :
  length split_char_text = 32%nat ∧
  id_from_str split_char_text = Panic ∧ hash_from_str split_char_text = Panic.
Proof. repeat split. Qed.
