(* ===== verification/Text.v ===== *)
(** * Formatted text

    The parts of [format!] the code builds its keys with: string literals,
    unsigned integers in decimal and in fixed-width hexadecimal, addresses. A
    string is the list of its UTF-8 bytes. *)

From S2P Require Import Prelude Net NodeId.

(** A string literal. *)
Definition lit (s : string) : list Z :=
  map (λ a, Z.of_N (Ascii.N_of_ascii a)) (String.list_ascii_of_string s).
(** [Display] of an unsigned integer; [fuel] is at least the number of digits. *)
Fixpoint decimal_fuel (fuel : nat) (z : Z) : list Z :=
  match fuel with
  | O => []
  | S fuel' => if z <? 10 then [48 + z] else decimal_fuel fuel' (z / 10) ++ [48 + z mod 10]
  end.
Definition decimal (z : Z) : list Z := decimal_fuel 20 z.
Definition ip_display (ip : Ipv4Addr) : list Z :=
  let '(a, b, c, d) := ip in
  decimal a ++ lit "." ++ decimal b ++ lit "." ++ decimal c ++ lit "." ++ decimal d.

(** The value of a text of decimal digits. *)
Definition digits_value (l : list Z) : Z := foldl (λ acc c, acc * 10 + (c - 48)) 0 l.

Lemma digits_value_snoc l c : digits_value (l ++ [c]) = digits_value l * 10 + (c - 48).
Proof. unfold digits_value. by rewrite foldl_app. Qed.

Lemma decimal_fuel_value fuel z : 0 ≤ z < 10 ^ Z.of_nat fuel → digits_value (decimal_fuel fuel z) = z.
Proof.
  revert z. induction fuel as [|fuel IH]; intros z Hz; cbn [decimal_fuel]; [cbn in *; lia|].
  destruct (Z.ltb_spec z 10) as [Hlt|Hge]; [cbn; lia|].
  rewrite digits_value_snoc, IH.
  - pose proof (Z.div_mod z 10). lia.
  - rewrite Nat2Z.inj_succ, Z.pow_succ_r in Hz by lia. split; [apply Z.div_pos; lia|].
    apply Z.div_lt_upper_bound; lia.
Qed.

(** Distinct [u64]s print distinctly. *)
Lemma decimal_inj a b : is_u64 a = true → is_u64 b = true → decimal a = decimal b → a = b.
Proof.
  intros Ha%is_u64_spec Hb%is_u64_spec H. rewrite <- (decimal_fuel_value 20 a), <- (decimal_fuel_value 20 b).
  - unfold decimal in H. by rewrite H.
  - change (10 ^ Z.of_nat 20) with 100000000000000000000. lia.
  - change (10 ^ Z.of_nat 20) with 100000000000000000000. lia.
Qed.

Lemma hex_fixed_inj n a b : 0 ≤ a < 16 ^ Z.of_nat n → 0 ≤ b < 16 ^ Z.of_nat n →
  hex_fixed n a = hex_fixed n b → a = b.
Proof.
  intros Ha Hb H.
  assert (Hw : 16 ^ Z.of_nat n ≤ 2 ^ (4 * Z.of_nat n)) by (rewrite Z.pow_mul_r by lia; done).
  pose proof (radix16_hex _ n a Ha Hw) as H1. pose proof (radix16_hex _ n b Hb Hw) as H2. congruence.
Qed.

Lemma id_display_inj a b : wf_NodeId a = true → wf_NodeId b = true → id_display a = id_display b → a = b.
Proof. intros Ha Hb H. pose proof (id_from_str_display a Ha). pose proof (id_from_str_display b Hb). congruence. Qed.

(** Hexadecimal text, as a sample of the [hex] crate. *)
Definition hex_text : list Z → list Z := flat_map (hex_fixed 2).
Fixpoint hex_bytes (l : list Z) : option (list Z) :=
  match l with
  | [] => Some []
  | a :: b :: l' => x ← from_str_radix16 8 [a; b]; r ← hex_bytes l'; Some (x :: r)
  | [_] => None
  end.
Lemma hex_text_bytes b : is_bytes b = true → hex_bytes (hex_text b) = Some b.
Proof.
  induction b as [|x b IH]; [done|]. cbn [is_bytes forallb]. intros [Hx%is_u8_spec Hb]%andb_true_iff.
  pose proof (from_str_radix16_hex 8 2 x ltac:(lia) Hx ltac:(done)) as Hr. cbn [hex_fixed app] in Hr.
  change (hex_text (x :: b)) with (hex_digit ((x / 16) mod 16) :: hex_digit (x mod 16) :: hex_text b).
  cbn [hex_bytes]. rewrite Hr. cbn [mbind option_bind]. by rewrite IH.
Qed.

(** ** Reading addresses

    [str::parse::<Ipv4Addr>]: four numbers of one to three digits, without leading
    zeros and at most 255, with dots between them. *)
Definition is_digit (c : Z) : bool := (48 <=? c) && (c <=? 57).
Fixpoint span_digits (l : list Z) : list Z * list Z :=
  match l with
  | c :: l' => if is_digit c then let '(d, rest) := span_digits l' in (c :: d, rest) else ([], l)
  | [] => ([], [])
  end.
Definition read_octet (l : list Z) : option (Z * list Z) :=
  let '(d, rest) := span_digits l in
  let leading_zero := match d with c :: _ :: _ => c =? 48 | _ => false end in
  if (1 <=? zlen d) && (zlen d <=? 3) && negb leading_zero && (digits_value d <=? 255) then Some (digits_value d, rest) else None.
Definition read_dot (l : list Z) : option (list Z) :=
  match l with c :: l' => if c =? 46 then Some l' else None | [] => None end.
Definition ipv4_from_str (text : list Z) : option Ipv4Addr :=
  if 15 <? zlen text then None
  else
    '(a, l) ← read_octet text; l ← read_dot l;
    '(b, l) ← read_octet l; l ← read_dot l;
    '(c, l) ← read_octet l; l ← read_dot l;
    '(d, l) ← read_octet l;
    match l with [] => Some (a, b, c, d) | _ => None end.

Definition octet_reads (z : Z) : bool :=
  bool_decide (zlen (decimal z) ≤ 3) && forallb is_digit (decimal z) &&
  bool_decide (read_octet (decimal z ++ [46]) = Some (z, [46])) && bool_decide (read_octet (decimal z) = Some (z, [])).
Lemma octets_read : forallb (λ n, octet_reads (Z.of_nat n)) (seq 0 256) = true.
Proof. vm_compute. reflexivity. Qed.
Lemma octet_read z : is_u8 z = true → octet_reads z = true.
Proof.
  intros Hz%is_u8_spec. pose proof (proj1 (forallb_forall _ _) octets_read (Z.to_nat z)) as H. cbv beta in H.
  rewrite Z2Nat.id in H by lia. apply H, in_seq. lia.
Qed.
Lemma span_digits_app d rest : forallb is_digit d = true → (∀ c l, rest = c :: l → is_digit c = false) → span_digits (d ++ rest) = (d, rest).
Proof.
  induction d as [|c d IH]; cbn [app forallb]; intros Hd Hr.
  - destruct rest as [|c l]; [done|]. cbn [span_digits]. by rewrite (Hr c l eq_refl).
  - apply andb_prop in Hd as [Hc Hd]. cbn [span_digits]. by rewrite Hc, IH.
Qed.
Lemma read_octet_dot z l : is_u8 z = true → read_octet (decimal z ++ 46 :: l) = Some (z, 46 :: l).
Proof.
  intros Hz%octet_read. unfold octet_reads in Hz. bool_hyps. revert select (read_octet (_ ++ [46]) = _). unfold read_octet.
  rewrite !span_digits_app by (done || by intros ? ? [= <- <-]). case_match; [|done]. by intros [= ->].
Qed.
(** An address reads back from its text. *)
Lemma ipv4_from_str_display a b c d : is_bytes [a; b; c; d] = true → ipv4_from_str (ip_display (a, b, c, d)) = Some (a, b, c, d).
Proof.
  unfold is_bytes. cbn [forallb]. intros H. bool_hyps. unfold ipv4_from_str, ip_display.
  assert (Hlen : ∀ z, is_u8 z = true → zlen (decimal z) ≤ 3) by (intros z Hz%octet_read; unfold octet_reads in Hz; by bool_hyps).
  change (lit ".") with [46]. cbn [app].
  destruct (Z.ltb_spec 15 (zlen (decimal a ++ 46 :: decimal b ++ 46 :: decimal c ++ 46 :: decimal d))) as [Hl|_].
  { repeat rewrite ?zlen_app, ?zlen_cons in Hl. pose proof (Hlen a ltac:(done)). pose proof (Hlen b ltac:(done)).
    pose proof (Hlen c ltac:(done)). pose proof (Hlen d ltac:(done)). lia. }
  rewrite !read_octet_dot by done. cbn [mbind option_bind read_dot Z.eqb Pos.eqb].
  repeat (rewrite read_octet_dot by done; cbn [mbind option_bind read_dot Z.eqb Pos.eqb]).
  assert (Hd : octet_reads d = true) by by apply octet_read. unfold octet_reads in Hd. bool_hyps.
  revert select (read_octet (decimal d) = _). intros ->. done.
Qed.
