(* ===== verification/F64.v ===== *)
(** * Binary64 numbers

    The operations of [f64] that the code uses, as those of [SpecFloat] at the precision
    and the exponents of binary64, and [Duration::as_secs_f64]. *)

From Stdlib Require Export SpecFloat.
From S2P Require Import Prelude.

Definition f64_of (n : Z) : spec_float := binary_normalize 53 1024 n 0 false.
Definition f64_div : spec_float → spec_float → spec_float := SFdiv 53 1024.
Definition f64_add : spec_float → spec_float → spec_float := SFadd 53 1024.
Definition f64_sub : spec_float → spec_float → spec_float := SFsub 53 1024.
Definition f64_mul : spec_float → spec_float → spec_float := SFmul 53 1024.
Definition f64_max (a b : spec_float) : spec_float := if SFltb a b then b else a.
Definition f64_min (a b : spec_float) : spec_float := if SFltb b a then b else a.
Definition as_secs_f64 (nanos : Z) : spec_float :=
  f64_add (f64_of (nanos / NANOS_PER_SEC)) (f64_div (f64_of (nanos mod NANOS_PER_SEC)) (f64_of NANOS_PER_SEC)).
