(* ===== verification/Utf8.v ===== *)
(** * UTF-8 text

    The part of Rust's [str]/[String] the codecs rely on: validation
    ([std::str::from_utf8]), the lossy decoder ([String::from_utf8_lossy]) and
    [chars()]. A [String] is the list of its UTF-8 bytes.

    The decoder cuts its input into chunks: a well-formed character, or a
    maximal ill-formed prefix (what the lossy decoder replaces by one U+FFFD). *)

From S2P Require Import Prelude.

(** [TAG_CONT_U8]: a continuation byte. *)
Definition is_cont (b : Z) : bool := (128 <=? b) && (b <=? 191).
Definition in_range (lo hi b : Z) : bool := (lo <=? b) && (b <=? hi).
(** [safe_get]: 0 past the end. *)
Definition safe_get (l : list Z) (i : nat) : Z := nth i l 0.

(** The second byte allowed after the lead byte of a 3- or 4-byte character
    (no overlong form, no surrogate, nothing above U+10FFFF). *)
Definition second3 (b c : Z) : bool :=
  ((b =? 0xE0) && in_range 0xA0 0xBF c) || (in_range 0xE1 0xEC b && in_range 0x80 0xBF c) ||
  ((b =? 0xED) && in_range 0x80 0x9F c) || (in_range 0xEE 0xEF b && in_range 0x80 0xBF c).
Definition second4 (b c : Z) : bool :=
  ((b =? 0xF0) && in_range 0x90 0xBF c) || (in_range 0xF1 0xF3 b && in_range 0x80 0xBF c) ||
  ((b =? 0xF4) && in_range 0x80 0x8F c).

(** One step of the decoder: the length of the next chunk and whether it is a
    well-formed character. *)
Definition utf8_step (l : list Z) : nat * bool :=
  match l with
  | [] => (O, true)
  | b :: t =>
      if b <? 128 then (1%nat, true)
      else if in_range 0xC2 0xDF b then
        if is_cont (safe_get t 0) then (2%nat, true) else (1%nat, false)
      else if in_range 0xE0 0xEF b then
        if negb (second3 b (safe_get t 0)) then (1%nat, false)
        else if is_cont (safe_get t 1) then (3%nat, true) else (2%nat, false)
      else if in_range 0xF0 0xF4 b then
        if negb (second4 b (safe_get t 0)) then (1%nat, false)
        else if negb (is_cont (safe_get t 1)) then (2%nat, false)
        else if is_cont (safe_get t 2) then (4%nat, true) else (3%nat, false)
      else (1%nat, false)
  end.

(** All the chunks; [length l] steps are enough since a chunk is not empty. *)
Fixpoint utf8_chunks_fuel (fuel : nat) (l : list Z) : list (bool * list Z) :=
  match fuel, l with
  | S f, _ :: _ =>
      let '(n, ok) := utf8_step l in (ok, take n l) :: utf8_chunks_fuel f (drop n l)
  | _, _ => []
  end.
Definition utf8_chunks (l : list Z) : list (bool * list Z) := utf8_chunks_fuel (length l) l.

(** [std::str::from_utf8(l).is_ok()] *)
Definition utf8_valid (l : list Z) : bool := forallb fst (utf8_chunks l).
Definition REPLACEMENT : list Z := [0xEF; 0xBF; 0xBD].
(** [String::from_utf8_lossy] *)
Definition from_utf8_lossy (l : list Z) : list Z :=
  flat_map (λ c : bool * list Z, if c.1 then c.2 else REPLACEMENT) (utf8_chunks l).
(** [s.chars().collect()], each character as its bytes. *)
Definition chars (s : list Z) : list (list Z) := map snd (utf8_chunks s).

(** ** Lemmas *)

Lemma utf8_step_bounds b t n ok : utf8_step (b :: t) = (n, ok) → (1 ≤ n ≤ length (b :: t))%nat.
Proof.
  unfold utf8_step, second3, second4, is_cont, in_range, safe_get. intros H.
  destruct t as [|c [|d [|e t]]]; cbn [nth length] in *;
    repeat case_match; simplify_eq; try lia; exfalso; bool_hyps; lia.
Qed.

Lemma utf8_chunks_fuel_mono f g l :
  (length l ≤ f)%nat → (length l ≤ g)%nat → utf8_chunks_fuel f l = utf8_chunks_fuel g l.
Proof.
  revert g l. induction f as [|f IH]; intros g [|b t] Hf Hg; try (cbn in *; lia).
  - by destruct g.
  - by destruct g.
  - destruct g as [|g]; [cbn in *; lia|]. cbn [utf8_chunks_fuel].
    destruct (utf8_step (b :: t)) as [n ok] eqn:Hs.
    apply utf8_step_bounds in Hs. f_equal. cbn [length] in *.
    apply IH; rewrite length_drop; cbn [length]; lia.
Qed.

Lemma utf8_chunks_cons b t n ok :
  utf8_step (b :: t) = (n, ok) →
  utf8_chunks (b :: t) = (ok, take n (b :: t)) :: utf8_chunks (drop n (b :: t)).
Proof.
  intros Hs. unfold utf8_chunks at 1. cbn [length utf8_chunks_fuel]. rewrite Hs. f_equal.
  apply utf8_step_bounds in Hs. apply utf8_chunks_fuel_mono; rewrite ?length_drop;
    cbn [length] in *; lia.
Qed.

(** Induction along the chunks of a byte string. *)
Lemma utf8_ind (P : list Z → Prop) :
  P [] →
  (∀ b t n ok, utf8_step (b :: t) = (n, ok) → P (drop n (b :: t)) → P (b :: t)) →
  ∀ l, P l.
Proof.
  intros Hnil Hcons l. remember (length l) as m eqn:Hm.
  revert l Hm. induction m as [m IH] using lt_wf_ind. intros [|b t] Hm; [done|].
  destruct (utf8_step (b :: t)) as [n ok] eqn:Hs. eapply Hcons; [done|].
  apply utf8_step_bounds in Hs. eapply IH; [|done]. rewrite length_drop. cbn [length] in *. lia.
Qed.

Lemma utf8_chunks_concat l : concat (map snd (utf8_chunks l)) = l.
Proof.
  induction l as [|b t n ok Hs IH] using utf8_ind; [done|].
  rewrite (utf8_chunks_cons b t n ok Hs). cbn [map concat snd]. rewrite IH. apply take_drop.
Qed.

Lemma chars_concat s : concat (chars s) = s.
Proof. apply utf8_chunks_concat. Qed.

Lemma lossy_valid_id l : utf8_valid l = true → from_utf8_lossy l = l.
Proof.
  unfold utf8_valid, from_utf8_lossy. intros H. rewrite <- (utf8_chunks_concat l) at 2.
  induction (utf8_chunks l) as [|[ok c] cs IH]; [done|]. cbn in *.
  apply andb_true_iff in H as [-> H]. by rewrite IH.
Qed.

(** The step of a well-formed character only reads that character. *)
Lemma utf8_step_app c l : utf8_step c = (length c, true) → c ≠ [] →
  utf8_step (c ++ l) = (length c, true).
Proof.
  intros H Hc. destruct c as [|b c]; [done|].
  assert (Hlen : (length (b :: c) ≤ 4)%nat).
  { cbn [utf8_step] in H. repeat case_match; injection H as H; cbn [length] in *; lia. }
  destruct c as [|c1 [|c2 [|c3 [|]]]]; cbn [length] in *; try lia;
    revert H; unfold utf8_step, safe_get; cbn [app nth length];
    repeat case_match; intros; simplify_eq; done.
Qed.

Lemma utf8_step_char b t n : utf8_step (b :: t) = (n, true) →
  utf8_step (take n (b :: t)) = (length (take n (b :: t)), true).
Proof.
  intros H. pose proof (utf8_step_bounds _ _ _ _ H) as Hn.
  rewrite length_take_le by lia.
  destruct t as [|c [|d [|e t]]]; cbn [length] in Hn;
    unfold utf8_step, safe_get in H; cbn [nth] in H;
    repeat match type of H with context [if ?x then _ else _] => destruct x eqn:? end;
    injection H as <-; try discriminate; try lia; unfold utf8_step, safe_get; cbn [take nth];
    repeat match goal with E : ?x = _ |- context [?x] => rewrite E end; done.
Qed.

Lemma utf8_chunks_char c l : utf8_step c = (length c, true) → c ≠ [] →
  utf8_chunks (c ++ l) = (true, c) :: utf8_chunks l.
Proof.
  intros Hs Hc. pose proof (utf8_step_app c l Hs Hc) as Ha.
  destruct c as [|b c]; [done|]. change ((b :: c) ++ l) with (b :: (c ++ l)) in *.
  rewrite (utf8_chunks_cons _ _ _ _ Ha). change (b :: c ++ l) with ((b :: c) ++ l).
  by rewrite take_app_length, drop_app_length.
Qed.

Lemma lossy_cons b t n ok : utf8_step (b :: t) = (n, ok) →
  from_utf8_lossy (b :: t) =
    (if ok then take n (b :: t) else REPLACEMENT) ++ from_utf8_lossy (drop n (b :: t)).
Proof. intros Hs. unfold from_utf8_lossy. by rewrite (utf8_chunks_cons b t n ok Hs). Qed.

(** The lossy decoder always produces a [String]. *)
Lemma lossy_is_valid l : utf8_valid (from_utf8_lossy l) = true.
Proof.
  induction l as [|b t n ok Hs IH] using utf8_ind; [done|].
  rewrite (lossy_cons b t n ok Hs). unfold utf8_valid in *. destruct ok.
  - pose proof (utf8_step_bounds _ _ _ _ Hs). rewrite utf8_chunks_char; [done| |].
    + by apply utf8_step_char.
    + destruct n; [lia|done].
  - by rewrite utf8_chunks_char.
Qed.

Lemma is_bytes_lossy l : is_bytes l = true → is_bytes (from_utf8_lossy l) = true.
Proof.
  induction l as [|b t n ok Hs IH] using utf8_ind; [done|]. intros Hb.
  rewrite (lossy_cons b t n ok Hs), is_bytes_app, IH by by apply is_bytes_drop.
  destruct ok; [|done]. by rewrite is_bytes_take.
Qed.

(** ASCII text is valid and its characters are its bytes. *)
Lemma ascii_chunks s : Forall (λ b, b < 128) s → utf8_chunks s = map (λ b, (true, [b])) s.
Proof.
  induction 1 as [|b s Hb _ IH]; [done|].
  assert (Hs : utf8_step (b :: s) = (1%nat, true)).
  { unfold utf8_step. by rewrite (proj2 (Z.ltb_lt _ _)). }
  rewrite (utf8_chunks_cons _ _ _ _ Hs). rewrite skipn_cons, drop_0, IH. done.
Qed.

Lemma ascii_valid s : Forall (λ b, b < 128) s → utf8_valid s = true.
Proof.
  intros Hs. unfold utf8_valid. rewrite ascii_chunks by done. clear Hs. by induction s.
Qed.
