(* ===== verification/Wire.v ===== *)
(** * Cursors over byte buffers

    The reader the codecs run: [binrw]'s little-endian [read_le]/[read_type] and
    [read_exact] over a [Cursor<&[u8]>]. The state is the unread suffix of the
    buffer ([cursor.position() < len] is "the suffix is not empty"). Writing goes
    to a [Cursor<Vec<u8>>], which never fails, so a writer is the bytes it
    appends; [expect] on a length that does not fit its field is [Panic]. *)

From S2P Require Import Prelude NodeId.

Definition reader (E A : Type) : Type := list Z → res E (A * list Z).

#[export] Instance reader_ret {E} : MRet (reader E) := λ A a l, Ok (a, l).
#[export] Instance reader_bind {E} : MBind (reader E) := λ A B k m l,
  match m l with Ok (a, l') => k a l' | Err e => Err e | Panic => Panic end.

(** Converting the error with [?] (a [From] instance) or [map_err]. *)
Definition rmap_err {E F A} (f : E → F) (m : reader E A) : reader F A := λ l, map_err f (m l).
Definition rfail {E A} (e : E) : reader E A := λ _, Err e.

(** [read_exact] into a buffer of [n] bytes. *)
Definition read_exact (n : nat) : reader BinErr (list Z) := λ l,
  if (n <=? length l)%nat then Ok (take n l, drop n l) else Err BinEof.
(** [read_to_end] *)
Definition read_to_end {E} : reader E (list Z) := λ l, Ok (l, []).
(** [get_ref().len() - position()] *)
Definition remaining {E} : reader E Z := λ l, Ok (zlen l, l).

Definition read_uint (n : nat) : reader BinErr Z :=
  bs ← read_exact n; mret (from_le_bytes bs).
Definition read_u8 : reader BinErr Z := read_uint 1.
Definition read_u16 : reader BinErr Z := read_uint 2.
Definition read_u32 : reader BinErr Z := read_uint 4.
Definition read_u64 : reader BinErr Z := read_uint 8.
Definition write_u8 (v : Z) : list Z := to_le_bytes 1 v.
Definition write_u16 (v : Z) : list Z := to_le_bytes 2 v.
Definition write_u32 (v : Z) : list Z := to_le_bytes 4 v.
Definition write_u64 (v : Z) : list Z := to_le_bytes 8 v.

(** [BinRead]/[BinWrite] of [NodeId] and [Ed2kHash]: the 16 bytes in order. *)
Definition read_id : reader BinErr (list Z) := read_exact 16.
Definition write_id (id : list Z) : list Z := id.

(** [#[br(count = n)] Vec<T>], and a counted [for] loop of reads. *)
Fixpoint read_many {E A} (n : nat) (r : reader E A) : reader E (list A) :=
  match n with
  | O => mret []
  | S n' => x ← r; xs ← read_many n' r; mret (x :: xs)
  end.
(** Writing the elements of a slice in order. *)
Fixpoint write_all {E A} (w : A → res E (list Z)) (l : list A) : res E (list Z) :=
  match l with
  | [] => Ok []
  | x :: l' => b ← w x; bs ← write_all w l'; Ok (b ++ bs)
  end.

(** ** Lemmas *)

Lemma reader_bind_unfold {E A B} (k : A → reader E B) (m : reader E A) l :
  (m ≫= k) l = match m l with Ok (a, l') => k a l' | Err e => Err e | Panic => Panic end.
Proof. done. Qed.

(** [r] parses [bs] to [x] and leaves what follows. *)
Definition parses {E A} (r : reader E A) (bs : list Z) (x : A) : Prop :=
  ∀ rest, r (bs ++ rest) = Ok (x, rest).

Lemma parses_ret {E A} (x : A) : parses (E:=E) (mret x) [] x.
Proof. by intros rest. Qed.

Lemma parses_bind {E A B} (r : reader E A) (k : A → reader E B) b1 b2 x y :
  parses r b1 x → parses (k x) b2 y → parses (r ≫= k) (b1 ++ b2) y.
Proof.
  intros H1 H2 rest. by rewrite reader_bind_unfold, <- app_assoc, H1, H2.
Qed.

(** The last read of a parser, whose value is returned by a pure continuation. *)
Lemma parses_bind_ret {E A B} (r : reader E A) (f : A → B) bs x :
  parses r bs x → parses (r ≫= λ a, mret (f a)) bs (f x).
Proof. intros H rest. by rewrite reader_bind_unfold, H. Qed.

Lemma parses_rmap {E F A} (f : E → F) (r : reader E A) bs x :
  parses r bs x → parses (rmap_err f r) bs x.
Proof. intros H rest. unfold rmap_err. by rewrite H. Qed.

Lemma parses_exact n bs : length bs = n → parses (read_exact n) bs bs.
Proof.
  intros <- rest. unfold read_exact. rewrite length_app.
  rewrite (proj2 (Nat.leb_le _ _)) by lia. by rewrite take_app_length, drop_app_length.
Qed.

Lemma parses_uint n v : 0 ≤ v < 256 ^ Z.of_nat n → parses (read_uint n) (to_le_bytes n v) v.
Proof.
  intros Hv. unfold read_uint. rewrite <- (from_to_le_bytes n v) at 2 by done.
  apply (parses_bind_ret (read_exact n) from_le_bytes), parses_exact, length_to_le_bytes.
Qed.

Lemma parses_u8 v : is_u8 v = true → parses read_u8 (write_u8 v) v.
Proof. intros H%is_u8_spec. by apply parses_uint. Qed.
Lemma parses_u16 v : is_u16 v = true → parses read_u16 (write_u16 v) v.
Proof. intros H%is_u16_spec. by apply parses_uint. Qed.
Lemma parses_u32 v : is_u32 v = true → parses read_u32 (write_u32 v) v.
Proof. intros H%is_u32_spec. by apply parses_uint. Qed.
Lemma parses_u64 v : is_u64 v = true → parses read_u64 (write_u64 v) v.
Proof. intros H%is_u64_spec. by apply parses_uint. Qed.

Lemma parses_id id : wf_NodeId id = true → parses read_id (write_id id) id.
Proof. intros [H _]%wf_NodeId_spec. by apply parses_exact. Qed.
Lemma parses_hash h : wf_Ed2kHash h = true → parses read_id (write_id h) h.
Proof. apply parses_id. Qed.

#[export] Hint Resolve parses_ret parses_u8 parses_u16 parses_u32 parses_u64 parses_id
  parses_hash parses_rmap : rust.

(** Counted lists: if every element parses (to its decoded form [f x]), so
    does the list. *)
Lemma parses_many {E F A B} (r : reader F B) (w : A → res E (list Z)) (f : A → B) l bs :
  (∀ x b, x ∈ l → w x = Ok b → parses r b (f x)) →
  write_all w l = Ok bs → parses (read_many (length l) r) bs (map f l).
Proof.
  revert bs; induction l as [|x l IH]; intros bs Hl; cbn [write_all length read_many map].
  { intros [= <-]. apply parses_ret. }
  intros (b & Hb & (bs' & Hbs & [= <-])%res_bind_Ok)%res_bind_Ok.
  eapply parses_bind; [apply (Hl x b); [set_solver|done]|].
  apply (parses_bind_ret (read_many (length l) r) (cons (f x))), IH; [|done].
  intros y c Hy. apply Hl. set_solver.
Qed.

Lemma write_all_ok {E A} (w : A → res E (list Z)) l :
  (∀ x, x ∈ l → ∃ b, w x = Ok b) → ∃ bs, write_all w l = Ok bs.
Proof.
  induction l as [|x l IH]; intros H; [by eexists|]. cbn.
  destruct (H x) as [b ->]; [set_solver|]. destruct IH as [bs Hbs]; [set_solver|].
  cbn. rewrite Hbs. by eexists.
Qed.

Lemma write_u8_small v : is_u8 v = true → write_u8 v = [v].
Proof. intros H%is_u8_spec. cbn. by rewrite Z.mod_small by lia. Qed.

Lemma length_write_u8 v : length (write_u8 v) = 1%nat.
Proof. done. Qed.
Lemma length_write_u16 v : length (write_u16 v) = 2%nat.
Proof. done. Qed.
Lemma length_write_u32 v : length (write_u32 v) = 4%nat.
Proof. done. Qed.
Lemma length_write_u64 v : length (write_u64 v) = 8%nat.
Proof. done. Qed.
Lemma length_write_id id : length (write_id id) = length id.
Proof. done. Qed.

#[global] Opaque write_u8 write_u16 write_u32 write_u64 write_id.
#[global] Opaque read_u8 read_u16 read_u32 read_u64 read_id.
