(* ===== verification/Tag.v ===== *)
(** * Kad tags

    Models [overlord-kad-proto/src/tag.rs]: the generic tag envelope of every
    Kad packet family, its decoder ([read_with_mode]) and its encoder
    ([BinWrite for Tag]), with the tag constants of [constants.rs].

    The Windows-1252 decoder of the [encoding_rs] crate, the fallback for
    ill-formed text in search results, is the parameter [windows_1252]. *)

From S2P Require Import Prelude NodeId Utf8 Wire.

(** ** Constants ([mod tag_name]) *)
Definition FILENAME : Z := 0x01.
Definition FILESIZE : Z := 0x02.
Definition FILETYPE : Z := 0x03.
Definition FILEFORMAT : Z := 0x04.
Definition DESCRIPTION : Z := 0x0B.
Definition SOURCES : Z := 0x15.
Definition PUBLISHINFO : Z := 0x33.
Definition KADAICHHASHPUB : Z := 0x36.
Definition KADAICHHASHRESULT : Z := 0x37.
Definition FILESIZE_HI : Z := 0x3A.

(** ** Data *)

Inductive TagName : Type :=
| Short (b : Z)
| Long (s : list Z).

(** A [Float] is kept as its 32 bits. *)
Inductive TagValue : Type :=
| VHash (h : Ed2kHash)
| VString (s : list Z)
| VUInt (v : Z)
| VU64 (v : Z)
| VU32 (v : Z)
| VU16 (v : Z)
| VU8 (v : Z)
| VFloat (bits : Z)
| VBool (b : bool)
| VBlob (data : list Z)
| VSmallBlob (data : list Z).

Record Tag : Type := mkTag { tag_name : TagName; tag_value : TagValue }.

Inductive StringDecodeMode : Type := LossyUtf8 | SearchResult.

#[export] Instance TagName_eq_dec : EqDecision TagName.
Proof. solve_decision. Defined.
#[export] Instance TagValue_eq_dec : EqDecision TagValue.
Proof. solve_decision. Defined.
#[export] Instance Tag_eq_dec : EqDecision Tag.
Proof. solve_decision. Defined.

(** The types of the fields: a [String] is valid UTF-8, a [u8] fits a byte. *)
Definition wf_string (s : list Z) : bool := is_bytes s && utf8_valid s.
Definition wf_TagName (n : TagName) : bool :=
  match n with Short b => is_u8 b | Long s => wf_string s end.
Definition wf_TagValue (v : TagValue) : bool :=
  match v with
  | VHash h => wf_Ed2kHash h
  | VString s => wf_string s
  | VUInt v | VU64 v => is_u64 v
  | VU32 v | VFloat v => is_u32 v
  | VU16 v => is_u16 v
  | VU8 v => is_u8 v
  | VBool _ => true
  | VBlob d | VSmallBlob d => is_bytes d
  end.
Definition wf_Tag (t : Tag) : bool := wf_TagName (tag_name t) && wf_TagValue (tag_value t).

(** ** Constructors *)
Definition new_short (name_byte : Z) (v : TagValue) : Tag := mkTag (Short name_byte) v.
Definition new_long (name : list Z) (v : TagValue) : Tag := mkTag (Long name) v.
Definition tag_filename (name : list Z) : Tag := new_short FILENAME (VString name).
Definition tag_filesize (size : Z) : Tag := new_short FILESIZE (VUInt size).
Definition tag_filetype (t : list Z) : Tag := new_short FILETYPE (VString t).
Definition tag_sources (n : Z) : Tag := new_short SOURCES (VUInt n).
Definition tag_kad_aich_hash_pub (hash : list Z) : Tag :=
  new_short KADAICHHASHPUB (VSmallBlob hash).

(** ** Encoder *)

Definition value_type_byte (v : TagValue) : Z :=
  match v with
  | VHash _ => 0x01
  | VString _ => 0x02
  | VUInt value =>
      if value <=? 255 then 0x09
      else if value <=? U16_MAX then 0x08
      else if value <=? U32_MAX then 0x03
      else 0x0B
  | VU32 _ => 0x03
  | VFloat _ => 0x04
  | VBool _ => 0x05
  | VBlob _ => 0x07
  | VSmallBlob _ => 0x0A
  | VU16 _ => 0x08
  | VU8 _ => 0x09
  | VU64 _ => 0x0B
  end.

(** A length that must fit a [w]-bit field ([try_from(..).expect(..)]). *)
Definition expect_len {A} (w : Z) (l : list A) : res ProtoError Z :=
  expect (try_from_u w (zlen l)).

Definition write_name (n : TagName) : res ProtoError (list Z) :=
  match n with
  | Short b => Ok (write_u16 1 ++ write_u8 b)
  | Long s => len ← expect_len 16 s; Ok (write_u16 len ++ s)
  end.

Definition write_value (v : TagValue) : res ProtoError (list Z) :=
  match v with
  | VHash h => Ok (write_id h)
  | VString s => len ← expect_len 16 s; Ok (write_u16 len ++ s)
  | VUInt v =>
      if v <=? 255 then Ok (write_u8 v)
      else if v <=? U16_MAX then Ok (write_u16 v)
      else if v <=? U32_MAX then Ok (write_u32 v)
      else Ok (write_u64 v)
  | VU32 v => Ok (write_u32 v)
  | VFloat v => Ok (write_u32 v)
  | VBool b => Ok (write_u8 (if b then 1 else 0))
  | VBlob d => len ← expect_len 32 d; Ok (write_u32 len ++ d)
  | VSmallBlob d => len ← expect_len 8 d; Ok (write_u8 len ++ d)
  | VU16 v => Ok (write_u16 v)
  | VU8 v => Ok (write_u8 v)
  | VU64 v => Ok (write_u64 v)
  end.

Definition write_tag (t : Tag) : res ProtoError (list Z) :=
  name ← write_name (tag_name t);
  value ← write_value (tag_value t);
  Ok (write_u8 (value_type_byte (tag_value t)) ++ name ++ value).

(** ** Decoder *)

Section decoder.
Context (windows_1252 : list Z → list Z).

Definition decode_legacy_search_result_string (bytes : list Z) : list Z := windows_1252 bytes.

Definition decode_string_bytes (bytes : list Z) (mode : StringDecodeMode) : list Z :=
  match mode with
  | LossyUtf8 => from_utf8_lossy bytes
  | SearchResult =>
      if utf8_valid bytes then bytes else decode_legacy_search_result_string bytes
  end.

Definition read_name (short_name : bool) (mode : StringDecodeMode) : reader BinErr TagName :=
  if short_name then (name_byte ← read_u8; mret (Short name_byte))
  else
    name_len ← read_u16;
    name_bytes ← read_exact (Z.to_nat name_len);
    mret (match name_bytes with
          | [b] => Short b
          | _ => Long (decode_string_bytes name_bytes mode)
          end).

Definition read_value (tag_type : Z) (mode : StringDecodeMode) : reader BinErr TagValue :=
  match tag_type with
  | 0x01 => h ← read_id; mret (VHash h)
  | 0x02 =>
      str_len ← read_u16;
      str_bytes ← read_exact (Z.to_nat str_len);
      mret (VString (decode_string_bytes str_bytes mode))
  | 0x03 => v ← read_u32; mret (VU32 v)
  | 0x04 => v ← read_u32; mret (VFloat v)
  | 0x05 => v ← read_u8; mret (VBool (negb (v =? 0)))
  | 0x06 =>
      arr_len ← read_u16;
      data ← read_exact (Z.to_nat ((arr_len + 7) / 8));
      mret (VBlob data)
  | 0x07 =>
      blob_len ← read_u32;
      data ← read_exact (Z.to_nat blob_len);
      mret (VBlob data)
  | 0x08 => v ← read_u16; mret (VU16 v)
  | 0x09 => v ← read_u8; mret (VU8 v)
  | 0x0A =>
      bsob_len ← read_u8;
      data ← read_exact (Z.to_nat bsob_len);
      mret (VSmallBlob data)
  | 0x0B => v ← read_u64; mret (VU64 v)
  | other => rfail (BinUnknownTagType other)
  end.

Definition read_with_mode (mode : StringDecodeMode) : reader BinErr Tag :=
  type_byte ← read_u8;
  name ← read_name (negb (Z.land type_byte 0x80 =? 0)) mode;
  value ← read_value (Z.land type_byte 0x7F) mode;
  mret (mkTag name value).

(** [BinRead for Tag] *)
Definition read_tag : reader BinErr Tag := read_with_mode LossyUtf8.
End decoder.

(** ** What a tag becomes on the wire

    The wire does not keep the [UInt] storage class (it picks a width) nor a
    long name of one byte (the decoder takes it for a short one). *)
Definition normalize_name (n : TagName) : TagName :=
  match n with Long [b] => Short b | _ => n end.
Definition normalize_value (v : TagValue) : TagValue :=
  match v with
  | VUInt v =>
      if v <=? 255 then VU8 v
      else if v <=? U16_MAX then VU16 v
      else if v <=? U32_MAX then VU32 v
      else VU64 v
  | _ => v
  end.
Definition normalize_tag (t : Tag) : Tag :=
  mkTag (normalize_name (tag_name t)) (normalize_value (tag_value t)).

(** ** Lemmas *)

Lemma expect_len_Ok {A} w (l : list A) n :
  expect_len w l = Ok n ↔ n = zlen l ∧ zlen l < 2 ^ w.
Proof.
  unfold expect_len, try_from_u, is_u, zlen. destruct (Z.ltb_spec (Z.of_nat (length l)) (2 ^ w)).
  - replace (0 <=? Z.of_nat (length l)) with true by lia. cbn. split; [intros [= <-]; lia|].
    by intros [-> _].
  - rewrite andb_false_r. cbn. split; [done|lia].
Qed.

Lemma expect_len_no_err {A} w (l : list A) e : expect_len w l ≠ Err e.
Proof. unfold expect_len. by destruct (try_from_u w (zlen l)). Qed.

Lemma zlen_u {A} w (l : list A) : zlen l < 2 ^ w → is_u w (zlen l) = true.
Proof. intros H. apply is_u_spec. unfold zlen in *. lia. Qed.

Lemma to_nat_zlen {A} (l : list A) : Z.to_nat (zlen l) = length l.
Proof. apply Nat2Z.id. Qed.

(** A length-prefixed byte string. *)
Lemma parses_counted {B} (r : reader BinErr Z) pre (l : list Z) (f : list Z → B) :
  parses r pre (zlen l) →
  parses (len ← r; bs ← read_exact (Z.to_nat len); mret (f bs)) (pre ++ l) (f l).
Proof.
  intros Hr. eapply parses_bind; [exact Hr|]. rewrite to_nat_zlen.
  by apply (parses_bind_ret (read_exact (length l)) f), parses_exact.
Qed.

Section roundtrip.
Context (windows_1252 : list Z → list Z).

Lemma decode_string_valid s mode : utf8_valid s = true → decode_string_bytes windows_1252 s mode = s.
Proof. intros H. destruct mode; cbn; [by apply lossy_valid_id|by rewrite H]. Qed.

Lemma parses_name n b mode : wf_TagName n = true → write_name n = Ok b →
  parses (read_name windows_1252 false mode) b (normalize_name n).
Proof.
  destruct n as [x|s]; cbn -[is_u8 write_u16 write_u8].
  - intros Hx [= <-]. rewrite write_u8_small by done.
    apply (parses_counted read_u16 (write_u16 1) [x]
      (λ bs, match bs with [c] => Short c | _ => Long (decode_string_bytes windows_1252 bs mode) end)).
    by apply parses_u16.
  - intros [Hb Hv]%andb_true_iff (len & (-> & Hlen)%expect_len_Ok & [= <-])%res_bind_Ok.
    cbn [read_name].
    replace (match s with [c] => Short c | _ => Long s end) with
      (match s with [c] => Short c | _ => Long (decode_string_bytes windows_1252 s mode) end).
    2:{ by rewrite decode_string_valid. }
    apply (parses_counted read_u16 (write_u16 (zlen s)) s
      (λ bs, match bs with [c] => Short c | _ => Long (decode_string_bytes windows_1252 bs mode) end)).
    by apply parses_u16, zlen_u.
Qed.

Lemma parses_value v b mode : wf_TagValue v = true → write_value v = Ok b →
  parses (read_value windows_1252 (value_type_byte v) mode) b (normalize_value v).
Proof.
  destruct v as [h|s|v|v|v|v|v|v|c|d|d];
    cbn -[is_u8 is_u16 is_u32 is_u64 wf_Ed2kHash U16_MAX U32_MAX write_u8 write_u16 write_u32 write_u64].
  - intros H [= <-]. apply (parses_bind_ret read_id VHash). by apply parses_id.
  - intros [Hb Hv]%andb_true_iff (len & (-> & Hlen)%expect_len_Ok & [= <-])%res_bind_Ok.
    replace (VString s) with (VString (decode_string_bytes windows_1252 s mode))
      by by rewrite decode_string_valid.
    apply (parses_counted read_u16 (write_u16 (zlen s)) s (λ bs, VString (decode_string_bytes windows_1252 bs mode))).
    by apply parses_u16, zlen_u.
  - intros H%is_u64_spec. unfold U16_MAX, U32_MAX.
    repeat case_match; bool_hyps; intros [= <-]; cbn [read_value].
    + apply (parses_bind_ret read_u8 VU8), parses_u8, is_u8_spec. lia.
    + apply (parses_bind_ret read_u16 VU16), parses_u16, is_u16_spec. lia.
    + apply (parses_bind_ret read_u32 VU32), parses_u32, is_u32_spec. lia.
    + apply (parses_bind_ret read_u64 VU64), parses_u64, is_u64_spec. lia.
  - intros H [= <-]. apply (parses_bind_ret read_u64 VU64). by apply parses_u64.
  - intros H [= <-]. apply (parses_bind_ret read_u32 VU32). by apply parses_u32.
  - intros H [= <-]. apply (parses_bind_ret read_u16 VU16). by apply parses_u16.
  - intros H [= <-]. apply (parses_bind_ret read_u8 VU8). by apply parses_u8.
  - intros H [= <-]. apply (parses_bind_ret read_u32 VFloat). by apply parses_u32.
  - intros _ [= <-].
    replace (VBool c) with (VBool (negb ((if c then 1 else 0) =? 0))) by by destruct c.
    apply (parses_bind_ret read_u8 (λ v, VBool (negb (v =? 0)))), parses_u8. by destruct c.
  - intros Hd (len & (-> & Hlen)%expect_len_Ok & [= <-])%res_bind_Ok.
    apply (parses_counted read_u32 (write_u32 (zlen d)) d VBlob). by apply parses_u32, zlen_u.
  - intros Hd (len & (-> & Hlen)%expect_len_Ok & [= <-])%res_bind_Ok.
    apply (parses_counted read_u8 (write_u8 (zlen d)) d VSmallBlob). by apply parses_u8, zlen_u.
Qed.

Lemma value_type_byte_range v : 1 ≤ value_type_byte v ≤ 11.
Proof. destruct v; cbn; repeat case_match; lia. Qed.

Lemma value_type_byte_masks v :
  Z.land (value_type_byte v) 0x80 = 0 ∧ Z.land (value_type_byte v) 0x7F = value_type_byte v.
Proof.
  destruct v; cbn [value_type_byte]; repeat case_match; done.
Qed.

Lemma parses_tag t b mode : wf_Tag t = true → write_tag t = Ok b →
  parses (read_with_mode windows_1252 mode) b (normalize_tag t).
Proof.
  unfold wf_Tag, write_tag. intros [Hn Hv]%andb_true_iff
    (nb & Hnb & (vb & Hvb & [= <-])%res_bind_Ok)%res_bind_Ok.
  unfold read_with_mode. eapply parses_bind.
  { apply parses_u8, is_u8_spec. pose proof (value_type_byte_range (tag_value t)). lia. }
  destruct (value_type_byte_masks (tag_value t)) as [-> ->]. cbn [Z.eqb negb].
  eapply parses_bind; [by apply parses_name|].
  apply (parses_bind_ret _ (mkTag (normalize_name (tag_name t)))). by apply parses_value.
Qed.
End roundtrip.

(** The lengths the encoder's [expect]s need. *)
Definition tag_encodable (t : Tag) : bool :=
  match tag_name t with Short _ => true | Long s => zlen s <? 2 ^ 16 end &&
  match tag_value t with
  | VString s => zlen s <? 2 ^ 16
  | VBlob d => zlen d <? 2 ^ 32
  | VSmallBlob d => zlen d <? 2 ^ 8
  | _ => true
  end.

Lemma expect_len_dec {A} w (l : list A) :
  expect_len w l = if zlen l <? 2 ^ w then Ok (zlen l) else Panic.
Proof.
  unfold expect_len, try_from_u, is_u, zlen.
  rewrite (proj2 (Z.leb_le 0 (Z.of_nat (length l)))) by lia. cbn [andb].
  by destruct (Z.of_nat (length l) <? 2 ^ w).
Qed.

Lemma write_tag_total t :
  if tag_encodable t then ∃ b, write_tag t = Ok b else write_tag t = Panic.
Proof.
  unfold tag_encodable, write_tag. destruct t as [n v]. cbn [tag_name tag_value].
  destruct n as [x|s]; destruct v;
    cbn [write_name write_value]; rewrite ?expect_len_dec;
    repeat match goal with
    | |- context [?a <? ?b] => destruct (a <? b)
    | |- context [?a <=? ?b] => destruct (a <=? b)
    end; cbn [andb mbind res_bind]; eauto.
Qed.

Lemma normalize_tag_idemp t : normalize_tag (normalize_tag t) = normalize_tag t.
Proof.
  destruct t as [n v]. unfold normalize_tag. cbn. f_equal.
  - by destruct n as [|[|? []]].
  - destruct v; cbn; repeat case_match; done.
Qed.
