(* ===== verification/PacketTypes.v ===== *)
(** * Kad packet layouts

    Models [overlord-kad-proto/src/packet/types.rs], the struct layouts of the
    Kad2 packets with the reader and the writer [binrw] derives for each, and
    the hand-written codecs of [packet/codec.rs]. The derived reader reads the
    fields in order; a counted [Vec] reads its count field and then that many
    elements, and its writer [expect]s the length to fit the count. *)

From S2P Require Import Prelude Net NodeId Utf8 Wire Tag.

(** ** Data *)

Record ContactEntry := mkContactEntry {
  ce_node_id : NodeId; ce_ip : Z; ce_udp_port : Z; ce_tcp_port : Z; ce_version : Z }.
Record BootstrapRes := mkBootstrapRes {
  br_sender_id : NodeId; br_sender_tcp_port : Z; br_sender_version : Z;
  br_contacts : list ContactEntry }.
Record HelloReq := mkHelloReq {
  hq_node_id : NodeId; hq_tcp_port : Z; hq_version : Z; hq_tags : list Tag }.
Record HelloRes := mkHelloRes {
  hr_node_id : NodeId; hr_tcp_port : Z; hr_version : Z; hr_tags : list Tag }.
Record HelloResAck := mkHelloResAck { ha_node_id : NodeId; ha_tags : list Tag }.
Record Req := mkReq { rq_count : Z; rq_target : NodeId; rq_recipient_id : NodeId }.
Record Res := mkRes { rs_target : NodeId; rs_contacts : list ContactEntry }.
Record SearchKeyReq := mkSearchKeyReq {
  sk_target : NodeId; sk_start_position : Z; sk_restrictive_payload : list Z }.
Record SearchSourceReq := mkSearchSourceReq {
  ss_target : NodeId; ss_start_position : Z; ss_size : Z }.
Record SearchNotesReq := mkSearchNotesReq { sn_target : NodeId; sn_size : Z }.
Record SearchResultEntry := mkSearchResultEntry { se_entry_id : Ed2kHash; se_tags : list Tag }.
Record SearchRes := mkSearchRes {
  sr_sender_id : NodeId; sr_target : NodeId; sr_results : list SearchResultEntry }.
Record PublishEntry := mkPublishEntry { pe_hash : Ed2kHash; pe_tags : list Tag }.
Record PublishKeyReq := mkPublishKeyReq { pk_target : NodeId; pk_entries : list PublishEntry }.
Record PublishSourceReq := mkPublishSourceReq {
  ps_target : NodeId; ps_publisher_id : NodeId; ps_tags : list Tag }.
Record PublishNotesReq := mkPublishNotesReq {
  pn_target : NodeId; pn_publisher_id : NodeId; pn_tags : list Tag }.
Record PublishRes := mkPublishRes { pr_target : NodeId; pr_load : Z; pr_options : option Z }.
Record FirewalledReq := mkFirewalledReq { fw_tcp_port : Z }.
Record Firewalled2Req := mkFirewalled2Req {
  f2_tcp_port : Z; f2_user_hash : Ed2kHash; f2_connect_options : Z }.
Record FirewalledRes := mkFirewalledRes { fr_ip : Z }.
Record FirewallUdp := mkFirewallUdp { fu_error_code : Z; fu_udp_port : Z }.
Record FindBuddyReq := mkFindBuddyReq {
  fb_buddy_id : NodeId; fb_client_hash : Ed2kHash; fb_tcp_port : Z }.
Record FindBuddyRes := mkFindBuddyRes {
  fs_buddy_id : NodeId; fs_client_hash : Ed2kHash; fs_tcp_port : Z;
  fs_connect_options : option Z }.
Record CallbackReq := mkCallbackReq {
  cb_buddy_id : NodeId; cb_file_hash : Ed2kHash; cb_tcp_port : Z }.
Record Pong := mkPong { po_udp_port : Z }.

(** ** Layouts with counted lists *)

(** A count field of [w] bits followed by the elements. *)
Definition write_counted {A} (w : Z) (wcount : Z → list Z) (welem : A → res ProtoError (list Z))
    (l : list A) : res ProtoError (list Z) :=
  n ← expect_len w l; bs ← write_all welem l; Ok (wcount n ++ bs).
Definition read_counted {E A} (rcount : reader E Z) (relem : reader E A) : reader E (list A) :=
  n ← rcount; read_many (Z.to_nat n) relem.

Definition read_contact_entry : reader BinErr ContactEntry :=
  id ← read_id; ip ← read_u32; udp ← read_u16; tcp ← read_u16; version ← read_u8;
  mret (mkContactEntry id ip udp tcp version).
Definition write_contact_entry (c : ContactEntry) : res ProtoError (list Z) :=
  Ok (write_id (ce_node_id c) ++ write_u32 (ce_ip c) ++ write_u16 (ce_udp_port c) ++
      write_u16 (ce_tcp_port c) ++ write_u8 (ce_version c)).

Definition ip_addr (c : ContactEntry) : Ipv4Addr := ipv4_from_u32 (ce_ip c).

Section codec.
Context (windows_1252 : list Z → list Z).
Abbreviation read_tag := (read_tag windows_1252).

Definition read_tags8 : reader BinErr (list Tag) := read_counted read_u8 read_tag.
Definition write_tags8 (tags : list Tag) : res ProtoError (list Z) :=
  write_counted 8 write_u8 write_tag tags.

Definition read_bootstrap_res : reader BinErr BootstrapRes :=
  id ← read_id; port ← read_u16; version ← read_u8;
  contacts ← read_counted read_u16 read_contact_entry;
  mret (mkBootstrapRes id port version contacts).
Definition write_bootstrap_res (p : BootstrapRes) : res ProtoError (list Z) :=
  contacts ← write_counted 16 write_u16 write_contact_entry (br_contacts p);
  Ok (write_id (br_sender_id p) ++ write_u16 (br_sender_tcp_port p) ++
      write_u8 (br_sender_version p) ++ contacts).

Definition read_hello_req : reader BinErr HelloReq :=
  id ← read_id; port ← read_u16; version ← read_u8; tags ← read_tags8;
  mret (mkHelloReq id port version tags).
Definition write_hello_req (p : HelloReq) : res ProtoError (list Z) :=
  tags ← write_tags8 (hq_tags p);
  Ok (write_id (hq_node_id p) ++ write_u16 (hq_tcp_port p) ++ write_u8 (hq_version p) ++ tags).

Definition read_hello_res : reader BinErr HelloRes :=
  id ← read_id; port ← read_u16; version ← read_u8; tags ← read_tags8;
  mret (mkHelloRes id port version tags).
Definition write_hello_res (p : HelloRes) : res ProtoError (list Z) :=
  tags ← write_tags8 (hr_tags p);
  Ok (write_id (hr_node_id p) ++ write_u16 (hr_tcp_port p) ++ write_u8 (hr_version p) ++ tags).

Definition read_hello_res_ack : reader BinErr HelloResAck :=
  id ← read_id; tags ← read_tags8; mret (mkHelloResAck id tags).
Definition write_hello_res_ack (p : HelloResAck) : res ProtoError (list Z) :=
  tags ← write_tags8 (ha_tags p); Ok (write_id (ha_node_id p) ++ tags).

Definition read_req : reader BinErr Req :=
  count ← read_u8; target ← read_id; recipient ← read_id; mret (mkReq count target recipient).
Definition write_req (p : Req) : res ProtoError (list Z) :=
  Ok (write_u8 (rq_count p) ++ write_id (rq_target p) ++ write_id (rq_recipient_id p)).

Definition read_res : reader BinErr Res :=
  target ← read_id; contacts ← read_counted read_u8 read_contact_entry;
  mret (mkRes target contacts).
Definition write_res (p : Res) : res ProtoError (list Z) :=
  contacts ← write_counted 8 write_u8 write_contact_entry (rs_contacts p);
  Ok (write_id (rs_target p) ++ contacts).

Definition read_search_notes_req : reader BinErr SearchNotesReq :=
  target ← read_id; size ← read_u64; mret (mkSearchNotesReq target size).
Definition write_search_notes_req (p : SearchNotesReq) : res ProtoError (list Z) :=
  Ok (write_id (sn_target p) ++ write_u64 (sn_size p)).

Definition read_publish_entry : reader BinErr PublishEntry :=
  h ← read_id; tags ← read_tags8; mret (mkPublishEntry h tags).
Definition write_publish_entry (p : PublishEntry) : res ProtoError (list Z) :=
  tags ← write_tags8 (pe_tags p); Ok (write_id (pe_hash p) ++ tags).

Definition read_publish_key_req : reader BinErr PublishKeyReq :=
  target ← read_id; entries ← read_counted read_u16 read_publish_entry;
  mret (mkPublishKeyReq target entries).
Definition write_publish_key_req (p : PublishKeyReq) : res ProtoError (list Z) :=
  entries ← write_counted 16 write_u16 write_publish_entry (pk_entries p);
  Ok (write_id (pk_target p) ++ entries).

Definition read_publish_source_req : reader BinErr PublishSourceReq :=
  target ← read_id; publisher ← read_id; tags ← read_tags8;
  mret (mkPublishSourceReq target publisher tags).
Definition write_publish_source_req (p : PublishSourceReq) : res ProtoError (list Z) :=
  tags ← write_tags8 (ps_tags p);
  Ok (write_id (ps_target p) ++ write_id (ps_publisher_id p) ++ tags).

Definition read_publish_notes_req : reader BinErr PublishNotesReq :=
  target ← read_id; publisher ← read_id; tags ← read_tags8;
  mret (mkPublishNotesReq target publisher tags).
Definition write_publish_notes_req (p : PublishNotesReq) : res ProtoError (list Z) :=
  tags ← write_tags8 (pn_tags p);
  Ok (write_id (pn_target p) ++ write_id (pn_publisher_id p) ++ tags).

Definition read_firewalled_req : reader BinErr FirewalledReq :=
  port ← read_u16; mret (mkFirewalledReq port).
Definition write_firewalled_req (p : FirewalledReq) : res ProtoError (list Z) :=
  Ok (write_u16 (fw_tcp_port p)).

Definition read_firewalled2_req : reader BinErr Firewalled2Req :=
  port ← read_u16; h ← read_id; options ← read_u8; mret (mkFirewalled2Req port h options).
Definition write_firewalled2_req (p : Firewalled2Req) : res ProtoError (list Z) :=
  Ok (write_u16 (f2_tcp_port p) ++ write_id (f2_user_hash p) ++ write_u8 (f2_connect_options p)).

Definition read_firewalled_res : reader BinErr FirewalledRes :=
  ip ← read_u32; mret (mkFirewalledRes ip).
Definition write_firewalled_res (p : FirewalledRes) : res ProtoError (list Z) :=
  Ok (write_u32 (fr_ip p)).

Definition read_firewall_udp : reader BinErr FirewallUdp :=
  code ← read_u8; port ← read_u16; mret (mkFirewallUdp code port).
Definition write_firewall_udp (p : FirewallUdp) : res ProtoError (list Z) :=
  Ok (write_u8 (fu_error_code p) ++ write_u16 (fu_udp_port p)).

Definition read_find_buddy_req : reader BinErr FindBuddyReq :=
  id ← read_id; h ← read_id; port ← read_u16; mret (mkFindBuddyReq id h port).
Definition write_find_buddy_req (p : FindBuddyReq) : res ProtoError (list Z) :=
  Ok (write_id (fb_buddy_id p) ++ write_id (fb_client_hash p) ++ write_u16 (fb_tcp_port p)).

Definition read_callback_req : reader BinErr CallbackReq :=
  id ← read_id; h ← read_id; port ← read_u16; mret (mkCallbackReq id h port).
Definition write_callback_req (p : CallbackReq) : res ProtoError (list Z) :=
  Ok (write_id (cb_buddy_id p) ++ write_id (cb_file_hash p) ++ write_u16 (cb_tcp_port p)).

Definition read_pong : reader BinErr Pong := port ← read_u16; mret (mkPong port).
Definition write_pong (p : Pong) : res ProtoError (list Z) := Ok (write_u16 (po_udp_port p)).

(** ** Hand-written codecs ([codec.rs]) *)

Abbreviation lift := (rmap_err BinRw).

Definition read_kad_search_entry_id : reader ProtoError Ed2kHash :=
  entry_id ← lift read_id; mret (id_to_be_bytes entry_id).
Definition write_kad_search_entry_id (entry_id : Ed2kHash) : list Z :=
  write_id (id_from_be_bytes entry_id).

Definition read_search_result_entry : reader ProtoError SearchResultEntry :=
  entry_id ← read_kad_search_entry_id;
  tag_count ← lift read_u8;
  tags ← read_many (Z.to_nat tag_count) (lift (read_with_mode windows_1252 SearchResult));
  mret (mkSearchResultEntry entry_id tags).
Definition read_search_res : reader ProtoError SearchRes :=
  sender_id ← lift read_id;
  target ← lift read_id;
  count ← lift read_u16;
  results ← read_many (Z.to_nat count) read_search_result_entry;
  mret (mkSearchRes sender_id target results).

Definition write_search_result_entry (r : SearchResultEntry) : res ProtoError (list Z) :=
  count ← expect_len 8 (se_tags r);
  tags ← write_all write_tag (se_tags r);
  Ok (write_kad_search_entry_id (se_entry_id r) ++ write_u8 count ++ tags).
Definition write_search_res (p : SearchRes) : res ProtoError (list Z) :=
  count ← expect_len 16 (sr_results p);
  results ← write_all write_search_result_entry (sr_results p);
  Ok (write_id (sr_sender_id p) ++ write_id (sr_target p) ++ write_u16 count ++ results).

(** An optional trailing byte: read when the buffer is not exhausted. *)
Definition read_opt_u8 : reader ProtoError (option Z) :=
  rem ← remaining;
  if 0 <? rem then (b ← lift read_u8; mret (Some b)) else mret None.
Definition write_opt_u8 (o : option Z) : list Z :=
  match o with Some b => write_u8 b | None => [] end.

Definition read_find_buddy_res : reader ProtoError FindBuddyRes :=
  buddy_id ← lift read_id; client_hash ← lift read_id; tcp_port ← lift read_u16;
  connect_options ← read_opt_u8;
  mret (mkFindBuddyRes buddy_id client_hash tcp_port connect_options).
Definition write_find_buddy_res (p : FindBuddyRes) : res ProtoError (list Z) :=
  Ok (write_id (fs_buddy_id p) ++ write_id (fs_client_hash p) ++ write_u16 (fs_tcp_port p) ++
      write_opt_u8 (fs_connect_options p)).

Definition read_publish_res : reader ProtoError PublishRes :=
  target ← lift read_id; load ← lift read_u8; options ← read_opt_u8;
  mret (mkPublishRes target load options).
Definition write_publish_res (p : PublishRes) : res ProtoError (list Z) :=
  Ok (write_id (pr_target p) ++ write_u8 (pr_load p) ++ write_opt_u8 (pr_options p)).

Definition read_search_key_req : reader ProtoError SearchKeyReq :=
  target ← lift read_id; start_position ← lift read_u16; payload ← read_to_end;
  mret (mkSearchKeyReq target start_position payload).
Definition write_search_key_req (p : SearchKeyReq) : res ProtoError (list Z) :=
  Ok (write_id (sk_target p) ++ write_u16 (sk_start_position p) ++ sk_restrictive_payload p).

Definition read_search_source_req : reader ProtoError SearchSourceReq :=
  target ← lift read_id;
  rem ← remaining;
  match rem with
  | 4 => size ← lift read_u32; mret (mkSearchSourceReq target 0 size)
  | 8 => size ← lift read_u64; mret (mkSearchSourceReq target 0 size)
  | 10 =>
      pos ← lift read_u16; size ← lift read_u64;
      mret (mkSearchSourceReq target (Z.land pos 0x7FFF) size)
  | _ => rfail BufferTooShort
  end.
Definition write_search_source_req (p : SearchSourceReq) : res ProtoError (list Z) :=
  Ok (write_id (ss_target p) ++ write_u16 (ss_start_position p) ++ write_u64 (ss_size p)).
End codec.
