(* ===== verification/Packet.v ===== *)
(** * Kad packets

    Models [overlord-kad-proto/src/packet.rs] ([KadPacket], [decode], [encode],
    [opcode]) and the opcode constants of [constants.rs].

    The zlib decoder of the [flate2] crate is the parameter [zlib_decode] and
    the Windows-1252 decoder of [encoding_rs] the parameter [windows_1252]. *)

From S2P Require Import Prelude NodeId Utf8 Wire Tag PacketTypes.

(** ** Constants *)
Definition OP_KADEMLIAHEADER : Z := 0xE4.
Definition OP_KADEMLIAPACKEDPROT : Z := 0xE5.

Definition BOOTSTRAP_REQ : Z := 0x01.
Definition BOOTSTRAP_RES : Z := 0x09.
Definition HELLO_REQ : Z := 0x11.
Definition HELLO_RES : Z := 0x19.
Definition HELLO_RES_ACK : Z := 0x22.
Definition REQ : Z := 0x21.
Definition RES : Z := 0x29.
Definition SEARCH_KEY_REQ : Z := 0x33.
Definition SEARCH_SOURCE_REQ : Z := 0x34.
Definition SEARCH_NOTES_REQ : Z := 0x35.
Definition SEARCH_RES : Z := 0x3B.
Definition PUBLISH_KEY_REQ : Z := 0x43.
Definition PUBLISH_SOURCE_REQ : Z := 0x44.
Definition PUBLISH_NOTES_REQ : Z := 0x45.
Definition PUBLISH_RES : Z := 0x4B.
Definition PUBLISH_RES_ACK : Z := 0x4C.
Definition FIREWALLED_REQ : Z := 0x50.
Definition FIREWALLED2_REQ : Z := 0x53.
Definition FIREWALLED_RES : Z := 0x58.
Definition FIREWALLED_ACK_RES : Z := 0x59.
Definition FIREWALLUDP : Z := 0x62.
Definition FINDBUDDY_REQ : Z := 0x51.
Definition CALLBACK_REQ : Z := 0x52.
Definition FINDBUDDY_RES : Z := 0x5A.
Definition PING : Z := 0x60.
Definition PONG : Z := 0x61.

(** ** Data *)
Inductive KadPacket : Type :=
| PBootstrapReq
| PBootstrapRes (p : BootstrapRes)
| PHelloReq (p : HelloReq)
| PHelloRes (p : HelloRes)
| PHelloResAck (p : HelloResAck)
| PReq (p : Req)
| PRes (p : Res)
| PSearchKeyReq (p : SearchKeyReq)
| PSearchSourceReq (p : SearchSourceReq)
| PSearchNotesReq (p : SearchNotesReq)
| PSearchRes (p : SearchRes)
| PPublishKeyReq (p : PublishKeyReq)
| PPublishSourceReq (p : PublishSourceReq)
| PPublishNotesReq (p : PublishNotesReq)
| PPublishRes (p : PublishRes)
| PPublishResAck
| PFirewalledReq (p : FirewalledReq)
| PFirewalled2Req (p : Firewalled2Req)
| PFirewalledRes (p : FirewalledRes)
| PFirewalledAckRes
| PFirewallUdp (p : FirewallUdp)
| PFindBuddyReq (p : FindBuddyReq)
| PFindBuddyRes (p : FindBuddyRes)
| PCallbackReq (p : CallbackReq)
| PPing
| PPong (p : Pong)
| PUnknown (opcode : Z) (payload : list Z).

(** ** Operations *)

Definition opcode (p : KadPacket) : Z :=
  match p with
  | PBootstrapReq => BOOTSTRAP_REQ
  | PBootstrapRes _ => BOOTSTRAP_RES
  | PHelloReq _ => HELLO_REQ
  | PHelloRes _ => HELLO_RES
  | PHelloResAck _ => HELLO_RES_ACK
  | PReq _ => REQ
  | PRes _ => RES
  | PSearchKeyReq _ => SEARCH_KEY_REQ
  | PSearchSourceReq _ => SEARCH_SOURCE_REQ
  | PSearchNotesReq _ => SEARCH_NOTES_REQ
  | PSearchRes _ => SEARCH_RES
  | PPublishKeyReq _ => PUBLISH_KEY_REQ
  | PPublishSourceReq _ => PUBLISH_SOURCE_REQ
  | PPublishNotesReq _ => PUBLISH_NOTES_REQ
  | PPublishRes _ => PUBLISH_RES
  | PPublishResAck => PUBLISH_RES_ACK
  | PFirewalledReq _ => FIREWALLED_REQ
  | PFirewalled2Req _ => FIREWALLED2_REQ
  | PFirewalledRes _ => FIREWALLED_RES
  | PFirewalledAckRes => FIREWALLED_ACK_RES
  | PFirewallUdp _ => FIREWALLUDP
  | PFindBuddyReq _ => FINDBUDDY_REQ
  | PFindBuddyRes _ => FINDBUDDY_RES
  | PCallbackReq _ => CALLBACK_REQ
  | PPing => PING
  | PPong _ => PONG
  | PUnknown op _ => op
  end.

(** The packet body after the two header bytes. *)
Definition encode_body (p : KadPacket) : res ProtoError (list Z) :=
  match p with
  | PBootstrapRes p => write_bootstrap_res p
  | PHelloReq p => write_hello_req p
  | PHelloRes p => write_hello_res p
  | PHelloResAck p => write_hello_res_ack p
  | PReq p => write_req p
  | PRes p => write_res p
  | PSearchKeyReq p => write_search_key_req p
  | PSearchSourceReq p => write_search_source_req p
  | PSearchNotesReq p => write_search_notes_req p
  | PSearchRes p => write_search_res p
  | PPublishKeyReq p => write_publish_key_req p
  | PPublishSourceReq p => write_publish_source_req p
  | PPublishNotesReq p => write_publish_notes_req p
  | PPublishRes p => write_publish_res p
  | PFirewalledReq p => write_firewalled_req p
  | PFirewalled2Req p => write_firewalled2_req p
  | PFirewalledRes p => write_firewalled_res p
  | PFirewallUdp p => write_firewall_udp p
  | PFindBuddyReq p => write_find_buddy_req p
  | PFindBuddyRes p => write_find_buddy_res p
  | PCallbackReq p => write_callback_req p
  | PPong p => write_pong p
  | PBootstrapReq | PPublishResAck | PFirewalledAckRes | PPing => Ok []
  | PUnknown _ payload => Ok payload
  end.
Definition encode (p : KadPacket) : res ProtoError (list Z) :=
  body ← encode_body p;
  Ok (write_u8 OP_KADEMLIAHEADER ++ write_u8 (opcode p) ++ body).

Definition require_body_len (op : Z) (body : list Z) (expected : Z) : res ProtoError unit :=
  if zlen body =? expected then Ok () else Err (InvalidPacketSize op expected (zlen body)).
Definition require_min_body_len (op : Z) (body : list Z) (expected_min : Z) : res ProtoError unit :=
  if expected_min <=? zlen body then Ok ()
  else Err (InvalidPacketSize op expected_min (zlen body)).

(** Runs a reader on a whole body; what it leaves unread is ignored. *)
Definition run_on {A} (r : reader ProtoError A) (f : A → KadPacket) (body : list Z)
    : res ProtoError KadPacket :=
  match r body with Ok (p, _) => Ok (f p) | Err e => Err e | Panic => Panic end.
(** [cursor.read_le::<T>()?] *)
Definition run_le {A} (r : reader BinErr A) (f : A → KadPacket) (body : list Z)
    : res ProtoError KadPacket :=
  run_on (rmap_err BinRw r) f body.

Section decode.
Context (windows_1252 : list Z → list Z) (zlib_decode : list Z → option (list Z)).

Definition decode_body (op : Z) (body : list Z) : res ProtoError KadPacket :=
  if op =? BOOTSTRAP_REQ then Ok PBootstrapReq
  else if op =? BOOTSTRAP_RES then run_le read_bootstrap_res PBootstrapRes body
  else if op =? HELLO_REQ then run_le (read_hello_req windows_1252) PHelloReq body
  else if op =? HELLO_RES then run_le (read_hello_res windows_1252) PHelloRes body
  else if op =? HELLO_RES_ACK then run_le (read_hello_res_ack windows_1252) PHelloResAck body
  else if op =? REQ then run_le read_req PReq body
  else if op =? RES then run_le read_res PRes body
  else if op =? SEARCH_KEY_REQ then run_on read_search_key_req PSearchKeyReq body
  else if op =? SEARCH_SOURCE_REQ then run_on read_search_source_req PSearchSourceReq body
  else if op =? SEARCH_NOTES_REQ then run_le read_search_notes_req PSearchNotesReq body
  else if op =? SEARCH_RES then run_on (read_search_res windows_1252) PSearchRes body
  else if op =? PUBLISH_KEY_REQ then
    run_le (read_publish_key_req windows_1252) PPublishKeyReq body
  else if op =? PUBLISH_SOURCE_REQ then
    run_le (read_publish_source_req windows_1252) PPublishSourceReq body
  else if op =? PUBLISH_NOTES_REQ then
    run_le (read_publish_notes_req windows_1252) PPublishNotesReq body
  else if op =? PUBLISH_RES then
    _ ← require_min_body_len op body 17; run_on read_publish_res PPublishRes body
  else if op =? PUBLISH_RES_ACK then Ok PPublishResAck
  else if op =? FIREWALLED_REQ then
    _ ← require_body_len op body 2; run_le read_firewalled_req PFirewalledReq body
  else if op =? FIREWALLED2_REQ then run_le read_firewalled2_req PFirewalled2Req body
  else if op =? FIREWALLED_RES then
    _ ← require_body_len op body 4; run_le read_firewalled_res PFirewalledRes body
  else if op =? FIREWALLED_ACK_RES then
    _ ← require_body_len op body 0; Ok PFirewalledAckRes
  else if op =? FIREWALLUDP then
    _ ← require_min_body_len op body 3; run_le read_firewall_udp PFirewallUdp body
  else if op =? FINDBUDDY_REQ then
    _ ← require_min_body_len op body 34; run_le read_find_buddy_req PFindBuddyReq body
  else if op =? FINDBUDDY_RES then
    _ ← require_min_body_len op body 34; run_on read_find_buddy_res PFindBuddyRes body
  else if op =? CALLBACK_REQ then
    _ ← require_min_body_len op body 34; run_le read_callback_req PCallbackReq body
  else if op =? PING then Ok PPing
  else if op =? PONG then
    _ ← require_min_body_len op body 2; run_le read_pong PPong body
  else Ok (PUnknown op body).

Definition decode (buf : list Z) : res ProtoError KadPacket :=
  match buf with
  | b0 :: b1 :: rest =>
      if b0 =? OP_KADEMLIAPACKEDPROT then
        match zlib_decode rest with
        | Some decompressed => decode_body b1 decompressed
        | None => Err DecompressError
        end
      else if b0 =? OP_KADEMLIAHEADER then decode_body b1 rest
      else Err (InvalidProtocol b0)
  | _ => Err BufferTooShort
  end.
End decode.

(** ** Types of the packets *)

Definition wf_contact_entry (c : ContactEntry) : bool :=
  wf_NodeId (ce_node_id c) && is_u32 (ce_ip c) && is_u16 (ce_udp_port c) &&
  is_u16 (ce_tcp_port c) && is_u8 (ce_version c).
Definition wf_tags (l : list Tag) : bool := forallb wf_Tag l.
Definition wf_opt_u8 (o : option Z) : bool := match o with Some b => is_u8 b | None => true end.

(** The types of the fields of a packet, and of an unknown packet that its
    opcode is none of the known ones. *)
Definition known_opcodes : list Z :=
  [BOOTSTRAP_REQ; BOOTSTRAP_RES; HELLO_REQ; HELLO_RES; HELLO_RES_ACK; REQ; RES; SEARCH_KEY_REQ;
   SEARCH_SOURCE_REQ; SEARCH_NOTES_REQ; SEARCH_RES; PUBLISH_KEY_REQ; PUBLISH_SOURCE_REQ;
   PUBLISH_NOTES_REQ; PUBLISH_RES; PUBLISH_RES_ACK; FIREWALLED_REQ; FIREWALLED2_REQ;
   FIREWALLED_RES; FIREWALLED_ACK_RES; FIREWALLUDP; FINDBUDDY_REQ; FINDBUDDY_RES; CALLBACK_REQ;
   PING; PONG].
Definition wf_packet (p : KadPacket) : bool :=
  match p with
  | PBootstrapRes p => wf_NodeId (br_sender_id p) && is_u16 (br_sender_tcp_port p) &&
      is_u8 (br_sender_version p) && forallb wf_contact_entry (br_contacts p)
  | PHelloReq p => wf_NodeId (hq_node_id p) && is_u16 (hq_tcp_port p) && is_u8 (hq_version p) &&
      wf_tags (hq_tags p)
  | PHelloRes p => wf_NodeId (hr_node_id p) && is_u16 (hr_tcp_port p) && is_u8 (hr_version p) &&
      wf_tags (hr_tags p)
  | PHelloResAck p => wf_NodeId (ha_node_id p) && wf_tags (ha_tags p)
  | PReq p => is_u8 (rq_count p) && wf_NodeId (rq_target p) && wf_NodeId (rq_recipient_id p)
  | PRes p => wf_NodeId (rs_target p) && forallb wf_contact_entry (rs_contacts p)
  | PSearchKeyReq p => wf_NodeId (sk_target p) && is_u16 (sk_start_position p) &&
      is_bytes (sk_restrictive_payload p)
  | PSearchSourceReq p => wf_NodeId (ss_target p) && is_u16 (ss_start_position p) &&
      is_u64 (ss_size p)
  | PSearchNotesReq p => wf_NodeId (sn_target p) && is_u64 (sn_size p)
  | PSearchRes p => wf_NodeId (sr_sender_id p) && wf_NodeId (sr_target p) &&
      forallb (λ e, wf_Ed2kHash (se_entry_id e) && wf_tags (se_tags e)) (sr_results p)
  | PPublishKeyReq p => wf_NodeId (pk_target p) &&
      forallb (λ e, wf_Ed2kHash (pe_hash e) && wf_tags (pe_tags e)) (pk_entries p)
  | PPublishSourceReq p => wf_NodeId (ps_target p) && wf_NodeId (ps_publisher_id p) &&
      wf_tags (ps_tags p)
  | PPublishNotesReq p => wf_NodeId (pn_target p) && wf_NodeId (pn_publisher_id p) &&
      wf_tags (pn_tags p)
  | PPublishRes p => wf_NodeId (pr_target p) && is_u8 (pr_load p) && wf_opt_u8 (pr_options p)
  | PFirewalledReq p => is_u16 (fw_tcp_port p)
  | PFirewalled2Req p => is_u16 (f2_tcp_port p) && wf_Ed2kHash (f2_user_hash p) &&
      is_u8 (f2_connect_options p)
  | PFirewalledRes p => is_u32 (fr_ip p)
  | PFirewallUdp p => is_u8 (fu_error_code p) && is_u16 (fu_udp_port p)
  | PFindBuddyReq p => wf_NodeId (fb_buddy_id p) && wf_Ed2kHash (fb_client_hash p) &&
      is_u16 (fb_tcp_port p)
  | PFindBuddyRes p => wf_NodeId (fs_buddy_id p) && wf_Ed2kHash (fs_client_hash p) &&
      is_u16 (fs_tcp_port p) && wf_opt_u8 (fs_connect_options p)
  | PCallbackReq p => wf_NodeId (cb_buddy_id p) && wf_Ed2kHash (cb_file_hash p) &&
      is_u16 (cb_tcp_port p)
  | PPong p => is_u16 (po_udp_port p)
  | PUnknown op payload => is_u8 op && negb (bool_decide (op ∈ known_opcodes)) && is_bytes payload
  | PBootstrapReq | PPublishResAck | PFirewalledAckRes | PPing => true
  end.

(** What a packet becomes on the wire: its tags are normalized, and the source
    search loses the high bit of its start position. *)
Definition normalize_packet (p : KadPacket) : KadPacket :=
  let norm := map normalize_tag in
  match p with
  | PHelloReq p => PHelloReq (mkHelloReq (hq_node_id p) (hq_tcp_port p) (hq_version p)
      (norm (hq_tags p)))
  | PHelloRes p => PHelloRes (mkHelloRes (hr_node_id p) (hr_tcp_port p) (hr_version p)
      (norm (hr_tags p)))
  | PHelloResAck p => PHelloResAck (mkHelloResAck (ha_node_id p) (norm (ha_tags p)))
  | PSearchSourceReq p => PSearchSourceReq (mkSearchSourceReq (ss_target p)
      (Z.land (ss_start_position p) 0x7FFF) (ss_size p))
  | PSearchRes p => PSearchRes (mkSearchRes (sr_sender_id p) (sr_target p)
      (map (λ e, mkSearchResultEntry (se_entry_id e) (norm (se_tags e))) (sr_results p)))
  | PPublishKeyReq p => PPublishKeyReq (mkPublishKeyReq (pk_target p)
      (map (λ e, mkPublishEntry (pe_hash e) (norm (pe_tags e))) (pk_entries p)))
  | PPublishSourceReq p => PPublishSourceReq (mkPublishSourceReq (ps_target p)
      (ps_publisher_id p) (norm (ps_tags p)))
  | PPublishNotesReq p => PPublishNotesReq (mkPublishNotesReq (pn_target p)
      (pn_publisher_id p) (norm (pn_tags p)))
  | p => p
  end.

(** Every count and length of the packet fits its wire field. *)
Definition fits_tags8 (l : list Tag) : bool := (zlen l <? 2 ^ 8) && forallb tag_encodable l.
Definition packet_fits (p : KadPacket) : bool :=
  match p with
  | PBootstrapRes p => zlen (br_contacts p) <? 2 ^ 16
  | PHelloReq p => fits_tags8 (hq_tags p)
  | PHelloRes p => fits_tags8 (hr_tags p)
  | PHelloResAck p => fits_tags8 (ha_tags p)
  | PRes p => zlen (rs_contacts p) <? 2 ^ 8
  | PSearchRes p => (zlen (sr_results p) <? 2 ^ 16) &&
      forallb (λ e, fits_tags8 (se_tags e)) (sr_results p)
  | PPublishKeyReq p => (zlen (pk_entries p) <? 2 ^ 16) &&
      forallb (λ e, fits_tags8 (pe_tags e)) (pk_entries p)
  | PPublishSourceReq p => fits_tags8 (ps_tags p)
  | PPublishNotesReq p => fits_tags8 (pn_tags p)
  | _ => true
  end.

(** ** Lemmas *)

Lemma parses_counted_list {E A B} w wcount (welem : A → res ProtoError (list Z))
    (rcount : reader E Z) (relem : reader E B) (f : A → B) l bs :
  (∀ n, is_u w n = true → parses rcount (wcount n) n) →
  (∀ x b, x ∈ l → welem x = Ok b → parses relem b (f x)) →
  write_counted w wcount welem l = Ok bs →
  parses (read_counted rcount relem) bs (map f l).
Proof.
  intros Hc He (n & (-> & Hn)%expect_len_Ok & (b & Hb & [= <-])%res_bind_Ok)%res_bind_Ok.
  eapply parses_bind; [apply Hc, zlen_u, Hn|]. rewrite to_nat_zlen.
  by eapply parses_many.
Qed.

(** Reads the fields of a struct one after the other. *)
Ltac parse_fields :=
  repeat first [apply parses_bind_ret | eapply parses_bind]; eauto with rust.

Lemma run_on_parses {A} (r : reader ProtoError A) f body x :
  parses r body x → run_on r f body = Ok (f x).
Proof. intros H. unfold run_on. specialize (H []). rewrite app_nil_r in H. by rewrite H. Qed.

Lemma run_le_parses {A} (r : reader BinErr A) f body x :
  parses r body x → run_le r f body = Ok (f x).
Proof. intros H. by apply run_on_parses, parses_rmap. Qed.

Lemma parses_contact_entry c b : wf_contact_entry c = true → write_contact_entry c = Ok b →
  parses read_contact_entry b c.
Proof.
  unfold wf_contact_entry. intros H [= <-]. bool_hyps. destruct c. cbn in *.
  unfold read_contact_entry. parse_fields.
Qed.

Section roundtrip.
Context (windows_1252 : list Z → list Z).

Lemma parses_contacts w wcount (rcount : reader BinErr Z) l b :
  (∀ n, is_u w n = true → parses rcount (wcount n) n) →
  forallb wf_contact_entry l = true → write_counted w wcount write_contact_entry l = Ok b →
  parses (read_counted rcount read_contact_entry) b l.
Proof.
  intros Hc Hwf Hw. rewrite <- (map_id l). eapply parses_counted_list; [done| |done].
  intros x bx Hx. apply parses_contact_entry. rewrite forallb_forall in Hwf.
  by apply Hwf, list_elem_of_In.
Qed.

Lemma parses_tags8 tags b : wf_tags tags = true → write_tags8 tags = Ok b →
  parses (read_tags8 windows_1252) b (map normalize_tag tags).
Proof.
  intros Hwf Hw. eapply (parses_counted_list 8); [exact parses_u8| |exact Hw].
  intros x bx Hx. apply parses_tag. unfold wf_tags in Hwf. rewrite forallb_forall in Hwf.
  by apply Hwf, list_elem_of_In.
Qed.
#[local] Hint Resolve parses_tags8 : rust.

Lemma parses_publish_entry e b :
  wf_Ed2kHash (pe_hash e) && wf_tags (pe_tags e) = true → write_publish_entry e = Ok b →
  parses (read_publish_entry windows_1252) b
    (mkPublishEntry (pe_hash e) (map normalize_tag (pe_tags e))).
Proof.
  intros H (tb & Htb & [= <-])%res_bind_Ok. bool_hyps.
  unfold read_publish_entry. parse_fields.
Qed.

Lemma parses_search_result_entry e b :
  wf_Ed2kHash (se_entry_id e) && wf_tags (se_tags e) = true →
  write_search_result_entry e = Ok b →
  parses (read_search_result_entry windows_1252) b
    (mkSearchResultEntry (se_entry_id e) (map normalize_tag (se_tags e))).
Proof.
  intros H (n & (-> & Hn)%expect_len_Ok & (tb & Htb & [= <-])%res_bind_Ok)%res_bind_Ok. bool_hyps.
  unfold read_search_result_entry. eapply parses_bind.
  { unfold read_kad_search_entry_id, write_kad_search_entry_id.
    apply parses_bind_ret, parses_rmap, parses_id, wf_id_from_be_bytes. by apply wf_Ed2kHash_spec. }
  eapply parses_bind; [by apply parses_rmap, parses_u8, zlen_u|].
  rewrite to_nat_zlen, id_to_from_be_bytes by done.
  apply parses_bind_ret. eapply parses_many; [|exact Htb].
  intros x bx Hx Hw. apply parses_rmap. eapply parses_tag; [|done].
  match goal with H : wf_tags _ = true |- _ => unfold wf_tags in H;
    rewrite forallb_forall in H; apply H end. by apply list_elem_of_In.
Qed.

Lemma read_opt_write o : wf_opt_u8 o = true →
  read_opt_u8 (write_opt_u8 o) = Ok (o, []).
Proof.
  destruct o as [b|]; [|done]. cbn [wf_opt_u8 write_opt_u8]. intros Hb.
  unfold read_opt_u8, remaining. rewrite reader_bind_unfold. unfold zlen.
  rewrite length_write_u8. change (0 <? Z.of_nat 1) with true. cbv iota.
  rewrite reader_bind_unfold, <- (app_nil_r (write_u8 b)), (parses_rmap BinRw _ _ b); [done|].
  by apply parses_u8.
Qed.

(** The last read of a codec may look at the end of the buffer. *)
Lemma parses_then {E A B} (r : reader E A) (k : A → reader E B) b1 b2 x :
  parses r b1 x → (r ≫= k) (b1 ++ b2) = k x b2.
Proof. intros H. by rewrite reader_bind_unfold, H. Qed.

Ltac read_field := erewrite parses_then by eauto with rust.

Lemma run_find_buddy_res p b : wf_packet (PFindBuddyRes p) = true →
  write_find_buddy_res p = Ok b → run_on read_find_buddy_res PFindBuddyRes b = Ok (PFindBuddyRes p).
Proof.
  cbn [wf_packet]. intros H [= <-]. bool_hyps. destruct p as [id h port o]. cbn in *.
  unfold run_on, read_find_buddy_res. do 3 read_field.
  rewrite reader_bind_unfold, read_opt_write by done. done.
Qed.

Lemma run_publish_res p b : wf_packet (PPublishRes p) = true →
  write_publish_res p = Ok b → run_on read_publish_res PPublishRes b = Ok (PPublishRes p).
Proof.
  cbn [wf_packet]. intros H [= <-]. bool_hyps. destruct p as [id load o]. cbn in *.
  unfold run_on, read_publish_res. do 2 read_field.
  rewrite reader_bind_unfold, read_opt_write by done. done.
Qed.

Lemma run_search_key_req p b : wf_packet (PSearchKeyReq p) = true →
  write_search_key_req p = Ok b → run_on read_search_key_req PSearchKeyReq b = Ok (PSearchKeyReq p).
Proof.
  cbn [wf_packet]. intros H [= <-]. bool_hyps. destruct p as [id pos payload]. cbn in *.
  unfold run_on, read_search_key_req. do 2 read_field. done.
Qed.

Lemma run_search_source_req p b : wf_packet (PSearchSourceReq p) = true →
  write_search_source_req p = Ok b →
  run_on read_search_source_req PSearchSourceReq b = Ok (normalize_packet (PSearchSourceReq p)).
Proof.
  cbn [wf_packet]. intros H [= <-]. bool_hyps. destruct p as [id pos size]. cbn in *.
  unfold run_on, read_search_source_req. read_field.
  rewrite reader_bind_unfold. unfold remaining, zlen.
  rewrite length_app, length_write_u16, length_write_u64. change (Z.of_nat (2 + 8)) with 10.
  cbv iota beta.
  rewrite <- (app_nil_r (write_u64 size)). do 2 read_field. done.
Qed.


Lemma zlen_ids (a b : list Z) (c : list Z) : wf_NodeId a = true → wf_NodeId b = true →
  zlen (write_id a ++ write_id b ++ c) = 32 + zlen c.
Proof.
  intros [Ha _]%wf_NodeId_spec [Hb _]%wf_NodeId_spec. unfold zlen.
  rewrite !length_app, !length_write_id. lia.
Qed.

(** The size guards of [decode] hold of what [encode] wrote. *)
Lemma size_guards p body : wf_packet p = true → encode_body p = Ok body →
  match p with
  | PPublishRes _ => require_min_body_len PUBLISH_RES body 17
  | PFirewalledReq _ => require_body_len FIREWALLED_REQ body 2
  | PFirewalledRes _ => require_body_len FIREWALLED_RES body 4
  | PFirewallUdp _ => require_min_body_len FIREWALLUDP body 3
  | PFindBuddyReq _ => require_min_body_len FINDBUDDY_REQ body 34
  | PFindBuddyRes _ => require_min_body_len FINDBUDDY_RES body 34
  | PCallbackReq _ => require_min_body_len CALLBACK_REQ body 34
  | PPong _ => require_min_body_len PONG body 2
  | _ => Ok ()
  end = Ok ().
Proof.
  unfold require_min_body_len, require_body_len, zlen.
  destruct p; cbn [encode_body wf_packet]; try done; intros Hwf [= <-]; bool_hyps;
    repeat match goal with
    | H : wf_NodeId _ = true |- _ => apply wf_NodeId_spec in H as [? _]
    | H : wf_Ed2kHash _ = true |- _ => apply wf_Ed2kHash_spec in H as [? _]
    end;
    rewrite ?length_app, ?length_write_id, ?length_write_u8, ?length_write_u16, ?length_write_u32;
    match goal with |- (if ?c then _ else _) = _ => replace c with true; [done|] end;
    symmetry; first [apply Z.leb_le|apply Z.eqb_eq]; lia.
Qed.

(** Each packet family has its own branch of [decode]. *)
Ltac decode_branch :=
  unfold decode_body; cbn [opcode];
  repeat match goal with |- context [if ?a =? ?b then _ else _] =>
    let v := eval vm_compute in (a =? b) in change (a =? b) with v; cbv iota end.

Lemma decode_unknown op body : op ∉ known_opcodes →
  decode_body windows_1252 op body = Ok (PUnknown op body).
Proof.
  intros Hop. unfold decode_body, known_opcodes in *.
  repeat (apply not_elem_of_cons in Hop as [?%Z.eqb_neq Hop]).
  repeat match goal with H : (op =? _) = false |- _ => rewrite H; clear H end. done.
Qed.

(** The families with counted records. *)
Lemma parses_bootstrap_res p b : wf_packet (PBootstrapRes p) = true →
  write_bootstrap_res p = Ok b → parses read_bootstrap_res b p.
Proof.
  intros Hwf (cb & Hcb & [= <-])%res_bind_Ok. cbn [wf_packet] in Hwf. bool_hyps.
  destruct p. cbn in *. unfold read_bootstrap_res. parse_fields.
  eapply parses_contacts; [exact parses_u16|done..].
Qed.

Lemma parses_res p b : wf_packet (PRes p) = true → write_res p = Ok b → parses read_res b p.
Proof.
  intros Hwf (cb & Hcb & [= <-])%res_bind_Ok. cbn [wf_packet] in Hwf. bool_hyps.
  destruct p. cbn in *. unfold read_res. parse_fields.
  eapply parses_contacts; [exact parses_u8|done..].
Qed.

Lemma parses_search_res p b : wf_packet (PSearchRes p) = true → write_search_res p = Ok b →
  parses (read_search_res windows_1252) b (mkSearchRes (sr_sender_id p) (sr_target p)
    (map (λ e, mkSearchResultEntry (se_entry_id e) (map normalize_tag (se_tags e))) (sr_results p))).
Proof.
  intros Hwf (n & (-> & Hn)%expect_len_Ok & (rb & Hrb & [= <-])%res_bind_Ok)%res_bind_Ok.
  cbn [wf_packet] in Hwf. bool_hyps. unfold read_search_res.
  eapply parses_bind; [by eauto with rust|]. eapply parses_bind; [by eauto with rust|].
  eapply parses_bind; [by apply parses_rmap, parses_u16, zlen_u|]. rewrite to_nat_zlen.
  apply parses_bind_ret. eapply parses_many; [|exact Hrb].
  intros e be He. apply parses_search_result_entry.
  match goal with H : forallb _ _ = true |- _ => rewrite forallb_forall in H; apply H end.
  by apply list_elem_of_In.
Qed.

Lemma parses_publish_key_req p b : wf_packet (PPublishKeyReq p) = true →
  write_publish_key_req p = Ok b →
  parses (read_publish_key_req windows_1252) b (mkPublishKeyReq (pk_target p)
    (map (λ e, mkPublishEntry (pe_hash e) (map normalize_tag (pe_tags e))) (pk_entries p))).
Proof.
  intros Hwf (eb & Heb & [= <-])%res_bind_Ok. cbn [wf_packet] in Hwf. bool_hyps.
  unfold read_publish_key_req. parse_fields.
  eapply (parses_counted_list 16); [exact parses_u16| |exact Heb].
  intros e be He. apply parses_publish_entry.
  match goal with H : forallb _ _ = true |- _ => rewrite forallb_forall in H; apply H end.
  by apply list_elem_of_In.
Qed.

(** A struct of plain fields, and one that ends with a tag list. *)
Ltac plain_struct p r Hw :=
  apply run_le_parses; injection Hw as <-; destruct p;
  cbn -[wf_NodeId wf_Ed2kHash is_u8 is_u16 is_u32 is_u64] in *; bool_hyps; unfold r; parse_fields.
Ltac tagged_struct r Hw :=
  apply run_le_parses; apply res_bind_Ok in Hw as (tb & Htb & [= <-]); bool_hyps;
  unfold r; parse_fields.

(** The body of a packet is decoded to the normalized packet. *)
Lemma decode_encode_body p body : wf_packet p = true → encode_body p = Ok body →
  decode_body windows_1252 (opcode p) body = Ok (normalize_packet p).
Proof.
  intros Hwf Hw. pose proof (size_guards p body Hwf Hw) as Hsize.
  destruct p; try (decode_branch; rewrite ?Hsize; cbn [mbind res_bind]).
  all: clear Hsize; cbn [encode_body] in Hw; try done.
  all: try (by apply run_find_buddy_res || by apply run_publish_res ||
    by apply run_search_key_req || by apply run_search_source_req).
  all: cbn [normalize_packet].
  all: try solve [apply run_le_parses; by apply parses_bootstrap_res
    | apply run_le_parses; by apply parses_res | apply run_on_parses; by apply parses_search_res
    | apply run_le_parses; by apply parses_publish_key_req].
  all: cbn [wf_packet] in Hwf.
  - tagged_struct read_hello_req Hw.
  - tagged_struct read_hello_res Hw.
  - tagged_struct read_hello_res_ack Hw.
  - plain_struct p read_req Hw.
  - plain_struct p read_search_notes_req Hw.
  - tagged_struct read_publish_source_req Hw.
  - tagged_struct read_publish_notes_req Hw.
  - plain_struct p read_firewalled_req Hw.
  - plain_struct p read_firewalled2_req Hw.
  - plain_struct p read_firewalled_res Hw.
  - injection Hw as <-. done.
  - plain_struct p read_firewall_udp Hw.
  - plain_struct p read_find_buddy_req Hw.
  - plain_struct p read_callback_req Hw.
  - plain_struct p read_pong Hw.
  - injection Hw as <-. bool_hyps. by apply decode_unknown.
Qed.
End roundtrip.

(** ** Decoding is total and typed *)

(** On bytes, the reader does not panic and returns a value of type [P]. *)
Definition typed {E A} (r : reader E A) (P : A → bool) : Prop :=
  ∀ l, is_bytes l = true →
  match r l with Ok (a, l') => P a = true ∧ is_bytes l' = true | Err _ => True | Panic => False end.

Lemma typed_ret {E A} (P : A → bool) a : P a = true → typed (E:=E) (mret a) P.
Proof. by intros H l Hl. Qed.

Lemma typed_bind {E A B} (r : reader E A) (k : A → reader E B) P Q :
  typed r P → (∀ a, P a = true → typed (k a) Q) → typed (r ≫= k) Q.
Proof.
  intros Hr Hk l Hl. rewrite reader_bind_unfold. specialize (Hr l Hl).
  destruct (r l) as [[a l']| |]; [|done..]. destruct Hr as [Ha Hl']. by apply (Hk a Ha).
Qed.

Lemma typed_rmap {E F A} (f : E → F) (r : reader E A) P : typed r P → typed (rmap_err f r) P.
Proof.
  intros Hr l Hl. specialize (Hr l Hl). unfold rmap_err. by destruct (r l) as [[]| |].
Qed.

Lemma typed_fail {E A} (e : E) (P : A → bool) : typed (rfail e) P.
Proof. by intros l Hl. Qed.

Lemma typed_exact n : typed (read_exact n) (λ bs, (length bs =? n)%nat && is_bytes bs).
Proof.
  intros l Hl. unfold read_exact. destruct (Nat.leb_spec n (length l)); [|done].
  rewrite is_bytes_take, is_bytes_drop, length_take_le by done.
  by rewrite Nat.eqb_refl.
Qed.

Lemma typed_uint n : typed (read_uint n) (λ v, (0 <=? v) && (v <? 256 ^ Z.of_nat n)).
Proof.
  unfold read_uint. eapply typed_bind; [apply typed_exact|].
  intros bs [Hlen Hb]%andb_true_iff. apply Nat.eqb_eq in Hlen. apply typed_ret.
  pose proof (from_le_bytes_bound bs Hb). rewrite Hlen in *. lia.
Qed.

#[local] Transparent read_u8 read_u16 read_u32 read_u64 read_id.
Lemma typed_u8 : typed read_u8 is_u8.
Proof. exact (typed_uint 1). Qed.
Lemma typed_u16 : typed read_u16 is_u16.
Proof. exact (typed_uint 2). Qed.
Lemma typed_u32 : typed read_u32 is_u32.
Proof. exact (typed_uint 4). Qed.
Lemma typed_u64 : typed read_u64 is_u64.
Proof. exact (typed_uint 8). Qed.
Lemma typed_id : typed read_id wf_NodeId.
Proof. exact (typed_exact 16). Qed.
#[local] Opaque read_u8 read_u16 read_u32 read_u64 read_id.

Lemma typed_many {E A} n (r : reader E A) P : typed r P → typed (read_many n r) (forallb P).
Proof.
  intros Hr. induction n as [|n IH]; cbn [read_many]; [by apply typed_ret|].
  eapply typed_bind; [exact Hr|]. intros x Hx. eapply typed_bind; [exact IH|].
  intros xs Hxs. apply typed_ret. cbn. by rewrite Hx.
Qed.

Lemma typed_remaining {E} : typed (E:=E) remaining (λ _, true).
Proof. by intros l Hl. Qed.
Lemma typed_to_end {E} : typed (E:=E) read_to_end is_bytes.
Proof. by intros l Hl. Qed.

Create HintDb typed.
#[local] Hint Resolve typed_u8 typed_u16 typed_u32 typed_u64 typed_id typed_rmap typed_many
  typed_remaining typed_to_end typed_fail : typed.

(** Types the fields of a struct and then the struct itself. *)
Ltac type_fields :=
  repeat (eapply typed_bind; [by eauto with typed|intros ? ?]);
  first [by eauto with typed | apply typed_ret;
    cbn -[wf_NodeId wf_Ed2kHash is_u8 is_u16 is_u32 is_u64 wf_tags is_bytes wf_opt_u8 forallb];
    rewrite ?andb_true_iff; repeat split; assumption].

Lemma typed_counted {E A} (rc : reader E Z) (r : reader E A) Pc P :
  typed rc Pc → typed r P → typed (read_counted rc r) (forallb P).
Proof. intros Hc Hr. eapply typed_bind; [exact Hc|]. intros n _. by apply typed_many. Qed.
#[local] Hint Resolve typed_counted : typed.

Lemma typed_contact_entry : typed read_contact_entry wf_contact_entry.
Proof. unfold read_contact_entry, wf_contact_entry. type_fields. Qed.
#[local] Hint Resolve typed_contact_entry : typed.

Lemma typed_opt_u8 : typed read_opt_u8 wf_opt_u8.
Proof.
  unfold read_opt_u8. eapply typed_bind; [by eauto with typed|]. intros rem _.
  destruct (0 <? rem); type_fields.
Qed.
#[local] Hint Resolve typed_opt_u8 : typed.

Lemma u32_is_u64 v : is_u32 v = true → is_u64 v = true.
Proof. rewrite is_u32_spec, is_u64_spec. lia. Qed.

Lemma land_15_u16 v : is_u16 v = true → is_u16 (Z.land v 0x7FFF) = true.
Proof.
  intros _. change 0x7FFF with (Z.ones 15). rewrite Z.land_ones by lia. apply is_u16_spec.
  pose proof (Z.mod_pos_bound v (2 ^ 15)). lia.
Qed.

Section typed.
Context (windows_1252 : list Z → list Z).
Context (windows_1252_string : ∀ b, is_bytes b = true → wf_string (windows_1252 b) = true).

Lemma wf_decode_string b mode : is_bytes b = true →
  wf_string (decode_string_bytes windows_1252 b mode) = true.
Proof.
  intros Hb. unfold wf_string. destruct mode; cbn [decode_string_bytes].
  - by rewrite is_bytes_lossy, lossy_is_valid.
  - destruct (utf8_valid b) eqn:Hv; [by rewrite Hb, Hv|].
    by apply windows_1252_string.
Qed.

Lemma typed_bytes n : typed (read_exact n) is_bytes.
Proof.
  intros l Hl. pose proof (typed_exact n l Hl) as H.
  destruct (read_exact n l) as [[bs l']| |]; [|done..].
  destruct H as [[_ H]%andb_true_iff ?]. done.
Qed.
#[local] Hint Resolve typed_bytes : typed.

Lemma typed_read_name short mode : typed (read_name windows_1252 short mode) wf_TagName.
Proof.
  unfold read_name. destruct short; [type_fields|].
  eapply typed_bind; [by eauto with typed|]. intros n Hn.
  eapply typed_bind; [by eauto with typed|]. intros bs Hbs. apply typed_ret.
  pose proof (wf_decode_string bs mode Hbs).
  destruct bs as [|b [|]]; [done| |done].
  cbn -[is_u8] in *. by rewrite andb_true_r in Hbs.
Qed.

Lemma typed_read_value t mode : typed (read_value windows_1252 t mode) wf_TagValue.
Proof.
  unfold read_value. repeat case_match; try apply typed_fail; try type_fields.
  eapply typed_bind; [by eauto with typed|]. intros n Hn.
  eapply typed_bind; [by eauto with typed|]. intros bs Hbs.
  apply typed_ret. by apply wf_decode_string.
Qed.

Lemma typed_tag mode : typed (read_with_mode windows_1252 mode) wf_Tag.
Proof.
  unfold read_with_mode, wf_Tag. eapply typed_bind; [by eauto with typed|]. intros tb _.
  eapply typed_bind; [apply typed_read_name|]. intros n Hn.
  eapply typed_bind; [apply typed_read_value|]. intros v Hv.
  apply typed_ret. cbn. by rewrite Hn.
Qed.
#[local] Hint Resolve typed_tag : typed.

Lemma typed_tags8 : typed (read_tags8 windows_1252) wf_tags.
Proof. unfold read_tags8, wf_tags, read_tag. by eauto with typed. Qed.
#[local] Hint Resolve typed_tags8 : typed.

Lemma typed_publish_entry : typed (read_publish_entry windows_1252)
  (λ e, wf_Ed2kHash (pe_hash e) && wf_tags (pe_tags e)).
Proof. unfold read_publish_entry. type_fields. Qed.
#[local] Hint Resolve typed_publish_entry : typed.

Lemma typed_search_result_entry : typed (read_search_result_entry windows_1252)
  (λ e, wf_Ed2kHash (se_entry_id e) && wf_tags (se_tags e)).
Proof.
  unfold read_search_result_entry, read_kad_search_entry_id.
  eapply (typed_bind _ _ wf_Ed2kHash).
  { eapply typed_bind; [by eauto with typed|]. intros id [_ Hid]%wf_NodeId_spec.
    apply typed_ret. by apply wf_id_to_be_bytes. }
  intros h Hh. type_fields.
Qed.
#[local] Hint Resolve typed_search_result_entry : typed.

Lemma typed_search_source_req : typed read_search_source_req
  (λ p, wf_packet (PSearchSourceReq p)).
Proof.
  unfold read_search_source_req. cbn [wf_packet].
  eapply typed_bind; [by eauto with typed|]. intros id Hid.
  eapply typed_bind; [by eauto with typed|]. intros rem _.
  repeat case_match; try apply typed_fail;
    repeat (eapply typed_bind; [by eauto with typed|intros ? ?]); apply typed_ret;
    cbn -[is_u16 is_u64 Z.land wf_NodeId]; rewrite ?andb_true_iff; repeat split; try done.
  - by apply land_15_u16.
  - by apply u32_is_u64.
Qed.

(** A typed reader run on a body. *)
Lemma run_on_typed {A} (r : reader ProtoError A) (f : A → KadPacket) body :
  typed r (λ a, wf_packet (f a)) → is_bytes body = true →
  match run_on r f body with Ok p => wf_packet p = true | Err _ => True | Panic => False end.
Proof.
  intros Hr Hb. specialize (Hr body Hb). unfold run_on.
  destruct (r body) as [[a l']| |]; [|done..]. by destruct Hr.
Qed.

Lemma run_le_typed {A} (r : reader BinErr A) (f : A → KadPacket) body :
  typed r (λ a, wf_packet (f a)) → is_bytes body = true →
  match run_le r f body with Ok p => wf_packet p = true | Err _ => True | Panic => False end.
Proof. intros Hr. by apply run_on_typed, typed_rmap. Qed.

Lemma decode_body_typed op body : is_u8 op = true → is_bytes body = true →
  match decode_body windows_1252 op body with
  | Ok p => wf_packet p = true | Err _ => True | Panic => False end.
Proof.
  intros Hop Hb. destruct (decide (op ∈ known_opcodes)) as [Hin|Hout].
  2:{ rewrite decode_unknown by done. cbn -[is_u8 known_opcodes].
      by rewrite Hop, bool_decide_false, Hb by done. }
  unfold known_opcodes in Hin.
  repeat (apply elem_of_cons in Hin as [->|Hin]); [..|by apply not_elem_of_nil in Hin];
    unfold decode_body;
    repeat match goal with |- context [if ?a =? ?b then _ else _] =>
      let v := eval vm_compute in (a =? b) in change (a =? b) with v; cbv iota end;
    unfold require_min_body_len, require_body_len;
    repeat match goal with |- context [(if ?c then Ok () else _) ≫= _] => destruct c end;
    cbn [mbind res_bind]; try done.
  all: first [apply run_le_typed; [|exact Hb] | apply run_on_typed; [|exact Hb]];
    try exact typed_search_source_req; cbn [wf_packet].
  - unfold read_bootstrap_res. type_fields.
  - unfold read_hello_req. type_fields.
  - unfold read_hello_res. type_fields.
  - unfold read_hello_res_ack. type_fields.
  - unfold read_req. type_fields.
  - unfold read_res. type_fields.
  - unfold read_search_key_req. type_fields.
  - unfold read_search_notes_req. type_fields.
  - unfold read_search_res. type_fields.
  - unfold read_publish_key_req. type_fields.
  - unfold read_publish_source_req. type_fields.
  - unfold read_publish_notes_req. type_fields.
  - unfold read_publish_res. type_fields.
  - unfold read_firewalled_req. type_fields.
  - unfold read_firewalled2_req. type_fields.
  - unfold read_firewalled_res. type_fields.
  - unfold read_firewall_udp. type_fields.
  - unfold read_find_buddy_req. type_fields.
  - unfold read_find_buddy_res. type_fields.
  - unfold read_callback_req. type_fields.
  - unfold read_pong. type_fields.
Qed.
End typed.

(** ** Encoding is total on packets that fit their counters *)

(** The writer succeeds exactly when [fits], and panics otherwise. *)
Definition total {A} (m : res ProtoError A) (fits : bool) : Prop :=
  if fits then ∃ b, m = Ok b else m = Panic.

Lemma total_bind_ret {A B} (m : res ProtoError A) (f : A → B) c :
  total m c → total (b ← m; Ok (f b)) c.
Proof. unfold total. destruct c; [intros [b ->]|intros ->]; cbn; eauto. Qed.

Lemma total_write_all {A} (w : A → res ProtoError (list Z)) P l :
  (∀ x, total (w x) (P x)) → total (write_all w l) (forallb P l).
Proof.
  intros Hw. induction l as [|x l IH]; cbn; [by eexists|]. specialize (Hw x). unfold total in *.
  destruct (P x); cbn [andb].
  - destruct Hw as [b ->]. cbn. destruct (forallb P l); [destruct IH as [? ->]|rewrite IH]; cbn; eauto.
  - by rewrite Hw.
Qed.

Lemma total_counted {A} w wcount (welem : A → res ProtoError (list Z)) P l :
  (∀ x, total (welem x) (P x)) →
  total (write_counted w wcount welem l) ((zlen l <? 2 ^ w) && forallb P l).
Proof.
  intros Hw. unfold write_counted. rewrite expect_len_dec.
  destruct (zlen l <? 2 ^ w); cbn [andb mbind res_bind]; [|done].
  by apply total_bind_ret, total_write_all.
Qed.

Lemma total_true {A} (b : A) : total (Ok b) true.
Proof. by eexists. Qed.

Lemma total_tags8 l : total (write_tags8 l) (fits_tags8 l).
Proof. unfold write_tags8, fits_tags8. apply total_counted, write_tag_total. Qed.

Lemma total_contacts w wcount l :
  total (write_counted w wcount write_contact_entry l) (zlen l <? 2 ^ w).
Proof.
  rewrite <- (andb_true_r (_ <? _)). rewrite <- (proj2 (forallb_forall (λ _, true) l)) by done.
  apply total_counted. intros. apply total_true.
Qed.

Lemma total_search_result_entry e : total (write_search_result_entry e) (fits_tags8 (se_tags e)).
Proof.
  unfold write_search_result_entry, fits_tags8. rewrite expect_len_dec.
  destruct (zlen _ <? _); [|done]. cbn [mbind res_bind andb].
  apply total_bind_ret, total_write_all, write_tag_total.
Qed.

Lemma encode_body_total p : total (encode_body p) (packet_fits p).
Proof.
  destruct p; cbn [encode_body packet_fits]; try apply total_true;
    try (by apply total_bind_ret, total_tags8); try (by apply total_bind_ret, total_contacts).
  - unfold write_search_res. rewrite expect_len_dec.
    destruct (zlen _ <? _); [|done]. cbn [mbind res_bind andb].
    apply total_bind_ret, total_write_all, total_search_result_entry.
  - apply total_bind_ret, total_counted. intros e.
    apply total_bind_ret, total_tags8.
Qed.

Lemma encode_total p : total (encode p) (packet_fits p).
Proof. apply total_bind_ret, encode_body_total. Qed.

Lemma normalize_tags_idemp l : map normalize_tag (map normalize_tag l) = map normalize_tag l.
Proof. rewrite map_map. apply map_ext. intros t. apply normalize_tag_idemp. Qed.

Lemma normalize_packet_idemp p : normalize_packet (normalize_packet p) = normalize_packet p.
Proof.
  destruct p; cbn -[Z.land]; rewrite ?normalize_tags_idemp, ?map_map; try done.
  - by rewrite <- Z.land_assoc.
  - do 2 f_equal. apply map_ext. intros e. cbn. by rewrite normalize_tags_idemp.
  - do 2 f_equal. apply map_ext. intros e. cbn. by rewrite normalize_tags_idemp.
Qed.

Lemma opcode_u8 p : wf_packet p = true → is_u8 (opcode p) = true.
Proof. destruct p; try done. cbn -[is_u8]. by intros [[? _]%andb_true_iff _]%andb_true_iff. Qed.

Lemma decode_encode w1252 zlib p bytes : wf_packet p = true → encode p = Ok bytes →
  decode w1252 zlib bytes = Ok (normalize_packet p).
Proof.
  intros Hp (body & Hb & [= <-])%res_bind_Ok.
  rewrite !write_u8_small by (done || by apply opcode_u8). cbn.
  by apply decode_encode_body.
Qed.

(** ** Correctness of the packet codec *)

(** C1. Every well-typed packet whose counts and lengths fit their wire fields
    encodes without a panic, and decoding the bytes gives the packet back, up to
    what the wire does not carry: the storage class of an untyped integer tag, a
    one-byte long tag name, and the high bit of the start position of a source
    search. The decoded packet is a fixed point of that normalization, and a
    packet that does not fit is a panic, never a truncated packet. *)
Theorem packet_roundtrip windows_1252 zlib_decode p :
  wf_packet p = true →
  (packet_fits p = true → ∃ bytes, encode p = Ok bytes ∧
     decode windows_1252 zlib_decode bytes = Ok (normalize_packet p)) ∧
  (packet_fits p = false → encode p = Panic) ∧
  normalize_packet (normalize_packet p) = normalize_packet p.
Proof.
  intros Hp. pose proof (encode_total p) as Ht. split; [|split].
  - intros Hf. rewrite Hf in Ht. destruct Ht as [bytes Hb]. exists bytes.
    split; [done|]. by apply decode_encode.
  - intros Hf. by rewrite Hf in Ht.
  - apply normalize_packet_idemp.
Qed.

Lemma packet_roundtrip_witness :
  ∃ bytes, encode (PHelloReq (mkHelloReq (replicate 16 3) 4662 9 [mkTag (Short 252) (VUInt 300)]))
    = Ok bytes ∧
  decode id (λ _, None) bytes =
    Ok (PHelloReq (mkHelloReq (replicate 16 3) 4662 9 [mkTag (Short 252) (VU16 300)])).
Proof.
  exact (proj1 (packet_roundtrip id (λ _, None)
    (PHelloReq (mkHelloReq (replicate 16 3) 4662 9 [mkTag (Short 252) (VUInt 300)])) eq_refl)
    eq_refl).
Defined.

Lemma decode_ok windows_1252 zlib_decode buf :
  (∀ b, is_bytes b = true → wf_string (windows_1252 b) = true) →
  (∀ b d, is_bytes b = true → zlib_decode b = Some d → is_bytes d = true) →
  is_bytes buf = true →
  match decode windows_1252 zlib_decode buf with
  | Ok p => wf_packet p = true
  | Err _ => True
  | Panic => False
  end.
Proof.
  intros Hw Hz Hb. destruct buf as [|b0 [|b1 rest]]; [done..|]. cbn [decode].
  cbn -[is_u8] in Hb. bool_hyps.
  destruct (b0 =? OP_KADEMLIAPACKEDPROT).
  - destruct (zlib_decode rest) as [d|] eqn:Hd; [|done]. apply decode_body_typed; eauto.
  - destruct (b0 =? OP_KADEMLIAHEADER); [|done]. by apply decode_body_typed.
Qed.

(** C2. Decoding untrusted bytes never panics: whatever a peer sends, [decode]
    returns an error or a packet all of whose fields have their types (ids of 16
    bytes, integers in range, strings valid UTF-8). The Windows-1252 decoder is
    assumed to return valid UTF-8 and the zlib decoder to return bytes. *)
Theorem decode_typed windows_1252 zlib_decode buf :
  (∀ b, is_bytes b = true → wf_string (windows_1252 b) = true) →
  (∀ b d, is_bytes b = true → zlib_decode b = Some d → is_bytes d = true) →
  is_bytes buf = true →
  match decode windows_1252 zlib_decode buf with
  | Ok p => wf_packet p = true
  | Err _ => True
  | Panic => False
  end.
Proof. apply decode_ok. Qed.

(** Decoders for the witness: the bytes below 128, and the identity. *)
Lemma decode_typed_witness :
  match decode (List.filter (λ b, b <? 128)) Some [0xE4; 0x61; 0x35; 0x12] with
  | Ok p => wf_packet p = true | Err _ => True | Panic => False end.
Proof.
  apply (decode_typed (List.filter (λ b, b <? 128)) Some [0xE4; 0x61; 0x35; 0x12]).
  - intros b Hb. unfold wf_string. apply andb_true_iff. split.
    + apply is_bytes_spec, List.Forall_forall. intros x [Hx _]%filter_In.
      apply is_bytes_spec in Hb. rewrite List.Forall_forall in Hb. by apply Hb.
    + apply ascii_valid, List.Forall_forall. intros x [_ Hx]%filter_In. by apply Z.ltb_lt.
  - intros b d Hb [= <-]. exact Hb.
  - reflexivity.
Defined.
