(* ===== verification/Contact.v ===== *)
(** * Routing-table contacts

    Models [overlord-kad-routing/src/contact.rs] and [error.rs], and the [/24]
    prefix that [bin.rs] and [table.rs] share. A [SystemTime] is a [Z], and the
    operations that read the clock take it as [now]. *)

From S2P Require Import Prelude Net NodeId.

(** ** Data *)

(** A [/24] prefix. *)
Definition Subnet : Type := Z * Z * Z.

Inductive ContactType : Type := Active | Inactive | Dead.
#[export] Instance ContactType_eq_dec : EqDecision ContactType.
Proof. solve_decision. Defined.

Record Contact : Type := mkContact {
  c_id : NodeId;
  c_ip : Ipv4Addr;
  c_udp_port : Z;
  c_tcp_port : Z;
  c_kad_version : Z;
  c_udp_key : KadUdpKey;
  c_hello_source_udp_port : option Z;
  c_udp_firewalled : bool;
  c_tcp_firewalled : bool;
  c_requests_hello_res_ack : bool;
  c_verified : bool;
  c_contact_type : ContactType;
  c_last_seen : Z;
  c_created_at : Z;
}.

Inductive RoutingSubnetLimitScope : Type := Global | BinLocal.
Inductive RoutingSplitDeniedReason : Type := DepthLimit | MaxTableSize | ZoneIndexCap.
Inductive RoutingError : Type :=
| TableFull (max : Z)
| IpLimitExceeded (ip : Ipv4Addr)
| SubnetLimitExceeded (prefix : Z) (scope : RoutingSubnetLimitScope)
| SplitDenied (reason : RoutingSplitDeniedReason).

(** ** Operations *)

(** [Contact::new] *)
Definition new_contact (now : Z) (id : NodeId) (ip : Ipv4Addr) (udp_port tcp_port kad_version : Z)
    : Contact :=
  mkContact id ip udp_port tcp_port kad_version KadUdpKey_ZERO None false false false false
    Inactive now now.

Definition mark_alive (now : Z) (c : Contact) : Contact :=
  mkContact (c_id c) (c_ip c) (c_udp_port c) (c_tcp_port c) (c_kad_version c) (c_udp_key c)
    (c_hello_source_udp_port c) (c_udp_firewalled c) (c_tcp_firewalled c)
    (c_requests_hello_res_ack c) (c_verified c) Active now (c_created_at c).
Definition mark_dead (c : Contact) : Contact :=
  mkContact (c_id c) (c_ip c) (c_udp_port c) (c_tcp_port c) (c_kad_version c) (c_udp_key c)
    (c_hello_source_udp_port c) (c_udp_firewalled c) (c_tcp_firewalled c)
    (c_requests_hello_res_ack c) (c_verified c) Dead (c_last_seen c) (c_created_at c).

Definition is_lan (ip : Ipv4Addr) : bool :=
  let '(o0, o1, _, _) := ip in
  if o0 =? 10 then true
  else if (o0 =? 172) && ((16 <=? o1) && (o1 <=? 31)) then true
  else if (o0 =? 192) && (o1 =? 168) then true
  else if o0 =? 127 then true
  else false.
Definition is_lan_ip (c : Contact) : bool := is_lan (c_ip c).

(** [subnet24] *)
Definition subnet24 (ip : Ipv4Addr) : Subnet := let '(o0, o1, o2, _) := ip in (o0, o1, o2).

(** ** Types *)

Definition wf_contact (c : Contact) : bool :=
  wf_NodeId (c_id c) && wf_ip (c_ip c) && is_u16 (c_udp_port c) && is_u16 (c_tcp_port c) &&
  is_u8 (c_kad_version c) && is_u32 (c_udp_key c).

(** ** Views *)

(** The contact is outside the LAN and in the [/24] network [s]. *)
Definition in_subnet (s : Subnet) (c : Contact) : bool :=
  negb (is_lan (c_ip c)) && bool_decide (subnet24 (c_ip c) = s).

(** ** Lemmas *)

(** Pairwise distinct 32-bit numbers are at most [2^32] many. *)
Lemma NoDup_bounded (l : list Z) n :
  NoDup l → Forall (λ x, 0 ≤ x < n) l → zlen l ≤ Z.max n 0.
Proof.
  intros Hnd Hl. unfold zlen.
  assert (Hle : (length l ≤ length (seqZ 0 n))%nat).
  { apply submseteq_length, NoDup_submseteq; [done|]. intros x Hx. apply elem_of_seqZ.
    rewrite Forall_forall in Hl. specialize (Hl x Hx). lia. }
  rewrite length_seqZ in Hle. lia.
Qed.
