(* ===== verification/Bin.v ===== *)
(** * K-buckets

    Models [overlord-kad-routing/src/bin.rs]: a bucket of at most [K] contacts in
    least-recently-seen order, with at most two contacts of one non-LAN [/24]. *)

From S2P Require Import Prelude Net NodeId Contact.

(** ** Data *)

(** The bucket size of [constants.rs]. *)
Definition K : Z := 10.
Definition MAX_PER_BIN_SUBNET24 : Z := 2.

(** [struct RoutingBin { contacts: VecDeque<Contact> }], front first. *)
Abbreviation RoutingBin := (list Contact).

(** ** Operations *)

Definition bin_new : RoutingBin := [].
Definition bin_len (b : RoutingBin) : Z := zlen b.
Definition is_full (b : RoutingBin) : bool := K <=? zlen b.
Definition bin_is_empty (b : RoutingBin) : bool := zlen b =? 0.

Definition has_id (id : NodeId) (c : Contact) : bool := bool_decide (c_id c = id).

(** The fields [try_add] overwrites in a contact it already has. *)
Definition update_contact (existing contact : Contact) : Contact :=
  mkContact (c_id existing) (c_ip contact) (c_udp_port contact) (c_tcp_port contact)
    (Z.max (c_kad_version existing) (c_kad_version contact))
    (if c_udp_key contact =? KadUdpKey_ZERO then c_udp_key existing else c_udp_key contact)
    (c_hello_source_udp_port existing) (c_udp_firewalled existing) (c_tcp_firewalled existing)
    (c_requests_hello_res_ack existing) (c_verified existing) (c_contact_type existing)
    (c_last_seen contact) (c_created_at existing).

(** The new bin, and the [Result] of [try_add]. *)
Definition try_add (b : RoutingBin) (contact : Contact) : RoutingBin * res RoutingError bool :=
  let existing_pos := position (has_id (c_id contact)) b in
  let same_subnet_contacts :=
    countb (λ '(index, existing), negb (bool_decide (Some index = existing_pos)) &&
      (negb (is_lan (c_ip existing)) &&
       bool_decide (subnet24 (c_ip existing) = subnet24 (c_ip contact)))) (imap pair b) in
  if negb (is_lan (c_ip contact)) && (MAX_PER_BIN_SUBNET24 <=? Z.of_nat same_subnet_contacts)
  then (b, Err (SubnetLimitExceeded 24 BinLocal))
  else
    match existing_pos with
    | Some pos =>
        match b !! pos with
        | Some existing => (delete pos b ++ [update_contact existing contact], Ok false)
        | None => (b, Panic)
        end
    | None =>
        if K <=? zlen b then (b, Err (TableFull K)) else (b ++ [contact], Ok true)
    end.

(** [remove]: the new bin and the contact removed. *)
Definition bin_remove (b : RoutingBin) (id : NodeId) : RoutingBin * option Contact :=
  match position (has_id id) b with
  | Some pos => (delete pos b, b !! pos)
  | None => (b, None)
  end.

Definition oldest (b : RoutingBin) : option Contact := head b.
Definition first_dead (b : RoutingBin) : option Contact :=
  find (λ c, bool_decide (c_contact_type c = Dead)) b.
Definition contains_ip (b : RoutingBin) (ip : Ipv4Addr) : bool :=
  existsb (λ c, bool_decide (c_ip c = ip)) b.
Definition refresh (b : RoutingBin) (id : NodeId) : RoutingBin :=
  match position (has_id id) b with
  | Some pos => match b !! pos with Some c => delete pos b ++ [c] | None => b end
  | None => b
  end.
(** [drain]: what is left, and what came out. *)
Definition drain (b : RoutingBin) : RoutingBin * list Contact := ([], b).

(** ** Invariant *)

Definition bin_ok (b : RoutingBin) : Prop :=
  zlen b ≤ K ∧ NoDup (c_id <$> b) ∧ ∀ s, (countb (in_subnet s) b ≤ 2)%nat.

(** ** Specification

    What [try_add] decides, from the contacts with another identifier. *)
Definition others (id : NodeId) (b : list Contact) : list Contact :=
  List.filter (λ c, negb (has_id id c)) b.
Definition try_add_spec (b : RoutingBin) (contact : Contact) : res RoutingError bool :=
  if negb (is_lan (c_ip contact)) &&
     (2 <=? countb (in_subnet (subnet24 (c_ip contact))) (others (c_id contact) b))%nat
  then Err (SubnetLimitExceeded 24 BinLocal)
  else if existsb (has_id (c_id contact)) b then Ok false
  else if K <=? zlen b then Err (TableFull K)
  else Ok true.

(** The contents after [try_add]. *)
Inductive try_add_effect (b : RoutingBin) (c : Contact) : RoutingBin → res RoutingError bool → Prop :=
| add_new : c_id c ∉ c_id <$> b → zlen b < K → try_add_effect b c (b ++ [c]) (Ok true)
| add_known pos e : b !! pos = Some e → c_id e = c_id c → b ≡ₚ e :: others (c_id c) b →
    try_add_effect b c (others (c_id c) b ++ [update_contact e c]) (Ok false)
| add_refused_subnet : try_add_effect b c b (Err (SubnetLimitExceeded 24 BinLocal))
| add_refused_full : c_id c ∉ c_id <$> b → K ≤ zlen b → try_add_effect b c b (Err (TableFull K)).

(** ** Lemmas *)

Lemma has_id_true id c : has_id id c = true ↔ c_id c = id.
Proof. apply bool_decide_eq_true. Qed.
Lemma has_id_false id c : has_id id c = false ↔ c_id c ≠ id.
Proof. apply bool_decide_eq_false. Qed.

Lemma update_contact_id e c : c_id (update_contact e c) = c_id e.
Proof. done. Qed.
Lemma update_contact_ip e c : c_ip (update_contact e c) = c_ip c.
Proof. done. Qed.

Lemma in_subnet_ip s c d : c_ip c = c_ip d → in_subnet s c = in_subnet s d.
Proof. unfold in_subnet. by intros ->. Qed.

(** A position in the bin, when there is one, splits off the other contacts. *)
Lemma position_split id b pos :
  NoDup (c_id <$> b) → position (has_id id) b = Some pos →
  ∃ c, b !! pos = Some c ∧ c_id c = id ∧ b ≡ₚ c :: delete pos b ∧ delete pos b = others id b.
Proof.
  intros Hnd Hpos. destruct (position_Some _ _ _ Hpos) as (c & Hc & Hid%has_id_true).
  exists c. split; [done|]. split; [done|].
  assert (Hp : b ≡ₚ c :: delete pos b) by (by apply delete_Permutation). split; [done|].
  clear Hp. revert pos Hpos Hc. induction b as [|x b IH]; intros pos Hpos Hc; [done|].
  cbn in Hnd, Hpos. apply NoDup_cons in Hnd as [Hx Hnd]. unfold others. cbn [List.filter].
  destruct (has_id id x) eqn:Hxid; cbn [negb].
  - injection Hpos as <-. cbn. apply has_id_true in Hxid.
    clear IH Hc. induction b as [|y b IHb]; [done|]. cbn.
    cbn in Hx. apply not_elem_of_cons in Hx as [Hxy Hx].
    rewrite (proj2 (has_id_false id y)) by congruence. cbn. f_equal.
    apply IHb; [done|]. by apply NoDup_cons in Hnd as [_ ?].
  - apply fmap_Some in Hpos as (p & Hp & ->). cbn in Hc |- *. f_equal. by apply IH.
Qed.

Lemma others_none id b : position (has_id id) b = None → others id b = b.
Proof.
  rewrite position_None. induction 1 as [|x b Hx _ IH]; [done|].
  unfold others in *. cbn. by rewrite Hx, IH.
Qed.

(** The enumerated count of [try_add] skips the existing position. *)
Lemma countb_imap_skip {A} (f : A → bool) (l : list A) o :
  countb (λ '(i, x), negb (bool_decide (Some i = o)) && f x) (imap pair l) =
  countb f (match o with Some p => delete p l | None => l end).
Proof.
  revert o; induction l as [|x l IH]; intros o; [by destruct o|].
  cbn [imap]. rewrite countb_cons.
  assert (Htail : ∀ o', (∀ i, bool_decide (Some (S i) = o) = bool_decide (Some i = o')) →
    countb (λ '(i, y), negb (bool_decide (Some i = o)) && f y) (imap (pair ∘ S) l) =
    countb f (match o' with Some p => delete p l | None => l end)).
  { intros o' Ho. rewrite <- IH. clear IH.
    assert (Hi : imap (pair ∘ S) l = (prod_map S id) <$> imap pair l).
    { rewrite fmap_imap. by apply imap_ext. }
    rewrite Hi. generalize (imap pair l). clear Hi. intros k. induction k as [|[i y] k IHk]; [done|].
    cbn [fmap list_fmap]. rewrite !countb_cons. cbn. by rewrite Ho, IHk. }
  destruct o as [[|p]|].
  - rewrite (Htail None).
    + by rewrite bool_decide_true.
    + intros i. rewrite !bool_decide_false; done.
  - rewrite (Htail (Some p)).
    + rewrite bool_decide_false by done. change (delete (S p) (x :: l)) with (x :: delete p l).
      by rewrite countb_cons.
    + intros i. apply bool_decide_ext. naive_solver.
  - rewrite (Htail None).
    + rewrite bool_decide_false by done. by rewrite countb_cons.
    + intros i. rewrite !bool_decide_false; done.
Qed.

Lemma existsb_has_id id b : existsb (has_id id) b = true ↔ id ∈ c_id <$> b.
Proof.
  rewrite existsb_exists, list_elem_of_fmap. setoid_rewrite has_id_true.
  setoid_rewrite list_elem_of_In. naive_solver.
Qed.

Lemma position_id_None id b : position (has_id id) b = None ↔ id ∉ c_id <$> b.
Proof.
  rewrite position_None, Forall_forall, list_elem_of_fmap.
  setoid_rewrite has_id_false. naive_solver.
Qed.

Lemma position_id_Some id b p : position (has_id id) b = Some p → existsb (has_id id) b = true.
Proof.
  intros Hp. destruct (existsb (has_id id) b) eqn:He; [done|].
  destruct (position_id_None id b) as [_ H]. rewrite H in Hp; [done|].
  rewrite <- existsb_has_id, He. done.
Qed.

(** [try_add] decides what the specification says, and the new contents follow
    from the decision. *)
Lemma try_add_result b c : NoDup (c_id <$> b) → snd (try_add b c) = try_add_spec b c.
Proof.
  intros Hnd. unfold try_add, try_add_spec. rewrite countb_imap_skip.
  assert (Ho : match position (has_id (c_id c)) b with Some p => delete p b | None => b end
    = others (c_id c) b).
  { destruct (position (has_id (c_id c)) b) as [p|] eqn:Hp.
    - destruct (position_split _ _ _ Hnd Hp) as (? & _ & _ & _ & ->). done.
    - by rewrite others_none. }
  rewrite Ho. fold (in_subnet (subnet24 (c_ip c))). unfold MAX_PER_BIN_SUBNET24.
  destruct (Z.leb_spec 2 (Z.of_nat (countb (in_subnet (subnet24 (c_ip c)))
    (others (c_id c) b)))) as [Hge|Hlt];
    [rewrite (proj2 (Nat.leb_le _ _)) by lia|rewrite (proj2 (Nat.leb_gt _ _)) by lia];
    (destruct (is_lan (c_ip c)); cbn [negb andb]); try done.
  all: destruct (position (has_id (c_id c)) b) as [p|] eqn:Hp.
  all: try (destruct (position_split _ _ _ Hnd Hp) as (e & -> & _);
    rewrite (position_id_Some _ _ _ Hp); done).
  all: destruct (existsb (has_id (c_id c)) b) eqn:He;
    [apply existsb_has_id in He; by apply position_id_None in Hp|].
  all: by destruct (K <=? zlen b).
Qed.

Lemma try_add_effect_spec b c : NoDup (c_id <$> b) →
  try_add_effect b c (fst (try_add b c)) (snd (try_add b c)).
Proof.
  intros Hnd. unfold try_add. case_match; [constructor|].
  destruct (position (has_id (c_id c)) b) as [p|] eqn:Hp.
  - destruct (position_split _ _ _ Hnd Hp) as (e & He & Hid & Hperm & Hdel). rewrite He, Hdel. cbn.
    rewrite Hdel in Hperm. by eapply add_known.
  - apply position_id_None in Hp. destruct (Z.leb_spec K (zlen b)); by constructor.
Qed.

(** The invariant depends on the contents only. *)
#[export] Instance bin_ok_perm : Proper ((≡ₚ) ==> iff) bin_ok.
Proof.
  intros b b' Hp. unfold bin_ok. rewrite Hp. setoid_rewrite Hp. done.
Qed.

Lemma bin_ok_sub c b : bin_ok (c :: b) → bin_ok b.
Proof.
  intros (Hl & Hnd & Hs). rewrite zlen_cons in Hl. cbn in Hnd. apply NoDup_cons in Hnd as [_ Hnd].
  split; [lia|]. split; [done|]. intros s. specialize (Hs s). rewrite countb_cons in Hs. lia.
Qed.

Lemma bin_ok_nil : bin_ok [].
Proof. split; [done|]. split; [constructor|]. intros s. unfold countb. cbn. lia. Qed.

(** The subnet guard of an accepted contact. *)
Lemma try_add_guard b c b' added : NoDup (c_id <$> b) → try_add b c = (b', Ok added) →
  ∀ s, (countb (in_subnet s) (c :: others (c_id c) b) ≤
        Nat.max 2 (countb (in_subnet s) (others (c_id c) b)))%nat.
Proof.
  intros Hnd Ht s. pose proof (try_add_result b c Hnd) as Hr. rewrite Ht in Hr. cbn in Hr.
  unfold try_add_spec in Hr. rewrite countb_cons. unfold in_subnet at 1.
  case_bool_decide as Hs; [|rewrite andb_false_r; lia]. subst s.
  destruct (is_lan (c_ip c)); cbn [negb andb] in *; [lia|].
  destruct (Nat.leb_spec 2 (countb (in_subnet (subnet24 (c_ip c))) (others (c_id c) b))); [done|lia].
Qed.

Lemma NoDup_others id b : NoDup (c_id <$> b) → NoDup (c_id <$> others id b).
Proof.
  induction b as [|x b IH]; cbn; [done|]. rewrite NoDup_cons. intros [Hx Hnd].
  destruct (has_id id x); cbn; [auto|]. apply NoDup_cons. split; [|auto].
  intros (y & Hy & Hin)%list_elem_of_fmap. apply Hx, list_elem_of_fmap. exists y.
  split; [done|]. apply list_elem_of_In in Hin. apply list_elem_of_In.
  by apply filter_In in Hin as [? _].
Qed.

Lemma others_not_in id b : id ∉ c_id <$> others id b.
Proof.
  intros (y & Hy & Hin)%list_elem_of_fmap. apply list_elem_of_In, filter_In in Hin as [_ Hn].
  apply negb_true_iff, has_id_false in Hn. congruence.
Qed.

Lemma countb_others f id b : (countb f (others id b) ≤ countb f b)%nat.
Proof.
  induction b as [|x b IH]; [done|]. unfold others in *. cbn [List.filter].
  destruct (has_id id x); cbn [negb]; rewrite ?countb_cons; lia.
Qed.

Lemma try_add_ok b c : bin_ok b → bin_ok (fst (try_add b c)).
Proof.
  intros (Hlen & Hnd & Hs). pose proof (try_add_effect_spec b c Hnd) as He.
  pose proof (λ b' a, try_add_guard b c b' a Hnd) as Hg.
  destruct (try_add b c) as [b' r]. cbn in *.
  destruct He as [Hid Hlt|pos e He Hid Hperm| |]; [| |done..].
  - specialize (Hg _ _ eq_refl). apply position_id_None in Hid as Hpos.
    rewrite (others_none _ _ Hpos) in Hg. split; [|split].
    + rewrite zlen_app, zlen_cons, zlen_nil. lia.
    + rewrite fmap_app, Permutation_app_comm. cbn. by apply NoDup_cons.
    + intros s. rewrite Permutation_app_comm. specialize (Hg s). specialize (Hs s). cbn [app]. lia.
  - specialize (Hg _ _ eq_refl). split; [|split].
    + rewrite zlen_app, zlen_cons, zlen_nil. rewrite Hperm, zlen_cons in Hlen. lia.
    + rewrite fmap_app, Permutation_app_comm. cbn. apply NoDup_cons.
      rewrite Hid. split; [apply others_not_in|by apply NoDup_others].
    + intros s. rewrite Permutation_app_comm. specialize (Hg s). specialize (Hs s).
      pose proof (countb_others (in_subnet s) (c_id c) b).
      cbn [app]. rewrite countb_cons in Hg |- *.
      rewrite (in_subnet_ip s (update_contact e c) c) by done. lia.
Qed.

Lemma bin_remove_spec b id : NoDup (c_id <$> b) →
  match bin_remove b id with
  | (b', Some c) => c_id c = id ∧ b ≡ₚ c :: b' ∧ b' = others id b
  | (b', None) => b' = b ∧ id ∉ c_id <$> b
  end.
Proof.
  intros Hnd. unfold bin_remove. destruct (position (has_id id) b) as [p|] eqn:Hp.
  - destruct (position_split _ _ _ Hnd Hp) as (c & -> & Hid & Hperm & Hdel). by rewrite <- Hdel.
  - split; [done|]. by apply position_id_None.
Qed.

Lemma refresh_perm b id : NoDup (c_id <$> b) → refresh b id ≡ₚ b.
Proof.
  intros Hnd. unfold refresh. destruct (position (has_id id) b) as [p|] eqn:Hp; [|done].
  destruct (position_split _ _ _ Hnd Hp) as (c & -> & _ & Hperm & _).
  by rewrite Permutation_app_comm, <- Hperm.
Qed.

(** ** Correctness of the bucket *)

(** Adding to a bucket keeps its invariant (at most [K] contacts, distinct
    identifiers, at most two contacts of one non-LAN [/24]), is decided by the
    contacts with another identifier exactly as [try_add_spec] says, and changes
    the contents accordingly: a new contact goes to the back, a known one is
    updated in place and moved to the back, and a refusal changes nothing. *)
Lemma bin_try_add b c :
  bin_ok b →
  bin_ok (fst (try_add b c)) ∧
  snd (try_add b c) = try_add_spec b c ∧
  try_add_effect b c (fst (try_add b c)) (snd (try_add b c)).
Proof.
  intros Hb. split; [by apply try_add_ok|]. destruct Hb as (_ & Hnd & _).
  split; [by apply try_add_result|by apply try_add_effect_spec].
Qed.
