(* ===== verification/Zone.v ===== *)
(** * Routing zones

    Models [overlord-kad-routing/src/zone.rs]: the binary tree of buckets, split
    by the bits of the identifier. [add] and [split] call each other; the model
    gives [split] the recursive [add] as an argument and bounds the recursion of
    [add] by fuel. A call on a zone of depth [d] makes at most [2 * (127 - d) + 1]
    nested calls, because a leaf of depth 127 does not split ([zone_add_spec]
    shows that this fuel is never exhausted). *)

From S2P Require Import Prelude Net NodeId Contact Bin.

(** ** Constants of [constants.rs] *)
Definition KBASE : Z := 4.
Definition KK : Z := 5.

(** ** Data *)

(** [enum ZoneContent] and [struct RoutingZone] *)
Inductive ZoneContent (Zone : Type) : Type :=
| Leaf (bin : RoutingBin)
| Branch (lzone rzone : Zone).
Arguments Leaf {Zone} bin.
Arguments Branch {Zone} lzone rzone.

#[warnings="-register-all"] Inductive RoutingZone : Type :=
| mkZone (depth zone_index : Z) (content : ZoneContent RoutingZone).

(** ** Operations *)

Definition new_leaf (depth zone_index : Z) : RoutingZone := mkZone depth zone_index (Leaf bin_new).
Definition new_root : RoutingZone := mkZone 0 0 (Leaf bin_new).

Definition child_zone_index (parent_zone_index : Z) (right_child : bool) : Z :=
  let child_zone_index :=
    saturating_add 64 (saturating_mul 64 parent_zone_index 2) (if right_child then 1 else 0) in
  Z.min child_zone_index KK.

Definition can_split (depth zone_index total_contacts max_table_size : Z)
    : res RoutingSplitDeniedReason unit :=
  if 127 <=? depth then Err DepthLimit
  else if max_table_size <=? total_contacts then Err MaxTableSize
  else if (depth <? KBASE) || (zone_index <? KK) then Ok ()
  else Err ZoneIndexCap.

(** The type of [add]: the new zone, and the [Result]. *)
Definition adder : Type := RoutingZone → Contact → Z → Z → RoutingZone * res RoutingError bool.

(** The first loop of [split]: re-adding the drained contacts to a new bin. *)
Fixpoint rebin (cs : list Contact) (drained : RoutingBin) : res RoutingError RoutingBin :=
  match cs with
  | [] => Ok drained
  | c :: cs' =>
      match try_add drained c with
      | (drained', Ok _) => rebin cs' drained'
      | (_, Err e) => Err e
      | (_, Panic) => Panic
      end
  end.

(** The second loop of [split]. *)
Fixpoint redistribute (add : adder) (depth : Z) (cs : list Contact) (lzone rzone : RoutingZone)
    : res RoutingError (RoutingZone * RoutingZone) :=
  match cs with
  | [] => Ok (lzone, rzone)
  | c :: cs' =>
      if id_bit (c_id c) depth then
        match add rzone c 0 USIZE_MAX with
        | (rzone', Ok _) => redistribute add depth cs' lzone rzone'
        | (_, Err e) => Err e
        | (_, Panic) => Panic
        end
      else
        match add lzone c 0 USIZE_MAX with
        | (lzone', Ok _) => redistribute add depth cs' lzone' rzone
        | (_, Err e) => Err e
        | (_, Panic) => Panic
        end
  end.

(** [split]; an error on the way leaves the leaf with its bin drained. *)
Definition split (add : adder) (z : RoutingZone) : RoutingZone * res RoutingError unit :=
  match z with
  | mkZone depth zone_index (Leaf b) =>
      let drained_leaf := mkZone depth zone_index (Leaf (fst (drain b))) in
      match rebin (snd (drain b)) bin_new with
      | Ok bin =>
          let lzone := new_leaf (depth + 1) (child_zone_index zone_index false) in
          let rzone := new_leaf (depth + 1) (child_zone_index zone_index true) in
          match redistribute add depth bin lzone rzone with
          | Ok (lzone', rzone') => (mkZone depth zone_index (Branch lzone' rzone'), Ok ())
          | Err e => (drained_leaf, Err e)
          | Panic => (drained_leaf, Panic)
          end
      | Err e => (drained_leaf, Err e)
      | Panic => (drained_leaf, Panic)
      end
  | mkZone _ _ (Branch _ _) => (z, Ok ())
  end.

(** [add]; running out of fuel is [Panic]. *)
Fixpoint zone_add (fuel : nat) (z : RoutingZone) (contact : Contact)
    (total_contacts max_table_size : Z) : RoutingZone * res RoutingError bool :=
  match fuel with
  | O => (z, Panic)
  | S fuel' =>
      match z with
      | mkZone depth zone_index (Leaf bin) =>
          match try_add bin contact with
          | (bin', Ok added) => (mkZone depth zone_index (Leaf bin'), Ok added)
          | (bin', Err (TableFull _)) =>
              match can_split depth zone_index total_contacts max_table_size with
              | Ok _ =>
                  match split (zone_add fuel') (mkZone depth zone_index (Leaf bin')) with
                  | (z', Ok _) => zone_add fuel' z' contact total_contacts max_table_size
                  | (z', Err e) => (z', Err e)
                  | (z', Panic) => (z', Panic)
                  end
              | Err reason => (mkZone depth zone_index (Leaf bin'), Err (SplitDenied reason))
              | Panic => (mkZone depth zone_index (Leaf bin'), Panic)
              end
          | (bin', Err e) => (mkZone depth zone_index (Leaf bin'), Err e)
          | (bin', Panic) => (mkZone depth zone_index (Leaf bin'), Panic)
          end
      | mkZone depth zone_index (Branch lzone rzone) =>
          if id_bit (c_id contact) depth then
            let '(rzone', r) := zone_add fuel' rzone contact total_contacts max_table_size in
            (mkZone depth zone_index (Branch lzone rzone'), r)
          else
            let '(lzone', r) := zone_add fuel' lzone contact total_contacts max_table_size in
            (mkZone depth zone_index (Branch lzone' rzone), r)
      end
  end.

Fixpoint zone_get_closest (z : RoutingZone) (target : NodeId) (n : Z) (result : list Contact)
    : list Contact :=
  match z with
  | mkZone depth _ (Leaf bin) => result ++ bin
  | mkZone depth _ (Branch lzone rzone) =>
      if id_bit target depth then
        let result := zone_get_closest rzone target n result in
        if zlen result <? n then zone_get_closest lzone target n result else result
      else
        let result := zone_get_closest lzone target n result in
        if zlen result <? n then zone_get_closest rzone target n result else result
  end.

Fixpoint zone_remove (z : RoutingZone) (id : NodeId) : RoutingZone * option Contact :=
  match z with
  | mkZone depth zone_index (Leaf bin) =>
      let '(bin', o) := bin_remove bin id in (mkZone depth zone_index (Leaf bin'), o)
  | mkZone depth zone_index (Branch lzone rzone) =>
      if id_bit id depth then
        let '(rzone', o) := zone_remove rzone id in
        (mkZone depth zone_index (Branch lzone rzone'), o)
      else
        let '(lzone', o) := zone_remove lzone id in
        (mkZone depth zone_index (Branch lzone' rzone), o)
  end.

Fixpoint zone_get (z : RoutingZone) (id : NodeId) : option Contact :=
  match z with
  | mkZone _ _ (Leaf bin) => find (has_id id) bin
  | mkZone depth _ (Branch lzone rzone) =>
      if id_bit id depth then zone_get rzone id else zone_get lzone id
  end.

Fixpoint zone_count (z : RoutingZone) : Z :=
  match z with
  | mkZone _ _ (Leaf bin) => bin_len bin
  | mkZone _ _ (Branch lzone rzone) => zone_count lzone + zone_count rzone
  end.

(** ** Views and invariant *)

(** All contacts of the zone. *)
Fixpoint zone_contacts (z : RoutingZone) : list Contact :=
  match z with
  | mkZone _ _ (Leaf bin) => bin
  | mkZone _ _ (Branch lzone rzone) => zone_contacts lzone ++ zone_contacts rzone
  end.

(** The abstract table: a finite map from identifiers to contacts. *)
Definition zone_map (z : RoutingZone) : gmap NodeId Contact :=
  list_to_map ((λ c, (c_id c, c)) <$> zone_contacts z).

(** A zone of depth [d] and index [i]: buckets satisfy their invariant, and a
    branch separates the contacts by bit [d] of their identifiers. *)
Inductive zone_ok : Z → Z → RoutingZone → Prop :=
| leaf_ok d i b : d ≤ 127 → bin_ok b → zone_ok d i (mkZone d i (Leaf b))
| branch_ok d i l r :
    zone_ok (d + 1) (child_zone_index i false) l →
    zone_ok (d + 1) (child_zone_index i true) r →
    Forall (λ c, id_bit (c_id c) d = false) (zone_contacts l) →
    Forall (λ c, id_bit (c_id c) d = true) (zone_contacts r) →
    zone_ok d i (mkZone d i (Branch l r)).

(** What [add] does to the contacts of a zone. *)
Inductive add_effect (cs : list Contact) (c : Contact) : list Contact → res RoutingError bool → Prop :=
| effect_new cs' : c_id c ∉ c_id <$> cs → cs' ≡ₚ c :: cs → add_effect cs c cs' (Ok true)
| effect_known e rest cs' : cs ≡ₚ e :: rest → c_id e = c_id c → cs' ≡ₚ update_contact e c :: rest →
    add_effect cs c cs' (Ok false)
| effect_subnet cs' : cs' ≡ₚ cs → add_effect cs c cs' (Err (SubnetLimitExceeded 24 BinLocal))
| effect_denied reason cs' : cs' ≡ₚ cs → add_effect cs c cs' (Err (SplitDenied reason)).

(** The contacts of [cs] whose bit [d] is [b]. *)
Definition side (b : bool) (d : Z) (cs : list Contact) : list Contact :=
  List.filter (λ c, eqb (id_bit (c_id c) d) b) cs.

(** The fuel [add] needs. *)
Definition zone_fuel (z : RoutingZone) : Z :=
  match z with
  | mkZone d _ (Leaf _) => 2 * (127 - d) + 1
  | mkZone d _ (Branch _ _) => 2 * (127 - d)
  end.

(** ** Lemmas *)

(** Induction on zones. *)
Lemma zone_induction (P : RoutingZone → Prop) :
  (∀ d i b, P (mkZone d i (Leaf b))) →
  (∀ d i l r, P l → P r → P (mkZone d i (Branch l r))) → ∀ z, P z.
Proof.
  intros Hleaf Hbranch. fix IH 1. intros [d i [b|l r]]; [apply Hleaf|].
  apply Hbranch; apply IH.
Qed.

Lemma zone_ok_depth d i z : zone_ok d i z → d ≤ 127.
Proof. induction 1; lia. Qed.

Lemma bit_disjoint d (l r : list Contact) :
  Forall (λ c, id_bit (c_id c) d = false) l → Forall (λ c, id_bit (c_id c) d = true) r →
  ∀ id, id ∈ c_id <$> l → id ∈ c_id <$> r → False.
Proof.
  rewrite !Forall_forall. intros Hl Hr id (x & -> & Hx)%list_elem_of_fmap
    (y & Hy & Hy')%list_elem_of_fmap. specialize (Hl x Hx). specialize (Hr y Hy'). congruence.
Qed.

Lemma zone_NoDup d i z : zone_ok d i z → NoDup (c_id <$> zone_contacts z).
Proof.
  induction 1 as [d i b _ (_ & Hnd & _)|d i l r _ IHl _ IHr Hl Hr]; cbn [zone_contacts]; [done|].
  rewrite fmap_app. apply NoDup_app. split; [done|]. split; [|done].
  intros id Hid Hid'. by eapply bit_disjoint.
Qed.

(** An identifier with bit [b] is on the other side of no contact. *)
Lemma bit_not_in d (l : list Contact) id b :
  Forall (λ c, id_bit (c_id c) d = b) l → id_bit id d ≠ b → id ∉ c_id <$> l.
Proof.
  rewrite Forall_forall. intros Hl Hb (x & -> & Hx)%list_elem_of_fmap. by apply Hb, Hl.
Qed.

(** *** Splitting *)

Lemma bin_ok_submseteq b b' : b ⊆+ b' → bin_ok b' → bin_ok b.
Proof.
  intros (k & Hk)%submseteq_Permutation. rewrite Hk. clear Hk b'. rewrite Permutation_app_comm.
  induction k as [|c k IH]; [done|]. cbn. intros H. by apply IH, (bin_ok_sub c).
Qed.

(** A contact that fits is appended. *)
Lemma try_add_fresh b c : bin_ok (b ++ [c]) → try_add b c = (b ++ [c], Ok true).
Proof.
  intros Hok. assert (Hb : bin_ok b) by (eapply bin_ok_submseteq, Hok; by apply submseteq_inserts_r).
  destruct Hok as (Hlen & Hnd & Hs). destruct Hb as (_ & Hndb & _).
  rewrite zlen_app, zlen_cons, zlen_nil in Hlen.
  assert (Hid : c_id c ∉ c_id <$> b).
  { rewrite fmap_app, Permutation_app_comm in Hnd. by apply NoDup_cons in Hnd as [? _]. }
  pose proof (try_add_effect_spec b c Hndb) as He. pose proof (try_add_result b c Hndb) as Hr.
  destruct (try_add b c) as [b' r]. cbn in *. destruct He as [| pos e He Hide _| |]; [done|..].
  - destruct Hid. rewrite <- Hide. apply list_elem_of_fmap. exists e. split; [done|].
    by eapply list_elem_of_lookup_2.
  - unfold try_add_spec in Hr. destruct (negb (is_lan (c_ip c))) eqn:Hlan; cbn [andb] in Hr;
      [|by repeat case_match].
    destruct (Nat.leb_spec 2 (countb (in_subnet (subnet24 (c_ip c))) (others (c_id c) b)))
      as [Hge|]; [|by repeat case_match].
    specialize (Hs (subnet24 (c_ip c))). rewrite countb_app, countb_cons in Hs.
    rewrite others_none in Hge by (by apply position_id_None).
    unfold in_subnet at 2 in Hs. rewrite Hlan, bool_decide_true in Hs by done. cbn in Hs. lia.
  - lia.
Qed.

Lemma rebin_all cs acc : bin_ok (acc ++ cs) → rebin cs acc = Ok (acc ++ cs).
Proof.
  revert acc; induction cs as [|c cs IH]; intros acc Hok; cbn; [by rewrite app_nil_r|].
  rewrite (cons_middle c acc cs), app_assoc in Hok |- *.
  rewrite try_add_fresh; [by apply IH|].
  eapply bin_ok_submseteq, Hok. by apply submseteq_inserts_r.
Qed.

Lemma side_perm d cs : side false d cs ++ side true d cs ≡ₚ cs.
Proof.
  induction cs as [|c cs IH]; [done|]. unfold side in *. cbn.
  destruct (id_bit (c_id c) d); cbn; [by rewrite <- Permutation_middle, IH|by rewrite IH].
Qed.

Lemma side_bit b d cs : Forall (λ c, id_bit (c_id c) d = b) (side b d cs).
Proof.
  apply Forall_forall. intros c Hc. apply list_elem_of_In, filter_In in Hc as [_ Hc].
  by apply eqb_prop.
Qed.

Lemma side_submseteq b d cs : side b d cs ⊆+ cs.
Proof.
  rewrite <- (side_perm d cs) at 2. destruct b; [by apply submseteq_inserts_l|
    by apply submseteq_inserts_r].
Qed.

Lemma redistribute_all f d d' il ir cs bl br :
  bin_ok (bl ++ side false d cs) → bin_ok (br ++ side true d cs) →
  redistribute (zone_add (S f)) d cs (mkZone d' il (Leaf bl)) (mkZone d' ir (Leaf br)) =
  Ok (mkZone d' il (Leaf (bl ++ side false d cs)), mkZone d' ir (Leaf (br ++ side true d cs))).
Proof.
  revert bl br; induction cs as [|c cs IH]; intros bl br Hl Hr;
    cbn [redistribute]; [by rewrite !app_nil_r|].
  unfold side in *. cbn [List.filter] in *.
  destruct (id_bit (c_id c) d); cbn [eqb] in *; cbn [zone_add].
  - rewrite (cons_middle c br), app_assoc in Hr |- *.
    rewrite try_add_fresh; [by apply IH|]. eapply bin_ok_submseteq, Hr. by apply submseteq_inserts_r.
  - rewrite (cons_middle c bl), app_assoc in Hl |- *.
    rewrite try_add_fresh; [by apply IH|]. eapply bin_ok_submseteq, Hl. by apply submseteq_inserts_r.
Qed.

(** [split] of a good leaf never fails, and separates the bin by bit. *)
Lemma split_leaf f d i b : bin_ok b →
  split (zone_add (S f)) (mkZone d i (Leaf b)) =
  (mkZone d i (Branch (mkZone (d + 1) (child_zone_index i false) (Leaf (side false d b)))
                      (mkZone (d + 1) (child_zone_index i true) (Leaf (side true d b)))), Ok ()).
Proof.
  intros Hb. unfold split, drain, bin_new. cbn [fst snd].
  rewrite (rebin_all b []) by done. cbn [app]. unfold new_leaf, bin_new.
  rewrite redistribute_all; [done|..]; eapply bin_ok_submseteq, Hb; apply side_submseteq.
Qed.

Lemma split_zone_ok d i b : d < 127 → bin_ok b →
  zone_ok d i (mkZone d i (Branch (mkZone (d + 1) (child_zone_index i false) (Leaf (side false d b)))
                                  (mkZone (d + 1) (child_zone_index i true) (Leaf (side true d b))))).
Proof.
  intros Hd Hb. constructor; [constructor..| |]; try lia; try apply side_bit;
    eapply bin_ok_submseteq, Hb; apply side_submseteq.
Qed.

(** *** The effect of [add] *)

#[export] Instance add_effect_perm :
  Proper ((≡ₚ) ==> eq ==> (≡ₚ) ==> eq ==> iff) add_effect.
Proof.
  assert (H : ∀ cs ds c cs' ds' r, cs ≡ₚ ds → cs' ≡ₚ ds' → add_effect cs c cs' r →
    add_effect ds c ds' r).
  { intros cs ds c cs' ds' r Hp Hp' He. revert Hp'.
    destruct He as [k Hid Hk|e rest k Hk Hid Hk'|k Hk|reason k Hk]; intros Hp'.
    - apply effect_new; [by rewrite <- Hp|by rewrite <- Hp', Hk, Hp].
    - eapply effect_known; [by rewrite <- Hp, Hk|done|by rewrite <- Hp'].
    - apply effect_subnet. by rewrite <- Hp', Hk.
    - apply effect_denied. by rewrite <- Hp', Hk. }
  intros cs ds Hp c ? <- cs' ds' Hp' r ? <-. split; apply H; done.
Qed.

Lemma add_effect_frame cs c cs' r k :
  add_effect cs c cs' r → c_id c ∉ c_id <$> k → add_effect (cs ++ k) c (cs' ++ k) r.
Proof.
  intros [k' Hid Hk|e rest k' Hk Hid Hk'|k' Hk|reason k' Hk] Hn.
  - apply effect_new; [|by rewrite Hk]. rewrite fmap_app, elem_of_app. tauto.
  - apply (effect_known _ _ e (rest ++ k)); [by rewrite Hk|done|by rewrite Hk'].
  - apply effect_subnet. by rewrite Hk.
  - apply effect_denied. by rewrite Hk.
Qed.

Lemma add_effect_ids (P : NodeId → Prop) cs c cs' r :
  add_effect cs c cs' r → P (c_id c) → Forall (λ x, P (c_id x)) cs → Forall (λ x, P (c_id x)) cs'.
Proof.
  intros [k Hid Hk|e rest k Hk Hid Hk'|k Hk|reason k Hk] Hc Hcs.
  - rewrite Hk. by constructor.
  - rewrite Hk'. rewrite Hk in Hcs. apply Forall_cons in Hcs as [? ?].
    constructor; [by rewrite update_contact_id|done].
  - by rewrite Hk.
  - by rewrite Hk.
Qed.

Lemma try_add_add_effect b c b' r : try_add_effect b c b' r → (∀ m, r ≠ Err (TableFull m)) →
  add_effect b c b' r.
Proof.
  intros [Hid _|pos e _ Hid Hk| |] Hr.
  - apply effect_new; [done|]. by rewrite Permutation_app_comm.
  - eapply effect_known; [done..|]. by rewrite Permutation_app_comm.
  - by apply effect_subnet.
  - by destruct (Hr K).
Qed.

Lemma zone_fuel_bound d i z : zone_ok d i z → zone_fuel z ≤ 2 * (127 - d) + 1.
Proof. destruct 1; cbn; lia. Qed.

Lemma zone_add_spec fuel d i z c total max z' r :
  zone_ok d i z → zone_fuel z ≤ Z.of_nat fuel → zone_add fuel z c total max = (z', r) →
  zone_ok d i z' ∧ add_effect (zone_contacts z) c (zone_contacts z') r.
Proof.
  revert d i z z' r. induction fuel as [|fuel IH]; intros d i z z' r Hz Hf Hadd.
  { pose proof (zone_ok_depth _ _ _ Hz). destruct Hz as [|d i l r' Hl _ _ _]; cbn in Hf; [lia|].
    apply zone_ok_depth in Hl. lia. }
  destruct Hz as [d i b Hd Hb|d i l rz Hl Hr Bl Br]; cbn [zone_add zone_fuel] in *.
  - pose proof Hb as (_ & Hnd & _). pose proof (try_add_effect_spec b c Hnd) as He.
    pose proof (try_add_ok b c Hb) as Hok.
    destruct (try_add b c) as [b' rb]. cbn [fst snd] in *.
    assert (Hdone : (∀ m, rb ≠ Err (TableFull m)) → z' = mkZone d i (Leaf b') → r = rb →
      zone_ok d i z' ∧ add_effect b c (zone_contacts z') r).
    { intros Hne -> ->. split; [by constructor|]. by apply try_add_add_effect. }
    destruct rb as [added|[m|ip|p s|reason]|]; try (injection Hadd as <- <-; by apply Hdone).
    clear Hdone. inversion He; subst b'. unfold can_split in Hadd.
    destruct (Z.leb_spec 127 d) as [|Hlt].
    { injection Hadd as <- <-. split; [by constructor|]. by apply effect_denied. }
    destruct (max <=? total).
    { injection Hadd as <- <-. split; [by constructor|]. by apply effect_denied. }
    destruct ((d <? KBASE) || (i <? KK)).
    2:{ injection Hadd as <- <-. split; [by constructor|]. by apply effect_denied. }
    destruct fuel as [|fuel]; [lia|]. rewrite split_leaf in Hadd by done.
    apply (IH d i) in Hadd; [|by apply split_zone_ok|cbn; lia].
    destruct Hadd as [Hz' Heff]. split; [done|].
    cbn [zone_contacts] in Heff. by rewrite side_perm in Heff.
  - pose proof (zone_fuel_bound _ _ _ Hl). pose proof (zone_fuel_bound _ _ _ Hr).
    destruct (id_bit (c_id c) d) eqn:Hbit.
    + destruct (zone_add fuel rz c total max) as [rz' r'] eqn:Hz. injection Hadd as <- <-.
      eapply IH in Hz as [Hz Heff]; [|done|lia]. split.
      * constructor; try done. by apply (add_effect_ids (λ id, id_bit id d = true)) in Heff.
      * cbn [zone_contacts]. rewrite !(Permutation_app_comm (zone_contacts l)).
        apply add_effect_frame; [done|]. eapply bit_not_in; [done|by rewrite Hbit].
    + destruct (zone_add fuel l c total max) as [l' r'] eqn:Hz. injection Hadd as <- <-.
      eapply IH in Hz as [Hz Heff]; [|done|lia]. split.
      * constructor; try done. by apply (add_effect_ids (λ id, id_bit id d = false)) in Heff.
      * cbn [zone_contacts]. apply add_effect_frame; [done|]. eapply bit_not_in; [done|by rewrite Hbit].
Qed.

(** *** Lookup, removal, enumeration *)

Lemma find_has_id id b c : NoDup (c_id <$> b) →
  find (has_id id) b = Some c ↔ c ∈ b ∧ c_id c = id.
Proof.
  induction b as [|x b IH]; cbn; [set_solver|]. rewrite NoDup_cons. intros [Hx Hnd].
  destruct (has_id id x) eqn:Hid.
  - apply has_id_true in Hid. split; [intros [= ->]; set_solver|].
    intros [[-> |Hc]%elem_of_cons Hcid]; [done|]. destruct Hx. rewrite Hid, <- Hcid.
    apply list_elem_of_fmap. eauto.
  - apply has_id_false in Hid. rewrite IH by done. split.
    + intros [? ?]. split; [by right|done].
    + intros [[-> |Hc]%elem_of_cons Hcid]; done.
Qed.

Lemma zone_get_spec d i z id c : zone_ok d i z →
  zone_get z id = Some c ↔ c ∈ zone_contacts z ∧ c_id c = id.
Proof.
  induction 1 as [d i b _ (_ & Hnd & _)|d i l r _ IHl _ IHr Bl Br]; cbn; [by apply find_has_id|].
  assert (Hside : ∀ k, Forall (λ x, id_bit (c_id x) d = negb (id_bit id d)) k →
    c ∈ k → c_id c = id → False).
  { intros k Hk Hc Hid. rewrite Forall_forall in Hk. specialize (Hk c Hc). rewrite Hid in Hk.
    by destruct (id_bit id d). }
  rewrite elem_of_app. destruct (id_bit id d); [rewrite IHr|rewrite IHl]; naive_solver.
Qed.

Lemma zone_map_spec d i z id c : zone_ok d i z →
  zone_map z !! id = Some c ↔ c ∈ zone_contacts z ∧ c_id c = id.
Proof.
  intros Hz. apply zone_NoDup in Hz. unfold zone_map.
  rewrite <- elem_of_list_to_map.
  - rewrite list_elem_of_fmap. naive_solver.
  - by rewrite <- list_fmap_compose.
Qed.

Lemma zone_map_perm d i z e rest : zone_ok d i z → zone_contacts z ≡ₚ e :: rest →
  zone_map z = <[c_id e := e]> (list_to_map ((λ c, (c_id c, c)) <$> rest)).
Proof.
  intros Hz%zone_NoDup Hp. unfold zone_map. rewrite (list_to_map_proper _
    ((λ c, (c_id c, c)) <$> (e :: rest))).
  - done.
  - rewrite <- list_fmap_compose. done.
  - by rewrite Hp.
Qed.

Lemma zone_remove_spec d i z id : zone_ok d i z →
  match zone_remove z id with
  | (z', Some c) => zone_ok d i z' ∧ c_id c = id ∧ zone_contacts z ≡ₚ c :: zone_contacts z'
  | (z', None) => z' = z ∧ id ∉ c_id <$> zone_contacts z
  end.
Proof.
  induction 1 as [d i b Hd Hb|d i l r Hl IHl Hr IHr Bl Br]; cbn.
  - pose proof Hb as (_ & Hnd & _). pose proof (bin_remove_spec b id Hnd) as H.
    destruct (bin_remove b id) as [b' [c|]].
    + destruct H as (Hid & Hp & _). split; [|done]. constructor; [done|].
      eapply bin_ok_sub. by rewrite <- Hp.
    + by destruct H as [-> ?].
  - destruct (id_bit id d) eqn:Hbit.
    + destruct (zone_remove r id) as [r' [c|]].
      * destruct IHr as (Hz & Hid & Hp). split; [|split; [done|]].
        -- constructor; try done. rewrite Hp in Br. by apply Forall_cons in Br as [_ ?].
        -- cbn. rewrite Hp. by rewrite Permutation_middle.
      * destruct IHr as [-> Hn]. split; [done|]. rewrite fmap_app, elem_of_app.
        intros [Hin|Hin]; [|done]. revert Hin. eapply bit_not_in; [done|by rewrite Hbit].
    + destruct (zone_remove l id) as [l' [c|]].
      * destruct IHl as (Hz & Hid & Hp). split; [|split; [done|]].
        -- constructor; try done. rewrite Hp in Bl. by apply Forall_cons in Bl as [_ ?].
        -- cbn. by rewrite Hp.
      * destruct IHl as [-> Hn]. split; [done|]. rewrite fmap_app, elem_of_app.
        intros [Hin|Hin]; [done|]. revert Hin. eapply bit_not_in; [done|by rewrite Hbit].
Qed.

Lemma zone_map_None d i z id : zone_ok d i z →
  zone_map z !! id = None ↔ id ∉ c_id <$> zone_contacts z.
Proof.
  intros Hz. rewrite eq_None_not_Some, list_elem_of_fmap. apply not_iff_compat. split.
  - intros [c Hc%(zone_map_spec d i)]; [|done]. naive_solver.
  - intros (c & -> & Hc). exists c. by apply (zone_map_spec d i).
Qed.

Lemma zone_map_removed d i z id : zone_ok d i z → snd (zone_remove z id) = zone_map z !! id.
Proof.
  intros Hz. pose proof (zone_remove_spec d i z id Hz) as H.
  destruct (zone_remove z id) as [z' [c|]]; cbn.
  - destruct H as (_ & Hid & Hp). symmetry. apply (zone_map_spec d i); [done|].
    split; [|done]. rewrite Hp. by left.
  - symmetry. apply (zone_map_None d i); naive_solver.
Qed.

Lemma zone_map_remove d i z id : zone_ok d i z →
  zone_map (fst (zone_remove z id)) = delete id (zone_map z).
Proof.
  intros Hz. pose proof (zone_remove_spec d i z id Hz) as H.
  pose proof (zone_NoDup d i z Hz) as Hnd.
  destruct (zone_remove z id) as [z' [c|]]; cbn.
  - destruct H as (Hz' & Hid & Hp). rewrite (zone_map_perm d i z c (zone_contacts z')) by done.
    fold (zone_map z'). rewrite Hid, delete_insert_eq, delete_id; [done|].
    apply (zone_map_None d i); [done|]. rewrite Hp in Hnd. cbn in Hnd. rewrite Hid in Hnd.
    by apply NoDup_cons in Hnd as [? _].
  - destruct H as [-> Hn]. rewrite delete_id; [done|]. by apply (zone_map_None d i).
Qed.

Lemma zone_map_same d i z z' : zone_ok d i z → zone_ok d i z' →
  zone_contacts z' ≡ₚ zone_contacts z → zone_map z' = zone_map z.
Proof.
  intros Hz Hz' Hp. apply map_eq. intros id. apply option_eq. intros c.
  by rewrite (zone_map_spec d i), (zone_map_spec d i), Hp.
Qed.

Lemma zone_map_add d i z z' c r : zone_ok d i z → zone_ok d i z' →
  add_effect (zone_contacts z) c (zone_contacts z') r →
  zone_map z' = match r with
                | Ok true => <[c_id c := c]> (zone_map z)
                | Ok false => alter (λ e, update_contact e c) (c_id c) (zone_map z)
                | _ => zone_map z
                end.
Proof.
  intros Hz Hz' He. inversion He as [k Hid Hk|e rest k Hk Hid Hk'|k Hk|reason k Hk]; subst.
  - by rewrite (zone_map_perm d i z' c (zone_contacts z)).
  - rewrite (zone_map_perm d i z e rest), (zone_map_perm d i z' (update_contact e c) rest) by done.
    rewrite update_contact_id, Hid. by rewrite alter_insert_eq.
  - by apply (zone_map_same d i).
  - by apply (zone_map_same d i).
Qed.

Lemma zone_count_spec z : zone_count z = zlen (zone_contacts z).
Proof.
  induction z as [d i b|d i l r IHl IHr] using zone_induction; cbn; [done|].
  by rewrite zlen_app, IHl, IHr.
Qed.

(** With a limit above the number of contacts, every contact is collected. *)
Lemma zone_get_closest_all z target n acc :
  zlen acc + zlen (zone_contacts z) < n →
  zone_get_closest z target n acc ≡ₚ acc ++ zone_contacts z.
Proof.
  revert acc; induction z as [d i b|d i l r IHl IHr] using zone_induction; intros acc Hn;
    cbn [zone_get_closest zone_contacts] in *; [done|].
  rewrite zlen_app in Hn. pose proof (zlen_nonneg (zone_contacts l)).
  pose proof (zlen_nonneg (zone_contacts r)). destruct (id_bit target d).
  - assert (Hr : zone_get_closest r target n acc ≡ₚ acc ++ zone_contacts r) by (apply IHr; lia).
    rewrite (proj2 (Z.ltb_lt _ _)) by (rewrite Hr, zlen_app; lia).
    rewrite IHl by (rewrite Hr, zlen_app; lia). rewrite Hr, <- app_assoc.
    by rewrite (Permutation_app_comm (zone_contacts r)).
  - assert (Hl : zone_get_closest l target n acc ≡ₚ acc ++ zone_contacts l) by (apply IHl; lia).
    rewrite (proj2 (Z.ltb_lt _ _)) by (rewrite Hl, zlen_app; lia).
    rewrite IHr by (rewrite Hl, zlen_app; lia). by rewrite Hl, <- app_assoc.
Qed.

Lemma zone_ok_root : zone_ok 0 0 new_root.
Proof. constructor; [lia|apply bin_ok_nil]. Qed.

(** ** Correctness of the zone tree *)

(** Adding a contact to a well-formed zone terminates within the fuel and
    never panics; it keeps the tree well-formed (buckets within their limits,
    contacts on the side of their bits) and loses no contact, however many times
    buckets are split on the way: the contacts gain the new one, have the known
    one updated, or stay the same when the contact is refused, which is only for
    a full [/24] of the bucket or a denied split. *)
Lemma zone_add_correct fuel d i z c total max :
  zone_ok d i z → 2 * (127 - d) + 1 ≤ Z.of_nat fuel →
  let '(z', r) := zone_add fuel z c total max in
  zone_ok d i z' ∧ add_effect (zone_contacts z) c (zone_contacts z') r ∧ r ≠ Panic.
Proof.
  intros Hz Hf. pose proof (zone_fuel_bound _ _ _ Hz).
  destruct (zone_add fuel z c total max) as [z' r] eqn:Hadd.
  destruct (zone_add_spec fuel d i z c total max z' r Hz ltac:(lia) Hadd) as [Hz' He].
  split; [done|]. split; [done|]. by destruct He.
Qed.

(** C6. The tree refines a finite map from identifiers to contacts: [get] is
    lookup, [count] the number of contacts, [remove] deletes the identifier and
    returns the contact that was there, and an accepted [add] inserts the contact
    (merged with the known one of the same identifier). *)
Theorem zone_refines_map fuel d i z c id total max :
  zone_ok d i z → 2 * (127 - d) + 1 ≤ Z.of_nat fuel →
  zone_get z id = zone_map z !! id ∧
  zone_count z = Z.of_nat (size (zone_map z)) ∧
  zone_map (fst (zone_remove z id)) = delete id (zone_map z) ∧
  snd (zone_remove z id) = zone_map z !! id ∧
  zone_map (fst (zone_add fuel z c total max)) =
    match snd (zone_add fuel z c total max) with
    | Ok true => <[c_id c := c]> (zone_map z)
    | Ok false => alter (λ e, update_contact e c) (c_id c) (zone_map z)
    | _ => zone_map z
    end.
Proof.
  intros Hz Hf.
  assert (Hget : ∀ id, zone_get z id = zone_map z !! id).
  { intros id'. apply option_eq. intros x.
    by rewrite (zone_get_spec d i), (zone_map_spec d i). }
  split; [done|]. split; [|].
  { rewrite zone_count_spec. unfold zone_map, zlen. rewrite map_size_list_to_map.
    - by rewrite length_fmap.
    - rewrite <- list_fmap_compose. by eapply zone_NoDup. }
  split; [|split].
  - by apply (zone_map_remove d i).
  - by apply (zone_map_removed d i).
  - pose proof (zone_fuel_bound _ _ _ Hz).
    destruct (zone_add fuel z c total max) as [z' r] eqn:Hadd.
    destruct (zone_add_spec fuel d i z c total max z' r Hz ltac:(lia) Hadd) as [Hz' He].
    cbn [fst snd]. by apply (zone_map_add d i).
Qed.

Lemma zone_refines_map_witness :
  let c := new_contact 7 (replicate 16 9) (80, 1, 2, 3) 4672 4662 9 in
  let z := fst (zone_add 255 new_root c 0 12000) in
  snd (zone_remove z (replicate 16 9)) = Some c ∧
  snd (zone_remove z (replicate 16 9)) = zone_map z !! replicate 16 9.
Proof.
  cbn zeta. split; [vm_compute; reflexivity|].
  apply (zone_refines_map 255 0 0 _ (new_contact 7 (replicate 16 8) (80, 1, 2, 4) 4672 4662 9)
    (replicate 16 9) 1 12000); [|lia].
  eapply (zone_add_spec 255 0 0 new_root); [apply zone_ok_root|cbn; lia|apply surjective_pairing].
Defined.
