(* ===== verification/Table.v ===== *)
(** * The routing table

    Models [overlord-kad-routing/src/table.rs]: the zone tree with the counts per
    address and per [/24], the one-contact-per-address and ten-per-[/24] rules,
    and the closest-contact query. The [usize] counters are plain integers:
    [table_ok] bounds them by [2^32]. *)

From S2P Require Import Prelude Net NodeId Contact Bin Zone.

(** ** Data *)

Definition DEFAULT_MAX_SIZE : Z := 12000.
Definition GLOBAL_MAX_PER_SUBNET24 : Z := 10.

Record RoutingTable : Type := mkTable {
  t_own_id : NodeId;
  t_max_size : Z;
  t_root : RoutingZone;
  t_ip_counts : gmap Ipv4Addr Z;
  t_subnet_counts : gmap Subnet Z;
  t_total_contacts : Z;
}.

(** ** Operations *)

Definition with_max_size (own_id : NodeId) (max_size : Z) : RoutingTable :=
  mkTable own_id max_size new_root ∅ ∅ 0.
Definition table_new (own_id : NodeId) : RoutingTable := with_max_size own_id DEFAULT_MAX_SIZE.

(** [*counts.entry(k).or_insert(0) += 1] *)
Definition incr {A} `{Countable A} (m : gmap A Z) (k : A) : gmap A Z :=
  <[k := default 0 (m !! k) + 1]> m.
(** [if let Some(cnt) = counts.get_mut(&k)] with the decrement or removal. *)
Definition decr {A} `{Countable A} (m : gmap A Z) (k : A) : gmap A Z :=
  match m !! k with
  | Some cnt => if 1 <? cnt then <[k := cnt - 1]> m else delete k m
  | None => m
  end.

(** The subnet counts skip LAN addresses. *)
Definition incr_subnet (m : gmap Subnet Z) (ip : Ipv4Addr) : gmap Subnet Z :=
  if negb (is_lan ip) then incr m (subnet24 ip) else m.
Definition decr_subnet (m : gmap Subnet Z) (ip : Ipv4Addr) : gmap Subnet Z :=
  if negb (is_lan ip) then decr m (subnet24 ip) else m.

(** The fuel of [zone_add] at the root. *)
Definition ROOT_FUEL : nat := 255.

(** [add_contact]: the new table, and the [Result]. *)
Definition add_contact (t : RoutingTable) (contact : Contact)
    : RoutingTable * res RoutingError unit :=
  let ip_count := default 0 (t_ip_counts t !! c_ip contact) in
  let existing_ip := c_ip <$> zone_get (t_root t) (c_id contact) in
  if (0 <? ip_count) && negb (bool_decide (existing_ip = Some (c_ip contact)))
  then (t, Err (IpLimitExceeded (c_ip contact)))
  else
    let subnet_count := default 0 (t_subnet_counts t !! subnet24 (c_ip contact)) in
    let is_new_ip :=
      default true ((λ ip, negb (bool_decide (ip = c_ip contact))) <$> existing_ip) in
    if negb (is_lan (c_ip contact)) && (is_new_ip && (GLOBAL_MAX_PER_SUBNET24 <=? subnet_count))
    then (t, Err (SubnetLimitExceeded 24 Global))
    else
      let old_ip := existing_ip in
      let new_ip := c_ip contact in
      let '(root, result) :=
        zone_add ROOT_FUEL (t_root t) contact (t_total_contacts t) (t_max_size t) in
      match result with
      | Ok true =>
          (mkTable (t_own_id t) (t_max_size t) root (incr (t_ip_counts t) new_ip)
             (incr_subnet (t_subnet_counts t) new_ip) (t_total_contacts t + 1), Ok ())
      | Ok false =>
          match old_ip with
          | Some old =>
              if negb (bool_decide (old = new_ip)) then
                (mkTable (t_own_id t) (t_max_size t) root
                   (incr (decr (t_ip_counts t) old) new_ip)
                   (incr_subnet (decr_subnet (t_subnet_counts t) old) new_ip)
                   (t_total_contacts t), Ok ())
              else (mkTable (t_own_id t) (t_max_size t) root (t_ip_counts t)
                      (t_subnet_counts t) (t_total_contacts t), Ok ())
          | None => (mkTable (t_own_id t) (t_max_size t) root (t_ip_counts t)
                       (t_subnet_counts t) (t_total_contacts t), Ok ())
          end
      | Err e => (mkTable (t_own_id t) (t_max_size t) root (t_ip_counts t)
                    (t_subnet_counts t) (t_total_contacts t), Err e)
      | Panic => (mkTable (t_own_id t) (t_max_size t) root (t_ip_counts t)
                    (t_subnet_counts t) (t_total_contacts t), Panic)
      end.

(** The order of the [sort_by] of [get_closest]. *)
Definition closer_cmp (target : NodeId) (a b : Contact) : comparison :=
  id_cmp (distance (c_id a) target) (distance (c_id b) target).

Definition get_closest (t : RoutingTable) (target : NodeId) (n : Z) : list Contact :=
  let result := zone_get_closest (t_root t) target USIZE_MAX [] in
  take (Z.to_nat n) (sort_by (closer_cmp target) result).

Definition table_remove (t : RoutingTable) (id : NodeId) : RoutingTable * bool :=
  match zone_remove (t_root t) id with
  | (root, Some contact) =>
      let ip := c_ip contact in
      (mkTable (t_own_id t) (t_max_size t) root (decr (t_ip_counts t) ip)
         (decr_subnet (t_subnet_counts t) ip) (t_total_contacts t - 1), true)
  | (root, None) =>
      (mkTable (t_own_id t) (t_max_size t) root (t_ip_counts t) (t_subnet_counts t)
         (t_total_contacts t), false)
  end.

Definition table_len (t : RoutingTable) : Z := t_total_contacts t.
Definition table_is_empty (t : RoutingTable) : bool := t_total_contacts t =? 0.
Definition max_size (t : RoutingTable) : Z := t_max_size t.
Definition own_id (t : RoutingTable) : NodeId := t_own_id t.
Definition table_get (t : RoutingTable) (id : NodeId) : option Contact := zone_get (t_root t) id.
Definition all_contacts (t : RoutingTable) : list Contact :=
  get_closest t (t_own_id t) (t_total_contacts t).

(** ** Views and invariant *)

Definition contacts (t : RoutingTable) : list Contact := zone_contacts (t_root t).
Definition has_ip (ip : Ipv4Addr) (c : Contact) : bool := bool_decide (c_ip c = ip).

Definition count_entry (n : nat) : option Z :=
  if (n =? 0)%nat then None else Some (Z.of_nat n).

(** [m] holds, for each key, the number of contacts that [counts] for it, and
    has no entry for zero. *)
Definition counted {A} `{Countable A} (counts : A → Contact → bool) (m : gmap A Z)
    (l : list Contact) : Prop :=
  ∀ k, m !! k = count_entry (countb (counts k) l).

Record table_ok (t : RoutingTable) : Prop := {
  ok_zone : zone_ok 0 0 (t_root t);
  ok_wf : Forall (λ c, wf_contact c = true) (contacts t);
  ok_ips : counted has_ip (t_ip_counts t) (contacts t);
  ok_subnets : counted in_subnet (t_subnet_counts t) (contacts t);
  ok_total : t_total_contacts t = zlen (contacts t);
  ok_one_per_ip : ∀ ip, (countb (has_ip ip) (contacts t) ≤ 1)%nat;
  ok_ten_per_subnet : ∀ s, (countb (in_subnet s) (contacts t) ≤ 10)%nat;
}.

(** The tables a sequence of operations builds. *)
Inductive table_op : Type := OpAdd (c : Contact) | OpRemove (id : NodeId).
Definition wf_op (o : table_op) : bool :=
  match o with OpAdd c => wf_contact c | OpRemove _ => true end.
Definition run_op (t : RoutingTable) (o : table_op) : RoutingTable :=
  match o with OpAdd c => fst (add_contact t c) | OpRemove id => fst (table_remove t id) end.

(** The leaf that an identifier belongs to: its depth, its index and its bucket. *)
Fixpoint leaf_of (z : RoutingZone) (id : NodeId) : Z * Z * RoutingBin :=
  match z with
  | mkZone d i (Leaf b) => (d, i, b)
  | mkZone d _ (Branch l r) => if id_bit id d then leaf_of r id else leaf_of l id
  end.
(** Why a leaf may not split, in the order in which the reasons apply. *)
Definition denied_because (reason : RoutingSplitDeniedReason) (d i total max : Z) : Prop :=
  match reason with
  | DepthLimit => 127 ≤ d
  | MaxTableSize => d < 127 ∧ max ≤ total
  | ZoneIndexCap => d < 127 ∧ total < max ∧ 4 ≤ d ∧ 5 ≤ i
  end.
Definition may_split (d i total max : Z) : Prop := d < 127 ∧ total < max ∧ (d < 4 ∨ i < 5).
(** The outcome for a contact, from its leaf before and after: a new contact went into a
    bucket with room, or a split was allowed; a refusal for the bucket's [/24] means
    that two other contacts of its bucket are in that network, and a denied split that
    its bucket is full and may not be split, for the reason given. *)
Definition leaf_outcome (c : Contact) (total max : Z) (before after : Z * Z * RoutingBin) (r : res RoutingError bool) : Prop :=
  match r with
  | Ok true => let '(d, i, b) := before in zlen b < 10 ∨ may_split d i total max
  | Err (SubnetLimitExceeded p _) => let '(d, i, b) := after in
      p = 24 ∧ is_lan (c_ip c) = false ∧ (2 ≤ countb (in_subnet (subnet24 (c_ip c))) (others (c_id c) b))%nat
  | Err (SplitDenied reason) => let '(d, i, b) := after in zlen b = 10 ∧ (c_id c ∉ c_id <$> b) ∧ denied_because reason d i total max
  | _ => True
  end.

(** What [add_contact] does to the contacts, and why it refuses. *)
Definition add_contact_post (t : RoutingTable) (c : Contact) (t' : RoutingTable)
    (r : res RoutingError unit) : Prop :=
  match r with
  | Ok _ =>
      ((c_id c ∉ c_id <$> contacts t) ∧ contacts t' ≡ₚ c :: contacts t ∧
         let '(d, i, b) := leaf_of (t_root t) (c_id c) in zlen b < 10 ∨ may_split d i (zlen (contacts t)) (t_max_size t)) ∨
      (∃ e rest, contacts t ≡ₚ e :: rest ∧ c_id e = c_id c ∧
         contacts t' ≡ₚ update_contact e c :: rest)
  | Err e =>
      contacts t' ≡ₚ contacts t ∧
      match e with
      | IpLimitExceeded ip =>
          ip = c_ip c ∧ ∃ x, x ∈ contacts t ∧ c_ip x = c_ip c ∧ c_id x ≠ c_id c
      | SubnetLimitExceeded p Global =>
          p = 24 ∧ is_lan (c_ip c) = false ∧ (c_ip c ∉ c_ip <$> contacts t) ∧
          countb (in_subnet (subnet24 (c_ip c))) (contacts t) = 10%nat
      | SubnetLimitExceeded p BinLocal =>
          p = 24 ∧ is_lan (c_ip c) = false ∧
          let '(d, i, b) := leaf_of (t_root t') (c_id c) in (2 ≤ countb (in_subnet (subnet24 (c_ip c))) (others (c_id c) b))%nat
      | SplitDenied reason =>
          (c_id c ∉ c_id <$> contacts t) ∧
          let '(d, i, b) := leaf_of (t_root t') (c_id c) in zlen b = 10 ∧ denied_because reason d i (zlen (contacts t)) (t_max_size t)
      | TableFull _ => False
      end
  | Panic => False
  end.

(** Strictly closer to the target. *)
Definition dist (target : NodeId) (c : Contact) : Z := node_val (distance (c_id c) target).
Definition closer (target : NodeId) (a b : Contact) : Prop := dist target a < dist target b.

(** ** Lemmas *)

(** *** Counting maps *)

Section counted.
Context {A : Type} `{Countable A} (counts : A → Contact → bool).

Lemma counted_perm m l k : counted counts m l → l ≡ₚ k → counted counts m k.
Proof. intros Hm Hp a. by rewrite Hm, Hp. Qed.

Lemma counted_lookup m l k : counted counts m l → default 0 (m !! k) = Z.of_nat (countb (counts k) l).
Proof. intros ->. by destruct (countb (counts k) l). Qed.

Lemma counted_same m c c' l : (∀ k, counts k c = counts k c') →
  counted counts m (c :: l) → counted counts m (c' :: l).
Proof. intros He Hm k. by rewrite Hm, !countb_cons, He. Qed.

(** A contact that counts for no key. *)
Lemma counted_none m c l : (∀ k, counts k c = false) →
  counted counts m (c :: l) ↔ counted counts m l.
Proof.
  intros Hc. split; intros Hm k; specialize (Hm k); rewrite Hm, countb_cons, Hc; done.
Qed.

(** A contact that counts for the key [a] only. *)
Lemma counted_incr m a c l : (∀ k, counts k c = bool_decide (a = k)) →
  counted counts m l → counted counts (incr m a) (c :: l).
Proof.
  intros Hc Hm k. unfold incr. rewrite countb_cons, Hc, (counted_lookup m l a Hm).
  case_bool_decide as Hk; cbn -[Z.of_nat].
  - subst k. rewrite lookup_insert_eq. f_equal. lia.
  - by rewrite lookup_insert_ne.
Qed.

Lemma counted_decr m a c l : (∀ k, counts k c = bool_decide (a = k)) →
  counted counts m (c :: l) → counted counts (decr m a) l.
Proof.
  intros Hc Hm k. pose proof (Hm a) as Ha. pose proof (Hm k) as Hk.
  rewrite countb_cons, Hc in Ha, Hk. rewrite bool_decide_true in Ha by done. cbn in Ha.
  unfold decr. rewrite Ha. destruct (countb (counts a) l) as [|n] eqn:Hn; cbn -[Z.of_nat] in Ha |- *.
  - change (1 <? Z.of_nat 1) with false.
    case_bool_decide as He; [subst k; by rewrite lookup_delete_eq, Hn|].
    by rewrite lookup_delete_ne, Hk.
  - rewrite (proj2 (Z.ltb_lt 1 (Z.of_nat (S (S n))))) by lia. case_bool_decide as He.
    + subst k. rewrite lookup_insert_eq, Hn. cbn -[Z.of_nat]. f_equal. lia.
    + by rewrite lookup_insert_ne, Hk.
Qed.
End counted.

Lemma has_ip_key c k : has_ip k c = bool_decide (c_ip c = k).
Proof. done. Qed.

Lemma incr_subnet_counted m c l :
  counted in_subnet m l → counted in_subnet (incr_subnet m (c_ip c)) (c :: l).
Proof.
  intros Hm. unfold incr_subnet. destruct (is_lan (c_ip c)) eqn:Hlan; cbn [negb].
  - apply counted_none; [|done]. intros k. unfold in_subnet. by rewrite Hlan.
  - apply counted_incr; [|done]. intros k. unfold in_subnet. by rewrite Hlan.
Qed.

Lemma decr_subnet_counted m c l :
  counted in_subnet m (c :: l) → counted in_subnet (decr_subnet m (c_ip c)) l.
Proof.
  intros Hm. unfold decr_subnet. destruct (is_lan (c_ip c)) eqn:Hlan; cbn [negb].
  - eapply counted_none; [|done]. intros k. unfold in_subnet. by rewrite Hlan.
  - eapply counted_decr; [|done]. intros k. unfold in_subnet. by rewrite Hlan.
Qed.

(** *** Bounds *)

Lemma one_per_ip_NoDup l : (∀ ip, (countb (has_ip ip) l ≤ 1)%nat) → NoDup (c_ip <$> l).
Proof.
  induction l as [|c l IH]; intros Hl; cbn; [constructor|]. apply NoDup_cons. split.
  - intros (x & Hx & Hin)%list_elem_of_fmap. specialize (Hl (c_ip c)).
    rewrite countb_cons in Hl. unfold has_ip at 1 in Hl. rewrite bool_decide_true in Hl by done.
    assert (Hz : countb (has_ip (c_ip c)) l = O) by lia.
    apply countb_zero in Hz. rewrite Forall_forall in Hz. specialize (Hz x Hin).
    apply bool_decide_eq_false in Hz. congruence.
  - apply IH. intros ip. specialize (Hl ip). rewrite countb_cons in Hl. lia.
Qed.

Lemma table_size_bound t : table_ok t → zlen (contacts t) ≤ 2 ^ 32.
Proof.
  intros Ht. pose proof (ok_wf t Ht) as Hwf. rewrite Forall_forall in Hwf.
  assert (Hip : ∀ c, c ∈ contacts t → wf_ip (c_ip c) = true).
  { intros c Hc. specialize (Hwf c Hc). unfold wf_contact in Hwf. by bool_hyps. }
  assert (Hnd : NoDup ((ip_val ∘ c_ip) <$> contacts t)).
  { rewrite list_fmap_compose. apply NoDup_fmap_2_strong.
    - intros a b (x & -> & Hx)%list_elem_of_fmap (y & -> & Hy)%list_elem_of_fmap.
      apply ip_val_inj; auto.
    - apply one_per_ip_NoDup, Ht. }
  apply (NoDup_bounded _ (2 ^ 32)) in Hnd.
  - unfold zlen in *. rewrite length_fmap in Hnd. lia.
  - apply Forall_forall. intros v (x & -> & Hx)%list_elem_of_fmap. apply ip_val_bound; auto.
Qed.

Lemma wf_update e c : wf_contact e = true → wf_contact c = true →
  wf_contact (update_contact e c) = true.
Proof.
  unfold wf_contact. intros He Hc. bool_hyps. cbn -[is_u8 is_u16 is_u32 wf_ip wf_NodeId].
  rewrite ?andb_true_iff. repeat split; try done.
  - apply is_u8_spec. repeat match goal with H : is_u8 _ = true |- _ => apply is_u8_spec in H end. lia.
  - by case_match.
Qed.

(** *** Adding *)

Lemma with_max_size_ok own max : table_ok (with_max_size own max).
Proof.
  split; cbn; [apply zone_ok_root|constructor|..]; try done; intros k;
    rewrite ?lookup_empty; unfold countb; cbn; done || lia.
Qed.

(** The contact with the new contact's identifier, seen through [get]. *)
Lemma existing_new t c : table_ok t → c_id c ∉ c_id <$> contacts t →
  zone_get (t_root t) (c_id c) = None.
Proof.
  intros Ht Hid. apply eq_None_not_Some. intros [x Hx].
  apply (zone_get_spec 0 0) in Hx as [Hx Hxid]; [|apply Ht].
  apply Hid, list_elem_of_fmap. eauto.
Qed.
Lemma existing_known t c e rest : table_ok t → contacts t ≡ₚ e :: rest → c_id e = c_id c →
  zone_get (t_root t) (c_id c) = Some e.
Proof.
  intros Ht Hp Hid. apply (zone_get_spec 0 0); [apply Ht|]. split; [|done].
  change (e ∈ contacts t). rewrite Hp. by left.
Qed.

(** The tables [add_contact] leaves, when the zone accepts or refuses. *)
Lemma add_new_ok t root c : table_ok t → wf_contact c = true → zone_ok 0 0 root →
  zone_contacts root ≡ₚ c :: contacts t →
  countb (has_ip (c_ip c)) (contacts t) = O →
  (is_lan (c_ip c) = false → (countb (in_subnet (subnet24 (c_ip c))) (contacts t) < 10)%nat) →
  table_ok (mkTable (t_own_id t) (t_max_size t) root (incr (t_ip_counts t) (c_ip c))
              (incr_subnet (t_subnet_counts t) (c_ip c)) (t_total_contacts t + 1)).
Proof.
  intros Ht Hc Hz Hp Hip Hsub. split; cbn; unfold contacts; cbn; try done.
  - rewrite Hp. constructor; [done|apply Ht].
  - eapply counted_perm; [|symmetry; exact Hp]. apply counted_incr; [done|apply Ht].
  - eapply counted_perm; [|symmetry; exact Hp]. apply incr_subnet_counted, Ht.
  - rewrite Hp, zlen_cons, (ok_total t Ht). lia.
  - intros ip. rewrite Hp, countb_cons. rewrite has_ip_key. case_bool_decide as He.
    + subst ip. by rewrite Hip.
    + apply (ok_one_per_ip t Ht).
  - intros s. rewrite Hp, countb_cons. unfold in_subnet at 1. case_bool_decide as He.
    + subst s. pose proof (ok_ten_per_subnet t Ht (subnet24 (c_ip c))).
      destruct (is_lan (c_ip c)); cbn; [lia|]. specialize (Hsub eq_refl). lia.
    + rewrite andb_false_r. apply (ok_ten_per_subnet t Ht).
Qed.

Lemma add_moved_ok t root c e rest : table_ok t → wf_contact c = true → zone_ok 0 0 root →
  contacts t ≡ₚ e :: rest → zone_contacts root ≡ₚ update_contact e c :: rest →
  countb (has_ip (c_ip c)) (contacts t) = O →
  (is_lan (c_ip c) = false → (countb (in_subnet (subnet24 (c_ip c))) (contacts t) < 10)%nat) →
  table_ok (mkTable (t_own_id t) (t_max_size t) root
              (incr (decr (t_ip_counts t) (c_ip e)) (c_ip c))
              (incr_subnet (decr_subnet (t_subnet_counts t) (c_ip e)) (c_ip c))
              (t_total_contacts t)).
Proof.
  intros Ht Hc Hz Hp Hp' Hip Hsub. split; cbn; unfold contacts; cbn; try done.
  - pose proof (ok_wf t Ht) as Hwf. rewrite Hp in Hwf. apply Forall_cons in Hwf as [He Hr].
    rewrite Hp'. constructor; [by apply wf_update|done].
  - eapply counted_perm; [|symmetry; exact Hp']. apply counted_incr; [done|].
    eapply counted_decr; [done|]. eapply counted_perm; [apply Ht|done].
  - eapply counted_perm; [|symmetry; exact Hp'].
    rewrite <- (update_contact_ip e c). apply incr_subnet_counted, decr_subnet_counted.
    eapply counted_perm; [apply Ht|done].
  - by rewrite Hp', zlen_cons, (ok_total t Ht), Hp, zlen_cons.
  - intros ip. rewrite Hp', countb_cons. rewrite has_ip_key.
    pose proof (ok_one_per_ip t Ht ip) as H1. rewrite Hp, countb_cons in H1, Hip.
    case_bool_decide as He; [|lia]. cbn in He. subst ip. lia.
  - intros s. rewrite Hp', countb_cons. unfold in_subnet at 1. rewrite update_contact_ip.
    pose proof (ok_ten_per_subnet t Ht s) as H1. rewrite Hp, countb_cons in H1, Hsub.
    case_bool_decide as He; [|rewrite andb_false_r; lia]. subst s.
    destruct (is_lan (c_ip c)); cbn; [lia|]. specialize (Hsub eq_refl). lia.
Qed.

Lemma add_touched_ok t root c e rest : table_ok t → wf_contact c = true → zone_ok 0 0 root →
  contacts t ≡ₚ e :: rest → zone_contacts root ≡ₚ update_contact e c :: rest → c_ip e = c_ip c →
  table_ok (mkTable (t_own_id t) (t_max_size t) root (t_ip_counts t) (t_subnet_counts t)
              (t_total_contacts t)).
Proof.
  intros Ht Hc Hz Hp Hp' Hip.
  assert (Hsame : ∀ f : Contact → bool, f e = f (update_contact e c) →
    countb f (zone_contacts root) = countb f (contacts t)).
  { intros f Hf. by rewrite Hp, Hp', !countb_cons, Hf. }
  assert (Hh : ∀ k, has_ip k e = has_ip k (update_contact e c)).
  { intros k. unfold has_ip. by rewrite update_contact_ip, Hip. }
  assert (Hi : ∀ k, in_subnet k e = in_subnet k (update_contact e c)).
  { intros k. by apply in_subnet_ip. }
  split; cbn; unfold contacts; cbn; try done.
  - pose proof (ok_wf t Ht) as Hwf. rewrite Hp in Hwf. apply Forall_cons in Hwf as [He Hr].
    rewrite Hp'. constructor; [by apply wf_update|done].
  - intros k. rewrite Hsame by done. apply Ht.
  - intros k. rewrite Hsame by done. apply Ht.
  - by rewrite Hp', zlen_cons, (ok_total t Ht), Hp, zlen_cons.
  - intros k. rewrite Hsame by done. apply Ht.
  - intros k. rewrite Hsame by done. apply Ht.
Qed.

Lemma same_contacts_ok t root : table_ok t → zone_ok 0 0 root →
  zone_contacts root ≡ₚ contacts t →
  table_ok (mkTable (t_own_id t) (t_max_size t) root (t_ip_counts t) (t_subnet_counts t)
              (t_total_contacts t)).
Proof.
  intros Ht Hz Hp. split; cbn; unfold contacts; cbn; try done.
  - rewrite Hp. apply Ht.
  - eapply counted_perm; [apply Ht|done].
  - eapply counted_perm; [apply Ht|done].
  - rewrite Hp. apply Ht.
  - intros k. rewrite Hp. apply Ht.
  - intros k. rewrite Hp. apply Ht.
Qed.

Lemma counted_pos t ip : table_ok t → 0 < default 0 (t_ip_counts t !! ip) →
  ∃ x, x ∈ contacts t ∧ c_ip x = ip.
Proof.
  intros Ht. rewrite (counted_lookup has_ip _ (contacts t)) by apply Ht. intros Hpos.
  destruct (List.filter (has_ip ip) (contacts t)) as [|x l] eqn:Hf.
  { unfold countb in Hpos. by rewrite Hf in Hpos. }
  assert (Hx : In x (List.filter (has_ip ip) (contacts t))) by (rewrite Hf; by left).
  apply filter_In in Hx as [Hx Hip%bool_decide_eq_true]. exists x. by rewrite list_elem_of_In.
Qed.

(** A contact is refused by its bucket only when it is not on a LAN, and by a
    denied split only when it is new. *)
Lemma zone_add_refusal fuel d i z c total max z' r :
  zone_ok d i z → zone_fuel z ≤ Z.of_nat fuel → zone_add fuel z c total max = (z', r) →
  match r with
  | Err (SubnetLimitExceeded _ _) => is_lan (c_ip c) = false
  | Err (SplitDenied _) => c_id c ∉ c_id <$> zone_contacts z
  | _ => True
  end.
Proof.
  revert d i z z' r. induction fuel as [|fuel IH]; intros d i z z' r Hz Hf Hadd.
  { by injection Hadd as <- <-. }
  destruct Hz as [d i b Hd Hb|d i l rz Hl Hr Bl Br]; cbn [zone_add zone_fuel] in *.
  - pose proof Hb as (_ & Hnd & _). pose proof (try_add_effect_spec b c Hnd) as He.
    pose proof (try_add_result b c Hnd) as Hres. unfold try_add_spec in Hres.
    destruct (try_add b c) as [b' rb]. cbn [fst snd] in *.
    destruct rb as [added|[m|ip|p s|reason]|]; try (injection Hadd as <- <-).
    + done.
    + inversion He; subst b'. unfold can_split in Hadd.
      destruct (Z.leb_spec 127 d) as [|Hlt]; [by injection Hadd as <- <-|].
      destruct (max <=? total); [by injection Hadd as <- <-|].
      destruct ((d <? KBASE) || (i <? KK)); [|by injection Hadd as <- <-].
      destruct fuel as [|fuel]; [lia|]. rewrite split_leaf in Hadd by done.
      apply (IH d i) in Hadd; [|by apply split_zone_ok|cbn; lia].
      cbn [zone_contacts] in Hadd. by destruct r as [?|[]|].
    + done.
    + destruct (is_lan (c_ip c)); [|done]. cbn in Hres. by repeat case_match.
    + inversion He.
    + done.
  - pose proof (zone_fuel_bound _ _ _ Hl). pose proof (zone_fuel_bound _ _ _ Hr).
    cbn [zone_contacts].
    destruct (id_bit (c_id c) d) eqn:Hbit.
    + destruct (zone_add fuel rz c total max) as [rz' r'] eqn:Hz. injection Hadd as <- <-.
      eapply IH in Hz; [|done|lia]. repeat case_match; try done.
      rewrite fmap_app, elem_of_app. intros [Hin|Hin]; [|done].
      revert Hin. eapply bit_not_in; [done|by rewrite Hbit].
    + destruct (zone_add fuel l c total max) as [l' r'] eqn:Hz. injection Hadd as <- <-.
      eapply IH in Hz; [|done|lia]. repeat case_match; try done.
      rewrite fmap_app, elem_of_app. intros [Hin|Hin]; [done|].
      revert Hin. eapply bit_not_in; [done|by rewrite Hbit].
Qed.

Lemma zone_add_outcome fuel d i z c total max z' r :
  zone_ok d i z → zone_fuel z ≤ Z.of_nat fuel → zone_add fuel z c total max = (z', r) →
  leaf_outcome c total max (leaf_of z (c_id c)) (leaf_of z' (c_id c)) r.
Proof.
  revert d i z z' r. induction fuel as [|fuel IH]; intros d i z z' r Hz Hf Hadd.
  { by injection Hadd as <- <-. }
  destruct Hz as [d i b Hd Hb|d i l rz Hl Hr Bl Br]; cbn [zone_add zone_fuel] in *.
  - pose proof Hb as (Hlen & Hnd & _). pose proof (try_add_effect_spec b c Hnd) as He.
    pose proof (try_add_result b c Hnd) as Hres. unfold try_add_spec in Hres.
    destruct (try_add b c) as [b' rb]. cbn [fst snd] in *. unfold K in *.
    destruct rb as [added|[m|ip|p s|reason]|]; try (injection Hadd as <- <-).
    + destruct added; [|done]. left. by inversion He.
    + inversion He; subst b'. unfold can_split in Hadd. unfold K, KBASE, KK in *.
      destruct (Z.leb_spec 127 d) as [|Hlt]; [injection Hadd as <- <-; cbn; split_and!; [lia|done|lia]|].
      destruct (Z.leb_spec max total) as [|Htot]; [injection Hadd as <- <-; cbn; split_and!; [lia|done|lia|lia]|].
      destruct (Z.ltb_spec d 4), (Z.ltb_spec i 5); cbn [orb] in Hadd;
        try (injection Hadd as <- <-; cbn; split_and!; [lia|done|lia..]).
      all: destruct fuel as [|fuel]; [lia|]; rewrite split_leaf in Hadd by done;
        apply (IH d i) in Hadd; [|by apply split_zone_ok|cbn; lia]; destruct r as [[]|[]|]; try done; right; unfold may_split; lia.
    + done.
    + inversion He; subst b' p s. cbn. destruct (is_lan (c_ip c)); cbn [negb andb] in Hres; [by repeat case_match|].
      destruct (Nat.leb_spec 2 (countb (in_subnet (subnet24 (c_ip c))) (others (c_id c) b))); [done|by repeat case_match].
    + inversion He.
    + done.
  - pose proof (zone_fuel_bound _ _ _ Hl). pose proof (zone_fuel_bound _ _ _ Hr).
    destruct (id_bit (c_id c) d) eqn:Hbit.
    + destruct (zone_add fuel rz c total max) as [rz' r'] eqn:Hz. injection Hadd as <- <-.
      cbn [leaf_of]. rewrite Hbit. by eapply IH in Hz; [|done|lia].
    + destruct (zone_add fuel l c total max) as [l' r'] eqn:Hz. injection Hadd as <- <-.
      cbn [leaf_of]. rewrite Hbit. by eapply IH in Hz; [|done|lia].
Qed.

Lemma add_contact_spec t c : table_ok t → wf_contact c = true →
  table_ok (fst (add_contact t c)) ∧
  add_contact_post t c (fst (add_contact t c)) (snd (add_contact t c)).
Proof.
  intros Ht Hc. unfold add_contact.
  destruct ((0 <? _) && _) eqn:Hguard.
  { split; [done|]. bool_hyps. cbn. split; [done|]. split; [done|].
    destruct (counted_pos t (c_ip c) Ht) as (x & Hx & Hxip); [done|]. exists x.
    split; [done|]. split; [done|]. intros Hid.
    assert (Hg : zone_get (t_root t) (c_id c) = Some x).
    { apply (zone_get_spec 0 0); [apply Ht|done]. }
    rewrite Hg in *. cbn in *. congruence. }
  rewrite (counted_lookup has_ip _ (contacts t)) in Hguard by apply Ht.
  rewrite (counted_lookup in_subnet _ (contacts t)) by apply Ht.
  pose proof (ok_ten_per_subnet t Ht (subnet24 (c_ip c))) as Hten.
  destruct (negb (is_lan (c_ip c)) && _) eqn:Hsub.
  { split; [done|]. bool_hyps. unfold GLOBAL_MAX_PER_SUBNET24 in *. cbn. split; [done|].
    split; [done|]. split; [done|]. split; [|lia]. intros (x & Hip & Hx)%list_elem_of_fmap.
    assert (Hpos : (0 < countb (has_ip (c_ip c)) (contacts t))%nat) by (eapply countb_elem; [exact Hx|]; by apply bool_decide_true).
    apply andb_false_iff in Hguard as [Hg|Hg]; [apply Z.ltb_ge in Hg; lia|]. apply negb_false_iff, bool_decide_eq_true in Hg.
    match goal with H : default true _ = true |- _ => rewrite Hg in H; cbn in H; by rewrite bool_decide_true in H end. }
  destruct (zone_add ROOT_FUEL (t_root t) c (t_total_contacts t) (t_max_size t)) as [root r] eqn:Hadd.
  assert (Hfuel : zone_fuel (t_root t) ≤ Z.of_nat ROOT_FUEL).
  { apply (zone_fuel_bound 0 0), Ht. }
  pose proof (zone_add_refusal ROOT_FUEL 0 0 _ _ _ _ _ _ (ok_zone t Ht) Hfuel Hadd) as Href.
  pose proof (zone_add_outcome ROOT_FUEL 0 0 _ _ _ _ _ _ (ok_zone t Ht) Hfuel Hadd) as Hout. rewrite (ok_total t Ht) in Hout.
  destruct (zone_add_spec ROOT_FUEL 0 0 _ _ _ _ _ _ (ok_zone t Ht) Hfuel Hadd)
    as [Hz He]. change (zone_contacts (t_root t)) with (contacts t) in He.
  inversion He as [k Hid Hk|e rest k Hk Hid Hk'|k Hk|reason k Hk]; subst; cbn [fst snd].
  - rewrite (existing_new t c Ht Hid) in *. rewrite bool_decide_false, andb_true_r in Hguard by done.
    split; [|left; by destruct (leaf_of (t_root t) (c_id c)) as [[??] ?]]. apply add_new_ok; try done; [by bool_hyps; lia|].
    intros Hlan. rewrite Hlan in Hsub. unfold GLOBAL_MAX_PER_SUBNET24 in Hsub.
    apply Z.leb_gt in Hsub. lia.
  - rewrite (existing_known t c e rest Ht Hk Hid) in *. cbn [fmap option_fmap option_map] in *.
    destruct (decide (c_ip e = c_ip c)) as [Hip|Hip].
    + rewrite bool_decide_true by done. cbn. split; [by eapply add_touched_ok|].
      right. by exists e, rest.
    + rewrite (bool_decide_false (c_ip e = c_ip c)) in * by done.
      rewrite bool_decide_false, andb_true_r in Hguard by congruence.
      split; [|right; by exists e, rest]. eapply add_moved_ok; try done; [by bool_hyps; lia|].
      intros Hlan. rewrite Hlan in Hsub. unfold GLOBAL_MAX_PER_SUBNET24 in Hsub.
      apply Z.leb_gt in Hsub. lia.
  - split; [by apply same_contacts_ok|]. cbn in Hout |- *. by destruct (leaf_of root (c_id c)) as [[??] ?].
  - split; [by apply same_contacts_ok|]. cbn in Hout |- *. destruct (leaf_of root (c_id c)) as [[??] ?]. by destruct Hout as (? & _ & ?).
Qed.

(** *** Removal *)

Lemma table_remove_spec t id : table_ok t →
  table_ok (fst (table_remove t id)) ∧
  if snd (table_remove t id) then
    ∃ c, c_id c = id ∧ contacts t ≡ₚ c :: contacts (fst (table_remove t id))
  else contacts (fst (table_remove t id)) = contacts t ∧ id ∉ c_id <$> contacts t.
Proof.
  intros Ht. unfold table_remove. pose proof (zone_remove_spec 0 0 (t_root t) id (ok_zone t Ht)) as H.
  destruct (zone_remove (t_root t) id) as [root [c|]]; cbn [fst snd].
  - destruct H as (Hz & Hid & Hp). change (zone_contacts (t_root t)) with (contacts t) in Hp.
    split; [|eauto]. split; cbn; unfold contacts; cbn; try done.
    + pose proof (ok_wf t Ht) as Hwf. rewrite Hp in Hwf. by apply Forall_cons in Hwf as [_ ?].
    + eapply counted_decr; [done|]. eapply counted_perm; [apply Ht|done].
    + apply decr_subnet_counted. eapply counted_perm; [apply Ht|done].
    + rewrite (ok_total t Ht), Hp, zlen_cons. lia.
    + intros ip. pose proof (ok_one_per_ip t Ht ip) as H1. rewrite Hp, countb_cons in H1. lia.
    + intros s. pose proof (ok_ten_per_subnet t Ht s) as H1. rewrite Hp, countb_cons in H1. lia.
  - destruct H as [-> Hn]. split; [|done]. by apply same_contacts_ok; [|apply Ht|].
Qed.

(** *** The closest contacts *)

Lemma closer_sorted target l : wf_NodeId target = true →
  Forall (λ c, wf_contact c = true) l → NoDup (c_id <$> l) →
  ordered (closer_cmp target) l → StronglySorted (closer target) l.
Proof.
  intros Ht. induction l as [|a l IH]; intros Hwf Hnd Hord; [constructor|].
  apply StronglySorted_inv in Hord as [Hord Ha]. cbn in Hnd. apply NoDup_cons in Hnd as [Hna Hnd].
  apply Forall_cons in Hwf as [Hwa Hwf]. constructor; [by apply IH|].
  rewrite Forall_forall in Ha, Hwf |- *. intros b Hb. specialize (Ha b Hb). specialize (Hwf b Hb).
  assert (wf_NodeId (c_id a) = true) by (unfold wf_contact in Hwa; by bool_hyps).
  assert (wf_NodeId (c_id b) = true) by (unfold wf_contact in Hwf; by bool_hyps).
  change (cmp_le id_cmp (distance (c_id a) target) (distance (c_id b) target) = true) in Ha.
  rewrite id_cmp_le_val in Ha by (by apply wf_distance). bool_hyps. unfold closer, dist.
  assert (node_val (distance (c_id a) target) ≠ node_val (distance (c_id b) target)); [|lia].
  intros He. apply node_val_inj in He; [|by apply wf_distance..].
  rewrite !(distance_sym _ target) in He. apply distance_inj_l in He; [|done..].
  apply Hna. rewrite He. apply list_elem_of_fmap. eauto.
Qed.

Lemma get_closest_sorted t target : table_ok t → wf_NodeId target = true →
  let all := sort_by (closer_cmp target) (zone_get_closest (t_root t) target USIZE_MAX []) in
  all ≡ₚ contacts t ∧ StronglySorted (closer target) all.
Proof.
  intros Ht Htarget all.
  assert (Hp : all ≡ₚ contacts t).
  { unfold all. rewrite sort_by_perm, zone_get_closest_all; [done|].
    pose proof (table_size_bound t Ht) as Hb. unfold contacts in Hb. rewrite zlen_nil.
    unfold USIZE_MAX. lia. }
  split; [done|]. apply closer_sorted; [done|..].
  - rewrite Hp. apply Ht.
  - rewrite Hp. by eapply zone_NoDup, Ht.
  - apply sort_by_ordered; unfold closer_cmp; intros; [by apply id_cmp_total|by eapply id_cmp_trans].
Qed.

(** ** Correctness of the routing table *)

(** C4. Every table that operations build from an empty one satisfies the
    invariant: the tree is well-formed, the address and [/24] counters are exactly
    the numbers of contacts, no address has two contacts, no [/24] outside the LAN
    has more than ten, and the cached total is the number of contacts in the tree,
    at most [2^32], so the [usize] counters neither wrap nor underflow. *)
Theorem table_invariant own max ops :
  forallb wf_op ops = true →
  let t := foldl run_op (with_max_size own max) ops in
  table_ok t ∧ table_len t = zone_count (t_root t) ∧ 0 ≤ table_len t ≤ 2 ^ 32.
Proof.
  intros Hops. cbn zeta. assert (Hok : table_ok (foldl run_op (with_max_size own max) ops)).
  { generalize (with_max_size_ok own max). generalize (with_max_size own max).
    induction ops as [|o ops IH]; intros t Ht; [done|]. cbn in Hops. bool_hyps. cbn.
    apply IH; [done|]. destruct o; cbn; [by apply add_contact_spec|by apply table_remove_spec]. }
  split; [done|]. rewrite zone_count_spec. unfold table_len. rewrite ok_total by done.
  pose proof (table_size_bound _ Hok). unfold contacts in *. split; [done|].
  split; [apply zlen_nonneg|done].
Qed.

Lemma table_invariant_witness :
  table_ok (foldl run_op (with_max_size NodeId_ZERO 50)
    [OpAdd (new_contact 1 (replicate 16 7) (80, 1, 2, 3) 4672 4662 9);
     OpAdd (new_contact 2 (replicate 16 8) (80, 1, 2, 4) 4672 4662 9);
     OpRemove (replicate 16 7)]).
Proof.
  match goal with |- table_ok (foldl _ _ ?ops) =>
    exact (proj1 (table_invariant NodeId_ZERO 50 ops eq_refl)) end.
Defined.

(** C3. [add_contact] on a good table: success adds the contact or updates the
    one with its identifier and touches no other; a refusal leaves the contacts
    as they were and has a reason that holds: another contact has the address;
    the [/24] of a new address outside the LAN is at its limit of ten; two other
    contacts of its bucket are in its [/24]; or, for a new contact only, its bucket is
    full and may not split, and then the reason given is the right one: the depth, the
    size of the table, or the index of the zone. A new contact is accepted only if its
    bucket had room or was allowed to split. *)
Theorem add_contact_correct t c :
  table_ok t → wf_contact c = true →
  let '(t', r) := add_contact t c in
  table_ok t' ∧ add_contact_post t c t' r.
Proof.
  intros Ht Hc. pose proof (add_contact_spec t c Ht Hc) as H.
  by destruct (add_contact t c).
Qed.

Lemma add_contact_correct_witness :
  let c := new_contact 1 (replicate 16 7) (80, 1, 2, 3) 4672 4662 9 in
  let t := fst (add_contact (table_new NodeId_ZERO) c) in
  let '(t', r) := add_contact t (new_contact 1 (replicate 16 8) (80, 1, 2, 3) 4672 4662 9) in
  table_ok t' ∧ add_contact_post t (new_contact 1 (replicate 16 8) (80, 1, 2, 3) 4672 4662 9) t' r.
Proof.
  cbn zeta. apply add_contact_correct; [|reflexivity].
  apply add_contact_spec; [apply with_max_size_ok|reflexivity].
Defined.

(** C5. [get_closest t target n] is the answer Kademlia asks for: the first
    [min n total] contacts of the table in strictly increasing XOR distance, every
    contact left out being farther than every contact returned; and
    [all_contacts] lists the whole table. *)
Theorem get_closest_correct t target n :
  table_ok t → wf_NodeId target = true → wf_NodeId (own_id t) = true → 0 ≤ n →
  (∃ rest, contacts t ≡ₚ get_closest t target n ++ rest ∧
     StronglySorted (closer target) (get_closest t target n ++ rest)) ∧
  zlen (get_closest t target n) = Z.min n (table_len t) ∧
  all_contacts t ≡ₚ contacts t.
Proof.
  intros Ht Htarget Hown Hn. unfold all_contacts, get_closest. unfold own_id in Hown.
  destruct (get_closest_sorted t target Ht Htarget) as [Hp Hs].
  destruct (get_closest_sorted t _ Ht Hown) as [Hpo _].
  set (all := sort_by (closer_cmp target) _) in *.
  set (mine := sort_by (closer_cmp (t_own_id t)) _) in *.
  split; [|split].
  - exists (drop (Z.to_nat n) all). by rewrite take_drop.
  - unfold table_len. rewrite (ok_total t Ht), <- Hp. unfold zlen. rewrite length_take. lia.
  - rewrite take_ge; [done|]. rewrite (ok_total t Ht), (Permutation_length Hpo). unfold zlen. lia.
Qed.

Lemma get_closest_correct_witness :
  let c k := new_contact 1 (replicate 16 k) (80, 1, k, 3) 4672 4662 9 in
  let t := foldl run_op (table_new NodeId_ZERO) [OpAdd (c 7); OpAdd (c 1); OpAdd (c 4)] in
  c_id <$> get_closest t NodeId_ZERO 2 = [replicate 16 1; replicate 16 4] ∧
  zlen (get_closest t NodeId_ZERO 2) = Z.min 2 (table_len t).
Proof.
  cbn zeta. split; [vm_compute; reflexivity|].
  apply get_closest_correct; [|done..]. cbn [foldl run_op].
  do 3 (apply add_contact_spec; [|reflexivity]). apply with_max_size_ok.
Defined.

(** Removal: [remove id] reports whether the identifier was known, afterwards
    the table does not have it, and the other contacts are unchanged. *)
Lemma table_remove_correct t id other :
  table_ok t →
  let '(t', found) := table_remove t id in
  table_ok t' ∧
  (found = true ↔ is_Some (table_get t id)) ∧
  table_get t' id = None ∧
  (other ≠ id → table_get t' other = table_get t other) ∧
  table_len t' = table_len t - (if found then 1 else 0).
Proof.
  intros Ht. pose proof (table_remove_spec t id Ht) as [Hok Heff].
  assert (Hm : zone_map (t_root (fst (table_remove t id))) = delete id (zone_map (t_root t))).
  { unfold table_remove. pose proof (zone_map_remove 0 0 (t_root t) id (ok_zone t Ht)) as H.
    by destruct (zone_remove (t_root t) id) as [? []]. }
  pose proof (zone_map_removed 0 0 (t_root t) id (ok_zone t Ht)) as Hr.
  assert (Hget : ∀ t i, table_ok t → table_get t i = zone_map (t_root t) !! i).
  { intros u i Hu. apply option_eq. intros x. unfold table_get.
    by rewrite (zone_get_spec 0 0), (zone_map_spec 0 0) by apply Hu. }
  rewrite (Hget t) by done. rewrite <- Hr.
  assert (Hfound : snd (table_remove t id) = true ↔ is_Some (snd (zone_remove (t_root t) id))).
  { unfold table_remove. destruct (zone_remove (t_root t) id) as [? []]; cbn; naive_solver. }
  assert (Hlen : table_len (fst (table_remove t id)) =
    table_len t - (if snd (table_remove t id) then 1 else 0)).
  { unfold table_remove, table_len. destruct (zone_remove (t_root t) id) as [? []]; cbn; lia. }
  destruct (table_remove t id) as [t' found]. cbn [fst snd] in *.
  rewrite !(Hget t') by done. rewrite Hm. rewrite lookup_delete_eq. split; [done|]. split; [done|]. split; [done|].
  split; [|done]. intros Hne. by rewrite lookup_delete_ne, Hget.
Qed.

(** The configured maximum size only stops splits: a table of maximum size one
    takes a second contact. *)
Lemma max_size_is_not_a_cap :
  let c k := new_contact 1 (replicate 16 k) (80, 1, k, 3) 4672 4662 9 in
  let t := foldl run_op (with_max_size NodeId_ZERO 1) [OpAdd (c 7); OpAdd (c 1)] in
  table_len t = 2 ∧ max_size t = 1.
Proof. vm_compute. done. Qed.
