(* ===== verification/Traversal.v ===== *)
(** * Kad traversal

    Models the first phase of [overlord-kad-dht/src/traversal.rs]: the iterative
    lookup and the rules for contacts that peers report. The search walk is in
    [SearchWalk.v].

    The asynchronous loop is a state machine. One iteration is a function of
    the state and of an event: what the runtime delivered while the loop waited
    (a finished query, a panicked task, a timeout, a cancellation), with the
    clock readings the code takes. Calls into the RPC layer are appended to a
    trace. Times and durations are integers. *)

From S2P Require Import Prelude Net NodeId Wire Tag PacketTypes Packet Contact Bin Table.

(** ** Constants of [constants.rs] *)
Definition ALPHA : Z := 3.
Definition KADEMLIA_FIND_VALUE : Z := 0x02.
Definition KADEMLIA_FIND_NODE : Z := 0x0B.
Definition KADEMLIA_STORE : Z := 0x04.
Definition SEARCHTOLERANCE : Z := 0x01000000.
(** [Duration::from_secs], in nanoseconds. *)
Definition SEARCH_JUMPSTART_TICK : Z := 1 * NANOS_PER_SEC.
Definition SEARCH_JUMPSTART_IDLE_GRACE : Z := 3 * NANOS_PER_SEC.

(** ** Data *)

Inductive CandidateState : Type := Pending | Inflight | Responded | Failed.
#[export] Instance CandidateState_eq_dec : EqDecision CandidateState.
Proof. solve_decision. Defined.

Record TraversalContact : Type := mkTC {
  tc_id : NodeId;
  tc_addr : SocketAddr;
  tc_version : Z;
}.
#[export] Instance TraversalContact_eq_dec : EqDecision TraversalContact.
Proof. solve_decision. Defined.

Record TraversalCandidate : Type := mkCandidate {
  cd_contact : TraversalContact;
  cd_state : CandidateState;
  cd_distance : NodeId;
}.

Inductive TraversalKind : Type :=
| KindFindNode
| KindStore
| KindKeyword (request : SearchKeyReq)
| KindSource (request : SearchSourceReq)
| KindNotes (size : Z).

(** The calls into [RpcManager]. *)
Inductive rpc_call : Type :=
| RegisterIdentity (addr : SocketAddr) (id : NodeId)
| RegisterVersion (addr : SocketAddr) (version : Z)
| Request (addr : SocketAddr) (packet : KadPacket)
| Send (addr : SocketAddr) (packet : KadPacket).

(** ** Rules for reported contacts *)

Definition ipv4_prefix_24 (ip : Ipv4Addr) : Z := Z.land (ip_val ip) 0xFFFFFF00.

(** One entry of the [for] loop of [sanitize_res_contacts]: the sets and counts
    so far, and the entries kept (in order). *)
Definition sanitize_step (acc : gset Ipv4Addr * gmap Z Z * list ContactEntry) (entry : ContactEntry)
    : gset Ipv4Addr * gmap Z Z * list ContactEntry :=
  let '(seen_ips, prefix_counts, sanitized) := acc in
  if (ce_ip entry =? 0) || (ce_udp_port entry =? 0) then acc
  else
    let ip := ip_addr entry in
    if bool_decide (ip ∈ seen_ips) then acc
    else
      let seen_ips := {[ip]} ∪ seen_ips in
      let prefix := ipv4_prefix_24 ip in
      let count := default 0 (prefix_counts !! prefix) in
      if 2 <=? count then (seen_ips, <[prefix := count]> prefix_counts, sanitized)
      else (seen_ips, <[prefix := count + 1]> prefix_counts, sanitized ++ [entry]).

Definition sanitize_res_contacts (contacts : list ContactEntry) (responder_addr : SocketAddr)
    (max_contacts : Z) : option (list ContactEntry) :=
  if max_contacts <? zlen contacts then None
  else
    let '(seen_ips, prefix_counts) :=
      match sa_ip responder_addr with
      | V4 ip => ({[ip]}, incr ∅ (ipv4_prefix_24 ip))
      | V6 _ => (∅, ∅)
      end in
    Some (snd (foldl sanitize_step (seen_ips, prefix_counts, []) contacts)).

Definition is_lan_addr (ip : Ipv4Addr) : bool := is_private ip || is_loopback ip || is_link_local ip.

Definition distance_high32 (distance : NodeId) : Z :=
  from_le_bytes [byte_at distance 0; byte_at distance 1; byte_at distance 2; byte_at distance 3].

Definition passes_search_tolerance (target : NodeId) (contact : TraversalContact) : bool :=
  match sa_ip (tc_addr contact) with
  | V4 ip =>
      if is_lan_addr ip then true
      else distance_high32 (distance target (tc_id contact)) <=? SEARCHTOLERANCE
  | V6 _ => false
  end.

Definition select_phase2_contacts (responded : list TraversalContact) (target : NodeId)
    (phase2_fanout : Z) : list TraversalContact :=
  let oracle_ceiling := Z.min phase2_fanout K in
  take (Z.to_nat oracle_ceiling) (List.filter (passes_search_tolerance target) responded).

Definition traversal_closest_limit (search_kind : TraversalKind) (phase2_fanout : Z) : Z :=
  match search_kind with KindStore => Z.max phase2_fanout K | _ => K end.

Definition is_state (s : CandidateState) (c : TraversalCandidate) : bool :=
  bool_decide (cd_state c = s).

Definition find_node_lookup_converged (candidates : list TraversalCandidate) : bool :=
  let closest_responded := take (Z.to_nat K) (List.filter (is_state Responded) candidates) in
  match last closest_responded with
  | None => false
  | Some threshold =>
      if zlen closest_responded <? K then false
      else negb (existsb (λ candidate,
        (is_state Pending candidate || is_state Inflight candidate) &&
        cmp_le id_cmp (cd_distance candidate) (cd_distance threshold)) candidates)
  end.

(** [register_traversal_identity] *)
Definition register_traversal_identity (contact : TraversalContact) : list rpc_call :=
  (if negb (bool_decide (tc_id contact = NodeId_ZERO))
   then [RegisterIdentity (tc_addr contact) (tc_id contact)] else []) ++
  [RegisterVersion (tc_addr contact) (tc_version contact)].

(** ** Phase 1: the iterative lookup *)

Record phase1_config : Type := mkP1Config {
  p1_target : NodeId;
  p1_kind : TraversalKind;
  p1_phase2_fanout : Z;
}.
Definition req_count (cfg : phase1_config) : Z :=
  match p1_kind cfg with
  | KindFindNode => KADEMLIA_FIND_NODE
  | KindStore => KADEMLIA_STORE
  | _ => KADEMLIA_FIND_VALUE
  end.

(** The locals of [run_traversal] that the loop changes; [p1_join_set] holds the
    identifiers of the queries that run. *)
Record phase1 : Type := mkPhase1 {
  p1_candidates : list TraversalCandidate;
  p1_seen : gset NodeId;
  p1_join_set : list NodeId;
  p1_last_response : option Z;
  p1_trace : list rpc_call;
}.

Definition new_candidate (target : NodeId) (c : TraversalContact) : TraversalCandidate :=
  mkCandidate c Pending (distance target (tc_id c)).

Definition init_candidates (target : NodeId) (initial : list TraversalContact)
    : list TraversalCandidate :=
  dedup_by (λ a b, bool_decide (tc_id (cd_contact a) = tc_id (cd_contact b)))
    (sort_by (λ a b, id_cmp (cd_distance a) (cd_distance b)) (map (new_candidate target) initial)).

Definition cd_id (c : TraversalCandidate) : NodeId := tc_id (cd_contact c).

Definition phase1_init (cfg : phase1_config) (initial : list TraversalContact) : phase1 :=
  let candidates := init_candidates (p1_target cfg) initial in
  mkPhase1 candidates (list_to_set (cd_id <$> candidates)) [] None [].

Definition set_state (s : CandidateState) (c : TraversalCandidate) : TraversalCandidate :=
  mkCandidate (cd_contact c) s (cd_distance c).

(** [candidates[idx].state = s] for a candidate position, if there is one. *)
Definition set_state_at (s : CandidateState) (idx : option nat)
    (candidates : list TraversalCandidate) : list TraversalCandidate :=
  match idx with Some i => alter (set_state s) i candidates | None => candidates end.

(** The body of [for idx in pending_closest]. *)
Definition launch_one (cfg : phase1_config) (st : phase1) (idx : nat) : phase1 :=
  match p1_candidates st !! idx with
  | None => st
  | Some c =>
      let contact := cd_contact c in
      mkPhase1 (alter (set_state Inflight) idx (p1_candidates st)) (p1_seen st)
        (p1_join_set st ++ [tc_id contact]) (p1_last_response st)
        (p1_trace st ++ register_traversal_identity contact ++
           [Request (tc_addr contact)
              (PReq (mkReq (req_count cfg) (p1_target cfg) (tc_id contact)))])
  end.

Definition pending_closest (candidates : list TraversalCandidate) (to_launch : Z) : list nat :=
  map fst (take (Z.to_nat to_launch)
    (List.filter (λ '(_, c), is_state Pending c) (imap pair candidates))).

Definition launch (cfg : phase1_config) (st : phase1) : phase1 :=
  let inflight_count := Z.of_nat (countb (is_state Inflight) (p1_candidates st)) in
  let to_launch := saturating_sub ALPHA inflight_count in
  foldl (launch_one cfg) st (pending_closest (p1_candidates st) to_launch).

(** [partition_point(|x| x.distance < distance)] of a sorted vector. *)
Fixpoint partition_point {A} (f : A → bool) (l : list A) : nat :=
  match l with
  | x :: l' => if f x then S (partition_point f l') else O
  | [] => O
  end.
Definition id_lt (a b : NodeId) : bool := match id_cmp a b with Lt => true | _ => false end.

(** The body of [for entry in sanitized]. *)
Definition add_reported (target : NodeId) (acc : list TraversalCandidate * gset NodeId)
    (entry : ContactEntry) : list TraversalCandidate * gset NodeId :=
  let '(candidates, seen) := acc in
  if bool_decide (ce_node_id entry ∈ seen) then acc
  else if (ce_ip entry =? 0) || (ce_udp_port entry =? 0) then acc
  else
    let addr := mkSocketAddr (V4 (ip_addr entry)) (ce_udp_port entry) in
    let c := new_candidate target (mkTC (ce_node_id entry) addr (ce_version entry)) in
    let pos := partition_point (λ x, id_lt (cd_distance x) (cd_distance c)) candidates in
    (take pos candidates ++ c :: drop pos candidates, {[ce_node_id entry]} ∪ seen).

(** What a joined query returned: a packet, or a network error. *)
Definition query_result : Type := option KadPacket.

(** The handling of a joined query; [true] when the loop goes on to its
    termination test, [false] on [continue]. *)
Definition handle_result (cfg : phase1_config) (st : phase1) (now : Z) (contact_id : NodeId)
    (r : query_result) : phase1 * bool :=
  let candidates := p1_candidates st in
  let candidate_idx := position (λ c, bool_decide (cd_id c = contact_id)) candidates in
  let fail := mkPhase1 (set_state_at Failed candidate_idx candidates) (p1_seen st)
                (p1_join_set st) (p1_last_response st) (p1_trace st) in
  match r with
  | None => (fail, true)
  | Some (PRes p) =>
      let candidates := set_state_at Responded candidate_idx candidates in
      let responder :=
        match candidate_idx ≫= (λ i, candidates !! i) with
        | Some c => tc_addr (cd_contact c)
        | None => mkSocketAddr (V4 (0, 0, 0, 0)) 0
        end in
      match sanitize_res_contacts (rs_contacts p) responder (req_count cfg) with
      | None => (mkPhase1 candidates (p1_seen st) (p1_join_set st) (Some now) (p1_trace st), false)
      | Some sanitized =>
          let '(candidates, seen) :=
            foldl (add_reported (p1_target cfg)) (candidates, p1_seen st) sanitized in
          (mkPhase1 candidates seen (p1_join_set st) (Some now) (p1_trace st), true)
      end
  | Some _ => (fail, true)
  end.

(** The tests at the end of an iteration: [true] to leave the loop. *)
Definition lookup_done (cfg : phase1_config) (candidates : list TraversalCandidate) : bool :=
  let closest_limit := traversal_closest_limit (p1_kind cfg) (p1_phase2_fanout cfg) in
  (match p1_kind cfg with KindFindNode => find_node_lookup_converged candidates | _ => false end) ||
  (forallb (λ c, is_state Responded c || is_state Failed c)
     (take (Z.to_nat closest_limit) candidates) &&
   negb (existsb (is_state Inflight) candidates)).

(** What one iteration of the loop meets. *)
Inductive phase1_event : Type :=
| EvStop                                            (* cancelled or past the deadline on top *)
| EvInterrupted                                     (* cancelled or timed out while waiting *)
| EvPanicked (id : NodeId)                          (* the task of this query panicked *)
| EvJoined (now : Z) (id : NodeId) (r : query_result).

(** Takes one finished task out of the [JoinSet]. *)
Definition join (id : NodeId) (st : phase1) : phase1 :=
  mkPhase1 (p1_candidates st) (p1_seen st)
    (match position (λ x, bool_decide (x = id)) (p1_join_set st) with
     | Some i => delete i (p1_join_set st) | None => p1_join_set st end)
    (p1_last_response st) (p1_trace st).

(** One iteration of the loop; [true] when it goes on. *)
Definition phase1_iter (cfg : phase1_config) (st : phase1) (ev : phase1_event) : phase1 * bool :=
  match ev with
  | EvStop => (st, false)
  | _ =>
      let st := launch cfg st in
      if bool_decide (p1_join_set st = []) then (st, false)
      else
        match ev with
        | EvStop | EvInterrupted => (st, false)
        | EvPanicked id => (join id st, true)
        | EvJoined now id r =>
            let '(st, check) := handle_result cfg (join id st) now id r in
            (st, negb (check && lookup_done cfg (p1_candidates st)))
        end
  end.

(** The results of phase 1. *)
Definition responded (candidates : list TraversalCandidate) : list TraversalContact :=
  map cd_contact (List.filter (is_state Responded) candidates).
Definition closest (cfg : phase1_config) (st : phase1) : list TraversalContact :=
  take (Z.to_nat (traversal_closest_limit (p1_kind cfg) (p1_phase2_fanout cfg)))
    (responded (p1_candidates st)).

(** ** Views and invariants *)

Definition cd_key (c : TraversalCandidate) : Z := node_val (cd_distance c).

(** The identifiers queried, from the trace. *)
Definition requested (trace : list rpc_call) : list NodeId :=
  omap (λ call, match call with Request _ (PReq r) => Some (rq_recipient_id r) | _ => None end) trace.

Record phase1_core (cfg : phase1_config) (st : phase1) : Prop := {
  p1_wf : Forall (λ c, wf_NodeId (cd_id c) = true ∧
                       cd_distance c = distance (p1_target cfg) (cd_id c)) (p1_candidates st);
  p1_sorted : StronglySorted Z.lt (cd_key <$> p1_candidates st);
  p1_seen_ids : ∀ id, id ∈ p1_seen st ↔ id ∈ cd_id <$> p1_candidates st;
  p1_requests_NoDup : NoDup (requested (p1_trace st));
  p1_requests_known : ∀ id, id ∈ requested (p1_trace st) → id ∈ cd_id <$> p1_candidates st;
  p1_pending : ∀ c, c ∈ p1_candidates st →
    cd_state c = Pending ↔ cd_id c ∉ requested (p1_trace st);
  p1_join_NoDup : NoDup (p1_join_set st);
  p1_join_inflight : ∀ id, id ∈ p1_join_set st →
    ∃ c, c ∈ p1_candidates st ∧ cd_id c = id ∧ cd_state c = Inflight;
}.

Definition inflight_count (st : phase1) : nat := countb (is_state Inflight) (p1_candidates st).
Definition phase1_ok (cfg : phase1_config) (st : phase1) : Prop :=
  phase1_core cfg st ∧ Z.of_nat (inflight_count st) ≤ ALPHA.

(** A finished task is one that runs, and a decoded packet is well-typed. *)
Definition event_enabled (cfg : phase1_config) (st : phase1) (ev : phase1_event) : Prop :=
  match ev with
  | EvStop | EvInterrupted => True
  | EvPanicked id => id ∈ p1_join_set (launch cfg st)
  | EvJoined _ id r => id ∈ p1_join_set (launch cfg st) ∧
      match r with Some p => wf_packet p = true | None => True end
  end.

(** The states of the lookup after [n] finished queries. *)
Inductive lookup (cfg : phase1_config) (initial : list TraversalContact)
    : nat → phase1 → bool → Prop :=
| lookup_init : lookup cfg initial 0 (phase1_init cfg initial) true
| lookup_step n st ev st' running :
    lookup cfg initial n st true → event_enabled cfg st ev →
    phase1_iter cfg st ev = (st', running) →
    lookup cfg initial (match ev with EvPanicked _ | EvJoined _ _ _ => S n | _ => n end) st' running.

(** The balance of the lookup: [n] finished queries and the running ones are
    the queries sent. *)
Definition balanced (n : nat) (st : phase1) : Prop :=
  (n + length (p1_join_set st) = length (requested (p1_trace st)))%nat.

(** Candidates that have not failed. *)
Definition live (c : TraversalCandidate) : bool := negb (is_state Failed c).

(** *** Reported contacts *)

Definition has_prefix (p : Z) (e : ContactEntry) : bool := ipv4_prefix_24 (ip_addr e) =? p.
Definition responder_ips (addr : SocketAddr) : gset Ipv4Addr :=
  match sa_ip addr with V4 ip => {[ip]} | V6 _ => ∅ end.
Definition responder_count (addr : SocketAddr) (p : Z) : Z :=
  match sa_ip addr with V4 ip => if ipv4_prefix_24 ip =? p then 1 else 0 | V6 _ => 0 end.

(** The kept entries [s], against the responder. *)
Definition sanitized_ok (addr : SocketAddr) (s : list ContactEntry) : Prop :=
  NoDup (ip_addr <$> s) ∧
  Forall (λ e, (ip_addr e ∉ responder_ips addr) ∧ ce_ip e ≠ 0 ∧ ce_udp_port e ≠ 0) s ∧
  ∀ p, responder_count addr p + Z.of_nat (countb (has_prefix p) s) ≤ 2.

Record sanitize_inv (addr : SocketAddr) (processed : list ContactEntry)
    (acc : gset Ipv4Addr * gmap Z Z * list ContactEntry) : Prop := {
  si_base : responder_ips addr ⊆ acc.1.1;
  si_kept : ∀ e, e ∈ acc.2 → ip_addr e ∈ acc.1.1;
  si_counts : ∀ p, default 0 (acc.1.2 !! p) =
    responder_count addr p + Z.of_nat (countb (has_prefix p) acc.2);
  si_ok : sanitized_ok addr acc.2;
  si_sub : sublist acc.2 processed;
}.

(** ** Lemmas *)

Lemma is_state_true s c : is_state s c = true ↔ cd_state c = s.
Proof. apply bool_decide_eq_true. Qed.

Lemma is_state_false s c : cd_state c ≠ s → is_state s c = false.
Proof. intros. by apply bool_decide_eq_false. Qed.

Lemma set_state_id s c : cd_id (set_state s c) = cd_id c.
Proof. done. Qed.

Lemma fmap_alter_same {A B} (f : A → B) (g : A → A) i (l : list A) :
  (∀ x, f (g x) = f x) → f <$> alter g i l = f <$> l.
Proof.
  intros Hg. revert i; induction l as [|x l IH]; intros [|i]; cbn; try done.
  - by rewrite Hg.
  - f_equal. apply IH.
Qed.

Lemma alter_perm {A} (g : A → A) i (l : list A) x :
  l !! i = Some x → ∃ k, l ≡ₚ x :: k ∧ alter g i l ≡ₚ g x :: k.
Proof.
  intros Hi. exists (delete i l). split; [by apply delete_Permutation|].
  revert i Hi; induction l as [|y l IH]; intros [|i] Hi; try done; cbn in Hi |- *.
  - by injection Hi as ->.
  - change (y :: alter g i l ≡ₚ g x :: y :: delete i l). rewrite (IH i Hi). apply Permutation_swap.
Qed.

Lemma StronglySorted_lt_NoDup (l : list Z) : StronglySorted Z.lt l → NoDup l.
Proof.
  induction 1 as [|x l _ IH Hx]; [constructor|]. apply NoDup_cons. split; [|done].
  intros Hin. rewrite Forall_forall in Hx. specialize (Hx x Hin). lia.
Qed.

Lemma core_ids_NoDup cfg st : phase1_core cfg st → NoDup (cd_id <$> p1_candidates st).
Proof.
  intros Hc. pose proof (StronglySorted_lt_NoDup _ (p1_sorted _ _ Hc)) as Hnd.
  assert (Hk : cd_key <$> p1_candidates st =
    (λ id, node_val (distance (p1_target cfg) id)) <$> (cd_id <$> p1_candidates st)).
  { rewrite <- list_fmap_compose. apply list_fmap_ext. intros i c Hi. unfold cd_key. cbn.
    pose proof (p1_wf _ _ Hc) as Hwf. rewrite Forall_lookup in Hwf.
    by destruct (Hwf i c Hi) as [_ ->]. }
  rewrite Hk in Hnd. by apply NoDup_fmap_1 in Hnd.
Qed.

(** The candidate of an identifier is unique. *)
Lemma NoDup_unique {A B} (f : A → B) (l : list A) x y :
  NoDup (f <$> l) → x ∈ l → y ∈ l → f x = f y → x = y.
Proof.
  induction l as [|z l IH]; cbn; [set_solver|]. rewrite NoDup_cons, !elem_of_cons.
  intros [Hz Hnd] [-> |Hx] [-> |Hy] Hf; [done|..].
  - destruct Hz. rewrite Hf. apply list_elem_of_fmap. eauto.
  - destruct Hz. rewrite <- Hf. apply list_elem_of_fmap. eauto.
  - by apply IH.
Qed.

Lemma requested_app t t' : requested (t ++ t') = requested t ++ requested t'.
Proof. apply omap_app. Qed.
Lemma requested_register c : requested (register_traversal_identity c) = [].
Proof. unfold register_traversal_identity. by destruct (negb _). Qed.

(** *** Launching queries *)

Lemma launch_one_core cfg st idx c : phase1_core cfg st → p1_candidates st !! idx = Some c →
  cd_state c = Pending →
  phase1_core cfg (launch_one cfg st idx) ∧
  inflight_count (launch_one cfg st idx) = S (inflight_count st) ∧
  requested (p1_trace (launch_one cfg st idx)) = requested (p1_trace st) ++ [cd_id c] ∧
  p1_join_set (launch_one cfg st idx) = p1_join_set st ++ [cd_id c].
Proof.
  intros Hcore Hi Hs. pose proof (core_ids_NoDup _ _ Hcore) as Hnd.
  destruct (alter_perm (set_state Inflight) idx _ _ Hi) as (k & Hk & Hk').
  assert (Hc : c ∈ p1_candidates st) by (by eapply list_elem_of_lookup_2).
  assert (Hnew : cd_id c ∉ requested (p1_trace st)) by (by apply (p1_pending _ _ Hcore)).
  assert (Hother : ∀ x, x ∈ k → cd_id x ≠ cd_id c).
  { intros x Hx He. rewrite Hk in Hnd. cbn in Hnd. apply NoDup_cons in Hnd as [Hn _].
    apply Hn. rewrite <- He. apply list_elem_of_fmap. eauto. }
  assert (Hjoin : cd_id c ∉ p1_join_set st).
  { intros Hj. destruct (p1_join_inflight _ _ Hcore _ Hj) as (x & Hx & Hxid & Hxs).
    rewrite (NoDup_unique cd_id _ x c Hnd Hx Hc Hxid) in Hxs. congruence. }
  unfold launch_one. rewrite Hi.
  assert (Hreq : requested (p1_trace st ++ register_traversal_identity (cd_contact c) ++
    [Request (tc_addr (cd_contact c)) (PReq (mkReq (req_count cfg) (p1_target cfg)
      (tc_id (cd_contact c))))]) = requested (p1_trace st) ++ [cd_id c]).
  { by rewrite !requested_app, requested_register. }
  split; [|split; [|by split]].
  - split; cbn [p1_candidates p1_seen p1_join_set p1_trace]; rewrite ?Hreq.
    + rewrite Hk'. pose proof (p1_wf _ _ Hcore) as Hwf. rewrite Hk in Hwf.
      apply Forall_cons in Hwf as [? ?]. by constructor.
    + rewrite fmap_alter_same by done. apply Hcore.
    + rewrite fmap_alter_same by done. apply Hcore.
    + rewrite Permutation_app_comm. apply NoDup_cons. split; [done|apply Hcore].
    + rewrite fmap_alter_same by done. intros id [Hid|Hid]%elem_of_app;
        [by apply (p1_requests_known _ _ Hcore)|].
      apply list_elem_of_singleton in Hid as ->. apply list_elem_of_fmap. eauto.
    + intros x. rewrite Hk', elem_of_app, list_elem_of_singleton. intros [-> |Hx]%elem_of_cons.
      * cbn. rewrite set_state_id. naive_solver.
      * assert (Hx' : x ∈ p1_candidates st) by (rewrite Hk; by right).
        rewrite (p1_pending _ _ Hcore x Hx'). specialize (Hother x Hx). naive_solver.
    + rewrite Permutation_app_comm. apply NoDup_cons. split; [done|apply Hcore].
    + intros id [Hid|Hid]%elem_of_app.
      * destruct (p1_join_inflight _ _ Hcore _ Hid) as (x & Hx & Hxid & Hxs). exists x.
        split; [|done]. rewrite Hk'. rewrite Hk in Hx. apply elem_of_cons in Hx as [-> |Hx];
          [congruence|by right].
      * apply list_elem_of_singleton in Hid as ->. exists (set_state Inflight c).
        split; [rewrite Hk'; by left|done].
  - unfold inflight_count. cbn [p1_candidates]. rewrite Hk', Hk, !countb_cons.
    rewrite (proj2 (is_state_true Inflight (set_state Inflight c))) by done.
    rewrite (is_state_false Inflight c) by congruence. done.
Qed.

Lemma launch_one_lookup cfg st idx j : idx ≠ j →
  p1_candidates (launch_one cfg st idx) !! j = p1_candidates st !! j.
Proof.
  intros Hne. unfold launch_one. destruct (p1_candidates st !! idx); [|done].
  cbn. by rewrite list_lookup_alter_ne.
Qed.

Lemma launch_fold cfg idxs st : NoDup idxs →
  (∀ i, i ∈ idxs → ∃ c, p1_candidates st !! i = Some c ∧ cd_state c = Pending) →
  phase1_core cfg st →
  let st' := foldl (launch_one cfg) st idxs in
  phase1_core cfg st' ∧ inflight_count st' = (inflight_count st + length idxs)%nat ∧
  length (requested (p1_trace st')) = (length (requested (p1_trace st)) + length idxs)%nat ∧
  length (p1_join_set st') = (length (p1_join_set st) + length idxs)%nat.
Proof.
  revert st; induction idxs as [|i idxs IH]; intros st Hnd Hp Hcore; cbn; [by rewrite !Nat.add_0_r|].
  apply NoDup_cons in Hnd as [Hi Hnd]. destruct (Hp i) as (c & Hc & Hs); [by left|].
  destruct (launch_one_core cfg st i c Hcore Hc Hs) as (Hcore' & Hcount & Hreq & Hjoin).
  destruct (IH (launch_one cfg st i) Hnd) as (H1 & H2 & H3 & H4); [|done|].
  { intros j Hj. rewrite launch_one_lookup by (intros ->; done). apply Hp. by right. }
  rewrite Hcount in H2. rewrite Hreq, length_app in H3. rewrite Hjoin, length_app in H4.
  cbn in H3, H4. split; [done|]. split; [lia|]. split; lia.
Qed.

(** The positions chosen are distinct, pending, and at most as many as asked. *)
Lemma pending_closest_spec cands n :
  NoDup (pending_closest cands n) ∧ zlen (pending_closest cands n) ≤ Z.max n 0 ∧
  ∀ i, i ∈ pending_closest cands n → ∃ c, cands !! i = Some c ∧ cd_state c = Pending.
Proof.
  unfold pending_closest. set (l := List.filter _ _).
  assert (Hl : sublist l (imap pair cands)).
  { unfold l. generalize (imap pair cands). intros k. induction k as [|[i c] k IH]; cbn; [constructor|].
    destruct (is_state Pending c); by constructor. }
  assert (Hfst : NoDup (fst <$> imap pair cands)).
  { rewrite fmap_imap. assert (H : ∀ k, imap (λ (n : nat) (_ : TraversalCandidate), (k + n)%nat) cands
      = seq k (length cands)).
    { clear. induction cands as [|c cands IH]; intros k; [done|]. cbn. rewrite Nat.add_0_r.
      rewrite <- IH. f_equal. apply imap_ext. intros; cbn; lia. }
    rewrite (imap_ext _ (λ n _, (0 + n)%nat)) by done. rewrite H. apply NoDup_seq. }
  split; [|split].
  - eapply sublist_NoDup; [exact Hfst|].
    change (map fst (take (Z.to_nat n) l)) with (fst <$> take (Z.to_nat n) l).
    apply fmap_sublist. etransitivity; [apply sublist_take|done].
  - unfold zlen. rewrite length_map, length_take. lia.
  - intros i Hi. change (map fst (take (Z.to_nat n) l)) with (fst <$> take (Z.to_nat n) l) in Hi.
    apply list_elem_of_fmap in Hi as ([j c] & -> & Hin).
    assert (Hj : (j, c) ∈ l) by (eapply elem_of_sublist; [done|apply sublist_take]).
    apply list_elem_of_In, filter_In in Hj as [Hj Hs]. apply list_elem_of_In in Hj.
    apply elem_of_lookup_imap in Hj as (i' & y & [= <- <-] & Hy). exists c.
    split; [done|]. by apply is_state_true.
Qed.

Lemma launch_ok cfg st : phase1_ok cfg st →
  phase1_ok cfg (launch cfg st) ∧
  (length (requested (p1_trace (launch cfg st))) + length (p1_join_set st) =
   length (requested (p1_trace st)) + length (p1_join_set (launch cfg st)))%nat.
Proof.
  intros [Hcore Ha]. unfold launch. fold (inflight_count st).
  set (n := saturating_sub ALPHA (Z.of_nat (inflight_count st))).
  destruct (pending_closest_spec (p1_candidates st) n) as (Hnd & Hlen & Hp).
  destruct (launch_fold cfg _ st Hnd Hp Hcore) as (H1 & H2 & H3 & H4).
  split; [split; [done|]|lia]. rewrite H2. unfold n, saturating_sub, zlen in *. lia.
Qed.

(** *** Settling a query *)

Lemma settle_core cfg cands seen js last trace i c s last' :
  phase1_core cfg (mkPhase1 cands seen js last trace) →
  cands !! i = Some c → cd_state c ≠ Pending → s ≠ Pending → cd_id c ∉ js →
  phase1_core cfg (mkPhase1 (alter (set_state s) i cands) seen js last' trace).
Proof.
  intros Hcore Hi Hc Hs Hj. destruct (alter_perm (set_state s) i _ _ Hi) as (k & Hk & Hk').
  destruct Hcore as [Hwf Hsorted Hseen Hrnd Hrk Hpend Hjnd Hjin]; cbn in *.
  split; cbn; rewrite ?(fmap_alter_same _ (set_state s)) by done; try done.
  - rewrite Hk'. rewrite Hk in Hwf. apply Forall_cons in Hwf as [? ?]. by constructor.
  - intros x. rewrite Hk'. intros [-> |Hx]%elem_of_cons.
    + cbn. change (cd_id (set_state s c)) with (cd_id c).
      rewrite <- (Hpend c) by (rewrite Hk; by left). naive_solver.
    + apply Hpend. rewrite Hk. by right.
  - intros id Hid. destruct (Hjin id Hid) as (x & Hx & Hxid & Hxs). exists x. split; [|done].
    rewrite Hk'. rewrite Hk in Hx. apply elem_of_cons in Hx as [-> |Hx]; [congruence|by right].
Qed.

Lemma settle_inflight s i cands c : s ≠ Inflight → cands !! i = Some c →
  (countb (is_state Inflight) (alter (set_state s) i cands) ≤ countb (is_state Inflight) cands)%nat.
Proof.
  intros Hs Hi. destruct (alter_perm (set_state s) i _ _ Hi) as (k & Hk & Hk').
  rewrite Hk', Hk, !countb_cons. rewrite (is_state_false Inflight (set_state s c)) by done. lia.
Qed.

(** *** Reported contacts *)

Lemma id_lt_val a b : wf_NodeId a = true → wf_NodeId b = true →
  id_lt a b = (node_val a <? node_val b).
Proof. intros Ha Hb. unfold id_lt. by rewrite id_cmp_val. Qed.

Lemma insert_sorted {A} (key : A → Z) (f : A → bool) c l :
  (∀ x, x ∈ l → f x = (key x <? key c)) → key c ∉ key <$> l → StronglySorted Z.lt (key <$> l) →
  StronglySorted Z.lt (key <$> take (partition_point f l) l ++ c :: drop (partition_point f l) l).
Proof.
  induction l as [|x l IH]; intros Hf Hc Hs; [repeat constructor|].
  cbn in Hc, Hs. apply not_elem_of_cons in Hc as [Hcx Hc].
  apply StronglySorted_inv in Hs as [Hs Hx]. cbn. rewrite (Hf x) by (by left).
  destruct (Z.ltb_spec (key x) (key c)) as [Hlt|Hge]; cbn.
  - constructor; [apply IH; [|done..]; intros y Hy; apply Hf; by right|].
    rewrite <- Permutation_middle, take_drop. cbn. by constructor.
  - constructor; [by constructor|]. constructor; [lia|].
    eapply Forall_impl; [exact Hx|]. cbn. lia.
Qed.

Lemma add_reported_core cfg cands seen js last trace e :
  wf_NodeId (p1_target cfg) = true → wf_NodeId (ce_node_id e) = true →
  phase1_core cfg (mkPhase1 cands seen js last trace) →
  let '(cands', seen') := add_reported (p1_target cfg) (cands, seen) e in
  phase1_core cfg (mkPhase1 cands' seen' js last trace) ∧
  countb (is_state Inflight) cands' = countb (is_state Inflight) cands.
Proof.
  intros Ht He Hcore. unfold add_reported. case_bool_decide as Hseen; [done|].
  destruct (_ || _); [done|].
  set (c := new_candidate (p1_target cfg) _). set (pos := partition_point _ cands).
  destruct Hcore as [Hwf Hsorted Hs Hrnd Hrk Hpend Hjnd Hjin]; cbn in *.
  assert (Hp : take pos cands ++ c :: drop pos cands ≡ₚ c :: cands).
  { by rewrite <- Permutation_middle, take_drop. }
  assert (Hid : ce_node_id e ∉ cd_id <$> cands) by (by rewrite <- Hs).
  split; [split; cbn|].
  - rewrite Hp. constructor; [done|done].
  - rewrite Forall_forall in Hwf. apply insert_sorted; [|unfold cd_key|done].
    + intros x Hx. destruct (Hwf x Hx) as [Hxi Hxd]. unfold cd_key. rewrite Hxd.
      by apply id_lt_val; apply wf_distance.
    + intros (x & Hk & Hx)%list_elem_of_fmap. destruct (Hwf x Hx) as [Hxi Hxd]. apply Hid.
      rewrite Hxd in Hk. apply node_val_inj in Hk; [|by apply wf_distance..].
      apply distance_inj_l in Hk; [|done..]. cbn in Hk. rewrite Hk.
      apply list_elem_of_fmap. eauto.
  - intros id. rewrite Hp, elem_of_union, elem_of_singleton, Hs. cbn. by rewrite elem_of_cons.
  - done.
  - intros id Hr. rewrite Hp. cbn. apply elem_of_cons. right. by apply Hrk.
  - intros x. rewrite Hp. intros [-> |Hx]%elem_of_cons; [|by apply Hpend].
    split; [|done]. intros _ Hr. by apply Hid, Hrk.
  - done.
  - intros id Hj. destruct (Hjin id Hj) as (x & Hx & ?). exists x. split; [|done].
    rewrite Hp. by right.
  - rewrite Hp, countb_cons. by rewrite (is_state_false Inflight c).
Qed.

Lemma add_reported_fold cfg l cands seen js last trace :
  wf_NodeId (p1_target cfg) = true → Forall (λ e, wf_NodeId (ce_node_id e) = true) l →
  phase1_core cfg (mkPhase1 cands seen js last trace) →
  let '(cands', seen') := foldl (add_reported (p1_target cfg)) (cands, seen) l in
  phase1_core cfg (mkPhase1 cands' seen' js last trace) ∧
  countb (is_state Inflight) cands' = countb (is_state Inflight) cands.
Proof.
  intros Ht. revert cands seen. induction l as [|e l IH]; intros cands seen Hl Hcore; [done|].
  apply Forall_cons in Hl as [He Hl]. cbn [foldl].
  pose proof (add_reported_core cfg cands seen js last trace e Ht He Hcore) as H.
  destruct (add_reported (p1_target cfg) (cands, seen) e) as [cands1 seen1].
  destruct H as [Hcore1 Hn1]. specialize (IH cands1 seen1 Hl Hcore1).
  destruct (foldl _ _ l) as [cands2 seen2]. destruct IH as [? ?]. split; [done|congruence].
Qed.

Lemma sanitize_fold_in l acc x :
  x ∈ snd (foldl sanitize_step acc l) → x ∈ snd acc ∨ x ∈ l.
Proof.
  revert acc; induction l as [|e l IH]; intros acc Hx; [by left|]. cbn in Hx.
  apply IH in Hx as [Hx|Hx]; [|right; by right].
  destruct acc as [[si pc] s]. unfold sanitize_step in Hx.
  repeat case_match; cbn in *; try (by left).
  apply elem_of_app in Hx as [Hx|Hx]; [by left|].
  apply list_elem_of_singleton in Hx as ->. right. by left.
Qed.

Lemma sanitize_in contacts addr m l x :
  sanitize_res_contacts contacts addr m = Some l → x ∈ l → x ∈ contacts.
Proof.
  unfold sanitize_res_contacts. case_match; [done|]. destruct (sa_ip addr); intros [= <-] Hx;
    apply sanitize_fold_in in Hx as [Hx|Hx]; done || by apply not_elem_of_nil in Hx.
Qed.

(** *** One iteration *)

Lemma join_core cfg st id : phase1_core cfg st → id ∈ p1_join_set st →
  phase1_core cfg (join id st) ∧ (id ∉ p1_join_set (join id st)) ∧
  length (p1_join_set st) = S (length (p1_join_set (join id st))).
Proof.
  intros Hcore Hid. destruct Hcore as [Hwf Hsorted Hs Hrnd Hrk Hpend Hjnd Hjin].
  unfold join. destruct (position _ (p1_join_set st)) as [i|] eqn:Hp.
  2:{ apply position_None in Hp. rewrite Forall_forall in Hp. specialize (Hp id Hid).
      by apply bool_decide_eq_false in Hp. }
  apply position_Some in Hp as (x & Hx & ->%bool_decide_eq_true).
  assert (Hperm : p1_join_set st ≡ₚ id :: delete i (p1_join_set st))
    by (by apply delete_Permutation).
  rewrite Hperm in Hjnd. apply NoDup_cons in Hjnd as [Hn Hjnd].
  split; [|split; [done|]].
  - split; cbn; try done. intros y Hy. apply Hjin. rewrite Hperm. by right.
  - cbn [p1_join_set]. by rewrite Hperm at 1.
Qed.

Lemma handle_result_ok cfg st now id r : wf_NodeId (p1_target cfg) = true →
  phase1_core cfg st → id ∉ p1_join_set st →
  (∃ c, c ∈ p1_candidates st ∧ cd_id c = id ∧ cd_state c = Inflight) →
  match r with Some p => wf_packet p = true | None => True end →
  let st' := fst (handle_result cfg st now id r) in
  phase1_core cfg st' ∧ (inflight_count st' ≤ inflight_count st)%nat ∧
  p1_join_set st' = p1_join_set st ∧ p1_trace st' = p1_trace st.
Proof.
  intros Ht Hcore Hj (c0 & Hc0 & Hid0 & Hs0) Hr. unfold handle_result.
  destruct (position _ (p1_candidates st)) as [i|] eqn:Hp.
  2:{ apply position_None in Hp. rewrite Forall_forall in Hp. specialize (Hp c0 Hc0).
      apply bool_decide_eq_false in Hp. congruence. }
  apply position_Some in Hp as (c & Hc & Hcid%bool_decide_eq_true). cbn in Hcid.
  assert (c = c0) as ->.
  { eapply (NoDup_unique cd_id); [by eapply core_ids_NoDup|by eapply list_elem_of_lookup_2|done|].
    congruence. }
  destruct st as [cands seen js last trace]; cbn [p1_candidates p1_seen p1_join_set
    p1_last_response p1_trace] in *. unfold inflight_count; cbn [set_state_at].
  assert (Hset : ∀ s last', s ≠ Pending →
    phase1_core cfg (mkPhase1 (alter (set_state s) i cands) seen js last' trace)).
  { intros s last' Hs. eapply settle_core; try done; congruence. }
  assert (Hfail : (countb (is_state Inflight) (alter (set_state Failed) i cands) ≤
    countb (is_state Inflight) cands)%nat) by (by eapply settle_inflight).
  destruct r as [p|]; [|by cbn; auto]. destruct p; try (by cbn; auto).
  pose proof (settle_inflight Responded i cands c0 ltac:(done) Hc) as Hresp.
  destruct (sanitize_res_contacts (rs_contacts p) _ (req_count cfg)) as [l|] eqn:Hl;
    [|by cbn; auto].
  assert (Hwf : Forall (λ e, wf_NodeId (ce_node_id e) = true) l).
  { apply Forall_forall. intros e He. eapply sanitize_in in He; [|done].
    cbn -[forallb] in Hr. bool_hyps. rewrite forallb_forall in *.
    match goal with H : ∀ x, In x _ → _ |- _ => specialize (H e) end.
    unfold wf_contact_entry in *. apply list_elem_of_In in He. naive_solver (bool_hyps; done). }
  pose proof (add_reported_fold cfg l _ seen js (Some now) trace Ht Hwf
    (Hset Responded (Some now) ltac:(done))) as H.
  destruct (foldl _ _ l) as [cands' seen']. destruct H as [H1 H2]. cbn. split; [done|].
  split; [by rewrite H2|done].
Qed.

Lemma phase1_iter_ok cfg st ev st' running n : wf_NodeId (p1_target cfg) = true →
  phase1_ok cfg st → balanced n st → event_enabled cfg st ev →
  phase1_iter cfg st ev = (st', running) →
  phase1_ok cfg st' ∧
  balanced (match ev with EvPanicked _ | EvJoined _ _ _ => S n | _ => n end) st'.
Proof.
  intros Ht Hok Hbal Hen Hit. destruct (launch_ok cfg st Hok) as [Hl Hlen].
  assert (Hbal' : balanced n (launch cfg st)) by (unfold balanced in *; lia).
  unfold phase1_iter in Hit. destruct ev as [| |id|now id r].
  - by injection Hit as <- <-.
  - case_bool_decide; by injection Hit as <- <-.
  - cbn in Hen. rewrite bool_decide_false in Hit by (intros He; rewrite He in Hen; set_solver).
    injection Hit as <- <-. destruct Hl as [Hcore Ha].
    destruct (join_core cfg _ id Hcore Hen) as (Hj & _ & Hn).
    split; [by split|]. unfold balanced in *. cbn [join p1_trace] in *. lia.
  - destruct Hen as [Hen Hr].
    rewrite bool_decide_false in Hit by (intros He; rewrite He in Hen; set_solver).
    destruct Hl as [Hcore Ha]. destruct (join_core cfg _ id Hcore Hen) as (Hj & Hjn & Hn).
    destruct (handle_result cfg (join id (launch cfg st)) now id r) as [st1 check] eqn:Hh.
    injection Hit as <- <-.
    pose proof (handle_result_ok cfg (join id (launch cfg st)) now id r Ht Hj Hjn
      (p1_join_inflight _ _ Hcore id Hen) Hr) as H.
    rewrite Hh in H. cbn [fst] in H. destruct H as (H1 & H2 & H3 & H4). split; [split; [done|]|].
    + unfold inflight_count in *. cbn [join p1_candidates] in H2. lia.
    + unfold balanced in *. rewrite H3, H4. cbn [join p1_trace] in *. lia.
Qed.

(** *** The initial candidates *)

Lemma dedup_from_sorted {A} (key : A → Z) (same : A → A → bool) kept l :
  (∀ x y, x ∈ kept :: l → y ∈ kept :: l → same x y = true ↔ key x = key y) →
  StronglySorted Z.le (key <$> kept :: l) →
  StronglySorted Z.lt (key <$> kept :: dedup_from same kept l) ∧
  (∀ x, x ∈ dedup_from same kept l → x ∈ l) ∧
  (∀ x, x ∈ l → ∃ y, y ∈ kept :: dedup_from same kept l ∧ same x y = true).
Proof.
  revert kept; induction l as [|x l IH]; intros kept Hsame Hs; cbn [dedup_from].
  { split; [repeat constructor|]. set_solver. }
  cbn in Hs. apply StronglySorted_inv in Hs as [Hs Hk]. apply Forall_cons in Hk as [Hkx Hk].
  apply StronglySorted_inv in Hs as [Hs Hx].
  destruct (same x kept) eqn:Hxk.
  - destruct (IH kept) as (H1 & H2 & H3).
    { intros a b Ha Hb. apply Hsame; set_solver. }
    { cbn. by constructor. }
    split; [done|]. split; [set_solver|].
    intros y [-> |Hy]%elem_of_cons; [|by apply H3]. exists kept. split; [by left|done].
  - destruct (IH x) as (H1 & H2 & H3).
    { intros a b Ha Hb. apply Hsame; set_solver. }
    { cbn. by constructor. }
    assert (Hne : key x ≠ key kept).
    { intros He. apply (proj2 (Hsame x kept ltac:(set_solver) ltac:(set_solver))) in He. congruence. }
    split; [|split].
    + cbn. constructor; [done|]. constructor; [lia|].
      apply Forall_fmap, Forall_forall. intros y Hy%H2.
      rewrite Forall_fmap, Forall_forall in Hx. specialize (Hx y Hy). cbn in *. lia.
    + intros y [-> |Hy]%elem_of_cons; [by left|right; by apply H2].
    + intros y [-> |Hy]%elem_of_cons.
      * exists x. split; [set_solver|]. apply Hsame; set_solver.
      * destruct (H3 y Hy) as (z & Hz & Hyz). exists z. split; [set_solver|done].
Qed.

Lemma init_candidates_spec target initial : wf_NodeId target = true →
  Forall (λ c, wf_NodeId (tc_id c) = true) initial →
  let cands := init_candidates target initial in
  Forall (λ c, wf_NodeId (cd_id c) = true ∧ cd_distance c = distance target (cd_id c) ∧
               cd_state c = Pending) cands ∧
  StronglySorted Z.lt (cd_key <$> cands) ∧
  (∀ id, id ∈ cd_id <$> cands ↔ id ∈ tc_id <$> initial).
Proof.
  intros Ht Hwf. unfold init_candidates. set (cmp := λ a b, id_cmp (cd_distance a) (cd_distance b)).
  set (same := λ a b, bool_decide (tc_id (cd_contact a) = tc_id (cd_contact b))).
  assert (Hnew : Forall (λ c, wf_NodeId (cd_id c) = true ∧ cd_distance c = distance target (cd_id c) ∧
    cd_state c = Pending) (sort_by cmp (map (new_candidate target) initial))).
  { rewrite sort_by_perm. change (map ?f ?l) with (f <$> l). apply Forall_fmap.
    eapply Forall_impl; [exact Hwf|]. done. }
  assert (Hids : ∀ id, id ∈ cd_id <$> sort_by cmp (map (new_candidate target) initial) ↔
    id ∈ tc_id <$> initial).
  { intros id. rewrite sort_by_perm. change (map ?f ?l) with (f <$> l).
    by rewrite <- list_fmap_compose. }
  assert (Hord : StronglySorted Z.le (cd_key <$> sort_by cmp (map (new_candidate target) initial))).
  { pose proof (sort_by_ordered cmp (λ x y, id_cmp_total _ _) (λ x y z, id_cmp_trans _ _ _)
      (map (new_candidate target) initial)) as Ho. revert Ho Hnew.
    generalize (sort_by cmp (map (new_candidate target) initial)). intros l Ho Hl.
    induction Ho as [|x l _ IH Hx]; [constructor|]. apply Forall_cons in Hl as [(Hxw & Hxd & _) Hl].
    cbn. constructor; [by apply IH|]. apply Forall_fmap. rewrite Forall_forall in Hx, Hl |- *.
    intros y Hy. specialize (Hx y Hy). destruct (Hl y Hy) as (Hyw & Hyd & _). cbn.
    unfold cd_key. change (cmp_le id_cmp (cd_distance x) (cd_distance y) = true) in Hx.
    rewrite Hxd, Hyd in *. rewrite id_cmp_le_val in Hx by (by apply wf_distance). lia. }
  revert Hnew Hids Hord. generalize (sort_by cmp (map (new_candidate target) initial)).
  intros [|k l] Hnew Hids Hord; [split; [done|]; split; [constructor|done]|]. cbn [dedup_by].
  pose proof Hnew as Hnew'. rewrite Forall_forall in Hnew'.
  destruct (dedup_from_sorted cd_key same k l) as (H1 & H2 & H3); [|done|].
  { intros x y Hx Hy. destruct (Hnew' x Hx) as (Hxw & Hxd & _), (Hnew' y Hy) as (Hyw & Hyd & _).
    unfold same, cd_key. rewrite bool_decide_eq_true. fold (cd_id x) (cd_id y).
    rewrite Hxd, Hyd. split; [by intros ->|].
    intros Hk. apply node_val_inj in Hk; [|by apply wf_distance..].
    by apply distance_inj_l in Hk. }
  split; [|split; [done|]].
  - apply Forall_forall. intros c [-> |Hc]%elem_of_cons; apply Hnew'; set_solver.
  - intros id. rewrite <- Hids. split.
    + intros (c & -> & [-> |Hc]%elem_of_cons)%list_elem_of_fmap; apply list_elem_of_fmap; set_solver.
    + intros (c & -> & [-> |Hc]%elem_of_cons)%list_elem_of_fmap; apply list_elem_of_fmap; [set_solver|].
      destruct (H3 c Hc) as (y & Hy & Hs%bool_decide_eq_true). exists y. done.
Qed.

Lemma phase1_init_ok cfg initial : wf_NodeId (p1_target cfg) = true →
  Forall (λ c, wf_NodeId (tc_id c) = true) initial →
  phase1_ok cfg (phase1_init cfg initial) ∧ balanced 0 (phase1_init cfg initial).
Proof.
  intros Ht Hi. destruct (init_candidates_spec _ _ Ht Hi) as (Hwf & Hs & _).
  split; [split; [split|]|done]; cbn -[init_candidates]; try done.
  - eapply Forall_impl; [exact Hwf|]. naive_solver.
  - intros id. by rewrite elem_of_list_to_set.
  - constructor.
  - set_solver.
  - intros c Hc. rewrite Forall_forall in Hwf. destruct (Hwf c Hc) as (_ & _ & ?). set_solver.
  - constructor.
  - set_solver.
  - unfold inflight_count. cbn -[init_candidates]. replace (countb _ _) with O; [done|].
    symmetry. apply countb_zero. eapply Forall_impl; [exact Hwf|]. cbn. intros c (_ & _ & Hc).
    by apply is_state_false; rewrite Hc.
Qed.

Lemma lookup_ok cfg initial n st running : wf_NodeId (p1_target cfg) = true →
  Forall (λ c, wf_NodeId (tc_id c) = true) initial → lookup cfg initial n st running →
  phase1_ok cfg st ∧ balanced n st.
Proof.
  intros Ht Hi. induction 1 as [|n st ev st' running _ [Hok Hbal] Hen Hit].
  - by apply phase1_init_ok.
  - by eapply phase1_iter_ok.
Qed.

(** *** Convergence *)

Lemma and_iff_l (A B C : Prop) : (A → B ↔ C) → A ∧ B ↔ A ∧ C.
Proof. tauto. Qed.

Lemma take_filter_prefix {A} (key : A → Z) (P : A → bool) (l : list A) k t :
  StronglySorted Z.lt (key <$> l) → List.filter P l !! k = Some t →
  (∀ x, x ∈ l → key x ≤ key t → P x = true) → take (S k) l = take (S k) (List.filter P l).
Proof.
  revert k; induction l as [|x l IH]; intros k Hs Ht Hall; [done|].
  cbn in Hs. apply StronglySorted_inv in Hs as [Hs Hx]. rewrite Forall_fmap, Forall_forall in Hx.
  assert (Htl : t ∈ x :: l).
  { apply list_elem_of_lookup_2, list_elem_of_In, filter_In in Ht as [Ht _].
    by apply list_elem_of_In. }
  assert (Hpx : P x = true).
  { apply Hall; [by left|]. apply elem_of_cons in Htl as [-> |Htl]; [done|].
    specialize (Hx t Htl). cbn in Hx. lia. }
  cbn [List.filter] in *. rewrite Hpx in *. destruct k as [|k]; cbn in *; [done|].
  f_equal. apply IH; [done..|]. intros y Hy. apply Hall. by right.
Qed.

Lemma StronglySorted_filter {A} (key : A → Z) (P : A → bool) (l : list A) :
  StronglySorted Z.lt (key <$> l) → StronglySorted Z.lt (key <$> List.filter P l).
Proof.
  induction l as [|x l IH]; intros Hs; [constructor|]. cbn in *.
  apply StronglySorted_inv in Hs as [Hs Hx]. destruct (P x); [|by apply IH]. cbn.
  constructor; [by apply IH|]. rewrite Forall_fmap, Forall_forall in *. intros y Hy. apply Hx.
  apply list_elem_of_In in Hy. apply filter_In in Hy as [Hy _]. by apply list_elem_of_In.
Qed.

Lemma sorted_take_drop {A} (key : A → Z) n (l : list A) x y :
  StronglySorted Z.lt (key <$> l) → x ∈ take n l → y ∈ drop n l → key x < key y.
Proof.
  revert n; induction l as [|z l IH]; intros n Hs Hx Hy; [by rewrite take_nil in Hx; set_solver|].
  destruct n as [|n]; [set_solver|]. cbn in *. apply StronglySorted_inv in Hs as [Hs Hz].
  rewrite Forall_fmap, Forall_forall in Hz. apply elem_of_cons in Hx as [-> |Hx]; [|by eapply IH].
  apply Hz. rewrite <- (take_drop n l). set_solver.
Qed.

Lemma last_take_lookup {A} (l : list A) k t :
  (length l ≥ S k)%nat → last (take (S k) l) = Some t ↔ l !! k = Some t.
Proof.
  intros Hl. rewrite last_lookup, length_take.
  replace (Nat.pred (Nat.min (S k) (length l))) with k by lia. by rewrite lookup_take_lt by lia.
Qed.

Lemma live_cases c : live c = true → is_state Responded c = false →
  is_state Pending c || is_state Inflight c = true.
Proof. unfold live, is_state. destruct (cd_state c); done. Qed.

Lemma filter_responded_live l :
  List.filter (is_state Responded) (List.filter live l) = List.filter (is_state Responded) l.
Proof.
  induction l as [|c l IH]; [done|]. cbn. unfold live at 1.
  destruct (is_state Failed c) eqn:Hf; cbn; rewrite IH; [|done].
  apply is_state_true in Hf. rewrite (is_state_false Responded c) by congruence. done.
Qed.

Lemma converged_spec l :
  Forall (λ c, wf_NodeId (cd_distance c) = true) l → StronglySorted Z.lt (cd_key <$> l) →
  find_node_lookup_converged l = true ↔
  K ≤ zlen (List.filter (is_state Responded) l) ∧
  take (Z.to_nat K) (List.filter live l) = take (Z.to_nat K) (List.filter (is_state Responded) l).
Proof.
  intros Hwf Hs. rewrite Forall_forall in Hwf. unfold find_node_lookup_converged.
  change (Z.to_nat K) with (S 9). set (R := List.filter (is_state Responded) l).
  assert (HR : ∀ x, x ∈ R → x ∈ l ∧ is_state Responded x = true).
  { intros x Hx. apply list_elem_of_In in Hx. apply filter_In in Hx as [? ?].
    by rewrite list_elem_of_In. }
  assert (Hlen : ∀ b, (if zlen (take 10 R) <? K then false else b) = true ↔ K ≤ zlen R ∧ b = true).
  { intros b. unfold zlen, K. rewrite length_take.
    destruct (Z.ltb_spec (Z.of_nat (Nat.min 10 (length R))) 10); split; intros; (lia || tauto || (split; [lia|done])). }
  destruct (last (take 10 R)) as [t|] eqn:Hlast.
  2:{ apply last_None in Hlast. split; [done|]. intros [Hk _]. unfold zlen, K in Hk.
      destruct R; [cbn in Hk; lia|done]. }
  rewrite Hlen. clear Hlen. apply and_iff_l. intros Hk.
  assert (HtR : R !! 9%nat = Some t) by (apply last_take_lookup; [unfold zlen, K in Hk; lia|done]).
  assert (Ht : t ∈ R) by (by eapply list_elem_of_lookup_2).
  assert (Hcmp : ∀ x, x ∈ l → cmp_le id_cmp (cd_distance x) (cd_distance t) = (cd_key x <=? cd_key t)).
  { intros x Hx. apply id_cmp_le_val; apply Hwf; [done|]. by apply HR. }
  rewrite negb_true_iff, <- not_true_iff_false, existsb_exists. split.
  - intros Hno. unfold R. rewrite <- filter_responded_live.
    eapply (take_filter_prefix cd_key _ _ 9 t); [by apply StronglySorted_filter|
      by rewrite filter_responded_live|].
    intros x Hx Hxt. apply list_elem_of_In, filter_In in Hx as [Hx Hlive].
    destruct (is_state Responded x) eqn:Hr; [done|]. destruct Hno. exists x. split; [done|].
    rewrite live_cases, Hcmp by (done || by apply list_elem_of_In). cbn. lia.
  - intros Heq (x & Hx & Hpx). apply andb_true_iff in Hpx as [Hst Hle].
    apply list_elem_of_In in Hx. rewrite Hcmp in Hle by done. bool_hyps.
    assert (Hlive : x ∈ List.filter live l).
    { apply list_elem_of_In, filter_In. split; [by apply list_elem_of_In|].
      unfold live, is_state in *. by destruct (cd_state x). }
    assert (Htt : t ∈ take 10 (List.filter live l)).
    { rewrite Heq. apply (list_elem_of_lookup_2 _ 9). by rewrite lookup_take_lt by lia. }
    rewrite <- (take_drop 10 (List.filter live l)) in Hlive. apply elem_of_app in Hlive as [Hin|Hin].
    + rewrite Heq in Hin. eapply elem_of_take in Hin as (i & Hi & _).
      apply list_elem_of_lookup_2, HR in Hi as [_ Hi].
      unfold is_state in *. by destruct (cd_state x).
    + pose proof (sorted_take_drop cd_key 10 _ t x (StronglySorted_filter _ _ _ Hs) Htt Hin). lia.
Qed.

(** *** Reported contacts are filtered *)

#[local] Opaque ip_addr ipv4_prefix_24.

Lemma sanitize_step_inv addr d acc e :
  sanitize_inv addr d acc → sanitize_inv addr (d ++ [e]) (sanitize_step acc e).
Proof.
  destruct acc as [[si pc] s]. intros [Hbase Hkept Hcounts Hok Hsub]; cbn [fst snd] in *.
  assert (Hskip : sublist s (d ++ [e])) by (by apply sublist_inserts_r).
  unfold sanitize_step. destruct ((ce_ip e =? 0) || (ce_udp_port e =? 0)) eqn:Hz; [done|].
  case_bool_decide as Hseen; [done|]. bool_hyps.
  destruct (Z.leb_spec 2 (default 0 (pc !! ipv4_prefix_24 (ip_addr e)))) as [Hge|Hlt].
  - split; cbn [fst snd]; [|intros x Hx; by apply elem_of_union_r, Hkept| |exact Hok|exact Hskip].
    { etransitivity; [exact Hbase|apply union_subseteq_r]. }
    intros p. rewrite <- Hcounts. destruct (decide (p = ipv4_prefix_24 (ip_addr e))) as [-> |Hne].
    + by rewrite lookup_insert_eq.
    + by rewrite lookup_insert_ne.
  - destruct Hok as (Hnd & Hall & Hle). split; cbn [fst snd].
    + etransitivity; [exact Hbase|apply union_subseteq_r].
    + intros x [Hx|Hx]%elem_of_app; [by apply elem_of_union_r, Hkept|].
      apply list_elem_of_singleton in Hx as ->. by apply elem_of_union_l, elem_of_singleton.
    + intros p. rewrite countb_app, countb_cons, countb_nil. unfold has_prefix at 2.
      destruct (Z.eqb_spec (ipv4_prefix_24 (ip_addr e)) p) as [<- |Hne].
      * rewrite lookup_insert_eq, Hcounts. cbn -[Z.of_nat]. lia.
      * rewrite lookup_insert_ne, Hcounts by done. cbn -[Z.of_nat]. lia.
    + split; [|split].
      * rewrite fmap_app, Permutation_app_comm. cbn. apply NoDup_cons. split; [|done].
        intros (x & Hx & Hin)%list_elem_of_fmap. apply Hseen. rewrite Hx. by apply Hkept.
      * apply Forall_app. split; [done|]. repeat constructor; [|done..]. intros Hin. by apply Hseen, Hbase.
      * intros p. rewrite countb_app, countb_cons, countb_nil. unfold has_prefix at 2. specialize (Hle p).
        destruct (Z.eqb_spec (ipv4_prefix_24 (ip_addr e)) p) as [<- |Hne]; cbn -[Z.of_nat]; [|lia].
        rewrite Hcounts in Hlt. lia.
    + by apply sublist_app.
Qed.

Lemma sanitize_fold_inv addr l d acc :
  sanitize_inv addr d acc → sanitize_inv addr (d ++ l) (foldl sanitize_step acc l).
Proof.
  revert d acc; induction l as [|e l IH]; intros d acc H; cbn; [by rewrite app_nil_r|].
  rewrite (cons_middle e d l), app_assoc. by apply IH, sanitize_step_inv.
Qed.

Lemma sanitize_start addr pc :
  pc = match sa_ip addr with V4 ip => incr ∅ (ipv4_prefix_24 ip) | V6 _ => ∅ end →
  sanitize_inv addr [] (responder_ips addr, pc, []).
Proof.
  intros ->. split; cbn [fst snd]; [done|set_solver| | |done].
  - intros p. unfold responder_count, incr. destruct (sa_ip addr) as [ip|z]; cbn -[Z.of_nat].
    + destruct (Z.eqb_spec (ipv4_prefix_24 ip) p) as [<- |Hne].
      * by rewrite lookup_insert_eq.
      * by rewrite lookup_insert_ne.
    + by rewrite lookup_empty.
  - split; [constructor|]. split; [constructor|]. intros p. unfold responder_count.
    destruct (sa_ip addr); [destruct (_ =? _)|]; unfold countb; cbn; lia.
Qed.

(** ** Correctness of the traversal *)

(** C7. The lookup, under every order of answers, timeouts, task panics and
    interruptions: the candidates stay in strictly increasing distance with
    distinct identifiers, at most [ALPHA] are in flight, no contact is queried
    twice, and the loop has run once per finished query, so the number of
    iterations never exceeds the number of candidates. *)
Theorem lookup_invariant cfg initial n st running :
  wf_NodeId (p1_target cfg) = true → Forall (λ c, wf_NodeId (tc_id c) = true) initial →
  lookup cfg initial n st running →
  StronglySorted Z.lt (cd_key <$> p1_candidates st) ∧
  NoDup (cd_id <$> p1_candidates st) ∧
  Z.of_nat (countb (is_state Inflight) (p1_candidates st)) ≤ ALPHA ∧
  NoDup (requested (p1_trace st)) ∧
  (n + length (p1_join_set st) = length (requested (p1_trace st)))%nat ∧
  (n ≤ length (p1_candidates st))%nat.
Proof.
  intros Ht Hi Hl. destruct (lookup_ok cfg initial n st running Ht Hi Hl) as [[Hcore Ha] Hbal].
  split; [apply Hcore|]. split; [by eapply core_ids_NoDup|]. split; [done|].
  split; [apply Hcore|]. split; [done|].
  assert (Hle : (length (requested (p1_trace st)) ≤ length (cd_id <$> p1_candidates st))%nat).
  { apply submseteq_length, NoDup_submseteq; [apply Hcore|]. intros id.
    apply (p1_requests_known _ _ Hcore). }
  rewrite length_fmap in Hle. unfold balanced in Hbal. lia.
Qed.

Lemma lookup_invariant_witness :
  let cfg := mkP1Config NodeId_ZERO KindFindNode 10 in
  let a := mkTC (replicate 16 7) (mkSocketAddr (V4 (80, 1, 2, 3)) 4672) 9 in
  let b := mkTC (replicate 16 1) (mkSocketAddr (V4 (80, 1, 3, 3)) 4672) 9 in
  let st := fst (phase1_iter cfg (phase1_init cfg [a; b]) (EvJoined 5 (replicate 16 7) None)) in
  cd_state <$> p1_candidates st = [Inflight; Failed] ∧
  NoDup (cd_id <$> p1_candidates st).
Proof.
  cbn zeta. split; [vm_compute; reflexivity|].
  eapply (lookup_invariant (mkP1Config NodeId_ZERO KindFindNode 10)
    [mkTC (replicate 16 7) (mkSocketAddr (V4 (80, 1, 2, 3)) 4672) 9;
     mkTC (replicate 16 1) (mkSocketAddr (V4 (80, 1, 3, 3)) 4672) 9]);
    [reflexivity|repeat constructor|].
  eapply lookup_step; [apply lookup_init| |apply surjective_pairing].
  split; [|done]. vm_compute. right. left.
Defined.

(** The distance of a contact from the target. *)
Definition target_distance (target : NodeId) (c : TraversalContact) : Z := node_val (distance target (tc_id c)).
(** The responders are in strictly increasing distance. *)
Lemma responded_sorted cfg initial n st running :
  wf_NodeId (p1_target cfg) = true → Forall (λ c, wf_NodeId (tc_id c) = true) initial →
  lookup cfg initial n st running →
  StronglySorted Z.lt (target_distance (p1_target cfg) <$> responded (p1_candidates st)).
Proof.
  intros Ht Hi Hl. destruct (lookup_ok cfg initial n st running Ht Hi Hl) as [[Hcore _] _].
  replace (_ <$> responded _) with (cd_key <$> List.filter (is_state Responded) (p1_candidates st));
    [apply StronglySorted_filter, Hcore|].
  unfold responded. change (map ?f ?l) with (f <$> l). rewrite <- list_fmap_compose.
  apply list_fmap_ext. intros i c Hc. unfold target_distance, cd_key. cbn.
  apply list_elem_of_lookup_2, list_elem_of_In, filter_In in Hc as [Hc _].
  apply list_elem_of_In in Hc. pose proof (p1_wf _ _ Hcore) as Hwf.
  rewrite Forall_forall in Hwf. by destruct (Hwf c Hc) as [_ ->].
Qed.
Lemma closest_sorted cfg initial n st running :
  wf_NodeId (p1_target cfg) = true → Forall (λ c, wf_NodeId (tc_id c) = true) initial →
  lookup cfg initial n st running → StronglySorted Z.lt (target_distance (p1_target cfg) <$> closest cfg st).
Proof.
  intros Ht Hi Hl. pose proof (responded_sorted _ _ _ _ _ Ht Hi Hl) as Hsort. unfold closest. set (lim := Z.to_nat _).
  rewrite <- (take_drop lim (responded (p1_candidates st))), fmap_app in Hsort.
  by apply StronglySorted_app_1_l in Hsort.
Qed.
(** What the lookup returns was queried and answered. *)
Lemma closest_responded cfg initial n st running c :
  wf_NodeId (p1_target cfg) = true → Forall (λ c, wf_NodeId (tc_id c) = true) initial →
  lookup cfg initial n st running → c ∈ closest cfg st →
  tc_id c ∈ requested (p1_trace st) ∧ ∃ x, x ∈ p1_candidates st ∧ cd_contact x = c ∧ cd_state x = Responded.
Proof.
  intros Ht Hi Hl Hc. destruct (lookup_ok cfg initial n st running Ht Hi Hl) as [[Hcore _] _].
  apply elem_of_take in Hc as (i & Hc & _).
  apply list_elem_of_lookup_2 in Hc. unfold responded in Hc. change (map ?f ?l) with (f <$> l) in Hc.
  apply list_elem_of_fmap in Hc as (x & -> & Hx). apply list_elem_of_In, filter_In in Hx as [Hx Hs].
  apply list_elem_of_In in Hx. apply is_state_true in Hs. split; [|by exists x].
  destruct (decide (cd_id x ∈ requested (p1_trace st))) as [|Hn]; [done|].
  apply (p1_pending _ _ Hcore x Hx) in Hn. congruence.
Qed.

(** C8. What the lookup returns: at most the window of its kind, in strictly
    increasing distance from the target, only contacts that were queried and
    answered, and every other responder is farther than all of them. *)
Theorem lookup_closest cfg initial n st running :
  wf_NodeId (p1_target cfg) = true → Forall (λ c, wf_NodeId (tc_id c) = true) initial →
  lookup cfg initial n st running →
  let d := target_distance (p1_target cfg) in
  StronglySorted Z.lt (d <$> closest cfg st) ∧
  zlen (closest cfg st) ≤ Z.max 0 (traversal_closest_limit (p1_kind cfg) (p1_phase2_fanout cfg)) ∧
  Forall (λ c, tc_id c ∈ requested (p1_trace st) ∧
     ∃ x, x ∈ p1_candidates st ∧ cd_contact x = c ∧ cd_state x = Responded) (closest cfg st) ∧
  (∀ x c, x ∈ p1_candidates st → cd_state x = Responded → cd_contact x ∉ closest cfg st →
     c ∈ closest cfg st → d c < d (cd_contact x)).
Proof.
  intros Ht Hi Hl d. split; [by eapply closest_sorted|]. split; [unfold zlen, closest; rewrite length_take; lia|].
  split; [apply Forall_forall; intros c; by eapply closest_responded|].
  intros x c Hx Hs Hnot Hc. pose proof (responded_sorted _ _ _ _ _ Ht Hi Hl) as Hsort.
  assert (Hr : cd_contact x ∈ responded (p1_candidates st)).
  { unfold responded. change (map ?f ?l) with (f <$> l). apply list_elem_of_fmap. exists x.
    split; [done|]. apply list_elem_of_In, filter_In. split; [by apply list_elem_of_In|].
    by apply is_state_true. }
  unfold closest in *. set (lim := Z.to_nat _) in *.
  rewrite <- (take_drop lim (responded (p1_candidates st))) in Hr.
  apply elem_of_app in Hr as [Hr|Hr]; [done|].
  by apply (sorted_take_drop d lim (responded (p1_candidates st))).
Qed.

Lemma lookup_closest_witness :
  let cfg := mkP1Config NodeId_ZERO KindFindNode 10 in
  let a := mkTC (replicate 16 7) (mkSocketAddr (V4 (80, 1, 2, 3)) 4672) 9 in
  let st := fst (phase1_iter cfg (phase1_init cfg [a])
    (EvJoined 5 (replicate 16 7) (Some (PRes (mkRes NodeId_ZERO
      [mkContactEntry (replicate 16 2) 1347551745 4672 4662 9]))))) in
  closest cfg st = [a] ∧ cd_id <$> p1_candidates st = [replicate 16 2; replicate 16 7] ∧
  zlen (closest cfg st) ≤ 10.
Proof.
  cbn zeta. split; [vm_compute; reflexivity|]. split; [vm_compute; reflexivity|].
  eapply (lookup_closest (mkP1Config NodeId_ZERO KindFindNode 10)
    [mkTC (replicate 16 7) (mkSocketAddr (V4 (80, 1, 2, 3)) 4672) 9]);
    [reflexivity|repeat constructor|].
  eapply lookup_step; [apply lookup_init| |apply surjective_pairing].
  split; [|reflexivity]. vm_compute. left.
Defined.

(** A node lookup stops early exactly when it is safe: on the candidates of
    every reachable state, the convergence test holds iff [K] candidates have
    responded and the [K] closest candidates that have not failed are precisely
    the [K] closest responders, so no pending or running query could improve the
    answer among the known candidates. *)
Lemma lookup_converged cfg initial n st running :
  wf_NodeId (p1_target cfg) = true → Forall (λ c, wf_NodeId (tc_id c) = true) initial →
  lookup cfg initial n st running →
  find_node_lookup_converged (p1_candidates st) = true ↔
  K ≤ zlen (List.filter (is_state Responded) (p1_candidates st)) ∧
  take (Z.to_nat K) (List.filter live (p1_candidates st)) =
  take (Z.to_nat K) (List.filter (is_state Responded) (p1_candidates st)).
Proof.
  intros Ht Hi Hl. destruct (lookup_ok cfg initial n st running Ht Hi Hl) as [[Hcore _] _].
  apply converged_spec; [|apply Hcore].
  eapply Forall_impl; [apply (p1_wf _ _ Hcore)|]. cbn. intros c [Hc ->]. by apply wf_distance.
Qed.

(** Answers cannot flood or cluster the lookup: a [RES] with more contacts
    than were asked for is dropped whole, and what is kept of any other is a
    subsequence with distinct addresses, none of them the responder's or zero, and
    at most two of one [/24], the responder counted. *)
Lemma sanitize_correct contacts addr max_contacts :
  (sanitize_res_contacts contacts addr max_contacts = None ↔ max_contacts < zlen contacts) ∧
  ∀ l, sanitize_res_contacts contacts addr max_contacts = Some l →
    sublist l contacts ∧ zlen l ≤ max_contacts ∧ sanitized_ok addr l.
Proof.
  unfold sanitize_res_contacts. destruct (Z.ltb_spec max_contacts (zlen contacts)) as [Hlt|Hge].
  { split; [by split|done]. }
  set (start := match sa_ip addr with V4 ip => _ | V6 _ => _ end).
  assert (Hs : sanitize_inv addr [] (start.1, start.2, [])).
  { unfold start. pose proof (sanitize_start addr _ eq_refl) as H. unfold responder_ips in H.
    by destruct (sa_ip addr). }
  destruct start as [si pc]. split; [split; [done|lia]|]. intros l [= <-].
  pose proof (sanitize_fold_inv addr contacts [] _ Hs) as H. cbn [fst snd app] in H.
  pose proof (si_sub _ _ _ H) as Hsub. cbn [app] in Hsub. split; [done|].
  apply sublist_length in Hsub. split; [unfold zlen in *; lia|]. by apply H.
Qed.
