(* ===== verification/SearchWalk.v ===== *)
(** * The search walk

    Models the second phase of [overlord-kad-dht/src/traversal.rs]
    ([run_search_phase], [collect_search_results_until]): search packets go to the
    closest tolerated responders one at a time, paced by the clock, and the
    answers of queried peers are collected. One iteration of the loop is a
    function of the state, the turns of the drain loop and the clock readings. *)

From S2P Require Import Prelude Net NodeId Wire Tag PacketTypes Packet Contact Bin Traversal.

(** ** Data and operations *)

Record phase2_config : Type := mkP2Config {
  p2_responded : list TraversalContact;
  p2_kind : TraversalKind;
  p2_target : NodeId;
  p2_query_timeout : Z;
  p2_deadline : Z;
  p2_fanout : Z;
  p2_last_lookup_response_at : option Z;
  p2_jumpstart_idle_grace : Z;
  p2_jumpstart_tick : Z;
  p2_streaming : bool;
}.

(** The locals of [run_search_phase] that the loop changes; [p2_streamed] is what
    went into the result channel, [p2_send_times] the clock at each search packet. *)
Record phase2 : Type := mkPhase2 {
  p2_pending : list TraversalContact;
  p2_queried_addrs : gset SocketAddr;
  p2_search_entries : list (Ed2kHash * list Tag);
  p2_streamed : list (Ed2kHash * list Tag);
  p2_next_emit_at : Z;
  p2_trace : list rpc_call;
  p2_send_times : list Z;
}.

Definition compute_initial_jumpstart_emit_at (last_lookup_response_at : option Z)
    (now jumpstart_idle_grace : Z) : Z :=
  match last_lookup_response_at with
  | None => now
  | Some last => Z.max (last + jumpstart_idle_grace) now
  end.

(** The part before the loop: the phase deadline and the first state, or [None]
    for the early returns. The clock is read three times. *)
Definition phase2_start (cfg : phase2_config) (cancelled : bool) (now now1 now2 : Z)
    : option (Z * phase2) :=
  if cancelled then None
  else if p2_deadline cfg <=? now then None
  else
    let remaining := p2_deadline cfg - now in
    let qt := Z.min (p2_query_timeout cfg) remaining in
    let phase_deadline := now1 + qt in
    let send_to := select_phase2_contacts (p2_responded cfg) (p2_target cfg) (p2_fanout cfg) in
    Some (phase_deadline,
      mkPhase2 send_to ∅ [] []
        (compute_initial_jumpstart_emit_at (p2_last_lookup_response_at cfg) now2
           (p2_jumpstart_idle_grace cfg)) [] []).

(** One received packet in [collect_search_results_until]. *)
Definition drain_packet (cfg : phase2_config) (st : phase2) (received : SocketAddr * KadPacket)
    : phase2 :=
  let '(from, packet) := received in
  match packet with
  | PSearchRes sr =>
      if negb (bool_decide (from ∈ p2_queried_addrs st)) then st
      else if negb (bool_decide (sr_target sr = p2_target cfg)) then st
      else
        let entries := map (λ e, (se_entry_id e, se_tags e)) (sr_results sr) in
        mkPhase2 (p2_pending st) (p2_queried_addrs st)
          (if p2_streaming cfg then p2_search_entries st else p2_search_entries st ++ entries)
          (if p2_streaming cfg then p2_streamed st ++ entries else p2_streamed st)
          (p2_next_emit_at st) (p2_trace st) (p2_send_times st)
  | _ => st
  end.

(** What the [select!] of one turn of the drain loop yields: the cancellation, the
    timeout, or the outcome of [recv] on the broadcast channel. *)
Inductive drain_outcome : Type :=
| DrainCancelled
| DrainTimeout
| DrainClosed
| DrainLagged
| DrainPacket (from : SocketAddr) (packet : KadPacket).

(** One turn: whether the token was cancelled on top, the clock, the outcome. *)
Record drain_turn : Type := mkTurn {
  dt_cancelled : bool;
  dt_now : Z;
  dt_outcome : drain_outcome;
}.

(** [collect_search_results_until], on its turns; the turns after the one that
    leaves the loop are not looked at. *)
Fixpoint collect_search_results_until (cfg : phase2_config) (receive_until : Z)
    (turns : list drain_turn) (st : phase2) : phase2 :=
  match turns with
  | [] => st
  | t :: turns' =>
      if dt_cancelled t then st
      else if receive_until <=? dt_now t then st
      else
        match dt_outcome t with
        | DrainCancelled | DrainTimeout | DrainClosed => st
        | DrainLagged => collect_search_results_until cfg receive_until turns' st
        | DrainPacket from packet =>
            collect_search_results_until cfg receive_until turns'
              (drain_packet cfg st (from, packet))
        end
  end.

(** The search packet of the kind; the lookup kinds are [unreachable!]. *)
Definition phase2_packet (cfg : phase2_config) : res unit KadPacket :=
  match p2_kind cfg with
  | KindKeyword request => Ok (PSearchKeyReq request)
  | KindSource request => Ok (PSearchSourceReq request)
  | KindNotes size => Ok (PSearchNotesReq (mkSearchNotesReq (p2_target cfg) size))
  | KindFindNode | KindStore => Panic
  end.

(** The end of [run_traversal]: the configuration of the search walk that follows
    a lookup that ended in [st], [None] for the kinds that have none. *)
Definition search_phase (cfg : phase1_config) (st : phase1) (query_timeout deadline : Z)
    (streaming : bool) : option phase2_config :=
  match p1_kind cfg with
  | KindFindNode | KindStore => None
  | kind =>
      Some (mkP2Config (responded (p1_candidates st)) kind (p1_target cfg) query_timeout deadline
        (p1_phase2_fanout cfg) (p1_last_response st) SEARCH_JUMPSTART_IDLE_GRACE
        SEARCH_JUMPSTART_TICK streaming)
  end.

(** What one iteration meets: whether it is cancelled, the clock on top, the
    turns of the drain, the clock after the drain and after the send. *)
Record phase2_event : Type := mkP2Event {
  ev_cancelled : bool;
  ev_now : Z;
  ev_turns : list drain_turn;
  ev_now_drained : Z;
  ev_now_sent : Z;
}.

Definition receive_until_of (phase_deadline : Z) (st : phase2) : Z :=
  match p2_pending st with
  | [] => phase_deadline
  | _ => Z.min (p2_next_emit_at st) phase_deadline
  end.

(** One iteration of the loop; [true] when it goes on. *)
Definition phase2_iter (cfg : phase2_config) (phase_deadline : Z) (st : phase2) (ev : phase2_event)
    : res unit (phase2 * bool) :=
  if ev_cancelled ev then Ok (st, false)
  else if phase_deadline <=? ev_now ev then Ok (st, false)
  else
    let receive_until := receive_until_of phase_deadline st in
    let st := collect_search_results_until cfg receive_until (ev_turns ev) st in
    if phase_deadline <=? ev_now_drained ev then Ok (st, false)
    else
      match p2_pending st with
      | [] => Ok (st, true)
      | contact :: rest =>
          if ev_now_drained ev <? p2_next_emit_at st then Ok (st, true)
          else
            packet ← phase2_packet cfg;
            Ok (mkPhase2 rest ({[tc_addr contact]} ∪ p2_queried_addrs st)
                  (p2_search_entries st) (p2_streamed st)
                  (ev_now_sent ev + p2_jumpstart_tick cfg)
                  (p2_trace st ++ register_traversal_identity contact ++
                     [Send (tc_addr contact) packet])
                  (p2_send_times st ++ [ev_now_drained ev]), true)
      end.

(** ** Views and invariants *)

(** The addresses of the search packets, from the trace. *)
Definition sends (trace : list rpc_call) : list SocketAddr :=
  omap (λ call, match call with Send addr _ => Some addr | _ => None end) trace.

(** The packets the turns of a drain deliver before it ends. *)
Fixpoint delivered (receive_until : Z) (turns : list drain_turn) : list (SocketAddr * KadPacket) :=
  match turns with
  | [] => []
  | t :: turns' =>
      if dt_cancelled t || (receive_until <=? dt_now t) then []
      else
        match dt_outcome t with
        | DrainPacket from packet => (from, packet) :: delivered receive_until turns'
        | DrainLagged => delivered receive_until turns'
        | _ => []
        end
  end.

(** The search results an iteration may take: from a queried address, for the
    target. *)
Definition accepted (cfg : phase2_config) (queried : gset SocketAddr)
    (received : list (SocketAddr * KadPacket)) : list (Ed2kHash * list Tag) :=
  flat_map (λ '(from, packet),
    match packet with
    | PSearchRes sr =>
        if bool_decide (from ∈ queried) && bool_decide (sr_target sr = p2_target cfg)
        then map (λ e, (se_entry_id e, se_tags e)) (sr_results sr) else []
    | _ => []
    end) received.

(** [times] are [tick] apart, from [start] on. *)
Fixpoint spaced (tick start : Z) (times : list Z) : Prop :=
  match times with
  | [] => True
  | t :: ts => start ≤ t ∧ spaced tick (t + tick) ts
  end.

(** The clock does not run backwards during an iteration. *)
Definition clock_ok (clock : Z) (ev : phase2_event) : Prop :=
  clock ≤ ev_now ev ∧ ev_now ev ≤ ev_now_drained ev ∧ ev_now_drained ev ≤ ev_now_sent ev.

(** The states of the walk, with the last clock reading. *)
Inductive walk (cfg : phase2_config) (phase_deadline : Z) (st0 : phase2) (clock0 : Z)
    : phase2 → Z → bool → Prop :=
| walk_init : walk cfg phase_deadline st0 clock0 st0 clock0 true
| walk_step st clock ev st' running :
    walk cfg phase_deadline st0 clock0 st clock true → clock_ok clock ev →
    phase2_iter cfg phase_deadline st ev = Ok (st', running) →
    walk cfg phase_deadline st0 clock0 st' (ev_now_sent ev) running.

Record phase2_ok (cfg : phase2_config) (start deadline : Z) (st : phase2) : Prop := {
  p2_order : ∃ sent, select_phase2_contacts (p2_responded cfg) (p2_target cfg) (p2_fanout cfg) =
      sent ++ p2_pending st ∧ sends (p2_trace st) = map tc_addr sent;
  p2_queried : ∀ a, a ∈ p2_queried_addrs st ↔ a ∈ sends (p2_trace st);
  p2_count : length (p2_send_times st) = length (sends (p2_trace st));
  p2_spaced : spaced (p2_jumpstart_tick cfg) start (p2_send_times st);
  p2_next : spaced (p2_jumpstart_tick cfg) start (p2_send_times st ++ [p2_next_emit_at st]);
  p2_before : Forall (λ t, t < deadline) (p2_send_times st);
}.

(** ** Lemmas *)

Lemma spaced_last tick start l x y : spaced tick start (l ++ [x]) → x ≤ y → spaced tick start (l ++ [y]).
Proof.
  revert start; induction l as [|t l IH]; intros start; cbn; [lia|].
  intros [? H] Hxy. split; [done|]. by apply IH.
Qed.

Lemma spaced_snoc tick start l x y :
  spaced tick start (l ++ [x]) → x + tick ≤ y → spaced tick start ((l ++ [x]) ++ [y]).
Proof.
  revert start; induction l as [|t l IH]; intros start; cbn; [lia|].
  intros [? H] Hxy. split; [done|]. by apply IH.
Qed.

Lemma spaced_init tick start l x : spaced tick start (l ++ [x]) → spaced tick start l.
Proof.
  revert start; induction l as [|t l IH]; intros start; cbn; [done|].
  intros [? H]. split; [done|]. by apply IH.
Qed.

Lemma spaced_lower tick start l : 0 ≤ tick → spaced tick start l → Forall (λ t, start ≤ t) l.
Proof.
  intros Ht. revert start; induction l as [|t l IH]; intros start; cbn; [constructor|].
  intros [? H]. constructor; [done|]. eapply Forall_impl; [by apply IH|]. cbn. lia.
Qed.

Lemma sends_app t t' : sends (t ++ t') = sends t ++ sends t'.
Proof. apply omap_app. Qed.
Lemma sends_register c : sends (register_traversal_identity c) = [].
Proof. unfold register_traversal_identity. by destruct (negb _). Qed.

Lemma collect_delivered cfg receive_until turns st :
  collect_search_results_until cfg receive_until turns st =
  foldl (drain_packet cfg) st (delivered receive_until turns).
Proof.
  revert st. induction turns as [|t turns IH]; intros st; cbn; [done|].
  destruct (dt_cancelled t); [done|]. destruct (receive_until <=? dt_now t); [done|].
  cbn [orb]. destruct (dt_outcome t); cbn; auto.
Qed.

(** The drain only adds the accepted results. *)
Lemma drain_spec cfg receive_until turns st :
  let received := delivered receive_until turns in
  collect_search_results_until cfg receive_until turns st =
  mkPhase2 (p2_pending st) (p2_queried_addrs st)
    (p2_search_entries st ++
       if p2_streaming cfg then [] else accepted cfg (p2_queried_addrs st) received)
    (p2_streamed st ++
       if p2_streaming cfg then accepted cfg (p2_queried_addrs st) received else [])
    (p2_next_emit_at st) (p2_trace st) (p2_send_times st).
Proof.
  intros received. rewrite collect_delivered. fold received. clearbody received. revert st.
  induction received as [|[from packet] l IH]; intros st; cbn [foldl].
  { destruct st, (p2_streaming cfg); cbn; by rewrite !app_nil_r. }
  rewrite IH. clear IH. cbn [accepted flat_map].
  fold (accepted cfg (p2_queried_addrs st) l).
  destruct packet; cbn [drain_packet app]; try done.
  destruct (bool_decide (from ∈ p2_queried_addrs st)); cbn [negb andb app]; [|done].
  destruct (bool_decide (sr_target p = p2_target cfg)); cbn [negb app]; [|done].
  cbn. destruct (p2_streaming cfg); by rewrite ?app_nil_r, <- ?app_assoc.
Qed.

Lemma phase2_iter_ok cfg start deadline st ev st' running clock :
  phase2_ok cfg start deadline st → clock_ok clock ev →
  phase2_iter cfg deadline st ev = Ok (st', running) → phase2_ok cfg start deadline st'.
Proof.
  intros [Horder Hq Hcount Hsp Hnext Hbefore] (_ & _ & Hclock) Hit. unfold phase2_iter in Hit.
  destruct (ev_cancelled ev); [by injection Hit as <- <-|].
  destruct (deadline <=? ev_now ev); [by injection Hit as <- <-|].
  rewrite drain_spec in Hit. cbn [p2_pending p2_next_emit_at p2_queried_addrs p2_search_entries
    p2_streamed p2_trace p2_send_times] in Hit.
  destruct (Z.leb_spec deadline (ev_now_drained ev)) as [|Hdl]; [by injection Hit as <- <-|].
  destruct (p2_pending st) as [|contact rest] eqn:Hpend.
  { injection Hit as <- <-. by split; cbn. }
  destruct (Z.ltb_spec (ev_now_drained ev) (p2_next_emit_at st)) as [|Hemit].
  { injection Hit as <- <-. by split; cbn. }
  destruct (phase2_packet cfg) as [packet| |] eqn:Hpk; [|done..]. cbn [mbind res_bind] in Hit.
  injection Hit as <- <-.
  assert (Hsends : sends (p2_trace st ++ register_traversal_identity contact ++
    [Send (tc_addr contact) packet]) = sends (p2_trace st) ++ [tc_addr contact]).
  { by rewrite !sends_app, sends_register. }
  split; cbn [p2_pending p2_next_emit_at p2_queried_addrs p2_search_entries
    p2_streamed p2_trace p2_send_times]; rewrite ?Hsends.
  - destruct Horder as (sent & Hs & Hsent). exists (sent ++ [contact]). split.
    + by rewrite Hs, <- app_assoc.
    + by rewrite Hsent, map_app.
  - intros a. rewrite elem_of_union, elem_of_singleton, Hq, elem_of_app, list_elem_of_singleton. tauto.
  - rewrite !length_app, Hcount. done.
  - by eapply spaced_last.
  - eapply spaced_snoc; [by eapply spaced_last|lia].
  - apply Forall_app. split; [done|]. by repeat constructor.
Qed.

Lemma phase2_start_ok cfg cancelled now now1 now2 dl st :
  phase2_start cfg cancelled now now1 now2 = Some (dl, st) →
  phase2_ok cfg (p2_next_emit_at st) dl st.
Proof.
  unfold phase2_start. repeat case_match; try done. intros [= <- <-].
  split; cbn [p2_pending p2_next_emit_at p2_queried_addrs p2_search_entries
    p2_streamed p2_trace p2_send_times]; try done.
  - by exists [].
  - intros a. cbn. set_solver.
Qed.

(** What [run_traversal] hands to the walk. *)
Lemma search_phase_spec p1 st1 qt deadline streaming cfg :
  search_phase p1 st1 qt deadline streaming = Some cfg →
  ∃ packet, phase2_packet cfg = Ok packet ∧ p2_responded cfg = responded (p1_candidates st1) ∧
    p2_target cfg = p1_target p1 ∧ p2_fanout cfg = p1_phase2_fanout p1 ∧
    p2_last_lookup_response_at cfg = p1_last_response st1 ∧
    p2_jumpstart_idle_grace cfg = 3 * NANOS_PER_SEC ∧ p2_jumpstart_tick cfg = NANOS_PER_SEC.
Proof.
  unfold search_phase. destruct (p1_kind p1); [done|done|..]; intros [= <-]; by eexists.
Qed.

Lemma select_phase2_prefix responded target fanout sent rest :
  select_phase2_contacts responded target fanout = sent ++ rest →
  zlen sent ≤ Z.max 0 (Z.min fanout K) ∧
  Forall (λ c, passes_search_tolerance target c = true) sent.
Proof.
  unfold select_phase2_contacts. intros Hs. pose proof Hs as Hlen.
  apply (f_equal length) in Hlen. rewrite length_take, length_app in Hlen.
  split; [unfold zlen; lia|]. apply Forall_forall. intros c Hc.
  assert (Hin : c ∈ take (Z.to_nat (Z.min fanout K))
    (List.filter (passes_search_tolerance target) responded)).
  { rewrite Hs. apply elem_of_app. by left. }
  apply elem_of_take in Hin as (i & Hin & _).
  by apply list_elem_of_lookup_2, list_elem_of_In, filter_In in Hin as [_ ?].
Qed.

(** ** Correctness of the search walk *)

(** C9. The search walk after a lookup, for every interleaving of incoming
    packets and clock readings that does not run backwards: the packets go to a
    prefix of the selected responders of the lookup, in order and once each, at
    most [min fanout K] of them, within the tolerance; the first not before three
    seconds after the last lookup answer, the following at least a second apart,
    none at or after the deadline; and the loop never panics, since
    [run_traversal] starts no walk for the kinds without a search packet. *)
Theorem walk_correct p1 st1 qt deadline streaming cfg cancelled now now1 now2 dl st0 st clock running :
  search_phase p1 st1 qt deadline streaming = Some cfg →
  phase2_start cfg cancelled now now1 now2 = Some (dl, st0) →
  walk cfg dl st0 now2 st clock running →
  (∃ sent, select_phase2_contacts (responded (p1_candidates st1)) (p1_target p1)
       (p1_phase2_fanout p1) = sent ++ p2_pending st ∧
     sends (p2_trace st) = map tc_addr sent ∧
     zlen sent ≤ Z.max 0 (Z.min (p1_phase2_fanout p1) K) ∧
     Forall (λ c, passes_search_tolerance (p1_target p1) c = true) sent) ∧
  Forall (λ t, (∀ last, p1_last_response st1 = Some last → last + 3 * NANOS_PER_SEC ≤ t) ∧
     t < dl) (p2_send_times st) ∧
  spaced NANOS_PER_SEC (p2_next_emit_at st0) (p2_send_times st) ∧
  (∀ ev, phase2_iter cfg dl st ev ≠ Panic).
Proof.
  intros Hphase Hstart Hw. pose proof (phase2_start_ok _ _ _ _ _ _ _ Hstart) as Hok0.
  assert (Hok : phase2_ok cfg (p2_next_emit_at st0) dl st).
  { clear Hstart. induction Hw as [|st2 clock2 ev st' running' _ IH Hclock Hit]; [done|].
    by eapply phase2_iter_ok. }
  destruct (search_phase_spec _ _ _ _ _ _ Hphase) as (packet & Hpacket & Hr & Ht & Hf & Hl & Hg & Hk).
  destruct Hok as [(sent & Hs & Hsent) _ _ Hsp _ Hbefore].
  rewrite Hr, Ht, Hf in Hs. rewrite Hk in Hsp. split; [|split; [|split]].
  - exists sent. split; [done|]. split; [done|]. by eapply select_phase2_prefix.
  - apply spaced_lower in Hsp; [|done]. rewrite Forall_forall in *. intros t Hin.
    split; [|by apply Hbefore]. intros last Hlast. specialize (Hsp t Hin).
    unfold phase2_start in Hstart. repeat case_match; try done. injection Hstart as <- <-.
    cbn [p2_next_emit_at] in Hsp. unfold compute_initial_jumpstart_emit_at in Hsp.
    rewrite Hl, Hlast, Hg in Hsp. lia.
  - done.
  - intros ev. unfold phase2_iter. rewrite Hpacket. repeat case_match; done.
Qed.

Lemma walk_correct_witness :
  let s := NANOS_PER_SEC in
  let a := mkTC (replicate 16 0) (mkSocketAddr (V4 (80, 1, 2, 3)) 4672) 9 in
  let p1 := mkP1Config NodeId_ZERO (KindNotes 100) 10 in
  let st1 := mkPhase1 [mkCandidate a Responded NodeId_ZERO] {[tc_id a]} [] (Some (4 * s)) [] in
  let cfg := mkP2Config [a] (KindNotes 100) NodeId_ZERO (30 * s) (100 * s) 10 (Some (4 * s))
    (3 * s) (1 * s) false in
  let st0 := mkPhase2 [a] ∅ [] [] (7 * s) [] [] in
  let ev := mkP2Event false (6 * s) [mkTurn false (6 * s) DrainTimeout] (8 * s) (8 * s) in
  let st := mkPhase2 [] {[tc_addr a]} [] [] (9 * s)
    [RegisterVersion (tc_addr a) 9;
     Send (tc_addr a) (PSearchNotesReq (mkSearchNotesReq NodeId_ZERO 100))] [8 * s] in
  search_phase p1 st1 (30 * s) (100 * s) false = Some cfg ∧
  phase2_start cfg false (5 * s) (5 * s) (5 * s) = Some (35 * s, st0) ∧
  phase2_iter cfg (35 * s) st0 ev = Ok (st, true) ∧
  spaced NANOS_PER_SEC (7 * s) (p2_send_times st).
Proof.
  intros s a p1 st1 cfg st0 ev st. split; [reflexivity|]. split; [vm_compute; reflexivity|].
  split; [vm_compute; reflexivity|].
  eapply (walk_correct p1 st1 (30 * s) (100 * s) false cfg false (5 * s) (5 * s) (5 * s) (35 * s) st0);
    [reflexivity|vm_compute; reflexivity|].
  eapply (walk_step _ _ _ _ _ _ ev); [apply walk_init|repeat split; done|vm_compute; reflexivity].
Defined.

(** A search accepts only what it asked for: in one iteration, the results
    collected (or streamed) are exactly the entries of the [SEARCH_RES] packets
    delivered before the drain ended whose sender had been sent the search packet and whose target is the
    search's, in the order they came; other packets change nothing. *)
Lemma search_collects_answers cfg dl st ev st' running :
  phase2_iter cfg dl st ev = Ok (st', running) →
  let new := if ev_cancelled ev || (dl <=? ev_now ev) then []
             else accepted cfg (p2_queried_addrs st) (delivered (receive_until_of dl st) (ev_turns ev)) in
  p2_search_entries st' = p2_search_entries st ++ (if p2_streaming cfg then [] else new) ∧
  p2_streamed st' = p2_streamed st ++ (if p2_streaming cfg then new else []).
Proof.
  intros Hit new. unfold new. clear new. unfold phase2_iter in Hit.
  destruct (ev_cancelled ev); cbn [orb].
  { injection Hit as <- <-. destruct (p2_streaming cfg); by rewrite !app_nil_r. }
  destruct (dl <=? ev_now ev).
  { injection Hit as <- <-. destruct (p2_streaming cfg); by rewrite !app_nil_r. }
  rewrite drain_spec in Hit. cbn [p2_pending p2_next_emit_at] in Hit.
  repeat case_match; simplify_eq; try done.
  all: apply res_bind_Ok in Hit as (packet & _ & Hit); by injection Hit as <- <-.
Qed.
