(* ===== verification/Tracker.v ===== *)
(** * Flood and reply tracking

    Models [overlord-kad-net/src/tracker.rs]: the fixed-window packet counters
    per source address and packet family, and the list of outbound requests that
    replies are checked against. [Instant::now()] is the argument [now], a
    duration is a number of nanoseconds, and [duration_since] saturates at zero.
    The packet counter is a [u32] that wraps. *)

From S2P Require Import Prelude Net NodeId Packet.

(** ** Data *)

Inductive PacketTrackerBucket : Type :=
| BootstrapReq_ | HelloReq_ | FindNodeReq_ | SearchReq_ | PublishKeyReq_ | PublishSourceReq_
| PublishNotesReq_ | FirewalledReq_ | FindBuddyReq_ | CallbackReq_ | PingReq_ | SearchRes_
| Default_.
#[export] Instance PacketTrackerBucket_eq_dec : EqDecision PacketTrackerBucket.
Proof. solve_decision. Defined.

Definition bucket_index (b : PacketTrackerBucket) : nat :=
  match b with
  | BootstrapReq_ => 0 | HelloReq_ => 1 | FindNodeReq_ => 2 | SearchReq_ => 3
  | PublishKeyReq_ => 4 | PublishSourceReq_ => 5 | PublishNotesReq_ => 6 | FirewalledReq_ => 7
  | FindBuddyReq_ => 8 | CallbackReq_ => 9 | PingReq_ => 10 | SearchRes_ => 11 | Default_ => 12
  end.
Definition all_buckets : list PacketTrackerBucket :=
  [BootstrapReq_; HelloReq_; FindNodeReq_; SearchReq_; PublishKeyReq_; PublishSourceReq_;
   PublishNotesReq_; FirewalledReq_; FindBuddyReq_; CallbackReq_; PingReq_; SearchRes_; Default_].
#[export] Instance PacketTrackerBucket_countable : Countable PacketTrackerBucket.
Proof.
  refine (inj_countable' bucket_index (λ n, nth n all_buckets Default_) _). by intros [].
Defined.

(** [PacketTrackerKey] *)
Definition PacketTrackerKey : Type := IpAddr * PacketTrackerBucket.
#[export] Instance PacketTrackerKey_eq_dec : EqDecision PacketTrackerKey := prod_eq_dec.
#[export] Instance PacketTrackerKey_countable : Countable PacketTrackerKey := prod_countable.

Record PacketTrackerLimit : Type := mkLimit { max_packets : Z; window : Z }.

Record PacketTracker : Type := mkTracker {
  pt_counts : gmap PacketTrackerKey (Z * Z);
  pt_limits : gmap PacketTrackerBucket PacketTrackerLimit;
  pt_default_limit : PacketTrackerLimit;
}.

Inductive PacketTrackerAction : Type := Allow | Drop | MassiveDrop.
#[export] Instance PacketTrackerAction_eq_dec : EqDecision PacketTrackerAction.
Proof. solve_decision. Defined.

Record PacketTrackerDecision : Type := mkDecision {
  d_action : PacketTrackerAction;
  d_allowed : bool;
  d_observed_packets : Z;
  d_max_packets : Z;
  d_window : Z;
}.

(** ** Operations of [PacketTracker] *)

(** [Duration::MAX] in nanoseconds. *)
Definition DURATION_MAX : Z := 2 ^ 64 * 1000000000 - 1.
Definition duration_since (now earlier : Z) : Z := saturating_sub now earlier.

Definition tracker_new (max_per_window search_res_max_per_window window request_window : Z)
    : PacketTracker :=
  let default_limit := mkLimit max_per_window window in
  let limits := list_to_map [
    (BootstrapReq_, mkLimit 2 request_window);
    (HelloReq_, mkLimit 3 request_window);
    (FindNodeReq_, mkLimit 10 request_window);
    (SearchReq_, mkLimit 3 request_window);
    (PublishKeyReq_, mkLimit 4 request_window);
    (PublishSourceReq_, mkLimit 3 request_window);
    (PublishNotesReq_, mkLimit 2 request_window);
    (FirewalledReq_, mkLimit 2 request_window);
    (FindBuddyReq_, mkLimit 2 request_window);
    (CallbackReq_, mkLimit 1 request_window);
    (PingReq_, mkLimit 2 request_window);
    (SearchRes_, mkLimit search_res_max_per_window window)] in
  mkTracker ∅ limits default_limit.

Definition limit_for_bucket (t : PacketTracker) (bucket : PacketTrackerBucket) : PacketTrackerLimit :=
  default (pt_default_limit t) (pt_limits t !! bucket).

Definition record_and_check (t : PacketTracker) (now : Z) (key : PacketTrackerKey)
    : PacketTracker * PacketTrackerDecision :=
  let limit := limit_for_bucket t (snd key) in
  let entry := default (0, now) (pt_counts t !! key) in
  let entry := if window limit <=? duration_since now (snd entry) then (0, now) else entry in
  let count := (fst entry + 1) mod 2 ^ 32 in
  let action :=
    if saturating_mul 32 (max_packets limit) 4 <? count then MassiveDrop
    else if max_packets limit <? count then Drop
    else Allow in
  (mkTracker (<[key := (count, snd entry)]> (pt_counts t)) (pt_limits t) (pt_default_limit t),
   mkDecision action (bool_decide (action = Allow)) count (max_packets limit) (window limit)).

(** [prune]: [retain] keeps the entries younger than two windows. *)
Definition prune_keeps (t : PacketTracker) (now : Z) (key : PacketTrackerKey) (entry : Z * Z) : bool :=
  let limit := default (pt_default_limit t) (pt_limits t !! snd key) in
  duration_since now (snd entry) <? Z.min (window limit * 2) DURATION_MAX.
Definition prune (t : PacketTracker) (now : Z) : PacketTracker :=
  mkTracker (filter (λ '(key, entry), prune_keeps t now key entry = true) (pt_counts t))
    (pt_limits t) (pt_default_limit t).

(** ** Operations of [OutboundRequestTracker] *)

Record OutboundRequestEntry : Type := mkEntry {
  oe_inserted_at : Z;
  oe_ip : IpAddr;
  oe_opcode : Z;
}.
(** Front (newest) first. *)
Record OutboundRequestTracker : Type := mkOutbound {
  ot_entries : list OutboundRequestEntry;
  ot_window : Z;
}.

Definition outbound_new (window : Z) : OutboundRequestTracker := mkOutbound [] window.

(** [while entries.back().is_some_and(stale) { pop_back() }], on the reversed list. *)
Fixpoint pop_stale (now window : Z) (rev_entries : list OutboundRequestEntry)
    : list OutboundRequestEntry :=
  match rev_entries with
  | e :: es => if window <=? duration_since now (oe_inserted_at e) then pop_stale now window es
               else rev_entries
  | [] => []
  end.
Definition outbound_prune (t : OutboundRequestTracker) (now : Z) : OutboundRequestTracker :=
  mkOutbound (rev (pop_stale now (ot_window t) (rev (ot_entries t)))) (ot_window t).

Definition tracks_outbound_request_opcode (opcode : Z) : bool :=
  bool_decide (opcode ∈ [BOOTSTRAP_REQ; HELLO_REQ; HELLO_RES; REQ; SEARCH_NOTES_REQ;
    PUBLISH_KEY_REQ; PUBLISH_SOURCE_REQ; PUBLISH_NOTES_REQ; FINDBUDDY_REQ; CALLBACK_REQ; PING]).

(** [record]; the clock is read for the prune and again for the entry. *)
Definition outbound_record (t : OutboundRequestTracker) (now now' : Z) (ip : IpAddr) (opcode : Z)
    : OutboundRequestTracker :=
  let t := outbound_prune t now in
  if negb (tracks_outbound_request_opcode opcode) then t
  else mkOutbound (mkEntry now' ip opcode :: ot_entries t) (ot_window t).

Definition entry_matches (ip : IpAddr) (opcode : Z) (e : OutboundRequestEntry) : bool :=
  bool_decide (oe_ip e = ip) && (oe_opcode e =? opcode).

Definition outbound_contains (t : OutboundRequestTracker) (now : Z) (ip : IpAddr) (opcode : Z)
    (remove : bool) : OutboundRequestTracker * bool :=
  let t := outbound_prune t now in
  match position (entry_matches ip opcode) (ot_entries t) with
  | Some index =>
      (if remove then mkOutbound (delete index (ot_entries t)) (ot_window t) else t, true)
  | None => (t, false)
  end.

(** [find_any]; [now i] is the clock at the [i]-th probe. *)
Fixpoint find_any (t : OutboundRequestTracker) (now : nat → Z) (ip : IpAddr) (opcodes : list Z)
    (remove : bool) : OutboundRequestTracker * option Z :=
  match opcodes with
  | [] => (t, None)
  | opcode :: rest =>
      match outbound_contains t (now O) ip opcode remove with
      | (t', true) => (t', Some opcode)
      | (t', false) => find_any t' (λ i, now (S i)) ip rest remove
      end
  end.

(** ** Reference: one counter per key

    The state of a key is the count and the start of its window, or [None]
    before its first packet; nothing is ever pruned. *)
Definition ref_step (limit : PacketTrackerLimit) (st : option (Z * Z)) (now : Z) : Z * Z :=
  match st with
  | Some (n, start) =>
      if window limit <=? now - start then (1, now) else ((n + 1) mod 2 ^ 32, start)
  | None => (1, now)
  end.
Definition ref_action (limit : PacketTrackerLimit) (count : Z) : PacketTrackerAction :=
  if saturating_mul 32 (max_packets limit) 4 <? count then MassiveDrop
  else if max_packets limit <? count then Drop
  else Allow.

(** A schedule of the tracker: packets and prunes, in the order of the clock. *)
Inductive tracker_op : Type := Packet_ (now : Z) (key : PacketTrackerKey) | Prune_ (now : Z).
Definition op_time (o : tracker_op) : Z := match o with Packet_ now _ => now | Prune_ now => now end.

(** The decisions of the tracker on a schedule. *)
Fixpoint decisions (t : PacketTracker) (ops : list tracker_op)
    : list (PacketTrackerKey * PacketTrackerAction) :=
  match ops with
  | [] => []
  | Packet_ now key :: ops' =>
      let '(t', d) := record_and_check t now key in (key, d_action d) :: decisions t' ops'
  | Prune_ now :: ops' => decisions (prune t now) ops'
  end.

(** The decisions of the reference for one key: only its own packets matter. *)
Fixpoint ref_decisions (limit : PacketTrackerLimit) (key : PacketTrackerKey) (st : option (Z * Z))
    (ops : list tracker_op) : list PacketTrackerAction :=
  match ops with
  | [] => []
  | Packet_ now k :: ops' =>
      if bool_decide (k = key)
      then let st' := ref_step limit st now in
           ref_action limit (fst st') :: ref_decisions limit key (Some st') ops'
      else ref_decisions limit key st ops'
  | Prune_ _ :: ops' => ref_decisions limit key st ops'
  end.

Definition decisions_for (key : PacketTrackerKey) (l : list (PacketTrackerKey * PacketTrackerAction))
    : list PacketTrackerAction :=
  omap (λ '(k, a), if bool_decide (k = key) then Some a else None) l.

(** The clock does not run backwards. *)
Fixpoint timed (clock : Z) (ops : list tracker_op) : Prop :=
  match ops with
  | [] => True
  | o :: ops' => clock ≤ op_time o ∧ timed (op_time o) ops'
  end.

(** The tracker entry of a key, against the reference: the same, or pruned
    after its window had passed. *)
Definition agrees (t : PacketTracker) (key : PacketTrackerKey) (clock : Z) (st : option (Z * Z)) : Prop :=
  match st with
  | None => pt_counts t !! key = None
  | Some (n, start) =>
      start ≤ clock ∧
      (pt_counts t !! key = Some (n, start) ∨
       pt_counts t !! key = None ∧ window (limit_for_bucket t (snd key)) ≤ clock - start)
  end.

(** A duration. *)
Definition wf_limit (l : PacketTrackerLimit) : Prop := 0 ≤ window l ≤ DURATION_MAX ∧ 0 ≤ max_packets l.

(** Newest first. *)
Definition newest_first (l : list OutboundRequestEntry) : Prop :=
  StronglySorted (λ a b, oe_inserted_at b ≤ oe_inserted_at a) l.
Definition fresh (now window : Z) (e : OutboundRequestEntry) : bool :=
  duration_since now (oe_inserted_at e) <? window.

(** The tracker after a schedule. *)
Fixpoint run_ops (t : PacketTracker) (ops : list tracker_op) : PacketTracker :=
  match ops with
  | [] => t
  | Packet_ now key :: ops' => run_ops (fst (record_and_check t now key)) ops'
  | Prune_ now :: ops' => run_ops (prune t now) ops'
  end.

Definition is_allow (a : PacketTrackerAction) : bool := bool_decide (a = Allow).

(** ** Lemmas *)

Lemma duration_since_le now start : start ≤ now → duration_since now start = now - start.
Proof. unfold duration_since, saturating_sub. lia. Qed.

Lemma limit_record t now k b :
  limit_for_bucket (fst (record_and_check t now k)) b = limit_for_bucket t b.
Proof. done. Qed.
Lemma limit_prune t now b : limit_for_bucket (prune t now) b = limit_for_bucket t b.
Proof. done. Qed.

(** Recording a packet of the key is a step of the reference. *)
Lemma record_agrees t key clock st now : clock ≤ now → agrees t key clock st →
  let limit := limit_for_bucket t (snd key) in
  agrees (fst (record_and_check t now key)) key now (Some (ref_step limit st now)) ∧
  d_action (snd (record_and_check t now key)) = ref_action limit (fst (ref_step limit st now)).
Proof.
  intros Hclock Hag limit.
  assert (Hstep : ∃ start, ref_step limit st now = (fst (ref_step limit st now), start) ∧
    start ≤ now ∧ (let entry := default (0, now) (pt_counts t !! key) in
    let entry := if window limit <=? duration_since now (snd entry) then (0, now) else entry in
    ((fst entry + 1) mod 2 ^ 32, snd entry) = ref_step limit st now)).
  { destruct st as [[n start]|]; cbn [agrees ref_step] in *.
    - destruct Hag as [Hs [-> |[-> Hw]]]; cbn [from_option id fst snd].
      + rewrite duration_since_le by lia. fold limit.
        destruct (Z.leb_spec (window limit) (now - start)); eexists; (split; [reflexivity|]);
          (split; [lia|reflexivity]).
      + rewrite (proj2 (Z.leb_le (window limit) (now - start))) by (fold limit in Hw; lia).
        exists now. split; [done|]. split; [lia|].
        by destruct (window limit <=? duration_since now now).
    - rewrite Hag. cbn [from_option id fst snd]. exists now.
      split; [done|]. split; [lia|]. by destruct (window limit <=? duration_since now now). }
  destruct Hstep as (start & He & Hle & Heq). cbn zeta in Heq.
  unfold record_and_check. fold limit. cbn zeta. cbn [fst snd d_action].
  split.
  - rewrite Heq, He. cbn [agrees pt_counts]. split; [done|]. left. by rewrite lookup_insert_eq.
  - unfold ref_action. apply (f_equal fst) in Heq. cbn [fst] in Heq. by rewrite Heq.
Qed.

Lemma record_agrees_other t key k clock st now : clock ≤ now → k ≠ key → agrees t key clock st →
  agrees (fst (record_and_check t now k)) key now st.
Proof.
  intros Hclock Hne. unfold agrees. rewrite limit_record. unfold record_and_check.
  cbn [fst pt_counts]. rewrite lookup_insert_ne by done.
  destruct st as [[n start]|]; [|done]. intros [? [?|[? ?]]]; (split; [lia|]); [by left|right].
  split; [done|lia].
Qed.

Lemma prune_agrees t key clock st now : clock ≤ now → wf_limit (limit_for_bucket t (snd key)) →
  agrees t key clock st → agrees (prune t now) key now st.
Proof.
  intros Hclock [Hw _]. unfold agrees. rewrite limit_prune.
  destruct st as [[n start]|]; unfold prune; cbn [pt_counts].
  - intros [Hs Hag]. split; [lia|]. destruct Hag as [Hk|[Hk Hold]].
    + destruct (prune_keeps t now key (n, start)) eqn:Hkeep.
      * left. by apply map_lookup_filter_Some.
      * right. split.
        -- apply map_lookup_filter_None. right. intros x Hx. rewrite Hk in Hx. injection Hx as <-.
           by rewrite Hkeep.
        -- unfold prune_keeps in Hkeep. fold (limit_for_bucket t (snd key)) in Hkeep.
           cbn [snd] in Hkeep. rewrite duration_since_le in Hkeep by lia. bool_hyps. lia.
    + right. split; [|lia]. apply map_lookup_filter_None. by left.
  - intros Hk. apply map_lookup_filter_None. by left.
Qed.

Lemma decisions_ref t key clock st ops limit :
  limit = limit_for_bucket t (snd key) → wf_limit limit → timed clock ops → agrees t key clock st →
  decisions_for key (decisions t ops) = ref_decisions limit key st ops.
Proof.
  intros Hl Hw. revert t clock st Hl; induction ops as [|[now k|now] ops IH];
    intros t clock st Hl Ht Hag; [done|..]; cbn [timed op_time] in Ht; destruct Ht as [Hc Ht].
  - cbn [decisions ref_decisions].
    destruct (record_and_check t now k) as [t' d] eqn:Hr.
    assert (Ht' : t' = fst (record_and_check t now k)) by (by rewrite Hr).
    assert (Hd : d = snd (record_and_check t now k)) by (by rewrite Hr).
    unfold decisions_for. cbn [omap list_omap]. fold (decisions_for key (decisions t' ops)).
    case_bool_decide as Hk.
    + subst k. destruct (record_agrees t key clock st now Hc Hag) as [Hag' Hact].
      rewrite <- Hl in *. rewrite Hd, Hact. f_equal.
      apply (IH t' now); [by rewrite Ht', limit_record|done|by rewrite Ht'].
    + apply (IH t' now); [by rewrite Ht', limit_record|done|].
      rewrite Ht'. by apply (record_agrees_other t key k clock).
  - cbn [decisions ref_decisions]. apply (IH _ now); [by rewrite limit_prune|done|].
    apply (prune_agrees t key clock); [done|by rewrite <- Hl|done].
Qed.

(** *** The budget *)

Lemma ref_action_Allow limit n : ref_action limit n = Allow → n ≤ max_packets limit.
Proof. unfold ref_action. repeat case_match; try done. bool_hyps. done. Qed.

Lemma allow_cons limit n l :
  Z.of_nat (countb is_allow (ref_action limit n :: l)) ≤
  (if n <=? max_packets limit then 1 else 0) + Z.of_nat (countb is_allow l).
Proof.
  rewrite countb_cons. unfold is_allow at 1. case_bool_decide as Ha; [|destruct (_ <=? _); lia].
  apply ref_action_Allow in Ha. rewrite (proj2 (Z.leb_le _ _)) by done. lia.
Qed.

(** Within its window, a key is allowed what is left of its budget. *)
Lemma allowed_in_window limit key n start ops :
  wf_limit limit → 0 ≤ n → n + zlen ops < 2 ^ 32 →
  Forall (λ o, op_time o < start + window limit) ops →
  Z.of_nat (countb is_allow (ref_decisions limit key (Some (n, start)) ops)) ≤
  Z.max 0 (max_packets limit - n).
Proof.
  intros Hw. revert n; induction ops as [|[now k|now] ops IH]; intros n Hn Hlen Ht;
    cbn [ref_decisions]; [rewrite countb_nil; lia|..]; rewrite zlen_cons in Hlen;
    apply Forall_cons in Ht as [Hnow Ht]; cbn [op_time] in Hnow;
    [case_bool_decide; [|apply IH; [lia..|done]]|apply IH; [lia..|done]].
  cbn [ref_step]. rewrite (proj2 (Z.leb_gt _ _)) by lia. cbn [fst].
  pose proof (zlen_nonneg ops). rewrite Z.mod_small by lia.
  etransitivity; [apply allow_cons|]. specialize (IH (n + 1) ltac:(lia) ltac:(lia) Ht).
  destruct (Z.leb_spec (n + 1) (max_packets limit)); lia.
Qed.

(** In any span of one window length, at most two budgets. *)
Lemma allowed_in_span limit key a n start ops :
  wf_limit limit → 0 ≤ n → n + zlen ops < 2 ^ 32 →
  Forall (λ o, a ≤ op_time o < a + window limit) ops →
  Z.of_nat (countb is_allow (ref_decisions limit key (Some (n, start)) ops)) ≤
  Z.max 0 (max_packets limit - n) + max_packets limit.
Proof.
  intros Hw. pose proof Hw as [_ Hm].
  revert n; induction ops as [|[now k|now] ops IH]; intros n Hn Hlen Ht;
    cbn [ref_decisions]; [rewrite countb_nil; lia|..]; rewrite zlen_cons in Hlen;
    apply Forall_cons in Ht as [Hnow Ht]; cbn [op_time] in Hnow;
    [case_bool_decide; [|apply IH; [lia..|done]]|apply IH; [lia..|done]].
  cbn [ref_step]. pose proof (zlen_nonneg ops).
  destruct (Z.leb_spec (window limit) (now - start)) as [Hreset|Hsame]; cbn [fst].
  - etransitivity; [apply allow_cons|].
    pose proof (allowed_in_window limit key 1 now ops Hw ltac:(lia) ltac:(lia)) as H1.
    specialize (H1 ltac:(eapply Forall_impl; [exact Ht|cbn; lia])).
    destruct (Z.leb_spec 1 (max_packets limit)); lia.
  - rewrite Z.mod_small by lia. etransitivity; [apply allow_cons|].
    specialize (IH (n + 1) ltac:(lia) ltac:(lia) Ht).
    destruct (Z.leb_spec (n + 1) (max_packets limit)); lia.
Qed.

(** The reference state after a schedule, with its count bounded. *)
Lemma run_agrees t key clock st ops :
  wf_limit (limit_for_bucket t (snd key)) → timed clock ops → agrees t key clock st →
  ∃ clock' st', agrees (run_ops t ops) key clock' st' ∧
    limit_for_bucket (run_ops t ops) (snd key) = limit_for_bucket t (snd key) ∧
    (∀ ops', timed clock (ops ++ ops') → timed clock' ops') ∧
    (∀ n start, 0 ≤ n → (∀ m s, st = Some (m, s) → 0 ≤ m ≤ n) → n + zlen ops < 2 ^ 32 →
       st' = Some start → 0 ≤ fst start ≤ n + zlen ops).
Proof.
  intros Hw. revert t clock st Hw; induction ops as [|o ops IH]; intros t clock st Hw Ht Hag.
  { exists clock, st. split; [done|]. split; [done|]. split; [done|].
    intros n [m s] Hn Hm _ ->. specialize (Hm m s eq_refl). unfold zlen. cbn. lia. }
  destruct Ht as [Hc Ht]. destruct o as [now k|now]; cbn [run_ops op_time] in *.
  - destruct (decide (k = key)) as [->|Hne].
    + destruct (record_agrees t key clock st now Hc Hag) as [Hag' _].
      destruct (IH (fst (record_and_check t now key)) now _ Hw Ht Hag') as (clock' & st' & H1 & H2 & H3 & H4).
      exists clock', st'. split; [done|]. split; [done|]. split; [by intros ops' [_ ?]; apply H3|].
      intros n start Hn Hm Hlen Hst. rewrite zlen_cons in *. pose proof (zlen_nonneg ops).
      specialize (H4 (n + 1) start ltac:(lia)). replace (n + (1 + zlen ops)) with (n + 1 + zlen ops) by lia.
      apply H4; [|lia|done]. intros m s Hs. injection Hs as Hs. unfold ref_step in Hs.
      destruct st as [[m0 s0]|]; [|injection Hs as <- <-; lia].
      specialize (Hm m0 s0 eq_refl). destruct (_ <=? _); injection Hs as <- <-; [lia|].
      rewrite Z.mod_small; lia.
    + pose proof (record_agrees_other t key k clock st now Hc Hne Hag) as Hag'.
      destruct (IH (fst (record_and_check t now k)) now _ Hw Ht Hag') as (clock' & st' & H1 & H2 & H3 & H4).
      exists clock', st'. split; [done|]. split; [done|]. split; [by intros ops' [_ ?]; apply H3|].
      intros n start Hn Hm Hlen Hst. rewrite zlen_cons in *.
      specialize (H4 n start Hn Hm ltac:(lia) Hst). lia.
  - pose proof (prune_agrees t key clock st now Hc Hw Hag) as Hag'.
    destruct (IH (prune t now) now _ Hw Ht Hag') as (clock' & st' & H1 & H2 & H3 & H4).
    exists clock', st'. split; [done|]. split; [done|]. split; [by intros ops' [_ ?]; apply H3|].
    intros n start Hn Hm Hlen Hst. rewrite zlen_cons in *.
    specialize (H4 n start Hn Hm ltac:(lia) Hst). lia.
Qed.

Lemma decisions_app t ops ops' :
  decisions t (ops ++ ops') = decisions t ops ++ decisions (run_ops t ops) ops'.
Proof.
  revert t; induction ops as [|[now k|now] ops IH]; intros t; cbn; [done|..].
  - by rewrite IH.
  - apply IH.
Qed.

Lemma tracker_new_agrees a b w rw key clock : agrees (tracker_new a b w rw) key clock None.
Proof. done. Qed.

Lemma tracker_new_wf a b w rw bucket :
  0 ≤ a → 0 ≤ b → 0 ≤ w ≤ DURATION_MAX → 0 ≤ rw ≤ DURATION_MAX →
  wf_limit (limit_for_bucket (tracker_new a b w rw) bucket).
Proof. intros. by destruct bucket; split; cbn; try lia. Qed.

(** *** Outbound requests *)

Lemma pop_stale_filter now w l :
  StronglySorted (λ a b, oe_inserted_at a ≤ oe_inserted_at b) l →
  pop_stale now w l = List.filter (fresh now w) l.
Proof.
  induction 1 as [|e l Hs IH He]; [done|]. cbn. unfold fresh at 1.
  destruct (Z.leb_spec w (duration_since now (oe_inserted_at e))) as [Hold|Hnew].
  - rewrite (proj2 (Z.ltb_ge _ _)) by lia. apply IH.
  - rewrite (proj2 (Z.ltb_lt _ _)) by lia. f_equal. symmetry.
    clear IH Hs. induction He as [|x l Hx _ IHl]; [done|]. cbn. rewrite IHl.
    unfold fresh. unfold duration_since, saturating_sub in *. by rewrite (proj2 (Z.ltb_lt _ _)) by lia.
Qed.

Lemma StronglySorted_rev {A} (R : A → A → Prop) l :
  StronglySorted R l → StronglySorted (λ a b, R b a) (rev l).
Proof.
  induction 1 as [|x l _ IH Hx]; cbn; [constructor|]. apply StronglySorted_app_2; [|done|].
  - intros a b Ha%list_elem_of_In Hb. apply list_elem_of_singleton in Hb as ->.
    apply in_rev in Ha. rewrite List.Forall_forall in Hx. by apply Hx.
  - repeat constructor.
Qed.

Lemma outbound_prune_spec t now : newest_first (ot_entries t) →
  ot_entries (outbound_prune t now) = List.filter (fresh now (ot_window t)) (ot_entries t).
Proof.
  intros Hs. unfold outbound_prune. cbn. rewrite pop_stale_filter.
  - by rewrite filter_rev, rev_involutive.
  - apply (StronglySorted_rev (λ a b, oe_inserted_at b ≤ oe_inserted_at a)), Hs.
Qed.

Lemma newest_first_sub l k : sublist k l → newest_first l → newest_first k.
Proof.
  unfold newest_first. induction 1 as [|x l k Hsub IH|x l k Hsub IH]; intros Hs; [constructor|..];
    apply StronglySorted_inv in Hs as [Hs Hx]; [|by apply IH].
  constructor; [by apply IH|]. rewrite Forall_forall in *. intros y Hy. apply Hx.
  by eapply elem_of_sublist.
Qed.

Lemma outbound_record_ok t now now' ip op : now ≤ now' → newest_first (ot_entries t) →
  Forall (λ e, oe_inserted_at e ≤ now) (ot_entries t) →
  newest_first (ot_entries (outbound_record t now now' ip op)) ∧
  Forall (λ e, oe_inserted_at e ≤ now') (ot_entries (outbound_record t now now' ip op)).
Proof.
  intros Hnow Hs Hall. unfold outbound_record.
  pose proof (filter_sublist (fresh now (ot_window t)) (ot_entries t)) as Hsub.
  rewrite <- outbound_prune_spec in Hsub by done.
  pose proof (newest_first_sub _ _ Hsub Hs) as Hs'.
  assert (Hall' : Forall (λ e, oe_inserted_at e ≤ now') (ot_entries (outbound_prune t now))).
  { rewrite Forall_forall in *. intros e He. specialize (Hall e).
    etransitivity; [apply Hall; by eapply elem_of_sublist|done]. }
  destruct (tracks_outbound_request_opcode op); [|done]. cbn [negb ot_entries].
  split; [by constructor|]. by constructor.
Qed.

(** ** Correctness of the trackers *)

(** Over every schedule of packets and prunes, the decisions for a key are
    those of a fixed-window counter of that key alone: neither the packets of
    other addresses or families nor pruning, whenever it runs, changes them. *)
Lemma tracker_decisions a b w rw key ops clock :
  0 ≤ a → 0 ≤ b → 0 ≤ w ≤ DURATION_MAX → 0 ≤ rw ≤ DURATION_MAX → timed clock ops →
  let t := tracker_new a b w rw in
  decisions_for key (decisions t ops) =
  ref_decisions (limit_for_bucket t (snd key)) key None ops.
Proof.
  intros Ha Hb Hw Hrw Ht t. apply (decisions_ref t key clock); [done| |done|done].
  by apply tracker_new_wf.
Qed.

(** The flood budget: whatever came before, in any span of one window length
    a key is allowed at most twice its budget of packets (as long as fewer than
    [2^32] packets and prunes have been seen, below which the [u32] counter does
    not wrap). *)
Lemma flood_budget a b w rw key before ops clock start :
  0 ≤ a → 0 ≤ b → 0 ≤ w ≤ DURATION_MAX → 0 ≤ rw ≤ DURATION_MAX →
  timed clock (before ++ ops) → zlen (before ++ ops) < 2 ^ 32 ->
  let t := tracker_new a b w rw in
  let limit := limit_for_bucket t (snd key) in
  Forall (λ o, start ≤ op_time o < start + window limit) ops →
  Z.of_nat (countb is_allow (decisions_for key (decisions (run_ops t before) ops))) ≤
  2 * max_packets limit.
Proof.
  intros Ha Hb Hw Hrw Ht Hlen t limit Hspan.
  assert (Hwf : wf_limit limit) by (by apply tracker_new_wf).
  assert (Htb : timed clock before).
  { revert Ht. clear. revert clock. induction before as [|o l IH]; intros c; cbn; [done|].
    intros [? ?]. split; [done|]. by apply IH. }
  destruct (run_agrees t key clock None before Hwf Htb (tracker_new_agrees a b w rw key clock))
    as (clock' & st' & Hag & Hl & Hops & Hcount).
  rewrite (decisions_ref _ key clock' st' ops limit) by (done || by apply Hops).
  rewrite zlen_app in Hlen. pose proof (zlen_nonneg ops). destruct Hwf as [? Hm].
  destruct st' as [[n s]|].
  - specialize (Hcount 0 (n, s) ltac:(lia) ltac:(done) ltac:(lia) eq_refl). cbn in Hcount.
    pose proof (allowed_in_span limit key start n s ops ltac:(done) ltac:(lia) ltac:(lia) Hspan). lia.
  - pose proof (allowed_in_span limit key start 0 (start - window limit) ops
      ltac:(done) ltac:(lia) ltac:(pose proof (zlen_nonneg before); lia) Hspan) as H1.
    replace (ref_decisions limit key None ops)
      with (ref_decisions limit key (Some (0, start - window limit)) ops); [lia|].
    clear -Hspan. induction ops as [|[now k|now] ops IH]; [done|..]; cbn [ref_decisions];
      apply Forall_cons in Hspan as [Hnow Hspan]; cbn [op_time] in Hnow; [|by apply IH].
    case_bool_decide; [|by apply IH]. cbn [ref_step].
    by rewrite (proj2 (Z.leb_le _ _)) by lia.
Qed.

(** A reply is accepted exactly when a request to that address with that
    opcode was recorded within the window and not consumed since; consuming takes
    the newest such request and no other, and pruning drops exactly the expired
    ones. *)
Lemma outbound_contains_correct t now ip op remove :
  newest_first (ot_entries t) →
  let '(t', found) := outbound_contains t now ip op remove in
  let live := List.filter (fresh now (ot_window t)) (ot_entries t) in
  (found = true ↔ ∃ e, e ∈ ot_entries t ∧ fresh now (ot_window t) e = true ∧
                       entry_matches ip op e = true) ∧
  newest_first (ot_entries t') ∧
  (if found && remove then
     ∃ e, entry_matches ip op e = true ∧ live ≡ₚ e :: ot_entries t' ∧
       ∀ x, x ∈ ot_entries t' → entry_matches ip op x = true →
         oe_inserted_at x ≤ oe_inserted_at e
   else ot_entries t' = live).
Proof.
  intros Hs. unfold outbound_contains. rewrite outbound_prune_spec by done.
  pose proof (newest_first_sub _ _ (filter_sublist (fresh now (ot_window t)) (ot_entries t)) Hs) as Hl.
  set (live := List.filter (fresh now (ot_window t)) (ot_entries t)) in *.
  assert (Hlive : ∀ e, e ∈ live ↔ e ∈ ot_entries t ∧ fresh now (ot_window t) e = true).
  { intros e. unfold live. by rewrite !list_elem_of_In, filter_In. }
  destruct (position (entry_matches ip op) live) as [i|] eqn:Hp.
  - pose proof (λ j y, position_Some_first _ _ _ j y Hp) as Hfirst.
    destruct (position_Some _ _ _ Hp) as (e & Hi & He).
    assert (Hex : ∃ e, e ∈ ot_entries t ∧ fresh now (ot_window t) e = true ∧
      entry_matches ip op e = true).
    { exists e. apply list_elem_of_lookup_2, Hlive in Hi as [? ?]. done. }
    destruct remove; cbn [andb ot_entries].
    + split; [by split|]. split; [eapply newest_first_sub; [apply sublist_delete|done]|].
      exists e. split; [done|]. split; [by apply delete_Permutation|].
      intros x Hx Hm. apply list_elem_of_lookup in Hx as [j Hj].
      destruct (decide (j < i)%nat) as [Hlt|Hge].
      * rewrite list_lookup_delete_lt in Hj by done. rewrite (Hfirst j x) in Hm by done. done.
      * rewrite list_lookup_delete_ge in Hj by lia.
        eapply (StronglySorted_lookup (λ a b, oe_inserted_at b ≤ oe_inserted_at a) live i (S j));
          [done|lia|done..].
    + by rewrite outbound_prune_spec.
  - split; [|split; [by rewrite outbound_prune_spec|by rewrite outbound_prune_spec]].
    split; [done|]. intros (e & He & Hf & Hm). apply position_None in Hp.
    rewrite Forall_forall in Hp. rewrite Hp in Hm; [done|]. by apply Hlive.
Qed.
