(* ===== verification/UploadQueue.v ===== *)
(** * The upload queue

    Models [overlord-agent-emule/src/ed2k_transfer/upload_queue.rs]: upload slots
    and the waiting queue of inbound eD2k peers. An [Instant] or [Duration] is a
    number of nanoseconds. The equality of a peer identity ignores its
    [friend_slot] flag, so the session map is keyed by the other fields
    ([canon]), while the waiting order keeps whole keys, whose flag the score
    reads. *)

From S2P Require Import Prelude Net.

(** ** Data *)

Definition DEFAULT_FILE_PRIORITY_SCORE : Z := 7.
Definition FRIEND_SLOT_SCORE_BONUS : Z := 1000000000.

Record Ed2kUploadQueueConfig : Type := mkQueueConfig {
  active_slots : Z;
  waiting_capacity : Z;
  waiting_timeout : Z;
  granted_timeout : Z;
  upload_timeout : Z;
}.
(** [Default for Ed2kUploadQueueConfig] *)
Definition default_config : Ed2kUploadQueueConfig :=
  mkQueueConfig 3 512 (180 * NANOS_PER_SEC) (30 * NANOS_PER_SEC) (90 * NANOS_PER_SEC).

Record Ed2kUploadPeerIdentity : Type := mkPeer {
  peer_ip : IpAddr;
  peer_tcp_port : Z;
  peer_user_hash : option (list Z);
  peer_client_id : option Z;
  peer_friend_slot : bool;
}.
(** What [PartialEq] and [Hash] look at. *)
Definition CPeer : Type := IpAddr * Z * option (list Z) * option Z.
Definition canon_peer (p : Ed2kUploadPeerIdentity) : CPeer :=
  (peer_ip p, peer_tcp_port p, peer_user_hash p, peer_client_id p).
Definition peer_eq (a b : Ed2kUploadPeerIdentity) : bool := bool_decide (canon_peer a = canon_peer b).

Record Ed2kUploadSessionKey : Type := mkKey {
  key_peer : Ed2kUploadPeerIdentity;
  key_file_hash : list Z;
}.
Definition CKey : Type := CPeer * list Z.
Definition canon (k : Ed2kUploadSessionKey) : CKey := (canon_peer (key_peer k), key_file_hash k).

Record Ed2kUploadSessionHandle : Type := mkHandle {
  h_key : Ed2kUploadSessionKey;
  h_connection_id : Z;
}.

Inductive Ed2kUploadSessionStatus : Type :=
| StWaiting (rank : Z)
| StGranted
| StStale.

Inductive Ed2kUploadSessionPhase : Type := PhWaiting | PhGranted | PhUploading.
#[export] Instance Ed2kUploadSessionPhase_eq_dec : EqDecision Ed2kUploadSessionPhase.
Proof. solve_decision. Defined.

Record Ed2kUploadSessionEntry : Type := mkSession {
  s_phase : Ed2kUploadSessionPhase;
  s_connection_id : Z;
  s_queued_at : Z;
  s_last_activity : Z;
  s_waiting_sequence : Z;
}.

Record Ed2kUploadQueueState : Type := mkQueue {
  q_config : Ed2kUploadQueueConfig;
  q_sessions : gmap CKey Ed2kUploadSessionEntry;
  q_waiting_order : list Ed2kUploadSessionKey;
  q_next_waiting_sequence : Z;
}.

(** ** Scores *)

Definition friend_slot_score (friend_slot : bool) : Z :=
  if friend_slot then FRIEND_SLOT_SCORE_BONUS else 0.
Definition file_priority_score (key : Ed2kUploadSessionKey) : Z := DEFAULT_FILE_PRIORITY_SCORE.
Definition is_low_id_client_id (client_id : Z) : bool :=
  negb (client_id =? 0) && (client_id <? 0x01000000).

(** [UploadScorePolicy::waiting_score] of the inputs of [waiting_score]. *)
Definition waiting_score (key : Ed2kUploadSessionKey) (session : Ed2kUploadSessionEntry) (now : Z) : Z :=
  let waiting_seconds := saturating_sub now (s_queued_at session) / NANOS_PER_SEC in
  let friend_slot := peer_friend_slot (key_peer key) &&
    negb (match peer_client_id (key_peer key) with
          | Some id => is_low_id_client_id id | None => false end) in
  waiting_seconds * file_priority_score key + friend_slot_score friend_slot.

(** ** Queries *)

Definition queue_new (config : Ed2kUploadQueueConfig) : Ed2kUploadQueueState :=
  mkQueue config ∅ [] 1.

Definition is_active (s : Ed2kUploadSessionEntry) : bool :=
  match s_phase s with PhGranted | PhUploading => true | PhWaiting => false end.
Definition active_session_count (q : Ed2kUploadQueueState) : Z :=
  Z.of_nat (countb (λ '(_, s), is_active s) (map_to_list (q_sessions q))).

Definition is_waiting_key (q : Ed2kUploadQueueState) (key : Ed2kUploadSessionKey) : bool :=
  match q_sessions q !! canon key with
  | Some session => bool_decide (s_phase session = PhWaiting)
  | None => false
  end.

(** The comparator of the ranking; the ranked keys have sessions. *)
Definition rank_cmp (q : Ed2kUploadQueueState) (now : Z) (l r : Ed2kUploadSessionKey) : comparison :=
  match q_sessions q !! canon l, q_sessions q !! canon r with
  | Some ls, Some rs =>
      then_with (waiting_score r rs now ?= waiting_score l ls now)
                (s_waiting_sequence ls ?= s_waiting_sequence rs)
  | _, _ => Eq
  end.
Definition ranked_waiting_keys (q : Ed2kUploadQueueState) (now : Z) : list Ed2kUploadSessionKey :=
  sort_by (rank_cmp q now) (List.filter (is_waiting_key q) (q_waiting_order q)).
Definition best_waiting_key (q : Ed2kUploadQueueState) (now : Z) : option Ed2kUploadSessionKey :=
  head (ranked_waiting_keys q now).
Definition worst_waiting_key (q : Ed2kUploadQueueState) (now : Z) : option Ed2kUploadSessionKey :=
  last (ranked_waiting_keys q now).

Definition key_is (ck : CKey) (k : Ed2kUploadSessionKey) : bool := bool_decide (canon k = ck).

Definition rank_for_key (q : Ed2kUploadQueueState) (key : Ed2kUploadSessionKey) (now : Z) : Z :=
  match position (key_is (canon key)) (ranked_waiting_keys q now) with
  | None => 0
  | Some position => default U16_MAX (try_from_u 16 (saturating_add 64 (Z.of_nat position) 1))
  end.

Definition status_for_key (q : Ed2kUploadQueueState) (key : Ed2kUploadSessionKey) (now : Z)
    : Ed2kUploadSessionStatus :=
  match s_phase <$> q_sessions q !! canon key with
  | Some PhWaiting => StWaiting (rank_for_key q key now)
  | Some (PhGranted | PhUploading) => StGranted
  | None => StStale
  end.

Definition session_key_for_peer (q : Ed2kUploadQueueState) (peer : Ed2kUploadPeerIdentity)
    : option CKey :=
  find (λ ck, bool_decide (fst ck = canon_peer peer)) (fst <$> map_to_list (q_sessions q)).

(** ** Updates *)

(** [waiting_order.retain(|queued| queued != key)] *)
Definition retain_not (ck : CKey) (l : list Ed2kUploadSessionKey) : list Ed2kUploadSessionKey :=
  List.filter (λ k, negb (key_is ck k)) l.

Definition set_sessions (q : Ed2kUploadQueueState) sessions waiting : Ed2kUploadQueueState :=
  mkQueue (q_config q) sessions waiting (q_next_waiting_sequence q).

(** [remove_waiting_key], and the removal of an expired session. *)
Definition remove_key (q : Ed2kUploadQueueState) (ck : CKey) : Ed2kUploadQueueState :=
  set_sessions q (delete ck (q_sessions q)) (retain_not ck (q_waiting_order q)).

Definition set_phase (p : Ed2kUploadSessionPhase) (now : Z) (s : Ed2kUploadSessionEntry)
    : Ed2kUploadSessionEntry :=
  mkSession p (s_connection_id s) (s_queued_at s) now (s_waiting_sequence s).

(** [promote_waiters]; every round takes a key out of the waiting order, so
    its length is enough fuel. *)
Fixpoint promote_loop (fuel : nat) (q : Ed2kUploadQueueState) (now : Z) : Ed2kUploadQueueState :=
  match fuel with
  | O => q
  | S fuel' =>
      if active_session_count q <? active_slots (q_config q) then
        match best_waiting_key q now with
        | None => q
        | Some next_key =>
            let waiting := retain_not (canon next_key) (q_waiting_order q) in
            let sessions :=
              match q_sessions q !! canon next_key with
              | Some s => <[canon next_key := set_phase PhGranted now s]> (q_sessions q)
              | None => q_sessions q
              end in
            promote_loop fuel' (set_sessions q sessions waiting) now
        end
      else q
  end.
Definition promote_waiters (q : Ed2kUploadQueueState) (now : Z) : Ed2kUploadQueueState :=
  promote_loop (S (length (q_waiting_order q))) q now.

Definition session_timeout (c : Ed2kUploadQueueConfig) (p : Ed2kUploadSessionPhase) : Z :=
  match p with
  | PhWaiting => waiting_timeout c
  | PhGranted => granted_timeout c
  | PhUploading => upload_timeout c
  end.
Definition is_expired (c : Ed2kUploadQueueConfig) (now : Z) (s : Ed2kUploadSessionEntry) : bool :=
  session_timeout c (s_phase s) <? saturating_sub now (s_last_activity s).

Definition reap_expired_sessions (q : Ed2kUploadQueueState) (now : Z) : Ed2kUploadQueueState :=
  let expired := omap (λ '(ck, s), if is_expired (q_config q) now s then Some ck else None)
                   (map_to_list (q_sessions q)) in
  promote_waiters (foldl remove_key q expired) now.

(** [trim_waiting_queue], with the same fuel. *)
Fixpoint trim_loop (fuel : nat) (q : Ed2kUploadQueueState) (now : Z) : Ed2kUploadQueueState :=
  match fuel with
  | O => q
  | S fuel' =>
      if waiting_capacity (q_config q) <? zlen (q_waiting_order q) then
        match worst_waiting_key q now with
        | None => q
        | Some evicted => trim_loop fuel' (remove_key q (canon evicted)) now
        end
      else q
  end.
Definition trim_waiting_queue (q : Ed2kUploadQueueState) (now : Z) : Ed2kUploadQueueState :=
  trim_loop (S (length (q_waiting_order q))) q now.

Fixpoint replace_waiting_key (existing_key : CKey) (new_key : Ed2kUploadSessionKey)
    (l : list Ed2kUploadSessionKey) : list Ed2kUploadSessionKey :=
  match l with
  | [] => []
  | queued :: l' =>
      if key_is existing_key queued then new_key :: l'
      else queued :: replace_waiting_key existing_key new_key l'
  end.

(** ** Operations *)

Definition begin_session (q : Ed2kUploadQueueState) (key : Ed2kUploadSessionKey)
    (connection_id now : Z) : Ed2kUploadQueueState * Ed2kUploadSessionStatus :=
  let q := reap_expired_sessions q now in
  match session_key_for_peer q (key_peer key) ≫= λ ck, (ck,.) <$> q_sessions q !! ck with
  | Some (existing_key, session) =>
      let waiting :=
        if bool_decide (s_phase session = PhWaiting)
        then replace_waiting_key existing_key key (q_waiting_order q)
        else q_waiting_order q in
      let session := mkSession (s_phase session) connection_id (s_queued_at session) now
                       (s_waiting_sequence session) in
      let q := set_sessions q (<[canon key := session]> (delete existing_key (q_sessions q))) waiting in
      (q, status_for_key q key now)
  | None =>
      let granted := active_session_count q <? active_slots (q_config q) in
      let phase := if granted then PhGranted else PhWaiting in
      let waiting := if granted then q_waiting_order q else q_waiting_order q ++ [key] in
      let waiting_sequence := q_next_waiting_sequence q in
      let q := mkQueue (q_config q)
        (<[canon key := mkSession phase connection_id now now waiting_sequence]> (q_sessions q))
        waiting (saturating_add 64 (q_next_waiting_sequence q) 1) in
      let q := trim_waiting_queue q now in
      (q, status_for_key q key now)
  end.

Definition poll_session (q : Ed2kUploadQueueState) (handle : Ed2kUploadSessionHandle) (now : Z)
    (refresh_activity : bool) : Ed2kUploadQueueState * Ed2kUploadSessionStatus :=
  let q := reap_expired_sessions q now in
  match q_sessions q !! canon (h_key handle) with
  | None => (q, StStale)
  | Some session =>
      if negb (s_connection_id session =? h_connection_id handle) then (q, StStale)
      else
        let q :=
          if refresh_activity then
            set_sessions q (<[canon (h_key handle) := set_phase (s_phase session) now session]>
              (q_sessions q)) (q_waiting_order q)
          else q in
        (q, status_for_key q (h_key handle) now)
  end.

Definition note_request_parts (q : Ed2kUploadQueueState) (handle : Ed2kUploadSessionHandle) (now : Z)
    : Ed2kUploadQueueState * Ed2kUploadSessionStatus :=
  let q := reap_expired_sessions q now in
  match q_sessions q !! canon (h_key handle) with
  | None => (q, StStale)
  | Some session =>
      if negb (s_connection_id session =? h_connection_id handle) then (q, StStale)
      else if is_active session then
        (set_sessions q (<[canon (h_key handle) := set_phase PhUploading now session]> (q_sessions q))
           (q_waiting_order q), StGranted)
      else
        let q := set_sessions q (<[canon (h_key handle) := set_phase (s_phase session) now session]>
                   (q_sessions q)) (q_waiting_order q) in
        (q, status_for_key q (h_key handle) now)
  end.

Definition release_session (q : Ed2kUploadQueueState) (handle : Ed2kUploadSessionHandle) (now : Z)
    : Ed2kUploadQueueState :=
  match q_sessions q !! canon (h_key handle) with
  | None => q
  | Some session =>
      if negb (s_connection_id session =? h_connection_id handle) then q
      else
        let ck := canon (h_key handle) in
        let waiting := if bool_decide (s_phase session = PhWaiting)
                       then retain_not ck (q_waiting_order q) else q_waiting_order q in
        let q := set_sessions q (delete ck (q_sessions q)) waiting in
        promote_waiters (reap_expired_sessions q now) now
  end.

(** ** Invariants *)

(** Sessions and the waiting order describe the same queue. *)
Record queue_core (q : Ed2kUploadQueueState) : Prop := {
  qc_NoDup : NoDup (canon <$> q_waiting_order q);
  qc_waiting : ∀ ck, ck ∈ canon <$> q_waiting_order q ↔
    ∃ s, q_sessions q !! ck = Some s ∧ s_phase s = PhWaiting;
  qc_peer : ∀ ck ck' s s', q_sessions q !! ck = Some s → q_sessions q !! ck' = Some s' →
    fst ck = fst ck' → ck = ck';
  qc_slots : active_session_count q ≤ active_slots (q_config q);
}.

(** No slot is free while a peer waits. *)
Definition work_conserving (q : Ed2kUploadQueueState) : Prop :=
  active_session_count q < active_slots (q_config q) → q_waiting_order q = [].

Record queue_ok (q : Ed2kUploadQueueState) : Prop := {
  qo_core : queue_core q;
  qo_capacity : zlen (q_waiting_order q) ≤ waiting_capacity (q_config q);
  qo_conserving : work_conserving q;
}.

Inductive queue_op : Type :=
| OpBegin (key : Ed2kUploadSessionKey) (connection_id now : Z)
| OpPoll (handle : Ed2kUploadSessionHandle) (now : Z) (refresh : bool)
| OpNote (handle : Ed2kUploadSessionHandle) (now : Z)
| OpRelease (handle : Ed2kUploadSessionHandle) (now : Z).
Definition run_queue_op (q : Ed2kUploadQueueState) (o : queue_op) : Ed2kUploadQueueState :=
  match o with
  | OpBegin key cid now => fst (begin_session q key cid now)
  | OpPoll h now refresh => fst (poll_session q h now refresh)
  | OpNote h now => fst (note_request_parts q h now)
  | OpRelease h now => release_session q h now
  end.

(** ** Views *)

(** The number of active sessions of a map. *)
Definition acount (m : gmap CKey Ed2kUploadSessionEntry) : nat :=
  countb (λ '(_, s), is_active s) (map_to_list m).
Definition one_if (b : bool) : nat := if b then 1%nat else 0%nat.

(** The score and arrival number of a waiter. *)
Definition rank_of (q : Ed2kUploadQueueState) (now : Z) (k : Ed2kUploadSessionKey) : Z * Z :=
  match q_sessions q !! canon k with
  | Some s => (waiting_score k s now, s_waiting_sequence s)
  | None => (0, 0)
  end.
(** [a] is served before [b]: a higher score, or the same and an earlier arrival. *)
Definition before (a b : Z * Z) : Prop := fst b < fst a ∨ fst a = fst b ∧ snd a ≤ snd b.
Definition before_cmp (a b : Z * Z) : comparison := then_with (fst b ?= fst a) (snd a ?= snd b).

(** The limits are [usize]. *)
Definition wf_config (c : Ed2kUploadQueueConfig) : Prop :=
  0 ≤ active_slots c ∧ 0 ≤ waiting_capacity c.

(** Every session of [q'] is one of [q], with the same connection. *)
Definition sessions_from (q q' : Ed2kUploadQueueState) : Prop :=
  ∀ ck s', q_sessions q' !! ck = Some s' →
    ∃ s, q_sessions q !! ck = Some s ∧ s_connection_id s = s_connection_id s'.

(** ** Lemmas *)

(** *** Counting active sessions *)

Lemma acount_insert_new m ck s : m !! ck = None →
  acount (<[ck := s]> m) = (one_if (is_active s) + acount m)%nat.
Proof. intros Hm. unfold acount. by rewrite (map_to_list_insert m ck s Hm), countb_cons. Qed.

Lemma acount_delete m ck s : m !! ck = Some s →
  acount m = (one_if (is_active s) + acount (delete ck m))%nat.
Proof. intros Hm. unfold acount. by rewrite <- (map_to_list_delete m ck s Hm), countb_cons. Qed.

Lemma acount_update m ck s s' : m !! ck = Some s →
  (acount (<[ck := s']> m) + one_if (is_active s) = acount m + one_if (is_active s'))%nat.
Proof.
  intros Hm. rewrite <- insert_delete_eq, acount_insert_new by apply lookup_delete_eq.
  rewrite (acount_delete m ck s Hm). lia.
Qed.

Lemma acount_delete_le m ck : (acount (delete ck m) ≤ acount m)%nat.
Proof.
  destruct (m !! ck) as [s|] eqn:Hm.
  - rewrite (acount_delete m ck s Hm). lia.
  - by rewrite delete_id.
Qed.

Lemma waiting_inactive s : s_phase s = PhWaiting → is_active s = false.
Proof. unfold is_active. by intros ->. Qed.

(** *** Keys of the waiting order *)

Lemma key_is_true ck k : key_is ck k = true ↔ canon k = ck.
Proof. apply bool_decide_eq_true. Qed.

Lemma retain_not_in ck l x : x ∈ canon <$> retain_not ck l ↔ x ∈ canon <$> l ∧ x ≠ ck.
Proof.
  rewrite !list_elem_of_fmap. unfold retain_not. setoid_rewrite list_elem_of_In.
  setoid_rewrite filter_In. setoid_rewrite negb_true_iff. split.
  - intros (k & -> & Hk & Hn). split; [eauto|]. by apply bool_decide_eq_false in Hn.
  - intros [(k & -> & Hk) Hn]. exists k. split; [done|]. split; [done|].
    by apply bool_decide_eq_false.
Qed.

Lemma retain_not_sublist ck l : sublist (retain_not ck l) l.
Proof.
  unfold retain_not. induction l as [|x l IH]; cbn; [constructor|].
  destruct (negb (key_is ck x)); by constructor.
Qed.

Lemma retain_not_NoDup ck l : NoDup (canon <$> l) → NoDup (canon <$> retain_not ck l).
Proof. intros H. eapply sublist_NoDup; [exact H|]. apply fmap_sublist, retain_not_sublist. Qed.

Lemma retain_not_length ck l :
  zlen (retain_not ck l) ≤ zlen l ∧
  (ck ∈ canon <$> l → (length (retain_not ck l) < length l)%nat).
Proof.
  split; [unfold zlen; pose proof (sublist_length _ _ (retain_not_sublist ck l)); lia|].
  intros (k & -> & Hk)%list_elem_of_fmap. unfold retain_not.
  induction l as [|x l IH]; [by apply not_elem_of_nil in Hk|]. cbn.
  pose proof (sublist_length _ _ (retain_not_sublist (canon k) l)) as Hs. unfold retain_not in Hs.
  apply elem_of_cons in Hk as [-> |Hk].
  - rewrite (proj2 (key_is_true (canon x) x)) by done. cbn. lia.
  - specialize (IH Hk). destruct (key_is (canon k) x); cbn; lia.
Qed.

Lemma retain_not_id ck l : ck ∉ canon <$> l → retain_not ck l = l.
Proof.
  induction l as [|x l IH]; [done|]. cbn. intros [Hx Hl]%not_elem_of_cons. unfold retain_not. cbn.
  unfold key_is at 1. rewrite bool_decide_false by congruence.
  cbn. f_equal. by apply IH.
Qed.

Lemma replace_waiting_key_perm ck new l : ck ∈ canon <$> l →
  ∃ k rest, l ≡ₚ k :: rest ∧ canon k = ck ∧ replace_waiting_key ck new l ≡ₚ new :: rest.
Proof.
  induction l as [|x l IH]; cbn; [by intros ?%not_elem_of_nil|].
  destruct (key_is ck x) eqn:Hx.
  - apply key_is_true in Hx. exists x, l. done.
  - intros [Hc|Hin]%elem_of_cons.
    { subst ck. by rewrite (proj2 (key_is_true _ _)) in Hx. }
    destruct (IH Hin) as (k & rest & Hl & Hk & Hr). exists k, (x :: rest).
    split; [by rewrite Hl; apply Permutation_swap|]. split; [done|].
    rewrite Hr. apply Permutation_swap.
Qed.

(** *** Ranking *)

Lemma before_cmp_le a b : (match before_cmp a b with Gt => false | _ => true end) = true ↔ before a b.
Proof.
  unfold before_cmp, before, then_with.
  destruct (Z.compare_spec (fst b) (fst a)), (Z.compare_spec (snd a) (snd b)); split; intros; try done; lia.
Qed.

Lemma before_cmp_total a b : cmp_le before_cmp a b = false → cmp_le before_cmp b a = true.
Proof.
  intros H. apply before_cmp_le. unfold cmp_le in H. apply not_true_iff_false in H.
  rewrite before_cmp_le in H. unfold before in *. lia.
Qed.
Lemma before_cmp_trans a b c :
  cmp_le before_cmp a b = true → cmp_le before_cmp b c = true → cmp_le before_cmp a c = true.
Proof.
  unfold cmp_le. intros H1%before_cmp_le H2%before_cmp_le. apply before_cmp_le.
  unfold before in *. lia.
Qed.

Lemma waiting_all q : queue_core q → List.filter (is_waiting_key q) (q_waiting_order q) = q_waiting_order q.
Proof.
  intros Hc. assert (H : ∀ k, k ∈ q_waiting_order q → is_waiting_key q k = true).
  { intros k Hk. destruct (proj1 (qc_waiting _ Hc (canon k))) as (s & Hs & Hp).
    - apply list_elem_of_fmap. eauto.
    - unfold is_waiting_key. by rewrite Hs, bool_decide_true. }
  revert H. generalize (q_waiting_order q). intros l. induction l as [|k l IH]; intros H; [done|].
  cbn. rewrite H by (by left). f_equal. apply IH. intros x Hx. apply H. by right.
Qed.

Lemma ranked_spec q now : queue_core q →
  ranked_waiting_keys q now ≡ₚ q_waiting_order q ∧
  StronglySorted (λ a b, before (rank_of q now a) (rank_of q now b)) (ranked_waiting_keys q now).
Proof.
  intros Hc. unfold ranked_waiting_keys. rewrite waiting_all by done.
  split; [apply sort_by_perm|].
  rewrite (sort_by_ext _ (λ a b, before_cmp (rank_of q now a) (rank_of q now b))).
  - pose proof (sort_by_ordered (λ a b, before_cmp (rank_of q now a) (rank_of q now b))) as Ho.
    assert (Hb : ∀ a b, cmp_le (λ a b, before_cmp (rank_of q now a) (rank_of q now b)) a b = true ↔
      before (rank_of q now a) (rank_of q now b)) by (intros; apply before_cmp_le).
    specialize (Ho (λ x y, before_cmp_total _ _) (λ x y z, before_cmp_trans _ _ _)
      (q_waiting_order q)).
    unfold ordered in Ho. clear Hc. induction Ho as [|x l _ IH Hx]; constructor; [done|].
    eapply Forall_impl; [exact Hx|]. intros y. exact (proj1 (Hb x y)).
  - intros x y Hx Hy. unfold rank_cmp, rank_of.
    destruct (proj1 (qc_waiting _ Hc (canon x))) as (s & -> & _); [apply list_elem_of_fmap; eauto|].
    destruct (proj1 (qc_waiting _ Hc (canon y))) as (s' & -> & _); [apply list_elem_of_fmap; eauto|].
    done.
Qed.

Lemma best_spec q now : queue_core q →
  match best_waiting_key q now with
  | None => q_waiting_order q = []
  | Some k => k ∈ q_waiting_order q ∧
      ∀ x, x ∈ q_waiting_order q → before (rank_of q now k) (rank_of q now x)
  end.
Proof.
  intros Hc. destruct (ranked_spec q now Hc) as [Hp Hs]. unfold best_waiting_key.
  destruct (ranked_waiting_keys q now) as [|k l]; cbn.
  - symmetry in Hp. by apply Permutation_nil_r in Hp.
  - apply StronglySorted_inv in Hs as [_ Hk]. rewrite Forall_forall in Hk.
    split; [rewrite <- Hp; by left|]. intros x Hx. rewrite <- Hp in Hx.
    apply elem_of_cons in Hx as [-> |Hx]; [|by apply Hk]. unfold before. lia.
Qed.

Lemma worst_spec q now : queue_core q →
  match worst_waiting_key q now with
  | None => q_waiting_order q = []
  | Some k => k ∈ q_waiting_order q
  end.
Proof.
  intros Hc. destruct (ranked_spec q now Hc) as [Hp _]. unfold worst_waiting_key.
  destruct (last (ranked_waiting_keys q now)) as [k|] eqn:Hl.
  - rewrite <- Hp. by apply last_Some_elem_of.
  - apply last_None in Hl. rewrite Hl in Hp. symmetry in Hp. by apply Permutation_nil_r in Hp.
Qed.

(** *** Preservation *)

Lemma active_acount q : active_session_count q = Z.of_nat (acount (q_sessions q)).
Proof. done. Qed.

(** Replacing a session by one of the same phase. *)
Lemma touch_core q ck s s' : queue_core q → q_sessions q !! ck = Some s → s_phase s' = s_phase s →
  queue_core (set_sessions q (<[ck := s']> (q_sessions q)) (q_waiting_order q)) ∧
  active_session_count (set_sessions q (<[ck := s']> (q_sessions q)) (q_waiting_order q)) =
  active_session_count q.
Proof.
  intros [Hnd Hw Hp Hsl] Hs Hph.
  assert (Hact : active_session_count (set_sessions q (<[ck := s']> (q_sessions q)) (q_waiting_order q))
    = active_session_count q).
  { rewrite !active_acount. cbn [q_sessions set_sessions]. pose proof (acount_update _ ck s s' Hs) as H.
    unfold is_active in H. rewrite Hph in H. lia. }
  split; [|done]. split; cbn [set_sessions q_sessions q_waiting_order q_config]; [done| | |by rewrite Hact].
  - intros x. rewrite Hw. destruct (decide (x = ck)) as [-> |Hne].
    + rewrite lookup_insert_eq, Hs. split; intros (t & [= <-] & ?); eexists; (split; [done|congruence]).
    + by rewrite lookup_insert_ne.
  - intros a b sa sb. rewrite !lookup_insert_Some. naive_solver.
Qed.

(** A granted session starts or goes on uploading. *)
Lemma upload_core q ck s s' : queue_core q → q_sessions q !! ck = Some s →
  is_active s = true → is_active s' = true →
  queue_core (set_sessions q (<[ck := s']> (q_sessions q)) (q_waiting_order q)) ∧
  active_session_count (set_sessions q (<[ck := s']> (q_sessions q)) (q_waiting_order q)) =
  active_session_count q.
Proof.
  intros [Hnd Hw Hp Hsl] Hs Ha Ha'.
  assert (Hact : active_session_count (set_sessions q (<[ck := s']> (q_sessions q)) (q_waiting_order q))
    = active_session_count q).
  { rewrite !active_acount. cbn [q_sessions set_sessions]. pose proof (acount_update _ ck s s' Hs) as H.
    rewrite Ha, Ha' in H. lia. }
  split; [|done]. split; cbn [set_sessions q_sessions q_waiting_order q_config]; [done| | |by rewrite Hact].
  - intros x. rewrite Hw. destruct (decide (x = ck)) as [-> |Hne].
    + rewrite lookup_insert_eq, Hs. split; intros (t & [= <-] & Ht);
        apply waiting_inactive in Ht; congruence.
    + by rewrite lookup_insert_ne.
  - intros a b sa sb. rewrite !lookup_insert_Some. naive_solver.
Qed.

Lemma remove_key_core q ck : queue_core q → queue_core (remove_key q ck) ∧
  active_session_count (remove_key q ck) ≤ active_session_count q ∧
  zlen (q_waiting_order (remove_key q ck)) ≤ zlen (q_waiting_order q) ∧
  q_config (remove_key q ck) = q_config q.
Proof.
  intros [Hnd Hw Hp Hsl].
  assert (Hact : active_session_count (remove_key q ck) ≤ active_session_count q).
  { rewrite !active_acount. cbn. pose proof (acount_delete_le (q_sessions q) ck). lia. }
  split; [|split; [done|]; split; [apply retain_not_length|done]].
  split; cbn [remove_key set_sessions q_sessions q_waiting_order q_config].
  - by apply retain_not_NoDup.
  - intros x. rewrite retain_not_in, Hw. setoid_rewrite lookup_delete_Some. naive_solver.
  - intros a b sa sb. rewrite !lookup_delete_Some. naive_solver.
  - etransitivity; [exact Hact|done].
Qed.

(** Granting a slot to a waiter. *)
Lemma grant_core q ck s now : queue_core q → q_sessions q !! ck = Some s → s_phase s = PhWaiting →
  active_session_count q < active_slots (q_config q) →
  queue_core (set_sessions q (<[ck := set_phase PhGranted now s]> (q_sessions q))
    (retain_not ck (q_waiting_order q))).
Proof.
  intros [Hnd Hw Hp Hsl] Hs Hph Hlt. split; cbn [set_sessions q_sessions q_waiting_order q_config].
  - by apply retain_not_NoDup.
  - intros x. rewrite retain_not_in, Hw. destruct (decide (x = ck)) as [-> |Hne].
    + rewrite lookup_insert_eq. split; [naive_solver|]. by intros (t & [= <-] & ?).
    + rewrite lookup_insert_ne by done. naive_solver.
  - intros a b sa sb. rewrite !lookup_insert_Some. naive_solver.
  - rewrite active_acount in *. cbn [q_sessions set_sessions].
    pose proof (acount_update _ ck s (set_phase PhGranted now s) Hs) as H.
    rewrite waiting_inactive in H by done. cbn in H. lia.
Qed.

Lemma promote_loop_ok fuel q now : queue_core q → (length (q_waiting_order q) < fuel)%nat →
  queue_core (promote_loop fuel q now) ∧ work_conserving (promote_loop fuel q now) ∧
  zlen (q_waiting_order (promote_loop fuel q now)) ≤ zlen (q_waiting_order q) ∧
  q_config (promote_loop fuel q now) = q_config q.
Proof.
  revert q; induction fuel as [|fuel IH]; intros q Hc Hf; [lia|]. cbn [promote_loop].
  destruct (Z.ltb_spec (active_session_count q) (active_slots (q_config q))) as [Hlt|Hge].
  2:{ split; [done|]. split; [|done]. unfold work_conserving. lia. }
  pose proof (best_spec q now Hc) as Hb. destruct (best_waiting_key q now) as [k|].
  2:{ split; [done|]. split; [|done]. by intros _. }
  destruct Hb as [Hk _].
  assert (Hin : canon k ∈ canon <$> q_waiting_order q) by (apply list_elem_of_fmap; eauto).
  destruct (proj1 (qc_waiting _ Hc (canon k)) Hin) as (s & Hs & Hph). rewrite Hs.
  pose proof (grant_core q (canon k) s now Hc Hs Hph Hlt) as Hc'.
  destruct (retain_not_length (canon k) (q_waiting_order q)) as [Hle Hlen]. specialize (Hlen Hin).
  destruct (IH _ Hc') as (H1 & H2 & H3 & H4); [cbn; lia|].
  split; [done|]. split; [done|]. split; [cbn in H3; lia|]. by rewrite H4.
Qed.

Lemma promote_ok q now : queue_core q →
  queue_core (promote_waiters q now) ∧ work_conserving (promote_waiters q now) ∧
  zlen (q_waiting_order (promote_waiters q now)) ≤ zlen (q_waiting_order q) ∧
  q_config (promote_waiters q now) = q_config q.
Proof. intros Hc. apply promote_loop_ok; [done|lia]. Qed.

Lemma remove_keys_core l q : queue_core q → queue_core (foldl remove_key q l) ∧
  zlen (q_waiting_order (foldl remove_key q l)) ≤ zlen (q_waiting_order q) ∧
  q_config (foldl remove_key q l) = q_config q.
Proof.
  revert q; induction l as [|ck l IH]; intros q Hc; [done|]. cbn [foldl].
  destruct (remove_key_core q ck Hc) as (H1 & _ & H2 & H3).
  destruct (IH _ H1) as (H4 & H5 & H6). split; [done|]. split; [lia|congruence].
Qed.

Lemma reap_ok q now : queue_core q → zlen (q_waiting_order q) ≤ waiting_capacity (q_config q) →
  queue_ok (reap_expired_sessions q now) ∧ q_config (reap_expired_sessions q now) = q_config q.
Proof.
  intros Hc Hcap. unfold reap_expired_sessions. set (l := omap _ _).
  destruct (remove_keys_core l q Hc) as (H1 & H2 & H3).
  destruct (promote_ok _ now H1) as (H4 & H5 & H6 & H7).
  split; [|congruence]. split; [done|rewrite H7, H3; lia|done].
Qed.

Lemma trim_loop_ok fuel q now : 0 ≤ waiting_capacity (q_config q) → queue_core q →
  (length (q_waiting_order q) < fuel)%nat →
  queue_core (trim_loop fuel q now) ∧
  zlen (q_waiting_order (trim_loop fuel q now)) ≤ waiting_capacity (q_config q) ∧
  active_session_count (trim_loop fuel q now) = active_session_count q ∧
  q_config (trim_loop fuel q now) = q_config q ∧
  (q_waiting_order q = [] → q_waiting_order (trim_loop fuel q now) = []).
Proof.
  intros Hcap. revert q Hcap; induction fuel as [|fuel IH]; intros q Hcap Hc Hf; [lia|].
  cbn [trim_loop].
  destruct (Z.ltb_spec (waiting_capacity (q_config q)) (zlen (q_waiting_order q))) as [Hlt|Hge]; [|done].
  pose proof (worst_spec q now Hc) as Hw. destruct (worst_waiting_key q now) as [k|].
  2:{ rewrite Hw in Hlt. rewrite zlen_nil in Hlt. lia. }
  assert (Hin : canon k ∈ canon <$> q_waiting_order q) by (apply list_elem_of_fmap; eauto).
  destruct (proj1 (qc_waiting _ Hc (canon k)) Hin) as (s & Hs & Hph).
  destruct (remove_key_core q (canon k) Hc) as (H1 & _ & H3 & H4).
  destruct (retain_not_length (canon k) (q_waiting_order q)) as [_ Hlen]. specialize (Hlen Hin).
  destruct (IH (remove_key q (canon k))) as (H5 & H6 & H7 & H8 & H9); [done|done|cbn; lia|].
  split; [done|]. split; [done|]. split.
  { rewrite H7, !active_acount. cbn. rewrite (acount_delete _ _ _ Hs), waiting_inactive by done. done. }
  split; [congruence|]. intros Hn. rewrite Hn in Hlt. rewrite zlen_nil in Hlt. lia.
Qed.

Lemma session_key_for_peer_spec q peer :
  match session_key_for_peer q peer with
  | Some ck => fst ck = canon_peer peer ∧ is_Some (q_sessions q !! ck)
  | None => ∀ ck s, q_sessions q !! ck = Some s → fst ck ≠ canon_peer peer
  end.
Proof.
  unfold session_key_for_peer. destruct (find _ _) as [ck|] eqn:Hf.
  - apply find_some in Hf as [Hin Hp]. apply bool_decide_eq_true in Hp. split; [done|].
    apply list_elem_of_In, list_elem_of_fmap in Hin as ([ck' s] & -> & Hin).
    apply elem_of_map_to_list in Hin. by exists s.
  - intros ck s Hs Hp. eapply find_none in Hf as Hn.
    + by apply bool_decide_eq_false in Hn.
    + apply list_elem_of_In, list_elem_of_fmap. exists (ck, s). split; [done|].
      by apply elem_of_map_to_list.
Qed.

(** A peer that comes back takes over its session: the session map and the waiting
    order afterwards. *)
Definition taken_over (q : Ed2kUploadQueueState) (ck : CKey) (key : Ed2kUploadSessionKey)
    (s s' : Ed2kUploadSessionEntry) : Ed2kUploadQueueState :=
  set_sessions q (<[canon key := s']> (delete ck (q_sessions q)))
    (if bool_decide (s_phase s = PhWaiting)
     then replace_waiting_key ck key (q_waiting_order q) else q_waiting_order q).

Section takeover.
Context (q : Ed2kUploadQueueState) (ck : CKey) (key : Ed2kUploadSessionKey).
Context (s s' : Ed2kUploadSessionEntry).
Hypothesis Hc : queue_core q.
Hypothesis Hs : q_sessions q !! ck = Some s.
Hypothesis Hpeer : fst ck = fst (canon key).
Hypothesis Hph : s_phase s' = s_phase s.
Let q' := taken_over q ck key s s'.

Lemma takeover_key : q_sessions q' !! canon key = Some s'.
Proof. apply lookup_insert_eq. Qed.

Lemma takeover_other x t : x ≠ canon key →
  q_sessions q' !! x = Some t ↔ x ≠ ck ∧ q_sessions q !! x = Some t.
Proof.
  intros Hx. cbn [q_sessions set_sessions taken_over q']. rewrite lookup_insert_ne by done.
  rewrite lookup_delete_Some. naive_solver.
Qed.

Lemma takeover_unique x t : q_sessions q !! x = Some t → x ≠ ck → x ≠ canon key.
Proof. intros Hx Hne ->. apply Hne. by eapply (qc_peer _ Hc). Qed.

Lemma takeover_waiting :
  NoDup (canon <$> q_waiting_order q') ∧
  (∀ x, x ∈ canon <$> q_waiting_order q' ↔
     ∃ t, q_sessions q' !! x = Some t ∧ s_phase t = PhWaiting) ∧
  length (q_waiting_order q') = length (q_waiting_order q).
Proof.
  pose proof takeover_key as Hkey. pose proof takeover_other as Hother.
  destruct Hc as [Hnd Hw Hp _]. change (q_waiting_order q') with
    (if bool_decide (s_phase s = PhWaiting)
     then replace_waiting_key ck key (q_waiting_order q) else q_waiting_order q).
  case_bool_decide as Hwp.
  - destruct (replace_waiting_key_perm ck key (q_waiting_order q)) as (k & rest & Hl & Hk & Hr).
    { apply Hw. eauto. }
    rewrite Hl in Hnd. cbn in Hnd. rewrite Hk in Hnd. apply NoDup_cons in Hnd as [Hnck Hnd].
    assert (Hrest : ∀ x, x ∈ canon <$> rest ↔ x ≠ ck ∧ ∃ t, q_sessions q !! x = Some t ∧
      s_phase t = PhWaiting).
    { intros x. rewrite <- Hw, Hl. cbn. rewrite Hk, elem_of_cons.
      split; [|naive_solver]. intros Hx. split; [|by right]. intros ->. done. }
    split; [|split].
    + rewrite Hr. cbn. apply NoDup_cons. split; [|done]. rewrite Hrest. intros (Hne & t & Ht & _).
      by eapply takeover_unique.
    + intros x. rewrite Hr, fmap_cons, elem_of_cons, Hrest. destruct (decide (x = canon key)) as [-> |Hx].
      * rewrite Hkey. split; [|by left]. intros _. exists s'. split; [done|congruence].
      * setoid_rewrite (λ t, Hother x t Hx). naive_solver.
    + by rewrite (Permutation_length Hr), (Permutation_length Hl).
  - assert (Hold : ∀ t, q_sessions q !! ck = Some t → s_phase t ≠ PhWaiting) by (intros t; congruence).
    split; [done|]. split; [|done]. intros x. rewrite Hw.
    destruct (decide (x = canon key)) as [-> |Hx].
    + rewrite Hkey. split; [|intros (t & [= <-] & ?); congruence].
      intros (t & Ht & Htp). assert (canon key = ck) as He by (by eapply Hp).
      rewrite He in Ht. by destruct (Hold t Ht).
    + setoid_rewrite (λ t, Hother x t Hx). split; [|naive_solver].
      intros (t & Ht & Htp). exists t. split; [|done]. split; [|done]. intros ->. by destruct (Hold t Ht).
Qed.

Lemma takeover_core :
  queue_core q' ∧ active_session_count q' = active_session_count q ∧
  length (q_waiting_order q') = length (q_waiting_order q).
Proof.
  destruct takeover_waiting as (H1 & H2 & H3). pose proof (qc_peer _ Hc) as Hp.
  assert (Hnew : delete ck (q_sessions q) !! canon key = None).
  { apply lookup_delete_None. destruct (q_sessions q !! canon key) as [t|] eqn:Ht; [|by right].
    left. by eapply Hp. }
  assert (Hact : active_session_count q' = active_session_count q).
  { rewrite !active_acount. cbn [q_sessions set_sessions taken_over q'].
    rewrite acount_insert_new, (acount_delete _ ck s Hs) by done. unfold is_active. by rewrite Hph. }
  split; [|done]. split; [done|done| |rewrite Hact; apply Hc].
  intros a b sa sb Ha Hb Hab.
  destruct (decide (a = canon key)) as [-> |Hna], (decide (b = canon key)) as [-> |Hnb]; [done|..].
  - apply (takeover_other _ _ Hnb) in Hb as [Hb1 Hb2]. exfalso. apply Hb1.
    eapply Hp; [exact Hb2|exact Hs|congruence].
  - apply (takeover_other _ _ Hna) in Ha as [Ha1 Ha2]. exfalso. apply Ha1.
    eapply Hp; [exact Ha2|exact Hs|congruence].
  - apply (takeover_other _ _ Hna) in Ha as [_ Ha]. apply (takeover_other _ _ Hnb) in Hb as [_ Hb].
    by eapply Hp.
Qed.
End takeover.

(** A new session, granted when a slot is free and queued otherwise. *)
Lemma admit_core q key s seq granted : queue_core q →
  (∀ ck t, q_sessions q !! ck = Some t → fst ck ≠ fst (canon key)) →
  granted = (active_session_count q <? active_slots (q_config q)) →
  s_phase s = (if granted then PhGranted else PhWaiting) →
  let q' := mkQueue (q_config q) (<[canon key := s]> (q_sessions q))
    (if granted then q_waiting_order q else q_waiting_order q ++ [key]) seq in
  queue_core q' ∧ active_session_count q' = active_session_count q + (if granted then 1 else 0).
Proof.
  intros [Hnd Hw Hp Hsl] Hnew Hg Hph q'.
  assert (Hnone : q_sessions q !! canon key = None).
  { destruct (q_sessions q !! canon key) as [t|] eqn:Ht; [|done]. by destruct (Hnew _ _ Ht). }
  assert (Hact : active_session_count q' = active_session_count q + (if granted then 1 else 0)).
  { rewrite !active_acount. cbn [q_sessions q']. rewrite acount_insert_new by done.
    unfold is_active. rewrite Hph. destruct granted; cbn [one_if]; lia. }
  assert (Hnin : canon key ∉ canon <$> q_waiting_order q).
  { rewrite Hw. intros (t & Ht & _). congruence. }
  split; [|done]. split; cbn [q_sessions q_waiting_order q_config q'].
  - destruct granted; [done|]. rewrite fmap_app, Permutation_app_comm. cbn. by apply NoDup_cons.
  - intros x. destruct (decide (x = canon key)) as [-> |Hx].
    + rewrite lookup_insert_eq. destruct granted.
      * split; [done|]. intros (t & [= <-] & ?). congruence.
      * split; [eauto|]. intros _. rewrite fmap_app, elem_of_app. right. by left.
    + rewrite lookup_insert_ne by done. rewrite <- Hw. destruct granted; [done|].
      rewrite fmap_app, elem_of_app. cbn. rewrite list_elem_of_singleton. naive_solver.
  - intros a b sa sb Ha Hb Hab.
    apply lookup_insert_Some in Ha as [[<- _]|[Hna Ha]]; apply lookup_insert_Some in Hb as [[<- _]|[Hnb Hb]];
      [done|..|by eapply Hp].
    + by destruct (Hnew _ _ Hb).
    + by destruct (Hnew _ _ Ha).
  - fold q'. rewrite Hact. destruct granted; [|lia]. symmetry in Hg. apply Z.ltb_lt in Hg. lia.
Qed.

Lemma begin_ok q key cid now : wf_config (q_config q) → queue_ok q →
  queue_ok (fst (begin_session q key cid now)) ∧
  q_config (fst (begin_session q key cid now)) = q_config q.
Proof.
  intros [_ Hcap] [Hc Hlen _]. unfold begin_session.
  destruct (reap_ok q now Hc Hlen) as [[Hc1 Hlen1 Hwc1] Hcfg1].
  set (q1 := reap_expired_sessions q now) in *. clearbody q1.
  pose proof (session_key_for_peer_spec q1 (key_peer key)) as Hpeer.
  destruct (session_key_for_peer q1 (key_peer key)) as [ck|]; cbn [mbind option_bind].
  - destruct Hpeer as [Hfst [s Hs]]. rewrite Hs. cbn [fmap option_fmap option_map fst].
    destruct (takeover_core q1 ck key s
      (mkSession (s_phase s) cid (s_queued_at s) now (s_waiting_sequence s)) Hc1 Hs Hfst eq_refl)
      as (H1 & H2 & H3). unfold taken_over in *.
    split; [|done]. split; [done|..].
    + cbn [set_sessions q_waiting_order q_config] in *. unfold zlen in *. rewrite H3. lia.
    + unfold work_conserving in *. intros Hlt. apply nil_length_inv.
      transitivity (length (q_waiting_order q1)); [exact H3|]. rewrite Hwc1; [done|].
      rewrite <- H2. exact Hlt.
  - set (granted := active_session_count q1 <? active_slots (q_config q1)).
    destruct (admit_core q1 key (mkSession (if granted then PhGranted else PhWaiting) cid now now
      (q_next_waiting_sequence q1)) (saturating_add 64 (q_next_waiting_sequence q1) 1) granted
      Hc1 Hpeer eq_refl eq_refl) as [H1 H2].
    set (q2 := mkQueue _ _ _ _) in *. cbn [fst]. unfold trim_waiting_queue.
    destruct (trim_loop_ok (S (length (q_waiting_order q2))) q2 now) as (H3 & H4 & H5 & H6 & H7);
      [cbn [q2 q_config]; rewrite Hcfg1; lia|done|lia|].
    split; [|rewrite H6; exact Hcfg1]. split; [done|by rewrite H6|].
    unfold work_conserving in *. rewrite H5, H6, H2. cbn [q2 q_config]. intros Hlt. apply H7.
    cbn [q2 q_waiting_order]. unfold granted in *.
    destruct (Z.ltb_spec (active_session_count q1) (active_slots (q_config q1))) as [Hl|Hg];
      [by apply Hwc1|lia].
Qed.

Lemma touch_ok q ck s s' : queue_ok q → q_sessions q !! ck = Some s →
  s_phase s' = s_phase s ∨ is_active s = true ∧ is_active s' = true →
  queue_ok (set_sessions q (<[ck := s']> (q_sessions q)) (q_waiting_order q)).
Proof.
  intros [Hc Hlen Hwc] Hs Hph.
  assert (H : queue_core (set_sessions q (<[ck := s']> (q_sessions q)) (q_waiting_order q)) ∧
    active_session_count (set_sessions q (<[ck := s']> (q_sessions q)) (q_waiting_order q)) =
    active_session_count q).
  { destruct Hph as [Hph|[Ha Ha']]; [by eapply touch_core|by eapply upload_core]. }
  destruct H as [H1 H2]. split; [done|done|]. unfold work_conserving in *. by rewrite H2.
Qed.

Lemma poll_ok q h now refresh : queue_ok q → queue_ok (fst (poll_session q h now refresh)) ∧
  q_config (fst (poll_session q h now refresh)) = q_config q.
Proof.
  intros [Hc Hlen _]. unfold poll_session. destruct (reap_ok q now Hc Hlen) as [Hok Hcfg].
  destruct (q_sessions (reap_expired_sessions q now) !! canon (h_key h)) as [s|] eqn:Hs; [|done].
  destruct (negb _); [done|]. destruct refresh; [|done].
  split; [|done]. eapply touch_ok; [done..|by left].
Qed.

Lemma note_ok q h now : queue_ok q → queue_ok (fst (note_request_parts q h now)) ∧
  q_config (fst (note_request_parts q h now)) = q_config q.
Proof.
  intros [Hc Hlen _]. unfold note_request_parts. destruct (reap_ok q now Hc Hlen) as [Hok Hcfg].
  destruct (q_sessions (reap_expired_sessions q now) !! canon (h_key h)) as [s|] eqn:Hs; [|done].
  destruct (negb _); [done|]. destruct (is_active s) eqn:Ha.
  - split; [|done]. eapply touch_ok; [done..|by right].
  - split; [|done]. eapply touch_ok; [done..|by left].
Qed.

Lemma release_ok q h now : queue_ok q → queue_ok (release_session q h now) ∧
  q_config (release_session q h now) = q_config q.
Proof.
  intros Hok. pose proof Hok as [Hc Hlen Hwc]. unfold release_session.
  destruct (q_sessions q !! canon (h_key h)) as [s|] eqn:Hs; [|done].
  destruct (negb _); [done|].
  assert (Hsame : (if bool_decide (s_phase s = PhWaiting)
    then retain_not (canon (h_key h)) (q_waiting_order q) else q_waiting_order q) =
    retain_not (canon (h_key h)) (q_waiting_order q)).
  { case_bool_decide as Hw; [done|]. symmetry. apply retain_not_id.
    rewrite (qc_waiting _ Hc). intros (t & Ht & Htp). congruence. }
  rewrite Hsame. fold (remove_key q (canon (h_key h))).
  destruct (remove_key_core q (canon (h_key h)) Hc) as (H1 & _ & H2 & H3).
  destruct (reap_ok (remove_key q (canon (h_key h))) now H1) as [[H4 H5 _] H6];
    [rewrite H3; lia|].
  destruct (promote_ok _ now H4) as (H7 & H8 & H9 & H10).
  split; [|by rewrite H10, H6]. split; [done|rewrite H10; lia|done].
Qed.

Lemma run_queue_op_ok q o : wf_config (q_config q) → queue_ok q →
  queue_ok (run_queue_op q o) ∧ q_config (run_queue_op q o) = q_config q.
Proof.
  intros Hw Hok. destruct o; cbn [run_queue_op].
  - by apply begin_ok.
  - by apply poll_ok.
  - by apply note_ok.
  - by apply release_ok.
Qed.

Lemma queue_new_ok c : wf_config c → queue_ok (queue_new c).
Proof.
  intros [Ha Hc]. split; [split|..]; cbn.
  - constructor.
  - intros ck. setoid_rewrite lookup_empty. split; [by intros ?%not_elem_of_nil|naive_solver].
  - intros ck ck' s s' H. by rewrite lookup_empty in H.
  - unfold active_session_count. cbn [q_sessions queue_new]. by rewrite map_to_list_empty.
  - by rewrite zlen_nil.
  - done.
Qed.

(** *** Sessions keep their connection *)

Lemma sessions_from_trans a b c : sessions_from a b → sessions_from b c → sessions_from a c.
Proof.
  intros H1 H2 ck s Hs. destruct (H2 ck s Hs) as (s1 & Hs1 & He1).
  destruct (H1 ck s1 Hs1) as (s2 & Hs2 & He2). exists s2. split; [done|congruence].
Qed.

Lemma remove_key_from q ck : sessions_from q (remove_key q ck).
Proof. intros x s Hs. cbn in Hs. apply lookup_delete_Some in Hs as [_ Hs]. eauto. Qed.

Lemma promote_loop_from fuel q now : sessions_from q (promote_loop fuel q now).
Proof.
  revert q; induction fuel as [|fuel IH]; intros q; cbn [promote_loop]; [by intros ck s Hs; eauto|].
  destruct (_ <? _); [|by intros ck s Hs; eauto].
  destruct (best_waiting_key q now) as [k|]; [|by intros ck s Hs; eauto].
  eapply sessions_from_trans; [|apply IH]. intros ck s Hs. cbn [set_sessions q_sessions] in Hs.
  destruct (q_sessions q !! canon k) as [s0|] eqn:Hk; [|eauto].
  apply lookup_insert_Some in Hs as [[<- <-]|[_ Hs]]; eauto.
Qed.

Lemma reap_from q now : sessions_from q (reap_expired_sessions q now).
Proof.
  unfold reap_expired_sessions, promote_waiters.
  eapply sessions_from_trans; [|apply promote_loop_from].
  set (l := omap _ _). clearbody l. revert q; induction l as [|ck l IH]; intros q; cbn [foldl].
  - intros ck s Hs. eauto.
  - eapply sessions_from_trans; [apply remove_key_from|apply IH].
Qed.

Lemma trim_loop_from fuel q now : sessions_from q (trim_loop fuel q now).
Proof.
  revert q; induction fuel as [|fuel IH]; intros q; cbn [trim_loop]; [by intros ck s Hs; eauto|].
  destruct (_ <? _); [|by intros ck s Hs; eauto].
  destruct (worst_waiting_key q now) as [k|]; [|by intros ck s Hs; eauto].
  eapply sessions_from_trans; [apply remove_key_from|apply IH].
Qed.

(** After [begin_session], the peer's only session has the new connection. *)
Lemma begin_connection q key cid now ck s : queue_ok q →
  q_sessions (fst (begin_session q key cid now)) !! ck = Some s →
  fst ck = canon_peer (key_peer key) → s_connection_id s = cid.
Proof.
  intros [Hc Hlen _] Hs Hck. unfold begin_session in Hs.
  destruct (reap_ok q now Hc Hlen) as [[Hc1 _ _] _].
  set (q1 := reap_expired_sessions q now) in *. clearbody q1.
  pose proof (session_key_for_peer_spec q1 (key_peer key)) as Hpeer.
  destruct (session_key_for_peer q1 (key_peer key)) as [ck0|]; cbn [mbind option_bind] in Hs.
  - destruct Hpeer as [Hfst [s0 Hs0]]. rewrite Hs0 in Hs.
    cbn [fmap option_fmap option_map fst set_sessions q_sessions] in Hs.
    apply lookup_insert_Some in Hs as [[_ <-]|[_ Hs]]; [done|].
    apply lookup_delete_Some in Hs as [Hne Hs]. destruct Hne.
    eapply (qc_peer _ Hc1); [exact Hs0|exact Hs|congruence].
  - cbn [fst] in Hs. apply trim_loop_from in Hs as (s1 & Hs1 & <-). cbn [q_sessions] in Hs1.
    apply lookup_insert_Some in Hs1 as [[_ <-]|[_ Hs1]]; [done|]. by destruct (Hpeer ck s1 Hs1).
Qed.

(** *** Priorities *)

Lemma rank_of_other q now k s waiting x : canon x ≠ canon k →
  rank_of (set_sessions q (<[canon k := s]> (q_sessions q)) waiting) now x = rank_of q now x.
Proof. intros Hne. unfold rank_of. cbn [set_sessions q_sessions]. by rewrite lookup_insert_ne. Qed.

Lemma promote_loop_sub fuel q now :
  sublist (q_waiting_order (promote_loop fuel q now)) (q_waiting_order q).
Proof.
  revert q; induction fuel as [|fuel IH]; intros q; cbn [promote_loop]; [done|].
  destruct (_ <? _); [|done]. destruct (best_waiting_key q now) as [k|]; [|done].
  etransitivity; [apply IH|]. apply retain_not_sublist.
Qed.

Lemma promote_loop_priority fuel q now x y : queue_core q →
  x ∈ q_waiting_order q → y ∈ q_waiting_order q →
  canon x ∉ canon <$> q_waiting_order (promote_loop fuel q now) →
  canon y ∈ canon <$> q_waiting_order (promote_loop fuel q now) →
  before (rank_of q now x) (rank_of q now y).
Proof.
  revert q; induction fuel as [|fuel IH]; intros q Hc Hx Hy Hgone Hstill.
  { destruct Hgone. apply list_elem_of_fmap. eauto. }
  cbn [promote_loop] in *.
  destruct (Z.ltb_spec (active_session_count q) (active_slots (q_config q))) as [Hlt|Hge].
  2:{ destruct Hgone. apply list_elem_of_fmap. eauto. }
  pose proof (best_spec q now Hc) as Hb. destruct (best_waiting_key q now) as [k|].
  2:{ destruct Hgone. apply list_elem_of_fmap. eauto. }
  destruct Hb as [Hk Hbest].
  assert (Hin : canon k ∈ canon <$> q_waiting_order q) by (apply list_elem_of_fmap; eauto).
  destruct (proj1 (qc_waiting _ Hc (canon k)) Hin) as (s & Hs & Hph). rewrite Hs in *.
  pose proof (grant_core q (canon k) s now Hc Hs Hph Hlt) as Hc'.
  assert (Hyk : canon y ≠ canon k).
  { apply list_elem_of_fmap in Hstill as (z & Hz & Hin'). eapply elem_of_sublist in Hin';
      [|apply promote_loop_sub]. cbn [set_sessions q_waiting_order] in Hin'.
    rewrite Hz. eapply (retain_not_in (canon k) (q_waiting_order q)). apply list_elem_of_fmap. eauto. }
  destruct (decide (canon x = canon k)) as [He|Hxk].
  - assert (x = k) as ->; [|by apply Hbest].
    pose proof (qc_NoDup _ Hc) as Hnd. apply list_elem_of_lookup in Hx as [i Hi], Hk as [j Hj].
    assert (i = j) as ->; [|congruence]. eapply (NoDup_lookup (canon <$> q_waiting_order q));
      [done|by rewrite list_lookup_fmap, Hi|rewrite list_lookup_fmap, Hj; cbn; by rewrite He].
  - rewrite <- (rank_of_other q now k (set_phase PhGranted now s)
      (retain_not (canon k) (q_waiting_order q)) x) by done.
    rewrite <- (rank_of_other q now k (set_phase PhGranted now s)
      (retain_not (canon k) (q_waiting_order q)) y) by done.
    assert (Hkeep : ∀ z, z ∈ q_waiting_order q → canon z ≠ canon k →
      z ∈ retain_not (canon k) (q_waiting_order q)).
    { intros z Hz Hne. apply list_elem_of_In, filter_In. split; [by apply list_elem_of_In|].
      unfold key_is. by rewrite bool_decide_false. }
    apply IH; try done; by apply Hkeep.
Qed.

(** ** Correctness of the upload queue *)

(** After every sequence of operations, with any clock readings: at most
    [active_slots] sessions are granted or uploading, at most [waiting_capacity]
    peers wait, a peer has at most one session, the waiting order lists exactly
    the waiting sessions, each once, and no slot is free while a peer waits. *)
Lemma upload_queue_invariant config ops :
  wf_config config → queue_ok (foldl run_queue_op (queue_new config) ops).
Proof.
  intros Hc. pose proof (queue_new_ok config Hc) as H0.
  assert (Hcfg : wf_config (q_config (queue_new config))) by done.
  revert H0 Hcfg. generalize (queue_new config). induction ops as [|o ops IH]; intros q Hok Hw; [done|].
  cbn [foldl]. destruct (run_queue_op_ok q o Hw Hok) as [H1 H2]. apply IH; [done|by rewrite H2].
Qed.

Lemma upload_queue_invariant_example :
  let peer n := mkPeer (V4 (80, 1, 2, n)) 4662 None None false in
  queue_ok (foldl run_queue_op (queue_new (mkQueueConfig 1 2 100 100 100))
    [OpBegin (mkKey (peer 1) [97]) 1 0; OpBegin (mkKey (peer 2) [97]) 2 1;
     OpRelease (mkHandle (mkKey (peer 1) [97]) 1) 5]).
Proof. cbn zeta. apply (upload_queue_invariant (mkQueueConfig 1 2 100 100 100)). split; cbn; lia. Defined.

(** Slots go to waiters by priority: when [promote_waiters] grants a slot to
    one waiter and leaves another waiting, the first has the higher score, or the
    same score and the earlier arrival. *)
Lemma promotion_priority q now x y :
  queue_core q → x ∈ q_waiting_order q → y ∈ q_waiting_order q →
  canon x ∉ canon <$> q_waiting_order (promote_waiters q now) →
  canon y ∈ canon <$> q_waiting_order (promote_waiters q now) →
  before (rank_of q now x) (rank_of q now y).
Proof. intros. by eapply promote_loop_priority. Qed.

(** A reconnect takes the session over: once a peer has begun a session on a
    new connection, a handle of its old connection is stale for polling and for
    part requests, and releasing it changes nothing. *)
Lemma reconnect_invalidates q key cid now h now' refresh :
  queue_ok q →
  canon_peer (key_peer (h_key h)) = canon_peer (key_peer key) → h_connection_id h ≠ cid →
  let q' := fst (begin_session q key cid now) in
  snd (poll_session q' h now' refresh) = StStale ∧
  snd (note_request_parts q' h now') = StStale ∧
  release_session q' h now' = q'.
Proof.
  intros Hok Hpeer Hcid q'.
  assert (Hconn : ∀ q1 s, sessions_from q' q1 → q_sessions q1 !! canon (h_key h) = Some s →
    (s_connection_id s =? h_connection_id h) = false).
  { intros q1 s Hfrom Hs. destruct (Hfrom _ _ Hs) as (s0 & Hs0 & <-).
    apply (begin_connection q key cid now) in Hs0; [|done|done]. apply Z.eqb_neq. congruence. }
  split; [|split].
  - unfold poll_session. destruct (q_sessions (reap_expired_sessions q' now') !! _) as [s|] eqn:Hs; [|done].
    by rewrite (Hconn _ s (reap_from q' now') Hs).
  - unfold note_request_parts.
    destruct (q_sessions (reap_expired_sessions q' now') !! _) as [s|] eqn:Hs; [|done].
    by rewrite (Hconn _ s (reap_from q' now') Hs).
  - unfold release_session. destruct (q_sessions q' !! _) as [s|] eqn:Hs; [|done].
    rewrite (Hconn q' s); [done| |done]. intros ck t Ht. eauto.
Qed.
