(* ===== verification/SearchExpr.v ===== *)
(** * Keyword search expressions

    Models [overlord-agent-emule/src/kad_search_expr.rs]: the parser of the
    restrictive part of a keyword search and its evaluation against a stored
    file. A [String] is the list of its UTF-8 bytes; [str::to_lowercase], which
    follows the Unicode tables, is a parameter. *)

From S2P Require Import Prelude NodeId Utf8 Wire Tag.

(** ** Data *)

Definition MAX_SEARCH_EXPR_DEPTH : nat := 24.
(** The codes of the space, brackets, punctuation, both slashes and the quotation
    mark. *)
Definition INVALID_KAD_KEYWORD_CHARS : list Z :=
  [32; 40; 41; 91; 93; 123; 125; 60; 62; 44; 46; 95; 45; 33; 63; 58; 59; 92; 47; 34].

Inductive NumericOp : Type := Equal | Greater | Less | GreaterEqual | LessEqual | NotEqual.

Inductive SearchTerm : Type :=
| And (l r : SearchTerm)
| Or (l r : SearchTerm)
| Not (l r : SearchTerm)
| TString (terms : list (list Z))
| MetaString (name : TagName) (value : list Z)
| Numeric (name : TagName) (op : NumericOp) (value : Z).

(** ** Strings *)

(** [str::contains] of a string. *)
Fixpoint str_contains (hay needle : list Z) : bool :=
  bool_decide (needle `prefix_of` hay) ||
  match hay with [] => false | _ :: hay' => str_contains hay' needle end.

(** The part after the last [c]: [rsplit_once(c).map(|(_, after)| after)]. *)
Fixpoint after_last (c : Z) (s : list Z) : option (list Z) :=
  match s with
  | [] => None
  | x :: s' =>
      match after_last c s' with
      | Some r => Some r
      | None => if x =? c then Some s' else None
      end
  end.

Definition is_char (c : Z) (ch : list Z) : bool := bool_decide (ch = [c]).
Definition invalid_keyword_char (ch : list Z) : bool :=
  existsb (λ c, is_char c ch) INVALID_KAD_KEYWORD_CHARS.

(** The longest prefix that satisfies [f], and the rest. *)
Fixpoint span {A} (f : A → bool) (l : list A) : list A * list A :=
  match l with
  | x :: l' => if f x then let '(a, b) := span f l' in (x :: a, b) else ([], l)
  | [] => ([], [])
  end.

(** [terms.push(..)] unless the slice is empty. *)
Definition push_term (word : list (list Z)) (terms : list (list Z)) : list (list Z) :=
  match word with [] => terms | _ => concat word :: terms end.

(** The loop of [tokenize_opt_quoted_search_term] on the characters from [index]
    on. *)
Fixpoint tokenize_loop (fuel : nat) (cs : list (list Z)) : list (list Z) :=
  match fuel, cs with
  | S fuel', c :: rest =>
      if is_char 34 c then
        match span (λ x, negb (is_char 34 x)) rest with
        | (quoted, _ :: after) => push_term quoted (tokenize_loop fuel' after)
        | (_, []) => []
        end
      else
        match span (λ x, negb (invalid_keyword_char x)) cs with
        | (word, d :: after) =>
            push_term word (tokenize_loop fuel' (if is_char 34 d then d :: after else after))
        | (word, []) => push_term word []
        end
  | _, _ => []
  end.
Definition tokenize_opt_quoted_search_term (value : list Z) : list (list Z) :=
  tokenize_loop (length (chars value)) (chars value).

(** ** Numbers *)

(** [Option::get_or_insert] *)
Definition get_or_insert {A} (o : option A) (v : A) : option A :=
  match o with Some x => Some x | None => Some v end.

(** The body of the loop of [file_size_tag_value], on
    [(size, size_low, size_high)]. *)
Definition file_size_step (acc : option Z * option Z * option Z) (tag : Tag)
    : option Z * option Z * option Z :=
  let '(size, size_low, size_high) := acc in
  match tag_name tag with
  | Short name =>
      let lo v := (size, get_or_insert size_low v, size_high) in
      let hi v := (size, size_low, get_or_insert size_high v) in
      let full v := (get_or_insert size v, size_low, size_high) in
      if name =? FILESIZE then
        match tag_value tag with
        | VUInt v => if is_u32 v then lo v else full v
        | VU64 v => full v
        | VU32 v | VU16 v | VU8 v => lo v
        | VBlob b | VSmallBlob b => if zlen b =? 8 then full (from_le_bytes b) else acc
        | _ => acc
        end
      else if name =? FILESIZE_HI then
        match tag_value tag with
        | VUInt v => if is_u32 v then hi v else acc
        | VU32 v | VU16 v | VU8 v => hi v
        | _ => acc
        end
      else acc
  | Long _ => acc
  end.
Definition file_size_tag_value (tags : list Tag) : option Z :=
  let '(size, size_low, size_high) := foldl file_size_step (None, None, None) tags in
  match size with
  | Some s => Some s
  | None => (λ low, Z.lor (Z.shiftl (default 0 size_high) 32) low) <$> size_low
  end.

(** The closure of [int_tag_value]. *)
Definition int_of_tag (name : TagName) (tag : Tag) : option Z :=
  if negb (bool_decide (tag_name tag = name)) then None
  else
    match tag_value tag with
    | VUInt v | VU64 v | VU32 v | VU16 v | VU8 v => Some v
    | _ => None
    end.
Definition int_tag_value (tags : list Tag) (name : TagName) : option Z :=
  if bool_decide (name = Short FILESIZE) then file_size_tag_value tags
  else head (omap (int_of_tag name) tags).

Definition numeric_matches (tags : list Tag) (name : TagName) (op : NumericOp) (expected : Z) : bool :=
  match int_tag_value tags name with
  | None => false
  | Some actual =>
      match op with
      | Equal => actual =? expected
      | Greater => expected <? actual
      | Less => actual <? expected
      | GreaterEqual => expected <=? actual
      | LessEqual => actual <=? expected
      | NotEqual => negb (actual =? expected)
      end
  end.

(** ** The parser *)

Definition read_tag_name : reader unit TagName :=
  rmap_err (λ _, ()) (
    len ← read_u16;
    bytes ← read_exact (Z.to_nat len);
    mret (match bytes with [name] => Short name | _ => Long (from_utf8_lossy bytes) end)).

Definition parse_numeric_term (value : Z) : reader unit SearchTerm :=
  code ← rmap_err (λ _, ()) read_u8;
  op ← match code with
       | 0 => mret Equal | 1 => mret Greater | 2 => mret Less
       | 3 => mret GreaterEqual | 4 => mret LessEqual | 5 => mret NotEqual
       | _ => rfail ()
       end;
  name ← read_tag_name;
  mret (Numeric name op value).

(** [parse] is [parse_search_term] at the depth below. *)
Definition parse_boolean_term (parse : reader unit SearchTerm) : reader unit SearchTerm :=
  bool_op ← rmap_err (λ _, ()) read_u8;
  l ← parse;
  r ← parse;
  match bool_op with
  | 0 => mret (And l r)
  | 1 => mret (Or l r)
  | 2 => mret (Not l r)
  | _ => rfail ()
  end.

Section search.
Context (to_lowercase : list Z → list Z).

Definition read_lower_string : reader unit (list Z) :=
  rmap_err (λ _, ()) (
    len ← read_u16;
    bytes ← read_exact (Z.to_nat len);
    mret (to_lowercase (from_utf8_lossy bytes))).

(** [levels] is [MAX_SEARCH_EXPR_DEPTH - depth]. *)
Fixpoint parse_search_term (levels : nat) : reader unit SearchTerm :=
  match levels with
  | O => rfail ()
  | S levels' =>
      op ← rmap_err (λ _, ()) read_u8;
      match op with
      | 0 => parse_boolean_term (parse_search_term levels')
      | 1 => value ← read_lower_string; mret (TString (tokenize_opt_quoted_search_term value))
      | 2 => value ← read_lower_string; name ← read_tag_name; mret (MetaString name value)
      | 3 => value ← rmap_err (λ _, ()) read_u32; parse_numeric_term value
      | 8 => value ← rmap_err (λ _, ()) read_u64; parse_numeric_term value
      | _ => rfail ()
      end
  end.

(** ** Evaluation *)

Definition string_terms_match (filename_lower : list Z) (terms : list (list Z)) : bool :=
  negb (bool_decide (terms = [])) && forallb (str_contains filename_lower) terms.

Definition meta_string_matches (filename_lower : list Z) (tags : list Tag) (name : TagName)
    (value : list Z) : bool :=
  if bool_decide (name = Short FILEFORMAT) then
    match after_last 46 filename_lower with
    | Some extension => bool_decide (extension = value)
    | None => false
    end
  else
    existsb (λ tag, bool_decide (tag_name tag = name) &&
      match tag_value tag with
      | VString tag_value => bool_decide (to_lowercase tag_value = value)
      | _ => false
      end) tags.

Fixpoint matches_with_lower_filename (t : SearchTerm) (filename_lower : list Z) (tags : list Tag)
    : bool :=
  match t with
  | And l r => matches_with_lower_filename l filename_lower tags &&
               matches_with_lower_filename r filename_lower tags
  | Or l r => matches_with_lower_filename l filename_lower tags ||
              matches_with_lower_filename r filename_lower tags
  | Not l r => matches_with_lower_filename l filename_lower tags &&
               negb (matches_with_lower_filename r filename_lower tags)
  | TString terms => string_terms_match filename_lower terms
  | MetaString name value => meta_string_matches filename_lower tags name value
  | Numeric name op value => numeric_matches tags name op value
  end.
Definition term_matches (t : SearchTerm) (filename : list Z) (tags : list Tag) : bool :=
  matches_with_lower_filename t (to_lowercase filename) tags.

Definition matches_restrictive_keyword_payload (filename : list Z) (tags : list Tag)
    (payload : list Z) : bool :=
  match parse_search_term MAX_SEARCH_EXPR_DEPTH payload with
  | Ok (term, _) => term_matches term filename tags
  | _ => false
  end.
End search.

(** ** Specification *)

(** The expressions a searcher can send, with strings and tag names as raw bytes,
    and their encoding. *)
Inductive expr : Type :=
| EAnd (l r : expr)
| EOr (l r : expr)
| ENot (l r : expr)
| EStr (value : list Z)
| EMeta (value name : list Z)
| ENum32 (value : Z) (op : NumericOp) (name : list Z)
| ENum64 (value : Z) (op : NumericOp) (name : list Z).

Definition op_code (op : NumericOp) : Z :=
  match op with
  | Equal => 0 | Greater => 1 | Less => 2 | GreaterEqual => 3 | LessEqual => 4 | NotEqual => 5
  end.
Definition print_bytes (s : list Z) : list Z := write_u16 (zlen s) ++ s.
Fixpoint print (e : expr) : list Z :=
  match e with
  | EAnd l r => 0 :: 0 :: print l ++ print r
  | EOr l r => 0 :: 1 :: print l ++ print r
  | ENot l r => 0 :: 2 :: print l ++ print r
  | EStr value => 1 :: print_bytes value
  | EMeta value name => 2 :: print_bytes value ++ print_bytes name
  | ENum32 value op name => 3 :: write_u32 value ++ op_code op :: print_bytes name
  | ENum64 value op name => 8 :: write_u64 value ++ op_code op :: print_bytes name
  end.

Definition wf_bytes16 (s : list Z) : bool := is_bytes s && is_u16 (zlen s).
Fixpoint wf_expr (e : expr) : bool :=
  match e with
  | EAnd l r | EOr l r | ENot l r => wf_expr l && wf_expr r
  | EStr value => wf_bytes16 value
  | EMeta value name => wf_bytes16 value && wf_bytes16 name
  | ENum32 value _ name => is_u32 value && wf_bytes16 name
  | ENum64 value _ name => is_u64 value && wf_bytes16 name
  end.
(** The number of nested terms. *)
Fixpoint expr_depth (e : expr) : nat :=
  match e with
  | EAnd l r | EOr l r | ENot l r => S (max (expr_depth l) (expr_depth r))
  | _ => 1
  end.

Definition name_of (bytes : list Z) : TagName :=
  match bytes with [b] => Short b | _ => Long (from_utf8_lossy bytes) end.

(** A tokenizer that looks at each character once: [quoted] inside quotation
    marks, [cur] the word so far. An unclosed quotation is dropped. *)
Fixpoint tokens (quoted : bool) (cur cs : list (list Z)) : list (list Z) :=
  match cs with
  | [] => if quoted then [] else push_term cur []
  | c :: cs' =>
      if is_char 34 c then push_term cur (tokens (negb quoted) [] cs')
      else if negb quoted && invalid_keyword_char c then push_term cur (tokens false [] cs')
      else tokens quoted (cur ++ [c]) cs'
  end.

(** The file size: the first 64-bit form, or else the first low half with the
    first high half. *)
Definition size64 (tag : Tag) : option Z :=
  match tag with
  | mkTag (Short 0x02) (VUInt v) => if is_u32 v then None else Some v
  | mkTag (Short 0x02) (VU64 v) => Some v
  | mkTag (Short 0x02) (VBlob b | VSmallBlob b) =>
      if zlen b =? 8 then Some (from_le_bytes b) else None
  | _ => None
  end.
Definition size32 (part : Z) (tag : Tag) : option Z :=
  match tag with
  | mkTag (Short name) (VUInt v) => if (name =? part) && is_u32 v then Some v else None
  | mkTag (Short name) (VU32 v | VU16 v | VU8 v) => if name =? part then Some v else None
  | _ => None
  end.
Definition file_size (tags : list Tag) : option Z :=
  match head (omap size64 tags) with
  | Some s => Some s
  | None => (λ low, default 0 (head (omap (size32 FILESIZE_HI) tags)) * 2 ^ 32 + low) <$>
              head (omap (size32 FILESIZE) tags)
  end.

Definition holds (op : NumericOp) (actual expected : Z) : Prop :=
  match op with
  | Equal => actual = expected
  | Greater => actual > expected
  | Less => actual < expected
  | GreaterEqual => actual >= expected
  | LessEqual => actual <= expected
  | NotEqual => actual ≠ expected
  end.

Section spec.
Context (to_lowercase : list Z → list Z).

Definition lower (bytes : list Z) : list Z := to_lowercase (from_utf8_lossy bytes).

(** The term an expression stands for. *)
Fixpoint term_of (e : expr) : SearchTerm :=
  match e with
  | EAnd l r => And (term_of l) (term_of r)
  | EOr l r => Or (term_of l) (term_of r)
  | ENot l r => Not (term_of l) (term_of r)
  | EStr value => TString (tokenize_opt_quoted_search_term (lower value))
  | EMeta value name => MetaString (name_of name) (lower value)
  | ENum32 value op name | ENum64 value op name => Numeric (name_of name) op value
  end.

(** What an expression says of a file. *)
Fixpoint sat (filename : list Z) (tags : list Tag) (e : expr) : Prop :=
  match e with
  | EAnd l r => sat filename tags l ∧ sat filename tags r
  | EOr l r => sat filename tags l ∨ sat filename tags r
  | ENot l r => sat filename tags l ∧ ¬ sat filename tags r
  | EStr value =>
      let words := tokens false [] (chars (lower value)) in
      words ≠ [] ∧
      ∀ w, w ∈ words → ∃ pre post, to_lowercase filename = pre ++ w ++ post
  | EMeta value name =>
      if bool_decide (name = [FILEFORMAT]) then
        ∃ stem, to_lowercase filename = stem ++ 46 :: lower value ∧ 46 ∉ lower value
      else ∃ s, mkTag (name_of name) (VString s) ∈ tags ∧ to_lowercase s = lower value
  | ENum32 value op name | ENum64 value op name =>
      if bool_decide (name = [FILESIZE]) then
        ∃ actual, file_size tags = Some actual ∧ holds op actual value
      else ∃ actual, head (omap (int_of_tag (name_of name)) tags) = Some actual ∧
             holds op actual value
  end.
End spec.

(** ** Lemmas *)

(** *** The tokenizer *)

Lemma span_app {A} (f : A → bool) l : (span f l).1 ++ (span f l).2 = l.
Proof.
  induction l as [|x l IH]; [done|]. cbn. destruct (f x); [|done].
  destruct (span f l) as [a b]. cbn in *. by rewrite IH.
Qed.

Lemma quote_invalid c : is_char 34 c = true → invalid_keyword_char c = true.
Proof. intros ->%bool_decide_eq_true. reflexivity. Qed.

Lemma tokens_quoted cs cur :
  tokens true cur cs =
  match span (λ x, negb (is_char 34 x)) cs with
  | (quoted, _ :: after) => push_term (cur ++ quoted) (tokens false [] after)
  | (_, []) => []
  end.
Proof.
  revert cur. induction cs as [|c cs IH]; intros cur; [done|]. cbn [tokens span].
  destruct (is_char 34 c); cbn [negb andb]; [by rewrite app_nil_r|].
  rewrite IH. destruct (span _ cs) as [q [|d after]]; [done|]. by rewrite <- app_assoc.
Qed.

Lemma tokens_unquoted cs cur :
  tokens false cur cs =
  match span (λ x, negb (invalid_keyword_char x)) cs with
  | (word, d :: after) =>
      push_term (cur ++ word) (tokens false [] (if is_char 34 d then d :: after else after))
  | (word, []) => push_term (cur ++ word) []
  end.
Proof.
  revert cur. induction cs as [|c cs IH]; intros cur; cbn [span]; [by rewrite app_nil_r|].
  cbn [tokens]. destruct (is_char 34 c) eqn:Hq.
  { rewrite (quote_invalid _ Hq). cbn [negb]. rewrite Hq, app_nil_r. cbn [tokens]. by rewrite Hq. }
  destruct (invalid_keyword_char c) eqn:Hi; cbn [negb andb].
  { by rewrite Hq, app_nil_r. }
  rewrite IH. destruct (span _ cs) as [w [|d after]]; by rewrite <- app_assoc.
Qed.

Lemma tokenize_loop_tokens fuel cs :
  (length cs ≤ fuel)%nat → tokenize_loop fuel cs = tokens false [] cs.
Proof.
  revert cs. induction fuel as [|fuel IH]; intros [|c rest] Hlen; try (cbn in *; lia); try done.
  cbn [tokenize_loop]. destruct (is_char 34 c) eqn:Hq.
  - cbn [tokens]. rewrite Hq. cbn [push_term negb]. rewrite tokens_quoted.
    pose proof (span_app (λ x, negb (is_char 34 x)) rest) as Hs.
    destruct (span _ rest) as [q [|d after]]; [done|]. cbn [fst snd app] in *.
    rewrite IH; [done|]. apply (f_equal length) in Hs. rewrite length_app in Hs. cbn in *. lia.
  - rewrite tokens_unquoted. pose proof (span_app (λ x, negb (invalid_keyword_char x)) (c :: rest)) as Hs.
    destruct (span _ (c :: rest)) as [w [|d after]] eqn:Hspan; [done|]. cbn [fst snd app] in *.
    rewrite IH; [done|]. apply (f_equal length) in Hs. rewrite length_app in Hs. cbn [length] in *.
    destruct (is_char 34 d) eqn:Hd; cbn [length]; [|lia].
    destruct w as [|x w]; [|cbn in Hs; lia]. exfalso. cbn [span] in Hspan.
    destruct (negb (invalid_keyword_char c)); [by destruct (span _ rest)|]. congruence.
Qed.

Lemma tokenize_tokens value :
  tokenize_opt_quoted_search_term value = tokens false [] (chars value).
Proof. by apply tokenize_loop_tokens. Qed.

(** *** Strings *)

Lemma str_contains_spec hay needle :
  str_contains hay needle = true ↔ ∃ pre post, hay = pre ++ needle ++ post.
Proof.
  induction hay as [|x hay IH]; cbn [str_contains]; rewrite orb_true_iff, bool_decide_eq_true.
  - split.
    + intros [[post Hp]|Hf]; [|done]. by exists [], post.
    + intros (pre & post & He). left. symmetry in He. apply app_nil in He as [_ He].
      apply app_nil in He as [-> _]. apply prefix_nil.
  - rewrite IH. split.
    + intros [[post Hp]|(pre & post & ->)]; [by exists [], post|]. by exists (x :: pre), post.
    + intros (pre & post & He). destruct pre as [|y pre]; [left; by exists post|].
      injection He as <- ->. right. by exists pre, post.
Qed.

Lemma after_last_None c s : after_last c s = None ↔ c ∉ s.
Proof.
  induction s as [|x s IH]; cbn [after_last]; [set_solver|]. rewrite not_elem_of_cons, <- IH.
  destruct (after_last c s); [naive_solver|]. destruct (Z.eqb_spec x c); naive_solver.
Qed.

Lemma after_last_Some c s r :
  after_last c s = Some r ↔ ∃ stem, s = stem ++ c :: r ∧ c ∉ r.
Proof.
  revert r. induction s as [|x s IH]; intros r; cbn [after_last].
  { split; [done|]. intros ([|] & He & _); done. }
  split.
  - destruct (after_last c s) as [r'|] eqn:Hs.
    + intros [= ->].
      destruct (proj1 (IH r) eq_refl) as (stem & -> & Hr). by exists (x :: stem).
    + destruct (Z.eqb_spec x c) as [->|]; [|done]. intros [= <-]. exists [].
      split; [done|]. by apply after_last_None.
  - intros (stem & He & Hr). destruct stem as [|y stem]; cbn in He; injection He as -> He.
    + subst s. rewrite (proj2 (after_last_None c r) Hr). by rewrite Z.eqb_refl.
    + assert (Hs : after_last c s = Some r) by (apply IH; eauto). by rewrite Hs.
Qed.

(** *** File sizes *)

Definition or_first {A} (o : option A) (l : list A) : option A :=
  match o with Some x => Some x | None => head l end.

Lemma file_size_step_spec acc tag :
  file_size_step acc tag =
  (or_first acc.1.1 (option_list (size64 tag)), or_first acc.1.2 (option_list (size32 FILESIZE tag)),
   or_first acc.2 (option_list (size32 FILESIZE_HI tag))).
Proof.
  destruct acc as [[size lo] hi], tag as [[name|s] v]; cbn [file_size_step tag_name tag_value fst snd].
  2: { destruct v; cbn; by destruct size, lo, hi. }
  destruct (Z.eqb_spec name FILESIZE) as [->|Hlo].
  { unfold size64, size32. destruct v; cbn [FILESIZE]; repeat case_match; try done;
      destruct size, lo, hi; try done; cbn in *; congruence. }
  assert (H64 : size64 (mkTag (Short name) v) = None).
  { unfold size64. destruct v; repeat case_match; try done; by destruct Hlo. }
  assert (H32 : size32 FILESIZE (mkTag (Short name) v) = None).
  { unfold size32. destruct v; rewrite ?(proj2 (Z.eqb_neq _ _) Hlo); done. }
  rewrite H64, H32. unfold size32. destruct (name =? FILESIZE_HI) eqn:Hhi;
    destruct v; cbn [andb option_list]; repeat case_match; destruct size, lo, hi; done.
Qed.

Lemma or_first_app {A B} (f : A → option B) (o : option B) x l :
  or_first (or_first o (option_list (f x))) (omap f l) = or_first o (omap f (x :: l)).
Proof. destruct o; [done|]. cbn. by destruct (f x). Qed.

Lemma file_size_fold acc tags :
  foldl file_size_step acc tags =
  (or_first acc.1.1 (omap size64 tags), or_first acc.1.2 (omap (size32 FILESIZE) tags),
   or_first acc.2 (omap (size32 FILESIZE_HI) tags)).
Proof.
  revert acc. induction tags as [|t tags IH]; intros acc; cbn [foldl].
  { by destruct acc as [[[] []] []]. }
  rewrite IH, file_size_step_spec. cbn [fst snd]. by rewrite !or_first_app.
Qed.

Lemma size32_bound part tags v :
  forallb wf_Tag tags = true → head (omap (size32 part) tags) = Some v → 0 ≤ v < 2 ^ 32.
Proof.
  induction tags as [|[name tv] tags IH]; [done|]. cbn [forallb]. intros [Ht Hts]%andb_true_iff.
  change (omap (size32 part) (mkTag name tv :: tags)) with
    (match size32 part (mkTag name tv) with
     | Some y => y :: omap (size32 part) tags | None => omap (size32 part) tags end).
  destruct (size32 part (mkTag name tv)) as [x|] eqn:Hx; [|by apply IH].
  cbn [head]. intros [= ->]. apply andb_true_iff in Ht as [_ Hv]. unfold size32 in Hx.
  destruct name; [|by destruct tv]. destruct tv; cbn [wf_TagValue tag_value] in Hv; repeat case_match; simplify_eq; bool_hyps;
    repeat match goal with
    | H : is_u32 _ = true |- _ => apply is_u32_spec in H
    | H : is_u16 _ = true |- _ => apply is_u16_spec in H
    | H : is_u8 _ = true |- _ => apply is_u8_spec in H
    end; lia.
Qed.

Lemma lor_shiftl_add h l : 0 ≤ l < 2 ^ 32 → Z.lor (Z.shiftl h 32) l = h * 2 ^ 32 + l.
Proof.
  intros Hl. rewrite Z.shiftl_mul_pow2 by lia.
  assert (Hland : Z.land (h * 2 ^ 32) l = 0).
  { apply Z.bits_inj'; intros n Hn. rewrite Z.land_spec, Z.bits_0.
    destruct (Z.ltb_spec n 32) as [Hlt|Hge]; [by rewrite Z.mul_pow2_bits_low by lia|].
    rewrite <- (Z.mod_small l (2 ^ 32)), Z.mod_pow2_bits_high, andb_false_r by lia. done. }
  pose proof (Z.add_lor_land (h * 2 ^ 32) l). lia.
Qed.

Lemma file_size_tag_value_spec tags :
  forallb wf_Tag tags = true → file_size_tag_value tags = file_size tags.
Proof.
  intros Hwf. unfold file_size_tag_value, file_size. rewrite file_size_fold. cbn [or_first fst snd].
  destruct (head (omap size64 tags)); [done|].
  destruct (head (omap (size32 FILESIZE) tags)) as [low|] eqn:Hlow; [|done]. cbn. f_equal.
  apply lor_shiftl_add. by eapply size32_bound.
Qed.

Lemma numeric_matches_spec tags name op expected :
  forallb wf_Tag tags = true →
  numeric_matches tags name op expected = true ↔
  ∃ actual, (if bool_decide (name = Short FILESIZE) then file_size tags
             else head (omap (int_of_tag name) tags)) = Some actual ∧ holds op actual expected.
Proof.
  intros Hwf. unfold numeric_matches, int_tag_value. rewrite file_size_tag_value_spec by done.
  destruct (if bool_decide _ then _ else _) as [actual|]; [|split; [done|by intros (? & ? & _)]].
  transitivity (holds op actual expected); [|naive_solver].
  destruct op; cbn [holds]; rewrite ?negb_true_iff; lia.
Qed.

(** *** The parser *)

(** On bytes, the reader does not panic, and when it succeeds, [R] relates the
    bytes it took to its result. *)
Definition consumes {E A} (r : reader E A) (R : list Z → A → Prop) : Prop :=
  ∀ l, is_bytes l = true →
  match r l with
  | Ok (a, l') => is_bytes l' = true ∧ ∃ b, l = b ++ l' ∧ R b a
  | Err _ => True
  | Panic => False
  end.

Lemma consumes_ret {E A} (R : list Z → A → Prop) a : R [] a → consumes (E:=E) (mret a) R.
Proof. intros H l Hl. split; [done|]. by exists []. Qed.

Lemma consumes_fail {E A} (e : E) (R : list Z → A → Prop) : consumes (rfail e) R.
Proof. by intros l Hl. Qed.

Lemma consumes_bind {E A B} (r : reader E A) (k : A → reader E B) P R :
  consumes r P → (∀ b a, P b a → consumes (k a) (λ b' y, R (b ++ b') y)) → consumes (r ≫= k) R.
Proof.
  intros Hr Hk l Hl. rewrite reader_bind_unfold. specialize (Hr l Hl).
  destruct (r l) as [[a l']| |]; [|done..]. destruct Hr as (Hl' & b & -> & Hp).
  specialize (Hk b a Hp l' Hl'). destruct (k a l') as [[y l'']| |]; [|done..].
  destruct Hk as (? & b' & -> & HR). split; [done|]. exists (b ++ b'). by rewrite app_assoc.
Qed.

Lemma consumes_rmap {E F A} (f : E → F) (r : reader E A) R : consumes r R → consumes (rmap_err f r) R.
Proof. intros Hr l Hl. specialize (Hr l Hl). unfold rmap_err. by destruct (r l) as [[]| |]. Qed.

Lemma consumes_exact n : consumes (read_exact n) (λ b a, b = a ∧ length a = n ∧ is_bytes a = true).
Proof.
  intros l Hl. unfold read_exact. destruct (Nat.leb_spec n (length l)); [|done].
  split; [by apply is_bytes_drop|]. exists (take n l). rewrite take_drop. split; [done|].
  rewrite length_take_le by done. split; [done|]. split; [done|]. by apply is_bytes_take.
Qed.

Lemma consumes_uint n :
  consumes (read_uint n) (λ b v, b = to_le_bytes n v ∧ 0 ≤ v < 256 ^ Z.of_nat n).
Proof.
  unfold read_uint. eapply consumes_bind; [apply consumes_exact|].
  intros b a (-> & Hlen & Hb). apply consumes_ret. rewrite app_nil_r.
  split; [by rewrite <- Hlen, to_from_le_bytes|]. rewrite <- Hlen. by apply from_le_bytes_bound.
Qed.

Lemma consumes_u8 : consumes read_u8 (λ b v, b = [v]).
Proof.
  intros l Hl. pose proof (consumes_uint 1 l Hl) as H. change (read_uint 1) with read_u8 in H.
  destruct (read_u8 l) as [[v l']| |]; [|done..]. destruct H as (Hl' & b & -> & -> & Hv).
  split; [done|]. exists (write_u8 v). split; [done|]. apply write_u8_small, is_u8_spec. lia.
Qed.

(** A string or a tag name: its length and its bytes. *)
Lemma consumes_bytes16 {A} (f : list Z → A) :
  consumes (E:=unit) (rmap_err (λ _, ()) (
      len ← read_u16; bytes ← read_exact (Z.to_nat len); mret (f bytes)))
    (λ b a, ∃ s, wf_bytes16 s = true ∧ b = print_bytes s ∧ a = f s).
Proof.
  apply consumes_rmap. eapply consumes_bind; [exact (consumes_uint 2)|].
  intros b len [-> Hlen]. eapply consumes_bind; [apply consumes_exact|].
  intros b s (-> & Hs & Hb). apply consumes_ret. exists s. rewrite app_nil_r.
  assert (Hz : zlen s = len) by (unfold zlen; lia).
  unfold wf_bytes16, print_bytes. rewrite Hb, Hz. split; [|done]. apply is_u16_spec. lia.
Qed.

Lemma consumes_numeric value :
  consumes (parse_numeric_term value) (λ b t, ∃ op name, wf_bytes16 name = true ∧
    b = op_code op :: print_bytes name ∧ t = Numeric (name_of name) op value).
Proof.
  unfold parse_numeric_term. eapply consumes_bind; [apply consumes_rmap, consumes_u8|].
  intros b code ->.
  eapply (consumes_bind _ _ (λ b op, b = [] ∧ code = op_code op)).
  { destruct code as [|[[[]|[]|]|[[]|[]|]|]|]; first [apply consumes_fail | by apply consumes_ret]. }
  intros b op [-> ->]. eapply consumes_bind; [apply consumes_bytes16|].
  intros b name (s & Hs & -> & ->). apply consumes_ret. exists op, s. cbn. by rewrite app_nil_r.
Qed.

Lemma consumes_impl {E A} (r : reader E A) (P R : list Z → A → Prop) :
  consumes r P → (∀ b a, P b a → R b a) → consumes r R.
Proof.
  intros Hr HPR l Hl. specialize (Hr l Hl). destruct (r l) as [[a l']| |]; [|done..].
  naive_solver.
Qed.

Section parser.
Context (to_lowercase : list Z → list Z).
Abbreviation parse := (parse_search_term to_lowercase).
Abbreviation denotes := (term_of to_lowercase).

(** [b] is the encoding of an expression of at most [levels] levels. *)
Definition encodes (levels : nat) (b : list Z) (t : SearchTerm) : Prop :=
  ∃ e, wf_expr e = true ∧ (expr_depth e ≤ levels)%nat ∧ b = print e ∧ t = denotes e.

Lemma consumes_boolean levels (p : reader unit SearchTerm) : consumes p (encodes levels) →
  consumes (parse_boolean_term p) (λ b, encodes (S levels) (0 :: b)).
Proof.
  intros Hp. unfold parse_boolean_term.
  eapply consumes_bind; [apply consumes_rmap, consumes_u8|]. intros b bop ->.
  eapply consumes_bind; [apply Hp|]. intros b l (el & Hel & Hdl & -> & ->).
  eapply consumes_bind; [apply Hp|]. intros b r (er & Her & Hdr & -> & ->).
  destruct bop as [|[[]|[]|]|]; try apply consumes_fail; apply consumes_ret;
    rewrite app_nil_r; [exists (EAnd el er)|exists (ENot el er)|exists (EOr el er)];
    cbn; rewrite Hel, Her; repeat split; lia.
Qed.

Lemma consumes_parse levels : consumes (parse levels) (encodes levels).
Proof.
  induction levels as [|levels IH]; cbn [parse_search_term]; [apply consumes_fail|].
  eapply consumes_bind; [apply consumes_rmap, consumes_u8|]. intros b op ->. cbn [app].
  destruct op as [|[[|[]|]|[|[|[]|]|]|]|]; try apply consumes_fail.
  - by apply consumes_boolean.
  - eapply consumes_bind; [apply consumes_rmap; exact (consumes_uint 4)|]. intros b v [-> Hv].
    eapply consumes_impl; [apply consumes_numeric|]. intros b t (o & name & Hn & -> & ->).
    exists (ENum32 v o name). cbn [wf_expr expr_depth print term_of].
    rewrite Hn, (proj2 (is_u32_spec v)) by lia. repeat split; lia.
  - eapply consumes_bind; [apply consumes_rmap; exact (consumes_uint 8)|]. intros b v [-> Hv].
    eapply consumes_impl; [apply consumes_numeric|]. intros b t (o & name & Hn & -> & ->).
    exists (ENum64 v o name). cbn [wf_expr expr_depth print term_of].
    rewrite Hn, (proj2 (is_u64_spec v)) by lia. repeat split; lia.
  - eapply consumes_bind; [apply consumes_bytes16|]. intros b v (s & Hs & -> & ->).
    eapply consumes_bind; [apply consumes_bytes16|]. intros b n (sn & Hn & -> & ->).
    apply consumes_ret. exists (EMeta s sn). rewrite app_nil_r. cbn. rewrite Hs, Hn.
    repeat split; lia.
  - eapply consumes_bind; [apply consumes_bytes16|]. intros b v (s & Hs & -> & ->).
    apply consumes_ret. exists (EStr s). rewrite app_nil_r. cbn. repeat split; [done|lia].
Qed.

(** *** Encoded expressions are read back *)

Lemma read_u8_cons v rest : is_u8 v = true → rmap_err (λ _, ()) read_u8 (v :: rest) = Ok (v, rest).
Proof.
  intros Hv. change (v :: rest) with ([v] ++ rest). rewrite <- (write_u8_small v Hv).
  by apply (parses_rmap (λ _, ()) read_u8), parses_u8.
Qed.

Lemma parses_bytes16 {A} (f : list Z → A) s : wf_bytes16 s = true →
  parses (rmap_err (λ _, ()) (
    len ← read_u16; bytes ← read_exact (Z.to_nat len); mret (f bytes))) (print_bytes s) (f s).
Proof.
  intros [_ Hs]%andb_true_iff. apply parses_rmap. unfold print_bytes.
  eapply parses_bind; [by apply parses_u16|].
  eapply parses_bind_ret, parses_exact. unfold zlen. lia.
Qed.

Lemma parses_numeric op name value : wf_bytes16 name = true →
  parses (parse_numeric_term value) (op_code op :: print_bytes name)
    (Numeric (name_of name) op value).
Proof.
  intros Hn rest. unfold parse_numeric_term. rewrite reader_bind_unfold. cbn [app].
  rewrite read_u8_cons by (by destruct op).
  assert (Hname : parses read_tag_name (print_bytes name) (name_of name))
    by (by apply parses_bytes16).
  destruct op; cbn [op_code]; rewrite reader_bind_unfold; unfold mret at 1, reader_ret at 1;
    by rewrite reader_bind_unfold, Hname.
Qed.

Lemma parse_print levels e rest : wf_expr e = true →
  parse levels (print e ++ rest) =
  if (expr_depth e <=? levels)%nat then Ok (denotes e, rest) else Err ().
Proof.
  revert e rest. induction levels as [|levels IH]; intros e rest Hwf; [by destruct e|].
  assert (Hbool : ∀ bop l r, is_u8 bop = true → wf_expr l && wf_expr r = true →
    parse_boolean_term (parse levels) (bop :: (print l ++ print r) ++ rest) =
    if (max (expr_depth l) (expr_depth r) <=? levels)%nat then
      match bop with
      | 0 => Ok (And (denotes l) (denotes r), rest)
      | 1 => Ok (Or (denotes l) (denotes r), rest)
      | 2 => Ok (Not (denotes l) (denotes r), rest)
      | _ => Err () end
    else Err ()).
  { intros bop l r Hb [Hl Hr]%andb_true_iff. unfold parse_boolean_term.
    rewrite reader_bind_unfold, read_u8_cons by done. rewrite reader_bind_unfold, <- app_assoc, IH by done.
    destruct (Nat.leb_spec (expr_depth l) levels) as [Hdl|Hdl].
    2: { destruct (Nat.leb_spec (max (expr_depth l) (expr_depth r)) levels); [lia|done]. }
    rewrite reader_bind_unfold, IH by done.
    destruct (Nat.leb_spec (expr_depth r) levels) as [Hdr|Hdr];
      destruct (Nat.leb_spec (max (expr_depth l) (expr_depth r)) levels); try lia; [|done].
    by destruct bop as [|[[]|[]|]|]. }
  destruct e; cbn [print expr_depth wf_expr app parse_search_term] in *;
    rewrite reader_bind_unfold, read_u8_cons by done; cbn [Nat.leb];
    try (by rewrite Hbool by done); bool_hyps.
  - rewrite reader_bind_unfold. unfold read_lower_string. by rewrite parses_bytes16.
  - rewrite <- app_assoc, reader_bind_unfold. unfold read_lower_string.
    rewrite parses_bytes16 by done.
    rewrite reader_bind_unfold. unfold read_tag_name. by rewrite parses_bytes16.
  - rewrite <- app_assoc, reader_bind_unfold.
    rewrite (parses_rmap (λ _, ()) read_u32 _ _ (parses_u32 _ ltac:(done))).
    by rewrite parses_numeric.
  - rewrite <- app_assoc, reader_bind_unfold.
    rewrite (parses_rmap (λ _, ()) read_u64 _ _ (parses_u64 _ ltac:(done))).
    by rewrite parses_numeric.
Qed.
End parser.

(** *** Evaluation *)

Lemma name_of_Short name b : name_of name = Short b ↔ name = [b].
Proof. destruct name as [|x [|y l]]; cbn; split; intros; simplify_eq; done. Qed.

Lemma name_of_short_decide name b :
  bool_decide (name_of name = Short b) = bool_decide (name = [b]).
Proof. apply bool_decide_ext, name_of_Short. Qed.

Lemma eval_sat to_lowercase filename tags e :
  forallb wf_Tag tags = true →
  matches_with_lower_filename to_lowercase (term_of to_lowercase e) (to_lowercase filename) tags = true
  ↔ sat to_lowercase filename tags e.
Proof.
  intros Hwf.
  induction e as [l IHl r IHr|l IHl r IHr|l IHl r IHr|value|value name|value op name|value op name];
    cbn [term_of matches_with_lower_filename sat].
  - by rewrite andb_true_iff, IHl, IHr.
  - by rewrite orb_true_iff, IHl, IHr.
  - rewrite andb_true_iff, negb_true_iff, <- not_true_iff_false. by rewrite IHl, IHr.
  - unfold string_terms_match. rewrite tokenize_tokens, andb_true_iff, negb_true_iff,
      bool_decide_eq_false, forallb_forall.
    apply and_iff_compat_l. setoid_rewrite str_contains_spec. by setoid_rewrite list_elem_of_In.
  - unfold meta_string_matches. rewrite name_of_short_decide. case_bool_decide.
    + rewrite <- after_last_Some. destruct (after_last _ _); [|done].
      rewrite bool_decide_eq_true. naive_solver.
    + rewrite existsb_exists. split.
      * intros ([n v] & Hin & [Hn%bool_decide_eq_true Hv]%andb_true_iff). cbn in *. subst n.
        destruct v; try done. apply bool_decide_eq_true in Hv.
        exists s. split; [by apply list_elem_of_In|done].
      * intros (s & Hin & Hs). exists (mkTag (name_of name) (VString s)).
        split; [by apply list_elem_of_In|]. cbn. by rewrite Hs, !bool_decide_eq_true_2.
  - rewrite numeric_matches_spec, name_of_short_decide by done. by case_bool_decide.
  - rewrite numeric_matches_spec, name_of_short_decide by done. by case_bool_decide.
Qed.

(** ** Correctness of search expressions *)

(** C35. The parser of search expressions never panics on the bytes of a peer, and
    accepts exactly the encodings of expressions nested at most 24 deep, followed
    by anything: what it returns is the term of that expression, and the bytes
    left over are those after the encoding. *)
Theorem search_expr_parses to_lowercase payload :
  is_bytes payload = true →
  parse_search_term to_lowercase MAX_SEARCH_EXPR_DEPTH payload ≠ Panic ∧
  ∀ t rest, parse_search_term to_lowercase MAX_SEARCH_EXPR_DEPTH payload = Ok (t, rest) ↔
    ∃ e, wf_expr e = true ∧ (expr_depth e ≤ 24)%nat ∧ payload = print e ++ rest ∧
         t = term_of to_lowercase e.
Proof.
  intros Hb. pose proof (consumes_parse to_lowercase MAX_SEARCH_EXPR_DEPTH payload Hb) as H.
  split; [by destruct (parse_search_term _ _ payload)|]. intros t rest. split.
  - intros Hp. rewrite Hp in H. destruct H as (_ & b & -> & e & Hwf & Hd & -> & ->). by exists e.
  - intros (e & Hwf & Hd & -> & ->). rewrite parse_print by done.
    unfold MAX_SEARCH_EXPR_DEPTH. destruct (Nat.leb_spec (expr_depth e) 24); [done|lia].
Qed.

Lemma search_expr_parses_witness :
  let e := EAnd (EStr [97; 98; 32; 99]) (ENum32 700 Greater [FILESIZE]) in
  is_bytes (print e) = true ∧
  parse_search_term (λ s, s) MAX_SEARCH_EXPR_DEPTH (print e) =
    Ok (And (TString [[97; 98]; [99]]) (Numeric (Short FILESIZE) Greater 700), []).
Proof.
  cbn zeta. split; [reflexivity|].
  apply (search_expr_parses (λ s, s) (print (EAnd (EStr [97; 98; 32; 99])
    (ENum32 700 Greater [FILESIZE]))) eq_refl).
  exists (EAnd (EStr [97; 98; 32; 99]) (ENum32 700 Greater [FILESIZE])).
  split; [reflexivity|]. split; [cbn; lia|]. split; reflexivity.
Defined.

(** A file is returned for a restrictive search exactly when the expression
    sent holds of it: conjunction, disjunction and exclusion as their names say;
    every word or quoted phrase of a string occurs in the lowered file name (and
    there is one); a file format is the part after the last dot of the name; a
    string tag equals the value up to case; a number compares with the tag, the
    file size being its 64-bit form or its two halves. Expressions nested deeper
    than 24 match nothing. *)
Lemma search_expr_matches to_lowercase filename tags e rest :
  wf_expr e = true → forallb wf_Tag tags = true →
  matches_restrictive_keyword_payload to_lowercase filename tags (print e ++ rest) = true ↔
  (expr_depth e ≤ 24)%nat ∧ sat to_lowercase filename tags e.
Proof.
  intros Hwf Htags. unfold matches_restrictive_keyword_payload. rewrite parse_print by done.
  unfold MAX_SEARCH_EXPR_DEPTH. destruct (Nat.leb_spec (expr_depth e) 24) as [Hd|Hd].
  - unfold term_matches. rewrite eval_sat by done. tauto.
  - split; [done|]. lia.
Qed.
