(* ===== verification/KadStore.v ===== *)
(** * The local Kad publish cache

    Models [overlord-agent-emule/src/kad_store.rs]: the keyword, source and notes
    publishes a node keeps and answers searches from. A time is a number of
    nanoseconds; a [String] is the list of its UTF-8 bytes. The entry traits are
    type classes. *)

From S2P Require Import Prelude Net NodeId Text Utf8 Wire Tag PacketTypes Packet SearchExpr.

(** ** Constants *)
Definition STOCK_MAX_SOURCES_PER_FILE : Z := 1000.
Definition STOCK_MAX_NOTES_PER_FILE : Z := 150.
Definition STOCK_MAX_KEYWORD_INDEX : Z := 50000.
Definition STOCK_MAX_KEYWORD_ENTRIES : Z := 60000.
Definition STOCK_HOT_KEYWORD_REPUBLISH_MARGIN : Z := 5000.

(** Tag names of [constants.rs]. *)
Definition SERVERIP : Z := 0xFB.
Definition SOURCEUPORT : Z := 0xFC.
Definition SOURCEPORT : Z := 0xFD.
Definition SOURCEIP : Z := 0xFE.
Definition SOURCETYPE : Z := 0xFF.

(** ** Data *)

Record KadLocalStoreConfig : Type := mkStoreConfig {
  enabled : bool;
  keyword_ttl : Z;
  source_ttl : Z;
  notes_ttl : Z;
  keyword_capacity : Z;
  source_capacity : Z;
  notes_capacity : Z;
}.

(** The fields of [KadConfig] are the arguments, the times in seconds. *)
Definition from_kad_config (local_store_enabled : bool)
    (keyword_ttl_secs source_ttl_secs notes_ttl_secs : Z)
    (keyword_capacity source_capacity notes_capacity : Z) : KadLocalStoreConfig :=
  mkStoreConfig local_store_enabled
    (Z.max keyword_ttl_secs 1 * NANOS_PER_SEC) (Z.max source_ttl_secs 1 * NANOS_PER_SEC)
    (Z.max notes_ttl_secs 1 * NANOS_PER_SEC)
    (Z.max keyword_capacity 1) (Z.max source_capacity 1) (Z.max notes_capacity 1).

Record StoredKeywordPublish : Type := mkStoredKeyword {
  kw_observed_at : Z;
  kw_target : NodeId;
  kw_file_hash : Ed2kHash;
  kw_tags : list Tag;
  kw_dedup_key : list Z;
}.
Record StoredSourcePublish : Type := mkStoredSource {
  src_observed_at : Z;
  src_target : NodeId;
  src_publisher_id : NodeId;
  src_source_ip : Ipv4Addr;
  src_source_tcp_port : Z;
  src_source_udp_port : Z;
  src_tags : list Tag;
  src_dedup_key : list Z;
}.
Record StoredNotesPublish : Type := mkStoredNotes {
  nt_observed_at : Z;
  nt_target : NodeId;
  nt_publisher_id : NodeId;
  nt_publisher_ip : Ipv4Addr;
  nt_tags : list Tag;
  nt_dedup_key : list Z;
}.
Record KadLocalStore : Type := mkStore {
  st_config : KadLocalStoreConfig;
  st_keyword_entries : list StoredKeywordPublish;
  st_source_entries : list StoredSourcePublish;
  st_notes_entries : list StoredNotesPublish;
}.

Class TimedEntry (T : Type) := observed_at : T → Z.
Class DedupEntry (T : Type) := dedup_key : T → list Z.
Class TargetedEntry (T : Type) := target : T → NodeId.
#[export] Instance keyword_timed : TimedEntry StoredKeywordPublish := kw_observed_at.
#[export] Instance keyword_dedup : DedupEntry StoredKeywordPublish := kw_dedup_key.
#[export] Instance source_timed : TimedEntry StoredSourcePublish := src_observed_at.
#[export] Instance source_targeted : TargetedEntry StoredSourcePublish := src_target.
#[export] Instance source_dedup : DedupEntry StoredSourcePublish := src_dedup_key.
#[export] Instance notes_timed : TimedEntry StoredNotesPublish := nt_observed_at.
#[export] Instance notes_targeted : TargetedEntry StoredNotesPublish := nt_target.
#[export] Instance notes_dedup : DedupEntry StoredNotesPublish := nt_dedup_key.

(** ** Formatted keys *)

Definition keyword_dedup_key (target : NodeId) (file_hash : Ed2kHash) (size : Z) : list Z :=
  lit "keyword:" ++ id_display target ++ lit ":" ++ hash_display file_hash ++ lit ":" ++ decimal size.
Definition source_dedup_key (target : NodeId) (source_ip : Ipv4Addr)
    (source_tcp_port source_udp_port : Z) : list Z :=
  lit "source:" ++ id_display target ++ lit ":" ++ ip_display source_ip ++ lit ":" ++
  decimal source_tcp_port ++ lit ":" ++ decimal source_udp_port.
Definition notes_dedup_key (target publisher_id : NodeId) (publisher_ip : Ipv4Addr) : list Z :=
  lit "notes:" ++ id_display target ++ lit ":" ++ id_display publisher_id ++ lit ":" ++
  ip_display publisher_ip.

(** ** Tags *)

Definition has_name (name : Z) (tag : Tag) : bool := bool_decide (tag_name tag = Short name).

Definition stock_stored_publish_tags (tags : list Tag) : list Tag :=
  List.filter (λ tag, negb (has_name PUBLISHINFO tag || has_name KADAICHHASHRESULT tag)) tags.

Definition is_integer_tag_value (value : TagValue) : bool :=
  match value with VUInt _ | VU64 _ | VU32 _ | VU16 _ | VU8 _ => true | _ => false end.

Definition stock_stored_source_publish_tags (tags : list Tag) : list Tag :=
  List.filter (λ tag, negb (has_name SERVERIP tag && negb (is_integer_tag_value (tag_value tag))))
    (stock_stored_publish_tags tags).

Definition is_stock_source_publish (tags : list Tag) : bool := existsb (has_name SOURCETYPE) tags.

(** The closure of [stock_source_tcp_port]. *)
Definition source_tcp_port_of (tag : Tag) : option Z :=
  if negb (has_name SOURCEPORT tag) then None
  else
    match tag_value tag with
    | VUInt v | VU64 v | VU32 v =>
        match try_from_u 16 v with Some port => if 0 <? port then Some port else None | None => None end
    | VU16 v | VU8 v => if 0 <? v then Some v else None
    | _ => None
    end.
Definition stock_source_tcp_port (tags : list Tag) : option Z := head (omap source_tcp_port_of tags).

(** The closure of [stock_first_filename]. *)
Definition filename_of (tag : Tag) : option (list Z) :=
  if negb (has_name FILENAME tag) then None
  else
    match tag_value tag with
    | VString (c :: value) => Some (c :: value)
    | _ => None
    end.
Definition stock_first_filename (tags : list Tag) : option (list Z) := head (omap filename_of tags).

(** The body of the loop of [stock_first_file_size_impl], on
    [(size, size_low, size_high)]. *)
Definition stock_size_step (accept_bsob_file_size : bool) (acc : option Z * option Z * option Z)
    (tag : Tag) : option Z * option Z * option Z :=
  let '(size, size_low, size_high) := acc in
  match tag_name tag, tag_value tag with
  | Short name, VUInt v =>
      if name =? FILESIZE then
        if is_u32 v then (size, get_or_insert size_low v, size_high)
        else (get_or_insert size v, size_low, size_high)
      else if (name =? FILESIZE_HI) && is_u32 v then (size, size_low, get_or_insert size_high v)
      else acc
  | Short name, VU64 v =>
      if name =? FILESIZE then (get_or_insert size v, size_low, size_high) else acc
  | Short name, (VU32 v | VU16 v | VU8 v) =>
      if name =? FILESIZE then (size, get_or_insert size_low v, size_high)
      else if name =? FILESIZE_HI then (size, size_low, get_or_insert size_high v)
      else acc
  | Short name, (VBlob bytes | VSmallBlob bytes) =>
      if (name =? FILESIZE) && accept_bsob_file_size && (zlen bytes =? 8)
      then (get_or_insert size (from_le_bytes bytes), size_low, size_high) else acc
  | _, _ => acc
  end.
Definition stock_first_file_size_impl (tags : list Tag) (accept_bsob_file_size : bool) : option Z :=
  let '(size, size_low, size_high) :=
    foldl (stock_size_step accept_bsob_file_size) (None, None, None) tags in
  match size with
  | Some s => Some s
  | None => (λ low, Z.lor (Z.shiftl (default 0 size_high) 32) low) <$> size_low
  end.
Definition stock_first_file_size (tags : list Tag) : option Z := stock_first_file_size_impl tags false.
Definition stock_first_keyword_source_file_size (tags : list Tag) : option Z :=
  stock_first_file_size_impl tags true.

Definition positive (o : option Z) : option Z :=
  match o with Some size => if 0 <? size then Some size else None | None => None end.
Definition stock_keyword_file_size (tags : list Tag) : option Z :=
  positive (stock_first_keyword_source_file_size tags).

Definition stock_file_size_matches_request (tags : list Tag) (request_size : Z)
    (accept_bsob_file_size : bool) : bool :=
  (request_size =? 0) ||
  default true ((λ size, size =? request_size) <$> stock_first_file_size_impl tags accept_bsob_file_size).
Definition stock_source_file_size_matches_request (tags : list Tag) (request_size : Z) : bool :=
  stock_file_size_matches_request tags request_size true.
Definition stock_notes_file_size_matches_request (tags : list Tag) (request_size : Z) : bool :=
  stock_file_size_matches_request tags request_size false.

Definition has_stock_keyword_filename (tags : list Tag) : bool :=
  existsb (λ tag, has_name FILENAME tag &&
    match tag_value tag with VString (_ :: _) => true | _ => false end) tags.

Definition has_stock_note_tags (tags : list Tag) : bool :=
  existsb (λ tag,
    match tag_name tag, tag_value tag with
    | Short name, value =>
        if name =? FILENAME then
          match value with VString (_ :: _) => true | _ => false end
        else if name =? FILESIZE then
          default false ((λ size, 0 <? size) <$> stock_first_file_size [tag])
        else true
    | Long _, _ => true
    end) tags.

(** ** Tags of the answers *)

Definition keyword_publish_info_tag : Tag :=
  let trust_times_100 := 1000 in
  let publishers := 1 in
  let names := 1 in
  new_short PUBLISHINFO
    (VU32 (Z.lor (Z.lor (Z.shiftl names 24) (Z.shiftl publishers 16)) trust_times_100)).

Definition stock_aich_publish_hash (tag : Tag) : option (list Z) :=
  match tag_value tag with
  | VBlob bytes | VSmallBlob bytes => if zlen bytes =? 20 then Some bytes else None
  | _ => None
  end.
Definition keyword_aich_result_tag (hash : list Z) : Tag :=
  new_short KADAICHHASHRESULT (VSmallBlob (1 :: 1 :: hash)).

(** The body of the loop of [keyword_result_tags], on [(tags, aich_result_hash)]. *)
Definition keyword_result_step (acc : list Tag * option (list Z)) (tag : Tag)
    : list Tag * option (list Z) :=
  let '(tags, aich) := acc in
  if has_name FILENAME tag || has_name FILESIZE tag then acc
  else if has_name KADAICHHASHPUB tag then
    (tags, match aich with Some h => Some h | None => stock_aich_publish_hash tag end)
  else if has_name PUBLISHINFO tag || has_name KADAICHHASHRESULT tag then acc
  else (tags ++ [tag], aich).
Definition keyword_result_tags (entry : StoredKeywordPublish) : list Tag :=
  let head_tags :=
    option_list (tag_filename <$> stock_first_filename (kw_tags entry)) ++
    option_list (tag_filesize <$> positive (stock_first_keyword_source_file_size (kw_tags entry))) in
  let '(tags, aich) := foldl keyword_result_step (head_tags, None) (kw_tags entry) in
  tags ++ [keyword_publish_info_tag] ++ option_list (keyword_aich_result_tag <$> aich).

Definition source_ip_tag (source_ip : Ipv4Addr) : Tag := new_short SOURCEIP (VU32 (ip_val source_ip)).

Definition normalized_source_port_tag (tag : Tag) : Tag :=
  match tag_value tag with
  | VUInt v => if is_u32 v then mkTag (tag_name tag) (VU32 v) else tag
  | _ => tag
  end.
Definition normalized_source_udp_port_tag (tag : Tag) : option Tag :=
  port ← match tag_value tag with
         | VUInt v | VU64 v | VU32 v => try_from_u 16 v
         | VU16 v | VU8 v => Some v
         | _ => None
         end;
  if port =? 0 then None else Some (new_short SOURCEUPORT (VU16 port)).

(** The locals of the loop of [source_result_tags]. *)
Record source_result : Type := mkSourceResult {
  sr_tags : list Tag;
  saw_source_type : bool;
  saw_source_tcp_port : bool;
  saw_source_udp_port : bool;
}.
Definition source_result_step (source_ip : Ipv4Addr) (acc : source_result) (tag : Tag)
    : source_result :=
  let 'mkSourceResult tags ty tcp udp := acc in
  if has_name SOURCETYPE tag then
    if negb ty then mkSourceResult (tags ++ [source_ip_tag source_ip; tag]) true tcp udp else acc
  else if has_name FILESIZE tag then acc
  else if has_name SOURCEPORT tag then
    if negb tcp then mkSourceResult (tags ++ [normalized_source_port_tag tag]) ty true udp else acc
  else if has_name SOURCEUPORT tag then
    if negb udp then
      match normalized_source_udp_port_tag tag with
      | Some tag' => mkSourceResult (tags ++ [tag']) ty tcp true
      | None => acc
      end
    else acc
  else mkSourceResult (tags ++ [tag]) ty tcp udp.
Definition source_result_tags (entry : StoredSourcePublish) : list Tag :=
  let head_tags :=
    option_list (tag_filesize <$> stock_first_keyword_source_file_size (src_tags entry)) in
  sr_tags (foldl (source_result_step (src_source_ip entry)) (mkSourceResult head_tags false false false)
    (src_tags entry)).

Definition notes_result_tags (entry : StoredNotesPublish) : list Tag :=
  option_list (tag_filename <$> stock_first_filename (nt_tags entry)) ++
  option_list (tag_filesize <$> positive (stock_first_file_size (nt_tags entry))) ++
  List.filter (λ tag, negb (has_name FILENAME tag || has_name FILESIZE tag)) (nt_tags entry).

Definition source_entry_id (publisher_id : NodeId) : Ed2kHash := id_to_be_bytes publisher_id.

(** ** Entries *)

Definition purge_expired {T} `{TimedEntry T} (entries : list T) (ttl now : Z) : list T :=
  List.filter (λ entry, now <? observed_at entry + ttl) entries.

(** [enumerate().min_by_key(key)]: the first position of the least key, and the
    key. *)
Fixpoint min_index {T} (key : T → Z) (l : list T) : option (nat * Z) :=
  match l with
  | [] => None
  | x :: l' =>
      match min_index key l' with
      | Some (i, k) => if key x <=? k then Some (O, key x) else Some (S i, k)
      | None => Some (O, key x)
      end
  end.

(** The eviction of the oldest entry at capacity. *)
Definition evict_oldest {T} `{TimedEntry T} (capacity : Z) (entries : list T) : list T :=
  if capacity <=? zlen entries then
    match min_index observed_at entries with
    | Some (oldest_index, _) => delete oldest_index entries
    | None => entries
    end
  else entries.

Definition upsert_entry {T} `{TimedEntry T, DedupEntry T} (entries : list T) (capacity : Z)
    (key : list Z) (entry : T) : list T :=
  match position (λ candidate, bool_decide (dedup_key candidate = key)) entries with
  | Some i => <[i := entry]> entries
  | None => evict_oldest capacity entries ++ [entry]
  end.

Definition oldest_target_entry_index {T} `{TargetedEntry T} (entries : list T) (id : NodeId)
    : option nat :=
  position (λ candidate, bool_decide (target candidate = id)) entries.

Definition target_count {T} `{TargetedEntry T} (id : NodeId) (entries : list T) : Z :=
  Z.of_nat (countb (λ candidate, bool_decide (target candidate = id)) entries).

(** The eviction of the first entry of an overfull target. *)
Definition evict_target {T} `{TargetedEntry T} (limit : Z) (id : NodeId) (entries : list T) : list T :=
  if limit <? target_count id entries then
    match oldest_target_entry_index entries id with
    | Some oldest_index => delete oldest_index entries
    | None => entries
    end
  else entries.

Definition source_matches (id : NodeId) (ip : Ipv4Addr) (tcp udp : Z) (candidate : StoredSourcePublish)
    : bool :=
  bool_decide (src_target candidate = id) && bool_decide (src_source_ip candidate = ip) &&
  ((src_source_tcp_port candidate =? tcp) || (src_source_udp_port candidate =? udp)).
Definition upsert_source_entry (entries : list StoredSourcePublish) (capacity : Z)
    (entry : StoredSourcePublish) : list StoredSourcePublish :=
  match position (source_matches (src_target entry) (src_source_ip entry) (src_source_tcp_port entry)
          (src_source_udp_port entry)) entries with
  | Some i => <[i := entry]> entries
  | None =>
      evict_oldest capacity
        (evict_target STOCK_MAX_SOURCES_PER_FILE (src_target entry) entries) ++ [entry]
  end.

Definition notes_matches (id publisher_id : NodeId) (ip : Ipv4Addr) (candidate : StoredNotesPublish)
    : bool :=
  bool_decide (nt_target candidate = id) &&
  (bool_decide (nt_publisher_ip candidate = ip) ||
   bool_decide (nt_publisher_id candidate = publisher_id)).
Definition upsert_notes_entry (entries : list StoredNotesPublish) (capacity : Z)
    (entry : StoredNotesPublish) : list StoredNotesPublish :=
  match position (notes_matches (nt_target entry) (nt_publisher_id entry) (nt_publisher_ip entry))
          entries with
  | Some i => <[i := entry]> entries
  | None =>
      evict_oldest capacity
        (evict_target STOCK_MAX_NOTES_PER_FILE (nt_target entry) entries) ++ [entry]
  end.

(** ** Loads *)

Definition source_replacement_matches (entries : list StoredSourcePublish) (id : NodeId)
    (source_ip : Ipv4Addr) (source_tcp_port source_udp_port : Z) : bool :=
  existsb (source_matches id source_ip source_tcp_port source_udp_port) entries.
Definition stock_source_publish_load (entries : list StoredSourcePublish) (id : NodeId)
    (source_ip : Ipv4Addr) (source_tcp_port source_udp_port : Z) : Z :=
  let target_count := target_count id entries in
  if target_count =? 0 then 1
  else if (STOCK_MAX_SOURCES_PER_FILE <? target_count) &&
          negb (source_replacement_matches entries id source_ip source_tcp_port source_udp_port)
  then 100
  else (target_count * 100 / STOCK_MAX_SOURCES_PER_FILE) mod 2 ^ 8.

Definition notes_replacement_matches (entries : list StoredNotesPublish) (id publisher_id : NodeId)
    (publisher_ip : Ipv4Addr) : bool :=
  existsb (notes_matches id publisher_id publisher_ip) entries.
Definition stock_notes_publish_load (entries : list StoredNotesPublish) (id publisher_id : NodeId)
    (publisher_ip : Ipv4Addr) : Z :=
  let target_count := target_count id entries in
  if target_count =? 0 then 1
  else if (STOCK_MAX_NOTES_PER_FILE <? target_count) &&
          negb (notes_replacement_matches entries id publisher_id publisher_ip)
  then 100
  else (target_count * 100 / STOCK_MAX_NOTES_PER_FILE) mod 2 ^ 8.

Definition keyword_source_count (entries : list StoredKeywordPublish) (id : NodeId) : Z :=
  Z.of_nat (size (list_to_set (C := gset Ed2kHash)
    (kw_file_hash <$> List.filter (λ entry, bool_decide (kw_target entry = id)) entries))).
Definition keyword_source_exists (entries : list StoredKeywordPublish) (id : NodeId)
    (file_hash : Ed2kHash) : bool :=
  existsb (λ entry, bool_decide (kw_target entry = id) && bool_decide (kw_file_hash entry = file_hash))
    entries.
Definition stock_keyword_publish_decision (entries : list StoredKeywordPublish) (id : NodeId)
    (file_hash : Ed2kHash) : Z * bool :=
  if STOCK_MAX_KEYWORD_ENTRIES <? zlen entries then (100, false)
  else
    let source_count := keyword_source_count entries id in
    if source_count =? 0 then (1, true)
    else if STOCK_MAX_KEYWORD_INDEX <? source_count then (100, false)
    else if keyword_source_exists entries id file_hash &&
            (STOCK_MAX_KEYWORD_INDEX - STOCK_HOT_KEYWORD_REPUBLISH_MARGIN <? source_count)
    then (100, false)
    else ((source_count * 100 / STOCK_MAX_KEYWORD_INDEX) mod 2 ^ 8, true).

(** ** Operations *)

Definition store_new (config : KadLocalStoreConfig) : KadLocalStore := mkStore config [] [] [].

Definition set_keyword (st : KadLocalStore) entries : KadLocalStore :=
  mkStore (st_config st) entries (st_source_entries st) (st_notes_entries st).
Definition set_source (st : KadLocalStore) entries : KadLocalStore :=
  mkStore (st_config st) (st_keyword_entries st) entries (st_notes_entries st).
Definition set_notes (st : KadLocalStore) entries : KadLocalStore :=
  mkStore (st_config st) (st_keyword_entries st) (st_source_entries st) entries.

(** The body of the loop of [record_keyword_publish_batch], on
    [(keyword_entries, load)]. *)
Definition keyword_publish_step (capacity : Z) (id : NodeId) (now : Z)
    (acc : list StoredKeywordPublish * Z) (entry : PublishEntry) : list StoredKeywordPublish * Z :=
  let '(entries, load) := acc in
  match stock_keyword_file_size (pe_tags entry) with
  | None => acc
  | Some size =>
      if negb (has_stock_keyword_filename (pe_tags entry)) then acc
      else
        let '(entry_load, should_store) := stock_keyword_publish_decision entries id (pe_hash entry) in
        if negb should_store then (entries, entry_load)
        else
          let key := keyword_dedup_key id (pe_hash entry) size in
          (upsert_entry entries capacity key
             (mkStoredKeyword now id (pe_hash entry) (stock_stored_publish_tags (pe_tags entry)) key),
           entry_load)
  end.
Definition record_keyword_publish_batch (st : KadLocalStore) (id : NodeId)
    (entries : list PublishEntry) (now : Z) : KadLocalStore * Z :=
  let c := st_config st in
  if negb (enabled c) then (st, 0)
  else
    let kept := purge_expired (st_keyword_entries st) (keyword_ttl c) now in
    let '(keyword_entries, load) :=
      foldl (keyword_publish_step (keyword_capacity c) id now) (kept, 0) entries in
    (set_keyword st keyword_entries, load).

Definition record_source_publish (st : KadLocalStore) (id publisher_id : NodeId)
    (source_ip : Ipv4Addr) (source_udp_port : Z) (tags : list Tag) (now : Z)
    : KadLocalStore * option Z :=
  let c := st_config st in
  if negb (enabled c) then (st, None)
  else if negb (is_stock_source_publish tags) then (st, None)
  else if bool_decide (source_ip = (0, 0, 0, 0)) || (source_udp_port =? 0) then (st, None)
  else
    match stock_source_tcp_port tags with
    | None => (st, None)
    | Some source_tcp_port =>
        let entries := purge_expired (st_source_entries st) (source_ttl c) now in
        let load := stock_source_publish_load entries id source_ip source_tcp_port source_udp_port in
        (set_source st (upsert_source_entry entries (source_capacity c)
           (mkStoredSource now id publisher_id source_ip source_tcp_port source_udp_port
              (stock_stored_source_publish_tags tags)
              (source_dedup_key id source_ip source_tcp_port source_udp_port))),
         Some load)
    end.

Definition record_notes_publish (st : KadLocalStore) (id publisher_id : NodeId)
    (publisher_ip : Ipv4Addr) (tags : list Tag) (now : Z) : KadLocalStore * option Z :=
  let c := st_config st in
  if negb (enabled c) then (st, None)
  else if bool_decide (publisher_ip = (0, 0, 0, 0)) || negb (has_stock_note_tags tags) then (st, None)
  else
    let entries := purge_expired (st_notes_entries st) (notes_ttl c) now in
    let load := stock_notes_publish_load entries id publisher_id publisher_ip in
    (set_notes st (upsert_notes_entry entries (notes_capacity c)
       (mkStoredNotes now id publisher_id publisher_ip (stock_stored_publish_tags tags)
          (notes_dedup_key id publisher_id publisher_ip))),
     Some load).

Definition search_response (sender_id id : NodeId) (results : list SearchResultEntry)
    : option SearchRes :=
  match results with [] => None | _ => Some (mkSearchRes sender_id id results) end.

Section searches.
Context (to_lowercase : list Z → list Z).

Definition keyword_entry_matches_restrictive_payload (entry : StoredKeywordPublish)
    (restrictive_payload : option (list Z)) : bool :=
  match restrictive_payload with
  | None => true
  | Some payload =>
      match stock_first_filename (kw_tags entry) with
      | None => false
      | Some filename =>
          matches_restrictive_keyword_payload to_lowercase filename (kw_tags entry) payload
      end
  end.

Definition keyword_search_response (st : KadLocalStore) (sender_id : NodeId) (request : SearchKeyReq)
    (limit now : Z) : KadLocalStore * option SearchRes :=
  let c := st_config st in
  if negb (enabled c) || (limit =? 0) then (st, None)
  else
    let restrictive_payload :=
      if negb (Z.land (sk_start_position request) 0x8000 =? 0)
      then Some (sk_restrictive_payload request) else None in
    let entries := purge_expired (st_keyword_entries st) (keyword_ttl c) now in
    let offset := Z.land (sk_start_position request) 0x7FFF in
    let results :=
      map (λ entry, mkSearchResultEntry (kw_file_hash entry) (keyword_result_tags entry))
        (take (Z.to_nat limit) (drop (Z.to_nat offset)
          (List.filter (λ entry, keyword_entry_matches_restrictive_payload entry restrictive_payload)
            (List.filter (λ entry, bool_decide (kw_target entry = sk_target request)) entries)))) in
    (set_keyword st entries, search_response sender_id (sk_target request) results).
End searches.

Definition source_search_response (st : KadLocalStore) (sender_id : NodeId)
    (request : SearchSourceReq) (limit now : Z) : KadLocalStore * option SearchRes :=
  let c := st_config st in
  if negb (enabled c) || (limit =? 0) then (st, None)
  else
    let entries := purge_expired (st_source_entries st) (source_ttl c) now in
    let offset := Z.land (ss_start_position request) 0x7FFF in
    let results :=
      map (λ entry, mkSearchResultEntry (source_entry_id (src_publisher_id entry))
                      (source_result_tags entry))
        (take (Z.to_nat limit)
          (List.filter (λ entry, stock_source_file_size_matches_request (src_tags entry) (ss_size request))
            (drop (Z.to_nat offset)
              (List.filter (λ entry, bool_decide (src_target entry = ss_target request))
                (rev entries))))) in
    (set_source st entries, search_response sender_id (ss_target request) results).

Definition notes_search_response (st : KadLocalStore) (sender_id : NodeId)
    (request : SearchNotesReq) (limit now : Z) : KadLocalStore * option SearchRes :=
  let c := st_config st in
  if negb (enabled c) || (limit =? 0) then (st, None)
  else
    let entries := purge_expired (st_notes_entries st) (notes_ttl c) now in
    let results :=
      map (λ entry, mkSearchResultEntry (id_to_be_bytes (nt_publisher_id entry))
                      (notes_result_tags entry))
        (take (Z.to_nat limit)
          (List.filter (λ entry, stock_notes_file_size_matches_request (nt_tags entry)
                                   (sn_size request))
            (List.filter (λ entry, bool_decide (nt_target entry = sn_target request))
              (rev entries)))) in
    (set_notes st entries, search_response sender_id (sn_target request) results).

(** ** Invariant *)

(** What a stored keyword entry has: a name, a size, and the key made of them. *)
Definition keyword_entry_ok (e : StoredKeywordPublish) : Prop :=
  is_Some (stock_first_filename (kw_tags e)) ∧
  ∃ size, stock_keyword_file_size (kw_tags e) = Some size ∧
    kw_dedup_key e = keyword_dedup_key (kw_target e) (kw_file_hash e) size.
Definition source_entry_ok (e : StoredSourcePublish) : Prop :=
  src_source_ip e ≠ (0, 0, 0, 0) ∧ src_source_udp_port e ≠ 0 ∧ 0 < src_source_tcp_port e ∧
  is_stock_source_publish (src_tags e) = true.
Definition notes_entry_ok (e : StoredNotesPublish) : Prop := nt_publisher_ip e ≠ (0, 0, 0, 0).

Record keyword_ok (c : KadLocalStoreConfig) (l : list StoredKeywordPublish) : Prop := {
  ko_capacity : zlen l ≤ keyword_capacity c;
  ko_keys : NoDup (dedup_key <$> l);
  ko_entries : Forall keyword_entry_ok l;
}.
Record source_ok (c : KadLocalStoreConfig) (l : list StoredSourcePublish) : Prop := {
  so_capacity : zlen l ≤ source_capacity c;
  so_targets : ∀ id, target_count id l ≤ STOCK_MAX_SOURCES_PER_FILE + 1;
  so_entries : Forall source_entry_ok l;
}.
Record notes_ok (c : KadLocalStoreConfig) (l : list StoredNotesPublish) : Prop := {
  no_capacity : zlen l ≤ notes_capacity c;
  no_targets : ∀ id, target_count id l ≤ STOCK_MAX_NOTES_PER_FILE + 1;
  no_entries : Forall notes_entry_ok l;
}.
Definition store_ok (st : KadLocalStore) : Prop :=
  keyword_ok (st_config st) (st_keyword_entries st) ∧
  source_ok (st_config st) (st_source_entries st) ∧
  notes_ok (st_config st) (st_notes_entries st).

Definition wf_store_config (c : KadLocalStoreConfig) : Prop :=
  1 ≤ keyword_capacity c ∧ 1 ≤ source_capacity c ∧ 1 ≤ notes_capacity c.

Inductive store_op : Type :=
| PublishKeyword (id : NodeId) (entries : list PublishEntry) (now : Z)
| PublishSource (id publisher_id : NodeId) (ip : Ipv4Addr) (udp_port : Z) (tags : list Tag) (now : Z)
| PublishNotes (id publisher_id : NodeId) (ip : Ipv4Addr) (tags : list Tag) (now : Z)
| SearchKeyword (sender_id : NodeId) (request : SearchKeyReq) (limit now : Z)
| SearchSource (sender_id : NodeId) (request : SearchSourceReq) (limit now : Z)
| SearchNotes (sender_id : NodeId) (request : SearchNotesReq) (limit now : Z).
Definition run_store_op (to_lowercase : list Z → list Z) (st : KadLocalStore) (o : store_op)
    : KadLocalStore :=
  match o with
  | PublishKeyword id entries now => fst (record_keyword_publish_batch st id entries now)
  | PublishSource id pid ip udp tags now => fst (record_source_publish st id pid ip udp tags now)
  | PublishNotes id pid ip tags now => fst (record_notes_publish st id pid ip tags now)
  | SearchKeyword sid req limit now => fst (keyword_search_response to_lowercase st sid req limit now)
  | SearchSource sid req limit now => fst (source_search_response st sid req limit now)
  | SearchNotes sid req limit now => fst (notes_search_response st sid req limit now)
  end.

(** ** Lemmas *)

(** *** Lists *)

Lemma NoDup_fmap_sublist {A B} (f : A → B) l k : NoDup (f <$> k) → sublist l k → NoDup (f <$> l).
Proof.
  intros Hk Hs. eapply sublist_NoDup; [exact Hk|]. clear Hk.
  induction Hs; cbn; by constructor.
Qed.


Lemma countb_insert {A} (f : A → bool) l i x y :
  l !! i = Some x → f x = f y → countb f (<[i := y]> l) = countb f l.
Proof.
  revert i. induction l as [|z l IH]; intros [|i] Hi Hf; try done; cbn in Hi |- *.
  - injection Hi as ->. change (countb f (y :: l) = countb f (x :: l)). by rewrite !countb_cons, Hf.
  - change (countb f (z :: <[i := y]> l) = countb f (z :: l)). rewrite !countb_cons. by rewrite IH.
Qed.

Lemma countb_delete {A} (f : A → bool) l i x :
  l !! i = Some x → f x = true → countb f l = S (countb f (delete i l)).
Proof.
  revert i. induction l as [|z l IH]; intros [|i] Hi Hf; try done; cbn in Hi |- *.
  - injection Hi as ->. change (countb f (x :: l) = S (countb f l)). by rewrite countb_cons, Hf.
  - change (countb f (z :: l) = S (countb f (z :: delete i l))). rewrite !countb_cons, (IH i) by done.
    destruct (f z); lia.
Qed.

Lemma min_index_lookup {T} (key : T → Z) l : l ≠ [] → ∃ i x, min_index key l = Some (i, key x) ∧ l !! i = Some x.
Proof.
  induction l as [|x l IH]; [done|]. intros _. cbn [min_index]. destruct l as [|y l].
  { by exists O, x. }
  destruct IH as (i & z & -> & Hz); [done|].
  destruct (key x <=? key z); [by exists O, x|]. by exists (S i), z.
Qed.

Lemma sublist_evict_oldest {T} `{TimedEntry T} capacity (l : list T) :
  sublist (evict_oldest capacity l) l.
Proof. unfold evict_oldest. repeat case_match; try done. apply sublist_delete. Qed.

Lemma evict_oldest_room {T} `{TimedEntry T} capacity (l : list T) :
  1 ≤ capacity → zlen l ≤ capacity → zlen (evict_oldest capacity l) < capacity.
Proof.
  intros Hc Hl. unfold evict_oldest. destruct (Z.leb_spec capacity (zlen l)) as [Hfull|]; [|done].
  destruct (min_index_lookup observed_at l) as (i & x & -> & Hi).
  { intros ->. cbn in *. unfold zlen in *. cbn in *. lia. }
  apply lookup_lt_Some in Hi as Hlt. unfold zlen in *. rewrite length_delete by eauto. lia.
Qed.

Lemma sublist_evict_target {T} `{TargetedEntry T} limit id (l : list T) :
  sublist (evict_target limit id l) l.
Proof. unfold evict_target. repeat case_match; try done. apply sublist_delete. Qed.

Lemma target_count_sublist {T} `{TargetedEntry T} id (l k : list T) :
  sublist l k → target_count id l ≤ target_count id k.
Proof. intros Hs. unfold target_count. pose proof (countb_sublist (λ c, bool_decide (target c = id)) l k Hs). lia. Qed.

Lemma evict_target_room {T} `{TargetedEntry T} limit id (l : list T) :
  0 ≤ limit → target_count id l ≤ limit + 1 → target_count id (evict_target limit id l) ≤ limit.
Proof.
  intros H0 Hl. unfold evict_target. destruct (Z.ltb_spec limit (target_count id l)) as [Hfull|]; [|done].
  unfold oldest_target_entry_index.
  destruct (position _ l) as [i|] eqn:Hp.
  - apply position_Some in Hp as (x & Hi & Hx).
    unfold target_count in *. rewrite (countb_delete _ l i x Hi Hx) in *. lia.
  - apply position_None, countb_zero in Hp. unfold target_count in *. lia.
Qed.

Lemma target_count_snoc {T} `{TargetedEntry T} id (l : list T) x :
  target_count id (l ++ [x]) = target_count id l + (if bool_decide (target x = id) then 1 else 0).
Proof.
  unfold target_count. rewrite countb_app, countb_cons, countb_nil. destruct (bool_decide _); lia.
Qed.

(** *** Stored tags *)

Lemma foldl_filter {A B} (f : A → B → A) (g : B → bool) l acc :
  (∀ acc x, g x = false → f acc x = acc) → foldl f acc (List.filter g l) = foldl f acc l.
Proof.
  intros Hf. revert acc. induction l as [|x l IH]; intros acc; [done|]. cbn.
  destruct (g x) eqn:Hg; cbn; [apply IH|]. by rewrite IH, (Hf acc x Hg).
Qed.

Lemma omap_filter {A B} (f : A → option B) (g : A → bool) l :
  (∀ x, g x = false → f x = None) → omap f (List.filter g l) = omap f l.
Proof.
  intros Hf. induction l as [|x l IH]; [done|]. cbn. destruct (g x) eqn:Hg; cbn.
  - change (match f x with Some y => y :: omap f (List.filter g l) | None => omap f (List.filter g l) end =
      match f x with Some y => y :: omap f l | None => omap f l end). by rewrite IH.
  - change (omap f (List.filter g l) = match f x with Some y => y :: omap f l | None => omap f l end).
    by rewrite (Hf x Hg).
Qed.

Lemma has_name_true name tag : has_name name tag = true ↔ tag_name tag = Short name.
Proof. apply bool_decide_eq_true. Qed.

(** A tag of another name leaves the file size alone. *)
Lemma stock_size_step_other b acc tag name :
  has_name name tag = true → name ≠ FILESIZE → name ≠ FILESIZE_HI → stock_size_step b acc tag = acc.
Proof.
  intros Hn%has_name_true H1%Z.eqb_neq H2%Z.eqb_neq. destruct acc as [[size lo] hi].
  unfold stock_size_step. rewrite Hn. by destruct (tag_value tag); rewrite ?H1, ?H2.
Qed.

Lemma stored_tags_dropped tag :
  negb (has_name PUBLISHINFO tag || has_name KADAICHHASHRESULT tag) = false →
  has_name PUBLISHINFO tag = true ∨ has_name KADAICHHASHRESULT tag = true.
Proof. rewrite negb_false_iff, orb_true_iff. done. Qed.

Lemma stored_tags_size b tags :
  stock_first_file_size_impl (stock_stored_publish_tags tags) b = stock_first_file_size_impl tags b.
Proof.
  unfold stock_first_file_size_impl, stock_stored_publish_tags. rewrite foldl_filter; [done|].
  intros acc tag [H|H]%stored_tags_dropped; by eapply stock_size_step_other.
Qed.

Lemma has_name_unique a b tag : has_name a tag = true → a ≠ b → has_name b tag = false.
Proof.
  intros Ha%has_name_true Hab. apply bool_decide_eq_false. congruence.
Qed.

Lemma stored_tags_filename tags :
  stock_first_filename (stock_stored_publish_tags tags) = stock_first_filename tags.
Proof.
  unfold stock_first_filename, stock_stored_publish_tags. rewrite omap_filter; [done|].
  intros tag Hd%stored_tags_dropped. unfold filename_of.
  destruct Hd as [H|H]; by rewrite (has_name_unique _ FILENAME tag H) by done.
Qed.

Lemma keyword_filename_spec tags :
  has_stock_keyword_filename tags = true ↔ is_Some (stock_first_filename tags).
Proof.
  unfold has_stock_keyword_filename, stock_first_filename.
  induction tags as [|tag tags IH]; [by split; [|intros []]|].
  cbn [existsb]. change (omap filename_of (tag :: tags)) with
    (match filename_of tag with Some y => y :: omap filename_of tags | None => omap filename_of tags end).
  unfold filename_of at 1. destruct (has_name FILENAME tag); cbn [negb andb orb]; [|done].
  destruct (tag_value tag) as [|[|c s]| | | | | | | | |]; cbn [orb]; done.
Qed.

Lemma stored_source_tags_type tags :
  is_stock_source_publish tags = true →
  is_stock_source_publish (stock_stored_source_publish_tags tags) = true.
Proof.
  unfold is_stock_source_publish. rewrite !existsb_exists. intros (tag & Hin & Hn).
  exists tag. split; [|done]. unfold stock_stored_source_publish_tags, stock_stored_publish_tags.
  rewrite !filter_In. rewrite (has_name_unique _ PUBLISHINFO _ Hn),
    (has_name_unique _ KADAICHHASHRESULT _ Hn), (has_name_unique _ SERVERIP _ Hn) by done. done.
Qed.

(** *** Entries *)

Lemma elem_of_upsert {T} (f : T → bool) (l k : list T) (x : T) :
  x ∈ match position f l with Some i => <[i := x]> l | None => k ++ [x] end.
Proof.
  destruct (position f l) as [i|] eqn:Hp.
  - apply position_Some in Hp as (y & Hi & _). apply list_elem_of_insert. by eapply lookup_lt_Some.
  - apply elem_of_app. right. by apply list_elem_of_singleton.
Qed.

Lemma Forall_upsert {T} (P : T → Prop) (f : T → bool) (l k : list T) (x : T) :
  Forall P l → sublist k l → P x →
  Forall P (match position f l with Some i => <[i := x]> l | None => k ++ [x] end).
Proof.
  intros Hl Hk Hx. destruct (position f l).
  - by apply Forall_insert.
  - apply Forall_app. split; [|by constructor]. by eapply Forall_sublist.
Qed.

Lemma zlen_upsert {T} (f : T → bool) (l k : list T) (x : T) capacity :
  zlen l ≤ capacity → zlen k < capacity →
  zlen (match position f l with Some i => <[i := x]> l | None => k ++ [x] end) ≤ capacity.
Proof.
  intros Hl Hk. destruct (position f l).
  - unfold zlen in *. by rewrite length_insert.
  - rewrite zlen_app, zlen_cons, zlen_nil. lia.
Qed.

Lemma target_count_upsert {T} `{TargetedEntry T, TimedEntry T} (f : T → bool) (l : list T) x limit
    capacity id :
  0 ≤ limit → (∀ y, f y = true → target y = target x) →
  (∀ id, target_count id l ≤ limit + 1) →
  target_count id (match position f l with Some i => <[i := x]> l
    | None => evict_oldest capacity (evict_target limit (target x) l) ++ [x] end) ≤ limit + 1.
Proof.
  intros Hlim Hf Hl. destruct (position f l) as [i|] eqn:Hp.
  - apply position_Some in Hp as (y & Hi & Hy). unfold target_count.
    rewrite (countb_insert _ l i y x Hi) by (by rewrite (Hf y Hy)). apply Hl.
  - rewrite target_count_snoc.
    pose proof (target_count_sublist id _ _
      (sublist_evict_oldest capacity (evict_target limit (target x) l))) as Hsub.
    case_bool_decide as Hx.
    + rewrite Hx in *. pose proof (evict_target_room limit id l Hlim (Hl id)). lia.
    + pose proof (target_count_sublist id _ _ (sublist_evict_target limit (target x) l)).
      specialize (Hl id). lia.
Qed.

Lemma upsert_keys {T} `{TimedEntry T, DedupEntry T} (l : list T) capacity x :
  NoDup (dedup_key <$> l) → NoDup (dedup_key <$> upsert_entry l capacity (dedup_key x) x).
Proof.
  intros Hl. unfold upsert_entry. destruct (position _ l) as [i|] eqn:Hp.
  - apply position_Some in Hp as (y & Hi & Hy%bool_decide_eq_true).
    rewrite list_fmap_insert, list_insert_id; [done|]. rewrite list_lookup_fmap, Hi. cbn. by rewrite Hy.
  - rewrite fmap_app. apply NoDup_app. split; [|split].
    + eapply NoDup_fmap_sublist; [done|apply sublist_evict_oldest].
    + intros k Hk Hk'. cbn in Hk'. apply list_elem_of_singleton in Hk' as ->.
      apply list_elem_of_fmap in Hk as (y & Hy & Hin). apply position_None in Hp.
      rewrite Forall_forall in Hp.
      pose proof (elem_of_sublist _ _ y Hin (sublist_evict_oldest capacity l)) as Hin'.
      specialize (Hp y Hin'). apply bool_decide_eq_false in Hp. congruence.
    + cbn. apply NoDup_singleton.
Qed.

(** *** Operations keep the invariant *)

Lemma keyword_ok_sublist c l k : keyword_ok c k → sublist l k → keyword_ok c l.
Proof.
  intros [Hc Hk He] Hs. pose proof (zlen_sublist _ _ Hs). split; [lia| |].
  - by eapply NoDup_fmap_sublist.
  - by eapply Forall_sublist.
Qed.
Lemma source_ok_sublist c l k : source_ok c k → sublist l k → source_ok c l.
Proof.
  intros [Hc Ht He] Hs. pose proof (zlen_sublist _ _ Hs). split; [lia| |by eapply Forall_sublist].
  intros id. pose proof (target_count_sublist id _ _ Hs). specialize (Ht id). lia.
Qed.
Lemma notes_ok_sublist c l k : notes_ok c k → sublist l k → notes_ok c l.
Proof.
  intros [Hc Ht He] Hs. pose proof (zlen_sublist _ _ Hs). split; [lia| |by eapply Forall_sublist].
  intros id. pose proof (target_count_sublist id _ _ Hs). specialize (Ht id). lia.
Qed.

Lemma sublist_purge {T} `{TimedEntry T} (l : list T) ttl now : sublist (purge_expired l ttl now) l.
Proof. apply filter_sublist. Qed.

Lemma keyword_upsert_ok c l e : 1 ≤ keyword_capacity c → keyword_ok c l → keyword_entry_ok e →
  keyword_ok c (upsert_entry l (keyword_capacity c) (dedup_key e) e).
Proof.
  intros Hcap [Hc Hk He] Hok. split.
  - apply zlen_upsert; [done|by apply evict_oldest_room].
  - by apply upsert_keys.
  - apply Forall_upsert; [done|apply sublist_evict_oldest|done].
Qed.

Lemma source_upsert_ok c l e : 1 ≤ source_capacity c → source_ok c l → source_entry_ok e →
  source_ok c (upsert_source_entry l (source_capacity c) e).
Proof.
  intros Hcap [Hc Ht He] Hok. pose proof (sublist_evict_target STOCK_MAX_SOURCES_PER_FILE (src_target e) l) as Hsub.
  split.
  - apply zlen_upsert; [done|]. apply evict_oldest_room; [done|].
    etransitivity; [by apply zlen_sublist|done].
  - intros id. apply target_count_upsert; [done| |done].
    intros y Hy. unfold source_matches in Hy. by bool_hyps.
  - apply Forall_upsert; [done| |done]. etransitivity; [apply sublist_evict_oldest|done].
Qed.

Lemma notes_upsert_ok c l e : 1 ≤ notes_capacity c → notes_ok c l → notes_entry_ok e →
  notes_ok c (upsert_notes_entry l (notes_capacity c) e).
Proof.
  intros Hcap [Hc Ht He] Hok. pose proof (sublist_evict_target STOCK_MAX_NOTES_PER_FILE (nt_target e) l) as Hsub.
  split.
  - apply zlen_upsert; [done|]. apply evict_oldest_room; [done|].
    etransitivity; [by apply zlen_sublist|done].
  - intros id. apply target_count_upsert; [done| |done].
    intros y Hy. unfold notes_matches in Hy. by bool_hyps.
  - apply Forall_upsert; [done| |done]. etransitivity; [apply sublist_evict_oldest|done].
Qed.

Lemma keyword_step_ok c id now l load e : 1 ≤ keyword_capacity c → keyword_ok c l →
  keyword_ok c (fst (keyword_publish_step (keyword_capacity c) id now (l, load) e)).
Proof.
  intros Hcap Hl. unfold keyword_publish_step.
  destruct (stock_keyword_file_size (pe_tags e)) as [size|] eqn:Hsize; [|done].
  destruct (has_stock_keyword_filename (pe_tags e)) eqn:Hname; cbn [negb]; [|done].
  destruct (stock_keyword_publish_decision l id (pe_hash e)) as [load' []]; cbn [negb fst]; [|done].
  apply (keyword_upsert_ok c l (mkStoredKeyword now id (pe_hash e)
    (stock_stored_publish_tags (pe_tags e)) (keyword_dedup_key id (pe_hash e) size))); [done|done|].
  split; cbn.
  - rewrite stored_tags_filename. by apply keyword_filename_spec.
  - exists size. split; [|done]. unfold stock_keyword_file_size, stock_first_keyword_source_file_size in *.
    by rewrite stored_tags_size.
Qed.

Lemma keyword_batch_ok c id now es l load : 1 ≤ keyword_capacity c → keyword_ok c l →
  keyword_ok c (fst (foldl (keyword_publish_step (keyword_capacity c) id now) (l, load) es)).
Proof.
  intros Hcap. revert l load. induction es as [|e es IH]; intros l load Hl; [done|]. cbn [foldl].
  pose proof (keyword_step_ok c id now l load e Hcap Hl) as Hstep.
  destruct (keyword_publish_step _ _ _ _ _) as [l' load']. by apply IH.
Qed.

Lemma source_tcp_port_positive tags port : stock_source_tcp_port tags = Some port → 0 < port.
Proof.
  unfold stock_source_tcp_port. induction tags as [|tag tags IH]; [done|].
  change (omap source_tcp_port_of (tag :: tags)) with
    (match source_tcp_port_of tag with
     | Some y => y :: omap source_tcp_port_of tags | None => omap source_tcp_port_of tags end).
  destruct (source_tcp_port_of tag) as [p|] eqn:Hp; [|done]. cbn. intros [= ->].
  unfold source_tcp_port_of in Hp. repeat case_match; simplify_eq; lia.
Qed.

Lemma store_new_ok config : wf_store_config config → store_ok (store_new config).
Proof.
  intros (? & ? & ?). split; [|split]; split; cbn [store_new st_config st_keyword_entries
    st_source_entries st_notes_entries]; rewrite ?zlen_nil; try lia; try apply Forall_nil_2;
    try apply NoDup_nil_2; done.
Qed.

Lemma run_store_op_ok to_lowercase st o : wf_store_config (st_config st) → store_ok st →
  store_ok (run_store_op to_lowercase st o) ∧ st_config (run_store_op to_lowercase st o) = st_config st.
Proof.
  intros (Hck & Hcs & Hcn) (Hk & Hs & Hn). destruct o; cbn [run_store_op].
  - unfold record_keyword_publish_batch. destruct (enabled _); [|done]. cbn [negb].
    pose proof (keyword_batch_ok (st_config st) id now entries _ 0 Hck
      (keyword_ok_sublist _ _ _ Hk (sublist_purge _ (keyword_ttl (st_config st)) now))) as H.
    destruct (foldl _ _ entries) as [l load]. by split.
  - unfold record_source_publish. destruct (enabled _); [|done]. cbn [negb].
    destruct (is_stock_source_publish tags) eqn:Hty; [|done]. cbn [negb].
    destruct (bool_decide _ || _) eqn:Hz; [done|]. apply orb_false_iff in Hz as [Hip Hudp].
    destruct (stock_source_tcp_port tags) as [tcp|] eqn:Htcp; [|done]. split; [|done].
    split; [done|]. split; [|done]. apply source_upsert_ok; [done| |].
    + eapply source_ok_sublist; [done|apply sublist_purge].
    + repeat split; cbn.
      * by apply bool_decide_eq_false in Hip.
      * lia.
      * by eapply source_tcp_port_positive.
      * by apply stored_source_tags_type.
  - unfold record_notes_publish. destruct (enabled _); [|done]. cbn [negb].
    destruct (bool_decide _ || _) eqn:Hz; [done|]. apply orb_false_iff in Hz as [Hip _].
    split; [|done]. split; [done|]. split; [done|]. apply notes_upsert_ok; [done| |].
    + eapply notes_ok_sublist; [done|apply sublist_purge].
    + by apply bool_decide_eq_false in Hip.
  - unfold keyword_search_response. destruct (negb _ || _); [done|]. split; [|done].
    split; [|done]. eapply keyword_ok_sublist; [done|apply sublist_purge].
  - unfold source_search_response. destruct (negb _ || _); [done|]. split; [|done].
    split; [done|]. split; [|done]. eapply source_ok_sublist; [done|apply sublist_purge].
  - unfold notes_search_response. destruct (negb _ || _); [done|]. split; [|done].
    split; [done|]. split; [done|]. eapply notes_ok_sublist; [done|apply sublist_purge].
Qed.

(** *** Loads *)

Lemma percent_bounds count limit : 0 < limit → 0 ≤ count ≤ limit + 1 → 100 < limit →
  0 ≤ (count * 100 / limit) mod 2 ^ 8 ≤ 100.
Proof.
  intros Hl Hc Hb. assert (0 ≤ count * 100 / limit ≤ 100).
  { split; [apply Z.div_pos; lia|]. apply Z.lt_succ_r. apply Z.div_lt_upper_bound; lia. }
  rewrite Z.mod_small; lia.
Qed.

Lemma target_count_nonneg {T} `{TargetedEntry T} id (l : list T) : 0 ≤ target_count id l.
Proof. unfold target_count. lia. Qed.

Lemma source_load_bounds l id ip tcp udp : target_count id l ≤ STOCK_MAX_SOURCES_PER_FILE + 1 →
  0 ≤ stock_source_publish_load l id ip tcp udp ≤ 100.
Proof.
  intros Hl. unfold stock_source_publish_load. repeat case_match; try lia.
  apply percent_bounds; [done| |done]. pose proof (target_count_nonneg id l). lia.
Qed.

Lemma notes_load_bounds l id pid ip : target_count id l ≤ STOCK_MAX_NOTES_PER_FILE + 1 →
  0 ≤ stock_notes_publish_load l id pid ip ≤ 100.
Proof.
  intros Hl. unfold stock_notes_publish_load. repeat case_match; try lia.
  apply percent_bounds; [done| |done]. pose proof (target_count_nonneg id l). lia.
Qed.

Lemma keyword_decision_bounds l id hash : 0 ≤ fst (stock_keyword_publish_decision l id hash) ≤ 100.
Proof.
  unfold stock_keyword_publish_decision. repeat case_match; cbn; try lia.
  apply percent_bounds; [done| |done]. unfold keyword_source_count in *. lia.
Qed.

Lemma keyword_batch_load c id now es l load : 0 ≤ load ≤ 100 →
  0 ≤ snd (foldl (keyword_publish_step c id now) (l, load) es) ≤ 100.
Proof.
  revert l load. induction es as [|e es IH]; intros l load Hl; [done|]. cbn [foldl].
  assert (Hstep : 0 ≤ snd (keyword_publish_step c id now (l, load) e) ≤ 100).
  { unfold keyword_publish_step. pose proof (keyword_decision_bounds l id (pe_hash e)) as Hd.
    destruct (stock_keyword_publish_decision l id (pe_hash e)) as [d b]. cbn [fst] in Hd.
    repeat case_match; simplify_eq; cbn; lia. }
  destruct (keyword_publish_step _ _ _ _ _) as [l' load']. by apply IH.
Qed.

(** *** Answers *)

Lemma elem_of_purge {T} `{TimedEntry T} (l : list T) ttl now x :
  x ∈ purge_expired l ttl now ↔ x ∈ l ∧ now < observed_at x + ttl.
Proof.
  unfold purge_expired. rewrite !list_elem_of_In, filter_In. by rewrite Z.ltb_lt.
Qed.

(** The results of an answer, none when there is no answer. *)
Definition results (r : option SearchRes) : list SearchResultEntry :=
  match r with Some r => sr_results r | None => [] end.

Lemma results_search_response sender id l : results (search_response sender id l) = l.
Proof. by destruct l. Qed.

Lemma elem_of_take_all {A} (l : list A) limit x : x ∈ l → zlen l ≤ limit → x ∈ take (Z.to_nat limit) l.
Proof. intros Hx Hl. rewrite take_ge; [done|]. unfold zlen in Hl. lia. Qed.

Lemma purge_idemp {T} `{TimedEntry T} (l : list T) ttl now :
  purge_expired (purge_expired l ttl now) ttl now = purge_expired l ttl now.
Proof.
  unfold purge_expired. induction l as [|x l IH]; [done|]. cbn.
  destruct (now <? observed_at x + ttl) eqn:Hx; cbn; rewrite ?Hx; by rewrite IH.
Qed.

(** *** Sizes of the answers *)

Lemma size_found b tags s : stock_first_file_size_impl tags b = Some s →
  (0 < countb (has_name FILESIZE) tags)%nat.
Proof.
  intros Hs. destruct (countb (has_name FILESIZE) tags) eqn:Hc; [|lia].
  apply countb_zero in Hc. exfalso.
  assert (Hfold : ∀ hi, ∃ hi', foldl (stock_size_step b) (None, None, hi) tags = (None, None, hi')).
  { clear Hs. induction Hc as [|tag tags Ht _ IH]; intros hi; [by exists hi|]. cbn [foldl].
    assert (Hstep : ∃ hi', stock_size_step b (None, None, hi) tag = (None, None, hi')).
    { unfold stock_size_step. apply bool_decide_eq_false in Ht.
      destruct (tag_name tag) as [name|]; [|by eexists].
      assert (Hn : (name =? FILESIZE) = false) by (apply Z.eqb_neq; congruence).
      destruct (tag_value tag); rewrite ?Hn; cbn [andb]; repeat case_match; by eexists. }
    destruct Hstep as [hi' ->]. apply IH. }
  unfold stock_first_file_size_impl in Hs. destruct (Hfold None) as [hi' Hf]. by rewrite Hf in Hs.
Qed.

Lemma filename_found tags s : stock_first_filename tags = Some s →
  ∃ tag, tag ∈ tags ∧ has_name FILENAME tag = true ∧ tag_value tag = VString s.
Proof.
  unfold stock_first_filename. induction tags as [|tag tags IH]; [done|].
  change (omap filename_of (tag :: tags)) with
    (match filename_of tag with Some y => y :: omap filename_of tags | None => omap filename_of tags end).
  destruct (filename_of tag) as [f|] eqn:Hf.
  - cbn. intros [= ->]. exists tag. split; [by left|]. unfold filename_of in Hf.
    destruct (has_name FILENAME tag); [|done]. cbn in Hf. by repeat case_match; simplify_eq.
  - intros Hs. destruct (IH Hs) as (t & Ht & ?). exists t. split; [by right|done].
Qed.


(** The tags a keyword answer copies. *)
Definition keyword_copied (tag : Tag) : bool :=
  negb (has_name FILENAME tag || has_name FILESIZE tag) && negb (has_name KADAICHHASHPUB tag) &&
  negb (has_name PUBLISHINFO tag || has_name KADAICHHASHRESULT tag).
Definition aich_of (tag : Tag) : option (list Z) :=
  if has_name KADAICHHASHPUB tag then stock_aich_publish_hash tag else None.

Lemma keyword_fold_tags tags acc :
  foldl keyword_result_step acc tags =
  (fst acc ++ List.filter keyword_copied tags, or_first (snd acc) (omap aich_of tags)).
Proof.
  revert acc. induction tags as [|tag tags IH]; intros [ts aich].
  { cbn. rewrite app_nil_r. by destruct aich. }
  cbn [foldl]. rewrite IH.
  change (omap aich_of (tag :: tags)) with
    (match aich_of tag with Some y => y :: omap aich_of tags | None => omap aich_of tags end).
  assert (Ha : aich_of tag = if has_name KADAICHHASHPUB tag then stock_aich_publish_hash tag else None)
    by done.
  rewrite Ha. clear Ha. unfold keyword_result_step. cbn [List.filter]. unfold keyword_copied at 2.
  destruct (has_name FILENAME tag || has_name FILESIZE tag) eqn:Hf.
  { assert (Hp : has_name KADAICHHASHPUB tag = false).
    { apply orb_true_iff in Hf as [H|H]; by apply (has_name_unique _ KADAICHHASHPUB) in H. }
    by rewrite Hp. }
  destruct (has_name KADAICHHASHPUB tag) eqn:Hp; cbn [negb andb fst snd].
  { by destruct aich, (stock_aich_publish_hash tag). }
  destruct (has_name PUBLISHINFO tag || has_name KADAICHHASHRESULT tag); cbn [negb fst snd]; [done|].
  by rewrite <- app_assoc.
Qed.

Lemma aich_found tags h : head (omap aich_of tags) = Some h →
  (0 < countb (has_name KADAICHHASHPUB) tags)%nat ∧ zlen h = 20.
Proof.
  induction tags as [|tag tags IH]; [done|]. rewrite countb_cons.
  change (omap aich_of (tag :: tags)) with
    (match aich_of tag with Some y => y :: omap aich_of tags | None => omap aich_of tags end).
  destruct (aich_of tag) as [y|] eqn:Hy.
  - cbn. intros [= ->]. unfold aich_of in Hy. destruct (has_name KADAICHHASHPUB tag); [|done].
    split; [lia|]. unfold stock_aich_publish_hash in Hy. repeat case_match; simplify_eq; lia.
  - intros Hh. destruct (IH Hh). split; [|done]. destruct (has_name _ _); lia.
Qed.

(** Tags of distinct names do not overlap. *)
Lemma keyword_counts tags :
  (countb keyword_copied tags + countb (has_name FILENAME) tags + countb (has_name FILESIZE) tags +
   countb (has_name KADAICHHASHPUB) tags ≤ length tags)%nat.
Proof.
  induction tags as [|tag tags IH]; [done|]. rewrite !countb_cons. cbn [length].
  unfold keyword_copied at 1. destruct (has_name FILENAME tag) eqn:H1.
  { rewrite (has_name_unique _ FILESIZE tag H1), (has_name_unique _ KADAICHHASHPUB tag H1) by done.
    cbn [negb orb andb]. lia. }
  destruct (has_name FILESIZE tag) eqn:H2.
  { rewrite (has_name_unique _ KADAICHHASHPUB tag H2) by done. cbn [negb orb andb]. lia. }
  destruct (has_name KADAICHHASHPUB tag); cbn [negb orb andb]; [lia|].
  destruct (_ || _); cbn [negb]; lia.
Qed.

Lemma length_filter_countb {A} (f : A → bool) l : length (List.filter f l) = countb f l.
Proof. induction l as [|x l IH]; [done|]. rewrite countb_cons. cbn. destruct (f x); cbn; by rewrite IH. Qed.

Lemma keyword_result_count e : zlen (keyword_result_tags e) ≤ zlen (kw_tags e) + 1.
Proof.
  unfold keyword_result_tags. rewrite keyword_fold_tags. cbn [fst snd or_first].
  pose proof (keyword_counts (kw_tags e)) as Hc. unfold zlen.
  rewrite !length_app, length_filter_countb. cbn [length].
  assert (Hn : (length (option_list (tag_filename <$> stock_first_filename (kw_tags e)))
    ≤ countb (has_name FILENAME) (kw_tags e))%nat).
  { destruct (stock_first_filename _) as [s|] eqn:Hs; cbn; [|lia].
    apply filename_found in Hs as (tag & Hin & Hn & _). by apply (countb_elem _ _ tag). }
  assert (Hz : (length (option_list (tag_filesize <$>
    positive (stock_first_keyword_source_file_size (kw_tags e))))
    ≤ countb (has_name FILESIZE) (kw_tags e))%nat).
  { destruct (stock_first_keyword_source_file_size _) as [s|] eqn:Hs; cbn; [|lia].
    apply size_found in Hs. destruct (0 <? s); cbn; lia. }
  assert (Ha : (length (option_list (keyword_aich_result_tag <$> head (omap aich_of (kw_tags e))))
    ≤ countb (has_name KADAICHHASHPUB) (kw_tags e))%nat).
  { destruct (head _) as [h|] eqn:Hh; cbn; [|lia]. apply aich_found in Hh. lia. }
  lia.
Qed.

Lemma source_fold_count ip tags acc :
  Z.of_nat (length (sr_tags (foldl (source_result_step ip) acc tags))) +
    Z.of_nat (countb (has_name FILESIZE) tags) ≤
  Z.of_nat (length (sr_tags acc)) + (if saw_source_type acc then 0 else 1) + Z.of_nat (length tags).
Proof.
  revert acc. induction tags as [|tag tags IH]; intros acc.
  { rewrite countb_nil. cbn [foldl length]. destruct (saw_source_type acc); lia. }
  cbn [foldl]. specialize (IH (source_result_step ip acc tag)). rewrite countb_cons. cbn [length].
  assert (Hstep : Z.of_nat (length (sr_tags (source_result_step ip acc tag))) +
    (if saw_source_type (source_result_step ip acc tag) then 0 else 1) +
    (if has_name FILESIZE tag then 1 else 0) ≤
    Z.of_nat (length (sr_tags acc)) + (if saw_source_type acc then 0 else 1) + 1).
  { clear IH. destruct acc as [ts ty tcp udp]. unfold source_result_step.
    destruct (has_name SOURCETYPE tag) eqn:Ht.
    { rewrite (has_name_unique _ FILESIZE tag Ht) by done. destruct ty; cbn; rewrite ?length_app; cbn; lia. }
    destruct (has_name FILESIZE tag); [cbn; lia|].
    destruct (has_name SOURCEPORT tag); [destruct tcp; cbn; rewrite ?length_app; cbn; lia|].
    destruct (has_name SOURCEUPORT tag); [|cbn; rewrite ?length_app; cbn; lia].
    destruct udp, (normalized_source_udp_port_tag tag); cbn; rewrite ?length_app; cbn; lia. }
  destruct (has_name FILESIZE tag); lia.
Qed.

Lemma source_result_count e : zlen (source_result_tags e) ≤ zlen (src_tags e) + 1.
Proof.
  unfold source_result_tags.
  pose proof (source_fold_count (src_source_ip e) (src_tags e) (mkSourceResult
    (option_list (tag_filesize <$> stock_first_keyword_source_file_size (src_tags e))) false false false)) as H.
  cbn [sr_tags saw_source_type] in H. unfold zlen.
  assert (Hz : (length (option_list (tag_filesize <$> stock_first_keyword_source_file_size (src_tags e)))
    ≤ countb (has_name FILESIZE) (src_tags e))%nat).
  { destruct (stock_first_keyword_source_file_size _) as [s|] eqn:Hs; cbn; [|lia].
    apply size_found in Hs. lia. }
  lia.
Qed.

Lemma notes_result_count e : zlen (notes_result_tags e) ≤ zlen (nt_tags e).
Proof.
  unfold notes_result_tags, zlen. rewrite !length_app, length_filter_countb.
  assert (Hc : ∀ tags, (countb (λ tag, negb (has_name FILENAME tag || has_name FILESIZE tag)) tags +
    countb (has_name FILENAME) tags + countb (has_name FILESIZE) tags ≤ length tags)%nat).
  { induction tags as [|tag tags IH]; [done|]. rewrite !countb_cons. cbn [length].
    destruct (has_name FILENAME tag) eqn:H1; cbn [orb negb].
    - rewrite (has_name_unique _ FILESIZE tag H1) by done. lia.
    - destruct (has_name FILESIZE tag); cbn [negb]; lia. }
  specialize (Hc (nt_tags e)).
  assert (Hn : (length (option_list (tag_filename <$> stock_first_filename (nt_tags e)))
    ≤ countb (has_name FILENAME) (nt_tags e))%nat).
  { destruct (stock_first_filename _) as [s|] eqn:Hs; cbn; [|lia].
    apply filename_found in Hs as (tag & Hin & Hn & _). by apply (countb_elem _ _ tag). }
  assert (Hz : (length (option_list (tag_filesize <$> positive (stock_first_file_size (nt_tags e))))
    ≤ countb (has_name FILESIZE) (nt_tags e))%nat).
  { destruct (stock_first_file_size _) as [s|] eqn:Hs; cbn; [|lia].
    apply size_found in Hs. destruct (0 <? s); cbn; lia. }
  lia.
Qed.

(** *** Encoding of the answers *)


Lemma filename_tag_encodable tags : forallb tag_encodable tags = true →
  forallb tag_encodable (option_list (tag_filename <$> stock_first_filename tags)) = true.
Proof.
  rewrite forallb_elem. intros H. destruct (stock_first_filename tags) as [s|] eqn:Hs; [|done].
  apply filename_found in Hs as (tag & Hin & _ & Hv). specialize (H tag Hin).
  unfold tag_encodable in H. rewrite Hv in H. apply andb_true_iff in H as [_ H].
  change ((zlen s <? 2 ^ 16) && true = true). by rewrite H.
Qed.

Lemma filesize_tag_encodable o : forallb tag_encodable (option_list (tag_filesize <$> o)) = true.
Proof. by destruct o. Qed.

Lemma forallb_filter_true {A} (f g : A → bool) l :
  forallb f l = true → forallb f (List.filter g l) = true.
Proof. rewrite !forallb_elem. setoid_rewrite elem_of_filter_bool. naive_solver. Qed.

Lemma keyword_tags_encodable e : forallb tag_encodable (kw_tags e) = true →
  forallb tag_encodable (keyword_result_tags e) = true.
Proof.
  intros H. unfold keyword_result_tags. rewrite keyword_fold_tags. cbn [fst snd or_first].
  rewrite !forallb_app, filename_tag_encodable, filesize_tag_encodable, forallb_filter_true by done.
  destruct (head _) as [h|] eqn:Hh; [|done]. apply aich_found in Hh as [_ Hh].
  change (tag_encodable (keyword_aich_result_tag h) && true = true). rewrite andb_true_r.
  unfold tag_encodable. cbn -[zlen]. rewrite !zlen_cons. lia.
Qed.

Lemma source_step_encodable ip acc tag : tag_encodable tag = true →
  forallb tag_encodable (sr_tags acc) = true →
  forallb tag_encodable (sr_tags (source_result_step ip acc tag)) = true.
Proof.
  destruct acc as [ts ty tcp udp]. cbn [sr_tags]. intros Ht Hts. unfold source_result_step.
  destruct (has_name SOURCETYPE tag).
  { destruct ty; cbn [negb sr_tags]; [done|]. rewrite forallb_app, Hts. cbn [forallb andb].
    by rewrite Ht. }
  destruct (has_name FILESIZE tag); [done|]. destruct (has_name SOURCEPORT tag).
  { destruct tcp; cbn [negb sr_tags]; [done|]. rewrite forallb_app, Hts. cbn [forallb andb].
    rewrite andb_true_r. destruct tag as [n v]; destruct v; try exact Ht.
    unfold normalized_source_port_tag. cbn [tag_value tag_name]. by destruct (is_u32 _). }
  destruct (has_name SOURCEUPORT tag).
  { destruct udp; cbn [negb]; [done|].
    destruct (normalized_source_udp_port_tag tag) as [t|] eqn:Hn; [|done]. cbn [sr_tags].
    rewrite forallb_app, Hts. unfold normalized_source_udp_port_tag in Hn.
    destruct (match tag_value tag with VUInt v | VU64 v | VU32 v => try_from_u 16 v
      | VU16 v | VU8 v => Some v | _ => None end) as [port|]; [|done]. cbn in Hn.
    destruct (port =? 0); [done|]. by injection Hn as <-. }
  cbn [sr_tags]. rewrite forallb_app, Hts. cbn [forallb]. by rewrite Ht.
Qed.

Lemma source_tags_encodable e : forallb tag_encodable (src_tags e) = true →
  forallb tag_encodable (source_result_tags e) = true.
Proof.
  unfold source_result_tags.
  assert (H : forallb tag_encodable (sr_tags (mkSourceResult (option_list (tag_filesize <$>
    stock_first_keyword_source_file_size (src_tags e))) false false false)) = true)
    by apply filesize_tag_encodable.
  revert H. generalize (mkSourceResult (option_list (tag_filesize <$>
    stock_first_keyword_source_file_size (src_tags e))) false false false). clear.
  induction (src_tags e) as [|tag tags IH]; intros acc Hacc; [done|]. cbn [forallb foldl].
  intros [Ht Hts]%andb_true_iff. apply IH; [|done]. by apply source_step_encodable.
Qed.

Lemma notes_tags_encodable e : forallb tag_encodable (nt_tags e) = true →
  forallb tag_encodable (notes_result_tags e) = true.
Proof.
  intros H. unfold notes_result_tags.
  by rewrite !forallb_app, filename_tag_encodable, filesize_tag_encodable, forallb_filter_true.
Qed.

(** An answer of at most 65535 results that fit encodes. *)
Lemma search_response_fits sender id (l : list SearchResultEntry) r :
  search_response sender id l = Some r → zlen l < 2 ^ 16 →
  (∀ x, x ∈ l → fits_tags8 (se_tags x) = true) → ∃ bytes, encode (PSearchRes r) = Ok bytes.
Proof.
  intros Hr Hl Hf. destruct l as [|x l]; [done|]. injection Hr as <-.
  pose proof (encode_total (PSearchRes (mkSearchRes sender id (x :: l)))) as Ht.
  cbn [packet_fits sr_results] in Ht. rewrite (proj2 (Z.ltb_lt _ _) Hl) in Ht.
  rewrite (proj2 (forallb_elem _ _) Hf) in Ht. exact Ht.
Qed.

Lemma mapped_answer_fits {T} (f : T → SearchResultEntry) (l : list T) sender id limit r :
  search_response sender id (map f (take (Z.to_nat limit) l)) = Some r → 0 ≤ limit < 2 ^ 16 →
  (∀ e, e ∈ l → fits_tags8 (se_tags (f e)) = true) → ∃ bytes, encode (PSearchRes r) = Ok bytes.
Proof.
  intros Hr Hl Hf. eapply search_response_fits; [exact Hr| |].
  - pose proof (zlen_take limit l). unfold zlen in *. rewrite length_map. lia.
  - intros x Hx. change (map ?g ?k) with (g <$> k) in Hx. apply list_elem_of_fmap in Hx as (e & -> & Hx).
    by apply Hf, (elem_of_take_l (Z.to_nat limit)).
Qed.

(** An answer with at most one tag more than an entry of at most 254 fits. *)
Lemma fits_tags8_bound (l k : list Tag) :
  forallb tag_encodable l = true → zlen l ≤ zlen k + 1 → zlen k ≤ 254 → fits_tags8 l = true.
Proof. intros He Hl Hk. unfold fits_tags8. rewrite He. lia. Qed.

Lemma keyword_answer_encodes to_lowercase st sender request limit now r :
  (∀ e, e ∈ st_keyword_entries st → forallb tag_encodable (kw_tags e) = true ∧ zlen (kw_tags e) ≤ 254) →
  0 ≤ limit < 2 ^ 16 →
  snd (keyword_search_response to_lowercase st sender request limit now) = Some r →
  ∃ bytes, encode (PSearchRes r) = Ok bytes.
Proof.
  intros Hk Hl. unfold keyword_search_response. destruct (negb _ || _); [done|]. cbn [snd]. intros Hr.
  apply mapped_answer_fits in Hr; [done..|]. intros e Hx. apply elem_of_drop_l in Hx.
  rewrite !elem_of_filter_bool, elem_of_purge in Hx. destruct Hx as (((Hin & _) & _) & _).
  destruct (Hk e Hin). eapply fits_tags8_bound; [by apply keyword_tags_encodable|apply keyword_result_count|done].
Qed.

Lemma source_answer_encodes st sender request limit now r :
  (∀ e, e ∈ st_source_entries st → forallb tag_encodable (src_tags e) = true ∧ zlen (src_tags e) ≤ 254) →
  0 ≤ limit < 2 ^ 16 → snd (source_search_response st sender request limit now) = Some r →
  ∃ bytes, encode (PSearchRes r) = Ok bytes.
Proof.
  intros Hs Hl. unfold source_search_response. destruct (negb _ || _); [done|]. cbn [snd]. intros Hr.
  apply mapped_answer_fits in Hr; [done..|]. intros e Hx. apply elem_of_filter_bool in Hx as [Hx _].
  apply elem_of_drop_l in Hx. rewrite elem_of_filter_bool, list_elem_of_In, <- in_rev, <- list_elem_of_In,
    elem_of_purge in Hx. destruct Hx as ((Hin & _) & _).
  destruct (Hs e Hin). eapply fits_tags8_bound; [by apply source_tags_encodable|apply source_result_count|done].
Qed.

Lemma notes_answer_encodes st sender request limit now r :
  (∀ e, e ∈ st_notes_entries st → forallb tag_encodable (nt_tags e) = true ∧ zlen (nt_tags e) ≤ 254) →
  0 ≤ limit < 2 ^ 16 → snd (notes_search_response st sender request limit now) = Some r →
  ∃ bytes, encode (PSearchRes r) = Ok bytes.
Proof.
  intros Hn Hl. unfold notes_search_response. destruct (negb _ || _); [done|]. cbn [snd]. intros Hr.
  apply mapped_answer_fits in Hr; [done..|]. intros e Hx.
  rewrite !elem_of_filter_bool, list_elem_of_In, <- in_rev, <- list_elem_of_In, elem_of_purge in Hx.
  destruct Hx as (((Hin & _) & _) & _). destruct (Hn e Hin). pose proof (notes_result_count e).
  cbn [se_tags]. eapply (fits_tags8_bound _ (nt_tags e)); [by apply notes_tags_encodable|lia|done].
Qed.

(** *** Paging *)

Lemma drop_take_split {A} (a n m : nat) (l : list A) :
  take (n + m) (drop a l) = take n (drop a l) ++ take m (drop (a + n) l).
Proof. by rewrite <- drop_drop, take_take_drop. Qed.

Lemma flag_offset flag offset : (flag = 0 ∨ flag = 0x8000) → 0 ≤ offset ≤ 0x7FFF →
  Z.land (flag + offset) 0x7FFF = offset ∧ (Z.land (flag + offset) 0x8000 =? 0) = (flag =? 0).
Proof.
  intros Hf Ho. change 0x7FFF with (Z.ones 15). rewrite Z.land_ones by lia. split.
  - destruct Hf as [-> | ->]; [by rewrite Z.mod_small by lia|].
    change 0x8000 with (1 * 2 ^ 15). rewrite Z.add_comm, Z.mod_add by lia. by rewrite Z.mod_small by lia.
  - change 0x8000 with (2 ^ 15) in *. assert (Hb : Z.land (flag + offset) (2 ^ 15) =
      if Z.testbit (flag + offset) 15 then 2 ^ 15 else 0).
    { apply Z.bits_inj'; intros i Hi. rewrite Z.land_spec, Z.pow2_bits_eqb by lia.
      destruct (Z.eqb_spec 15 i) as [<-|Hne]; destruct (Z.testbit (flag + offset) 15) eqn:Ht;
        rewrite ?andb_true_r, ?andb_false_r, ?Z.bits_0, ?Z.pow2_bits_eqb by lia; try done.
      destruct (Z.eqb_spec 15 i); [done|done]. }
    rewrite Hb, Z.testbit_eqb by lia. destruct Hf as [-> | ->].
    + by rewrite (Z.div_small (0 + offset)) by lia.
    + replace (2 ^ 15 + offset) with (offset + 1 * 2 ^ 15) by lia.
      by rewrite Z.div_add, Z.div_small by lia.
Qed.

(** The entries a keyword search pages through. *)
Definition keyword_hits (to_lowercase : list Z → list Z) (st : KadLocalStore) (id : NodeId)
    (payload : option (list Z)) (now : Z) : list StoredKeywordPublish :=
  List.filter (λ e, keyword_entry_matches_restrictive_payload to_lowercase e payload)
    (List.filter (λ e, bool_decide (kw_target e = id))
      (purge_expired (st_keyword_entries st) (keyword_ttl (st_config st)) now)).

Lemma keyword_search_results to_lowercase st sender id flag offset payload limit now :
  enabled (st_config st) = true → 0 < limit → (flag = 0 ∨ flag = 0x8000) → 0 ≤ offset ≤ 0x7FFF →
  results (snd (keyword_search_response to_lowercase st sender
    (mkSearchKeyReq id (flag + offset) payload) limit now)) =
  map (λ e, mkSearchResultEntry (kw_file_hash e) (keyword_result_tags e))
    (take (Z.to_nat limit) (drop (Z.to_nat offset)
      (keyword_hits to_lowercase st id (if flag =? 0 then None else Some payload) now))).
Proof.
  intros He Hl Hf Ho. unfold keyword_search_response. cbn [sk_start_position sk_restrictive_payload
    PacketTypes.sk_target]. rewrite He, (proj2 (Z.eqb_neq limit 0)) by lia. cbn [negb orb snd].
  destruct (flag_offset flag offset Hf Ho) as [-> ->]. rewrite results_search_response.
  unfold keyword_hits. by destruct (flag =? 0).
Qed.

(** *** Published entries are found *)

(** The stored type of a source brings its address into the answer. *)
Lemma source_fold_ip ip tags acc : existsb (has_name SOURCETYPE) tags = true ∨ source_ip_tag ip ∈ sr_tags acc →
  (saw_source_type acc = true → source_ip_tag ip ∈ sr_tags acc) →
  source_ip_tag ip ∈ sr_tags (foldl (source_result_step ip) acc tags).
Proof.
  revert acc. induction tags as [|tag tags IH]; intros acc Hor Hty; [by destruct Hor|]. cbn [foldl].
  assert (Hkeep : source_ip_tag ip ∈ sr_tags acc → source_ip_tag ip ∈ sr_tags (source_result_step ip acc tag)).
  { destruct acc as [ts ty tcp udp]. cbn [sr_tags]. intros Hin. unfold source_result_step.
    repeat case_match; cbn [sr_tags]; rewrite ?elem_of_app; auto. }
  assert (Htype : has_name SOURCETYPE tag = true → source_ip_tag ip ∈ sr_tags (source_result_step ip acc tag)).
  { intros Ht. destruct acc as [ts ty tcp udp]. unfold source_result_step. rewrite Ht.
    destruct ty; cbn [negb sr_tags] in *; [by apply Hty|]. apply elem_of_app. right. left. }
  apply IH.
  - cbn [existsb] in Hor. rewrite orb_true_iff in Hor. destruct Hor as [[Ht|Ht]|Hin]; auto.
  - destruct acc as [ts ty tcp udp]. cbn [sr_tags saw_source_type] in *. intros Hs.
    destruct (has_name SOURCETYPE tag) eqn:Ht; [by apply Htype|]. apply Hkeep, Hty.
    revert Hs. unfold source_result_step. rewrite Ht. repeat case_match; done.
Qed.

Lemma source_publish_answer st id pid ip udp tags t st' load sender limit now :
  enabled (st_config st) = true → 0 < limit →
  record_source_publish st id pid ip udp tags t = (st', Some load) →
  now < t + source_ttl (st_config st) → zlen (st_source_entries st') ≤ limit →
  ∃ tcp, stock_source_tcp_port tags = Some tcp ∧
    mkSearchResultEntry (source_entry_id pid)
      (source_result_tags (mkStoredSource t id pid ip tcp udp (stock_stored_source_publish_tags tags)
         (source_dedup_key id ip tcp udp))) ∈
    results (snd (source_search_response st' sender (mkSearchSourceReq id 0 0) limit now)).
Proof.
  intros He Hl. unfold record_source_publish. rewrite He. cbn [negb].
  destruct (is_stock_source_publish tags); [|done]. cbn [negb].
  destruct (bool_decide _ || _); [done|]. destruct (stock_source_tcp_port tags) as [tcp|]; [|done].
  intros [= <- <-] Hnow Hlen. cbn [st_source_entries set_source] in Hlen.
  unfold source_search_response. cbn [st_config set_source st_source_entries].
  rewrite He, (proj2 (Z.eqb_neq limit 0)) by lia. cbn [negb orb snd].
  rewrite results_search_response.
  set (e := mkStoredSource t id pid ip tcp udp (stock_stored_source_publish_tags tags)
    (source_dedup_key id ip tcp udp)) in *.
  exists tcp. split; [done|].
  change (map ?f ?l) with (f <$> l). apply list_elem_of_fmap. exists e. split; [done|].
  apply elem_of_take_all.
  - apply elem_of_filter_bool. split; [|done]. cbn [ss_start_position].
    change (Z.to_nat (Z.land 0 0x7FFF)) with O. rewrite drop_0.
    apply elem_of_filter_bool. split; [|by apply bool_decide_eq_true_2].
    apply list_elem_of_In, in_rev. rewrite rev_involutive. apply list_elem_of_In, elem_of_purge.
    split; [apply elem_of_upsert|]. unfold observed_at, source_timed. cbn. lia.
  - etransitivity; [|exact Hlen]. etransitivity; [apply zlen_sublist, filter_sublist|].
    change (Z.to_nat (Z.land 0 0x7FFF)) with O. rewrite drop_0.
    etransitivity; [apply zlen_sublist, filter_sublist|].
    unfold zlen. rewrite length_rev. apply zlen_sublist, sublist_purge.
Qed.

Lemma source_publish_found st id pid ip udp tags t st' load sender limit now :
  enabled (st_config st) = true → 0 < limit →
  record_source_publish st id pid ip udp tags t = (st', Some load) →
  now < t + source_ttl (st_config st) → zlen (st_source_entries st') ≤ limit →
  ∃ x, x ∈ results (snd (source_search_response st' sender (mkSearchSourceReq id 0 0) limit now)) ∧
    se_entry_id x = source_entry_id pid ∧ source_ip_tag ip ∈ se_tags x.
Proof.
  intros He Hl Hpub Hnow Hlen.
  destruct (source_publish_answer _ _ _ _ _ _ _ _ _ sender _ _ He Hl Hpub Hnow Hlen) as (tcp & _ & Hx).
  eexists. split; [exact Hx|]. split; [done|]. cbn [se_tags]. unfold source_result_tags.
  apply source_fold_ip; [left|done]. apply stored_source_tags_type.
  revert Hpub. unfold record_source_publish. rewrite He. cbn [negb].
  by destruct (is_stock_source_publish tags).
Qed.

Lemma notes_publish_found st id pid ip tags t st' load sender limit now :
  enabled (st_config st) = true → 0 < limit →
  record_notes_publish st id pid ip tags t = (st', Some load) →
  now < t + notes_ttl (st_config st) → zlen (st_notes_entries st') ≤ limit →
  mkSearchResultEntry (id_to_be_bytes pid)
    (notes_result_tags (mkStoredNotes t id pid ip (stock_stored_publish_tags tags) (notes_dedup_key id pid ip))) ∈
  results (snd (notes_search_response st' sender (mkSearchNotesReq id 0) limit now)).
Proof.
  intros He Hl. unfold record_notes_publish. rewrite He. cbn [negb].
  destruct (bool_decide _ || _); [done|]. intros [= <- <-] Hnow Hlen.
  cbn [st_notes_entries set_notes] in Hlen.
  unfold notes_search_response. cbn [st_config set_notes st_notes_entries].
  rewrite He, (proj2 (Z.eqb_neq limit 0)) by lia. cbn [negb orb snd].
  rewrite results_search_response.
  set (e := mkStoredNotes t id pid ip (stock_stored_publish_tags tags) (notes_dedup_key id pid ip)) in *.
  change (map ?f ?l) with (f <$> l). apply list_elem_of_fmap. exists e. split; [done|].
  apply elem_of_take_all.
  - apply elem_of_filter_bool. split; [|done].
    apply elem_of_filter_bool. split; [|by apply bool_decide_eq_true_2].
    apply list_elem_of_In, in_rev. rewrite rev_involutive. apply list_elem_of_In, elem_of_purge.
    split; [apply elem_of_upsert|]. unfold observed_at, notes_timed. cbn. lia.
  - etransitivity; [|exact Hlen]. etransitivity; [apply zlen_sublist, filter_sublist|].
    etransitivity; [apply zlen_sublist, filter_sublist|].
    unfold zlen. rewrite length_rev. apply zlen_sublist, sublist_purge.
Qed.

Lemma keyword_publish_found to_lowercase st id e size name load t sender limit now :
  enabled (st_config st) = true → 0 < limit →
  stock_keyword_file_size (pe_tags e) = Some size → stock_first_filename (pe_tags e) = Some name →
  stock_keyword_publish_decision
    (purge_expired (st_keyword_entries st) (keyword_ttl (st_config st)) t) id (pe_hash e) = (load, true) →
  let st' := fst (record_keyword_publish_batch st id [e] t) in
  now < t + keyword_ttl (st_config st) → zlen (st_keyword_entries st') ≤ limit →
  let entry := mkStoredKeyword t id (pe_hash e) (stock_stored_publish_tags (pe_tags e)) (keyword_dedup_key id (pe_hash e) size) in
  tag_filename name ∈ keyword_result_tags entry ∧
  mkSearchResultEntry (pe_hash e) (keyword_result_tags entry) ∈
  results (snd (keyword_search_response to_lowercase st' sender (mkSearchKeyReq id 0 []) limit now)).
Proof.
  intros He Hl Hsize Hname Hdec. unfold record_keyword_publish_batch. rewrite He. cbn [negb foldl].
  unfold keyword_publish_step. rewrite Hsize, Hdec.
  rewrite (proj2 (keyword_filename_spec (pe_tags e))) by (by eexists). cbn [negb fst].
  set (key := keyword_dedup_key id (pe_hash e) size).
  set (x := mkStoredKeyword t id (pe_hash e) (stock_stored_publish_tags (pe_tags e)) key).
  intros Hnow Hlen. cbn [st_keyword_entries set_keyword] in Hlen. cbn zeta.
  rewrite (keyword_search_results to_lowercase _ sender id 0 0 [] limit now) by (done || lia || by left).
  split.
  - unfold keyword_result_tags. rewrite keyword_fold_tags. cbn [kw_tags fst x].
    rewrite stored_tags_filename, Hname. cbn. left.
  - change (map ?f ?l) with (f <$> l). apply list_elem_of_fmap. exists x. split; [done|].
    rewrite drop_0. unfold keyword_hits. cbn [st_keyword_entries st_config set_keyword].
    apply elem_of_take_all.
    + apply elem_of_filter_bool. split; [|done].
      apply elem_of_filter_bool. split; [|by apply bool_decide_eq_true_2].
      apply elem_of_purge. split; [apply elem_of_upsert|]. unfold observed_at, keyword_timed. cbn. lia.
    + etransitivity; [|exact Hlen]. do 2 (etransitivity; [apply zlen_sublist, filter_sublist|]).
      apply zlen_sublist, sublist_purge.
Qed.

(** ** Correctness of the cache *)



(** What is published is found: after an accepted publish, a search for the
    same target before the entry expires answers with it (given room for the
    stored entries): a source with the publisher's identifier and address, a note
    with the publisher's identifier, a keyword entry with its file hash and the
    first non-empty name. *)
Lemma publish_then_search to_lowercase st id sender limit t now :
  enabled (st_config st) = true → 0 < limit →
  (∀ pid ip udp tags st' load,
     record_source_publish st id pid ip udp tags t = (st', Some load) →
     now < t + source_ttl (st_config st) → zlen (st_source_entries st') ≤ limit →
     ∃ x, x ∈ results (snd (source_search_response st' sender (mkSearchSourceReq id 0 0) limit now)) ∧
       se_entry_id x = source_entry_id pid ∧ source_ip_tag ip ∈ se_tags x) ∧
  (∀ pid ip tags st' load,
     record_notes_publish st id pid ip tags t = (st', Some load) →
     now < t + notes_ttl (st_config st) → zlen (st_notes_entries st') ≤ limit →
     ∃ x, x ∈ results (snd (notes_search_response st' sender (mkSearchNotesReq id 0) limit now)) ∧
       se_entry_id x = id_to_be_bytes pid) ∧
  (∀ e size name load,
     stock_keyword_file_size (pe_tags e) = Some size → stock_first_filename (pe_tags e) = Some name →
     stock_keyword_publish_decision
       (purge_expired (st_keyword_entries st) (keyword_ttl (st_config st)) t) id (pe_hash e) = (load, true) →
     let st' := fst (record_keyword_publish_batch st id [e] t) in
     now < t + keyword_ttl (st_config st) → zlen (st_keyword_entries st') ≤ limit →
     ∃ x, x ∈ results (snd (keyword_search_response to_lowercase st' sender
                              (mkSearchKeyReq id 0 []) limit now)) ∧
       se_entry_id x = pe_hash e ∧ tag_filename name ∈ se_tags x).
Proof.
  intros He Hl. split; [|split].
  - intros pid ip udp tags st' load. by apply source_publish_found.
  - intros pid ip tags st' load Hpub Hnow Hlen. eexists. split; [by eapply notes_publish_found|done].
  - intros e size name load Hsize Hname Hdec st' Hnow Hlen.
    destruct (keyword_publish_found to_lowercase st id e size name load t sender limit now) as [Hn Hx]; [done..|].
    eexists. split; [exact Hx|done].
Qed.

(** Paging through a keyword search neither misses nor repeats a result: a
    page has at most [limit] results, each of a stored, unexpired entry of the
    target that satisfies the restriction, and the answer to the same search at
    the offset after a page is what the first answer would have gone on with. *)
Lemma keyword_paging to_lowercase st sender id flag offset payload n m now :
  enabled (st_config st) = true → (flag = 0 ∨ flag = 0x8000) →
  0 ≤ offset → 0 < n → 0 < m → offset + n ≤ 0x7FFF →
  let page st offset limit := keyword_search_response to_lowercase st sender
                                (mkSearchKeyReq id (flag + offset) payload) limit now in
  let st' := fst (page st offset n) in
  results (snd (page st offset (n + m))) =
    results (snd (page st offset n)) ++ results (snd (page st' (offset + n) m)) ∧
  zlen (results (snd (page st offset n))) ≤ n ∧
  (∀ x, x ∈ results (snd (page st offset n)) → ∃ e, e ∈ st_keyword_entries st ∧
     kw_target e = id ∧ now < kw_observed_at e + keyword_ttl (st_config st) ∧
     keyword_entry_matches_restrictive_payload to_lowercase e
       (if flag =? 0 then None else Some payload) = true ∧
     x = mkSearchResultEntry (kw_file_hash e) (keyword_result_tags e)).
Proof.
  intros He Hf Ho Hn Hm Hmax page st'.
  assert (Hst : st' = set_keyword st
    (purge_expired (st_keyword_entries st) (keyword_ttl (st_config st)) now)).
  { unfold st', page, keyword_search_response. rewrite He, (proj2 (Z.eqb_neq n 0)) by lia. done. }
  assert (Hhits : keyword_hits to_lowercase st' id (if flag =? 0 then None else Some payload) now =
    keyword_hits to_lowercase st id (if flag =? 0 then None else Some payload) now).
  { rewrite Hst. unfold keyword_hits. cbn [st_keyword_entries st_config set_keyword].
    by rewrite purge_idemp. }
  unfold page. rewrite !keyword_search_results by (done || lia || by rewrite Hst).
  rewrite Hhits. split; [|split].
  - rewrite <- map_app. f_equal. rewrite !Z2Nat.inj_add by lia. apply drop_take_split.
  - unfold zlen. rewrite length_map. apply zlen_take. lia.
  - intros x Hx. change (map ?f ?l) with (f <$> l) in Hx. apply list_elem_of_fmap in Hx as (e & -> & Hx).
    apply elem_of_take_l, elem_of_drop_l in Hx. unfold keyword_hits in Hx.
    rewrite !elem_of_filter_bool, elem_of_purge, bool_decide_eq_true in Hx.
    destruct Hx as (((Hin & Hnow) & Ht) & Hp). by exists e.
Qed.

(** A publish of 255 tags, which a packet can carry, leads to an answer of 256,
    whose encoding panics. *)
Definition overfull_entry : PublishEntry :=
  mkPublishEntry (replicate 16 2)
    (tag_filename [97] :: tag_filesize 5 :: replicate 253 (new_short 0xD3 (VU8 1))).
Lemma overfull_answer_panics :
  let target := replicate 16 1 in
  let publish := PPublishKeyReq (mkPublishKeyReq target [overfull_entry]) in
  let st := fst (record_keyword_publish_batch
    (store_new (from_kad_config true 86400 18000 86400 10 10 10)) target [overfull_entry] 5) in
  wf_packet publish = true ∧ packet_fits publish = true ∧
  match snd (keyword_search_response (λ s, s) st (replicate 16 9) (mkSearchKeyReq target 0 []) 300 6) with
  | Some r => encode (PSearchRes r) = Panic
  | None => False
  end.
Proof. vm_compute. done. Qed.

(** The two file-size readers of the agent agree. *)
Lemma stock_size_agrees tags : stock_first_file_size_impl tags true = file_size_tag_value tags.
Proof.
  unfold stock_first_file_size_impl, file_size_tag_value.
  replace (foldl (stock_size_step true) (None, None, None) tags)
    with (foldl file_size_step (None, None, None) tags); [done|].
  generalize (@None Z, @None Z, @None Z). induction tags as [|[name v] tags IH]; intros acc; [done|].
  cbn [foldl]. rewrite IH. f_equal. destruct acc as [[size lo] hi], name as [name|]; [|done].
  unfold file_size_step, stock_size_step. cbn [tag_name tag_value].
  destruct (Z.eqb_spec name FILESIZE) as [->|]; destruct v; cbn [andb]; try done;
    destruct (name =? FILESIZE_HI); done.
Qed.

(** Sources of one file are matched by address and either port, and only the first
    match is replaced: three publishes of one address can leave two entries of the
    same ports. *)
Lemma source_entries_repeat :
  let publish st tcp udp := fst (record_source_publish st (replicate 16 1) (replicate 16 7) (80, 1, 2, 3) udp
    [new_short SOURCETYPE (VU8 1); new_short SOURCEPORT (VU16 tcp)] 5) in
  let st := store_new (from_kad_config true 86400 18000 86400 10 10 10) in
  let st := publish (publish (publish (publish st 1 1) 2 2) 1 2) 2 2 in
  (λ e, (src_source_tcp_port e, src_source_udp_port e)) <$> st_source_entries st = [(2, 2); (2, 2)] ∧
  ¬ NoDup (src_dedup_key <$> st_source_entries st).
Proof.
  split; [vm_compute; reflexivity|]. apply (bool_decide_eq_false_1 _). vm_compute. reflexivity.
Qed.
