(* ===== verification/SnoopQueue.v ===== *)
(** * The queue of harvested searches

    Models [overlord-agent-emule/src/snoop_queue.rs], the entries of
    [overlord-agent-common/src/types.rs] and their construction in
    [overlord-agent-emule/src/agent/snoop.rs]: searches of other peers the node has
    seen, which it replays itself within a budget. A time is a number of
    nanoseconds since 1970, and computing one before the first date of [chrono] panics;
    a [String] is the list of its UTF-8 bytes. The loops over a [HashMap] take the list of its values
    as an argument, in the order of the iteration. The [hex] crate is a parameter. *)

From S2P Require Import Prelude Order Net NodeId Text Utf8 Wire Tag PacketTypes Packet.

(** ** Data *)

(** The fields of the three variants: key, target, then what the family has, then
    hits, first and last observation and last drain. *)
Inductive SnoopEntry : Type :=
| SKeyword (logical_key target : list Z) (start_position : Z) (restrictive_payload_hex : option (list Z))
    (hit_count first_seen last_seen : Z) (last_drained_at : option Z)
| SSource (logical_key target : list Z) (start_position size : Z)
    (hit_count first_seen last_seen : Z) (last_drained_at : option Z)
| SNotes (logical_key target : list Z) (size : Z)
    (hit_count first_seen last_seen : Z) (last_drained_at : option Z).

Definition logical_key (e : SnoopEntry) : list Z :=
  match e with SKeyword k _ _ _ _ _ _ _ | SSource k _ _ _ _ _ _ _ | SNotes k _ _ _ _ _ _ => k end.
Definition hit_count (e : SnoopEntry) : Z :=
  match e with SKeyword _ _ _ _ h _ _ _ | SSource _ _ _ _ h _ _ _ | SNotes _ _ _ h _ _ _ => h end.
Definition first_seen (e : SnoopEntry) : Z :=
  match e with SKeyword _ _ _ _ _ f _ _ | SSource _ _ _ _ _ f _ _ | SNotes _ _ _ _ f _ _ => f end.
Definition last_seen (e : SnoopEntry) : Z :=
  match e with SKeyword _ _ _ _ _ _ l _ | SSource _ _ _ _ _ _ l _ | SNotes _ _ _ _ _ l _ => l end.
Definition last_drained_at (e : SnoopEntry) : option Z :=
  match e with SKeyword _ _ _ _ _ _ _ d | SSource _ _ _ _ _ _ _ d | SNotes _ _ _ _ _ _ d => d end.
Definition set_hit_count (v : Z) (e : SnoopEntry) : SnoopEntry :=
  match e with
  | SKeyword k t s p _ f l d => SKeyword k t s p v f l d
  | SSource k t s z _ f l d => SSource k t s z v f l d
  | SNotes k t z _ f l d => SNotes k t z v f l d
  end.
Definition set_first_seen (v : Z) (e : SnoopEntry) : SnoopEntry :=
  match e with
  | SKeyword k t s p h _ l d => SKeyword k t s p h v l d
  | SSource k t s z h _ l d => SSource k t s z h v l d
  | SNotes k t z h _ l d => SNotes k t z h v l d
  end.
Definition set_last_seen (v : Z) (e : SnoopEntry) : SnoopEntry :=
  match e with
  | SKeyword k t s p h f _ d => SKeyword k t s p h f v d
  | SSource k t s z h f _ d => SSource k t s z h f v d
  | SNotes k t z h f _ d => SNotes k t z h f v d
  end.
Definition set_last_drained_at (v : option Z) (e : SnoopEntry) : SnoopEntry :=
  match e with
  | SKeyword k t s p h f l _ => SKeyword k t s p h f l v
  | SSource k t s z h f l _ => SSource k t s z h f l v
  | SNotes k t z h f l _ => SNotes k t z h f l v
  end.

Record SnoopQueueConfig : Type := mkSnoopConfig {
  dedup_window_secs : Z;
  general_max_queries_per_600s : Z;
  general_drain_cooldown_secs : Z;
  source_max_queries_per_600s : Z;
  source_drain_cooldown_secs : Z;
  source_stop_after_results : Z;
}.

Record ReplayFeedback : Type := mkFeedback {
  zero_result_streak : Z;
  last_result_count : Z;
  last_outcome_at : option Z;
}.
Definition feedback_default : ReplayFeedback := mkFeedback 0 0 None.

Record SnoopQueue : Type := mkSnoopQueue {
  sq_config : SnoopQueueConfig;
  sq_entries : gmap (list Z) SnoopEntry;
  sq_replay_feedback : gmap (list Z) ReplayFeedback;
  sq_recent_general_drains : list Z;
  sq_recent_source_drains : list Z;
}.

Record SnoopRecordOutcome : Type := mkRecordOutcome {
  so_is_new : bool;
  so_hit_count : Z;
  so_queue_depth : Z;
  so_family_queue_depth : Z;
}.
Record SnoopQueueFamilyCounts : Type := mkFamilyCounts { fc_keyword : Z; fc_source : Z; fc_notes : Z }.

Record ScheduledSnoopRequest (Request : Type) : Type := mkScheduled {
  sc_logical_key : list Z;
  sc_request : Request;
}.
Arguments mkScheduled {Request}.
Arguments sc_logical_key {Request}.
Arguments sc_request {Request}.
Record ReplayCandidate (Request : Type) : Type := mkCandidate {
  rc_scheduled : ScheduledSnoopRequest Request;
  rc_hit_count : Z;
  rc_last_seen : Z;
  rc_zero_result_streak : Z;
  rc_last_result_count : Z;
  rc_observed_after_outcome : bool;
}.
Arguments mkCandidate {Request}.
Arguments rc_scheduled {Request}.
Arguments rc_hit_count {Request}.
Arguments rc_last_seen {Request}.
Arguments rc_zero_result_streak {Request}.
Arguments rc_last_result_count {Request}.
Arguments rc_observed_after_outcome {Request}.

Inductive SnoopFamily : Type := FKeyword | FSource | FNotes.
#[export] Instance SnoopFamily_eq_dec : EqDecision SnoopFamily.
Proof. solve_decision. Defined.

Definition entry_family (e : SnoopEntry) : SnoopFamily :=
  match e with
  | SKeyword _ _ _ _ _ _ _ _ => FKeyword
  | SSource _ _ _ _ _ _ _ _ => FSource
  | SNotes _ _ _ _ _ _ _ => FNotes
  end.

(** ** Operations *)

Definition snoop_new (config : SnoopQueueConfig) : SnoopQueue := mkSnoopQueue config ∅ ∅ [] [].
Definition set_entries (q : SnoopQueue) (m : gmap (list Z) SnoopEntry) : SnoopQueue :=
  mkSnoopQueue (sq_config q) m (sq_replay_feedback q) (sq_recent_general_drains q)
    (sq_recent_source_drains q).
Definition set_feedback (q : SnoopQueue) (m : gmap (list Z) ReplayFeedback) : SnoopQueue :=
  mkSnoopQueue (sq_config q) (sq_entries q) m (sq_recent_general_drains q) (sq_recent_source_drains q).

(** [self.entries.values()], in some order. *)
Definition entry_values (q : SnoopQueue) : list SnoopEntry := snd <$> map_to_list (sq_entries q).

Definition merge_entry (q : SnoopQueue) (entry : SnoopEntry) : SnoopQueue * (bool * Z) :=
  let key := logical_key entry in
  match sq_entries q !! key with
  | Some existing =>
      let next_hit_count := saturating_add 32 (hit_count existing) (hit_count entry) in
      let updated :=
        set_last_drained_at
          (match last_drained_at existing, last_drained_at entry with
           | Some l, Some r => Some (Z.max l r)
           | Some l, None => Some l
           | None, r => r
           end)
          (set_first_seen (Z.min (first_seen existing) (first_seen entry))
            (set_last_seen (Z.max (last_seen existing) (last_seen entry))
              (set_hit_count next_hit_count existing))) in
      (set_entries q (<[key := updated]> (sq_entries q)), (false, next_hit_count))
  | None => (set_entries q (<[key := entry]> (sq_entries q)), (true, 1))
  end.

Definition should_skip_restored_entry (e : SnoopEntry) : bool :=
  match e with
  | SSource _ _ _ _ _ _ _ _ =>
      match last_drained_at e with Some d => last_seen e <=? d | None => false end ||
      (hit_count e <=? 1)
  | _ => false
  end.
Definition merge_snapshot (q : SnoopQueue) (entries : list SnoopEntry) : SnoopQueue :=
  foldl (λ q entry, if should_skip_restored_entry entry then q else fst (merge_entry q entry)) q entries.

Definition snapshot (q : SnoopQueue) : list SnoopEntry :=
  sort_by (λ l r, str_cmp (logical_key l) (logical_key r)) (entry_values q).

Definition snoop_len (q : SnoopQueue) : Z := Z.of_nat (size (sq_entries q)).
Definition family_count (q : SnoopQueue) (family : SnoopFamily) : Z :=
  Z.of_nat (countb (λ e, bool_decide (entry_family e = family)) (entry_values q)).
Definition record (q : SnoopQueue) (entry : SnoopEntry) : SnoopQueue * SnoopRecordOutcome :=
  let family := entry_family entry in
  let '(q, (is_new, hit_count)) := merge_entry q entry in
  (q, mkRecordOutcome is_new hit_count (snoop_len q) (family_count q family)).
Definition family_counts (q : SnoopQueue) : SnoopQueueFamilyCounts :=
  foldl (λ counts entry,
    match entry_family entry with
    | FKeyword => mkFamilyCounts (fc_keyword counts + 1) (fc_source counts) (fc_notes counts)
    | FSource => mkFamilyCounts (fc_keyword counts) (fc_source counts + 1) (fc_notes counts)
    | FNotes => mkFamilyCounts (fc_keyword counts) (fc_source counts) (fc_notes counts + 1)
    end) (mkFamilyCounts 0 0 0) (entry_values q).

(** *** Budgets *)

Definition family_max_queries_per_600s (q : SnoopQueue) (family : SnoopFamily) : Z :=
  match family with
  | FKeyword | FNotes => general_max_queries_per_600s (sq_config q)
  | FSource => source_max_queries_per_600s (sq_config q)
  end.
Definition family_drain_cooldown_secs (q : SnoopQueue) (family : SnoopFamily) : Z :=
  match family with
  | FKeyword | FNotes => general_drain_cooldown_secs (sq_config q)
  | FSource => source_drain_cooldown_secs (sq_config q)
  end.
Definition recent_drains (q : SnoopQueue) (family : SnoopFamily) : list Z :=
  match family with
  | FKeyword | FNotes => sq_recent_general_drains q
  | FSource => sq_recent_source_drains q
  end.
Definition recent_drain_len (q : SnoopQueue) (family : SnoopFamily) : Z := zlen (recent_drains q family).
(** [*self.recent_drains_mut(family) = l] *)
Definition set_recent_drains (q : SnoopQueue) (family : SnoopFamily) (l : list Z) : SnoopQueue :=
  match family with
  | FKeyword | FNotes =>
      mkSnoopQueue (sq_config q) (sq_entries q) (sq_replay_feedback q) l (sq_recent_source_drains q)
  | FSource =>
      mkSnoopQueue (sq_config q) (sq_entries q) (sq_replay_feedback q) (sq_recent_general_drains q) l
  end.

(** [while front < cutoff { pop_front }] *)
Fixpoint pop_before (cutoff : Z) (l : list Z) : list Z :=
  match l with
  | d :: l' => if d <? cutoff then pop_before cutoff l' else l
  | [] => []
  end.
(** [DateTime - TimeDelta] panics before the first date of [chrono], the start of the
    year -262143; [TimeDelta::seconds] panics above [i64::MAX] milliseconds. *)
Definition DATE_MIN : Z := -8334601228800 * NANOS_PER_SEC.
Definition time_sub (now d : Z) : res ProtoError Z :=
  if DATE_MIN <=? now - d then Ok (now - d) else Panic.
Definition I64_MAX : Z := 9223372036854775807.
Definition seconds (value : Z) : res ProtoError Z :=
  let value := Z.min value I64_MAX in
  if value <=? I64_MAX / 1000 then Ok (value * NANOS_PER_SEC) else Panic.
(** [now - seconds(secs)] *)
Definition cutoff_at (now secs : Z) : res ProtoError Z := d ← seconds secs; time_sub now d.

Definition DRAIN_WINDOW : Z := 600 * NANOS_PER_SEC.
Definition prune_recent_drains (q : SnoopQueue) (now : Z) (family : SnoopFamily) : res ProtoError SnoopQueue :=
  cutoff ← time_sub now DRAIN_WINDOW;
  Ok (set_recent_drains q family (pop_before cutoff (recent_drains q family))).

Definition replay_cooldown_cutoff (default_cutoff now drain_cooldown_secs : Z) (entry : SnoopEntry)
    (feedback : ReplayFeedback) : res ProtoError Z :=
  match last_outcome_at feedback with
  | None => Ok default_cutoff
  | Some last_outcome_at =>
      if (zero_result_streak feedback =? 0) || (last_outcome_at <? last_seen entry) then Ok default_cutoff
      else
        let zero_backoff_multiplier := Z.min (saturating_add 32 (zero_result_streak feedback) 1) 4 in
        let cooldown_secs := saturating_mul 64 drain_cooldown_secs zero_backoff_multiplier in
        cutoff_at now cooldown_secs
  end.

(** *** Candidates *)

Section candidates.
Context {Request : Type}.

Definition build_candidate (entry : SnoopEntry) (request : Request) (feedback : ReplayFeedback)
    : ReplayCandidate Request :=
  mkCandidate (mkScheduled (logical_key entry) request) (hit_count entry) (last_seen entry)
    (zero_result_streak feedback) (last_result_count feedback)
    (match last_outcome_at feedback with
     | None => true
     | Some last_outcome_at => last_outcome_at <? last_seen entry
     end).

(** The candidate of an entry of the family; [None] while it cools down. *)
Definition candidate_of (q : SnoopQueue) (now cooldown_secs cooldown_cutoff : Z) (entry : SnoopEntry)
    (request : Request) : res ProtoError (option (ReplayCandidate Request)) :=
  let feedback := default feedback_default (sq_replay_feedback q !! logical_key entry) in
  match last_drained_at entry with
  | Some last_drained_at =>
      cutoff ← replay_cooldown_cutoff cooldown_cutoff now cooldown_secs entry feedback;
      if cutoff <? last_drained_at then Ok None else Ok (Some (build_candidate entry request feedback))
  | None => Ok (Some (build_candidate entry request feedback))
  end.

(** The loop over the values, on [(recent, stale)]; [request_of] is the function of
    the family, and may panic. *)
Fixpoint collect_candidates (request_of : SnoopEntry → res ProtoError (option Request)) (q : SnoopQueue)
    (now cooldown_secs cooldown_cutoff dedup_cutoff : Z) (vals : list SnoopEntry)
    (recent stale : list (ReplayCandidate Request))
    : res ProtoError (list (ReplayCandidate Request) * list (ReplayCandidate Request)) :=
  let loop := collect_candidates request_of q now cooldown_secs cooldown_cutoff dedup_cutoff in
  match vals with
  | [] => Ok (recent, stale)
  | entry :: vals' =>
      request ← request_of entry;
      match request with
      | None => loop vals' recent stale
      | Some request =>
          candidate ← candidate_of q now cooldown_secs cooldown_cutoff entry request;
          match candidate with
          | None => loop vals' recent stale
          | Some candidate =>
              if dedup_cutoff <=? last_seen entry then loop vals' (recent ++ [candidate]) stale
              else loop vals' recent (stale ++ [candidate])
          end
      end
  end.

(** Marks the selected entry and charges the budget. *)
Definition drain (q : SnoopQueue) (family : SnoopFamily) (now : Z) (selected : ReplayCandidate Request)
    : SnoopQueue :=
  let key := sc_logical_key (rc_scheduled selected) in
  let q :=
    match sq_entries q !! key with
    | Some entry => set_entries q (<[key := set_last_drained_at (Some now) entry]> (sq_entries q))
    | None => q
    end in
  set_recent_drains q family (recent_drains q family ++ [now]).

(** The body the three selections share: prune, check the budget, collect, choose
    with [best], drain. *)
Definition select_next (request_of : SnoopEntry → res ProtoError (option Request))
    (best : list (ReplayCandidate Request) → list (ReplayCandidate Request) →
            option (ReplayCandidate Request))
    (family : SnoopFamily) (q : SnoopQueue) (vals : list SnoopEntry) (now : Z)
    : res ProtoError (SnoopQueue * option (ScheduledSnoopRequest Request)) :=
  q ← prune_recent_drains q now family;
  if family_max_queries_per_600s q family <=? recent_drain_len q family then Ok (q, None)
  else
    dedup_cutoff ← cutoff_at now (dedup_window_secs (sq_config q));
    cooldown_cutoff ← cutoff_at now (family_drain_cooldown_secs q family);
    '(recent, stale) ← collect_candidates request_of q now (family_drain_cooldown_secs q family)
                         cooldown_cutoff dedup_cutoff vals [] [];
    Ok (match best recent stale with
        | None => (q, None)
        | Some selected => (drain q family now selected, Some (rc_scheduled selected))
        end).

(** [recent.into_iter().next().or_else(|| stale.into_iter().next())] after sorting. *)
Definition first_of (cmp : ReplayCandidate Request → ReplayCandidate Request → comparison)
    (recent stale : list (ReplayCandidate Request)) : option (ReplayCandidate Request) :=
  match head (sort_by cmp recent) with
  | Some c => Some c
  | None => head (sort_by cmp stale)
  end.
End candidates.

Definition candidate_cmp (left right : ReplayCandidate SearchKeyReq) : comparison :=
  then_with (bool_cmp (rc_observed_after_outcome right) (rc_observed_after_outcome left))
    (then_with (Z.compare (rc_zero_result_streak left) (rc_zero_result_streak right))
      (then_with (Z.compare (rc_last_result_count right) (rc_last_result_count left))
        (then_with (Z.compare (rc_hit_count right) (rc_hit_count left))
          (then_with (Z.compare (rc_last_seen right) (rc_last_seen left))
            (str_cmp (sc_logical_key (rc_scheduled left)) (sc_logical_key (rc_scheduled right))))))).
Definition notes_candidate_cmp (left right : ReplayCandidate SearchNotesReq) : comparison :=
  then_with (bool_cmp (rc_observed_after_outcome right) (rc_observed_after_outcome left))
    (then_with (Z.compare (rc_zero_result_streak left) (rc_zero_result_streak right))
      (then_with (Z.compare (rc_last_result_count right) (rc_last_result_count left))
        (then_with (Z.compare (rc_hit_count right) (rc_hit_count left))
          (then_with (Z.compare (rc_last_seen right) (rc_last_seen left))
            (str_cmp (sc_logical_key (rc_scheduled left)) (sc_logical_key (rc_scheduled right))))))).

Definition source_candidate_is_high_quality (candidate : ReplayCandidate SearchSourceReq) : bool :=
  (2 <=? rc_hit_count candidate) || (0 <? rc_last_result_count candidate).
Definition source_candidate_cmp (left right : ReplayCandidate SearchSourceReq) : comparison :=
  then_with (bool_cmp (rc_observed_after_outcome right) (rc_observed_after_outcome left))
    (then_with (bool_cmp (source_candidate_is_high_quality right) (source_candidate_is_high_quality left))
      (then_with (Z.compare (rc_zero_result_streak left) (rc_zero_result_streak right))
        (then_with (Z.compare (rc_last_result_count right) (rc_last_result_count left))
          (then_with (Z.compare (rc_hit_count right) (rc_hit_count left))
            (then_with (Z.compare (rc_last_seen right) (rc_last_seen left))
              (str_cmp (sc_logical_key (rc_scheduled left)) (sc_logical_key (rc_scheduled right)))))))).
Definition select_best_source_candidate (recent stale : list (ReplayCandidate SearchSourceReq))
    : option (ReplayCandidate SearchSourceReq) :=
  let promoted := existsb source_candidate_is_high_quality (recent ++ stale) in
  let '(recent, stale) :=
    if promoted then (List.filter source_candidate_is_high_quality recent,
                      List.filter source_candidate_is_high_quality stale)
    else (recent, stale) in
  first_of source_candidate_cmp recent stale.

(** *** Requests *)

Section requests.
Context (hex_encode : list Z → list Z) (hex_decode : list Z → option (list Z)).

(** [NodeId::from_str(s).ok()]: an error is [None], a panic stays one. *)
Definition parse_target (s : list Z) : res ProtoError (option NodeId) :=
  match id_from_str s with Ok id => Ok (Some id) | Err _ => Ok None | Panic => Panic end.

Definition keyword_request (e : SnoopEntry) : res ProtoError (option SearchKeyReq) :=
  match e with
  | SKeyword _ target start_position payload_hex _ _ _ _ =>
      id ← parse_target target;
      Ok (id ← id;
          payload ← match payload_hex with
                    | None => Some []
                    | Some hex => hex_decode hex
                    end;
          Some (mkSearchKeyReq id start_position payload))
  | _ => Ok None
  end.
Definition source_request (e : SnoopEntry) : res ProtoError (option SearchSourceReq) :=
  match e with
  | SSource _ target start_position size _ _ _ _ =>
      if size =? 0 then Ok None
      else id ← parse_target target; Ok (option_map (λ id, mkSearchSourceReq id start_position size) id)
  | _ => Ok None
  end.
Definition notes_request (e : SnoopEntry) : res ProtoError (option SearchNotesReq) :=
  match e with
  | SNotes _ target size _ _ _ _ =>
      if size =? 0 then Ok None
      else id ← parse_target target; Ok (option_map (λ id, mkSearchNotesReq id size) id)
  | _ => Ok None
  end.

Definition select_next_keyword_request :=
  select_next keyword_request (first_of candidate_cmp) FKeyword.
Definition select_next_source_request :=
  select_next source_request select_best_source_candidate FSource.
Definition select_next_notes_request :=
  select_next notes_request (first_of notes_candidate_cmp) FNotes.

(** [agent/snoop.rs] *)
Definition payload_hex (payload : list Z) : option (list Z) :=
  match payload with [] => None | _ => Some (hex_encode payload) end.
Definition keyword_logical_key (req : SearchKeyReq) : list Z :=
  lit "keyword:" ++ id_display (sk_target req) ++ lit ":" ++ hex_fixed 4 (sk_start_position req) ++ lit ":" ++
  default [] (payload_hex (sk_restrictive_payload req)).
Definition source_logical_key (req : SearchSourceReq) : list Z :=
  lit "source:" ++ id_display (ss_target req) ++ lit ":" ++ hex_fixed 4 (ss_start_position req) ++ lit ":" ++
  decimal (ss_size req).
Definition notes_logical_key (req : SearchNotesReq) : list Z :=
  lit "notes:" ++ id_display (sn_target req) ++ lit ":" ++ decimal (sn_size req).
Definition build_keyword_snoop_entry (req : SearchKeyReq) (now : Z) : SnoopEntry :=
  SKeyword (keyword_logical_key req) (id_display (sk_target req)) (sk_start_position req)
    (payload_hex (sk_restrictive_payload req)) 1 now now None.
Definition build_source_snoop_entry (req : SearchSourceReq) (now : Z) : SnoopEntry :=
  SSource (source_logical_key req) (id_display (ss_target req)) (ss_start_position req) (ss_size req)
    1 now now None.
Definition build_notes_snoop_entry (req : SearchNotesReq) (now : Z) : SnoopEntry :=
  SNotes (notes_logical_key req) (id_display (sn_target req)) (sn_size req) 1 now now None.
End requests.

(** *** Feedback *)

Definition should_evict_zero_yield_source_entry (e : SnoopEntry) : bool :=
  match e with
  | SSource _ _ _ _ _ _ _ _ => match last_drained_at e with Some d => last_seen e <=? d | None => false end
  | _ => false
  end.
Definition remove_key (q : SnoopQueue) (key : list Z) : SnoopQueue :=
  set_feedback (set_entries q (delete key (sq_entries q))) (delete key (sq_replay_feedback q)).
Definition record_replay_outcome (q : SnoopQueue) (key : list Z) (completed_at result_count : Z)
    : SnoopQueue :=
  if 0 <? result_count then remove_key q key
  else
    let feedback := default feedback_default (sq_replay_feedback q !! key) in
    let streak :=
      if result_count =? 0 then saturating_add 32 (zero_result_streak feedback) 1 else 0 in
    let q := set_feedback q (<[key := mkFeedback streak (result_count mod 2 ^ 32) (Some completed_at)]>
                               (sq_replay_feedback q)) in
    if (result_count =? 0) && (2 <=? streak) &&
       match sq_entries q !! key with
       | Some e => should_evict_zero_yield_source_entry e
       | None => false
       end
    then remove_key q key
    else q.

(** ** Specification *)

Definition entry_target (e : SnoopEntry) : list Z :=
  match e with SKeyword _ t _ _ _ _ _ _ | SSource _ t _ _ _ _ _ _ | SNotes _ t _ _ _ _ _ => t end.

(** Entries are stored under their key, and their targets can be read. *)
Definition snoop_ok (q : SnoopQueue) : Prop :=
  ∀ k e, sq_entries q !! k = Some e → logical_key e = k ∧ id_from_str (entry_target e) ≠ Panic.

(** The dates that selecting computes are in range: the windows back from [now], the
    cooldowns four times over. *)
Definition in_range (now secs : Z) : bool :=
  (secs <=? I64_MAX / 1000) && (DATE_MIN <=? now - secs * NANOS_PER_SEC).
Definition times_ok (q : SnoopQueue) (now : Z) : bool :=
  let cooldowns := [general_drain_cooldown_secs (sq_config q); source_drain_cooldown_secs (sq_config q)] in
  in_range now 600 && in_range now (dedup_window_secs (sq_config q)) &&
  forallb (λ c, (0 <=? c) && in_range now (saturating_mul 64 c 4)) cooldowns.

(** The queue without the drains of more than ten minutes ago. *)
Definition pruned (q : SnoopQueue) (now : Z) (family : SnoopFamily) : SnoopQueue :=
  set_recent_drains q family (pop_before (now - DRAIN_WINDOW) (recent_drains q family)).

(** An entry cools down for the cooldown of its family since it was drained; a
    streak of [n] empty results not followed by a new observation makes it
    [min (n + 1) 4] times longer. *)
Definition cooldown_of (q : SnoopQueue) (family : SnoopFamily) (e : SnoopEntry) : Z :=
  let feedback := default feedback_default (sq_replay_feedback q !! logical_key e) in
  let secs := family_drain_cooldown_secs q family in
  match last_outcome_at feedback with
  | Some t => if (zero_result_streak feedback =? 0) || (t <? last_seen e) then secs
              else saturating_mul 64 secs (Z.min (saturating_add 32 (zero_result_streak feedback) 1) 4)
  | None => secs
  end.
Definition cools (q : SnoopQueue) (family : SnoopFamily) (now : Z) (e : SnoopEntry) : bool :=
  match last_drained_at e with
  | Some t => now <? t + cooldown_of q family e * NANOS_PER_SEC
  | None => false
  end.

(** The order of replay: observed within the window first, then the order of the
    family; sources of high quality come before all others. *)
Definition fresh {Request} (q : SnoopQueue) (now : Z) (c : ReplayCandidate Request) : bool :=
  now - dedup_window_secs (sq_config q) * NANOS_PER_SEC <=? rc_last_seen c.
Definition replay_order {Request} (q : SnoopQueue) (now : Z)
    (cmp : ReplayCandidate Request → ReplayCandidate Request → comparison)
    (a b : ReplayCandidate Request) : comparison :=
  then_with (bool_cmp (fresh q now b) (fresh q now a)) (cmp a b).
Definition source_replay_order (q : SnoopQueue) (now : Z) (a b : ReplayCandidate SearchSourceReq) : comparison :=
  then_with (bool_cmp (source_candidate_is_high_quality b) (source_candidate_is_high_quality a))
    (replay_order q now source_candidate_cmp a b).

(** The candidate of an entry, where it has one. *)
Definition candidate {Request} (request_of : SnoopEntry → res ProtoError (option Request)) (q : SnoopQueue)
    (family : SnoopFamily) (now : Z) (e : SnoopEntry) : option (ReplayCandidate Request) :=
  match request_of e with
  | Ok (Some request) =>
      if cools q family now e then None
      else Some (build_candidate e request (default feedback_default (sq_replay_feedback q !! logical_key e)))
  | _ => None
  end.

(** A selection, for every order of iteration: nothing when the budget is spent or
    no entry has a candidate, and else the first candidate in the order, whose
    entry is marked and whose budget is charged. *)
Definition selects_first {Request} (request_of : SnoopEntry → res ProtoError (option Request))
    (best : list (ReplayCandidate Request) → list (ReplayCandidate Request) →
            option (ReplayCandidate Request))
    (order : ReplayCandidate Request → ReplayCandidate Request → comparison)
    (family : SnoopFamily) (q : SnoopQueue) (now : Z) : Prop :=
  let q1 := pruned q now family in
  let spent := family_max_queries_per_600s q family <=? recent_drain_len q1 family in
  ∃ q' r, (∀ vals, vals ≡ₚ entry_values q → select_next request_of best family q vals now = Ok (q', r)) ∧
    match r with
    | None => q' = q1 ∧ (spent = true ∨
        ∀ k e, sq_entries q !! k = Some e → candidate request_of q family now e = None)
    | Some s => spent = false ∧ ∃ e c, sq_entries q !! sc_logical_key s = Some e ∧
        candidate request_of q family now e = Some c ∧ rc_scheduled c = s ∧
        (∀ k' e' c', sq_entries q !! k' = Some e' → candidate request_of q family now e' = Some c' →
           k' ≠ sc_logical_key s → order c c' = Lt) ∧
        sq_entries q' = <[sc_logical_key s := set_last_drained_at (Some now) e]> (sq_entries q) ∧
        recent_drains q' family = recent_drains q1 family ++ [now]
    end.

(** The searches the node harvests, their entries and keys. *)
Inductive harvest : Type := HKey (r : SearchKeyReq) | HSource (r : SearchSourceReq) | HNotes (r : SearchNotesReq).
#[export] Instance SearchKeyReq_eq_dec : EqDecision SearchKeyReq.
Proof. solve_decision. Defined.
#[export] Instance SearchSourceReq_eq_dec : EqDecision SearchSourceReq.
Proof. solve_decision. Defined.
#[export] Instance SearchNotesReq_eq_dec : EqDecision SearchNotesReq.
Proof. solve_decision. Defined.
#[export] Instance harvest_eq_dec : EqDecision harvest.
Proof. solve_decision. Defined.
Definition wf_harvest (h : harvest) : bool :=
  match h with
  | HKey r => wf_packet (PSearchKeyReq r)
  | HSource r => wf_packet (PSearchSourceReq r)
  | HNotes r => wf_packet (PSearchNotesReq r)
  end.
(** Searches without a size are kept but not replayed. *)
Definition replayable (h : harvest) : bool :=
  match h with HKey _ => true | HSource r => negb (ss_size r =? 0) | HNotes r => negb (sn_size r =? 0) end.

Section harvest.
Context (hex_encode : list Z → list Z) (hex_decode : list Z → option (list Z)).
Definition harvest_key (h : harvest) : list Z :=
  match h with
  | HKey r => keyword_logical_key hex_encode r
  | HSource r => source_logical_key r
  | HNotes r => notes_logical_key r
  end.
Definition harvest_entry (h : harvest) (now : Z) : SnoopEntry :=
  match h with
  | HKey r => build_keyword_snoop_entry hex_encode r now
  | HSource r => build_source_snoop_entry r now
  | HNotes r => build_notes_snoop_entry r now
  end.
(** The request an entry is replayed as. *)
Definition replayed (e : SnoopEntry) : res ProtoError (option harvest) :=
  match e with
  | SKeyword _ _ _ _ _ _ _ _ => r ← keyword_request hex_decode e; Ok (option_map HKey r)
  | SSource _ _ _ _ _ _ _ _ => r ← source_request e; Ok (option_map HSource r)
  | SNotes _ _ _ _ _ _ _ => r ← notes_request e; Ok (option_map HNotes r)
  end.
Definition harvest_all (config : SnoopQueueConfig) (l : list (harvest * Z)) : SnoopQueue :=
  foldl (λ q '(h, now), fst (record q (harvest_entry h now))) (snoop_new config) l.

(** *** Histories *)

Definition select_family (f : SnoopFamily) (q : SnoopQueue) (vals : list SnoopEntry) (now : Z)
    : res ProtoError (SnoopQueue * option (list Z)) :=
  match f with
  | FKeyword => '(q', r) ← select_next_keyword_request hex_decode q vals now;
                Ok (q', option_map sc_logical_key r)
  | FSource => '(q', r) ← select_next_source_request q vals now; Ok (q', option_map sc_logical_key r)
  | FNotes => '(q', r) ← select_next_notes_request q vals now; Ok (q', option_map sc_logical_key r)
  end.

(** [snoop_history config h clock q]: the queue after some operations, the drains
    [h] they made, and the last time read, which does not go back. *)
Inductive snoop_history (config : SnoopQueueConfig) : list (SnoopFamily * Z) → Z → SnoopQueue → Prop :=
| HistNew clock : snoop_history config [] clock (snoop_new config)
| HistRecord h clock q e : snoop_history config h clock q →
    snoop_history config h clock (fst (record q e))
| HistRestore h clock q es : snoop_history config h clock q →
    snoop_history config h clock (merge_snapshot q es)
| HistOutcome h clock q key t n : snoop_history config h clock q →
    snoop_history config h clock (record_replay_outcome q key t n)
| HistSelect h clock q f vals now q' r : snoop_history config h clock q →
    clock ≤ now → vals ≡ₚ entry_values q → select_family f q vals now = Ok (q', r) →
    snoop_history config (h ++ match r with Some _ => [(f, now)] | None => [] end) now q'.
End harvest.

(** Keyword and notes replays share a budget. *)
Definition same_budget (f g : SnoopFamily) : bool :=
  match f, g with
  | FSource, FSource => true
  | FSource, _ | _, FSource => false
  | _, _ => true
  end.
Definition drains_in (f : SnoopFamily) (start : Z) (h : list (SnoopFamily * Z)) : Z :=
  Z.of_nat (countb (λ '(g, d), same_budget f g && (start <=? d) && (d <=? start + DRAIN_WINDOW)) h).

(** ** Lemmas *)

(** *** Budgets *)

Lemma pop_before_split cutoff l : ∃ popped, l = popped ++ pop_before cutoff l ∧
  Forall (λ d, d < cutoff) popped.
Proof.
  induction l as [|d l (popped & IH & Hp)]; [by exists []|]. cbn [pop_before].
  destruct (Z.ltb_spec d cutoff); [|by exists []]. exists (d :: popped). split; [|by constructor].
  cbn. by rewrite <- IH.
Qed.

Definition times_of (f : SnoopFamily) (h : list (SnoopFamily * Z)) : list Z :=
  snd <$> List.filter (λ p, same_budget f (fst p)) h.
Definition in_window (start d : Z) : bool := (start <=? d) && (d <=? start + DRAIN_WINDOW).

Lemma drains_in_times f start h : drains_in f start h = Z.of_nat (countb (in_window start) (times_of f h)).
Proof.
  unfold drains_in, times_of. f_equal. induction h as [|[g d] h IH]; [done|]. rewrite countb_cons, IH.
  cbn [List.filter fst]. destruct (same_budget f g); cbn [andb].
  - cbn [fmap list_fmap snd]. rewrite countb_cons. unfold in_window. done.
  - done.
Qed.

Record budget_ok (limit : Z) (f : SnoopFamily) (h : list (SnoopFamily * Z)) (clock : Z) (q : SnoopQueue)
    : Prop := {
  bo_split : ∃ old, times_of f h = old ++ recent_drains q f ∧ Forall (λ d, d < clock - DRAIN_WINDOW) old;
  bo_recent : zlen (recent_drains q f) ≤ limit;
  bo_window : ∀ start, drains_in f start h ≤ limit;
}.

Lemma budget_ok_ext limit f h clock clock' q q' : clock ≤ clock' → recent_drains q' f = recent_drains q f →
  budget_ok limit f h clock q → budget_ok limit f h clock' q'.
Proof.
  intros Hc Hr [(old & Ho & Hf) Hl Hw]. split; rewrite ?Hr; [|done|done]. exists old. split; [done|].
  eapply Forall_impl; [done|]. cbn. lia.
Qed.

(** Pruning, and then one drain within the budget. *)
Lemma budget_prune limit f h clock now q : budget_ok limit f h clock q → clock ≤ now →
  budget_ok limit f h now (pruned q now f).
Proof.
  intros [(old & Ho & Hf) Hl Hw] Hc.
  assert (Hr : recent_drains (pruned q now f) f = pop_before (now - DRAIN_WINDOW) (recent_drains q f))
    by (by destruct f). destruct (pop_before_split (now - DRAIN_WINDOW) (recent_drains q f)) as (popped & Hp & Hlt).
  split; rewrite ?Hr; [| |done].
  - exists (old ++ popped). split; [by rewrite Ho, Hp at 1; rewrite app_assoc|].
    apply Forall_app. split; [|done]. eapply Forall_impl; [done|]. cbn. lia.
  - rewrite Hp, zlen_app in Hl. pose proof (zlen_nonneg popped). lia.
Qed.

Lemma budget_drain limit f g h now q q' : budget_ok limit f h now q → same_budget f g = true →
  zlen (recent_drains q f) < limit → recent_drains q' f = recent_drains q f ++ [now] →
  budget_ok limit f (h ++ [(g, now)]) now q'.
Proof.
  intros [(old & Ho & Hf) Hl Hw] Hg Hlt Hr.
  assert (Ht : times_of f (h ++ [(g, now)]) = times_of f h ++ [now]).
  { unfold times_of. rewrite List.filter_app, fmap_app. cbn. by rewrite Hg. }
  assert (Hlen : zlen (recent_drains q' f) ≤ limit) by (rewrite Hr, zlen_app, zlen_cons, zlen_nil; lia).
  split; [|done|].
  - exists old. rewrite Ht, Ho, Hr. by rewrite app_assoc.
  - intros start. specialize (Hw start). rewrite drains_in_times in *. rewrite Ht, countb_app.
    destruct (in_window start now) eqn:Hin.
    + assert (Hold : countb (in_window start) old = O).
      { apply countb_zero. eapply Forall_impl; [done|]. intros d Hd. cbn in Hd. unfold in_window in *.
        bool_hyps. apply andb_false_iff. left. apply Z.leb_gt. lia. }
      rewrite Ho, countb_app, Hold. rewrite Hr, zlen_app in Hlen. unfold zlen in Hlen.
      pose proof (countb_le_length (in_window start) (recent_drains q f)).
      pose proof (countb_le_length (in_window start) [now]). cbn in *. lia.
    + rewrite countb_cons, Hin, countb_nil. lia.
Qed.

Lemma same_budget_spec f g : same_budget f g = true →
  (∀ q, recent_drains q f = recent_drains q g) ∧ (∀ q now, pruned q now f = pruned q now g) ∧
  (∀ q, family_max_queries_per_600s q f = family_max_queries_per_600s q g).
Proof. by destruct f, g. Qed.

Lemma prune_Ok q now f q' : prune_recent_drains q now f = Ok q' ↔
  q' = pruned q now f ∧ DATE_MIN ≤ now - DRAIN_WINDOW.
Proof.
  unfold prune_recent_drains, time_sub. destruct (Z.leb_spec DATE_MIN (now - DRAIN_WINDOW)); cbn [mbind res_bind].
  - split; [by intros [= <-]|by intros [-> _]].
  - split; [done|lia].
Qed.

(** Dates less far back than one in range are in range. *)
Lemma cutoff_in_range now a b : in_range now b = true → a ≤ b → cutoff_at now a = Ok (now - a * NANOS_PER_SEC).
Proof.
  unfold in_range. intros [H1%Z.leb_le H2%Z.leb_le]%andb_true_iff Hab. unfold cutoff_at, seconds.
  assert (I64_MAX / 1000 ≤ I64_MAX) by (vm_compute; discriminate).
  rewrite Z.min_l by lia. rewrite (proj2 (Z.leb_le a _)) by lia. cbn [mbind res_bind]. unfold time_sub.
  rewrite (proj2 (Z.leb_le DATE_MIN _)); [done|]. unfold NANOS_PER_SEC in *. lia.
Qed.

Lemma times_ok_spec q now f : times_ok q now = true →
  in_range now 600 = true ∧ in_range now (dedup_window_secs (sq_config q)) = true ∧
  0 ≤ family_drain_cooldown_secs q f ∧ in_range now (saturating_mul 64 (family_drain_cooldown_secs q f) 4) = true.
Proof.
  unfold times_ok. cbn. intros [[H1 H2]%andb_true_iff [[H3%Z.leb_le H4]%andb_true_iff
    [[H5%Z.leb_le H6]%andb_true_iff _]%andb_true_iff]%andb_true_iff]%andb_true_iff. by destruct f.
Qed.

(** Under these conditions the code's cutoffs are the cooldowns. *)
Lemma cooldown_cutoff q f now e : times_ok q now = true →
  let secs := family_drain_cooldown_secs q f in
  cutoff_at now secs = Ok (now - secs * NANOS_PER_SEC) ∧
  replay_cooldown_cutoff (now - secs * NANOS_PER_SEC) now secs e
    (default feedback_default (sq_replay_feedback q !! logical_key e)) =
  Ok (now - cooldown_of q f e * NANOS_PER_SEC).
Proof.
  intros (_ & _ & H0 & Hr)%(times_ok_spec _ _ f). cbn zeta.
  set (secs := family_drain_cooldown_secs q f) in *. split.
  - assert (Hb := Hr). unfold in_range in Hb. apply andb_true_iff in Hb as [Hb%Z.leb_le _].
    assert (I64_MAX / 1000 < 2 ^ 64 - 1) by reflexivity.
    apply (cutoff_in_range now secs _ Hr). unfold saturating_mul in *. lia.
  - unfold replay_cooldown_cutoff, cooldown_of. fold secs.
    destruct (last_outcome_at _) as [t|]; [|done]. destruct (_ || _); [done|].
    apply (cutoff_in_range now _ _ Hr). unfold saturating_mul. nia.
Qed.

Lemma prune_other q now f g : same_budget f g = false →
  recent_drains (pruned q now g) f = recent_drains q f.
Proof. by destruct f, g. Qed.

Lemma drain_effect {Request} q f now (c : ReplayCandidate Request) :
  sq_config (drain q f now c) = sq_config q ∧
  recent_drains (drain q f now c) f = recent_drains q f ++ [now] ∧
  ∀ g, same_budget g f = false → recent_drains (drain q f now c) g = recent_drains q g.
Proof.
  unfold drain. destruct (sq_entries q !! _); destruct f; (split; [done|]); (split; [done|]); by intros [].
Qed.

Lemma select_next_drains {Request} (request_of : SnoopEntry → res ProtoError (option Request)) best f q vals now q' r :
  select_next request_of best f q vals now = Ok (q', r) →
  sq_config q' = sq_config q ∧
  (∀ g, same_budget g f = false → recent_drains q' g = recent_drains q g) ∧
  match r with
  | None => recent_drains q' f = recent_drains (pruned q now f) f
  | Some _ => zlen (recent_drains (pruned q now f) f) < family_max_queries_per_600s q f ∧
      recent_drains q' f = recent_drains (pruned q now f) f ++ [now]
  end.
Proof.
  intros (q0 & (-> & _)%prune_Ok & Hs)%res_bind_Ok. revert Hs. set (q1 := pruned q now f).
  assert (Hc : sq_config q1 = sq_config q) by (by destruct f).
  assert (Hm : family_max_queries_per_600s q1 f = family_max_queries_per_600s q f) by (by destruct f).
  destruct (Z.leb_spec (family_max_queries_per_600s q1 f) (recent_drain_len q1 f)) as [_|Hlt].
  { intros [= <- <-]. split; [done|]. split; [|done]. intros g Hg. by apply prune_other. }
  intros (? & _ & (? & _ & ([recent stale] & _ & Hb)%res_bind_Ok)%res_bind_Ok)%res_bind_Ok. destruct (best recent stale) as [c|]; injection Hb as <- <-.
  - destruct (drain_effect q1 f now c) as (D1 & D2 & D3). split; [congruence|]. split; [|by rewrite <- Hm].
    intros g Hg. rewrite D3 by done. by apply prune_other.
  - split; [done|]. split; [|done]. intros g Hg. by apply prune_other.
Qed.

Lemma select_family_drains hex_decode f q vals now q' r : select_family hex_decode f q vals now = Ok (q', r) →
  sq_config q' = sq_config q ∧
  (∀ g, same_budget g f = false → recent_drains q' g = recent_drains q g) ∧
  match r with
  | None => recent_drains q' f = recent_drains (pruned q now f) f
  | Some _ => zlen (recent_drains (pruned q now f) f) < family_max_queries_per_600s q f ∧
      recent_drains q' f = recent_drains (pruned q now f) f ++ [now]
  end.
Proof.
  unfold select_family. destruct f; intros ([q1 r1] & Hs & [= <- <-])%res_bind_Ok;
    apply select_next_drains in Hs; by destruct r1.
Qed.

Lemma merge_entry_frame q e : sq_config (fst (merge_entry q e)) = sq_config q ∧
  ∀ f, recent_drains (fst (merge_entry q e)) f = recent_drains q f.
Proof. unfold merge_entry. destruct (_ !! _); split; done. Qed.

Lemma record_fst q e : fst (record q e) = fst (merge_entry q e).
Proof. unfold record. by destruct (merge_entry q e) as [q' [??]]. Qed.

Lemma merge_snapshot_frame es q : sq_config (merge_snapshot q es) = sq_config q ∧
  ∀ f, recent_drains (merge_snapshot q es) f = recent_drains q f.
Proof.
  revert q. induction es as [|e es IH]; intros q; [done|]. cbn [merge_snapshot foldl].
  fold (merge_snapshot (if should_skip_restored_entry e then q else fst (merge_entry q e)) es).
  destruct (IH (if should_skip_restored_entry e then q else fst (merge_entry q e))) as [H1 H2].
  destruct (should_skip_restored_entry e); [done|]. destruct (merge_entry_frame q e) as [M1 M2].
  split; [congruence|]. intros f. by rewrite H2, M2.
Qed.

Lemma outcome_frame q key t n : sq_config (record_replay_outcome q key t n) = sq_config q ∧
  ∀ f, recent_drains (record_replay_outcome q key t n) f = recent_drains q f.
Proof. unfold record_replay_outcome. repeat case_match; done. Qed.

Lemma family_max_config q q' f : sq_config q' = sq_config q →
  family_max_queries_per_600s q' f = family_max_queries_per_600s q f.
Proof. unfold family_max_queries_per_600s. by intros ->. Qed.

Lemma budget_history hex_decode config h clock q : snoop_history hex_decode config h clock q →
  sq_config q = config ∧
  ∀ f, budget_ok (Z.max 0 (family_max_queries_per_600s (snoop_new config) f)) f h clock q.
Proof.
  induction 1 as [clock|h clock q e _ [Hc IH]|h clock q es _ [Hc IH]|h clock q key t n _ [Hc IH]|
                  h clock q f vals now q' r _ [Hc IH] Hle _ Hs].
  - split; [done|]. intros f.
    split; [exists []; split; [by destruct f|constructor]|destruct f; apply Z.le_max_l|intros; apply Z.le_max_l].
  - rewrite record_fst. destruct (merge_entry_frame q e) as [M1 M2]. split; [congruence|].
    intros f. eapply budget_ok_ext; [|apply M2|apply IH]. lia.
  - destruct (merge_snapshot_frame es q) as [M1 M2]. split; [congruence|].
    intros f. eapply budget_ok_ext; [|apply M2|apply IH]. lia.
  - destruct (outcome_frame q key t n) as [M1 M2]. split; [congruence|].
    intros f. eapply budget_ok_ext; [|apply M2|apply IH]. lia.
  - apply select_family_drains in Hs as (D1 & D2 & D3). split; [congruence|]. intros g.
    destruct (same_budget g f) eqn:Hg.
    + destruct (same_budget_spec g f Hg) as (S1 & S2 & S3).
      pose proof (budget_prune _ _ _ _ now _ (IH g) Hle) as Hp. rewrite S2 in Hp. destruct r as [k|].
      * destruct D3 as [Hlt Hr]. eapply budget_drain; [exact Hp|done| |by rewrite !S1].
        rewrite S1. unfold snoop_new in *. rewrite (family_max_config q (mkSnoopQueue config ∅ ∅ [] [])), S3 by done. lia.
      * rewrite app_nil_r. eapply budget_ok_ext; [| |exact Hp]; [lia|]. by rewrite !S1.
    + pose proof (budget_ok_ext _ g h clock now q q' Hle (D2 g Hg) (IH g)) as Hq. destruct r; [|by rewrite app_nil_r].
      destruct Hq as [Q1 Q2 Q3].
      assert (Ht : times_of g (h ++ [(f, now)]) = times_of g h).
      { unfold times_of. rewrite List.filter_app. cbn. by rewrite Hg, app_nil_r. }
      split; [by rewrite Ht|done|]. intros start. specialize (Q3 start). rewrite drains_in_times in *. by rewrite Ht.
Qed.

(** *** Selection *)

Section selection.
Context {Request : Type} (request_of : SnoopEntry → res ProtoError (option Request)).
Context (q : SnoopQueue) (family : SnoopFamily) (now : Z).

Lemma candidate_fields e c : candidate request_of q family now e = Some c →
  rc_last_seen c = last_seen e ∧ sc_logical_key (rc_scheduled c) = logical_key e.
Proof.
  unfold candidate. destruct (request_of e) as [[r|]| |]; try done.
  destruct (cools q family now e); [done|]. by intros [= <-].
Qed.

Definition candidates (vals : list SnoopEntry) : list (ReplayCandidate Request) :=
  omap (candidate request_of q family now) vals.

Lemma candidate_of_spec e r : times_ok q now = true → request_of e = Ok (Some r) →
  let secs := family_drain_cooldown_secs q family in
  candidate_of q now secs (now - secs * NANOS_PER_SEC) e r = Ok (candidate request_of q family now e).
Proof.
  intros Ht He. cbn zeta. destruct (cooldown_cutoff q family now e Ht) as [_ Hc].
  unfold candidate_of, candidate, cools. rewrite He. destruct (last_drained_at e) as [t|]; [|done].
  rewrite Hc. cbn [mbind res_bind].
  destruct (Z.ltb_spec (now - cooldown_of q family e * NANOS_PER_SEC) t),
    (Z.ltb_spec now (t + cooldown_of q family e * NANOS_PER_SEC)); [done|lia|lia|done].
Qed.

Lemma collect_candidates_spec vals recent stale : times_ok q now = true →
  (∀ e, e ∈ vals → ∃ r, request_of e = Ok r) →
  let secs := family_drain_cooldown_secs q family in
  collect_candidates request_of q now secs (now - secs * NANOS_PER_SEC)
    (now - dedup_window_secs (sq_config q) * NANOS_PER_SEC) vals recent stale =
  Ok (recent ++ List.filter (fresh q now) (candidates vals),
      stale ++ List.filter (λ c, negb (fresh q now c)) (candidates vals)).
Proof.
  intros Ht. cbn zeta. revert recent stale. induction vals as [|e vals IH]; intros recent stale Hr.
  { cbn. by rewrite !app_nil_r. }
  cbn [collect_candidates]. destruct (Hr e ltac:(by left)) as [r He]. rewrite He. cbn [mbind res_bind].
  assert (Hc : candidates (e :: vals) = option_list (candidate request_of q family now e) ++ candidates vals).
  { unfold candidates. cbn. by destruct (candidate _ _ _ _ e). }
  rewrite Hc, !List.filter_app. destruct r as [r|].
  2:{ unfold candidate. rewrite He. apply IH. intros; apply Hr; by right. }
  rewrite (candidate_of_spec e r Ht He). cbn [mbind res_bind].
  destruct (candidate request_of q family now e) as [c|] eqn:Hce.
  - destruct (candidate_fields e c Hce) as [Hls _].
    assert (Hf : fresh q now c = (now - dedup_window_secs (sq_config q) * NANOS_PER_SEC <=? last_seen e))
      by (unfold fresh; by rewrite Hls).
    rewrite <- Hf. change (option_list (Some c)) with [c]. cbn [List.filter].
    destruct (fresh q now c); cbn [negb app]; (rewrite IH by (intros; apply Hr; by right));
      by rewrite <- app_assoc.
  - apply IH. intros; apply Hr; by right.
Qed.
End selection.

(** Choosing from the fresh ones first is the first one of the refined order. *)
Lemma first_of_order {Request} q now (cmp : ReplayCandidate Request → ReplayCandidate Request → comparison) cs :
  TotalCmp cmp → (∀ x y, x ∈ cs → y ∈ cs → cmp x y = Eq → x = y) →
  first_of cmp (List.filter (fresh q now) cs) (List.filter (λ c, negb (fresh q now c)) cs) =
  head (sort_by (replay_order q now cmp) cs).
Proof.
  intros Hcmp Heq. unfold first_of.
  assert (Ho : TotalCmp (replay_order q now cmp)) by (unfold replay_order; apply _).
  assert (Heqo : ∀ x y, x ∈ cs → y ∈ cs → replay_order q now cmp x y = Eq → x = y).
  { intros x y Hx Hy [_ H]%then_with_Eq. by apply Heq. }
  pose proof (head_sort_by cmp (List.filter (fresh q now) cs)) as Hf.
  destruct (head (sort_by cmp (List.filter (fresh q now) cs))) as [x|].
  - destruct Hf as [[Hx Hfx]%elem_of_filter_bool Hle]. symmetry.
    apply (head_sort_by_eq _); [done| |intros; by apply Heqo].
    intros y Hy. unfold cmp_le, replay_order. rewrite Hfx. destruct (fresh q now y) eqn:Hfy; [|done]. cbn.
    apply Hle, elem_of_filter_bool. done.
  - assert (Hall : ∀ y, y ∈ cs → fresh q now y = false).
    { intros y Hy. apply not_true_is_false. intros Hfy.
      assert (y ∈ List.filter (fresh q now) cs) as Hin by (by apply elem_of_filter_bool).
      rewrite Hf in Hin. by apply elem_of_nil in Hin. }
    pose proof (head_sort_by cmp (List.filter (λ c, negb (fresh q now c)) cs)) as Hs.
    destruct (head (sort_by cmp (List.filter (λ c, negb (fresh q now c)) cs))) as [x|].
    + destruct Hs as [[Hx Hfx]%elem_of_filter_bool Hle]. symmetry.
      apply (head_sort_by_eq _); [done| |intros; by apply Heqo].
      intros y Hy. unfold cmp_le, replay_order. rewrite (Hall x Hx), (Hall y Hy). cbn.
      apply Hle, elem_of_filter_bool. split; [done|]. by rewrite Hall.
    + destruct cs as [|y cs]; [done|]. exfalso.
      assert (y ∈ List.filter (λ c, negb (fresh q now c)) (y :: cs)) as Hin.
      { apply elem_of_filter_bool. split; [by left|]. by rewrite Hall by left. }
      rewrite Hs in Hin. by apply elem_of_nil in Hin.
Qed.

#[export] Instance candidate_cmp_total : TotalCmp candidate_cmp.
Proof. unfold candidate_cmp. apply _. Qed.
#[export] Instance notes_candidate_cmp_total : TotalCmp notes_candidate_cmp.
Proof. unfold notes_candidate_cmp. apply _. Qed.
#[export] Instance source_candidate_cmp_total : TotalCmp source_candidate_cmp.
Proof. unfold source_candidate_cmp. apply _. Qed.

(** The keys break all ties. *)
Definition by_key {Request} (cmp : ReplayCandidate Request → ReplayCandidate Request → comparison) : Prop :=
  ∀ x y, cmp x y = Eq → sc_logical_key (rc_scheduled x) = sc_logical_key (rc_scheduled y).
Lemma candidate_by_key : by_key candidate_cmp.
Proof. intros x y. unfold candidate_cmp. rewrite !then_with_Eq. intros H. apply str_cmp_Eq. tauto. Qed.
Lemma notes_candidate_by_key : by_key notes_candidate_cmp.
Proof. intros x y. unfold notes_candidate_cmp. rewrite !then_with_Eq. intros H. apply str_cmp_Eq. tauto. Qed.
Lemma source_candidate_by_key : by_key source_candidate_cmp.
Proof. intros x y. unfold source_candidate_cmp. rewrite !then_with_Eq. intros H. apply str_cmp_Eq. tauto. Qed.

Lemma filter_comm {A} (f g : A → bool) l : List.filter f (List.filter g l) = List.filter g (List.filter f l).
Proof.
  induction l as [|x l IH]; [done|]. cbn. destruct (f x) eqn:Hf, (g x) eqn:Hg; cbn; rewrite ?Hf, ?Hg, ?IH; done.
Qed.

Lemma best_source_order q now cs :
  (∀ x y, x ∈ cs → y ∈ cs → source_candidate_cmp x y = Eq → x = y) →
  select_best_source_candidate (List.filter (fresh q now) cs) (List.filter (λ c, negb (fresh q now c)) cs) =
  head (sort_by (source_replay_order q now) cs).
Proof.
  intros Heq. unfold select_best_source_candidate. set (hq := source_candidate_is_high_quality).
  assert (Ho : TotalCmp (source_replay_order q now)) by (unfold source_replay_order, replay_order; apply _).
  assert (Hor : TotalCmp (replay_order q now source_candidate_cmp)) by (unfold replay_order; apply _).
  assert (Heqo : ∀ x y, x ∈ cs → y ∈ cs → source_replay_order q now x y = Eq → x = y).
  { intros x y Hx Hy [_ [_ H]%then_with_Eq]%then_with_Eq. by apply Heq. }
  destruct (existsb hq _) eqn:Hp.
  - rewrite !(filter_comm hq), first_of_order by (try apply _; intros x y [Hx _]%elem_of_filter_bool
      [Hy _]%elem_of_filter_bool; by apply Heq).
    pose proof (head_sort_by (replay_order q now source_candidate_cmp) (List.filter hq cs)) as Hh.
    destruct (head (sort_by _ (List.filter hq cs))) as [x|].
    + destruct Hh as [[Hx Hqx]%elem_of_filter_bool Hle]. symmetry.
      apply (head_sort_by_eq _); [done| |intros; by apply Heqo].
      intros y Hy. unfold cmp_le, source_replay_order. fold hq. rewrite Hqx.
      destruct (hq y) eqn:Hqy; [|done]. cbn. apply Hle, elem_of_filter_bool. done.
    + exfalso. apply existsb_exists in Hp as (x & Hx & Hqx). apply list_elem_of_In in Hx.
      assert (x ∈ cs) as Hin by (apply elem_of_app in Hx as [[? _]%elem_of_filter_bool|[? _]%elem_of_filter_bool]; done).
      assert (x ∈ List.filter hq cs) as Hf by (by apply elem_of_filter_bool). rewrite Hh in Hf.
      by apply elem_of_nil in Hf.
  - assert (Hno : ∀ y, y ∈ cs → hq y = false).
    { intros y Hy. apply not_true_is_false. intros Hqy. apply diff_false_true. rewrite <- Hp.
      apply existsb_exists. exists y. split; [|done]. apply list_elem_of_In, elem_of_app.
      destruct (fresh q now y) eqn:Hf; [left|right]; apply elem_of_filter_bool; rewrite ?Hf; done. }
    rewrite first_of_order by (try apply _; done). f_equal. apply sort_by_ext.
    intros x y Hx Hy. unfold source_replay_order. fold hq. by rewrite (Hno x Hx), (Hno y Hy).
Qed.

Lemma elem_of_entry_values q e : e ∈ entry_values q ↔ ∃ k, sq_entries q !! k = Some e.
Proof.
  unfold entry_values. rewrite list_elem_of_fmap. split.
  - intros ([k e'] & -> & Hin%elem_of_map_to_list). by exists k.
  - intros [k Hin]. exists (k, e). split; [done|]. by apply elem_of_map_to_list.
Qed.

Lemma candidate_prune {Request} (request_of : SnoopEntry → res ProtoError (option Request)) q f now :
  candidates request_of (pruned q now f) f now = candidates request_of q f now ∧
  ∀ c : ReplayCandidate Request, fresh (pruned q now f) now c = fresh q now c.
Proof. by destruct f. Qed.

Lemma drain_entries {Request} q f now (c : ReplayCandidate Request) e :
  sq_entries q !! sc_logical_key (rc_scheduled c) = Some e →
  sq_entries (drain q f now c) =
    <[sc_logical_key (rc_scheduled c) := set_last_drained_at (Some now) e]> (sq_entries q).
Proof. intros He. unfold drain. rewrite He. by destruct f. Qed.

Section select_first.
Context {Request : Type} (request_of : SnoopEntry → res ProtoError (option Request)).
Context (best : list (ReplayCandidate Request) → list (ReplayCandidate Request) → option (ReplayCandidate Request)).
Context (order : ReplayCandidate Request → ReplayCandidate Request → comparison).
Context (family : SnoopFamily) (q : SnoopQueue) (now : Z).
Context `{Hord : !TotalCmp order}.
Hypothesis Htimes : times_ok q now = true.
Hypothesis Hkey : by_key order.
Hypothesis Hok : ∀ k e, sq_entries q !! k = Some e → logical_key e = k ∧ ∃ r, request_of e = Ok r.
Hypothesis Hbest : ∀ cs, (∀ x y, x ∈ cs → y ∈ cs → sc_logical_key (rc_scheduled x) = sc_logical_key (rc_scheduled y) → x = y) →
  best (List.filter (fresh q now) cs) (List.filter (λ c, negb (fresh q now c)) cs) = head (sort_by order cs).

Lemma elem_of_candidates vals c : vals ≡ₚ entry_values q →
  c ∈ candidates request_of q family now vals ↔
  ∃ e, sq_entries q !! sc_logical_key (rc_scheduled c) = Some e ∧ candidate request_of q family now e = Some c.
Proof.
  intros Hp. unfold candidates. rewrite list_elem_of_omap. split.
  - intros (e & He & Hc). rewrite Hp, elem_of_entry_values in He. destruct He as [k Hk].
    exists e. destruct (candidate_fields _ _ _ _ _ _ Hc) as [_ ->]. by rewrite (proj1 (Hok k e Hk)).
  - intros (e & He & Hc). exists e. split; [|done]. rewrite Hp, elem_of_entry_values. eauto.
Qed.

Lemma candidates_unique vals x y : vals ≡ₚ entry_values q →
  x ∈ candidates request_of q family now vals → y ∈ candidates request_of q family now vals →
  sc_logical_key (rc_scheduled x) = sc_logical_key (rc_scheduled y) → x = y.
Proof.
  intros Hp. rewrite !elem_of_candidates by done. intros (e & He & Hx) (e' & He' & Hy) Hk. congruence.
Qed.

(** The candidate chosen, whatever the order of the iteration. *)
Definition chosen : option (ReplayCandidate Request) :=
  head (sort_by order (candidates request_of q family now (entry_values q))).

Lemma select_next_chosen vals : vals ≡ₚ entry_values q →
  select_next request_of best family q vals now =
  Ok (let q1 := pruned q now family in
      if family_max_queries_per_600s q family <=? recent_drain_len q1 family then (q1, None)
      else match chosen with
           | None => (q1, None)
           | Some c => (drain q1 family now c, Some (rc_scheduled c))
           end).
Proof.
  intros Hp. unfold select_next. set (q1 := pruned q now family).
  destruct (times_ok_spec q now family Htimes) as (H600 & Hd & _ & _).
  rewrite (proj2 (prune_Ok q now family q1)).
  2:{ split; [done|]. unfold in_range in H600. apply andb_true_iff in H600 as [_ H%Z.leb_le]. exact H. }
  cbn [mbind res_bind].
  assert (Hcf : sq_config q1 = sq_config q) by (by destruct family).
  assert (Hm : family_max_queries_per_600s q1 family = family_max_queries_per_600s q family) by (by destruct family).
  rewrite Hm. destruct (_ <=? _); [done|].
  assert (Ht1 : times_ok q1 now = true) by (unfold times_ok; by rewrite Hcf).
  rewrite Hcf, (cutoff_in_range now _ _ Hd (Z.le_refl _)). rewrite <- Hcf. cbn [mbind res_bind].
  rewrite (proj1 (cooldown_cutoff q1 family now (SNotes [] [] 0 0 0 0 None) Ht1)). cbn [mbind res_bind].
  rewrite collect_candidates_spec; [|done|].
  2:{ intros e He. rewrite Hp, elem_of_entry_values in He. destruct He as [k Hk]. by apply (Hok k e). }
  destruct (candidate_prune request_of q family now) as [Hc Hf]. fold q1 in Hc, Hf. cbn [mbind res_bind app].
  rewrite Hc, (List.filter_ext (fresh q1 now) (fresh q now)) by done.
  rewrite (List.filter_ext (λ c, negb (fresh q1 now c)) (λ c, negb (fresh q now c))) by (intros; by rewrite Hf).
  rewrite Hbest by (intros x y; by apply candidates_unique).
  assert (head (sort_by order (candidates request_of q family now vals)) = chosen) as ->; [|done].
  apply (head_sort_by_perm order); [unfold candidates; by rewrite Hp|].
  intros x y Hx Hy He. apply (candidates_unique vals); [done..|]. by apply Hkey.
Qed.

Lemma select_first : selects_first request_of best order family q now.
Proof.
  unfold selects_first. set (q1 := pruned q now family).
  pose proof select_next_chosen as Hsel. cbn zeta in Hsel. fold q1 in Hsel. cbn zeta.
  destruct (family_max_queries_per_600s q family <=? recent_drain_len q1 family);
    [exists q1, None; by auto|].
  pose proof (head_sort_by order (candidates request_of q family now (entry_values q))) as Hh. fold chosen in Hh.
  destruct chosen as [c|];
    [exists (drain q1 family now c), (Some (rc_scheduled c))|exists q1, None]; (split; [exact Hsel|]).
  - destruct Hh as [Hc Hle]. pose proof Hc as Hc'. rewrite elem_of_candidates in Hc' by done.
    destruct Hc' as (e & He & Hce). split; [done|]. exists e, c. repeat (split; [done|]). split; [|split].
    + intros k' e' c' Hk' Hc' Hne. pose proof (candidate_fields _ _ _ _ _ _ Hc') as [_ Hkc].
      assert (Hin : c' ∈ candidates request_of q family now (entry_values q)).
      { rewrite elem_of_candidates by done. exists e'. split; [|done]. rewrite Hkc. by rewrite (proj1 (Hok k' e' Hk')). }
      specialize (Hle c' Hin). unfold cmp_le in Hle. destruct (order c c') eqn:Ho; [|done..]. exfalso. apply Hne.
      rewrite (Hkey _ _ Ho), Hkc. symmetry. by apply (Hok k' e').
    + assert (Hq : sq_entries q1 = sq_entries q) by (unfold q1; by destruct family).
      rewrite <- Hq. apply drain_entries. by rewrite Hq.
    + apply drain_effect.
  - split; [done|]. right. intros k e Hk.
    destruct (candidate request_of q family now e) as [c|] eqn:Hc; [|done]. exfalso.
    assert (Hin : c ∈ candidates request_of q family now (entry_values q)).
    { unfold candidates. apply list_elem_of_omap. exists e. split; [|done]. apply elem_of_entry_values. eauto. }
    rewrite Hh in Hin. by apply elem_of_nil in Hin.
Qed.
End select_first.

Lemma request_total q k e hex_decode : snoop_ok q → sq_entries q !! k = Some e →
  (∃ r, keyword_request hex_decode e = Ok r) ∧ (∃ r, source_request e = Ok r) ∧ (∃ r, notes_request e = Ok r).
Proof.
  intros Hok Hk. destruct (Hok k e Hk) as [_ Hp].
  assert (Ht : ∃ o, parse_target (entry_target e) = Ok o) by (unfold parse_target; destruct (id_from_str _); eauto; done).
  destruct Ht as [o Ht].
  destruct e as [k' t s0 p h fs ls d|k' t s0 z h fs ls d|k' t z h fs ls d];
    cbn [entry_target keyword_request source_request notes_request] in *; rewrite ?Ht; cbn [mbind res_bind];
    try destruct (z =? 0); repeat split; by eexists.
Qed.

(** *** Harvesting *)

Definition occurrences (h : harvest) (l : list (harvest * Z)) : Z :=
  Z.of_nat (countb (λ p, bool_decide (fst p = h)) l).

Section harvesting.
Context (hex_encode : list Z → list Z) (hex_decode : list Z → option (list Z)).
Hypothesis Hhex : ∀ b, is_bytes b = true → hex_decode (hex_encode b) = Some b.
Hypothesis Hnil : hex_encode [] = [].

Lemma parse_target_display id : wf_NodeId id = true → parse_target (id_display id) = Ok (Some id).
Proof. intros H. unfold parse_target. by rewrite id_from_str_display. Qed.

Lemma replayed_entry h now : wf_harvest h = true →
  replayed hex_decode (harvest_entry hex_encode h now) = Ok (if replayable h then Some h else None).
Proof.
  destruct h as [[id s p]|[id s z]|[id z]]; cbn -[is_u16 is_u64 wf_NodeId id_display payload_hex]; intros H;
    bool_hyps; rewrite parse_target_display by done; cbn.
  - destruct p as [|b p]; [done|]. cbn. by rewrite Hhex.
  - by destruct (z =? 0).
  - by destruct (z =? 0).
Qed.

Lemma default_payload_hex p : default [] (payload_hex hex_encode p) = hex_encode p.
Proof. by destruct p. Qed.

Lemma hex4_inj a b : is_u16 a = true → is_u16 b = true → hex_fixed 4 a = hex_fixed 4 b → a = b.
Proof. intros Ha%is_u16_spec Hb%is_u16_spec. apply hex_fixed_inj; done. Qed.

(** Splits an equality of texts with fields of fixed width. *)
Ltac split_field H := apply app_inj_1 in H as [? H]; [|by rewrite ?length_id_display, ?length_hex_fixed].

Lemma harvest_key_inj h h' : wf_harvest h = true → wf_harvest h' = true →
  harvest_key hex_encode h = harvest_key hex_encode h' → h = h'.
Proof.
  destruct h as [[id s p]|[id s z]|[id z]], h' as [[id' s' p']|[id' s' z']|[id' z']];
    cbn [wf_harvest wf_packet sk_target sk_start_position sk_restrictive_payload ss_target ss_start_position ss_size
         sn_target sn_size harvest_key]; intros Hw Hw' H; bool_hyps;
    unfold keyword_logical_key, source_logical_key, notes_logical_key in H; try done;
    cbn [sk_target sk_start_position sk_restrictive_payload ss_target ss_start_position ss_size sn_target sn_size] in H.
  - rewrite !default_payload_hex in H. do 5 split_field H.
    assert (hex_decode (hex_encode p) = hex_decode (hex_encode p')) as Hp by (by rewrite H).
    rewrite !Hhex in Hp by done. injection Hp as ->. f_equal. f_equal; [by apply id_display_inj|by apply hex4_inj].
  - do 5 split_field H. f_equal. f_equal; [by apply id_display_inj|by apply hex4_inj|by apply decimal_inj].
  - do 3 split_field H. f_equal. f_equal; [by apply id_display_inj|by apply decimal_inj].
Qed.

Lemma harvest_entry_key h now : logical_key (harvest_entry hex_encode h now) = harvest_key hex_encode h.
Proof. by destruct h. Qed.

(** What the queue knows of a search after [l]. *)
Definition knows (l : list (harvest * Z)) (h : harvest) (e : SnoopEntry) : Prop :=
  h ∈ l.*1 ∧ logical_key e = harvest_key hex_encode h ∧ hit_count e = Z.min (occurrences h l) U32_MAX ∧
  replayed hex_decode e = Ok (if replayable h then Some h else None) ∧
  id_from_str (entry_target e) ≠ Panic ∧ ∀ t, (h, t) ∈ l → first_seen e ≤ t ≤ last_seen e.

Lemma occurrences_snoc h l h' t :
  occurrences h (l ++ [(h', t)]) = occurrences h l + (if bool_decide (h' = h) then 1 else 0).
Proof. unfold occurrences. rewrite countb_app, countb_cons, countb_nil. cbn [fst]. case_bool_decide; lia. Qed.

Lemma occurrences_pos h l : h ∈ l.*1 → 1 ≤ occurrences h l.
Proof.
  intros ([h' t] & -> & Hin)%list_elem_of_fmap. unfold occurrences.
  destruct (countb _ l) eqn:Hc; [|lia]. apply countb_zero in Hc. rewrite Forall_forall in Hc.
  specialize (Hc _ Hin). by rewrite bool_decide_true in Hc.
Qed.
Lemma occurrences_zero h l : h ∉ l.*1 → occurrences h l = 0.
Proof.
  intros Hn. unfold occurrences. change 0 with (Z.of_nat 0). f_equal. apply countb_zero, Forall_forall.
  intros [h' t] Hin. apply bool_decide_false. cbn. intros ->. apply Hn, list_elem_of_fmap. by exists (h, t).
Qed.

Lemma target_not_panic h now : wf_harvest h = true →
  id_from_str (entry_target (harvest_entry hex_encode h now)) ≠ Panic.
Proof.
  destruct h as [[id s p]|[id s z]|[id z]]; cbn -[is_u16 is_u64 wf_NodeId id_display]; intros H; bool_hyps;
    by rewrite id_from_str_display.
Qed.

Lemma knows_new l h t : wf_harvest h = true → h ∉ l.*1 → knows (l ++ [(h, t)]) h (harvest_entry hex_encode h t).
Proof.
  intros Hw Hn. split; [rewrite fmap_app; set_solver|]. split; [apply harvest_entry_key|].
  split; [rewrite occurrences_snoc, occurrences_zero, bool_decide_true by done; by destruct h|].
  split; [by apply replayed_entry|]. split; [by apply target_not_panic|].
  intros t'. rewrite elem_of_app, list_elem_of_singleton. intros [Hin|[= ->]].
  - destruct Hn. apply list_elem_of_fmap. by exists (h, t').
  - destruct h; cbn; lia.
Qed.

Lemma knows_again l h t e : wf_harvest h = true → knows l h e →
  knows (l ++ [(h, t)]) h
    (set_last_drained_at
      (match last_drained_at e, last_drained_at (harvest_entry hex_encode h t) with
       | Some l, Some r => Some (Z.max l r) | Some l, None => Some l | None, r => r end)
      (set_first_seen (Z.min (first_seen e) (first_seen (harvest_entry hex_encode h t)))
        (set_last_seen (Z.max (last_seen e) (last_seen (harvest_entry hex_encode h t)))
          (set_hit_count (saturating_add 32 (hit_count e) (hit_count (harvest_entry hex_encode h t))) e)))).
Proof.
  intros Hw (K1 & K2 & K3 & K4 & K5 & K6). pose proof (occurrences_pos h l K1).
  assert (Hh : hit_count (harvest_entry hex_encode h t) = 1) by (by destruct h).
  assert (Ht : first_seen (harvest_entry hex_encode h t) = t ∧ last_seen (harvest_entry hex_encode h t) = t)
    by (by destruct h). destruct Ht as [-> ->]. rewrite Hh. split; [rewrite fmap_app; set_solver|].
  rewrite <- K2, <- K4. rewrite occurrences_snoc, bool_decide_true by done.
  split; [by destruct e|]. split.
  { unfold saturating_add, U32_MAX in *. change (2 ^ 32) with 4294967296.
    destruct e; cbn in *; lia. }
  split; [by destruct e|]. split; [by destruct e|].
  intros t'. rewrite elem_of_app, list_elem_of_singleton. intros [Hin%K6|[= ->]]; destruct e; cbn in *; lia.
Qed.

Lemma knows_other l h h' t e : h' ≠ h → knows l h e → knows (l ++ [(h', t)]) h e.
Proof.
  intros Hne (K1 & K2 & K3 & K4 & K5 & K6). split; [rewrite fmap_app; set_solver|]. split; [done|].
  split; [by rewrite occurrences_snoc, bool_decide_false, Z.add_0_r by done|]. do 2 (split; [done|]).
  intros t'. rewrite elem_of_app, list_elem_of_singleton. intros [Hin|[= -> ->]]; [by apply K6|done].
Qed.

(** The queue after harvesting [l]: one entry per search. *)
Definition harvested (l : list (harvest * Z)) (q : SnoopQueue) : Prop :=
  (∀ k e, sq_entries q !! k = Some e → ∃ h, wf_harvest h = true ∧ k = harvest_key hex_encode h ∧ knows l h e) ∧
  (∀ h, h ∈ l.*1 → is_Some (sq_entries q !! harvest_key hex_encode h)).

Lemma harvested_record l q h t : Forall (λ p, wf_harvest (fst p) = true) l → wf_harvest h = true →
  harvested l q → harvested (l ++ [(h, t)]) (fst (record q (harvest_entry hex_encode h t))).
Proof.
  intros Hl Hw [He Hin]. rewrite record_fst. unfold merge_entry. rewrite harvest_entry_key.
  set (k := harvest_key hex_encode h).
  assert (Hins : ∀ e', knows (l ++ [(h, t)]) h e' →
    harvested (l ++ [(h, t)]) (set_entries q (<[k := e']> (sq_entries q)))).
  { intros e' Hk. split; cbn.
    - intros k' e [[<- <-]|[Hne Hk']]%lookup_insert_Some; [by exists h|].
      destruct (He k' e Hk') as (h' & Hw' & -> & Hkn). exists h'. repeat (split; [done|]).
      apply knows_other; [|done]. intros ->. done.
    - intros h'. rewrite fmap_app, elem_of_app. intros [Hh'| ->%list_elem_of_singleton].
      + apply lookup_insert_is_Some'. right. by apply Hin.
      + rewrite lookup_insert_eq. by eexists. }
  destruct (sq_entries q !! k) as [e|] eqn:Hk; cbn [fst]; apply Hins.
  - destruct (He k e Hk) as (h' & Hw' & Hkey & Hkn). assert (h = h') as <- by (by apply harvest_key_inj).
    by apply knows_again.
  - apply knows_new; [done|]. intros Hh. destruct (Hin h Hh) as [e He']. unfold k in Hk. congruence.
Qed.

Lemma harvest_all_ok config l : Forall (λ p, wf_harvest (fst p) = true) l →
  harvested l (harvest_all hex_encode config l).
Proof.
  induction l as [|[h t] l IH] using rev_ind; intros Hl; [by split; cbn; [done|set_solver]|].
  apply Forall_app in Hl as [Hl [Hw _]%Forall_cons]. unfold harvest_all. rewrite foldl_app. cbn [foldl].
  apply harvested_record; [done|done|]. by apply IH.
Qed.

Lemma harvested_snoop_ok l q : harvested l q → snoop_ok q.
Proof. intros [He _] k e Hk. destruct (He k e Hk) as (h & _ & -> & (_ & ? & _ & _ & ? & _)). done. Qed.
End harvesting.

(** ** Properties *)

Definition sample_config : SnoopQueueConfig := mkSnoopConfig 3600 2 60 2 60 10.
Definition sample_harvest : list (harvest * Z) :=
  [(HKey (mkSearchKeyReq (replicate 16 1) 0 [1; 2]), 5);
   (HNotes (mkSearchNotesReq (replicate 16 3) 0), 6);
   (HKey (mkSearchKeyReq (replicate 16 1) 0 [1; 2]), 8)].

(** The two ways a selection panics. A configured window of more than [i64::MAX]
    milliseconds: [seconds] clamps it to [i64::MAX] seconds only. And an entry restored
    from a snapshot whose target of 32 bytes has a character across an offset where
    the parser of identifiers slices. *)
Lemma selection_panics :
  select_next_notes_request (snoop_new (mkSnoopConfig (2 ^ 63) 2 60 2 60 10)) [] 0 = Panic ∧
  let restored := SNotes (lit "notes") split_char_text 1 1 0 0 None in
  let q := merge_snapshot (snoop_new sample_config) [restored] in
  select_next_notes_request q (entry_values q) 0 = Panic.
Proof. split; vm_compute; reflexivity. Qed.

(** Harvesting keeps one entry for each distinct search: after any sequence of
    harvested searches, every entry belongs to one of them, with its number of
    occurrences (up to the counter's maximum) and the span of their times; it is
    replayed as exactly that search, or not at all when the search has no size; and
    every search harvested has its entry. ([hex] decodes what it encodes.) *)
Lemma harvest_replayed hex_encode hex_decode config l :
  (∀ b, is_bytes b = true → hex_decode (hex_encode b) = Some b) → hex_encode [] = [] →
  forallb (λ p, wf_harvest (fst p)) l = true →
  let q := harvest_all hex_encode config l in
  snoop_ok q ∧
  (∀ k e, sq_entries q !! k = Some e → ∃ h, h ∈ l.*1 ∧ k = harvest_key hex_encode h ∧
     hit_count e = Z.min (occurrences h l) U32_MAX ∧
     replayed hex_decode e = Ok (if replayable h then Some h else None) ∧
     ∀ t, (h, t) ∈ l → first_seen e ≤ t ≤ last_seen e) ∧
  (∀ h, h ∈ l.*1 → is_Some (sq_entries q !! harvest_key hex_encode h)).
Proof.
  intros Hhex Hnil Hl q.
  assert (Hw : Forall (λ p, wf_harvest (fst p) = true) l).
  { apply Forall_forall. intros p Hp. rewrite forallb_forall in Hl. by apply Hl, list_elem_of_In. }
  pose proof (harvest_all_ok hex_encode hex_decode Hhex Hnil config l Hw) as H. fold q in H.
  split; [by eapply harvested_snoop_ok|]. destruct H as [He Hin]. split; [|done].
  intros k e Hk. destruct (He k e Hk) as (h & _ & -> & (? & _ & ? & ? & _ & ?)). by exists h.
Qed.

(** Each selection takes the first candidate of its order, whatever the order
    the hash map is iterated in: nothing when the budget of the last ten minutes
    is spent or every entry of the family cools down, and else the candidate that
    precedes all others strictly (fresh before stale, then the comparison of the
    family; sources seen twice or with results before all others), whose entry is
    marked as drained and whose budget is charged. No selection panics, when the
    windows and four times the cooldowns do not reach back before the first date. *)
Lemma selection_is_first hex_decode q now : snoop_ok q → times_ok q now = true →
  selects_first (keyword_request hex_decode) (first_of candidate_cmp) (replay_order q now candidate_cmp)
    FKeyword q now ∧
  selects_first source_request select_best_source_candidate (source_replay_order q now) FSource q now ∧
  selects_first notes_request (first_of notes_candidate_cmp) (replay_order q now notes_candidate_cmp)
    FNotes q now.
Proof.
  intros Hok Ht. split; [|split].
  - apply select_first; [unfold replay_order; apply _|done|..].
    + intros x y [_ H]%then_with_Eq. by apply candidate_by_key.
    + intros k e Hk. split; [by apply (Hok k e)|]. by apply (request_total q k e hex_decode).
    + intros cs Hu. apply first_of_order; [apply _|]. intros x y Hx Hy He. apply Hu; [done..|]. by apply candidate_by_key.
  - apply select_first; [unfold source_replay_order, replay_order; apply _|done|..].
    + intros x y [_ [_ H]%then_with_Eq]%then_with_Eq. by apply source_candidate_by_key.
    + intros k e Hk. split; [by apply (Hok k e)|]. by apply (request_total q k e hex_decode).
    + intros cs Hu. apply best_source_order. intros x y Hx Hy He. apply Hu; [done..|]. by apply source_candidate_by_key.
  - apply select_first; [unfold replay_order; apply _|done|..].
    + intros x y [_ H]%then_with_Eq. by apply notes_candidate_by_key.
    + intros k e Hk. split; [by apply (Hok k e)|]. by apply (request_total q k e hex_decode).
    + intros cs Hu. apply first_of_order; [apply _|]. intros x y Hx Hy He. apply Hu; [done..|]. by apply notes_candidate_by_key.
Qed.

(** C36. The replay budget holds: over any history of harvests, restores, outcomes
    and selections, with any order of iteration and a clock that does not go back,
    any span of ten minutes has at most [general_max_queries_per_600s] replays of
    keyword and notes searches together, and at most [source_max_queries_per_600s]
    of source searches. *)
Theorem replay_budget hex_decode config h clock q :
  snoop_history hex_decode config h clock q →
  ∀ start, drains_in FKeyword start h ≤ Z.max 0 (general_max_queries_per_600s config) ∧
    drains_in FNotes start h ≤ Z.max 0 (general_max_queries_per_600s config) ∧
    drains_in FSource start h ≤ Z.max 0 (source_max_queries_per_600s config).
Proof.
  intros Hh start. destruct (budget_history _ _ _ _ _ Hh) as [_ Hb].
  split; [|split]; [apply (bo_window _ _ _ _ _ (Hb FKeyword))|apply (bo_window _ _ _ _ _ (Hb FNotes))|
    apply (bo_window _ _ _ _ _ (Hb FSource))].
Qed.

Lemma replay_budget_witness :
  let q := fst (record (snoop_new sample_config) (build_keyword_snoop_entry hex_text
             (mkSearchKeyReq (replicate 16 1) 0 [1; 2]) 5)) in
  ∃ q' k, select_family hex_bytes FKeyword q (entry_values q) 7 = Ok (q', Some k) ∧
    drains_in FKeyword 0 [(FKeyword, 7)] = 1 ∧ drains_in FKeyword 0 [(FKeyword, 7)] ≤ 2.
Proof.
  intros q. destruct (select_family hex_bytes FKeyword q (entry_values q) 7) as [[q' [k|]]|e|] eqn:Hs;
    [|vm_compute in Hs; discriminate..].
  exists q', k. split; [done|]. split; [vm_compute; reflexivity|].
  apply (replay_budget hex_bytes sample_config [(FKeyword, 7)] 7 q').
  apply (HistSelect hex_bytes sample_config [] 0 q FKeyword (entry_values q) 7 q' (Some k));
    [apply HistRecord, HistNew|lia|done|exact Hs].
Defined.
