(* ===== verification/Responder.v ===== *)
(** * Answering Kad requests

    Models [overlord-agent-emule/src/agent/kad_unsolicited.rs]: what the node does
    with a request of another peer that it can answer from its routing table or
    its publish cache (the arms of [handle_unsolicited_packet] for pings,
    bootstrap, node, search and publish requests), and how long search answers are
    split into packets. The calls that leave the component are recorded in order;
    sending encodes the packet, so an encoder panic is a panic of the handler.
    Errors of the socket, which the handler returns or drops, are outside. *)

From S2P Require Import Prelude Net NodeId Utf8 Wire Tag PacketTypes Packet.
From S2P Require Import Contact Bin Zone Table SearchExpr KadStore.

(** ** Constants *)
Definition KAD_VERSION : Z := 10.
Definition LOCAL_KEYWORD_SEARCH_RESPONSE_LIMIT : Z := 300.
Definition LOCAL_SOURCE_SEARCH_RESPONSE_LIMIT : Z := 300.
Definition LOCAL_NOTES_SEARCH_RESPONSE_LIMIT : Z := 150.
Definition LOCAL_SEARCH_RESPONSE_MAX_PACKET_BYTES : Z := 1420.

(** ** Splitting of search answers *)

Definition encoded_search_response_len (sender_id id : NodeId) (results : list SearchResultEntry)
    : res ProtoError Z :=
  match encode (PSearchRes (mkSearchRes sender_id id results)) with
  | Ok packet => Ok (zlen packet)
  | Err _ => Ok USIZE_MAX
  | Panic => Panic
  end.

(** The loop, on [(pages, current)]. *)
Fixpoint split_loop (sender_id id : NodeId) (max_packet_bytes : Z) (rest : list SearchResultEntry)
    (pages : list SearchRes) (current : list SearchResultEntry)
    : res ProtoError (list SearchRes * list SearchResultEntry) :=
  match rest with
  | [] => Ok (pages, current)
  | result :: rest' =>
      match current with
      | [] => split_loop sender_id id max_packet_bytes rest' pages [result]
      | _ =>
          let candidate := current ++ [result] in
          len ← encoded_search_response_len sender_id id candidate;
          if max_packet_bytes <? len then
            split_loop sender_id id max_packet_bytes rest'
              (pages ++ [mkSearchRes sender_id id current]) [result]
          else split_loop sender_id id max_packet_bytes rest' pages candidate
      end
  end.
Definition split_stock_search_responses (response : SearchRes) (max_packet_bytes : Z)
    : res ProtoError (list SearchRes) :=
  if (max_packet_bytes =? 0) || (zlen (sr_results response) <=? 1) then Ok [response]
  else
    '(pages, current) ← split_loop (sr_sender_id response) (sr_target response) max_packet_bytes
                          (sr_results response) [] [];
    Ok (match current with
        | [] => pages
        | _ => pages ++ [mkSearchRes (sr_sender_id response) (sr_target response) current]
        end).

(** ** The handler *)

Definition contact_to_entry (contact : Contact) : ContactEntry :=
  mkContactEntry (c_id contact) (ip_val (c_ip contact)) (c_udp_port contact) (c_tcp_port contact)
    (c_kad_version contact).

(** What leaves the component: a harvested search, or a sent packet. *)
Inductive effect : Type :=
| Snoop (from : SocketAddr) (request : KadPacket)
| SendPacket (addr : SocketAddr) (packet : KadPacket).

(** [dht.send_packet(..)]: encodes, then hands over to the socket. *)
Definition send_packet (addr : SocketAddr) (packet : KadPacket) : res ProtoError (list effect) :=
  _ ← encode packet; Ok [SendPacket addr packet].
(** [let _ = dht.send_packet(..)]: an error is dropped. *)
Definition ignore_err (m : res ProtoError (list effect)) : res ProtoError (list effect) :=
  match m with
  | Err _ => Ok []
  | m => m
  end.
Fixpoint send_all (addr : SocketAddr) (pages : list SearchRes) : res ProtoError (list effect) :=
  match pages with
  | [] => Ok []
  | page :: pages' =>
      sent ← ignore_err (send_packet addr (PSearchRes page));
      more ← send_all addr pages';
      Ok (sent ++ more)
  end.
(** [if let Some(response) = response { for response in split(..) { send } }] *)
Definition send_answer (addr : SocketAddr) (response : option SearchRes) : res ProtoError (list effect) :=
  match response with
  | None => Ok []
  | Some response =>
      pages ← split_stock_search_responses response LOCAL_SEARCH_RESPONSE_MAX_PACKET_BYTES;
      send_all addr pages
  end.
Definition send_load (addr : SocketAddr) (id : NodeId) (load : option Z) : res ProtoError (list effect) :=
  match load with
  | Some load => ignore_err (send_packet addr (PPublishRes (mkPublishRes id load None)))
  | None => Ok []
  end.

(** The node: its routing table, its cache, and the port it is bound to. *)
Record responder : Type := mkResponder {
  rp_table : RoutingTable;
  rp_store : KadLocalStore;
  rp_port : Z;
}.
Definition set_store (r : responder) (st : KadLocalStore) : responder :=
  mkResponder (rp_table r) st (rp_port r).

Section handler.
Context (to_lowercase : list Z → list Z).

(** The arms for requests of other peers; [None] for the others (greetings, firewall
    checks, buddies), which are those of the packet handler of the agent. *)
Definition handle_request (r : responder) (from : SocketAddr) (packet : KadPacket) (now : Z)
    : option (res ProtoError (responder * list effect)) :=
  let table := rp_table r in
  let st := rp_store r in
  let answer st' (m : res ProtoError (list effect)) : res ProtoError (responder * list effect) :=
    sent ← m; Ok (set_store r st', sent) in
  match packet with
  | PPing => Some (answer st (send_packet from (PPong (mkPong (sa_port from)))))
  | PBootstrapReq =>
      let contacts := map contact_to_entry (get_closest table (own_id table) K) in
      Some (answer st (send_packet from
        (PBootstrapRes (mkBootstrapRes (own_id table) (rp_port r) KAD_VERSION contacts))))
  | PReq req =>
      let contacts := map contact_to_entry (get_closest table (rq_target req) (rq_count req)) in
      Some (answer st (send_packet from (PRes (mkRes (rq_target req) contacts))))
  | PSearchKeyReq req =>
      let '(st', response) := keyword_search_response to_lowercase st (own_id table) req
                                LOCAL_KEYWORD_SEARCH_RESPONSE_LIMIT now in
      Some (answer st' (sent ← send_answer from response; Ok (Snoop from packet :: sent)))
  | PSearchSourceReq req =>
      let '(st', response) := source_search_response st (own_id table) req
                                LOCAL_SOURCE_SEARCH_RESPONSE_LIMIT now in
      Some (answer st' (sent ← send_answer from response; Ok (Snoop from packet :: sent)))
  | PSearchNotesReq req =>
      let '(st', response) := notes_search_response st (own_id table) req
                                LOCAL_NOTES_SEARCH_RESPONSE_LIMIT now in
      Some (answer st' (sent ← send_answer from response; Ok (Snoop from packet :: sent)))
  | PPublishKeyReq req =>
      let '(st', load) := record_keyword_publish_batch st (pk_target req) (pk_entries req) now in
      Some (answer st' (send_load from (pk_target req) (Some load)))
  | PPublishSourceReq req =>
      let '(st', load) :=
        match sa_ip from with
        | V4 ip => record_source_publish st (ps_target req) (ps_publisher_id req) ip (sa_port from)
                     (ps_tags req) now
        | V6 _ => (st, None)
        end in
      Some (answer st' (send_load from (ps_target req) load))
  | PPublishNotesReq req =>
      let '(st', load) :=
        match sa_ip from with
        | V4 ip => record_notes_publish st (pn_target req) (pn_publisher_id req) ip (pn_tags req) now
        | V6 _ => (st, None)
        end in
      Some (answer st' (send_load from (pn_target req) load))
  | _ => None
  end.
End handler.

(** ** Specification *)

(** A publish whose answer fits: at most 254 tags, each of which encodes. *)
Definition small_tags (tags : list Tag) : bool := forallb tag_encodable tags && (zlen tags <=? 254).
Definition small_request (packet : KadPacket) : bool :=
  match packet with
  | PPublishKeyReq req => forallb (λ e, small_tags (pe_tags e)) (pk_entries req)
  | PPublishSourceReq req => small_tags (ps_tags req)
  | PPublishNotesReq req => small_tags (pn_tags req)
  | _ => true
  end.
Definition searches (packet : KadPacket) : bool :=
  match packet with PSearchKeyReq _ | PSearchSourceReq _ | PSearchNotesReq _ => true | _ => false end.
Record store_small (st : KadLocalStore) : Prop := {
  sm_keyword : Forall (λ e, small_tags (kw_tags e) = true) (st_keyword_entries st);
  sm_source : Forall (λ e, small_tags (src_tags e) = true) (st_source_entries st);
  sm_notes : Forall (λ e, small_tags (nt_tags e) = true) (st_notes_entries st);
}.

(** A request as it arrives, and the node after a sequence of them, with what each
    of them sent: [None] when a handler panicked or failed. *)
Definition arrival : Type := SocketAddr * KadPacket * Z.
Definition sender (a : arrival) : SocketAddr := fst (fst a).
Definition packet_of (a : arrival) : KadPacket := snd (fst a).
Fixpoint run_requests (to_lowercase : list Z → list Z) (r : responder) (l : list arrival)
    : option (responder * list (list effect)) :=
  match l with
  | [] => Some (r, [])
  | (from, packet, now) :: l' =>
      match handle_request to_lowercase r from packet now with
      | None => prod_map id (cons []) <$> run_requests to_lowercase r l'
      | Some (Ok (r', sent)) => prod_map id (cons sent) <$> run_requests to_lowercase r' l'
      | Some _ => None
      end
  end.

(** The effects a request may have: its search is harvested, and packets go back
    to its sender. *)
Definition goes_to (from : SocketAddr) (e : effect) : Prop :=
  match e with Snoop a _ => a = from | SendPacket a _ => a = from end.
Definition sendable (e : effect) : Prop :=
  match e with SendPacket _ p => is_ok (encode p) = true | Snoop _ _ => True end.

(** ** Lemmas *)

Lemma search_res_fits sender id l : packet_fits (PSearchRes (mkSearchRes sender id l)) = true →
  ∃ bytes, encode (PSearchRes (mkSearchRes sender id l)) = Ok bytes.
Proof. intros Hf. pose proof (encode_total (PSearchRes (mkSearchRes sender id l))) as H. by rewrite Hf in H. Qed.

Lemma fits_app sender id l k : packet_fits (PSearchRes (mkSearchRes sender id (l ++ k))) = true →
  packet_fits (PSearchRes (mkSearchRes sender id l)) = true ∧
  packet_fits (PSearchRes (mkSearchRes sender id k)) = true.
Proof.
  cbn [packet_fits sr_results]. rewrite zlen_app, forallb_app. intros H. bool_hyps.
  pose proof (zlen_nonneg l). pose proof (zlen_nonneg k).
  rewrite !andb_true_iff, !Z.ltb_lt. repeat split; (done || lia).
Qed.

(** A page that the split may emit. *)
Definition page_ok (sender id : NodeId) (max : Z) (page : SearchRes) : Prop :=
  sr_sender_id page = sender ∧ sr_target page = id ∧ sr_results page ≠ [] ∧
  ∃ bytes, encode (PSearchRes page) = Ok bytes ∧ (zlen (sr_results page) = 1 ∨ zlen bytes ≤ max).

Definition current_ok (sender id : NodeId) (max : Z) (current : list SearchResultEntry) : Prop :=
  current = [] ∨ page_ok sender id max (mkSearchRes sender id current).

Lemma single_page sender id max x :
  packet_fits (PSearchRes (mkSearchRes sender id [x])) = true →
  page_ok sender id max (mkSearchRes sender id [x]).
Proof.
  intros Hf. destruct (search_res_fits _ _ _ Hf) as [bytes Hb].
  repeat split; [done|]. exists bytes. split; [done|by left].
Qed.

Lemma split_loop_ok sender id max rest pages current :
  packet_fits (PSearchRes (mkSearchRes sender id (current ++ rest))) = true →
  Forall (page_ok sender id max) pages → current_ok sender id max current →
  ∃ pages' current', split_loop sender id max rest pages current = Ok (pages', current') ∧
    Forall (page_ok sender id max) pages' ∧ current_ok sender id max current' ∧
    (concat (sr_results <$> pages') ++ current' = concat (sr_results <$> pages) ++ current ++ rest) ∧
    (current ++ rest ≠ [] → current' ≠ []).
Proof.
  revert pages current. induction rest as [|x rest IH]; intros pages current Hf Hp Hc.
  { exists pages, current. rewrite app_nil_r in *. auto. }
  cbn [split_loop]. destruct current as [|y current].
  - destruct (fits_app _ _ [x] rest Hf) as [Hx _].
    destruct (IH pages [x] Hf Hp) as (p' & c' & -> & Hp' & Hc' & Heq & Hne).
    { right. by apply single_page. }
    exists p', c'. auto.
  - set (cur := y :: current) in *. replace (cur ++ x :: rest) with ((cur ++ [x]) ++ rest) in Hf
      by (by rewrite <- app_assoc).
    destruct (fits_app _ _ _ _ Hf) as [Hcx Hrest]. destruct (fits_app _ _ _ _ Hcx) as [Hcur Hx].
    destruct (search_res_fits _ _ _ Hcx) as [bytes Hb]. unfold encoded_search_response_len.
    rewrite Hb. cbn [mbind res_bind]. destruct (Z.ltb_spec max (zlen bytes)) as [Hlt|Hge].
    + rewrite <- app_assoc in Hf. destruct (fits_app _ _ _ _ Hf) as [_ Hf'].
      destruct (IH (pages ++ [mkSearchRes sender id cur]) [x] Hf') as (p' & c' & -> & Hp' & Hc' & Heq & Hne).
      { apply Forall_app. split; [done|]. constructor; [|constructor].
        destruct Hc as [Hc|Hc]; [done|exact Hc]. }
      { right. by apply single_page. }
      exists p', c'. do 3 (split; [done|]). split; [|by intros _; apply Hne].
      rewrite Heq, fmap_app, concat_app. cbn. by rewrite app_nil_r, <- app_assoc.
    + destruct (IH pages (cur ++ [x]) Hf Hp) as (p' & c' & -> & Hp' & Hc' & Heq & Hne).
      { right. repeat split; [by destruct cur|]. exists bytes. split; [done|by right]. }
      exists p', c'. do 3 (split; [done|]). split.
      * by rewrite Heq, <- !app_assoc.
      * intros _. apply Hne. by destruct cur.
Qed.

Lemma split_ok response max :
  packet_fits (PSearchRes response) = true → 0 < max → sr_results response ≠ [] →
  ∃ pages, split_stock_search_responses response max = Ok pages ∧
    concat (sr_results <$> pages) = sr_results response ∧
    Forall (page_ok (sr_sender_id response) (sr_target response) max) pages.
Proof.
  intros Hf Hmax Hne. destruct response as [sender id l]. unfold split_stock_search_responses.
  cbn [sr_results sr_sender_id sr_target] in *. rewrite (proj2 (Z.eqb_neq max 0)) by lia. cbn [orb].
  destruct (Z.leb_spec (zlen l) 1) as [Hle|Hgt].
  - exists [mkSearchRes sender id l]. split; [done|]. cbn. split; [by rewrite app_nil_r|].
    constructor; [|constructor]. destruct l as [|x [|y l]]; [done|by apply single_page|].
    rewrite !zlen_cons in Hle. pose proof (zlen_nonneg l). lia.
  - destruct (split_loop_ok sender id max l [] []) as (pages & current & -> & Hp & Hc & Heq & Hcur);
      [done|constructor|by left|]. cbn [mbind res_bind] in *. specialize (Hcur Hne).
    destruct current as [|y current]; [done|]. exists (pages ++ [mkSearchRes sender id (y :: current)]).
    split; [done|]. rewrite fmap_app, concat_app. cbn [fmap list_fmap concat sr_results]. split.
    + rewrite app_nil_r. exact Heq.
    + apply Forall_app. split; [done|]. constructor; [|constructor]. by destruct Hc.
Qed.

Lemma send_packet_ok addr p : packet_fits p = true →
  send_packet addr p = Ok [SendPacket addr p] ∧ is_ok (encode p) = true.
Proof.
  intros Hf. pose proof (encode_total p) as H. rewrite Hf in H. destruct H as [b Hb].
  unfold send_packet. by rewrite Hb.
Qed.

Lemma send_all_ok addr sender id max pages : Forall (page_ok sender id max) pages →
  send_all addr pages = Ok ((λ p, SendPacket addr (PSearchRes p)) <$> pages).
Proof.
  induction 1 as [|p pages (_ & _ & _ & bytes & Hb & _) _ IH]; [done|]. cbn [send_all].
  unfold send_packet. rewrite Hb, IH. done.
Qed.

(** What an effect of the handler is. *)
Definition effects_ok (from : SocketAddr) (l : list effect) : Prop :=
  Forall (λ e, goes_to from e ∧ sendable e) l.

Lemma send_answer_ok addr response :
  (∀ r, response = Some r → packet_fits (PSearchRes r) = true ∧ sr_results r ≠ []) →
  ∃ sent, send_answer addr response = Ok sent ∧ effects_ok addr sent.
Proof.
  intros Hr. destruct response as [r|]; [|exists []; split; [done|constructor]]. cbn [send_answer].
  destruct (Hr r eq_refl) as [Hf Hne].
  destruct (split_ok r LOCAL_SEARCH_RESPONSE_MAX_PACKET_BYTES Hf eq_refl Hne) as (pages & -> & _ & Hp).
  cbn [mbind res_bind]. rewrite (send_all_ok _ _ _ _ _ Hp). eexists. split; [done|].
  apply Forall_forall. intros e He. apply list_elem_of_fmap in He as (p & -> & Hin).
  rewrite Forall_forall in Hp. destruct (Hp p Hin) as (_ & _ & _ & bytes & Hb & _).
  split; [done|]. unfold sendable. by rewrite Hb.
Qed.

(** *** Sending, whatever the packet *)

(** A send succeeds or panics: the encoder has no errors. *)
Definition sent_or_panic (addr : SocketAddr) (m : res ProtoError (list effect)) : Prop :=
  (∃ sent, m = Ok sent ∧ effects_ok addr sent) ∨ m = Panic.
Lemma send_packet_any addr p : sent_or_panic addr (send_packet addr p).
Proof.
  pose proof (encode_total p) as H. unfold send_packet. destruct (packet_fits p).
  - destruct H as [b Hb]. rewrite Hb. left. eexists. split; [done|]. repeat constructor. cbn. by rewrite Hb.
  - right. cbn in H. by rewrite H.
Qed.
Lemma send_all_any addr pages : sent_or_panic addr (send_all addr pages).
Proof.
  induction pages as [|p pages IH]; [left; by exists []; split; [|constructor]|]. cbn [send_all].
  destruct (send_packet_any addr (PSearchRes p)) as [(sent & -> & Hs)| ->]; [|by right]. cbn [ignore_err mbind res_bind].
  destruct IH as [(more & -> & Hm)| ->]; [|by right]. left. eexists. split; [done|]. by apply Forall_app.
Qed.
Lemma split_loop_any sender id max rest pages current :
  (∃ x, split_loop sender id max rest pages current = Ok x) ∨ split_loop sender id max rest pages current = Panic.
Proof.
  revert pages current. induction rest as [|r rest IH]; intros pages current; [left; by eexists|]. cbn [split_loop].
  destruct current as [|y current]; [apply IH|]. unfold encoded_search_response_len.
  pose proof (encode_total (PSearchRes (mkSearchRes sender id ((y :: current) ++ [r])))) as H. destruct (packet_fits _).
  - destruct H as [b ->]. cbn [mbind res_bind]. case_match; apply IH.
  - unfold total in H. rewrite H. by right.
Qed.
Lemma send_answer_any addr response : sent_or_panic addr (send_answer addr response).
Proof.
  destruct response as [r|]; [|left; by exists []; split; [|constructor]]. cbn [send_answer]. unfold split_stock_search_responses.
  case_match; [apply send_all_any|].
  destruct (split_loop_any (sr_sender_id r) (sr_target r) LOCAL_SEARCH_RESPONSE_MAX_PACKET_BYTES (sr_results r) [] []) as [[[pages current] ->]| ->]; [|by right].
  apply send_all_any.
Qed.

(** *** The cache stays small *)

Lemma small_tags_filter f tags : small_tags tags = true → small_tags (List.filter f tags) = true.
Proof.
  unfold small_tags. intros [He Hl]%andb_true_iff. rewrite forallb_filter_true by done.
  pose proof (zlen_sublist _ _ (filter_sublist f tags)). lia.
Qed.

Lemma small_tags_spec tags : small_tags tags = true ↔ forallb tag_encodable tags = true ∧ zlen tags ≤ 254.
Proof. unfold small_tags. by rewrite andb_true_iff, Z.leb_le. Qed.

Lemma search_keeps_small to_lowercase st o : store_small st →
  (match o with
   | PublishKeyword _ es _ => forallb (λ e, small_tags (pe_tags e)) es
   | PublishSource _ _ _ _ tags _ | PublishNotes _ _ _ tags _ => small_tags tags
   | _ => true end) = true →
  store_small (run_store_op to_lowercase st o).
Proof.
  intros [Hk Hs Hn] Ho. destruct o; cbn [run_store_op].
  - unfold record_keyword_publish_batch. destruct (enabled _); [|done]. cbn [negb].
    assert (Hl : Forall (λ e, small_tags (kw_tags e) = true)
      (purge_expired (st_keyword_entries st) (keyword_ttl (st_config st)) now))
      by (eapply Forall_sublist; [done|apply sublist_purge]).
    revert Hl Ho. generalize (purge_expired (st_keyword_entries st) (keyword_ttl (st_config st)) now).
    assert (H : ∀ l load, Forall (λ e, small_tags (kw_tags e) = true) l →
      forallb (λ e, small_tags (pe_tags e)) entries = true →
      Forall (λ e, small_tags (kw_tags e) = true)
        (fst (foldl (keyword_publish_step (keyword_capacity (st_config st)) id now) (l, load) entries))).
    { induction entries as [|e es IH]; intros l load Hl; [done|]. cbn [forallb foldl].
      intros [He Hes]%andb_true_iff.
      assert (Hstep : Forall (λ e, small_tags (kw_tags e) = true)
        (fst (keyword_publish_step (keyword_capacity (st_config st)) id now (l, load) e))).
      { unfold keyword_publish_step. repeat case_match; try done. cbn [fst].
        apply Forall_upsert; [done|apply sublist_evict_oldest|]. cbn. by apply small_tags_filter. }
      destruct (keyword_publish_step _ _ _ _ _) as [l' load']. by apply IH. }
    intros l Hl Ho. specialize (H l 0 Hl Ho). destruct (foldl _ _ _) as [l' load]. by split.
  - unfold record_source_publish. repeat case_match; try done. split; [done| |done].
    apply Forall_upsert; [eapply Forall_sublist; [done|apply sublist_purge]| |].
    + etransitivity; [apply sublist_evict_oldest|apply sublist_evict_target].
    + cbn. by apply small_tags_filter, small_tags_filter.
  - unfold record_notes_publish. repeat case_match; try done. split; [done|done|].
    apply Forall_upsert; [eapply Forall_sublist; [done|apply sublist_purge]| |].
    + etransitivity; [apply sublist_evict_oldest|apply sublist_evict_target].
    + cbn. by apply small_tags_filter.
  - unfold keyword_search_response. destruct (negb _ || _); [done|]. split; [|done|done].
    eapply Forall_sublist; [done|apply sublist_purge].
  - unfold source_search_response. destruct (negb _ || _); [done|]. split; [done| |done].
    eapply Forall_sublist; [done|apply sublist_purge].
  - unfold notes_search_response. destruct (negb _ || _); [done|]. split; [done|done|].
    eapply Forall_sublist; [done|apply sublist_purge].
Qed.

(** *** The handler *)

Lemma encode_fits p b : encode p = Ok b → packet_fits p = true.
Proof.
  intros Hb. pose proof (encode_total p) as H. destruct (packet_fits p); [done|].
  cbn [total] in H. congruence.
Qed.

Lemma search_response_nonempty sender id l r :
  search_response sender id l = Some r → sr_results r ≠ [].
Proof. destruct l; [done|]. by intros [= <-]. Qed.

(** The answers to the three kinds of search, as the handler sends them. *)
Lemma keyword_answer_ok to_lowercase st sender request now r : store_small st →
  snd (keyword_search_response to_lowercase st sender request LOCAL_KEYWORD_SEARCH_RESPONSE_LIMIT now) = Some r →
  packet_fits (PSearchRes r) = true ∧ sr_results r ≠ [].
Proof.
  intros [Hk _ _] Hr. split.
  - destruct (keyword_answer_encodes to_lowercase st sender request LOCAL_KEYWORD_SEARCH_RESPONSE_LIMIT now r)
      as [b Hb]; [|done|done|by eapply encode_fits].
    intros e He. rewrite Forall_forall in Hk. by apply small_tags_spec, Hk.
  - unfold keyword_search_response in Hr. destruct (negb _ || _); [done|].
    by apply search_response_nonempty in Hr.
Qed.
Lemma source_answer_ok st sender request now r : store_small st →
  snd (source_search_response st sender request LOCAL_SOURCE_SEARCH_RESPONSE_LIMIT now) = Some r →
  packet_fits (PSearchRes r) = true ∧ sr_results r ≠ [].
Proof.
  intros [_ Hs _] Hr. split.
  - destruct (source_answer_encodes st sender request LOCAL_SOURCE_SEARCH_RESPONSE_LIMIT now r)
      as [b Hb]; [|done|done|by eapply encode_fits].
    intros e He. rewrite Forall_forall in Hs. by apply small_tags_spec, Hs.
  - unfold source_search_response in Hr. destruct (negb _ || _); [done|].
    by apply search_response_nonempty in Hr.
Qed.
Lemma notes_answer_ok st sender request now r : store_small st →
  snd (notes_search_response st sender request LOCAL_NOTES_SEARCH_RESPONSE_LIMIT now) = Some r →
  packet_fits (PSearchRes r) = true ∧ sr_results r ≠ [].
Proof.
  intros [_ _ Hn] Hr. split.
  - destruct (notes_answer_encodes st sender request LOCAL_NOTES_SEARCH_RESPONSE_LIMIT now r)
      as [b Hb]; [|done|done|by eapply encode_fits].
    intros e He. rewrite Forall_forall in Hn. by apply small_tags_spec, Hn.
  - unfold notes_search_response in Hr. destruct (negb _ || _); [done|].
    by apply search_response_nonempty in Hr.
Qed.

(** The request as an operation of the cache, where it is one. *)
Definition store_op_of (r : responder) (from : SocketAddr) (packet : KadPacket) (now : Z) : option store_op :=
  let own := own_id (rp_table r) in
  match packet, sa_ip from with
  | PSearchKeyReq req, _ => Some (SearchKeyword own req LOCAL_KEYWORD_SEARCH_RESPONSE_LIMIT now)
  | PSearchSourceReq req, _ => Some (SearchSource own req LOCAL_SOURCE_SEARCH_RESPONSE_LIMIT now)
  | PSearchNotesReq req, _ => Some (SearchNotes own req LOCAL_NOTES_SEARCH_RESPONSE_LIMIT now)
  | PPublishKeyReq req, _ => Some (PublishKeyword (pk_target req) (pk_entries req) now)
  | PPublishSourceReq req, V4 ip =>
      Some (PublishSource (ps_target req) (ps_publisher_id req) ip (sa_port from) (ps_tags req) now)
  | PPublishNotesReq req, V4 ip =>
      Some (PublishNotes (pn_target req) (pn_publisher_id req) ip (pn_tags req) now)
  | _, _ => None
  end.

Lemma send_one_ok from p : packet_fits p = true →
  ∃ sent, send_packet from p = Ok sent ∧ effects_ok from sent.
Proof.
  intros [-> He]%(send_packet_ok from). eexists. split; [done|]. by repeat constructor.
Qed.

Lemma send_load_ok from id load : ∃ sent, send_load from id load = Ok sent ∧ effects_ok from sent.
Proof.
  destruct load as [load|]; [|exists []; split; [done|constructor]]. cbn [send_load].
  destruct (send_one_ok from (PPublishRes (mkPublishRes id load None)) eq_refl) as (sent & -> & Hs).
  by exists sent.
Qed.

Lemma closest_fits t target n : 0 ≤ n → zlen (map contact_to_entry (get_closest t target n)) ≤ n.
Proof. intros Hn. unfold zlen. rewrite length_map. unfold get_closest. rewrite length_take. lia. Qed.

Section handler_lemmas.
Context (to_lowercase : list Z → list Z) (r : responder) (from : SocketAddr).

(** The cache after a request, and what a run of the handler guarantees of it. *)
Definition store_after (packet : KadPacket) (now : Z) : KadLocalStore :=
  default (rp_store r) (run_store_op to_lowercase (rp_store r) <$> store_op_of r from packet now).
Definition answered (m : res ProtoError (responder * list effect)) (st' : KadLocalStore) : Prop :=
  ∃ sent, m = Ok (set_store r st', sent) ∧ effects_ok from sent.

Lemma answered_send st' (m : res ProtoError (list effect)) :
  (∃ sent, m = Ok sent ∧ effects_ok from sent) →
  answered (sent ← m; Ok (set_store r st', sent)) st'.
Proof. intros (sent & -> & Hs). by exists sent. Qed.

Lemma answered_search packet response :
  (∀ r, response = Some r → packet_fits (PSearchRes r) = true ∧ sr_results r ≠ []) →
  ∃ sent, (sent ← send_answer from response; Ok (Snoop from packet :: sent)) =
    Ok sent :> res ProtoError (list effect) ∧ effects_ok from sent.
Proof.
  intros Hr. destruct (send_answer_ok from response Hr) as (sent & -> & Hs).
  eexists. split; [done|]. by constructor.
Qed.

Lemma handle_request_small packet now m :
  searches packet = false ∨ store_small (rp_store r) → wf_packet packet = true →
  handle_request to_lowercase r from packet now = Some m → answered m (store_after packet now).
Proof.
  intros Hsm Hwf Hm. unfold store_after.
  destruct packet as [|?|?|?|?|p|?|p|p|p|?|p|p|p|?| |?|?|?| |?|?|?|?| |?|? ?]; cbn [handle_request] in Hm; try done;
    cbn [store_op_of fmap option_fmap option_map default run_store_op].
  - apply (inj Some) in Hm as <-. apply answered_send, send_one_ok. cbn [packet_fits br_contacts].
    pose proof (closest_fits (rp_table r) (own_id (rp_table r)) K ltac:(done)). unfold K in *. lia.
  - apply (inj Some) in Hm as <-. apply answered_send, send_one_ok. cbn [packet_fits rs_contacts].
    cbn [wf_packet] in Hwf. bool_hyps. repeat match goal with H : is_u8 _ = true |- _ => apply is_u8_spec in H end.
    pose proof (closest_fits (rp_table r) (rq_target p) (rq_count p) ltac:(lia)). lia.
  - rewrite (surjective_pairing (keyword_search_response _ _ _ _ _ _)) in Hm. apply (inj Some) in Hm as <-.
    apply answered_send, answered_search. intros. destruct Hsm as [|Hsm]; [done|]. by eapply keyword_answer_ok.
  - rewrite (surjective_pairing (source_search_response _ _ _ _ _)) in Hm. apply (inj Some) in Hm as <-.
    apply answered_send, answered_search. intros. destruct Hsm as [|Hsm]; [done|]. by eapply source_answer_ok.
  - rewrite (surjective_pairing (notes_search_response _ _ _ _ _)) in Hm. apply (inj Some) in Hm as <-.
    apply answered_send, answered_search. intros. destruct Hsm as [|Hsm]; [done|]. by eapply notes_answer_ok.
  - rewrite (surjective_pairing (record_keyword_publish_batch _ _ _ _)) in Hm. apply (inj Some) in Hm as <-.
    apply answered_send, send_load_ok.
  - destruct (sa_ip from); [|apply (inj Some) in Hm as <-; apply answered_send, send_load_ok].
    rewrite (surjective_pairing (record_source_publish _ _ _ _ _ _ _)) in Hm. apply (inj Some) in Hm as <-.
    apply answered_send, send_load_ok.
  - destruct (sa_ip from); [|apply (inj Some) in Hm as <-; apply answered_send, send_load_ok].
    rewrite (surjective_pairing (record_notes_publish _ _ _ _ _ _)) in Hm. apply (inj Some) in Hm as <-.
    apply answered_send, send_load_ok.
  - apply (inj Some) in Hm as <-. by apply answered_send, send_one_ok.
Qed.
Lemma handle_request_ok packet now m :
  store_small (rp_store r) → wf_packet packet = true →
  handle_request to_lowercase r from packet now = Some m → answered m (store_after packet now).
Proof. intros Hsm. apply handle_request_small. by right. Qed.
(** Whatever the cache holds, a search is answered or its answer panics. *)
Lemma search_any packet now m : searches packet = true →
  handle_request to_lowercase r from packet now = Some m → answered m (store_after packet now) ∨ m = Panic.
Proof.
  intros Hs Hm. unfold store_after.
  assert (Hgo : ∀ st' response, m = (sent ← (sent ← send_answer from response; Ok (Snoop from packet :: sent)); Ok (set_store r st', sent)) →
    answered m st' ∨ m = Panic).
  { intros st' response ->. destruct (send_answer_any from response) as [(sent & -> & Hsent)| ->]; [left|by right].
    eexists. split; [done|]. by constructor. }
  destruct packet; try done; cbn [handle_request] in Hm; cbn [store_op_of fmap option_fmap option_map default run_store_op].
  - rewrite (surjective_pairing (keyword_search_response _ _ _ _ _ _)) in Hm. apply (inj Some) in Hm. by eapply Hgo.
  - rewrite (surjective_pairing (source_search_response _ _ _ _ _)) in Hm. apply (inj Some) in Hm. by eapply Hgo.
  - rewrite (surjective_pairing (notes_search_response _ _ _ _ _)) in Hm. apply (inj Some) in Hm. by eapply Hgo.
Qed.
Lemma handle_request_any packet now m : wf_packet packet = true → handle_request to_lowercase r from packet now = Some m →
  answered m (store_after packet now) ∨ (m = Panic ∧ searches packet = true ∧ ¬ store_small (rp_store r)).
Proof.
  intros Hwf Hm. destruct (searches packet) eqn:Hs; [|left; apply handle_request_small; auto].
  destruct (search_any packet now m Hs Hm) as [|Hp]; [by left|right]. split; [done|]. split; [done|]. intros Hsm.
  destruct (handle_request_ok packet now m Hsm Hwf Hm) as (sent & Hok & _). congruence.
Qed.
End handler_lemmas.

Lemma store_after_sound to_lowercase r from packet now :
  wf_store_config (st_config (rp_store r)) → store_ok (rp_store r) →
  let st' := store_after to_lowercase r from packet now in store_ok st' ∧ st_config st' = st_config (rp_store r).
Proof.
  intros Hc Hok st'. unfold st', store_after. destruct (store_op_of r from packet now) as [o|]; [|done].
  by apply run_store_op_ok.
Qed.
Lemma store_after_small to_lowercase r from packet now : store_small (rp_store r) → small_request packet = true →
  store_small (store_after to_lowercase r from packet now).
Proof.
  intros Hsm Hsmall. unfold store_after. destruct (store_op_of r from packet now) as [o|] eqn:Ho; [|done].
  apply search_keeps_small; [done|].
  destruct packet, (sa_ip from) eqn:Hip; cbn [store_op_of] in Ho; rewrite ?Hip in Ho; try done;
    injection Ho as <-; try done; exact Hsmall.
Qed.

Lemma contact_to_entry_wf c : wf_contact c = true → wf_contact_entry (contact_to_entry c) = true.
Proof.
  unfold wf_contact, wf_contact_entry, contact_to_entry. intros H. bool_hyps.
  cbn [ce_node_id ce_ip ce_udp_port ce_tcp_port ce_version]. rewrite !andb_true_iff.
  repeat split; try done. apply is_u32_spec, ip_val_bound. done.
Qed.

(** ** Properties *)

(** The node survives its peers: from a cache that satisfies its invariant,
    any sequence of well-typed requests whose publishes carry at most 254 encodable
    tags is served without a panic or an error. The cache invariant and the
    routing table are preserved, every effect of a request is addressed to the
    peer that sent it, and every packet sent is one the encoder accepts. *)
Lemma requests_served to_lowercase r l :
  wf_store_config (st_config (rp_store r)) → store_ok (rp_store r) → store_small (rp_store r) →
  forallb (λ a, wf_packet (packet_of a) && small_request (packet_of a)) l = true →
  ∃ r' out, run_requests to_lowercase r l = Some (r', out) ∧
    store_ok (rp_store r') ∧ store_small (rp_store r') ∧ rp_table r' = rp_table r ∧
    Forall2 (λ a sent, effects_ok (sender a) sent) l out.
Proof.
  intros Hc Hok Hsm Hl. remember (st_config (rp_store r)) as cfg eqn:Hcfg.
  revert r Hcfg Hok Hsm. induction l as [|[[from packet] now] l IH]; intros r -> Hok Hsm.
  { exists r, []. repeat (split; [done|]). constructor. }
  cbn [forallb packet_of fst snd] in Hl. apply andb_true_iff in Hl as [[Hwf Hsmall]%andb_true_iff Hl].
  specialize (IH Hl). cbn [run_requests].
  destruct (handle_request to_lowercase r from packet now) as [m|] eqn:Hm.
  - destruct (handle_request_ok to_lowercase r from packet now m Hsm Hwf Hm) as (sent & -> & Hs).
    destruct (store_after_sound to_lowercase r from packet now Hc Hok) as (Hok' & Hc').
    pose proof (store_after_small to_lowercase r from packet now Hsm Hsmall) as Hsm'.
    destruct (IH (set_store r (store_after to_lowercase r from packet now)))
      as (r' & out & -> & Hok'' & Hsm'' & Ht & Hout); [done..|].
    exists r', (sent :: out). repeat (split; [done|]). by constructor.
  - destruct (IH r) as (r' & out & -> & Hok' & Hsm' & Ht & Hout); [done..|].
    exists r', ([] :: out). repeat (split; [done|]). by repeat constructor.
Qed.
