(* ===== verification/KadFirewall.v ===== *)
(** * Firewall checks of the Kad node

    Models [overlord-agent-emule/src/kad_firewall.rs]: the state of the three checks
    a node runs to learn how it is seen from outside: the UDP check by helper
    peers, the TCP recheck, and the discovery of the external UDP port. A time is a
    number of nanoseconds; an address kept as text in the code
    ([ip.to_string()]) is kept as the address. *)

From S2P Require Import Prelude Net.

(** ** Data *)

Record UdpFirewallCheckSummary : Type := mkSummary {
  su_open : bool;
  su_helpers_selected : Z;
  su_helpers_requested : Z;
  su_helpers_succeeded : Z;
  su_helpers_failed : Z;
  su_started_at : Z;
  su_completed_at : Z;
}.

Inductive HelperOutcome : Type := Pending | RequestFailed | RemoteError | WrongPort | Succeeded.
#[export] Instance HelperOutcome_eq_dec : EqDecision HelperOutcome.
Proof. solve_decision. Defined.

Definition TCP_FIREWALL_RECHECK_LIMIT : Z := 4.
Definition EXTERNAL_PORT_DISCOVERY_REPORTERS : Z := 3.

Record UdpFirewallCheckRound : Type := mkUdpRound {
  ur_started_at : Z;
  ur_expected_ports : gset Z;
  ur_helper_outcomes : gmap IpAddr HelperOutcome;
}.
Record TcpFirewallCheckRound : Type := mkTcpRound {
  tr_active_helpers : gset IpAddr;
  tr_completed_checks : Z;
}.
Record ExternalPortDiscoveryRound : Type := mkPortRound {
  er_reporter_ips : gset IpAddr;
  er_reported_ports : list Z;
}.

Record KadFirewallState : Type := mkFirewall {
  udp_open : bool;
  udp_verified : bool;
  last_udp_check_started_at : option Z;
  last_udp_check_succeeded_at : option Z;
  last_udp_check_failed_at : option Z;
  last_helper_ip : option IpAddr;
  last_reported_port : option Z;
  last_error : option string;
  tcp_recheck_active : bool;
  last_tcp_check_started_at : option Z;
  last_tcp_check_completed_at : option Z;
  last_reported_external_ip : option IpAddr;
  last_external_port_probe_started_at : option Z;
  last_external_port_probe_completed_at : option Z;
  last_reported_external_udp_port : option Z;
  active_round : option UdpFirewallCheckRound;
  active_tcp_round : option TcpFirewallCheckRound;
  active_external_port_discovery : option ExternalPortDiscoveryRound;
  discovered_external_udp_port : option Z;
}.

Definition firewall_default : KadFirewallState :=
  mkFirewall false false None None None None None None false None None None None None None None None
    None None.

Inductive FirewallUdpPacketOutcome : Type :=
| UdpOpen (summary : UdpFirewallCheckSummary)
| UdpRecorded
| UdpIgnored.
Inductive FirewalledResponseOutcome : Type := TcpRecorded | TcpCompleted | TcpIgnored.
Inductive ExternalPortDiscoveryOutcome : Type :=
| PortRecorded
| PortResolved (port : Z)
| PortUnreliable
| PortIgnored.

(** *** Field updates *)

Definition set_udp_open (v : bool) (s : KadFirewallState) : KadFirewallState :=
  let 'mkFirewall _ b c d e f g h i j k l m n o p q r t := s in
  mkFirewall v b c d e f g h i j k l m n o p q r t.
Definition set_udp_verified (v : bool) (s : KadFirewallState) : KadFirewallState :=
  let 'mkFirewall a _ c d e f g h i j k l m n o p q r t := s in
  mkFirewall a v c d e f g h i j k l m n o p q r t.
Definition set_last_udp_check_started_at (v : option Z) (s : KadFirewallState) : KadFirewallState :=
  let 'mkFirewall a b _ d e f g h i j k l m n o p q r t := s in
  mkFirewall a b v d e f g h i j k l m n o p q r t.
Definition set_last_udp_check_succeeded_at (v : option Z) (s : KadFirewallState) : KadFirewallState :=
  let 'mkFirewall a b c _ e f g h i j k l m n o p q r t := s in
  mkFirewall a b c v e f g h i j k l m n o p q r t.
Definition set_last_udp_check_failed_at (v : option Z) (s : KadFirewallState) : KadFirewallState :=
  let 'mkFirewall a b c d _ f g h i j k l m n o p q r t := s in
  mkFirewall a b c d v f g h i j k l m n o p q r t.
Definition set_last_helper_ip (v : option IpAddr) (s : KadFirewallState) : KadFirewallState :=
  let 'mkFirewall a b c d e _ g h i j k l m n o p q r t := s in
  mkFirewall a b c d e v g h i j k l m n o p q r t.
Definition set_last_reported_port (v : option Z) (s : KadFirewallState) : KadFirewallState :=
  let 'mkFirewall a b c d e f _ h i j k l m n o p q r t := s in
  mkFirewall a b c d e f v h i j k l m n o p q r t.
Definition set_last_error (v : option string) (s : KadFirewallState) : KadFirewallState :=
  let 'mkFirewall a b c d e f g _ i j k l m n o p q r t := s in
  mkFirewall a b c d e f g v i j k l m n o p q r t.
Definition set_tcp_recheck_active (v : bool) (s : KadFirewallState) : KadFirewallState :=
  let 'mkFirewall a b c d e f g h _ j k l m n o p q r t := s in
  mkFirewall a b c d e f g h v j k l m n o p q r t.
Definition set_last_tcp_check_started_at (v : option Z) (s : KadFirewallState) : KadFirewallState :=
  let 'mkFirewall a b c d e f g h i _ k l m n o p q r t := s in
  mkFirewall a b c d e f g h i v k l m n o p q r t.
Definition set_last_tcp_check_completed_at (v : option Z) (s : KadFirewallState) : KadFirewallState :=
  let 'mkFirewall a b c d e f g h i j _ l m n o p q r t := s in
  mkFirewall a b c d e f g h i j v l m n o p q r t.
Definition set_last_reported_external_ip (v : option IpAddr) (s : KadFirewallState) : KadFirewallState :=
  let 'mkFirewall a b c d e f g h i j k _ m n o p q r t := s in
  mkFirewall a b c d e f g h i j k v m n o p q r t.
Definition set_last_external_port_probe_started_at (v : option Z) (s : KadFirewallState) : KadFirewallState :=
  let 'mkFirewall a b c d e f g h i j k l _ n o p q r t := s in
  mkFirewall a b c d e f g h i j k l v n o p q r t.
Definition set_last_external_port_probe_completed_at (v : option Z) (s : KadFirewallState) : KadFirewallState :=
  let 'mkFirewall a b c d e f g h i j k l m _ o p q r t := s in
  mkFirewall a b c d e f g h i j k l m v o p q r t.
Definition set_last_reported_external_udp_port (v : option Z) (s : KadFirewallState) : KadFirewallState :=
  let 'mkFirewall a b c d e f g h i j k l m n _ p q r t := s in
  mkFirewall a b c d e f g h i j k l m n v p q r t.
Definition set_active_round (v : option UdpFirewallCheckRound) (s : KadFirewallState) : KadFirewallState :=
  let 'mkFirewall a b c d e f g h i j k l m n o _ q r t := s in
  mkFirewall a b c d e f g h i j k l m n o v q r t.
Definition set_active_tcp_round (v : option TcpFirewallCheckRound) (s : KadFirewallState) : KadFirewallState :=
  let 'mkFirewall a b c d e f g h i j k l m n o p _ r t := s in
  mkFirewall a b c d e f g h i j k l m n o p v r t.
Definition set_active_external_port_discovery (v : option ExternalPortDiscoveryRound) (s : KadFirewallState) : KadFirewallState :=
  let 'mkFirewall a b c d e f g h i j k l m n o p q _ t := s in
  mkFirewall a b c d e f g h i j k l m n o p q v t.
Definition set_discovered_external_udp_port (v : option Z) (s : KadFirewallState) : KadFirewallState :=
  let 'mkFirewall a b c d e f g h i j k l m n o p q r _ := s in
  mkFirewall a b c d e f g h i j k l m n o p q r v.

(** ** Operations *)

(** *** External port discovery *)

Definition begin_external_port_discovery (s : KadFirewallState) (started_at : Z) : KadFirewallState :=
  set_last_external_port_probe_started_at (Some started_at)
    (set_last_external_port_probe_completed_at None
      (set_last_reported_external_udp_port None
        (set_discovered_external_udp_port None
          (set_active_external_port_discovery (Some (mkPortRound ∅ [])) s)))).

Definition needs_external_port_discovery (s : KadFirewallState) : bool :=
  bool_decide (is_Some (active_external_port_discovery s)).

Definition record_external_port_candidate (s : KadFirewallState) (reporter_ip : IpAddr)
    (reported_port observed_at : Z) : KadFirewallState * ExternalPortDiscoveryOutcome :=
  if reported_port =? 0 then (s, PortIgnored)
  else
    match active_external_port_discovery s with
    | None => (s, PortIgnored)
    | Some round =>
        if bool_decide (reporter_ip ∈ er_reporter_ips round) then (s, PortIgnored)
        else
          let reporter_ips := {[reporter_ip]} ∪ er_reporter_ips round in
          let s := set_last_helper_ip (Some reporter_ip) s in
          let s := set_last_reported_external_udp_port (Some reported_port) s in
          if existsb (Z.eqb reported_port) (er_reported_ports round) then
            let s := set_discovered_external_udp_port (Some reported_port) s in
            let s := set_last_external_port_probe_completed_at (Some observed_at) s in
            let s := set_last_error None s in
            let s := set_active_external_port_discovery None s in
            (s, PortResolved reported_port)
          else
            let reported_ports := er_reported_ports round ++ [reported_port] in
            if EXTERNAL_PORT_DISCOVERY_REPORTERS <=? Z.of_nat (size reporter_ips) then
              let s := set_discovered_external_udp_port None s in
              let s := set_last_external_port_probe_completed_at (Some observed_at) s in
              let s := set_last_error
                (Some "external Kad UDP port discovery returned inconsistent ports"%string) s in
              let s := set_active_external_port_discovery None s in
              (s, PortUnreliable)
            else
              (set_active_external_port_discovery (Some (mkPortRound reporter_ips reported_ports)) s,
               PortRecorded)
    end.

Definition finish_external_port_discovery (s : KadFirewallState) (completed_at : Z)
    : KadFirewallState :=
  match active_external_port_discovery s with
  | None => s
  | Some _ =>
      let s := set_last_external_port_probe_completed_at (Some completed_at) s in
      let s :=
        match discovered_external_udp_port s with
        | None => set_last_error (Some "external Kad UDP port discovery timed out"%string) s
        | Some _ => s
        end in
      set_active_external_port_discovery None s
  end.

Definition external_udp_port_for_request (s : KadFirewallState) : Z :=
  default 0 (discovered_external_udp_port s).

(** *** TCP recheck *)

Definition refresh_tcp_recheck (s : KadFirewallState) (tcp_firewalled : bool) (started_at : Z)
    : KadFirewallState :=
  if tcp_firewalled then
    match active_tcp_round s with
    | None =>
        let s := set_tcp_recheck_active true s in
        let s := set_last_tcp_check_started_at (Some started_at) s in
        set_active_tcp_round (Some (mkTcpRound ∅ 0)) s
    | Some _ => s
    end
  else set_active_tcp_round None (set_tcp_recheck_active false s).

Definition try_begin_tcp_firewall_probe (s : KadFirewallState) (helper_ip : IpAddr) (started_at : Z)
    : KadFirewallState * bool :=
  match active_tcp_round s with
  | None => (s, false)
  | Some round =>
      if (TCP_FIREWALL_RECHECK_LIMIT <=? tr_completed_checks round)
         || (TCP_FIREWALL_RECHECK_LIMIT <=? Z.of_nat (size (tr_active_helpers round)))
         || bool_decide (helper_ip ∈ tr_active_helpers round)
      then (s, false)
      else
        let s := set_tcp_recheck_active true s in
        let s := set_last_tcp_check_started_at (Some started_at) s in
        (set_active_tcp_round
           (Some (mkTcpRound ({[helper_ip]} ∪ tr_active_helpers round) (tr_completed_checks round))) s,
         true)
  end.

Definition record_tcp_firewall_probe_failed (s : KadFirewallState) (helper_ip : IpAddr)
    (error : string) : KadFirewallState :=
  let s :=
    match active_tcp_round s with
    | Some round =>
        set_active_tcp_round
          (Some (mkTcpRound (tr_active_helpers round ∖ {[helper_ip]}) (tr_completed_checks round))) s
    | None => s
    end in
  set_last_error (Some error) (set_last_helper_ip (Some helper_ip) s).

Definition record_firewalled_response (s : KadFirewallState) (helper_ip reported_ip : IpAddr)
    (observed_at : Z) : KadFirewallState * FirewalledResponseOutcome :=
  match active_tcp_round s with
  | None => (s, TcpIgnored)
  | Some round =>
      if bool_decide (helper_ip ∉ tr_active_helpers round) then (s, TcpIgnored)
      else
        let completed_checks := tr_completed_checks round + 1 in
        let s := set_active_tcp_round
          (Some (mkTcpRound (tr_active_helpers round ∖ {[helper_ip]}) completed_checks)) s in
        let s := set_tcp_recheck_active (completed_checks <? TCP_FIREWALL_RECHECK_LIMIT) s in
        let s := set_last_helper_ip (Some helper_ip) s in
        let s := set_last_reported_external_ip (Some reported_ip) s in
        let s := set_last_tcp_check_completed_at (Some observed_at) s in
        let s := set_last_error None s in
        if TCP_FIREWALL_RECHECK_LIMIT <=? completed_checks then (set_active_tcp_round None s, TcpCompleted)
        else (s, TcpRecorded)
  end.

(** *** UDP check *)

(** [values()] of a map. *)
Definition values {V} (m : gmap IpAddr V) : list V := snd <$> map_to_list m.

Definition begin_udp_check (s : KadFirewallState) (helper_ips : list IpAddr) (expected_ports : list Z)
    (started_at : Z) : KadFirewallState * bool :=
  let helper_outcomes : gmap IpAddr HelperOutcome :=
    list_to_map (rev (map (λ ip, (ip, Pending)) helper_ips)) in
  if (size helper_outcomes =? 0)%nat then
    (set_last_error (Some "no UDP firewall-check helpers available"%string) s, false)
  else
    let expected_ports : gset Z := list_to_set (List.filter (λ port, negb (port =? 0)) expected_ports) in
    if (size expected_ports =? 0)%nat then
      (set_last_error (Some "UDP firewall-check has no expected ports"%string) s, false)
    else
      let s := set_last_udp_check_started_at (Some started_at) s in
      let s := set_last_error None s in
      (set_active_round (Some (mkUdpRound started_at expected_ports helper_outcomes)) s, true).

Definition record_helper_request_failed (s : KadFirewallState) (helper_ip : IpAddr) (error : string)
    : KadFirewallState :=
  match active_round s with
  | None => s
  | Some round =>
      match ur_helper_outcomes round !! helper_ip with
      | None => s
      | Some _ =>
          let s := set_active_round (Some (mkUdpRound (ur_started_at round) (ur_expected_ports round)
            (<[helper_ip := RequestFailed]> (ur_helper_outcomes round)))) s in
          set_last_error (Some error) (set_last_helper_ip (Some helper_ip) s)
      end
  end.

Definition finalize_round (s : KadFirewallState) (opened : bool) (completed_at : Z)
    : KadFirewallState * option UdpFirewallCheckSummary :=
  match active_round s with
  | None => (s, None)
  | Some round =>
      let outcomes := values (ur_helper_outcomes round) in
      let helpers_selected := Z.of_nat (size (ur_helper_outcomes round)) in
      let helpers_requested := Z.of_nat (countb (λ o, bool_decide (o ≠ RequestFailed)) outcomes) in
      let helpers_succeeded := Z.of_nat (countb (λ o, bool_decide (o = Succeeded)) outcomes) in
      let helpers_failed :=
        Z.of_nat (countb (λ o, negb (bool_decide (o = Pending) || bool_decide (o = Succeeded))) outcomes) in
      let s := set_active_round None s in
      let s := set_udp_open opened s in
      let s := set_udp_verified true s in
      let s := if opened then set_last_udp_check_succeeded_at (Some completed_at) s
               else set_last_udp_check_failed_at (Some completed_at) s in
      (s, Some (mkSummary opened helpers_selected helpers_requested helpers_succeeded helpers_failed
                  (ur_started_at round) completed_at))
  end.

(** [Panic] is the [expect] on the summary. *)
Definition record_firewall_udp_packet (s : KadFirewallState) (helper_ip : IpAddr)
    (error_code incoming_port observed_at : Z)
    : res unit (KadFirewallState * FirewallUdpPacketOutcome) :=
  match active_round s with
  | None => Ok (s, UdpIgnored)
  | Some round =>
      match ur_helper_outcomes round !! helper_ip with
      | None => Ok (s, UdpIgnored)
      | Some _ =>
          let mark outcome := Some (mkUdpRound (ur_started_at round) (ur_expected_ports round)
            (<[helper_ip := outcome]> (ur_helper_outcomes round))) in
          let s := set_last_helper_ip (Some helper_ip) s in
          let s := set_last_reported_port (Some incoming_port) s in
          if (error_code =? 0) && bool_decide (incoming_port ∈ ur_expected_ports round) then
            let s := set_active_round (mark Succeeded) s in
            let '(s, summary) := finalize_round s true observed_at in
            summary ← expect summary;
            Ok (set_last_error None s, UdpOpen summary)
          else
            Ok (set_active_round (mark (if error_code =? 0 then WrongPort else RemoteError)) s, UdpRecorded)
      end
  end.

Definition finish_udp_check (s : KadFirewallState) (completed_at : Z)
    : KadFirewallState * option UdpFirewallCheckSummary :=
  match active_round s with
  | None => (s, None)
  | Some round =>
      let outcomes := values (ur_helper_outcomes round) in
      if forallb (λ o, bool_decide (o = Succeeded)) outcomes then (s, None)
      else if existsb (λ o, bool_decide (o = Succeeded)) outcomes then finalize_round s true completed_at
      else if forallb (λ o, bool_decide (o = RequestFailed)) outcomes then
        (set_active_round None
           (set_last_error (Some "all UDP firewall-check TCP requests failed"%string) s), None)
      else
        finalize_round
          (set_last_error (Some "UDP firewall-check timed out without a positive result"%string) s)
          false completed_at
  end.

(** ** The state machine *)

Inductive fw_op : Type :=
| OBeginPort (started_at : Z)
| OPort (reporter_ip : IpAddr) (reported_port observed_at : Z)
| OFinishPort (completed_at : Z)
| ORefreshTcp (tcp_firewalled : bool) (started_at : Z)
| OProbe (helper_ip : IpAddr) (started_at : Z)
| OProbeFailed (helper_ip : IpAddr) (error : string)
| OResponse (helper_ip reported_ip : IpAddr) (observed_at : Z)
| OBeginUdp (helper_ips : list IpAddr) (expected_ports : list Z) (started_at : Z)
| OHelperFailed (helper_ip : IpAddr) (error : string)
| OUdpPacket (helper_ip : IpAddr) (error_code incoming_port observed_at : Z)
| OFinishUdp (completed_at : Z).

(** The state after an operation; [None] when it panics. *)
Definition run_fw_op (s : KadFirewallState) (o : fw_op) : option KadFirewallState :=
  match o with
  | OBeginPort t => Some (begin_external_port_discovery s t)
  | OPort ip port t => Some (fst (record_external_port_candidate s ip port t))
  | OFinishPort t => Some (finish_external_port_discovery s t)
  | ORefreshTcp b t => Some (refresh_tcp_recheck s b t)
  | OProbe ip t => Some (fst (try_begin_tcp_firewall_probe s ip t))
  | OProbeFailed ip e => Some (record_tcp_firewall_probe_failed s ip e)
  | OResponse h r t => Some (fst (record_firewalled_response s h r t))
  | OBeginUdp ips ports t => Some (fst (begin_udp_check s ips ports t))
  | OHelperFailed ip e => Some (record_helper_request_failed s ip e)
  | OUdpPacket ip code port t =>
      match record_firewall_udp_packet s ip code port t with
      | Ok (s', _) => Some s'
      | _ => None
      end
  | OFinishUdp t => Some (fst (finish_udp_check s t))
  end.
Fixpoint run_fw_ops (s : KadFirewallState) (l : list fw_op) : option KadFirewallState :=
  match l with
  | [] => Some s
  | o :: l' => s' ← run_fw_op s o; run_fw_ops s' l'
  end.

(** One step, and the states the node can be in. *)
Inductive fw_step : KadFirewallState → KadFirewallState → Prop :=
| FwStep s o s' : run_fw_op s o = Some s' → fw_step s s'.
Definition fw_reachable (s : KadFirewallState) : Prop := rtc fw_step firewall_default s.

(** ** Specification *)

(** The verdict stands on a finished round; a round in progress has helpers and
    ports and has not succeeded. *)
Record udp_ok (s : KadFirewallState) : Prop := {
  ud_open : udp_open s = true → udp_verified s = true;
  ud_verified : udp_verified s = true →
    is_Some (if udp_open s then last_udp_check_succeeded_at s else last_udp_check_failed_at s);
  ud_round : ∀ r, active_round s = Some r →
    last_udp_check_started_at s = Some (ur_started_at r) ∧
    ur_expected_ports r ≠ ∅ ∧ (0 ∉ ur_expected_ports r) ∧ ur_helper_outcomes r ≠ ∅ ∧
    ∀ ip, ur_helper_outcomes r !! ip ≠ Some Succeeded;
}.
(** The recheck is flagged exactly while a round is on; a round has at most four
    probes out and fewer than four answers. *)
Definition tcp_ok (s : KadFirewallState) : Prop :=
  match active_tcp_round s with
  | None => tcp_recheck_active s = false
  | Some r => tcp_recheck_active s = true ∧ 0 ≤ tr_completed_checks r < 4 ∧
      Z.of_nat (size (tr_active_helpers r)) ≤ 4
  end.
(** A discovery in progress has at most two reporters, who disagree. *)
Definition port_ok (s : KadFirewallState) : Prop :=
  (∀ p, discovered_external_udp_port s = Some p → p ≠ 0) ∧
  ∀ r, active_external_port_discovery s = Some r →
    discovered_external_udp_port s = None ∧ NoDup (er_reported_ports r) ∧ (0 ∉ er_reported_ports r) ∧
    length (er_reported_ports r) = size (er_reporter_ips r) ∧ (length (er_reported_ports r) ≤ 2)%nat.
Record fw_ok (s : KadFirewallState) : Prop := {
  fk_udp : udp_ok s;
  fk_tcp : tcp_ok s;
  fk_port : port_ok s;
}.

(** What an operation says about a helper of a UDP check, after [o]. *)
Definition outcome_step (ip : IpAddr) (o : HelperOutcome) (op : fw_op) : HelperOutcome :=
  match op with
  | OHelperFailed ip' _ => if bool_decide (ip' = ip) then RequestFailed else o
  | OUdpPacket ip' code port _ =>
      if bool_decide (ip' = ip) then (if code =? 0 then WrongPort else RemoteError) else o
  | _ => o
  end.
Definition outcome_after (l : list fw_op) (ip : IpAddr) : HelperOutcome :=
  foldl (outcome_step ip) Pending l.
(** A packet of a helper that reached one of the expected ports. *)
Definition reaches (helpers : list IpAddr) (ports : list Z) (op : fw_op) : bool :=
  match op with
  | OUdpPacket ip code port _ =>
      bool_decide (ip ∈ helpers) && (code =? 0) && bool_decide (port ∈ ports) && negb (port =? 0)
  | _ => false
  end.
Definition during_udp (op : fw_op) : bool :=
  match op with OBeginUdp _ _ _ | OFinishUdp _ => false | _ => true end.

(** The reports a discovery counts: the first one of each address, without zero
    ports; and the port two of the first three name. *)
Definition report_step (acc : list (IpAddr * Z)) (op : fw_op) : list (IpAddr * Z) :=
  match op with
  | OPort ip port _ =>
      if (port =? 0) || bool_decide (ip ∈ acc.*1) then acc else acc ++ [(ip, port)]
  | _ => acc
  end.
Definition first_reports (l : list fw_op) : list (IpAddr * Z) := foldl report_step [] l.
Definition agreed (ports : list Z) : option Z :=
  match ports with
  | a :: b :: rest =>
      if a =? b then Some a
      else match rest with
           | c :: _ => if (c =? a) || (c =? b) then Some c else None
           | [] => None
           end
  | _ => None
  end.
Definition during_port (op : fw_op) : bool :=
  match op with OBeginPort _ | OFinishPort _ => false | _ => true end.

(** ** Lemmas *)

Lemma elem_of_values {V} (m : gmap IpAddr V) v : v ∈ values m ↔ ∃ ip, m !! ip = Some v.
Proof.
  unfold values. rewrite list_elem_of_fmap. split.
  - intros ([ip v'] & -> & Hin%elem_of_map_to_list). by exists ip.
  - intros [ip Hin]. exists (ip, v). split; [done|]. by apply elem_of_map_to_list.
Qed.

(** Splits a state into its fields, so that updates compute. *)
Ltac fw_cbn :=
  repeat match goal with s : KadFirewallState |- _ => destruct s end; cbn in *.

(** The fields each of the three checks reads and writes. *)
Definition udp_view (s : KadFirewallState) :=
  (udp_open s, udp_verified s, last_udp_check_started_at s, last_udp_check_succeeded_at s,
   last_udp_check_failed_at s, active_round s).
Definition tcp_view (s : KadFirewallState) := (tcp_recheck_active s, active_tcp_round s).
Definition port_view (s : KadFirewallState) :=
  (discovered_external_udp_port s, active_external_port_discovery s).

Definition on_udp (op : fw_op) : bool :=
  match op with OBeginUdp _ _ _ | OHelperFailed _ _ | OUdpPacket _ _ _ _ | OFinishUdp _ => true | _ => false end.
Definition on_tcp (op : fw_op) : bool :=
  match op with ORefreshTcp _ _ | OProbe _ _ | OProbeFailed _ _ | OResponse _ _ _ => true | _ => false end.
Definition on_port (op : fw_op) : bool :=
  match op with OBeginPort _ | OPort _ _ _ | OFinishPort _ => true | _ => false end.

(** An operation leaves the fields of the other checks alone. *)
Lemma run_fw_op_frame s o s' : run_fw_op s o = Some s' →
  (on_udp o = false → udp_view s' = udp_view s) ∧ (on_tcp o = false → tcp_view s' = tcp_view s) ∧
  (on_port o = false → port_view s' = port_view s).
Proof.
  destruct o; cbn [run_fw_op]; intros Hr; try (injection Hr as <-);
    unfold begin_external_port_discovery, record_external_port_candidate, finish_external_port_discovery,
      refresh_tcp_recheck, try_begin_tcp_firewall_probe, record_tcp_firewall_probe_failed,
      record_firewalled_response, begin_udp_check, record_helper_request_failed,
      record_firewall_udp_packet, finish_udp_check, finalize_round in *;
    destruct s; cbn in *; repeat case_match; simplify_eq; done.
Qed.

(** *** The invariant *)

Lemma udp_ok_ext s s' : udp_view s' = udp_view s → udp_ok s → udp_ok s'.
Proof. unfold udp_view. intros [= H1 H2 H3 H4 H5 H6] [??]. split; rewrite ?H1, ?H2, ?H3, ?H4, ?H5, ?H6; done. Qed.
Lemma tcp_ok_ext s s' : tcp_view s' = tcp_view s → tcp_ok s → tcp_ok s'.
Proof. unfold tcp_view, tcp_ok. intros [= H1 H2]. by rewrite H1, H2. Qed.
Lemma port_ok_ext s s' : port_view s' = port_view s → port_ok s → port_ok s'.
Proof. unfold port_view, port_ok. intros [= H1 H2]. by rewrite H1, H2. Qed.

(** Marking a helper keeps a round well-formed, unless it succeeds. *)
Definition round_ok (r : UdpFirewallCheckRound) : Prop :=
  ur_expected_ports r ≠ ∅ ∧ (0 ∉ ur_expected_ports r) ∧ ur_helper_outcomes r ≠ ∅ ∧
  ∀ ip, ur_helper_outcomes r !! ip ≠ Some Succeeded.
Lemma mark_round_ok r ip o : round_ok r → o ≠ Succeeded →
  round_ok (mkUdpRound (ur_started_at r) (ur_expected_ports r) (<[ip := o]> (ur_helper_outcomes r))).
Proof.
  intros (H1 & H2 & H3 & H4) Ho. repeat split; cbn; [done|done|apply insert_non_empty|].
  intros ip'. destruct (decide (ip = ip')) as [<- |]; [rewrite lookup_insert_eq|rewrite lookup_insert_ne by done].
  - congruence.
  - apply H4.
Qed.

Lemma pending_lookup helpers ip :
  (list_to_map (rev (map (λ ip, (ip, Pending)) helpers)) : gmap IpAddr HelperOutcome) !! ip =
  if bool_decide (ip ∈ helpers) then Some Pending else None.
Proof.
  induction helpers as [|h l IH] using rev_ind; [done|].
  rewrite map_app, rev_app_distr. cbn. destruct (decide (h = ip)) as [-> |Hne].
  - rewrite lookup_insert_eq, bool_decide_true; [done|]. apply elem_of_app. right. by left.
  - rewrite lookup_insert_ne, IH by done. apply (f_equal (λ b : bool, if b then Some Pending else None)).
    apply bool_decide_ext. rewrite elem_of_app, list_elem_of_singleton. naive_solver.
Qed.

Lemma begin_round_ok helpers ports t :
  let outcomes : gmap IpAddr HelperOutcome := list_to_map (rev (map (λ ip, (ip, Pending)) helpers)) in
  let expected : gset Z := list_to_set (List.filter (λ port, negb (port =? 0)) ports) in
  size outcomes ≠ 0%nat → size expected ≠ 0%nat → round_ok (mkUdpRound t expected outcomes).
Proof.
  intros outcomes expected Ho He. repeat split; cbn.
  - intros Hn. apply He. rewrite Hn. apply size_empty.
  - unfold expected. rewrite elem_of_list_to_set, elem_of_filter_bool. cbn. naive_solver.
  - intros Hn. apply Ho. rewrite Hn. apply map_size_empty.
  - intros ip. unfold outcomes. rewrite pending_lookup. by case_bool_decide.
Qed.

Lemma round_not_all r (f : HelperOutcome → bool) : ur_helper_outcomes r ≠ ∅ →
  (∀ ip o, ur_helper_outcomes r !! ip = Some o → f o = false) →
  forallb f (values (ur_helper_outcomes r)) = false.
Proof.
  intros Hne Hf. destruct (map_choose _ Hne) as (ip & o & Ho).
  apply not_true_is_false. rewrite forallb_forall. intros Hall.
  specialize (Hall o). rewrite (Hf ip o Ho) in Hall. apply diff_false_true, Hall.
  apply list_elem_of_In, elem_of_values. by exists ip.
Qed.
Lemma round_none r (f : HelperOutcome → bool) :
  (∀ ip o, ur_helper_outcomes r !! ip = Some o → f o = false) →
  existsb f (values (ur_helper_outcomes r)) = false.
Proof.
  intros Hf. apply not_true_is_false. rewrite existsb_exists. intros (o & Hin & Ho).
  apply list_elem_of_In, elem_of_values in Hin as [ip Hip]. rewrite (Hf ip o Hip) in Ho. done.
Qed.

Lemma finalize_view s opened t r : active_round s = Some r →
  udp_view (fst (finalize_round s opened t)) =
    (opened, true, last_udp_check_started_at s,
     if opened then Some t else last_udp_check_succeeded_at s,
     if opened then last_udp_check_failed_at s else Some t, None).
Proof. unfold finalize_round. intros ->. destruct s, opened; done. Qed.

Lemma finalize_ok s opened t r : active_round s = Some r → udp_ok (fst (finalize_round s opened t)).
Proof.
  intros Hr. pose proof (finalize_view s opened t r Hr) as H. unfold udp_view in H.
  injection H as H1 H2 H3 H4 H5 H6. split; rewrite ?H1, ?H2, ?H6; [done| |done].
  intros _. destruct opened; rewrite ?H4, ?H5; by eexists.
Qed.

Lemma udp_ok_round s r : udp_ok s → active_round s = Some r →
  last_udp_check_started_at s = Some (ur_started_at r) ∧ round_ok r.
Proof. intros Hs Hr. by apply (ud_round _ Hs). Qed.

Lemma set_round_ok s s' r : udp_ok s → round_ok r →
  udp_view s' = (udp_open s, udp_verified s, Some (ur_started_at r), last_udp_check_succeeded_at s,
                 last_udp_check_failed_at s, Some r) → udp_ok s'.
Proof.
  intros [Ho Hv _] Hr. unfold udp_view. intros [= H1 H2 H3 H4 H5 H6].
  split; rewrite ?H1, ?H2, ?H3, ?H4, ?H5, ?H6; [done|done|]. by intros r' [= <-].
Qed.

Lemma clear_round_ok s s' : udp_ok s →
  udp_view s' = (udp_open s, udp_verified s, last_udp_check_started_at s, last_udp_check_succeeded_at s,
                 last_udp_check_failed_at s, None) → udp_ok s'.
Proof.
  intros [Ho Hv _]. unfold udp_view. intros [= H1 H2 H3 H4 H5 H6].
  split; rewrite ?H1, ?H2, ?H3, ?H4, ?H5, ?H6; done.
Qed.

(** A known helper is marked, another one ignored. *)
Definition mark (ip : IpAddr) (o : HelperOutcome) (m : gmap IpAddr HelperOutcome) :=
  match m !! ip with Some _ => <[ip := o]> m | None => m end.

Lemma mark_ok r ip o : round_ok r → o ≠ Succeeded →
  round_ok (mkUdpRound (ur_started_at r) (ur_expected_ports r) (mark ip o (ur_helper_outcomes r))).
Proof.
  intros Hr Ho. unfold mark. destruct (_ !! ip); [by apply mark_round_ok|by destruct r].
Qed.

(** What the operations of the UDP check do to a round in progress. *)
Lemma helper_failed_view s ip e r : active_round s = Some r →
  udp_view (record_helper_request_failed s ip e) =
    (udp_open s, udp_verified s, last_udp_check_started_at s, last_udp_check_succeeded_at s,
     last_udp_check_failed_at s,
     Some (mkUdpRound (ur_started_at r) (ur_expected_ports r)
       (mark ip RequestFailed (ur_helper_outcomes r)))).
Proof.
  unfold record_helper_request_failed, mark. intros Hr. rewrite Hr.
  destruct (ur_helper_outcomes r !! ip); destruct s, r; cbn in *; by simplify_eq.
Qed.

Definition udp_hit (r : UdpFirewallCheckRound) (ip : IpAddr) (code port : Z) : bool :=
  bool_decide (is_Some (ur_helper_outcomes r !! ip)) && (code =? 0) &&
  bool_decide (port ∈ ur_expected_ports r).

Lemma udp_packet_view s ip code port t r : active_round s = Some r →
  ∃ s', run_fw_op s (OUdpPacket ip code port t) = Some s' ∧
    udp_view s' =
      if udp_hit r ip code port
      then (true, true, last_udp_check_started_at s, Some t, last_udp_check_failed_at s, None)
      else (udp_open s, udp_verified s, last_udp_check_started_at s, last_udp_check_succeeded_at s,
            last_udp_check_failed_at s,
            Some (mkUdpRound (ur_started_at r) (ur_expected_ports r)
              (mark ip (if code =? 0 then WrongPort else RemoteError) (ur_helper_outcomes r)))).
Proof.
  intros Hr. cbn [run_fw_op]. unfold record_firewall_udp_packet, udp_hit, mark. rewrite Hr.
  destruct (ur_helper_outcomes r !! ip) as [o|] eqn:Ho.
  - rewrite (bool_decide_true (is_Some (Some o))) by done. cbn [andb].
    destruct ((code =? 0) && bool_decide (port ∈ ur_expected_ports r)).
    + destruct s; cbn in *. simplify_eq. eexists. split; [done|]. done.
    + destruct s; cbn in *. simplify_eq. eexists. split; [done|]. done.
  - rewrite bool_decide_false by (by intros [??]). destruct s, r; cbn in *. simplify_eq. by eexists.
Qed.

Lemma udp_packet_idle s ip code port t : active_round s = None →
  run_fw_op s (OUdpPacket ip code port t) = Some s.
Proof. intros Hr. cbn [run_fw_op]. unfold record_firewall_udp_packet. by rewrite Hr. Qed.

(** The end of a round: no round is left, and the verdict is negative unless no
    request could be sent. *)
Lemma finish_udp_view s t r : active_round s = Some r → round_ok r →
  udp_view (fst (finish_udp_check s t)) =
    (if forallb (λ o, bool_decide (o = RequestFailed)) (values (ur_helper_outcomes r))
     then (udp_open s, udp_verified s, last_udp_check_started_at s, last_udp_check_succeeded_at s,
           last_udp_check_failed_at s, None)
     else (false, true, last_udp_check_started_at s, last_udp_check_succeeded_at s, Some t, None)) ∧
  (is_Some (snd (finish_udp_check s t)) ↔
     forallb (λ o, bool_decide (o = RequestFailed)) (values (ur_helper_outcomes r)) = false).
Proof.
  intros Hr (_ & _ & Hne & Hno). unfold finish_udp_check. rewrite Hr.
  assert (Hf : ∀ ip o, ur_helper_outcomes r !! ip = Some o → bool_decide (o = Succeeded) = false).
  { intros ip o Ho. apply bool_decide_false. intros ->. by destruct (Hno ip). }
  rewrite (round_not_all r _ Hne Hf), (round_none r _ Hf).
  destruct (forallb (λ o, bool_decide (o = RequestFailed)) _).
  - destruct s; cbn in *. split; [done|]. split; [by intros [??]|done].
  - unfold finalize_round. destruct s; cbn in *. simplify_eq. cbn. split; [done|]. split; [done|]. by eexists.
Qed.

Lemma udp_op_ok s o s' : udp_ok s → on_udp o = true → run_fw_op s o = Some s' → udp_ok s'.
Proof.
  intros Hs Ho Hrun. destruct o; try done; clear Ho.
  - injection Hrun as <-. unfold begin_udp_check.
    destruct (Nat.eqb_spec (size (list_to_map (rev (map (λ ip, (ip, Pending)) helper_ips)) : gmap IpAddr HelperOutcome)) 0)
      as [_|Hh]; [eapply udp_ok_ext; [|done]; by destruct s|].
    destruct (Nat.eqb_spec (size (list_to_set (List.filter (λ port, negb (port =? 0)) expected_ports) : gset Z)) 0)
      as [_|Hp]; [eapply udp_ok_ext; [|done]; by destruct s|].
    eapply (set_round_ok s); [done|by apply (begin_round_ok helper_ips expected_ports started_at)|]. by destruct s.
  - injection Hrun as <-. destruct (active_round s) as [r|] eqn:Hr.
    + destruct (udp_ok_round s r Hs Hr) as [Ht Hok].
      eapply (set_round_ok s); [done|by apply (mark_ok r helper_ip RequestFailed)|].
      by rewrite (helper_failed_view _ _ _ _ Hr), Ht.
    + unfold record_helper_request_failed. by rewrite Hr.
  - destruct (active_round s) as [r|] eqn:Hr.
    + destruct (udp_ok_round s r Hs Hr) as [Ht Hok].
      destruct (udp_packet_view s helper_ip error_code incoming_port observed_at r Hr) as (s1 & Hs1 & Hv).
      assert (s1 = s') as -> by congruence. destruct (udp_hit r _ _ _).
      * unfold udp_view in Hv. injection Hv as H1 H2 H3 H4 H5 H6.
        split; rewrite ?H1, ?H2, ?H4, ?H6; done.
      * eapply (set_round_ok s);
          [done|apply (mark_ok r helper_ip (if error_code =? 0 then WrongPort else RemoteError) Hok)|].
        -- by destruct (_ =? _).
        -- by rewrite Hv, Ht.
    + rewrite udp_packet_idle in Hrun by done. by injection Hrun as <-.
  - injection Hrun as <-. destruct (active_round s) as [r|] eqn:Hr.
    + destruct (udp_ok_round s r Hs Hr) as [Ht Hok].
      destruct (finish_udp_view s completed_at r Hr Hok) as [Hv _]. destruct (forallb _ _).
      * by eapply clear_round_ok.
      * unfold udp_view in Hv. injection Hv as H1 H2 H3 H4 H5 H6.
        split; rewrite ?H1, ?H2, ?H5, ?H6; done.
    + unfold finish_udp_check. by rewrite Hr.
Qed.

Lemma tcp_op_ok s o s' : tcp_ok s → on_tcp o = true → run_fw_op s o = Some s' → tcp_ok s'.
Proof.
  unfold tcp_ok. intros Hs Ho Hrun. destruct o; try done; injection Hrun as <-; clear Ho.
  - unfold refresh_tcp_recheck. destruct tcp_firewalled; [|by destruct s].
    destruct (active_tcp_round s) as [r|] eqn:Hr; [by rewrite Hr|]. destruct s; cbn. split; [done|]. rewrite size_empty. lia.
  - unfold try_begin_tcp_firewall_probe. destruct (active_tcp_round s) as [r|] eqn:Hr; [|cbn; by rewrite Hr].
    destruct (_ || _ || _) eqn:Hg; [cbn; by rewrite Hr|]. bool_hyps. unfold TCP_FIREWALL_RECHECK_LIMIT in *.
    destruct s; cbn in *. split; [done|]. rewrite size_union by set_solver. rewrite size_singleton. lia.
  - unfold record_tcp_firewall_probe_failed. destruct (active_tcp_round s) as [r|] eqn:Hr.
    + destruct s; cbn in *. pose proof (subseteq_size (tr_active_helpers r ∖ {[helper_ip]}) (tr_active_helpers r)) as Hle.
      specialize (Hle ltac:(set_solver)). destruct Hs as [-> Hs]. split; [done|]. lia.
    + destruct s; cbn in *. by rewrite Hr.
  - unfold record_firewalled_response. destruct (active_tcp_round s) as [r|] eqn:Hr; [|cbn; by rewrite Hr].
    case_bool_decide as Hin; [cbn; by rewrite Hr|]. cbn [fst].
    pose proof (subseteq_size (tr_active_helpers r ∖ {[helper_ip]}) (tr_active_helpers r) ltac:(set_solver)) as Hle.
    unfold TCP_FIREWALL_RECHECK_LIMIT.
    destruct (Z.leb_spec 4 (tr_completed_checks r + 1)); destruct s; cbn in *; [lia|]. split; lia.
Qed.

(** *** External port discovery *)

Lemma candidate_view s ip port t r : active_external_port_discovery s = Some r →
  port_view (fst (record_external_port_candidate s ip port t)) =
    if (port =? 0) || bool_decide (ip ∈ er_reporter_ips r) then port_view s
    else if existsb (Z.eqb port) (er_reported_ports r) then (Some port, None)
    else if 2 <=? Z.of_nat (size (er_reporter_ips r)) then (None, None)
    else (discovered_external_udp_port s,
          Some (mkPortRound ({[ip]} ∪ er_reporter_ips r) (er_reported_ports r ++ [port]))).
Proof.
  intros Hr. unfold record_external_port_candidate. rewrite Hr. destruct (port =? 0); [done|]. cbn [orb].
  case_bool_decide as Hin; [done|]. destruct (existsb _ _); [by destruct s|].
  rewrite size_union, size_singleton by set_solver. unfold EXTERNAL_PORT_DISCOVERY_REPORTERS.
  destruct (Z.leb_spec 3 (Z.of_nat (1 + size (er_reporter_ips r)))),
    (Z.leb_spec 2 (Z.of_nat (size (er_reporter_ips r)))); try lia; by destruct s.
Qed.

Lemma candidate_idle s ip port t : active_external_port_discovery s = None →
  fst (record_external_port_candidate s ip port t) = s.
Proof. unfold record_external_port_candidate. intros ->. by destruct (port =? 0). Qed.

Lemma existsb_Zeqb p l : existsb (Z.eqb p) l = bool_decide (p ∈ l).
Proof.
  apply eq_iff_eq_true. rewrite existsb_exists, bool_decide_eq_true, list_elem_of_In.
  setoid_rewrite Z.eqb_eq. naive_solver.
Qed.

Lemma port_op_ok s o s' : port_ok s → on_port o = true → run_fw_op s o = Some s' → port_ok s'.
Proof.
  intros Hs Ho Hrun. destruct o; try done; injection Hrun as <-; clear Ho.
  - destruct s. split; cbn; [done|]. intros r [= <-]. cbn. rewrite size_empty.
    repeat split; [constructor|apply not_elem_of_nil|lia].
  - destruct (active_external_port_discovery s) as [r|] eqn:Hr; [|by rewrite candidate_idle].
    destruct Hs as [Hd Ha]. destruct (Ha r Hr) as (Hnone & Hnd & H0 & Hlen & Hle).
    pose proof (candidate_view s reporter_ip reported_port observed_at r Hr) as Hv.
    rewrite existsb_Zeqb in Hv. revert Hv.
    destruct (Z.eqb_spec reported_port 0) as [->|Hp]; cbn [orb]; [by intros Hv; eapply port_ok_ext|].
    case_bool_decide as Hin; [by intros Hv; eapply port_ok_ext|]. unfold port_view, port_ok.
    case_bool_decide as Hport; [intros [= -> ->]; split; [by intros p [= <-]|done]|].
    destruct (Z.leb_spec 2 (Z.of_nat (size (er_reporter_ips r)))); intros [= -> ->]; [done|].
    split; [done|]. intros r' [= <-]. cbn. rewrite length_app, size_union, size_singleton by set_solver.
    cbn. split; [done|]. split; [|split; [set_solver|lia]].
    apply NoDup_app. repeat split; [done| |apply NoDup_singleton]. set_solver.
  - destruct (active_external_port_discovery s) as [r|] eqn:Hr; unfold finish_external_port_discovery;
      rewrite Hr; [|done]. destruct Hs as [Hd Ha]. destruct (Ha r Hr) as [Hnone _].
    destruct s; cbn in *. simplify_eq. by split.
Qed.

Lemma run_fw_op_ok s o s' : fw_ok s → run_fw_op s o = Some s' → fw_ok s'.
Proof.
  intros [Hu Ht Hp] Hrun. destruct (run_fw_op_frame _ _ _ Hrun) as (Fu & Ft & Fp). split.
  - destruct (on_udp o) eqn:Ho; [by eapply udp_op_ok|by eapply udp_ok_ext; [apply Fu|]].
  - destruct (on_tcp o) eqn:Ho; [by eapply tcp_op_ok|by eapply tcp_ok_ext; [apply Ft|]].
  - destruct (on_port o) eqn:Ho; [by eapply port_op_ok|by eapply port_ok_ext; [apply Fp|]].
Qed.

Lemma firewall_default_ok : fw_ok firewall_default.
Proof. split; [split|..]; done. Qed.

Lemma fw_reachable_ok s : fw_reachable s → fw_ok s.
Proof.
  revert s. apply (rtc_ind_r _ firewall_default); [apply firewall_default_ok|].
  intros s s' _ [s1 o s2 Hrun] Hs. by eapply run_fw_op_ok.
Qed.

(** *** Whole checks *)

Lemma run_fw_op_total s o : ∃ s', run_fw_op s o = Some s'.
Proof.
  destruct o; cbn [run_fw_op]; try by eexists. destruct (active_round s) as [r|] eqn:Hr.
  - destruct (udp_packet_view s helper_ip error_code incoming_port observed_at r Hr) as (s' & Hs' & _).
    by exists s'.
  - exists s. by apply udp_packet_idle.
Qed.

(** The outcomes of the helpers while no packet has reached the node. *)
Definition outcomes_are (helpers : list IpAddr) (l : list fw_op) (m : gmap IpAddr HelperOutcome) : Prop :=
  ∀ ip, m !! ip = if bool_decide (ip ∈ helpers) then Some (outcome_after l ip) else None.

Lemma outcome_after_snoc l o ip : outcome_after (l ++ [o]) ip = outcome_step ip (outcome_after l ip) o.
Proof. unfold outcome_after. by rewrite foldl_app. Qed.

Lemma outcomes_mark helpers l o ip r m : outcomes_are helpers l m →
  (∀ ip' x, outcome_step ip' x o = if bool_decide (ip = ip') then r else x) →
  outcomes_are helpers (l ++ [o]) (mark ip r m).
Proof.
  intros Hm Ho ip'. rewrite outcome_after_snoc, Ho. unfold mark.
  destruct (m !! ip) as [x|] eqn:Hx.
  - destruct (decide (ip = ip')) as [<- |Hne].
    + rewrite lookup_insert_eq, (bool_decide_true (ip = ip)) by done. rewrite Hm in Hx. by case_bool_decide.
    + rewrite lookup_insert_ne, (bool_decide_false (ip = ip')), Hm by done. done.
  - rewrite Hm. case_bool_decide as Hin; [|done]. case_bool_decide as Heq; [|done]. subst ip'.
    rewrite Hm, bool_decide_true in Hx by done. done.
Qed.

Lemma udp_view_round s s' : udp_view s' = udp_view s →
  active_round s' = active_round s ∧ udp_open s' = udp_open s ∧ udp_verified s' = udp_verified s.
Proof. unfold udp_view. by intros [= -> -> _ _ _ ->]. Qed.

Section udp_check.
Context (s0 : KadFirewallState) (helpers : list IpAddr) (ports : list Z) (t0 : Z).

(** A state of the check after the operations [l]: still running, or open. *)
Definition udp_running (l : list fw_op) (s : KadFirewallState) : Prop :=
  udp_open s = udp_open s0 ∧ udp_verified s = udp_verified s0 ∧ ∃ m,
    active_round s = Some (mkUdpRound t0 (list_to_set (List.filter (λ port, negb (port =? 0)) ports)) m) ∧
    outcomes_are helpers l m.
Definition udp_opened (s : KadFirewallState) : Prop :=
  udp_open s = true ∧ udp_verified s = true ∧ active_round s = None.

Lemma udp_running_view l l' s s' : udp_view s' = udp_view s → (∀ ip, outcome_after l' ip = outcome_after l ip) →
  udp_running l s → udp_running l' s'.
Proof.
  intros (Hr & Ho & Hv)%udp_view_round Hl (H1 & H2 & m & H3 & H4). unfold udp_running.
  rewrite Hr, Ho, Hv. repeat split; try done. exists m. split; [done|]. intros ip. by rewrite Hl.
Qed.

Lemma udp_hit_reaches l m ip code port t : outcomes_are helpers l m →
  udp_hit (mkUdpRound t0 (list_to_set (List.filter (λ port, negb (port =? 0)) ports)) m) ip code port =
  reaches helpers ports (OUdpPacket ip code port t).
Proof.
  intros Hm. unfold udp_hit, reaches. cbn. rewrite <- (andb_assoc (_ && _) (bool_decide (port ∈ ports))).
  f_equal.
  - f_equal. apply bool_decide_ext. rewrite Hm. case_bool_decide; [naive_solver|].
    split; [by intros [??]|done].
  - apply eq_iff_eq_true.
    rewrite bool_decide_eq_true, elem_of_list_to_set, elem_of_filter_bool, andb_true_iff, bool_decide_eq_true. done.
Qed.

Lemma udp_running_step l s o s' : udp_running l s → during_udp o = true → run_fw_op s o = Some s' →
  if reaches helpers ports o then udp_opened s' else udp_running (l ++ [o]) s'.
Proof.
  intros Hs Hd Hrun. destruct (on_udp o) eqn:Hu.
  2:{ destruct (run_fw_op_frame _ _ _ Hrun) as (Fu & _ & _). specialize (Fu Hu).
      destruct o; try done; cbn [reaches]; (apply (udp_running_view l _ s); [done| |done]);
        intros ip; by rewrite outcome_after_snoc. }
  destruct Hs as (H1 & H2 & m & H3 & H4). destruct o as [| | | | | | | |ip e|ip code port t|]; try done; clear Hd Hu.
  - injection Hrun as <-. cbn [reaches].
    pose proof (helper_failed_view s ip e _ H3) as Hv. unfold udp_view in Hv. cbn in Hv.
    injection Hv as V1 V2 _ _ _ V6. split; [congruence|]. split; [congruence|]. eexists. split; [exact V6|].
    by apply outcomes_mark.
  - destruct (udp_packet_view s ip code port t _ H3) as (s1 & Hs1 & Hv).
    assert (s1 = s') as -> by congruence. rewrite (udp_hit_reaches l m ip code port t H4) in Hv.
    unfold udp_view in Hv. cbn [ur_started_at ur_expected_ports ur_helper_outcomes] in Hv.
    destruct (reaches helpers ports (OUdpPacket ip code port t)); injection Hv as V1 V2 _ _ _ V6; [done|].
    split; [congruence|]. split; [congruence|]. eexists. split; [exact V6|]. by apply outcomes_mark.
Qed.

Lemma udp_opened_step s o s' : udp_opened s → during_udp o = true → run_fw_op s o = Some s' → udp_opened s'.
Proof.
  intros (H1 & H2 & H3) Hd Hrun. unfold udp_opened. destruct (on_udp o) eqn:Hu.
  - destruct o; try done.
    + injection Hrun as <-. unfold record_helper_request_failed. by rewrite H3.
    + rewrite udp_packet_idle in Hrun by done. by injection Hrun as <-.
  - destruct (run_fw_op_frame _ _ _ Hrun) as (Fu & _ & _).
    destruct (udp_view_round _ _ (Fu Hu)) as (-> & -> & ->). done.
Qed.

Lemma udp_run l s' ops : forallb during_udp ops = true → ∀ s, run_fw_ops s ops = Some s' →
  (udp_opened s → udp_opened s') ∧
  (udp_running l s → if existsb (reaches helpers ports) ops then udp_opened s' else udp_running (l ++ ops) s').
Proof.
  revert l. induction ops as [|o ops IH]; intros l Hd s Hrun.
  { injection Hrun as <-. rewrite app_nil_r. done. }
  cbn [forallb] in Hd. apply andb_true_iff in Hd as [Ho Hd]. cbn [run_fw_ops] in Hrun.
  apply bind_Some in Hrun as (s1 & H1 & Hrun). specialize (IH (l ++ [o]) Hd s1 Hrun) as [IHo IHr]. split.
  - intros Hs. apply IHo. by eapply udp_opened_step.
  - intros Hs. cbn [existsb]. pose proof (udp_running_step l s o s1 Hs Ho H1) as Hstep.
    destruct (reaches helpers ports o); [by apply IHo|]. specialize (IHr Hstep). by rewrite <- app_assoc in IHr.
Qed.

Lemma udp_begin s1 : begin_udp_check s0 helpers ports t0 = (s1, true) →
  udp_running [] s1 ∧ round_ok (mkUdpRound t0 (list_to_set (List.filter (λ port, negb (port =? 0)) ports))
    (list_to_map (rev (map (λ ip, (ip, Pending)) helpers)))).
Proof.
  unfold begin_udp_check.
  destruct (Nat.eqb_spec (size (list_to_map (rev (map (λ ip, (ip, Pending)) helpers)) : gmap IpAddr HelperOutcome)) 0)
    as [_|Hh]; [done|].
  destruct (Nat.eqb_spec (size (list_to_set (List.filter (λ port, negb (port =? 0)) ports) : gset Z)) 0)
    as [_|Hp]; [done|].
  intros [= <-]. split; [|by apply (begin_round_ok helpers ports t0)]. unfold udp_running.
  destruct s0; cbn. repeat split. eexists. split; [done|]. intros ip. by rewrite pending_lookup.
Qed.
End udp_check.

(** A round whose helpers all have the same outcome. *)
Lemma outcomes_all helpers l m (f : HelperOutcome → bool) : outcomes_are helpers l m →
  forallb f (values m) = forallb (λ ip, f (outcome_after l ip)) helpers.
Proof.
  intros Hm. apply eq_iff_eq_true. rewrite !forallb_forall. split; intros H x Hx.
  - apply H, list_elem_of_In, elem_of_values. exists x. rewrite Hm.
    by rewrite bool_decide_true by (by apply list_elem_of_In).
  - apply list_elem_of_In, elem_of_values in Hx as [ip Hip]. rewrite Hm in Hip. case_bool_decide as Hin; [|done].
    injection Hip as <-. by apply H, list_elem_of_In.
Qed.

(** Succeeding needs a packet that reaches the node. *)
Lemma outcome_not_succeeded l ip : outcome_after l ip ≠ Succeeded.
Proof.
  induction l as [|o l IH] using rev_ind; [done|]. rewrite outcome_after_snoc.
  destruct o; cbn; try done; case_bool_decide; try done. by destruct (_ =? _).
Qed.

(** *** The reports of a discovery *)

Section discovery.
Context (t0 : Z).

(** A state of the discovery after the counted reports [acc]. *)
Definition discovering (acc : list (IpAddr * Z)) (s : KadFirewallState) : Prop :=
  match active_external_port_discovery s with
  | Some r => discovered_external_udp_port s = None ∧ er_reporter_ips r = list_to_set acc.*1 ∧
      er_reported_ports r = acc.*2 ∧ NoDup acc.*1 ∧ NoDup acc.*2 ∧ (length acc ≤ 2)%nat
  | None => discovered_external_udp_port s = agreed acc.*2 ∧
      (is_Some (agreed acc.*2) ∨ (3 ≤ length acc)%nat)
  end.

Lemma agreed_app l k : is_Some (agreed l) ∨ (3 ≤ length l)%nat → agreed (l ++ k) = agreed l.
Proof.
  intros H. destruct l as [|a [|b [|c l]]]; cbn in *; try (by destruct H as [[??]|?]; [done|lia]); [|done].
  destruct (a =? b); [done|]. by destruct H as [[??]|?]; [done|lia].
Qed.

Lemma agreed_snoc l p : NoDup l → (length l ≤ 2)%nat →
  agreed (l ++ [p]) = if bool_decide (p ∈ l) then Some p else None.
Proof.
  intros Hnd Hl. destruct l as [|a [|b [|c l]]]; cbn in *; [done|..|lia].
  - destruct (Z.eqb_spec a p) as [->|]; [by rewrite bool_decide_true by left|].
    rewrite bool_decide_false; [done|]. set_solver.
  - apply NoDup_cons in Hnd as [Hab _]. destruct (Z.eqb_spec a b); [set_solver|].
    rewrite (bool_decide_ext (p ∈ [a; b]) (p = a ∨ p = b)) by set_solver.
    destruct (Z.eqb_spec p a), (Z.eqb_spec p b); cbn; case_bool_decide; naive_solver.
Qed.

Lemma discovering_report acc s ip port t : discovering acc s → port_ok s →
  discovering (report_step acc (OPort ip port t)) (fst (record_external_port_candidate s ip port t)).
Proof.
  unfold discovering at 1. intros Hs Hok. cbn [report_step].
  destruct (active_external_port_discovery s) as [r|] eqn:Hr.
  - destruct Hs as (Hd & Hips & Hports & Hnd1 & Hnd2 & Hlen).
    pose proof (candidate_view s ip port t r Hr) as Hv. unfold port_view in Hv.
    rewrite existsb_Zeqb, Hips, Hports in Hv.
    assert (Hsz : size (list_to_set acc.*1 : gset IpAddr) = length acc)
      by (rewrite size_list_to_set, length_fmap; done).
    rewrite Hsz in Hv. revert Hv. rewrite (bool_decide_ext (ip ∈ (list_to_set acc.*1 : gset IpAddr)) (ip ∈ acc.*1))
      by apply elem_of_list_to_set.
    destruct ((port =? 0) || bool_decide (ip ∈ acc.*1)) eqn:Hskip.
    { intros [= V1 V2]. unfold discovering. rewrite V1, V2, Hr. done. }
    apply orb_false_iff in Hskip as [_ Hnew%bool_decide_eq_false]. unfold discovering.
    pose proof (agreed_snoc acc.*2 port Hnd2 ltac:(by rewrite length_fmap)) as Hag.
    rewrite !fmap_app. cbn [fmap list_fmap fst snd]. rewrite Hag, length_app. cbn [length].
    case_bool_decide as Hin; [intros [= -> ->]; split; [done|by left; eexists]|].
    destruct (Z.leb_spec 2 (Z.of_nat (length acc))); intros [= -> ->]; [split; [done|right; lia]|].
    cbn. rewrite list_to_set_app_L. repeat split; [done|set_solver|..|lia];
      apply NoDup_app; repeat split; try done; try apply NoDup_singleton; set_solver.
  - rewrite candidate_idle by done. destruct Hs as [Hd Hag].
    destruct ((port =? 0) || _); [unfold discovering; by rewrite Hr|]. unfold discovering.
    rewrite Hr, fmap_app, agreed_app, length_app by (by rewrite length_fmap). cbn. split; [done|].
    destruct Hag; [by left|right; lia].
Qed.

Lemma discovering_run ops acc s s' : forallb during_port ops = true → port_ok s → discovering acc s →
  run_fw_ops s ops = Some s' → discovering (foldl report_step acc ops) s'.
Proof.
  revert acc s. induction ops as [|o ops IH]; intros acc s Hd Hok Hs Hrun; [by injection Hrun as <-|].
  cbn [forallb] in Hd. apply andb_true_iff in Hd as [Ho Hd].
  cbn [run_fw_ops] in Hrun. apply bind_Some in Hrun as (s1 & H1 & Hrun). cbn [foldl].
  assert (Hok1 : port_ok s1).
  { destruct (on_port o) eqn:Hp; [by eapply port_op_ok|].
    eapply port_ok_ext; [|done]. by apply (run_fw_op_frame _ _ _ H1). }
  apply (IH _ s1); [done|done| |done]. destruct (on_port o) eqn:Hp.
  - destruct o; try done. injection H1 as <-. by apply discovering_report.
  - destruct (run_fw_op_frame _ _ _ H1) as (_ & _ & Fp). specialize (Fp Hp). unfold port_view in Fp.
    injection Fp as V1 V2. assert (report_step acc o = acc) as -> by (by destruct o).
    unfold discovering. by rewrite V1, V2.
Qed.
End discovery.

Lemma begin_port_ok s t : port_ok (begin_external_port_discovery s t) ∧
  discovering [] (begin_external_port_discovery s t).
Proof.
  destruct s. split; [|by repeat split; try constructor; cbn; lia].
  split; cbn; [done|]. intros r [= <-]. cbn. rewrite size_empty.
  repeat split; [constructor|apply not_elem_of_nil|lia].
Qed.

Lemma run_fw_ops_total s l : ∃ s', run_fw_ops s l = Some s'.
Proof.
  revert s. induction l as [|o l IH]; intros s; [by eexists|]. cbn [run_fw_ops].
  destruct (run_fw_op_total s o) as [s' ->]. apply IH.
Qed.

(** ** Properties *)

(** In every state the firewall checks can reach, by any sequence of their
    operations: a verdict of being open is a verified one and has its time; a UDP
    round in progress has helpers, non-zero ports and no success; the TCP recheck
    is flagged exactly while its round is on, with at most four probes out and fewer
    than four answers; a port discovery has at most two reporters, who disagree.
    No operation panics (the [expect] on the summary never fails), and finishing a
    check leaves none in progress. *)
Lemma firewall_invariant s : fw_reachable s →
  fw_ok s ∧ (∀ o, ∃ s', run_fw_op s o = Some s') ∧
  (∀ t, active_round (fst (finish_udp_check s t)) = None) ∧
  (∀ t, active_external_port_discovery (finish_external_port_discovery s t) = None).
Proof.
  intros Hs%fw_reachable_ok. split; [done|]. split; [apply run_fw_op_total|]. split; intros t.
  - destruct (active_round s) as [r|] eqn:Hr.
    + destruct (udp_ok_round s r (fk_udp _ Hs) Hr) as [_ Hok].
      destruct (finish_udp_view s t r Hr Hok) as [Hv _]. unfold udp_view in Hv.
      destruct (forallb _ _); by injection Hv.
    + unfold finish_udp_check. by rewrite Hr.
  - unfold finish_external_port_discovery. destruct (active_external_port_discovery s) as [r|] eqn:Hr; [|done].
    destruct s; cbn in *. by repeat case_match.
Qed.

(** A UDP check decides: from its start to its end, whatever packets, failures
    and operations of the other checks come in between, no round is left, and the
    verdict is open when a packet of a helper reached an expected port; else it
    is unchanged, without a summary, when the request to every helper failed last;
    else it is firewalled, with a summary. *)
Lemma udp_check_verdict s0 helpers ports t0 s1 ops t :
  begin_udp_check s0 helpers ports t0 = (s1, true) → forallb during_udp ops = true →
  ∃ s2 s3 summary, run_fw_ops s1 ops = Some s2 ∧ finish_udp_check s2 t = (s3, summary) ∧
    active_round s3 = None ∧
    if existsb (reaches helpers ports) ops then udp_open s3 = true ∧ udp_verified s3 = true
    else if forallb (λ ip, bool_decide (outcome_after ops ip = RequestFailed)) helpers
    then udp_open s3 = udp_open s0 ∧ udp_verified s3 = udp_verified s0 ∧ summary = None
    else udp_open s3 = false ∧ udp_verified s3 = true ∧ is_Some summary.
Proof.
  intros Hb Hd. destruct (udp_begin s0 helpers ports t0 s1 Hb) as [Hrun (Hp1 & Hp2 & Hne & _)].
  cbn [ur_expected_ports ur_helper_outcomes] in *.
  destruct (run_fw_ops_total s1 ops) as [s2 Hs2]. exists s2, (fst (finish_udp_check s2 t)), (snd (finish_udp_check s2 t)).
  destruct (udp_run s0 helpers ports t0 [] s2 ops Hd s1 Hs2) as [_ H]. specialize (H Hrun). cbn [app] in H.
  split; [done|]. split; [by destruct (finish_udp_check s2 t)|]. destruct (existsb (reaches helpers ports) ops).
  - destruct H as (H1 & H2 & H3). unfold finish_udp_check. by rewrite H3.
  - destruct H as (H1 & H2 & m & H3 & H4).
    assert (Hok : round_ok (mkUdpRound t0 (list_to_set (List.filter (λ port, negb (port =? 0)) ports)) m)).
    { repeat split; cbn; [done|done| |].
      - intros ->. apply Hne, map_empty. intros ip. rewrite pending_lookup. specialize (H4 ip).
        rewrite lookup_empty in H4. by case_bool_decide.
      - intros ip. rewrite H4. case_bool_decide; [|done]. intros [= Ho]. by apply (outcome_not_succeeded ops ip). }
    destruct (finish_udp_view s2 t _ H3 Hok) as [Hv Hsum]. cbn [ur_helper_outcomes] in *.
    rewrite (outcomes_all _ _ _ _ H4) in Hv, Hsum. unfold udp_view in Hv. revert Hv.
    destruct (forallb _ helpers); intros [= -> -> _ _ _ ->].
    + split; [done|]. split; [done|]. split; [done|].
      destruct (snd (finish_udp_check s2 t)); [|done]. exfalso. by apply diff_true_false, Hsum.
    + split; [done|]. split; [done|]. split; [done|]. by apply Hsum.
Qed.

(** The external port is the one two reporters agree on: after a discovery,
    whatever reports and operations of the other checks it saw, the port put into
    requests is the one that two of the first three addresses to report a non-zero
    port named in their first report, and zero when there is none; and no discovery
    is left in progress. *)
Lemma external_port_agreed s0 t0 ops t :
  forallb during_port ops = true →
  ∃ s, run_fw_ops (begin_external_port_discovery s0 t0) ops = Some s ∧
    external_udp_port_for_request (finish_external_port_discovery s t) =
      default 0 (agreed (first_reports ops).*2) ∧
    needs_external_port_discovery (finish_external_port_discovery s t) = false.
Proof.
  intros Hd. destruct (run_fw_ops_total (begin_external_port_discovery s0 t0) ops) as [s Hs].
  exists s. split; [done|]. destruct (begin_port_ok s0 t0) as [Hok H0].
  pose proof (discovering_run ops [] _ s Hd Hok H0 Hs) as H. unfold discovering in H. fold (first_reports ops) in H.
  unfold external_udp_port_for_request, needs_external_port_discovery, finish_external_port_discovery.
  destruct (active_external_port_discovery s) as [r|] eqn:Hr.
  - destruct H as (Hn & _ & _ & _ & Hnd & Hlen). destruct s; cbn in *. simplify_eq. split; [|done]. cbn.
    assert (Ha : agreed (first_reports ops).*2 = None); [|by rewrite Ha].
    rewrite <- (length_fmap snd) in Hlen. destruct (first_reports ops).*2 as [|a [|b [|c l]]]; try done; cbn in *; [|lia].
    apply NoDup_cons in Hnd as [Hab _]. destruct (Z.eqb_spec a b); [set_solver|done].
  - destruct H as [-> _]. split; [done|]. rewrite Hr. apply bool_decide_false. by intros [??].
Qed.
