(* ===== verification/Hashset.v ===== *)
(** * Hashes of shared files

    Models [overlord-agent-emule/src/ed2k_transfer/hashset.rs]: the MD4 hash set of a
    file (one hash for each part of 9,728,000 bytes) and its AICH tree (SHA-1 over
    blocks of 184,320 bytes, a tree for each part and one over the parts). MD4 and
    SHA-1 are parameters; a hasher that is fed in pieces hashes what it was fed. A
    file opened for reading is the list of the bytes after its position. *)

From S2P Require Import Prelude NodeId Wire.

(** The errors of the transfer store, one for each message. *)
Inductive TransferError : Type :=
| EIo
| EZeroSize
| EIngestName
| EInvalidFileHash
| EHashsetLength
| EHashsetMismatch
| EHashsetEntry
| EAichMissing
| EAichHash
| EAichLength
| EAichRoot
| EAichConflict
| EMissingPart
| EManifestRead
| EManifestDecode
| EMissingPiece
| EPieceSize
| EUnexpectedBlock
| EFileSize.

Definition ED2K_PART_SIZE : Z := 9728000.
Definition ED2K_EMBLOCK_SIZE : Z := 184320.

Record Ed2kAichHashset : Type := mkAich { master_hash : list Z; part_hashes : list (list Z) }.

(** [file.read_exact(&mut buffer[..n])], and the file after it. *)
Definition read_exact (n : Z) (file : list Z) : res TransferError (list Z * list Z) :=
  if n <=? zlen file then Ok (take (Z.to_nat n) file, drop (Z.to_nat n) file) else Err EIo.

Definition chunk_count_for_size (size chunk_size : Z) : Z :=
  size / chunk_size + Z.b2z (negb (size mod chunk_size =? 0)).

(** [div_ceil] of unsigned integers. *)
Definition div_ceil (a b : Z) : Z := a / b + Z.b2z (0 <? a mod b).

Section hashes.
Variables (md4 sha1 : list Z → list Z).

(** ** MD4 hash sets *)

Definition expected_md4_hash_count (file_size : Z) : Z :=
  if file_size =? 0 then 0
  else
    let whole_parts := file_size / ED2K_PART_SIZE in
    let count := whole_parts + Z.b2z (0 <? whole_parts) in
    default U16_MAX (try_from_u 16 count).

Definition validate_md4_hashset (file_hash : list Z) (md4_hashset : list (list Z)) : res TransferError () :=
  expected ← map_err (λ _, EInvalidFileHash) (hash_from_str file_hash);
  match md4_hashset with
  | [] => Ok ()
  | _ => if bool_decide (md4 (concat md4_hashset) = expected) then Ok () else Err EHashsetMismatch
  end.

(** The loop over buffers of 65,536 bytes; [fed] is what the hasher was given. *)
Definition MD4_BUFFER : Z := 65536.
Fixpoint read_md4_loop (fuel : nat) (file fed : list Z) (remaining : Z) : res TransferError (list Z * list Z) :=
  if remaining <=? 0 then Ok (md4 fed, file)
  else
    match fuel with
    | O => Panic
    | S fuel' =>
        '(chunk, file) ← read_exact (Z.min remaining MD4_BUFFER) file;
        read_md4_loop fuel' file (fed ++ chunk) (remaining - Z.min remaining MD4_BUFFER)
    end.
Definition read_md4_digest_from_reader (file : list Z) (size : Z) : res TransferError (list Z * list Z) :=
  read_md4_loop (Z.to_nat (chunk_count_for_size size MD4_BUFFER)) file [] size.

Fixpoint md4_parts_loop (fuel : nat) (file : list Z) (hashes : list (list Z)) (remaining : Z)
    : res TransferError (list (list Z) * list Z) :=
  if remaining <=? 0 then Ok (hashes, file)
  else
    match fuel with
    | O => Panic
    | S fuel' =>
        let part_size := Z.min remaining ED2K_PART_SIZE in
        '(digest, file) ← read_md4_digest_from_reader file part_size;
        md4_parts_loop fuel' file (hashes ++ [digest]) (remaining - part_size)
    end.

Definition build_md4_hashset_from_payload (payload : list Z) (file_size : Z)
    : res TransferError (Ed2kHash * list (list Z)) :=
  if file_size =? 0 then Err EZeroSize
  else if file_size <? ED2K_PART_SIZE then
    '(digest, _) ← read_md4_digest_from_reader payload file_size;
    Ok (digest, [])
  else
    let part_count := chunk_count_for_size file_size ED2K_PART_SIZE in
    '(hashes, file) ← md4_parts_loop (Z.to_nat part_count) payload [] file_size;
    hashes ← (if file_size mod ED2K_PART_SIZE =? 0
              then '(digest, _) ← read_md4_digest_from_reader file 0; Ok (hashes ++ [digest])
              else Ok hashes);
    Ok (md4 (concat hashes), hashes).

(** ** AICH trees *)

Definition sha1_pair (l r : list Z) : list Z := sha1 (l ++ r).

Definition expected_aich_hash_count (file_size : Z) : Z :=
  if file_size <=? ED2K_PART_SIZE then 0
  else default U16_MAX (try_from_u 16 (div_ceil file_size ED2K_PART_SIZE)).

(** The size of the left subtree of a node. *)
Definition left_size (chunk_size size : Z) (is_left_branch : bool) : Z :=
  ((chunk_count_for_size size chunk_size + Z.b2z is_left_branch) / 2) * chunk_size.

Fixpoint build_part_root (fuel : nat) (start size : Z) (is_left_branch : bool) (hashes : list (list Z))
    : res TransferError (list Z) :=
  if size <=? ED2K_PART_SIZE then
    match hashes !! Z.to_nat (start / ED2K_PART_SIZE) with
    | Some h => Ok h
    | None => Err EMissingPart
    end
  else
    match fuel with
    | O => Panic
    | S fuel' =>
        let left_size := left_size ED2K_PART_SIZE size is_left_branch in
        l ← build_part_root fuel' start left_size true hashes;
        r ← build_part_root fuel' (start + left_size) (size - left_size) false hashes;
        Ok (sha1_pair l r)
    end.
Definition reconstruct_aich_root_from_part_hashes (file_size : Z) (hashes : list (list Z)) : res TransferError (list Z) :=
  build_part_root (Z.to_nat (chunk_count_for_size file_size ED2K_PART_SIZE)) 0 file_size true hashes.

Definition validate_aich_hashset (file_size : Z) (aich_hashset : Ed2kAichHashset) : res TransferError () :=
  let expected := expected_aich_hash_count file_size in
  if negb (zlen (part_hashes aich_hashset) =? expected) then Err EAichLength
  else if expected =? 0 then Ok ()
  else
    reconstructed ← reconstruct_aich_root_from_part_hashes file_size (part_hashes aich_hashset);
    if bool_decide (reconstructed = master_hash aich_hashset) then Ok () else Err EAichRoot.

(** The loop over the blocks of a part. *)
Fixpoint read_blocks_loop (fuel : nat) (file : list Z) (hashes : list (list Z)) (remaining : Z)
    : res TransferError (list (list Z) * list Z) :=
  if remaining <=? 0 then Ok (hashes, file)
  else
    match fuel with
    | O => Panic
    | S fuel' =>
        let block_len := Z.min remaining ED2K_EMBLOCK_SIZE in
        '(block, file) ← read_exact block_len file;
        read_blocks_loop fuel' file (hashes ++ [sha1 block]) (remaining - block_len)
    end.
Definition read_aich_block_hashes_from_reader (file : list Z) (size : Z) : res TransferError (list (list Z) * list Z) :=
  read_blocks_loop (Z.to_nat (chunk_count_for_size size ED2K_EMBLOCK_SIZE)) file [] size.

Fixpoint build_aich_block_tree_root (fuel : nat) (size : Z) (is_left_branch : bool) (hashes : list (list Z))
    (block_offset : Z) : res TransferError (list Z) :=
  if size <=? ED2K_EMBLOCK_SIZE then
    match hashes !! Z.to_nat block_offset with
    | Some h => Ok h
    | None => Err EMissingPart
    end
  else
    match fuel with
    | O => Panic
    | S fuel' =>
        let left_size := left_size ED2K_EMBLOCK_SIZE size is_left_branch in
        l ← build_aich_block_tree_root fuel' left_size true hashes block_offset;
        r ← build_aich_block_tree_root fuel' (size - left_size) false hashes
              (block_offset + chunk_count_for_size left_size ED2K_EMBLOCK_SIZE);
        Ok (sha1_pair l r)
    end.

Definition build_aich_part_root_from_reader (file : list Z) (part_size : Z) (is_left_branch : bool)
    : res TransferError (list Z * list Z) :=
  '(block_hashes, file) ← read_aich_block_hashes_from_reader file part_size;
  root ← build_aich_block_tree_root (Z.to_nat (chunk_count_for_size part_size ED2K_EMBLOCK_SIZE))
           part_size is_left_branch block_hashes 0;
  Ok (root, file).

Fixpoint collect_aich_part_hashes_from_reader (fuel : nat) (file : list Z) (size : Z) (is_left_branch : bool)
    (hashes : list (list Z)) : res TransferError (list (list Z) * list Z) :=
  if size <=? ED2K_PART_SIZE then
    '(root, file) ← build_aich_part_root_from_reader file size is_left_branch;
    Ok (hashes ++ [root], file)
  else
    match fuel with
    | O => Panic
    | S fuel' =>
        let left_size := left_size ED2K_PART_SIZE size is_left_branch in
        '(hashes, file) ← collect_aich_part_hashes_from_reader fuel' file left_size true hashes;
        collect_aich_part_hashes_from_reader fuel' file (size - left_size) false hashes
    end.

Definition build_aich_hashset_from_payload (payload : list Z) (file_size : Z) : res TransferError Ed2kAichHashset :=
  if file_size =? 0 then Err EZeroSize
  else if file_size <=? ED2K_PART_SIZE then
    '(root, _) ← build_aich_part_root_from_reader payload file_size true;
    Ok (mkAich root [])
  else
    '(hashes, _) ← collect_aich_part_hashes_from_reader
                     (Z.to_nat (chunk_count_for_size file_size ED2K_PART_SIZE)) payload file_size true [];
    root ← reconstruct_aich_root_from_part_hashes file_size hashes;
    Ok (mkAich root hashes).

(** ** Specification *)

(** [n] bytes of a file from an offset. *)
Definition slice (file : list Z) (start n : Z) : list Z := take (Z.to_nat n) (drop (Z.to_nat start) file).

(** The sizes of the chunks of a file: all full but the last. *)
Definition chunk_at (size chunk i : Z) : Z := Z.min chunk (size - i * chunk).
Definition chunks (file : list Z) (size chunk : Z) : list (list Z) :=
  (λ i, slice file (Z.of_nat i * chunk) (chunk_at size chunk (Z.of_nat i))) <$>
    seq 0 (Z.to_nat (chunk_count_for_size size chunk)).

(** The tree over the chunks of a range: [n] leaves from leaf [i]. A node of
    [n] leaves has [(n + 1) / 2] of them on the left when it is itself a left
    branch, and [n / 2] when it is not. A leaf knows its number and its side. *)
Fixpoint tree_root (leaf : nat → bool → list Z) (fuel : nat) (i n : nat) (is_left : bool) : list Z :=
  match fuel with
  | O => leaf i is_left
  | S fuel' =>
      if (n <=? 1)%nat then leaf i is_left
      else
        let l := Nat.div2 (n + Nat.b2n is_left) in
        sha1_pair (tree_root leaf fuel' i l true) (tree_root leaf fuel' (i + l) (n - l) false)
  end.
Fixpoint tree_sides (fuel : nat) (n : nat) (is_left : bool) : list bool :=
  match fuel with
  | O => [is_left]
  | S fuel' =>
      if (n <=? 1)%nat then [is_left]
      else
        let l := Nat.div2 (n + Nat.b2n is_left) in
        tree_sides fuel' l true ++ tree_sides fuel' (n - l) false
  end.

(** The root of a part is that of the tree of its blocks; the root of a file is
    that of the tree of its parts. *)
Definition part_root (part : list Z) (is_left : bool) : list Z :=
  let blocks := chunks part (zlen part) ED2K_EMBLOCK_SIZE in
  tree_root (λ i _, sha1 (default [] (blocks !! i))) (length blocks) 0 (length blocks) is_left.
Definition aich_root_of (file : list Z) : list Z :=
  let parts := chunks file (zlen file) ED2K_PART_SIZE in
  tree_root (λ i is_left, part_root (default [] (parts !! i)) is_left) (length parts) 0 (length parts) true.
Definition aich_part_hashes_of (file : list Z) : list (list Z) :=
  let parts := chunks file (zlen file) ED2K_PART_SIZE in
  zip_with part_root parts (tree_sides (length parts) (length parts) true).

(** The MD4 hash set of a file: none for a file shorter than a part, which its own
    hash identifies; else the hashes of its parts, and one of the empty part when
    the last one is full. The eD2k hash is the hash of the set. *)
Definition md4_hashset_of (file : list Z) : list (list Z) :=
  if zlen file <? ED2K_PART_SIZE then []
  else (md4 <$> chunks file (zlen file) ED2K_PART_SIZE) ++
       (if zlen file mod ED2K_PART_SIZE =? 0 then [md4 []] else []).
Definition ed2k_hash_of (file : list Z) : list Z :=
  if zlen file <? ED2K_PART_SIZE then md4 file else md4 (concat (md4_hashset_of file)).
(** The files whose hash sets a 16-bit count describes. *)
Definition MAX_PARTS : Z := 65534.

(** ** Lemmas *)

Lemma chunk_count_spec size c : 0 < c → 0 ≤ size →
  let n := chunk_count_for_size size c in 0 ≤ n ∧ (n - 1) * c < size ≤ n * c.
Proof.
  intros Hc Hs. cbn zeta. unfold chunk_count_for_size.
  pose proof (Z.div_mod size c). pose proof (Z.mod_pos_bound size c Hc). pose proof (Z.div_pos size c Hs Hc).
  destruct (Z.eqb_spec (size mod c) 0); cbn [negb Z.b2z]; nia.
Qed.

Lemma chunk_count_unique size c n : 0 < c → 0 ≤ size → (n - 1) * c < size ≤ n * c → chunk_count_for_size size c = n.
Proof. intros Hc Hs Hn. pose proof (chunk_count_spec size c Hc Hs) as H. cbn zeta in H. nia. Qed.

Lemma chunk_count_pred size c : 0 < c → 0 < size →
  chunk_count_for_size (size - Z.min size c) c = chunk_count_for_size size c - 1.
Proof.
  intros Hc Hs. pose proof (chunk_count_spec size c Hc ltac:(lia)) as Hn. cbn zeta in Hn.
  set (n := chunk_count_for_size size c) in *. assert (1 ≤ n) by nia.
  apply chunk_count_unique; [done|lia|]. destruct (Z.min_spec size c) as [[? ->]|[? ->]]; [|lia].
  assert (n = 1) as -> by nia. lia.
Qed.

Lemma div_ceil_chunk_count a b : 0 < b → 0 ≤ a → div_ceil a b = chunk_count_for_size a b.
Proof.
  intros Hb Ha. unfold div_ceil, chunk_count_for_size. pose proof (Z.mod_pos_bound a b Hb).
  destruct (Z.eqb_spec (a mod b) 0), (Z.ltb_spec 0 (a mod b)); cbn; lia.
Qed.

(** The left subtree has whole chunks, at least one and not all. *)
Lemma left_size_spec c size b : 0 < c → c < size →
  let n := chunk_count_for_size size c in
  ∃ l, left_size c size b = l * c ∧ 1 ≤ l < n ∧ l * c < size ∧
    Z.to_nat l = Nat.div2 (Z.to_nat n + Nat.b2n b) ∧
    chunk_count_for_size (l * c) c = l ∧ chunk_count_for_size (size - l * c) c = n - l.
Proof.
  intros Hc Hs. cbn zeta. pose proof (chunk_count_spec size c Hc ltac:(lia)) as Hn. cbn zeta in Hn.
  set (n := chunk_count_for_size size c) in *. assert (2 ≤ n) by nia.
  exists ((n + Z.b2z b) / 2). unfold left_size. fold n.
  assert (Hl : 1 ≤ (n + Z.b2z b) / 2 < n).
  { split; [apply Z.div_le_lower_bound|apply Z.div_lt_upper_bound]; destruct b; cbn; lia. }
  set (l := (n + Z.b2z b) / 2) in *. split; [done|]. split; [done|]. split; [nia|]. split; [|split].
  - rewrite Nat.div2_div. apply Nat2Z.inj. rewrite Nat2Z.inj_div, Z2Nat.id by lia.
    unfold l. f_equal. destruct b; cbn; lia.
  - apply chunk_count_unique; nia.
  - apply chunk_count_unique; nia.
Qed.

Lemma read_exact_ok n file : 0 ≤ n ≤ zlen file →
  read_exact n file = Ok (take (Z.to_nat n) file, drop (Z.to_nat n) file).
Proof. intros Hn. unfold read_exact. by rewrite (proj2 (Z.leb_le n _)) by lia. Qed.

Lemma zlen_drop n (file : list Z) : 0 ≤ n ≤ zlen file → zlen (drop (Z.to_nat n) file) = zlen file - n.
Proof. intros Hn. unfold zlen in *. rewrite length_drop. lia. Qed.

Lemma take_more a b (file : list Z) : 0 ≤ a → 0 ≤ b →
  take (Z.to_nat a) file ++ take (Z.to_nat b) (drop (Z.to_nat a) file) = take (Z.to_nat (a + b)) file.
Proof.
  intros Ha Hb. rewrite Z2Nat.inj_add by lia.
  rewrite <- (take_take_drop file (Z.to_nat a) (Z.to_nat b)). done.
Qed.
Lemma drop_more a b (file : list Z) : 0 ≤ a → 0 ≤ b →
  drop (Z.to_nat b) (drop (Z.to_nat a) file) = drop (Z.to_nat (a + b)) file.
Proof. intros Ha Hb. rewrite drop_drop. f_equal. lia. Qed.

(** Chunks one after the other. *)
Lemma chunks_nil file c : chunks file 0 c = [].
Proof. unfold chunks, chunk_count_for_size. by rewrite Zdiv_0_l, Zmod_0_l. Qed.

Lemma chunks_cons file size c : 0 < c → 0 < size →
  chunks file size c = take (Z.to_nat (Z.min size c)) file ::
    chunks (drop (Z.to_nat (Z.min size c)) file) (size - Z.min size c) c.
Proof.
  intros Hc Hs. pose proof (chunk_count_spec size c Hc ltac:(lia)) as Hn. cbn zeta in Hn. unfold chunks.
  rewrite chunk_count_pred by done. set (n := chunk_count_for_size size c) in *. assert (1 ≤ n) by nia.
  replace (Z.to_nat n) with (S (Z.to_nat (n - 1))) by lia. cbn [seq fmap list_fmap]. f_equal.
  - unfold slice, chunk_at. cbn [Z.of_nat]. rewrite Z.mul_0_l, Z.sub_0_r, Z.min_comm. done.
  - rewrite <- fmap_S_seq, <- list_fmap_compose. apply list_fmap_ext. intros k i [-> Hk]%lookup_seq.
    cbn [Nat.add compose]. assert (Hfull : Z.min size c = c) by nia. rewrite Hfull. unfold slice, chunk_at.
    rewrite drop_more, Nat2Z.inj_succ by nia. do 2 f_equal; [f_equal|]; lia.
Qed.

Lemma length_chunks file size c : length (chunks file size c) = Z.to_nat (chunk_count_for_size size c).
Proof. unfold chunks. by rewrite length_fmap, length_seq. Qed.

Lemma chunks_app file c l size : 0 < c → 0 ≤ l → l * c ≤ size →
  chunks file size c = chunks file (l * c) c ++ chunks (drop (Z.to_nat (l * c)) file) (size - l * c) c.
Proof.
  intros Hc Hl. revert file size. pattern l. apply natlike_ind; [| |done]; clear l Hl.
  - intros file size _. rewrite Z.mul_0_l, chunks_nil, Z.sub_0_r. done.
  - intros l Hl IH file size Hs. rewrite (chunks_cons file size), (chunks_cons file (Z.succ l * c)) by nia.
    rewrite !Z.min_r by nia. cbn [app]. f_equal.
    rewrite (IH _ (size - c)) by nia. replace (Z.succ l * c - c) with (l * c) by lia. f_equal.
    rewrite drop_more by nia. f_equal; [|lia]. f_equal. lia.
Qed.

Lemma chunks_take file size c : 0 < c → 0 ≤ size → chunks (take (Z.to_nat size) file) size c = chunks file size c.
Proof.
  intros Hc Hs. pose proof (chunk_count_spec size c Hc Hs) as Hn. cbn zeta in Hn.
  unfold chunks. apply list_fmap_ext. intros k i [-> Hk]%lookup_seq. unfold slice, chunk_at.
  cbn [Nat.add]. assert (0 ≤ Z.of_nat k * c < size) by nia. set (a := Z.of_nat k * c) in *.
  rewrite (take_drop_commute (take _ _)), take_take, take_drop_commute. do 2 f_equal. lia.
Qed.

(** The readers consume what they hash, and fail on a file that is too short. *)
Lemma read_md4_loop_spec fuel file fed size : 0 ≤ size → chunk_count_for_size size MD4_BUFFER ≤ Z.of_nat fuel →
  read_md4_loop fuel file fed size =
  if size <=? zlen file then Ok (md4 (fed ++ take (Z.to_nat size) file), drop (Z.to_nat size) file) else Err EIo.
Proof.
  revert file fed size. induction fuel as [|fuel IH]; intros file fed size Hs Hf;
    pose proof (chunk_count_spec size MD4_BUFFER eq_refl Hs) as Hn; cbn zeta in Hn; cbn [read_md4_loop];
    destruct (Z.leb_spec size 0).
  1,3: assert (size = 0) as -> by lia; rewrite (proj2 (Z.leb_le 0 _)) by apply zlen_nonneg;
    by rewrite app_nil_r.
  - unfold MD4_BUFFER in *. nia.
  - set (m := Z.min size MD4_BUFFER). assert (Hm : 0 < m ≤ size) by (unfold m, MD4_BUFFER; lia).
    destruct (Z.leb_spec m (zlen file)) as [Hle|Hgt].
    + rewrite read_exact_ok by lia. cbn [mbind res_bind].
      rewrite IH, zlen_drop by (unfold m; rewrite ?chunk_count_pred by done; lia).
      rewrite <- app_assoc, take_more, drop_more by lia. replace (m + (size - m)) with size by lia.
      destruct (Z.leb_spec (size - m) (zlen file - m)), (Z.leb_spec size (zlen file)); try lia; done.
    + unfold read_exact. rewrite (proj2 (Z.leb_gt m _)), (proj2 (Z.leb_gt size _)) by lia. done.
Qed.

Lemma read_md4_spec file size : 0 ≤ size → read_md4_digest_from_reader file size =
  if size <=? zlen file then Ok (md4 (take (Z.to_nat size) file), drop (Z.to_nat size) file) else Err EIo.
Proof.
  intros Hs. pose proof (chunk_count_spec size MD4_BUFFER eq_refl Hs) as Hn. cbn zeta in Hn.
  unfold read_md4_digest_from_reader. rewrite read_md4_loop_spec by lia. done.
Qed.

(** A loop that reads a chunk and hashes it, for as long as bytes remain. *)
Ltac chunk_loop c IH fuel file size :=
  destruct fuel as [|fuel]; pose proof (chunk_count_spec size c eq_refl ltac:(lia)) as Hn; cbn zeta in Hn;
  [unfold c in *; nia|];
  set (m := Z.min size c); assert (Hm : 0 < m ≤ size) by (unfold m, c; lia);
  rewrite (chunks_cons file size) by done; fold m.

Lemma md4_parts_loop_spec fuel file hashes size : 0 ≤ size → chunk_count_for_size size ED2K_PART_SIZE ≤ Z.of_nat fuel →
  md4_parts_loop fuel file hashes size =
  if size <=? zlen file then Ok (hashes ++ (md4 <$> chunks file size ED2K_PART_SIZE), drop (Z.to_nat size) file)
  else Err EIo.
Proof.
  revert file hashes size. induction fuel as [fuel IH] using lt_wf_ind; intros file hashes size Hs Hf.
  destruct (Z.leb_spec size 0).
  { assert (size = 0) as -> by lia. rewrite (proj2 (Z.leb_le 0 _)) by apply zlen_nonneg.
    destruct fuel; cbn; rewrite chunks_nil; by rewrite app_nil_r. }
  chunk_loop ED2K_PART_SIZE IH fuel file size. cbn [md4_parts_loop]. rewrite (proj2 (Z.leb_gt size 0)) by done.
  fold m. rewrite read_md4_spec by lia. destruct (Z.leb_spec m (zlen file)) as [Hle|Hgt]; cbn [mbind res_bind].
  - rewrite IH, zlen_drop by (unfold m; rewrite ?chunk_count_pred by done; lia).
    rewrite drop_more, <- app_assoc by lia. replace (m + (size - m)) with size by lia.
    destruct (Z.leb_spec (size - m) (zlen file - m)), (Z.leb_spec size (zlen file)); try lia; done.
  - by rewrite (proj2 (Z.leb_gt size _)) by lia.
Qed.

Lemma read_blocks_loop_spec fuel file hashes size : 0 ≤ size → chunk_count_for_size size ED2K_EMBLOCK_SIZE ≤ Z.of_nat fuel →
  read_blocks_loop fuel file hashes size =
  if size <=? zlen file then Ok (hashes ++ (sha1 <$> chunks file size ED2K_EMBLOCK_SIZE), drop (Z.to_nat size) file)
  else Err EIo.
Proof.
  revert file hashes size. induction fuel as [fuel IH] using lt_wf_ind; intros file hashes size Hs Hf.
  destruct (Z.leb_spec size 0).
  { assert (size = 0) as -> by lia. rewrite (proj2 (Z.leb_le 0 _)) by apply zlen_nonneg.
    destruct fuel; cbn; rewrite chunks_nil; by rewrite app_nil_r. }
  chunk_loop ED2K_EMBLOCK_SIZE IH fuel file size. cbn [read_blocks_loop]. rewrite (proj2 (Z.leb_gt size 0)) by done.
  fold m. unfold read_exact. destruct (Z.leb_spec m (zlen file)) as [Hle|Hgt]; cbn [mbind res_bind].
  - rewrite IH, zlen_drop by (unfold m; rewrite ?chunk_count_pred by done; lia).
    rewrite drop_more, <- app_assoc by lia. replace (m + (size - m)) with size by lia.
    destruct (Z.leb_spec (size - m) (zlen file - m)), (Z.leb_spec size (zlen file)); try lia; done.
  - by rewrite (proj2 (Z.leb_gt size _)) by lia.
Qed.

(** The tree recursion: the code's split by size is the split by number of leaves. *)
Lemma length_tree_sides fuel n b : (1 ≤ n ≤ fuel)%nat → length (tree_sides fuel n b) = n.
Proof.
  revert n b. induction fuel as [|fuel IH]; intros n b Hn; [lia|]. cbn [tree_sides].
  destruct (Nat.leb_spec n 1); [cbn; lia|].
  assert (1 ≤ Nat.div2 (n + Nat.b2n b) < n)%nat.
  { rewrite Nat.div2_div. split; [apply Nat.div_le_lower_bound|apply Nat.Div0.div_lt_upper_bound]; destruct b; cbn; lia. }
  rewrite length_app, !IH by lia. lia.
Qed.

(** The leaves of a node are those of its left branch and then those of its right. *)
Definition has_leaves (hashes : list (list Z)) (leaf : nat → bool → list Z) (i : nat) (sides : list bool) : Prop :=
  ∀ k s, sides !! k = Some s → hashes !! (i + k)%nat = Some (leaf (i + k)%nat s).

Lemma has_leaves_app hashes leaf i s1 s2 : has_leaves hashes leaf i (s1 ++ s2) ↔
  has_leaves hashes leaf i s1 ∧ has_leaves hashes leaf (i + length s1) s2.
Proof.
  unfold has_leaves. split.
  - intros H. split; intros k s Hk.
    + apply H. by apply lookup_app_l_Some.
    + rewrite <- Nat.add_assoc. apply H. rewrite lookup_app_r by lia. rewrite <- Hk. f_equal. lia.
  - intros [H1 H2] k s [Hk|[Hle Hk]]%lookup_app_Some; [by apply H1|].
    specialize (H2 _ _ Hk). replace (i + k)%nat with (i + length s1 + (k - length s1))%nat by lia. done.
Qed.

Lemma single_chunk c size : 0 < c → 0 < size ≤ c → Z.to_nat (chunk_count_for_size size c) = 1%nat.
Proof. intros Hc Hs. rewrite (chunk_count_unique size c 1) by lia. done. Qed.

Lemma part_root_tree fuel i size b hashes leaf :
  let n := Z.to_nat (chunk_count_for_size size ED2K_PART_SIZE) in
  0 < size → (n ≤ fuel)%nat → has_leaves hashes leaf i (tree_sides fuel n b) →
  build_part_root fuel (Z.of_nat i * ED2K_PART_SIZE) size b hashes = Ok (tree_root leaf fuel i n b).
Proof.
  cbn zeta. revert i size b. induction fuel as [|fuel IH]; intros i size b Hs Hf Hl;
    pose proof (chunk_count_spec size ED2K_PART_SIZE eq_refl ltac:(lia)) as Hn; cbn zeta in Hn;
    [unfold ED2K_PART_SIZE in *; lia|].
  cbn [build_part_root tree_root tree_sides] in *. destruct (Z.leb_spec size ED2K_PART_SIZE) as [Hle|Hgt].
  - rewrite (single_chunk ED2K_PART_SIZE size) in * by (done || lia). cbn [Nat.leb] in *.
    rewrite Z.div_mul, Nat2Z.id by done. specialize (Hl 0%nat b eq_refl). rewrite Nat.add_0_r in Hl. by rewrite Hl.
  - destruct (left_size_spec ED2K_PART_SIZE size b eq_refl Hgt) as (l & -> & Hl1 & Hl2 & Hln & Hcl & Hcr).
    set (n := Z.to_nat (chunk_count_for_size size ED2K_PART_SIZE)) in *.
    destruct (Nat.leb_spec n 1); [lia|]. rewrite <- Hln in *.
    apply has_leaves_app in Hl as [HL HR]. rewrite length_tree_sides in HR by lia.
    replace (n - Z.to_nat l)%nat with (Z.to_nat (chunk_count_for_size (size - l * ED2K_PART_SIZE) ED2K_PART_SIZE)) in * by lia.
    assert (HL' := IH i (l * ED2K_PART_SIZE) true). rewrite Hcl in HL'. rewrite HL' by (done || nia). cbn [mbind res_bind].
    replace (Z.of_nat i * ED2K_PART_SIZE + l * ED2K_PART_SIZE) with (Z.of_nat (i + Z.to_nat l) * ED2K_PART_SIZE)
      by (rewrite Nat2Z.inj_add, Z2Nat.id; lia).
    rewrite IH by (done || lia). done.
Qed.

Lemma block_root_tree fuel i size b hashes leaf :
  let n := Z.to_nat (chunk_count_for_size size ED2K_EMBLOCK_SIZE) in
  0 < size → (n ≤ fuel)%nat → has_leaves hashes leaf i (tree_sides fuel n b) →
  build_aich_block_tree_root fuel size b hashes (Z.of_nat i) = Ok (tree_root leaf fuel i n b).
Proof.
  cbn zeta. revert i size b. induction fuel as [|fuel IH]; intros i size b Hs Hf Hl;
    pose proof (chunk_count_spec size ED2K_EMBLOCK_SIZE eq_refl ltac:(lia)) as Hn; cbn zeta in Hn;
    [unfold ED2K_EMBLOCK_SIZE in *; lia|].
  cbn [build_aich_block_tree_root tree_root tree_sides] in *. destruct (Z.leb_spec size ED2K_EMBLOCK_SIZE) as [Hle|Hgt].
  - rewrite (single_chunk ED2K_EMBLOCK_SIZE size) in * by (done || lia). cbn [Nat.leb] in *.
    rewrite Nat2Z.id. specialize (Hl 0%nat b eq_refl). rewrite Nat.add_0_r in Hl. by rewrite Hl.
  - destruct (left_size_spec ED2K_EMBLOCK_SIZE size b eq_refl Hgt) as (l & -> & Hl1 & Hl2 & Hln & Hcl & Hcr).
    set (n := Z.to_nat (chunk_count_for_size size ED2K_EMBLOCK_SIZE)) in *.
    destruct (Nat.leb_spec n 1); [lia|]. rewrite <- Hln in *.
    apply has_leaves_app in Hl as [HL HR]. rewrite length_tree_sides in HR by lia.
    replace (n - Z.to_nat l)%nat with (Z.to_nat (chunk_count_for_size (size - l * ED2K_EMBLOCK_SIZE) ED2K_EMBLOCK_SIZE)) in * by lia.
    assert (HL' := IH i (l * ED2K_EMBLOCK_SIZE) true). rewrite Hcl in *. rewrite HL' by (done || nia). cbn [mbind res_bind].
    replace (Z.of_nat i + l) with (Z.of_nat (i + Z.to_nat l)) by lia.
    rewrite IH by (done || lia). done.
Qed.

(** The recursion never runs out of fuel. *)
Lemma part_root_fuel fuel start size b hashes : 0 < size →
  chunk_count_for_size size ED2K_PART_SIZE ≤ Z.of_nat fuel → build_part_root fuel start size b hashes ≠ Panic.
Proof.
  revert start size b. induction fuel as [|fuel IH]; intros start size b Hs Hf;
    pose proof (chunk_count_spec size ED2K_PART_SIZE eq_refl ltac:(lia)) as Hn; cbn zeta in Hn;
    [unfold ED2K_PART_SIZE in *; lia|].
  cbn [build_part_root]. destruct (Z.leb_spec size ED2K_PART_SIZE) as [Hle|Hgt]; [by destruct (_ !! _)|].
  destruct (left_size_spec ED2K_PART_SIZE size b eq_refl Hgt) as (l & -> & Hl1 & Hl2 & Hln & Hcl & Hcr).
  assert (HL := IH start (l * ED2K_PART_SIZE) true). rewrite Hcl in HL.
  destruct (build_part_root fuel start _ _ _); [|done|by destruct HL; [unfold ED2K_PART_SIZE; lia..|]].
  cbn [mbind res_bind]. assert (HR := IH (start + l * ED2K_PART_SIZE) (size - l * ED2K_PART_SIZE) false). rewrite Hcr in HR.
  destruct (build_part_root fuel (start + _) _ _ _); [done|done|destruct HR; lia || done].
Qed.
Lemma validate_aich_fuel size h : 0 ≤ size → validate_aich_hashset size h ≠ Panic.
Proof.
  intros Hs. unfold validate_aich_hashset. destruct (negb _); [done|].
  destruct (Z.eqb_spec (expected_aich_hash_count size) 0) as [|Hne]; [done|].
  assert (0 < size) by (destruct (Z.eq_dec size 0) as [->|]; [done|lia]).
  pose proof (chunk_count_spec size ED2K_PART_SIZE eq_refl ltac:(lia)) as Hn. cbn zeta in Hn.
  assert (Hr : reconstruct_aich_root_from_part_hashes size (part_hashes h) ≠ Panic) by (apply part_root_fuel; lia).
  destruct (reconstruct_aich_root_from_part_hashes size (part_hashes h)); [cbn; by case_bool_decide|done|done].
Qed.

Lemma zlen_take_le n (file : list Z) : 0 ≤ n ≤ zlen file → zlen (take (Z.to_nat n) file) = n.
Proof. intros Hn. unfold zlen in *. rewrite length_take. lia. Qed.

Lemma part_root_spec file size b : 0 < size → build_aich_part_root_from_reader file size b =
  if size <=? zlen file then Ok (part_root (take (Z.to_nat size) file) b, drop (Z.to_nat size) file) else Err EIo.
Proof.
  intros Hs. unfold build_aich_part_root_from_reader, read_aich_block_hashes_from_reader.
  pose proof (chunk_count_spec size ED2K_EMBLOCK_SIZE eq_refl ltac:(lia)) as Hn. cbn zeta in Hn.
  rewrite read_blocks_loop_spec by lia. destruct (Z.leb_spec size (zlen file)) as [Hle|]; [|done]. cbn [mbind res_bind app].
  set (n := Z.to_nat (chunk_count_for_size size ED2K_EMBLOCK_SIZE)) in *.
  assert (Hb : chunks (take (Z.to_nat size) file) (zlen (take (Z.to_nat size) file)) ED2K_EMBLOCK_SIZE =
    chunks file size ED2K_EMBLOCK_SIZE) by (rewrite zlen_take_le, chunks_take by lia; done).
  unfold part_root. rewrite Hb, length_chunks. fold n.
  rewrite (block_root_tree n 0 size b _ (λ i _, sha1 (default [] (chunks file size ED2K_EMBLOCK_SIZE !! i)))); [done|done|lia|].
  intros k s Hk. fold n in Hk. apply lookup_lt_Some in Hk. rewrite length_tree_sides in Hk by (unfold n, ED2K_EMBLOCK_SIZE in *; lia).
  rewrite list_lookup_fmap. cbn [Nat.add].
  destruct (lookup_lt_is_Some_2 (chunks file size ED2K_EMBLOCK_SIZE) k) as [x Hx]; [by rewrite length_chunks|].
  by rewrite Hx.
Qed.

Lemma collect_spec fuel file size b hashes :
  let n := Z.to_nat (chunk_count_for_size size ED2K_PART_SIZE) in
  0 < size → (n ≤ fuel)%nat →
  collect_aich_part_hashes_from_reader fuel file size b hashes =
  if size <=? zlen file
  then Ok (hashes ++ zip_with part_root (chunks file size ED2K_PART_SIZE) (tree_sides fuel n b), drop (Z.to_nat size) file)
  else Err EIo.
Proof.
  cbn zeta. revert file size b hashes. induction fuel as [|fuel IH]; intros file size b hashes Hs Hf;
    pose proof (chunk_count_spec size ED2K_PART_SIZE eq_refl ltac:(lia)) as Hn; cbn zeta in Hn;
    [unfold ED2K_PART_SIZE in *; lia|].
  cbn [collect_aich_part_hashes_from_reader tree_sides]. destruct (Z.leb_spec size ED2K_PART_SIZE) as [Hle|Hgt].
  - rewrite (single_chunk ED2K_PART_SIZE size) by (done || lia). cbn [Nat.leb].
    rewrite part_root_spec by done. destruct (size <=? zlen file); [|done]. cbn [mbind res_bind].
    rewrite chunks_cons, Z.min_l, Z.sub_diag, chunks_nil by (done || lia). done.
  - destruct (left_size_spec ED2K_PART_SIZE size b eq_refl Hgt) as (l & -> & Hl1 & Hl2 & Hln & Hcl & Hcr).
    set (n := Z.to_nat (chunk_count_for_size size ED2K_PART_SIZE)) in *.
    destruct (Nat.leb_spec n 1); [lia|]. rewrite <- Hln. assert (0 < l * ED2K_PART_SIZE) by (unfold ED2K_PART_SIZE; lia).
    rewrite IH by lia. rewrite Hcl.
    replace (n - Z.to_nat l)%nat with (Z.to_nat (chunk_count_for_size (size - l * ED2K_PART_SIZE) ED2K_PART_SIZE)) by lia.
    destruct (Z.leb_spec (l * ED2K_PART_SIZE) (zlen file)), (Z.leb_spec size (zlen file)); try lia; cbn [mbind res_bind].
    + rewrite IH, zlen_drop, drop_more by lia. rewrite (proj2 (Z.leb_le _ _)) by lia.
      rewrite (chunks_app file ED2K_PART_SIZE l size), zip_with_app by
        (done || lia || (rewrite length_chunks, length_tree_sides by lia; lia)).
      rewrite app_assoc. do 3 f_equal. lia.
    + rewrite IH, zlen_drop by lia. by rewrite (proj2 (Z.leb_gt _ _)) by lia.
    + done.
Qed.

Lemma collected_root size hashes (parts : list (list Z)) :
  let n := Z.to_nat (chunk_count_for_size size ED2K_PART_SIZE) in
  0 < size → length parts = n → hashes = zip_with part_root parts (tree_sides n n true) →
  reconstruct_aich_root_from_part_hashes size hashes =
    Ok (tree_root (λ i b, part_root (default [] (parts !! i)) b) n 0 n true).
Proof.
  cbn zeta. intros Hs Hlen ->. apply (part_root_tree _ 0 size true); [done|lia|].
  intros k s Hk. cbn [Nat.add]. pose proof (lookup_lt_Some _ _ _ Hk) as Hlt.
  pose proof (chunk_count_spec size ED2K_PART_SIZE eq_refl ltac:(lia)) as Hn. cbn zeta in Hn.
  rewrite length_tree_sides in Hlt by (unfold ED2K_PART_SIZE in *; lia).
  destruct (lookup_lt_is_Some_2 parts k) as [x Hx]; [lia|].
  rewrite lookup_zip_with, Hx. cbn. by rewrite Hk.
Qed.

Lemma aich_hashset_spec payload size : 0 < size →
  build_aich_hashset_from_payload payload size =
  if size <=? zlen payload then
    let file := take (Z.to_nat size) payload in
    Ok (mkAich (aich_root_of file) (if size <=? ED2K_PART_SIZE then [] else aich_part_hashes_of file))
  else Err EIo.
Proof.
  intros Hs. unfold build_aich_hashset_from_payload. rewrite (proj2 (Z.eqb_neq size 0)) by lia.
  pose proof (chunk_count_spec size ED2K_PART_SIZE eq_refl ltac:(lia)) as Hn. cbn zeta in Hn.
  set (file := take (Z.to_nat size) payload).
  assert (Hlen : size ≤ zlen payload → chunks file (zlen file) ED2K_PART_SIZE = chunks payload size ED2K_PART_SIZE).
  { intros. unfold file. rewrite zlen_take_le, chunks_take by lia. done. }
  destruct (Z.leb_spec size ED2K_PART_SIZE) as [Hle|Hgt].
  - rewrite part_root_spec by done. destruct (Z.leb_spec size (zlen payload)); [|done]. cbn [mbind res_bind].
    unfold aich_root_of. rewrite Hlen, length_chunks, single_chunk, chunks_cons by (done || lia).
    rewrite Z.min_l by lia. done.
  - rewrite collect_spec by lia. destruct (Z.leb_spec size (zlen payload)); [|done]. cbn [mbind res_bind app].
    rewrite (collected_root size _ (chunks payload size ED2K_PART_SIZE)) by (done || apply length_chunks).
    cbn [mbind res_bind]. unfold aich_root_of, aich_part_hashes_of. rewrite Hlen, !length_chunks by lia. done.
Qed.

Lemma expected_aich_count size : 0 < size ≤ 65535 * ED2K_PART_SIZE →
  expected_aich_hash_count size =
    if size <=? ED2K_PART_SIZE then 0 else chunk_count_for_size size ED2K_PART_SIZE.
Proof.
  intros Hs. pose proof (chunk_count_spec size ED2K_PART_SIZE eq_refl ltac:(lia)) as Hn. cbn zeta in Hn.
  unfold expected_aich_hash_count. destruct (size <=? ED2K_PART_SIZE); [done|].
  rewrite div_ceil_chunk_count, try_from_u_fits; [done|..|done|lia]. apply is_u_spec.
  change (2 ^ 16) with 65536. unfold ED2K_PART_SIZE in *. lia.
Qed.

Lemma md4_hashset_spec payload size : 0 < size →
  build_md4_hashset_from_payload payload size =
  if size <=? zlen payload then
    let file := take (Z.to_nat size) payload in Ok (ed2k_hash_of file, md4_hashset_of file)
  else Err EIo.
Proof.
  intros Hs. unfold build_md4_hashset_from_payload. rewrite (proj2 (Z.eqb_neq size 0)) by lia.
  unfold ed2k_hash_of, md4_hashset_of. set (file := take (Z.to_nat size) payload).
  assert (Hlen : size ≤ zlen payload → zlen file = size) by (intros; apply zlen_take_le; lia).
  destruct (Z.ltb_spec size ED2K_PART_SIZE) as [Hlt|Hge].
  - rewrite read_md4_spec by lia. destruct (Z.leb_spec size (zlen payload)) as [Hle|]; [|done]. cbn [mbind res_bind].
    rewrite Hlen, (proj2 (Z.ltb_lt size _)) by done. done.
  - rewrite md4_parts_loop_spec by lia. destruct (Z.leb_spec size (zlen payload)) as [Hle|]; [|done]. cbn [mbind res_bind app].
    rewrite Hlen, (proj2 (Z.ltb_ge size _)) by done. unfold file. rewrite chunks_take by (done || lia).
    destruct (size mod ED2K_PART_SIZE =? 0); [|by rewrite app_nil_r].
    rewrite read_md4_spec, (proj2 (Z.leb_le 0 _)) by (lia || apply zlen_nonneg). done.
Qed.

Lemma md4_hashset_length file : 0 < zlen file < (MAX_PARTS + 1) * ED2K_PART_SIZE →
  zlen (md4_hashset_of file) = expected_md4_hash_count (zlen file).
Proof.
  intros Hs. pose proof (chunk_count_spec (zlen file) ED2K_PART_SIZE eq_refl ltac:(lia)) as Hn. cbn zeta in Hn.
  set (n := zlen file) in *. unfold expected_md4_hash_count. rewrite (proj2 (Z.eqb_neq n 0)) by lia.
  pose proof (Z.div_mod n ED2K_PART_SIZE ltac:(done)) as Hd. pose proof (Z.mod_pos_bound n ED2K_PART_SIZE eq_refl) as Hm.
  unfold md4_hashset_of. fold n. destruct (Z.ltb_spec n ED2K_PART_SIZE) as [Hlt|Hge].
  { rewrite Z.div_small by lia. done. }
  rewrite zlen_app. unfold zlen at 1. rewrite length_fmap, length_chunks, Z2Nat.id by lia.
  assert (0 < n / ED2K_PART_SIZE) by (apply Z.div_str_pos; unfold ED2K_PART_SIZE in *; lia).
  rewrite (proj2 (Z.ltb_lt 0 _)) by done. cbn [Z.b2z].
  rewrite try_from_u_fits.
  2:{ apply is_u_spec. change (2 ^ 16) with 65536. unfold MAX_PARTS, ED2K_PART_SIZE in *. lia. }
  cbn [default]. unfold chunk_count_for_size. destruct (Z.eqb_spec (n mod ED2K_PART_SIZE) 0); cbn [negb Z.b2z];
    unfold id, zlen; cbn [length]; lia.
Qed.

Lemma md4_hashset_valid file : wf_Ed2kHash (ed2k_hash_of file) = true →
  validate_md4_hashset (hash_display (ed2k_hash_of file)) (md4_hashset_of file) = Ok ().
Proof.
  intros Hw. unfold validate_md4_hashset. rewrite hash_from_str_display by done. cbn [map_err mbind res_bind].
  unfold ed2k_hash_of, md4_hashset_of. destruct (zlen file <? ED2K_PART_SIZE); [done|].
  destruct (_ ++ _); [done|]. by rewrite bool_decide_eq_true_2.
Qed.

End hashes.

(** ** Properties *)

(** The AICH hash set of a payload is that of its bytes: building it terminates,
    fails exactly on a payload that is too short, and gives the root of the tree over
    the parts of the file, whose leaves are the roots of the trees over their blocks,
    with those leaves when there are several parts. For every size that a 16-bit count
    of parts describes, the set built is accepted, and a set of several parts is
    accepted only when it has a hash for each part and its root is the tree's. *)
Lemma aich_tree_correct sha1 payload size : 0 < size ≤ 65535 * ED2K_PART_SIZE →
  let n := Z.to_nat (chunk_count_for_size size ED2K_PART_SIZE) in
  let file := take (Z.to_nat size) payload in
  build_aich_hashset_from_payload sha1 payload size =
    (if size <=? zlen payload
     then Ok (mkAich (aich_root_of sha1 file)
                (if size <=? ED2K_PART_SIZE then [] else aich_part_hashes_of sha1 file))
     else Err EIo) ∧
  (∀ h, build_aich_hashset_from_payload sha1 payload size = Ok h → validate_aich_hashset sha1 size h = Ok ()) ∧
  (∀ h, ED2K_PART_SIZE < size → validate_aich_hashset sha1 size h = Ok () →
     length (part_hashes h) = n ∧
     master_hash h = tree_root sha1 (λ i _, default [] (part_hashes h !! i)) n 0 n true).
Proof.
  intros Hs n file. pose proof (chunk_count_spec size ED2K_PART_SIZE eq_refl ltac:(lia)) as Hn. cbn zeta in Hn.
  rewrite aich_hashset_spec by lia. fold file. split; [done|]. split.
  - intros h Hh. destruct (Z.leb_spec size (zlen payload)) as [Hle|]; [|done]. injection Hh as <-.
    unfold validate_aich_hashset. rewrite expected_aich_count by done. cbn [part_hashes master_hash].
    destruct (Z.leb_spec size ED2K_PART_SIZE) as [|Hgt]; [done|].
    assert (Hf : chunks file (zlen file) ED2K_PART_SIZE = chunks payload size ED2K_PART_SIZE)
      by (unfold file; rewrite zlen_take_le, chunks_take by lia; done).
    assert (Hlen : zlen (aich_part_hashes_of sha1 file) = chunk_count_for_size size ED2K_PART_SIZE).
    { unfold zlen, aich_part_hashes_of. rewrite Hf, length_zip_with, length_chunks, length_tree_sides
        by (unfold ED2K_PART_SIZE in *; lia). lia. }
    rewrite Hlen, Z.eqb_refl. cbn [negb]. rewrite (proj2 (Z.eqb_neq _ 0)) by (unfold ED2K_PART_SIZE in *; lia).
    rewrite (collected_root sha1 size _ (chunks payload size ED2K_PART_SIZE));
      [|lia|apply length_chunks|unfold aich_part_hashes_of; by rewrite Hf, length_chunks].
    cbn [mbind res_bind]. unfold aich_root_of. rewrite Hf, length_chunks. by rewrite bool_decide_eq_true_2.
  - intros h Hgt. unfold validate_aich_hashset. rewrite expected_aich_count, (proj2 (Z.leb_gt size _)) by done.
    destruct (Z.eqb_spec (zlen (part_hashes h)) (chunk_count_for_size size ED2K_PART_SIZE)) as [Hl|]; [|done].
    assert (Hl' : length (part_hashes h) = n) by (unfold zlen, n in *; lia).
    cbn [negb]. rewrite (proj2 (Z.eqb_neq _ 0)) by (unfold ED2K_PART_SIZE in *; lia).
    unfold reconstruct_aich_root_from_part_hashes.
    rewrite (part_root_tree sha1 _ 0 size true _ (λ i _, default [] (part_hashes h !! i))); [|lia|done|].
    + cbn [mbind res_bind]. case_bool_decide as Hr; [|done]. done.
    + intros k s Hk%lookup_lt_Some. fold n in Hk. rewrite length_tree_sides in Hk by (unfold n, ED2K_PART_SIZE in *; lia).
      cbn [Nat.add]. destruct (lookup_lt_is_Some_2 (part_hashes h) k) as [x Hx]; [lia|]. by rewrite Hx.
Qed.
