(* ===== verification/Transfer.v ===== *)
(** * The transfer store

    Models [overlord-agent-emule/src/ed2k_transfer/]: the manifests of downloads
    ([model.rs], [manifest.rs], [store.rs], [metadata.rs]), the pieces and their
    payload files ([piece_store.rs], [ingest.rs]), the catalog of shared files
    ([catalog.rs], [shared_catalog.rs]) and the small tables of the runtime
    ([callback.rs], [ed2k_transfer.rs]).

    The operations run in a monad over the runtime and the disk. Every access to
    the disk may fail, as the list [w_faults] says: a write that fails may have
    written a part of its bytes. Each operation holds the lock of the manifests, so
    it is one step. A time is an argument, one reading for each operation. A
    [String] is the list of its UTF-8 bytes; the directory of a transfer is
    named by its hash. [serde_json] reads back the manifest it wrote, so the
    file of a manifest holds one or is malformed. A write handed to the file has
    reached it before the next operation. MD4, SHA-1 and the [hex] crate are
    parameters, and so is [str::trim]. All sums of offsets stay below [2^64]
    (the bounds are in [piece_ok]), so they are sums of integers. *)

From S2P Require Import Prelude Net NodeId Hashset.

(** ** Data *)

Record Ed2kTransferJob : Type := mkJob {
  tj_file_hash : list Z;
  tj_canonical_name : list Z;
  tj_file_size : Z;
  tj_piece_size : Z;
}.
Inductive Ed2kTransferState : Type := Missing | Requested | Written | Verified.
Record Ed2kClaimedPart : Type := mkClaim { cp_piece_index : Z; cp_bytes_written : Z }.
Record Ed2kPieceState : Type := mkPiece {
  piece_index : Z;
  state : Ed2kTransferState;
  bytes_written : Z;
}.
Record Ed2kSourceHint : Type := mkHint { sh_ip : list Z; sh_tcp_port : Z; sh_user_hash : option (list Z) }.
Record Ed2kCallbackIntent : Type := mkIntent {
  ci_client_id : Z;
  ci_file_hash : list Z;
  ci_canonical_name : list Z;
  ci_file_size : Z;
  ci_source : Ed2kSourceHint;
}.
Record Ed2kSharedRange : Type := mkRange { rg_start : Z; rg_end : Z }.
Record Ed2kResumeManifest : Type := mkManifest {
  file_hash : list Z;
  canonical_name : list Z;
  file_size : Z;
  piece_size : Z;
  completed : bool;
  md4_hashset_acquired : bool;
  md4_hashset : list (list Z);
  aich_hashset_acquired : bool;
  aich_root : option (list Z);
  aich_hashset : list (list Z);
  verified_ranges : list Ed2kSharedRange;
  pieces : list Ed2kPieceState;
  sources : list Ed2kSourceHint;
}.
Record Ed2kSharedEntry : Type := mkEntry {
  se_file_hash : list Z;
  se_canonical_name : list Z;
  se_file_size : Z;
  se_verified_complete : bool;
  se_verified_ranges : list Ed2kSharedRange;
  se_compatibility_hint : bool;
  se_source_count_hint : option Z;
  se_aich_root : option (list Z);
}.
(** [PopularHash] of the agent's interface; its only hash type is eD2k. *)
Record PopularHash : Type := mkPopular { ph_hash : list Z; ph_canonical_name : list Z; ph_size : Z; ph_source_count : Z }.
Record Ed2kManifestCheckpointState : Type := mkCheckpoint { persisted_bytes_written : Z; last_persisted_at : Z }.
Record SourceExchangeRequestKey : Type := mkExchangeKey {
  xk_file_hash : list Z;
  xk_peer_addr : SocketAddr;
  xk_user_hash : option (list Z);
}.

#[export] Instance Ed2kTransferState_eq_dec : EqDecision Ed2kTransferState.
Proof. solve_decision. Defined.
#[export] Instance Ed2kSourceHint_eq_dec : EqDecision Ed2kSourceHint.
Proof. solve_decision. Defined.
#[export] Instance Ed2kCallbackIntent_eq_dec : EqDecision Ed2kCallbackIntent.
Proof. solve_decision. Defined.
#[export] Instance SourceExchangeRequestKey_eq_dec : EqDecision SourceExchangeRequestKey.
Proof. solve_decision. Defined.
#[export] Instance SourceExchangeRequestKey_countable : Countable SourceExchangeRequestKey.
Proof.
  refine (inj_countable' (λ k, (xk_file_hash k, xk_peer_addr k, xk_user_hash k))
    (λ '(h, a, u), mkExchangeKey h a u) _). by intros [].
Defined.

(** The runtime's tables and the disk: a manifest file is malformed when it is [None]. *)
Record world : Type := mkWorld {
  w_catalog : list Ed2kSharedEntry;
  w_intents : list Ed2kCallbackIntent;
  w_cache : gmap (list Z) Ed2kResumeManifest;
  w_checkpoint : gmap (list Z) Ed2kManifestCheckpointState;
  w_exchange : gmap SourceExchangeRequestKey Z;
  w_manifests : gmap (list Z) (option Ed2kResumeManifest);
  w_payloads : gmap (list Z) (list Z);
  w_faults : list (option Z);
}.

(** *** Functional updates *)

Definition set_piece (s : Ed2kTransferState) (n : Z) (p : Ed2kPieceState) : Ed2kPieceState :=
  mkPiece (piece_index p) s n.
Definition set_pieces (l : list Ed2kPieceState) (m : Ed2kResumeManifest) : Ed2kResumeManifest :=
  mkManifest (file_hash m) (canonical_name m) (file_size m) (piece_size m) (completed m) (md4_hashset_acquired m)
    (md4_hashset m) (aich_hashset_acquired m) (aich_root m) (aich_hashset m) (verified_ranges m) l (sources m).
Definition set_verified (ranges : list Ed2kSharedRange) (done : bool) (m : Ed2kResumeManifest) : Ed2kResumeManifest :=
  mkManifest (file_hash m) (canonical_name m) (file_size m) (piece_size m) done (md4_hashset_acquired m)
    (md4_hashset m) (aich_hashset_acquired m) (aich_root m) (aich_hashset m) ranges (pieces m) (sources m).
Definition set_md4 (l : list (list Z)) (m : Ed2kResumeManifest) : Ed2kResumeManifest :=
  mkManifest (file_hash m) (canonical_name m) (file_size m) (piece_size m) (completed m) true
    l (aich_hashset_acquired m) (aich_root m) (aich_hashset m) (verified_ranges m) (pieces m) (sources m).
Definition set_aich (acquired : bool) (root : option (list Z)) (l : list (list Z)) (m : Ed2kResumeManifest)
    : Ed2kResumeManifest :=
  mkManifest (file_hash m) (canonical_name m) (file_size m) (piece_size m) (completed m) (md4_hashset_acquired m)
    (md4_hashset m) acquired root l (verified_ranges m) (pieces m) (sources m).
Definition set_name (n : list Z) (m : Ed2kResumeManifest) : Ed2kResumeManifest :=
  mkManifest (file_hash m) n (file_size m) (piece_size m) (completed m) (md4_hashset_acquired m)
    (md4_hashset m) (aich_hashset_acquired m) (aich_root m) (aich_hashset m) (verified_ranges m) (pieces m) (sources m).
Definition set_size (n : Z) (l : list Ed2kPieceState) (m : Ed2kResumeManifest) : Ed2kResumeManifest :=
  mkManifest (file_hash m) (canonical_name m) n (piece_size m) (completed m) (md4_hashset_acquired m)
    (md4_hashset m) (aich_hashset_acquired m) (aich_root m) (aich_hashset m) (verified_ranges m) l (sources m).
Definition set_sources (l : list Ed2kSourceHint) (m : Ed2kResumeManifest) : Ed2kResumeManifest :=
  mkManifest (file_hash m) (canonical_name m) (file_size m) (piece_size m) (completed m) (md4_hashset_acquired m)
    (md4_hashset m) (aich_hashset_acquired m) (aich_root m) (aich_hashset m) (verified_ranges m) (pieces m) l.

Definition set_catalog (l : list Ed2kSharedEntry) (w : world) : world :=
  mkWorld l (w_intents w) (w_cache w) (w_checkpoint w) (w_exchange w) (w_manifests w) (w_payloads w) (w_faults w).
Definition set_intents (l : list Ed2kCallbackIntent) (w : world) : world :=
  mkWorld (w_catalog w) l (w_cache w) (w_checkpoint w) (w_exchange w) (w_manifests w) (w_payloads w) (w_faults w).
Definition set_cache (c : gmap (list Z) Ed2kResumeManifest) (w : world) : world :=
  mkWorld (w_catalog w) (w_intents w) c (w_checkpoint w) (w_exchange w) (w_manifests w) (w_payloads w) (w_faults w).
Definition set_checkpoint (c : gmap (list Z) Ed2kManifestCheckpointState) (w : world) : world :=
  mkWorld (w_catalog w) (w_intents w) (w_cache w) c (w_exchange w) (w_manifests w) (w_payloads w) (w_faults w).
Definition set_exchange (c : gmap SourceExchangeRequestKey Z) (w : world) : world :=
  mkWorld (w_catalog w) (w_intents w) (w_cache w) (w_checkpoint w) c (w_manifests w) (w_payloads w) (w_faults w).
Definition set_manifests (c : gmap (list Z) (option Ed2kResumeManifest)) (w : world) : world :=
  mkWorld (w_catalog w) (w_intents w) (w_cache w) (w_checkpoint w) (w_exchange w) c (w_payloads w) (w_faults w).
Definition set_payloads (c : gmap (list Z) (list Z)) (w : world) : world :=
  mkWorld (w_catalog w) (w_intents w) (w_cache w) (w_checkpoint w) (w_exchange w) (w_manifests w) c (w_faults w).
Definition set_faults (l : list (option Z)) (w : world) : world :=
  mkWorld (w_catalog w) (w_intents w) (w_cache w) (w_checkpoint w) (w_exchange w) (w_manifests w) (w_payloads w) l.

(** ** The monad of the store *)

Definition TM (A : Type) : Type := world → world * res TransferError A.
#[export] Instance tm_ret : MRet TM := λ A a w, (w, Ok a).
#[export] Instance tm_bind : MBind TM := λ A B k m w,
  match m w with
  | (w', Ok a) => k a w'
  | (w', Err e) => (w', Err e)
  | (w', Panic) => (w', Panic)
  end.
Definition lift {A} (r : res TransferError A) : TM A := λ w, (w, r).
Definition fail {A} (e : TransferError) : TM A := lift (Err e).
Definition get : TM world := λ w, (w, Ok w).
Definition modify (f : world → world) : TM () := λ w, (f w, Ok ()).

(** An access to the disk: [None] when it succeeds, and else how much it wrote. *)
Definition io : TM (option Z) := λ w,
  match w_faults w with
  | [] => (w, Ok None)
  | f :: faults => (set_faults faults w, Ok f)
  end.
Definition io_step : TM () := f ← io; match f with None => mret () | Some _ => fail EIo end.

(** Writing [data] at an offset of a file; a gap before it is filled with zeros. *)
Definition write_at (off : Z) (data file : list Z) : list Z :=
  match data with
  | [] => file
  | _ => take (Z.to_nat off) file ++ replicate (Z.to_nat off - length file) 0 ++ data ++
         drop (Z.to_nat off + length data) file
  end.
Definition payload (w : world) (key : list Z) : list Z := default [] (w_payloads w !! key).
(** [open] with [create(true)], and without. *)
Definition open_create (key : list Z) : TM () :=
  io_step;; modify (λ w, set_payloads (<[key := payload w key]> (w_payloads w)) w).
Definition open_read (key : list Z) : TM (list Z) :=
  io_step;; w ← get; match w_payloads w !! key with Some file => mret file | None => fail EIo end.
(** [seek] to [off] and [write_all] of [tokio]: its write goes on in the background, and an
    error of that is only reported by a later [flush]. The result tells whether all was
    written. *)
Definition write_payload (key : list Z) (off : Z) (data : list Z) : TM bool :=
  let wrote d := modify (λ w, set_payloads (<[key := write_at off d (payload w key)]> (w_payloads w)) w) in
  io_step;; f ← io;
  match f with
  | Some n => wrote (take (Z.to_nat n) data);; fail EIo
  | None =>
      g ← io;
      match g with
      | Some n => wrote (take (Z.to_nat n) data);; mret false
      | None => wrote data;; mret true
      end
  end.
Definition flush (written : bool) : TM () := io_step;; if written then mret () else fail EIo.
(** [seek] to [start] and [read_exact] of [n] bytes. *)
Definition read_payload (key : list Z) (start n : Z) : TM (list Z) :=
  file ← open_read key; io_step;;
  '(bytes, _) ← lift (read_exact n (drop (Z.to_nat start) file));
  mret bytes.

(** ** Manifests *)

Definition piece_count (file_size piece_size : Z) : res TransferError Z :=
  if file_size =? 0 then Ok 0
  else if piece_size =? 0 then Panic
  else Ok (default U32_MAX (try_from_u 32 (div_ceil file_size piece_size))).
Definition expected_piece_length (file_size piece_size piece_index : Z) : Z :=
  let start := saturating_mul 64 piece_index piece_size in
  let end_ := Z.min (start + piece_size) file_size in
  saturating_sub end_ start.
Definition new_transfer_job (hash : Ed2kHash) (name : list Z) (size : Z) : Ed2kTransferJob :=
  mkJob (hash_display hash) name size ED2K_PART_SIZE.

(** [(0..count).map(|piece_index| ..).collect()] *)
Definition pieces_from (count : Z) (make : Z → Ed2kPieceState) : list Ed2kPieceState :=
  make <$> (Z.of_nat <$> seq 0 (Z.to_nat count)).
Definition missing_piece (i : Z) : Ed2kPieceState := mkPiece i Missing 0.
Definition manifest_new (job : Ed2kTransferJob) : res TransferError Ed2kResumeManifest :=
  count ← piece_count (tj_file_size job) (tj_piece_size job);
  Ok (mkManifest (tj_file_hash job) (tj_canonical_name job) (tj_file_size job) (tj_piece_size job)
        false false [] false None [] [] (pieces_from count missing_piece) []).
Definition is_verified (p : Ed2kPieceState) : bool := bool_decide (state p = Verified).
Definition is_fully_verified (m : Ed2kResumeManifest) : bool := forallb is_verified (pieces m).

Definition manifest_progress_bytes (m : Ed2kResumeManifest) : Z := foldr Z.add 0 (bytes_written <$> pieces m).
Definition manifest_has_structural_progress (m : Ed2kResumeManifest) : bool :=
  completed m || md4_hashset_acquired m || aich_hashset_acquired m ||
  bool_decide (is_Some (aich_root m)) || negb (bool_decide (verified_ranges m = [])) ||
  existsb (λ p, negb (bytes_written p =? 0)) (pieces m).

(** The loop of [rebuild_verified_ranges], on the ranges found and the start of the
    one that is open. *)
Fixpoint ranges_loop (piece_size file_size : Z) (l : list Ed2kPieceState) (ranges : list Ed2kSharedRange)
    (active_start : option Z) : list Ed2kSharedRange :=
  match l with
  | [] => ranges
  | piece :: l' =>
      let piece_start := piece_index piece * piece_size in
      let piece_end := Z.min (piece_start + piece_size) file_size in
      if is_verified piece then
        let start := default piece_start active_start in
        if piece_end =? file_size
        then ranges_loop piece_size file_size l' (ranges ++ [mkRange start piece_end]) None
        else ranges_loop piece_size file_size l' ranges (Some start)
      else
        match active_start with
        | Some start => ranges_loop piece_size file_size l' (ranges ++ [mkRange start piece_start]) None
        | None => ranges_loop piece_size file_size l' ranges None
        end
  end.
Definition rebuild_verified_ranges (m : Ed2kResumeManifest) : Ed2kResumeManifest :=
  set_verified (ranges_loop (piece_size m) (file_size m) (pieces m) [] None) (completed m) m.

(** [pieces.iter().find(|piece| piece.piece_index == piece_index)], and the update of
    that piece. *)
Definition find_piece (m : Ed2kResumeManifest) (i : Z) : option Ed2kPieceState :=
  List.find (λ p, piece_index p =? i) (pieces m).
Fixpoint update_first {A} (f : A → bool) (g : A → A) (l : list A) : list A :=
  match l with
  | [] => []
  | x :: l' => if f x then g x :: l' else x :: update_first f g l'
  end.
Definition update_piece (i : Z) (g : Ed2kPieceState → Ed2kPieceState) (m : Ed2kResumeManifest) : Ed2kResumeManifest :=
  set_pieces (update_first (λ p, piece_index p =? i) g (pieces m)) m.

(** *** The catalog *)

Definition from_manifest (m : Ed2kResumeManifest) : Ed2kSharedEntry :=
  mkEntry (file_hash m) (canonical_name m) (file_size m) (completed m) (verified_ranges m) false None (aich_root m).
(** Panics where parsing the hash does. *)
Definition from_popular_hash (h : PopularHash) : res TransferError (option Ed2kSharedEntry) :=
  match hash_from_str (ph_hash h) with
  | Panic => Panic
  | Err _ => Ok None
  | Ok _ => Ok (Some (mkEntry (ph_hash h) (ph_canonical_name h) (ph_size h) false [] true (Some (ph_source_count h)) None))
  end.
Definition entry_key (e : Ed2kSharedEntry) : list Z * bool := (se_file_hash e, se_compatibility_hint e).
(** Keeps the last entry of each key; [seen] and [deduped] run from the end. *)
Fixpoint dedupe_loop (l : list Ed2kSharedEntry) (seen : list (list Z * bool)) : list Ed2kSharedEntry :=
  match l with
  | [] => []
  | e :: l' => if bool_decide (entry_key e ∈ seen) then dedupe_loop l' seen
               else e :: dedupe_loop l' (entry_key e :: seen)
  end.
Definition dedupe_entries (l : list Ed2kSharedEntry) : list Ed2kSharedEntry := reverse (dedupe_loop (reverse l) []).

Definition upsert_catalog (m : Ed2kResumeManifest) (l : list Ed2kSharedEntry) : list Ed2kSharedEntry :=
  let l := List.filter (λ e, negb (bool_decide (se_file_hash e = file_hash m)) || se_compatibility_hint e) l in
  dedupe_entries (if completed m || negb (bool_decide (verified_ranges m = [])) then l ++ [from_manifest m] else l).
Definition upsert_verified_catalog_entry (m : Ed2kResumeManifest) : TM () :=
  modify (λ w, set_catalog (upsert_catalog m (w_catalog w)) w).
Fixpoint hint_entries (l : list PopularHash) : res TransferError (list Ed2kSharedEntry) :=
  match l with
  | [] => Ok []
  | h :: l' => e ← from_popular_hash h; rest ← hint_entries l'; Ok (option_list e ++ rest)
  end.
Definition replace_catalog_hints (hashes : list PopularHash) : TM () :=
  w ← get;
  hints ← lift (hint_entries hashes);
  modify (set_catalog (dedupe_entries
    (List.filter (λ e, negb (se_compatibility_hint e)) (w_catalog w) ++ hints))).

(** *** The cache and the files of the manifests *)

Definition ED2K_RESUME_CHECKPOINT_INTERVAL : Z := 2 * NANOS_PER_SEC.
Definition ED2K_RESUME_CHECKPOINT_BYTES : Z := ED2K_EMBLOCK_SIZE * 16.

Definition cache_manifest (m : Ed2kResumeManifest) : TM () :=
  modify (λ w, set_cache (<[file_hash m := m]> (w_cache w)) w).
Definition mark_manifest_persisted (m : Ed2kResumeManifest) (now : Z) : TM () :=
  cache_manifest m;;
  modify (λ w, set_checkpoint (<[file_hash m := mkCheckpoint (manifest_progress_bytes m) now]> (w_checkpoint w)) w).
Definition load_manifest (key : list Z) (now : Z) : TM Ed2kResumeManifest :=
  w ← get;
  match w_cache w !! key with
  | Some m => mret m
  | None =>
      io_step;;
      match w_manifests w !! key with
      | None => fail EManifestRead
      | Some None => fail EManifestDecode
      | Some (Some m) => mark_manifest_persisted m now;; mret m
      end
  end.
(** A failed write leaves the old file, or a malformed one. *)
Definition store_manifest (m : Ed2kResumeManifest) (now : Z) : TM () :=
  io_step;; f ← io;
  match f with
  | None => modify (λ w, set_manifests (<[file_hash m := Some m]> (w_manifests w)) w);; mark_manifest_persisted m now
  | Some n =>
      (if 0 <? n then modify (λ w, set_manifests (<[file_hash m := None]> (w_manifests w)) w) else mret ());;
      fail EIo
  end.
Definition should_checkpoint_manifest (m : Ed2kResumeManifest) (now : Z) : TM bool :=
  let current_progress := manifest_progress_bytes m in
  w ← get;
  let st := default (mkCheckpoint current_progress now) (w_checkpoint w !! file_hash m) in
  modify (set_checkpoint (<[file_hash m := st]> (w_checkpoint w)));;
  let dirty_bytes := saturating_sub current_progress (persisted_bytes_written st) in
  mret ((ED2K_RESUME_CHECKPOINT_BYTES <=? dirty_bytes) ||
        (negb (dirty_bytes =? 0) &&
         (ED2K_RESUME_CHECKPOINT_INTERVAL <=? saturating_sub now (last_persisted_at st)))).
(** Renames the file away, where there is one. *)
Definition quarantine_corrupt_manifest (key : list Z) : TM () :=
  io_step;; w ← get;
  match w_manifests w !! key with
  | None => mret ()
  | Some _ => io_step;; modify (λ w, set_manifests (delete key (w_manifests w)) w)
  end.
Definition load_manifest_or_rebuild (job : Ed2kTransferJob) (now : Z) : TM Ed2kResumeManifest := λ w,
  match load_manifest (tj_file_hash job) now w with
  | (w', Err _) =>
      (quarantine_corrupt_manifest (tj_file_hash job);;
       m ← lift (manifest_new job); store_manifest m now;; mret m) w'
  | r => r
  end.

Section store.
Variables (md4 sha1 : list Z → list Z) (hex_encode : list Z → list Z) (hex_decode : list Z → option (list Z)).
Variable trim : list Z → list Z.

(** ** Hash sets of manifests *)

Definition decode_hash (n : nat) (e : TransferError) (text : list Z) : res TransferError (list Z) :=
  match hex_decode text with
  | Some bytes => if (length bytes =? n)%nat then Ok bytes else Err e
  | None => Err e
  end.
Definition decode_aich_hash_hex : list Z → res TransferError (list Z) := decode_hash 20 EAichHash.
(** [iter().map(f).collect::<Result<Vec<_>>>()] *)
Fixpoint collect_results {A B} (f : A → res TransferError B) (l : list A) : res TransferError (list B) :=
  match l with
  | [] => Ok []
  | x :: l' => y ← f x; ys ← collect_results f l'; Ok (y :: ys)
  end.
Definition decode_manifest_aich_hashset (m : Ed2kResumeManifest) : res TransferError Ed2kAichHashset :=
  match aich_root m with
  | None => Err EAichMissing
  | Some root =>
      master ← decode_aich_hash_hex root;
      parts ← collect_results decode_aich_hash_hex (aich_hashset m);
      _ ← (if aich_hashset_acquired m then validate_aich_hashset sha1 (file_size m) (mkAich master parts) else Ok ());
      Ok (mkAich master parts)
  end.

Definition verify_piece_against_manifest (m : Ed2kResumeManifest) (i : Z) (data : list Z) : res TransferError bool :=
  let digest := md4 data in
  if md4_hashset_acquired m then
    match md4_hashset m with
    | [] =>
        expected ← map_err (λ _, EInvalidFileHash) (hash_from_str (file_hash m));
        Ok (bool_decide (digest = expected))
    | _ =>
        match md4_hashset m !! Z.to_nat i with
        | None => Err EHashsetEntry
        | Some text => expected ← decode_hash 16 EHashsetEntry text; Ok (bool_decide (digest = expected))
        end
    end
  else Ok false.

(** [refresh_completed_manifest_aich_hashset]: the AICH set of the payload, unless a
    root is known. *)
Definition with_aich (h : Ed2kAichHashset) (m : Ed2kResumeManifest) : Ed2kResumeManifest :=
  set_aich true (Some (hex_encode (master_hash h))) (hex_encode <$> part_hashes h) m.
Definition refresh_completed_manifest_aich_hashset (m : Ed2kResumeManifest) : TM Ed2kResumeManifest :=
  match aich_root m with
  | Some _ => mret m
  | None =>
      file ← open_read (file_hash m);
      h ← lift (build_aich_hashset_from_payload sha1 file (file_size m));
      mret (with_aich h m)
  end.

(** ** Pieces *)

Definition claim_next_missing_part (key : list Z) (now : Z) : TM (option Ed2kClaimedPart) :=
  m ← load_manifest key now;
  match List.find (λ p, bool_decide (state p = Missing)) (pieces m) with
  | None => mret None
  | Some piece =>
      let m := set_pieces (update_first (λ p, bool_decide (state p = Missing))
                 (λ p, set_piece Requested (bytes_written p) p) (pieces m)) m in
      store_manifest m now;;
      mret (Some (mkClaim (piece_index piece) (bytes_written piece)))
  end.

Definition release_piece_request (key : list Z) (i now : Z) : TM () :=
  m ← load_manifest key now;
  match find_piece m i with
  | None => fail EMissingPiece
  | Some piece =>
      if bool_decide (state piece = Requested)
      then store_manifest (update_piece i (λ p, set_piece Missing (bytes_written p) p) m) now
      else mret ()
  end.

Definition reclaim_piece (p : Ed2kPieceState) : Ed2kPieceState :=
  if bool_decide (state p = Requested) then set_piece Missing (bytes_written p) p else p.
Definition reclaim_stale_piece_requests (key : list Z) (now : Z) : TM bool :=
  m ← load_manifest key now;
  let changed := existsb (λ p, bool_decide (state p = Requested)) (pieces m) in
  (if changed then store_manifest (set_pieces (reclaim_piece <$> pieces m) m) now else mret ());;
  mret changed.

(** What both ways of completing a piece do with the outcome of its verification. *)
Definition settle_piece (m : Ed2kResumeManifest) (i expected_len : Z) (verified : bool) : TM Ed2kResumeManifest :=
  let m := rebuild_verified_ranges
             (update_piece i (if verified then set_piece Verified expected_len else set_piece Missing 0) m) in
  let m := set_verified (verified_ranges m) (is_fully_verified m) m in
  if completed m then refresh_completed_manifest_aich_hashset m else mret m.

Definition store_piece_data (key : list Z) (i : Z) (data : list Z) (now : Z) : TM () :=
  m ← load_manifest key now;
  let expected_len := expected_piece_length (file_size m) (piece_size m) i in
  if negb (zlen data =? expected_len) then fail EPieceSize
  else
    open_create key;;
    written ← write_payload key (i * piece_size m) data;
    flush written;;
    verified ← lift (verify_piece_against_manifest m i data);
    match find_piece m i with
    | None => fail EMissingPiece
    | Some _ =>
        m ← settle_piece m i expected_len verified;
        upsert_verified_catalog_entry m;;
        store_manifest m now
    end.

(** The last block of a piece has arrived: the piece is read back and verified. *)
Definition complete_piece (key : list Z) (m : Ed2kResumeManifest) (i piece_start expected_len now : Z) (written : bool) : TM bool :=
  flush written;;
  bytes ← read_payload key piece_start expected_len;
  verified ← lift (verify_piece_against_manifest m i bytes);
  m ← settle_piece m i expected_len verified;
  (if verified : bool then upsert_verified_catalog_entry m else mret ());;
  store_manifest m now;;
  mret verified.
(** Another block has: the progress is cached, and stored from time to time; only then is
    the block flushed. *)
Definition extend_piece (m : Ed2kResumeManifest) (i next now : Z) (written : bool) : TM bool :=
  let m := update_piece i (set_piece Requested next) m in
  should_checkpoint ← should_checkpoint_manifest m now;
  (if should_checkpoint : bool then flush written;; store_manifest m now else cache_manifest m);;
  mret false.
Definition append_to_piece (key : list Z) (m : Ed2kResumeManifest) (i start end_ : Z) (data : list Z) (now : Z) : TM bool :=
  let piece_start := i * piece_size m in
  let expected_len := expected_piece_length (file_size m) (piece_size m) i in
  let piece_end := piece_start + expected_len in
  match find_piece m i with
  | None => fail EMissingPiece
  | Some piece =>
      let expected_start := piece_start + bytes_written piece in
      let expected_end := expected_start + zlen data in
      if negb (start =? expected_start) || negb (end_ =? expected_end) || (piece_end <? end_)
      then fail EUnexpectedBlock
      else
        open_create key;;
        written ← write_payload key start data;
        let next := bytes_written piece + zlen data in
        if next =? expected_len then complete_piece key m i piece_start expected_len now written
        else extend_piece m i next now written
  end.
Definition append_piece_block (key : list Z) (i start end_ : Z) (data : list Z) (now : Z) : TM bool :=
  m ← load_manifest key now;
  append_to_piece key m i start end_ data now.

Definition append_piece_block_with_manifest (key : list Z) (i start end_ : Z) (data : list Z) (now : Z)
    : TM (bool * Ed2kResumeManifest) :=
  piece_completed ← append_piece_block key i start end_ data now;
  m ← load_manifest key now;
  mret (piece_completed, m).

Definition in_range_of (start end_ : Z) (r : Ed2kSharedRange) : bool := (rg_start r <=? start) && (end_ <=? rg_end r).
Definition read_verified_range (hash : Ed2kHash) (start end_ now : Z) : TM (option (list Z)) :=
  let key := hash_display hash in
  m ← load_manifest key now;
  if existsb (in_range_of start end_) (verified_ranges m) then
    bytes ← read_payload key start (saturating_sub end_ start);
    mret (Some bytes)
  else mret None.

(** ** Metadata *)

Definition ensure_job (job : Ed2kTransferJob) (now : Z) : TM Ed2kResumeManifest :=
  io_step;; io_step;;
  w ← get;
  match w_manifests w !! tj_file_hash job with
  | Some _ => load_manifest_or_rebuild job now
  | None => m ← lift (manifest_new job); store_manifest m now;; mret m
  end.

Definition learn_name (name : option (list Z)) (m : Ed2kResumeManifest) : Ed2kResumeManifest * bool :=
  match option_map trim name with
  | Some name => if negb (bool_decide (name = [])) && negb (bool_decide (canonical_name m = name))
                 then (set_name name m, true) else (m, false)
  | None => (m, false)
  end.
Definition learn_size (size : option Z) (m : Ed2kResumeManifest) : res TransferError (Ed2kResumeManifest * bool) :=
  match size with
  | None => Ok (m, false)
  | Some size =>
      if size =? 0 then Ok (m, false)
      else if file_size m =? 0 then
        if manifest_has_structural_progress m then Err EFileSize
        else count ← piece_count size (piece_size m); Ok (set_size size (pieces_from count missing_piece) m, true)
      else if negb (file_size m =? size) then Err EFileSize
      else Ok (m, false)
  end.
Definition reconcile_job_metadata (key : list Z) (name : option (list Z)) (size : option Z) (now : Z)
    : TM Ed2kResumeManifest :=
  m ← load_manifest key now;
  let '(m, named) := learn_name name m in
  '((m, sized) : Ed2kResumeManifest * bool) ← lift (learn_size size m);
  (if named || sized then store_manifest m now;; upsert_verified_catalog_entry m else mret ());;
  mret m.

Definition store_md4_hashset (key : list Z) (hashset : list (list Z)) (now : Z) : TM Ed2kResumeManifest :=
  m ← load_manifest key now;
  if negb (zlen hashset =? expected_md4_hash_count (file_size m)) then fail EHashsetLength
  else
    lift (validate_md4_hashset md4 key hashset);;
    let m := set_md4 (hex_encode <$> hashset) m in
    store_manifest m now;;
    mret m.

Definition store_aich_hashset (key : list Z) (h : Ed2kAichHashset) (now : Z) : TM Ed2kResumeManifest :=
  m ← load_manifest key now;
  match aich_root m with
  | Some root =>
      existing ← lift (decode_aich_hash_hex root);
      if bool_decide (existing = master_hash h) then mret () else fail EAichConflict
  | None => mret ()
  end;;
  lift (validate_aich_hashset sha1 (file_size m) h);;
  let m := with_aich h m in
  store_manifest m now;; upsert_verified_catalog_entry m;;
  mret m.

Definition reconcile_aich_root (key : list Z) (root : option (list Z)) (now : Z) : TM Ed2kResumeManifest :=
  m ← load_manifest key now;
  match root with
  | None => mret m
  | Some root =>
      match aich_root m with
      | Some existing => if bool_decide (existing = hex_encode root) then mret m else fail EAichConflict
      | None =>
          let m := set_aich (aich_hashset_acquired m) (Some (hex_encode root)) (aich_hashset m) m in
          store_manifest m now;; upsert_verified_catalog_entry m;;
          mret m
      end
  end.

Definition remember_source (key : list Z) (source : Ed2kSourceHint) (now : Z) : TM () :=
  m ← load_manifest key now;
  if bool_decide (source ∈ sources m) then mret ()
  else store_manifest (set_sources (sources m ++ [source]) m) now.

(** The manifest of a transfer whose file exists. *)
Definition existing_manifest (hash : Ed2kHash) (now : Z) : TM (option Ed2kResumeManifest) :=
  io_step;; w ← get;
  match w_manifests w !! hash_display hash with
  | None => mret None
  | Some _ => m ← load_manifest (hash_display hash) now; mret (Some m)
  end.
Definition local_entry (hash : Ed2kHash) (now : Z) : TM (option Ed2kSharedEntry) :=
  m ← existing_manifest hash now; mret (option_map from_manifest m).
Definition md4_hashset_known (hash : Ed2kHash) (now : Z) : TM (option (list (list Z))) :=
  m ← existing_manifest hash now;
  match m with
  | Some m =>
      if md4_hashset_acquired m
      then hs ← lift (collect_results (decode_hash 16 EHashsetEntry) (md4_hashset m)); mret (Some hs)
      else mret None
  | None => mret None
  end.
Definition aich_hashset_known (hash : Ed2kHash) (now : Z) : TM (option Ed2kAichHashset) :=
  m ← existing_manifest hash now;
  match m with
  | Some m =>
      if negb (aich_hashset_acquired m) || bool_decide (aich_root m = None) then mret None
      else h ← lift (decode_manifest_aich_hashset m); mret (Some h)
  | None => mret None
  end.
(** ** Sharing a local file *)

(** The file to share: one of the user's, or the payload of a transfer. *)
Inductive ingest_source : Type := LocalFile (bytes : list Z) | PayloadOf (key : list Z).
#[export] Instance ingest_source_eq_dec : EqDecision ingest_source.
Proof. solve_decision. Defined.
Definition source_bytes (w : world) (s : ingest_source) : option (list Z) :=
  match s with LocalFile bytes => Some bytes | PayloadOf key => w_payloads w !! key end.
Record Ed2kLocalIngestSummary : Type := mkIngest {
  li_file_hash : list Z;
  li_canonical_name : list Z;
  li_file_size : Z;
  li_md4_hashset_count : Z;
  li_aich_root : list Z;
  li_aich_hashset_count : Z;
}.
(** [tokio::fs::copy]; one that fails leaves the beginning of the file. *)
Definition copy_payload (key bytes : list Z) : TM () :=
  f ← io;
  match f with
  | None => modify (λ w, set_payloads (<[key := bytes]> (w_payloads w)) w)
  | Some n => modify (λ w, set_payloads (<[key := take (Z.to_nat n) bytes]> (w_payloads w)) w);; fail EIo
  end.
Definition ingested_manifest (job : Ed2kTransferJob) (hashset : list (list Z)) (aich : Ed2kAichHashset)
    : res TransferError Ed2kResumeManifest :=
  m ← manifest_new job;
  count ← piece_count (file_size m) (piece_size m);
  let m := with_aich aich (set_md4 (hex_encode <$> hashset) m) in
  let m := set_pieces (pieces_from count (λ i,
             mkPiece i Verified (expected_piece_length (file_size m) (piece_size m) i))) m in
  Ok (rebuild_verified_ranges (set_verified (verified_ranges m) true m)).
Definition ingest_local_file (source : ingest_source) (name : list Z) (now : Z) : TM Ed2kLocalIngestSummary :=
  let name := trim name in
  if bool_decide (name = []) then fail EIngestName
  else
    io_step;; io_step;;
    w ← get;
    match source_bytes w source with
    | None => fail EIo
    | Some bytes =>
        if zlen bytes =? 0 then fail EZeroSize
        else
          io_step;;
          '((hash, hashset) : list Z * list (list Z)) ← lift (build_md4_hashset_from_payload md4 bytes (zlen bytes));
          let job := new_transfer_job hash name (zlen bytes) in
          let key := tj_file_hash job in
          io_step;;
          (if bool_decide (source = PayloadOf key) then mret () else copy_payload key bytes);;
          file ← open_read key;
          aich ← lift (build_aich_hashset_from_payload sha1 file (zlen bytes));
          m ← lift (ingested_manifest job hashset aich);
          store_manifest m now;;
          upsert_verified_catalog_entry m;;
          mret (mkIngest (file_hash m) (canonical_name m) (file_size m) (zlen (md4_hashset m))
                  (default [] (aich_root m)) (zlen (aich_hashset m)))
    end.
End store.

(** ** Callbacks and source exchange *)

Definition register_callback_intent (intent : Ed2kCallbackIntent) (w : world) : world :=
  if existsb (λ e, bool_decide (e = intent)) (w_intents w) then w else set_intents (w_intents w ++ [intent]) w.
Definition claim_callback_intent (client_id : Z) (w : world) : world * option Ed2kCallbackIntent :=
  match position (λ i, ci_client_id i =? client_id) (w_intents w) with
  | None => (w, None)
  | Some n => (set_intents (delete n (w_intents w)) w, w_intents w !! n)
  end.

Definition SOURCE_EXCHANGE_REASK_INTERVAL : Z := 40 * 60 * NANOS_PER_SEC.
Definition should_request_source_exchange (key : SourceExchangeRequestKey) (now : Z) (w : world) : world * bool :=
  let allowed := match w_exchange w !! key with
                 | None => true
                 | Some last => SOURCE_EXCHANGE_REASK_INTERVAL <? saturating_sub now last
                 end in
  (if allowed then set_exchange (<[key := now]> (w_exchange w)) w else w, allowed).

(** ** Starting *)

(** [load_or_create]: the tables are empty, and the catalog has the completed
    transfers; [dirs] is the order in which the directories are listed. *)
Definition load_catalog_from_manifests (dirs : list (list Z)) (w : world) : list Ed2kSharedEntry :=
  dedupe_entries (omap (λ key, match w_manifests w !! key with
                               | Some (Some m) => if completed m then Some (from_manifest m) else None
                               | _ => None
                               end) dirs).
Definition load_or_create (dirs : list (list Z)) (w : world) : world :=
  mkWorld (load_catalog_from_manifests dirs w) [] ∅ ∅ ∅ (w_manifests w) (w_payloads w) (w_faults w).
