(* ===== verification/TransferOk.v ===== *)
(** * Correctness of the transfer store

    What the operations of [Transfer] keep: every manifest, in the cache or on the
    disk, describes its payload, through failing accesses to the disk and restarts;
    what is served is authentic; and a download of the right blocks ends with the
    file. The operations are specified by triples whose error postcondition is the
    invariant itself. *)

From S2P Require Import Prelude Net NodeId Text Hashset Transfer.

(** ** Specification *)

(** The part of a world that outlives an error: cache, manifest files, payloads. *)
Definition core_t : Type :=
  gmap (list Z) Ed2kResumeManifest * gmap (list Z) (option Ed2kResumeManifest) * gmap (list Z) (list Z).
Definition core (w : world) : core_t := (w_cache w, w_manifests w, w_payloads w).
Definition cached (s : core_t) : gmap (list Z) Ed2kResumeManifest := fst (fst s).
Definition on_disk (s : core_t) : gmap (list Z) (option Ed2kResumeManifest) := snd (fst s).
Definition file_of (s : core_t) (key : list Z) : list Z := default [] (snd s !! key).

(** A piece of a file: its offset and length. *)
Definition piece_len (size : Z) (k : nat) : Z := chunk_at size ED2K_PART_SIZE (Z.of_nat k).
Definition piece_off (k : nat) : Z := Z.of_nat k * ED2K_PART_SIZE.
Definition parts_of (size : Z) : nat := Z.to_nat (chunk_count_for_size size ED2K_PART_SIZE).
(** The sizes of files whose parts a [u32] counts. *)
Definition size_ok (size : Z) : bool := (0 <=? size) && (size <=? U32_MAX * ED2K_PART_SIZE).

Section spec.
Variables (md4 : list Z → list Z) (hex_encode : list Z → list Z).

(** The bytes of a part are those the file's hash stands for: they have the hash
    itself when the file is shorter than a part, and else the hash in some hash set
    of the right length that has the file's hash. *)
Definition valid_hashset (h : list Z) (size : Z) (hs : list (list Z)) : Prop :=
  zlen hs = expected_md4_hash_count size ∧ Forall (λ x, wf_Ed2kHash x = true) hs ∧ (hs ≠ [] → md4 (concat hs) = h).
Definition authentic (h : list Z) (size : Z) (k : nat) (bytes : list Z) : Prop :=
  ∃ hs, valid_hashset h size hs ∧
    match hs with [] => md4 bytes = h | _ => hs !! k = Some (md4 bytes) end.

Record piece_ok (h : list Z) (size : Z) (file : list Z) (k : nat) (p : Ed2kPieceState) : Prop := {
  po_index : piece_index p = Z.of_nat k;
  po_written : 0 ≤ bytes_written p ≤ piece_len size k;
  po_payload : state p = Verified → piece_off k + piece_len size k ≤ zlen file;
  po_verified : state p = Verified → bytes_written p = piece_len size k ∧
    authentic h size k (slice file (piece_off k) (piece_len size k));
}.

(** A manifest describes its payload. *)
Record manifest_ok (key file : list Z) (m : Ed2kResumeManifest) : Prop := {
  mo_key : file_hash m = key;
  mo_size : size_ok (file_size m) = true;
  mo_piece_size : piece_size m = ED2K_PART_SIZE;
  mo_count : length (pieces m) = parts_of (file_size m);
  mo_ranges : verified_ranges m = ranges_loop ED2K_PART_SIZE (file_size m) (pieces m) [] None;
  mo_completed : completed m = true → is_fully_verified m = true;
  mo_contents : ∃ h, wf_Ed2kHash h = true ∧ key = hash_display h ∧
    (md4_hashset_acquired m = true → ∃ hs, md4_hashset m = hex_encode <$> hs ∧ valid_hashset h (file_size m) hs) ∧
    ∀ k p, pieces m !! k = Some p → piece_ok h (file_size m) file k p;
}.

Definition verified_at (m : Ed2kResumeManifest) (k : nat) : Prop := ∃ p, pieces m !! k = Some p ∧ state p = Verified.

Record store_ok (s : core_t) : Prop := {
  so_cache : ∀ key m, cached s !! key = Some m → manifest_ok key (file_of s key) m;
  so_disk : ∀ key m, on_disk s !! key = Some (Some m) → manifest_ok key (file_of s key) m;
  so_behind : ∀ key m d k, cached s !! key = Some m → on_disk s !! key = Some (Some d) →
    verified_at d k → verified_at m k;
}.
End spec.

(** ** Lemmas on pieces *)

Lemma expected_piece_length_spec size k : size_ok size = true → Z.of_nat k < 2 ^ 32 →
  expected_piece_length size ED2K_PART_SIZE (Z.of_nat k) = Z.max 0 (piece_len size k).
Proof.
  unfold size_ok. intros Hs Hk. bool_hyps. unfold expected_piece_length, piece_len, chunk_at, saturating_mul, saturating_sub.
  unfold ED2K_PART_SIZE, U32_MAX in *. change (2 ^ 64) with 18446744073709551616. change (2 ^ 32) with 4294967296 in *. lia.
Qed.

Lemma parts_of_spec size k : size_ok size = true → (k < parts_of size)%nat →
  Z.of_nat k < 2 ^ 32 ∧ 0 < piece_len size k ≤ ED2K_PART_SIZE ∧ piece_off k + piece_len size k ≤ size ∧
  expected_piece_length size ED2K_PART_SIZE (Z.of_nat k) = piece_len size k.
Proof.
  intros Hs Hk. assert (H := Hs). unfold size_ok in H. bool_hyps.
  pose proof (chunk_count_spec size ED2K_PART_SIZE eq_refl ltac:(lia)) as Hn. cbn zeta in Hn. unfold parts_of in Hk.
  assert (Hk32 : Z.of_nat k < 2 ^ 32) by (unfold U32_MAX, ED2K_PART_SIZE in *; change (2 ^ 32) with 4294967296; lia).
  assert (Hl : 0 < piece_len size k ≤ ED2K_PART_SIZE) by (unfold piece_len, chunk_at, ED2K_PART_SIZE in *; lia).
  rewrite expected_piece_length_spec by done. unfold piece_off, piece_len, chunk_at in *. lia.
Qed.

(** The pieces are looked up by their index. *)
Definition indexed (l : list Ed2kPieceState) : Prop := ∀ k p, l !! k = Some p → piece_index p = Z.of_nat k.

Lemma find_update_first {A} (f : A → bool) (g : A → A) l :
  match List.find f l with
  | Some x => ∃ k, l !! k = Some x ∧ f x = true ∧ update_first f g l = alter g k l ∧
      ∀ j y, (j < k)%nat → l !! j = Some y → f y = false
  | None => update_first f g l = l ∧ ∀ j y, l !! j = Some y → f y = false
  end.
Proof.
  induction l as [|x l IH]; [done|]. cbn. destruct (f x) eqn:Hf.
  { exists 0%nat. split; [done|]. split; [done|]. split; [done|]. intros; lia. }
  destruct (List.find f l) as [y|].
  - destruct IH as (k & Hk & Hy & Hu & Hlt). exists (S k). split; [done|]. split; [done|]. cbn. split; [by rewrite Hu|].
    intros [|j] z Hj Hz; [by injection Hz as <-|]. apply (Hlt j); [lia|done].
  - destruct IH as [Hu Hn]. split; [by rewrite Hu|]. intros [|j] z Hz; [by injection Hz as <-|]. by apply (Hn j).
Qed.

Lemma find_piece_spec m i : indexed (pieces m) → 0 ≤ i → find_piece m i = pieces m !! Z.to_nat i ∧
  ∀ g, pieces (update_piece i g m) = alter g (Z.to_nat i) (pieces m).
Proof.
  intros Hi H0. unfold find_piece, update_piece. cbn. split.
  - pose proof (find_update_first (λ p, piece_index p =? i) id (pieces m)) as H.
    destruct (List.find _ _) as [x|].
    + destruct H as (k & Hk & Hx%Z.eqb_eq & _). rewrite (Hi k x Hk) in Hx. subst i. by rewrite Nat2Z.id.
    + destruct H as [_ Hn]. destruct (pieces m !! Z.to_nat i) as [p|] eqn:Hp; [|done].
      specialize (Hn _ _ Hp). specialize (Hi _ _ Hp). bool_hyps. lia.
  - intros g. pose proof (find_update_first (λ p, piece_index p =? i) g (pieces m)) as H.
    destruct (List.find _ _) as [x|].
    + destruct H as (k & Hk & Hx%Z.eqb_eq & -> & _). rewrite (Hi k x Hk) in Hx. subst i. by rewrite Nat2Z.id.
    + destruct H as [-> Hn]. destruct (pieces m !! Z.to_nat i) as [p|] eqn:Hp.
      * specialize (Hn _ _ Hp). specialize (Hi _ _ Hp). bool_hyps. lia.
      * rewrite (list_alter_ext g id _ (pieces m)); [by rewrite list_alter_id|congruence|done].
Qed.

(** *** Verified ranges *)

(** A position in a verified piece of a list of pieces that starts with number [k]. *)
Definition in_verified (size : Z) (k : nat) (l : list Ed2kPieceState) (x : Z) : Prop :=
  ∃ j p, l !! j = Some p ∧ state p = Verified ∧ piece_off (k + j) ≤ x < piece_off (k + j) + piece_len size (k + j).

Lemma in_verified_tail size k p l x : in_verified size (S k) l x → in_verified size k (p :: l) x.
Proof.
  intros (j & q & Hj & Hv & Hx). exists (S j), q. split; [done|]. split; [done|].
  by replace (k + S j)%nat with (S k + j)%nat by lia.
Qed.

(** Every position of a range is in a verified piece. *)
Lemma ranges_loop_sound size k l rs a r : size_ok size = true → (k + length l = parts_of size)%nat →
  (∀ j p, l !! j = Some p → piece_index p = Z.of_nat (k + j)) → (∀ s, a = Some s → s ≤ piece_off k) →
  r ∈ ranges_loop ED2K_PART_SIZE size l rs a →
  r ∈ rs ∨ ∀ x, rg_start r ≤ x < rg_end r → (∃ s, a = Some s ∧ s ≤ x < piece_off k) ∨ in_verified size k l x.
Proof.
  intros Hs. revert k rs a. induction l as [|p l IH]; intros k rs a Hlen Hidx Ha Hr; [by left|].
  pose proof (Hidx 0%nat p eq_refl) as Hp. rewrite Nat.add_0_r in Hp. cbn [length] in Hlen.
  destruct (parts_of_spec size k Hs ltac:(lia)) as (_ & Hpl & Hend & _).
  assert (Hidx' : ∀ j q, l !! j = Some q → piece_index q = Z.of_nat (S k + j)).
  { intros j q Hj. rewrite (Hidx (S j) q Hj). f_equal. lia. }
  assert (Hhere : ∀ x, is_verified p = true → piece_off k ≤ x < piece_off k + piece_len size k → in_verified size k (p :: l) x).
  { intros x Hv%bool_decide_eq_true Hx. exists 0%nat, p. rewrite Nat.add_0_r. done. }
  cbn [ranges_loop] in Hr. rewrite Hp in Hr. fold (piece_off k) in Hr.
  assert (He : Z.min (piece_off k + ED2K_PART_SIZE) size = piece_off k + piece_len size k)
    by (unfold piece_off, piece_len, chunk_at in *; lia).
  rewrite He in Hr. destruct (is_verified p) eqn:Hv.
  - set (start := default (piece_off k) a) in *.
    assert (Hst : start ≤ piece_off k) by (unfold start; destruct a as [s|]; [by apply Ha|cbn; unfold id; lia]).
    assert (Hcase : ∀ x, start ≤ x < piece_off k + piece_len size k →
      (∃ s, a = Some s ∧ s ≤ x < piece_off k) ∨ in_verified size k (p :: l) x).
    { intros x Hx. destruct (Z.lt_ge_cases x (piece_off k)); [|right; apply Hhere; [done|lia]].
      left. destruct a as [s|]; unfold start in Hx; cbn in Hx; unfold id in *; [exists s; split; [done|lia]|lia]. }
    destruct (Z.eqb_spec (piece_off k + piece_len size k) size) as [E|E].
    + apply (IH (S k)) in Hr as [Hr|Hr]; [|right|lia|done|done].
      * apply elem_of_app in Hr as [Hr|Hr]; [by left|right]. apply list_elem_of_singleton in Hr as ->. done.
      * intros x Hx. destruct (Hr x Hx) as [(s & [=] & _)|H]. right. by apply in_verified_tail.
    + assert (Hnext : piece_off (S k) = piece_off k + piece_len size k)
        by (unfold piece_off, piece_len, chunk_at in *; lia).
      apply (IH (S k)) in Hr as [Hr|Hr]; [by left|right|lia|done|intros s [= <-]; lia].
      intros x Hx. destruct (Hr x Hx) as [(s & [= <-] & Hs')|H]; [apply Hcase; lia|right; by apply in_verified_tail].
  - destruct a as [s|].
    + apply (IH (S k)) in Hr as [Hr|Hr]; [|right|lia|done|done].
      * apply elem_of_app in Hr as [Hr|Hr]; [by left|right]. apply list_elem_of_singleton in Hr as ->. cbn.
        intros x Hx. left. by exists s.
      * intros x Hx. destruct (Hr x Hx) as [(s' & [=] & _)|H]. right. by apply in_verified_tail.
    + apply (IH (S k)) in Hr as [Hr|Hr]; [by left|right|lia|done|done].
      intros x Hx. destruct (Hr x Hx) as [(s' & [=] & _)|H]. right. by apply in_verified_tail.
Qed.

(** When every piece is verified the whole file is one range. *)
Lemma ranges_loop_all size k l rs a : size_ok size = true → (k + length l = parts_of size)%nat → l ≠ [] →
  (∀ j p, l !! j = Some p → piece_index p = Z.of_nat (k + j)) → forallb is_verified l = true →
  ranges_loop ED2K_PART_SIZE size l rs a = rs ++ [mkRange (default (piece_off k) a) size].
Proof.
  intros Hs. revert k a. induction l as [|p l IH]; intros k a Hlen Hne Hidx Hv; [done|].
  cbn in Hv. apply andb_true_iff in Hv as [Hvp Hv]. cbn [length] in Hlen.
  pose proof (Hidx 0%nat p eq_refl) as Hp. rewrite Nat.add_0_r in Hp.
  destruct (parts_of_spec size k Hs ltac:(lia)) as (_ & Hpl & Hend & _).
  cbn [ranges_loop]. rewrite Hvp, Hp. fold (piece_off k).
  assert (He : Z.min (piece_off k + ED2K_PART_SIZE) size = piece_off k + piece_len size k)
    by (unfold piece_off, piece_len, chunk_at in *; lia).
  rewrite He. pose proof Hs as H. unfold size_ok in H. bool_hyps.
  pose proof (chunk_count_spec size ED2K_PART_SIZE eq_refl ltac:(lia)) as Hn. cbn zeta in Hn. unfold parts_of in *.
  destruct l as [|q l].
  - rewrite (proj2 (Z.eqb_eq _ size)) by (unfold piece_off, piece_len, chunk_at, ED2K_PART_SIZE in *; cbn in *; lia).
    cbn. do 3 f_equal. unfold piece_off, piece_len, chunk_at, ED2K_PART_SIZE in *. cbn in *. lia.
  - rewrite (proj2 (Z.eqb_neq _ size)) by (unfold piece_off, piece_len, chunk_at, ED2K_PART_SIZE in *; cbn [length] in *; lia).
    rewrite (IH (S k)); [done|cbn [length] in *; lia|done| |done].
    intros j r Hj. rewrite (Hidx (S j) r Hj). f_equal. lia.
Qed.

(** ** Lemmas on payloads *)

Lemma write_at_lookup off data file j : 0 ≤ off → data ≠ [] →
  (j < Z.to_nat off → j < length file → write_at off data file !! j = file !! j)%nat ∧
  (Z.to_nat off ≤ j < Z.to_nat off + length data → write_at off data file !! j = data !! (j - Z.to_nat off))%nat ∧
  (Z.to_nat off + length data ≤ j → write_at off data file !! j = file !! j)%nat.
Proof.
  intros H0 Hd. unfold write_at. destruct data as [|x data]; [done|]. set (d := x :: data).
  set (o := Z.to_nat off).
  assert (Hl : length (take o file ++ replicate (o - length file) 0) = o) by (rewrite length_app, length_take, length_replicate; lia).
  rewrite (app_assoc (take o file)). split; [|split]; intros Hj.
  - intros Hf. rewrite lookup_app_l by lia. rewrite lookup_app_l by (rewrite length_take; lia). by apply lookup_take_lt.
  - rewrite lookup_app_r by lia. rewrite Hl. by rewrite lookup_app_l by lia.
  - rewrite lookup_app_r by lia. rewrite Hl, lookup_app_r by lia. rewrite lookup_drop. f_equal. lia.
Qed.

Lemma write_at_length off data file : 0 ≤ off → zlen file ≤ zlen (write_at off data file) ∧
  (data ≠ [] → off + zlen data ≤ zlen (write_at off data file)).
Proof.
  intros H0. unfold write_at. destruct data as [|x data]; [split; [lia|done]|].
  unfold zlen. rewrite !length_app, length_take, length_replicate, length_drop. lia.
Qed.

Lemma lookup_slice file start n j : 0 ≤ start → slice file start n !! j =
  if (j <? Z.to_nat n)%nat then file !! (Z.to_nat start + j)%nat else None.
Proof.
  intros H0. unfold slice. destruct (Nat.ltb_spec j (Z.to_nat n)).
  - rewrite lookup_take_lt by done. apply lookup_drop.
  - by apply lookup_take_ge.
Qed.

Lemma zlen_slice file start n : 0 ≤ start → 0 ≤ n → start + n ≤ zlen file → zlen (slice file start n) = n.
Proof. intros. unfold slice, zlen in *. rewrite length_take, length_drop. lia. Qed.

(** A write leaves what it does not overlap. *)
Lemma slice_write_other off data file a n : 0 ≤ off → 0 ≤ a → a + n ≤ zlen file → a + n ≤ off ∨ off + zlen data ≤ a →
  slice (write_at off data file) a n = slice file a n.
Proof.
  intros H0 Ha Hn Hd. destruct (decide (data = [])) as [->|Hne]; [done|]. apply list_eq. intros j.
  rewrite !lookup_slice by done. destruct (Nat.ltb_spec j (Z.to_nat n)); [|done].
  destruct (write_at_lookup off data file (Z.to_nat a + j) H0 Hne) as (H1 & _ & H3). unfold zlen in *.
  destruct Hd; [apply H1; lia|apply H3; lia].
Qed.

Lemma slice_write_self off data file : 0 ≤ off → slice (write_at off data file) off (zlen data) = data.
Proof.
  intros H0. destruct (decide (data = [])) as [->|Hne]; [done|]. apply list_eq. intros j. rewrite lookup_slice by done.
  destruct (write_at_lookup off data file (Z.to_nat off + j) H0 Hne) as (_ & H2 & _). unfold zlen. rewrite Nat2Z.id.
  destruct (Nat.ltb_spec j (length data)); [rewrite H2 by lia; f_equal; lia|]. symmetry. by apply lookup_ge_None_2.
Qed.

(** A write after a prefix extends it. *)
Lemma slice_write_next off data file a n : 0 ≤ a → 0 ≤ n → a + n ≤ zlen file → off = a + n →
  slice (write_at off data file) a (n + zlen data) = slice file a n ++ data.
Proof.
  intros Ha Hn Hf ->. destruct (decide (data = [])) as [->|Hne].
  { unfold write_at. by rewrite zlen_nil, Z.add_0_r, app_nil_r. }
  apply list_eq. intros j. rewrite lookup_slice by done.
  destruct (write_at_lookup (a + n) data file (Z.to_nat a + j) ltac:(lia) Hne) as (H1 & H2 & _).
  pose proof (zlen_slice file a n Ha Hn Hf) as Hl. unfold zlen in *.
  destruct (Nat.ltb_spec j (Z.to_nat (n + Z.of_nat (length data)))) as [Hj|Hj].
  - destruct (Nat.lt_ge_cases j (Z.to_nat n)) as [Hlt|Hge].
    + rewrite H1 by lia. rewrite lookup_app_l by lia. rewrite lookup_slice by done.
      by rewrite (proj2 (Nat.ltb_lt j _)) by lia.
    + rewrite H2 by lia. rewrite lookup_app_r by lia. f_equal. lia.
  - symmetry. apply lookup_ge_None_2. rewrite length_app. lia.
Qed.

(** ** Lemmas on manifests *)

Section manifests.
Context (md4 sha1 : list Z → list Z) (hex_encode : list Z → list Z) (hex_decode : list Z → option (list Z)).
Hypothesis hex_roundtrip : ∀ b, is_bytes b = true → hex_decode (hex_encode b) = Some b.
Local Abbreviation manifest_ok := (manifest_ok md4 hex_encode).
Local Abbreviation authentic := (authentic md4).
Local Abbreviation piece_ok := (piece_ok md4).

Lemma mo_indexed key file m : manifest_ok key file m → indexed (pieces m).
Proof. intros [? ? ? ? ? ? (h & _ & _ & _ & Hp)] k p Hk. by apply (Hp k p). Qed.

Lemma mo_piece key file m k p : manifest_ok key file m → pieces m !! k = Some p →
  ∃ h, wf_Ed2kHash h = true ∧ key = hash_display h ∧ piece_ok h (file_size m) file k p.
Proof. intros [? ? ? ? ? ? (h & ? & ? & _ & Hp)] Hk. exists h. repeat (split; [done|]). by apply Hp. Qed.

Lemma mo_bounds key file m k p : manifest_ok key file m → pieces m !! k = Some p →
  Z.of_nat k < 2 ^ 32 ∧ 0 < piece_len (file_size m) k ≤ ED2K_PART_SIZE ∧
  piece_off k + piece_len (file_size m) k ≤ file_size m ∧
  expected_piece_length (file_size m) (piece_size m) (Z.of_nat k) = piece_len (file_size m) k.
Proof.
  intros Hm Hk. rewrite (mo_piece_size _ _ _ _ _ Hm). apply parts_of_spec; [apply Hm|].
  rewrite <- (mo_count _ _ _ _ _ Hm). by eapply lookup_lt_Some.
Qed.

(** The ranges depend only on which pieces are verified. *)
Definition same_verified (p q : Ed2kPieceState) : Prop :=
  piece_index q = piece_index p ∧ is_verified q = is_verified p.

Lemma ranges_loop_ext ps size l k rs a : Forall2 same_verified l k →
  ranges_loop ps size l rs a = ranges_loop ps size k rs a.
Proof.
  intros H. revert rs a. induction H as [|p q l k [Hi Hv] _ IH]; intros rs a; [done|]. cbn. rewrite Hi, Hv.
  destruct (is_verified p); [destruct (_ =? _); apply IH|]. destruct a; apply IH.
Qed.

Lemma fully_verified_ext l k : Forall2 same_verified l k → forallb is_verified l = forallb is_verified k.
Proof. induction 1 as [|p q l k [_ Hv] _ IH]; [done|]. cbn. by rewrite Hv, IH. Qed.

Lemma manifest_ok_pieces key file m l : manifest_ok key file m → Forall2 same_verified (pieces m) l →
  (∀ h k p q, pieces m !! k = Some p → l !! k = Some q → piece_ok h (file_size m) file k p →
     piece_ok h (file_size m) file k q) →
  manifest_ok key file (set_pieces l m).
Proof.
  intros [? ? ? Hc Hr Hd (h & Hh & Hk & Hmd4 & Hp)] Hs Hq. split; cbn; try done.
  - rewrite <- Hc. symmetry. by eapply Forall2_length.
  - rewrite Hr. by apply ranges_loop_ext.
  - unfold is_fully_verified in *. cbn. by rewrite <- (fully_verified_ext _ _ Hs).
  - exists h. repeat (split; [done|]). intros k q Hkq.
    destruct (Forall2_lookup_r _ _ _ _ _ Hs Hkq) as (p & Hp' & _). eapply Hq; [done..|]. by apply Hp.
Qed.

Lemma Forall2_alter_self {A} (R : A → A → Prop) (g : A → A) (l : list A) i :
  (∀ x, R x x) → (∀ x, l !! i = Some x → R x (g x)) → Forall2 R l (alter g i l).
Proof.
  intros Hr Hg. apply Forall2_alter_r; [|intros x y Hx Hy _; rewrite Hy in Hx; injection Hx as <-; by apply Hg].
  by apply Forall_Forall2_diag, List.Forall_forall.
Qed.

(** Moving a piece that is not verified between the other states. *)
Lemma manifest_ok_unverified key file m k p s n : manifest_ok key file m → pieces m !! k = Some p →
  state p ≠ Verified → s ≠ Verified → 0 ≤ n ≤ piece_len (file_size m) k →
  manifest_ok key file (set_pieces (alter (set_piece s n) k (pieces m)) m).
Proof.
  intros Hm Hk Hsp Hs Hn. apply manifest_ok_pieces; [done|..].
  - apply Forall2_alter_self; [done|]. intros x Hx. split; [done|]. unfold is_verified. cbn.
    rewrite Hk in Hx. injection Hx as <-. by rewrite !bool_decide_eq_false_2.
  - intros h j x q Hx Hq Hok. destruct (decide (j = k)) as [->|Hne].
    + rewrite list_lookup_alter_eq, Hx in Hq. injection Hq as <-. split; cbn; [apply Hok|done|done|done].
    + rewrite list_lookup_alter_ne in Hq by done. rewrite Hx in Hq. by injection Hq as <-.
Qed.

(** The outcome of a verification. *)
Lemma verify_spec key file m k bytes : manifest_ok key file m →
  ∃ h, wf_Ed2kHash h = true ∧ key = hash_display h ∧
  verify_piece_against_manifest md4 hex_decode m (Z.of_nat k) bytes ≠ Panic ∧
  (verify_piece_against_manifest md4 hex_decode m (Z.of_nat k) bytes = Ok true → authentic h (file_size m) k bytes).
Proof.
  intros [Hkey ? ? Hc Hr Hd (h & Hh & Hk & Hmd4 & Hp)]. exists h. split; [done|]. split; [done|].
  unfold verify_piece_against_manifest. destruct (md4_hashset_acquired m); [|done].
  destruct (Hmd4 eq_refl) as (hs & Hhs & Hv). rewrite Hhs. destruct hs as [|x hs]; cbn [fmap list_fmap].
  - rewrite Hkey, Hk, hash_from_str_display by done. cbn [map_err mbind res_bind]. split; [done|].
    intros [= He%bool_decide_eq_true]. by exists [].
  - rewrite Nat2Z.id. change (hex_encode x :: (hex_encode <$> hs)) with (hex_encode <$> x :: hs). rewrite list_lookup_fmap.
    destruct ((x :: hs) !! k) as [y|] eqn:Hy; [|done]. cbn [fmap option_fmap option_map].
    assert (Hwy : wf_Ed2kHash y = true).
    { destruct Hv as (_ & Hw & _). rewrite List.Forall_forall in Hw. apply Hw, list_elem_of_In. by eapply list_elem_of_lookup_2. }
    apply wf_Ed2kHash_spec in Hwy as [Hly Hby]. unfold decode_hash. rewrite hex_roundtrip by done.
    rewrite Hly. cbn [Nat.eqb mbind res_bind]. split; [done|]. intros [= He%bool_decide_eq_true].
    exists (x :: hs). split; [done|]. by rewrite He.
Qed.

(** A manifest after a piece is settled. *)
Definition settled (m : Ed2kResumeManifest) (k : nat) (n : Z) (verified : bool) : Ed2kResumeManifest :=
  let l := alter (if verified then set_piece Verified n else set_piece Missing 0) k (pieces m) in
  set_verified (ranges_loop (piece_size m) (file_size m) l [] None) (forallb is_verified l) (set_pieces l m).

Lemma manifest_ok_settled key file m k p verified h : manifest_ok key file m → pieces m !! k = Some p →
  wf_Ed2kHash h = true → key = hash_display h →
  (verified = true → piece_off k + piece_len (file_size m) k ≤ zlen file ∧
     authentic h (file_size m) k (slice file (piece_off k) (piece_len (file_size m) k))) →
  manifest_ok key file (settled m k (piece_len (file_size m) k) verified).
Proof.
  intros Hm Hkp Hwh Hkh Hv. pose proof (mo_bounds _ _ _ _ _ Hm Hkp) as (_ & Hlen & _).
  destruct Hm as [? ? Hps Hc Hr Hd (h' & Hh & Hk & Hmd4 & Hp)].
  assert (h' = h) as ->.
  { pose proof (hash_from_str_display h' Hh) as E1. pose proof (hash_from_str_display h Hwh) as E2. congruence. }
  split; cbn; try done.
  - by rewrite length_alter.
  - by rewrite Hps.
  - exists h. repeat (split; [done|]). intros j q Hq. destruct (decide (j = k)) as [->|Hne].
    + rewrite list_lookup_alter_eq, Hkp in Hq. injection Hq as <-. pose proof (Hp k p Hkp) as Hok.
      destruct verified; split; cbn; [apply Hok|lia|intros _; by apply Hv|intros _; split; [done|by apply Hv]|
        apply Hok|lia|done|done].
    + rewrite list_lookup_alter_ne in Hq by done. by apply Hp.
Qed.

(** A write inside a piece that is not verified keeps the manifest right. *)
Lemma manifest_ok_write key file m k off data : manifest_ok key file m →
  data = [] ∨ (¬ verified_at m k ∧ piece_off k ≤ off ∧ off + zlen data ≤ piece_off k + ED2K_PART_SIZE) →
  0 ≤ off → manifest_ok key (write_at off data file) m.
Proof.
  intros Hm [->|(Hnv & Ho1 & Ho2)] H0; [done|]. pose proof (mo_bounds key file m) as Hb.
  destruct Hm as [? ? ? Hc Hr Hd (h & Hh & Hk & Hmd4 & Hp)] eqn:Hm'. split; try done.
  exists h. repeat (split; [done|]). intros j p Hj. destruct (Hb j p Hm Hj) as (_ & Hlen & _).
  destruct (Hp j p Hj) as [P1 P2 P3 P4]. pose proof (write_at_length off data file H0) as [Hl _].
  split; [done|done|intros; specialize (P3 ltac:(done)); lia|].
  intros Hs. destruct (P4 Hs) as [P5 P6]. split; [done|].
  assert (j ≠ k) by (intros ->; apply Hnv; by exists p).
  rewrite slice_write_other; [done|done|unfold piece_off, ED2K_PART_SIZE; lia| |].
  - by apply P3.
  - unfold piece_off, ED2K_PART_SIZE in *. lia.
Qed.
End manifests.

(** ** Triples

    An operation that starts in [P] ends in [Q] of its result, or fails in a store
    that is still right; it does not panic. *)

Section triples.
Context (md4 sha1 : list Z → list Z) (hex_encode : list Z → list Z) (hex_decode : list Z → option (list Z)).
Context (trim : list Z → list Z).
Hypothesis hex_roundtrip : ∀ b, is_bytes b = true → hex_decode (hex_encode b) = Some b.
Hypothesis md4_hash : ∀ b, wf_Ed2kHash (md4 b) = true.
Local Abbreviation manifest_ok := (manifest_ok md4 hex_encode).
Local Abbreviation store_ok := (store_ok md4 hex_encode).

Definition triple {A} (P : core_t → Prop) (m : TM A) (Q : A → core_t → Prop) : Prop :=
  ∀ w, P (core w) →
  match m w with
  | (w', Ok a) => Q a (core w')
  | (w', Err _) => store_ok (core w')
  | (w', Panic) => False
  end.

Lemma triple_ret {A} (a : A) P (Q : A → core_t → Prop) : (∀ s, P s → Q a s) → triple P (mret a) Q.
Proof. intros H w Hw. by apply H. Qed.
Lemma triple_bind {A B} (m : TM A) (k : A → TM B) P R Q :
  triple P m R → (∀ a, triple (R a) (k a) Q) → triple P (m ≫= k) Q.
Proof.
  intros Hm Hk w Hw. specialize (Hm w Hw). unfold mbind, tm_bind. destruct (m w) as [w' [a|e|]]; [|done..].
  by apply Hk.
Qed.
Lemma triple_weaken {A} (m : TM A) (P P' : core_t → Prop) (Q Q' : A → core_t → Prop) :
  triple P m Q → (∀ s, P' s → P s) → (∀ a s, Q a s → Q' a s) → triple P' m Q'.
Proof.
  intros Hm HP HQ w Hw. specialize (Hm w (HP _ Hw)). destruct (m w) as [w' [a|e|]]; [|done..]. by apply HQ.
Qed.
Lemma triple_frame {A} (m : TM A) (φ : Prop) P Q : triple P m Q → triple (λ s, P s ∧ φ) m (λ a s, Q a s ∧ φ).
Proof. intros Hm w [Hw Hp]. specialize (Hm w Hw). by destruct (m w) as [w' [a|e|]]. Qed.
Lemma triple_pure {A} (m : TM A) (φ : Prop) P Q : (∀ s, P s → φ) → (φ → triple P m Q) → triple P m Q.
Proof. intros HP Hm w Hw. by apply (Hm (HP _ Hw)). Qed.
Lemma triple_lift {A} (r : res TransferError A) P (Q : A → core_t → Prop) : (∀ s, P s → store_ok s) → r ≠ Panic →
  (∀ a s, r = Ok a → P s → Q a s) → triple P (lift r) Q.
Proof. intros HP Hr HQ w Hw. cbn. destruct r; [by apply HQ|by apply HP|done]. Qed.
Lemma triple_fail {A} e P (Q : A → core_t → Prop) : (∀ s, P s → store_ok s) → triple P (fail e) Q.
Proof. intros HP. by apply triple_lift. Qed.
Lemma triple_get P : triple P get (λ w s, P s ∧ core w = s).
Proof. by intros w Hw. Qed.
Lemma triple_modify f P (Q : () → core_t → Prop) : (∀ w, P (core w) → Q () (core (f w))) → triple P (modify f) Q.
Proof. intros H w Hw. by apply H. Qed.
Lemma triple_io P : triple P io (λ _, P).
Proof. intros w Hw. unfold io. by destruct (w_faults w). Qed.
Lemma triple_io_step P : (∀ s, P s → store_ok s) → triple P io_step (λ _, P).
Proof.
  intros HP. eapply triple_bind; [apply triple_io|]. intros [n|]; [by apply triple_fail|by apply triple_ret].
Qed.

(** The store with the manifest of a transfer in hand. *)
Definition at_key (key : list Z) (m : Ed2kResumeManifest) (s : core_t) : Prop := store_ok s ∧ cached s !! key = Some m.

Lemma at_key_ok key m s : at_key key m s → manifest_ok key (file_of s key) m.
Proof. intros [Hs Hc]. by apply (so_cache _ _ _ Hs). Qed.

(** Putting a right manifest into the cache, and into the file. *)
Lemma store_ok_cache s key m : store_ok s → manifest_ok key (file_of s key) m →
  (∀ d k, on_disk s !! key = Some (Some d) → verified_at d k → verified_at m k) →
  store_ok (<[key := m]> (cached s), on_disk s, snd s).
Proof.
  intros [H1 H2 H3] Hm Hb. destruct s as [[c d] p]. unfold cached, on_disk, file_of in *. cbn in *. split; cbn; [|done|].
  - intros key' m' H. destruct (decide (key' = key)) as [->|Hne].
    + rewrite lookup_insert_eq in H. injection H as <-. done.
    + rewrite lookup_insert_ne in H by done. by apply H1.
  - intros key' m' d' k H Hd. destruct (decide (key' = key)) as [->|Hne].
    + rewrite lookup_insert_eq in H. injection H as <-. by apply Hb.
    + rewrite lookup_insert_ne in H by done. by eapply H3.
Qed.

Lemma store_ok_both s key m : store_ok s → manifest_ok key (file_of s key) m →
  store_ok (<[key := m]> (cached s), <[key := Some m]> (on_disk s), snd s).
Proof.
  intros [H1 H2 H3] Hm. destruct s as [[c d] p]. unfold cached, on_disk, file_of in *. cbn in *.
  split; cbn; intros key' m'; destruct (decide (key' = key)) as [->|Hne];
    rewrite ?lookup_insert_eq, ?lookup_insert_ne by done; [by intros [= <-]|by apply H1|by intros [= <-]|by apply H2|..].
  - by intros d' k [= <-] [= <-].
  - intros d' k. apply H3.
Qed.

(** A manifest file that becomes malformed, or goes away. *)
Lemma store_ok_lost s d' : store_ok s → (∀ key m, d' !! key = Some (Some m) → on_disk s !! key = Some (Some m)) →
  store_ok (cached s, d', snd s).
Proof.
  intros [H1 H2 H3] Hd. destruct s as [[c d] p]. unfold cached, on_disk, file_of in *. cbn in *. split; cbn; [done|..].
  - intros key m H. by apply H2, Hd.
  - intros key m d0 k Hc H. eapply H3; [done|]. by apply Hd.
Qed.

Lemma triple_mark key m now (P : core_t → Prop) (Q : () → core_t → Prop) : file_hash m = key →
  (∀ s, P s → Q () (<[key := m]> (cached s), on_disk s, snd s)) → triple P (mark_manifest_persisted m now) Q.
Proof.
  intros <- H w Hw. unfold mark_manifest_persisted, cache_manifest, modify, mbind, tm_bind. apply (H _ Hw).
Qed.

Lemma triple_load key now : triple store_ok (load_manifest key now) (at_key key).
Proof.
  eapply triple_bind; [apply triple_get|]. intros w. destruct (w_cache w !! key) as [m|] eqn:Hc.
  { apply triple_ret. intros s [Hs <-]. done. }
  eapply triple_bind; [apply triple_io_step; tauto|]. intros [].
  destruct (w_manifests w !! key) as [[m|]|] eqn:Hd; [|apply triple_fail; tauto..].
  apply triple_pure with (manifest_ok key (file_of (core w) key) m).
  { intros s [Hs <-]. by apply (so_disk _ _ _ Hs). }
  intros Hm. eapply triple_bind with (λ _, at_key key m); [|intros []; by apply triple_ret].
  apply (triple_mark key); [apply Hm|]. intros s [Hs <-].
  split; [|unfold cached; cbn; by rewrite lookup_insert_eq]. apply store_ok_cache; [done..|].
  intros d k Hdk. unfold on_disk in Hdk. cbn in Hdk. rewrite Hd in Hdk. by injection Hdk as <-.
Qed.

Lemma triple_store key m now :
  triple (λ s, store_ok s ∧ manifest_ok key (file_of s key) m) (store_manifest m now)
    (λ _ s, at_key key m s ∧ on_disk s !! key = Some (Some m)).
Proof.
  eapply triple_bind; [apply triple_io_step; tauto|]. intros []. eapply triple_bind; [apply triple_io|].
  intros [n|].
  - eapply triple_bind with (λ _ s, store_ok s); [|intros []; by apply triple_fail].
    destruct (0 <? n); [|apply triple_ret; tauto]. apply triple_modify. intros w [Hs Hm].
    apply (store_ok_lost (core w) (<[file_hash m := None]> (w_manifests w))); [done|]. intros key' m'. destruct (decide (key' = file_hash m)) as [->|Hne];
      [by rewrite lookup_insert_eq|by rewrite lookup_insert_ne].
  - eapply triple_bind with (λ _ s, ∃ s0, store_ok s0 ∧ manifest_ok key (file_of s0 key) m ∧
      s = (cached s0, <[key := Some m]> (on_disk s0), snd s0)).
    + apply triple_modify. intros w [Hs Hm]. exists (core w). split; [done|]. split; [done|].
      by rewrite (mo_key _ _ _ _ _ Hm).
    + intros []. apply triple_pure with (file_hash m = key); [by intros s (s0 & _ & Hm & _); apply Hm|]. intros Hk.
      apply (triple_mark key); [done|]. intros s (s0 & Hs & Hm & ->).
      split; [split; [by apply (store_ok_both s0)|]|]; unfold cached, on_disk; cbn; by rewrite lookup_insert_eq.
Qed.

Lemma file_of_insert c d p key x key' : file_of (c, d, <[key := x]> p) key' = if decide (key' = key) then x else file_of (c, d, p) key'.
Proof.
  unfold file_of. cbn. destruct (decide (key' = key)) as [->|Hne]; [by rewrite lookup_insert_eq|by rewrite lookup_insert_ne].
Qed.

(** Only the contents of the payloads matter. *)
Lemma store_ok_payloads s p' : store_ok s → (∀ key m, manifest_ok key (file_of s key) m →
    cached s !! key = Some m ∨ on_disk s !! key = Some (Some m) →
    manifest_ok key (file_of (cached s, on_disk s, p') key) m) →
  store_ok (cached s, on_disk s, p').
Proof.
  intros [H1 H2 H3] Hp. destruct s as [[c d] p]. split; unfold cached, on_disk in *; cbn in *.
  - intros key m H. apply Hp; [by apply H1|by left].
  - intros key m H. apply Hp; [by apply H2|by right].
  - done.
Qed.

Lemma triple_open_create key m file :
  triple (λ s, at_key key m s ∧ file_of s key = file) (open_create key) (λ _ s, at_key key m s ∧ file_of s key = file).
Proof.
  eapply triple_bind; [apply triple_io_step; by intros s [[] _]|]. intros []. apply triple_modify. intros w [[Hs Hc] Hf].
  assert (He : ∀ key', file_of (core (set_payloads (<[key := payload w key]> (w_payloads w)) w)) key' = file_of (core w) key').
  { intros key'. unfold core. cbn. rewrite file_of_insert. destruct (decide (key' = key)) as [->|]; done. }
  split; [split; [|done]|by rewrite He].
  apply (store_ok_payloads (core w)); [done|]. intros key' m' Hm' _. unfold core in *. cbn in *. by rewrite He.
Qed.

(** Writing into a piece that is not verified. *)
Lemma triple_write key m file k off data :
  0 ≤ off → data = [] ∨ (¬ verified_at m k ∧ piece_off k ≤ off ∧ off + zlen data ≤ piece_off k + ED2K_PART_SIZE) →
  triple (λ s, at_key key m s ∧ file_of s key = file) (write_payload key off data)
    (λ written s, at_key key m s ∧ (written = true → file_of s key = write_at off data file)).
Proof.
  intros H0 Hd.
  assert (Hw : ∀ n w, at_key key m (core w) → let d := take n data in
    at_key key m (core (set_payloads (<[key := write_at off d (payload w key)]> (w_payloads w)) w)) ∧
    file_of (core (set_payloads (<[key := write_at off d (payload w key)]> (w_payloads w)) w)) key =
      write_at off d (file_of (core w) key)).
  { intros n w [Hs Hc] d. split; [|unfold core; cbn; rewrite file_of_insert; by rewrite decide_True by done].
    split; [|done]. apply (store_ok_payloads (core w)); [done|]. intros key' m' Hm' Hin. unfold core. cbn.
    rewrite file_of_insert. destruct (decide (key' = key)) as [->|]; [|done].
    apply (manifest_ok_write md4 hex_encode key _ m' k off d Hm'); [|done].
    destruct Hd as [->|(Hv & Ho1 & Ho2)]; [left; by destruct n|right]. split; [|split; [done|]].
    - intros Hv'. apply Hv. destruct Hin as [Hin|Hin]; [congruence|].
      by eapply (so_behind _ _ _ Hs).
    - assert (zlen d ≤ zlen data) by (unfold d, zlen; rewrite length_take; lia). lia. }
  eapply triple_bind; [apply triple_io_step; by intros s [[] _]|]. intros []. eapply triple_bind; [apply triple_io|].
  intros [n|].
  { eapply triple_bind with (λ _ s, store_ok s); [|intros []; by apply triple_fail].
    apply triple_modify. intros w [Hk Hf]. by apply (Hw (Z.to_nat n)). }
  eapply triple_bind; [apply triple_io|]. intros [n|].
  - eapply triple_bind with (λ _ s, at_key key m s); [|intros []; by apply triple_ret].
    apply triple_modify. intros w [Hk Hf]. by apply (Hw (Z.to_nat n)).
  - eapply triple_bind with (λ _ s, at_key key m s ∧ file_of s key = write_at off data file); [|intros []; apply triple_ret; tauto].
    apply triple_modify. intros w [Hk Hf]. specialize (Hw (length data) w Hk). cbn zeta in Hw.
    rewrite firstn_all in Hw. by rewrite <- Hf.
Qed.
Lemma triple_flush written P : (∀ s, P s → store_ok s) → triple P (flush written) (λ _ s, P s ∧ written = true).
Proof.
  intros HP. eapply triple_bind; [by apply (triple_io_step P)|]. intros []. destruct written; [by apply triple_ret|by apply triple_fail].
Qed.

Lemma triple_open_read key m file : triple (λ s, at_key key m s ∧ file_of s key = file) (open_read key)
  (λ f s, at_key key m s ∧ file_of s key = file ∧ f = file).
Proof.
  eapply triple_bind; [apply triple_io_step; by intros s [[] _]|]. intros []. eapply triple_bind; [apply triple_get|].
  intros w w' [[Hk Hf] Hw]. cbn. destruct (w_payloads w !! key) as [f|] eqn:Hp; [|apply Hk].
  cbn. split; [done|]. split; [done|]. rewrite <- Hf, <- Hw. unfold file_of. cbn. by rewrite Hp.
Qed.

Lemma triple_read key m file start n : triple (λ s, at_key key m s ∧ file_of s key = file) (read_payload key start n)
  (λ bytes s, at_key key m s ∧ file_of s key = file ∧ bytes = slice file start n ∧ (0 ≤ start → 0 < n → start + n ≤ zlen file)).
Proof.
  eapply triple_bind; [apply triple_open_read|]. intros f. eapply triple_bind; [apply triple_io_step; by intros s [[] _]|].
  intros []. eapply triple_bind with (λ r s, at_key key m s ∧ file_of s key = file ∧ fst r = slice file start n ∧
    (0 ≤ start → 0 < n → start + n ≤ zlen file)).
  - apply triple_lift; [by intros s [[] _]|unfold read_exact; by destruct (_ <=? _)|].
    intros r s Hr (Hk & Hf & ->). unfold read_exact in Hr.
    destruct (Z.leb_spec n (zlen (drop (Z.to_nat start) file))) as [Hle|]; [|done]. injection Hr as <-.
    split; [done|]. split; [done|]. split; [done|]. intros. unfold zlen in *. rewrite length_drop in Hle. lia.
  - intros [bytes rest]. apply triple_ret. done.
Qed.

(** ** Operations *)

(** What a manifest describes does not depend on names, sources and AICH hashes. *)
Definition same_payload (m m' : Ed2kResumeManifest) : Prop :=
  file_hash m' = file_hash m ∧ file_size m' = file_size m ∧ piece_size m' = piece_size m ∧
  completed m' = completed m ∧ md4_hashset_acquired m' = md4_hashset_acquired m ∧
  md4_hashset m' = md4_hashset m ∧ verified_ranges m' = verified_ranges m ∧ pieces m' = pieces m.
Lemma same_payload_refl m : same_payload m m.
Proof. repeat split. Qed.
Lemma same_payload_aich a r l m : same_payload m (set_aich a r l m).
Proof. repeat split. Qed.
Lemma manifest_ok_same key file m m' : same_payload m m' → manifest_ok key file m → manifest_ok key file m'.
Proof.
  intros (E1 & E2 & E3 & E4 & E5 & E6 & E7 & E8) [? ? ? ? ? Hd Hc].
  split; unfold is_fully_verified in *; rewrite ?E1, ?E2, ?E3, ?E4, ?E5, ?E6, ?E7, ?E8; done.
Qed.

Lemma triple_upsert m P : triple P (upsert_verified_catalog_entry m) (λ _, P).
Proof. by apply triple_modify. Qed.

Lemma triple_refresh key m0 m file : manifest_ok key file m → file_size m ≠ 0 →
  triple (λ s, at_key key m0 s ∧ file_of s key = file) (refresh_completed_manifest_aich_hashset sha1 hex_encode m)
    (λ m' s, at_key key m0 s ∧ file_of s key = file ∧ same_payload m m').
Proof.
  intros Hm H0. unfold refresh_completed_manifest_aich_hashset. destruct (aich_root m) as [r|].
  { apply triple_ret. intros s [Hk Hf]. split; [done|]. split; [done|]. apply same_payload_refl. }
  rewrite (mo_key _ _ _ _ _ Hm). eapply triple_bind; [apply triple_open_read|]. intros f.
  eapply triple_bind with (λ _ s, at_key key m0 s ∧ file_of s key = file).
  - apply triple_lift; [by intros s [[] _]| |tauto].
    pose proof (mo_size _ _ _ _ _ Hm) as Hs. unfold size_ok in Hs. bool_hyps.
    rewrite aich_hashset_spec by lia. by destruct (_ <=? _).
  - intros h. apply triple_ret. intros s [Hk Hf]. split; [done|]. split; [done|]. apply same_payload_aich.
Qed.

Lemma settle_update key file m k n (verified : bool) : manifest_ok key file m →
  let m1 := rebuild_verified_ranges
              (update_piece (Z.of_nat k) (if verified then set_piece Verified n else set_piece Missing 0) m) in
  set_verified (verified_ranges m1) (is_fully_verified m1) m1 = settled m k n verified.
Proof.
  intros Hm. destruct (find_piece_spec m (Z.of_nat k) (mo_indexed _ _ _ _ _ Hm) ltac:(lia)) as [_ Hu]. rewrite Nat2Z.id in Hu.
  assert (Hu' : ∀ g, update_first (λ p, piece_index p =? Z.of_nat k) g (pieces m) = alter g k (pieces m)) by exact Hu.
  unfold settled, rebuild_verified_ranges, is_fully_verified, update_piece, set_pieces, set_verified. cbn. by rewrite !Hu'.
Qed.

Lemma triple_settle key m k p file verified h : manifest_ok key file m → pieces m !! k = Some p →
  wf_Ed2kHash h = true → key = hash_display h →
  (verified = true → piece_off k + piece_len (file_size m) k ≤ zlen file ∧
     authentic md4 h (file_size m) k (slice file (piece_off k) (piece_len (file_size m) k))) →
  triple (λ s, at_key key m s ∧ file_of s key = file)
    (settle_piece sha1 hex_encode m (Z.of_nat k) (piece_len (file_size m) k) verified)
    (λ m' s, at_key key m s ∧ file_of s key = file ∧ same_payload (settled m k (piece_len (file_size m) k) verified) m').
Proof.
  intros Hm Hk Hh Hkey Hv. unfold settle_piece.
  rewrite (settle_update key file m k _ verified Hm). pose proof (manifest_ok_settled _ _ _ _ _ _ _ verified h Hm Hk Hh Hkey Hv) as Hok.
  destruct (completed _).
  - apply (triple_refresh key m); [done|]. cbn. pose proof (mo_bounds _ _ _ _ _ _ _ Hm Hk). unfold piece_off, ED2K_PART_SIZE in *. lia.
  - apply triple_ret. intros s [Hs Hf]. split; [done|]. split; [done|]. apply same_payload_refl.
Qed.

(** Moving a piece and storing the manifest. *)
Lemma triple_claim key now : triple store_ok (claim_next_missing_part key now)
  (λ r s, store_ok s ∧ ∀ c, r = Some c → ∃ m k p, at_key key m s ∧ cp_piece_index c = Z.of_nat k ∧
     pieces m !! k = Some p ∧ state p = Requested ∧ bytes_written p = cp_bytes_written c).
Proof.
  eapply triple_bind; [apply triple_load|]. intros m.
  pose proof (find_update_first (λ p, bool_decide (state p = Missing)) (λ p, set_piece Requested (bytes_written p) p) (pieces m)) as Hf.
  destruct (List.find _ _) as [p|]; [|apply triple_ret; intros s Hs; by split; [apply Hs|]].
  destruct Hf as (k & Hk & Hs%bool_decide_eq_true & -> & _).
  set (m' := set_pieces _ m).
  eapply triple_bind with (λ _ s, at_key key m' s ∧ piece_index p = Z.of_nat k).
  - eapply triple_weaken; [apply (triple_frame _ (piece_index p = Z.of_nat k)), (triple_store key)|..].
    + intros s Hat. pose proof (at_key_ok _ _ _ Hat) as Hm. split; [split; [apply Hat|]|by apply (mo_indexed _ _ _ _ _ Hm)].
      destruct (mo_piece _ _ _ _ _ _ _ Hm Hk) as (h & _ & _ & [? Hw _ ?]).
      unfold m'. rewrite (list_alter_ext _ (set_piece Requested (bytes_written p)) _ (pieces m)); [|intros x Hx; congruence|done].
      apply (manifest_ok_unverified _ _ _ _ _ _ p); [done|done|by rewrite Hs|done..].
    + by intros [] s [[] ?].
  - intros []. apply triple_ret. intros s [Hat Hi]. split; [apply Hat|]. intros c [= <-].
    exists m', k, (set_piece Requested (bytes_written p) p). split; [done|]. split; [done|]. split; [|done].
    cbn. by rewrite list_lookup_alter_eq, Hk.
Qed.

Lemma triple_update key m m' now : (∀ file, manifest_ok key file m → manifest_ok key file m') →
  triple (at_key key m) (store_manifest m' now) (λ _, at_key key m').
Proof.
  intros Hm. eapply triple_weaken; [apply (triple_store key)| |by intros [] s []].
  intros s Hs. split; [apply Hs|]. by apply Hm, at_key_ok.
Qed.
Lemma triple_at_store {A} key m (t : TM A) Q : triple (at_key key m) t (λ _, at_key key Q) →
  triple (at_key key m) t (λ _, store_ok).
Proof. intros H. eapply triple_weaken; [exact H|done|]. by intros a s []. Qed.

Lemma triple_at_any key (t : TM Ed2kResumeManifest) P : triple P t (at_key key) → triple P t (λ _, store_ok).
Proof. intros H. eapply triple_weaken; [exact H|done|]. by intros m s []. Qed.

(** The piece an index names. *)
Lemma find_piece_at key file m i : manifest_ok key file m → 0 ≤ i →
  find_piece m i = pieces m !! Z.to_nat i ∧ i = Z.of_nat (Z.to_nat i) ∧
  ∀ g, update_piece i g m = set_pieces (alter g (Z.to_nat i) (pieces m)) m.
Proof.
  intros Hm Hi. destruct (find_piece_spec m i (mo_indexed _ _ _ _ _ Hm) Hi) as [H1 H2].
  split; [done|]. split; [lia|]. intros g. specialize (H2 g). unfold update_piece in *. cbn in H2. by rewrite H2.
Qed.

Lemma triple_release key i now : 0 ≤ i → triple store_ok (release_piece_request key i now) (λ _, store_ok).
Proof.
  intros Hi. eapply triple_bind; [apply triple_load|]. intros m.
  apply triple_pure with (∃ file, manifest_ok key file m); [intros s Hs; eexists; by apply at_key_ok|]. intros [f0 Hm0].
  destruct (find_piece_at key f0 m i Hm0 Hi) as (-> & _ & Hu). rewrite Hu.
  destruct (pieces m !! Z.to_nat i) as [p|] eqn:Hk; [|apply triple_fail; by intros s []].
  case_bool_decide as Hs; [|apply triple_ret; by intros s []].
  eapply triple_at_store, triple_update. intros file Hm. destruct (mo_piece _ _ _ _ _ _ _ Hm Hk) as (h & _ & _ & [? Hw _ ?]).
  rewrite (list_alter_ext _ (set_piece Missing (bytes_written p)) _ (pieces m)); [|intros x Hx; congruence|done].
  apply (manifest_ok_unverified _ _ _ _ _ _ p); [done|done|by rewrite Hs|done..].
Qed.

Lemma triple_reclaim key now : triple store_ok (reclaim_stale_piece_requests key now) (λ _, store_ok).
Proof.
  eapply triple_bind; [apply triple_load|]. intros m.
  eapply triple_bind with (λ _, store_ok); [|intros []; by apply triple_ret].
  destruct (existsb _ _); [|apply triple_ret; by intros s []].
  eapply triple_at_store, triple_update. intros file Hm. apply manifest_ok_pieces; [done|..].
  - apply Forall2_fmap_r, Forall_Forall2_diag, List.Forall_forall. by intros [i [] n] _.
  - intros h k p q Hp Hq Hok. rewrite list_lookup_fmap, Hp in Hq. injection Hq as <-.
    destruct p as [i [] n]; (done || by destruct Hok).
Qed.

(** With the contents of the payload in hand. *)
Lemma triple_file' {A} key m (P : core_t → Prop) (t : TM A) Q : (∀ s, P s → at_key key m s) →
  (∀ file, manifest_ok key file m → (∃ s, P s ∧ file_of s key = file) →
     triple (λ s, at_key key m s ∧ file_of s key = file) t Q) → triple P t Q.
Proof.
  intros HP H w Hw. apply (H (file_of (core w) key)); [by apply at_key_ok, HP|by exists (core w)|]. split; [by apply HP|done].
Qed.
Lemma triple_file {A} key m (t : TM A) Q :
  (∀ file, manifest_ok key file m → triple (λ s, at_key key m s ∧ file_of s key = file) t Q) → triple (at_key key m) t Q.
Proof. intros H. apply (triple_file' key m); [done|]. intros file Hm _. by apply H. Qed.

Lemma triple_should_checkpoint m now P : triple P (should_checkpoint_manifest m now) (λ _, P).
Proof. by intros w Hw. Qed.

Lemma triple_extend key m k p n now written : pieces m !! k = Some p → state p ≠ Verified →
  0 ≤ n ≤ piece_len (file_size m) k →
  triple (at_key key m) (extend_piece m (Z.of_nat k) n now written)
    (λ r s, r = false ∧ at_key key (set_pieces (alter (set_piece Requested n) k (pieces m)) m) s).
Proof.
  intros Hk Hs Hn. unfold extend_piece.
  apply triple_pure with (∃ file, manifest_ok key file m); [intros s H; eexists; by apply at_key_ok|]. intros [f0 Hm0].
  destruct (find_piece_at key f0 m (Z.of_nat k) Hm0 ltac:(lia)) as (_ & _ & ->). rewrite Nat2Z.id.
  set (m' := set_pieces _ m).
  assert (Hm' : ∀ s, at_key key m s → manifest_ok key (file_of s key) m').
  { intros s Hat. apply (manifest_ok_unverified _ _ _ _ _ _ p); [by apply at_key_ok|done..]. }
  eapply triple_bind; [apply triple_should_checkpoint|]. intros b.
  eapply triple_bind with (λ _, at_key key m'); [|intros []; apply triple_ret; done]. destruct b.
  - eapply triple_bind; [apply (triple_flush written (at_key key m)); by intros s []|]. intros [].
    eapply triple_weaken; [apply (triple_store key)| |by intros [] s []]. intros s [Hat _]. split; [apply Hat|by apply Hm'].
  - apply triple_modify. intros w Hat. pose proof (Hm' _ Hat) as Hok. rewrite (mo_key _ _ _ _ _ Hok).
    split; [|unfold cached; cbn; by rewrite lookup_insert_eq].
    destruct Hat as [Hst Hc]. apply (store_ok_cache (core w) key m'); [done..|]. intros d j Hd Hj.
    destruct (so_behind _ _ _ Hst key m d j Hc Hd Hj) as (q & Hq & Hqv). exists q. split; [|done]. cbn.
    rewrite list_lookup_alter_ne; [done|]. intros <-. congruence.
Qed.

Lemma triple_complete key m k p file now written : manifest_ok key file m → pieces m !! k = Some p →
  triple (λ s, at_key key m s ∧ file_of s key = file)
    (complete_piece md4 sha1 hex_encode hex_decode key m (Z.of_nat k) (piece_off k) (piece_len (file_size m) k) now written)
    (λ b s, ∃ m', at_key key m' s ∧ same_payload (settled m k (piece_len (file_size m) k) b) m').
Proof.
  intros Hm Hk. destruct (mo_bounds _ _ _ _ _ _ _ Hm Hk) as (_ & Hlen & Hend & Hexp).
  destruct (verify_spec _ _ _ hex_roundtrip _ _ _ k (slice file (piece_off k) (piece_len (file_size m) k)) Hm)
    as (h & Hh & Hkey & Hnp & Hauth).
  eapply triple_bind with (λ _ s, at_key key m s ∧ file_of s key = file).
  { eapply triple_weaken; [apply (triple_flush written (λ s, at_key key m s ∧ file_of s key = file)); by intros s [[]]|done|by intros [] s []]. }
  intros []. eapply triple_bind; [apply triple_read|]. intros bytes.
  apply triple_pure with (bytes = slice file (piece_off k) (piece_len (file_size m) k) ∧
    piece_off k + piece_len (file_size m) k ≤ zlen file).
  { intros s (_ & _ & Hb & Hf). split; [done|]. apply Hf; unfold piece_off, ED2K_PART_SIZE in *; lia. }
  intros [-> Hf].
  eapply triple_bind with (λ b s, (at_key key m s ∧ file_of s key = file) ∧ (b = true → authentic md4 h (file_size m) k
    (slice file (piece_off k) (piece_len (file_size m) k)))).
  { apply triple_lift; [by intros s [[]]|done|]. intros b s Hb (Hs & Hfs & _). split; [done|]. intros ->. by apply Hauth. }
  intros b. apply triple_pure with (b = true → authentic md4 h (file_size m) k
    (slice file (piece_off k) (piece_len (file_size m) k))); [tauto|]. intros Hb.
  eapply triple_bind with (λ m' s, (store_ok s ∧ manifest_ok key (file_of s key) m') ∧
    same_payload (settled m k (piece_len (file_size m) k) b) m').
  { eapply triple_weaken; [apply (triple_settle key m k p file b h); [done..|]; intros ->; split; [done|by apply Hb]|tauto|].
    intros m' s ((Hs & _) & Hfs & Hsame). split; [split; [done|]|done]. rewrite Hfs.
    eapply manifest_ok_same; [exact Hsame|]. eapply manifest_ok_settled; [done..|]. intros ->; split; [done|by apply Hb]. }
  intros m'. apply triple_pure with (same_payload (settled m k (piece_len (file_size m) k) b) m'); [tauto|]. intros Hsame.
  eapply triple_bind with (λ _ s, store_ok s ∧ manifest_ok key (file_of s key) m').
  { destruct b; [|apply triple_ret; by intros s []].
    eapply triple_weaken; [apply (triple_upsert m' (λ s, store_ok s ∧ manifest_ok key (file_of s key) m'))|by intros s []|done]. }
  intros []. eapply triple_bind; [apply (triple_store key)|]. intros []. apply triple_ret. intros s [Hs _]. by exists m'.
Qed.

Lemma triple_append key i start end_ data now : 0 ≤ i →
  triple store_ok (append_piece_block md4 sha1 hex_encode hex_decode key i start end_ data now) (λ _, store_ok).
Proof.
  intros Hi. eapply triple_bind; [apply triple_load|]. intros m. apply triple_file. intros file Hm.
  unfold append_to_piece. destruct (find_piece_at key file m i Hm Hi) as (-> & Hik & _).
  set (k := Z.to_nat i) in *. clearbody k. subst i.
  destruct (pieces m !! k) as [p|] eqn:Hk; [|apply triple_fail; by intros s [[]]].
  destruct (mo_bounds _ _ _ _ _ _ _ Hm Hk) as (_ & Hlen & Hend & Hexp). rewrite Hexp, (mo_piece_size _ _ _ _ _ Hm).
  fold (piece_off k). destruct (mo_piece _ _ _ _ _ _ _ Hm Hk) as (h & Hh & Hkey & [_ Hbw _ Hver]).
  destruct (_ || _ || _) eqn:Hb; [apply triple_fail; by intros s [[]]|]. bool_hyps. subst start end_.
  pose proof (zlen_nonneg data) as Hdl. assert (Hoff : 0 ≤ piece_off k) by (unfold piece_off, ED2K_PART_SIZE; lia).
  eapply triple_bind; [apply triple_open_create|]. intros [].
  eapply triple_bind; [apply (triple_write key m file k)|]; [lia| |].
  { destruct (decide (state p = Verified)) as [Hv|Hv].
    - left. destruct (Hver Hv) as [Hbl _]. destruct data; [done|]. rewrite zlen_cons in *. pose proof (zlen_nonneg data). lia.
    - right. split; [intros (q & Hq & Hqv); congruence|]. lia. }
  intros written. destruct (Z.eqb_spec (bytes_written p + zlen data) (piece_len (file_size m) k)) as [He|He].
  - apply (triple_file' key m); [by intros s []|]. intros file' Hm' _.
    eapply triple_weaken; [apply (triple_complete key m k p file'); done|tauto|]. by intros b s (m' & [Hs _] & _).
  - eapply triple_weaken; [apply (triple_extend key m k p (bytes_written p + zlen data) now written)|by intros s []|by intros b s [_ []]].
    + done.
    + intros Hv. destruct (Hver Hv) as [Hbl _]. lia.
    + lia.
Qed.

(** A transfer that nobody knows to have a piece. *)
Definition unverified (key : list Z) (k : nat) (s : core_t) : Prop :=
  (∀ m, cached s !! key = Some m → ¬ verified_at m k) ∧ (∀ d, on_disk s !! key = Some (Some d) → ¬ verified_at d k).

Lemma triple_load_unverified key k now : triple (λ s, store_ok s ∧ unverified key k s) (load_manifest key now)
  (λ m s, at_key key m s ∧ ¬ verified_at m k).
Proof.
  intros w [Hs [U1 U2]]. pose proof (triple_load key now w Hs) as Hl. revert Hl.
  unfold load_manifest, mbind, tm_bind, get. cbn beta iota. destruct (w_cache w !! key) as [m|] eqn:Hc.
  { intros Hat. split; [exact Hat|by apply U1]. }
  destruct (io_step w) as [w1 [[]|e|]]; [|done..].
  destruct (w_manifests w !! key) as [[m|]|] eqn:Hd; [|done..]. cbn. intros Hat. split; [exact Hat|by apply U2].
Qed.

Lemma triple_store_piece key k data now : Z.of_nat k < 2 ^ 32 →
  triple (λ s, store_ok s ∧ unverified key k s) (store_piece_data md4 sha1 hex_encode hex_decode key (Z.of_nat k) data now)
    (λ _, store_ok).
Proof.
  intros Hk32. eapply triple_bind; [apply triple_load_unverified|]. intros m. cbv beta zeta.
  apply triple_pure with (¬ verified_at m k); [tauto|]. intros Hnv.
  apply (triple_file' key m); [tauto|]. intros file Hm _.
  rewrite (mo_piece_size _ _ _ _ _ Hm), expected_piece_length_spec by (apply Hm || done). fold (piece_off k).
  destruct (Z.eqb_spec (zlen data) (Z.max 0 (piece_len (file_size m) k))) as [Hd|]; [|apply triple_fail; by intros s [[]]].
  assert (Hoff : 0 ≤ piece_off k) by (unfold piece_off, ED2K_PART_SIZE; lia).
  assert (Hple : piece_len (file_size m) k ≤ ED2K_PART_SIZE) by (unfold piece_len, chunk_at; lia).
  cbn [negb]. eapply triple_bind; [apply triple_open_create|]. intros [].
  eapply triple_bind; [apply (triple_write key m file k); [done|right; split; [done|unfold ED2K_PART_SIZE in *; lia]]|]. intros written.
  eapply triple_bind; [apply (triple_flush written); by intros s [[]]|]. intros [].
  apply (triple_file' key m); [by intros s [[]]|]. intros file' Hm' (s0 & [[_ Hf0] Hwr] & Hf1). specialize (Hf0 Hwr). rewrite Hf1 in Hf0. clear Hf1.
  assert (Hi : find_piece m (Z.of_nat k) = pieces m !! k).
  { destruct (find_piece_at key file m (Z.of_nat k) Hm ltac:(lia)) as (-> & _). by rewrite Nat2Z.id. }
  rewrite Hi. destruct (pieces m !! k) as [p|] eqn:Hk.
  2:{ eapply triple_bind with (λ _, store_ok); [|intros b; by apply triple_fail].
      apply triple_lift; [by intros s [[]]| |by intros b s _ [[]]].
      by destruct (verify_spec _ _ _ hex_roundtrip _ _ _ k data Hm) as (h & _ & _ & Hnp & _). }
  destruct (mo_bounds _ _ _ _ _ _ _ Hm Hk) as (_ & Hlen & _ & _). rewrite Z.max_r in * by lia.
  destruct (verify_spec _ _ _ hex_roundtrip _ _ _ k data Hm') as (h & Hh & Hkey & Hnp & Hauth).
  assert (Hfile : piece_off k + piece_len (file_size m) k ≤ zlen file' ∧
    slice file' (piece_off k) (piece_len (file_size m) k) = data).
  { rewrite Hf0, <- Hd. split; [|by apply slice_write_self]. apply (write_at_length _ data file Hoff). intros ->. rewrite zlen_nil in *. lia. }
  eapply triple_bind with (λ b s, (at_key key m s ∧ file_of s key = file') ∧ (b = true → authentic md4 h (file_size m) k data)).
  { apply triple_lift; [by intros s [[]]|done|]. intros b s Hb Hs. split; [done|]. intros ->. by apply Hauth. }
  intros b. apply triple_pure with (b = true → authentic md4 h (file_size m) k data); [tauto|]. intros Hb.
  assert (Hbv : b = true → piece_off k + piece_len (file_size m) k ≤ zlen file' ∧
     authentic md4 h (file_size m) k (slice file' (piece_off k) (piece_len (file_size m) k))).
  { intros ->. destruct Hfile as [? ->]. split; [done|by apply Hb]. }
  eapply triple_bind with (λ m' s, store_ok s ∧ manifest_ok key (file_of s key) m').
  { eapply triple_weaken; [by apply (triple_settle key m k p file' b h)|tauto|].
    intros m' s ((Hs & _) & Hfs & Hsame). split; [done|]. rewrite Hfs.
    eapply manifest_ok_same; [exact Hsame|]. by eapply manifest_ok_settled. }
  intros m'. eapply triple_bind; [apply triple_upsert|]. intros [].
  eapply triple_weaken; [apply (triple_store key)|done|]. by intros [] s [[] _].
Qed.

Lemma triple_read_range hash start end_ now : triple store_ok (read_verified_range hash start end_ now)
  (λ r s, store_ok s ∧ ∀ bytes, r = Some bytes → ∃ m, at_key (hash_display hash) m s ∧
     existsb (in_range_of start end_) (verified_ranges m) = true ∧
     bytes = slice (file_of s (hash_display hash)) start (saturating_sub end_ start)).
Proof.
  eapply triple_bind; [apply triple_load|]. intros m. destruct (existsb _ _) eqn:He.
  - apply triple_file. intros file Hm. eapply triple_bind; [apply triple_read|]. intros bytes. apply triple_ret.
    intros s (Hs & Hf & -> & _). split; [apply Hs|]. intros b [= <-]. exists m. by rewrite Hf.
  - apply triple_ret. intros s [Hs _]. by split.
Qed.

(** *** New manifests *)

(** The jobs the agent starts: eD2k hashes, parts of the standard size. *)
Definition job_ok (job : Ed2kTransferJob) : Prop :=
  (∃ h, wf_Ed2kHash h = true ∧ tj_file_hash job = hash_display h) ∧
  tj_piece_size job = ED2K_PART_SIZE ∧ size_ok (tj_file_size job) = true.

Lemma piece_count_spec size : size_ok size = true → piece_count size ED2K_PART_SIZE = Ok (Z.of_nat (parts_of size)).
Proof.
  intros Hs. assert (H := Hs). unfold size_ok in H. bool_hyps. unfold piece_count, parts_of.
  pose proof (chunk_count_spec size ED2K_PART_SIZE eq_refl ltac:(lia)) as Hn. cbn zeta in Hn.
  destruct (Z.eqb_spec size 0) as [->|]; [done|]. cbn [Z.eqb ED2K_PART_SIZE].
  rewrite div_ceil_chunk_count, try_from_u_fits; [cbn; f_equal; lia|..|done|lia]. apply is_u_spec.
  change (2 ^ 32) with 4294967296. unfold U32_MAX, ED2K_PART_SIZE in *. lia.
Qed.

Lemma pieces_from_lookup n make k p : pieces_from (Z.of_nat n) make !! k = Some p ↔ (k < n)%nat ∧ p = make (Z.of_nat k).
Proof.
  unfold pieces_from. rewrite Nat2Z.id, !list_lookup_fmap. destruct (decide (k < n)%nat) as [Hk|Hk].
  - rewrite lookup_seq_lt by done. cbn. naive_solver.
  - rewrite lookup_seq_ge by lia. cbn. naive_solver.
Qed.
Lemma length_pieces_from n make : length (pieces_from (Z.of_nat n) make) = n.
Proof. unfold pieces_from. by rewrite !length_fmap, length_seq, Nat2Z.id. Qed.

Lemma ranges_none ps size l : forallb (λ p, negb (is_verified p)) l = true → ranges_loop ps size l [] None = [].
Proof. induction l as [|p l IH]; [done|]. cbn. by destruct (is_verified p). Qed.
Lemma missing_unverified n : forallb (λ p, negb (is_verified p)) (pieces_from (Z.of_nat n) missing_piece) = true.
Proof.
  apply forallb_forall. intros p [k Hk]%list_elem_of_In%list_elem_of_lookup_1. by apply pieces_from_lookup in Hk as [_ ->].
Qed.

(** A manifest without progress describes any payload. *)
Lemma manifest_ok_fresh key file m h : wf_Ed2kHash h = true → key = hash_display h → file_hash m = key →
  size_ok (file_size m) = true → piece_size m = ED2K_PART_SIZE → completed m = false → md4_hashset_acquired m = false →
  verified_ranges m = [] → pieces m = pieces_from (Z.of_nat (parts_of (file_size m))) missing_piece →
  manifest_ok key file m.
Proof.
  intros Hh Hk Hf Hs Hps Hc Hmd Hr Hp. split; try done.
  - by rewrite Hp, length_pieces_from.
  - rewrite Hr, Hp, ranges_none; [done|]. apply missing_unverified.
  - by rewrite Hc.
  - exists h. split; [done|]. split; [done|]. split; [by rewrite Hmd|]. intros k p. rewrite Hp.
    intros [Hk' ->]%pieces_from_lookup. pose proof (parts_of_spec _ _ Hs Hk'). split; cbn; [done|lia|done|done].
Qed.

Lemma manifest_new_ok job file : job_ok job → ∃ m, manifest_new job = Ok m ∧ manifest_ok (tj_file_hash job) file m.
Proof.
  intros ((h & Hh & Hk) & Hps & Hs). unfold manifest_new. rewrite Hps, piece_count_spec by done.
  eexists. split; [done|]. by apply (manifest_ok_fresh _ _ _ h).
Qed.

Lemma triple_new job now : job_ok job →
  triple store_ok (m ← lift (manifest_new job); store_manifest m now;; mret m) (λ _, store_ok).
Proof.
  intros Hj. destruct (manifest_new_ok job [] Hj) as (m & Hm & _).
  assert (Hok : ∀ file, manifest_ok (tj_file_hash job) file m).
  { intros file. destruct (manifest_new_ok job file Hj) as (m' & Hm' & Hok). congruence. }
  eapply triple_bind with (λ a s, store_ok s ∧ a = m).
  { apply triple_lift; [done|by rewrite Hm|]. intros a s Ha Hs. split; [done|congruence]. }
  intros a. apply triple_pure with (a = m); [tauto|]. intros ->.
  eapply triple_bind with (λ _, store_ok); [|intros []; by apply triple_ret].
  eapply triple_weaken; [apply (triple_store (tj_file_hash job))| |by intros [] s [[] _]].
  intros s [Hs _]. split; [done|apply Hok].
Qed.

Lemma triple_quarantine key : triple store_ok (quarantine_corrupt_manifest key) (λ _, store_ok).
Proof.
  eapply triple_bind; [by apply triple_io_step|]. intros []. eapply triple_bind; [apply triple_get|]. intros w.
  destruct (w_manifests w !! key); [|apply triple_ret; tauto].
  eapply triple_bind with (λ _, store_ok); [eapply triple_weaken; [by apply (triple_io_step store_ok)|tauto|done]|]. intros [].
  apply triple_modify. intros w' Hs. apply (store_ok_lost (core w') (delete key (w_manifests w'))); [done|].
  intros key' m [_ H]%lookup_delete_Some. done.
Qed.

Lemma triple_ensure job now : job_ok job → triple store_ok (ensure_job job now) (λ _, store_ok).
Proof.
  intros Hj. eapply triple_bind; [by apply triple_io_step|]. intros []. eapply triple_bind; [by apply triple_io_step|].
  intros []. eapply triple_bind; [apply triple_get|]. intros w.
  apply (triple_weaken _ store_ok _ (λ _, store_ok)); [|tauto|done].
  destruct (w_manifests w !! tj_file_hash job); [|by apply triple_new].
  intros w' Hw. unfold load_manifest_or_rebuild. pose proof (triple_load (tj_file_hash job) now w' Hw) as Hl.
  destruct (load_manifest (tj_file_hash job) now w') as [w1 [m|e|]]; [by apply Hl| |done].
  revert w1 Hl. change (triple store_ok (quarantine_corrupt_manifest (tj_file_hash job);;
    m ← lift (manifest_new job); store_manifest m now;; mret m) (λ _, store_ok)).
  eapply triple_bind; [apply triple_quarantine|]. intros []. by apply triple_new.
Qed.

(** *** Metadata *)

Lemma triple_learned key m m' now : (∀ file, manifest_ok key file m → manifest_ok key file m') →
  triple (at_key key m) (store_manifest m' now;; upsert_verified_catalog_entry m') (λ _, at_key key m').
Proof.
  intros Hm. eapply triple_bind; [by apply triple_update|]. intros [].
  eapply triple_weaken; [apply triple_upsert|done|]. by intros [] s.
Qed.

Lemma learn_size_ok key file m size : manifest_ok key file m → (∀ n, size = Some n → size_ok n = true) →
  match learn_size size m with
  | Ok (m', _) => manifest_ok key file m'
  | Err _ => True
  | Panic => False
  end.
Proof.
  intros Hm Hs. unfold learn_size. destruct size as [n|]; [|done]. destruct (n =? 0); [done|].
  destruct (file_size m =? 0); [|by destruct (negb _)].
  destruct (manifest_has_structural_progress m) eqn:Hp; [done|]. unfold manifest_has_structural_progress in Hp. bool_hyps.
  rewrite (mo_piece_size _ _ _ _ _ Hm), piece_count_spec by (by apply Hs). cbn.
  destruct Hm as [? ? ? ? ? ? (h & ? & ? & _)]. apply (manifest_ok_fresh _ _ _ h); try done. by apply Hs.
Qed.

Lemma triple_reconcile key name size now : (∀ n, size = Some n → size_ok n = true) →
  triple store_ok (reconcile_job_metadata trim key name size now) (at_key key).
Proof.
  intros Hs. eapply triple_bind; [apply triple_load|]. intros m. destruct (learn_name trim name m) as [m1 named] eqn:Hn.
  assert (Hsame : same_payload m m1).
  { revert Hn. unfold learn_name. destruct (option_map trim name) as [n|]; [destruct (_ && _)|]; by intros [= <- <-]. }
  eapply triple_bind with (λ r s, at_key key m s ∧ learn_size size m1 = Ok r).
  - apply triple_file. intros file Hm. pose proof (learn_size_ok key file m1 size (manifest_ok_same _ _ _ _ Hsame Hm) Hs) as Hl.
    apply triple_lift; [by intros s [[]]|by intros E; rewrite E in Hl|]. intros a s E [Hat _]. done.
  - intros [m2 sized]. apply triple_pure with (learn_size size m1 = Ok (m2, sized)); [tauto|]. intros Hl.
    eapply triple_bind with (λ _, at_key key m2); [|intros []; by apply triple_ret].
    apply (triple_weaken _ (at_key key m) _ (λ _, at_key key m2)); [|tauto|done].
    destruct (named || sized) eqn:Hb.
    2:{ apply orb_false_iff in Hb as [-> ->]. assert (m2 = m) as ->; [|by apply triple_ret].
        revert Hn Hl. unfold learn_name, learn_size. repeat case_match; intros; simplify_eq; try done.
        all: by destruct (piece_count _ _); simplify_eq/=. }
    apply triple_learned. intros file Hm.
    pose proof (learn_size_ok key file m1 size (manifest_ok_same _ _ _ _ Hsame Hm) Hs) as Hok. by rewrite Hl in Hok.
Qed.

Lemma triple_md4 key (hashset : list (list Z)) now : Forall (λ x : list Z, wf_Ed2kHash x = true) hashset →
  triple store_ok (store_md4_hashset md4 hex_encode key hashset now) (at_key key).
Proof.
  intros Hw. eapply triple_bind; [apply triple_load|]. intros m.
  destruct (Z.eqb_spec (zlen hashset) (expected_md4_hash_count (file_size m))) as [Hl|]; [|apply triple_fail; by intros s []].
  cbn [negb]. apply triple_pure with (∃ file, manifest_ok key file m); [intros s Hs; eexists; by apply at_key_ok|].
  intros [f0 [_ _ _ _ _ _ (h & Hh & Hk & _)]].
  assert (Hv : validate_md4_hashset md4 key hashset ≠ Panic ∧
    (validate_md4_hashset md4 key hashset = Ok () → hashset ≠ [] → md4 (concat hashset) = h)).
  { unfold validate_md4_hashset. rewrite Hk, hash_from_str_display by done. cbn [map_err mbind res_bind].
    destruct hashset; [done|]. by case_bool_decide. }
  eapply triple_bind with (λ _ s, at_key key m s ∧ (hashset ≠ [] → md4 (concat hashset) = h)).
  { apply triple_lift; [by intros s []|apply Hv|]. intros [] s E Hs. split; [done|by apply Hv]. }
  intros []. apply triple_pure with (hashset ≠ [] → md4 (concat hashset) = h); [tauto|]. intros Hmd.
  set (m' := set_md4 _ m). eapply triple_bind with (λ _, at_key key m'); [|intros []; by apply triple_ret].
  apply (triple_weaken _ (at_key key m) _ (λ _, at_key key m')); [|tauto|done]. apply triple_update.
  intros file [? ? ? ? ? ? (h' & Hh' & Hk' & _ & Hp)].
  assert (h' = h) as ->.
  { pose proof (hash_from_str_display h' Hh') as E1. pose proof (hash_from_str_display h Hh) as E2. congruence. }
  split; try done. exists h. split; [done|]. split; [done|]. split; [|done]. intros _. by exists hashset.
Qed.

Lemma decode_hash_ok n e t : decode_hash hex_decode n e t ≠ Panic.
Proof. unfold decode_hash. destruct (hex_decode t); [by destruct (_ =? _)%nat|done]. Qed.

Lemma triple_aich key h now : triple store_ok (store_aich_hashset sha1 hex_encode hex_decode key h now) (at_key key).
Proof.
  eapply triple_bind; [apply triple_load|]. intros m.
  eapply triple_bind with (λ _, at_key key m).
  { destruct (aich_root m) as [root|]; [|by apply triple_ret].
    eapply triple_bind with (λ _, at_key key m); [apply triple_lift; [by intros s []|apply decode_hash_ok|done]|].
    intros x. case_bool_decide; [by apply triple_ret|apply triple_fail; by intros s []]. }
  intros []. eapply triple_bind with (λ _, at_key key m).
  { apply triple_file. intros file Hm. apply triple_lift; [by intros s [[]]| |by intros [] s _ []].
    apply validate_aich_fuel. pose proof (mo_size _ _ _ _ _ Hm) as Hs. unfold size_ok in Hs. bool_hyps. done. }
  intros []. eapply triple_bind; [apply triple_update|].
  - intros file. apply manifest_ok_same, same_payload_aich.
  - intros []. eapply triple_bind; [apply triple_upsert|]. intros []. by apply triple_ret.
Qed.

Lemma triple_root key root now : triple store_ok (reconcile_aich_root hex_encode key root now) (at_key key).
Proof.
  eapply triple_bind; [apply triple_load|]. intros m. destruct root as [root|]; [|by apply triple_ret].
  destruct (aich_root m) as [r|]; [case_bool_decide; [by apply triple_ret|apply triple_fail; by intros s []]|].
  eapply triple_bind; [apply triple_update|].
  - intros file. apply manifest_ok_same, same_payload_aich.
  - intros []. eapply triple_bind; [apply triple_upsert|]. intros []. by apply triple_ret.
Qed.

Lemma triple_remember key source now : triple store_ok (remember_source key source now) (λ _, store_ok).
Proof.
  eapply triple_bind; [apply triple_load|]. intros m. case_bool_decide; [apply triple_ret; by intros s []|].
  eapply triple_at_store, triple_update. intros file. apply manifest_ok_same. repeat split.
Qed.

Lemma triple_existing hash now : triple store_ok (existing_manifest hash now)
  (λ r s, store_ok s ∧ ∀ m, r = Some m → at_key (hash_display hash) m s).
Proof.
  eapply triple_bind; [by apply triple_io_step|]. intros []. eapply triple_bind; [apply triple_get|]. intros w.
  destruct (w_manifests w !! hash_display hash); [|apply triple_ret; intros s []; by split].
  eapply triple_bind with (at_key (hash_display hash)).
  - eapply triple_weaken; [apply triple_load|tauto|done].
  - intros m. apply triple_ret. intros s Hs. split; [apply Hs|]. by intros m' [= <-].
Qed.

Lemma collect_results_ok {A B} (f : A → res TransferError B) l : (∀ x, f x ≠ Panic) → collect_results f l ≠ Panic.
Proof.
  intros Hf. induction l as [|x l IH]; [done|]. cbn. specialize (Hf x). destruct (f x); [|done..]. cbn.
  by destruct (collect_results f l).
Qed.

Lemma triple_md4_known hash now : triple store_ok (md4_hashset_known hex_decode hash now) (λ _, store_ok).
Proof.
  eapply triple_bind; [apply triple_existing|]. intros [m|]; [|apply triple_ret; tauto].
  destruct (md4_hashset_acquired m); [|apply triple_ret; tauto].
  eapply triple_bind with (λ _, store_ok); [|intros; by apply triple_ret].
  apply triple_lift; [tauto| |tauto]. apply collect_results_ok. intros; apply decode_hash_ok.
Qed.

Lemma triple_aich_known hash now : triple store_ok (aich_hashset_known sha1 hex_decode hash now) (λ _, store_ok).
Proof.
  eapply triple_bind; [apply triple_existing|]. intros [m|]; [|apply triple_ret; tauto].
  destruct (_ || _); [apply triple_ret; tauto|].
  eapply triple_bind with (λ _, store_ok); [|intros; by apply triple_ret].
  apply triple_pure with (0 ≤ file_size m).
  { intros s [_ Hs]. pose proof (mo_size _ _ _ _ _ (at_key_ok _ _ _ (Hs m eq_refl))) as H. unfold size_ok in H. by bool_hyps. }
  intros Hsz. apply triple_lift; [tauto| |tauto]. unfold decode_manifest_aich_hashset.
  destruct (aich_root m) as [r|]; [|done]. unfold decode_aich_hash_hex. pose proof (decode_hash_ok 20 EAichHash r) as Hr.
  destruct (decode_hash hex_decode 20 EAichHash r); [|done..]. cbn [mbind res_bind].
  pose proof (collect_results_ok (decode_hash hex_decode 20 EAichHash) (aich_hashset m) (decode_hash_ok _ _)) as Hc.
  destruct (collect_results _ _) as [parts|e|]; [|done..]. cbn [mbind res_bind]. destruct (aich_hashset_acquired m); [|done].
  pose proof (validate_aich_fuel sha1 (file_size m) (mkAich a parts) Hsz) as Hv.
  by destruct (validate_aich_hashset _ _ _).
Qed.

(** *** Sharing a local file *)

Lemma authentic_parts file k : 0 < zlen file < (MAX_PARTS + 1) * ED2K_PART_SIZE → (k < parts_of (zlen file))%nat →
  valid_hashset md4 (ed2k_hash_of md4 file) (zlen file) (md4_hashset_of md4 file) ∧
  authentic md4 (ed2k_hash_of md4 file) (zlen file) k (slice file (piece_off k) (piece_len (zlen file) k)).
Proof.
  intros Hs Hk.
  assert (Hv : valid_hashset md4 (ed2k_hash_of md4 file) (zlen file) (md4_hashset_of md4 file)).
  { split; [by apply md4_hashset_length|]. unfold md4_hashset_of, ed2k_hash_of. destruct (zlen file <? ED2K_PART_SIZE) eqn:Hlt.
    - by split; [constructor|].
    - split; [|intros _; unfold md4_hashset_of; by rewrite Hlt]. apply Forall_app. split.
      + apply List.Forall_forall. intros x (y & -> & _)%list_elem_of_In%list_elem_of_fmap. apply md4_hash.
      + destruct (_ =? _); [apply Forall_singleton, md4_hash|constructor]. }
  split; [done|]. exists (md4_hashset_of md4 file). split; [done|].
  pose proof (chunk_count_spec (zlen file) ED2K_PART_SIZE eq_refl ltac:(lia)) as Hn. cbn zeta in Hn.
  unfold md4_hashset_of, ed2k_hash_of. destruct (Z.ltb_spec (zlen file) ED2K_PART_SIZE) as [Hlt|Hge].
  - unfold parts_of in Hk. rewrite single_chunk in Hk by (done || lia). assert (k = 0%nat) as -> by lia.
    f_equal. unfold slice, piece_off, piece_len, chunk_at. change (Z.of_nat 0 * ED2K_PART_SIZE) with 0.
    rewrite Z.min_r, Z.sub_0_r by lia. change (drop (Z.to_nat 0) file) with file. apply firstn_all2. unfold zlen. lia.
  - assert (Hc : chunks file (zlen file) ED2K_PART_SIZE !! k = Some (slice file (piece_off k) (piece_len (zlen file) k))).
    { unfold chunks. rewrite list_lookup_fmap, lookup_seq_lt by done. done. }
    assert (Hl : ((md4 <$> chunks file (zlen file) ED2K_PART_SIZE) ++
      (if zlen file mod ED2K_PART_SIZE =? 0 then [md4 []] else [])) !! k = Some (md4 (slice file (piece_off k) (piece_len (zlen file) k)))).
    { apply lookup_app_l_Some. by rewrite list_lookup_fmap, Hc. }
    destruct (_ ++ _) as [|x l] eqn:He; [done|]. done.
Qed.

Lemma ingested_ok file name aich : 0 < zlen file < (MAX_PARTS + 1) * ED2K_PART_SIZE →
  let key := hash_display (ed2k_hash_of md4 file) in
  ∃ m, ingested_manifest hex_encode (new_transfer_job (ed2k_hash_of md4 file) name (zlen file)) (md4_hashset_of md4 file) aich = Ok m ∧
    manifest_ok key file m ∧ completed m = true ∧ file_size m = zlen file.
Proof.
  intros Hs key. assert (Hsz : size_ok (zlen file) = true).
  { unfold size_ok, MAX_PARTS, U32_MAX, ED2K_PART_SIZE in *. apply andb_true_iff. split; apply Z.leb_le; lia. }
  unfold ingested_manifest, manifest_new, new_transfer_job. cbn [tj_file_size tj_piece_size tj_file_hash tj_canonical_name].
  rewrite piece_count_spec by done. cbn [mbind res_bind file_size piece_size]. rewrite piece_count_spec by done. cbn [mbind res_bind].
  eexists. split; [done|]. split; [|done].
  assert (Hwf : wf_Ed2kHash (ed2k_hash_of md4 file) = true) by (unfold ed2k_hash_of; destruct (_ <? _); apply md4_hash).
  split; cbn; try done.
  - by rewrite length_pieces_from.
  - intros _. apply forallb_forall. intros p [k Hk]%list_elem_of_In%list_elem_of_lookup_1. by apply pieces_from_lookup in Hk as [_ ->].
  - exists (ed2k_hash_of md4 file). split; [done|]. split; [done|].
    pose proof (chunk_count_spec (zlen file) ED2K_PART_SIZE eq_refl ltac:(lia)) as Hn. cbn zeta in Hn.
    split; [intros _; exists (md4_hashset_of md4 file); split; [done|]; apply (authentic_parts file 0);
      [done|unfold parts_of, ED2K_PART_SIZE in *; lia]|].
    intros k p [Hk ->]%pieces_from_lookup. destruct (parts_of_spec _ _ Hsz Hk) as (_ & Hl & Hend & He). rewrite He.
    split; cbn; [done|lia|intros _; lia|]. intros _. split; [done|]. by apply authentic_parts.
Qed.

(** The file to share is not too large, and no other manifest describes its payload. *)
Definition ingest_ok (source : ingest_source) (s : core_t) : Prop :=
  ∀ bytes, match source with LocalFile b => Some b | PayloadOf key => snd s !! key end = Some bytes →
    zlen bytes < (MAX_PARTS + 1) * ED2K_PART_SIZE ∧
    let key := hash_display (ed2k_hash_of md4 bytes) in
    source = PayloadOf key ∨ (cached s !! key = None ∧ ∀ m, on_disk s !! key ≠ Some (Some m)).

Lemma triple_copy key bytes :
  triple (λ s, store_ok s ∧ cached s !! key = None ∧ ∀ m, on_disk s !! key ≠ Some (Some m)) (copy_payload key bytes)
    (λ _ s, store_ok s ∧ snd s !! key = Some bytes).
Proof.
  assert (Hw : ∀ b w, store_ok (core w) → cached (core w) !! key = None → (∀ m, on_disk (core w) !! key ≠ Some (Some m)) →
    store_ok (core (set_payloads (<[key := b]> (w_payloads w)) w))).
  { intros b w Hs Hc Hd. apply (store_ok_payloads (core w)); [done|]. intros key' m Hm Hin. cbn. rewrite file_of_insert.
    destruct (decide (key' = key)) as [->|]; [|done]. destruct Hin; [congruence|]. by destruct (Hd m). }
  eapply triple_bind; [apply triple_io|]. intros [n|].
  - eapply triple_bind with (λ _, store_ok); [|intros []; by apply triple_fail].
    apply triple_modify. intros w (Hs & Hc & Hd). by apply Hw.
  - apply triple_modify. intros w (Hs & Hc & Hd). split; [by apply Hw|]. cbn. by rewrite lookup_insert_eq.
Qed.

Lemma triple_ingest source name now : triple (λ s, store_ok s ∧ ingest_ok source s)
  (ingest_local_file md4 sha1 hex_encode trim source name now) (λ _, store_ok).
Proof.
  unfold ingest_local_file. case_bool_decide; [by apply triple_fail; intros s []|].
  eapply triple_bind; [apply triple_io_step; by intros s []|]. intros [].
  eapply triple_bind; [apply triple_io_step; by intros s []|]. intros []. eapply triple_bind; [apply triple_get|]. intros w.
  destruct (source_bytes w source) as [bytes|] eqn:Hsrc; [|apply triple_fail; by intros s [[]]].
  destruct (Z.eqb_spec (zlen bytes) 0) as [|H0]; [apply triple_fail; by intros s [[]]|].
  assert (Hpos : 0 < zlen bytes) by (pose proof (zlen_nonneg bytes); lia).
  apply triple_pure with (ingest_ok source (core w)); [intros s [[_ Hi] <-]; done|]. intros Hi.
  assert (Hi' : zlen bytes < (MAX_PARTS + 1) * ED2K_PART_SIZE ∧ (source = PayloadOf (hash_display (ed2k_hash_of md4 bytes)) ∨
    (cached (core w) !! hash_display (ed2k_hash_of md4 bytes) = None ∧
     ∀ m, on_disk (core w) !! hash_display (ed2k_hash_of md4 bytes) ≠ Some (Some m)))).
  { apply Hi. revert Hsrc. unfold source_bytes. by destruct source. }
  destruct Hi' as [Hmax Hsrc']. set (key := hash_display (ed2k_hash_of md4 bytes)) in *.
  eapply triple_bind; [apply triple_io_step; by intros s [[]]|]. intros [].
  eapply triple_bind with (λ r s, (store_ok s ∧ core w = s) ∧ r = (ed2k_hash_of md4 bytes, md4_hashset_of md4 bytes)).
  { rewrite md4_hashset_spec by done. rewrite (proj2 (Z.leb_le _ _)) by lia. cbn zeta.
    rewrite firstn_all2 by (unfold zlen; lia). apply triple_lift; [by intros s [[]]|done|]. intros a s [= <-] [[Hs _] Hw]. done. }
  intros [hash hs]. apply triple_pure with ((hash, hs) = (ed2k_hash_of md4 bytes, md4_hashset_of md4 bytes)); [tauto|].
  intros [= -> ->]. cbv zeta. cbn [new_transfer_job tj_file_hash]. fold key.
  eapply triple_bind with (λ _ s, store_ok s ∧ core w = s).
  { eapply triple_weaken; [apply (triple_io_step (λ s, store_ok s ∧ core w = s)); tauto|tauto|done]. }
  intros []. eapply triple_bind with (λ _ s, store_ok s ∧ snd s !! key = Some bytes).
  { case_bool_decide as Hsame.
    - apply triple_ret. intros s [Hs <-]. split; [done|]. rewrite Hsame in Hsrc. exact Hsrc.
    - eapply triple_weaken; [apply (triple_copy key bytes)| |done]. intros s [Hs <-]. split; [done|]. by destruct Hsrc'. }
  intros []. eapply triple_bind with (λ f s, (store_ok s ∧ snd s !! key = Some bytes) ∧ f = bytes).
  { eapply triple_bind; [apply triple_io_step; by intros s []|]. intros []. eapply triple_bind; [apply triple_get|].
    intros w' w0 [[Hs Hb] Hw].
    assert (Hb' := Hb). rewrite <- Hw in Hb'. cbn in Hb'. rewrite Hb'. done. }
  intros f. apply triple_pure with (f = bytes); [tauto|]. intros ->.
  eapply triple_bind with (λ _ s, store_ok s ∧ snd s !! key = Some bytes).
  { apply triple_lift; [by intros s [[]]| |tauto]. rewrite aich_hashset_spec by done. by destruct (_ <=? _). }
  intros aich. destruct (ingested_ok bytes (trim name) aich ltac:(done)) as (m & Hm & Hok & _).
  eapply triple_bind with (λ r s, (store_ok s ∧ manifest_ok key (file_of s key) r) ∧ r = m).
  { rewrite Hm. apply triple_lift; [by intros s []|done|]. intros r s [= <-] [Hs Hb].
    split; [|done]. split; [done|]. unfold file_of. by rewrite Hb. }
  intros r. apply triple_pure with (r = m); [tauto|]. intros ->.
  eapply triple_bind with (λ _, store_ok); [eapply triple_weaken; [apply (triple_store key)|tauto|by intros [] s [[] _]]|]. intros [].
  eapply triple_bind; [apply triple_upsert|]. intros []. by apply triple_ret.
Qed.

(** ** Sequences of operations *)

Inductive tx_op : Type :=
| OEnsure (job : Ed2kTransferJob)
| OClaim (key : list Z)
| ORelease (key : list Z) (i : Z)
| OReclaim (key : list Z)
| OAppend (key : list Z) (i start end_ : Z) (data : list Z)
| OStorePiece (key : list Z) (i : Z) (data : list Z)
| ORead (hash : Ed2kHash) (start end_ : Z)
| OReconcile (key : list Z) (name : option (list Z)) (size : option Z)
| OMd4 (key : list Z) (hashset : list (list Z))
| OAich (key : list Z) (h : Ed2kAichHashset)
| ORoot (key : list Z) (root : option (list Z))
| ORemember (key : list Z) (source : Ed2kSourceHint)
| OLocalEntry (hash : Ed2kHash)
| OMd4Known (hash : Ed2kHash)
| OAichKnown (hash : Ed2kHash)
| OIngest (source : ingest_source) (name : list Z)
| ORestart (dirs : list (list Z)).

Definition ignore {A} (m : TM A) : TM () := m;; mret ().
Definition run_op (op : tx_op) (now : Z) : TM () :=
  match op with
  | OEnsure job => ignore (ensure_job job now)
  | OClaim key => ignore (claim_next_missing_part key now)
  | ORelease key i => release_piece_request key i now
  | OReclaim key => ignore (reclaim_stale_piece_requests key now)
  | OAppend key i a b data => ignore (append_piece_block md4 sha1 hex_encode hex_decode key i a b data now)
  | OStorePiece key i data => store_piece_data md4 sha1 hex_encode hex_decode key i data now
  | ORead hash a b => ignore (read_verified_range hash a b now)
  | OReconcile key name size => ignore (reconcile_job_metadata trim key name size now)
  | OMd4 key hs => ignore (store_md4_hashset md4 hex_encode key hs now)
  | OAich key h => ignore (store_aich_hashset sha1 hex_encode hex_decode key h now)
  | ORoot key r => ignore (reconcile_aich_root hex_encode key r now)
  | ORemember key src => remember_source key src now
  | OLocalEntry hash => ignore (local_entry hash now)
  | OMd4Known hash => ignore (md4_hashset_known hex_decode hash now)
  | OAichKnown hash => ignore (aich_hashset_known sha1 hex_decode hash now)
  | OIngest src name => ignore (ingest_local_file md4 sha1 hex_encode trim src name now)
  | ORestart dirs => modify (load_or_create dirs)
  end.

(** What the callers respect: the types of the arguments, the sizes a transfer can
    have, and, for the two operations that overwrite, that they do not do so under a
    manifest that vouches for the old bytes. *)
Definition op_ok (op : tx_op) (s : core_t) : Prop :=
  match op with
  | OEnsure job => job_ok job
  | ORelease _ i | OAppend _ i _ _ _ => 0 ≤ i
  | OStorePiece key i _ => 0 ≤ i < 2 ^ 32 ∧ unverified key (Z.to_nat i) s
  | OReconcile _ _ size => ∀ n, size = Some n → size_ok n = true
  | OMd4 _ hs => Forall (λ x : list Z, wf_Ed2kHash x = true) hs
  | OIngest src _ => ingest_ok src s
  | _ => True
  end.

Lemma triple_ignore {A} (m : TM A) P : triple P m (λ _, store_ok) → triple P (ignore m) (λ _, store_ok).
Proof. intros H. eapply triple_bind; [exact H|]. intros a. by apply triple_ret. Qed.

Lemma triple_when {A} (φ : core_t → Prop) (ψ : Prop) (m : TM A) : (∀ s, φ s → ψ) →
  (ψ → triple store_ok m (λ _, store_ok)) → triple (λ s, store_ok s ∧ φ s) m (λ _, store_ok).
Proof.
  intros H Hm. apply triple_pure with ψ; [intros s [_ Hs]; by eapply H|]. intros Hp.
  eapply triple_weaken; [by apply Hm|tauto|done].
Qed.

Lemma triple_op op now : triple (λ s, store_ok s ∧ op_ok op s) (run_op op now) (λ _, store_ok).
Proof.
  destruct op as [job|key|key i|key|key i start end_ data|key i data|hash start end_|key name size|key hs|key h|key root|
    key src|hash|hash|hash|src name|dirs]; cbn [run_op op_ok].
  - eapply triple_when; [done|]. intros. by apply triple_ignore, triple_ensure.
  - eapply triple_when; [done|]. intros. apply triple_ignore.
    eapply triple_weaken; [apply triple_claim|done|]. by intros r s [].
  - eapply triple_when; [done|]. intros. by apply triple_release.
  - eapply triple_when; [done|]. intros. apply triple_ignore, triple_reclaim.
  - eapply triple_when; [done|]. intros. by apply triple_ignore, triple_append.
  - apply triple_pure with (0 ≤ i < 2 ^ 32); [tauto|]. intros Hi.
    destruct (Z_of_nat_complete i ltac:(lia)) as [k ->]. rewrite Nat2Z.id.
    eapply triple_weaken; [apply (triple_store_piece key k)|..]; [lia|tauto|done].
  - eapply triple_when; [done|]. intros. apply triple_ignore.
    eapply triple_weaken; [apply triple_read_range|done|]. by intros r s [].
  - eapply triple_when; [done|]. intros. apply triple_ignore, (triple_at_any key). by apply triple_reconcile.
  - eapply triple_when; [done|]. intros. apply triple_ignore, (triple_at_any key). by apply triple_md4.
  - eapply triple_when; [done|]. intros. apply triple_ignore, (triple_at_any key), triple_aich.
  - eapply triple_when; [done|]. intros. apply triple_ignore, (triple_at_any key), triple_root.
  - eapply triple_when; [done|]. intros. apply triple_remember.
  - eapply triple_when; [done|]. intros. apply triple_ignore. eapply triple_bind; [apply triple_existing|].
    intros m. apply triple_ret. tauto.
  - eapply triple_when; [done|]. intros. apply triple_ignore, triple_md4_known.
  - eapply triple_when; [done|]. intros. apply triple_ignore, triple_aich_known.
  - apply triple_ignore, triple_ingest.
  - apply triple_modify. intros w [[H1 H2 H3] _]. split; cbn; [done|exact H2|done].
Qed.

(** The states of the store: from an empty one, with any pattern of failures. *)
Inductive tx_reach : world → Prop :=
| tx_start faults : tx_reach (mkWorld [] [] ∅ ∅ ∅ ∅ ∅ faults)
| tx_step w op now : tx_reach w → op_ok op (core w) → tx_reach (fst (run_op op now w)).

Lemma tx_reach_ok w : tx_reach w → store_ok (core w).
Proof.
  induction 1 as [faults|w op now _ IH Hop]; [by split|].
  pose proof (triple_op op now w (conj IH Hop)) as H. by destruct (run_op op now w) as [w' [[]|e|]].
Qed.
End triples.

(** ** Properties *)

(** C23. Every manifest describes its payload, through any sequence of operations that
    respects [op_ok], with the disk failing anywhere, also in writes whose error nobody
    sees, and restarts in between: whether in the cache or on the disk, it has the pieces
    of its size, verified ranges that are those of its verified pieces, and every piece it
    calls verified lies in the payload, with bytes that the hash naming the file stands
    for; a manifest that is completed has only such pieces. No such operation panics.
    What [op_ok] asks: a size, also one that a peer reports, is of at most 2^32 - 1 parts;
    a whole piece is stored only where no manifest calls it verified; and a file that is
    ingested has fewer than 65,535 parts and no manifest yet, or is itself the payload of
    its manifest. Ingesting a file again from elsewhere is left out because a copy that
    then fails does break the manifest ([reingest_breaks]). *)
Theorem transfer_store_invariant md4 sha1 hex_encode hex_decode trim w :
  (∀ b, is_bytes b = true → hex_decode (hex_encode b) = Some b) → (∀ b, wf_Ed2kHash (md4 b) = true) →
  tx_reach md4 sha1 hex_encode hex_decode trim w →
  (∀ key m, w_cache w !! key = Some m ∨ w_manifests w !! key = Some (Some m) →
     manifest_ok md4 hex_encode key (payload w key) m) ∧
  (∀ op now, op_ok md4 op (core w) → snd (run_op md4 sha1 hex_encode hex_decode trim op now w) ≠ Panic).
Proof.
  intros Hhex Hmd Hr. pose proof (tx_reach_ok _ _ _ _ trim Hhex Hmd w Hr) as Hs. split.
  - intros key m [H|H]; [by apply (so_cache _ _ _ Hs key)|by apply (so_disk _ _ _ Hs key)].
  - intros op now Hop. pose proof (triple_op _ sha1 _ _ trim Hhex Hmd op now w (conj Hs Hop)) as H.
    by destruct (run_op _ _ _ _ _ op now w) as [w' []].
Qed.

(** A sample of the parameters, and a run in which the first write of the payload
    fails half-way. *)
Definition sum_hash (l : list Z) : list Z := replicate 16 (foldr Z.add 0 l mod 256).
Lemma sum_hash_wf b : wf_Ed2kHash (sum_hash b) = true.
Proof.
  unfold wf_Ed2kHash, sum_hash. rewrite length_replicate. cbn [Nat.eqb andb]. pose proof (Z.mod_pos_bound (foldr Z.add 0 b) 256 eq_refl).
  apply forallb_forall. intros x Hx%list_elem_of_In%elem_of_replicate_inv. subst x. apply is_u8_spec. lia.
Qed.
Definition sample_file : list Z := [1; 2; 3].
Definition sample_key : list Z := hash_display (sum_hash sample_file).
Definition sample_ops : list tx_op :=
  [OEnsure (new_transfer_job (sum_hash sample_file) [97] 3); OMd4 sample_key []; OClaim sample_key;
   OAppend sample_key 0 0 2 [1; 2]; ORestart [sample_key]; OReclaim sample_key; OClaim sample_key;
   OAppend sample_key 0 0 2 [1; 2]; OAppend sample_key 0 2 3 [3]].
Definition sample_run (ops : list tx_op) (w : world) : world :=
  foldl (λ w op, fst (run_op sum_hash sum_hash hex_text hex_bytes id op 0 w)) w ops.
Definition sample_world : world :=
  sample_run sample_ops (mkWorld [] [] ∅ ∅ ∅ ∅ ∅ (replicate 10 None ++ [Some 1])).

Lemma sample_run_reach ops w : tx_reach sum_hash sum_hash hex_text hex_bytes id w →
  Forall (λ op, ∀ s, op_ok sum_hash op s) ops → tx_reach sum_hash sum_hash hex_text hex_bytes id (sample_run ops w).
Proof. intros Hw Hops. revert w Hw. induction Hops as [|op ops Hop _ IH]; intros w Hw; [done|]. apply IH. by apply tx_step. Qed.
Lemma sample_reach : tx_reach sum_hash sum_hash hex_text hex_bytes id sample_world.
Proof.
  apply sample_run_reach; [apply tx_start|].
  repeat (constructor; [intros s; cbn [op_ok]; first [exact I|lia|by constructor|idtac]|]); [|constructor].
  split; [|vm_compute; done]. exists (sum_hash sample_file). split; [apply sum_hash_wf|reflexivity].
Qed.

Lemma transfer_store_invariant_witness :
  ∃ m, w_cache sample_world !! sample_key = Some m ∧ completed m = true ∧
    payload sample_world sample_key = sample_file ∧ manifest_ok sum_hash hex_text sample_key sample_file m.
Proof.
  destruct (w_cache sample_world !! sample_key) as [m|] eqn:Hm; [|vm_compute in Hm; discriminate].
  exists m. split; [done|]. split; [vm_compute in Hm; by injection Hm as <-|].
  assert (Hp : payload sample_world sample_key = sample_file) by (vm_compute; reflexivity). split; [done|].
  rewrite <- Hp. apply (transfer_store_invariant sum_hash sum_hash hex_text hex_bytes id sample_world hex_text_bytes sum_hash_wf);
    [exact sample_reach|left; exact Hm].
Defined.

(** What [op_ok] leaves out: a file that is shared is ingested again, and the copy fails. *)
Definition reingested : world * res TransferError () :=
  let ingest faults w := run_op sum_hash sum_hash hex_text hex_bytes id (OIngest (LocalFile sample_file) [97]) 0 (set_faults faults w) in
  ingest [None; None; None; None; Some 0] (fst (ingest [] (mkWorld [] [] ∅ ∅ ∅ ∅ ∅ []))).
Lemma reingest_breaks : snd reingested = Err EIo ∧
  ∃ m, w_cache (fst reingested) !! sample_key = Some m ∧ completed m = true ∧
    ¬ manifest_ok sum_hash hex_text sample_key (payload (fst reingested) sample_key) m.
Proof.
  split; [vm_compute; reflexivity|]. assert (Hp : payload (fst reingested) sample_key = []) by (vm_compute; reflexivity). rewrite Hp. clear Hp.
  destruct (w_cache (fst reingested) !! sample_key) as [m|] eqn:Hm; [|vm_compute in Hm; discriminate]. exists m. split; [done|].
  assert (Hf : completed m = true ∧ file_size m = 3 ∧ pieces m !! 0%nat = Some (mkPiece 0 Verified 3)) by (vm_compute in Hm; injection Hm as <-; done).
  destruct Hf as (Hc & Hs & H0). split; [done|]. intros Hok. destruct (mo_piece _ _ _ _ _ _ _ Hok H0) as (h & _ & _ & Hp).
  pose proof (po_payload _ _ _ _ _ _ Hp eq_refl) as Hl. rewrite Hs in Hl. vm_compute in Hl. by apply Hl.
Qed.
(** A block that is lost without a word: the manifest counts it, and only the
    verification of the piece finds out. *)
Definition after_lost_block : world * res TransferError () :=
  let w := sample_run [OEnsure (new_transfer_job (sum_hash sample_file) [97] 3); OMd4 sample_key []; OClaim sample_key] (mkWorld [] [] ∅ ∅ ∅ ∅ ∅ []) in
  run_op sum_hash sum_hash hex_text hex_bytes id (OAppend sample_key 0 0 2 [1; 2]) 0 (set_faults [None; None; None; Some 0] w).
Lemma lost_block : snd after_lost_block = Ok () ∧ payload (fst after_lost_block) sample_key = [] ∧
  pieces <$> w_cache (fst after_lost_block) !! sample_key = Some [mkPiece 0 Requested 2].
Proof. split; [vm_compute; reflexivity|]. split; vm_compute; reflexivity. Qed.

(** The bytes of a range are those of the file there, and each lies in a part that the
    hash stands for. *)
Definition range_authentic (md4 : list Z → list Z) (h file : list Z) (start end_ : Z) (bytes : list Z) : Prop :=
  bytes = slice file start (Z.max 0 (end_ - start)) ∧
  ∀ x, start ≤ x < end_ → ∃ size k, piece_off k ≤ x < piece_off k + piece_len size k ∧
    authentic md4 h size k (slice file (piece_off k) (piece_len size k)).
Lemma triple_read_authentic (md4 sha1 hex_encode trim : list Z → list Z) h start end_ now : wf_Ed2kHash h = true → 0 ≤ start →
  triple md4 hex_encode (store_ok md4 hex_encode) (read_verified_range h start end_ now)
    (λ r s, store_ok md4 hex_encode s ∧ ∀ bytes, r = Some bytes → range_authentic md4 h (file_of s (hash_display h)) start end_ bytes).
Proof.
  intros Hh H0. eapply triple_weaken; [by apply (triple_read_range md4 sha1 hex_encode trim)|done|].
  intros r s [Hs Ht]. split; [done|]. intros bytes Hb. destruct (Ht bytes Hb) as (m & Hat & Hin & ->).
  split; [unfold saturating_sub; f_equal; lia|].
  intros x Hx. apply existsb_exists in Hin as (r' & Hr'%list_elem_of_In & Hrange). unfold in_range_of in Hrange. bool_hyps.
  pose proof (at_key_ok _ _ _ _ _ Hat) as Hm. rewrite (mo_ranges _ _ _ _ _ Hm) in Hr'.
  destruct (ranges_loop_sound (file_size m) 0 (pieces m) [] None r') as [Hnil|Hall]; [apply Hm| | |done|done|..].
  - by rewrite (mo_count _ _ _ _ _ Hm).
  - intros j p Hj. by apply (mo_indexed _ _ _ _ _ Hm).
  - by apply elem_of_nil in Hnil.
  - destruct (Hall x ltac:(lia)) as [(s' & [=] & _)|(k & p & Hk & Hv & Hxk)].
    exists (file_size m), k. split; [done|]. destruct (mo_piece _ _ _ _ _ _ _ Hm Hk) as (h' & Hh' & Hkey & Hpo).
    assert (h' = h) as ->.
    { pose proof (hash_from_str_display h' Hh') as E1. pose proof (hash_from_str_display h Hh) as E2. congruence. }
    by apply (po_verified _ _ _ _ _ _ Hpo).
Qed.

(** C22. What is served to other peers is authentic: in every state the store can
    reach, the bytes answered for a range are those of the payload at that range, and
    each of them lies in a part that the requested hash stands for. *)
Theorem served_bytes_authentic md4 sha1 hex_encode hex_decode trim w h start end_ now w' bytes :
  (∀ b, is_bytes b = true → hex_decode (hex_encode b) = Some b) → (∀ b, wf_Ed2kHash (md4 b) = true) →
  tx_reach md4 sha1 hex_encode hex_decode trim w → wf_Ed2kHash h = true → 0 ≤ start →
  read_verified_range h start end_ now w = (w', Ok (Some bytes)) →
  let file := payload w' (hash_display h) in
  bytes = slice file start (Z.max 0 (end_ - start)) ∧
  ∀ x, start ≤ x < end_ → ∃ size k, piece_off k ≤ x < piece_off k + piece_len size k ∧
    authentic md4 h size k (slice file (piece_off k) (piece_len size k)).
Proof.
  intros Hhex Hmd Hr Hh H0 Hrd file. pose proof (tx_reach_ok _ _ _ _ trim Hhex Hmd w Hr) as Hs.
  pose proof (triple_read_authentic md4 sha1 hex_encode trim h start end_ now Hh H0 w Hs) as Ht. rewrite Hrd in Ht.
  by apply Ht.
Qed.

Lemma served_bytes_authentic_witness :
  ∃ w', read_verified_range (sum_hash sample_file) 1 3 0 sample_world = (w', Ok (Some [2; 3])) ∧
    [2; 3] = slice (payload w' sample_key) 1 2.
Proof.
  destruct (read_verified_range (sum_hash sample_file) 1 3 0 sample_world) as [w' r] eqn:Hr. exists w'.
  assert (r = Ok (Some [2; 3])) as ->.
  { apply (f_equal snd) in Hr. cbn in Hr. rewrite <- Hr. vm_compute. reflexivity. }
  split; [done|].
  apply (served_bytes_authentic sum_hash sum_hash hex_text hex_bytes id sample_world (sum_hash sample_file) 1 3 0 w' [2; 3]
    hex_text_bytes sum_hash_wf); [exact sample_reach|apply sum_hash_wf|lia|exact Hr].
Defined.
