(* ===== verification/TransferRun.v ===== *)
(** * Downloads and uploads through the transfer store

    What the operations of [Transfer] do when the disk works: a download whose blocks
    are those of the file, cut in any way, ends with the file, verified and served.
    [total P m Q]: from [P], the operation succeeds in [Q] of its result. *)

From S2P Require Import Prelude Net NodeId Text Hashset Transfer TransferOk.

Section total.
Context (md4 sha1 : list Z → list Z) (hex_encode : list Z → list Z) (hex_decode : list Z → option (list Z)).
Hypothesis hex_roundtrip : ∀ b, is_bytes b = true → hex_decode (hex_encode b) = Some b.
Hypothesis md4_hash : ∀ b, wf_Ed2kHash (md4 b) = true.

Definition total {A} (P : core_t → Prop) (m : TM A) (Q : A → core_t → Prop) : Prop :=
  ∀ w, w_faults w = [] → P (core w) → ∃ w' a, m w = (w', Ok a) ∧ w_faults w' = [] ∧ Q a (core w').

Lemma total_ret {A} (a : A) P (Q : A → core_t → Prop) : (∀ s, P s → Q a s) → total P (mret a) Q.
Proof. intros H w Hf Hw. exists w, a. split; [done|]. split; [done|]. by apply H. Qed.
Lemma total_bind {A B} (m : TM A) (k : A → TM B) P R Q :
  total P m R → (∀ a, total (R a) (k a) Q) → total P (m ≫= k) Q.
Proof.
  intros Hm Hk w Hf Hw. destruct (Hm w Hf Hw) as (w1 & a & E & Hf1 & Ha).
  destruct (Hk a w1 Hf1 Ha) as (w2 & b & E2 & Hf2 & Hb). exists w2, b. unfold mbind, tm_bind. by rewrite E.
Qed.
Lemma total_weaken {A} (m : TM A) (P P' : core_t → Prop) (Q Q' : A → core_t → Prop) :
  total P m Q → (∀ s, P' s → P s) → (∀ a s, Q a s → Q' a s) → total P' m Q'.
Proof.
  intros Hm HP HQ w Hf Hw. destruct (Hm w Hf (HP _ Hw)) as (w1 & a & E & Hf1 & Ha). exists w1, a.
  split; [done|]. split; [done|]. by apply HQ.
Qed.
Lemma total_pure {A} (m : TM A) (φ : Prop) P Q : (∀ s, P s → φ) → (φ → total P m Q) → total P m Q.
Proof. intros HP Hm w Hf Hw. by apply (Hm (HP _ Hw)). Qed.
Lemma total_lift {A} (r : res TransferError A) a P : r = Ok a → total P (lift r) (λ b s, b = a ∧ P s).
Proof. intros -> w Hf Hw. by exists w, a. Qed.
Lemma total_get P : total P get (λ w s, P s ∧ core w = s).
Proof. intros w Hf Hw. by exists w, w. Qed.
Lemma total_modify f P (Q : () → core_t → Prop) : (∀ w, w_faults (f w) = w_faults w) →
  (∀ w, P (core w) → Q () (core (f w))) → total P (modify f) Q.
Proof. intros Hff H w Hf Hw. exists (f w), (). split; [done|]. split; [by rewrite Hff|by apply H]. Qed.
Lemma total_io P : total P io (λ r s, r = None ∧ P s).
Proof. intros w Hf Hw. unfold io. rewrite Hf. by exists w, None. Qed.
Lemma total_io_step P : total P io_step (λ _, P).
Proof.
  eapply total_bind; [apply total_io|]. intros r. apply total_pure with (r = None); [tauto|]. intros ->.
  apply total_ret. tauto.
Qed.

(** The manifest of a transfer and the contents of its payload; [has] when the
    file exists. *)
Definition knows (key : list Z) (m : Ed2kResumeManifest) (file : list Z) (s : core_t) : Prop :=
  cached s !! key = Some m ∧ file_of s key = file.
Definition has (key : list Z) (m : Ed2kResumeManifest) (file : list Z) (s : core_t) : Prop :=
  cached s !! key = Some m ∧ snd s !! key = Some file.
Lemma has_knows key m file s : has key m file s → knows key m file s.
Proof. intros [H1 H2]. split; [done|]. unfold file_of. by rewrite H2. Qed.

Lemma total_load key m now (P : core_t → Prop) : (∀ s, P s → cached s !! key = Some m) →
  total P (load_manifest key now) (λ r s, r = m ∧ P s).
Proof.
  intros HP w Hf Hw. pose proof (HP _ Hw) as Hc. exists w, m. unfold load_manifest, get, mbind, tm_bind. cbn in *.
  by rewrite Hc.
Qed.

Lemma total_store m' now (R : gmap (list Z) (list Z) → Prop) : total (λ s, R (snd s)) (store_manifest m' now)
  (λ _ s, R (snd s) ∧ cached s !! file_hash m' = Some m' ∧ on_disk s !! file_hash m' = Some (Some m')).
Proof.
  eapply total_bind; [apply total_io_step|]. intros []. eapply total_bind; [apply total_io|]. intros r.
  apply total_pure with (r = None); [tauto|]. intros ->.
  eapply total_bind with (λ _ s, R (snd s) ∧ on_disk s !! file_hash m' = Some (Some m')).
  { apply total_modify; [done|]. intros w [_ Hw]. split; [done|]. unfold on_disk. cbn. by rewrite lookup_insert_eq. }
  intros []. eapply total_bind with (λ _ s, R (snd s) ∧ cached s !! file_hash m' = Some m' ∧
    on_disk s !! file_hash m' = Some (Some m')).
  { apply total_modify; [done|]. intros w [Hw Hd]. split; [done|]. split; [|done]. unfold cached. cbn. by rewrite lookup_insert_eq. }
  intros []. by apply total_modify.
Qed.
Lemma total_store_has key m m' file now : file_hash m' = key →
  total (has key m file) (store_manifest m' now) (λ _, has key m' file).
Proof.
  intros <-. eapply total_weaken; [apply (total_store m' now (λ p, p !! file_hash m' = Some file))|by intros s []|].
  by intros [] s (? & ? & _).
Qed.
Lemma total_store_knows key m m' file now : file_hash m' = key →
  total (knows key m file) (store_manifest m' now) (λ _, knows key m' file).
Proof.
  intros <-. eapply total_weaken; [apply (total_store m' now (λ p, default [] (p !! file_hash m') = file))|by intros s []|].
  by intros [] s (? & ? & _).
Qed.

Lemma total_open_create key m file : total (knows key m file) (open_create key) (λ _, has key m file).
Proof.
  eapply total_bind; [apply total_io_step|]. intros []. apply total_modify; [done|]. intros w [Hc Hf]. split; [done|].
  cbn. rewrite lookup_insert_eq. by rewrite <- Hf.
Qed.
Lemma total_write key m file off data :
  total (has key m file) (write_payload key off data) (λ written s, written = true ∧ has key m (write_at off data file) s).
Proof.
  eapply total_bind; [apply total_io_step|]. intros []. eapply total_bind; [apply total_io|]. intros r.
  apply total_pure with (r = None); [tauto|]. intros ->. eapply total_bind; [apply total_io|]. intros r.
  apply total_pure with (r = None); [tauto|]. intros ->.
  eapply total_bind with (λ _, has key m (write_at off data file)); [|intros []; by apply total_ret].
  apply total_modify; [done|]. intros w (_ & _ & Hc & Hf). split; [done|]. cbn in *. rewrite lookup_insert_eq. unfold payload. by rewrite Hf.
Qed.
Lemma total_flush P : total P (flush true) (λ _, P).
Proof. eapply total_bind; [apply total_io_step|]. intros []. by apply total_ret. Qed.
Lemma total_open_read key m file : total (has key m file) (open_read key) (λ f s, f = file ∧ has key m file s).
Proof.
  eapply total_bind; [apply total_io_step|]. intros []. eapply total_bind; [apply total_get|]. intros w.
  apply total_pure with (w_payloads w !! key = Some file); [by intros s [[_ H] <-]|]. intros ->.
  apply total_ret. tauto.
Qed.
Lemma total_read key m file start n : 0 ≤ start → 0 ≤ n → start + n ≤ zlen file →
  total (has key m file) (read_payload key start n) (λ b s, b = slice file start n ∧ has key m file s).
Proof.
  intros Ha Hn Hf. eapply total_bind; [apply total_open_read|]. intros f. apply total_pure with (f = file); [tauto|].
  intros ->. eapply total_bind; [apply total_io_step|]. intros [].
  eapply total_bind; [apply (total_lift _ (slice file start n, drop (Z.to_nat n) (drop (Z.to_nat start) file)))|].
  { apply read_exact_ok. unfold zlen in *. rewrite length_drop. lia. }
  intros [b r]. apply total_pure with (b = slice file start n); [by intros s [[= -> ->] _]|]. intros ->.
  apply total_ret. tauto.
Qed.
Lemma total_upsert m P : total P (upsert_verified_catalog_entry m) (λ _, P).
Proof. by apply total_modify. Qed.
Lemma total_checkpoint m now P : total P (should_checkpoint_manifest m now) (λ _, P).
Proof.
  eapply total_bind; [apply total_get|]. intros w. eapply total_bind with (λ _, P); [|intros []; by apply total_ret].
  intros w' Hf [Hw Hc]. eexists _, (). split; [done|]. split; [done|]. cbn. done.
Qed.

(** *** Blocks of a piece *)

Lemma total_extend key m file i n now : file_hash m = key →
  total (has key m file) (extend_piece m i n now true)
    (λ b s, b = false ∧ has key (update_piece i (set_piece Requested n) m) file s).
Proof.
  intros Hk. eapply total_bind; [apply total_checkpoint|]. intros b.
  eapply total_bind with (λ _, has key (update_piece i (set_piece Requested n) m) file); [|intros []; by apply total_ret].
  destruct b.
  - eapply total_bind; [apply total_flush|]. intros []. by apply total_store_has.
  - apply total_modify; [done|]. intros w [_ Hf]. split; [|done]. unfold cached. cbn. by rewrite Hk, lookup_insert_eq.
Qed.

Lemma total_refresh key m0 m file : file_hash m = key → 0 < file_size m ≤ zlen file →
  total (has key m0 file) (refresh_completed_manifest_aich_hashset sha1 hex_encode m)
    (λ m' s, same_payload m m' ∧ has key m0 file s).
Proof.
  intros Hk Hs. unfold refresh_completed_manifest_aich_hashset. destruct (aich_root m) as [r|].
  { apply total_ret. intros s H. split; [apply same_payload_refl|done]. }
  rewrite Hk. eapply total_bind; [apply total_open_read|]. intros f. apply total_pure with (f = file); [tauto|]. intros ->.
  eapply total_bind; [eapply total_lift; rewrite aich_hashset_spec by lia; by rewrite (proj2 (Z.leb_le _ _)) by lia|].
  intros h. apply total_ret. intros s (_ & _ & H). split; [apply same_payload_aich|done].
Qed.

Lemma total_complete key file0 m k p file now : manifest_ok md4 hex_encode key file0 m → pieces m !! k = Some p →
  piece_off k + piece_len (file_size m) k ≤ zlen file →
  verify_piece_against_manifest md4 hex_decode m (Z.of_nat k) (slice file (piece_off k) (piece_len (file_size m) k)) = Ok true →
  (completed (settled m k (piece_len (file_size m) k) true) = true → file_size m ≤ zlen file) →
  total (has key m file)
    (complete_piece md4 sha1 hex_encode hex_decode key m (Z.of_nat k) (piece_off k) (piece_len (file_size m) k) now true)
    (λ b s, b = true ∧ ∃ m', has key m' file s ∧ same_payload (settled m k (piece_len (file_size m) k) true) m').
Proof.
  intros Hm Hk Hf Hv Hfull. destruct (mo_bounds _ _ _ _ _ _ _ Hm Hk) as (_ & Hlen & Hend & _).
  eapply total_bind; [apply total_flush|]. intros []. eapply total_bind; [apply total_read; [|lia|done]|].
  { unfold piece_off, ED2K_PART_SIZE. lia. }
  intros b. apply total_pure with (b = slice file (piece_off k) (piece_len (file_size m) k)); [tauto|]. intros ->.
  eapply total_bind; [apply (total_lift _ _ _ Hv)|]. intros v. apply total_pure with (v = true); [tauto|]. intros ->.
  eapply total_bind with (λ m' s, same_payload (settled m k (piece_len (file_size m) k) true) m' ∧ has key m file s).
  { unfold settle_piece. rewrite (settle_update md4 hex_encode key file0 m k (piece_len (file_size m) k) true Hm).
    apply (total_weaken _ (has key m file) _
      (λ m' s, same_payload (settled m k (piece_len (file_size m) k) true) m' ∧ has key m file s)); [|tauto|done].
    destruct (completed (settled m k (piece_len (file_size m) k) true)) eqn:Hc.
    - apply total_refresh; [apply Hm|]. cbn. split; [unfold piece_off, ED2K_PART_SIZE in *; lia|by apply Hfull].
    - apply total_ret. intros s H. split; [apply same_payload_refl|done]. }
  intros m'. apply total_pure with (same_payload (settled m k (piece_len (file_size m) k) true) m'); [tauto|]. intros Hs.
  eapply total_bind; [apply total_upsert|]. intros [].
  eapply total_bind with (λ _, has key m' file).
  { eapply total_weaken; [apply (total_store_has key m m' file)|tauto|done]. destruct Hs as [-> _]. apply Hm. }
  intros []. apply total_ret. intros s H. split; [done|]. by exists m'.
Qed.

(** *** The progress of a download *)

Section download.
Context (F : list Z).
Hypothesis HF : 0 < zlen F < (MAX_PARTS + 1) * ED2K_PART_SIZE.
Definition file_key : list Z := hash_display (ed2k_hash_of md4 F).

(** The pieces before [j] are verified, those after it missing, and piece [j] is [q];
    the payload has the bytes up to what is written of it. *)
Definition piece_of (j : nat) (q : Ed2kPieceState) (k : nat) : Ed2kPieceState :=
  if (k <? j)%nat then mkPiece (Z.of_nat k) Verified (piece_len (zlen F) k)
  else if (k =? j)%nat then q else missing_piece (Z.of_nat k).
Definition pieces_at (j : nat) (q : Ed2kPieceState) : list Ed2kPieceState := piece_of j q <$> seq 0 (parts_of (zlen F)).
Definition file_at (j : nat) (q : Ed2kPieceState) : list Z := take (Z.to_nat (piece_off j + bytes_written q)) F.
Record progress (m : Ed2kResumeManifest) (j : nat) (q : Ed2kPieceState) : Prop := {
  pg_key : file_hash m = file_key;
  pg_size : file_size m = zlen F;
  pg_piece_size : piece_size m = ED2K_PART_SIZE;
  pg_acquired : md4_hashset_acquired m = true;
  pg_hashset : md4_hashset m = hex_encode <$> md4_hashset_of md4 F;
  pg_pieces : pieces m = pieces_at j q;
  pg_ranges : verified_ranges m = ranges_loop ED2K_PART_SIZE (zlen F) (pieces m) [] None;
  pg_completed : completed m = forallb is_verified (pieces m);
}.
Definition open_piece (j : nat) (q : Ed2kPieceState) : Prop :=
  piece_index q = Z.of_nat j ∧ state q ≠ Verified ∧ 0 ≤ bytes_written q ≤ Z.max 0 (piece_len (zlen F) j).

Lemma size_ok_F : size_ok (zlen F) = true.
Proof. unfold size_ok, MAX_PARTS, U32_MAX, ED2K_PART_SIZE in *. apply andb_true_iff. split; apply Z.leb_le; lia. Qed.
Lemma key_wf : wf_Ed2kHash (ed2k_hash_of md4 F) = true.
Proof. unfold ed2k_hash_of. destruct (_ <? _); apply md4_hash. Qed.

Lemma pieces_at_lookup j q k : pieces_at j q !! k = if (k <? parts_of (zlen F))%nat then Some (piece_of j q k) else None.
Proof.
  unfold pieces_at. rewrite list_lookup_fmap. destruct (Nat.ltb_spec k (parts_of (zlen F))).
  - by rewrite lookup_seq_lt.
  - by rewrite lookup_seq_ge.
Qed.
Lemma length_pieces_at j q : length (pieces_at j q) = parts_of (zlen F).
Proof. unfold pieces_at. by rewrite length_fmap, length_seq. Qed.

Lemma piece_of_eq j q : piece_of j q j = q.
Proof. unfold piece_of. by rewrite Nat.ltb_irrefl, Nat.eqb_refl. Qed.

Lemma pieces_at_alter j q g : alter g j (pieces_at j q) = pieces_at j (g q).
Proof.
  apply list_eq. intros k. destruct (decide (k = j)) as [->|Hne].
  - rewrite list_lookup_alter_eq, !pieces_at_lookup. destruct (_ <? _)%nat; [|done]. cbn. by rewrite !piece_of_eq.
  - rewrite list_lookup_alter_ne, !pieces_at_lookup by done. destruct (_ <? _)%nat; [|done]. f_equal.
    unfold piece_of. destruct (k <? j)%nat; [done|]. by rewrite (proj2 (Nat.eqb_neq k j)).
Qed.
Lemma pieces_at_next j q : q = mkPiece (Z.of_nat j) Verified (piece_len (zlen F) j) →
  pieces_at j q = pieces_at (S j) (missing_piece (Z.of_nat (S j))).
Proof.
  intros ->. apply list_eq. intros k. rewrite !pieces_at_lookup. destruct (_ <? _)%nat; [|done]. f_equal. unfold piece_of.
  destruct (Nat.ltb_spec k j), (Nat.ltb_spec k (S j)), (Nat.eqb_spec k j), (Nat.eqb_spec k (S j)); subst; (done || lia).
Qed.
Lemma pieces_at_all j : forallb is_verified (pieces_at j (missing_piece (Z.of_nat j))) = true ↔ (parts_of (zlen F) ≤ j)%nat.
Proof.
  rewrite forallb_forall. split.
  - intros H. destruct (Nat.le_gt_cases (parts_of (zlen F)) j) as [|Hj]; [done|].
    assert (Hl : pieces_at j (missing_piece (Z.of_nat j)) !! j = Some (missing_piece (Z.of_nat j)))
      by (rewrite pieces_at_lookup, (proj2 (Nat.ltb_lt j _)) by done; by rewrite piece_of_eq).
    specialize (H _ (proj1 (list_elem_of_In _ _) (list_elem_of_lookup_2 _ _ _ Hl))). done.
  - intros Hj p [k Hk]%list_elem_of_In%list_elem_of_lookup_1. rewrite pieces_at_lookup in Hk.
    destruct (Nat.ltb_spec k (parts_of (zlen F))); [|done]. injection Hk as <-. unfold piece_of.
    by rewrite (proj2 (Nat.ltb_lt k j)) by lia.
Qed.

Lemma slice_file_at j q k : 0 ≤ bytes_written q → (k < j)%nat → (k < parts_of (zlen F))%nat →
  piece_off k + piece_len (zlen F) k ≤ zlen (file_at j q) ∧
  slice (file_at j q) (piece_off k) (piece_len (zlen F) k) = slice F (piece_off k) (piece_len (zlen F) k).
Proof.
  intros Hb Hkj Hk. destruct (parts_of_spec _ _ size_ok_F Hk) as (_ & Hl & Hend & _).
  assert (Hle : piece_off k + piece_len (zlen F) k ≤ piece_off j + bytes_written q) by (unfold piece_off, ED2K_PART_SIZE in *; lia).
  assert (Hpo : 0 ≤ piece_off k) by (unfold piece_off, ED2K_PART_SIZE; lia).
  unfold file_at. split; [unfold zlen in *; rewrite length_take; lia|].
  unfold slice. rewrite (take_drop_commute (take _ _)), take_take, take_drop_commute. do 2 f_equal. lia.
Qed.

Lemma progress_ok m j q : progress m j q → open_piece j q → manifest_ok md4 hex_encode file_key (file_at j q) m.
Proof.
  intros [Hk Hs Hps Ha Hh Hp Hr Hc] (Hi & Hv & Hb). split.
  - done.
  - rewrite Hs. apply size_ok_F.
  - done.
  - by rewrite Hp, Hs, length_pieces_at.
  - by rewrite Hs.
  - unfold is_fully_verified. by rewrite Hc.
  - exists (ed2k_hash_of md4 F). split; [apply key_wf|]. split; [done|]. rewrite Hs.
    pose proof (chunk_count_spec (zlen F) ED2K_PART_SIZE eq_refl ltac:(lia)) as Hn. cbn zeta in Hn.
    split.
    { intros _. exists (md4_hashset_of md4 F). split; [done|]. apply (authentic_parts md4 md4_hash F 0); [done|].
      unfold parts_of, ED2K_PART_SIZE in *. lia. }
    intros k p. rewrite Hp, pieces_at_lookup. destruct (Nat.ltb_spec k (parts_of (zlen F))) as [Hkn|]; [|done].
    intros [= <-]. destruct (parts_of_spec _ _ size_ok_F Hkn) as (_ & Hl & Hend & _). unfold piece_of.
    destruct (Nat.ltb_spec k j) as [Hkj|].
    + destruct (slice_file_at j q k ltac:(lia) Hkj Hkn) as [Hfl Hsl]. split; cbn; [done|lia|done|]. intros _. split; [done|].
      rewrite Hsl. by apply authentic_parts.
    + destruct (Nat.eqb_spec k j) as [->|]; [|split; cbn; [done|lia|done|done]]. split; [done|lia|done|done].
Qed.

Lemma verify_true m j q k : progress m j q → (k < parts_of (zlen F))%nat →
  verify_piece_against_manifest md4 hex_decode m (Z.of_nat k) (slice F (piece_off k) (piece_len (zlen F) k)) = Ok true.
Proof.
  intros [Hk Hs Hps Ha Hh Hp Hr Hc] Hkn. unfold verify_piece_against_manifest. rewrite Ha, Hh.
  destruct (authentic_parts md4 md4_hash F k HF Hkn) as [Hv _].
  pose proof (chunk_count_spec (zlen F) ED2K_PART_SIZE eq_refl ltac:(lia)) as Hn. cbn zeta in Hn.
  unfold md4_hashset_of in *. destruct (Z.ltb_spec (zlen F) ED2K_PART_SIZE) as [Hlt|Hge]; cbn [fmap list_fmap].
  - unfold parts_of in Hkn. rewrite single_chunk in Hkn by (done || lia). assert (k = 0%nat) as -> by lia.
    rewrite Hk. unfold file_key. rewrite hash_from_str_display by apply key_wf. cbn [map_err mbind res_bind].
    rewrite bool_decide_eq_true_2; [done|]. unfold ed2k_hash_of. rewrite (proj2 (Z.ltb_lt _ _)) by done. f_equal.
    unfold slice, piece_off, piece_len, chunk_at. change (Z.of_nat 0 * ED2K_PART_SIZE) with 0.
    rewrite Z.min_r, Z.sub_0_r by lia. change (drop (Z.to_nat 0) F) with F. apply firstn_all2. unfold zlen. lia.
  - assert (Hl : ((md4 <$> chunks F (zlen F) ED2K_PART_SIZE) ++
      (if zlen F mod ED2K_PART_SIZE =? 0 then [md4 []] else [])) !! k = Some (md4 (slice F (piece_off k) (piece_len (zlen F) k)))).
    { apply lookup_app_l_Some. rewrite list_lookup_fmap. unfold chunks. by rewrite list_lookup_fmap, lookup_seq_lt. }
    destruct (_ ++ _) as [|x l] eqn:He; [done|]. rewrite Nat2Z.id. cbn [fmap list_fmap].
    change (hex_encode x :: (hex_encode <$> l)) with (hex_encode <$> x :: l). rewrite list_lookup_fmap, Hl. cbn [fmap option_fmap option_map].
    pose proof (md4_hash (slice F (piece_off k) (piece_len (zlen F) k))) as [Hlen Hb]%wf_Ed2kHash_spec.
    unfold decode_hash. rewrite hex_roundtrip, Hlen by done. cbn. by rewrite bool_decide_eq_true_2.
Qed.

Lemma write_at_end file data : write_at (zlen file) data file = file ++ data.
Proof.
  unfold write_at. destruct data as [|x d]; [by rewrite app_nil_r|]. unfold zlen. rewrite Nat2Z.id, firstn_all, Nat.sub_diag.
  cbn [replicate app]. f_equal. rewrite skipn_all2 by lia. by rewrite app_nil_r.
Qed.

(** The state between the steps of a download. *)
Definition downloaded (j : nat) (q : Ed2kPieceState) (s : core_t) : Prop :=
  ∃ m, progress m j q ∧ knows file_key m (file_at j q) s.
Definition requested (j : nat) (n : Z) : Ed2kPieceState := mkPiece (Z.of_nat j) Requested n.
Definition missing (j : nat) : Ed2kPieceState := missing_piece (Z.of_nat j).

(** The last block of a piece, once it is written. *)
Lemma total_last m j q now : progress m j q → open_piece j q → (j < parts_of (zlen F))%nat →
  total (has file_key m (take (Z.to_nat (piece_off j + piece_len (zlen F) j)) F))
    (complete_piece md4 sha1 hex_encode hex_decode file_key m (Z.of_nat j) (piece_off j) (piece_len (zlen F) j) now true)
    (λ _, downloaded (S j) (missing (S j))).
Proof.
  intros Hpg Hq Hj. pose proof (progress_ok m j q Hpg Hq) as Hm.
  destruct (parts_of_spec _ _ size_ok_F Hj) as (_ & Hl & Hend & _).
  assert (Hpo : 0 ≤ piece_off j) by (unfold piece_off, ED2K_PART_SIZE; lia).
  assert (Hk : pieces m !! j = Some q) by (rewrite (pg_pieces _ _ _ Hpg), pieces_at_lookup, (proj2 (Nat.ltb_lt j _)) by done; by rewrite piece_of_eq).
  set (file' := take _ F).
  assert (Hf' : zlen file' = piece_off j + piece_len (zlen F) j) by (unfold file', zlen in *; rewrite length_take; lia).
  assert (Hsl : slice file' (piece_off j) (piece_len (zlen F) j) = slice F (piece_off j) (piece_len (zlen F) j)).
  { unfold file', slice. rewrite (take_drop_commute (take _ _)), take_take, take_drop_commute. do 2 f_equal. lia. }
  assert (Hset : alter (set_piece Verified (piece_len (zlen F) j)) j (pieces m) = pieces_at (S j) (missing (S j))).
  { rewrite (pg_pieces _ _ _ Hpg), pieces_at_alter. apply pieces_at_next. unfold set_piece. by rewrite (proj1 Hq). }
  pose proof (total_complete file_key (file_at j q) m j q file' now Hm Hk) as Hc. rewrite (pg_size _ _ _ Hpg) in Hc.
  pose proof (chunk_count_spec (zlen F) ED2K_PART_SIZE eq_refl ltac:(lia)) as Hn. cbn zeta in Hn.
  eapply total_weaken; [apply Hc|done|].
  - lia.
  - rewrite Hsl. by eapply verify_true.
  - cbn. rewrite Hset. intros Hall%pieces_at_all. unfold piece_off, piece_len, chunk_at, parts_of, ED2K_PART_SIZE in *. lia.
  - intros b s (_ & m' & Hhas & E1 & E2 & E3 & E4 & E5 & E6 & E7 & E8). exists m'. split.
    + cbn in *. rewrite Hset in *. destruct Hpg. split; try congruence; rewrite ?E7, ?E8, ?E4; congruence.
    + apply has_knows in Hhas as [H1 H2]. split; [done|]. rewrite H2. unfold file', file_at. cbn [bytes_written missing missing_piece].
      unfold piece_off, piece_len, chunk_at in *.
      destruct (Z.le_gt_cases (zlen F) (Z.of_nat j * ED2K_PART_SIZE + ED2K_PART_SIZE)); [|f_equal; lia].
      rewrite !firstn_all2; [done|..]; unfold zlen in *; lia.
Qed.

(** Another block, once it is written. *)
Lemma total_more m j q n now : progress m j q → open_piece j q → (j < parts_of (zlen F))%nat →
  total (has file_key m (take (Z.to_nat (piece_off j + n)) F)) (extend_piece m (Z.of_nat j) n now true)
    (λ _, downloaded j (requested j n)).
Proof.
  intros Hpg Hq Hj. pose proof (progress_ok m j q Hpg Hq) as Hm.
  assert (Hk : pieces m !! j = Some q) by (rewrite (pg_pieces _ _ _ Hpg), pieces_at_lookup, (proj2 (Nat.ltb_lt j _)) by done; by rewrite piece_of_eq).
  destruct (find_piece_at _ _ _ _ _ (Z.of_nat j) Hm ltac:(lia)) as (_ & _ & Hu). rewrite Nat2Z.id in Hu.
  eapply total_weaken; [apply (total_extend file_key m); apply Hpg|done|]. intros b s (_ & Hhas).
  exists (update_piece (Z.of_nat j) (set_piece Requested n) m). rewrite Hu in *.
  assert (Hal : alter (set_piece Requested n) j (pieces m) = pieces_at j (requested j n)).
  { rewrite (pg_pieces _ _ _ Hpg), pieces_at_alter. unfold set_piece. by rewrite (proj1 Hq). }
  assert (Hsv : Forall2 same_verified (pieces m) (pieces_at j (requested j n))).
  { rewrite <- Hal. apply Forall2_alter_self; [done|]. intros x Hx. split; [done|]. unfold is_verified. cbn.
    rewrite Hk in Hx. injection Hx as <-. rewrite !bool_decide_eq_false_2; [done|apply Hq|done]. }
  split; [|by apply has_knows].
  destruct Hpg as [? ? ? ? ? Hp' Hr' Hc']. split; cbn; try done.
  - rewrite Hr', Hal. by apply ranges_loop_ext.
  - rewrite Hc', Hal. by apply fully_verified_ext.
Qed.

(** One more block of a piece. *)
Lemma total_append j q d now : open_piece j q → (j < parts_of (zlen F))%nat →
  bytes_written q + zlen d ≤ piece_len (zlen F) j → d = slice F (piece_off j + bytes_written q) (zlen d) →
  total (downloaded j q)
    (append_piece_block md4 sha1 hex_encode hex_decode file_key (Z.of_nat j) (piece_off j + bytes_written q)
       (piece_off j + bytes_written q + zlen d) d now)
    (λ _, let n := bytes_written q + zlen d in
       if n =? piece_len (zlen F) j then downloaded (S j) (missing (S j)) else downloaded j (requested j n)).
Proof.
  intros Hq Hj Hle Heq w0 Hw0 (m & Hpg & Hkn). revert w0 Hw0 Hkn.
  change (total (knows file_key m (file_at j q))
    (append_piece_block md4 sha1 hex_encode hex_decode file_key (Z.of_nat j) (piece_off j + bytes_written q)
       (piece_off j + bytes_written q + zlen d) d now)
    (λ _, let n := bytes_written q + zlen d in
       if n =? piece_len (zlen F) j then downloaded (S j) (missing (S j)) else downloaded j (requested j n))).
  pose proof (progress_ok m j q Hpg Hq) as Hm.
  eapply total_bind; [apply (total_load _ m); by intros s []|]. intros r. apply total_pure with (r = m); [tauto|]. intros ->.
  apply (total_weaken _ (knows file_key m (file_at j q)) _ (λ _, let n := bytes_written q + zlen d in
       if n =? piece_len (zlen F) j then downloaded (S j) (missing (S j)) else downloaded j (requested j n))); [|tauto|done].
  destruct (parts_of_spec _ _ size_ok_F Hj) as (_ & Hl & Hend & _).
  assert (Hk : pieces m !! j = Some q) by (rewrite (pg_pieces _ _ _ Hpg), pieces_at_lookup, (proj2 (Nat.ltb_lt j _)) by done; by rewrite piece_of_eq).
  destruct (find_piece_at _ _ _ _ _ (Z.of_nat j) Hm ltac:(lia)) as (Hf & _ & _). rewrite Nat2Z.id in Hf.
  unfold append_to_piece. rewrite Hf, Hk. destruct (mo_bounds _ _ _ _ _ _ _ Hm Hk) as (_ & _ & _ & Hexp). rewrite Hexp.
  rewrite (mo_piece_size _ _ _ _ _ Hm), (pg_size _ _ _ Hpg). fold (piece_off j).
  rewrite !Z.eqb_refl, (proj2 (Z.ltb_ge _ _)) by lia. cbn [negb orb]. cbv zeta.
  assert (Hpo : 0 ≤ piece_off j) by (unfold piece_off, ED2K_PART_SIZE; lia). pose proof (zlen_nonneg d).
  destruct (Hq) as (_ & _ & Hqb).
  assert (Hfl : zlen (file_at j q) = piece_off j + bytes_written q) by (unfold file_at, zlen in *; rewrite length_take; lia).
  assert (Hw : write_at (piece_off j + bytes_written q) d (file_at j q) = take (Z.to_nat (piece_off j + (bytes_written q + zlen d))) F).
  { rewrite <- Hfl, write_at_end, Z.add_assoc. rewrite Heq at 1. unfold file_at, slice. rewrite take_more by lia. done. }
  eapply total_bind; [apply total_open_create|]. intros []. eapply total_bind; [apply total_write|]. intros written. apply total_pure with (written = true); [tauto|]. intros ->. rewrite Hw.
  apply (total_weaken _ (has file_key m (take (Z.to_nat (piece_off j + (bytes_written q + zlen d))) F)) _ (λ _, let n := bytes_written q + zlen d in
       if n =? piece_len (zlen F) j then downloaded (S j) (missing (S j)) else downloaded j (requested j n))); [|tauto|done]. cbv zeta.
  destruct (Z.eqb_spec (bytes_written q + zlen d) (piece_len (zlen F) j)) as [He|He].
  - rewrite He. by apply (total_last m j q).
  - by apply (total_more m j q).
Qed.

(** All blocks of a piece, one after the other. *)
Fixpoint append_all (i off : Z) (blocks : list (list Z)) (now : Z) : TM () :=
  match blocks with
  | [] => mret ()
  | d :: rest =>
      append_piece_block md4 sha1 hex_encode hex_decode file_key i off (off + zlen d) d now;;
      append_all i (off + zlen d) rest now
  end.

Lemma total_append_all blocks j q now : open_piece j q → (j < parts_of (zlen F))%nat →
  Forall (λ d, d ≠ []) blocks → bytes_written q < piece_len (zlen F) j →
  concat blocks = slice F (piece_off j + bytes_written q) (piece_len (zlen F) j - bytes_written q) →
  total (downloaded j q) (append_all (Z.of_nat j) (piece_off j + bytes_written q) blocks now)
    (λ _, downloaded (S j) (missing (S j))).
Proof.
  intros Hq Hj. destruct (parts_of_spec _ _ size_ok_F Hj) as (_ & Hl & Hend & _).
  assert (Hpo : 0 ≤ piece_off j) by (unfold piece_off, ED2K_PART_SIZE; lia).
  revert q Hq. induction blocks as [|d blocks IH]; intros q Hq Hne Hlt Hc; pose proof Hq as (Hqi & Hqv & Hqb).
  { exfalso. apply (f_equal zlen) in Hc. rewrite zlen_slice in Hc by lia. cbn [concat] in Hc. rewrite zlen_nil in Hc. lia. }
  apply Forall_cons in Hne as [Hd Hne]. cbn [concat] in Hc.
  pose proof (f_equal zlen Hc) as Hcl. rewrite zlen_slice, zlen_app in Hcl by lia.
  pose proof (zlen_nonneg (concat blocks)).
  assert (Hdp : 0 < zlen d) by (destruct d; [done|rewrite zlen_cons; pose proof (zlen_nonneg d); lia]).
  assert (Hsplit : d = slice F (piece_off j + bytes_written q) (zlen d) ∧
    concat blocks = slice F (piece_off j + (bytes_written q + zlen d)) (piece_len (zlen F) j - (bytes_written q + zlen d))).
  { apply app_inj_1; [unfold zlen, slice in *; rewrite length_take, length_drop; lia|]. rewrite Hc. unfold slice.
    replace (piece_off j + (bytes_written q + zlen d)) with ((piece_off j + bytes_written q) + zlen d) by lia.
    rewrite <- (drop_more (piece_off j + bytes_written q) (zlen d)), take_more by lia. do 2 f_equal. lia. }
  destruct Hsplit as [Hd1 Hd2]. cbn [append_all].
  eapply total_bind; [apply total_append; [done|done|lia|done]|]. intros r. cbv zeta.
  destruct (Z.eqb_spec (bytes_written q + zlen d) (piece_len (zlen F) j)) as [He|He].
  - destruct blocks as [|d' blocks]; [by apply total_ret|]. exfalso. apply Forall_cons in Hne as [Hd' _].
    cbn [concat] in *. rewrite zlen_app in *. pose proof (zlen_nonneg (concat blocks)).
    destruct d'; [done|]. rewrite zlen_cons in *. pose proof (zlen_nonneg d'). lia.
  - rewrite <- Z.add_assoc. apply (IH (requested j (bytes_written q + zlen d))); cbn; [|done|lia|done].
    split; [done|]. split; [done|]. cbn. lia.
Qed.

(** Claiming the next piece. *)
Lemma total_claim j now : (j < parts_of (zlen F))%nat →
  total (downloaded j (missing j)) (claim_next_missing_part file_key now)
    (λ r s, r = Some (mkClaim (Z.of_nat j) 0) ∧ downloaded j (requested j 0) s).
Proof.
  intros Hj w0 Hw0 (m & Hpg & Hkn). revert w0 Hw0 Hkn.
  change (total (knows file_key m (file_at j (missing j))) (claim_next_missing_part file_key now)
    (λ r s, r = Some (mkClaim (Z.of_nat j) 0) ∧ downloaded j (requested j 0) s)).
  eapply total_bind; [apply (total_load _ m); by intros s []|]. intros r. apply total_pure with (r = m); [tauto|]. intros ->.
  pose proof (find_update_first (λ p, bool_decide (state p = Missing)) (λ p, set_piece Requested (bytes_written p) p) (pieces m)) as Hf.
  assert (Hjm : pieces m !! j = Some (missing j)).
  { rewrite (pg_pieces _ _ _ Hpg), pieces_at_lookup, (proj2 (Nat.ltb_lt j _)) by done. by rewrite piece_of_eq. }
  destruct (List.find _ _) as [p|]; [|destruct Hf as [_ Hf]; by specialize (Hf j _ Hjm)].
  destruct Hf as (k & Hk & Hs%bool_decide_eq_true & -> & Hfirst).
  assert (k = j) as ->.
  { destruct (Nat.lt_trichotomy k j) as [Hlt|[|Hgt]]; [|done|by specialize (Hfirst j _ Hgt Hjm)].
    rewrite (pg_pieces _ _ _ Hpg), pieces_at_lookup in Hk. destruct (_ <? _)%nat; [|done]. injection Hk as <-.
    unfold piece_of in Hs. by rewrite (proj2 (Nat.ltb_lt k j)) in Hs by done. }
  rewrite Hjm in Hk. injection Hk as <-. set (m' := set_pieces _ m).
  assert (Hal : pieces m' = pieces_at j (requested j 0)) by (cbn; by rewrite (pg_pieces _ _ _ Hpg), pieces_at_alter).
  eapply total_bind with (λ _, knows file_key m' (file_at j (missing j))).
  { eapply total_weaken; [apply (total_store_knows file_key m m' (file_at j (missing j)))|tauto|done]. apply Hpg. }
  intros []. apply total_ret. intros s Hs'. split; [done|]. exists m'. split; [|done].
  assert (Hsv : Forall2 same_verified (pieces m) (pieces m')).
  { apply Forall2_alter_self; [done|]. intros x Hx. rewrite Hjm in Hx. by injection Hx as <-. }
  destruct Hpg as [? ? ? ? ? Hp' Hr' Hc']. split; try done; cbn [verified_ranges completed m' set_pieces].
  - rewrite Hr'. by apply ranges_loop_ext.
  - rewrite Hc'. by apply fully_verified_ext.
Qed.

(** The downloader: claim a piece, then append its blocks. *)
Fixpoint download (cuts : list (list (list Z))) (now : Z) : TM () :=
  match cuts with
  | [] => mret ()
  | blocks :: rest =>
      c ← claim_next_missing_part file_key now;
      match c with
      | None => fail EMissingPiece
      | Some c =>
          append_all (cp_piece_index c) (cp_piece_index c * ED2K_PART_SIZE + cp_bytes_written c) blocks now;;
          download rest now
      end
  end.

Definition cut_of (j : nat) (blocks : list (list Z)) : Prop :=
  Forall (λ d, d ≠ []) blocks ∧ concat blocks = slice F (piece_off j) (piece_len (zlen F) j).

Lemma total_download cuts j now : (∀ k blocks, cuts !! k = Some blocks → cut_of (j + k) blocks) →
  (j + length cuts = parts_of (zlen F))%nat →
  total (downloaded j (missing j)) (download cuts now) (λ _, downloaded (parts_of (zlen F)) (missing (parts_of (zlen F)))).
Proof.
  revert j. induction cuts as [|blocks cuts IH]; intros j Hc Hlen; cbn [length] in Hlen.
  { apply total_ret. intros s. by replace (parts_of (zlen F)) with j by lia. }
  destruct (Hc 0%nat blocks eq_refl) as [Hne Hcat]. rewrite Nat.add_0_r in Hcat. cbn [download].
  destruct (parts_of_spec _ j size_ok_F ltac:(lia)) as (_ & Hl & _).
  eapply total_bind; [apply total_claim; lia|]. intros c.
  apply total_pure with (c = Some (mkClaim (Z.of_nat j) 0)); [tauto|]. intros ->. cbn [cp_piece_index cp_bytes_written].
  eapply total_bind with (λ _, downloaded (S j) (missing (S j))).
  - eapply total_weaken; [apply (total_append_all blocks j (requested j 0))|by intros s []|done].
    + split; [done|]. split; [done|]. cbn. lia.
    + lia.
    + done.
    + cbn. lia.
    + cbn. by rewrite Z.add_0_r, Z.sub_0_r.
  - intros []. apply IH; [|lia]. intros k bs Hk. replace (S j + k)%nat with (j + S k)%nat by lia. by apply Hc.
Qed.

(** Starting: the manifest of the job, and the hash set. *)
Definition start_download (name : list Z) (now : Z) : TM () :=
  ensure_job (new_transfer_job (ed2k_hash_of md4 F) name (zlen F)) now;;
  store_md4_hashset md4 hex_encode file_key (md4_hashset_of md4 F) now;;
  mret ().

Lemma total_start name now : total (λ s, on_disk s !! file_key = None ∧ snd s !! file_key = None) (start_download name now)
  (λ _, downloaded 0 (missing 0)).
Proof.
  assert (Hlen := size_ok_F). unfold start_download. set (job := new_transfer_job (ed2k_hash_of md4 F) name (zlen F)).
  set (m0 := mkManifest file_key name (zlen F) ED2K_PART_SIZE false false [] false None [] []
    (pieces_from (Z.of_nat (parts_of (zlen F))) missing_piece) []).
  assert (Hm0 : manifest_new job = Ok m0).
  { unfold manifest_new, job, new_transfer_job. cbn [tj_file_size tj_piece_size]. by rewrite piece_count_spec. }
  eapply total_bind with (λ _, knows file_key m0 []).
  { eapply total_bind; [apply total_io_step|]. intros []. eapply total_bind; [apply total_io_step|]. intros [].
    eapply total_bind; [apply total_get|]. intros w.
    apply total_pure with (w_manifests w !! tj_file_hash job = None); [by intros s [[] <-]|]. intros ->.
    eapply total_bind; [apply (total_lift _ m0), Hm0|]. intros m. apply total_pure with (m = m0); [tauto|]. intros ->.
    eapply total_bind with (λ _, knows file_key m0 []); [|intros []; by apply total_ret].
    eapply total_weaken; [apply (total_store m0 now (λ p, p !! file_key = None))|by intros s (_ & [? ?] & _)|].
    intros [] s (Hp & Hc & _). split; [done|]. unfold file_of. by rewrite Hp. }
  intros _. eapply total_bind with (λ _, downloaded 0 (missing 0)); [|intros; by apply total_ret].
  eapply total_bind; [apply (total_load _ m0); by intros s []|]. intros m. apply total_pure with (m = m0); [tauto|]. intros ->.
  rewrite md4_hashset_length by done. cbn [file_size m0]. rewrite Z.eqb_refl. cbn [negb].
  eapply total_bind; [apply (total_lift _ ()); by apply md4_hashset_valid, key_wf|]. intros u.
  eapply total_bind with (λ _, knows file_key (set_md4 (hex_encode <$> md4_hashset_of md4 F) m0) []).
  { eapply total_weaken; [by apply (total_store_knows file_key m0 _ [])|tauto|done]. }
  intros []. apply total_ret. intros s Hk. eexists. split; [|exact Hk].
  assert (Hps : pieces_from (Z.of_nat (parts_of (zlen F))) missing_piece = pieces_at 0 (missing 0)).
  { unfold pieces_from, pieces_at. rewrite Nat2Z.id, <- list_fmap_compose. apply list_fmap_ext. intros i k _.
    unfold piece_of. cbn. by destruct (Nat.eqb_spec k 0) as [->|]. }
  split; try done; cbn [pieces verified_ranges completed set_md4 m0].
  - rewrite ranges_none; [done|]. apply missing_unverified.
  - rewrite Hps. symmetry. apply not_true_is_false. intros Hall%pieces_at_all.
    pose proof (chunk_count_spec (zlen F) ED2K_PART_SIZE eq_refl ltac:(lia)) as Hn. cbn zeta in Hn.
    unfold parts_of, ED2K_PART_SIZE in *. lia.
Qed.

(** At the end the file is there, verified and served. *)
Lemma downloaded_all s : let n := parts_of (zlen F) in downloaded n (missing n) s →
  ∃ m, cached s !! file_key = Some m ∧ completed m = true ∧ verified_ranges m = [mkRange 0 (zlen F)] ∧
    snd s !! file_key = Some F.
Proof.
  intros n (m & Hpg & Hc & Hf). exists m. split; [done|].
  pose proof (chunk_count_spec (zlen F) ED2K_PART_SIZE eq_refl ltac:(lia)) as Hn. cbn zeta in Hn.
  assert (Hall : forallb is_verified (pieces m) = true) by (rewrite (pg_pieces _ _ _ Hpg); by apply pieces_at_all).
  split; [by rewrite (pg_completed _ _ _ Hpg)|]. split.
  - rewrite (pg_ranges _ _ _ Hpg), (ranges_loop_all (zlen F) 0 (pieces m)); [done|apply size_ok_F|..|done].
    + by rewrite (pg_pieces _ _ _ Hpg), length_pieces_at.
    + intros He. assert (Hl := length_pieces_at n (missing n)). rewrite <- (pg_pieces _ _ _ Hpg), He in Hl.
      cbn in Hl. unfold parts_of, ED2K_PART_SIZE in *. lia.
    + intros k p. rewrite (pg_pieces _ _ _ Hpg), pieces_at_lookup. destruct (Nat.ltb_spec k (parts_of (zlen F))); [|done].
      intros [= <-]. unfold piece_of. by rewrite (proj2 (Nat.ltb_lt k n)) by done.
  - assert (Hfull : file_at n (missing n) = F).
    { unfold file_at, missing, missing_piece, piece_off, n, parts_of. cbn [bytes_written]. apply firstn_all2.
      unfold zlen, ED2K_PART_SIZE in *. lia. }
    rewrite Hfull in Hf. unfold file_of in Hf. destruct (snd s !! file_key) as [f|]; [by cbn in Hf; subst f|].
    cbn in Hf. exfalso. apply (f_equal zlen) in Hf. rewrite zlen_nil in Hf. lia.
Qed.

Lemma total_served start end_ now : 0 ≤ start ≤ end_ → end_ ≤ zlen F →
  total (λ s, ∃ m, cached s !! file_key = Some m ∧ verified_ranges m = [mkRange 0 (zlen F)] ∧ snd s !! file_key = Some F)
    (read_verified_range (ed2k_hash_of md4 F) start end_ now) (λ r _, r = Some (slice F start (end_ - start))).
Proof.
  intros Hs He w Hf (m & Hc & Hr & Hp). revert w Hf Hc Hp.
  assert (Ht : total (has file_key m F) (read_verified_range (ed2k_hash_of md4 F) start end_ now)
    (λ r _, r = Some (slice F start (end_ - start)))).
  { eapply total_bind; [apply (total_load _ m); by intros s []|]. intros r. apply total_pure with (r = m); [tauto|]. intros ->.
    rewrite Hr. cbn [existsb in_range_of]. unfold in_range_of. cbn [rg_start rg_end].
    rewrite (proj2 (Z.leb_le 0 start)), (proj2 (Z.leb_le end_ _)) by lia. cbn [andb orb].
    assert (saturating_sub end_ start = end_ - start) as -> by (unfold saturating_sub; lia).
    eapply total_bind; [eapply total_weaken; [apply (total_read file_key m F start (end_ - start)); lia|by intros s []|done]|].
    intros b. apply total_ret. by intros s [-> _]. }
  intros w Hf Hc Hp. by apply (Ht w Hf).
Qed.
End download.
End total.

(** ** Properties *)

(** C24. A download ends with the file: when the disk works, starting the transfer of
    a file, learning its hash set, and appending the blocks of each piece as it is
    claimed, however the pieces are cut into blocks, succeeds; the payload is then the
    file, the manifest is completed, and every range of the file is served with its
    bytes. *)
Theorem download_completes md4 sha1 hex_encode hex_decode F name cuts w now :
  (∀ b, is_bytes b = true → hex_decode (hex_encode b) = Some b) → (∀ b, wf_Ed2kHash (md4 b) = true) →
  0 < zlen F < (MAX_PARTS + 1) * ED2K_PART_SIZE → let key := file_key md4 F in
  w_faults w = [] → w_manifests w !! key = None → w_payloads w !! key = None →
  length cuts = parts_of (zlen F) → (∀ k blocks, cuts !! k = Some blocks → cut_of F k blocks) →
  ∃ w', (start_download md4 hex_encode F name now;; download md4 sha1 hex_encode hex_decode F cuts now) w = (w', Ok ()) ∧
    w_payloads w' !! key = Some F ∧ (∃ m, w_cache w' !! key = Some m ∧ completed m = true) ∧
    ∀ start end_ now', 0 ≤ start ≤ end_ → end_ ≤ zlen F →
      snd (read_verified_range (ed2k_hash_of md4 F) start end_ now' w') = Ok (Some (slice F start (end_ - start))).
Proof.
  intros Hhex Hmd HF key Hf Hm Hp Hlen Hcut.
  assert (Ht : total (λ s, on_disk s !! key = None ∧ snd s !! key = None)
    (start_download md4 hex_encode F name now;; download md4 sha1 hex_encode hex_decode F cuts now)
    (λ _, downloaded md4 hex_encode F (parts_of (zlen F)) (missing (parts_of (zlen F))))).
  { eapply total_bind; [by apply total_start|]. intros []. apply (total_download _ sha1 _ _ Hhex Hmd F HF cuts 0); [done|lia]. }
  destruct (Ht w Hf (conj Hm Hp)) as (w' & [] & Hrun & Hf' & Hd).
  destruct (downloaded_all md4 hex_encode F HF _ Hd) as (m & Hc & Hcm & Hrg & Hpay). exists w'. split; [done|]. split; [done|].
  split; [by exists m|]. intros start end_ now' Hs He.
  destruct (total_served md4 sha1 F HF start end_ now' Hs He w' Hf') as (w2 & r & -> & _ & ->); [|done].
  exists m. done.
Qed.

Lemma download_completes_witness :
  ∃ w', (start_download sum_hash hex_text sample_file [97] 0;;
         download sum_hash sum_hash hex_text hex_bytes sample_file [[[1]; [2; 3]]] 0) (mkWorld [] [] ∅ ∅ ∅ ∅ ∅ []) = (w', Ok ()) ∧
    w_payloads w' !! file_key sum_hash sample_file = Some sample_file.
Proof.
  destruct (download_completes sum_hash sum_hash hex_text hex_bytes sample_file [97] [[[1]; [2; 3]]]
    (mkWorld [] [] ∅ ∅ ∅ ∅ ∅ []) 0 hex_text_bytes sum_hash_wf) as (w' & Hr & Hp & _).
  - unfold MAX_PARTS, ED2K_PART_SIZE, sample_file, zlen. cbn. lia.
  - reflexivity.
  - reflexivity.
  - reflexivity.
  - vm_compute. reflexivity.
  - intros [|k] blocks Hk; [|done]. injection Hk as <-. split; [repeat constructor; done|vm_compute; reflexivity].
  - exists w'. exact (conj Hr Hp).
Defined.
