(* ===== verification/TransferFrame.v ===== *)
(** * What the store operations leave alone

    The operations on manifests and payloads do not touch the callback intents. *)

From S2P Require Import Prelude Hashset Transfer.

(** A step leaves the intents as they are, whatever its outcome. *)
Definition keeps {A} (m : TM A) : Prop := ∀ w, w_intents (fst (m w)) = w_intents w.

Lemma keeps_ret {A} (a : A) : keeps (mret a).
Proof. by intros w. Qed.
Lemma keeps_lift {A} (r : res TransferError A) : keeps (lift r).
Proof. by intros w. Qed.
Lemma keeps_fail {A} e : keeps (A:=A) (fail e).
Proof. by intros w. Qed.
Lemma keeps_get : keeps get.
Proof. by intros w. Qed.
Lemma keeps_modify f : (∀ w, w_intents (f w) = w_intents w) → keeps (modify f).
Proof. intros Hf w. apply Hf. Qed.
Lemma keeps_bind {A B} (m : TM A) (k : A → TM B) : keeps m → (∀ a, keeps (k a)) → keeps (m ≫= k).
Proof.
  intros Hm Hk w. unfold mbind, tm_bind. specialize (Hm w). destruct (m w) as [w' [a|e|]]; cbn in *; [|done..].
  by rewrite Hk.
Qed.
Lemma keeps_io : keeps io.
Proof. intros w. unfold io. by destruct (w_faults w). Qed.

Create HintDb keeps.
#[export] Hint Resolve keeps_ret keeps_lift keeps_fail keeps_get keeps_io : keeps.
(** One step of a proof by the shape of the program. *)
Ltac keeps_step :=
  match goal with
  | |- keeps (mret _) => apply keeps_ret
  | |- keeps (_ ≫= _) => apply keeps_bind; [|intros ?]
  | |- keeps (modify _) => apply keeps_modify; by intros ?
  | |- keeps _ => solve [auto with keeps]
  | |- keeps (match ?x with _ => _ end) => destruct x
  | |- keeps (let '_ := ?x in _) => destruct x
  end.
Ltac keeps_all := repeat keeps_step.

Lemma keeps_io_step : keeps io_step.
Proof. unfold io_step. keeps_all. Qed.
#[export] Hint Resolve keeps_io_step : keeps.
Lemma keeps_mark m now : keeps (mark_manifest_persisted m now).
Proof. unfold mark_manifest_persisted, cache_manifest. keeps_all. Qed.
#[export] Hint Resolve keeps_mark : keeps.
Lemma keeps_load key now : keeps (load_manifest key now).
Proof. unfold load_manifest. keeps_all. Qed.
Lemma keeps_store_manifest m now : keeps (store_manifest m now).
Proof. unfold store_manifest. keeps_all. Qed.
Lemma keeps_upsert m : keeps (upsert_verified_catalog_entry m).
Proof. unfold upsert_verified_catalog_entry. keeps_all. Qed.
Lemma keeps_open_read key : keeps (open_read key).
Proof. unfold open_read. keeps_all. Qed.
Lemma keeps_open_create key : keeps (open_create key).
Proof. unfold open_create. keeps_all. Qed.
Lemma keeps_write key off data : keeps (write_payload key off data).
Proof. unfold write_payload. keeps_all. Qed.
Lemma keeps_flush written : keeps (flush written).
Proof. unfold flush. keeps_all. Qed.
#[export] Hint Resolve keeps_flush keeps_load keeps_store_manifest keeps_upsert keeps_open_read keeps_open_create keeps_write : keeps.
Lemma keeps_read key start n : keeps (read_payload key start n).
Proof. unfold read_payload. keeps_all. Qed.
Lemma keeps_checkpoint m now : keeps (should_checkpoint_manifest m now).
Proof. unfold should_checkpoint_manifest. keeps_all. Qed.
Lemma keeps_existing hash now : keeps (existing_manifest hash now).
Proof. unfold existing_manifest. keeps_all. Qed.
#[export] Hint Resolve keeps_read keeps_checkpoint keeps_existing : keeps.

Section ops.
Context (md4 sha1 : list Z → list Z) (hex_encode : list Z → list Z) (hex_decode : list Z → option (list Z)) (trim : list Z → list Z).

Lemma keeps_settle m i n verified : keeps (settle_piece sha1 hex_encode m i n verified).
Proof. unfold settle_piece, refresh_completed_manifest_aich_hashset. cbv zeta. keeps_all. Qed.
#[local] Hint Resolve keeps_settle : keeps.
Lemma keeps_complete key m i a n now written : keeps (complete_piece md4 sha1 hex_encode hex_decode key m i a n now written).
Proof. unfold complete_piece. keeps_all. Qed.
Lemma keeps_extend m i n now written : keeps (extend_piece m i n now written).
Proof. unfold extend_piece, cache_manifest. cbv zeta. keeps_all. Qed.
#[local] Hint Resolve keeps_complete keeps_extend : keeps.
Lemma keeps_append key i a b data now : keeps (append_piece_block_with_manifest md4 sha1 hex_encode hex_decode key i a b data now).
Proof. unfold append_piece_block_with_manifest, append_piece_block, append_to_piece. cbv zeta. keeps_all. Qed.
Lemma keeps_claim key now : keeps (claim_next_missing_part key now).
Proof. unfold claim_next_missing_part. cbv zeta. keeps_all. Qed.
Lemma keeps_release key i now : keeps (release_piece_request key i now).
Proof. unfold release_piece_request. keeps_all. Qed.
Lemma keeps_read_range h a b now : keeps (read_verified_range h a b now).
Proof. unfold read_verified_range. cbv zeta. keeps_all. Qed.
Lemma keeps_reconcile key name size now : keeps (reconcile_job_metadata trim key name size now).
Proof. unfold reconcile_job_metadata. keeps_all. Qed.
Lemma keeps_md4 key hs now : keeps (store_md4_hashset md4 hex_encode key hs now).
Proof. unfold store_md4_hashset. cbv zeta. keeps_all. Qed.
Lemma keeps_aich key h now : keeps (store_aich_hashset sha1 hex_encode hex_decode key h now).
Proof. unfold store_aich_hashset. cbv zeta. keeps_all. Qed.
Lemma keeps_root key root now : keeps (reconcile_aich_root hex_encode key root now).
Proof. unfold reconcile_aich_root. cbv zeta. keeps_all. Qed.
Lemma keeps_remember key source now : keeps (remember_source key source now).
Proof. unfold remember_source. keeps_all. Qed.
Lemma keeps_reclaim key now : keeps (reclaim_stale_piece_requests key now).
Proof. unfold reclaim_stale_piece_requests. cbv zeta. keeps_all. Qed.
Lemma keeps_store_piece key i data now : keeps (store_piece_data md4 sha1 hex_encode hex_decode key i data now).
Proof. unfold store_piece_data. cbv zeta. keeps_all. Qed.
Lemma keeps_append_block key i a b data now : keeps (append_piece_block md4 sha1 hex_encode hex_decode key i a b data now).
Proof. unfold append_piece_block, append_to_piece. cbv zeta. keeps_all. Qed.
Lemma keeps_rebuild job now : keeps (load_manifest_or_rebuild job now).
Proof.
  intros w. unfold load_manifest_or_rebuild. pose proof (keeps_load (tj_file_hash job) now w) as Hl.
  destruct (load_manifest _ _ w) as [w' [m|e|]]; [done| |done]. cbn in Hl. rewrite <- Hl.
  enough (Hk : keeps (quarantine_corrupt_manifest (tj_file_hash job);; m ← lift (manifest_new job); store_manifest m now;; mret m)) by apply Hk.
  unfold quarantine_corrupt_manifest. keeps_all.
Qed.
#[local] Hint Resolve keeps_rebuild : keeps.
Lemma keeps_ensure job now : keeps (ensure_job job now).
Proof. unfold ensure_job. keeps_all. Qed.
Lemma keeps_ingest source name now : keeps (ingest_local_file md4 sha1 hex_encode trim source name now).
Proof. unfold ingest_local_file, copy_payload. cbv zeta. keeps_all. Qed.
Lemma keeps_local_entry h now : keeps (local_entry h now).
Proof. unfold local_entry. keeps_all. Qed.
Lemma keeps_md4_known h now : keeps (md4_hashset_known hex_decode h now).
Proof. unfold md4_hashset_known. keeps_all. Qed.
Lemma keeps_aich_known h now : keeps (aich_hashset_known sha1 hex_decode h now).
Proof. unfold aich_hashset_known. keeps_all. Qed.
End ops.
#[export] Hint Resolve keeps_append keeps_claim keeps_release keeps_read_range keeps_reconcile keeps_md4 keeps_aich keeps_root
  keeps_remember keeps_local_entry keeps_md4_known keeps_aich_known : keeps.
