(* ===== verification/PeerTransport.v ===== *)
(** * The eD2k peer transport

    [ed2k_tcp/transport.rs], [ed2k_tcp/obfuscation.rs], and the framing of
    [ed2k_tcp/codec/mod.rs]: packets with their header, the RC4 key stream, and the
    obfuscation handshake of both sides. A TCP stream is the bytes that are still to
    come from the peer, what its end looks like, and the bytes written so far.
    Random choices are arguments; MD5 and the zlib reader are parameters. *)

From S2P Require Import Prelude NodeId Hashset Transfer.

(** ** Data *)

(** The errors of the peer protocol, one per kind of message. *)
Inductive PeerError : Type :=
| PIo | PShort | PSize | PMismatch | PUnsupported | PTooLarge | PInflate | PFraming | PRange | PHandshake
| PClosed | PTimeout | PTransfer (e : TransferError).

Definition OP_EMULEPROT : Z := 0xC5.
Definition OP_EDONKEYPROT : Z := 0xE3.
Definition OP_PACKEDPROT : Z := 0xD4.
Definition TCP_PACKET_HEADER_LEN : Z := 6.
Definition MAX_PEER_DECOMPRESSED_PACKET_LEN : Z := 50000.
Definition EMULE_CRYPT_SUPPORTS : Z := 0x01.
Definition EMULE_CRYPT_REQUESTS : Z := 0x02.
Definition EMULE_CRYPT_REQUIRES : Z := 0x04.
Definition EMULE_ENCRYPTION_METHOD_OBFUSCATION : Z := 0.
Definition EMULE_TCP_CRYPT_MAGIC_REQUESTER : Z := 34.
Definition EMULE_TCP_CRYPT_MAGIC_SERVER : Z := 203.
Definition EMULE_TCP_CRYPT_MAGIC_SYNC : Z := 0x835E6FC4.
Definition EMULE_TCP_CRYPT_DISCARD_LEN : nat := 1024.

Record EmuleTcpPacket : Type := mkTcpPacket { tp_protocol : Z; tp_opcode : Z; tp_payload : list Z }.

(** A connection: the bytes the peer has yet to deliver, whether they end in an error
    instead of the end of the stream, and the bytes written. *)
Record stream : Type := mkStream { st_incoming : list Z; st_reset : bool; st_written : list Z }.

(** [Rc4KeyStream]: the permutation of the 256 bytes and its two indexes. *)
Record Rc4KeyStream : Type := mkRc4 { rc_s : list Z; rc_i : Z; rc_j : Z }.

Inductive Ed2kTransportMode : Type := Plaintext | Obfuscated.
Record Ed2kTransport : Type := mkTransport {
  t_stream : stream;
  t_prefetched : list Z;
  t_receive_cipher : option Rc4KeyStream;
  t_send_cipher : option Rc4KeyStream;
  t_mode : Ed2kTransportMode
}.

(** ** Slices

    [payload[a..b]], [payload[a..]], [payload[i]] and [uN::from_le_bytes] of a part:
    out of range, they panic. *)
Definition range {E} (l : list Z) (a b : Z) : res E (list Z) :=
  if (0 <=? a) && (a <=? b) && (b <=? zlen l) then Ok (slice l a (b - a)) else Panic.
Definition tail_from {E} (l : list Z) (a : Z) : res E (list Z) := range l a (zlen l).
Definition byte {E} (l : list Z) (i : Z) : res E Z := expect (if 0 <=? i then l !! Z.to_nat i else None).
Definition le_at {E} (l : list Z) (a n : Z) : res E Z := b ← range l a (a + n); Ok (from_le_bytes b).

(** ** Framing *)

Definition encode_packet {E} (protocol opcode : Z) (payload : list Z) : res E (list Z) :=
  len ← expect (try_from_u 32 (zlen payload + 1));
  Ok ([protocol] ++ to_le_bytes 4 len ++ [opcode] ++ payload).

Section zlib.
(** The reads of a [ZlibDecoder]: the chunks it yields, and whether it then ends
    ([true]) or fails. *)
Variable zlib_reads : list Z → list (list Z) * bool.

Fixpoint inflate_loop (chunks : list (list Z)) (ended : bool) (decoded : list Z) : res PeerError (list Z) :=
  match chunks with
  | [] => if ended then Ok decoded else Err PInflate
  | chunk :: chunks' =>
      if MAX_PEER_DECOMPRESSED_PACKET_LEN <? saturating_add 64 (zlen decoded) (zlen chunk) then Err PTooLarge
      else inflate_loop chunks' ended (decoded ++ chunk)
  end.
Definition decode_peer_payload (protocol : Z) (payload : list Z) : res PeerError (Z * list Z) :=
  if negb (protocol =? OP_PACKEDPROT) then Ok (protocol, payload)
  else
    let '(chunks, ended) := zlib_reads payload in
    decoded ← inflate_loop chunks ended [];
    Ok (OP_EMULEPROT, decoded).

(** ** The key stream *)

Definition at_ (s : list Z) (i : Z) : Z := default 0 (s !! Z.to_nat i).
Definition swap (s : list Z) (i j : Z) : list Z :=
  <[Z.to_nat i := at_ s j]> (<[Z.to_nat j := at_ s i]> s).

Definition rc4_step (c : Rc4KeyStream) : Rc4KeyStream * Z :=
  let i := Z.land (rc_i c + 1) 0xFF in
  let j := Z.land (rc_j c + at_ (rc_s c) i) 0xFF in
  let s := swap (rc_s c) i j in
  (mkRc4 s i j, at_ s (Z.land (at_ s i + at_ s j) 0xFF)).
Fixpoint rc4_apply (c : Rc4KeyStream) (bytes : list Z) : Rc4KeyStream * list Z :=
  match bytes with
  | [] => (c, [])
  | b :: bytes' =>
      let '(c, k) := rc4_step c in
      let '(c, out) := rc4_apply c bytes' in
      (c, Z.lxor b k :: out)
  end.

Fixpoint rc4_schedule (n : nat) (i : Z) (key s : list Z) (j : Z) : list Z :=
  match n with
  | O => s
  | S n' =>
      let j := Z.land (j + at_ s i + at_ key (i mod zlen key)) 0xFF in
      rc4_schedule n' (i + 1) key (swap s i j) j
  end.
(** [Rc4KeyStream::new]: an empty key makes the remainder panic. *)
Definition rc4_new {E} (key : list Z) : res E Rc4KeyStream :=
  if zlen key =? 0 then Panic
  else
    let s := rc4_schedule 256 0 key (Z.of_nat <$> seq 0 256) 0 in
    Ok (fst (rc4_apply (mkRc4 s 0 0) (replicate EMULE_TCP_CRYPT_DISCARD_LEN 0))).

(** ** The handshake *)

Definition is_plain_ed2k_protocol_marker (marker : Z) : bool :=
  (marker =? OP_EDONKEYPROT) || (marker =? OP_PACKEDPROT) || (marker =? OP_EMULEPROT).

Definition should_enable_outgoing_obfuscation (local_connect_options : Z) (peer_user_hash : option (list Z))
    (peer_connect_options : option Z) : res PeerError bool :=
  match peer_connect_options with
  | None => Ok false
  | Some connect_options =>
      let has mask options := negb (Z.land options mask =? 0) in
      let local_supports := has EMULE_CRYPT_SUPPORTS local_connect_options in
      let supports := has EMULE_CRYPT_SUPPORTS connect_options in
      let requests := has EMULE_CRYPT_REQUESTS connect_options in
      let requires := has EMULE_CRYPT_REQUIRES connect_options in
      if requires && negb local_supports then Err PHandshake
      else if requires && (negb supports || negb (bool_decide (is_Some peer_user_hash))) then Err PHandshake
      else Ok (local_supports && supports && bool_decide (is_Some peer_user_hash) &&
               (requests || has EMULE_CRYPT_REQUESTS local_connect_options))
  end.

(** [stream.read_exact] and [stream.write_all]. *)
Definition stream_read (n : Z) (s : stream) : res PeerError (list Z * stream) :=
  if n <=? zlen (st_incoming s)
  then Ok (take (Z.to_nat n) (st_incoming s), mkStream (drop (Z.to_nat n) (st_incoming s)) (st_reset s) (st_written s))
  else Err PIo.
Definition stream_write (bytes : list Z) (s : stream) : stream :=
  mkStream (st_incoming s) (st_reset s) (st_written s ++ bytes).

(** The first byte drawn that is not a marker. *)
Definition random_non_protocol_marker (draws : list Z) : option Z :=
  List.find (λ b, negb (is_plain_ed2k_protocol_marker b)) draws.

Variable md5 : list Z → list Z.

Definition derive_obfuscation_key (user_hash : list Z) (magic : Z) (random_key_part : list Z)
    : res PeerError Rc4KeyStream :=
  rc4_new (md5 (user_hash ++ [magic] ++ random_key_part)).

Definition negotiate_outgoing_obfuscation_handshake (s : stream) (peer_user_hash random_key_part : list Z)
    (marker : Z) (request_padding : list Z) : res PeerError (stream * Rc4KeyStream * Rc4KeyStream) :=
  send_cipher ← derive_obfuscation_key peer_user_hash EMULE_TCP_CRYPT_MAGIC_REQUESTER random_key_part;
  receive_cipher ← derive_obfuscation_key peer_user_hash EMULE_TCP_CRYPT_MAGIC_SERVER random_key_part;
  padding_len ← expect (try_from_u 8 (zlen request_padding));
  let encrypted_tail := to_le_bytes 4 EMULE_TCP_CRYPT_MAGIC_SYNC ++
    [EMULE_ENCRYPTION_METHOD_OBFUSCATION; EMULE_ENCRYPTION_METHOD_OBFUSCATION; padding_len] ++ request_padding in
  let '(send_cipher, encrypted_tail) := rc4_apply send_cipher encrypted_tail in
  let s := stream_write ([marker] ++ random_key_part ++ encrypted_tail) s in
  '(encrypted_header, s) ← stream_read 6 s;
  let '(receive_cipher, header) := rc4_apply receive_cipher encrypted_header in
  magic ← le_at header 0 4;
  if negb (magic =? EMULE_TCP_CRYPT_MAGIC_SYNC) then Err PHandshake
  else
    method ← byte header 4;
    if negb (method =? EMULE_ENCRYPTION_METHOD_OBFUSCATION) then Err PHandshake
    else
      padding_len ← byte header 5;
      if 0 <? padding_len then
        '(encrypted_padding, s) ← stream_read padding_len s;
        Ok (s, fst (rc4_apply receive_cipher encrypted_padding), send_cipher)
      else Ok (s, receive_cipher, send_cipher).

Definition decode_incoming_obfuscation_header (receive_cipher : Rc4KeyStream) (encrypted_header : list Z)
    : res PeerError (Rc4KeyStream * (Z * Z * Z)) :=
  let '(receive_cipher, decrypted) := rc4_apply receive_cipher encrypted_header in
  magic ← le_at decrypted 0 4;
  if negb (magic =? EMULE_TCP_CRYPT_MAGIC_SYNC) then Err PHandshake
  else
    padding_len ← byte decrypted 6;
    supported_methods ← byte decrypted 4;
    requested_method ← byte decrypted 5;
    Ok (receive_cipher, (padding_len, supported_methods, requested_method)).

Definition encode_incoming_obfuscation_response (send_cipher : Rc4KeyStream) (padding : list Z)
    : res PeerError (Rc4KeyStream * list Z) :=
  padding_len ← expect (try_from_u 8 (zlen padding));
  Ok (rc4_apply send_cipher (to_le_bytes 4 EMULE_TCP_CRYPT_MAGIC_SYNC ++
        [EMULE_ENCRYPTION_METHOD_OBFUSCATION; padding_len] ++ padding)).

(** The methods a peer asks for are only logged. *)
Definition accept_incoming_obfuscation_handshake (s : stream) (local_user_hash : list Z) (first_marker : Z)
    (response_padding : list Z) : res PeerError (stream * Rc4KeyStream * Rc4KeyStream) :=
  if is_plain_ed2k_protocol_marker first_marker then Err PHandshake
  else
    '(random_key_part, s) ← stream_read 4 s;
    receive_cipher ← derive_obfuscation_key local_user_hash EMULE_TCP_CRYPT_MAGIC_REQUESTER random_key_part;
    send_cipher ← derive_obfuscation_key local_user_hash EMULE_TCP_CRYPT_MAGIC_SERVER random_key_part;
    '(encrypted_header, s) ← stream_read 7 s;
    '(receive_cipher, (padding_len, _, _)) ← decode_incoming_obfuscation_header receive_cipher encrypted_header;
    '(receive_cipher, s) ←
      (if 0 <? padding_len then
         '(ignored_padding, s) ← stream_read padding_len s;
         Ok (fst (rc4_apply receive_cipher ignored_padding), s)
       else Ok (receive_cipher, s));
    '(send_cipher, response) ← encode_incoming_obfuscation_response send_cipher response_padding;
    Ok (stream_write response s, receive_cipher, send_cipher).

(** ** Transports *)

(** [connect_outgoing] on a stream that has just been connected. *)
Definition connect_outgoing (s : stream) (local_connect_options : Z) (peer_user_hash : option (list Z))
    (peer_connect_options : option Z) (random_key_part : list Z) (marker : Z) (request_padding : list Z)
    : res PeerError Ed2kTransport :=
  obfuscate ← should_enable_outgoing_obfuscation local_connect_options peer_user_hash peer_connect_options;
  if obfuscate : bool then
    peer_user_hash ← expect peer_user_hash;
    '(s, receive_cipher, send_cipher) ←
      negotiate_outgoing_obfuscation_handshake s peer_user_hash random_key_part marker request_padding;
    Ok (mkTransport s [] (Some receive_cipher) (Some send_cipher) Obfuscated)
  else Ok (mkTransport s [] None None Plaintext).

Definition accept (s : stream) (local_user_hash response_padding : list Z) : res PeerError Ed2kTransport :=
  match st_incoming s with
  | [] => if st_reset s then Err PIo else Ok (mkTransport s [] None None Plaintext)
  | first_byte :: incoming =>
      let s := mkStream incoming (st_reset s) (st_written s) in
      if is_plain_ed2k_protocol_marker first_byte
      then Ok (mkTransport s [first_byte] None None Plaintext)
      else
        '(s, receive_cipher, send_cipher) ←
          accept_incoming_obfuscation_handshake s local_user_hash first_byte response_padding;
        Ok (mkTransport s [] (Some receive_cipher) (Some send_cipher) Obfuscated)
  end.

Definition apply_opt (cipher : option Rc4KeyStream) (bytes : list Z) : option Rc4KeyStream * list Z :=
  match cipher with
  | None => (None, bytes)
  | Some c => let '(c, out) := rc4_apply c bytes in (Some c, out)
  end.

Definition transport_write_all (bytes : list Z) (t : Ed2kTransport) : Ed2kTransport :=
  let '(cipher, out) := apply_opt (t_send_cipher t) bytes in
  mkTransport (stream_write out (t_stream t)) (t_prefetched t) (t_receive_cipher t) cipher (t_mode t).

Definition transport_read_u8 (t : Ed2kTransport) : res PeerError (option Z * Ed2kTransport) :=
  match t_prefetched t with
  | b :: rest => Ok (Some b, mkTransport (t_stream t) rest (t_receive_cipher t) (t_send_cipher t) (t_mode t))
  | [] =>
      match st_incoming (t_stream t) with
      | [] => if st_reset (t_stream t) then Err PIo else Ok (None, t)
      | _ :: _ =>
          '(bytes, s) ← stream_read 1 (t_stream t);
          let '(cipher, out) := apply_opt (t_receive_cipher t) bytes in
          Ok (out !! 0%nat, mkTransport s [] cipher (t_send_cipher t) (t_mode t))
      end
  end.

(** The prefetched bytes first, then the stream. *)
Definition transport_read_exact (n : Z) (t : Ed2kTransport) : res PeerError (list Z * Ed2kTransport) :=
  let from_prefetched := take (Z.to_nat n) (t_prefetched t) in
  let rest := drop (Z.to_nat n) (t_prefetched t) in
  if zlen from_prefetched <? n then
    '(bytes, s) ← stream_read (n - zlen from_prefetched) (t_stream t);
    let '(cipher, out) := apply_opt (t_receive_cipher t) bytes in
    Ok (from_prefetched ++ out, mkTransport s rest cipher (t_send_cipher t) (t_mode t))
  else Ok (from_prefetched, mkTransport (t_stream t) rest (t_receive_cipher t) (t_send_cipher t) (t_mode t)).

Definition read_packet (t : Ed2kTransport) : res PeerError (option EmuleTcpPacket * Ed2kTransport) :=
  '(protocol, t) ← transport_read_u8 t;
  match protocol with
  | None => Ok (None, t)
  | Some protocol =>
      '(header_rest, t) ← transport_read_exact (TCP_PACKET_HEADER_LEN - 1) t;
      packet_length ← le_at header_rest 0 4;
      opcode ← byte header_rest 4;
      if packet_length =? 0 then Err PSize
      else
        '(payload, t) ← transport_read_exact (packet_length - 1) t;
        '(protocol, payload) ← decode_peer_payload protocol payload;
        Ok (Some (mkTcpPacket protocol opcode payload), t)
  end.
End zlib.

(** ** Specification *)

(** What a transport has yet to read, in the clear. *)
Definition pending (t : Ed2kTransport) : list Z :=
  t_prefetched t ++ snd (apply_opt (t_receive_cipher t) (st_incoming (t_stream t))).

(** A frame at the front of the bytes to read; [reset] is the end of the stream. *)
Definition read_frame (zlib_reads : list Z → list (list Z) * bool) (reset : bool) (l : list Z)
    : res PeerError (option (EmuleTcpPacket * list Z)) :=
  match l with
  | [] => if reset then Err PIo else Ok None
  | protocol :: l =>
      if zlen l <? 5 then Err PIo
      else
        let n := from_le_bytes (take 4 l) in
        let body := drop 5 l in
        if n =? 0 then Err PSize
        else if zlen body <? n - 1 then Err PIo
        else
          '(protocol, payload) ← decode_peer_payload zlib_reads protocol (take (Z.to_nat (n - 1)) body);
          Ok (Some (mkTcpPacket protocol (nth 4 l 0) payload, drop (Z.to_nat (n - 1)) body))
  end.

(** Writing packets, and reading until the stream ends. *)
Fixpoint send_packets (ps : list EmuleTcpPacket) (t : Ed2kTransport) : res PeerError Ed2kTransport :=
  match ps with
  | [] => Ok t
  | p :: ps =>
      bytes ← encode_packet (tp_protocol p) (tp_opcode p) (tp_payload p);
      send_packets ps (transport_write_all bytes t)
  end.
Fixpoint read_packets (zlib_reads : list Z → list (list Z) * bool) (fuel : nat) (t : Ed2kTransport)
    : res PeerError (list EmuleTcpPacket * bool) :=
  match fuel with
  | O => Ok ([], false)
  | S fuel =>
      '(p, t) ← read_packet zlib_reads t;
      match p with
      | None => Ok ([], true)
      | Some p => '(ps, ended) ← read_packets zlib_reads fuel t; Ok (p :: ps, ended)
      end
  end.

(** A packet that is not compressed and whose length fits its header. *)
Definition sendable (p : EmuleTcpPacket) : Prop :=
  (tp_protocol p = OP_EMULEPROT ∨ tp_protocol p = OP_EDONKEYPROT) ∧ is_u8 (tp_opcode p) = true ∧
  is_bytes (tp_payload p) = true ∧ zlen (tp_payload p) < U32_MAX.

#[global] Arguments rc4_step : simpl never.

(** ** Slices *)

Lemma range_ok {E} l a b : 0 ≤ a ≤ b → b ≤ zlen l → range (E:=E) l a b = Ok (slice l a (b - a)).
Proof. intros. unfold range. by rewrite !(proj2 (Z.leb_le _ _)) by lia. Qed.
Lemma tail_from_ok {E} l a : 0 ≤ a ≤ zlen l → tail_from (E:=E) l a = Ok (drop (Z.to_nat a) l).
Proof.
  intros Ha. unfold tail_from. rewrite range_ok by lia. unfold slice. f_equal. apply firstn_all2.
  rewrite length_drop. unfold zlen in *. lia.
Qed.
Lemma byte_ok {E} l i : 0 ≤ i < zlen l → byte (E:=E) l i = Ok (nth (Z.to_nat i) l 0).
Proof.
  intros Hi. unfold byte. rewrite (proj2 (Z.leb_le 0 i)) by lia. unfold zlen in Hi.
  destruct (lookup_lt_is_Some_2 l (Z.to_nat i)) as [x Hx]; [lia|]. rewrite nth_lookup. by rewrite Hx.
Qed.
Lemma le_at_ok {E} l a n : 0 ≤ a → 0 ≤ n → a + n ≤ zlen l → le_at (E:=E) l a n = Ok (from_le_bytes (slice l a n)).
Proof. intros. unfold le_at. rewrite range_ok by lia. cbn. do 3 f_equal. lia. Qed.

(** ** The key stream *)

Lemma rc4_apply_app c a b :
  rc4_apply c (a ++ b) =
    let '(c1, o1) := rc4_apply c a in let '(c2, o2) := rc4_apply c1 b in (c2, o1 ++ o2).
Proof.
  revert c. induction a as [|x a IH]; intros c; cbn [app rc4_apply]; [by destruct (rc4_apply c b)|].
  destruct (rc4_step c) as [c1 k]. rewrite IH. destruct (rc4_apply c1 a) as [c2 o1].
  by destruct (rc4_apply c2 b).
Qed.
Lemma rc4_apply_inv c a : rc4_apply c (snd (rc4_apply c a)) = (fst (rc4_apply c a), a).
Proof.
  revert c. induction a as [|x a IH]; intros c; [done|]. cbn [rc4_apply]. destruct (rc4_step c) as [c1 k] eqn:Hs.
  specialize (IH c1). destruct (rc4_apply c1 a) as [c2 o]. cbn [fst snd rc4_apply] in *. rewrite Hs, IH.
  by rewrite Z.lxor_assoc, Z.lxor_nilpotent, Z.lxor_0_r.
Qed.
Lemma length_rc4 c a : length (snd (rc4_apply c a)) = length a.
Proof.
  revert c. induction a as [|x a IH]; intros c; [done|]. cbn [rc4_apply]. destruct (rc4_step c) as [c1 k].
  specialize (IH c1). destruct (rc4_apply c1 a). cbn in *. by rewrite IH.
Qed.

Lemma apply_opt_app c a b :
  apply_opt c (a ++ b) =
    let '(c1, o1) := apply_opt c a in let '(c2, o2) := apply_opt c1 b in (c2, o1 ++ o2).
Proof.
  destruct c as [c|]; cbn; [|done]. rewrite rc4_apply_app. destruct (rc4_apply c a) as [c1 o1]. cbn.
  by destruct (rc4_apply c1 b).
Qed.
Lemma apply_opt_inv c a : apply_opt c (snd (apply_opt c a)) = (fst (apply_opt c a), a).
Proof.
  destruct c as [c|]; cbn; [|done]. pose proof (rc4_apply_inv c a) as H. destruct (rc4_apply c a) as [c1 o]. cbn in *.
  by rewrite H.
Qed.
Lemma zlen_apply_opt c a : zlen (snd (apply_opt c a)) = zlen a.
Proof.
  destruct c as [c|]; [|done]. cbn. pose proof (length_rc4 c a) as H. destruct (rc4_apply c a). cbn in *.
  unfold zlen. by rewrite H.
Qed.
Lemma apply_opt_split c l n : (n ≤ length l)%nat →
  snd (apply_opt c l) = snd (apply_opt c (take n l)) ++ snd (apply_opt (fst (apply_opt c (take n l))) (drop n l)).
Proof.
  intros Hn. rewrite <- (take_drop n l) at 1. rewrite apply_opt_app.
  destruct (apply_opt c (take n l)) as [c1 o1]. cbn. by destruct (apply_opt c1 (drop n l)).
Qed.

(** ** Ciphers keep bytes *)

Definition cipher_ok (c : Rc4KeyStream) : Prop := is_bytes (rc_s c) = true.
Lemma at_byte s i : is_bytes s = true → 0 ≤ at_ s i < 256.
Proof. intros Hs. unfold at_. destruct (s !! Z.to_nat i) eqn:E; [|cbn; lia]. by apply (is_bytes_lookup s (Z.to_nat i)). Qed.
Lemma is_bytes_insert s i x : is_bytes s = true → 0 ≤ x < 256 → is_bytes (<[i := x]> s) = true.
Proof. rewrite !is_bytes_spec. intros Hs Hx. by apply Forall_insert. Qed.
Lemma swap_bytes s i j : is_bytes s = true → is_bytes (swap s i j) = true.
Proof. intros Hs. unfold swap. apply is_bytes_insert; [apply is_bytes_insert; [done|]|]; by apply at_byte. Qed.
Lemma lxor_byte a b : 0 ≤ a < 256 → 0 ≤ b < 256 → 0 ≤ Z.lxor a b < 256.
Proof.
  intros Ha Hb. split; [apply Z.lxor_nonneg; lia|]. destruct (Z.eq_dec (Z.lxor a b) 0) as [->|Hn]; [lia|].
  assert (Hl : ∀ x, 0 ≤ x < 256 → Z.log2 x < 8).
  { intros x Hx. destruct (Z.eq_dec x 0) as [->|]; [done|]. apply Z.log2_lt_pow2; lia. }
  pose proof (proj2 (Z.lxor_nonneg a b) ltac:(lia)). pose proof (Z.log2_lxor a b ltac:(lia) ltac:(lia)). pose proof (Hl a Ha). pose proof (Hl b Hb).
  change 256 with (2 ^ 8). apply Z.log2_lt_pow2; lia.
Qed.
Lemma rc4_bytes c l : cipher_ok c → is_bytes l = true → cipher_ok (fst (rc4_apply c l)) ∧ is_bytes (snd (rc4_apply c l)) = true.
Proof.
  revert c. induction l as [|b l IH]; intros c Hc Hl; [done|]. apply is_bytes_spec, Forall_cons_1 in Hl as [Hb Hl]. apply is_bytes_spec in Hl.
  assert (Hs : cipher_ok (fst (rc4_step c)) ∧ 0 ≤ snd (rc4_step c) < 256).
  { unfold rc4_step. cbn [fst snd]. split; [by apply swap_bytes|by apply at_byte, swap_bytes]. }
  unfold rc4_apply; fold rc4_apply. destruct (rc4_step c) as [c1 k]. destruct Hs as [Hc1 Hk]. destruct (IH c1 Hc1 Hl) as [H1 H2].
  destruct (rc4_apply c1 l) as [c2 o]. cbn [fst snd] in *. split; [done|]. apply is_bytes_spec. constructor; [by apply lxor_byte|by apply is_bytes_spec].
Qed.
Lemma schedule_bytes n i key s j : is_bytes s = true → is_bytes (rc4_schedule n i key s j) = true.
Proof. revert i s j. induction n as [|n IH]; intros i s j Hs; cbn [rc4_schedule]; [done|]. by apply IH, swap_bytes. Qed.

#[global] Arguments rc4_apply : simpl never.

(** ** Reading refines reading from [pending] *)

(** What reading leaves unchanged. *)
Definition same_end (t t' : Ed2kTransport) : Prop :=
  st_reset (t_stream t') = st_reset (t_stream t) ∧ st_written (t_stream t') = st_written (t_stream t) ∧
  t_send_cipher t' = t_send_cipher t ∧ t_mode t' = t_mode t.

Lemma same_end_trans t1 t2 t3 : same_end t1 t2 → same_end t2 t3 → same_end t1 t3.
Proof. unfold same_end. naive_solver congruence. Qed.

Lemma pending_drop t n : (n ≤ length (st_incoming (t_stream t)))%nat → t_prefetched t = [] →
  pending t = snd (apply_opt (t_receive_cipher t) (take n (st_incoming (t_stream t)))) ++
    snd (apply_opt (fst (apply_opt (t_receive_cipher t) (take n (st_incoming (t_stream t)))))
           (drop n (st_incoming (t_stream t)))).
Proof. intros Hn Hp. unfold pending. rewrite Hp. cbn [app]. by apply apply_opt_split. Qed.

Lemma read_u8_spec t :
  match pending t with
  | [] => transport_read_u8 t = (if st_reset (t_stream t) then Err PIo else Ok (None, t))
  | b :: rest => ∃ t', transport_read_u8 t = Ok (Some b, t') ∧ pending t' = rest ∧ same_end t t'
  end.
Proof.
  unfold transport_read_u8. destruct t as [s pre rc sc mode]. unfold pending. cbn [t_prefetched t_stream t_receive_cipher].
  destruct pre as [|b pre]; cbn [app].
  - destruct (st_incoming s) as [|x inc] eqn:Hi; [by destruct rc|].
    rewrite (apply_opt_split rc (x :: inc) 1) by (cbn; lia). unfold stream_read. rewrite Hi.
    rewrite (proj2 (Z.leb_le _ _)) by (rewrite zlen_cons; pose proof (zlen_nonneg inc); lia).
    cbn [mbind res_bind]. change (take (Z.to_nat 1) (x :: inc)) with [x]. change (take 1 (x :: inc)) with [x].
    change (drop (Z.to_nat 1) (x :: inc)) with inc. change (drop 1 (x :: inc)) with inc.
    pose proof (zlen_apply_opt rc [x]) as Hl. destruct (apply_opt rc [x]) as [c' o]. cbn [fst snd] in Hl |- *.
    destruct o as [|y [|]]; [done| |unfold zlen in Hl; cbn in Hl; lia]. cbn [app]. eexists. split; [done|]. split; done.
  - eexists. split; [done|]. split; done.
Qed.

Lemma read_exact_spec n t : 0 ≤ n →
  if n <=? zlen (pending t)
  then ∃ t', transport_read_exact n t = Ok (take (Z.to_nat n) (pending t), t') ∧
         pending t' = drop (Z.to_nat n) (pending t) ∧ same_end t t'
  else transport_read_exact n t = Err PIo.
Proof.
  intros Hn. destruct t as [s pre rc sc mode]. unfold transport_read_exact, pending.
  cbn [t_prefetched t_stream t_receive_cipher t_send_cipher t_mode]. set (inc := st_incoming s).
  pose proof (zlen_apply_opt rc inc) as Hl.
  assert (Hpre : zlen (take (Z.to_nat n) pre) = Z.min n (zlen pre)).
  { unfold zlen. rewrite length_take. lia. }
  rewrite zlen_app, Hl, Hpre. destruct (Z.ltb_spec (Z.min n (zlen pre)) n) as [Hlt|Hge].
  - assert (Hall : take (Z.to_nat n) pre = pre) by (apply firstn_all2; unfold zlen in *; lia).
    rewrite Hall. assert (drop (Z.to_nat n) pre = []) as -> by (apply skipn_all2; unfold zlen in *; lia).
    unfold stream_read. fold inc. replace (n - Z.min n (zlen pre)) with (n - zlen pre) by lia.
    destruct (Z.leb_spec n (zlen pre + zlen inc)) as [Hle|Hgt].
    + rewrite (proj2 (Z.leb_le _ _)) by lia. cbn [mbind res_bind]. set (k := Z.to_nat (n - zlen pre)).
      assert (Hk : Z.to_nat n = (length pre + k)%nat) by (unfold k, zlen in *; lia).
      rewrite (apply_opt_split rc inc k) by (unfold k, zlen in *; lia). rewrite Hk, firstn_app_2, <- drop_drop, drop_app_length.
      pose proof (zlen_apply_opt rc (take k inc)) as Hl2. destruct (apply_opt rc (take k inc)) as [c' o]. cbn [fst snd] in Hl2 |- *.
      assert (length o = k) as Ho.
      { unfold zlen in Hl2. rewrite length_take in Hl2. unfold k, zlen in *. lia. }
      rewrite take_app_length', drop_app_length' by done. eexists. split; [done|]. split; [|done]. reflexivity.
    + rewrite (proj2 (Z.leb_gt _ _)) by lia. done.
  - pose proof (zlen_nonneg inc). rewrite (proj2 (Z.leb_le _ _)) by lia.
    assert (Z.to_nat n ≤ length pre)%nat by (unfold zlen in *; lia).
    rewrite take_app_le, drop_app_le by done. eexists. split; [done|]. split; done.
Qed.

Lemma inflate_loop_spec chunks ended decoded : zlen decoded ≤ MAX_PEER_DECOMPRESSED_PACKET_LEN →
  inflate_loop chunks ended decoded ≠ Panic ∧
  ∀ out, inflate_loop chunks ended decoded = Ok out ↔
    ended = true ∧ out = decoded ++ concat chunks ∧ zlen out ≤ MAX_PEER_DECOMPRESSED_PACKET_LEN.
Proof.
  revert decoded. induction chunks as [|c chunks IH]; intros d Hd; cbn [inflate_loop concat].
  - rewrite app_nil_r. destruct ended; split; try done; naive_solver.
  - destruct (Z.ltb_spec MAX_PEER_DECOMPRESSED_PACKET_LEN (saturating_add 64 (zlen d) (zlen c))) as [Hgt|Hle].
    + split; [done|]. intros out. split; [done|]. intros (_ & -> & Hlen). rewrite !zlen_app in Hlen.
      pose proof (zlen_nonneg (concat chunks)). unfold saturating_add in Hgt. lia.
    + rewrite app_assoc. destruct (IH (d ++ c)) as [H1 H2]; [|split; [done|exact H2]].
      rewrite zlen_app. unfold saturating_add, MAX_PEER_DECOMPRESSED_PACKET_LEN in *. lia.
Qed.
Lemma decode_peer_payload_total zlib_reads protocol payload :
  decode_peer_payload zlib_reads protocol payload ≠ Panic.
Proof.
  unfold decode_peer_payload. destruct (negb _); [done|]. destruct (zlib_reads payload) as [chunks ended].
  destruct (inflate_loop_spec chunks ended []) as [H _]; [done|]. by destruct (inflate_loop _ _ _).
Qed.

Lemma read_packet_spec zlib_reads t : is_bytes (pending t) = true →
  match read_frame zlib_reads (st_reset (t_stream t)) (pending t) with
  | Ok None => read_packet zlib_reads t = Ok (None, t)
  | Ok (Some (p, rest)) => ∃ t', read_packet zlib_reads t = Ok (Some p, t') ∧ pending t' = rest ∧ same_end t t'
  | Err e => read_packet zlib_reads t = Err e
  | Panic => False
  end.
Proof.
  intros Hb. unfold read_packet. pose proof (read_u8_spec t) as H8. destruct (pending t) as [|protocol l] eqn:Hp; cbn [read_frame].
  - destruct (st_reset (t_stream t)); by rewrite H8.
  - destruct H8 as (t1 & -> & Hp1 & Hs1). cbn [mbind res_bind].
    pose proof (read_exact_spec (TCP_PACKET_HEADER_LEN - 1) t1 ltac:(done)) as H5. rewrite Hp1 in H5.
    change (TCP_PACKET_HEADER_LEN - 1) with 5 in *.
    destruct (Z.ltb_spec (zlen l) 5) as [Hlt|Hge]; [rewrite (proj2 (Z.leb_gt _ _)) in H5 by lia; by rewrite H5|].
    rewrite (proj2 (Z.leb_le _ _)) in H5 by lia. destruct H5 as (t2 & -> & Hp2 & Hs2). cbn [mbind res_bind].
    change (Z.to_nat 5) with 5%nat in *. assert (Hl : (5 ≤ length l)%nat) by (unfold zlen in *; lia).
    assert (H5 : zlen (take 5 l) = 5) by (unfold zlen; rewrite length_take; lia).
    rewrite le_at_ok, byte_ok by lia. cbn [mbind res_bind]. unfold slice. change (Z.to_nat 0) with 0%nat. change (Z.to_nat 4) with 4%nat.
    rewrite drop_0, take_take, !nth_lookup, lookup_take_lt by lia. change (4 `min` 5)%nat with 4%nat.
    assert (Hn : 0 ≤ from_le_bytes (take 4 l)).
    { apply from_le_bytes_bound, is_bytes_take. cbn in Hb. by apply andb_true_iff in Hb as [_ ?]. }
    destruct (Z.eqb_spec (from_le_bytes (take 4 l)) 0) as [|H0]; [done|].
    pose proof (read_exact_spec (from_le_bytes (take 4 l) - 1) t2 ltac:(lia)) as Hr. rewrite Hp2 in Hr.
    destruct (Z.ltb_spec (zlen (drop 5 l)) (from_le_bytes (take 4 l) - 1)) as [Hlt2|Hge2];
      [rewrite (proj2 (Z.leb_gt _ _)) in Hr by lia; by rewrite Hr|].
    rewrite (proj2 (Z.leb_le _ _)) in Hr by lia. destruct Hr as (t3 & -> & Hp3 & Hs3). cbn [mbind res_bind].
    pose proof (decode_peer_payload_total zlib_reads protocol (take (Z.to_nat (from_le_bytes (take 4 l) - 1)) (drop 5 l))) as Ht.
    destruct (decode_peer_payload _ _ _) as [[protocol' payload]|e|]; cbn [mbind res_bind]; [|done|done].
    exists t3. split; [done|]. split; [done|]. eapply same_end_trans; [exact Hs1|]. by eapply same_end_trans.
Qed.

(** ** Writing and reading packets *)

Definition frame (p : EmuleTcpPacket) : list Z :=
  [tp_protocol p] ++ to_le_bytes 4 (zlen (tp_payload p) + 1) ++ [tp_opcode p] ++ tp_payload p.

Lemma encode_frame {E} p : sendable p →
  encode_packet (E:=E) (tp_protocol p) (tp_opcode p) (tp_payload p) = Ok (frame p).
Proof.
  intros (_ & _ & _ & Hl). unfold encode_packet, frame. pose proof (zlen_nonneg (tp_payload p)).
  rewrite try_from_u_fits; [done|]. apply is_u_spec. unfold U32_MAX in *. lia.
Qed.

Lemma frame_bytes p : sendable p → is_bytes (frame p) = true.
Proof.
  intros (Hpr & Ho & Hp & _). unfold frame. rewrite !is_bytes_app, is_bytes_to_le, Hp. cbn [is_bytes forallb].
  rewrite Ho. destruct Hpr as [-> | ->]; done.
Qed.

Lemma read_frame_frame zlib_reads reset p rest : sendable p →
  read_frame zlib_reads reset (frame p ++ rest) = Ok (Some (p, rest)).
Proof.
  intros (Hpr & _ & _ & Hl). unfold frame. rewrite <- !app_assoc. cbn [app read_frame].
  pose proof (zlen_nonneg (tp_payload p)) as H0. pose proof (length_to_le_bytes 4 (zlen (tp_payload p) + 1)) as H4.
  pose proof (from_to_le_bytes 4 (zlen (tp_payload p) + 1) ltac:(unfold U32_MAX in *; lia)) as Hv.
  destruct (to_le_bytes 4 (zlen (tp_payload p) + 1)) as [|a [|b [|c [|d [|]]]]]; try done.
  cbn [app take drop nth]. rewrite Hv, ?drop_0.
  rewrite (proj2 (Z.ltb_ge _ _)) by (rewrite !zlen_cons; pose proof (zlen_nonneg (tp_payload p ++ rest)); lia).
  rewrite (proj2 (Z.eqb_neq _ _)) by lia. replace (zlen (tp_payload p) + 1 - 1) with (zlen (tp_payload p)) by lia.
  rewrite (proj2 (Z.ltb_ge _ _)) by (rewrite zlen_app; pose proof (zlen_nonneg rest); lia).
  rewrite take_app_length', drop_app_length' by (unfold zlen; lia). unfold decode_peer_payload.
  assert (negb (tp_protocol p =? OP_PACKEDPROT) = true) as -> by (destruct Hpr as [-> | ->]; done). cbn. by destruct p.
Qed.

Lemma send_packets_spec ps t : Forall sendable ps →
  send_packets ps t = Ok (mkTransport
    (stream_write (snd (apply_opt (t_send_cipher t) (concat (frame <$> ps)))) (t_stream t)) (t_prefetched t)
    (t_receive_cipher t) (fst (apply_opt (t_send_cipher t) (concat (frame <$> ps)))) (t_mode t)).
Proof.
  intros Hps. revert t. induction Hps as [|p ps Hp _ IH]; intros t.
  - destruct t as [[i r w] pre rc [sc|] mode]; cbn; unfold stream_write; cbn; by rewrite app_nil_r.
  - cbn [send_packets]. rewrite encode_frame by done. cbn [mbind res_bind fmap list_fmap concat]. rewrite apply_opt_app.
    unfold transport_write_all. destruct (apply_opt (t_send_cipher t) (frame p)) as [c1 o1]. rewrite IH. cbn [t_send_cipher t_stream t_prefetched t_receive_cipher t_mode].
    destruct (apply_opt c1 _) as [c2 o2]. cbn [fst snd]. unfold stream_write. cbn [st_incoming st_reset st_written].
    by rewrite app_assoc.
Qed.

Lemma read_packets_spec zlib_reads ps t : Forall sendable ps → st_reset (t_stream t) = false →
  pending t = concat (frame <$> ps) → read_packets zlib_reads (S (length ps)) t = Ok (ps, true).
Proof.
  intros Hps. revert t. induction Hps as [|p ps Hp Hps IH]; intros t Hr Hpend.
  - cbn [length read_packets]. pose proof (read_packet_spec zlib_reads t) as H. rewrite Hpend, Hr in H. cbn in H.
    by rewrite H.
  - cbn [length]. cbn [read_packets]. pose proof (read_packet_spec zlib_reads t) as H. rewrite Hpend, Hr in H.
    cbn [fmap list_fmap concat] in H. rewrite read_frame_frame in H by done. destruct H as (t' & -> & Hp' & Hs).
    + rewrite is_bytes_app, frame_bytes by done. cbn [andb]. clear -Hps. induction Hps as [|q qs Hq _ IH]; [done|].
      cbn [fmap list_fmap concat]. by rewrite is_bytes_app, frame_bytes.
    + cbn [mbind res_bind]. destruct Hs as (Hs & _). specialize (IH t' ltac:(congruence) Hp'). cbn [read_packets] in IH. rewrite IH. done.
Qed.

(** ** The handshake *)

Lemma stream_read_app n a b r w : zlen a = n → stream_read n (mkStream (a ++ b) r w) = Ok (a, mkStream b r w).
Proof.
  intros <-. unfold stream_read. cbn [st_incoming st_reset st_written].
  rewrite (proj2 (Z.leb_le _ _)) by (rewrite zlen_app; pose proof (zlen_nonneg b); lia).
  by rewrite take_app_length', drop_app_length' by (unfold zlen; lia).
Qed.

Lemma rc4_split k a b : ∃ o1 o2, rc4_apply k (a ++ b) = (fst (rc4_apply (fst (rc4_apply k a)) b), o1 ++ o2) ∧
  zlen o1 = zlen a ∧ zlen o2 = zlen b ∧ rc4_apply k o1 = (fst (rc4_apply k a), a) ∧
  rc4_apply (fst (rc4_apply k a)) o2 = (fst (rc4_apply (fst (rc4_apply k a)) b), b).
Proof.
  rewrite rc4_apply_app. exists (snd (rc4_apply k a)), (snd (rc4_apply (fst (rc4_apply k a)) b)).
  rewrite !rc4_apply_inv. unfold zlen. rewrite !length_rc4. split; [|done].
  destruct (rc4_apply k a) as [c1 o1]. cbn [fst]. by destruct (rc4_apply c1 b).
Qed.

(** The padding after a header is read when there is any. *)
Lemma read_padding {A} (k : Rc4KeyStream → stream → A) c pad o more r w :
  zlen o = zlen pad → rc4_apply c o = (fst (rc4_apply c pad), pad) →
  (if 0 <? zlen pad then
     '(ignored, s) ← stream_read (zlen pad) (mkStream (o ++ more) r w); Ok (k (fst (rc4_apply c ignored)) s)
   else Ok (k c (mkStream (o ++ more) r w))) = Ok (E:=PeerError) (k (fst (rc4_apply c pad)) (mkStream more r w)).
Proof.
  intros Hl Hc. destruct (Z.ltb_spec 0 (zlen pad)) as [Hpos|Hz].
  - rewrite stream_read_app by done. cbn [mbind res_bind]. by rewrite Hc.
  - destruct pad as [|x pad]; [|rewrite zlen_cons in Hz; pose proof (zlen_nonneg pad); lia].
    destruct o; [done|]. rewrite zlen_cons in Hl. pose proof (zlen_nonneg o). rewrite zlen_nil in Hl. lia.
Qed.

Lemma request_header n : zlen (to_le_bytes 4 EMULE_TCP_CRYPT_MAGIC_SYNC ++ [0; 0; n]) = 7 ∧
  le_at (E:=PeerError) (to_le_bytes 4 EMULE_TCP_CRYPT_MAGIC_SYNC ++ [0; 0; n]) 0 4 = Ok EMULE_TCP_CRYPT_MAGIC_SYNC.
Proof. split; reflexivity. Qed.
Lemma response_header n : zlen (to_le_bytes 4 EMULE_TCP_CRYPT_MAGIC_SYNC ++ [0; n]) = 6 ∧
  le_at (E:=PeerError) (to_le_bytes 4 EMULE_TCP_CRYPT_MAGIC_SYNC ++ [0; n]) 0 4 = Ok EMULE_TCP_CRYPT_MAGIC_SYNC.
Proof. split; reflexivity. Qed.

Section handshake.
Context (md5 : list Z → list Z).
Hypothesis md5_digest : ∀ l, length (md5 l) = 16%nat.

Lemma derive_key h magic rk : ∃ k, derive_obfuscation_key md5 h magic rk = Ok k.
Proof.
  unfold derive_obfuscation_key, rc4_new. rewrite (proj2 (Z.eqb_neq _ _)); [by eexists|].
  unfold zlen. rewrite md5_digest. done.
Qed.

(** Both sides end with the ciphers of each other, having written what the other reads. *)
Lemma handshake_ok h rk marker pad_a pad_b : length rk = 4%nat → is_plain_ed2k_protocol_marker marker = false →
  zlen pad_a ≤ 255 → zlen pad_b ≤ 255 →
  ∃ request response ca cb, ∀ more_a more_b ra rb wb,
    negotiate_outgoing_obfuscation_handshake md5 (mkStream (response ++ more_a) ra []) h rk marker pad_a =
      Ok (mkStream more_a ra (marker :: request), cb, ca) ∧
    accept_incoming_obfuscation_handshake md5 (mkStream (request ++ more_b) rb wb) h marker pad_b =
      Ok (mkStream more_b rb (wb ++ response), ca, cb).
Proof.
  intros Hrk Hm Ha Hb. pose proof (zlen_nonneg pad_a). pose proof (zlen_nonneg pad_b).
  destruct (derive_key h EMULE_TCP_CRYPT_MAGIC_REQUESTER rk) as [ka Hka], (derive_key h EMULE_TCP_CRYPT_MAGIC_SERVER rk) as [kb Hkb].
  destruct (rc4_split ka (to_le_bytes 4 EMULE_TCP_CRYPT_MAGIC_SYNC ++ [0; 0; zlen pad_a]) pad_a) as (a1 & a2 & Ea & Hl1 & Hl2 & E1 & E2).
  destruct (rc4_split kb (to_le_bytes 4 EMULE_TCP_CRYPT_MAGIC_SYNC ++ [0; zlen pad_b]) pad_b) as (b1 & b2 & Eb & Hm1 & Hm2 & F1 & F2).
  destruct (request_header (zlen pad_a)) as [Hq Hqm], (response_header (zlen pad_b)) as [Hs Hsm].
  rewrite Hq in Hl1. rewrite Hs in Hm1.
  eexists (rk ++ a1 ++ a2), (b1 ++ b2), _, _. intros more_a more_b ra rb wb. split.
  - unfold negotiate_outgoing_obfuscation_handshake. rewrite Hka, Hkb. cbn [mbind res_bind].
    rewrite try_from_u_fits by (apply is_u8_spec; lia). cbn [expect mbind res_bind].
    unfold EMULE_ENCRYPTION_METHOD_OBFUSCATION.
    rewrite (app_assoc (to_le_bytes 4 EMULE_TCP_CRYPT_MAGIC_SYNC) [0; 0; zlen pad_a] pad_a), Ea. unfold stream_write.
    cbn [st_incoming st_reset st_written app]. rewrite <- app_assoc, stream_read_app by done. cbn [mbind res_bind].
    rewrite F1, Hsm. cbn [mbind res_bind]. rewrite Z.eqb_refl. cbn [negb].
    rewrite !byte_ok by (rewrite Hs; lia). cbn [mbind res_bind].
    change (nth (Z.to_nat 4) (to_le_bytes 4 EMULE_TCP_CRYPT_MAGIC_SYNC ++ [0; zlen pad_b]) 0) with 0.
    change (nth (Z.to_nat 5) (to_le_bytes 4 EMULE_TCP_CRYPT_MAGIC_SYNC ++ [0; zlen pad_b]) 0) with (zlen pad_b).
    cbn [Z.eqb negb]. exact (read_padding (λ c s, (s, c, _)) _ pad_b b2 more_a ra _ Hm2 F2).
  - unfold accept_incoming_obfuscation_handshake. rewrite Hm. rewrite <- app_assoc, stream_read_app by (unfold zlen; by rewrite Hrk).
    cbn [mbind res_bind]. rewrite Hka, Hkb. cbn [mbind res_bind]. rewrite <- app_assoc, stream_read_app by done. cbn [mbind res_bind].
    unfold decode_incoming_obfuscation_header. rewrite E1, Hqm. cbn [mbind res_bind]. rewrite Z.eqb_refl. cbn [negb].
    rewrite !byte_ok by (rewrite Hq; lia). cbn [mbind res_bind].
    change (nth (Z.to_nat 6) (to_le_bytes 4 EMULE_TCP_CRYPT_MAGIC_SYNC ++ [0; 0; zlen pad_a]) 0) with (zlen pad_a).
    rewrite (read_padding (λ c s, (c, s)) _ pad_a a2 more_b rb wb) by done. cbn [mbind res_bind].
    unfold encode_incoming_obfuscation_response. rewrite try_from_u_fits by (apply is_u8_spec; lia). cbn [expect mbind res_bind].
    unfold EMULE_ENCRYPTION_METHOD_OBFUSCATION.
    rewrite (app_assoc (to_le_bytes 4 EMULE_TCP_CRYPT_MAGIC_SYNC) [0; zlen pad_b] pad_b), Eb. cbn [mbind res_bind]. done.
Qed.
End handshake.

Lemma pending_sent c s mode sc l : st_incoming s = snd (apply_opt c l) → pending (mkTransport s [] c sc mode) = l.
Proof. intros H. unfold pending. cbn [t_prefetched t_receive_cipher t_stream app]. rewrite H. by rewrite apply_opt_inv. Qed.

Lemma plain_accept md5 hash pad ps : Forall sendable ps →
  ∃ s pre, accept md5 (mkStream (concat (frame <$> ps)) false []) hash pad = Ok (mkTransport s pre None None Plaintext) ∧
    pre ++ st_incoming s = concat (frame <$> ps) ∧ st_reset s = false ∧ st_written s = [].
Proof.
  intros [|p ps' Hp _]; unfold accept; cbn [st_incoming fmap list_fmap concat].
  - by exists (mkStream [] false []), [].
  - unfold frame at 1. cbn [app st_reset st_written].
    assert (is_plain_ed2k_protocol_marker (tp_protocol p) = true) as -> by (destruct Hp as [[-> | ->] _]; done).
    eexists _, [tp_protocol p]. split; [done|]. cbn [st_incoming]. done.
Qed.

(** ** Properties *)

(** C34. A connection delivers: whether it is obfuscated or not, and whatever random key,
    marker and padding the two sides choose, there are byte streams between them that
    are what each side writes when it reads the other's; the handshake then succeeds
    on both sides, in the mode the connect options ask for, and each side reads
    exactly the packets the other has sent, in order, and then the end of the stream. *)
Theorem connection_delivers zlib_reads md5 hash la lp obfuscate rk draws marker pad_a pad_b ps qs :
  (∀ l, length (md5 l) = 16%nat) → length rk = 4%nat → random_non_protocol_marker draws = Some marker →
  zlen pad_a ≤ 15 → zlen pad_b ≤ 15 → should_enable_outgoing_obfuscation la (Some hash) lp = Ok obfuscate →
  Forall sendable ps → Forall sendable qs →
  let mode := if obfuscate then Obfuscated else Plaintext in
  ∃ a_to_b b_to_a ta tb ta' tb',
    connect_outgoing md5 (mkStream b_to_a false []) la (Some hash) lp rk marker pad_a = Ok ta ∧
    accept md5 (mkStream a_to_b false []) hash pad_b = Ok tb ∧ t_mode ta = mode ∧ t_mode tb = mode ∧
    send_packets ps ta = Ok ta' ∧ send_packets qs tb = Ok tb' ∧
    st_written (t_stream ta') = a_to_b ∧ st_written (t_stream tb') = b_to_a ∧
    read_packets zlib_reads (S (length ps)) tb' = Ok (ps, true) ∧
    read_packets zlib_reads (S (length qs)) ta' = Ok (qs, true).
Proof.
  intros Hmd Hrk Hdraw Ha Hb Hob Hps Hqs mode. apply find_some in Hdraw as [_ Hm%negb_true_iff].
  unfold connect_outgoing. rewrite Hob. cbn [mbind res_bind expect]. destruct obfuscate.
  - destruct (handshake_ok md5 Hmd hash rk marker pad_a pad_b) as (request & response & ca & cb & H); [done|done|lia|lia|].
    set (wa := snd (apply_opt (Some ca) (concat (frame <$> ps)))). set (wb := snd (apply_opt (Some cb) (concat (frame <$> qs)))).
    exists (marker :: request ++ wa), (response ++ wb). destruct (H wb wa false false []) as [-> H2]. cbn [mbind res_bind].
    unfold accept. cbn [st_incoming st_reset st_written]. rewrite Hm, H2. cbn [mbind res_bind].
    do 4 eexists. split; [done|]. split; [done|]. split; [done|]. split; [done|].
    rewrite !send_packets_spec by done. cbn [t_send_cipher t_stream t_prefetched t_receive_cipher t_mode].
    split; [done|]. split; [done|]. unfold stream_write. cbn [t_stream st_written st_incoming st_reset app].
    split; [done|]. split; [done|]. split; apply read_packets_spec; [done|done| |done|done|]; by apply pending_sent.
  - destruct (plain_accept md5 hash pad_b ps Hps) as (s & pre & Hacc & Hin & Hr & Hw).
    exists (concat (frame <$> ps)), (concat (frame <$> qs)). rewrite Hacc. do 4 eexists.
    split; [done|]. split; [done|]. split; [done|]. split; [done|].
    rewrite !send_packets_spec by done. cbn [t_send_cipher t_stream t_prefetched t_receive_cipher t_mode apply_opt fst snd].
    split; [done|]. split; [done|]. unfold stream_write. cbn [t_stream st_written st_incoming st_reset app]. rewrite Hw.
    split; [done|]. split; [done|]. split; apply read_packets_spec; [done|done| |done|done|]; done.
Qed.

(** Two packets each way, obfuscated. *)
Definition sample_packets : list EmuleTcpPacket :=
  [mkTcpPacket OP_EDONKEYPROT 0x46 [1; 2; 3]; mkTcpPacket OP_EMULEPROT 0x60 []].
Lemma sample_packets_sendable : Forall sendable sample_packets.
Proof. repeat constructor; first [by left|by right|done]. Qed.

Lemma connection_delivers_witness :
  should_enable_outgoing_obfuscation 3 (Some (replicate 16 7)) (Some 3) = Ok true ∧
  ∃ a_to_b b_to_a ta tb ta' tb',
    connect_outgoing (λ _, replicate 16 5) (mkStream b_to_a false []) 3 (Some (replicate 16 7)) (Some 3) [1; 2; 3; 4] 9 [0] = Ok ta ∧
    accept (λ _, replicate 16 5) (mkStream a_to_b false []) (replicate 16 7) [] = Ok tb ∧
    t_mode ta = Obfuscated ∧ t_mode tb = Obfuscated ∧ send_packets sample_packets ta = Ok ta' ∧ send_packets [] tb = Ok tb' ∧
    st_written (t_stream ta') = a_to_b ∧ st_written (t_stream tb') = b_to_a ∧
    read_packets (λ _, ([], false)) 3 tb' = Ok (sample_packets, true) ∧
    read_packets (λ _, ([], false)) 1 ta' = Ok ([], true).
Proof.
  split; [reflexivity|].
  exact (connection_delivers (λ _, ([], false)) (λ _, replicate 16 5) (replicate 16 7) 3 (Some 3) true [1; 2; 3; 4] [0xE3; 9] 9
    [0] [] sample_packets [] (λ _, eq_refl) eq_refl eq_refl ltac:(done) ltac:(done) eq_refl sample_packets_sendable (Forall_nil_2 _)).
Defined.

(** C37. Reading a packet from arbitrary bytes: it never panics, and its outcome is
    that of the first frame of the bytes still to be read, in the clear: the end of
    the stream, the packet with the rest of the bytes left for the next read, or an
    error when the frame is cut short or has length 0 or does not decompress, which is
    also the case when it decompresses to more than [50000] bytes. *)
Theorem read_packet_outcome zlib_reads t : is_bytes (pending t) = true →
  (match read_frame zlib_reads (st_reset (t_stream t)) (pending t) with
   | Ok None => read_packet zlib_reads t = Ok (None, t)
   | Ok (Some (p, rest)) => ∃ t', read_packet zlib_reads t = Ok (Some p, t') ∧ pending t' = rest ∧ same_end t t'
   | Err e => read_packet zlib_reads t = Err e
   | Panic => False
   end) ∧
  ∀ payload, let '(chunks, ended) := zlib_reads payload in
    match decode_peer_payload zlib_reads OP_PACKEDPROT payload with
    | Ok r => ended = true ∧ zlen (concat chunks) ≤ MAX_PEER_DECOMPRESSED_PACKET_LEN ∧ r = (OP_EMULEPROT, concat chunks)
    | Err _ => ended = false ∨ MAX_PEER_DECOMPRESSED_PACKET_LEN < zlen (concat chunks)
    | Panic => False
    end.
Proof.
  intros Hb. split; [by apply read_packet_spec|]. intros payload. unfold decode_peer_payload. cbn [OP_PACKEDPROT Z.eqb Pos.eqb negb].
  destruct (zlib_reads payload) as [chunks ended]. destruct (inflate_loop_spec chunks ended []) as [Hn Hs]; [done|].
  cbn [app] in Hs. destruct (inflate_loop chunks ended []) as [out|e|] eqn:He; cbn [mbind res_bind]; [| |done].
  - destruct (proj1 (Hs out) eq_refl) as (? & -> & ?). done.
  - destruct ended; [|by left]. right. destruct (Z.le_gt_cases (zlen (concat chunks)) MAX_PEER_DECOMPRESSED_PACKET_LEN) as [Hle|]; [|done].
    pose proof (proj2 (Hs (concat chunks)) (conj eq_refl (conj eq_refl Hle))). done.
Qed.

(** A plain transport in front of a keep-alive packet that is cut short. *)
Lemma read_packet_outcome_witness :
  read_packet (λ _, ([], false)) (mkTransport (mkStream [0xE3; 2; 0; 0; 0; 0x49; 1] false []) [] None None Plaintext) =
    Ok (Some (mkTcpPacket 0xE3 0x49 [1]), mkTransport (mkStream [] false []) [] None None Plaintext) ∧
  read_packet (λ _, ([], false)) (mkTransport (mkStream [0xE3; 2; 0; 0; 0; 0x49] false []) [] None None Plaintext) = Err PIo.
Proof.
  split; [reflexivity|].
  exact (proj1 (read_packet_outcome (λ _, ([], false))
    (mkTransport (mkStream [0xE3; 2; 0; 0; 0; 0x49] false []) [] None None Plaintext) eq_refl)).
Defined.
