(* ===== verification/PeerCodec.v ===== *)
(** * The messages of the eD2k peer protocol

    [ed2k_tcp/codec/mod.rs], [ed2k_tcp/codec/hashset.rs], the file identifiers and
    hash set options of [ed2k_tcp.rs], and the payloads of [ed2k_tcp/identity.rs]:
    one decoder per payload, one encoder per packet. A decoder slices the payload as
    the code does, so a missing length check would be a panic. *)

From S2P Require Import Prelude Net NodeId Utf8 Hashset Transfer PeerTransport.

(** ** Opcodes *)

Definition OP_HELLO : Z := 0x01.
Definition OP_HELLOANSWER : Z := 0x4C.
Definition OP_COMPRESSEDPART : Z := 0x40.
Definition OP_SENDINGPART : Z := 0x46.
Definition OP_REQUESTPARTS : Z := 0x47.
Definition OP_FILEREQANSNOFIL : Z := 0x48.
Definition OP_END_OF_DOWNLOAD : Z := 0x49.
Definition OP_ASKSHAREDFILES : Z := 0x4A.
Definition OP_ASKSHAREDFILESANSWER : Z := 0x4B.
Definition OP_CHANGE_CLIENT_ID : Z := 0x4D.
Definition OP_MESSAGE : Z := 0x4E.
Definition OP_SETREQFILEID : Z := 0x4F.
Definition OP_FILESTATUS : Z := 0x50.
Definition OP_HASHSETREQUEST : Z := 0x51.
Definition OP_HASHSETANSWER : Z := 0x52.
Definition OP_STARTUPLOADREQ : Z := 0x54.
Definition OP_ACCEPTUPLOADREQ : Z := 0x55.
Definition OP_CANCELTRANSFER : Z := 0x56.
Definition OP_OUTOFPARTREQS : Z := 0x57.
Definition OP_REQUESTFILENAME : Z := 0x58.
Definition OP_REQFILENAMEANSWER : Z := 0x59.
Definition OP_CHANGE_SLOT : Z := 0x5B.
Definition OP_QUEUERANK : Z := 0x5C.
Definition OP_ASKSHAREDDIRS : Z := 0x5D.
Definition OP_ASKSHAREDFILESDIR : Z := 0x5E.
Definition OP_ASKSHAREDDIRSANS : Z := 0x5F.
Definition OP_ASKSHAREDFILESDIRANS : Z := 0x60.
Definition OP_ASKSHAREDDENIEDANS : Z := 0x61.
Definition OP_QUEUERANKING : Z := 0x60.
Definition OP_FILEDESC : Z := 0x61.
Definition OP_REQUESTSOURCES : Z := 0x81.
Definition OP_ANSWERSOURCES : Z := 0x82.
Definition OP_REQUESTSOURCES2 : Z := 0x83.
Definition OP_ANSWERSOURCES2 : Z := 0x84.
Definition OP_REQUESTPREVIEW : Z := 0x90.
Definition OP_PREVIEWANSWER : Z := 0x91.
Definition OP_MULTIPACKET : Z := 0x92.
Definition OP_MULTIPACKETANSWER : Z := 0x93.
Definition OP_PUBLICIP_REQ : Z := 0x97.
Definition OP_PUBLICIP_ANSWER : Z := 0x98.
Definition OP_CALLBACK : Z := 0x99.
Definition OP_REASKCALLBACKTCP : Z := 0x9A.
Definition OP_AICHREQUEST : Z := 0x9B.
Definition OP_AICHANSWER : Z := 0x9C.
Definition OP_AICHFILEHASHANS : Z := 0x9D.
Definition OP_AICHFILEHASHREQ : Z := 0x9E.
Definition OP_BUDDYPING : Z := 0x9F.
Definition OP_BUDDYPONG : Z := 0xA0.
Definition OP_COMPRESSEDPART_I64 : Z := 0xA1.
Definition OP_SENDINGPART_I64 : Z := 0xA2.
Definition OP_REQUESTPARTS_I64 : Z := 0xA3.
Definition OP_MULTIPACKET_EXT : Z := 0xA4.
Definition OP_CHATCAPTCHAREQ : Z := 0xA5.
Definition OP_CHATCAPTCHARES : Z := 0xA6.
Definition OP_FWCHECKUDPREQ : Z := 0xA7.
Definition OP_KAD_FWTCPCHECK_ACK : Z := 0xA8.
Definition OP_MULTIPACKET_EXT2 : Z := 0xA9.
Definition OP_MULTIPACKETANSWER_EXT2 : Z := 0xB0.
Definition OP_HASHSETREQUEST2 : Z := 0xB1.
Definition OP_HASHSETANSWER2 : Z := 0xB2.
Definition OP_PORTTEST : Z := 0xFE.
Definition OP_EMULEINFO : Z := 0x01.
Definition OP_EMULEINFOANSWER : Z := 0x02.
Definition OP_PUBLICKEY : Z := 0x85.
Definition OP_SIGNATURE : Z := 0x86.
Definition OP_SECIDENTSTATE : Z := 0x87.
Definition ED2K_SOURCE_EXCHANGE2_VERSION : Z := 4.
Definition MAX_CLIENT_MSG_LEN : Z := 450.

(** The octets of an address in a payload. *)
Definition ip_of_octets (l : list Z) : Ipv4Addr := (nth 0 l 0, nth 1 l 0, nth 2 l 0, nth 3 l 0).
Definition octets (ip : Ipv4Addr) : list Z := let '(a, b, c, d) := ip in [a; b; c; d].

(** ** File status *)

Definition decode_file_status_payload (payload : list Z) : res PeerError (Ed2kHash * Z) :=
  if zlen payload <? 18 then Err PShort
  else
    returned_hash ← range payload 0 16;
    part_count ← le_at payload 16 2;
    if zlen payload <? 18 + div_ceil part_count 8 then Err PShort else Ok (returned_hash, part_count).

Definition expected_file_status_part_count (file_size : Z) : Z :=
  default U16_MAX (try_from_u 16 (div_ceil file_size ED2K_PART_SIZE)).
Definition validate_file_status_part_count (part_count file_size : Z) : res PeerError () :=
  if part_count =? 0 then Ok ()
  else if negb (part_count =? expected_file_status_part_count file_size) then Err PMismatch else Ok ().
Definition encode_file_status_complete {E} (file_hash : Ed2kHash) : res E (list Z) :=
  encode_packet OP_EDONKEYPROT OP_FILESTATUS (file_hash ++ to_le_bytes 2 0).

(** ** Hashes and small payloads *)

Definition decode_file_hash_payload (payload : list Z) : res PeerError Ed2kHash :=
  if zlen payload <? 16 then Err PShort else range payload 0 16.
Definition decode_optional_file_hash_payload (payload : list Z) : option Ed2kHash :=
  if 16 <=? zlen payload then Some (take 16 payload) else None.
Definition decode_exact_file_hash_payload (payload : list Z) : res PeerError Ed2kHash :=
  if negb (zlen payload =? 16) then Err PSize else decode_file_hash_payload payload.
Definition encode_file_req_ans_nofil {E} (file_hash : Ed2kHash) : res E (list Z) :=
  encode_packet OP_EDONKEYPROT OP_FILEREQANSNOFIL file_hash.

Record ClientIdChange : Type := mkClientIdChange { new_user_id : Z; new_server_ip : Z; cic_trailing_len : Z }.
Definition decode_client_id_change_payload (payload : list Z) : res PeerError ClientIdChange :=
  if zlen payload <? 8 then Err PShort
  else
    new_user_id ← le_at payload 0 4;
    new_server_ip ← le_at payload 4 4;
    Ok (mkClientIdChange new_user_id new_server_ip (zlen payload - 8)).

Record KadCallbackRequest : Type := mkKadCallback {
  buddy_check : list Z; kcb_file_hash : Ed2kHash; peer_ip : Ipv4Addr; peer_tcp_port : Z; kcb_trailing_len : Z
}.
Definition decode_kad_callback_payload (payload : list Z) : res PeerError KadCallbackRequest :=
  if zlen payload <? 38 then Err PShort
  else
    raw_peer_ip ← le_at payload 32 4;
    buddy_check ← range payload 0 16;
    file_hash ← range payload 16 32;
    peer_tcp_port ← le_at payload 36 2;
    Ok (mkKadCallback buddy_check file_hash (ipv4_from_u32 raw_peer_ip) peer_tcp_port (zlen payload - 38)).

Record ReaskCallbackTcp : Type := mkReask {
  dest_ip : Ipv4Addr; dest_port : Z; ra_file_hash : Ed2kHash; extended_info_len : Z
}.
Definition decode_reask_callback_tcp_payload (payload : list Z) : res PeerError ReaskCallbackTcp :=
  if zlen payload <? 22 then Err PShort
  else
    raw_dest_ip ← le_at payload 0 4;
    dest_port ← le_at payload 4 2;
    file_hash ← range payload 6 22;
    Ok (mkReask (ipv4_from_u32 raw_dest_ip) dest_port file_hash (zlen payload - 22)).

Record ClientMessage : Type := mkMessage { message_len : Z; accepted_len : Z }.
Definition decode_client_message_payload (payload : list Z) : res PeerError ClientMessage :=
  if zlen payload <? 2 then Err PShort
  else
    message_len ← le_at payload 0 2;
    if negb (zlen payload =? message_len + 2) then Err PSize
    else Ok (mkMessage message_len (Z.min message_len MAX_CLIENT_MSG_LEN)).

Record ChatCaptchaRequest : Type := mkCaptcha { cap_tag_count : Z; cap_data_len : Z }.
Definition decode_chat_captcha_request_payload (payload : list Z) : res PeerError ChatCaptchaRequest :=
  match payload with
  | [] => Err PShort
  | tag_count :: data => Ok (mkCaptcha tag_count (zlen data))
  end.
Definition decode_chat_captcha_result_payload (payload : list Z) : res PeerError Z :=
  match payload with [] => Err PShort | status :: _ => Ok status end.

Record PreviewRequest : Type := mkPreviewReq { pvr_file_hash : Ed2kHash; pvr_trailing_len : Z }.
Definition decode_preview_request_payload (payload : list Z) : res PeerError PreviewRequest :=
  if zlen payload <? 16 then Err PShort
  else h ← range payload 0 16; Ok (mkPreviewReq h (zlen payload - 16)).

Record PreviewAnswer : Type := mkPreviewAns {
  pva_file_hash : Ed2kHash; frame_count : Z; frame_payload_bytes : Z; pva_trailing_len : Z
}.
Fixpoint preview_frames (n : nat) (payload : list Z) (offset bytes : Z) : res PeerError (Z * Z) :=
  match n with
  | O => Ok (offset, bytes)
  | S n' =>
      if zlen payload <? offset + 4 then Err PShort
      else
        frame_len ← le_at payload offset 4;
        let offset := offset + 4 in
        if (zlen payload <? frame_len) || (zlen payload <? offset + frame_len) then Err PShort
        else
          (if is_u64 (bytes + frame_len) then preview_frames n' payload (offset + frame_len) (bytes + frame_len)
           else Err PTooLarge)
  end.
Definition decode_preview_answer_payload (payload : list Z) : res PeerError PreviewAnswer :=
  if zlen payload <? 17 then Err PShort
  else
    file_hash ← range payload 0 16;
    frame_count ← byte payload 16;
    '(offset, frame_payload_bytes) ← preview_frames (Z.to_nat frame_count) payload 17 0;
    Ok (mkPreviewAns file_hash frame_count frame_payload_bytes (zlen payload - offset)).

Record AichRecoveryRequest : Type := mkAichReq { arq_file_hash : Ed2kHash; arq_part : Z; arq_master_hash : list Z }.
Definition decode_aich_recovery_request_payload (payload : list Z) : res PeerError AichRecoveryRequest :=
  if negb (zlen payload =? 38) then Err PSize
  else
    file_hash ← range payload 0 16;
    part ← le_at payload 16 2;
    master_hash ← range payload 18 38;
    Ok (mkAichReq file_hash part master_hash).

Record AichRecoveryAnswer : Type := mkAichAns {
  ara_file_hash : Ed2kHash; ara_part : option Z; ara_master_hash : option (list Z); recovery_payload_len : Z
}.
Definition decode_aich_recovery_answer_payload (payload : list Z) : res PeerError AichRecoveryAnswer :=
  if zlen payload =? 16 then h ← range payload 0 16; Ok (mkAichAns h None None 0)
  else if zlen payload <? 38 then Err PShort
  else
    file_hash ← range payload 0 16;
    part ← le_at payload 16 2;
    master_hash ← range payload 18 38;
    Ok (mkAichAns file_hash (Some part) (Some master_hash) (zlen payload - 38)).
Definition encode_aich_recovery_failure_answer {E} (file_hash : Ed2kHash) : res E (list Z) :=
  encode_packet OP_EMULEPROT OP_AICHANSWER file_hash.
Definition encode_accept_upload_req {E} : res E (list Z) := encode_packet OP_EDONKEYPROT OP_ACCEPTUPLOADREQ [].

Definition encode_queue_ranking {E} (rank : Z) : res E (list Z) :=
  encode_packet OP_EMULEPROT OP_QUEUERANKING (to_le_bytes 2 rank ++ replicate 10 0).
Definition decode_edonkey_queue_rank_payload (payload : list Z) : res PeerError Z :=
  if zlen payload <? 4 then Err PShort else le_at payload 0 4.
Definition decode_emule_queue_ranking_payload (payload : list Z) : res PeerError Z :=
  if negb (zlen payload =? 12) then Err PSize else le_at payload 0 2.

Definition encode_public_ip_answer {E} (ip : Ipv4Addr) : res E (list Z) :=
  encode_packet OP_EMULEPROT OP_PUBLICIP_ANSWER (octets ip).
Definition decode_public_ip_answer_payload (payload : list Z) : res PeerError Ipv4Addr :=
  if negb (zlen payload =? 4) then Err PSize
  else
    a ← byte payload 0; b ← byte payload 1; c ← byte payload 2; d ← byte payload 3;
    Ok (a, b, c, d).
Definition encode_port_test_answer {E} : res E (list Z) := encode_packet OP_EDONKEYPROT OP_PORTTEST [0x12].
Definition encode_start_upload_req {E} (file_hash : Ed2kHash) : res E (list Z) :=
  encode_packet OP_EDONKEYPROT OP_STARTUPLOADREQ file_hash.

(** ** File names *)

Definition ed2k_file_part_count (file_size : Z) : Z :=
  if file_size =? 0 then 0 else default U16_MAX (try_from_u 16 (div_ceil file_size ED2K_PART_SIZE)).

(** The bits of the verified pieces, eight to a byte. *)
Fixpoint bitfield_loop (index : Z) (l : list Ed2kPieceState) (payload : list Z) (current_byte : Z) : list Z * Z :=
  match l with
  | [] => (payload, current_byte)
  | piece :: l' =>
      let current_byte :=
        if bool_decide (state piece = Verified) then Z.lor current_byte (Z.shiftl 1 (index mod 8)) else current_byte in
      if index mod 8 =? 7 then bitfield_loop (index + 1) l' (payload ++ [current_byte]) 0
      else bitfield_loop (index + 1) l' payload current_byte
  end.
Definition encode_request_filename_ext_info (m : Ed2kResumeManifest) : list Z :=
  let piece_count := default U16_MAX (try_from_u 16 (zlen (pieces m))) in
  let '(payload, current_byte) := bitfield_loop 0 (pieces m) (to_le_bytes 2 piece_count) 0 in
  (if negb (piece_count mod 8 =? 0) then payload ++ [current_byte] else payload) ++ to_le_bytes 2 0.
Definition skip_request_filename_ext_info (payload : list Z) (file_size : Z) : res PeerError (list Z) :=
  if zlen payload <? 2 then Err PShort
  else
    part_count ← le_at payload 0 2;
    let expected_parts := ed2k_file_part_count file_size in
    let expected_len := 2 + div_ceil part_count 8 + 2 in
    if zlen payload <? expected_len then Err PShort
    else if negb (expected_parts =? 0) && negb (part_count =? expected_parts) then Err PMismatch
    else tail_from payload expected_len.
Definition encode_request_filename {E} (file_hash : Ed2kHash) (m : Ed2kResumeManifest) : res E (list Z) :=
  encode_packet OP_EDONKEYPROT OP_REQUESTFILENAME (file_hash ++ encode_request_filename_ext_info m).
Definition encode_set_req_file_id {E} (file_hash : Ed2kHash) : res E (list Z) :=
  encode_packet OP_EDONKEYPROT OP_SETREQFILEID file_hash.

Definition encode_ed2k_string_body (value : list Z) : res PeerError (list Z) :=
  match try_from_u 16 (zlen value) with
  | None => Err PTooLarge
  | Some len => Ok (to_le_bytes 2 len ++ value)
  end.
Definition encode_request_filename_answer_body : list Z → res PeerError (list Z) := encode_ed2k_string_body.
Definition decode_ed2k_string_body (payload : list Z) : res PeerError (list Z * list Z) :=
  if zlen payload <? 2 then Err PShort
  else
    len ← le_at payload 0 2;
    if zlen payload <? 2 + len then Err PShort
    else
      value ← range payload 2 (2 + len);
      rest ← tail_from payload (2 + len);
      Ok (from_utf8_lossy value, rest).
Definition decode_request_filename_answer_body : list Z → res PeerError (list Z * list Z) := decode_ed2k_string_body.

Definition decode_request_filename_answer (payload : list Z) : res PeerError (Ed2kHash * list Z) :=
  file_hash ← decode_file_hash_payload payload;
  rest ← tail_from payload 16;
  '(file_name, _) ← decode_request_filename_answer_body rest;
  Ok (file_hash, file_name).
Definition encode_request_filename_answer (file_hash : Ed2kHash) (file_name : list Z) : res PeerError (list Z) :=
  body ← encode_request_filename_answer_body file_name;
  encode_packet OP_EDONKEYPROT OP_REQFILENAMEANSWER (file_hash ++ body).

Definition encode_file_status_body_complete : list Z := to_le_bytes 2 0.
Definition skip_file_status_body (payload : list Z) : res PeerError (Z * list Z) :=
  if zlen payload <? 2 then Err PShort
  else
    part_count ← le_at payload 0 2;
    let expected_len := 2 + div_ceil part_count 8 in
    if zlen payload <? expected_len then Err PShort
    else rest ← tail_from payload expected_len; Ok (part_count, rest).

(** ** Shared files *)

Record SharedFilesAnswer : Type := mkSharedFiles { sfa_file_count : Z; sfa_entry_bytes : Z }.
Definition encode_empty_shared_files_answer {E} : res E (list Z) :=
  encode_packet OP_EDONKEYPROT OP_ASKSHAREDFILESANSWER (to_le_bytes 4 0).
Definition encode_shared_browse_denied_answer {E} : res E (list Z) :=
  encode_packet OP_EDONKEYPROT OP_ASKSHAREDDENIEDANS [].
Definition decode_shared_files_answer_payload (payload : list Z) : res PeerError SharedFilesAnswer :=
  if zlen payload <? 4 then Err PShort
  else file_count ← le_at payload 0 4; Ok (mkSharedFiles file_count (zlen payload - 4)).

Record SharedDirsAnswer : Type := mkSharedDirs { dir_count : Z; dirs : list (list Z) }.
(** A directory takes at least two bytes, so the payload bounds the turns of the loop. *)
Fixpoint shared_dirs_loop (fuel : nat) (count : Z) (remaining : list Z) (dirs : list (list Z))
    : res PeerError (list (list Z)) :=
  if count <=? 0 then Ok dirs
  else
    match fuel with
    | O => Panic
    | S fuel' =>
        '(dir, rest) ← decode_ed2k_string_body remaining;
        shared_dirs_loop fuel' (count - 1) rest (dirs ++ [dir])
    end.
Definition decode_shared_dirs_answer_payload (payload : list Z) : res PeerError SharedDirsAnswer :=
  if zlen payload <? 4 then Err PShort
  else
    dir_count ← le_at payload 0 4;
    remaining ← tail_from payload 4;
    dirs ← shared_dirs_loop (S (length payload)) dir_count remaining [];
    Ok (mkSharedDirs dir_count dirs).
Definition decode_shared_files_dir_request_payload (payload : list Z) : res PeerError (list Z) :=
  '(dir, _) ← decode_ed2k_string_body payload; Ok dir.

Record SharedFilesDirAnswer : Type := mkSharedFilesDir { sfd_dir : list Z; sfd_file_count : Z; sfd_entry_bytes : Z }.
Definition decode_shared_files_dir_answer_payload (payload : list Z) : res PeerError SharedFilesDirAnswer :=
  '(dir, remaining) ← decode_ed2k_string_body payload;
  files ← decode_shared_files_answer_payload remaining;
  Ok (mkSharedFilesDir dir (sfa_file_count files) (sfa_entry_bytes files)).

Record FileDescription : Type := mkDescription { rating : Z; comment : list Z }.
Definition decode_file_description_payload (payload : list Z) : res PeerError FileDescription :=
  if zlen payload <? 5 then Err PShort
  else
    rating ← byte payload 0;
    comment_len ← le_at payload 1 4;
    if zlen payload <? 5 + comment_len then Err PShort
    else comment ← range payload 5 (5 + comment_len); Ok (mkDescription rating (from_utf8_lossy comment)).

(** ** Source exchange *)

Record SourceExchangePeer : Type := mkSource {
  src_ip : list Z;
  src_tcp_port : Z;
  src_server_ip : Z;
  src_server_port : Z;
  src_user_hash : option (list Z);
  src_connect_options : Z
}.

Definition encode_request_sources2_subpayload : list Z := [ED2K_SOURCE_EXCHANGE2_VERSION] ++ to_le_bytes 2 0.
Definition encode_request_sources2 {E} (file_hash : Ed2kHash) : res E (list Z) :=
  encode_packet OP_EMULEPROT OP_REQUESTSOURCES2 (encode_request_sources2_subpayload ++ file_hash).
Definition encode_request_sources {E} (file_hash : Ed2kHash) : res E (list Z) :=
  encode_packet OP_EMULEPROT OP_REQUESTSOURCES file_hash.

Definition exchanged_sources (version : Z) (sources : list SourceExchangePeer) : list SourceExchangePeer :=
  take 501 (List.filter (λ s, negb (2 <=? version) || bool_decide (is_Some (src_user_hash s))) sources).
Definition source_exchange_entry_count (version : Z) (sources : list SourceExchangePeer) : Z :=
  zlen (exchanged_sources version sources).
Definition encode_source (version : Z) (s : SourceExchangePeer) : res PeerError (list Z) :=
  let client_id := if version <? 3 then from_le_bytes (src_ip s) else from_be_bytes (src_ip s) in
  user_hash ← (if 2 <=? version then expect (src_user_hash s) else Ok []);
  Ok (to_le_bytes 4 client_id ++ to_le_bytes 2 (src_tcp_port s) ++ to_le_bytes 4 (src_server_ip s) ++
      to_le_bytes 2 (src_server_port s) ++ user_hash ++
      (if 4 <=? version then [src_connect_options s] else [])).
Fixpoint encode_sources (version : Z) (l : list SourceExchangePeer) : res PeerError (list Z) :=
  match l with
  | [] => Ok []
  | s :: l' => bytes ← encode_source version s; rest ← encode_sources version l'; Ok (bytes ++ rest)
  end.
Definition encode_source_exchange_entries (version : Z) (sources : list SourceExchangePeer) : res PeerError (list Z) :=
  count ← expect (try_from_u 16 (source_exchange_entry_count version sources));
  entries ← encode_sources version (exchanged_sources version sources);
  Ok (to_le_bytes 2 count ++ entries).

Definition encode_answer_sources (file_hash : Ed2kHash) (sources : list SourceExchangePeer) : res PeerError (list Z) :=
  entries ← encode_source_exchange_entries 1 sources;
  encode_packet OP_EMULEPROT OP_ANSWERSOURCES (file_hash ++ entries).
Definition encode_answer_sources2 (file_hash : Ed2kHash) (version : Z) (sources : list SourceExchangePeer)
    : res PeerError (list Z) :=
  entries ← encode_source_exchange_entries version sources;
  encode_packet OP_EMULEPROT OP_ANSWERSOURCES2 ([version] ++ file_hash ++ entries).

Definition source_exchange_entry_size (version : Z) : Z :=
  if version =? 1 then 12 else if (version =? 2) || (version =? 3) then 28 else 29.

Definition decode_source (version : Z) (entry : list Z) : res PeerError SourceExchangePeer :=
  ip ← (if version <? 3 then range entry 0 4 else v ← le_at entry 0 4; Ok (to_be_bytes 4 v));
  tcp_port ← le_at entry 4 2;
  server_ip ← le_at entry 6 4;
  server_port ← le_at entry 10 2;
  user_hash ← (if 2 <=? version then h ← range entry 12 28; Ok (Some h) else Ok None);
  connect_options ← (if 4 <=? version then byte entry 28 else Ok 0);
  Ok (mkSource ip tcp_port server_ip server_port user_hash connect_options).
(** [chunks_exact]: the payload is a multiple of the entry size. *)
Fixpoint decode_sources (n : nat) (version size : Z) (payload : list Z) : res PeerError (list SourceExchangePeer) :=
  match n with
  | O => Ok []
  | S n' =>
      s ← decode_source version (take (Z.to_nat size) payload);
      rest ← decode_sources n' version size (drop (Z.to_nat size) payload);
      Ok (s :: rest)
  end.
Definition decode_source_exchange_entries (version count : Z) (sources_payload : list Z)
    : res PeerError (list SourceExchangePeer) :=
  let entry_size := source_exchange_entry_size version in
  if negb (is_u64 (count * entry_size)) then Err PTooLarge
  else if negb (zlen sources_payload =? count * entry_size) then Err PSize
  else decode_sources (Z.to_nat (zlen sources_payload / entry_size)) version entry_size sources_payload.

Definition infer_source_exchange1_payload_version (count : Z) (sources_payload : list Z) (peer_version : Z)
    : res PeerError Z :=
  if negb (is_u64 (count * source_exchange_entry_size 1)) then Err PTooLarge
  else if zlen sources_payload =? count * source_exchange_entry_size 1 then
    if peer_version <? 1 then Err PUnsupported else Ok 1
  else if negb (is_u64 (count * source_exchange_entry_size 2)) then Err PTooLarge
  else if zlen sources_payload =? count * source_exchange_entry_size 2 then
    if peer_version <? 2 then Err PUnsupported else Ok (if peer_version =? 2 then 2 else 3)
  else if negb (is_u64 (count * source_exchange_entry_size 4)) then Err PTooLarge
  else if zlen sources_payload =? count * source_exchange_entry_size 4 then
    if peer_version <? 4 then Err PUnsupported else Ok 4
  else Err PSize.

Definition decode_request_sources_payload (opcode : Z) (payload : list Z) : res PeerError (Ed2kHash * Z) :=
  if opcode =? OP_REQUESTSOURCES then h ← decode_file_hash_payload payload; Ok (h, 0)
  else if opcode =? OP_REQUESTSOURCES2 then
    if zlen payload <? 19 then Err PShort
    else rest ← tail_from payload 3; h ← decode_file_hash_payload rest; v ← byte payload 0; Ok (h, v)
  else Err PUnsupported.
Definition decode_answer_sources2_payload (payload : list Z) : res PeerError (Ed2kHash * list SourceExchangePeer) :=
  if zlen payload <? 19 then Err PShort
  else
    version ← byte payload 0;
    if negb ((1 <=? version) && (version <=? ED2K_SOURCE_EXCHANGE2_VERSION)) then Err PUnsupported
    else
      file_hash ← range payload 1 17;
      count ← le_at payload 17 2;
      rest ← tail_from payload 19;
      sources ← decode_source_exchange_entries version count rest;
      Ok (file_hash, sources).
Definition decode_answer_sources_payload (payload : list Z) (peer_version : Z)
    : res PeerError (Ed2kHash * list SourceExchangePeer) :=
  if zlen payload <? 18 then Err PShort
  else
    file_hash ← range payload 0 16;
    count ← le_at payload 16 2;
    sources_payload ← tail_from payload 18;
    version ← infer_source_exchange1_payload_version count sources_payload peer_version;
    sources ← decode_source_exchange_entries version count sources_payload;
    Ok (file_hash, sources).

Definition encode_aich_file_hash_request {E} (file_hash : Ed2kHash) : res E (list Z) :=
  encode_packet OP_EMULEPROT OP_AICHFILEHASHREQ file_hash.
Definition encode_aich_file_hash_answer {E} (file_hash : Ed2kHash) (aich_root : list Z) : res E (list Z) :=
  encode_packet OP_EMULEPROT OP_AICHFILEHASHANS (file_hash ++ aich_root).
Definition decode_aich_file_hash_answer (payload : list Z) : res PeerError (Ed2kHash * list Z) :=
  if zlen payload <? 36 then Err PShort
  else h ← range payload 0 16; root ← range payload 16 36; Ok (h, root).

(** ** File identifiers *)

Record Ed2kFileIdentifier : Type := mkFileId { fi_hash : Ed2kHash; fi_size : option Z; fi_aich_root : option (list Z) }.
Definition INCLUDE_MD4 : Z := 1.
Definition INCLUDE_SIZE : Z := 2.
Definition INCLUDE_AICH : Z := 4.
Definition RESERVED_BITS : Z := 0xF8.
Definition has_bit (v mask : Z) : bool := negb (Z.land v mask =? 0).

(** [Some(size).filter(|size| *size != 0)] *)
Definition some_size (size : Z) : option Z := if size =? 0 then None else Some size.

Section identifiers.
Variable hex_decode : list Z → option (list Z).

Definition decode_root (root : option (list Z)) : res PeerError (option (list Z)) :=
  match root with
  | None => Ok None
  | Some text => h ← map_err PTransfer (decode_aich_hash_hex hex_decode text); Ok (Some h)
  end.
Definition id_from_manifest (m : Ed2kResumeManifest) : res PeerError Ed2kFileIdentifier :=
  h ← map_err (λ _, PTransfer EInvalidFileHash) (hash_from_str (file_hash m));
  root ← decode_root (aich_root m);
  Ok (mkFileId h (some_size (file_size m)) root).
Definition id_from_shared_entry (e : Ed2kSharedEntry) : res PeerError Ed2kFileIdentifier :=
  h ← map_err (λ _, PTransfer EInvalidFileHash) (hash_from_str (se_file_hash e));
  root ← decode_root (se_aich_root e);
  Ok (mkFileId h (some_size (se_file_size e)) root).
End identifiers.

Definition id_descriptor (i : Ed2kFileIdentifier) : Z :=
  let descriptor := INCLUDE_MD4 in
  let descriptor := if bool_decide (is_Some (fi_size i)) then Z.lor descriptor INCLUDE_SIZE else descriptor in
  if bool_decide (is_Some (fi_aich_root i)) then Z.lor descriptor INCLUDE_AICH else descriptor.
Definition id_encode (i : Ed2kFileIdentifier) : list Z :=
  [id_descriptor i] ++ fi_hash i ++ match fi_size i with Some size => to_le_bytes 8 size | None => [] end ++
  match fi_aich_root i with Some root => root | None => [] end.
Definition id_decode_size (included : bool) (rest : list Z) : res PeerError (option Z * list Z) :=
  if included then
    if zlen rest <? 8 then Err PShort
    else value ← le_at rest 0 8; rest ← tail_from rest 8; Ok (some_size value, rest)
  else Ok (None, rest).
Definition id_decode_root (included : bool) (rest : list Z) : res PeerError (option (list Z) * list Z) :=
  if included then
    if zlen rest <? 20 then Err PShort
    else root ← range rest 0 20; rest ← tail_from rest 20; Ok (Some root, rest)
  else Ok (None, rest).
Definition id_decode (payload : list Z) : res PeerError (Ed2kFileIdentifier * list Z) :=
  match payload with
  | [] => Err PShort
  | descriptor :: rest =>
      if has_bit descriptor RESERVED_BITS then Err PUnsupported
      else if negb (has_bit descriptor INCLUDE_MD4) then Err PUnsupported
      else if zlen rest <? 16 then Err PShort
      else
        file_hash ← range rest 0 16;
        rest ← tail_from rest 16;
        '(file_size, rest) ← id_decode_size (has_bit descriptor INCLUDE_SIZE) rest;
        '(aich_root, rest) ← id_decode_root (has_bit descriptor INCLUDE_AICH) rest;
        Ok (mkFileId file_hash file_size aich_root, rest)
  end.
Definition agree {A} `{EqDecision A} (a b : option A) : bool :=
  match a, b with Some x, Some y => bool_decide (x = y) | _, _ => true end.
Definition matches_relaxed (i j : Ed2kFileIdentifier) : bool :=
  bool_decide (fi_hash i = fi_hash j) && agree (fi_size i) (fi_size j) && agree (fi_aich_root i) (fi_aich_root j).

(** ** Hash sets *)

Record Ed2kHashsetRequestOptions : Type := mkHashsetOptions { request_md4 : bool; request_aich : bool }.
Definition REQUEST_MD4 : Z := 1.
Definition REQUEST_AICH : Z := 2.
Definition options_encode (o : Ed2kHashsetRequestOptions) : Z :=
  Z.lor (if request_md4 o then REQUEST_MD4 else 0) (if request_aich o then REQUEST_AICH else 0).
Definition options_decode (options : Z) : Ed2kHashsetRequestOptions :=
  mkHashsetOptions (has_bit options REQUEST_MD4) (has_bit options REQUEST_AICH).
Definition has_known_request (o : Ed2kHashsetRequestOptions) : bool := request_md4 o || request_aich o.
Record Ed2kHashsetAnswer2 : Type := mkHashsetAnswer2 {
  ha_file_identifier : Ed2kFileIdentifier;
  ha_md4_hashset : option (list (list Z));
  ha_aich_hashset : option Ed2kAichHashset
}.

Definition encode_hashset_request {E} (file_hash : Ed2kHash) : res E (list Z) :=
  encode_packet OP_EDONKEYPROT OP_HASHSETREQUEST file_hash.
Definition encode_hashset_request2 (i : Ed2kFileIdentifier) (o : Ed2kHashsetRequestOptions) : res PeerError (list Z) :=
  if negb (has_known_request o) then Err PUnsupported
  else encode_packet OP_EMULEPROT OP_HASHSETREQUEST2 (id_encode i ++ [options_encode o]).

Definition encode_md4_hashset_body (file_hash : Ed2kHash) (md4_hashset : list (list Z)) : res PeerError (list Z) :=
  match try_from_u 16 (zlen md4_hashset) with
  | None => Err PTooLarge
  | Some count => Ok (file_hash ++ to_le_bytes 2 count ++ concat md4_hashset)
  end.
Definition encode_aich_hashset_body (h : Ed2kAichHashset) : res PeerError (list Z) :=
  match try_from_u 16 (zlen (part_hashes h)) with
  | None => Err PTooLarge
  | Some count => Ok (master_hash h ++ to_le_bytes 2 count ++ concat (part_hashes h))
  end.
Definition encode_hashset_answer (file_hash : Ed2kHash) (md4_hashset : list (list Z)) : res PeerError (list Z) :=
  body ← encode_md4_hashset_body file_hash md4_hashset;
  encode_packet OP_EDONKEYPROT OP_HASHSETANSWER body.
Definition include_md4 (i : Ed2kFileIdentifier) (md4_hashset : option (list (list Z))) : bool :=
  match md4_hashset with
  | None => false
  | Some hashset =>
      negb (bool_decide (hashset = [])) ||
      match fi_size i with Some size => ED2K_PART_SIZE <? size | None => false end
  end.
Definition encode_hashset_answer2 (i : Ed2kFileIdentifier) (md4_hashset : option (list (list Z)))
    (aich_hashset : option Ed2kAichHashset) : res PeerError (list Z) :=
  let md4 := include_md4 i md4_hashset in
  let options := options_encode (mkHashsetOptions md4 (bool_decide (is_Some aich_hashset))) in
  md4_body ← match md4_hashset with
             | Some hashset => if md4 then encode_md4_hashset_body (fi_hash i) hashset else Ok []
             | None => Ok []
             end;
  aich_body ← match aich_hashset with Some h => encode_aich_hashset_body h | None => Ok [] end;
  encode_packet OP_EMULEPROT OP_HASHSETANSWER2 (id_encode i ++ [options] ++ md4_body ++ aich_body).

(** [count] hashes of [size] bytes, from [cursor] on. *)
Fixpoint read_hashes (count : nat) (size cursor : Z) (payload : list Z) : res PeerError (list (list Z) * Z) :=
  match count with
  | O => Ok ([], cursor)
  | S count' =>
      h ← range payload cursor (cursor + size);
      '(hs, cursor) ← read_hashes count' size (cursor + size) payload;
      Ok (h :: hs, cursor)
  end.
Definition decode_md4_hashset_body (payload : list Z) : res PeerError (Ed2kHash * list (list Z) * list Z) :=
  if zlen payload <? 18 then Err PShort
  else
    h ← range payload 0 16;
    count ← le_at payload 16 2;
    if zlen payload <? 18 + count * 16 then Err PShort
    else
      '(hashset, cursor) ← read_hashes (Z.to_nat count) 16 18 payload;
      rest ← tail_from payload cursor;
      Ok (h, hashset, rest).
Definition decode_aich_hashset_body (payload : list Z) : res PeerError (Ed2kAichHashset * list Z) :=
  if zlen payload <? 22 then Err PShort
  else
    master_hash ← range payload 0 20;
    count ← le_at payload 20 2;
    if zlen payload <? 22 + count * 20 then Err PShort
    else
      '(part_hashes, cursor) ← read_hashes (Z.to_nat count) 20 22 payload;
      rest ← tail_from payload cursor;
      Ok (mkAich master_hash part_hashes, rest).
Definition decode_hashset_request2 (payload : list Z) : res PeerError (Ed2kFileIdentifier * Ed2kHashsetRequestOptions) :=
  '(i, remaining) ← id_decode payload;
  match remaining with
  | [] => Err PShort
  | options :: _ => Ok (i, options_decode options)
  end.
Definition decode_hashset_answer (payload : list Z) : res PeerError (Ed2kHash * list (list Z)) :=
  '(h, hashset, _) ← decode_md4_hashset_body payload; Ok (h, hashset).
Definition decode_hashset_answer2 (payload : list Z) : res PeerError Ed2kHashsetAnswer2 :=
  '(i, remaining) ← id_decode payload;
  match remaining with
  | [] => Err PShort
  | options :: remaining =>
      let options := options_decode options in
      '(md4_hashset, remaining) ←
        (if request_md4 options then
           '(returned_hash, hashset, rest) ← decode_md4_hashset_body remaining;
           if negb (bool_decide (returned_hash = fi_hash i)) then Err PMismatch else Ok (Some hashset, rest)
         else Ok (None, remaining));
      aich_hashset ←
        (if request_aich options then
           '(hashset, _) ← decode_aich_hashset_body remaining;
           if match fi_aich_root i with Some root => negb (bool_decide (master_hash hashset = root)) | None => false end
           then Err PMismatch else Ok (Some hashset)
         else Ok None);
      Ok (mkHashsetAnswer2 i md4_hashset aich_hashset)
  end.

(** ** Multipackets *)

Inductive PeerSourceExchangeRequest : Type := NoExchange | ExchangeV1 | ExchangeV2.
#[export] Instance PeerSourceExchangeRequest_eq_dec : EqDecision PeerSourceExchangeRequest.
Proof. solve_decision. Defined.

Definition multipacket_requests (m : Ed2kResumeManifest) (exchange : PeerSourceExchangeRequest) : list Z :=
  [OP_REQUESTFILENAME] ++ encode_request_filename_ext_info m ++
  (if ED2K_PART_SIZE <? file_size m then [OP_SETREQFILEID] else []) ++
  match exchange with
  | NoExchange => []
  | ExchangeV1 => [OP_REQUESTSOURCES]
  | ExchangeV2 => [OP_REQUESTSOURCES2] ++ encode_request_sources2_subpayload
  end.
Definition encode_multipacket_ext2_request {E} (i : Ed2kFileIdentifier) (m : Ed2kResumeManifest)
    (exchange : PeerSourceExchangeRequest) : res E (list Z) :=
  encode_packet OP_EMULEPROT OP_MULTIPACKET_EXT2 (id_encode i ++ multipacket_requests m exchange).
Definition encode_multipacket_request {E} (h : Ed2kHash) (m : Ed2kResumeManifest) (use_ext_envelope : bool)
    (exchange : PeerSourceExchangeRequest) (include_aich_request : bool) : res E (list Z) :=
  encode_packet OP_EMULEPROT (if use_ext_envelope then OP_MULTIPACKET_EXT else OP_MULTIPACKET)
    (h ++ (if use_ext_envelope then to_le_bytes 8 (file_size m) else []) ++ multipacket_requests m exchange ++
     (if include_aich_request then [OP_AICHFILEHASHREQ] else [])).

Definition multipacket_answers (file_name : list Z) (include_filename_answer include_file_status : bool)
    : res PeerError (list Z) :=
  name ← (if include_filename_answer
          then body ← encode_request_filename_answer_body file_name; Ok ([OP_REQFILENAMEANSWER] ++ body)
          else Ok []);
  Ok (name ++ (if include_file_status then [OP_FILESTATUS] ++ encode_file_status_body_complete else [])).
Definition encode_multipacket_ext2_answer (i : Ed2kFileIdentifier) (file_name : list Z)
    (include_filename_answer include_file_status : bool) : res PeerError (list Z) :=
  answers ← multipacket_answers file_name include_filename_answer include_file_status;
  encode_packet OP_EMULEPROT OP_MULTIPACKETANSWER_EXT2 (id_encode i ++ answers).
Definition encode_multipacket_answer (h : Ed2kHash) (file_name : list Z)
    (include_filename_answer include_file_status : bool) (aich_root : option (list Z)) : res PeerError (list Z) :=
  answers ← multipacket_answers file_name include_filename_answer include_file_status;
  encode_packet OP_EMULEPROT OP_MULTIPACKETANSWER
    (h ++ answers ++ match aich_root with Some root => [OP_AICHFILEHASHANS] ++ root | None => [] end).

(** ** Secure identification *)

Definition encode_secident_state {E} (state challenge : Z) : res E (list Z) :=
  encode_packet OP_EMULEPROT OP_SECIDENTSTATE ([state] ++ to_le_bytes 4 challenge).
Definition decode_secident_state (payload : list Z) : res PeerError (Z * Z) :=
  if negb (zlen payload =? 5) then Err PSize
  else state ← byte payload 0; challenge ← le_at payload 1 4; Ok (state, challenge).
Definition decode_public_key_payload (payload : list Z) : res PeerError (list Z) :=
  match payload with
  | [] => Err PShort
  | key_len :: key_bytes => if negb (key_len =? zlen key_bytes) then Err PSize else Ok key_bytes
  end.
Record SecureIdentSignature : Type := mkSignature { signature_len : Z; challenge_ip_kind : option Z }.
Definition decode_signature_payload (payload : list Z) : res PeerError SecureIdentSignature :=
  if negb ((10 <=? zlen payload) && (zlen payload <=? 250)) then Err PSize
  else
    signature_len ← byte payload 0;
    if signature_len =? zlen payload - 1 then Ok (mkSignature signature_len None)
    else if signature_len =? zlen payload - 2 then Ok (mkSignature signature_len (last payload))
    else Err PSize.

(** ** Decoders do not panic

    [safe Q m]: the outcome is an error, or a value of [Q]. *)
Definition safe {E A} (Q : A → Prop) (m : res E A) : Prop :=
  match m with Ok a => Q a | Err _ => True | Panic => False end.

Lemma safe_bind {E A B} (P : A → Prop) (Q : B → Prop) (m : res E A) k :
  safe P m → (∀ a, P a → safe Q (k a)) → safe Q (m ≫= k).
Proof. destruct m; cbn; auto. Qed.
Lemma safe_weaken {E A} (P Q : A → Prop) (m : res E A) : safe P m → (∀ a, P a → Q a) → safe Q m.
Proof. destruct m; cbn; auto. Qed.
Lemma safe_panic {E A} (Q : A → Prop) (m : res E A) : safe Q m → m ≠ Panic.
Proof. by destruct m. Qed.
Lemma safe_map_err {E F A} (f : E → F) (Q : A → Prop) m : safe Q m → safe Q (map_err f m).
Proof. by destruct m. Qed.

Lemma safe_range {E} l a b : is_bytes l = true → 0 ≤ a ≤ b → b ≤ zlen l →
  safe (E:=E) (λ s, is_bytes s = true ∧ zlen s = b - a) (range l a b).
Proof.
  intros Hl Ha Hb. rewrite range_ok by done. cbn. unfold slice. split; [by apply is_bytes_take, is_bytes_drop|].
  unfold zlen in *. rewrite length_take, length_drop. lia.
Qed.
Lemma safe_tail {E} l a : is_bytes l = true → 0 ≤ a ≤ zlen l →
  safe (E:=E) (λ s, is_bytes s = true ∧ zlen s = zlen l - a) (tail_from l a).
Proof. intros. unfold tail_from. by apply safe_range. Qed.
Lemma safe_byte {E} l i : is_bytes l = true → 0 ≤ i < zlen l → safe (E:=E) (λ b, 0 ≤ b < 256) (byte l i).
Proof.
  intros Hl Hi. rewrite byte_ok by done. cbn. unfold zlen in Hi. rewrite nth_lookup.
  destruct (lookup_lt_is_Some_2 l (Z.to_nat i)) as [x Hx]; [lia|]. rewrite Hx. cbn. by eapply is_bytes_lookup.
Qed.
Lemma safe_le {E} l a n : is_bytes l = true → 0 ≤ a → 0 ≤ n → a + n ≤ zlen l →
  safe (E:=E) (λ v, 0 ≤ v < 256 ^ n) (le_at l a n).
Proof.
  intros Hl Ha Hn Hb. unfold le_at. eapply safe_bind; [apply (safe_range l a (a + n)); [done|lia|lia]|].
  intros s [Hs Hz]. cbn. pose proof (from_le_bytes_bound s Hs) as H. unfold zlen in Hz.
  replace (Z.of_nat (length s)) with n in H by lia. done.
Qed.

Lemma wf_hash_bytes h : is_bytes h = true ∧ zlen h = 16 → wf_Ed2kHash h = true.
Proof.
  intros [Hb Hl]. unfold wf_Ed2kHash. unfold zlen in Hl. assert (length h = 16%nat) as -> by lia. exact Hb.
Qed.

(** One step of a decoder: a test, a slice, or a step that has its own lemma. *)
Create HintDb peer.
Ltac safe_side := first [done | assumption | (unfold zlen in *; cbn in *; lia) | lia].
Ltac safe_intro := let v := fresh "v" in let Hv := fresh "Hv" in intros v Hv; cbv beta in Hv.
Ltac safe_step :=
  lazymatch goal with
  | |- safe _ (if ?b then _ else _) => let H := fresh "H" in destruct b eqn:H; bool_hyps; [|]
  | |- safe _ (Err _) => exact I
  | |- safe _ (range _ _ _ ≫= _) => eapply safe_bind; [apply safe_range; safe_side|intros ? [? ?]]
  | |- safe _ (tail_from _ _ ≫= _) => eapply safe_bind; [apply safe_tail; safe_side|intros ? [? ?]]
  | |- safe _ (byte _ _ ≫= _) => eapply safe_bind; [apply safe_byte; safe_side|safe_intro]
  | |- safe _ (le_at _ _ _ ≫= _) => eapply safe_bind; [apply safe_le; safe_side|safe_intro]
  | |- safe _ (Ok _) => cbn [safe]
  | |- safe _ (_ ≫= _) => eapply safe_bind; [solve [eauto with peer]|]
  end.
Ltac safe_all := repeat safe_step; try done.

Definition hash_ok (h : list Z) : Prop := is_bytes h = true ∧ zlen h = 16.
#[export] Hint Unfold hash_ok : peer.

Lemma div_ceil_nonneg a b : 0 ≤ a → 0 < b → 0 ≤ div_ceil a b.
Proof. intros. unfold div_ceil. pose proof (Z.div_pos a b). destruct (0 <? a mod b); cbn; lia. Qed.

Section payloads.
Context (payload : list Z) (Hp : is_bytes payload = true).

Lemma safe_file_status : safe (λ '(h, n), hash_ok h ∧ 0 ≤ n < 65536) (decode_file_status_payload payload).
Proof. unfold decode_file_status_payload. safe_all. Qed.
Lemma safe_file_hash : safe hash_ok (decode_file_hash_payload payload).
Proof. unfold decode_file_hash_payload. safe_all. by apply (safe_range payload 0 16); [|lia|]. Qed.
Lemma safe_exact_file_hash : safe hash_ok (decode_exact_file_hash_payload payload).
Proof. unfold decode_exact_file_hash_payload. safe_step; [done|]. apply safe_file_hash. Qed.
Lemma safe_client_id_change : safe (λ _, True) (decode_client_id_change_payload payload).
Proof. unfold decode_client_id_change_payload. safe_all. Qed.
Lemma safe_kad_callback : safe (λ _, True) (decode_kad_callback_payload payload).
Proof. unfold decode_kad_callback_payload. safe_all. Qed.
Lemma safe_reask : safe (λ _, True) (decode_reask_callback_tcp_payload payload).
Proof. unfold decode_reask_callback_tcp_payload. safe_all. Qed.
Lemma safe_message : safe (λ m, accepted_len m ≤ MAX_CLIENT_MSG_LEN) (decode_client_message_payload payload).
Proof. unfold decode_client_message_payload. safe_all. cbn. lia. Qed.
Lemma safe_captcha : safe (λ _, True) (decode_chat_captcha_request_payload payload).
Proof. by destruct payload. Qed.
Lemma safe_captcha_result : safe (λ _, True) (decode_chat_captcha_result_payload payload).
Proof. by destruct payload. Qed.
Lemma safe_preview_request : safe (λ _, True) (decode_preview_request_payload payload).
Proof. unfold decode_preview_request_payload. safe_all. Qed.
Lemma safe_preview_frames n offset bytes : 0 ≤ offset ≤ zlen payload →
  safe (λ '(o, _), o ≤ zlen payload) (preview_frames n payload offset bytes).
Proof.
  revert offset bytes. induction n as [|n IH]; intros offset bytes Ho; cbn [preview_frames]; [cbn; lia|].
  safe_all. apply IH. lia.
Qed.
Lemma safe_preview_answer : safe (λ a, 0 ≤ pva_trailing_len a) (decode_preview_answer_payload payload).
Proof.
  unfold decode_preview_answer_payload. safe_step; [done|]. safe_step. safe_step.
  eapply safe_bind; [apply safe_preview_frames; lia|]. intros [o b] Ho. cbn. lia.
Qed.
Lemma safe_aich_request : safe (λ r, hash_ok (arq_file_hash r)) (decode_aich_recovery_request_payload payload).
Proof. unfold decode_aich_recovery_request_payload. safe_all. Qed.
Lemma safe_aich_answer : safe (λ r, hash_ok (ara_file_hash r)) (decode_aich_recovery_answer_payload payload).
Proof. unfold decode_aich_recovery_answer_payload. safe_all. Qed.
Lemma safe_queue_rank : safe (λ _, True) (decode_edonkey_queue_rank_payload payload).
Proof.
  unfold decode_edonkey_queue_rank_payload. safe_step; [done|].
  eapply safe_weaken; [apply (safe_le payload 0 4); safe_side|done].
Qed.
Lemma safe_queue_ranking : safe (λ _, True) (decode_emule_queue_ranking_payload payload).
Proof.
  unfold decode_emule_queue_ranking_payload. safe_step; [done|].
  eapply safe_weaken; [apply (safe_le payload 0 2); safe_side|done].
Qed.
Lemma safe_public_ip : safe (λ _, True) (decode_public_ip_answer_payload payload).
Proof. unfold decode_public_ip_answer_payload. safe_all. Qed.
Lemma safe_ext_info size : safe (λ r, is_bytes r = true) (skip_request_filename_ext_info payload size).
Proof.
  unfold skip_request_filename_ext_info. safe_step; [done|]. safe_step. cbn zeta. safe_step; [done|]. safe_step; [done|].
  pose proof (div_ceil_nonneg v 8 ltac:(lia) ltac:(lia)).
  eapply safe_weaken; [apply safe_tail; [done|lia]|]. by intros r [].
Qed.
Lemma safe_string : safe (λ '(s, rest), is_bytes s = true ∧ is_bytes rest = true ∧ zlen rest ≤ zlen payload - 2)
  (decode_ed2k_string_body payload).
Proof. unfold decode_ed2k_string_body. safe_all. split; [by apply is_bytes_lossy|]. split; [done|lia]. Qed.
Lemma safe_status_body : safe (λ '(n, rest), 0 ≤ n < 65536 ∧ is_bytes rest = true) (skip_file_status_body payload).
Proof.
  unfold skip_file_status_body. safe_step; [done|]. safe_step. cbn zeta.
  pose proof (div_ceil_nonneg v 8 ltac:(lia) ltac:(lia)). safe_all.
Qed.
Lemma safe_shared_files : safe (λ _, True) (decode_shared_files_answer_payload payload).
Proof. unfold decode_shared_files_answer_payload. safe_all. Qed.
Lemma safe_description : safe (λ _, True) (decode_file_description_payload payload).
Proof. unfold decode_file_description_payload. safe_all. Qed.
Lemma safe_aich_file_hash : safe (λ '(h, r), hash_ok h) (decode_aich_file_hash_answer payload).
Proof. unfold decode_aich_file_hash_answer. safe_all. Qed.
Lemma safe_secident : safe (λ _, True) (decode_secident_state payload).
Proof. unfold decode_secident_state. safe_all. Qed.
Lemma safe_public_key : safe (λ _, True) (decode_public_key_payload payload).
Proof. unfold decode_public_key_payload. destruct payload; [done|]. by destruct (negb _). Qed.
Lemma safe_signature : safe (λ _, True) (decode_signature_payload payload).
Proof. unfold decode_signature_payload. safe_all. all: lia. Qed.
End payloads.

(** The loop over directories ends within its fuel: each takes two bytes. *)
Lemma safe_dirs_loop fuel count remaining acc : is_bytes remaining = true → zlen remaining < Z.of_nat fuel →
  safe (λ _, True) (shared_dirs_loop fuel count remaining acc).
Proof.
  revert count remaining acc. induction fuel as [|fuel IH]; intros count l acc Hl Hf; cbn [shared_dirs_loop].
  - pose proof (zlen_nonneg l). lia.
  - safe_step; [done|]. eapply safe_bind; [by apply safe_string|]. intros [dir rest] (_ & Hb & Hr). apply IH; [done|lia].
Qed.
Lemma safe_shared_dirs payload : is_bytes payload = true → safe (λ _, True) (decode_shared_dirs_answer_payload payload).
Proof.
  intros Hp. unfold decode_shared_dirs_answer_payload. safe_step; [done|]. safe_step. safe_step.
  eapply safe_bind; [apply safe_dirs_loop; [done|unfold zlen in *; lia]|]. done.
Qed.
Lemma safe_dir_request payload : is_bytes payload = true → safe (λ _, True) (decode_shared_files_dir_request_payload payload).
Proof. intros Hp. eapply safe_bind; [by apply safe_string|]. by intros [? ?] ?. Qed.
Lemma safe_dir_answer payload : is_bytes payload = true → safe (λ _, True) (decode_shared_files_dir_answer_payload payload).
Proof.
  intros Hp. eapply safe_bind; [by apply safe_string|]. intros [dir rest] (_ & Hb & _).
  eapply safe_bind; [by apply safe_shared_files|]. done.
Qed.
Lemma safe_filename_answer payload : is_bytes payload = true →
  safe (λ '(h, name), hash_ok h) (decode_request_filename_answer payload).
Proof.
  intros Hp. unfold decode_request_filename_answer. eapply safe_bind with (λ h, hash_ok h ∧ 16 ≤ zlen payload).
  { unfold decode_file_hash_payload. safe_step; [done|].
    eapply safe_weaken; [apply (safe_range payload 0 16); safe_side|]. by intros h Hh. }
  intros h [Hh Hl]. safe_step. eapply safe_bind; [by apply safe_string|]. by intros [? ?] ?.
Qed.

Definition source_ok (s : SourceExchangePeer) : Prop :=
  is_bytes (src_ip s) = true ∧ zlen (src_ip s) = 4 ∧ is_u16 (src_tcp_port s) = true ∧
  is_u32 (src_server_ip s) = true ∧ is_u16 (src_server_port s) = true ∧
  (∀ h, src_user_hash s = Some h → hash_ok h) ∧ is_u8 (src_connect_options s) = true.

Lemma entry_size_cases version : 1 ≤ version →
  (version = 1 ∧ source_exchange_entry_size version = 12) ∨ ((version = 2 ∨ version = 3) ∧ source_exchange_entry_size version = 28) ∨
  (4 ≤ version ∧ source_exchange_entry_size version = 29).
Proof.
  intros Hv. unfold source_exchange_entry_size. destruct (Z.eqb_spec version 1), (Z.eqb_spec version 2), (Z.eqb_spec version 3); cbn; lia.
Qed.

Lemma safe_source version entry : 1 ≤ version → is_bytes entry = true → zlen entry = source_exchange_entry_size version →
  safe source_ok (decode_source version entry).
Proof.
  intros Hv Hb Hl. pose proof (entry_size_cases version Hv) as Hs. unfold decode_source.
  eapply safe_bind with (λ ip, is_bytes ip = true ∧ zlen ip = 4).
  { safe_step; [apply (safe_range entry 0 4); safe_side|]. safe_step. cbn [safe]. split; [apply is_bytes_to_be|].
    unfold zlen. by rewrite length_to_be_bytes. }
  intros ip [Hip Hip4]. safe_step. safe_step. safe_step.
  eapply safe_bind with (λ o, ∀ h, o = Some h → hash_ok h).
  { safe_step; [|done]. safe_step. cbn. by intros h [= <-]. }
  intros uh Huh. eapply safe_bind with (λ c, 0 ≤ c < 256); [safe_step; [apply safe_byte; safe_side|cbn; lia]|].
  intros c Hc. unfold safe, source_ok. cbn [src_ip src_tcp_port src_server_ip src_server_port src_user_hash src_connect_options].
  split; [done|]. split; [done|]. rewrite is_u16_spec, is_u32_spec, is_u16_spec, is_u8_spec.
  split; [lia|]. split; [lia|]. split; [lia|]. done.
Qed.
Lemma safe_sources n version size payload : 1 ≤ version → is_bytes payload = true → size = source_exchange_entry_size version →
  Z.of_nat n * size ≤ zlen payload → safe (Forall source_ok) (decode_sources n version size payload).
Proof.
  intros Hv Hb ->. revert payload Hb. pose proof (entry_size_cases version Hv) as Hs.
  induction n as [|n IH]; intros payload Hb Hl; cbn [decode_sources]; [constructor|]. set (size := source_exchange_entry_size version) in *.
  eapply safe_bind; [apply safe_source; [done|by apply is_bytes_take|]|].
  - unfold zlen in *. rewrite length_take. fold size. lia.
  - intros s Hs'. eapply safe_bind; [apply IH; [by apply is_bytes_drop|]|].
    + unfold zlen in *. rewrite length_drop. lia.
    + intros rest Hr. cbn. by constructor.
Qed.
Lemma safe_entries version count payload : 1 ≤ version → is_bytes payload = true →
  safe (Forall source_ok) (decode_source_exchange_entries version count payload).
Proof.
  intros Hv Hb. unfold decode_source_exchange_entries. pose proof (entry_size_cases version Hv). safe_step; [done|]. safe_step; [done|].
  apply safe_sources; [done|done|done|]. set (size := source_exchange_entry_size version) in *. pose proof (zlen_nonneg payload).
  rewrite Z2Nat.id by (apply Z.div_pos; lia). pose proof (Z.mul_div_le (zlen payload) size). lia.
Qed.
Lemma safe_answer_sources2 payload : is_bytes payload = true →
  safe (λ '(h, sources), hash_ok h ∧ Forall source_ok sources) (decode_answer_sources2_payload payload).
Proof.
  intros Hp. unfold decode_answer_sources2_payload. safe_step; [done|]. safe_step. safe_step; [done|]. safe_step. safe_step. safe_step.
  eapply safe_bind; [apply safe_entries; [lia|done]|]. by intros sources Hs.
Qed.
Lemma safe_infer count payload peer : safe (λ v, 1 ≤ v) (infer_source_exchange1_payload_version count payload peer).
Proof. unfold infer_source_exchange1_payload_version. repeat safe_step; try done. by destruct (peer =? 2). Qed.
Lemma safe_answer_sources payload peer : is_bytes payload = true →
  safe (λ '(h, sources), hash_ok h ∧ Forall source_ok sources) (decode_answer_sources_payload payload peer).
Proof.
  intros Hp. unfold decode_answer_sources_payload. safe_step; [done|]. safe_step. safe_step. safe_step.
  eapply safe_bind; [apply safe_infer|]. intros version Hver. eapply safe_bind; [by apply safe_entries|]. done.
Qed.

Definition id_ok (i : Ed2kFileIdentifier) : Prop :=
  hash_ok (fi_hash i) ∧ (∀ n, fi_size i = Some n → 0 < n < 2 ^ 64) ∧
  (∀ r, fi_aich_root i = Some r → is_bytes r = true ∧ zlen r = 20).
Lemma safe_id payload : is_bytes payload = true →
  safe (λ '(i, rest), id_ok i ∧ is_bytes rest = true) (id_decode payload).
Proof.
  intros Hp. unfold id_decode. destruct payload as [|d rest]; [done|]. apply andb_true_iff in Hp as [_ Hp].
  do 3 (safe_step; [done|]). safe_step. safe_step.
  eapply safe_bind with (λ '(n, l), (∀ v, n = Some v → 0 < v < 2 ^ 64) ∧ is_bytes l = true).
  { unfold id_decode_size. safe_step; [|cbn; split; [done|done]]. safe_step; [done|]. safe_step. safe_step. cbn. split; [|done].
    unfold some_size. destruct (Z.eqb_spec v 0); [done|]. intros x [= <-]. lia. }
  intros [n l] [Hn Hl]. eapply safe_bind with (λ '(r, l), (∀ v, r = Some v → is_bytes v = true ∧ zlen v = 20) ∧ is_bytes l = true).
  { unfold id_decode_root. safe_step; [|cbn; done]. safe_step; [done|]. safe_step. safe_step. cbn. split; [|done]. by intros v [= <-]. }
  intros [r l'] [Hr Hl']. cbn. done.
Qed.

Lemma safe_hashes count size cursor payload : is_bytes payload = true → 0 ≤ size → 0 ≤ cursor →
  cursor + Z.of_nat count * size ≤ zlen payload →
  safe (λ '(hs, c), Forall (λ h, is_bytes h = true ∧ zlen h = size) hs ∧ c = cursor + Z.of_nat count * size)
    (read_hashes count size cursor payload).
Proof.
  intros Hp Hs. revert cursor. induction count as [|count IH]; intros cursor Hc Hl; cbn [read_hashes]; [cbn; split; [constructor|lia]|].
  safe_step. eapply safe_bind; [apply IH; lia|]. intros [hs c] [Hhs ->]. cbn. split; [|lia]. constructor; [|done]. split; [done|lia].
Qed.
Lemma safe_md4_body payload : is_bytes payload = true →
  safe (λ '(h, hs, rest), hash_ok h ∧ Forall hash_ok hs ∧ is_bytes rest = true) (decode_md4_hashset_body payload).
Proof.
  intros Hp. unfold decode_md4_hashset_body. safe_step; [done|]. safe_step. safe_step. safe_step; [done|].
  eapply safe_bind; [apply safe_hashes; lia || done|]. intros [hs c] [Hhs ->]. safe_step. cbn. done.
Qed.
Lemma safe_aich_body payload : is_bytes payload = true → safe (λ '(h, rest), is_bytes rest = true) (decode_aich_hashset_body payload).
Proof.
  intros Hp. unfold decode_aich_hashset_body. safe_step; [done|]. safe_step. safe_step. safe_step; [done|].
  eapply safe_bind; [apply safe_hashes; lia || done|]. intros [hs c] [Hhs ->]. safe_step. cbn. done.
Qed.
Lemma safe_hashset_answer payload : is_bytes payload = true →
  safe (λ '(h, hs), hash_ok h ∧ Forall hash_ok hs) (decode_hashset_answer payload).
Proof. intros Hp. eapply safe_bind; [by apply safe_md4_body|]. intros [[h hs] rest] (? & ? & ?). done. Qed.
Lemma safe_hashset_request2 payload : is_bytes payload = true → safe (λ '(i, _), id_ok i) (decode_hashset_request2 payload).
Proof. intros Hp. eapply safe_bind; [by apply safe_id|]. intros [i [|o rest]] [Hi _]; done. Qed.
Lemma safe_hashset_answer2 payload : is_bytes payload = true →
  safe (λ a, id_ok (ha_file_identifier a) ∧ ∀ hs, ha_md4_hashset a = Some hs → Forall hash_ok hs) (decode_hashset_answer2 payload).
Proof.
  intros Hp. eapply safe_bind; [by apply safe_id|]. intros [i [|o rest]] [Hi Hr]; [done|]. apply andb_true_iff in Hr as [_ Hr].
  eapply safe_bind with (λ '(hs, l), (∀ x, hs = Some x → Forall hash_ok x) ∧ is_bytes l = true).
  { safe_step; [|cbn; done]. eapply safe_bind; [by apply safe_md4_body|]. intros [[h hs] l] (_ & Hhs & Hl). safe_step; [done|].
    cbn. split; [|done]. by intros x [= <-]. }
  intros [hs l] [Hhs Hl]. eapply safe_bind with (λ _, True).
  { safe_step; [|done]. eapply safe_bind; [by apply safe_aich_body|]. intros [h l'] _. by destruct (match fi_aich_root i with Some _ => _ | None => _ end). }
  intros a _. cbn. done.
Qed.

(** ** Round trips *)

Lemma slice_mid a b c i n : i = zlen a → n = zlen b → slice (a ++ b ++ c) i n = b.
Proof.
  intros -> ->. unfold slice. unfold zlen. rewrite !Nat2Z.id, drop_app_length. by rewrite take_app_length.
Qed.
Lemma range_mid {E} a b c i j : i = zlen a → j = zlen a + zlen b → range (E:=E) (a ++ b ++ c) i j = Ok b.
Proof.
  intros -> ->. pose proof (zlen_nonneg a). pose proof (zlen_nonneg b). pose proof (zlen_nonneg c).
  rewrite range_ok by (rewrite ?zlen_app; lia). f_equal. apply slice_mid; lia.
Qed.
Lemma range_front {E} b c j : j = zlen b → range (E:=E) (b ++ c) 0 j = Ok b.
Proof. intros ->. by apply (range_mid [] b c). Qed.
Lemma tail_mid {E} a c i : i = zlen a → tail_from (E:=E) (a ++ c) i = Ok c.
Proof.
  intros ->. pose proof (zlen_nonneg a). pose proof (zlen_nonneg c). rewrite tail_from_ok by (rewrite zlen_app; lia).
  unfold zlen. by rewrite Nat2Z.id, drop_app_length.
Qed.
Lemma zlen_le n v : zlen (to_le_bytes n v) = Z.of_nat n.
Proof. unfold zlen. by rewrite length_to_le_bytes. Qed.
Lemma le_mid {E} a n v c i k : i = zlen a → k = Z.of_nat n → 0 ≤ v < 256 ^ k → le_at (E:=E) (a ++ to_le_bytes n v ++ c) i k = Ok v.
Proof.
  intros -> -> Hv. unfold le_at. rewrite range_mid by (by rewrite ?zlen_le). cbn. by rewrite from_to_le_bytes.
Qed.
Lemma le_front {E} n v c k : k = Z.of_nat n → 0 ≤ v < 256 ^ k → le_at (E:=E) (to_le_bytes n v ++ c) 0 k = Ok v.
Proof. intros Hk Hv. by apply (le_mid [] n v c). Qed.
Lemma byte_front {E} x c : byte (E:=E) (x :: c) 0 = Ok x.
Proof. done. Qed.

(** What encoding wraps: a frame, when its length fits. *)
Lemma encode_packet_frame {E} protocol opcode payload : zlen payload < U32_MAX →
  encode_packet (E:=E) protocol opcode payload = Ok (frame (mkTcpPacket protocol opcode payload)).
Proof.
  intros Hl. unfold encode_packet, frame. cbn [tp_payload tp_protocol tp_opcode]. pose proof (zlen_nonneg payload).
  rewrite try_from_u_fits; [done|]. apply is_u_spec. unfold U32_MAX in *. lia.
Qed.

Lemma zlen_concat_hashes size (hs : list (list Z)) : Forall (λ h, zlen h = size) hs → zlen (concat hs) = zlen hs * size.
Proof. induction 1 as [|h hs Hh _ IH]; [done|]. cbn [concat]. rewrite zlen_app, zlen_cons, IH, Hh. lia. Qed.

Lemma read_hashes_concat size hs pre rest cursor : Forall (λ h, zlen h = size) hs → cursor = zlen pre →
  read_hashes (length hs) size cursor (pre ++ concat hs ++ rest) = Ok (hs, cursor + zlen hs * size).
Proof.
  intros Hhs. revert pre cursor. induction Hhs as [|h hs Hh _ IH]; intros pre cursor ->; cbn [length read_hashes concat].
  - do 2 f_equal. unfold zlen. cbn. lia.
  - rewrite <- (app_assoc h), range_mid by lia. cbn [mbind res_bind]. rewrite (app_assoc pre h).
    rewrite IH by (rewrite zlen_app; lia). cbn [mbind res_bind]. rewrite zlen_cons. do 2 f_equal. lia.
Qed.

Lemma md4_body_roundtrip h hs rest : zlen h = 16 → Forall (λ x, zlen x = 16) hs → zlen hs ≤ 65535 →
  ∃ body, encode_md4_hashset_body h hs = Ok body ∧ zlen body = 18 + zlen hs * 16 ∧
    decode_md4_hashset_body (body ++ rest) = Ok (h, hs, rest).
Proof.
  intros Hh Hhs Hn. pose proof (zlen_nonneg hs). pose proof (zlen_nonneg rest). unfold encode_md4_hashset_body.
  rewrite try_from_u_fits by (apply is_u16_spec; lia). eexists. split; [done|].
  pose proof (zlen_concat_hashes 16 hs Hhs) as Hc. assert (Hl : zlen (h ++ to_le_bytes 2 (zlen hs) ++ concat hs) = 18 + zlen hs * 16).
  { rewrite !zlen_app, zlen_le. lia. }
  split; [done|]. unfold decode_md4_hashset_body. rewrite zlen_app, Hl.
  rewrite (proj2 (Z.ltb_ge _ _)) by lia. rewrite <- !app_assoc, range_front by lia. cbn [mbind res_bind].
  rewrite le_mid by (lia || done). cbn [mbind res_bind]. rewrite (proj2 (Z.ltb_ge _ _)) by lia.
  replace (Z.to_nat (zlen hs)) with (length hs) by (unfold zlen; lia).
  rewrite (app_assoc h). rewrite read_hashes_concat; [|done|rewrite zlen_app, zlen_le; lia]. cbn [mbind res_bind].
  rewrite (app_assoc _ (concat hs)), tail_mid; [done|]. rewrite !zlen_app, zlen_le. lia.
Qed.
Lemma aich_body_roundtrip a rest : zlen (master_hash a) = 20 → Forall (λ x, zlen x = 20) (part_hashes a) → zlen (part_hashes a) ≤ 65535 →
  ∃ body, encode_aich_hashset_body a = Ok body ∧ zlen body = 22 + zlen (part_hashes a) * 20 ∧
    decode_aich_hashset_body (body ++ rest) = Ok (a, rest).
Proof.
  destruct a as [h hs]. cbn [master_hash part_hashes]. intros Hh Hhs Hn. pose proof (zlen_nonneg hs). pose proof (zlen_nonneg rest).
  unfold encode_aich_hashset_body. cbn [master_hash part_hashes].
  rewrite try_from_u_fits by (apply is_u16_spec; lia). eexists. split; [done|].
  pose proof (zlen_concat_hashes 20 hs Hhs) as Hc. assert (Hl : zlen (h ++ to_le_bytes 2 (zlen hs) ++ concat hs) = 22 + zlen hs * 20).
  { rewrite !zlen_app, zlen_le. lia. }
  split; [done|]. unfold decode_aich_hashset_body. rewrite zlen_app, Hl.
  rewrite (proj2 (Z.ltb_ge _ _)) by lia. rewrite <- !app_assoc, range_front by lia. cbn [mbind res_bind].
  rewrite le_mid by (lia || done). cbn [mbind res_bind]. rewrite (proj2 (Z.ltb_ge _ _)) by lia.
  replace (Z.to_nat (zlen hs)) with (length hs) by (unfold zlen; lia).
  rewrite (app_assoc h). rewrite read_hashes_concat; [|done|rewrite zlen_app, zlen_le; lia]. cbn [mbind res_bind].
  rewrite (app_assoc _ (concat hs)), tail_mid; [done|]. rewrite !zlen_app, zlen_le. lia.
Qed.

Lemma descriptor_bits i : has_bit (id_descriptor i) RESERVED_BITS = false ∧ has_bit (id_descriptor i) INCLUDE_MD4 = true ∧
  has_bit (id_descriptor i) INCLUDE_SIZE = bool_decide (is_Some (fi_size i)) ∧
  has_bit (id_descriptor i) INCLUDE_AICH = bool_decide (is_Some (fi_aich_root i)).
Proof. unfold id_descriptor. by destruct (bool_decide (is_Some (fi_size i))), (bool_decide (is_Some (fi_aich_root i))). Qed.

Lemma id_size_roundtrip size rest : (∀ n, size = Some n → 0 < n < 2 ^ 64) →
  id_decode_size (bool_decide (is_Some size)) (match size with Some n => to_le_bytes 8 n | None => [] end ++ rest) = Ok (size, rest).
Proof.
  intros Hs. pose proof (zlen_nonneg rest). unfold id_decode_size. destruct size as [n|].
  - specialize (Hs n eq_refl). rewrite bool_decide_eq_true_2 by done. rewrite zlen_app, zlen_le, (proj2 (Z.ltb_ge _ _)) by lia.
    rewrite le_front by (done || lia). cbn [mbind res_bind]. rewrite tail_mid by (by rewrite zlen_le). cbn [mbind res_bind].
    unfold some_size. by rewrite (proj2 (Z.eqb_neq n 0)) by lia.
  - by rewrite bool_decide_eq_false_2 by (by intros []).
Qed.
Lemma id_root_roundtrip root rest : (∀ r, root = Some r → zlen r = 20) →
  id_decode_root (bool_decide (is_Some root)) (match root with Some r => r | None => [] end ++ rest) = Ok (root, rest).
Proof.
  intros Hs. pose proof (zlen_nonneg rest). unfold id_decode_root. destruct root as [r|].
  - specialize (Hs r eq_refl). rewrite bool_decide_eq_true_2 by done. rewrite zlen_app, (proj2 (Z.ltb_ge _ _)) by lia.
    rewrite range_front by lia. cbn [mbind res_bind]. by rewrite tail_mid by lia.
  - by rewrite bool_decide_eq_false_2 by (by intros []).
Qed.
Lemma id_roundtrip i rest : id_ok i → id_decode (id_encode i ++ rest) = Ok (i, rest) ∧ zlen (id_encode i) ≤ 45.
Proof.
  intros ((Hb & Hh) & Hsize & Hroot). destruct (descriptor_bits i) as (B1 & B2 & B3 & B4). unfold id_encode. split.
  - cbn [app id_decode]. rewrite B1, B2, B3, B4, <- !app_assoc. cbn [negb].
    rewrite (proj2 (Z.ltb_ge _ _)) by (rewrite zlen_app; match goal with |- _ ≤ _ + zlen ?l => pose proof (zlen_nonneg l) end; lia).
    rewrite range_front by lia. cbn [mbind res_bind]. rewrite tail_mid by lia. cbn [mbind res_bind].
    rewrite id_size_roundtrip by done. cbn [mbind res_bind]. rewrite id_root_roundtrip by (intros; by apply Hroot). cbn [mbind res_bind].
    by destruct i.
  - rewrite zlen_cons || cbn [app]. rewrite ?zlen_cons, !zlen_app, Hh.
    assert (zlen match fi_size i with Some size => to_le_bytes 8 size | None => [] end ≤ 8) by (destruct (fi_size i); [by rewrite zlen_le|done]).
    assert (zlen match fi_aich_root i with Some r => r | None => [] end ≤ 20).
    { destruct (fi_aich_root i) as [r|]; [|done]. destruct (Hroot r eq_refl). lia. }
    lia.
Qed.

Lemma options_roundtrip o : options_decode (options_encode o) = o.
Proof. by destruct o as [[] []]. Qed.

(** Sources as the entries of a version carry them. *)
Definition seen (version : Z) (s : SourceExchangePeer) : SourceExchangePeer :=
  mkSource (src_ip s) (src_tcp_port s) (src_server_ip s) (src_server_port s)
    (if 2 <=? version then src_user_hash s else None) (if 4 <=? version then src_connect_options s else 0).

Lemma source_roundtrip version s : 1 ≤ version → source_ok s → (2 ≤ version → is_Some (src_user_hash s)) →
  ∃ bytes, encode_source version s = Ok bytes ∧ zlen bytes = source_exchange_entry_size version ∧
    decode_source version bytes = Ok (seen version s).
Proof.
  destruct s as [ip port sip sport uh opts]. intros Hv (Hib & Hi4 & Hp%is_u16_spec & Hsi%is_u32_spec & Hsp%is_u16_spec & Huh & Ho) Hsome.
  cbn [src_ip src_tcp_port src_server_ip src_server_port src_user_hash src_connect_options] in *.
  unfold encode_source, seen. cbn [src_ip src_tcp_port src_server_ip src_server_port src_user_hash src_connect_options].
  assert (Hid : to_le_bytes 4 (if version <? 3 then from_le_bytes ip else from_be_bytes ip) = if version <? 3 then ip else rev ip).
  { assert (length ip = 4%nat) as Hl by (unfold zlen in Hi4; lia). destruct (version <? 3).
    - rewrite <- Hl. by apply to_from_le_bytes.
    - unfold from_be_bytes. rewrite <- Hl, <- (length_rev ip). apply to_from_le_bytes. by rewrite is_bytes_rev. }
  set (uhb := if 2 <=? version then default [] uh else []). set (ob := if 4 <=? version then [opts] else []).
  assert (Huhl : (if 2 <=? version then expect (E:=PeerError) uh else Ok []) = Ok uhb ∧ zlen uhb = if 2 <=? version then 16 else 0).
  { unfold uhb. destruct (Z.leb_spec 2 version) as [H2|]; [|done]. destruct (Hsome H2) as [h ->]. cbn. by destruct (Huh h eq_refl). }
  destruct Huhl as [-> Hul]. cbn [mbind res_bind]. rewrite Hid. eexists. split; [done|].
  assert (Hl4 : zlen (if version <? 3 then ip else rev ip) = 4).
  { destruct (version <? 3); [done|]. unfold zlen in *. by rewrite length_rev. }
  assert (Hob : zlen ob = if 4 <=? version then 1 else 0) by (unfold ob; by destruct (4 <=? version)).
  split.
  { rewrite !zlen_app, !zlen_le, Hl4, Hul, Hob. destruct (entry_size_cases version Hv) as [[-> ->]|[[H2 ->]|[H4 ->]]]; [done| |].
    - rewrite (proj2 (Z.leb_le 2 version)), (proj2 (Z.leb_gt 4 version)) by lia. done.
    - rewrite (proj2 (Z.leb_le 2 version)), (proj2 (Z.leb_le 4 version)) by lia. done. }
  unfold decode_source.
  assert (Hip : (if version <? 3 then range ((if version <? 3 then ip else rev ip) ++ to_le_bytes 2 port ++ to_le_bytes 4 sip ++
       to_le_bytes 2 sport ++ uhb ++ ob) 0 4
     else v ← le_at ((if version <? 3 then ip else rev ip) ++ to_le_bytes 2 port ++ to_le_bytes 4 sip ++
       to_le_bytes 2 sport ++ uhb ++ ob) 0 4; Ok (to_be_bytes 4 v)) = Ok (E:=PeerError) ip).
  { destruct (version <? 3); [by rewrite range_front by lia|]. unfold le_at. rewrite range_front by lia. cbn [mbind res_bind].
    unfold to_be_bytes. replace 4%nat with (length (rev ip)) by (unfold zlen in Hl4; lia).
    rewrite to_from_le_bytes by (by rewrite is_bytes_rev). by rewrite rev_involutive. }
  rewrite Hip. cbn [mbind res_bind]. set (a := if version <? 3 then ip else rev ip) in *.
  rewrite (le_mid a 2 port _ 4 2) by (lia || done). cbn [mbind res_bind].
  rewrite (app_assoc a), (le_mid (a ++ _) 4 sip _ 6 4) by (rewrite ?zlen_app, ?zlen_le; lia || done). cbn [mbind res_bind].
  rewrite (app_assoc (a ++ _)), (le_mid ((a ++ _) ++ _) 2 sport _ 10 2) by (rewrite ?zlen_app, ?zlen_le; lia || done). cbn [mbind res_bind].
  rewrite (app_assoc ((a ++ _) ++ _)). set (b := ((a ++ to_le_bytes 2 port) ++ to_le_bytes 4 sip) ++ to_le_bytes 2 sport).
  assert (Hb : zlen b = 12) by (unfold b; rewrite !zlen_app, !zlen_le; lia).
  assert (Hu : (if 2 <=? version then h ← range (b ++ uhb ++ ob) 12 28; Ok (Some h) else Ok None) =
    Ok (E:=PeerError) (if 2 <=? version then uh else None)).
  { unfold uhb in *. destruct (Z.leb_spec 2 version) as [H2|]; [|done]. rewrite range_mid by lia. destruct (Hsome H2) as [h ->]. done. }
  rewrite Hu. cbn [mbind res_bind].
  assert (Hc : (if 4 <=? version then byte (b ++ uhb ++ ob) 28 else Ok 0) = Ok (E:=PeerError) (if 4 <=? version then opts else 0)).
  { unfold ob. destruct (Z.leb_spec 4 version) as [H4|]; [|done]. assert (zlen uhb = 16) as Hu16 by (rewrite Hul; destruct (Z.leb_spec 2 version); lia).
    rewrite (app_assoc b uhb), byte_ok by (rewrite (zlen_app (b ++ uhb)), (zlen_app b uhb); change (zlen [opts]) with 1; lia). f_equal.
    replace (Z.to_nat 28) with (length (b ++ uhb) + 0)%nat by (rewrite length_app; unfold zlen in *; lia). by rewrite app_nth2_plus. }
  by rewrite Hc.
Qed.

Lemma sources_bytes version l : 1 ≤ version → Forall source_ok l → (2 ≤ version → Forall (λ s, is_Some (src_user_hash s)) l) →
  ∃ bytes, encode_sources version l = Ok bytes ∧ zlen bytes = zlen l * source_exchange_entry_size version ∧
    decode_sources (length l) version (source_exchange_entry_size version) bytes = Ok (seen version <$> l).
Proof.
  intros Hv Hl Hu. induction Hl as [|s l Hs _ IH]; [by exists []|].
  destruct (source_roundtrip version s Hv Hs) as (b & Eb & Hb & Db); [intros H2; by apply Hu, Forall_cons in H2 as [? _]|].
  destruct IH as (bs & Ebs & Hbs & Dbs); [intros H2; by apply Hu, Forall_cons in H2 as [_ ?]|]. cbn [encode_sources]. rewrite Eb, Ebs. cbn [mbind res_bind].
  eexists. split; [done|]. split; [rewrite zlen_app, zlen_cons, Hb, Hbs; lia|].
  cbn [length decode_sources]. rewrite <- Hb. unfold zlen. rewrite Nat2Z.id, take_app_length, drop_app_length, Db. cbn [mbind res_bind].
  fold (zlen b). rewrite Hb, Dbs. done.
Qed.

Lemma entries_roundtrip version sources : 1 ≤ version → Forall source_ok sources →
  let sent := exchanged_sources version sources in
  ∃ bytes, encode_source_exchange_entries version sources = Ok (to_le_bytes 2 (zlen sent) ++ bytes) ∧
    zlen sent ≤ 501 ∧ zlen bytes = zlen sent * source_exchange_entry_size version ∧
    decode_source_exchange_entries version (zlen sent) bytes = Ok (seen version <$> sent).
Proof.
  intros Hv Hs sent. assert (Hn : zlen sent ≤ 501) by (unfold sent, exchanged_sources; apply (zlen_take 501); lia).
  pose proof (zlen_nonneg sent). unfold encode_source_exchange_entries, source_exchange_entry_count. fold sent.
  rewrite try_from_u_fits by (apply is_u16_spec; lia). cbn [expect mbind res_bind].
  assert (Hsent : Forall (λ s, source_ok s ∧ (negb (2 <=? version) || bool_decide (is_Some (src_user_hash s)) = true)) sent).
  { unfold sent, exchanged_sources. apply Forall_take, Forall_forall. intros x [Hx ?]%elem_of_filter_bool. split; [|done].
    by eapply Forall_forall in Hs. }
  destruct (sources_bytes version sent Hv) as (bytes & -> & Hl & Hd).
  { eapply Forall_impl; [exact Hsent|]. by intros x []. }
  { intros H2. eapply Forall_impl; [exact Hsent|]. intros x [_ Hx]. rewrite (proj2 (Z.leb_le 2 version)) in Hx by lia. cbn in Hx. by bool_hyps. }
  cbn [mbind res_bind]. exists bytes. split; [done|]. split; [done|]. split; [done|].
  unfold decode_source_exchange_entries. pose proof (entry_size_cases version Hv) as He. set (size := source_exchange_entry_size version) in *.
  assert (is_u64 (zlen sent * size) = true) as -> by (apply is_u64_spec; lia). rewrite Hl, Z.eqb_refl. cbn [negb].
  rewrite Z.div_mul by lia. unfold zlen at 1. by rewrite Nat2Z.id.
Qed.

Lemma lor_bound k a b : 0 ≤ k → 0 ≤ a < 2 ^ k → 0 ≤ b < 2 ^ k → 0 ≤ Z.lor a b < 2 ^ k.
Proof.
  intros Hk Ha Hb. assert (H0 : 0 ≤ Z.lor a b) by (apply Z.lor_nonneg; lia). split; [done|].
  destruct (Z.eq_dec (Z.lor a b) 0) as [->|Hne]; [lia|]. apply Z.log2_lt_pow2; [lia|]. rewrite Z.log2_lor by lia.
  assert (Hlog : ∀ x, 0 ≤ x < 2 ^ k → Z.log2 x < k ∨ x = 0).
  { intros x Hx. destruct (Z.eq_dec x 0); [by right|left]. apply Z.log2_lt_pow2; lia. }
  pose proof (Z.log2_nonneg a). pose proof (Z.log2_nonneg b).
  destruct (Hlog a Ha) as [|Ha0], (Hlog b Hb) as [|Hb0]; subst; [lia|cbn [Z.log2] in *; lia..|done].
Qed.

(** The bits of the pieces: the byte of piece [k], and the bytes before the last. *)
Definition verified_bit (p : Ed2kPieceState) : bool := bool_decide (state p = Verified).
Lemma bitfield_loop_spec l i payload cur : 0 ≤ i → 0 ≤ cur < 2 ^ (i mod 8) →
  ∃ bytes last, bitfield_loop i l payload cur = (payload ++ bytes, last) ∧
    zlen bytes = (i mod 8 + zlen l) / 8 ∧
    (∀ b, 0 ≤ b < i mod 8 → Z.testbit (nth 0 (bytes ++ [last]) 0) b = Z.testbit cur b) ∧
    ∀ k p, l !! k = Some p →
      Z.testbit (nth (Z.to_nat ((i mod 8 + Z.of_nat k) / 8)) (bytes ++ [last]) 0) ((i mod 8 + Z.of_nat k) mod 8) = verified_bit p.
Proof.
  revert i payload cur. induction l as [|p l IH]; intros i payload cur Hi Hc; cbn [bitfield_loop].
  - exists [], cur. rewrite app_nil_r. split; [done|]. pose proof (Z.mod_pos_bound i 8 eq_refl). split; [|split; [done|]].
    + rewrite (zlen_nil (A:=Z)), (zlen_nil (A:=Ed2kPieceState)). symmetry. apply Z.div_small. lia.
    + intros k p Hk. by rewrite lookup_nil in Hk.
  - set (cur' := if bool_decide (state p = Verified) then Z.lor cur (Z.shiftl 1 (i mod 8)) else cur).
    pose proof (Z.mod_pos_bound i 8 eq_refl) as Hm.
    assert (Hbit : Z.testbit cur' (i mod 8) = verified_bit p).
    { unfold cur', verified_bit. destruct (bool_decide (state p = Verified)).
      - rewrite Z.lor_spec, Z.shiftl_spec by lia. rewrite Z.sub_diag. by rewrite orb_true_r.
      - destruct (Z.eq_dec cur 0) as [->|]; [apply Z.bits_0|]. apply Z.bits_above_log2; [lia|]. apply Z.log2_lt_pow2; lia. }
    assert (Hlow : ∀ b, 0 ≤ b < i mod 8 → Z.testbit cur' b = Z.testbit cur b).
    { intros b Hb. unfold cur'. destruct (bool_decide (state p = Verified)); [|done].
      rewrite Z.lor_spec, Z.shiftl_spec by lia. rewrite (Z.testbit_neg_r 1) by lia. apply orb_false_r. }
    assert (Hc' : 0 ≤ cur' < 2 ^ (i mod 8 + 1)).
    { unfold cur'. pose proof (Z.pow_pos_nonneg 2 (i mod 8) eq_refl ltac:(lia)). rewrite Z.pow_add_r by lia.
      destruct (bool_decide (state p = Verified)); [|lia]. rewrite Z.shiftl_1_l, <- (Z.pow_add_r 2 (i mod 8) 1) by lia.
      apply lor_bound; [lia| |]; rewrite Z.pow_add_r by lia; lia. }
    destruct (Z.eqb_spec (i mod 8) 7) as [H7|H7].
    + assert (Hm1 : (i + 1) mod 8 = 0).
      { rewrite Z.add_mod by lia. by rewrite H7. }
      destruct (IH (i + 1) (payload ++ [cur']) 0) as (bytes & last & -> & Hlen & _ & Hbits); [lia|rewrite Hm1; done|].
      exists (cur' :: bytes), last. rewrite <- app_assoc. split; [done|]. rewrite Hm1, H7 in *. split; [|split].
      * rewrite !zlen_cons, Hlen. replace (7 + (1 + zlen l)) with (zlen l + 1 * 8) by lia. rewrite Z.div_add, Z.add_0_l by lia. lia.
      * intros b Hb. cbn. by apply Hlow.
      * intros [|k] q Hk.
        -- injection Hk as <-. exact Hbit.
        -- specialize (Hbits k q Hk). replace (7 + Z.of_nat (S k)) with (0 + Z.of_nat k + 1 * 8) by lia.
           rewrite Z.div_add, Z.mod_add by lia. pose proof (Z.div_pos (0 + Z.of_nat k) 8 ltac:(lia) ltac:(lia)).
           replace (Z.to_nat ((0 + Z.of_nat k) / 8 + 1)) with (S (Z.to_nat ((0 + Z.of_nat k) / 8))) by lia. exact Hbits.
    + assert (Hm1 : (i + 1) mod 8 = i mod 8 + 1).
      { rewrite <- (Zplus_mod_idemp_l i 1 8). apply Z.mod_small. lia. }
      destruct (IH (i + 1) payload cur') as (bytes & last & -> & Hlen & Hpre & Hbits); [lia|by rewrite Hm1|].
      exists bytes, last. rewrite Hm1 in *. split; [done|]. split; [rewrite zlen_cons, Hlen; f_equal; lia|]. split.
      * intros b Hb. rewrite Hpre by lia. by apply Hlow.
      * intros [|k] q Hk.
        -- injection Hk as <-. replace (i mod 8 + Z.of_nat 0) with (i mod 8) by lia.
           rewrite (Z.mod_small (i mod 8) 8), (Z.div_small (i mod 8) 8) by lia. rewrite Hpre by lia. exact Hbit.
        -- specialize (Hbits k q Hk). replace (i mod 8 + Z.of_nat (S k)) with (i mod 8 + 1 + Z.of_nat k) by lia. exact Hbits.
Qed.

Lemma ext_info_spec m : zlen (pieces m) ≤ 65535 →
  ∃ bits, encode_request_filename_ext_info m = to_le_bytes 2 (zlen (pieces m)) ++ bits ++ to_le_bytes 2 0 ∧
    zlen bits = div_ceil (zlen (pieces m)) 8 ∧
    ∀ k p, pieces m !! k = Some p → Z.testbit (nth (k / 8) bits 0) (Z.of_nat k mod 8) = verified_bit p.
Proof.
  intros Hn. pose proof (zlen_nonneg (pieces m)) as H0. unfold encode_request_filename_ext_info.
  rewrite try_from_u_fits by (apply is_u16_spec; lia). cbn [from_option id].
  destruct (bitfield_loop_spec (pieces m) 0 (to_le_bytes 2 (zlen (pieces m))) 0) as (bytes & last & -> & Hl & _ & Hbits); [lia|done|].
  rewrite Z.mod_0_l, Z.add_0_l in * by lia. unfold id. exists (if negb (zlen (pieces m) mod 8 =? 0) then bytes ++ [last] else bytes).
  split; [by destruct (negb _); rewrite <- ?app_assoc|]. unfold div_ceil. pose proof (Z.mod_pos_bound (zlen (pieces m)) 8 eq_refl).
  assert (Hnat : ∀ k, Z.to_nat (Z.of_nat k / 8) = (k / 8)%nat).
  { intros k. rewrite <- (Nat2Z.id (k / 8)). f_equal. by rewrite Nat2Z.inj_div. }
  split.
  - destruct (Z.eqb_spec (zlen (pieces m) mod 8) 0) as [He|Hne]; cbn [negb].
    + rewrite He, Hl. cbn. lia.
    + rewrite zlen_app, Hl, (proj2 (Z.ltb_lt _ _)) by lia. done.
  - intros k p Hk. rewrite <- (Hbits k p Hk), Z.add_0_l, Hnat. destruct (Z.eqb_spec (zlen (pieces m) mod 8) 0) as [He|Hne]; cbn [negb]; [|done].
    assert (Hlt : (k / 8 < length bytes)%nat).
    { apply lookup_lt_Some in Hk. rewrite <- Hnat. unfold zlen in *. apply Nat2Z.inj_lt. rewrite Hl, Z2Nat.id by (apply Z.div_pos; lia).
      apply Z.div_lt_upper_bound; [lia|]. pose proof (Z.div_mod (Z.of_nat (length (pieces m))) 8). lia. }
    f_equal. by rewrite app_nth1.
Qed.

Lemma ext_info_skip m rest : zlen (pieces m) ≤ 65535 →
  ed2k_file_part_count (file_size m) = 0 ∨ ed2k_file_part_count (file_size m) = zlen (pieces m) →
  skip_request_filename_ext_info (encode_request_filename_ext_info m ++ rest) (file_size m) = Ok rest.
Proof.
  intros Hn Hpc. pose proof (zlen_nonneg (pieces m)). pose proof (zlen_nonneg rest). pose proof (div_ceil_nonneg (zlen (pieces m)) 8 ltac:(lia) ltac:(lia)).
  destruct (ext_info_spec m Hn) as (bits & -> & Hb & _). unfold skip_request_filename_ext_info.
  rewrite <- !app_assoc, le_front by (done || lia). cbn [mbind res_bind].
  rewrite !zlen_app, !zlen_le, Hb. rewrite !(proj2 (Z.ltb_ge _ _)) by lia.
  assert (negb (ed2k_file_part_count (file_size m) =? 0) && negb (zlen (pieces m) =? ed2k_file_part_count (file_size m)) = false) as ->.
  { destruct Hpc as [->| ->]; [done|]. by rewrite Z.eqb_refl, andb_false_r. }
  rewrite (app_assoc (to_le_bytes 2 (zlen (pieces m)))), (app_assoc (_ ++ bits)). apply tail_mid. rewrite !zlen_app, !zlen_le, Hb. lia.
Qed.

Lemma string_roundtrip s rest : utf8_valid s = true → zlen s ≤ 65535 →
  ∃ body, encode_ed2k_string_body s = Ok body ∧ zlen body = 2 + zlen s ∧ decode_ed2k_string_body (body ++ rest) = Ok (s, rest).
Proof.
  intros Hv Hl. pose proof (zlen_nonneg s). pose proof (zlen_nonneg rest). unfold encode_ed2k_string_body.
  rewrite try_from_u_fits by (apply is_u16_spec; lia). eexists. split; [done|]. rewrite zlen_app, zlen_le. split; [done|].
  unfold decode_ed2k_string_body. rewrite <- app_assoc, !zlen_app, zlen_le. rewrite (proj2 (Z.ltb_ge _ _)) by lia.
  rewrite le_front by (done || lia). cbn [mbind res_bind]. rewrite (proj2 (Z.ltb_ge _ _)) by lia.
  rewrite range_mid by (rewrite ?zlen_le; lia). cbn [mbind res_bind].
  rewrite app_assoc, tail_mid by (rewrite zlen_app, zlen_le; lia). cbn [mbind res_bind]. by rewrite lossy_valid_id.
Qed.

(** ** Properties *)

(** Hash sets survive the wire: the answer with the MD4 hashes of the parts, and
    the request and answer with file identifiers, are encoded to frames whose payloads
    decode to what was encoded; of an MD4 set the extended answer carries only one
    that is not empty or is that of a file of several parts. *)
Lemma hashsets_roundtrip :
  (∀ h hs, hash_ok h → Forall hash_ok hs → zlen hs ≤ 65535 → ∃ payload,
     encode_hashset_answer h hs = Ok (frame (mkTcpPacket OP_EDONKEYPROT OP_HASHSETANSWER payload)) ∧
     decode_hashset_answer payload = Ok (h, hs)) ∧
  (∀ i o, id_ok i → has_known_request o = true → ∃ payload,
     encode_hashset_request2 i o = Ok (frame (mkTcpPacket OP_EMULEPROT OP_HASHSETREQUEST2 payload)) ∧
     decode_hashset_request2 payload = Ok (i, o)) ∧
  (∀ i hs a, id_ok i → (∀ x, hs = Some x → Forall hash_ok x ∧ zlen x ≤ 65535) →
     (∀ x, a = Some x → zlen (master_hash x) = 20 ∧ Forall (λ h, zlen h = 20) (part_hashes x) ∧ zlen (part_hashes x) ≤ 65535 ∧
        ∀ r, fi_aich_root i = Some r → r = master_hash x) → ∃ payload,
     encode_hashset_answer2 i hs a = Ok (frame (mkTcpPacket OP_EMULEPROT OP_HASHSETANSWER2 payload)) ∧
     decode_hashset_answer2 payload = Ok (mkHashsetAnswer2 i (if include_md4 i hs then hs else None) a)).
Proof.
  assert (H16 : ∀ hs, Forall hash_ok hs → Forall (λ x, zlen x = 16) hs) by (intros hs H; eapply Forall_impl; [exact H|]; by intros x []).
  split; [|split].
  - intros h hs [_ Hh] Hhs Hn. destruct (md4_body_roundtrip h hs [] Hh (H16 hs Hhs) Hn) as (body & Eb & Hl & Hd). rewrite app_nil_r in Hd.
    exists body. unfold encode_hashset_answer, decode_hashset_answer. rewrite Eb. cbn [mbind res_bind].
    rewrite encode_packet_frame by (unfold U32_MAX; lia). by rewrite Hd.
  - intros i o Hi Ho. destruct (id_roundtrip i [options_encode o] Hi) as [Hd Hl]. exists (id_encode i ++ [options_encode o]).
    unfold encode_hashset_request2, decode_hashset_request2. rewrite Ho, Hd. cbn [negb mbind res_bind]. rewrite options_roundtrip.
    by rewrite encode_packet_frame by (rewrite zlen_app; change (zlen [options_encode o]) with 1; unfold U32_MAX; lia).
  - intros i hs a Hi Hhs Ha. unfold encode_hashset_answer2. set (md4 := include_md4 i hs). set (opts := mkHashsetOptions md4 (bool_decide (is_Some a))).
    assert (HA : ∃ ab, match a with Some h => encode_aich_hashset_body h | None => Ok [] end = Ok ab ∧ zlen ab ≤ 22 + 65535 * 20 ∧
      ∀ x, a = Some x → decode_aich_hashset_body ab = Ok (x, [])).
    { destruct a as [x|]; [|by exists []]. destruct (Ha x eq_refl) as (H1 & H2 & H3 & _).
      destruct (aich_body_roundtrip x [] H1 H2 H3) as (ab & -> & Hl & Hd). exists ab. rewrite app_nil_r in Hd. split; [done|]. split; [lia|].
      by intros y [= <-]. }
    destruct HA as (ab & Eab & Hab & Dab).
    assert (HM : ∃ mb, match hs with Some x => if md4 then encode_md4_hashset_body (fi_hash i) x else Ok [] | None => Ok [] end = Ok mb ∧
      zlen mb ≤ 18 + 65535 * 16 ∧ if md4 then ∃ x, hs = Some x ∧ decode_md4_hashset_body (mb ++ ab) = Ok (fi_hash i, x, ab) else mb = []).
    { destruct hs as [x|]; [|by exists []]. destruct md4; [|by exists []]. destruct (Hhs x eq_refl) as [Hx Hn].
      destruct (md4_body_roundtrip (fi_hash i) x ab (proj2 (proj1 Hi)) (H16 x Hx) Hn) as (mb & -> & Hl & Hd). exists mb.
      split; [done|]. split; [lia|]. by exists x. }
    destruct HM as (mb & -> & Hmb & Dmb). cbn [mbind res_bind]. rewrite Eab. cbn [mbind res_bind].
    destruct (id_roundtrip i ([options_encode opts] ++ mb ++ ab) Hi) as [Hd Hl]. eexists. rewrite encode_packet_frame.
    2:{ rewrite !zlen_app. change (zlen [options_encode opts]) with 1. unfold U32_MAX. lia. }
    split; [done|]. unfold decode_hashset_answer2. rewrite Hd. cbn [mbind res_bind app]. rewrite options_roundtrip.
    unfold opts. cbn [request_md4 request_aich].
    assert (Hmd : (if md4 then '(returned_hash, hashset, rest) ← decode_md4_hashset_body (mb ++ ab);
        if negb (bool_decide (returned_hash = fi_hash i)) then Err PMismatch else Ok (Some hashset, rest)
      else Ok (None, mb ++ ab)) = Ok (E:=PeerError) (if md4 then hs else None, ab)).
    { destruct md4; [|by subst mb]. destruct Dmb as (x & -> & ->). cbn [mbind res_bind]. by rewrite bool_decide_eq_true_2. }
    rewrite Hmd. cbn [mbind res_bind]. destruct a as [x|].
    + rewrite bool_decide_eq_true_2 by done. rewrite (Dab x eq_refl). cbn [mbind res_bind]. destruct (Ha x eq_refl) as (_ & _ & _ & Hroot).
      destruct (fi_aich_root i) as [r|]; [|done]. rewrite (Hroot r eq_refl), bool_decide_eq_true_2 by done. done.
    + rewrite bool_decide_eq_false_2 by (by intros []). done.
Qed.

(** Sources survive the wire: an answer of the second protocol, in each of its four
    versions, and one of the first protocol read by a peer that supports it, are
    encoded to frames whose payloads decode to the first [501] sources that the version
    can carry, with the fields it carries; of sources it cannot carry, none is sent. *)
Lemma sources_roundtrip h sources : hash_ok h → Forall source_ok sources →
  (∀ version, 1 ≤ version ≤ ED2K_SOURCE_EXCHANGE2_VERSION → ∃ payload,
     encode_answer_sources2 h version sources = Ok (frame (mkTcpPacket OP_EMULEPROT OP_ANSWERSOURCES2 payload)) ∧
     decode_answer_sources2_payload payload = Ok (h, seen version <$> exchanged_sources version sources)) ∧
  (∀ peer_version, 1 ≤ peer_version → ∃ payload,
     encode_answer_sources h sources = Ok (frame (mkTcpPacket OP_EMULEPROT OP_ANSWERSOURCES payload)) ∧
     decode_answer_sources_payload payload peer_version = Ok (h, seen 1 <$> take 501 sources)).
Proof.
  intros [Hhb Hh] Hs. split.
  - intros version Hv. unfold ED2K_SOURCE_EXCHANGE2_VERSION in Hv.
    destruct (entries_roundtrip version sources ltac:(lia) Hs) as (bytes & Eb & Hn & Hl & Hd). set (sent := exchanged_sources version sources) in *.
    pose proof (zlen_nonneg sent). pose proof (entry_size_cases version ltac:(lia)).
    unfold encode_answer_sources2. rewrite Eb. cbn [mbind res_bind]. eexists. rewrite encode_packet_frame.
    2:{ rewrite !zlen_app, zlen_le, Hl. change (zlen [version]) with 1. unfold U32_MAX. lia. }
    split; [done|]. unfold decode_answer_sources2_payload.
    rewrite (proj2 (Z.ltb_ge _ _)) by (rewrite !zlen_app, zlen_le, Hl; change (zlen [version]) with 1; lia).
    cbn [app]. rewrite byte_front. cbn [mbind res_bind]. unfold ED2K_SOURCE_EXCHANGE2_VERSION. rewrite !(proj2 (Z.leb_le _ _)) by lia. cbn [andb negb].
    change (version :: h ++ to_le_bytes 2 (zlen sent) ++ bytes) with ([version] ++ h ++ to_le_bytes 2 (zlen sent) ++ bytes).
    rewrite range_mid by (change (zlen [version]) with 1; lia). cbn [mbind res_bind].
    rewrite (app_assoc [version] h), le_mid by (rewrite ?zlen_app; change (zlen [version]) with 1; done || lia). cbn [mbind res_bind].
    rewrite (app_assoc _ (to_le_bytes 2 _)), tail_mid by (rewrite !zlen_app, zlen_le; change (zlen [version]) with 1; lia).
    cbn [mbind res_bind]. by rewrite Hd.
  - intros pv Hpv. destruct (entries_roundtrip 1 sources ltac:(lia) Hs) as (bytes & Eb & Hn & Hl & Hd).
    assert (Hsent : exchanged_sources 1 sources = take 501 sources).
    { unfold exchanged_sources. f_equal. transitivity (List.filter (λ _, true) sources); [done|].
      clear. induction sources as [|s l IH]; [done|]. cbn. by rewrite IH. }
    rewrite Hsent in *. set (sent := take 501 sources) in *. pose proof (zlen_nonneg sent). change (source_exchange_entry_size 1) with 12 in Hl.
    unfold encode_answer_sources. rewrite Eb. cbn [mbind res_bind]. eexists. rewrite encode_packet_frame.
    2:{ rewrite !zlen_app, zlen_le, Hl. unfold U32_MAX. lia. }
    split; [done|]. unfold decode_answer_sources_payload. rewrite (proj2 (Z.ltb_ge _ _)) by (rewrite !zlen_app, zlen_le, Hl; lia).
    rewrite range_front by lia. cbn [mbind res_bind]. rewrite le_mid by (done || lia). cbn [mbind res_bind].
    rewrite (app_assoc h), tail_mid by (rewrite zlen_app, zlen_le; lia). cbn [mbind res_bind].
    unfold infer_source_exchange1_payload_version. change (source_exchange_entry_size 1) with 12. rewrite Hl, Z.eqb_refl.
    assert (is_u64 (zlen sent * 12) = true) as -> by (apply is_u64_spec; lia). rewrite (proj2 (Z.ltb_ge _ _)) by lia. cbn [negb mbind res_bind].
    by rewrite Hd.
Qed.

Definition sample_source : SourceExchangePeer := mkSource [80; 1; 2; 3] 4662 5 4661 (Some (replicate 16 9)) 3.
Lemma sample_source_ok : Forall source_ok [sample_source].
Proof. apply Forall_singleton. repeat split; try done. all: by injection H as <-. Qed.

(** A request for a file name tells what we have: the payload decodes to the file,
    its bit [k] says whether piece [k] is verified, and a peer that knows the file's
    size finds the number of parts it expects and goes on after it; the answer decodes
    to the file and the name. *)
Lemma filename_roundtrip h m name : hash_ok h → 0 < file_size m → zlen (pieces m) = div_ceil (file_size m) ED2K_PART_SIZE →
  zlen (pieces m) ≤ 65535 → utf8_valid name = true → zlen name ≤ 65535 →
  (∃ payload, encode_request_filename h m = Ok (E:=PeerError) (frame (mkTcpPacket OP_EDONKEYPROT OP_REQUESTFILENAME payload)) ∧
     decode_file_hash_payload payload = Ok h ∧
     (∀ rest, skip_request_filename_ext_info (drop 16 payload ++ rest) (file_size m) = Ok rest) ∧
     ∀ k p, pieces m !! k = Some p → Z.testbit (nth (18 + k / 8) payload 0) (Z.of_nat k mod 8) = bool_decide (state p = Verified)) ∧
  (∃ payload, encode_request_filename_answer h name = Ok (frame (mkTcpPacket OP_EDONKEYPROT OP_REQFILENAMEANSWER payload)) ∧
     decode_request_filename_answer payload = Ok (h, name)).
Proof.
  intros [Hhb Hh] Hsize Hpc Hn Hv Hname. pose proof (zlen_nonneg name). assert (Hh16 : length h = 16%nat) by (unfold zlen in Hh; lia). split.
  - destruct (ext_info_spec m Hn) as (bits & He & Hb & Hbits). pose proof (zlen_nonneg (pieces m)).
    exists (h ++ encode_request_filename_ext_info m). unfold encode_request_filename, decode_file_hash_payload.
    assert (Hbb : zlen bits ≤ 65535). { rewrite Hb. unfold div_ceil. pose proof (Z.div_le_upper_bound (zlen (pieces m)) 8 65534). destruct (0 <? _); cbn; lia. }
    assert (Hlen : zlen (h ++ encode_request_filename_ext_info m) = 20 + zlen bits) by (rewrite He, !zlen_app, !zlen_le; lia).
    pose proof (zlen_nonneg bits). rewrite encode_packet_frame by (unfold U32_MAX; lia). split; [done|]. split; [|split].
    + rewrite (proj2 (Z.ltb_ge _ _)) by lia. by apply range_front.
    + intros rest. rewrite <- Hh16, drop_app_length. apply ext_info_skip; [done|]. right. unfold ed2k_file_part_count.
      rewrite (proj2 (Z.eqb_neq _ _)) by lia. rewrite <- Hpc, try_from_u_fits by (apply is_u16_spec; lia). done.
    + intros k p Hk. change (bool_decide (state p = Verified)) with (verified_bit p). rewrite <- (Hbits k p Hk), He.
      assert (Hlt : (k / 8 < length bits)%nat).
      { apply lookup_lt_Some in Hk. unfold zlen in *. apply Nat2Z.inj_lt. rewrite Hb, Nat2Z.inj_div. unfold div_ceil.
        set (n := Z.of_nat (length (pieces m))) in *. pose proof (Z.div_mod n 8 ltac:(lia)). pose proof (Z.mod_pos_bound n 8 eq_refl).
        destruct (Z.ltb_spec 0 (n mod 8)); cbn.
        - apply Z.div_lt_upper_bound; lia.
        - rewrite Z.add_0_r. apply Z.div_lt_upper_bound; lia. }
      f_equal. change (18 + k / 8)%nat with (2 + (16 + k / 8))%nat. replace (2 + (16 + k / 8))%nat with (length h + (2 + k / 8))%nat by lia.
      rewrite app_nth2_plus. change (2 + k / 8)%nat with (length (to_le_bytes 2 (zlen (pieces m))) + k / 8)%nat.
      rewrite app_nth2_plus. by rewrite app_nth1.
  - destruct (string_roundtrip name [] Hv Hname) as (body & Eb & Hl & Hd). rewrite app_nil_r in Hd. exists (h ++ body).
    unfold encode_request_filename_answer, encode_request_filename_answer_body. rewrite Eb. cbn [mbind res_bind].
    rewrite encode_packet_frame by (rewrite zlen_app; unfold U32_MAX; lia). split; [done|].
    unfold decode_request_filename_answer, decode_file_hash_payload. rewrite (proj2 (Z.ltb_ge _ _)) by (rewrite zlen_app; lia).
    rewrite range_front by lia. cbn [mbind res_bind]. rewrite tail_mid by lia. cbn [mbind res_bind].
    unfold decode_request_filename_answer_body. by rewrite Hd.
Qed.

