(* ===== verification/KadObfuscation.v ===== *)
(** * Obfuscation of Kad datagrams

    [overlord-kad-net/src/obfuscation.rs] and its modules [crypto.rs], [peer_state.rs],
    [inbound.rs] and [outbound.rs]: what a node knows of the keys of its peers, which
    form it gives a datagram, and how it reads one. MD5 is a parameter, an array of
    16 bytes; random choices are arguments. *)

From S2P Require Import Prelude Net NodeId Packet Hashset PeerTransport PeerCodec.

(** ** Data *)

Definition MAGICVALUE_UDP_SYNC_CLIENT : Z := 0x395F2EC1.
Definition KAD_MARKER_RECEIVER_KEY : Z := 0x02.
Definition UDP_PADDING_LEN : Z := 0.

Inductive KadKeyMode : Type := KeyNodeId | KeyReceiverVerifyKey.
Record DecryptResult : Type := mkDecrypt {
  de_data : list Z;
  de_was_obfuscated : bool;
  de_sender_verify_key : option Z;
  de_receiver_verify_key_valid : bool
}.
Inductive OutboundKadEncryptionMode : Type := OutPlaintext | OutNodeId | OutReceiverVerifyKey.
#[export] Instance OutboundKadEncryptionMode_eq_dec : EqDecision OutboundKadEncryptionMode.
Proof. solve_decision. Defined.
Record OutboundKadEncryptionInfo : Type := mkOutboundInfo {
  oi_mode : OutboundKadEncryptionMode;
  oi_peer_node_id : option NodeId;
  oi_peer_kad_version : option Z;
  oi_receiver_verify_key : option Z;
  oi_sender_verify_key : option Z
}.
Record PeerCryptoState : Type := mkPeerCrypto { pc_node_id : option NodeId; pc_kad_version : option Z }.
Record ResolvedPeerCryptoState : Type := mkResolvedPeer {
  rp_receiver_verify_key : option Z;
  rp_node_id : option NodeId;
  rp_kad_version : option Z
}.
Record ObfuscationLayer : Type := mkLayer {
  ob_our_node_id : NodeId;
  ob_our_udp_key : Z;
  ob_enabled : bool;
  ob_peers : gmap SocketAddr PeerCryptoState;
  ob_receiver_verify_keys : gmap IpAddr Z
}.
Definition layer_new (our_node_id : NodeId) (our_udp_key : Z) (enabled : bool) : ObfuscationLayer :=
  mkLayer our_node_id our_udp_key enabled ∅ ∅.

(** ** What is known of peers *)

Definition peer_of (l : ObfuscationLayer) (addr : SocketAddr) : PeerCryptoState :=
  default (mkPeerCrypto None None) (ob_peers l !! addr).
Definition set_peer (addr : SocketAddr) (p : PeerCryptoState) (l : ObfuscationLayer) : ObfuscationLayer :=
  mkLayer (ob_our_node_id l) (ob_our_udp_key l) (ob_enabled l) (<[addr := p]> (ob_peers l)) (ob_receiver_verify_keys l).
Definition register_peer_identity (addr : SocketAddr) (node_id : NodeId) (l : ObfuscationLayer) : ObfuscationLayer :=
  set_peer addr (mkPeerCrypto (Some node_id) (pc_kad_version (peer_of l addr))) l.
Definition register_peer_version (addr : SocketAddr) (kad_version : Z) (l : ObfuscationLayer) : ObfuscationLayer :=
  set_peer addr (mkPeerCrypto (pc_node_id (peer_of l addr)) (Some kad_version)) l.
Definition register_peer_key (addr : SocketAddr) (key : Z) (l : ObfuscationLayer) : ObfuscationLayer :=
  mkLayer (ob_our_node_id l) (ob_our_udp_key l) (ob_enabled l) (ob_peers l) (<[sa_ip addr := key]> (ob_receiver_verify_keys l)).
Definition receiver_verify_key_for_addr (l : ObfuscationLayer) (addr : SocketAddr) : option Z := ob_receiver_verify_keys l !! sa_ip addr.
Definition peer_state_for_addr (l : ObfuscationLayer) (addr : SocketAddr) : ResolvedPeerCryptoState :=
  let peer := peer_of l addr in
  mkResolvedPeer (ob_receiver_verify_keys l !! sa_ip addr) (pc_node_id peer) (pc_kad_version peer).

(** ** Keys *)

Definition rc4 (key data : list Z) : list Z :=
  if (zlen key =? 0) || (zlen data =? 0) then data
  else snd (rc4_apply (mkRc4 (rc4_schedule 256 0 key (Z.of_nat <$> seq 0 256) 0) 0 0) data).

Section obfuscation.
Context (md5 : list Z → list Z).
Definition derive_kad_request_key (node_id : NodeId) (random_key_part : Z) : list Z := md5 (node_id ++ to_le_bytes 2 random_key_part).
Definition derive_kad_receiver_key (receiver_verify_key random_key_part : Z) : list Z :=
  md5 (to_le_bytes 4 receiver_verify_key ++ to_le_bytes 2 random_key_part).
(** The digest folded to 32 bits, and mapped to the keys that are not zero. *)
Definition derive_udp_verify_key (our_udp_key : Z) (target_ip : Ipv4Addr) : Z :=
  let digest := md5 (octets target_ip ++ to_le_bytes 4 our_udp_key) in
  let word i := from_le_bytes (slice digest i 4) in
  let folded := Z.lxor (Z.lxor (Z.lxor (word 0) (word 4)) (word 8)) (word 12) in
  folded mod 0xFFFFFFFE + 1.
Definition verify_key_for_ip (l : ObfuscationLayer) (ip : Ipv4Addr) : Z := derive_udp_verify_key (ob_our_udp_key l) ip.

(** ** Sending *)

Definition can_use_node_id_mode (peer : ResolvedPeerCryptoState) : bool :=
  bool_decide (is_Some (rp_node_id peer)) && match rp_kad_version peer with None => true | Some version => 6 <=? version end.
Definition should_prefer_receiver_verify_key (opcode_value : Z) : bool := opcode_value =? FIREWALLED2_REQ.
Definition is_plain_protocol_marker (byte : Z) : bool := bool_decide (byte ∈ [0xE3; 0xE4; 0xE5; 0xA3; 0xC5; 0xD4]).
(** The low bits of a byte say the mode. *)
Definition marker_of (mode : KadKeyMode) (drawn : Z) : Z :=
  let marker := Z.land drawn (Z.lxor 0xFF 0x03) in
  match mode with KeyReceiverVerifyKey => Z.lor marker KAD_MARKER_RECEIVER_KEY | KeyNodeId => marker end.
(** [select_marker]: the first drawn byte that does not make a marker of a plain protocol. *)
Definition select_marker (mode : KadKeyMode) (draws : list Z) : option Z :=
  List.find (λ marker, negb (is_plain_protocol_marker marker)) (marker_of mode <$> draws).
Definition inspect_outbound (l : ObfuscationLayer) (addr : SocketAddr) (opcode_value : Z) : OutboundKadEncryptionInfo :=
  let peer := peer_state_for_addr l addr in
  let known := bool_decide (is_Some (rp_receiver_verify_key peer)) in
  let mode :=
    if negb (ob_enabled l) then OutPlaintext
    else if should_prefer_receiver_verify_key opcode_value && known then OutReceiverVerifyKey
    else if can_use_node_id_mode peer then OutNodeId
    else if known then OutReceiverVerifyKey
    else OutPlaintext in
  let sender_verify_key :=
    match mode, sa_ip addr with
    | OutPlaintext, _ => None
    | _, V4 ip => Some (verify_key_for_ip l ip)
    | _, V6 _ => None
    end in
  mkOutboundInfo mode (rp_node_id peer) (rp_kad_version peer) (rp_receiver_verify_key peer) sender_verify_key.
(** The datagram in the chosen mode, under the key. *)
Definition encrypt_with (l : ObfuscationLayer) (addr : SocketAddr) (plaintext : list Z) (random_key_part : Z) (draws : list Z)
    (receiver_verify_key : option Z) (mode : KadKeyMode) (rc4_key : list Z) : list Z :=
  match sa_ip addr with
  | V6 _ => plaintext
  | V4 ip =>
      let encrypted_tail := to_le_bytes 4 MAGICVALUE_UDP_SYNC_CLIENT ++ [UDP_PADDING_LEN] ++
        to_le_bytes 4 (default 0 receiver_verify_key) ++ to_le_bytes 4 (verify_key_for_ip l ip) ++ plaintext in
      [default 0 (select_marker mode draws)] ++ to_le_bytes 2 random_key_part ++ rc4 rc4_key encrypted_tail
  end.
(** [encrypt] reads the state of the peer twice, and others may have learned more of it in
    between: [l] and [l'] are the layer at either time. The bytes drawn for the marker end
    with one that is kept. *)
Definition encrypt {E} (l l' : ObfuscationLayer) (addr : SocketAddr) (opcode_value : Z) (plaintext : list Z) (random_key_part : Z)
    (draws : list Z) : res E (list Z) :=
  let peer := peer_state_for_addr l' addr in
  match oi_mode (inspect_outbound l addr opcode_value) with
  | OutPlaintext => Ok plaintext
  | OutNodeId =>
      node_id ← expect (rp_node_id peer);
      Ok (encrypt_with l addr plaintext random_key_part draws (rp_receiver_verify_key peer) KeyNodeId (derive_kad_request_key node_id random_key_part))
  | OutReceiverVerifyKey =>
      key ← expect (rp_receiver_verify_key peer);
      Ok (encrypt_with l addr plaintext random_key_part draws (rp_receiver_verify_key peer) KeyReceiverVerifyKey (derive_kad_receiver_key key random_key_part))
  end.

(** ** Receiving *)

Definition plaintext_result (buf : list Z) : DecryptResult := mkDecrypt buf false None false.
Definition marker_try_order (marker : Z) : list KadKeyMode :=
  if Z.land marker 0x03 =? KAD_MARKER_RECEIVER_KEY then [KeyReceiverVerifyKey; KeyNodeId] else [KeyNodeId; KeyReceiverVerifyKey].
Definition is_kad_protocol (b : Z) : bool := (b =? OP_KADEMLIAHEADER) || (b =? OP_KADEMLIAPACKEDPROT).
(** An attempt with one key: [None] goes on to the next. *)
Definition try_mode {E} (l : ObfuscationLayer) (remote_ip : Ipv4Addr) (buf : list Z) (random_key_part : Z) (mode : KadKeyMode)
    : res E (option DecryptResult) :=
  let rc4_key :=
    match mode with
    | KeyNodeId => derive_kad_request_key (ob_our_node_id l) random_key_part
    | KeyReceiverVerifyKey => derive_kad_receiver_key (verify_key_for_ip l remote_ip) random_key_part
    end in
  encrypted ← tail_from buf 3;
  let decrypted := rc4 rc4_key encrypted in
  if zlen decrypted <? 13 then Ok None
  else
    magic ← le_at decrypted 0 4;
    if negb (magic =? MAGICVALUE_UDP_SYNC_CLIENT) then Ok None
    else
      b ← byte decrypted 4;
      let padding_len := Z.land b 0x0F in
      let payload_offset := 5 + padding_len + 8 in
      if zlen decrypted <=? payload_offset then Ok None
      else
        sender_verify_key ← le_at decrypted (5 + padding_len + 4) 4;
        payload ← tail_from decrypted payload_offset;
        if match head payload with Some b => is_kad_protocol b | None => false end
        then Ok (Some (mkDecrypt payload true (Some sender_verify_key) (match mode with KeyReceiverVerifyKey => true | KeyNodeId => false end)))
        else Ok None.
Fixpoint try_modes {E} (l : ObfuscationLayer) (remote_ip : Ipv4Addr) (buf : list Z) (random_key_part : Z) (modes : list KadKeyMode)
    : res E DecryptResult :=
  match modes with
  | [] => Ok (plaintext_result buf)
  | mode :: modes' =>
      r ← try_mode l remote_ip buf random_key_part mode;
      match r with Some r => Ok r | None => try_modes l remote_ip buf random_key_part modes' end
  end.
Definition decrypt {E} (l : ObfuscationLayer) (from : SocketAddr) (buf : list Z) : res E DecryptResult :=
  if zlen buf <? 3 then Ok (plaintext_result buf)
  else
    marker ← byte buf 0;
    if is_kad_protocol marker then Ok (plaintext_result buf)
    else
      random_key_part ← le_at buf 1 2;
      match sa_ip from with
      | V6 _ => Ok (plaintext_result buf)
      | V4 remote_ip => try_modes l remote_ip buf random_key_part (marker_try_order marker)
      end.
End obfuscation.

(** ** Lemmas *)

Lemma rc4_involutive key data : rc4 key (rc4 key data) = data.
Proof.
  unfold rc4 at 2. destruct (zlen key =? 0) eqn:Hk; cbn [orb]; [unfold rc4; by rewrite Hk|].
  destruct (zlen data =? 0) eqn:Hd; [unfold rc4; by rewrite Hk, Hd|].
  unfold rc4. rewrite Hk. cbn [orb]. unfold zlen in *. rewrite length_rc4, Hd. by rewrite rc4_apply_inv.
Qed.
Lemma zlen_rc4 key data : zlen (rc4 key data) = zlen data.
Proof. unfold rc4. case_match; [done|]. unfold zlen. by rewrite length_rc4. Qed.
Lemma rc4_is_bytes key data : is_bytes data = true → is_bytes (rc4 key data) = true.
Proof.
  intros Hd. unfold rc4. case_match; [done|]. apply rc4_bytes; [|done]. apply schedule_bytes. vm_compute. reflexivity.
Qed.
Lemma verify_key_range md5 key ip : 1 ≤ derive_udp_verify_key md5 key ip ≤ 0xFFFFFFFE.
Proof. unfold derive_udp_verify_key. cbv zeta. set (f := Z.lxor _ _). pose proof (Z.mod_pos_bound f 0xFFFFFFFE ltac:(lia)). lia. Qed.

(** A marker is no byte of a plain protocol, and its low bits name its mode. *)
Definition marker_good (mode : KadKeyMode) (m : Z) : bool :=
  (0 <=? m) && (m <? 256) && negb (is_kad_protocol m) &&
  match mode, marker_try_order m with
  | KeyNodeId, KeyNodeId :: _ | KeyReceiverVerifyKey, KeyReceiverVerifyKey :: _ => true
  | _, _ => false
  end.
Lemma markers_good mode draws m : is_bytes draws = true → select_marker mode draws = Some m → marker_good mode m = true.
Proof.
  intros Hd Hm. unfold select_marker in Hm. apply find_some in Hm as [Hin Hp]. apply list_elem_of_In, list_elem_of_fmap in Hin as (d & -> & Hd').
  apply is_bytes_spec in Hd. rewrite Forall_forall in Hd. specialize (Hd d Hd').
  assert (Hall : forallb (λ n, is_plain_protocol_marker (marker_of mode (Z.of_nat n)) || marker_good mode (marker_of mode (Z.of_nat n))) (seq 0 256) = true)
    by (destruct mode; vm_compute; reflexivity).
  rewrite forallb_forall in Hall. specialize (Hall (Z.to_nat d) ltac:(apply in_seq; lia)). rewrite Z2Nat.id in Hall by lia.
  by rewrite (proj1 (negb_true_iff _) Hp) in Hall.
Qed.
Definition draws_good (draws : list Z) : Prop := is_bytes draws = true ∧ ∀ mode, is_Some (select_marker mode draws).

Section delivery.
Context (md5 : list Z → list Z).
Local Abbreviation verify_key_for_ip := (verify_key_for_ip md5).

(** A layer learns of its peers and forgets nothing. *)
Inductive learns : ObfuscationLayer → ObfuscationLayer → Prop :=
| learns_refl l : learns l l
| learns_identity l l' addr id : learns l l' → learns l (register_peer_identity addr id l')
| learns_version l l' addr v : learns l l' → learns l (register_peer_version addr v l')
| learns_key l l' addr key : learns l l' → learns l (register_peer_key addr key l').
Lemma peer_of_set addr addr' p l : peer_of (set_peer addr p l) addr' = if decide (addr = addr') then p else peer_of l addr'.
Proof. unfold peer_of, set_peer. cbn. case_decide; [subst; by rewrite lookup_insert_eq|by rewrite lookup_insert_ne]. Qed.
Lemma learns_keeps l l' addr : learns l l' →
  (is_Some (pc_node_id (peer_of l addr)) → is_Some (pc_node_id (peer_of l' addr))) ∧
  (is_Some (ob_receiver_verify_keys l !! sa_ip addr) → is_Some (ob_receiver_verify_keys l' !! sa_ip addr)) ∧
  ob_our_udp_key l' = ob_our_udp_key l.
Proof.
  induction 1 as [|l l' a id H (IH1 & IH2 & IH3)|l l' a v H (IH1 & IH2 & IH3)|l l' a key H (IH1 & IH2 & IH3)]; [done|..]; (split; [|split; [|exact IH3]]).
  - intros Hs. unfold register_peer_identity. rewrite peer_of_set. case_decide; [by eexists|by apply IH1].
  - exact IH2.
  - intros Hs. unfold register_peer_version. rewrite peer_of_set. case_decide as Ha; [|by apply IH1]. cbn. rewrite Ha. by apply IH1.
  - exact IH2.
  - exact IH1.
  - intros Hs. unfold register_peer_key. cbn. destruct (decide (sa_ip a = sa_ip addr)) as [->|Hn]; [rewrite lookup_insert_eq; by eexists|].
    rewrite lookup_insert_ne by done. by apply IH2.
Qed.

(** The sender knows what its mode needs of a receiver that sees it at [ip]. *)
Definition knows (l' receiver : ObfuscationLayer) (ip : Ipv4Addr) (addr : SocketAddr) (mode : OutboundKadEncryptionMode) : Prop :=
  match mode with
  | OutPlaintext => True
  | OutNodeId => ∀ id, pc_node_id (peer_of l' addr) = Some id → id = ob_our_node_id receiver
  | OutReceiverVerifyKey => ∀ key, ob_receiver_verify_keys l' !! sa_ip addr = Some key → key = verify_key_for_ip receiver ip
  end.

Lemma mode_known l l' addr op : learns l l' →
  match oi_mode (inspect_outbound md5 l addr op) with
  | OutPlaintext => True
  | OutNodeId => is_Some (pc_node_id (peer_of l' addr))
  | OutReceiverVerifyKey => is_Some (ob_receiver_verify_keys l' !! sa_ip addr)
  end.
Proof.
  intros Hl. destruct (learns_keeps l l' addr Hl) as (H1 & H2 & _). unfold inspect_outbound. cbn [oi_mode].
  unfold can_use_node_id_mode. cbn [peer_state_for_addr rp_receiver_verify_key rp_node_id rp_kad_version].
  destruct (negb (ob_enabled l)); [done|].
  destruct (bool_decide_reflect (is_Some (ob_receiver_verify_keys l !! sa_ip addr))) as [Hk|Hk]; destruct (should_prefer_receiver_verify_key op); cbn [andb]; try (by apply H2);
    (destruct (bool_decide_reflect (is_Some (pc_node_id (peer_of l addr)))) as [Hi|Hi]; cbn [andb]; [destruct (match pc_kad_version _ with Some _ => _ | None => _ end)|]); by auto.
Qed.

(** What a mode needs is known, so that no datagram fails. *)
Lemma encrypt_total {E} l l' addr op plaintext r draws : learns l l' → ∃ bytes, encrypt (E:=E) md5 l l' addr op plaintext r draws = Ok bytes.
Proof.
  intros Hl. pose proof (mode_known l l' addr op Hl) as Hm. unfold encrypt. cbn [peer_state_for_addr rp_node_id rp_receiver_verify_key].
  destruct (oi_mode _); [by eexists|destruct Hm as [? ->]; by eexists..].
Qed.
(** A datagram under the key that the receiver tries first is read. *)
Lemma encrypted_read {E} (l receiver : ObfuscationLayer) ip_s ip addr plaintext r draws rk mode key b0 rest :
  sa_ip addr = V4 ip → plaintext = b0 :: rest → is_kad_protocol b0 = true → 0 ≤ r < 2 ^ 16 → draws_good draws →
  key = match mode with KeyNodeId => derive_kad_request_key md5 (ob_our_node_id receiver) r
                      | KeyReceiverVerifyKey => derive_kad_receiver_key md5 (verify_key_for_ip receiver ip_s) r end →
  ∀ port, decrypt (E:=E) md5 receiver (mkSocketAddr (V4 ip_s) port) (encrypt_with md5 l addr plaintext r draws rk mode key) =
    Ok (mkDecrypt plaintext true (Some (verify_key_for_ip l ip)) (match mode with KeyReceiverVerifyKey => true | KeyNodeId => false end)).
Proof.
  intros Ha Hp Hk Hr [Hd Hs] Hkey port. unfold encrypt_with. rewrite Ha. destruct (Hs mode) as [m Hm]. rewrite Hm. change (default 0 (Some m)) with m.
  pose proof (markers_good mode draws m Hd Hm) as Hg. unfold marker_good in Hg. bool_hyps.
  set (tail := to_le_bytes 4 MAGICVALUE_UDP_SYNC_CLIENT ++ _).
  assert (Ht : zlen tail = 13 + zlen plaintext) by (unfold tail; rewrite !zlen_app, !zlen_le; change (zlen [UDP_PADDING_LEN]) with 1; lia).
  assert (Hp1 : 0 < zlen plaintext) by (subst plaintext; rewrite zlen_cons; pose proof (zlen_nonneg rest); lia).
  unfold decrypt. rewrite (proj2 (Z.ltb_ge _ 3)) by (rewrite !zlen_app, zlen_le, zlen_rc4, Ht; change (zlen [m]) with 1; lia).
  change (byte ([m] ++ _) 0) with (Ok (E:=E) m). cbn [mbind res_bind]. rewrite H1. rewrite (le_mid [m] 2) by (done || lia). cbn [mbind res_bind sa_ip].
  assert (Ho : ∃ ms, marker_try_order m = mode :: ms) by (destruct mode, (marker_try_order m) as [|[]]; done || by eexists). destruct Ho as [ms ->].
  cbn [try_modes]. unfold try_mode. rewrite <- Hkey. rewrite (app_assoc [m]), tail_mid by (rewrite zlen_app, zlen_le; done). cbn [mbind res_bind].
  rewrite rc4_involutive, Ht, (proj2 (Z.ltb_ge _ 13)) by lia.
  replace (le_at tail 0 4) with (Ok (E:=E) MAGICVALUE_UDP_SYNC_CLIENT) by (symmetry; by apply le_front). cbn [mbind res_bind]. rewrite Z.eqb_refl. cbn [negb].
  change (byte tail 4) with (Ok (E:=E) 0). cbn [mbind res_bind]. change (Z.land 0 0x0F) with 0. rewrite (proj2 (Z.leb_gt _ _)) by lia.
  pose proof (verify_key_range md5 (ob_our_udp_key l) ip) as Hv.
  assert (Hkey' : le_at (E:=E) tail (5 + 0 + 4) 4 = Ok (verify_key_for_ip l ip)).
  { unfold tail. rewrite (app_assoc (to_le_bytes 4 _) [_]), (app_assoc (_ ++ [_])). apply le_mid; [by rewrite !zlen_app, !zlen_le|done|]. unfold KadObfuscation.verify_key_for_ip. lia. }
  rewrite Hkey'. cbn [mbind res_bind].
  assert (Hpay : tail_from (E:=E) tail (5 + 0 + 8) = Ok plaintext).
  { unfold tail. rewrite (app_assoc (to_le_bytes 4 _) [_]), (app_assoc (_ ++ [_])), (app_assoc ((_ ++ [_]) ++ _)). apply tail_mid. by rewrite !zlen_app, !zlen_le. }
  rewrite Hpay. cbn [mbind res_bind]. rewrite Hp. cbn [head]. by rewrite Hk.
Qed.
Lemma plaintext_read {E} receiver from b0 rest : is_kad_protocol b0 = true →
  decrypt (E:=E) md5 receiver from (b0 :: rest) = Ok (plaintext_result (b0 :: rest)).
Proof. intros Hk. unfold decrypt. case_match; [done|]. change (byte (b0 :: rest) 0) with (Ok (E:=E) b0). cbn [mbind res_bind]. by rewrite Hk. Qed.

(** What the receiver makes of a datagram in a mode. *)
Definition read_as (mode : OutboundKadEncryptionMode) (key : Z) (plaintext : list Z) : DecryptResult :=
  match mode with
  | OutPlaintext => plaintext_result plaintext
  | OutNodeId => mkDecrypt plaintext true (Some key) false
  | OutReceiverVerifyKey => mkDecrypt plaintext true (Some key) true
  end.
Lemma encrypt_decrypt {E} l l' receiver ip_s port_s ip port op b0 rest r draws :
  let addr := mkSocketAddr (V4 ip) port in let mode := oi_mode (inspect_outbound md5 l addr op) in
  learns l l' → knows l' receiver ip_s addr mode → is_kad_protocol b0 = true → 0 ≤ r < 2 ^ 16 → draws_good draws →
  ∃ bytes, encrypt (E:=E) md5 l l' addr op (b0 :: rest) r draws = Ok bytes ∧
    decrypt (E:=E) md5 receiver (mkSocketAddr (V4 ip_s) port_s) bytes = Ok (read_as mode (verify_key_for_ip l ip) (b0 :: rest)).
Proof.
  intros addr mode Hl Hk Hb Hr Hd. pose proof (mode_known l l' addr op Hl) as Hm. unfold encrypt. fold mode in Hm |- *. cbn [peer_state_for_addr rp_node_id rp_receiver_verify_key].
  destruct mode; cbn [knows read_as] in *.
  - eexists. split; [done|]. by apply plaintext_read.
  - destruct Hm as [id Hid]. rewrite Hid. cbn [expect mbind res_bind]. eexists. split; [done|]. by eapply encrypted_read; rewrite <- ?(Hk id).
  - destruct Hm as [key Hkey]. rewrite Hkey. cbn [expect mbind res_bind]. eexists. split; [done|]. by eapply encrypted_read; rewrite <- ?(Hk key).
Qed.

(** What opens: the bytes of a Kad packet, with a key of 32 bits. *)
Definition opened (d : DecryptResult) : Prop :=
  is_bytes (de_data d) = true ∧ de_was_obfuscated d = true ∧ (∃ key, de_sender_verify_key d = Some key ∧ 0 ≤ key < 2 ^ 32) ∧
  ∃ b rest, de_data d = b :: rest ∧ is_kad_protocol b = true.
Lemma try_mode_safe {E} l ip buf r mode : is_bytes buf = true → 3 ≤ zlen buf →
  ∃ o, try_mode (E:=E) md5 l ip buf r mode = Ok o ∧ ∀ d, o = Some d → opened d.
Proof.
  intros Hb Hz. unfold try_mode. rewrite tail_from_ok by lia. cbn [mbind res_bind]. set (key := match mode with KeyNodeId => _ | _ => _ end).
  pose proof (rc4_is_bytes key (drop (Z.to_nat 3) buf) ltac:(by apply is_bytes_drop)) as Hd. set (decrypted := rc4 key _) in *. clearbody decrypted.
  case_match eqn:H13; [by eexists|]. bool_hyps. rewrite le_at_ok by lia. cbn [mbind res_bind]. case_match; [by eexists|].
  rewrite byte_ok by lia. cbn [mbind res_bind]. set (x := nth (Z.to_nat 4) decrypted 0). pose proof (Z.land_nonneg x 15) as [_ Hx]. specialize (Hx ltac:(by right)).
  case_match eqn:Hlen; [by eexists|]. bool_hyps. rewrite le_at_ok by lia. cbn [mbind res_bind]. rewrite tail_from_ok by lia. cbn [mbind res_bind].
  case_match eqn:Hh; [|by eexists]. eexists. split; [done|]. intros d [= <-]. split; [by apply is_bytes_drop|]. split; [done|]. split.
  - eexists. split; [done|]. pose proof (from_le_bytes_bound (slice decrypted (5 + Z.land x 15 + 4) 4) ltac:(unfold slice; by apply is_bytes_take, is_bytes_drop)) as Hk.
    split; [lia|]. eapply Z.lt_le_trans; [apply Hk|]. change (2 ^ 32) with (256 ^ 4). apply Z.pow_le_mono_r; [lia|]. unfold zlen, slice. rewrite length_take. lia.
  - cbn [de_data]. destruct (drop _ decrypted) as [|b rest]; [done|]. by exists b, rest.
Qed.
(** Reading any datagram gives its bytes, or those of a Kad packet after an envelope that one of the two keys opens. *)
Lemma decrypt_safe {E} l from buf : is_bytes buf = true →
  ∃ d, decrypt (E:=E) md5 l from buf = Ok d ∧ (d = plaintext_result buf ∨ opened d).
Proof.
  intros Hb. unfold decrypt. case_match; [eexists; split; [done|by left]|]. bool_hyps. rewrite byte_ok by lia. cbn [mbind res_bind].
  case_match; [eexists; split; [done|by left]|]. rewrite le_at_ok by lia. cbn [mbind res_bind]. destruct (sa_ip from); [|eexists; split; [done|by left]].
  induction (marker_try_order _) as [|mode modes IH]; cbn [try_modes]; [eexists; split; [done|by left]|].
  destruct (try_mode_safe (E:=E) l ip buf (from_le_bytes (slice buf 1 2)) mode Hb ltac:(lia)) as ([d|] & -> & Hd); cbn [mbind res_bind]; [|done].
  exists d. split; [done|]. right. by apply Hd.
Qed.

(** Datagrams are delivered, and prove who sent them. Whatever form a node chooses for a datagram, while others may still be learning about
    its peers, it does not fail, and a node whose identity or key the sender knows, as that form needs, reads the same packet from it, with the
    sender's own key for the receiver, and reports its own key as proved exactly when the form uses it; once the receiver has learned that key,
    whatever it sends back under it proves the key to the first node. *)
Lemma datagrams_delivered {E} l l' receiver ip_s port_s ip port op op' b0 rest b1 rest' r draws :
  let sender_addr := mkSocketAddr (V4 ip_s) port_s in let addr := mkSocketAddr (V4 ip) port in
  let mode := oi_mode (inspect_outbound md5 l addr op) in let key := verify_key_for_ip l ip in
  let answering := register_peer_key sender_addr key receiver in let mode' := oi_mode (inspect_outbound md5 answering sender_addr op') in
  learns l l' → knows l' receiver ip_s addr mode → is_kad_protocol b0 = true → is_kad_protocol b1 = true → 0 ≤ r < 2 ^ 16 → draws_good draws →
  (∃ bytes, encrypt (E:=E) md5 l l' addr op (b0 :: rest) r draws = Ok bytes ∧
     decrypt (E:=E) md5 receiver sender_addr bytes = Ok (read_as mode key (b0 :: rest))) ∧ 1 ≤ key < 2 ^ 32 ∧
  (mode' = OutReceiverVerifyKey → ∃ bytes, encrypt (E:=E) md5 answering answering sender_addr op' (b1 :: rest') r draws = Ok bytes ∧
     decrypt (E:=E) md5 l addr bytes = Ok (mkDecrypt (b1 :: rest') true (Some (verify_key_for_ip receiver ip_s)) true)).
Proof.
  intros sender_addr addr mode key answering mode' Hl Hk Hb0 Hb1 Hr Hd. split; [by apply encrypt_decrypt|]. split.
  { pose proof (verify_key_range md5 (ob_our_udp_key l) ip). unfold key, KadObfuscation.verify_key_for_ip. lia. }
  intros Hm. destruct (encrypt_decrypt (E:=E) answering answering l ip port ip_s port_s op' b1 rest' r draws) as (bytes & He & Hde); [constructor| |done..|].
  - fold sender_addr mode'. rewrite Hm. intros k. cbn. rewrite lookup_insert_eq. by intros [= <-].
  - exists bytes. split; [done|]. unfold addr. rewrite Hde. fold sender_addr mode'. by rewrite Hm.
Qed.
End delivery.

