(* ===== verification/Rpc.v ===== *)
(** * The Kad RPC manager

    [overlord-kad-net/src/rpc.rs] with its modules [config.rs], [observability.rs],
    [outbound.rs], [packet_info.rs], [peer_state.rs] and [receive_loop.rs], and
    [rate_limit.rs]: datagrams become packets, answers meet the requests that wait for
    them, packets that answer nothing are dropped and the others passed on.

    Tasks share the manager: a step is what one of them does under its locks, and any order
    of steps may occur. A request is its number, and what the manager hands out is logged:
    the answer given to a request, the packets broadcast, the datagrams sent, the addresses
    reported as flooding. A time is an argument, one reading for each use of the clock; the
    iteration over the table of requests takes the order of the entries as an argument. The
    dumps of packets and the snapshot of the counters are left out. *)

From S2P Require Import Prelude F64 Net NodeId PacketTypes Packet Tracker PeerTransport KadObfuscation.

(** ** The rate limiter *)

Record RateLimiter : Type := mkLimiter { rl_max_pps : Z; rl_tokens : spec_float; rl_last_refill : Z }.
Definition limiter_new (max_pps now : Z) : RateLimiter := mkLimiter max_pps (f64_of max_pps) now.
Definition try_acquire (l : RateLimiter) (now : Z) : RateLimiter * bool :=
  if rl_max_pps l =? 0 then (l, true)
  else
    let elapsed := as_secs_f64 (duration_since now (rl_last_refill l)) in
    let pps := f64_of (rl_max_pps l) in
    let tokens := f64_min (f64_add (rl_tokens l) (f64_mul elapsed pps)) pps in
    if SFleb (f64_of 1) tokens then (mkLimiter (rl_max_pps l) (f64_sub tokens (f64_of 1)) now, true)
    else (mkLimiter (rl_max_pps l) tokens now, false).
(** [acquire] tries at the times given; when they run out it is still waiting. *)
Fixpoint acquire_loop (l : RateLimiter) (times : list Z) : RateLimiter * bool :=
  match times with
  | [] => (l, false)
  | now :: times' => match try_acquire l now with (l', true) => (l', true) | (l', false) => acquire_loop l' times' end
  end.
Definition acquire (l : RateLimiter) (times : list Z) : RateLimiter * bool :=
  if rl_max_pps l =? 0 then (l, true) else acquire_loop l times.

(** ** Configuration *)

Inductive RpcWorkClass : Type := WInteractive | WHarvest | WMaintenance | WPublish.
#[export] Instance RpcWorkClass_eq_dec : EqDecision RpcWorkClass.
Proof. solve_decision. Defined.
#[export] Instance RpcWorkClass_countable : Countable RpcWorkClass.
Proof.
  refine (inj_countable' (λ c, match c with WInteractive => 0 | WHarvest => 1 | WMaintenance => 2 | WPublish => 3 end%nat)
    (λ n, match n with 0 => WInteractive | 1 => WHarvest | 2 => WMaintenance | _ => WPublish end%nat) _). by intros [].
Defined.
Record RpcClassBudgetConfig : Type := mkBudgets {
  interactive_max_outbound_pps : Z;
  harvest_max_outbound_pps : Z;
  maintenance_max_outbound_pps : Z;
  publish_max_outbound_pps : Z
}.
Definition max_outbound_pps_for (b : RpcClassBudgetConfig) (work_class : RpcWorkClass) : Z :=
  match work_class with
  | WInteractive => interactive_max_outbound_pps b
  | WHarvest => harvest_max_outbound_pps b
  | WMaintenance => maintenance_max_outbound_pps b
  | WPublish => publish_max_outbound_pps b
  end.
Definition budgets_default : RpcClassBudgetConfig := mkBudgets 4 1 1 1.
(** [massive_flood_handler] says whether there is one. *)
Record RpcConfig : Type := mkRpcConfig {
  rc_max_outbound_pps : Z;
  rc_class_budgets : RpcClassBudgetConfig;
  rc_max_inbound_per_ip : Z;
  rc_max_inbound_search_res_per_ip : Z;
  rc_flood_window : Z;
  rc_request_tracking_window : Z;
  rc_massive_flood_handler : bool
}.
Definition rpc_config_default : RpcConfig := mkRpcConfig 8 budgets_default 20 256 NANOS_PER_SEC (60 * NANOS_PER_SEC) false.

(** ** Counters *)

Definition incr64 (n : Z) : Z := (n + 1) mod 2 ^ 64.
Record RpcTrackerBucketCounters : Type := mkBucketCounters { accepted_requests : Z; tracker_drops : Z; tracker_massive_drops : Z }.
Record RpcResponseCounters : Type := mkResponseCounters {
  matched_pending : Z;
  matched_tracked : Z;
  dropped_unrequested : Z;
  accepted_unsolicited : Z
}.
Record RpcWorkClassCounters : Type := mkClassCounters { sent_packets : Z; delayed_packets : Z; total_wait_millis : Z; last_sent_at : option Z }.
Record RpcObservabilityState : Type := mkObservability {
  os_decode_failures : Z;
  os_tracker_buckets : gmap PacketTrackerBucket RpcTrackerBucketCounters;
  os_response_opcodes : gmap Z RpcResponseCounters;
  os_work_classes : gmap RpcWorkClass RpcWorkClassCounters
}.
Definition observability_default : RpcObservabilityState := mkObservability 0 ∅ ∅ ∅.
Definition record_decode_failure (o : RpcObservabilityState) : RpcObservabilityState :=
  mkObservability (incr64 (os_decode_failures o)) (os_tracker_buckets o) (os_response_opcodes o) (os_work_classes o).
Definition record_tracker_action (bucket : PacketTrackerBucket) (action : PacketTrackerAction) (o : RpcObservabilityState) : RpcObservabilityState :=
  let c := default (mkBucketCounters 0 0 0) (os_tracker_buckets o !! bucket) in
  let c :=
    match action with
    | Allow => mkBucketCounters (incr64 (accepted_requests c)) (tracker_drops c) (tracker_massive_drops c)
    | Drop => mkBucketCounters (accepted_requests c) (incr64 (tracker_drops c)) (tracker_massive_drops c)
    | MassiveDrop => mkBucketCounters (accepted_requests c) (tracker_drops c) (incr64 (tracker_massive_drops c))
    end in
  mkObservability (os_decode_failures o) (<[bucket := c]> (os_tracker_buckets o)) (os_response_opcodes o) (os_work_classes o).
Definition record_response (f : RpcResponseCounters → RpcResponseCounters) (opcode_value : Z) (o : RpcObservabilityState) : RpcObservabilityState :=
  mkObservability (os_decode_failures o) (os_tracker_buckets o)
    (<[opcode_value := f (default (mkResponseCounters 0 0 0 0) (os_response_opcodes o !! opcode_value))]> (os_response_opcodes o)) (os_work_classes o).
Definition record_response_matched_pending : Z → RpcObservabilityState → RpcObservabilityState :=
  record_response (λ c, mkResponseCounters (incr64 (matched_pending c)) (matched_tracked c) (dropped_unrequested c) (accepted_unsolicited c)).
Definition record_response_matched_tracked : Z → RpcObservabilityState → RpcObservabilityState :=
  record_response (λ c, mkResponseCounters (matched_pending c) (incr64 (matched_tracked c)) (dropped_unrequested c) (accepted_unsolicited c)).
Definition record_response_dropped_unrequested : Z → RpcObservabilityState → RpcObservabilityState :=
  record_response (λ c, mkResponseCounters (matched_pending c) (matched_tracked c) (incr64 (dropped_unrequested c)) (accepted_unsolicited c)).
Definition record_response_accepted_unsolicited : Z → RpcObservabilityState → RpcObservabilityState :=
  record_response (λ c, mkResponseCounters (matched_pending c) (matched_tracked c) (dropped_unrequested c) (incr64 (accepted_unsolicited c))).
Definition record_work_class_send (work_class : RpcWorkClass) (wait_millis utc_now : Z) (o : RpcObservabilityState) : RpcObservabilityState :=
  let c := default (mkClassCounters 0 0 0 None) (os_work_classes o !! work_class) in
  mkObservability (os_decode_failures o) (os_tracker_buckets o) (os_response_opcodes o)
    (<[work_class := mkClassCounters (incr64 (sent_packets c)) (if 0 <? wait_millis then incr64 (delayed_packets c) else delayed_packets c)
       ((total_wait_millis c + wait_millis) mod 2 ^ 64) (Some utc_now)]> (os_work_classes o)).

(** ** What a packet tells *)

Record InboundKadPacketInfo : Type := mkInbound { in_tracker_bucket : option PacketTrackerBucket; in_peer_id : option NodeId; in_kad_version : option Z }.
Definition tracker_bucket_for_opcode (op : Z) : option PacketTrackerBucket :=
  if op =? BOOTSTRAP_REQ then Some BootstrapReq_
  else if op =? HELLO_REQ then Some HelloReq_
  else if op =? REQ then Some FindNodeReq_
  else if (op =? SEARCH_KEY_REQ) || (op =? SEARCH_SOURCE_REQ) || (op =? SEARCH_NOTES_REQ) then Some SearchReq_
  else if op =? PUBLISH_KEY_REQ then Some PublishKeyReq_
  else if op =? PUBLISH_SOURCE_REQ then Some PublishSourceReq_
  else if op =? PUBLISH_NOTES_REQ then Some PublishNotesReq_
  else if (op =? FIREWALLED_REQ) || (op =? FIREWALLED2_REQ) then Some FirewalledReq_
  else if op =? FINDBUDDY_REQ then Some FindBuddyReq_
  else if op =? CALLBACK_REQ then Some CallbackReq_
  else if op =? PING then Some PingReq_
  else if op =? SEARCH_RES then Some SearchRes_
  else None.
Definition inspect_inbound_packet (packet : KadPacket) : InboundKadPacketInfo :=
  match packet with
  | PBootstrapRes p => mkInbound None (Some (br_sender_id p)) (Some (br_sender_version p))
  | PHelloReq p => mkInbound (Some HelloReq_) (Some (hq_node_id p)) (Some (hq_version p))
  | PHelloRes p => mkInbound None (Some (hr_node_id p)) (Some (hr_version p))
  | PHelloResAck p => mkInbound None (Some (ha_node_id p)) None
  | PSearchRes p => mkInbound (Some SearchRes_) (Some (sr_sender_id p)) None
  | _ => mkInbound (tracker_bucket_for_opcode (opcode packet)) None None
  end.
Definition should_learn_sender_verify_key (op : Z) : bool :=
  bool_decide (op ∈ [BOOTSTRAP_REQ; BOOTSTRAP_RES; HELLO_REQ; HELLO_RES; HELLO_RES_ACK; REQ; SEARCH_KEY_REQ; SEARCH_SOURCE_REQ; SEARCH_NOTES_REQ;
    PUBLISH_KEY_REQ; PUBLISH_SOURCE_REQ; PUBLISH_NOTES_REQ; PUBLISH_RES; PUBLISH_RES_ACK; FIREWALLED_REQ; FIREWALLED2_REQ; FINDBUDDY_REQ;
    FINDBUDDY_RES; CALLBACK_REQ; PING]).
Definition is_tracked_response_opcode (op : Z) : bool :=
  bool_decide (op ∈ [BOOTSTRAP_RES; HELLO_RES; HELLO_RES_ACK; RES; PUBLISH_RES; PUBLISH_RES_ACK; FIREWALLED_RES; FIREWALLED_ACK_RES; FINDBUDDY_RES; PONG]).
(** [tracked_request_opcode_for_response]: the requests that a response may answer, and
    the one that it uses up. *)
Definition answered_by (response_opcode : Z) : list Z :=
  if response_opcode =? BOOTSTRAP_RES then [BOOTSTRAP_REQ]
  else if response_opcode =? HELLO_RES then [HELLO_REQ]
  else if response_opcode =? HELLO_RES_ACK then [HELLO_RES]
  else if response_opcode =? RES then [REQ]
  else if response_opcode =? PUBLISH_RES then [PUBLISH_KEY_REQ; PUBLISH_SOURCE_REQ; PUBLISH_NOTES_REQ]
  else if (response_opcode =? FIREWALLED_RES) || (response_opcode =? FIREWALLED_ACK_RES) then [FIREWALLED_REQ; FIREWALLED2_REQ]
  else if response_opcode =? FINDBUDDY_RES then [FINDBUDDY_REQ]
  else if response_opcode =? PONG then [PING]
  else [].
Definition tracked_request_opcode_for_response (t : OutboundRequestTracker) (clock : nat → Z) (ip : IpAddr) (response_opcode : Z)
    : OutboundRequestTracker * option Z :=
  if response_opcode =? PUBLISH_RES then
    match find_any t clock ip (answered_by response_opcode) false with
    | (t, None) => (t, None)
    | (t, Some matched) => (fst (outbound_contains t (clock 3%nat) ip matched true), Some matched)
    end
  else find_any t clock ip (answered_by response_opcode) true.

(** ** The state *)

Record PendingEntry : Type := mkPendingEntry { pd_remote_addr : SocketAddr; pd_request_opcode : Z; pd_expected_opcode : Z; pd_created_at : Z }.
Record ReceivedKadPacket : Type := mkReceived {
  rk_packet : KadPacket;
  rk_from : SocketAddr;
  rk_was_obfuscated : bool;
  rk_sender_verify_key : option Z;
  rk_receiver_verify_key_valid : bool
}.
(** The limiters: the global one, and one for each class. *)
Record rpc_limiters : Type := mkLimiters { lm_global : RateLimiter; lm_class : RpcWorkClass → RateLimiter }.
(** What the manager has handed out: datagrams, answers to requests, broadcast packets, and
    the addresses reported as flooding. *)
Record rpc_log : Type := mkLog {
  lg_sent : list (SocketAddr * list Z);
  lg_answers : list (Z * KadPacket);
  lg_unsolicited : list ReceivedKadPacket;
  lg_flooding : list SocketAddr
}.
Record RpcInner : Type := mkRpcInner {
  ri_obfuscation : ObfuscationLayer;
  ri_limiters : rpc_limiters;
  ri_tracker : PacketTracker;
  ri_outbound_tracker : OutboundRequestTracker;
  ri_pending : gmap Z PendingEntry;
  ri_next_id : Z;
  ri_observability : RpcObservabilityState;
  ri_massive_flood_handler : bool;
  ri_log : rpc_log
}.
Definition rpc_new (obfuscation : ObfuscationLayer) (config : RpcConfig) (now : Z) : RpcInner :=
  mkRpcInner obfuscation
    (mkLimiters (limiter_new (rc_max_outbound_pps config) now) (λ c, limiter_new (max_outbound_pps_for (rc_class_budgets config) c) now))
    (tracker_new (rc_max_inbound_per_ip config) (rc_max_inbound_search_res_per_ip config) (rc_flood_window config) (rc_request_tracking_window config))
    (outbound_new (180 * NANOS_PER_SEC)) ∅ 0 observability_default (rc_massive_flood_handler config) (mkLog [] [] [] []).
Definition set_obfuscation (f : ObfuscationLayer → ObfuscationLayer) (r : RpcInner) : RpcInner :=
  mkRpcInner (f (ri_obfuscation r)) (ri_limiters r) (ri_tracker r) (ri_outbound_tracker r) (ri_pending r) (ri_next_id r) (ri_observability r) (ri_massive_flood_handler r) (ri_log r).
Definition set_limiters (x : rpc_limiters) (r : RpcInner) : RpcInner :=
  mkRpcInner (ri_obfuscation r) x (ri_tracker r) (ri_outbound_tracker r) (ri_pending r) (ri_next_id r) (ri_observability r) (ri_massive_flood_handler r) (ri_log r).
Definition set_tracker (x : PacketTracker) (r : RpcInner) : RpcInner :=
  mkRpcInner (ri_obfuscation r) (ri_limiters r) x (ri_outbound_tracker r) (ri_pending r) (ri_next_id r) (ri_observability r) (ri_massive_flood_handler r) (ri_log r).
Definition set_outbound_tracker (x : OutboundRequestTracker) (r : RpcInner) : RpcInner :=
  mkRpcInner (ri_obfuscation r) (ri_limiters r) (ri_tracker r) x (ri_pending r) (ri_next_id r) (ri_observability r) (ri_massive_flood_handler r) (ri_log r).
Definition set_pending_requests (f : gmap Z PendingEntry → gmap Z PendingEntry) (next_id : Z) (r : RpcInner) : RpcInner :=
  mkRpcInner (ri_obfuscation r) (ri_limiters r) (ri_tracker r) (ri_outbound_tracker r) (f (ri_pending r)) next_id (ri_observability r) (ri_massive_flood_handler r) (ri_log r).
Definition observe (f : RpcObservabilityState → RpcObservabilityState) (r : RpcInner) : RpcInner :=
  mkRpcInner (ri_obfuscation r) (ri_limiters r) (ri_tracker r) (ri_outbound_tracker r) (ri_pending r) (ri_next_id r) (f (ri_observability r)) (ri_massive_flood_handler r) (ri_log r).
Definition log (f : rpc_log → rpc_log) (r : RpcInner) : RpcInner :=
  mkRpcInner (ri_obfuscation r) (ri_limiters r) (ri_tracker r) (ri_outbound_tracker r) (ri_pending r) (ri_next_id r) (ri_observability r) (ri_massive_flood_handler r) (f (ri_log r)).
Definition log_sent (d : SocketAddr * list Z) (l : rpc_log) : rpc_log := mkLog (lg_sent l ++ [d]) (lg_answers l) (lg_unsolicited l) (lg_flooding l).
Definition log_answer (a : Z * KadPacket) (l : rpc_log) : rpc_log := mkLog (lg_sent l) (lg_answers l ++ [a]) (lg_unsolicited l) (lg_flooding l).
Definition log_unsolicited (p : ReceivedKadPacket) (l : rpc_log) : rpc_log := mkLog (lg_sent l) (lg_answers l) (lg_unsolicited l ++ [p]) (lg_flooding l).
Definition log_flooding (a : SocketAddr) (l : rpc_log) : rpc_log := mkLog (lg_sent l) (lg_answers l) (lg_unsolicited l) (lg_flooding l ++ [a]).

(** ** Requests and sends *)

Inductive NetError : Type := NIo | NProto (e : ProtoError) | NTimeout (addr : SocketAddr) (secs : Z) | NChannelClosed.

Section rpc.
Context (md5 : list Z → list Z) (windows_1252 : list Z → list Z) (zlib_decode : list Z → option (list Z)).

(** [request_with_class] up to the send: its number and its entry in the table. *)
Definition begin_request (addr : SocketAddr) (packet : KadPacket) (expected_opcode now : Z) (r : RpcInner) : RpcInner * Z :=
  let id := ri_next_id r in
  (set_pending_requests (<[id := mkPendingEntry addr (opcode packet) expected_opcode now]>) (incr64 id) r, id).
(** Its end without an answer: the send failed, or the time is over. *)
Definition end_request (id : Z) (r : RpcInner) : RpcInner := set_pending_requests (delete id) (ri_next_id r) r.
(** [send_with_class] waits for the budget of the class, then for the global one; [times]
    are those of the attempts. *)
Definition acquire_class (work_class : RpcWorkClass) (times : list Z) (r : RpcInner) : RpcInner * bool :=
  let m := ri_limiters r in
  let '(l, granted) := acquire (lm_class m work_class) times in
  (set_limiters (mkLimiters (lm_global m) (λ c, if decide (c = work_class) then l else lm_class m c)) r, granted).
Definition acquire_global (times : list Z) (r : RpcInner) : RpcInner * bool :=
  let m := ri_limiters r in
  let '(l, granted) := acquire (lm_global m) times in
  (set_limiters (mkLimiters l (lm_class m)) r, granted).
(** What a send uses of the clock and of chance, and whether the socket fails. *)
Record send_env : Type := mkSendEnv { se_wait_millis : Z; se_utc_now : Z; se_now : Z; se_now' : Z; se_random_key_part : Z; se_draws : list Z; se_fails : bool }.
(** [send_with_class] after the budgets. *)
Definition dispatch (addr : SocketAddr) (packet : KadPacket) (work_class : RpcWorkClass) (env : send_env) (r : RpcInner) : res NetError (RpcInner * option NetError) :=
  let r := observe (record_work_class_send work_class (se_wait_millis env) (se_utc_now env)) r in
  match encode packet with
  | Err e => Ok (r, Some (NProto e))
  | Panic => Panic
  | Ok encoded =>
      let l := ri_obfuscation r in
      wire ← encrypt md5 l l addr (opcode packet) encoded (se_random_key_part env) (se_draws env);
      let r := set_outbound_tracker (outbound_record (ri_outbound_tracker r) (se_now env) (se_now' env) (sa_ip addr) (opcode packet)) r in
      if se_fails env then Ok (r, Some NIo) else Ok (log (log_sent (addr, wire)) r, None)
  end.
(** [send_with_class] when no other task runs in between: [None] is still waiting. *)
Definition send_with_class (addr : SocketAddr) (packet : KadPacket) (work_class : RpcWorkClass) (times times' : list Z) (env : send_env) (r : RpcInner)
    : res NetError (RpcInner * option (option NetError)) :=
  match acquire_class work_class times r with
  | (r, false) => Ok (r, None)
  | (r, true) =>
      match acquire_global times' r with
      | (r, false) => Ok (r, None)
      | (r, true) => '((r, e) : RpcInner * option NetError) ← dispatch addr packet work_class env r; Ok (r, Some e)
      end
  end.

(** ** The receive loop *)

(** [min_by_key]: the first of the least. *)
Fixpoint min_by_key {T} (key : T → Z) (l : list T) : option T :=
  match l with
  | [] => None
  | x :: l' => match min_by_key key l' with Some y => if key x <=? key y then Some x else Some y | None => Some x end
  end.
Definition created (e : Z * PendingEntry) : Z := pd_created_at (snd e).
Definition exact_match (from : SocketAddr) (response_opcode : Z) (e : Z * PendingEntry) : bool :=
  bool_decide (pd_remote_addr (snd e) = from) && (pd_expected_opcode (snd e) =? response_opcode).
Definition ip_match (from : SocketAddr) (response_opcode : Z) (e : Z * PendingEntry) : bool :=
  bool_decide (sa_ip (pd_remote_addr (snd e)) = sa_ip from) && (pd_expected_opcode (snd e) =? response_opcode).
(** The request that a response answers, in the order [iter] of the table. *)
Definition match_pending (iter : list (Z * PendingEntry)) (from : SocketAddr) (response_opcode : Z) : option Z :=
  match min_by_key created (List.filter (exact_match from response_opcode) iter) with
  | Some (id, _) => Some id
  | None => fst <$> min_by_key created (List.filter (ip_match from response_opcode) iter)
  end.
(** What a packet teaches of its sender. *)
Definition learn (from : SocketAddr) (packet : KadPacket) (sender_verify_key : option Z) (l : ObfuscationLayer) : ObfuscationLayer :=
  let inbound := inspect_inbound_packet packet in
  let l := match in_peer_id inbound with Some id => register_peer_identity from id l | None => l end in
  let l := match in_kad_version inbound with Some v => register_peer_version from v l | None => l end in
  match sender_verify_key with
  | Some key => if should_learn_sender_verify_key (opcode packet) then register_peer_key from key l else l
  | None => l
  end.
(** The flood counter: whether the packet goes on. *)
Definition admits (from : SocketAddr) (bucket : option PacketTrackerBucket) (now : Z) (r : RpcInner) : RpcInner * bool :=
  match bucket with
  | None => (r, true)
  | Some bucket =>
      let '(t, decision) := record_and_check (ri_tracker r) now (sa_ip from, bucket) in
      let r := observe (record_tracker_action bucket (d_action decision)) (set_tracker t r) in
      if d_allowed decision then (r, true)
      else if bool_decide (d_action decision = MassiveDrop) && ri_massive_flood_handler r then (log (log_flooding from) r, false)
      else (r, false)
  end.
(** An admitted packet goes to the request that waits for it, or to all, or nowhere. *)
Definition deliver (from : SocketAddr) (packet : KadPacket) (d : DecryptResult) (iter : list (Z * PendingEntry)) (clock : nat → Z) (r : RpcInner) : res NetError RpcInner :=
  let response_opcode := opcode packet in
  let matched := match_pending iter from response_opcode in
  r ← match matched with
      | Some id => expect (ri_pending r !! id);; Ok (log (log_answer (id, packet)) (set_pending_requests (delete id) (ri_next_id r) r))
      | None => Ok r
      end;
  let '(t, tracked) := tracked_request_opcode_for_response (ri_outbound_tracker r) clock (sa_ip from) response_opcode in
  let r := set_outbound_tracker t r in
  match matched with
  | Some _ => Ok (observe (record_response_matched_pending response_opcode) r)
  | None =>
      if is_tracked_response_opcode response_opcode && negb (bool_decide (is_Some tracked)) then Ok (observe (record_response_dropped_unrequested response_opcode) r)
      else
        let r := observe (if is_tracked_response_opcode response_opcode then record_response_matched_tracked response_opcode
                          else record_response_accepted_unsolicited response_opcode) r in
        Ok (log (log_unsolicited (mkReceived packet from (de_was_obfuscated d) (de_sender_verify_key d) (de_receiver_verify_key_valid d))) r)
  end.
(** A datagram. The clock is read for the counter, and then for the tracker. *)
Definition receive (from : SocketAddr) (data : list Z) (iter : list (Z * PendingEntry)) (clock : nat → Z) (r : RpcInner) : res NetError RpcInner :=
  d ← decrypt md5 (ri_obfuscation r) from data;
  match decode windows_1252 zlib_decode (de_data d) with
  | Err _ => Ok (observe record_decode_failure r)
  | Panic => Panic
  | Ok packet =>
      let r := set_obfuscation (learn from packet (de_sender_verify_key d)) r in
      match admits from (in_tracker_bucket (inspect_inbound_packet packet)) (clock 0%nat) r with
      | (r, false) => Ok r
      | (r, true) => deliver from packet d iter (λ i, clock (S i)) r
      end
  end.

(** ** Steps *)

Inductive rpc_event : Type :=
| RBegin (addr : SocketAddr) (packet : KadPacket) (expected_opcode now : Z)
| REnd (id : Z)
| RAcquireClass (work_class : RpcWorkClass) (times : list Z)
| RAcquireGlobal (times : list Z)
| RDispatch (addr : SocketAddr) (packet : KadPacket) (work_class : RpcWorkClass) (env : send_env)
| RReceive (from : SocketAddr) (data : list Z) (iter : list (Z * PendingEntry)) (clock : nat → Z)
| RIdentity (addr : SocketAddr) (id : NodeId)
| RVersion (addr : SocketAddr) (version : Z)
| RKey (addr : SocketAddr) (key : Z).
Definition rpc_step (e : rpc_event) (r : RpcInner) : res NetError RpcInner :=
  match e with
  | RBegin addr packet expected now => Ok (fst (begin_request addr packet expected now r))
  | REnd id => Ok (end_request id r)
  | RAcquireClass work_class times => Ok (fst (acquire_class work_class times r))
  | RAcquireGlobal times => Ok (fst (acquire_global times r))
  | RDispatch addr packet work_class env => '((r, _) : RpcInner * option NetError) ← dispatch addr packet work_class env r; Ok r
  | RReceive from data iter clock => receive from data iter clock r
  | RIdentity addr id => Ok (set_obfuscation (register_peer_identity addr id) r)
  | RVersion addr version => Ok (set_obfuscation (register_peer_version addr version) r)
  | RKey addr key => Ok (set_obfuscation (register_peer_key addr key) r)
  end.
End rpc.
