(* ===== verification/RpcOk.v ===== *)
(** * The RPC manager hands out only what was asked for

    Whatever datagrams arrive and however the tasks that share the manager interleave: no
    step panics, a request is answered at most once, by a packet of the kind it waits for
    from the address it went to, and packets that answer requests are passed on to the rest
    of the agent only as often as such requests were sent. Then two nodes that know each
    other complete an exchange. *)

From S2P Require Import Prelude F64 Utf8 Net NodeId Wire Tag PacketTypes Packet Tracker PeerTransport KadObfuscation Rpc.

(** ** The tracker of outbound requests *)

(** The requests to an address with an opcode of a list. *)
Definition asks (ip : IpAddr) (ops : list Z) (e : OutboundRequestEntry) : bool := bool_decide (oe_ip e = ip) && bool_decide (oe_opcode e ∈ ops).
Definition asked_for (t : OutboundRequestTracker) (ip : IpAddr) (ops : list Z) : nat := countb (asks ip ops) (ot_entries t).

Lemma pop_stale_suffix now w l : ∃ k, l = k ++ pop_stale now w l.
Proof. induction l as [|e l [k IH]]; [by exists []|]. cbn. case_match; [|by exists []]. exists (e :: k). cbn. by f_equal. Qed.
Lemma prune_sublist t now : sublist (ot_entries (outbound_prune t now)) (ot_entries t).
Proof.
  unfold outbound_prune. cbn [ot_entries]. destruct (pop_stale_suffix now (ot_window t) (rev (ot_entries t))) as [k Hk].
  rewrite <- (rev_involutive (ot_entries t)) at 2. rewrite Hk at 2. rewrite rev_app_distr. by apply sublist_inserts_r.
Qed.
Lemma contains_sublist t now ip op b : sublist (ot_entries (fst (outbound_contains t now ip op b))) (ot_entries t).
Proof.
  unfold outbound_contains. case_match; [destruct b|]; cbn [fst ot_entries]; try apply prune_sublist.
  etrans; [apply sublist_delete|apply prune_sublist].
Qed.
Lemma contains_window t now ip op b : ot_window (fst (outbound_contains t now ip op b)) = ot_window t.
Proof. unfold outbound_contains. case_match; [destruct b|]; done. Qed.
Lemma entry_matches_spec ip op e : entry_matches ip op e = true ↔ oe_ip e = ip ∧ oe_opcode e = op.
Proof. unfold entry_matches. split; [intros H; bool_hyps; done|]. intros [-> ->]. rewrite bool_decide_true by done. apply Z.eqb_refl. Qed.
(** Using up a request takes one off, and so does finding it gone afterwards. *)
Lemma contains_removes t now ip op ops : op ∈ ops → (∃ e, e ∈ ot_entries t ∧ entry_matches ip op e = true) →
  (asked_for (fst (outbound_contains t now ip op true)) ip ops + 1 ≤ asked_for t ip ops)%nat.
Proof.
  intros Ho (e & He & Hm). apply entry_matches_spec in Hm as [Hi Hoe].
  pose proof (countb_sublist (asks ip ops) _ _ (prune_sublist t now)) as Hp.
  assert (Hasks : ∀ x, entry_matches ip op x = true → asks ip ops x = true).
  { intros x [Hx1 Hx2]%entry_matches_spec. unfold asks. rewrite !bool_decide_true; [done|by rewrite Hx2|done]. }
  unfold asked_for, outbound_contains. destruct (position _ _) as [i|] eqn:Hpos; cbn [fst ot_entries].
  - apply position_Some in Hpos as (x & Hx & Hmx). pose proof (delete_Permutation _ _ _ Hx) as Hperm.
    rewrite (countb_perm (asks ip ops) _ _ Hperm) in Hp. rewrite countb_cons, (Hasks x Hmx) in Hp. lia.
  - apply position_None in Hpos.
    assert (Hsub : ∃ k, ot_entries t = ot_entries (outbound_prune t now) ++ k ∧ e ∈ k).
    { unfold outbound_prune in *. cbn [ot_entries] in *. destruct (pop_stale_suffix now (ot_window t) (rev (ot_entries t))) as [k Hk]. exists (rev k).
      assert (Heq : ot_entries t = rev (pop_stale now (ot_window t) (rev (ot_entries t))) ++ rev k) by (by rewrite <- rev_app_distr, <- Hk, rev_involutive).
      split; [done|]. rewrite Heq in He. apply elem_of_app in He as [He|He]; [|done]. rewrite Forall_forall in Hpos. specialize (Hpos e He).
      rewrite (proj2 (entry_matches_spec ip op e)) in Hpos by done. done. }
    destruct Hsub as (k & Heq & Hek). rewrite Heq. rewrite countb_app. pose proof (countb_elem (asks ip ops) k e Hek ltac:(apply Hasks, entry_matches_spec; done)). lia.
Qed.
Lemma find_any_sublist t clock ip ops b : sublist (ot_entries (fst (find_any t clock ip ops b))) (ot_entries t).
Proof.
  revert t clock. induction ops as [|op ops IH]; intros t clock; cbn [find_any]; [done|].
  pose proof (contains_sublist t (clock O) ip op b) as Hs. destruct (outbound_contains t (clock O) ip op b) as [t' []]; [done|].
  etrans; [apply IH|done].
Qed.
Lemma find_any_window t clock ip ops b : ot_window (fst (find_any t clock ip ops b)) = ot_window t.
Proof.
  revert t clock. induction ops as [|op ops IH]; intros t clock; cbn [find_any]; [done|].
  pose proof (contains_window t (clock O) ip op b) as Hs. destruct (outbound_contains t (clock O) ip op b) as [t' []]; [done|]. by rewrite IH.
Qed.
Lemma find_any_found t clock ip ops b t' o : find_any t clock ip ops b = (t', Some o) →
  o ∈ ops ∧ ∃ t0 now, sublist (ot_entries t0) (ot_entries t) ∧ (∃ i, now = clock i) ∧ outbound_contains t0 now ip o b = (t', true) ∧ ot_window t0 = ot_window t.
Proof.
  revert t clock. induction ops as [|op ops IH]; intros t clock; cbn [find_any]; [done|].
  pose proof (contains_sublist t (clock O) ip op b) as Hs. pose proof (contains_window t (clock O) ip op b) as Hw.
  destruct (outbound_contains t (clock O) ip op b) as [t1 []] eqn:Hc; cbn [fst] in *.
  - intros [= <- <-]. split; [by left|]. exists t, (clock O). split; [done|]. split; [by exists O|done].
  - intros (Ho & t0 & now & Hsub & [i Hi] & H & Hw0)%IH. split; [by right|]. exists t0, now. split; [by etrans|]. split; [by exists (S i)|]. split; [done|congruence].
Qed.
Lemma contains_found t now ip op b t' : outbound_contains t now ip op b = (t', true) → ∃ e, e ∈ ot_entries (outbound_prune t now) ∧ entry_matches ip op e = true.
Proof. unfold outbound_contains. case_match eqn:Hp; [|done]. intros _. apply position_Some in Hp as (e & He & Hm). exists e. split; [by eapply list_elem_of_lookup_2|done]. Qed.
(** A response that finds its request uses it up. *)
Lemma tracked_spec t clock ip op : let '(t', tracked) := tracked_request_opcode_for_response t clock ip op in
  sublist (ot_entries t') (ot_entries t) ∧ ot_window t' = ot_window t ∧
  ∀ o, tracked = Some o → o ∈ answered_by op ∧ (asked_for t' ip (answered_by op) + 1 ≤ asked_for t ip (answered_by op))%nat ∧
    ∃ t0 i e, sublist (ot_entries t0) (ot_entries t) ∧ ot_window t0 = ot_window t ∧ e ∈ ot_entries (outbound_prune t0 (clock i)) ∧ entry_matches ip o e = true.
Proof.
  assert (Hle : ∀ a b, sublist (ot_entries a) (ot_entries b) → (asked_for a ip (answered_by op) ≤ asked_for b ip (answered_by op))%nat) by (intros; by apply countb_sublist).
  unfold tracked_request_opcode_for_response. destruct (op =? PUBLISH_RES).
  - pose proof (find_any_sublist t clock ip (answered_by op) false) as Hs. pose proof (find_any_window t clock ip (answered_by op) false) as Hw.
    destruct (find_any t clock ip (answered_by op) false) as [t1 [m|]] eqn:Hf; cbn [fst] in *; [|done].
    apply find_any_found in Hf as (Hm & t0 & now & H0 & [i Hi] & Hc & Hw0).
    destruct (contains_found _ _ _ _ _ _ Hc) as (e & He & Hme).
    assert (Ht1 : t1 = outbound_prune t0 now) by (unfold outbound_contains in Hc; case_match; congruence).
    pose proof (contains_removes t1 (clock 3%nat) ip m (answered_by op) Hm ltac:(exists e; by rewrite Ht1)) as Hr. specialize (Hle _ _ Hs).
    split; [etrans; [apply contains_sublist|done]|]. split; [by rewrite contains_window|].
    intros o [= <-]. split; [done|]. split; [lia|]. exists t0, i, e. by rewrite <- Hi.
  - pose proof (find_any_sublist t clock ip (answered_by op) true) as Hs. pose proof (find_any_window t clock ip (answered_by op) true) as Hw.
    destruct (find_any t clock ip (answered_by op) true) as [t1 tracked] eqn:Hf; cbn [fst] in *. split; [done|]. split; [done|]. intros o ->.
    apply find_any_found in Hf as (Hm & t0 & now & H0 & [i Hi] & Hc & Hw0). destruct (contains_found _ _ _ _ _ _ Hc) as (e & He & Hme). split; [done|].
    pose proof (contains_removes t0 now ip o (answered_by op) Hm ltac:(exists e; split; [eapply elem_of_sublist; [exact He|apply prune_sublist]|done])) as Hr.
    rewrite Hc in Hr. cbn [fst] in Hr. specialize (Hle _ _ H0). split; [lia|]. exists t0, i, e. by rewrite <- Hi.
Qed.

(** ** The request that an answer belongs to *)

Lemma min_by_key_some {T} (key : T → Z) l x : min_by_key key l = Some x → x ∈ l ∧ ∀ y, y ∈ l → key x ≤ key y.
Proof.
  revert x. induction l as [|a l IH]; intros x; cbn [min_by_key]; [done|].
  destruct (min_by_key key l) as [b|] eqn:Hb.
  - destruct (IH b eq_refl) as [Hin Hmin]. case_match eqn:Hc; intros [= <-]; bool_hyps.
    + split; [by left|]. intros y [->|Hy]%elem_of_cons; [done|]. specialize (Hmin y Hy). lia.
    + split; [by right|]. intros y [->|Hy]%elem_of_cons; [lia|by apply Hmin].
  - intros [= <-]. assert (Hl : l = []). { destruct l as [|c l]; [done|]. cbn in Hb. by repeat case_match. }
    subst l. split; [by left|]. by intros y ->%list_elem_of_singleton.
Qed.
Lemma min_by_key_none {T} (key : T → Z) l : min_by_key key l = None → l = [].
Proof. destruct l as [|c l]; [done|]. cbn. by repeat case_match. Qed.
(** The oldest request to the address that waits for the opcode, or else the oldest to its host. *)
Lemma match_pending_spec iter from op :
  match match_pending iter from op with
  | Some id => ∃ e, (id, e) ∈ iter ∧ ip_match from op (id, e) = true ∧
      (∀ x, x ∈ iter → exact_match from op x = true → exact_match from op (id, e) = true ∧ pd_created_at e ≤ created x)
  | None => ∀ x, x ∈ iter → ip_match from op x = false
  end.
Proof.
  assert (Hei : ∀ x, exact_match from op x = true → ip_match from op x = true).
  { intros x Hx. unfold exact_match in Hx. unfold ip_match. bool_hyps. rewrite bool_decide_true by (by f_equal). cbn. by apply Z.eqb_eq. }
  unfold match_pending. destruct (min_by_key created (List.filter (exact_match from op) iter)) as [[id e]|] eqn:He.
  - apply min_by_key_some in He as [[Hin Hx]%elem_of_filter_bool Hmin]. exists e. split; [done|]. split; [by apply Hei|].
    intros x Hxi Hxe. split; [done|]. apply (Hmin x). by apply elem_of_filter_bool.
  - apply min_by_key_none in He. assert (Hno : ∀ x, x ∈ iter → exact_match from op x ≠ true).
    { intros x Hx Hm. assert (H : x ∈ List.filter (exact_match from op) iter) by (by apply elem_of_filter_bool). rewrite He in H. by apply elem_of_nil in H. }
    destruct (min_by_key created (List.filter (ip_match from op) iter)) as [[id e]|] eqn:Hi; cbn [fmap option_fmap option_map fst].
    + apply min_by_key_some in Hi as [[Hin Hx]%elem_of_filter_bool _]. exists e. split; [done|]. split; [done|]. intros x Hxi Hxe. by destruct (Hno x Hxi).
    + apply min_by_key_none in Hi. intros x Hx. destruct (ip_match from op x) eqn:Hm; [|done].
      assert (H : x ∈ List.filter (ip_match from op) iter) by (by apply elem_of_filter_bool). rewrite Hi in H. by apply elem_of_nil in H.
Qed.

(** ** Histories *)

Definition begun (es : list rpc_event) : list (SocketAddr * KadPacket * Z * Z) :=
  omap (λ e, match e with RBegin addr packet expected now => Some (addr, packet, expected, now) | _ => None end) es.
Definition dispatched (es : list rpc_event) : list (IpAddr * Z * Z) :=
  omap (λ e, match e with RDispatch addr packet _ env => Some (sa_ip addr, opcode packet, se_now' env) | _ => None end) es.
Definition is_request (ip : IpAddr) (ops : list Z) (d : IpAddr * Z * Z) : bool := let '(i, o, _) := d in bool_decide (i = ip) && bool_decide (o ∈ ops).
Definition is_response (ip : IpAddr) (op : Z) (u : ReceivedKadPacket) : bool := bool_decide (sa_ip (rk_from u) = ip) && (opcode (rk_packet u) =? op).
Lemma begun_app es e : begun (es ++ [e]) = begun es ++ begun [e].
Proof. apply omap_app. Qed.
Lemma dispatched_app es e : dispatched (es ++ [e]) = dispatched es ++ dispatched [e].
Proof. apply omap_app. Qed.

Section reach.
Context (md5 : list Z → list Z) (windows_1252 : list Z → list Z) (zlib_decode : list Z → option (list Z)).
Context (layer : ObfuscationLayer) (config : RpcConfig) (start : Z).
Local Abbreviation step := (rpc_step md5 windows_1252 zlib_decode).

(** What a datagram says to the node. *)
Definition says (from : SocketAddr) (data : list Z) (d : DecryptResult) (packet : KadPacket) : Prop :=
  decrypt (E:=NetError) md5 layer from data = Ok d ∧ decode windows_1252 zlib_decode (de_data d) = Ok packet.
(** The events that can come next, at times from [t] to [t']. *)
Definition event_ok (t : Z) (e : rpc_event) (r : RpcInner) (t' : Z) : Prop :=
  match e with
  | RBegin _ _ _ _ => ri_next_id r + 1 < 2 ^ 64 ∧ t' = t
  | RDispatch _ packet _ env => wf_packet packet = true ∧ t ≤ se_now env ≤ se_now' env ∧ t' = se_now' env
  | RReceive _ data iter clock => is_bytes data = true ∧ iter ≡ₚ map_to_list (ri_pending r) ∧ t ≤ clock 0%nat ∧ (∀ i, clock i ≤ clock (S i)) ∧ t' = clock 5%nat
  | _ => t' = t
  end.
(** What a step sends fits into a packet: the counts and lengths into their fields. *)
Definition event_fits (e : rpc_event) : bool := match e with RDispatch _ packet _ _ => packet_fits packet | _ => true end.
Inductive rpc_reach : list rpc_event → Z → RpcInner → Prop :=
| reach_new : rpc_reach [] start (rpc_new layer config start)
| reach_step es t r e t' r' : rpc_reach es t r → event_ok t e r t' → step e r = Ok r' → rpc_reach (es ++ [e]) t' r'.

Definition pending_ok (es : list rpc_event) (p : gmap Z PendingEntry) : Prop :=
  ∀ id e, p !! id = Some e → 0 ≤ id ∧ ∃ packet, begun es !! Z.to_nat id = Some (pd_remote_addr e, packet, pd_expected_opcode e, pd_created_at e).
Definition answer_ok (es : list rpc_event) (id : Z) (packet : KadPacket) : Prop :=
  0 ≤ id ∧ ∃ addr request now from data iter clock d, begun es !! Z.to_nat id = Some (addr, request, opcode packet, now) ∧
    RReceive from data iter clock ∈ es ∧ sa_ip from = sa_ip addr ∧ says from data d packet.
Definition unsolicited_ok (es : list rpc_event) (u : ReceivedKadPacket) : Prop :=
  ∃ data iter clock d, RReceive (rk_from u) data iter clock ∈ es ∧ says (rk_from u) data d (rk_packet u) ∧
    u = mkReceived (rk_packet u) (rk_from u) (de_was_obfuscated d) (de_sender_verify_key d) (de_receiver_verify_key_valid d) ∧
    (is_tracked_response_opcode (opcode (rk_packet u)) = true →
     ∃ op time i, (sa_ip (rk_from u), op, time) ∈ dispatched es ∧ op ∈ answered_by (opcode (rk_packet u)) ∧ tracks_outbound_request_opcode op = true ∧
       clock i - time < 180 * NANOS_PER_SEC).
Definition entries_ok (es : list rpc_event) (t : Z) (tr : OutboundRequestTracker) : Prop :=
  ot_window tr = 180 * NANOS_PER_SEC ∧ newest_first (ot_entries tr) ∧ Forall (λ e, oe_inserted_at e ≤ t) (ot_entries tr) ∧
  ∀ e, e ∈ ot_entries tr → tracks_outbound_request_opcode (oe_opcode e) = true ∧ (oe_ip e, oe_opcode e, oe_inserted_at e) ∈ dispatched es.
Definition counts_ok (es : list rpc_event) (tr : OutboundRequestTracker) (l : list ReceivedKadPacket) : Prop :=
  ∀ ip op, is_tracked_response_opcode op = true →
    (countb (is_response ip op) l + asked_for tr ip (answered_by op) ≤ countb (is_request ip (answered_by op)) (dispatched es))%nat.
Record rpc_inv (es : list rpc_event) (t : Z) (r : RpcInner) : Prop := {
  inv_id : ob_our_node_id (ri_obfuscation r) = ob_our_node_id layer;
  inv_key : ob_our_udp_key (ri_obfuscation r) = ob_our_udp_key layer;
  inv_next : ri_next_id r = zlen (begun es) ∧ ri_next_id r < 2 ^ 64;
  inv_pending : pending_ok es (ri_pending r);
  inv_once : NoDup (lg_answers (ri_log r)).*1;
  inv_answers : ∀ id packet, (id, packet) ∈ lg_answers (ri_log r) → ri_pending r !! id = None ∧ answer_ok es id packet;
  inv_unsolicited : Forall (unsolicited_ok es) (lg_unsolicited (ri_log r));
  inv_entries : entries_ok es t (ri_outbound_tracker r);
  inv_counts : counts_ok es (ri_outbound_tracker r) (lg_unsolicited (ri_log r))
}.

Lemma inv_frame es t r r' : rpc_inv es t r →
  ob_our_node_id (ri_obfuscation r') = ob_our_node_id (ri_obfuscation r) → ob_our_udp_key (ri_obfuscation r') = ob_our_udp_key (ri_obfuscation r) →
  ri_next_id r' = ri_next_id r → ri_pending r' = ri_pending r → lg_answers (ri_log r') = lg_answers (ri_log r) →
  lg_unsolicited (ri_log r') = lg_unsolicited (ri_log r) → ri_outbound_tracker r' = ri_outbound_tracker r → rpc_inv es t r'.
Proof.
  intros [Hid Hkey Hnext Hp Ho Ha Hu He Hc] H1 H2 H3 H4 H5 H6 H7. split; rewrite ?H1, ?H2, ?H3, ?H4, ?H5, ?H6, ?H7; done.
Qed.
Lemma begun_more es e i x : begun es !! i = Some x → begun (es ++ [e]) !! i = Some x.
Proof. intros H. rewrite begun_app. by apply lookup_app_l_Some. Qed.
Lemma answer_more es e id p : answer_ok es id p → answer_ok (es ++ [e]) id p.
Proof.
  intros (Hid & addr & q & now & from & data & iter & clock & d & Hb & Hin & Hrest). split; [done|]. exists addr, q, now, from, data, iter, clock, d.
  split; [by apply begun_more|]. split; [apply elem_of_app; by left|done].
Qed.
Lemma unsolicited_more es e u : unsolicited_ok es u → unsolicited_ok (es ++ [e]) u.
Proof.
  intros (data & iter & clock & d & Hin & Hs & Hu & Ht). exists data, iter, clock, d. split; [apply elem_of_app; by left|]. split; [done|]. split; [done|].
  intros Hop. destruct (Ht Hop) as (op & time & i & Hd & Hrest). exists op, time, i. split; [|done]. rewrite dispatched_app. apply elem_of_app. by left.
Qed.
Lemma entries_more es e t t' tr : entries_ok es t tr → t ≤ t' → entries_ok (es ++ [e]) t' tr.
Proof.
  intros (Hw & Hn & Ht & Hd) Htt. split; [done|]. split; [done|]. split; [eapply Forall_impl; [exact Ht|]; cbn; intros; lia|].
  intros x Hx. destruct (Hd x Hx) as [? ?]. split; [done|]. rewrite dispatched_app. apply elem_of_app. by left.
Qed.
Lemma inv_more es t r e t' : rpc_inv es t r → t ≤ t' → begun [e] = [] → rpc_inv (es ++ [e]) t' r.
Proof.
  intros [Hid Hkey Hnext Hp Ho Ha Hu He Hc] Ht Hb. split; try done.
  - by rewrite begun_app, Hb, app_nil_r.
  - intros id x Hx. destruct (Hp id x Hx) as [Hid0 [q Hq]]. split; [done|]. exists q. by apply begun_more.
  - intros id p Hin. destruct (Ha id p Hin) as [? ?]. split; [done|by apply answer_more].
  - eapply Forall_impl; [exact Hu|]. intros u. apply unsolicited_more.
  - by eapply entries_more.
  - intros ip op Hop. specialize (Hc ip op Hop). rewrite dispatched_app, countb_app. lia.
Qed.
Lemma entries_sub es t tr tr' : entries_ok es t tr → sublist (ot_entries tr') (ot_entries tr) → ot_window tr' = ot_window tr → entries_ok es t tr'.
Proof.
  intros (Hw & Hn & Ht & Hd) Hs Hw'. split; [congruence|]. split; [by eapply newest_first_sub|]. split; [by eapply Forall_sublist|].
  intros x Hx. apply Hd. by eapply elem_of_sublist.
Qed.
Lemma counts_sub es tr tr' l : counts_ok es tr l → sublist (ot_entries tr') (ot_entries tr) → counts_ok es tr' l.
Proof. intros Hc Hs ip op Hop. specialize (Hc ip op Hop). pose proof (countb_sublist (asks ip (answered_by op)) _ _ Hs). unfold asked_for in *. lia. Qed.

(** An admitted packet. *)
Lemma deliver_inv es t r from data packet d iter clock : rpc_inv es t r → RReceive from data iter clock ∈ es → says from data d packet →
  iter ≡ₚ map_to_list (ri_pending r) →
  ∃ r', deliver from packet d iter (λ i, clock (S i)) r = Ok r' ∧ rpc_inv es t r'.
Proof.
  intros Hinv Hin Hs Hiter. unfold deliver. set (op := opcode packet).
  pose proof (match_pending_spec iter from op) as Hm. destruct (match_pending iter from op) as [id|].
  - destruct Hm as (e & He & Him & _). rewrite Hiter in He. apply elem_of_map_to_list in He. rewrite He. cbn [expect mbind res_bind].
    set (r1 := log _ _). pose proof (tracked_spec (ri_outbound_tracker r1) (λ i, clock (S i)) (sa_ip from) op) as Ht.
    destruct (tracked_request_opcode_for_response _ _ _ _) as [tr tracked]. destruct Ht as (Hsub & Hw & _). eexists. split; [done|].
    destruct Hinv as [Hid Hkey Hnext Hp Ho Ha Hu Hen Hc]. destruct (Hp id e He) as (Hid0 & q & Hq). unfold ip_match in Him. bool_hyps. cbn [snd] in *.
    split; cbn [r1 observe set_outbound_tracker set_pending_requests log log_answer ri_obfuscation ri_next_id ri_pending ri_log ri_outbound_tracker lg_answers lg_unsolicited] in *; try done.
    + intros x y Hx. apply lookup_delete_Some in Hx as [_ Hx]. by apply Hp.
    + rewrite fmap_app. apply NoDup_app. split; [done|]. split; [|apply NoDup_singleton].
      intros x ([? p'] & -> & Hx)%list_elem_of_fmap Hy. apply list_elem_of_singleton in Hy. cbn in Hy. subst. destruct (Ha _ _ Hx) as [Hn _]. congruence.
    + intros x p' [Hx|Hx]%elem_of_app.
      * destruct (Ha _ _ Hx) as [Hn ?]. split; [|done]. rewrite lookup_delete_None. by right.
      * apply list_elem_of_singleton in Hx as [= -> ->]. split; [apply lookup_delete_eq|]. split; [done|].
        eexists _, q, _, from, data, iter, clock, d. split; [|split; [exact Hin|split; [|exact Hs]]]; [|by symmetry].
        rewrite Hq. replace (pd_expected_opcode e) with op by lia. done.
    + by eapply entries_sub.
    + by eapply counts_sub.
  - cbn [mbind res_bind]. pose proof (tracked_spec (ri_outbound_tracker r) (λ i, clock (S i)) (sa_ip from) op) as Ht.
    destruct (tracked_request_opcode_for_response _ _ _ _) as [tr tracked]. destruct Ht as (Hsub & Hw & Htr).
    assert (Hset : rpc_inv es t (set_outbound_tracker tr r)).
    { destruct Hinv. split; try done; [by eapply entries_sub|by eapply counts_sub]. }
    destruct (is_tracked_response_opcode op && negb (bool_decide (is_Some tracked))) eqn:Hdrop.
    { eexists. split; [done|]. by eapply inv_frame. }
    eexists. split; [done|]. set (u := mkReceived _ _ _ _ _).
    destruct Hset as [Hid Hkey Hnext Hp Ho Ha Hu Hen Hc]. split; cbn [observe set_outbound_tracker log log_unsolicited ri_obfuscation ri_next_id ri_pending ri_log ri_outbound_tracker lg_answers lg_unsolicited] in *; try done.
    + apply Forall_app. split; [done|]. apply Forall_singleton. exists data, iter, clock, d. split; [done|]. split; [done|]. split; [done|].
      cbn [rk_packet u]. fold op. intros Hop. rewrite Hop in Hdrop. destruct (bool_decide_reflect (is_Some tracked)) as [[o ->]|]; [|done].
      destruct (Htr o eq_refl) as (Ho1 & _ & t0 & i & e & H0 & Hw0 & He & Hme). destruct (inv_entries _ _ _ Hinv) as (Hw1 & Hn1 & Ht1 & Hd1).
      rewrite outbound_prune_spec in He by (by eapply newest_first_sub). apply elem_of_filter_bool in He as [He Hf]. apply entry_matches_spec in Hme as [Hi1 Hi2].
      destruct (Hd1 e ltac:(by eapply elem_of_sublist)) as [Htk Hdi]. rewrite Hi1, Hi2 in *. exists o, (oe_inserted_at e), (S i). do 3 (split; [done|]).
      unfold fresh, duration_since, saturating_sub in Hf. bool_hyps. lia.
    + intros ip op' Hop'. specialize (Hc ip op' Hop'). rewrite countb_app. cbn [countb]. rewrite countb_cons, countb_nil.
      destruct (is_response ip op' u) eqn:Hru; [|lia]. unfold is_response in Hru. cbn [u rk_from rk_packet] in Hru. bool_hyps. subst ip op'. fold op in Hop', Hc |- *.
      rewrite Hop' in Hdrop. destruct (bool_decide_reflect (is_Some tracked)) as [[o ->]|]; [|done]. destruct (Htr o eq_refl) as (_ & Hle & _).
      pose proof (inv_counts _ _ _ Hinv (sa_ip from) op Hop') as Hc'. lia.
Qed.

(** ** Every step keeps the invariant *)

Lemma decrypt_own {E} l from data : ob_our_node_id l = ob_our_node_id layer → ob_our_udp_key l = ob_our_udp_key layer →
  decrypt (E:=E) md5 l from data = decrypt md5 layer from data.
Proof.
  intros Hid Hkey. assert (Ht : ∀ ip r mode, try_mode (E:=E) md5 l ip data r mode = try_mode md5 layer ip data r mode).
  { intros ip r mode. unfold try_mode, verify_key_for_ip. by rewrite Hid, Hkey. }
  unfold decrypt. destruct (zlen data <? 3); [done|]. destruct (byte data 0) as [m| |]; [|done..]. cbn [mbind res_bind]. destruct (is_kad_protocol m); [done|].
  destruct (le_at data 1 2) as [k| |]; [|done..]. cbn [mbind res_bind]. destruct (sa_ip from); [|done].
  induction (marker_try_order m) as [|mode modes IH]; cbn [try_modes]; [done|]. rewrite Ht. destruct (try_mode md5 layer ip data k mode) as [[]| |]; done.
Qed.
Lemma learn_own from packet key l :
  ob_our_node_id (learn from packet key l) = ob_our_node_id l ∧ ob_our_udp_key (learn from packet key l) = ob_our_udp_key l.
Proof. unfold learn. destruct (in_peer_id _), (in_kad_version _), key; try destruct (should_learn_sender_verify_key _); done. Qed.
Lemma admit_frame es t r from bucket now : rpc_inv es t r →
  rpc_inv es t (fst (admits from bucket now r)) ∧ ri_pending (fst (admits from bucket now r)) = ri_pending r.
Proof.
  intros Hinv. unfold admits. destruct bucket as [b|]; [|done]. destruct (record_and_check _ _ _) as [tr decision].
  destruct (d_allowed decision); [|destruct (bool_decide _ && _)]; cbn [fst]; (split; [by eapply inv_frame|done]).
Qed.
Context (Hw : ∀ b, is_bytes b = true → wf_string (windows_1252 b) = true).
Context (Hz : ∀ b d, is_bytes b = true → zlib_decode b = Some d → is_bytes d = true).
Lemma receive_inv es t r from data iter clock : rpc_inv es t r → RReceive from data iter clock ∈ es → is_bytes data = true →
  iter ≡ₚ map_to_list (ri_pending r) →
  ∃ r', receive md5 windows_1252 zlib_decode from data iter clock r = Ok r' ∧ rpc_inv es t r'.
Proof.
  intros Hinv Hin Hb Hiter. unfold receive. pose proof Hinv as [Hid Hkey _ _ _ _ _ _ _].
  destruct (decrypt_safe (E:=NetError) md5 (ri_obfuscation r) from data Hb) as (d & Hd & Hgood). rewrite Hd. cbn [mbind res_bind].
  assert (Hdb : is_bytes (de_data d) = true) by (destruct Hgood as [->|[? _]]; done).
  rewrite decrypt_own in Hd by done. pose proof (decode_ok windows_1252 zlib_decode (de_data d) Hw Hz Hdb) as Hdec.
  destruct (decode windows_1252 zlib_decode (de_data d)) as [packet|e|] eqn:Hp; [| |done]; [|eexists; split; [done|by eapply inv_frame]].
  set (r1 := set_obfuscation _ r). assert (Hr1 : rpc_inv es t r1).
  { destruct (learn_own from packet (de_sender_verify_key d) (ri_obfuscation r)) as [H1 H2]. by eapply inv_frame. }
  destruct (admit_frame es t r1 from (in_tracker_bucket (inspect_inbound_packet packet)) (clock 0%nat) Hr1) as [Ha Hpe].
  destruct (admits from _ _ r1) as [r2 []]; cbn [fst] in *; [|by eexists].
  apply (deliver_inv es t r2 from data); [done|done|by split|by rewrite Hpe].
Qed.
Lemma begin_inv es t r addr packet expected now : rpc_inv es t r → ri_next_id r + 1 < 2 ^ 64 →
  rpc_inv (es ++ [RBegin addr packet expected now]) t (fst (begin_request addr packet expected now r)).
Proof.
  intros [Hid Hkey [Hn Hn64] Hp Ho Ha Hu He Hc] Hlt. set (e := RBegin addr packet expected now).
  assert (Hnew : begun (es ++ [e]) !! Z.to_nat (ri_next_id r) = Some (addr, packet, expected, now)).
  { replace (Z.to_nat (ri_next_id r)) with (length (begun es)) by (rewrite Hn; unfold zlen; lia). by rewrite begun_app, lookup_app_r, Nat.sub_diag by done. }
  pose proof (zlen_nonneg (begun es)).
  split; cbn [begin_request fst set_pending_requests ri_obfuscation ri_next_id ri_pending ri_log ri_outbound_tracker]; try done.
  - unfold incr64. rewrite Z.mod_small by lia. split; [|lia]. rewrite begun_app, zlen_app, Hn. done.
  - intros id x. rewrite lookup_insert_Some. intros [[<- <-]|[_ Hx]]; [split; [lia|by exists packet]|].
    destruct (Hp id x Hx) as [Hid0 [q Hq]]. split; [done|]. exists q. by apply begun_more.
  - intros id p Hin. destruct (Ha id p Hin) as [Hnone Hok]. split; [|by apply answer_more]. rewrite lookup_insert_None. split; [done|]. intros Heq.
    destruct Hok as (Hid0 & ? & ? & ? & ? & ? & ? & ? & ? & Hb & _). apply lookup_lt_Some in Hb. unfold zlen in *. lia.
  - eapply Forall_impl; [exact Hu|]. intros u. apply unsolicited_more.
  - by eapply entries_more.
  - intros ip op Hop. specialize (Hc ip op Hop). rewrite dispatched_app, countb_app. lia.
Qed.
Lemma end_inv es t r id : rpc_inv es t r → rpc_inv es t (end_request id r).
Proof.
  intros [Hid Hkey Hn Hp Ho Ha Hu He Hc]. split; cbn; try done.
  - intros i x [_ Hx]%lookup_delete_Some. by apply Hp.
  - intros i p Hin. destruct (Ha i p Hin) as [Hnone Hok]. split; [|done]. rewrite lookup_delete_None. by right.
Qed.
Lemma dispatch_inv es t r addr packet work_class env : rpc_inv es t r → wf_packet packet = true → packet_fits packet = true → t ≤ se_now env ≤ se_now' env →
  ∃ r' e, dispatch md5 addr packet work_class env r = Ok (r', e) ∧ rpc_inv (es ++ [RDispatch addr packet work_class env]) (se_now' env) r'.
Proof.
  intros Hinv Hwf Hfit Ht. unfold dispatch. pose proof (encode_total packet) as Htot. rewrite Hfit in Htot. destruct Htot as [encoded ->].
  set (r1 := observe _ r). destruct (encrypt_total (E:=NetError) md5 (ri_obfuscation r1) (ri_obfuscation r1) addr (opcode packet) encoded (se_random_key_part env) (se_draws env) (learns_refl _)) as [wire ->].
  cbn [mbind res_bind]. set (e := RDispatch addr packet work_class env). set (r2 := set_outbound_tracker _ r1).
  assert (Hr2 : rpc_inv (es ++ [e]) (se_now' env) r2).
  { pose proof (inv_entries _ _ _ Hinv) as (Hw1 & Hn1 & Ht1 & Hd1). pose proof (inv_counts _ _ _ Hinv) as Hc.
    destruct (inv_more es t r e (se_now' env) Hinv ltac:(lia) eq_refl) as [Hid Hkey Hn Hp Ho Ha Hu He _].
    pose proof (prune_sublist (ri_outbound_tracker r) (se_now env)) as Hsub.
    split; cbn [r2 r1 observe set_outbound_tracker ri_obfuscation ri_next_id ri_pending ri_log ri_outbound_tracker]; try done.
    - destruct (outbound_record_ok (ri_outbound_tracker r) (se_now env) (se_now' env) (sa_ip addr) (opcode packet)) as [Hs1 Hs2];
        [lia|done|eapply Forall_impl; [exact Ht1|]; cbn; intros; lia|].
      split; [unfold outbound_record; by destruct (negb _)|]. split; [done|]. split; [done|]. intros x Hx. rewrite dispatched_app, elem_of_app.
      assert (Hold : x ∈ ot_entries (outbound_prune (ri_outbound_tracker r) (se_now env)) → tracks_outbound_request_opcode (oe_opcode x) = true ∧ (oe_ip x, oe_opcode x, oe_inserted_at x) ∈ dispatched es)
        by (intros Hx'; apply Hd1; by eapply elem_of_sublist).
      unfold outbound_record in Hx. destruct (tracks_outbound_request_opcode (opcode packet)) eqn:Htk; cbn [negb ot_entries] in Hx; [apply elem_of_cons in Hx as [->|Hx]|]; [split; [done|right; by left]|naive_solver..].
    - intros ip op Hop. specialize (Hc ip op Hop). rewrite dispatched_app, countb_app. cbn [dispatched omap list_omap e]. rewrite countb_cons, countb_nil. cbn [is_request].
      pose proof (countb_sublist (asks ip (answered_by op)) _ _ Hsub). unfold asked_for, outbound_record in *.
      destruct (tracks_outbound_request_opcode _); cbn [negb ot_entries]; [|lia]. rewrite countb_cons. unfold asks at 1. cbn [oe_ip oe_opcode]. destruct (bool_decide _ && _); lia. }
  destruct (se_fails env); eexists _, _; (split; [done|]); [done|by eapply inv_frame].
Qed.
Lemma step_panics e r : event_fits e = false → step e r = Panic.
Proof.
  destruct e as [| | | |addr packet work_class env| | | |]; cbn [event_fits rpc_step]; try done. intros Hf. pose proof (encode_total packet) as Ht. rewrite Hf in Ht.
  unfold total in Ht. unfold dispatch. by rewrite Ht.
Qed.
Lemma step_inv es t r e t' : rpc_inv es t r → event_ok t e r t' → event_fits e = true → ∃ r', step e r = Ok r' ∧ rpc_inv (es ++ [e]) t' r'.
Proof.
  intros Hinv He Hfit. destruct e; cbn [event_ok event_fits rpc_step] in *.
  - destruct He as [Hlt ->]. eexists. split; [done|]. by apply begin_inv.
  - subst t'. eexists. split; [done|]. eapply inv_more; [by apply end_inv|done|done].
  - subst t'. eexists. split; [done|]. eapply inv_more; [|done|done]. unfold acquire_class. destruct (acquire _ _) as [l b]. by eapply inv_frame.
  - subst t'. eexists. split; [done|]. eapply inv_more; [|done|done]. unfold acquire_global. destruct (acquire _ _) as [l b]. by eapply inv_frame.
  - destruct He as (Hwf & Ht & ->). destruct (dispatch_inv es t r addr packet work_class env Hinv Hwf Hfit Ht) as (r' & er & -> & Hr'). cbn [mbind res_bind]. by eexists.
  - destruct He as (Hb & Hiter & Ht & Hclock & ->). apply receive_inv; [|apply elem_of_app; right; by left|done|done].
    eapply inv_more; [done| |done]. pose proof (Hclock 0%nat). pose proof (Hclock 1%nat). pose proof (Hclock 2%nat). pose proof (Hclock 3%nat). pose proof (Hclock 4%nat). lia.
  - subst t'. eexists. split; [done|]. eapply inv_more; [|done|done]. by eapply inv_frame.
  - subst t'. eexists. split; [done|]. eapply inv_more; [|done|done]. by eapply inv_frame.
  - subst t'. eexists. split; [done|]. eapply inv_more; [|done|done]. by eapply inv_frame.
Qed.
Lemma reach_inv es t r : rpc_reach es t r → rpc_inv es t r.
Proof.
  induction 1 as [|es t r e t' r' _ IH He Hs].
  - split; [done|done|by split|by intros id x Hx|apply NoDup_nil_2|by intros id p Hin%elem_of_nil|constructor| |by intros ip op Hop].
    split; [done|]. split; [constructor|]. split; [constructor|]. by intros e He%elem_of_nil.
  - destruct (event_fits e) eqn:Hfit; [|by rewrite (step_panics e r Hfit) in Hs].
    destruct (step_inv es t r e t' IH He Hfit) as (r2 & Hr2 & Hinv). rewrite Hs in Hr2. by injection Hr2 as <-.
Qed.

(** C10. The manager hands out only what was asked for. In every state that it reaches, whatever datagrams arrive and in whatever order its tasks
    take their steps (with a clock that does not go back and fewer than 2^64 requests), a further step panics exactly when it dispatches a packet
    that the encoder cannot write, one with more entries or tags than its count field holds or a tag that is too long; a request has at most one
    answer, after which it no longer waits, and the answer is a packet of the kind it expects, that a datagram from the host it was sent to said;
    every packet that is broadcast was said by a datagram; and one that answers a request is broadcast only within three minutes of a request
    that it may answer to that host, and no more often than such requests were sent. *)
Theorem answers_requested es t r : rpc_reach es t r →
  NoDup (lg_answers (ri_log r)).*1 ∧
  (∀ id packet, (id, packet) ∈ lg_answers (ri_log r) → ri_pending r !! id = None ∧ answer_ok es id packet) ∧
  Forall (unsolicited_ok es) (lg_unsolicited (ri_log r)) ∧
  (∀ ip op, is_tracked_response_opcode op = true →
     (countb (is_response ip op) (lg_unsolicited (ri_log r)) ≤ countb (is_request ip (answered_by op)) (dispatched es))%nat) ∧
  ∀ e t', event_ok t e r t' → if event_fits e then ∃ r', step e r = Ok r' ∧ rpc_reach (es ++ [e]) t' r' else step e r = Panic.
Proof.
  intros Hr. pose proof (reach_inv es t r Hr) as Hinv. split; [apply Hinv|]. split; [apply Hinv|]. split; [apply Hinv|]. split.
  - intros ip op Hop. pose proof (inv_counts _ _ _ Hinv ip op Hop). lia.
  - intros e t' He. destruct (event_fits e) eqn:Hfit; [|by apply step_panics]. destruct (step_inv es t r e t' Hinv He Hfit) as (r' & Hs & _). exists r'. split; [done|]. by eapply reach_step.
Qed.
End reach.

(** ** Exchanges *)

Section exchange.
Context (md5 : list Z → list Z) (windows_1252 : list Z → list Z) (zlib_decode : list Z → option (list Z)).
Local Abbreviation receive := (receive md5 windows_1252 zlib_decode).
Local Abbreviation dispatch := (dispatch md5).

(** What a layer knows of a peer, which sees it at [ip], is right. *)
Definition informed (l peer : ObfuscationLayer) (ip : Ipv4Addr) (addr : SocketAddr) : Prop :=
  (∀ id, pc_node_id (peer_of l addr) = Some id → id = ob_our_node_id peer) ∧
  ∀ key, ob_receiver_verify_keys l !! sa_ip addr = Some key → key = verify_key_for_ip md5 peer ip.
(** A packet names its sender truly, if it names one. *)
Definition honest (l : ObfuscationLayer) (packet : KadPacket) : Prop := ∀ id, in_peer_id (inspect_inbound_packet packet) = Some id → id = ob_our_node_id l.
(** The flood counter admits a packet. *)
Definition admitted (r : RpcInner) (from : SocketAddr) (packet : KadPacket) (now : Z) : Prop :=
  match in_tracker_bucket (inspect_inbound_packet packet) with
  | Some bucket => d_allowed (snd (record_and_check (ri_tracker r) now (sa_ip from, bucket))) = true
  | None => True
  end.
Definition env_good (env : send_env) : Prop := 0 ≤ se_random_key_part env < 2 ^ 16 ∧ draws_good (se_draws env) ∧ se_fails env = false.
Lemma informed_knows l peer ip addr mode : informed l peer ip addr → knows md5 l peer ip addr mode.
Proof. intros [H1 H2]. by destruct mode. Qed.
Lemma inspect_normalize p : inspect_inbound_packet (normalize_packet p) = inspect_inbound_packet p.
Proof. by destruct p. Qed.
Lemma opcode_normalize p : opcode (normalize_packet p) = opcode p.
Proof. by destruct p. Qed.
Lemma learn_informed l peer ip from packet key : informed l peer ip from → honest peer packet →
  (∀ k, key = Some k → k = verify_key_for_ip md5 peer ip) → informed (learn from packet key l) peer ip from.
Proof.
  intros Hl Hh Hk. unfold learn, honest in *. set (inb := inspect_inbound_packet packet) in *.
  set (l1 := match in_peer_id inb with Some id => register_peer_identity from id l | None => l end).
  assert (H1 : informed l1 peer ip from).
  { unfold l1. destruct (in_peer_id inb) as [id|]; [|done]. destruct Hl as [Ha Hb]. split; [|done]. intros x. unfold register_peer_identity. rewrite peer_of_set, decide_True by done. cbn.
    intros [= <-]. by apply Hh. }
  clearbody l1. set (l2 := match in_kad_version inb with Some v => register_peer_version from v l1 | None => l1 end).
  assert (H2 : informed l2 peer ip from).
  { unfold l2. destruct (in_kad_version inb) as [v|]; [|done]. destruct H1 as [Ha Hb]. split; [|done]. intros x. unfold register_peer_version. rewrite peer_of_set, decide_True by done. apply Ha. }
  clearbody l2. destruct key as [k|]; [|done]. destruct (should_learn_sender_verify_key _); [|done]. destruct H2 as [Ha Hb]. split; [done|].
  intros x. cbn. rewrite lookup_insert_eq. intros [= <-]. by apply Hk.
Qed.
Lemma informed_peer l peer peer' ip addr : informed l peer ip addr → ob_our_node_id peer' = ob_our_node_id peer → ob_our_udp_key peer' = ob_our_udp_key peer →
  informed l peer' ip addr.
Proof. intros [H1 H2] Hi Hk. unfold informed, verify_key_for_ip. rewrite Hi, Hk. by split. Qed.
(** A send puts a datagram on the wire that the peer reads as the packet, and changes nothing that receiving looks at. *)
Lemma dispatch_wire r peer ip_s port_s ip port p work_class env : let from := mkSocketAddr (V4 ip_s) port_s in let addr := mkSocketAddr (V4 ip) port in
  informed (ri_obfuscation r) peer ip_s addr → wf_packet p = true → packet_fits p = true → env_good env →
  ∃ r' wire d, dispatch addr p work_class env r = Ok (r', None) ∧ ri_log r' = log_sent (addr, wire) (ri_log r) ∧ ri_pending r' = ri_pending r ∧
    ri_obfuscation r' = ri_obfuscation r ∧ ri_tracker r' = ri_tracker r ∧
    decrypt (E:=NetError) md5 peer from wire = Ok d ∧ decode windows_1252 zlib_decode (de_data d) = Ok (normalize_packet p) ∧
    ∀ k, de_sender_verify_key d = Some k → k = verify_key_for_ip md5 (ri_obfuscation r) ip.
Proof.
  intros from addr Hi Hwf Hfit (Hr & Hd & Hf). unfold Rpc.dispatch. pose proof (encode_total p) as Htot. rewrite Hfit in Htot. destruct Htot as [encoded Henc]. rewrite Henc.
  assert (Hsh : ∃ rest, encoded = OP_KADEMLIAHEADER :: rest).
  { unfold encode in Henc. apply res_bind_Ok in Henc as (body & _ & Hb). injection Hb as <-. rewrite write_u8_small by done. by eexists. }
  destruct Hsh as [rest ->]. set (r1 := observe _ r).
  destruct (encrypt_decrypt (E:=NetError) md5 (ri_obfuscation r1) (ri_obfuscation r1) peer ip_s port_s ip port (opcode p) OP_KADEMLIAHEADER rest
    (se_random_key_part env) (se_draws env) (learns_refl _)) as (wire & He & Hde); [by apply informed_knows|done|done|done|].
  fold addr in He. rewrite He. cbn [mbind res_bind]. rewrite Hf. eexists _, wire, _. do 5 (split; [done|]). split; [exact Hde|].
  fold addr. destruct (oi_mode _); cbn [read_as de_data de_sender_verify_key plaintext_result]; (split; [by apply decode_encode|]); [done|by intros k [= <-]..].
Qed.
Lemma admitted_admit r from p now : admitted r from p now → snd (admits from (in_tracker_bucket (inspect_inbound_packet p)) now r) = true.
Proof. unfold admitted, admits. destruct (in_tracker_bucket _); [|done]. destruct (record_and_check _ _ _) as [tr dec]. cbn [snd]. by intros ->. Qed.
(** What an admitted datagram reaches [deliver] with. *)
Lemma receive_says r from data iter clock d p : decrypt (E:=NetError) md5 (ri_obfuscation r) from data = Ok d → decode windows_1252 zlib_decode (de_data d) = Ok p →
  admitted r from p (clock 0%nat) →
  ∃ r1, receive from data iter clock r = deliver from p d iter (λ i, clock (S i)) r1 ∧ ri_pending r1 = ri_pending r ∧ ri_log r1 = ri_log r ∧ ri_next_id r1 = ri_next_id r ∧
    ri_obfuscation r1 = learn from p (de_sender_verify_key d) (ri_obfuscation r).
Proof.
  intros Hd Hp Ha. unfold Rpc.receive. rewrite Hd. cbn [mbind res_bind]. rewrite Hp. set (r0 := set_obfuscation _ r).
  pose proof (admitted_admit r0 from p (clock 0%nat) Ha) as Had. unfold admits in *. destruct (in_tracker_bucket _); [|by exists r0].
  destruct (record_and_check _ _ _) as [tr dec]. destruct (d_allowed dec); [by eexists|]. by destruct (bool_decide _ && _).
Qed.
Lemma deliver_broadcast r from p d iter clock : (∀ x, x ∈ iter → ip_match from (opcode p) x = false) → is_tracked_response_opcode (opcode p) = false →
  ∃ r' u, deliver from p d iter clock r = Ok r' ∧ lg_unsolicited (ri_log r') = lg_unsolicited (ri_log r) ++ [u] ∧ rk_packet u = p ∧ rk_from u = from ∧
    ri_obfuscation r' = ri_obfuscation r ∧ lg_sent (ri_log r') = lg_sent (ri_log r).
Proof.
  intros Hno Ht. unfold deliver. pose proof (match_pending_spec iter from (opcode p)) as Hm. destruct (match_pending _ _ _) as [id|].
  { destruct Hm as (e & He & Hi & _). by rewrite Hno in Hi. }
  cbn [mbind res_bind]. destruct (tracked_request_opcode_for_response _ _ _ _) as [tr tracked]. rewrite Ht. cbn [andb]. eexists _, _. done.
Qed.
Lemma deliver_answer r from p d iter clock id e : iter ≡ₚ map_to_list (ri_pending r) → ri_pending r !! id = Some e → exact_match from (opcode p) (id, e) = true →
  (∀ i x, ri_pending r !! i = Some x → exact_match from (opcode p) (i, x) = true → i = id) →
  ∃ r', deliver from p d iter clock r = Ok r' ∧ lg_answers (ri_log r') = lg_answers (ri_log r) ++ [(id, p)] ∧ ri_pending r' = delete id (ri_pending r) ∧
    ri_obfuscation r' = ri_obfuscation r.
Proof.
  intros Hiter He Hx Huniq. unfold deliver. pose proof (match_pending_spec iter from (opcode p)) as Hm.
  assert (Hin : (id, e) ∈ iter) by (rewrite Hiter; by apply elem_of_map_to_list). destruct (match_pending _ _ _) as [id'|].
  - destruct Hm as (e' & He' & _ & Hmin). destruct (Hmin _ Hin Hx) as [Hx' _]. rewrite Hiter in He'. apply elem_of_map_to_list in He'.
    rewrite (Huniq _ _ He' Hx'), He. cbn [expect mbind res_bind]. destruct (tracked_request_opcode_for_response _ _ _ _) as [tr tracked]. eexists. done.
  - specialize (Hm _ Hin). unfold exact_match in Hx. unfold ip_match in Hm. bool_hyps. cbn [snd] in *. rewrite bool_decide_true in Hm by (by f_equal). cbn in Hm. lia.
Qed.

(** C11. An exchange completes. Between two nodes whose knowledge of each other is right (which may be nothing), over datagrams in the clear or
    obfuscated in either mode, a request that the peer's flood counter admits is broadcast at the peer as the packet that was sent, up to what
    the wire does not carry, and the peer's answer reaches the request that waits for it and no other, which then no longer waits; what
    the nodes have learned of each other is right as well, so that the next exchange may start from there. *)
Theorem exchange_completes a b ip_a port_a ip_b port_b p q work_class work_class' env env' now iter_b clock_b clock_a :
  let addr_a := mkSocketAddr (V4 ip_a) port_a in let addr_b := mkSocketAddr (V4 ip_b) port_b in let id := ri_next_id a in
  informed (ri_obfuscation a) (ri_obfuscation b) ip_a addr_b → informed (ri_obfuscation b) (ri_obfuscation a) ip_b addr_a →
  honest (ri_obfuscation a) p → honest (ri_obfuscation b) q → wf_packet p = true → packet_fits p = true → wf_packet q = true → packet_fits q = true →
  env_good env → env_good env' → is_tracked_response_opcode (opcode p) = false → ri_pending a !! id = None →
  (∀ i e, ri_pending a !! i = Some e → exact_match addr_b (opcode q) (i, e) = false) → (∀ x, x ∈ iter_b → ip_match addr_a (opcode p) x = false) →
  admitted b addr_a p (clock_b 0%nat) → admitted a addr_b q (clock_a 0%nat) →
  ∃ a1 wire b1 received b2 wire', dispatch addr_b p work_class env (fst (begin_request addr_b p (opcode q) now a)) = Ok (a1, None) ∧
    lg_sent (ri_log a1) = lg_sent (ri_log a) ++ [(addr_b, wire)] ∧
    receive addr_a wire iter_b clock_b b = Ok b1 ∧ lg_unsolicited (ri_log b1) = lg_unsolicited (ri_log b) ++ [received] ∧
    rk_packet received = normalize_packet p ∧ rk_from received = addr_a ∧
    dispatch addr_a q work_class' env' b1 = Ok (b2, None) ∧ lg_sent (ri_log b2) = lg_sent (ri_log b) ++ [(addr_a, wire')] ∧
    ∀ iter_a, iter_a ≡ₚ map_to_list (ri_pending a1) →
      ∃ a2, receive addr_b wire' iter_a clock_a a1 = Ok a2 ∧ lg_answers (ri_log a2) = lg_answers (ri_log a) ++ [(id, normalize_packet q)] ∧
        ri_pending a2 = ri_pending a ∧ informed (ri_obfuscation a2) (ri_obfuscation b2) ip_a addr_b ∧ informed (ri_obfuscation b2) (ri_obfuscation a2) ip_b addr_a.
Proof.
  intros addr_a addr_b id Hab Hba Hhp Hhq Hwp Hfp Hwq Hfq Henv Henv' Htr Hnew Hno Hnob Hadb Hada. set (a0 := fst (begin_request addr_b p (opcode q) now a)).
  destruct (dispatch_wire a0 (ri_obfuscation b) ip_a port_a ip_b port_b p work_class env) as (a1 & wire & d & Hd1 & Hl1 & Hp1 & Ho1 & Ht1 & Hde & Hdec & Hk); [done..|].
  fold addr_a addr_b in Hd1, Hl1, Hde. cbn [a0 begin_request fst set_pending_requests ri_obfuscation ri_log ri_pending ri_tracker] in Hl1, Hp1, Ho1, Ht1, Hk.
  destruct (receive_says b addr_a wire iter_b clock_b d (normalize_packet p)) as (b0 & Hrb & Hpb & Hlb & _ & Hob); [done|done|unfold admitted; by rewrite inspect_normalize|].
  destruct (deliver_broadcast b0 addr_a (normalize_packet p) d iter_b (λ i, clock_b (S i))) as (b1 & u & Hb1 & Hu & Hup & Huf & Hob1 & Hsb1); [by rewrite opcode_normalize..|].
  assert (Hb1a : informed (ri_obfuscation b1) (ri_obfuscation a) ip_b addr_a).
  { rewrite Hob1, Hob. apply learn_informed; [done|unfold honest; by rewrite inspect_normalize|done]. }
  destruct (learn_own addr_a (normalize_packet p) (de_sender_verify_key d) (ri_obfuscation b)) as [Hown1 Hown2]. rewrite <- Hob, <- Hob1 in Hown1, Hown2.
  destruct (dispatch_wire b1 (ri_obfuscation a) ip_b port_b ip_a port_a q work_class' env') as (b2 & wire' & d' & Hd2 & Hl2 & _ & Ho2 & _ & Hde' & Hdec' & Hk'); [done..|].
  fold addr_a addr_b in Hd2, Hl2, Hde'. exists a1, wire, b1, u, b2, wire'. split; [done|]. split; [by rewrite Hl1|]. split; [by rewrite Hrb|].
  split; [by rewrite Hu, Hlb|]. do 3 (split; [done|]). split; [rewrite Hl2; cbn; by rewrite Hsb1, Hlb|]. intros iter_a Hit.
  destruct (receive_says a1 addr_b wire' iter_a clock_a d' (normalize_packet q)) as (a3 & Hra & Hpa & Hla & _ & Hoa);
    [by rewrite Ho1|done|unfold admitted; rewrite inspect_normalize, Ht1; exact Hada|].
  destruct (deliver_answer a3 addr_b (normalize_packet q) d' iter_a (λ i, clock_a (S i)) id (mkPendingEntry addr_b (opcode p) (opcode q) now)) as (a2 & Ha2 & Han & Hpe & Hoe).
  - by rewrite Hpa.
  - rewrite Hpa, Hp1. apply lookup_insert_eq.
  - unfold exact_match. cbn [snd pd_remote_addr pd_expected_opcode]. rewrite opcode_normalize, Z.eqb_refl, bool_decide_true by done. done.
  - intros i x. rewrite Hpa, Hp1, opcode_normalize, lookup_insert_Some. intros [[Heq _]|[_ Hx]]; [by symmetry|]. by rewrite (Hno i x Hx).
  - exists a2. split; [by rewrite Hra|]. split; [by rewrite Han, Hla, Hl1|]. split; [rewrite Hpe, Hpa, Hp1; by apply delete_insert_id|].
    destruct (learn_own addr_b (normalize_packet q) (de_sender_verify_key d') (ri_obfuscation a1)) as [Hown3 Hown4]. rewrite Ho1 in Hoa, Hown3, Hown4. split.
    + rewrite Hoe, Hoa. apply (informed_peer _ (ri_obfuscation b)); [|by rewrite Ho2|by rewrite Ho2]. apply learn_informed; [done|unfold honest; by rewrite inspect_normalize|].
      intros k Hkk. rewrite (Hk' k Hkk). unfold verify_key_for_ip. by rewrite Hown2.
    + rewrite Ho2. apply (informed_peer _ (ri_obfuscation a)); [done|by rewrite Hoe, Hoa..].
Qed.
End exchange.

(** Replies of the firewall check, and acknowledgements of publications, never reach the agent as broadcasts: the requests that they would answer
    are not tracked. *)
Lemma firewall_replies_dropped md5 windows_1252 zlib_decode layer config start es t r u :
  (∀ b, is_bytes b = true → wf_string (windows_1252 b) = true) → (∀ b d, is_bytes b = true → zlib_decode b = Some d → is_bytes d = true) →
  rpc_reach md5 windows_1252 zlib_decode layer config start es t r → u ∈ lg_unsolicited (ri_log r) →
  opcode (rk_packet u) ∉ [FIREWALLED_RES; FIREWALLED_ACK_RES; PUBLISH_RES_ACK].
Proof.
  intros Hw Hz Hr Hu Hop. pose proof (inv_unsolicited _ _ _ _ _ _ _ (reach_inv _ _ _ _ _ _ Hw Hz es t r Hr)) as Hall. rewrite Forall_forall in Hall.
  destruct (Hall u Hu) as (data & iter & clock & d & _ & _ & _ & Ht).
  repeat (apply elem_of_cons in Hop as [Hop|Hop]); [rewrite Hop in Ht..|by apply elem_of_nil in Hop];
    destruct (Ht eq_refl) as (op & time & i & _ & Hin & Htr & _); cbn in Hin; repeat (apply elem_of_cons in Hin as [->|Hin]); try done; by apply elem_of_nil in Hin.
Qed.

(** ** Concrete nodes *)

Definition sample_digest (l : list Z) : list Z := take 16 (l ++ replicate 16 0).
Definition node_a : SocketAddr := mkSocketAddr (V4 (80, 1, 2, 3)) 4672.
Definition node_b : SocketAddr := mkSocketAddr (V4 (90, 4, 5, 6)) 4682.
Definition sample_env : send_env := mkSendEnv 0 0 1 2 0x1234 [0xE6; 0x41] false.
Definition ping_entry : PendingEntry := mkPendingEntry node_b PING PONG 0.
Definition ping_start : RpcInner := rpc_new (layer_new (replicate 16 1) 11 false) rpc_config_default 0.
Definition ping_events : list rpc_event :=
  [RBegin node_b PPing PONG 0; RDispatch node_b PPing WInteractive sample_env; RReceive node_b [0xE4; 0x61; 0x35; 0x12] [(0, ping_entry)] (λ _, 5)].
Definition run_events (es : list rpc_event) (r : RpcInner) : RpcInner :=
  foldl (λ r e, match rpc_step sample_digest (λ _, []) (λ _, None) e r with Ok r' => r' | _ => r end) r es.
Lemma ping_reach : rpc_reach sample_digest (λ _, []) (λ _, None) (layer_new (replicate 16 1) 11 false) rpc_config_default 0 ping_events 5 (run_events ping_events ping_start).
Proof.
  apply (reach_step _ _ _ _ _ _ (take 2 ping_events) 2 (run_events (take 2 ping_events) ping_start)).
  - apply (reach_step _ _ _ _ _ _ (take 1 ping_events) 0 (run_events (take 1 ping_events) ping_start)).
    + apply (reach_step _ _ _ _ _ _ [] 0 ping_start); [apply reach_new|done|done].
    + done.
    + vm_compute. reflexivity.
  - split; [done|]. split; [vm_compute; reflexivity|]. split; [done|]. done.
  - vm_compute. reflexivity.
Qed.
Lemma answers_requested_witness :
  lg_answers (ri_log (run_events ping_events ping_start)) = [(0, PPong (mkPong 0x1235))] ∧
  NoDup (lg_answers (ri_log (run_events ping_events ping_start))).*1.
Proof.
  split; [vm_compute; reflexivity|].
  apply (answers_requested sample_digest (λ _, []) (λ _, None) (layer_new (replicate 16 1) 11 false) rpc_config_default 0 ltac:(done) ltac:(done) ping_events 5).
  exact ping_reach.
Defined.

(** A node that knows the identity of another, which knows nothing of it: the request is obfuscated and so is, with what it taught, the answer. *)
Definition hello_a : RpcInner := rpc_new (register_peer_identity node_b (replicate 16 2) (layer_new (replicate 16 1) 11 true)) rpc_config_default 0.
Definition hello_b : RpcInner := rpc_new (layer_new (replicate 16 2) 22 true) rpc_config_default 0.
Definition hello_request : KadPacket := PHelloReq (mkHelloReq (replicate 16 1) 4662 9 []).
Definition hello_response : KadPacket := PHelloRes (mkHelloRes (replicate 16 2) 4663 9 []).
Lemma exchange_completes_witness : ∃ a1 wire b1,
  dispatch sample_digest node_b hello_request WInteractive sample_env (fst (begin_request node_b hello_request HELLO_RES 0 hello_a)) = Ok (a1, None) ∧
  receive sample_digest (λ _, []) (λ _, None) node_a wire [] (λ _, 5) hello_b = Ok b1 ∧ rk_packet <$> lg_unsolicited (ri_log b1) = [hello_request].
Proof.
  destruct (exchange_completes sample_digest (λ _, []) (λ _, None) hello_a hello_b (80, 1, 2, 3) 4672 (90, 4, 5, 6) 4682 hello_request hello_response WInteractive WInteractive
    sample_env sample_env 0 [] (λ _, 5) (λ _, 9)) as (a1 & wire & b1 & u & b2 & wire' & H1 & _ & H2 & H3 & H4 & _).
  - split; [|intros key Hkey; discriminate Hkey]. intros i Hi. vm_compute in Hi. injection Hi as <-. reflexivity.
  - split; intros x Hx; discriminate Hx.
  - intros i Hi. injection Hi as <-. reflexivity.
  - intros i Hi. injection Hi as <-. reflexivity.
  - reflexivity.
  - reflexivity.
  - reflexivity.
  - reflexivity.
  - split; [done|]. split; [|done]. split; [done|]. intros []; vm_compute; by eexists.
  - split; [done|]. split; [|done]. split; [done|]. intros []; vm_compute; by eexists.
  - reflexivity.
  - reflexivity.
  - intros i e He. discriminate He.
  - intros x Hx. by apply elem_of_nil in Hx.
  - reflexivity.
  - exact I.
  - exists a1, wire, b1. split; [exact H1|]. split; [exact H2|]. rewrite H3. cbn. rewrite H4. reflexivity.
Defined.

(** A request that its task gave up stays in the table, as nothing removes it, and takes the answer to the next one, which waits in vain. *)
Example abandoned_takes_answer :
  let r := run_events [RBegin node_b PPing PONG 0; RBegin node_b PPing PONG 1; RReceive node_b [0xE4; 0x61; 0x35; 0x12] [(0, ping_entry); (1, mkPendingEntry node_b PING PONG 1)] (λ _, 5)] ping_start in
  lg_answers (ri_log r) = [(0, PPong (mkPong 0x1235))] ∧ is_Some (ri_pending r !! 1).
Proof. split; vm_compute; [reflexivity|by eexists]. Qed.

(** The default budget of eight packets in a second: eight at once, the ninth after an eighth of a second. *)
Example limiter_budget :
  (fix go (n : nat) (l : RateLimiter) := match n with O => [] | S n' => let '(l', b) := try_acquire l 0 in b :: go n' l' end) 9%nat (limiter_new 8 0) =
    [true; true; true; true; true; true; true; true; false] ∧
  snd (acquire_loop (mkLimiter 8 (f64_of 0) 0) [100000000; 124999999]) = false ∧ snd (acquire_loop (mkLimiter 8 (f64_of 0) 0) [125000000]) = true.
Proof. repeat split; vm_compute; reflexivity. Qed.
