(* ===== verification/NodesDat.v ===== *)
(** * Bootstrap contacts and [nodes.dat]

    Models [overlord-kad-dht/src/bootstrap.rs] (the formats of persisted contact
    lists, their parser and writer, the plain-text list and the built-in one) and
    [error.rs]. [str::trim] and the parsing of socket addresses are parameters. *)

From S2P Require Import Prelude Net NodeId Utf8 Wire Tag PacketTypes Packet Contact Rpc.

(** ** Data *)

Inductive DhtError : Type :=
| DNet (e : NetError)
| NoBootstrapNodes
| BootstrapFailed
| SearchTimeout
| PublishFailed
| DRouting (e : RoutingError)
| DIo
| NodesDatParse
| SemaphoreClosed
| UnexpectedPacket.

Record NodesDatEntry : Type := mkDat { nd_node_id : NodeId; nd_ip : Z; nd_udp_port : Z; nd_tcp_port : Z; nd_version : Z }.
Record NodesDatEntryExt : Type := mkDatExt {
  nx_node_id : NodeId;
  nx_ip : Z;
  nx_udp_port : Z;
  nx_tcp_port : Z;
  nx_version : Z;
  nx_contact_type : Z;
  nx_last_seen : Z;
  nx_udp_key : Z;
}.
Record BootstrapContact : Type := mkBootstrap {
  bc_node_id : NodeId;
  bc_ip : Ipv4Addr;
  bc_udp_port : Z;
  bc_tcp_port : Z;
  bc_version : Z;
  bc_udp_key : KadUdpKey;
}.

(** ** The derived codecs *)

Definition read_NodesDatEntry : reader BinErr NodesDatEntry :=
  node_id ← read_id; ip ← read_u32; udp_port ← read_u16; tcp_port ← read_u16; version ← read_u8;
  mret (mkDat node_id ip udp_port tcp_port version).
Definition write_NodesDatEntry (e : NodesDatEntry) : list Z :=
  write_id (nd_node_id e) ++ write_u32 (nd_ip e) ++ write_u16 (nd_udp_port e) ++ write_u16 (nd_tcp_port e) ++ write_u8 (nd_version e).
Definition read_NodesDatEntryExt : reader BinErr NodesDatEntryExt :=
  node_id ← read_id; ip ← read_u32; udp_port ← read_u16; tcp_port ← read_u16; version ← read_u8;
  contact_type ← read_u8; last_seen ← read_u32; udp_key ← read_u32;
  mret (mkDatExt node_id ip udp_port tcp_port version contact_type last_seen udp_key).
Definition write_NodesDatEntryExt (e : NodesDatEntryExt) : list Z :=
  write_id (nx_node_id e) ++ write_u32 (nx_ip e) ++ write_u16 (nx_udp_port e) ++ write_u16 (nx_tcp_port e) ++ write_u8 (nx_version e) ++
  write_u8 (nx_contact_type e) ++ write_u32 (nx_last_seen e) ++ write_u32 (nx_udp_key e).

(** ** Parsing *)

(** [cursor.read_le().map_err(|_| DhtError::NodesDatParse)] *)
Definition dat {A} (m : reader BinErr A) : reader DhtError A := rmap_err (λ _, NodesDatParse) m.
Definition read_edition_and_count : reader DhtError Z := _edition ← dat read_u32; dat read_u32.
(** The header: the announced count of contacts. *)
Definition read_count : reader DhtError Z :=
  first ← dat read_u32;
  if first =? 0 then
    version ← dat read_u32;
    if version =? 2 then dat read_u32
    else if version =? 3 then read_edition_and_count
    else rfail NodesDatParse
  else if first =? 2 then dat read_u32
  else if first =? 3 then read_edition_and_count
  else mret first.
Definition MAX_NODES_DAT_COUNT : Z := 500000.
(** One round of the loop: the fields that are kept of an entry of either size. *)
Definition read_contact (extended : bool) : reader DhtError (NodeId * Z * Z * Z * Z * KadUdpKey) :=
  if extended then
    e ← dat read_NodesDatEntryExt;
    mret (nx_node_id e, nx_ip e, nx_udp_port e, nx_tcp_port e, nx_version e, nx_udp_key e)
  else
    e ← dat read_NodesDatEntry;
    mret (nd_node_id e, nd_ip e, nd_udp_port e, nd_tcp_port e, nd_version e, KadUdpKey_ZERO).
Definition usable (fields : NodeId * Z * Z * Z * Z * KadUdpKey) : option BootstrapContact :=
  let '(node_id, ip, udp_port, tcp_port, version, udp_key) := fields in
  if (ip =? 0) || (udp_port =? 0) then None
  else Some (mkBootstrap node_id (ipv4_from_u32 ip) udp_port tcp_port version udp_key).
Fixpoint read_contacts (count : nat) (extended : bool) : reader DhtError (list BootstrapContact) :=
  match count with
  | O => mret []
  | S count' =>
      fields ← read_contact extended;
      contacts ← read_contacts count' extended;
      mret (option_list (usable fields) ++ contacts)
  end.
Definition parse_nodes_dat (data : list Z) : res DhtError (list BootstrapContact) :=
  if zlen data <? 8 then Err NodesDatParse
  else
    '(count, rest) ← read_count data;
    if (count =? 0) || (MAX_NODES_DAT_COUNT <? count) then Ok []
    else
      let header_end := zlen data - zlen rest in
      let remaining := saturating_sub (zlen data) header_end in
      let entry_size := remaining / count in
      '(contacts, _) ← read_contacts (Z.to_nat count) (34 <=? entry_size) rest;
      Ok contacts.

(** ** Writing *)

Definition dat_entry (contact : BootstrapContact) : NodesDatEntryExt :=
  mkDatExt (bc_node_id contact) (ip_val (bc_ip contact)) (bc_udp_port contact) (bc_tcp_port contact) (bc_version contact) 2 0 (bc_udp_key contact).
(** Writes into a vector do not fail. *)
Definition encode_nodes_dat (contacts : list BootstrapContact) : res DhtError (list Z) :=
  Ok (write_u32 0 ++ write_u32 2 ++ write_u32 (zlen contacts mod 2 ^ 32) ++
      flat_map (λ contact, write_NodesDatEntryExt (dat_entry contact)) contacts).

(** ** Text lists *)

(** [str::lines]: the pieces between newlines, without a carriage return before
    the newline and without an empty last piece. *)
Definition strip_cr (line : list Z) : list Z :=
  match last line with Some 13 => take (length line - 1) line | _ => line end.
Fixpoint lines_from (line : list Z) (text : list Z) : list (list Z) :=
  match text with
  | [] => match line with [] => [] | _ => [line] end
  | 10 :: text' => strip_cr line :: lines_from [] text'
  | c :: text' => lines_from (line ++ [c]) text'
  end.
Definition lines (text : list Z) : list (list Z) := lines_from [] text.

Section text.
Context (trim : list Z → list Z) (socket_from_str : list Z → option SocketAddr).
Definition parse_nodes_line (line : list Z) : option BootstrapContact :=
  let line := trim line in
  match line with
  | [] => None
  | 35 :: _ => None
  | _ =>
      match socket_from_str line with
      | Some (mkSocketAddr (V4 ip) port) => Some (mkBootstrap NodeId_ZERO ip port port 9 KadUdpKey_ZERO)
      | _ => None
      end
  end.
Definition parse_nodes_text (text : list Z) : list BootstrapContact := omap parse_nodes_line (lines text).
End text.

(** ** Built-in contacts *)

Definition bc (ip : Ipv4Addr) (udp tcp ver : Z) : BootstrapContact := mkBootstrap NodeId_ZERO ip udp tcp ver KadUdpKey_ZERO.
Definition hardcoded_bootstrap : list BootstrapContact :=
  [ bc (37, 222, 82, 145) 46772 46762 10; bc (99, 105, 56, 85) 4672 4662 8; bc (87, 220, 164, 19) 6763 35771 10;
    bc (81, 29, 181, 79) 4672 4662 8; bc (81, 57, 54, 56) 4672 4662 8; bc (83, 54, 4, 165) 20000 10000 9;
    bc (93, 44, 81, 49) 17953 45230 10; bc (81, 41, 182, 56) 58226 58226 10; bc (50, 191, 141, 58) 6802 6800 9;
    bc (37, 134, 60, 141) 13795 19926 9; bc (86, 63, 39, 150) 50535 4662 8; bc (79, 9, 95, 42) 21000 21000 10;
    bc (83, 37, 242, 162) 63100 63100 10; bc (176, 107, 153, 122) 4672 4662 8; bc (95, 237, 210, 130) 47533 47523 8;
    bc (37, 15, 139, 100) 4663 4653 8; bc (151, 60, 189, 25) 4672 4662 10; bc (111, 250, 66, 140) 4672 4662 8;
    bc (85, 60, 24, 134) 4672 4662 8; bc (151, 242, 30, 126) 14672 14662 8; bc (82, 84, 74, 202) 9126 9125 9;
    bc (5, 157, 122, 191) 4672 4662 8; bc (79, 116, 194, 103) 9507 5329 10; bc (180, 177, 59, 39) 4672 4662 8;
    bc (81, 57, 92, 93) 46720 46620 8; bc (79, 117, 36, 185) 29881 28887 8; bc (88, 5, 100, 118) 6011 5011 9;
    bc (213, 23, 236, 199) 4672 4661 10; bc (87, 13, 47, 77) 4672 4662 8; bc (116, 30, 129, 71) 1030 5000 9;
    bc (109, 134, 251, 8) 54664 28253 9; bc (88, 25, 142, 235) 4672 4662 8; bc (87, 222, 156, 134) 4292 45129 9;
    bc (185, 185, 198, 46) 4672 4662 8; bc (27, 147, 28, 182) 14672 14662 9; bc (2, 236, 249, 112) 4672 4662 10;
    bc (118, 118, 237, 130) 4672 4662 8; bc (94, 166, 10, 173) 4672 4662 8; bc (88, 26, 10, 158) 7523 46242 9;
    bc (62, 220, 83, 189) 4672 4662 10; bc (109, 117, 111, 98) 46672 46662 8; bc (118, 168, 40, 184) 8181 8080 9;
    bc (128, 116, 245, 196) 4672 4662 9; bc (120, 36, 84, 51) 4672 4662 8; bc (79, 116, 189, 91) 8882 8881 8;
    bc (79, 117, 24, 252) 26899 26889 8; bc (82, 84, 102, 19) 4672 4662 8; bc (87, 180, 171, 132) 4672 4662 8;
    bc (88, 27, 31, 76) 4672 4662 8; bc (1, 36, 40, 170) 7762 59235 10 ].

(** ** Specification *)

(** The headers of the known formats, and the entries of either size. *)
Inductive dat_header : Type := MagicV2 | MagicV3 (edition : Z) | PlainV2 | PlainV3 (edition : Z) | LegacyCount.
Definition write_header (h : dat_header) (count : Z) : list Z :=
  match h with
  | MagicV2 => write_u32 0 ++ write_u32 2 ++ write_u32 count
  | MagicV3 edition => write_u32 0 ++ write_u32 3 ++ write_u32 edition ++ write_u32 count
  | PlainV2 => write_u32 2 ++ write_u32 count
  | PlainV3 edition => write_u32 3 ++ write_u32 edition ++ write_u32 count
  | LegacyCount => write_u32 count
  end.
(** A legacy count that is not taken for a version. *)
Definition header_ok (h : dat_header) (count : Z) : bool :=
  match h with
  | MagicV3 edition | PlainV3 edition => is_u32 edition
  | LegacyCount => negb (count =? 2) && negb (count =? 3)
  | _ => true
  end.
Inductive dat_entries : Type := Basic (l : list NodesDatEntry) | Extended (l : list NodesDatEntryExt).
Definition write_entries (es : dat_entries) : list Z :=
  match es with Basic l => flat_map write_NodesDatEntry l | Extended l => flat_map write_NodesDatEntryExt l end.
Definition count_entries (es : dat_entries) : nat := match es with Basic l => length l | Extended l => length l end.
Definition wf_dat (e : NodesDatEntry) : bool :=
  wf_NodeId (nd_node_id e) && is_u32 (nd_ip e) && is_u16 (nd_udp_port e) && is_u16 (nd_tcp_port e) && is_u8 (nd_version e).
Definition wf_dat_ext (e : NodesDatEntryExt) : bool :=
  wf_NodeId (nx_node_id e) && is_u32 (nx_ip e) && is_u16 (nx_udp_port e) && is_u16 (nx_tcp_port e) && is_u8 (nx_version e) &&
  is_u8 (nx_contact_type e) && is_u32 (nx_last_seen e) && is_u32 (nx_udp_key e).
Definition wf_entries (es : dat_entries) : bool := match es with Basic l => forallb wf_dat l | Extended l => forallb wf_dat_ext l end.
(** The contacts that entries stand for: those with an address and a port. *)
Definition contacts_of (es : dat_entries) : list BootstrapContact :=
  match es with
  | Basic l => omap (λ e, usable (nd_node_id e, nd_ip e, nd_udp_port e, nd_tcp_port e, nd_version e, KadUdpKey_ZERO)) l
  | Extended l => omap (λ e, usable (nx_node_id e, nx_ip e, nx_udp_port e, nx_tcp_port e, nx_version e, nx_udp_key e)) l
  end.
(** Bytes after basic entries are not enough to take them for extended ones. *)
Definition tail_ok (es : dat_entries) (tail : list Z) : bool :=
  match es with Basic l => zlen tail <? 9 * zlen l | Extended _ => true end.

Definition wf_bootstrap (c : BootstrapContact) : bool :=
  wf_NodeId (bc_node_id c) && wf_ip (bc_ip c) && is_u16 (bc_udp_port c) && is_u16 (bc_tcp_port c) && is_u8 (bc_version c) && is_u32 (bc_udp_key c).
Definition reachable (c : BootstrapContact) : bool := negb (bool_decide (bc_ip c = (0, 0, 0, 0))) && negb (bc_udp_port c =? 0).

(** ** Lemmas *)

Lemma parses_dat {A} (r : reader BinErr A) bs x : parses r bs x → parses (dat r) bs x.
Proof. apply parses_rmap. Qed.
#[local] Hint Resolve parses_dat : rust.

Lemma parses_entry e : wf_dat e = true → parses read_NodesDatEntry (write_NodesDatEntry e) e.
Proof.
  unfold wf_dat, write_NodesDatEntry, read_NodesDatEntry. intros H. bool_hyps. destruct e as [id ip up tp v]; cbn in *.
  repeat (eapply parses_bind; [eauto with rust|]). eapply parses_bind_ret; eauto with rust.
Qed.
Lemma parses_entry_ext e : wf_dat_ext e = true → parses read_NodesDatEntryExt (write_NodesDatEntryExt e) e.
Proof.
  unfold wf_dat_ext, write_NodesDatEntryExt, read_NodesDatEntryExt. intros H. bool_hyps. destruct e as [id ip up tp v ct ls uk]; cbn in *.
  repeat (eapply parses_bind; [eauto with rust|]). eapply parses_bind_ret; eauto with rust.
Qed.
Lemma parses_read_count h count : is_u32 count = true → count ≠ 0 → header_ok h count = true →
  parses read_count (write_header h count) count.
Proof.
  intros Hc Hn Hh. unfold read_count, read_edition_and_count.
  destruct h; cbn [write_header header_ok] in *; bool_hyps;
    (eapply parses_bind || (rewrite <- (app_nil_r (write_u32 count)); eapply parses_bind)); try by eauto with rust.
  all: cbn; try (eapply parses_bind; [by eauto with rust|]); cbn; try (eapply parses_bind; [by eauto with rust|]); cbn; eauto with rust.
  rewrite (proj2 (Z.eqb_neq _ _)), (proj2 (Z.eqb_neq _ _)), (proj2 (Z.eqb_neq _ _)) by done. eauto with rust.
Qed.

Lemma parses_dat_contacts {T} extended (w : T → list Z) (f : T → NodeId * Z * Z * Z * Z * KadUdpKey) l :
  (∀ e, e ∈ l → parses (read_contact extended) (w e) (f e)) →
  parses (read_contacts (length l) extended) (flat_map w l) (omap (λ e, usable (f e)) l).
Proof.
  induction l as [|e l IH]; intros Hl; [apply parses_ret|]. cbn [length read_contacts flat_map].
  replace (omap _ (e :: l)) with (option_list (usable (f e)) ++ omap (λ e, usable (f e)) l) by (cbn; by case_match).
  eapply parses_bind; [apply Hl; set_solver|]. apply (parses_bind_ret _ (app (option_list (usable (f e))))), IH. set_solver.
Qed.
Definition extended (es : dat_entries) : bool := match es with Extended _ => true | Basic _ => false end.
Lemma parses_read_contacts es : wf_entries es = true →
  parses (read_contacts (count_entries es) (extended es)) (write_entries es) (contacts_of es).
Proof.
  destruct es as [l|l]; intros Hl; cbn [wf_entries] in Hl; rewrite forallb_elem in Hl; apply parses_dat_contacts; intros e He.
  - apply (parses_bind_ret (dat _) (λ e, (nd_node_id e, nd_ip e, nd_udp_port e, nd_tcp_port e, nd_version e, KadUdpKey_ZERO))), parses_dat.
    by apply parses_entry, Hl.
  - apply (parses_bind_ret (dat _) (λ e, (nx_node_id e, nx_ip e, nx_udp_port e, nx_tcp_port e, nx_version e, nx_udp_key e))), parses_dat.
    by apply parses_entry_ext, Hl.
Qed.
Lemma length_entry e : wf_dat e = true → length (write_NodesDatEntry e) = 25%nat.
Proof.
  unfold wf_dat. intros H. bool_hyps. unfold write_NodesDatEntry.
  rewrite !length_app, length_write_id, !length_write_u16, length_write_u32, length_write_u8.
  by match goal with H : wf_NodeId _ = true |- _ => apply wf_NodeId_spec in H as [-> _] end.
Qed.
Lemma length_entry_ext e : wf_dat_ext e = true → length (write_NodesDatEntryExt e) = 34%nat.
Proof.
  unfold wf_dat_ext. intros H. bool_hyps. unfold write_NodesDatEntryExt.
  rewrite !length_app, length_write_id, !length_write_u16, !length_write_u32, !length_write_u8.
  by match goal with H : wf_NodeId _ = true |- _ => apply wf_NodeId_spec in H as [-> _] end.
Qed.
Lemma length_flat_map_const {A B} (f : A → list B) n l : (∀ x, x ∈ l → length (f x) = n) → length (flat_map f l) = (n * length l)%nat.
Proof. induction l as [|x l IH]; intros H; cbn; [lia|]. rewrite length_app, H, IH by set_solver. lia. Qed.
Definition entry_len (es : dat_entries) : Z := if extended es then 34 else 25.
Lemma length_entries es : wf_entries es = true → zlen (write_entries es) = entry_len es * Z.of_nat (count_entries es).
Proof.
  destruct es as [l|l]; intros Hl; cbn [wf_entries] in Hl; rewrite forallb_elem in Hl; unfold zlen; cbn.
  - rewrite (length_flat_map_const _ 25); [lia|]. intros x Hx. by apply length_entry, Hl.
  - rewrite (length_flat_map_const _ 34); [lia|]. intros x Hx. by apply length_entry_ext, Hl.
Qed.
Lemma length_header h count : 4 ≤ zlen (write_header h count).
Proof. destruct h; unfold zlen; cbn; rewrite ?length_app, ?length_write_u32; lia. Qed.

(** The size of an entry is found from the bytes that remain. *)
Lemma entry_size_spec es tail : wf_entries es = true → (0 < count_entries es)%nat → tail_ok es tail = true →
  (34 <=? zlen (write_entries es ++ tail) / Z.of_nat (count_entries es)) = extended es.
Proof.
  intros Hw Hn Ht. unfold zlen at 1. rewrite length_app, Nat2Z.inj_add. fold (zlen (write_entries es)) (zlen tail). rewrite length_entries by done.
  assert (0 ≤ zlen tail) by (unfold zlen; lia). set (n := Z.of_nat _) in *. assert (0 < n) by lia.
  unfold entry_len. destruct es as [l|l]; cbn in Ht |- *; bool_hyps.
  - apply Z.leb_gt, Z.div_lt_upper_bound; [lia|]. unfold zlen in *. cbn in n. lia.
  - apply Z.leb_le, Z.div_le_lower_bound; lia.
Qed.

Lemma parse_layout h es tail :
  wf_entries es = true → 0 < Z.of_nat (count_entries es) ≤ MAX_NODES_DAT_COUNT →
  header_ok h (Z.of_nat (count_entries es)) = true → tail_ok es tail = true →
  parse_nodes_dat (write_header h (Z.of_nat (count_entries es)) ++ write_entries es ++ tail) = Ok (contacts_of es).
Proof.
  intros Hw Hn Hh Ht. unfold parse_nodes_dat. set (n := Z.of_nat _) in *.
  assert (Hlen : 8 ≤ zlen (write_header h n ++ write_entries es ++ tail)).
  { pose proof (length_header h n). pose proof (length_entries es Hw) as He. unfold zlen in *. rewrite !length_app.
    unfold entry_len in He. destruct (extended es); lia. }
  rewrite (proj2 (Z.ltb_ge _ _)) by done. unfold MAX_NODES_DAT_COUNT in *.
  rewrite (parses_read_count h n) by (try apply is_u32_spec; done || lia). cbn.
  rewrite (proj2 (Z.eqb_neq n 0)), (proj2 (Z.ltb_ge 500000 n)) by lia. cbn.
  replace (saturating_sub _ _) with (zlen (write_entries es ++ tail)) by (unfold saturating_sub, zlen in *; lia).
  subst n. rewrite entry_size_spec, Nat2Z.id by (done || lia). by rewrite (parses_read_contacts es Hw).
Qed.
Lemma wf_ipv4_from_u32 z : wf_ip (ipv4_from_u32 z) = true.
Proof.
  unfold ipv4_from_u32, wf_ip, to_be_bytes. cbn [to_le_bytes rev app is_bytes forallb]. rewrite !andb_true_iff, !is_u8_spec.
  repeat split; apply Z.mod_pos_bound; lia.
Qed.
Lemma ipv4_from_ip_val ip : wf_ip ip = true → ipv4_from_u32 (ip_val ip) = ip.
Proof.
  intros H. apply ip_val_inj; [apply wf_ipv4_from_u32|done|]. apply ip_val_from_u32, is_u32_spec, ip_val_bound, H.
Qed.
#[local] Arguments ip_val : simpl never.
#[local] Arguments ipv4_from_u32 : simpl never.
Lemma usable_dat_entry c : wf_bootstrap c = true →
  let e := dat_entry c in
  usable (nx_node_id e, nx_ip e, nx_udp_port e, nx_tcp_port e, nx_version e, nx_udp_key e) = if reachable c then Some c else None.
Proof.
  unfold wf_bootstrap, reachable. intros H. bool_hyps. destruct c as [id ip up tp v k]; cbn in *.
  assert (Hz : (ip_val ip =? 0) = bool_decide (ip = (0, 0, 0, 0))).
  { case_bool_decide as E; [by subst|]. apply Z.eqb_neq. intros E'. apply E, ip_val_inj; done. }
  rewrite Hz, ipv4_from_ip_val by done. by destruct (bool_decide _), (up =? 0).
Qed.
Lemma wf_dat_entry c : wf_bootstrap c = true → wf_dat_ext (dat_entry c) = true.
Proof.
  unfold wf_bootstrap, wf_dat_ext. intros H. bool_hyps. cbn. rewrite !andb_true_iff. repeat split; try done.
  by apply is_u32_spec, ip_val_bound.
Qed.
Lemma encode_layout contacts : zlen contacts < 2 ^ 32 →
  encode_nodes_dat contacts = Ok (write_header MagicV2 (zlen contacts) ++ write_entries (Extended (dat_entry <$> contacts)) ++ []).
Proof.
  intros H. unfold encode_nodes_dat. rewrite Z.mod_small by (unfold zlen in *; lia). cbn [write_header write_entries]. rewrite app_nil_r, <- !app_assoc.
  do 4 f_equal. induction contacts as [|c l IH]; [done|]. cbn. f_equal. apply IH. unfold zlen in *. cbn in H. lia.
Qed.
Lemma contacts_of_dat contacts : forallb wf_bootstrap contacts = true →
  contacts_of (Extended (dat_entry <$> contacts)) = List.filter reachable contacts.
Proof.
  induction contacts as [|c l IH]; cbn [forallb]; [done|]. intros H. bool_hyps. cbn [contacts_of] in *. cbn [fmap list_fmap omap list_omap List.filter].
  rewrite usable_dat_entry by done. destruct (reachable c); [f_equal|]; by apply IH.
Qed.

(** What is written reads back, up to contacts without an address or a port. *)
Lemma nodes_dat_roundtrip contacts : forallb wf_bootstrap contacts = true → zlen contacts ≤ MAX_NODES_DAT_COUNT →
  ∃ bytes, encode_nodes_dat contacts = Ok bytes ∧ parse_nodes_dat bytes = Ok (List.filter reachable contacts).
Proof.
  intros Hw Hn. eexists. split; [apply encode_layout; unfold MAX_NODES_DAT_COUNT in *; lia|].
  destruct contacts as [|c l]; [done|]. set (cs := c :: l) in *.
  assert (Hlen : Z.of_nat (count_entries (Extended (dat_entry <$> cs))) = zlen cs) by (cbn [count_entries]; by rewrite length_fmap).
  rewrite <- contacts_of_dat, <- Hlen by done. apply parse_layout; [|rewrite Hlen; split; [unfold cs, zlen; cbn; lia|done]|done|done].
  cbn [wf_entries]. apply forallb_elem. pose proof (proj1 (forallb_elem _ _) Hw) as Hw'. intros e (c' & -> & Hc')%list_elem_of_fmap. by apply wf_dat_entry, Hw'.
Qed.

(** *** Any bytes *)

Definition wf_fields (fields : NodeId * Z * Z * Z * Z * KadUdpKey) : bool :=
  let '(node_id, ip, udp_port, tcp_port, version, udp_key) := fields in
  wf_NodeId node_id && is_u32 ip && is_u16 udp_port && is_u16 tcp_port && is_u8 version && is_u32 udp_key.
Definition wf_contacts (n : nat) (l : list BootstrapContact) : bool :=
  (length l <=? n)%nat && forallb (λ c, wf_bootstrap c && reachable c) l.
Lemma typed_dat {A} (r : reader BinErr A) P : typed r P → typed (dat r) P.
Proof. apply typed_rmap. Qed.
#[local] Hint Resolve typed_u8 typed_u16 typed_u32 typed_id typed_dat : typed.
Lemma typed_contact extended : typed (read_contact extended) wf_fields.
Proof.
  unfold read_contact. destruct extended.
  - apply (typed_bind _ _ wf_dat_ext).
    { apply typed_dat. unfold read_NodesDatEntryExt. repeat (eapply typed_bind; [by auto with typed|intros ? ?]). apply typed_ret.
      unfold wf_dat_ext. cbn. by rewrite !andb_true_iff. }
    intros e He. apply typed_ret. unfold wf_dat_ext in He. bool_hyps. cbn. by rewrite !andb_true_iff.
  - apply (typed_bind _ _ wf_dat).
    { apply typed_dat. unfold read_NodesDatEntry. repeat (eapply typed_bind; [by auto with typed|intros ? ?]). apply typed_ret.
      unfold wf_dat. cbn. by rewrite !andb_true_iff. }
    intros e He. apply typed_ret. unfold wf_dat in He. bool_hyps. cbn. by rewrite !andb_true_iff.
Qed.
Lemma usable_wf fields c : wf_fields fields = true → usable fields = Some c → wf_bootstrap c && reachable c = true.
Proof.
  destruct fields as [[[[[id ip] up] tp] v] k]. unfold usable. cbn. intros H. destruct (_ || _) eqn:E; [done|]. intros [= <-]. bool_hyps.
  unfold wf_bootstrap, reachable. cbn. rewrite wf_ipv4_from_u32, !andb_true_iff, !negb_true_iff, bool_decide_eq_false. repeat split; try done.
  - intros Hz. assert (Hv : ip_val (ipv4_from_u32 ip) = ip) by by apply ip_val_from_u32. rewrite Hz in Hv. by subst ip.
  - by apply Z.eqb_neq.
Qed.
Lemma typed_contacts n extended : typed (read_contacts n extended) (wf_contacts n).
Proof.
  induction n as [|n IH]; cbn [read_contacts]; [by apply typed_ret|]. eapply typed_bind; [apply typed_contact|]. intros f Hf.
  eapply typed_bind; [exact IH|]. intros l Hl. apply typed_ret. unfold wf_contacts in *. bool_hyps.
  rewrite forallb_app, !andb_true_iff. destruct (usable f) as [c|] eqn:E; repeat split; try done; try (apply Nat.leb_le; cbn; lia).
  change (wf_bootstrap c && reachable c && true = true). by rewrite (usable_wf f c Hf E).
Qed.
Lemma typed_count : typed read_count is_u32.
Proof.
  unfold read_count, read_edition_and_count. eapply typed_bind; [auto with typed|]. intros a Ha.
  repeat (case_match || (eapply typed_bind; [by auto with typed|intros ? ?])); auto using typed_fail, typed_ret with typed.
Qed.

Lemma dat_error {A} (r : reader BinErr A) l e : dat r l = Err e → e = NodesDatParse.
Proof. unfold dat, rmap_err. destruct (r l); by intros [=]. Qed.
(** The readers of the file have only one error. *)
Definition one_error {A} (r : reader DhtError A) : Prop := ∀ l e, r l = Err e → e = NodesDatParse.
Lemma one_error_dat {A} (r : reader BinErr A) : one_error (dat r).
Proof. intros l e. apply dat_error. Qed.
Lemma one_error_ret {A} (a : A) : one_error (mret a).
Proof. by intros l e. Qed.
Lemma one_error_bind {A B} (r : reader DhtError A) (k : A → reader DhtError B) : one_error r → (∀ a, one_error (k a)) → one_error (r ≫= k).
Proof. intros Hr Hk l e. rewrite reader_bind_unfold. destruct (r l) as [[a l']|e'|] eqn:E; [apply Hk|intros [= <-]; by eapply Hr|done]. Qed.
Lemma count_error : one_error read_count.
Proof.
  unfold read_count, read_edition_and_count. apply one_error_bind; [apply one_error_dat|]. intros a.
  repeat (case_match || (apply one_error_bind; [apply one_error_dat|intros ?])); auto using one_error_dat, one_error_ret. by intros l e [= <-].
Qed.
Lemma contacts_error n extended : one_error (read_contacts n extended).
Proof.
  induction n as [|n IH]; cbn [read_contacts]; [apply one_error_ret|]. apply one_error_bind.
  - unfold read_contact. destruct extended; (apply one_error_bind; [apply one_error_dat|intros ?; apply one_error_ret]).
  - intros f. apply one_error_bind; [exact IH|]. intros l. apply one_error_ret.
Qed.

Lemma parse_any data : is_bytes data = true →
  parse_nodes_dat data = Err NodesDatParse ∨
  ∃ l, parse_nodes_dat data = Ok l ∧ zlen l ≤ MAX_NODES_DAT_COUNT ∧ forallb (λ c, wf_bootstrap c && reachable c) l = true.
Proof.
  intros Hd. unfold parse_nodes_dat. case_match; [by left|].
  pose proof (typed_count data Hd) as Hc. pose proof (count_error data) as He. destruct (read_count data) as [[n rest]|e|]; cbn; [|left; by rewrite (He e eq_refl)|done].
  destruct Hc as [Hn%is_u32_spec Hr]. destruct (_ || _) eqn:E; [right; by eexists|]. bool_hyps.
  set (b := 34 <=? _). pose proof (typed_contacts (Z.to_nat n) b rest Hr) as Ht. pose proof (contacts_error (Z.to_nat n) b rest) as Hre.
  destruct (read_contacts (Z.to_nat n) b rest) as [[l rest']|e|]; cbn; [|left; by rewrite (Hre e eq_refl)|done].
  right. destruct Ht as [Hl _]. unfold wf_contacts in Hl. bool_hyps. eexists. split; [done|]. split; [unfold zlen; lia|done].
Qed.

(** Every known layout of [nodes.dat], with or without bytes behind the entries,
    reads as the contacts of its entries that have an address and a port; and any
    bytes at all give at most 500000 well-typed contacts with an address and a port,
    or the parse error. *)
Lemma nodes_dat_formats :
  (∀ h es tail, wf_entries es = true → 0 < Z.of_nat (count_entries es) ≤ MAX_NODES_DAT_COUNT →
     header_ok h (Z.of_nat (count_entries es)) = true → tail_ok es tail = true →
     parse_nodes_dat (write_header h (Z.of_nat (count_entries es)) ++ write_entries es ++ tail) = Ok (contacts_of es)) ∧
  (∀ data, is_bytes data = true →
     parse_nodes_dat data = Err NodesDatParse ∨
     ∃ l, parse_nodes_dat data = Ok l ∧ zlen l ≤ MAX_NODES_DAT_COUNT ∧ forallb (λ c, wf_bootstrap c && reachable c) l = true).
Proof.
  split; [apply parse_layout|apply parse_any].
Qed.

(** A legacy file of exactly two contacts is read as a version. *)
Lemma legacy_pair_misread : ∃ e : NodesDatEntry, wf_dat e = true ∧
  parse_nodes_dat (write_header LegacyCount 2 ++ write_entries (Basic [e; e])) ≠ Ok (contacts_of (Basic [e; e])).
Proof. exists (mkDat (replicate 16 1) 0x01020304 4672 4662 9). split; [done|]. by vm_compute. Qed.
