(* ===== verification/DhtSearch.v ===== *)
(** * Kad searches and their results

    Models [overlord-kad-dht/src/types.rs], which reads results from the tags of
    answers, and [search.rs], the tasks that turn what a search walk collects into
    streams of results. A task is a function of what its [select!] meets: the
    cancellation, the end of the walk, or an entry, with whether the consumer still
    listens when a result of it is sent. The counters that are only logged are
    left out. [str::trim] is a parameter. *)

From S2P Require Import Prelude Net NodeId Utf8 Wire Tag PacketTypes Packet.
From S2P Require Import Contact Bin Zone Table KadStore Traversal SearchWalk.

Definition ENCRYPTION : Z := 0xF3.
Definition FILERATING : Z := 0xF7.

(** ** Results *)

Record SearchResult : Type := mkSearchResult {
  kr_hash : Ed2kHash;
  kr_names : list (list Z);
  kr_size : option Z;
  kr_source_count : option Z;
  kr_tags : list Tag;
}.
Record SourceResult : Type := mkSource {
  so_file_hash : Ed2kHash;
  so_source_id : Ed2kHash;
  so_ip : Ipv4Addr;
  so_tcp_port : Z;
  so_udp_port : Z;
  so_obfuscation_options : option Z;
}.
Record NoteResult : Type := mkNote {
  no_file_hash : Ed2kHash;
  no_source_id : Ed2kHash;
  no_rating : option Z;
  no_comment : option (list Z);
  no_source_tags : list Tag;
}.

(** [*v as u8], [as u16], [as u32] *)
Definition as_u (w v : Z) : Z := v mod 2 ^ w.
(** The value of an integer tag, cut to [w] bits; [U64] values are not read. *)
Definition cut_value (w : Z) (value : TagValue) : option Z :=
  match value with
  | VUInt v => Some (as_u w v)
  | VU32 v => Some (as_u w v)
  | VU16 v => Some (as_u w v)
  | VU8 v => Some (as_u w v)
  | _ => None
  end.

(** The locals of [SearchResult::from_tags]. *)
Record keyword_acc : Type := mkKeywordAcc {
  ka_names : list (list Z);
  ka_size : option Z;
  ka_size_low : option Z;
  ka_size_high : option Z;
  ka_source_count : option Z;
}.
Definition keyword_tag (acc : keyword_acc) (tag : Tag) : keyword_acc :=
  let '(mkKeywordAcc names size low high count) := acc in
  if has_name FILENAME tag then
    match tag_value tag with VString s => mkKeywordAcc (names ++ [s]) size low high count | _ => acc end
  else if has_name FILESIZE tag then
    match tag_value tag with
    | VUInt v | VU64 v => mkKeywordAcc names (Some v) low high count
    | VU32 v | VU16 v | VU8 v => mkKeywordAcc names size (Some v) high count
    | _ => acc
    end
  else if has_name FILESIZE_HI tag then
    match cut_value 32 (tag_value tag) with Some v => mkKeywordAcc names size low (Some v) count | None => acc end
  else if has_name SOURCES tag then
    match cut_value 32 (tag_value tag) with Some v => mkKeywordAcc names size low high (Some v) | None => acc end
  else acc.
Definition search_result_from_tags (hash : Ed2kHash) (tags : list Tag) : SearchResult :=
  let acc := foldl keyword_tag (mkKeywordAcc [] None None None None) tags in
  let size :=
    match ka_size acc, ka_size_low acc with
    | None, Some low => Some (Z.lor (Z.shiftl (default 0 (ka_size_high acc)) 32) low)
    | size, _ => size
    end in
  mkSearchResult hash (ka_names acc) size (ka_source_count acc) tags.

Record source_acc : Type := mkSourceAcc { sx_ip : option Ipv4Addr; sx_tcp_port : Z; sx_udp_port : Z; sx_options : option Z }.
Definition source_tag (acc : source_acc) (tag : Tag) : source_acc :=
  let '(mkSourceAcc ip tcp udp options) := acc in
  if has_name SOURCEIP tag then
    match tag_value tag with
    | VUInt v => if is_u32 v then mkSourceAcc (Some (ipv4_from_u32 v)) tcp udp options else acc
    | VU32 v => mkSourceAcc (Some (ipv4_from_u32 v)) tcp udp options
    | _ => acc
    end
  else if has_name SOURCEPORT tag then
    match cut_value 16 (tag_value tag) with Some v => mkSourceAcc ip v udp options | None => acc end
  else if has_name SOURCEUPORT tag then
    match cut_value 16 (tag_value tag) with Some v => mkSourceAcc ip tcp v options | None => acc end
  else if has_name ENCRYPTION tag then
    match tag_value tag with
    | VUInt v | VU32 v | VU16 v => if is_u8 v then mkSourceAcc ip tcp udp (Some v) else acc
    | VU8 v => mkSourceAcc ip tcp udp (Some v)
    | _ => acc
    end
  else acc.
Definition source_result_from_tags (file_hash source_id : Ed2kHash) (tags : list Tag) : option SourceResult :=
  let acc := foldl source_tag (mkSourceAcc None 0 0 None) tags in
  match sx_ip acc with
  | None => None
  | Some ip =>
      if sx_tcp_port acc =? 0 then None
      else
        let udp_port := if sx_udp_port acc =? 0 then sx_tcp_port acc else sx_udp_port acc in
        Some (mkSource file_hash source_id ip (sx_tcp_port acc) udp_port (sx_options acc))
  end.

Definition note_tag (acc : option Z * option (list Z)) (tag : Tag) : option Z * option (list Z) :=
  let '(rating, comment) := acc in
  if has_name FILERATING tag then
    match cut_value 8 (tag_value tag) with Some v => (Some v, comment) | None => acc end
  else if has_name DESCRIPTION tag then
    match tag_value tag with VString s => (rating, Some s) | _ => acc end
  else acc.

Section notes.
Context (trim : list Z → list Z).
Definition note_result_from_tags (file_hash source_id : Ed2kHash) (tags : list Tag) : option NoteResult :=
  let '(rating, comment) := foldl note_tag (None, None) tags in
  let comment := comment ≫= λ text, match trim text with [] => None | trimmed => Some trimmed end in
  match rating, comment with
  | None, None => None
  | _, _ => Some (mkNote file_hash source_id rating comment tags)
  end.
End notes.

(** ** Streams *)

Definition is_acceptable_keyword_result (result : SearchResult) : bool :=
  negb (bool_decide (kr_names result = [])) && bool_decide (is_Some (kr_size result)).
Definition map_source_search_result : Ed2kHash → Ed2kHash → list Tag → option SourceResult := source_result_from_tags.

(** What a task meets. *)
Inductive stream_event : Type :=
| StreamCancelled
| StreamClosed
| StreamEntry (id : Ed2kHash) (tags : list Tag) (listens : bool).

Section stream.
Context {R S : Type} `{Countable S} (accept : Ed2kHash → list Tag → option R) (key : R → S) (result_cap : Z).
(** One turn of the loop on the keys seen and the results sent; [true] when it goes on. *)
Definition stream_step (st : gset S * list R) (ev : stream_event) : (gset S * list R) * bool :=
  match ev with
  | StreamCancelled | StreamClosed => (st, false)
  | StreamEntry id tags listens =>
      let '(seen, sent) := st in
      if result_cap <=? Z.of_nat (size seen) then (st, false)
      else
        match accept id tags with
        | None => (st, true)
        | Some r =>
            if bool_decide (key r ∈ seen) then (st, true)
            else if listens then (({[key r]} ∪ seen, sent ++ [r]), true)
            else (({[key r]} ∪ seen, sent), false)
        end
  end.
Fixpoint stream_run (st : gset S * list R) (evs : list stream_event) : gset S * list R :=
  match evs with
  | [] => st
  | ev :: evs' => let '(st', continue) := stream_step st ev in if continue then stream_run st' evs' else st'
  end.
Definition stream (evs : list stream_event) : list R := snd (stream_run (∅, []) evs).
End stream.

(** [search_keywords_by_request], [search_sources_by_request] and [search_notes]. *)
Definition accept_keyword (hash : Ed2kHash) (tags : list Tag) : option SearchResult :=
  let result := search_result_from_tags hash tags in
  if bool_decide (kr_names result = []) then None
  else match kr_size result with
       | None => None
       | Some _ => if negb (is_acceptable_keyword_result result) then None else Some result
       end.
Definition search_keywords_by_request (result_cap : Z) (evs : list stream_event) : list SearchResult :=
  stream accept_keyword kr_hash result_cap evs.
Definition source_key (s : SourceResult) : Ipv4Addr * Z * Z := (so_ip s, so_tcp_port s, so_udp_port s).
Definition search_sources_by_request (request : SearchSourceReq) (result_cap : Z) (evs : list stream_event) : list SourceResult :=
  stream (map_source_search_result (id_to_be_bytes (ss_target request))) source_key result_cap evs.
Definition search_notes (trim : list Z → list Z) (file_hash : Ed2kHash) (result_cap : Z) (evs : list stream_event) : list NoteResult :=
  stream (note_result_from_tags trim file_hash) no_source_id result_cap evs.
(** The lookups behind the streams. *)
Definition notes_target (file_hash : Ed2kHash) : NodeId := id_from_be_bytes file_hash.

(** ** Specification *)

(** The first result of each key. *)
Section first_by.
Context {R S : Type} `{Countable S} (key : R → S).
Fixpoint first_by (seen : gset S) (l : list R) : list R :=
  match l with
  | [] => []
  | r :: l' => if bool_decide (key r ∈ seen) then first_by seen l' else r :: first_by ({[key r]} ∪ seen) l'
  end.
Lemma first_by_spec l seen : NoDup (key <$> first_by seen l) ∧
  (∀ r, r ∈ first_by seen l → r ∈ l ∧ key r ∉ seen) ∧ (∀ r, r ∈ l → key r ∈ seen ∨ key r ∈ key <$> first_by seen l).
Proof.
  revert seen; induction l as [|r l IH]; intros seen; cbn [first_by]; [split; [constructor|set_solver]|].
  case_bool_decide as Hr.
  - destruct (IH seen) as (H1 & H2 & H3). split; [done|]. split; [set_solver|]. intros r' [->|Hin]%elem_of_cons; [by left|by apply H3].
  - destruct (IH ({[key r]} ∪ seen)) as (H1 & H2 & H3). split; [|split].
    + cbn. constructor; [|done]. intros (r' & Hk & Hin)%list_elem_of_fmap. destruct (H2 r' Hin). set_solver.
    + intros r' [->|Hin]%elem_of_cons; [set_solver|]. destruct (H2 r' Hin). set_solver.
    + intros r' [->|Hin]%elem_of_cons; [set_solver|]. destruct (H3 r' Hin); set_solver.
Qed.
End first_by.

(** The entries that arrive before the end. *)
Fixpoint entries (evs : list stream_event) : list (Ed2kHash * list Tag) :=
  match evs with
  | StreamEntry id tags _ :: evs' => (id, tags) :: entries evs'
  | _ => []
  end.
Definition listening (ev : stream_event) : bool := match ev with StreamEntry _ _ listens => listens | _ => true end.

(** Nothing more is sent. *)
Ltac stops := exists []; rewrite app_nil_r; split; [done|]; split; [apply prefix_nil|]; cbn; by rewrite ?take_nil.

Section stream_spec.
Context {R S : Type} `{Countable S} (accept : Ed2kHash → list Tag → option R) (key : R → S) (result_cap : Z).
(** The reference: the first results of distinct keys, up to the cap. *)
Definition distinct_results (l : list (Ed2kHash * list Tag)) : list R :=
  take (Z.to_nat result_cap) (first_by key ∅ (omap (λ '(id, tags), accept id tags) l)).

Lemma stream_run_spec evs seen sent : let rest := take (Z.to_nat result_cap - size seen) (first_by key seen (omap (λ '(id, tags), accept id tags) (entries evs))) in
  ∃ got, snd (stream_run accept key result_cap (seen, sent) evs) = sent ++ got ∧ got `prefix_of` rest ∧
    (forallb listening evs = true → got = rest).
Proof.
  revert seen sent; induction evs as [|ev evs IH]; intros seen sent.
  { stops. }
  destruct ev as [| |id tags listens]; [stops|stops|].
  cbn [stream_run stream_step entries omap list_omap forallb listening]. destruct (Z.leb_spec result_cap (Z.of_nat (size seen))) as [Hfull|Hroom].
  { replace (Z.to_nat result_cap - size seen)%nat with O by lia. stops. }
  assert (Hmore : ∃ got, snd (stream_run accept key result_cap (seen, sent) evs) = sent ++ got ∧
      got `prefix_of` take (Z.to_nat result_cap - size seen) (first_by key seen (omap (λ '(id, tags), accept id tags) (entries evs))) ∧
      (listens && forallb listening evs = true →
         got = take (Z.to_nat result_cap - size seen) (first_by key seen (omap (λ '(id, tags), accept id tags) (entries evs))))).
  { destruct (IH seen sent) as (got & ? & ? & He). exists got. split; [done|]. split; [done|]. intros [_ Hl]%andb_true_iff. by apply He. }
  destruct (accept id tags) as [r|]; [|exact Hmore]. cbn [first_by]. case_bool_decide as Hr; [exact Hmore|].
  assert (Hsize : size ({[key r]} ∪ seen) = Datatypes.S (size seen)) by (rewrite size_union by set_solver; by rewrite size_singleton).
  replace (Z.to_nat result_cap - size seen)%nat with (Datatypes.S (Z.to_nat result_cap - size ({[key r]} ∪ seen))) by lia.
  cbn [take firstn]. destruct listens; cbn [andb].
  - destruct (IH ({[key r]} ∪ seen) (sent ++ [r])) as (got & -> & Hp & He). exists (r :: got). rewrite <- app_assoc. split; [done|].
    split; [by apply prefix_cons|]. intros Hl. f_equal. by apply He.
  - stops.
Qed.
Lemma stream_spec evs : stream accept key result_cap evs `prefix_of` distinct_results (entries evs) ∧
  (forallb listening evs = true → stream accept key result_cap evs = distinct_results (entries evs)).
Proof.
  destruct (stream_run_spec evs ∅ []) as (got & Hs & Hp & He). unfold stream, distinct_results. rewrite Hs.
  rewrite size_empty, Nat.sub_0_r in *. done.
Qed.
Lemma distinct_spec l : 0 ≤ result_cap → let rs := distinct_results l in
  NoDup (key <$> rs) ∧ zlen rs ≤ result_cap ∧ (∀ r, r ∈ rs → ∃ id tags, (id, tags) ∈ l ∧ accept id tags = Some r) ∧
  (zlen rs < result_cap → ∀ id tags r, (id, tags) ∈ l → accept id tags = Some r → key r ∈ key <$> rs).
Proof.
  intros Hcap. unfold distinct_results. set (all := omap _ l). destruct (first_by_spec key all ∅) as (H1 & H2 & H3). set (f := first_by key ∅ all) in *.
  split; [rewrite fmap_take; by eapply sublist_NoDup, sublist_take|]. split; [unfold zlen; rewrite length_take; lia|]. split.
  - intros r (i & Hr & _)%elem_of_take. apply list_elem_of_lookup_2, H2 in Hr as [Hr _]. apply list_elem_of_omap in Hr as ([id tags] & Hin & Ha). by exists id, tags.
  - intros Hlt id tags r Hin Ha. rewrite take_ge by (unfold zlen in Hlt; rewrite length_take in Hlt; lia).
    destruct (H3 r) as [?|?]; [|set_solver|done]. apply list_elem_of_omap. by exists (id, tags).
Qed.
End stream_spec.

(** *** Provenance *)

(** The walk, with all packets that its turns took from the channel. *)
Definition packets_of (ev : phase2_event) : list (SocketAddr * KadPacket) :=
  omap (λ t, match dt_outcome t with DrainPacket from packet => Some (from, packet) | _ => None end) (ev_turns ev).
Inductive walk_heard (cfg : phase2_config) (dl : Z) (st0 : phase2) (clock0 : Z) : list (SocketAddr * KadPacket) → phase2 → Z → bool → Prop :=
| heard_init : walk_heard cfg dl st0 clock0 [] st0 clock0 true
| heard_step heard st clock ev st' running :
    walk_heard cfg dl st0 clock0 heard st clock true → clock_ok clock ev →
    phase2_iter cfg dl st ev = Ok (st', running) →
    walk_heard cfg dl st0 clock0 (heard ++ packets_of ev) st' (ev_now_sent ev) running.

(** An entry was said about the target by a contact that the walk had asked. *)
Definition said (id : NodeId) (heard : list (SocketAddr * KadPacket)) (asked : list SocketAddr) (entry : Ed2kHash * list Tag) : Prop :=
  ∃ from sr e, (from, PSearchRes sr) ∈ heard ∧ from ∈ asked ∧ sr_target sr = id ∧ e ∈ sr_results sr ∧ entry = (se_entry_id e, se_tags e).

Lemma delivered_packets until turns from packet :
  (from, packet) ∈ delivered until turns → (from, packet) ∈ omap (λ t, match dt_outcome t with DrainPacket from packet => Some (from, packet) | _ => None end) turns.
Proof.
  induction turns as [|t turns IH]; cbn; [done|]. destruct (_ || _); [set_solver|]. destruct (dt_outcome t); set_solver.
Qed.
Lemma accepted_said cfg queried heard entry : entry ∈ accepted cfg queried heard →
  ∃ from sr e, (from, PSearchRes sr) ∈ heard ∧ from ∈ queried ∧ sr_target sr = p2_target cfg ∧ e ∈ sr_results sr ∧ entry = (se_entry_id e, se_tags e).
Proof.
  unfold accepted. intros ([from packet] & Hin & He)%list_elem_of_In%in_flat_map. apply list_elem_of_In in Hin.
  assert (∃ sr, packet = PSearchRes sr) as [sr ->] by (destruct packet; try done; by eexists).
  destruct (_ && _) eqn:Hc; [|done]. bool_hyps. apply in_map_iff in He as (e & <- & He%list_elem_of_In). by exists from, sr, e.
Qed.
Lemma heard_walk cfg dl st0 clock0 heard st clock running :
  walk_heard cfg dl st0 clock0 heard st clock running → walk cfg dl st0 clock0 st clock running.
Proof. induction 1; by econstructor. Qed.
Lemma iter_sends cfg dl st ev st' running : phase2_iter cfg dl st ev = Ok (st', running) → sends (p2_trace st) `prefix_of` sends (p2_trace st').
Proof.
  unfold phase2_iter. rewrite drain_spec. intros Hit. repeat case_match; simplify_eq; try done.
  all: apply res_bind_Ok in Hit as (packet & _ & Hit); injection Hit as <- <-; cbn [p2_trace]; rewrite sends_app; by eexists.
Qed.
Lemma walk_said cfg start dl st0 clock0 heard st clock running : phase2_ok cfg start dl st0 → p2_streaming cfg = true → p2_streamed st0 = [] →
  walk_heard cfg dl st0 clock0 heard st clock running → start = p2_next_emit_at st0 →
  phase2_ok cfg start dl st ∧ ∀ entry, entry ∈ p2_streamed st → said (p2_target cfg) heard (sends (p2_trace st)) entry.
Proof.
  intros Hok Hs H0 Hw Hst. induction Hw as [|heard st clock ev st' running _ [Hok' IH] Hclock Hit]; [split; [done|]; intros entry; rewrite H0; set_solver|].
  split; [by eapply phase2_iter_ok|]. intros entry Hin. destruct (search_collects_answers _ _ _ _ _ _ Hit) as [_ Hc]. cbn zeta in Hc. rewrite Hs in Hc.
  pose proof (iter_sends _ _ _ _ _ _ Hit) as [more Hm].
  rewrite Hc in Hin. apply elem_of_app in Hin as [Hin|Hin].
  - destruct (IH entry Hin) as (from & sr & e & H1 & H2 & H3). exists from, sr, e. rewrite Hm. split; [set_solver|]. split; [set_solver|done].
  - destruct (_ || _); [set_solver|]. apply accepted_said in Hin as (from & sr & e & H1 & H2 & H3). exists from, sr, e. split; [|split; [|done]].
    + apply elem_of_app. right. by eapply delivered_packets.
    + rewrite Hm. apply elem_of_app. left. by apply (p2_queried _ _ _ _ Hok').
Qed.

(** What a stream of a search must be: distinct results up to the cap, each read
    from an entry that a contact that was asked said about the target; and, when the
    consumer listens and the cap is not reached, of every acceptable entry. *)
Definition answers {R S} `{Countable S} (accept : Ed2kHash → list Tag → option R) (key : R → S) (result_cap : Z)
    (id : NodeId) (heard : list (SocketAddr * KadPacket)) (asked : list SocketAddr) (evs : list stream_event) (rs : list R) : Prop :=
  NoDup (key <$> rs) ∧ zlen rs ≤ result_cap ∧
  (∀ r, r ∈ rs → ∃ entry_id tags, said id heard asked (entry_id, tags) ∧ accept entry_id tags = Some r) ∧
  (forallb listening evs = true → zlen rs < result_cap →
   ∀ entry_id tags r, (entry_id, tags) ∈ entries evs → accept entry_id tags = Some r → key r ∈ key <$> rs).
Lemma stream_answers {R S} `{Countable S} (accept : Ed2kHash → list Tag → option R) (key : R → S) result_cap id heard asked evs streamed :
  0 ≤ result_cap → entries evs `prefix_of` streamed → (∀ entry, entry ∈ streamed → said id heard asked entry) →
  answers accept key result_cap id heard asked evs (stream accept key result_cap evs).
Proof.
  intros Hcap [rest ->] Hsaid. destruct (stream_spec accept key result_cap evs) as [[tail Hp] He].
  destruct (distinct_spec accept key result_cap (entries evs) Hcap) as (H1 & H2 & H3 & H4). rewrite Hp in H1, H2, H3.
  rewrite fmap_app in H1. apply NoDup_app in H1 as (H1 & _ & _). split; [done|]. split; [unfold zlen in *; rewrite length_app in H2; lia|]. split.
  - intros r Hr. destruct (H3 r) as (entry_id & tags & Hin & Ha); [set_solver|]. exists entry_id, tags. split; [apply Hsaid; set_solver|done].
  - intros Hl Hlt. rewrite He in * by done. exact (H4 Hlt).
Qed.

(** C14. A search returns answers: whatever arrives and however its tasks interleave,
    the stream of keyword, source or note results that a consumer sees has at most
    [result_cap] results, of distinct files, endpoints or publishers; each was read
    from an entry of an answer, about the target of the search, of a contact that the
    walk had asked; and while the consumer listens and the cap is not reached, every
    entry that can be read is in it. *)
Theorem searches_answered p1 st1 qt deadline cfg cancelled now now1 now2 dl st0 heard st clock running evs result_cap trim file_hash request :
  search_phase p1 st1 qt deadline true = Some cfg →
  phase2_start cfg cancelled now now1 now2 = Some (dl, st0) →
  walk_heard cfg dl st0 now2 heard st clock running →
  entries evs `prefix_of` p2_streamed st → 0 ≤ result_cap →
  let asked := sends (p2_trace st) in
  answers accept_keyword kr_hash result_cap (p1_target p1) heard asked evs (search_keywords_by_request result_cap evs) ∧
  answers (source_result_from_tags (id_to_be_bytes (ss_target request))) source_key result_cap (p1_target p1) heard asked evs
    (search_sources_by_request request result_cap evs) ∧
  answers (note_result_from_tags trim file_hash) no_source_id result_cap (p1_target p1) heard asked evs (search_notes trim file_hash result_cap evs).
Proof.
  intros Hphase Hstart Hw Hp Hcap asked.
  destruct (search_phase_spec _ _ _ _ _ _ Hphase) as (packet & _ & _ & <- & _).
  assert (Hs : p2_streaming cfg = true) by (unfold search_phase in Hphase; case_match; simplify_eq; done).
  assert (H0 : p2_streamed st0 = []) by (unfold phase2_start in Hstart; repeat case_match; simplify_eq; done).
  destruct (walk_said cfg _ dl st0 now2 heard st clock running (phase2_start_ok _ _ _ _ _ _ _ Hstart) Hs H0 Hw eq_refl) as [_ Hsaid].
  split; [|split]; by eapply stream_answers.
Qed.
Definition sample_contact : TraversalContact := mkTC (replicate 16 0) (mkSocketAddr (V4 (80, 1, 2, 3)) 4672) 9.
Definition sample_tags : list Tag :=
  [tag_filename [97; 46; 99]; tag_filesize 1000; new_short SOURCEIP (VU32 0x01020304); new_short SOURCEPORT (VU16 4662); new_short FILERATING (VU8 4)].
Definition sample_answer : KadPacket := PSearchRes (mkSearchRes (replicate 16 0) NodeId_ZERO [mkSearchResultEntry (replicate 16 7) sample_tags]).
Definition sample_p1 : phase1_config := mkP1Config NodeId_ZERO (KindNotes 1000) 10.
Definition sample_st1 : phase1 := mkPhase1 [mkCandidate sample_contact Responded NodeId_ZERO] {[tc_id sample_contact]} [] None [].
Definition sample_walk : phase2_config :=
  mkP2Config [sample_contact] (KindNotes 1000) NodeId_ZERO 30 100 10 None SEARCH_JUMPSTART_IDLE_GRACE SEARCH_JUMPSTART_TICK true.
Definition sample_evs : list phase2_event :=
  [mkP2Event false 6 [mkTurn false 6 DrainTimeout] 8 8;
   mkP2Event false 9 [mkTurn false 9 (DrainPacket (tc_addr sample_contact) sample_answer)] 10 10].
Definition after (st : phase2) (ev : phase2_event) : phase2 := match phase2_iter sample_walk 35 st ev with Ok (st', _) => st' | _ => st end.
Definition sample_walk0 : phase2 := mkPhase2 [sample_contact] ∅ [] [] 5 [] [].
Definition sample_entries : list stream_event := [StreamEntry (replicate 16 7) sample_tags true; StreamClosed].
Lemma searches_answered_witness :
  let st := foldl after sample_walk0 sample_evs in
  search_phase sample_p1 sample_st1 30 100 true = Some sample_walk ∧ phase2_start sample_walk false 5 5 5 = Some (35, sample_walk0) ∧
  length (search_keywords_by_request 5 sample_entries) = 1%nat ∧
  answers accept_keyword kr_hash 5 NodeId_ZERO [(tc_addr sample_contact, sample_answer)] (sends (p2_trace st)) sample_entries
    (search_keywords_by_request 5 sample_entries).
Proof.
  intros st. split; [reflexivity|]. split; [vm_compute; reflexivity|]. split; [vm_compute; reflexivity|].
  apply (searches_answered sample_p1 sample_st1 30 100 sample_walk false 5 5 5 35 sample_walk0 [(tc_addr sample_contact, sample_answer)] st 10 true
    sample_entries 5 (λ t, t) (replicate 16 0) (mkSearchSourceReq NodeId_ZERO 0 0)); [reflexivity|vm_compute; reflexivity| |by exists []|done].
  apply (heard_step _ _ _ _ [] (after sample_walk0 (mkP2Event false 6 [mkTurn false 6 DrainTimeout] 8 8)) 8
    (mkP2Event false 9 [mkTurn false 9 (DrainPacket (tc_addr sample_contact) sample_answer)] 10 10)); [|done|vm_compute; reflexivity].
  apply (heard_step _ _ _ _ [] sample_walk0 5 (mkP2Event false 6 [mkTurn false 6 DrainTimeout] 8 8)); [constructor|done|vm_compute; reflexivity].
Defined.
