(* ===== verification/DhtPublish.v ===== *)
(** * Kad publishes

    Models [overlord-kad-dht/src/publish.rs]: a publish looks up the contacts closest
    to its target ([Traversal]), selects those that would accept it, sends them the
    publish packet and tallies the answers. The requests run as concurrent tasks: a
    publish is a function of the lookup's state and of the outcomes in the order in
    which the tasks finish, each with the rank of its contact; a task that does not
    join has none. *)

From S2P Require Import Prelude Net NodeId Utf8 Wire Tag PacketTypes Packet.
From S2P Require Import Contact Bin Zone Table Traversal Rpc NodesDat.

Definition KAD_VERSION_AICH_KEYWORD_PUBLISH : Z := 9.
Definition PUBLISH_TIMEOUT : Z := 140 * NANOS_PER_SEC.
Definition PUBLISH_RESPONSE_TIMEOUT : Z := 5 * NANOS_PER_SEC.

(** ** Data *)

Record PublishAttemptStats : Type := mkStats {
  closest_contacts_considered : Z;
  attempted_contacts : Z;
  acked_contacts : Z;
  timed_out_contacts : Z;
}.
Definition stats_default : PublishAttemptStats := mkStats 0 0 0 0.
Definition failed_contacts (s : PublishAttemptStats) : Z := saturating_sub (attempted_contacts s) (acked_contacts s).

Record PublishAttempt : Type := mkAttempt { pa_rank : Z; pa_total : Z; pa_contact : TraversalContact }.
Record KeywordPublishRequest : Type := mkKeywordPublish {
  kp_keyword_hash : NodeId;
  kp_file_hash : Ed2kHash;
  kp_tags : list Tag;
  kp_aich_hash : option (list Z);
  kp_publish_contact_fanout : Z;
  kp_work_class : RpcWorkClass;
}.

(** ** Selection *)

Definition publish_distance_high32 (distance : NodeId) : Z :=
  from_le_bytes [byte_at distance 0; byte_at distance 1; byte_at distance 2; byte_at distance 3].
Definition publish_target_is_within_tolerance (target : NodeId) (contact : TraversalContact) : bool :=
  match sa_ip (tc_addr contact) with
  | V4 ip =>
      if is_private ip || is_loopback ip || is_link_local ip then true
      else publish_distance_high32 (distance target (tc_id contact)) <=? SEARCHTOLERANCE
  | V6 _ => false
  end.
Definition select_publish_contacts (target : NodeId) (contacts : list TraversalContact) (publish_contact_fanout : Z) : list TraversalContact :=
  take (Z.to_nat (Z.max publish_contact_fanout 1)) (List.filter (publish_target_is_within_tolerance target) contacts).

(** [get_initial] *)
Definition get_initial (routing_table : RoutingTable) (target : NodeId) : list TraversalContact :=
  map (λ c, mkTC (c_id c) (mkSocketAddr (V4 (c_ip c)) (c_udp_port c)) (c_kad_version c)) (get_closest routing_table target K).
Definition publish_lookup (target : NodeId) (publish_contact_fanout : Z) : phase1_config :=
  mkP1Config target KindStore (Z.max publish_contact_fanout K).
Definition register_publish_contact (contact : TraversalContact) : list rpc_call :=
  (if negb (bool_decide (tc_id contact = NodeId_ZERO)) then [RegisterIdentity (tc_addr contact) (tc_id contact)] else []) ++
  [RegisterVersion (tc_addr contact) (tc_version contact)].

(** ** Fanout *)

(** The attempts, in the order in which their tasks are spawned. *)
Definition attempts (contacts : list TraversalContact) : list PublishAttempt :=
  imap (λ index contact, mkAttempt (Z.of_nat index + 1) (zlen contacts) contact) contacts.
(** A finished task: the rank of its attempt (from 0) and the outcome of its request. *)
Definition outcome : Type := nat * (NetError + KadPacket).
Definition tally (count_other : bool) (s : PublishAttemptStats) (o : outcome) : PublishAttemptStats :=
  let '(mkStats considered attempted acked timed_out) := s in
  match snd o with
  | inr (PPublishRes _) => mkStats considered attempted (acked + 1) timed_out
  | inr _ => if count_other then mkStats considered attempted (acked + 1) timed_out else s
  | inl (NTimeout _ _) => mkStats considered attempted acked (timed_out + 1)
  | inl _ => s
  end.

(** What follows the lookup, which ended in [st]: the calls to the RPC manager, and
    the result; [packet_for] is the packet for a contact. *)
Definition publish_to (target : NodeId) (publish_contact_fanout : Z) (packet_for : TraversalContact → KadPacket) (count_other : bool)
    (st : phase1) (outcomes : list outcome) : list rpc_call * (DhtError + PublishAttemptStats) :=
  let closest := closest (publish_lookup target publish_contact_fanout) st in
  match closest with
  | [] => ([], inl PublishFailed)
  | _ =>
      let publish_contacts := select_publish_contacts target closest publish_contact_fanout in
      let stats := mkStats (zlen closest mod 2 ^ 32) (zlen publish_contacts mod 2 ^ 32) 0 0 in
      (flat_map register_publish_contact publish_contacts ++
       map (λ a, Request (tc_addr (pa_contact a)) (packet_for (pa_contact a))) (attempts publish_contacts),
       inr (foldl (tally count_other) stats outcomes))
  end.

(** ** Publishes *)

Definition build_keyword_publish_packet (target : NodeId) (file_hash : Ed2kHash) (base_tags : list Tag) (aich_hash : option (list Z))
    (contact_version : Z) : KadPacket :=
  let tags :=
    match aich_hash with
    | Some aich_hash => if KAD_VERSION_AICH_KEYWORD_PUBLISH <=? contact_version then base_tags ++ [tag_kad_aich_hash_pub aich_hash] else base_tags
    | None => base_tags
    end in
  PPublishKeyReq (mkPublishKeyReq target [mkPublishEntry file_hash tags]).
Definition publish_keyword (request : KeywordPublishRequest) (st : phase1) (outcomes : list outcome) : list rpc_call * (DhtError + PublishAttemptStats) :=
  let target := kp_keyword_hash request in
  publish_to target (kp_publish_contact_fanout request)
    (λ contact, build_keyword_publish_packet target (kp_file_hash request) (kp_tags request) (kp_aich_hash request) (tc_version contact))
    true st outcomes.
Definition publish_source (publisher_id : NodeId) (file_hash : Ed2kHash) (tags : list Tag) (publish_contact_fanout : Z) (st : phase1) (outcomes : list outcome)
    : list rpc_call * (DhtError + PublishAttemptStats) :=
  let target := id_from_be_bytes file_hash in
  publish_to target publish_contact_fanout (λ _, PPublishSourceReq (mkPublishSourceReq target publisher_id tags)) true st outcomes.
Definition publish_notes (file_hash : Ed2kHash) (publisher_id : NodeId) (tags : list Tag) (publish_contact_fanout : Z) (st : phase1) (outcomes : list outcome)
    : list rpc_call * (DhtError + PublishAttemptStats) :=
  let target := id_from_be_bytes file_hash in
  publish_to target publish_contact_fanout (λ _, PPublishNotesReq (mkPublishNotesReq target publisher_id tags)) false st outcomes.

(** ** Specification *)

Definition publish_requests (calls : list rpc_call) : list (SocketAddr * KadPacket) :=
  omap (λ call, match call with Request addr packet => Some (addr, packet) | _ => None end) calls.
Definition is_ack (count_other : bool) (o : outcome) : bool :=
  match snd o with inr (PPublishRes _) => true | inr _ => count_other | inl _ => false end.
Definition is_timeout (o : outcome) : bool := match snd o with inl (NTimeout _ _) => true | _ => false end.
(** Each task finishes at most once. *)
Definition outcomes_of (n : nat) (outcomes : list outcome) : Prop :=
  NoDup (fst <$> outcomes) ∧ Forall (λ o, (fst o < n)%nat) outcomes.

(** The contacts that get a publish: the responders of the lookup that are close
    enough, the closest first, up to the fanout. *)
Definition chosen (target : NodeId) (fanout : Z) (st : phase1) (contacts : list TraversalContact) : Prop :=
  let window := closest (publish_lookup target fanout) st in
  StronglySorted Z.lt (target_distance target <$> contacts) ∧ zlen contacts ≤ Z.max fanout 1 ∧
  (∀ c, c ∈ contacts → c ∈ window ∧ publish_target_is_within_tolerance target c = true ∧
     ∃ x, x ∈ p1_candidates st ∧ cd_contact x = c ∧ cd_state x = Responded) ∧
  (∀ x, x ∈ window → publish_target_is_within_tolerance target x = true → x ∉ contacts →
     zlen contacts = Z.max fanout 1 ∧ ∀ c, c ∈ contacts → target_distance target c < target_distance target x).
(** A publish does what it says: it fails exactly without a responder; otherwise it sends
    one packet to each chosen contact and the statistics count the answers. *)
Definition published (target : NodeId) (fanout : Z) (packet_for : TraversalContact → KadPacket) (count_other : bool)
    (st : phase1) (outcomes : list outcome) (calls : list rpc_call) (result : DhtError + PublishAttemptStats) : Prop :=
  match result with
  | inl e => e = PublishFailed ∧ calls = [] ∧ responded (p1_candidates st) = []
  | inr s =>
      responded (p1_candidates st) ≠ [] ∧
      ∃ contacts, chosen target fanout st contacts ∧
        publish_requests calls = map (λ c, (tc_addr c, packet_for c)) contacts ∧
        attempted_contacts s = zlen contacts ∧
        closest_contacts_considered s = zlen (closest (publish_lookup target fanout) st) ∧
        (outcomes_of (length contacts) outcomes →
         acked_contacts s = Z.of_nat (countb (is_ack count_other) outcomes) ∧ timed_out_contacts s = Z.of_nat (countb is_timeout outcomes) ∧
         acked_contacts s + timed_out_contacts s ≤ attempted_contacts s ∧ failed_contacts s = attempted_contacts s - acked_contacts s)
  end.

(** ** Lemmas *)

Lemma tally_spec b outcomes s : foldl (tally b) s outcomes =
  mkStats (closest_contacts_considered s) (attempted_contacts s) (acked_contacts s + Z.of_nat (countb (is_ack b) outcomes))
    (timed_out_contacts s + Z.of_nat (countb is_timeout outcomes)).
Proof.
  revert s; induction outcomes as [|o l IH]; intros s; cbn [foldl]; [by destruct s; rewrite !Z.add_0_r|]. rewrite IH. clear IH.
  destruct s as [c a k t], o as [i [e|p]]; unfold countb, is_ack, is_timeout, tally; cbn [snd List.filter].
  - destruct e; cbn; f_equal; lia.
  - destruct p, b; cbn; f_equal; lia.
Qed.
Lemma countb_disjoint {A} (f g : A → bool) l : (∀ x, f x = true → g x = false) → (countb f l + countb g l ≤ length l)%nat.
Proof.
  intros H. unfold countb. induction l as [|x l IH]; cbn; [done|]. destruct (f x) eqn:Hf; [rewrite (H x Hf); cbn; lia|].
  destruct (g x); cbn; lia.
Qed.
Lemma outcomes_length n outcomes : outcomes_of n outcomes → (length outcomes ≤ n)%nat.
Proof.
  intros [Hnd Hlt]. replace (length outcomes) with (length (fst <$> outcomes)) by apply length_fmap.
  rewrite <- (length_seq n 0). apply submseteq_length, NoDup_submseteq; [done|].
  intros i (o & -> & Ho)%list_elem_of_fmap. rewrite Forall_forall in Hlt. apply elem_of_seq. specialize (Hlt o Ho). lia.
Qed.
Lemma publish_requests_calls contacts (packet_for : TraversalContact → KadPacket) :
  publish_requests (flat_map register_publish_contact contacts ++ map (λ a, Request (tc_addr (pa_contact a)) (packet_for (pa_contact a))) (attempts contacts)) =
  map (λ c, (tc_addr c, packet_for c)) contacts.
Proof.
  unfold publish_requests. rewrite omap_app.
  assert (H : omap (λ call, match call with Request addr packet => Some (addr, packet) | _ => None end) (flat_map register_publish_contact contacts) = []).
  { induction contacts as [|c l IH]; [done|]. cbn [flat_map]. rewrite omap_app, IH, app_nil_r. unfold register_publish_contact. by case_bool_decide. }
  rewrite H. cbn [app]. unfold attempts. generalize (zlen contacts) as total. intros total.
  assert (Hg : ∀ (f : nat → nat), omap (λ call, match call with Request addr packet => Some (addr, packet) | _ => None end)
      (map (λ a, Request (tc_addr (pa_contact a)) (packet_for (pa_contact a))) (imap (λ index contact, mkAttempt (Z.of_nat (f index) + 1) total contact) contacts)) =
      map (λ c, (tc_addr c, packet_for c)) contacts); [|exact (Hg (λ i, i))].
  clear H. induction contacts as [|c l IH]; intros f; [done|]. rewrite imap_cons. cbn. f_equal. exact (IH (λ i, f (S i))).
Qed.

(** A prefix of the window that passes a test is its closest part. *)
Lemma chosen_select target fanout initial n st running : wf_NodeId target = true → Forall (λ c, wf_NodeId (tc_id c) = true) initial →
  lookup (publish_lookup target fanout) initial n st running → 0 ≤ fanout →
  chosen target fanout st (select_publish_contacts target (closest (publish_lookup target fanout) st) fanout).
Proof.
  intros Ht Hi Hl Hf. pose proof (closest_sorted (publish_lookup target fanout) _ _ _ _ Ht Hi Hl) as Hs. cbn [publish_lookup p1_target] in Hs.
  unfold chosen, select_publish_contacts. set (window := closest _ st) in *. set (ok := publish_target_is_within_tolerance target).
  set (k := Z.to_nat _). assert (Hs' : StronglySorted Z.lt (target_distance target <$> List.filter ok window)) by by apply StronglySorted_filter.
  split; [|split; [|split]].
  - rewrite <- (take_drop k (List.filter ok window)), fmap_app in Hs'. by apply StronglySorted_app_1_l in Hs'.
  - unfold zlen, k. rewrite length_take. lia.
  - intros c (i & Hc & _)%elem_of_take. apply list_elem_of_lookup_2, list_elem_of_In, filter_In in Hc as [Hc Hok]. apply list_elem_of_In in Hc.
    split; [done|]. split; [done|]. by eapply (closest_responded (publish_lookup target fanout)).
  - intros x Hx Hok Hnot. assert (Hin : x ∈ List.filter ok window) by (apply list_elem_of_In, filter_In; split; [by apply list_elem_of_In|done]).
    rewrite <- (take_drop k (List.filter ok window)) in Hin. apply elem_of_app in Hin as [?|Hin]; [done|]. split.
    + unfold zlen. rewrite length_take. assert (Hd : (0 < length (drop k (List.filter ok window)))%nat) by (destruct (drop k _); [set_solver|cbn; lia]).
      rewrite length_drop in Hd. lia.
    + intros c Hc. by eapply (sorted_take_drop (target_distance target) k).
Qed.

Lemma publish_to_spec target fanout packet_for b initial n st running outcomes : wf_NodeId target = true → Forall (λ c, wf_NodeId (tc_id c) = true) initial →
  lookup (publish_lookup target fanout) initial n st running → 0 ≤ fanout < 2 ^ 32 →
  let '(calls, result) := publish_to target fanout packet_for b st outcomes in published target fanout packet_for b st outcomes calls result.
Proof.
  intros Ht Hi Hl Hf. unfold publish_to. destruct (closest _ st) as [|c l] eqn:Hw; cbn zeta.
  { split; [done|]. split; [done|]. unfold closest in Hw. destruct (responded (p1_candidates st)); [done|].
    cbn [publish_lookup p1_kind p1_phase2_fanout traversal_closest_limit] in Hw. destruct (Z.to_nat _) eqn:E; [unfold K in E; lia|done]. }
  split; [by intros Hnone; unfold closest in Hw; rewrite Hnone, take_nil in Hw|].
  rewrite <- Hw. set (contacts := select_publish_contacts _ _ _).
  assert (Hlen : zlen (closest (publish_lookup target fanout) st) < 2 ^ 32).
  { unfold closest, zlen. rewrite length_take. cbn [publish_lookup p1_kind p1_phase2_fanout traversal_closest_limit]. unfold K. lia. }
  assert (Hsub : (length contacts ≤ length (closest (publish_lookup target fanout) st))%nat).
  { unfold contacts, select_publish_contacts. rewrite length_take. apply Nat.min_le_iff. right. apply List.filter_length_le. }
  rewrite !Z.mod_small by (unfold zlen in *; lia). exists contacts. rewrite tally_spec. cbn [attempted_contacts closest_contacts_considered acked_contacts timed_out_contacts].
  split; [apply (chosen_select target fanout initial n st running); done || lia|]. split; [apply publish_requests_calls|]. split; [done|]. split; [done|]. intros Ho.
  pose proof (outcomes_length _ _ Ho). pose proof (countb_disjoint (is_ack b) is_timeout outcomes) as Hd.
  assert (is_ack_timeout : ∀ x, is_ack b x = true → is_timeout x = false) by (intros [i [e|p]]; unfold is_ack, is_timeout; cbn; done).
  specialize (Hd is_ack_timeout). unfold failed_contacts, saturating_sub, zlen. cbn. lia.
Qed.

Lemma initial_wf table target : table_ok table → wf_NodeId target = true → Forall (λ c, wf_NodeId (tc_id c) = true) (get_initial table target).
Proof.
  intros Hok Ht. apply Forall_forall. intros c Hc. apply list_elem_of_fmap in Hc as (x & -> & Hx). cbn.
  apply elem_of_take in Hx as (i & Hx & _). apply list_elem_of_lookup_2 in Hx.
  assert (Hin : x ∈ contacts table) by (by rewrite <- (proj1 (get_closest_sorted table target Hok Ht))).
  pose proof (ok_wf _ Hok) as Hwf. rewrite Forall_forall in Hwf. specialize (Hwf x Hin). unfold wf_contact in Hwf. by bool_hyps.
Qed.

(** C15. Publishes are placed: a keyword, source or notes publish from a sound
    routing table, whatever happens during its lookup, fails exactly when no contact
    responded; otherwise it sends its packet once to each of the closest responders
    within the tolerance of their target (the closest first, at most the fanout, and
    one when that is zero), a keyword packet with the AICH hash exactly for contacts
    of version 9 and later; and its statistics count the contacts, the
    acknowledgements and the timeouts, which are no more than the attempts. *)
Theorem publishes_placed table fanout request publisher_id file_hash tags n n' st st' running running' outcomes :
  table_ok table → 0 ≤ fanout < 2 ^ 32 → wf_NodeId (kp_keyword_hash request) = true → wf_Ed2kHash file_hash = true →
  kp_publish_contact_fanout request = fanout →
  let target := id_from_be_bytes file_hash in
  lookup (publish_lookup (kp_keyword_hash request) fanout) (get_initial table (kp_keyword_hash request)) n st running →
  lookup (publish_lookup target fanout) (get_initial table target) n' st' running' →
  (let '(calls, result) := publish_keyword request st outcomes in
   published (kp_keyword_hash request) fanout
     (λ c, PPublishKeyReq (mkPublishKeyReq (kp_keyword_hash request)
        [mkPublishEntry (kp_file_hash request)
           (kp_tags request ++ (if 9 <=? tc_version c then option_list (tag_kad_aich_hash_pub <$> kp_aich_hash request) else []))]))
     true st outcomes calls result) ∧
  (let '(calls, result) := publish_source publisher_id file_hash tags fanout st' outcomes in
   published target fanout (λ _, PPublishSourceReq (mkPublishSourceReq target publisher_id tags)) true st' outcomes calls result) ∧
  (let '(calls, result) := publish_notes file_hash publisher_id tags fanout st' outcomes in
   published target fanout (λ _, PPublishNotesReq (mkPublishNotesReq target publisher_id tags)) false st' outcomes calls result).
Proof.
  intros Hok Hf Hk Hh <- target Hl Hl'. assert (Ht : wf_NodeId target = true) by by apply wf_id_from_be_bytes, (wf_NodeId_spec file_hash).
  split; [|split].
  - pose proof (publish_to_spec (kp_keyword_hash request) _ (λ c, build_keyword_publish_packet (kp_keyword_hash request) (kp_file_hash request)
      (kp_tags request) (kp_aich_hash request) (tc_version c)) true _ _ _ _ outcomes Hk (initial_wf table _ Hok Hk) Hl Hf) as Hp.
    unfold publish_keyword. destruct (publish_to _ _ _ _ _ _) as [calls [e|s]]; [done|]. destruct Hp as (Hsome & cs & Hc & Hr & Hrest). split; [done|]. exists cs.
    split; [done|]. split; [|done]. rewrite Hr. apply map_ext. intros c. unfold build_keyword_publish_packet, KAD_VERSION_AICH_KEYWORD_PUBLISH.
    by destruct (kp_aich_hash request), (9 <=? tc_version c); cbn; rewrite ?app_nil_r.
  - by apply (publish_to_spec target _ _ true (get_initial table target) n' st' running'); try apply initial_wf.
  - by apply (publish_to_spec target _ _ false (get_initial table target) n' st' running'); try apply initial_wf.
Qed.
Definition publish_contact : Contact := new_contact 0 (replicate 16 7) (80, 1, 2, 3) 4672 4662 9.
Definition publish_table : RoutingTable := fst (add_contact (with_max_size (replicate 16 1) 100) publish_contact).
Definition sample_publish : KeywordPublishRequest := mkKeywordPublish (replicate 16 7) (replicate 16 7) [tag_filename [97]] (Some (replicate 20 5)) 0 WPublish.
Definition answered (target : NodeId) : phase1 :=
  fst (phase1_iter (publish_lookup target 0) (phase1_init (publish_lookup target 0) (get_initial publish_table target))
    (EvJoined 5 (replicate 16 7) (Some (PRes (mkRes target []))))).
Lemma publishes_placed_witness :
  let '(calls, result) := publish_keyword sample_publish (answered (replicate 16 7)) [(0%nat, inr (PPublishRes (mkPublishRes (replicate 16 7) 10 None)))] in
  publish_requests calls =
    [(mkSocketAddr (V4 (80, 1, 2, 3)) 4672,
      PPublishKeyReq (mkPublishKeyReq (replicate 16 7) [mkPublishEntry (replicate 16 7) [tag_filename [97]; tag_kad_aich_hash_pub (replicate 20 5)]]))] ∧
  result = inr (mkStats 1 1 1 0) ∧
  published (replicate 16 7) 0
    (λ c, PPublishKeyReq (mkPublishKeyReq (replicate 16 7)
      [mkPublishEntry (replicate 16 7) ([tag_filename [97]] ++ (if 9 <=? tc_version c then option_list (tag_kad_aich_hash_pub <$> Some (replicate 20 5)) else []))]))
    true (answered (replicate 16 7)) [(0%nat, inr (PPublishRes (mkPublishRes (replicate 16 7) 10 None)))] calls result.
Proof.
  assert (Hok : table_ok publish_table) by (apply (add_contact_spec (with_max_size (replicate 16 1) 100) publish_contact); [apply with_max_size_ok|done]).
  assert (Hl : lookup (publish_lookup (replicate 16 7) 0) (get_initial publish_table (replicate 16 7)) 1 (answered (replicate 16 7)) false).
  { refine (lookup_step _ _ 0 _ (EvJoined 5 (replicate 16 7) (Some (PRes (mkRes (replicate 16 7) [])))) _ false (lookup_init _ _) _ _).
    - split; [vm_compute; left|done].
    - vm_compute. reflexivity. }
  destruct (publish_keyword _ _ _) as [calls result] eqn:E.
  split; [vm_compute in E; injection E as <- _; reflexivity|]. split; [vm_compute in E; by injection E as _ <-|].
  pose proof (publishes_placed publish_table 0 sample_publish (replicate 16 1) (replicate 16 7) [] 1 1 _ (answered (replicate 16 7)) false false
    [(0%nat, inr (PPublishRes (mkPublishRes (replicate 16 7) 10 None)))] Hok ltac:(done) eq_refl eq_refl eq_refl Hl Hl) as [Hp _].
  by rewrite E in Hp.
Defined.
