(* ===== verification/DhtNode.v ===== *)
(** * The DHT node

    Models [overlord-kad-dht/src/node.rs] with [node/bootstrap.rs], [config.rs],
    [contact_helpers.rs], [routing.rs], [transport.rs] and the lookups of [search.rs],
    and [persist_nodes_dat_for] of the agent ([agent/lifecycle.rs]). Of the RPC
    manager ([Rpc]), the node changes what is known of peers, the layer of
    [KadObfuscation]; the requests themselves are arguments, as their outcomes. While
    the node waits, other tasks take steps: a wait is a list of events. *)

From S2P Require Import Prelude Net NodeId Utf8 Wire Tag PacketTypes Packet.
From S2P Require Import Contact Bin Zone Table Traversal KadObfuscation Rpc NodesDat DhtPublish.

(** ** Data *)

Record DhtConfig : Type := mkDhtConfig {
  dc_bind_addr : SocketAddr;
  dc_node_id : NodeId;
  dc_max_routing_table_size : Z;
  dc_bootstrap_min_routing_contacts : Z;
  dc_max_concurrent_searches : Z;
  dc_search_timeout : Z;
  dc_store_timeout : Z;
  dc_republish_interval : Z;
  dc_publish_contact_fanout : Z;
  dc_max_outbound_pps : Z;
  dc_class_budgets : RpcClassBudgetConfig;
  dc_search_phase2_fanout : Z;
  dc_keyword_result_cap : Z;
  dc_source_result_cap : Z;
  dc_notes_result_cap : Z;
  dc_obfuscation_enabled : bool;
  dc_udp_key : Z;
  dc_nodes_dat : option (list Z);
  dc_nodes_text : option (list Z);
}.
Definition dht_config_default : DhtConfig :=
  mkDhtConfig (mkSocketAddr (V4 (0, 0, 0, 0)) 4672) NodeId_ZERO 12000 10 5 (45 * NANOS_PER_SEC) (140 * NANOS_PER_SEC) (18000 * NANOS_PER_SEC)
    4 8 budgets_default 50 5000 1000 1000 true 0 None None.

(** [DhtInner]; of the RPC manager, what it knows of peers. *)
Record DhtNode : Type := mkNode {
  dn_own_id : NodeId;
  dn_routing_table : RoutingTable;
  dn_layer : ObfuscationLayer;
  dn_config : DhtConfig;
  dn_bootstrapped : bool;
}.
Definition set_table (t : RoutingTable) (n : DhtNode) : DhtNode := mkNode (dn_own_id n) t (dn_layer n) (dn_config n) (dn_bootstrapped n).
Definition set_layer (f : ObfuscationLayer → ObfuscationLayer) (n : DhtNode) : DhtNode :=
  mkNode (dn_own_id n) (dn_routing_table n) (f (dn_layer n)) (dn_config n) (dn_bootstrapped n).
Definition set_bootstrapped (n : DhtNode) : DhtNode := mkNode (dn_own_id n) (dn_routing_table n) (dn_layer n) (dn_config n) true.

(** ** Construction *)

(** [DhtNode::new], with the drawn identifier and key, once the socket is bound. *)
Definition node_new (config : DhtConfig) (drawn_id : NodeId) (drawn_key : Z) : DhtNode :=
  let node_id := if bool_decide (dc_node_id config = NodeId_ZERO) then drawn_id else dc_node_id config in
  let udp_key := if dc_udp_key config =? 0 then drawn_key else dc_udp_key config in
  let config := mkDhtConfig (dc_bind_addr config) node_id (dc_max_routing_table_size config) (dc_bootstrap_min_routing_contacts config)
    (dc_max_concurrent_searches config) (dc_search_timeout config) (dc_store_timeout config) (dc_republish_interval config)
    (dc_publish_contact_fanout config) (dc_max_outbound_pps config) (dc_class_budgets config) (dc_search_phase2_fanout config)
    (dc_keyword_result_cap config) (dc_source_result_cap config) (dc_notes_result_cap config) (dc_obfuscation_enabled config) udp_key
    (dc_nodes_dat config) (dc_nodes_text config) in
  mkNode node_id (with_max_size node_id (dc_max_routing_table_size config)) (layer_new node_id udp_key (dc_obfuscation_enabled config)) config false.

(** ** Accessors *)

Definition known_peer_key (n : DhtNode) (addr : SocketAddr) : option KadUdpKey := receiver_verify_key_for_addr (dn_layer n) addr.
Definition addr_from_contact (contact : Contact) : SocketAddr := mkSocketAddr (V4 (c_ip contact)) (c_udp_port contact).
Definition routing_contacts (n : DhtNode) : list Contact := all_contacts (dn_routing_table n).
Definition closest_contacts (n : DhtNode) (target : NodeId) (limit : Z) : list Contact := get_closest (dn_routing_table n) target limit.
(** [try_lock]: zero when the table is locked. *)
Definition routing_table_size (n : DhtNode) (locked : bool) : Z := if locked then 0 else table_len (dn_routing_table n).
Definition bootstrap_ready_with_contacts (min_ready_contacts routing_contacts : Z) : bool := Z.max min_ready_contacts 1 <=? routing_contacts.

(** ** Contacts *)

Definition set_udp_key (key : KadUdpKey) (c : Contact) : Contact :=
  mkContact (c_id c) (c_ip c) (c_udp_port c) (c_tcp_port c) (c_kad_version c) key (c_hello_source_udp_port c) (c_udp_firewalled c)
    (c_tcp_firewalled c) (c_requests_hello_res_ack c) (c_verified c) (c_contact_type c) (c_last_seen c) (c_created_at c).
Definition to_dht (r : res RoutingError unit) : res DhtError unit := map_err DRouting r.
(** [DhtNode::add_contact] *)
Definition node_add_contact (n : DhtNode) (contact : Contact) : DhtNode * res DhtError unit :=
  let addr := addr_from_contact contact in
  let contact :=
    if c_udp_key contact =? KadUdpKey_ZERO then
      match known_peer_key n addr with Some key => set_udp_key key contact | None => contact end
    else contact in
  let n := set_layer (register_peer_identity addr (c_id contact)) n in
  let n := set_layer (register_peer_version addr (c_kad_version contact)) n in
  let n := if negb (c_udp_key contact =? KadUdpKey_ZERO) then set_layer (register_peer_key addr (c_udp_key contact)) n else n in
  let '(table, r) := add_contact (dn_routing_table n) contact in
  (set_table table n, to_dht r).
Definition expire_contact_for_massive_flood (addr : SocketAddr) (n : DhtNode) : DhtNode :=
  match sa_ip addr with
  | V6 _ => n
  | V4 ip =>
      match List.find (λ contact, bool_decide (c_ip contact = ip) && (c_udp_port contact =? sa_port addr)) (all_contacts (dn_routing_table n)) with
      | Some contact => set_table (fst (table_remove (dn_routing_table n) (c_id contact))) n
      | None => n
      end
  end.
(** [let _ = ..]: an error is dropped, a panic is not. *)
Definition surviving {E A} (r : res E A) (n : DhtNode) : res DhtError DhtNode := match r with Panic => Panic | _ => Ok n end.
(** [let _ = rt.add_contact(contact)] *)
Definition table_add (contact : Contact) (n : DhtNode) : res DhtError DhtNode :=
  let '(table, r) := add_contact (dn_routing_table n) contact in surviving r (set_table table n).

(** ** Lookups *)

Definition lookup_config (n : DhtNode) (target : NodeId) : phase1_config := mkP1Config target KindFindNode (dc_search_phase2_fanout (dn_config n)).
(** The contacts a lookup starts from are those of a publish. *)
Definition closest_search_contacts (n : DhtNode) (target : NodeId) (locked : bool) : list TraversalContact :=
  if locked then [] else get_initial (dn_routing_table n) target.
Definition add_discovered (now : Z) (n : DhtNode) (contact : TraversalContact) : res DhtError DhtNode :=
  match sa_ip (tc_addr contact) with
  | V6 _ => Ok n
  | V4 ip =>
      let c := new_contact now (tc_id contact) ip (sa_port (tc_addr contact)) (sa_port (tc_addr contact)) (tc_version contact) in
      table_add c (set_layer (register_peer_identity (addr_from_contact c) (c_id c)) n)
  end.
(** The end of [lookup_nodes_with_class]: the contacts it found enter the table. *)
Definition lookup_nodes_done (now : Z) (found : list TraversalContact) (n : DhtNode) : res DhtError DhtNode := fold_res (add_discovered now) n found.

(** ** Steps of other tasks *)

Inductive node_event : Type :=
| NLearn (from : SocketAddr) (packet : KadPacket) (sender_verify_key : option Z)
| NAdd (contact : Contact)
| NFlood (addr : SocketAddr)
| NFound (now : Z) (found : list TraversalContact)
| NRegisterKey (addr : SocketAddr) (key : Z).
Definition node_step (n : DhtNode) (e : node_event) : res DhtError DhtNode :=
  match e with
  | NLearn from packet key => Ok (set_layer (learn from packet key) n)
  | NAdd contact => let '(n, r) := node_add_contact n contact in surviving r n
  | NFlood addr => Ok (expire_contact_for_massive_flood addr n)
  | NFound now found => lookup_nodes_done now found n
  | NRegisterKey addr key => Ok (set_layer (register_peer_key addr key) n)
  end.
Definition run_others (es : list node_event) (n : DhtNode) : res DhtError DhtNode := fold_res node_step n es.

(** ** Bootstrap *)

Section bootstrap.
Context (trim : list Z → list Z) (socket_from_str : list Z → option SocketAddr).
Definition load_bootstrap_contacts (config : DhtConfig) : res DhtError (list BootstrapContact) :=
  contacts ← match dc_nodes_dat config with
             | Some data => match parse_nodes_dat data with Ok c => Ok c | Err _ => Ok [] | Panic => Panic end
             | None => Ok []
             end;
  let contacts := contacts ++ match dc_nodes_text config with Some text => parse_nodes_text trim socket_from_str text | None => [] end in
  Ok (match contacts with [] => hardcoded_bootstrap | _ => contacts end).

Definition bootstrap_addr (bc : BootstrapContact) : SocketAddr := mkSocketAddr (V4 (bc_ip bc)) (bc_udp_port bc).
(** What is registered of a contact before it is asked. *)
Definition bootstrap_register (bc : BootstrapContact) (n : DhtNode) : DhtNode :=
  let addr := bootstrap_addr bc in
  let n := if negb (bool_decide (bc_node_id bc = NodeId_ZERO)) then set_layer (register_peer_identity addr (bc_node_id bc)) n else n in
  let n := set_layer (register_peer_version addr (bc_version bc)) n in
  if negb (bc_udp_key bc =? KadUdpKey_ZERO) then set_layer (register_peer_key addr (bc_udp_key bc)) n else n.
Definition bootstrap_entry (now : Z) (n : DhtNode) (entry : ContactEntry) : res DhtError DhtNode :=
  if (ce_ip entry =? 0) || (ce_udp_port entry =? 0) then Ok n
  else
    let contact := new_contact now (ce_node_id entry) (ip_addr entry) (ce_udp_port entry) (ce_tcp_port entry) (ce_version entry) in
    let n := set_layer (register_peer_identity (addr_from_contact contact) (c_id contact)) n in
    let n := set_layer (register_peer_version (addr_from_contact contact) (c_kad_version contact)) n in
    table_add contact n.
(** The answer of the contact. *)
Definition bootstrap_answer (bc : BootstrapContact) (now : Z) (answer : BootstrapRes) (n : DhtNode) : res DhtError DhtNode :=
  let addr := bootstrap_addr bc in
  let sender := new_contact now (br_sender_id answer) (bc_ip bc) (bc_udp_port bc) (br_sender_tcp_port answer) (br_sender_version answer) in
  let sender := match known_peer_key n addr with Some key => set_udp_key key sender | None => sender end in
  n ← table_add sender n;
  fold_res (bootstrap_entry now) n (br_contacts answer).

(** A round: the steps of other tasks until the request ends, its outcome, and the clock. *)
Record boot_round : Type := mkRound { bo_others : list node_event; bo_outcome : NetError + KadPacket; bo_now : Z }.
Definition bootstrap_round (st : DhtNode * Z) (round : BootstrapContact * boot_round) : res DhtError (DhtNode * Z) :=
  let '(n, responded) := st in
  let '(bc, round) := round in
  n ← run_others (bo_others round) (bootstrap_register bc n);
  match bo_outcome round with
  | inr (PBootstrapRes answer) => n ← bootstrap_answer bc (bo_now round) answer n; Ok (n, responded + 1)
  | inr _ => Ok (n, responded)
  | inl _ => Ok (n, responded)
  end.
(** [bootstrap_with_class]: its rounds, and the end of the lookup of the own
    identifier that follows them. *)
Definition bootstrap (n : DhtNode) (rounds : list boot_round) (lookup_others : list node_event) (now : Z) (found : list TraversalContact)
    (others : list node_event) : DhtNode * res DhtError unit :=
  match load_bootstrap_contacts (dn_config n) with
  | Ok [] => (n, Err NoBootstrapNodes)
  | Ok contacts =>
      match fold_res bootstrap_round (n, 0) (zip (take 10 contacts) rounds) with
      | Ok (n, responded) =>
          if responded =? 0 then (n, Err BootstrapFailed)
          else
            match (n ← run_others lookup_others n; n ← lookup_nodes_done now found n; run_others others n) with
            | Ok n =>
                let size := table_len (dn_routing_table n) in
                (if bootstrap_ready_with_contacts (dc_bootstrap_min_routing_contacts (dn_config n)) size then set_bootstrapped n else n, Ok tt)
            | Err e => (n, Err e)
            | Panic => (n, Panic)
            end
      | Err e => (n, Err e)
      | Panic => (n, Panic)
      end
  | Err e => (n, Err e)
  | Panic => (n, Panic)
  end.
End bootstrap.

(** ** Persistence *)

(** [persist_nodes_dat_for]: the contacts that are written. *)
Definition persisted_contact (n : DhtNode) (contact : Contact) : BootstrapContact :=
  let udp_key := default (c_udp_key contact) (known_peer_key n (addr_from_contact contact)) in
  mkBootstrap (c_id contact) (c_ip contact) (c_udp_port contact) (c_tcp_port contact) (c_kad_version contact) udp_key.
Definition persist_nodes_dat_for (n : DhtNode) : res DhtError (list Z) :=
  encode_nodes_dat (map (persisted_contact n) (routing_contacts n)).

(** ** Invariant *)

Record layer_ok (own_id : NodeId) (key : Z) (l : ObfuscationLayer) : Prop := {
  lo_id : ob_our_node_id l = own_id;
  lo_key : ob_our_udp_key l = key;
  lo_keys : ∀ ip k, ob_receiver_verify_keys l !! ip = Some k → is_u32 k = true;
}.
Record node_ok (n : DhtNode) : Prop := {
  no_table : table_ok (dn_routing_table n);
  no_own : own_id (dn_routing_table n) = dn_own_id n;
  no_wf : wf_NodeId (dn_own_id n) = true;
  no_layer : layer_ok (dn_own_id n) (dc_udp_key (dn_config n)) (dn_layer n);
}.
Definition wf_traversal (c : TraversalContact) : bool :=
  wf_NodeId (tc_id c) && match sa_ip (tc_addr c) with V4 ip => wf_ip ip | V6 _ => true end && is_u16 (sa_port (tc_addr c)) && is_u8 (tc_version c).
Definition wf_event (e : node_event) : bool :=
  match e with
  | NLearn _ _ key => match key with Some key => is_u32 key | None => true end
  | NAdd contact => wf_contact contact
  | NFlood _ => true
  | NFound _ found => forallb wf_traversal found
  | NRegisterKey _ key => is_u32 key
  end.
Definition wf_round (r : boot_round) : bool :=
  forallb wf_event (bo_others r) && match bo_outcome r with inr p => wf_packet p | inl _ => true end.

(** What other tasks leave alone. *)
Definition same_setup (n n' : DhtNode) : Prop :=
  dn_own_id n' = dn_own_id n ∧ dn_config n' = dn_config n ∧ dn_bootstrapped n' = dn_bootstrapped n.
#[export] Instance same_setup_preorder : PreOrder same_setup.
Proof. split; [done|]. intros a b c (? & ? & ?) (? & ? & ?). unfold same_setup. repeat split; congruence. Qed.
(** The identifiers of the contacts, and an operation that adds at most some of [new]. *)
Definition contact_ids (n : DhtNode) : list NodeId := c_id <$> contacts (dn_routing_table n).
Definition learns (new : list NodeId) (n n' : DhtNode) : Prop :=
  contact_ids n ⊆ contact_ids n' ∧ ∀ id, id ∈ contact_ids n' → id ∈ contact_ids n ∨ id ∈ new.

(** What a step does to the contacts. *)
Definition step_effect (n : DhtNode) (e : node_event) (n' : DhtNode) : Prop :=
  match e with
  | NLearn _ _ _ | NRegisterKey _ _ => dn_routing_table n' = dn_routing_table n
  | NAdd contact =>
      learns [c_id contact] n n' ∧ (snd (node_add_contact n contact) = Ok tt → c_id contact ∈ contact_ids n') ∧
      peer_of (dn_layer n') (addr_from_contact contact) = mkPeerCrypto (Some (c_id contact)) (Some (c_kad_version contact))
  | NFlood addr => ∀ c, c ∈ contacts (dn_routing_table n') ↔ c ∈ contacts (dn_routing_table n) ∧ addr_from_contact c ≠ addr
  | NFound _ found => learns (tc_id <$> found) n n'
  end.

(** ** Lemmas *)

Lemma register_layer_ok own key addr l : layer_ok own key l →
  (∀ id, layer_ok own key (register_peer_identity addr id l)) ∧ (∀ v, layer_ok own key (register_peer_version addr v l)) ∧
  (∀ k, is_u32 k = true → layer_ok own key (register_peer_key addr k l)).
Proof.
  intros [H1 H2 H3]. split; [|split]; intros; split; cbn; try done.
  intros ip k' [[_ <-]|[_ Hk]]%lookup_insert_Some; [done|by eapply H3].
Qed.
Lemma learn_layer_ok own key from packet k l : layer_ok own key l → match k with Some k => is_u32 k | None => true end = true →
  layer_ok own key (learn from packet k l).
Proof.
  intros H Hk. unfold learn. repeat case_match; try done; repeat (apply register_layer_ok; try done).
Qed.
Lemma set_layer_ok n f : (∀ own key l, layer_ok own key l → layer_ok own key (f l)) → node_ok n → node_ok (set_layer f n).
Proof. intros Hf [H1 H2 H3 H4]. split; try done. by apply Hf. Qed.
Lemma set_table_ok n t : node_ok n → table_ok t → own_id t = own_id (dn_routing_table n) → node_ok (set_table t n).
Proof. intros [H1 H2 H3 H4] Ht Ho. split; try done. cbn. by rewrite Ho. Qed.
Lemma add_own t c : own_id (fst (add_contact t c)) = own_id t.
Proof. unfold add_contact. repeat case_match; done. Qed.
Lemma remove_own t id : own_id (fst (table_remove t id)) = own_id t.
Proof. unfold table_remove. repeat case_match; done. Qed.
Lemma add_contact_no_panic t c : table_ok t → wf_contact c = true → snd (add_contact t c) ≠ Panic.
Proof. intros Ht Hc Hp. destruct (add_contact_spec t c Ht Hc) as [_ H]. by rewrite Hp in H. Qed.
Lemma add_contact_ids t c : table_ok t → wf_contact c = true → let t' := fst (add_contact t c) in
  (c_id <$> contacts t) ⊆ c_id <$> contacts t' ∧ (∀ id, id ∈ c_id <$> contacts t' → id ∈ c_id <$> contacts t ∨ id = c_id c).
Proof.
  intros Ht Hc. destruct (add_contact_spec t c Ht Hc) as [_ H]. cbn zeta.
  assert (Hp : c_id <$> contacts (fst (add_contact t c)) ≡ₚ c_id <$> contacts t ∨ c_id <$> contacts (fst (add_contact t c)) ≡ₚ c_id c :: (c_id <$> contacts t)).
  { destruct (snd (add_contact t c)) as [[]|e|]; [..|done].
    - destruct H as [(_ & -> & _)|(e & rest & -> & _ & ->)]; [by right|by left].
    - destruct H as [-> _]. by left. }
  destruct Hp as [Hp|Hp]; (split; [rewrite Hp|intros id; rewrite Hp]); [done|by left|by intros id Hid; right|].
  intros [->|Hid]%elem_of_cons; [by right|by left].
Qed.
Lemma table_add_ok c n : node_ok n → wf_contact c = true → ∃ n', table_add c n = Ok n' ∧ node_ok n' ∧ same_setup n n' ∧ learns [c_id c] n n'.
Proof.
  intros H Hc. unfold table_add. pose proof (add_contact_no_panic (dn_routing_table n) c (no_table n H) Hc) as Hp.
  pose proof (add_contact_ids (dn_routing_table n) c (no_table n H) Hc) as Hids. pose proof (add_own (dn_routing_table n) c) as Ho.
  destruct (add_contact_spec (dn_routing_table n) c (no_table n H) Hc) as [Hok _]. destruct (add_contact _ c) as [t r]. cbn [fst snd] in *.
  exists (set_table t n). split; [by destruct r|]. split; [by apply set_table_ok|]. split; [done|].
  destruct Hids as [H1 H2]. split; [exact H1|]. intros id Hid. destruct (H2 id Hid) as [| ->]; [by left|right; by apply list_elem_of_singleton].
Qed.
Lemma learns_trans l1 l2 n1 n2 n3 : learns l1 n1 n2 → learns l2 n2 n3 → learns (l1 ++ l2) n1 n3.
Proof. intros [H1 H2] [H3 H4]. split; [by etransitivity|]. intros id [Hid|Hid]%H4; [apply H2 in Hid|]; rewrite elem_of_app; naive_solver. Qed.
Lemma register_identity_ok addr id n : node_ok n → node_ok (set_layer (register_peer_identity addr id) n).
Proof. apply set_layer_ok. intros own key l Hl. by apply register_layer_ok. Qed.
Lemma register_version_ok addr v n : node_ok n → node_ok (set_layer (register_peer_version addr v) n).
Proof. apply set_layer_ok. intros own key l Hl. by apply register_layer_ok. Qed.
Lemma register_key_ok addr k n : is_u32 k = true → node_ok n → node_ok (set_layer (register_peer_key addr k) n).
Proof. intros Hk. apply set_layer_ok. intros own key l Hl. by apply register_layer_ok. Qed.
Lemma known_key_u32 n addr k : node_ok n → known_peer_key n addr = Some k → is_u32 k = true.
Proof. intros H. apply (lo_keys _ _ _ (no_layer n H)). Qed.
Lemma wf_set_udp_key k c : wf_contact c = true → is_u32 k = true → wf_contact (set_udp_key k c) = true.
Proof. unfold wf_contact. intros H Hk. bool_hyps. cbn. by rewrite !andb_true_iff. Qed.
Lemma wf_new_contact now id ip udp tcp v : wf_NodeId id = true → wf_ip ip = true → is_u16 udp = true → is_u16 tcp = true → is_u8 v = true →
  wf_contact (new_contact now id ip udp tcp v) = true.
Proof. intros. unfold wf_contact. cbn. by rewrite !andb_true_iff. Qed.
Create HintDb node.
#[local] Hint Resolve register_identity_ok register_version_ok register_key_ok wf_new_contact wf_set_udp_key : node.

(** The contact that [add_contact] puts into the table. *)
Definition keyed (n : DhtNode) (contact : Contact) : Contact :=
  if c_udp_key contact =? KadUdpKey_ZERO then
    match known_peer_key n (addr_from_contact contact) with Some key => set_udp_key key contact | None => contact end
  else contact.
Lemma wf_keyed n contact : node_ok n → wf_contact contact = true → wf_contact (keyed n contact) = true.
Proof. intros H Hc. unfold keyed. repeat case_match; try done. apply wf_set_udp_key; [done|by eapply known_key_u32]. Qed.
Lemma node_add_spec n contact : node_ok n → wf_contact contact = true →
  let '(n', r) := node_add_contact n contact in
  node_ok n' ∧ r = to_dht (snd (add_contact (dn_routing_table n) (keyed n contact))) ∧
  dn_routing_table n' = fst (add_contact (dn_routing_table n) (keyed n contact)) ∧
  peer_of (dn_layer n') (addr_from_contact contact) = mkPeerCrypto (Some (c_id contact)) (Some (c_kad_version contact)).
Proof.
  intros H Hc. pose proof (wf_keyed n contact H Hc) as Hk. unfold node_add_contact. fold (keyed n contact).
  assert (Hid : c_id (keyed n contact) = c_id contact ∧ c_kad_version (keyed n contact) = c_kad_version contact) by (unfold keyed; repeat case_match; done).
  destruct Hid as [Hid Hv]. set (k := keyed n contact) in *.
  assert (Hu : is_u32 (c_udp_key k) = true) by (unfold wf_contact in Hk; by bool_hyps).
  set (n1 := set_layer _ (set_layer _ n)). assert (H1 : node_ok n1) by (unfold n1; auto with node).
  set (n2 := if negb _ then _ else _). assert (H2 : node_ok n2) by (unfold n2; case_match; auto with node).
  assert (Ht : dn_routing_table n2 = dn_routing_table n) by (unfold n2; case_match; done).
  rewrite Ht. destruct (add_contact _ k) as [t r] eqn:E. split; [|split; [done|split; [done|]]].
  - apply set_table_ok; [done|..].
    + pose proof (add_contact_spec (dn_routing_table n) k (no_table n H) Hk) as [Ha _]. by rewrite E in Ha.
    + rewrite Ht. pose proof (add_own (dn_routing_table n) k) as Ha. by rewrite E in Ha.
  - assert (Hl : peer_of (dn_layer n2) (addr_from_contact contact) = mkPeerCrypto (Some (c_id contact)) (Some (c_kad_version contact))); [|done].
    unfold n2, n1. rewrite Hid, Hv. case_match; unfold peer_of; cbn; rewrite !lookup_insert_eq; cbn; unfold peer_of; cbn; by rewrite lookup_insert_eq.
Qed.

Lemma all_contacts_spec t : table_ok t → wf_NodeId (t_own_id t) = true →
  all_contacts t ≡ₚ contacts t ∧ StronglySorted (closer (t_own_id t)) (all_contacts t).
Proof.
  intros Ht Ho. destruct (get_closest_sorted t (t_own_id t) Ht Ho) as [Hp Hs]. unfold all_contacts, get_closest.
  rewrite take_ge; [done|]. rewrite (ok_total t Ht), Hp. unfold zlen. lia.
Qed.
(** An expiry removes the contact at the address. *)
Lemma expire_spec addr n : node_ok n → node_ok (expire_contact_for_massive_flood addr n) ∧
  step_effect n (NFlood addr) (expire_contact_for_massive_flood addr n).
Proof.
  intros H. unfold step_effect, expire_contact_for_massive_flood. destruct addr as [[ip|ip] port]; cbn [sa_ip sa_port]; [|split; [done|]; naive_solver].
  destruct (all_contacts_spec _ (no_table n H)) as [Hp _].
  { pose proof (no_own n H) as Ho. unfold own_id in Ho. rewrite Ho. apply H. }
  destruct (List.find _ _) as [c|] eqn:Hf.
  - apply find_some in Hf as [Hin Hc]. bool_hyps. apply list_elem_of_In in Hin. rewrite Hp in Hin.
    destruct (table_remove_spec (dn_routing_table n) (c_id c) (no_table n H)) as [Ht Hr].
    split; [by apply set_table_ok, remove_own|]. destruct (snd _) eqn:Hs; [|destruct Hr as [_ []]; by apply list_elem_of_fmap_2].
    destruct Hr as (c' & Hid & Hperm). cbn [dn_routing_table set_table].
    assert (c' = c) as ->.
    { assert (Hnd : NoDup (c_id <$> contacts (dn_routing_table n))) by (eapply zone_NoDup, ok_zone, H).
      apply (NoDup_unique c_id (contacts (dn_routing_table n))); try done. rewrite Hperm. set_solver. }
    pose proof (ok_one_per_ip _ (no_table n H) ip) as Hone. rewrite Hperm, countb_cons in Hone.
    assert (Hip : has_ip ip c = true) by by apply bool_decide_eq_true. rewrite Hip in Hone.
    intros x. rewrite Hperm, elem_of_cons. split; [|intros [[->|Hx] Hne]; [|done]; destruct Hne; unfold addr_from_contact; by f_equal; f_equal].
    intros Hx. split; [by right|]. intros [= Hxip Hxp].
    assert (Hpos : (0 < countb (has_ip ip) (contacts (fst (table_remove (dn_routing_table n) (c_id c)))))%nat); [|lia].
    apply (countb_elem _ _ x Hx). by apply bool_decide_eq_true.
  - split; [done|]. intros x. split; [|by intros []]. intros Hx. split; [done|]. intros [= Hxip Hxp]. rewrite <- Hp in Hx. apply list_elem_of_In in Hx.
    eapply find_none in Hf; [|exact Hx]. rewrite Hxip, Hxp, bool_decide_eq_true_2, Z.eqb_refl in Hf by done. done.
Qed.

Lemma add_discovered_ok now n c : node_ok n → wf_traversal c = true →
  ∃ n', add_discovered now n c = Ok n' ∧ node_ok n' ∧ same_setup n n' ∧ learns [tc_id c] n n'.
Proof.
  unfold wf_traversal, add_discovered. intros H Hc. destruct (sa_ip (tc_addr c)); [|exists n; split; [done|]; split; [done|]; split; [done|]; split; [done|by left]].
  bool_hyps. match goal with |- context[table_add ?c ?m] => apply (table_add_ok c m) end; auto with node.
Qed.
Lemma lookup_nodes_done_ok now found n : node_ok n → forallb wf_traversal found = true →
  ∃ n', lookup_nodes_done now found n = Ok n' ∧ node_ok n' ∧ same_setup n n' ∧ learns (tc_id <$> found) n n'.
Proof.
  unfold lookup_nodes_done. revert n; induction found as [|c l IH]; intros n H Hl; cbn [fold_res forallb] in *.
  { exists n. split; [done|]. split; [done|]. split; [done|]. split; [done|by left]. }
  bool_hyps. destruct (add_discovered_ok now n c) as (n1 & -> & Hn1 & Hs1 & Hl1); [done..|].
  destruct (IH n1) as (n2 & -> & Hn2 & Hs2 & Hl2); [done..|]. exists n2. split; [done|]. split; [done|]. split; [by etransitivity|].
  exact (learns_trans _ _ _ _ _ Hl1 Hl2).
Qed.
Lemma keyed_id n contact : c_id (keyed n contact) = c_id contact.
Proof. unfold keyed. repeat case_match; done. Qed.
Lemma node_add_step_ok n contact : node_ok n → wf_contact contact = true →
  ∃ n', node_step n (NAdd contact) = Ok n' ∧ node_ok n' ∧ same_setup n n' ∧ step_effect n (NAdd contact) n'.
Proof.
  intros H Hc. cbn [node_step step_effect]. pose proof (node_add_spec n contact H Hc) as Ha. pose proof (wf_keyed n contact H Hc) as Hk.
  assert (Hs : same_setup n (fst (node_add_contact n contact))) by (unfold node_add_contact; destruct (add_contact _ _); cbn; repeat case_match; done).
  pose proof (add_contact_no_panic _ _ (no_table n H) Hk) as Hp. destruct (add_contact_ids _ _ (no_table n H) Hk) as [Hi1 Hi2].
  destruct (add_contact_spec _ _ (no_table n H) Hk) as [_ Hpost]. rewrite keyed_id in Hi2.
  destruct (node_add_contact n contact) as [n' r]. destruct Ha as (Hok & -> & Ht & Hpeer). rewrite <- Ht in *. exists n'. cbn [snd].
  split; [by destruct (snd (add_contact _ _))|]. split; [done|]. split; [done|]. split; [|split; [|done]].
  - split; [exact Hi1|]. intros id [Hid|Hid]%Hi2; [by left|right; by apply list_elem_of_singleton].
  - destruct (snd (add_contact _ _)) as [[]|e|]; [|done..]. intros _. unfold contact_ids. rewrite <- (keyed_id n).
    destruct Hpost as [(_ & -> & _)|(e & rest & _ & <- & ->)]; rewrite fmap_cons; by left.
Qed.
Lemma node_step_spec n e : node_ok n → wf_event e = true → ∃ n', node_step n e = Ok n' ∧ node_ok n' ∧ same_setup n n' ∧ step_effect n e n'.
Proof.
  intros H He. destruct e as [from packet key|contact|addr|now found|addr key]; cbn in He.
  - eexists. split; [done|]. split; [|done]. apply set_layer_ok; [|done]. intros own k l Hl. by apply learn_layer_ok.
  - by apply node_add_step_ok.
  - eexists. split; [done|]. split; [by apply expire_spec|]. split; [|by apply expire_spec]. unfold expire_contact_for_massive_flood. repeat case_match; done.
  - by apply lookup_nodes_done_ok.
  - eexists. split; [done|]. split; [by apply register_key_ok|done].
Qed.
Lemma node_step_ok n e : node_ok n → wf_event e = true → ∃ n', node_step n e = Ok n' ∧ node_ok n' ∧ same_setup n n'.
Proof. intros H He. destruct (node_step_spec n e H He) as (n' & ? & ? & ? & _). by exists n'. Qed.
(** A node and those that follow it. *)
Definition follows (n n' : DhtNode) : Prop := node_ok n' ∧ same_setup n n'.
Lemma follows_trans n1 n2 n3 : follows n1 n2 → follows n2 n3 → follows n1 n3.
Proof. intros [_ H1] [H H2]. split; [done|by etransitivity]. Qed.
Lemma run_others_ok es n : forallb wf_event es = true → node_ok n → ∃ n', run_others es n = Ok n' ∧ follows n n'.
Proof.
  intros Hes Hn. apply (fold_res_ok node_step (follows n) wf_event); [|done|by split].
  intros n1 e H1 He. destruct (node_step_ok n1 e) as (n2 & -> & H2); [apply H1|done|]. exists n2. split; [done|]. by eapply follows_trans.
Qed.
Lemma node_new_ok config drawn_id drawn_key : wf_NodeId (dc_node_id config) = true → wf_NodeId drawn_id = true →
  node_ok (node_new config drawn_id drawn_key).
Proof.
  intros H1 H2. split; cbn; [apply with_max_size_ok|done|by case_bool_decide|]. split; cbn; try done.
Qed.

Lemma bootstrap_register_ok bc n : node_ok n → wf_bootstrap bc = true → follows n (bootstrap_register bc n).
Proof. unfold wf_bootstrap, bootstrap_register. intros H Hb. bool_hyps. split; [repeat case_match; auto with node|repeat case_match; done]. Qed.
Lemma bootstrap_entry_ok now n e : node_ok n → wf_contact_entry e = true → ∃ n', bootstrap_entry now n e = Ok n' ∧ follows n n'.
Proof.
  unfold wf_contact_entry, bootstrap_entry. intros H He. bool_hyps. case_match; [by exists n|].
  match goal with |- ∃ n', table_add ?c ?m = _ ∧ _ => destruct (table_add_ok c m) as (n' & ? & ? & ? & _); [auto with node| |by exists n'] end.
  apply wf_new_contact; try done. apply wf_ipv4_from_u32.
Qed.
Lemma bootstrap_answer_ok bc now answer n : node_ok n → wf_bootstrap bc = true → wf_packet (PBootstrapRes answer) = true →
  ∃ n', bootstrap_answer bc now answer n = Ok n' ∧ follows n n'.
Proof.
  unfold wf_bootstrap. intros H Hb Ha. bool_hyps. cbn in Ha. bool_hyps. unfold bootstrap_answer.
  match goal with |- context[table_add ?c n] => destruct (table_add_ok c n) as (n1 & -> & Hn1 & Hs1 & _) end; [done| |].
  { destruct (known_peer_key _ _) eqn:Hk; [apply wf_set_udp_key; [|by eapply known_key_u32]|]; by apply wf_new_contact. }
  cbn [mbind res_bind]. apply (fold_res_ok _ (follows n) wf_contact_entry); [|done|by split].
  intros n2 e Hn2 He. destruct (bootstrap_entry_ok now n2 e) as (n3 & -> & Hn3); [apply Hn2|done|]. exists n3. split; [done|]. by eapply follows_trans.
Qed.
Definition responds (r : boot_round) : bool := match bo_outcome r with inr (PBootstrapRes _) => true | _ => false end.
Lemma bootstrap_round_ok rounds n k : forallb (λ r, wf_bootstrap (fst r) && wf_round (snd r)) rounds = true → node_ok n →
  ∃ n', fold_res bootstrap_round (n, k) rounds = Ok (n', k + Z.of_nat (countb (λ r, responds (snd r)) rounds)) ∧ follows n n'.
Proof.
  revert n k; induction rounds as [|[bc r] l IH]; intros n k Hl Hn; cbn [fold_res].
  { exists n. split; [|by split]. unfold countb. cbn. do 2 f_equal. lia. }
  cbn [forallb fst snd] in Hl. bool_hyps. unfold wf_round in *. bool_hyps. rewrite countb_cons. cbn [snd].
  pose proof (bootstrap_register_ok bc n Hn ltac:(done)) as F1. destruct (run_others_ok (bo_others r) (bootstrap_register bc n)) as (n2 & Hrun & F2); [done|apply F1|].
  pose proof (follows_trans _ _ _ F1 F2) as F12. cbn [bootstrap_round]. rewrite Hrun. cbn [mbind res_bind]. unfold responds at 1.
  assert (Hgo : ∀ n3 k', follows n n3 → ∃ n', fold_res bootstrap_round (n3, k') l = Ok (n', k' + Z.of_nat (countb (λ r, responds (snd r)) l)) ∧ follows n n').
  { intros n3 k' F3. destruct (IH n3 k') as (n4 & -> & F4); [done|apply F3|]. exists n4. split; [done|]. by eapply follows_trans. }
  destruct (bo_outcome r) as [e|p]; [by apply Hgo|]. destruct p; try by apply Hgo.
  destruct (bootstrap_answer_ok bc (bo_now r) p n2) as (n3 & -> & F3); [apply F2|done..|]. cbn [mbind res_bind].
  destruct (Hgo n3 (k + 1)) as (n4 & -> & F4); [by eapply follows_trans|]. exists n4. split; [|done]. do 2 f_equal. lia.
Qed.

Section loading.
Context (trim : list Z → list Z) (socket_from_str : list Z → option SocketAddr).
(** Parsed addresses are addresses. *)
Context (Hsock : ∀ s a, socket_from_str s = Some a → match sa_ip a with V4 ip => wf_ip ip | V6 _ => true end && is_u16 (sa_port a) = true).
Definition wf_config_bytes (config : DhtConfig) : bool := match dc_nodes_dat config with Some data => is_bytes data | None => true end.
Lemma text_wf text : forallb wf_bootstrap (parse_nodes_text trim socket_from_str text) = true.
Proof.
  apply forallb_elem. intros c (line & _ & Hl)%list_elem_of_omap. unfold parse_nodes_line in Hl.
  assert (Hp : ∃ s a, socket_from_str s = Some a ∧ match a with mkSocketAddr (V4 ip) port => c = mkBootstrap NodeId_ZERO ip port port 9 KadUdpKey_ZERO | _ => False end).
  { repeat case_match; simplify_eq; try done; eexists _, _; split; done. }
  destruct Hp as (s & [[ip|ip] port] & Ha & Hc); [|done]. subst c. specialize (Hsock _ _ Ha). cbn in Hsock. bool_hyps.
  unfold wf_bootstrap. cbn [bc_node_id bc_ip bc_udp_port bc_tcp_port bc_version bc_udp_key]. by rewrite !andb_true_iff.
Qed.
Lemma load_wf config : wf_config_bytes config = true →
  ∃ l, load_bootstrap_contacts trim socket_from_str config = Ok l ∧ forallb wf_bootstrap l = true ∧ l ≠ [].
Proof.
  unfold wf_config_bytes, load_bootstrap_contacts. intros Hb. set (dat := match dc_nodes_dat config with Some _ => _ | None => _ end).
  assert (Hd : ∃ d, dat = Ok d ∧ forallb wf_bootstrap d = true).
  { unfold dat. destruct (dc_nodes_dat config) as [data|]; [|by eexists]. destruct (parse_any data Hb) as [->|(l & -> & _ & Hl)]; [by eexists|].
    eexists. split; [done|]. rewrite forallb_elem in Hl |- *. intros x Hx. specialize (Hl x Hx). by bool_hyps. }
  destruct Hd as (d & -> & Hd). cbn [mbind res_bind]. set (text := match dc_nodes_text config with Some _ => _ | None => _ end).
  assert (Ht : forallb wf_bootstrap text = true) by (unfold text; destruct (dc_nodes_text config); [apply text_wf|done]).
  assert (Hall : forallb wf_bootstrap (d ++ text) = true) by (by rewrite forallb_app, Hd, Ht). eexists. split; [done|]. destruct (d ++ text); [by vm_compute|done].
Qed.
End loading.

(** ** Correctness *)

(** C12. The node stays sound: no sequence of steps from its start (packets that teach
    it about peers, contacts added, floods, lookups that end, keys registered) panics,
    and after it the routing table satisfies its invariant and belongs to its
    identifier, its keys are typed, and its identifier, its key and the rest of its
    setup are those it started with. A further step does not panic either, and does
    to the contacts what it should ([step_effect]): learning about a peer leaves the
    table alone; an added contact enters it when no error is reported, the network
    layer then knows its identity and version, and no contact is lost or invented; a
    flood takes exactly the contact at its address away; and the end of a lookup
    loses nobody and adds only contacts that were found. *)
Theorem node_invariant config drawn_id drawn_key es :
  wf_NodeId (dc_node_id config) = true → wf_NodeId drawn_id = true → forallb wf_event es = true →
  let start := node_new config drawn_id drawn_key in
  ∃ n, run_others es start = Ok n ∧ node_ok n ∧ same_setup start n ∧
    dn_own_id n = (if bool_decide (dc_node_id config = NodeId_ZERO) then drawn_id else dc_node_id config) ∧
    ∀ e, wf_event e = true → ∃ n', node_step n e = Ok n' ∧ node_ok n' ∧ same_setup start n' ∧ step_effect n e n'.
Proof.
  intros Hc Hd He start. destruct (run_others_ok es start He) as (n & Hrun & Hn & Hs); [by apply node_new_ok|].
  exists n. split; [done|]. split; [done|]. split; [done|]. split; [by destruct Hs as [-> _]|]. intros e Hw.
  destruct (node_step_spec n e Hn Hw) as (n' & ? & ? & ? & ?). exists n'. repeat (split; [done|]). split; [by etransitivity|done].
Qed.
Definition flooder : Contact := new_contact 0 (replicate 16 9) (90, 1, 2, 3) 4672 4662 9.
Lemma node_invariant_witness :
  let start := node_new dht_config_default (replicate 16 1) 5 in
  ∃ n n', run_others [NAdd flooder] start = Ok n ∧ contacts (dn_routing_table n) = [flooder] ∧ dn_own_id n = replicate 16 1 ∧
    node_step n (NFlood (addr_from_contact flooder)) = Ok n' ∧ contacts (dn_routing_table n') = [] ∧ node_ok n' ∧ same_setup start n'.
Proof.
  destruct (node_invariant dht_config_default (replicate 16 1) 5 [NAdd flooder]) as (n & Hrun & _ & _ & Hid & Hstep); [reflexivity..|].
  destruct (Hstep (NFlood (addr_from_contact flooder)) eq_refl) as (n' & Hs & Hok & Hset & Heff). exists n, n'.
  assert (Hc : contacts (dn_routing_table n) = [flooder]) by (vm_compute in Hrun; injection Hrun as <-; reflexivity).
  repeat (split; [done|]). split; [|by split]. cbn in Heff. rewrite Hc in Heff.
  destruct (contacts (dn_routing_table n')) as [|c l]; [done|]. destruct (proj1 (Heff c)) as [Hin Hne]; [by left|].
  apply list_elem_of_singleton in Hin as ->. done.
Defined.

(** C13. Bootstrapping: whatever the contacts of [nodes.dat], the text list and the
    built-in list answer, and whatever happens meanwhile, it ends without a panic and
    with a sound node; it never lacks contacts to ask; it fails exactly when none of
    them answered with a bootstrap response; and afterwards the node counts as
    bootstrapped exactly when it did before or when the bootstrap succeeded and the
    table then had the configured number of contacts, and at least one. *)
Theorem bootstrap_correct trim socket_from_str n rounds lookup_others now found others :
  (∀ s a, socket_from_str s = Some a → match sa_ip a with V4 ip => wf_ip ip | V6 _ => true end && is_u16 (sa_port a) = true) →
  node_ok n → wf_config_bytes (dn_config n) = true →
  (∀ l, load_bootstrap_contacts trim socket_from_str (dn_config n) = Ok l → length rounds = length (take 10 l)) →
  forallb wf_round rounds = true → forallb wf_event lookup_others = true → forallb wf_traversal found = true → forallb wf_event others = true →
  let '(n', r) := bootstrap trim socket_from_str n rounds lookup_others now found others in
  node_ok n' ∧ r = (if existsb responds rounds then Ok tt else Err BootstrapFailed) ∧ dn_own_id n' = dn_own_id n ∧
  dn_bootstrapped n' = dn_bootstrapped n ||
    existsb responds rounds && (Z.max (dc_bootstrap_min_routing_contacts (dn_config n)) 1 <=? zlen (contacts (dn_routing_table n'))).
Proof.
  intros Hsock Hn Hb Hlen Hr Hlo Hf Ho. unfold bootstrap.
  destruct (load_wf trim socket_from_str Hsock _ Hb) as (cs & Hload & Hw & Hne). rewrite Hload. specialize (Hlen cs Hload).
  destruct cs as [|bc cs]; [done|]. set (l := zip (take 10 (bc :: cs)) rounds) in *.
  assert (Hl : forallb (λ r, wf_bootstrap (fst r) && wf_round (snd r)) l = true).
  { apply forallb_elem. intros [b r] Hin. apply elem_of_lookup_zip_with in Hin as (? & ? & ? & [= <- <-] & Hb' & Hr').
    apply lookup_take_Some in Hb' as [Hb' _]. cbn. rewrite (proj1 (forallb_elem _ _) Hw b) by by eapply list_elem_of_lookup_2.
    by rewrite (proj1 (forallb_elem _ _) Hr r) by by eapply list_elem_of_lookup_2. }
  destruct (bootstrap_round_ok l n 0 Hl Hn) as (n1 & -> & Hn1 & Hs1).
  assert (Hcount : (0 + Z.of_nat (countb (λ r, responds (snd r)) l) =? 0) = negb (existsb responds rounds)).
  { assert (Hsnd : snd <$> l = rounds) by (apply snd_zip; lia).
    assert (He : existsb responds rounds = existsb (λ r, responds (snd r)) l) by (rewrite <- Hsnd; clear; induction l; cbn; congruence).
    rewrite He. clear. induction l as [|r l IH]; [done|]. rewrite countb_cons. cbn [existsb]. destruct (responds _); cbn in *; [apply Z.eqb_neq; lia|done]. }
  rewrite Hcount. destruct (existsb responds rounds); cbn [negb andb orb].
  - destruct (run_others_ok lookup_others n1 Hlo Hn1) as (n2 & -> & Hn2 & Hs2). cbn [mbind res_bind].
    destruct (lookup_nodes_done_ok now found n2 Hn2 Hf) as (n3 & -> & Hn3 & Hs3 & _). cbn [mbind res_bind].
    destruct (run_others_ok others n3 Ho Hn3) as (n4 & -> & Hn4 & Hs4).
    assert (Hs : same_setup n n4) by (transitivity n1; [done|]; transitivity n2; [done|]; by transitivity n3).
    destruct Hs as (H1 & H2 & H3). unfold bootstrap_ready_with_contacts. unfold table_len. rewrite H2, (ok_total _ (no_table _ Hn4)).
    destruct (_ <=? _) eqn:Hle; (split; [|split; [done|split; [done|]]]); cbn [set_bootstrapped dn_bootstrapped dn_routing_table]; rewrite ?Hle, ?orb_true_r, ?orb_false_r; try done.
    destruct Hn4. by split.
  - split; [done|]. destruct Hs1 as (H1 & H2 & H3). rewrite H1, H3, orb_false_r. done.
Qed.
Definition sample_entry (id : Z) : ContactEntry := mkContactEntry (replicate 16 id) (ip_val (91, id, 1, 1)) 4672 4662 9.
Definition sample_boot_answer : KadPacket := PBootstrapRes (mkBootstrapRes (replicate 16 3) 4662 9 (sample_entry <$> seqZ 10 11)).
Definition sample_rounds (answer : KadPacket) : list boot_round := mkRound [] (inr answer) 7 :: replicate 9 (mkRound [] (inl NIo) 8).
Definition fresh_node : DhtNode := node_new dht_config_default (replicate 16 1) 5.
Lemma bootstrap_correct_witness :
  let '(n, r) := bootstrap (λ t, t) (λ _, None) fresh_node (sample_rounds sample_boot_answer) [] 9 [] [] in
  zlen (contacts (dn_routing_table n)) = 12 ∧ node_ok n ∧ r = Ok tt ∧ dn_bootstrapped n = true.
Proof.
  pose proof (bootstrap_correct (λ t, t) (λ _, None) fresh_node (sample_rounds sample_boot_answer) [] 9 [] [] ltac:(done)
    ltac:(by apply node_new_ok) eq_refl ltac:(by intros l [= <-]) eq_refl eq_refl eq_refl eq_refl) as H.
  assert (Hlen : zlen (contacts (dn_routing_table (fst (bootstrap (λ t, t) (λ _, None) fresh_node (sample_rounds sample_boot_answer) [] 9 [] [])))) = 12) by (vm_compute; reflexivity).
  destruct (bootstrap _ _ _ _ _ _ _) as [n r]. cbn [fst] in Hlen. destruct H as (H1 & H2 & _ & H4). rewrite Hlen in H4. split; [exact Hlen|].
  split; [exact H1|]. split; [exact H2|]. rewrite H4. reflexivity.
Defined.

(** A bootstrap can succeed and leave the node not bootstrapped. *)
Lemma bootstrap_not_ready :
  let '(n, r) := bootstrap (λ t, t) (λ _, None) fresh_node (sample_rounds (PBootstrapRes (mkBootstrapRes (replicate 16 3) 4662 9 []))) [] 9 [] [] in
  r = Ok tt ∧ dn_bootstrapped n = false.
Proof. vm_compute. done. Qed.

Lemma persisted_wf n : node_ok n → forallb wf_bootstrap (map (persisted_contact n) (routing_contacts n)) = true.
Proof.
  intros H. apply forallb_elem. intros b (c & -> & Hc)%list_elem_of_fmap.
  destruct (all_contacts_spec _ (no_table n H)) as [Hp _].
  { pose proof (no_own n H) as Ho. unfold own_id in Ho. rewrite Ho. apply H. }
  unfold routing_contacts in Hc. rewrite Hp in Hc. pose proof (ok_wf _ (no_table n H)) as Hw. rewrite Forall_forall in Hw. specialize (Hw c Hc).
  unfold wf_contact in Hw. bool_hyps. unfold persisted_contact, wf_bootstrap. cbn [bc_node_id bc_ip bc_udp_port bc_tcp_port bc_version bc_udp_key].
  rewrite !andb_true_iff. repeat split; try done. destruct (known_peer_key _ _) eqn:Hk; [by eapply known_key_u32|done].
Qed.

(** C40. Contacts survive a restart: what the node writes to [nodes.dat] is read back
    as the contacts it had, with the keys it knew of them, those closest to its own
    identifier first (these are asked first), less the ones without an address or a
    port; and as the built-in contacts when there are none. *)
Theorem restart_keeps_contacts trim socket_from_str n config :
  node_ok n → zlen (contacts (dn_routing_table n)) ≤ MAX_NODES_DAT_COUNT → dc_nodes_text config = None → persist_nodes_dat_for n = Ok (default [] (dc_nodes_dat config)) →
  dc_nodes_dat config ≠ None →
  let kept := List.filter reachable (map (persisted_contact n) (routing_contacts n)) in
  load_bootstrap_contacts trim socket_from_str config = Ok match kept with [] => hardcoded_bootstrap | _ => kept end ∧
  routing_contacts n ≡ₚ contacts (dn_routing_table n) ∧ StronglySorted (closer (dn_own_id n)) (routing_contacts n).
Proof.
  intros H Hlen Ht Hp Hd kept. pose proof (no_own n H) as Ho. unfold own_id in Ho.
  destruct (all_contacts_spec _ (no_table n H)) as [Hperm Hs]; [rewrite Ho; apply H|]. rewrite Ho in Hs.
  split; [|done]. unfold load_bootstrap_contacts. rewrite Ht. destruct (dc_nodes_dat config) as [data|]; [|done]. cbn in Hp.
  destruct (nodes_dat_roundtrip (map (persisted_contact n) (routing_contacts n)) (persisted_wf n H)) as (bytes & He & Hr).
  { unfold zlen in *. rewrite length_map. unfold routing_contacts. by rewrite Hperm. }
  unfold persist_nodes_dat_for in Hp. rewrite Hp in He. injection He as ->. rewrite Hr. cbn [mbind res_bind]. by rewrite app_nil_r.
Qed.
Lemma restart_keeps_contacts_witness :
  ∃ n bytes, run_others [NAdd flooder; NRegisterKey (addr_from_contact flooder) 77] fresh_node = Ok n ∧ persist_nodes_dat_for n = Ok bytes ∧
    load_bootstrap_contacts (λ t, t) (λ _, None)
      (mkDhtConfig (mkSocketAddr (V4 (0, 0, 0, 0)) 4672) NodeId_ZERO 12000 10 5 0 0 0 4 8 budgets_default 50 5000 1000 1000 true 0 (Some bytes) None) =
    Ok [mkBootstrap (replicate 16 9) (90, 1, 2, 3) 4672 4662 9 77].
Proof.
  destruct (run_others_ok [NAdd flooder; NRegisterKey (addr_from_contact flooder) 77] fresh_node) as (n & Hrun & Hn & _); [done|by apply node_new_ok|].
  exists n. vm_compute in Hrun. injection Hrun as <-. eexists. split; [vm_compute; reflexivity|]. split; [vm_compute; reflexivity|].
  match goal with |- load_bootstrap_contacts _ _ ?config = _ =>
    destruct (restart_keeps_contacts (λ t, t) (λ _, None) _ config Hn) as [Hl _]; [vm_compute; done|done|vm_compute; reflexivity|done|] end.
  rewrite Hl. vm_compute. reflexivity.
Defined.
