(* ===== verification/PeerParts.v ===== *)
(** * The parts of files on the wire

    [ed2k_tcp/codec/upload.rs]: requests for ranges, the packets that carry a range in
    fragments, compressed or not, and the incremental inflation of compressed ones. The
    zlib streams of [flate2] are an interface with the laws of zlib that the code
    relies on. *)

From S2P Require Import Prelude Net NodeId Utf8 Text Hashset Transfer PeerTransport PeerCodec.

Definition ED2K_UPLOAD_PACKET_SPLIT_THRESHOLD : Z := 13000.
Definition ED2K_UPLOAD_PACKET_FRAGMENT_LEN : Z := 10240.
(** The output buffer of a call of zlib. *)
Definition ZLIB_BUFFER : Z := 16384.

(** ** zlib streams *)

Inductive Status : Type := StreamOk | BufError | StreamEnd.

(** [Compress::compress] and [Decompress::decompress]: a call is given input and the
    size of the output buffer; it fails, or consumes some of the input and produces
    output. [finish] is [FlushDecompress::Finish]. *)
Class Zlib : Type := {
  deflater : Type;
  deflater_new : deflater;
  compress : deflater → list Z → Z → option (deflater * Z * list Z * Status);
  inflater : Type;
  inflater_new : inflater;
  decompress : inflater → list Z → Z → bool → option (inflater * Z * list Z * Status)
}.

(** ** Ranges *)

Definition decode_range (payload : list Z) (width index : Z) : res PeerError (Z * Z) :=
  start ← le_at payload (16 + index * width) width;
  end_ ← le_at payload (16 + width * 3 + index * width) width;
  Ok (start, end_).
Definition decode_request_parts_payload (payload : list Z) (use_i64 : bool) : res PeerError (Ed2kHash * list (Z * Z)) :=
  if zlen payload <? 16 then Err PShort
  else
    hash ← range payload 0 16;
    let width := if use_i64 then 8 else 4 in
    if zlen payload <? 16 + width * 3 + width * 3 then Err PShort
    else
      r0 ← decode_range payload width 0;
      r1 ← decode_range payload width 1;
      r2 ← decode_range payload width 2;
      Ok (hash, List.filter (λ '(start, end_), start <? end_) [r0; r1; r2]).

(** The offsets of three ranges, with zeros for those that are missing. *)
Definition three (f : Z * Z → Z) (ranges : list (Z * Z)) : list Z := (λ i, default 0 (f <$> ranges !! i)) <$> [0; 1; 2]%nat.
Fixpoint encode_u32s (l : list Z) : res PeerError (list Z) :=
  match l with
  | [] => Ok []
  | v :: l' =>
      match try_from_u 32 v with
      | None => Err PTooLarge
      | Some v => rest ← encode_u32s l'; Ok (to_le_bytes 4 v ++ rest)
      end
  end.
Definition encode_request_parts_batch (file_hash : Ed2kHash) (ranges : list (Z * Z)) : res PeerError (list Z) :=
  if bool_decide (ranges = []) || (3 <? zlen ranges) then Err PRange
  else if existsb (λ r, U32_MAX <? snd r) ranges then
    encode_packet OP_EMULEPROT OP_REQUESTPARTS_I64
      (file_hash ++ concat (to_le_bytes 8 <$> three fst ranges) ++ concat (to_le_bytes 8 <$> three snd ranges))
  else
    starts ← encode_u32s (three fst ranges);
    ends ← encode_u32s (three snd ranges);
    encode_packet OP_EDONKEYPROT OP_REQUESTPARTS (file_hash ++ starts ++ ends).

(** ** Fragments *)

Definition decode_sending_part_payload (payload : list Z) (use_i64 : bool) : res PeerError (Ed2kHash * Z * Z * list Z) :=
  let header_len := 16 + (if use_i64 then 16 else 8) in
  if zlen payload <? header_len then Err PShort
  else
    hash ← range payload 0 16;
    '(start, end_) ←
      (if use_i64 then start ← le_at payload 16 8; end_ ← le_at payload 24 8; Ok (start, end_)
       else start ← le_at payload 16 4; end_ ← le_at payload 20 4; Ok (start, end_));
    if end_ <? start then Err PRange
    else
      bytes ← tail_from payload header_len;
      if negb (end_ - start =? zlen bytes) then Err PSize
      else Ok (hash, start, end_, bytes).
Definition decode_compressed_part_fragment (payload : list Z) (use_i64 : bool) : res PeerError (Ed2kHash * Z * Z * list Z) :=
  let header_len := 16 + (if use_i64 then 12 else 8) in
  if zlen payload <? header_len then Err PShort
  else
    hash ← range payload 0 16;
    '(start, advertised_compressed_len) ←
      (if use_i64 then start ← le_at payload 16 8; len ← le_at payload 24 4; Ok (start, len)
       else start ← le_at payload 16 4; len ← le_at payload 20 4; Ok (start, len));
    fragment ← tail_from payload header_len;
    Ok (hash, start, advertised_compressed_len, fragment).

Definition encode_sending_part (file_hash : Ed2kHash) (start end_ : Z) (bytes : list Z) (use_i64 : bool)
    : res PeerError (list Z) :=
  if use_i64 then
    encode_packet OP_EMULEPROT OP_SENDINGPART_I64 (file_hash ++ to_le_bytes 8 start ++ to_le_bytes 8 end_ ++ bytes)
  else
    match try_from_u 32 start, try_from_u 32 end_ with
    | Some start, Some end_ =>
        encode_packet OP_EDONKEYPROT OP_SENDINGPART (file_hash ++ to_le_bytes 4 start ++ to_le_bytes 4 end_ ++ bytes)
    | _, _ => Err PTooLarge
    end.
Definition encode_compressed_part_fragment (file_hash : Ed2kHash) (start advertised_compressed_len : Z)
    (fragment : list Z) (use_i64 : bool) : res PeerError (list Z) :=
  match try_from_u 32 advertised_compressed_len with
  | None => Err PTooLarge
  | Some len =>
      if use_i64 then
        encode_packet OP_EMULEPROT OP_COMPRESSEDPART_I64 (file_hash ++ to_le_bytes 8 start ++ to_le_bytes 4 len ++ fragment)
      else
        match try_from_u 32 start with
        | None => Err PTooLarge
        | Some start =>
            encode_packet OP_EMULEPROT OP_COMPRESSEDPART (file_hash ++ to_le_bytes 4 start ++ to_le_bytes 4 len ++ fragment)
        end
  end.

Definition upload_packet_fragment_len (remaining : Z) : Z :=
  if remaining <? ED2K_UPLOAD_PACKET_SPLIT_THRESHOLD then remaining else ED2K_UPLOAD_PACKET_FRAGMENT_LEN.

(** [Path::extension]: that of the last component, unless it is [..] or starts at its
    only dot. *)
Fixpoint split_on (sep : Z) (l current : list Z) : list (list Z) :=
  match l with
  | [] => [current]
  | b :: l' => if b =? sep then current :: split_on sep l' [] else split_on sep l' (current ++ [b])
  end.
Definition is_cur_dir (c : list Z) : bool := bool_decide (c = lit ".").
Definition path_file_name (path : list Z) : option (list Z) :=
  let parts := split_on 47 path [] in
  let components := List.filter (λ c, negb (bool_decide (c = []))) parts in
  let components := match parts with
                    | first :: _ => if is_cur_dir first then lit "." :: List.filter (λ c, negb (is_cur_dir c)) components
                                    else List.filter (λ c, negb (is_cur_dir c)) components
                    | [] => []
                    end in
  match last components with
  | None => None
  | Some c => if is_cur_dir c || bool_decide (c = lit "..") then None else Some c
  end.
Definition path_extension (path : list Z) : option (list Z) :=
  match path_file_name path with
  | None => None
  | Some name =>
      match rev (split_on 46 name []) with
      | extension :: before :: [] => if bool_decide (before = []) then None else Some extension
      | extension :: _ :: _ => Some extension
      | _ => None
      end
  end.
Definition to_ascii_lowercase (l : list Z) : list Z := (λ b, if (65 <=? b) && (b <=? 90) then b + 32 else b) <$> l.
Definition should_attempt_upload_compression (canonical_name : list Z) : bool :=
  match path_extension canonical_name with
  | None => true
  | Some extension =>
      negb (existsb (λ e, bool_decide (to_ascii_lowercase extension = e))
        [lit "zip"; lit "rar"; lit "7z"; lit "cbz"; lit "cbr"; lit "ogm"; lit "ace"])
  end.

Section zlib.
Context `{Zlib}.

(** The loop over the compressor; each turn consumes or produces. *)
Fixpoint compress_loop (fuel : nat) (c : deflater) (remaining compressed : list Z) : res PeerError (list Z) :=
  match fuel with
  | O => Err PInflate
  | S fuel' =>
      match compress c remaining ZLIB_BUFFER with
      | None => Err PInflate
      | Some (c, consumed, produced, status) =>
          let compressed := compressed ++ produced in
          remaining ← tail_from remaining consumed;
          match status with
          | StreamEnd => Ok compressed
          | _ => if (consumed =? 0) && (zlen produced =? 0) then Err PInflate
                 else compress_loop fuel' c remaining compressed
          end
      end
  end.
Definition compress_upload_payload (fuel : nat) (canonical_name bytes : list Z) : res PeerError (option (list Z)) :=
  if negb (should_attempt_upload_compression canonical_name) then Ok None
  else
    compressed ← compress_loop fuel deflater_new bytes [];
    if zlen bytes <=? zlen compressed then Ok None else Ok (Some compressed).

Record EncodedUploadPartPacket : Type := mkUploadPacket { up_phase : string; up_packet : list Z }.

(** The loop over the fragments of the bytes to send. *)
Fixpoint packets_loop (fuel : nat) (encode : Z → Z → list Z → res PeerError EncodedUploadPartPacket) (bytes : list Z) (offset : Z)
    (packets : list EncodedUploadPartPacket) : res PeerError (list EncodedUploadPartPacket) :=
  if zlen bytes <=? offset then Ok packets
  else
    match fuel with
    | O => Panic
    | S fuel' =>
        let fragment_len := upload_packet_fragment_len (zlen bytes - offset) in
        fragment ← range bytes offset (offset + fragment_len);
        packet ← encode offset fragment_len fragment;
        packets_loop fuel' encode bytes (offset + fragment_len) (packets ++ [packet])
    end.
Definition compressed_packets (file_hash : Ed2kHash) (start : Z) (compressed : list Z) (use_i64 : bool)
    : res PeerError (list EncodedUploadPartPacket) :=
  packets_loop (length compressed)
    (λ _ _ fragment,
       packet ← encode_compressed_part_fragment file_hash start (zlen compressed) fragment use_i64;
       Ok (mkUploadPacket "compressed_part" packet))
    compressed 0 [].
Definition sending_packets (file_hash : Ed2kHash) (start : Z) (bytes : list Z) (use_i64 : bool)
    : res PeerError (list EncodedUploadPartPacket) :=
  packets_loop (length bytes)
    (λ offset fragment_len fragment,
       let fragment_start := start + offset in
       let fragment_end := fragment_start + fragment_len in
       packet ← encode_sending_part file_hash fragment_start fragment_end fragment use_i64;
       Ok (mkUploadPacket "sending_part" packet))
    bytes 0 [].
Definition build_upload_part_packets (fuel : nat) (file_hash : Ed2kHash) (canonical_name : list Z) (start end_ : Z)
    (bytes : list Z) (use_i64 : bool) : res PeerError (list EncodedUploadPartPacket) :=
  if negb (saturating_sub end_ start =? zlen bytes) then Err PSize
  else
    compressed ← compress_upload_payload fuel canonical_name bytes;
    match compressed with
    | Some compressed => compressed_packets file_hash start compressed use_i64
    | None => sending_packets file_hash start bytes use_i64
    end.

(** ** Inflation *)

Record PendingCompressedPart : Type := mkCompressed {
  pc_piece_index : Z;
  pc_start : Z;
  pc_end : Z;
  advertised_compressed_len : Z;
  compressed_received : Z;
  uncompressed_written : Z;
  pc_inflater : inflater
}.
Definition set_inflater (st : inflater) (p : PendingCompressedPart) : PendingCompressedPart :=
  mkCompressed (pc_piece_index p) (pc_start p) (pc_end p) (advertised_compressed_len p) (compressed_received p)
    (uncompressed_written p) st.
Definition add_received (n : Z) (p : PendingCompressedPart) : PendingCompressedPart :=
  mkCompressed (pc_piece_index p) (pc_start p) (pc_end p) (advertised_compressed_len p) (compressed_received p + n)
    (uncompressed_written p) (pc_inflater p).
Definition add_written (n : Z) (p : PendingCompressedPart) : PendingCompressedPart :=
  mkCompressed (pc_piece_index p) (pc_start p) (pc_end p) (advertised_compressed_len p) (compressed_received p)
    (uncompressed_written p + n) (pc_inflater p).

Fixpoint inflate_fragment_loop (fuel : nat) (st : inflater) (remaining bytes : list Z)
    : res PeerError (inflater * list Z * bool) :=
  match remaining with
  | [] => Ok (st, bytes, false)
  | _ =>
      match fuel with
      | O => Err PInflate
      | S fuel' =>
          match decompress st remaining ZLIB_BUFFER false with
          | None => Err PInflate
          | Some (st, consumed, produced, status) =>
              let bytes := bytes ++ produced in
              remaining ← tail_from remaining consumed;
              match status with
              | StreamEnd => Ok (st, bytes, true)
              | StreamOk => if (consumed =? 0) && (zlen produced =? 0) then Err PInflate
                            else inflate_fragment_loop fuel' st remaining bytes
              | BufError => if (consumed =? 0) && (zlen produced =? 0) then Ok (st, bytes, false)
                            else inflate_fragment_loop fuel' st remaining bytes
              end
          end
      end
  end.
Fixpoint finish_loop (fuel : nat) (st : inflater) (bytes : list Z) : res PeerError (inflater * list Z) :=
  match fuel with
  | O => Err PInflate
  | S fuel' =>
      match decompress st [] ZLIB_BUFFER true with
      | None => Err PInflate
      | Some (st, _, produced, status) =>
          let bytes := bytes ++ produced in
          match status with
          | StreamEnd => Ok (st, bytes)
          | _ => if zlen produced =? 0 then Ok (st, bytes) else finish_loop fuel' st bytes
          end
      end
  end.
Definition inflate_compressed_part_fragment (fuel : nat) (p : PendingCompressedPart) (fragment : list Z)
    : res PeerError (PendingCompressedPart * list Z * bool) :=
  '(st, bytes, finished) ← inflate_fragment_loop fuel (pc_inflater p) fragment [];
  let p := add_received (zlen fragment) (set_inflater st p) in
  if advertised_compressed_len p <? compressed_received p then Err PFraming
  else
    '(p, bytes, finished) ←
      (if (compressed_received p =? advertised_compressed_len p) && negb finished then
         '(st, bytes) ← finish_loop fuel (pc_inflater p) bytes;
         Ok (set_inflater st p, bytes, true)
       else Ok (p, bytes, finished));
    Ok (add_written (zlen bytes) p, bytes, finished).
End zlib.

(** ** Specification *)

(** The laws of zlib: compressing makes progress, is bounded, and ends with a stream of
    the data; inflating a stream, given in any pieces, makes progress, yields the data
    in order, ends at the end of the stream, and yields the rest when asked to finish.
    A call never consumes more than its input nor produces more than its buffer. *)
Class ZlibLaws `{Zlib} : Type := {
  stream_of : list Z → list Z → Prop;
  stream_bytes s d : stream_of s d → is_bytes s = true;
  deflating : list Z → Z → list Z → deflater → Prop;
  deflate_start d : is_bytes d = true → deflating d 0 [] deflater_new;
  deflate_step d c o st : deflating d c o st → ∃ st' n out status,
    compress st (drop (Z.to_nat c) d) ZLIB_BUFFER = Some (st', n, out, status) ∧ 0 ≤ n ≤ zlen d - c ∧
    match status with
    | StreamEnd => stream_of (o ++ out) d
    | _ => 0 < n + zlen out ∧ deflating d (c + n) (o ++ out) st'
    end;
  compress_bounds st input st' n out status : compress st input ZLIB_BUFFER = Some (st', n, out, status) → 0 ≤ n ≤ zlen input;
  deflate_bound : list Z → Z;
  deflate_bounded d c o st : deflating d c o st → 0 ≤ c ≤ zlen d ∧ zlen o ≤ deflate_bound d;
  inflating : list Z → list Z → Z → Z → inflater → Prop;
  inflate_start s d : stream_of s d → inflating s d 0 0 inflater_new;
  inflate_step s d c p st input : inflating s d c p st → input ≠ [] → input `prefix_of` drop (Z.to_nat c) s →
    ∃ st' n out status,
    decompress st input ZLIB_BUFFER false = Some (st', n, out, status) ∧ out `prefix_of` drop (Z.to_nat p) d ∧
    0 < n + zlen out ∧ inflating s d (c + n) (p + zlen out) st' ∧
    (status = StreamEnd → c + n = zlen s ∧ p + zlen out = zlen d);
  inflate_finish s d p st : inflating s d (zlen s) p st → ∃ st' out status,
    decompress st [] ZLIB_BUFFER true = Some (st', 0, out, status) ∧ out `prefix_of` drop (Z.to_nat p) d ∧
    (out = [] ∨ status = StreamEnd → p + zlen out = zlen d) ∧ inflating s d (zlen s) (p + zlen out) st';
  inflating_bounds s d c p st : inflating s d c p st → 0 ≤ c ≤ zlen s ∧ 0 ≤ p ≤ zlen d;
  decompress_bounds st input finish st' n out status :
    decompress st input ZLIB_BUFFER finish = Some (st', n, out, status) →
    0 ≤ n ≤ zlen input ∧ zlen out ≤ ZLIB_BUFFER ∧ is_bytes out = true
}.

(** Packets that carry bytes from an offset on, in fragments. *)
Inductive fragmented (carry : Z → list Z → EncodedUploadPartPacket → Prop)
    : Z → list Z → list EncodedUploadPartPacket → Prop :=
| fragmented_nil off : fragmented carry off [] []
| fragmented_cons off f rest p ps :
    0 < zlen f < ED2K_UPLOAD_PACKET_SPLIT_THRESHOLD → carry off f p → fragmented carry (off + zlen f) rest ps →
    fragmented carry off (f ++ rest) (p :: ps).

(** A packet with a range, and one with a piece of a compressed stream. *)
Definition carries_part (h : Ed2kHash) (start : Z) (use_i64 : bool) (off : Z) (f : list Z) (p : EncodedUploadPartPacket) : Prop :=
  ∃ q, up_packet p = frame q ∧ sendable q ∧
    (tp_protocol q, tp_opcode q) = (if use_i64 then (OP_EMULEPROT, OP_SENDINGPART_I64) else (OP_EDONKEYPROT, OP_SENDINGPART)) ∧
    decode_sending_part_payload (tp_payload q) use_i64 = Ok (h, start + off, start + off + zlen f, f).
Definition carries_compressed (h : Ed2kHash) (start len : Z) (use_i64 : bool) (off : Z) (f : list Z) (p : EncodedUploadPartPacket)
    : Prop :=
  ∃ q, up_packet p = frame q ∧ sendable q ∧
    (tp_protocol q, tp_opcode q) = (OP_EMULEPROT, if use_i64 then OP_COMPRESSEDPART_I64 else OP_COMPRESSEDPART) ∧
    decode_compressed_part_fragment (tp_payload q) use_i64 = Ok (h, start, len, f).


(** The fragments of a stream, inflated one after the other. *)
Fixpoint inflate_fragments `{Zlib} (fuel : nat) (p : PendingCompressedPart) (fragments : list (list Z)) (bytes : list Z)
    : res PeerError (list Z * bool) :=
  match fragments with
  | [] => Ok (bytes, false)
  | f :: fs =>
      '(p, out, finished) ← inflate_compressed_part_fragment fuel p f;
      if finished : bool then (if fs is [] then Ok (bytes ++ out, true) else Err PFraming)
      else inflate_fragments fuel p fs (bytes ++ out)
  end.

(** ** Ranges survive the wire *)

Lemma decode_range_at w pre mid rest a b i : w = 4 ∨ w = 8 → 0 ≤ a < 256 ^ w → 0 ≤ b < 256 ^ w →
  16 + i * w = zlen pre → 16 + w * 3 + i * w = zlen pre + w + zlen mid →
  decode_range (pre ++ to_le_bytes (Z.to_nat w) a ++ mid ++ to_le_bytes (Z.to_nat w) b ++ rest) w i = Ok (a, b).
Proof.
  intros Hw Ha Hb Hi Hj. assert (0 ≤ w) by lia. unfold decode_range. rewrite (le_mid pre _ a _ (16 + i * w)) by (done || lia). cbn [mbind res_bind].
  set (x := to_le_bytes (Z.to_nat w) a). rewrite (app_assoc x mid), (app_assoc pre (x ++ mid)).
  rewrite le_mid by (unfold x; rewrite ?zlen_app, ?zlen_le; done || lia). done.
Qed.
Lemma request_parts_decode wide h a0 a1 a2 b0 b1 b2 :
  let w := if wide : bool then 8 else 4 in let le := to_le_bytes (Z.to_nat w) in
  zlen h = 16 → Forall (λ v, 0 ≤ v < 256 ^ w) [a0; a1; a2; b0; b1; b2] →
  decode_request_parts_payload (h ++ (le a0 ++ le a1 ++ le a2) ++ (le b0 ++ le b1 ++ le b2)) wide =
  Ok (h, List.filter (λ '(a, b), a <? b) [(a0, b0); (a1, b1); (a2, b2)]).
Proof.
  intros w le Hh Hv. rewrite !Forall_cons in Hv. destruct Hv as (H0 & H1 & H2 & H3 & H4 & H5 & _).
  assert (Hw : w = 4 ∨ w = 8) by (unfold w; destruct wide; lia).
  assert (Hl : ∀ v, zlen (le v) = w) by (intros v; unfold le; rewrite zlen_le; lia).
  unfold decode_request_parts_payload. fold w.
  rewrite !(proj2 (Z.ltb_ge _ _)) by (rewrite !zlen_app, !Hl; lia). rewrite range_front by done. cbn [mbind res_bind].
  rewrite <- !app_assoc.
  pose proof (decode_range_at w h (le a1 ++ le a2) (le b1 ++ le b2) a0 b0 0) as E0.
  pose proof (decode_range_at w (h ++ le a0) (le a2 ++ le b0) (le b2) a1 b1 1) as E1.
  pose proof (decode_range_at w (h ++ le a0 ++ le a1) (le b0 ++ le b1) [] a2 b2 2) as E2.
  rewrite !zlen_app, !Hl, <- ?app_assoc, ?app_nil_r in *. fold (le a0) (le a1) (le a2) (le b0) (le b1) (le b2) in *.
  rewrite E0, E1, E2 by lia. done.
Qed.

Lemma encode_u32s_spec l : Forall (λ v, 0 ≤ v ≤ U32_MAX) l → encode_u32s l = Ok (concat (to_le_bytes 4 <$> l)).
Proof.
  induction 1 as [|v l Hv _ IH]; [done|]. cbn [encode_u32s fmap list_fmap concat].
  rewrite try_from_u_fits by (apply is_u_spec; unfold U32_MAX in Hv; lia). by rewrite IH.
Qed.
Lemma three_bound b f ranges : 0 ≤ b → Forall (λ r, 0 ≤ f r ≤ b) ranges → Forall (λ v, 0 ≤ v ≤ b) (three f ranges).
Proof.
  intros Hb Hr. unfold three. apply Forall_fmap, Forall_forall. intros i _. cbn.
  destruct (ranges !! i) eqn:E; cbn; [|lia]. rewrite Forall_lookup in Hr. by eapply Hr.
Qed.
(** Of three offsets, those that are ranges are the ranges. *)
Lemma three_ranges ranges : zlen ranges ≤ 3 → Forall (λ r, fst r < snd r) ranges →
  List.filter (λ '(a, b), a <? b) (zip (three fst ranges) (three snd ranges)) = ranges.
Proof.
  intros Hn Hr. destruct ranges as [|[a0 b0] [|[a1 b1] [|[a2 b2] [|]]]]; rewrite ?zlen_cons in Hn; try (pose proof (zlen_nonneg l); lia).
  all: rewrite ?Forall_cons in Hr; cbn in Hr |- *; destruct_and?; by rewrite ?(proj2 (Z.ltb_lt _ _)) by done.
Qed.
Lemma parts_decode wide h ranges : let w := if wide : bool then 8%nat else 4%nat in
  zlen h = 16 → zlen ranges ≤ 3 → Forall (λ r, 0 ≤ fst r < snd r ∧ snd r < 256 ^ Z.of_nat w) ranges →
  decode_request_parts_payload
    (h ++ concat (to_le_bytes w <$> three fst ranges) ++ concat (to_le_bytes w <$> three snd ranges)) wide = Ok (h, ranges).
Proof.
  intros w Hh Hn Hr. assert (Hw : w = Z.to_nat (if wide then 8 else 4)) by (unfold w; by destruct wide).
  assert (Hp : 0 < 256 ^ Z.of_nat w) by (unfold w; by destruct wide).
  assert (Hf : ∀ f, (f = fst ∨ f = snd) → Forall (λ v, 0 ≤ v < 256 ^ Z.of_nat w) (three f ranges)).
  { intros f Hf. eapply Forall_impl; [apply (three_bound (256 ^ Z.of_nat w - 1)); [lia|]|intros v ?; cbv beta in *; lia].
    eapply Forall_impl; [exact Hr|]. intros [a b] ?. cbn in *. destruct Hf as [-> | ->]; cbn; lia. }
  rewrite <- (three_ranges ranges Hn) at 3 by (eapply Forall_impl; [exact Hr|]; cbv beta; lia).
  pose proof (Hf fst ltac:(by left)) as Ha. pose proof (Hf snd ltac:(by right)) as Hb.
  unfold three, fmap in Ha, Hb |- *. cbn [list_fmap] in Ha, Hb |- *.
  cbn [concat zip zip_with]. rewrite !app_nil_r, Hw. apply request_parts_decode; [done|].
  rewrite !Forall_cons in Ha, Hb. rewrite Hw in Ha, Hb.
  assert (He : Z.of_nat (Z.to_nat (if wide then 8 else 4)) = if wide then 8 else 4) by (by destruct wide). rewrite He in Ha, Hb.
  rewrite !Forall_cons. destruct_and?. split_and!; done.
Qed.

(** A request for up to three ranges of a file asks for those: it is encoded, with
    offsets of 64 bits when a range ends past [2^32 - 1], to a frame whose payload
    decodes, at that width, to the file and the ranges in order. *)
Lemma request_parts_roundtrip h ranges : hash_ok h → ranges ≠ [] → zlen ranges ≤ 3 →
  Forall (λ r, 0 ≤ fst r < snd r ∧ snd r < 2 ^ 64) ranges →
  let wide := existsb (λ r, U32_MAX <? snd r) ranges in
  ∃ payload, encode_request_parts_batch h ranges =
      Ok (frame (if wide then mkTcpPacket OP_EMULEPROT OP_REQUESTPARTS_I64 payload
                 else mkTcpPacket OP_EDONKEYPROT OP_REQUESTPARTS payload)) ∧
    decode_request_parts_payload payload wide = Ok (h, ranges).
Proof.
  intros [_ Hh] Hne Hn Hr wide. unfold encode_request_parts_batch. rewrite bool_decide_eq_false_2 by done.
  rewrite (proj2 (Z.ltb_ge _ _)) by lia. cbn [orb]. fold wide. set (w := if wide then 8%nat else 4%nat).
  assert (Hlen : zlen (h ++ concat (to_le_bytes w <$> three fst ranges) ++ concat (to_le_bytes w <$> three snd ranges)) < U32_MAX).
  { unfold three, fmap. cbn [list_fmap concat]. rewrite !zlen_app, !zlen_le, !(zlen_nil (A:=Z)). unfold U32_MAX, w. destruct wide; lia. }
  exists (h ++ concat (to_le_bytes w <$> three fst ranges) ++ concat (to_le_bytes w <$> three snd ranges)).
  destruct (wide) eqn:Hw; subst wide w.
  - rewrite encode_packet_frame by exact Hlen. split; [done|]. by apply (parts_decode true).
  - assert (Hs : Forall (λ r, 0 ≤ fst r < snd r ∧ snd r ≤ U32_MAX) ranges).
    { rewrite Forall_forall in *. intros r Hin. destruct (Hr r Hin) as [? _]. split; [done|].
      destruct (Z.ltb_spec U32_MAX (snd r)) as [Hlt|]; [|done].
      exfalso. assert (existsb (λ r, U32_MAX <? snd r) ranges = true); [|congruence].
      apply existsb_exists. exists r. split; [by apply list_elem_of_In|]. by apply Z.ltb_lt. }
    rewrite !encode_u32s_spec by (apply three_bound; [done|]; eapply Forall_impl; [exact Hs|]; cbv beta; lia).
    cbn [mbind res_bind]. rewrite encode_packet_frame by exact Hlen. split; [done|]. apply (parts_decode false); [done..|].
    eapply Forall_impl; [exact Hs|]. unfold U32_MAX. cbv beta. change (256 ^ Z.of_nat 4) with 4294967296. lia.
Qed.

(** ** Fragments *)

Lemma fragment_len_bounds n : 0 < n → 0 < upload_packet_fragment_len n ≤ n ∧ upload_packet_fragment_len n < ED2K_UPLOAD_PACKET_SPLIT_THRESHOLD.
Proof.
  intros Hn. unfold upload_packet_fragment_len, ED2K_UPLOAD_PACKET_SPLIT_THRESHOLD, ED2K_UPLOAD_PACKET_FRAGMENT_LEN. case_match; bool_hyps; lia.
Qed.
Lemma packets_loop_spec encode (carry : Z → list Z → EncodedUploadPartPacket → Prop) bytes :
  (∀ off f, 0 ≤ off → 0 < zlen f < ED2K_UPLOAD_PACKET_SPLIT_THRESHOLD → off + zlen f ≤ zlen bytes → (∃ a c, bytes = a ++ f ++ c) →
     ∃ pk, encode off (zlen f) f = Ok pk ∧ carry off f pk) →
  ∀ fuel off acc, 0 ≤ off ≤ zlen bytes → zlen bytes - off ≤ Z.of_nat fuel →
  ∃ ps, packets_loop fuel encode bytes off acc = Ok (acc ++ ps) ∧ fragmented carry off (drop (Z.to_nat off) bytes) ps.
Proof.
  intros Henc. induction fuel as [|fuel IH]; intros off acc Hoff Hfuel; cbn [packets_loop]; destruct (Z.leb_spec (zlen bytes) off).
  1,3: exists []; rewrite app_nil_r; split; [done|]; rewrite drop_ge by (unfold zlen in *; lia); constructor.
  { lia. }
  destruct (fragment_len_bounds (zlen bytes - off)) as [Hn Hlt]; [lia|]. set (n := upload_packet_fragment_len (zlen bytes - off)) in *.
  rewrite range_ok by lia. cbn [mbind res_bind]. replace (off + n - off) with n by lia.
  assert (Hl : zlen (slice bytes off n) = n) by (unfold slice, zlen in *; rewrite length_take, length_drop; lia).
  assert (Hs : drop (Z.to_nat off) bytes = slice bytes off n ++ drop (Z.to_nat (off + n)) bytes).
  { unfold slice. rewrite <- (take_drop (Z.to_nat n) (drop (Z.to_nat off) bytes)) at 1. rewrite drop_drop. do 2 f_equal. lia. }
  destruct (Henc off (slice bytes off n)) as (pk & E & Hc); [lia|lia|lia| |].
  { exists (take (Z.to_nat off) bytes), (drop (Z.to_nat (off + n)) bytes). by rewrite <- Hs, take_drop. }
  rewrite Hl in E. rewrite E. cbn [mbind res_bind]. destruct (IH (off + n) (acc ++ [pk])) as (ps & -> & Hps); [lia..|].
  exists (pk :: ps). split; [by rewrite <- app_assoc|]. rewrite Hs. constructor; [lia|done|]. by rewrite Hl.
Qed.

Lemma is_bytes_mid a f c : is_bytes (a ++ f ++ c) = true → is_bytes f = true.
Proof. rewrite !is_bytes_app. intros [_ [? _]%andb_prop]%andb_prop. done. Qed.

(** A range, and a piece of a stream, survive the wire. *)
Lemma sending_part_carries h start off f use_i64 : hash_ok h → 0 ≤ start + off → is_bytes f = true →
  zlen f < ED2K_UPLOAD_PACKET_SPLIT_THRESHOLD → start + off + zlen f < (if use_i64 : bool then 2 ^ 64 else 2 ^ 32) →
  ∃ pk, encode_sending_part h (start + off) (start + off + zlen f) f use_i64 = Ok pk ∧
    carries_part h start use_i64 off f (mkUploadPacket "sending_part" pk).
Proof.
  intros [Hhb Hh] H0 Hf Hn Hend. set (s := start + off) in *. set (e := s + zlen f) in *. pose proof (zlen_nonneg f).
  set (w := if use_i64 then 8%nat else 4%nat). set (payload := h ++ to_le_bytes w s ++ to_le_bytes w e ++ f).
  assert (Hw : Z.of_nat w = if use_i64 then 8 else 4) by (unfold w; by destruct use_i64).
  assert (Hp : zlen payload = 16 + 2 * Z.of_nat w + zlen f) by (unfold payload; rewrite !zlen_app, !zlen_le; lia).
  assert (Hsmall : zlen payload < U32_MAX) by (unfold ED2K_UPLOAD_PACKET_SPLIT_THRESHOLD, U32_MAX in *; rewrite Hp, Hw; destruct use_i64; lia).
  assert (Hb : is_bytes payload = true) by (unfold payload; rewrite !is_bytes_app, !is_bytes_to_le, Hhb, Hf; done).
  set (q := if use_i64 then mkTcpPacket OP_EMULEPROT OP_SENDINGPART_I64 payload else mkTcpPacket OP_EDONKEYPROT OP_SENDINGPART payload).
  exists (frame q). split.
  { unfold encode_sending_part, q. subst payload w. destruct use_i64.
    - by rewrite encode_packet_frame by exact Hsmall.
    - rewrite !try_from_u_fits by (apply is_u_spec; lia). by rewrite encode_packet_frame by exact Hsmall. }
  exists q. split; [done|]. split; [|split].
  { unfold sendable, q. destruct use_i64; cbn; split_and!; auto. }
  { unfold q. by destruct use_i64. }
  replace (tp_payload q) with payload by (unfold q; by destruct use_i64). unfold decode_sending_part_payload.
  rewrite (proj2 (Z.ltb_ge _ _)) by (rewrite Hp, Hw; destruct use_i64; lia). unfold payload.
  rewrite range_front by done. cbn [mbind res_bind].
  assert (E1 : ∀ k, k = Z.of_nat w → le_at (E:=PeerError) (h ++ to_le_bytes w s ++ to_le_bytes w e ++ f) 16 k = Ok s).
  { intros k ->. apply le_mid; [lia..|]. rewrite Hw. destruct use_i64; lia. }
  assert (E2 : ∀ i k, i = 16 + Z.of_nat w → k = Z.of_nat w → le_at (E:=PeerError) (h ++ to_le_bytes w s ++ to_le_bytes w e ++ f) i k = Ok e).
  { intros i k -> ->. rewrite (app_assoc h). apply le_mid; [rewrite zlen_app, zlen_le; lia|lia|]. rewrite Hw. destruct use_i64; lia. }
  assert (E3 : ∀ i, i = 16 + 2 * Z.of_nat w → tail_from (E:=PeerError) (h ++ to_le_bytes w s ++ to_le_bytes w e ++ f) i = Ok f).
  { intros i ->. rewrite (app_assoc h), (app_assoc (h ++ _)). apply tail_mid. rewrite !zlen_app, !zlen_le. lia. }
  destruct use_i64; rewrite E1, E2 by done; cbn [mbind res_bind]; rewrite (proj2 (Z.ltb_ge _ _)) by lia; rewrite E3 by done;
    cbn [mbind res_bind]; rewrite (proj2 (Z.eqb_eq _ _)) by lia; done.
Qed.

Lemma compressed_part_carries h start len off f use_i64 : hash_ok h → 0 ≤ start < (if use_i64 : bool then 2 ^ 64 else 2 ^ 32) →
  0 ≤ len ≤ U32_MAX → is_bytes f = true → zlen f < ED2K_UPLOAD_PACKET_SPLIT_THRESHOLD →
  ∃ pk, encode_compressed_part_fragment h start len f use_i64 = Ok pk ∧
    carries_compressed h start len use_i64 off f (mkUploadPacket "compressed_part" pk).
Proof.
  intros [Hhb Hh] Hstart Hlen Hf Hn. pose proof (zlen_nonneg f).
  set (w := if use_i64 then 8%nat else 4%nat). set (payload := h ++ to_le_bytes w start ++ to_le_bytes 4 len ++ f).
  assert (Hw : Z.of_nat w = if use_i64 then 8 else 4) by (unfold w; by destruct use_i64).
  assert (Hp : zlen payload = 20 + Z.of_nat w + zlen f) by (unfold payload; rewrite !zlen_app, !zlen_le; lia).
  assert (Hsmall : zlen payload < U32_MAX) by (unfold ED2K_UPLOAD_PACKET_SPLIT_THRESHOLD, U32_MAX in *; rewrite Hp, Hw; destruct use_i64; lia).
  assert (Hb : is_bytes payload = true) by (unfold payload; rewrite !is_bytes_app, !is_bytes_to_le, Hhb, Hf; done).
  set (q := mkTcpPacket OP_EMULEPROT (if use_i64 then OP_COMPRESSEDPART_I64 else OP_COMPRESSEDPART) payload).
  assert (Hl32 : 0 ≤ len < 2 ^ 32) by (unfold U32_MAX in *; lia).
  exists (frame q). split.
  { unfold encode_compressed_part_fragment, q. rewrite try_from_u_fits by (apply is_u_spec; lia). subst payload w. destruct use_i64.
    - by rewrite encode_packet_frame by exact Hsmall.
    - rewrite !try_from_u_fits by (apply is_u_spec; lia). by rewrite encode_packet_frame by exact Hsmall. }
  exists q. split; [done|]. split; [|split; [done|]].
  { unfold sendable, q. destruct use_i64; cbn; split_and!; auto. }
  unfold q. cbn [tp_payload]. unfold decode_compressed_part_fragment.
  rewrite (proj2 (Z.ltb_ge _ _)) by (rewrite Hp, Hw; destruct use_i64; lia). unfold payload.
  rewrite range_front by done. cbn [mbind res_bind].
  assert (E1 : ∀ k, k = Z.of_nat w → le_at (E:=PeerError) (h ++ to_le_bytes w start ++ to_le_bytes 4 len ++ f) 16 k = Ok start).
  { intros k ->. apply le_mid; [lia..|]. rewrite Hw. destruct use_i64; lia. }
  assert (E2 : ∀ i, i = 16 + Z.of_nat w → le_at (E:=PeerError) (h ++ to_le_bytes w start ++ to_le_bytes 4 len ++ f) i 4 = Ok len).
  { intros i ->. rewrite (app_assoc h). apply le_mid; [rewrite zlen_app, zlen_le; lia|lia|lia]. }
  assert (E3 : ∀ i, i = 20 + Z.of_nat w → tail_from (E:=PeerError) (h ++ to_le_bytes w start ++ to_le_bytes 4 len ++ f) i = Ok f).
  { intros i ->. rewrite (app_assoc h), (app_assoc (h ++ _)). apply tail_mid. rewrite !zlen_app, !zlen_le. lia. }
  destruct use_i64; rewrite E1, E2 by done; cbn [mbind res_bind]; by rewrite E3 by done.
Qed.

Section laws.
Context `{ZlibLaws}.

(** ** Compressing ends with a stream *)

Lemma compress_loop_spec d : ∀ fuel c o st, deflating d c o st →
  (zlen d - c) + (deflate_bound d - zlen o) < Z.of_nat fuel →
  ∃ s, compress_loop fuel st (drop (Z.to_nat c) d) o = Ok s ∧ stream_of s d.
Proof.
  induction fuel as [|fuel IH]; intros c o st Hst Hfuel; destruct (deflate_bounded d c o st Hst) as [Hc Ho]; [lia|].
  cbn [compress_loop]. destruct (deflate_step d c o st Hst) as (st' & n & out & status & -> & Hn & Hs).
  rewrite tail_from_ok by (unfold zlen in *; rewrite length_drop; lia). cbn [mbind res_bind]. rewrite drop_drop.
  replace (Z.to_nat c + Z.to_nat n)%nat with (Z.to_nat (c + n)) by lia. pose proof (zlen_nonneg out).
  destruct status; [| |by eexists].
  all: destruct Hs as [Hp Hs]; replace ((n =? 0) && (zlen out =? 0)) with false
    by (symmetry; apply andb_false_iff; rewrite !Z.eqb_neq; lia); apply IH; [done|]; rewrite zlen_app; lia.
Qed.

(** ** Inflating yields the data *)

Lemma prefix_zlen {A} (l k : list A) : l `prefix_of` k → zlen l ≤ zlen k.
Proof. intros ?%prefix_length. unfold zlen. lia. Qed.
Lemma prefix_take_drop {A} (l d : list A) p : 0 ≤ p → l `prefix_of` drop (Z.to_nat p) d →
  take (Z.to_nat p) d ++ l = take (Z.to_nat (p + zlen l)) d.
Proof.
  intros Hp [k Hk]. replace (Z.to_nat (p + zlen l)) with (Z.to_nat p + length l)%nat by (unfold zlen; lia).
  rewrite <- take_take_drop, Hk, take_app_length. done.
Qed.

(** A fragment: what it yields follows what was yielded, and the stream ends only with
    the data. *)
Lemma inflate_fragment_loop_spec s d : ∀ fuel c p st input out0 p0, inflating s d c p st → input `prefix_of` drop (Z.to_nat c) s →
  (zlen s - c) + (zlen d - p) < Z.of_nat fuel → 0 ≤ p0 → take (Z.to_nat p0) d ++ out0 = take (Z.to_nat p) d → p = p0 + zlen out0 →
  ∃ st' out p' finished, inflate_fragment_loop fuel st input out0 = Ok (st', out, finished) ∧
    take (Z.to_nat p0) d ++ out = take (Z.to_nat p') d ∧ p' = p0 + zlen out ∧
    if finished : bool then c + zlen input = zlen s ∧ p' = zlen d else inflating s d (c + zlen input) p' st'.
Proof.
  induction fuel as [|fuel IH]; intros c p st input out0 p0 Hst Hin Hfuel Hp0 Hout Hp; pose proof (inflating_bounds s d c p st Hst).
  { lia. }
  destruct input as [|x input0]; cbn [inflate_fragment_loop].
  { exists st, out0, p, false. rewrite (zlen_nil (A:=Z)), Z.add_0_r. done. }
  set (input := x :: input0) in *. destruct (inflate_step s d c p st input Hst ltac:(done) Hin) as (st' & n & out & status & E & Hpre & Hpos & Hst' & Hend).
  rewrite E. destruct (decompress_bounds _ _ _ _ _ _ _ E) as (Hn & _ & _). pose proof (inflating_bounds s d _ _ _ Hst').
  rewrite tail_from_ok by lia. cbn [mbind res_bind]. pose proof (zlen_nonneg out). pose proof (prefix_zlen _ _ Hin) as Hle.
  assert (Hout' : take (Z.to_nat p0) d ++ out0 ++ out = take (Z.to_nat (p + zlen out)) d).
  { rewrite app_assoc, Hout. apply prefix_take_drop; [lia|done]. }
  assert (Hdrop : zlen (drop (Z.to_nat c) s) = zlen s - c) by (unfold zlen in *; rewrite length_drop; lia).
  assert (Hgo : ∃ st2 out2 p2 finished, inflate_fragment_loop fuel st' (drop (Z.to_nat n) input) (out0 ++ out) = Ok (st2, out2, finished) ∧
    take (Z.to_nat p0) d ++ out2 = take (Z.to_nat p2) d ∧ p2 = p0 + zlen out2 ∧
    if finished : bool then c + zlen input = zlen s ∧ p2 = zlen d else inflating s d (c + zlen input) p2 st2).
  { destruct (IH (c + n) (p + zlen out) st' (drop (Z.to_nat n) input) (out0 ++ out) p0) as (st2 & out2 & p2 & fin & E2 & Hx & Hy & Hz); try done.
    - destruct Hin as [k Hk]. exists k. replace (Z.to_nat (c + n)) with (Z.to_nat c + Z.to_nat n)%nat by lia.
      rewrite <- drop_drop, Hk. apply drop_app_le. unfold zlen in Hn. lia.
    - lia.
    - rewrite zlen_app. lia.
    - assert (Hl : c + n + zlen (drop (Z.to_nat n) input) = c + zlen input) by (unfold zlen in *; rewrite length_drop; lia).
      rewrite Hl in Hz. by exists st2, out2, p2, fin. }
  destruct status; [| |destruct (Hend eq_refl) as [Hc Hpd]].
  1,2: replace ((n =? 0) && (zlen out =? 0)) with false by (symmetry; apply andb_false_iff; rewrite !Z.eqb_neq; lia); exact Hgo.
  exists st', (out0 ++ out), (p + zlen out), true. split; [done|]. split; [done|]. split; [rewrite zlen_app; lia|]. lia.
Qed.
Lemma finish_loop_spec s d : ∀ fuel p st out0 p0, inflating s d (zlen s) p st → zlen d - p < Z.of_nat fuel → 0 ≤ p0 →
  take (Z.to_nat p0) d ++ out0 = take (Z.to_nat p) d →
  ∃ st' out, finish_loop fuel st out0 = Ok (st', out) ∧ take (Z.to_nat p0) d ++ out = d.
Proof.
  induction fuel as [|fuel IH]; intros p st out0 p0 Hst Hfuel Hp0 Hout; pose proof (inflating_bounds s d _ p st Hst); [lia|].
  cbn [finish_loop]. destruct (inflate_finish s d p st Hst) as (st' & out & status & -> & Hpre & Hend & Hst').
  assert (Hout' : take (Z.to_nat p0) d ++ out0 ++ out = take (Z.to_nat (p + zlen out)) d).
  { rewrite app_assoc, Hout. apply prefix_take_drop; [lia|done]. }
  assert (Hdone : p + zlen out = zlen d → ∃ st2 out2, Ok (E:=PeerError) (st', out0 ++ out) = Ok (st2, out2) ∧ take (Z.to_nat p0) d ++ out2 = d).
  { intros Hp. exists st', (out0 ++ out). split; [done|]. rewrite Hout', Hp. apply take_ge. unfold zlen. lia. }
  assert (Hgo : zlen out ≠ 0 → ∃ st2 out2, finish_loop fuel st' (out0 ++ out) = Ok (st2, out2) ∧ take (Z.to_nat p0) d ++ out2 = d).
  { intros Hne. pose proof (zlen_nonneg out). apply (IH (p + zlen out)); try done. lia. }
  destruct status; [| |apply Hdone, Hend; by right].
  all: destruct (Z.eqb_spec (zlen out) 0) as [Hz|Hz]; [apply Hdone, Hend; left; destruct out; [done|rewrite zlen_cons in Hz; pose proof (zlen_nonneg out); lia]|by apply Hgo].
Qed.

(** The fragments of a stream, however it is cut, yield the data. *)
Lemma inflate_fragments_spec s d fuel : zlen s + zlen d < Z.of_nat fuel → ∀ fragments p c st,
  inflating s d c (uncompressed_written p) st → pc_inflater p = st → advertised_compressed_len p = zlen s → compressed_received p = c →
  fragments ≠ [] → Forall (λ f, f ≠ []) fragments → concat fragments = drop (Z.to_nat c) s →
  inflate_fragments fuel p fragments (take (Z.to_nat (uncompressed_written p)) d) = Ok (d, true).
Proof.
  intros Hfuel. induction fragments as [|f fs IH]; intros p c st Hst Hi Hadv Hrec Hne Hf Hcat; [done|].
  apply Forall_cons in Hf as [Hf Hfs]. cbn [inflate_fragments concat] in *. unfold inflate_compressed_part_fragment.
  destruct (inflating_bounds s d _ _ _ Hst) as [Hc Hw]. set (p0 := uncompressed_written p) in *.
  assert (Hlen : zlen f + zlen (concat fs) = zlen s - c) by (rewrite <- zlen_app, Hcat; unfold zlen in *; rewrite length_drop; lia).
  pose proof (zlen_nonneg (concat fs)).
  destruct (inflate_fragment_loop_spec s d fuel c p0 st f [] p0 Hst) as (st' & out & p' & fin & E & Hout & Hp' & Hfin).
  { by exists (concat fs). } { lia. } { lia. } { by rewrite app_nil_r. } { rewrite (zlen_nil (A:=Z)). lia. }
  rewrite Hi, E. cbn [mbind res_bind]. cbn [add_received set_inflater advertised_compressed_len compressed_received pc_inflater].
  rewrite Hadv, Hrec. rewrite (proj2 (Z.ltb_ge _ _)) by lia.
  assert (Hempty : c + zlen f = zlen s → fs = []).
  { intros Hl. assert (Hz : zlen (concat fs) = 0) by lia. destruct fs as [|g gs]; [done|]. apply Forall_cons in Hfs as [Hg _].
    cbn [concat] in Hz. rewrite zlen_app in Hz. pose proof (zlen_nonneg (concat gs)). destruct g as [|y g]; [done|].
    rewrite zlen_cons in Hz. pose proof (zlen_nonneg g). lia. }
  destruct fin.
  { destruct Hfin as [Hl Hd]. rewrite andb_false_r. cbn [mbind res_bind]. rewrite (Hempty Hl), Hout, Hd, take_ge by (unfold zlen; lia). done. }
  rewrite andb_true_r. destruct (Z.eqb_spec (c + zlen f) (zlen s)) as [Hl|Hl].
  - rewrite Hl in Hfin. destruct (finish_loop_spec s d fuel p' st' out p0 Hfin) as (st2 & out2 & -> & Hout2); [|lia|done|].
    { pose proof (inflating_bounds s d _ _ _ Hfin). pose proof (zlen_nonneg s). lia. }
    cbn [mbind res_bind]. by rewrite (Hempty Hl), Hout2.
  - cbn [mbind res_bind]. rewrite Hout.
    set (p2 := add_written _ _). replace p' with (uncompressed_written p2) by (unfold p2; cbn; lia).
    apply (IH p2 (c + zlen f) st'); try done.
    + unfold p2. cbn. replace (uncompressed_written p + zlen out) with p' by lia. done.
    + unfold p2. cbn. lia.
    + intros ->. cbn in Hlen. rewrite (zlen_nil (A:=Z)) in Hlen. lia.
    + replace (Z.to_nat (c + zlen f)) with (Z.to_nat c + length f)%nat by (unfold zlen; lia).
      by rewrite <- drop_drop, <- Hcat, drop_app_length.
Qed.

(** What is sent for a range is the range: with fuel above the bounds of zlib, the
    packets are built, and either they carry the bytes of the range in order, in
    fragments each shorter than 13,000 bytes, or they carry so a shorter zlib stream;
    that stream, however it is cut, inflates fragment by fragment to the bytes and
    ends with its last fragment. *)
Lemma upload_packets_deliver fuel h name start bytes use_i64 : hash_ok h → is_bytes bytes = true → 0 ≤ start →
  start + zlen bytes < (if use_i64 : bool then 2 ^ 64 else 2 ^ 32) → zlen bytes ≤ U32_MAX →
  zlen bytes + deflate_bound bytes < Z.of_nat fuel →
  ∃ packets, build_upload_part_packets fuel h name start (start + zlen bytes) bytes use_i64 = Ok packets ∧
  (fragmented (carries_part h start use_i64) 0 bytes packets ∨
   ∃ s, zlen s < zlen bytes ∧ fragmented (carries_compressed h start (zlen s) use_i64) 0 s packets ∧
     ∀ fuel' piece end_ fragments, zlen s + zlen bytes < Z.of_nat fuel' →
       fragments ≠ [] → Forall (λ f, f ≠ []) fragments → concat fragments = s →
       inflate_fragments fuel' (mkCompressed piece start end_ (zlen s) 0 0 inflater_new) fragments [] = Ok (bytes, true)).
Proof.
  intros Hh Hb Hstart Hend Hlen Hfuel. pose proof (zlen_nonneg bytes). unfold build_upload_part_packets, saturating_sub.
  replace (Z.max (start + zlen bytes - start) 0) with (zlen bytes) by lia. rewrite Z.eqb_refl. cbn [negb].
  assert (Hplain : ∃ packets, sending_packets h start bytes use_i64 = Ok packets ∧ fragmented (carries_part h start use_i64) 0 bytes packets).
  { unfold sending_packets. apply (packets_loop_spec _ (carries_part h start use_i64) bytes); [|lia|unfold zlen; lia].
    intros off f Hoff Hf Hin (a & c & Hbytes). destruct (sending_part_carries h start off f use_i64 Hh) as (pk & E & Hc); [lia| |lia|lia|].
    { eapply is_bytes_mid. by rewrite <- Hbytes. }
    exists (mkUploadPacket "sending_part" pk). by rewrite E. }
  unfold compress_upload_payload. destruct (should_attempt_upload_compression name); cbn [negb].
  2:{ cbn [mbind res_bind]. destruct Hplain as (packets & -> & ?). eauto. }
  destruct (deflate_bounded bytes _ _ _ (deflate_start bytes Hb)) as [_ Hbound].
  destruct (compress_loop_spec bytes fuel 0 [] deflater_new (deflate_start bytes Hb)) as (s & Es & Hs); [rewrite (zlen_nil (A:=Z)) in *; lia|].
  change (drop (Z.to_nat 0) bytes) with bytes in Es. rewrite Es. cbn [mbind res_bind]. destruct (Z.leb_spec (zlen bytes) (zlen s)) as [|Hlt]; cbn [mbind res_bind].
  { destruct Hplain as (packets & -> & ?). eauto. }
  pose proof (zlen_nonneg s).
  destruct (packets_loop_spec (λ _ _ fragment, packet ← encode_compressed_part_fragment h start (zlen s) fragment use_i64;
       Ok (mkUploadPacket "compressed_part" packet)) (carries_compressed h start (zlen s) use_i64) s) with (fuel := length s) (off := 0) (acc := [] : list EncodedUploadPartPacket)
    as (packets & E & Hfr); [|lia|unfold zlen; lia|].
  { intros off f Hoff Hf Hin (a & c & Hbytes).
    destruct (compressed_part_carries h start (zlen s) off f use_i64 Hh) as (pk & E & Hc); [destruct use_i64; lia|lia| |lia|].
    { eapply is_bytes_mid. rewrite <- Hbytes. by eapply stream_bytes. }
    exists (mkUploadPacket "compressed_part" pk). by rewrite E. }
  exists packets. unfold compressed_packets. split; [done|]. right. exists s. split; [done|]. split; [done|].
  intros fuel' piece end_ fragments Hfuel' Hne Hf Hcat.
  by apply (inflate_fragments_spec s bytes fuel' Hfuel' fragments (mkCompressed piece start end_ (zlen s) 0 0 inflater_new) 0 inflater_new
    (inflate_start s bytes Hs)).
Qed.
End laws.

(** ** A compressor with the laws: runs of up to 255 bytes, closed by a zero *)
Module RunLength.

Inductive reader : Type := Open | Run (k : Z) | Closed.
Fixpoint run_of (b : Z) (fuel : nat) (l : list Z) : nat :=
  match fuel, l with
  | S fuel', x :: l' => if x =? b then S (run_of b fuel' l') else O
  | _, _ => O
  end.
Definition rle_compress (_ : unit) (input : list Z) (_ : Z) : option (unit * Z * list Z * Status) :=
  match input with
  | [] => Some (tt, 0, [0], StreamEnd)
  | b :: rest => let n := Z.of_nat (S (run_of b 254 rest)) in Some (tt, n, [n; b], StreamOk)
  end.
Definition rle_decompress (st : reader) (input : list Z) (_ : Z) (_ : bool) : option (reader * Z * list Z * Status) :=
  match st, input with
  | Open, x :: _ => if x =? 0 then Some (Closed, 1, [], StreamEnd) else Some (Run x, 1, [], StreamOk)
  | Run k, b :: _ => if is_u8 k && is_u8 b then Some (Open, 1, replicate (Z.to_nat k) b, StreamOk) else None
  | _, _ => Some (st, 0, [], BufError)
  end.
#[export] Instance rle_zlib : Zlib := {|
  deflater := unit; deflater_new := tt; compress := rle_compress;
  inflater := reader; inflater_new := Open; decompress := rle_decompress
|}.

(** What the reader still has to read, and the data in it. *)
Inductive parse : reader → list Z → list Z → Prop :=
| parse_closed : parse Closed [] []
| parse_end : parse Open [0] []
| parse_count k s d : 0 < k < 256 → parse (Run k) s d → parse Open (k :: s) d
| parse_run k b s d : 0 < k < 256 → 0 ≤ b < 256 → parse Open s d → parse (Run k) (b :: s) (replicate (Z.to_nat k) b ++ d).

Lemma run_of_spec b fuel l : (run_of b fuel l ≤ fuel)%nat ∧ take (run_of b fuel l) l = replicate (run_of b fuel l) b ∧ (run_of b fuel l ≤ length l)%nat.
Proof.
  revert l. induction fuel as [|fuel IH]; intros [|x l]; cbn; try (split_and!; [lia|done|lia]).
  destruct (Z.eqb_spec x b) as [->|]; cbn; [|split_and!; [lia|done|lia]]. destruct (IH l) as (? & E & ?). rewrite E. split_and!; [lia|done|lia].
Qed.

Lemma rle_deflate d c o : 0 ≤ c ≤ zlen d → is_bytes d = true → is_bytes o = true → zlen o ≤ 2 * c →
  (∀ s k, parse Open s k → parse Open (o ++ s) (take (Z.to_nat c) d ++ k)) →
  ∃ st' n out status, rle_compress tt (drop (Z.to_nat c) d) ZLIB_BUFFER = Some (st', n, out, status) ∧ 0 ≤ n ≤ zlen d - c ∧
    match status with
    | StreamEnd => is_bytes (o ++ out) = true ∧ parse Open (o ++ out) d
    | _ => 0 < n + zlen out ∧ is_bytes (o ++ out) = true ∧ zlen (o ++ out) ≤ 2 * (c + n) ∧ 0 ≤ c + n ≤ zlen d ∧
        ∀ s k, parse Open s k → parse Open ((o ++ out) ++ s) (take (Z.to_nat (c + n)) d ++ k)
    end.
Proof.
  intros Hc Hd Ho Hl Hp. destruct (drop (Z.to_nat c) d) as [|b rest] eqn:E.
  - exists tt, 0, [0], StreamEnd. split; [done|]. split; [lia|]. rewrite is_bytes_app, Ho. split; [done|].
    specialize (Hp [0] [] parse_end). rewrite app_nil_r in Hp. apply (f_equal length) in E. rewrite length_drop in E. cbn in E.
    rewrite take_ge in Hp by lia. exact Hp.
  - destruct (run_of_spec b 254 rest) as (Hr & Ht & Hle). set (r := run_of b 254 rest) in *.
    assert (Hb : 0 ≤ b < 256) by (eapply (is_bytes_lookup d (Z.to_nat c)); [done|]; rewrite <- (Nat.add_0_r (Z.to_nat c)), <- lookup_drop, E; done).
    assert (Hlen : zlen d - c = 1 + zlen rest) by (apply (f_equal length) in E; rewrite length_drop in E; cbn in E; unfold zlen in *; lia).
    exists tt, (Z.of_nat (S r)), [Z.of_nat (S r); b], StreamOk. split; [done|]. unfold zlen in Hlen, Hl |- *. split; [lia|]. cbn [length].
    split; [lia|]. split.
    { rewrite is_bytes_app, Ho. apply andb_true_intro. split; [done|]. apply is_bytes_spec. repeat constructor; lia. }
    rewrite length_app. cbn [length]. split; [lia|]. split; [lia|]. intros s k Hs. rewrite <- app_assoc. cbn [app].
    replace (Z.to_nat (c + Z.of_nat (S r))) with (Z.to_nat c + S r)%nat by lia. rewrite <- take_take_drop, E, <- app_assoc. apply Hp.
    cbn [take]. rewrite Ht. change (b :: replicate r b) with (replicate (S r) b). rewrite <- (Nat2Z.id (S r)) at 2. constructor; [lia|]. constructor; [lia|done..].
Qed.

Lemma rle_inflate s d c p st input : 0 ≤ c ≤ zlen s → 0 ≤ p ≤ zlen d → parse st (drop (Z.to_nat c) s) (drop (Z.to_nat p) d) →
  input ≠ [] → input `prefix_of` drop (Z.to_nat c) s →
  ∃ st' out status, rle_decompress st input ZLIB_BUFFER false = Some (st', 1, out, status) ∧ out `prefix_of` drop (Z.to_nat p) d ∧
    parse st' (drop (Z.to_nat (c + 1)) s) (drop (Z.to_nat (p + zlen out)) d) ∧ c + 1 ≤ zlen s ∧ p + zlen out ≤ zlen d ∧
    (status = StreamEnd → c + 1 = zlen s ∧ p + zlen out = zlen d).
Proof.
  intros Hc Hp Hparse Hne Hin. assert (Hadd : ∀ q out k, out ++ k = drop (Z.to_nat q) d → 0 ≤ q → drop (Z.to_nat (q + zlen out)) d = k).
  { intros q out k Hk Hq. replace (Z.to_nat (q + zlen out)) with (Z.to_nat q + length out)%nat by (unfold zlen; lia).
    by rewrite <- drop_drop, <- Hk, drop_app_length. }
  assert (Hle : ∀ q out k, out ++ k = drop (Z.to_nat q) d → 0 ≤ q ≤ zlen d → q + zlen out ≤ zlen d).
  { intros q out k Hk Hq. apply (f_equal length) in Hk. rewrite length_app, length_drop in Hk. unfold zlen in *. lia. }
  assert (Hs : ∀ x s', x :: s' = drop (Z.to_nat c) s → drop (Z.to_nat (c + 1)) s = s' ∧ c + 1 + zlen s' = zlen s).
  { intros x s' Hx. split.
    - replace (Z.to_nat (c + 1)) with (Z.to_nat c + 1)%nat by lia. by rewrite <- drop_drop, <- Hx.
    - apply (f_equal length) in Hx. rewrite length_drop in Hx. cbn in Hx. unfold zlen in *. lia. }
  inversion Hparse as [Eq1 Eq2 Eq3|Eq1 Eq2 Eq3|k s' d' Hk Hrest Eq1 Eq2 Eq3|k b s' d' Hk Hb Hrest Eq1 Eq2 Eq3]; subst st;
    destruct input as [|x input]; try done; (rewrite <- Eq2 in Hin; destruct Hin as [z Hz]; try discriminate Hz; injection Hz as <- _);
    apply Hs in Eq2 as [E1 E2]; rewrite E1; try (pose proof (zlen_nonneg s')); cbn [rle_decompress].
  - exists Closed, [], StreamEnd. rewrite (zlen_nil (A:=Z)) in *. rewrite Z.add_0_r, <- Eq3. split_and!; try done; try lia; try constructor.
    all: apply (f_equal length) in Eq3; rewrite length_drop in Eq3; cbn in Eq3; unfold zlen in *; lia.
  - rewrite (proj2 (Z.eqb_neq _ _)) by lia. exists (Run k), [], StreamOk. rewrite (zlen_nil (A:=Z)), Z.add_0_r.
    split_and!; try done; try lia; by apply prefix_nil.
  - rewrite !(proj2 (is_u8_spec _)) by lia. exists Open, (replicate (Z.to_nat k) b), StreamOk. rewrite (Hadd p _ d' Eq3) by lia.
    pose proof (Hle p _ d' Eq3 Hp). split_and!; try done; try lia. exists d'. done.
Qed.

#[export, program] Instance rle_laws : ZlibLaws := {|
  stream_of s d := is_bytes s = true ∧ parse Open s d;
  deflating d c o _ := is_bytes d = true ∧ is_bytes o = true ∧ zlen o ≤ 2 * c ∧ 0 ≤ c ≤ zlen d ∧
    ∀ s k, parse Open s k → parse Open (o ++ s) (take (Z.to_nat c) d ++ k);
  deflate_bound d := 2 * zlen d;
  inflating s d c p st := 0 ≤ c ≤ zlen s ∧ 0 ≤ p ≤ zlen d ∧ parse st (drop (Z.to_nat c) s) (drop (Z.to_nat p) d)
|}.
Next Obligation. intros s d [? _]. done. Qed.
Next Obligation. intros d Hd. pose proof (zlen_nonneg d). split_and!; try done; lia. Qed.
Next Obligation.
  intros d c o [] (Hd & Ho & Hl & Hc & Hp). destruct (rle_deflate d c o Hc Hd Ho Hl Hp) as ([] & n & out & status & E & Hn & Hs).
  exists tt, n, out, status. split; [exact E|]. split; [done|]. destruct status; [|destruct Hs; done|done]; by destruct_and! Hs.
Qed.
Next Obligation.
  intros [] input st' n out status E. change (rle_compress tt input ZLIB_BUFFER = Some (st', n, out, status)) in E.
  destruct input as [|b rest]; unfold rle_compress in E.
  { by injection E as <- <- <- <-. }
  destruct (run_of_spec b 254 rest) as (_ & _ & Hle). revert E Hle. generalize (run_of b 254 rest). intros r E Hle. injection E as <- <- <- <-. rewrite zlen_cons. unfold zlen. lia.
Qed.
Next Obligation. intros d c o [] (Hd & Ho & Hl & Hc & Hp). lia. Qed.
Next Obligation. intros s d [Hs Hp]. pose proof (zlen_nonneg s). pose proof (zlen_nonneg d). done. Qed.
Next Obligation.
  intros s d c p st input (Hc & Hp & Hparse) Hne Hin. destruct (rle_inflate s d c p st input Hc Hp Hparse Hne Hin) as (st' & out & status & E & Hout & Hp' & Hc' & Hd' & Hend).
  exists st', 1, out, status. pose proof (zlen_nonneg out). split_and!; try done; try lia; apply Hend; done.
Qed.
Next Obligation.
  intros s d p st (Hc & Hp & Hparse). rewrite drop_ge in Hparse by (unfold zlen; lia). inversion Hparse as [Eq1 Eq2 Eq3| | |]. subst st.
  exists Closed, [], BufError. rewrite (zlen_nil (A:=Z)), Z.add_0_r. split_and!; try done; try lia; try (by apply prefix_nil).
  - intros _. apply (f_equal length) in Eq3. rewrite length_drop in Eq3. cbn in Eq3. unfold zlen in *. lia.
  - rewrite drop_ge by (unfold zlen; lia). done.
Qed.
Next Obligation. intros s d c p st (? & ? & _). done. Qed.
Next Obligation.
  intros st input finish st' n out status E. unfold ZLIB_BUFFER. cbn in E. unfold rle_decompress in E. pose proof (zlen_nonneg input).
  destruct st as [|k|]; destruct input as [|x input]; try (injection E as <- <- <- <-; rewrite ?(zlen_nil (A:=Z)) in *; split_and!; done || lia).
  - rewrite zlen_cons in *. pose proof (zlen_nonneg input). case_match; injection E as <- <- <- <-; rewrite ?(zlen_nil (A:=Z)) in *; split_and!; done || lia.
  - rewrite zlen_cons in *. destruct (is_u8 k) eqn:Hk; [|done]. destruct (is_u8 x) eqn:Hx; [|done]. injection E as <- <- <- <-.
    apply is_u8_spec in Hk, Hx. pose proof (zlen_nonneg input). split; [lia|]. split; [unfold zlen; rewrite length_replicate; lia|]. apply is_bytes_spec, Forall_replicate. done.
Qed.
End RunLength.
