(* ===== verification/Hello.v ===== *)
(** * Hellos

    [ed2k_tcp/hello.rs]: the packets with which peers introduce themselves, their tags,
    and the profile that a peer's hello tells; the hello identity and the payload of
    the firewall check of [ed2k_tcp.rs]; and the secure identification of
    [ed2k_tcp/identity.rs], in which RSA signing is a parameter. *)

From S2P Require Import Prelude Net NodeId Text PeerTransport PeerCodec.

(** ** Constants *)

Definition EMULE_PROTOCOL_VERSION : Z := 0x01.
Definition EDONKEY_VERSION : Z := 0x3C.
Definition EMULE_VERSION_MAJOR : Z := 0.
Definition EMULE_VERSION_MINOR : Z := 72.
Definition EMULE_VERSION_UPDATE : Z := 0.
Definition EMULE_VERSION_SHORT : Z := EMULE_VERSION_MINOR mod 256.
Definition EMULE_SECURE_IDENT_VERSION : Z := 3.
Definition EMULE_INFO_FEATURES : Z := 3.
Definition EMULE_ADVERTISED_KAD_VERSION : Z := 10.
Definition TAGTYPE_STRING : Z := 0x02.
Definition TAGTYPE_UINT32 : Z := 0x03.
Definition TAGTYPE_FLOAT32 : Z := 0x04.
Definition TAGTYPE_BOOL : Z := 0x05.
Definition TAGTYPE_BOOLARRAY : Z := 0x06.
Definition TAGTYPE_BLOB : Z := 0x07.
Definition TAGTYPE_UINT16 : Z := 0x08.
Definition TAGTYPE_UINT8 : Z := 0x09.
Definition TAGTYPE_UINT64 : Z := 0x0B.
Definition TAGTYPE_STR1 : Z := 0x11.
Definition TAG_SHORT_NAME_MASK : Z := 0x80.
Definition CT_NAME : Z := 0x01.
Definition CT_VERSION : Z := 0x11.
Definition CT_EMULE_UDPPORTS : Z := 0xF9.
Definition CT_EMULE_MISCOPTIONS1 : Z := 0xFA.
Definition CT_EMULE_VERSION : Z := 0xFB.
Definition CT_EMULE_MISCOPTIONS2 : Z := 0xFE.
Definition ET_COMPRESSION : Z := 0x20.
Definition ET_UDPPORT : Z := 0x21.
Definition ET_UDPVER : Z := 0x22.
Definition ET_SOURCEEXCHANGE : Z := 0x23.
Definition ET_COMMENTS : Z := 0x24.
Definition ET_EXTENDEDREQUEST : Z := 0x25.
Definition ET_FEATURES : Z := 0x27.
Definition ED2K_SECURE_IDENT_SIGNATURE_NEEDED : Z := 1.
Definition ED2K_SECURE_IDENT_KEY_AND_SIGNATURE_NEEDED : Z := 2.
Definition HELLO_NICKNAME : list Z := lit "eMule".

(** ** Identities *)

Record FirewallCheckUdpRequest : Type := mkFwCheck { fc_internal_udp_port : Z; fc_external_udp_port : Z; fc_sender_udp_key : Z }.
Definition fw_check_encode (r : FirewallCheckUdpRequest) : list Z :=
  to_le_bytes 2 (fc_internal_udp_port r) ++ to_le_bytes 2 (fc_external_udp_port r) ++ to_le_bytes 4 (fc_sender_udp_key r).
Definition fw_check_decode (payload : list Z) : res PeerError FirewallCheckUdpRequest :=
  if zlen payload <? 8 then Err PShort
  else
    internal ← le_at payload 0 2;
    external ← le_at payload 2 2;
    key ← le_at payload 4 4;
    Ok (mkFwCheck internal external key).

Record Ed2kHelloIdentity : Type := mkHelloIdentity {
  hi_user_hash : list Z;
  hi_client_id : Z;
  hi_tcp_port : Z;
  hi_udp_port : Z;
  hi_server_ip : Z;
  hi_server_port : Z;
  hi_connect_options : Z;
  hi_direct_udp_callback : bool
}.

(** ** Encoding *)

Definition encode_ed2k_short_tag_header (type_byte name : Z) : list Z := [type_byte] ++ to_le_bytes 2 1 ++ [name].
Definition push_ed2k_u32_tag (name value : Z) : list Z := encode_ed2k_short_tag_header TAGTYPE_UINT32 name ++ to_le_bytes 4 value.
Definition ed2k_string_tag_type (len : Z) : Z :=
  if (1 <=? len) && (len <=? 16) then TAGTYPE_STR1 + (len - 1) else TAGTYPE_STRING.
Definition push_ed2k_string_tag (name : Z) (value : list Z) : res PeerError (list Z) :=
  let type_byte := ed2k_string_tag_type (zlen value) in
  prefix ← (if type_byte =? TAGTYPE_STRING then len ← expect (try_from_u 16 (zlen value)); Ok (to_le_bytes 2 len) else Ok []);
  Ok (encode_ed2k_short_tag_header type_byte name ++ prefix ++ value).

Definition bits (l : list (Z * Z)) : Z := foldr (λ '(v, k), Z.lor (Z.shiftl v k)) 0 l.
Definition emule_misc_options1 : Z :=
  let supports_aich := 1 in
  let supports_unicode := 1 in
  let udp_version := 4 in
  let data_compression_version := 1 in
  let secure_ident_version := EMULE_SECURE_IDENT_VERSION in
  let source_exchange_version := 4 in
  let extended_requests_version := 2 in
  let comments_version := 1 in
  let peer_cache := 0 in
  let no_view_shared_files := 1 in
  let multipacket := 1 in
  let preview_supported := 0 in
  bits [(supports_aich, 29); (supports_unicode, 28); (udp_version, 24); (data_compression_version, 20);
        (secure_ident_version, 16); (source_exchange_version, 12); (extended_requests_version, 8);
        (comments_version, 4); (peer_cache, 3); (no_view_shared_files, 2); (multipacket, 1); (preview_supported, 0)].
Definition emule_misc_options2 (connect_options : Z) (direct_udp_callback : bool) : Z :=
  let supports_file_identifiers := 1 in
  let supports_captcha := 0 in
  let supports_source_exchange2 := 1 in
  let requires_crypt_layer := 0 in
  let requests_crypt_layer := Z.b2z (negb (Z.land connect_options EMULE_CRYPT_REQUESTS =? 0)) in
  let supports_crypt_layer := Z.b2z (negb (Z.land connect_options EMULE_CRYPT_SUPPORTS =? 0)) in
  let ext_multipacket := 1 in
  let supports_large_files := 1 in
  let kad_version := EMULE_ADVERTISED_KAD_VERSION in
  bits [(supports_file_identifiers, 13); (Z.b2z direct_udp_callback, 12); (supports_captcha, 11);
        (supports_source_exchange2, 10); (requires_crypt_layer, 9); (requests_crypt_layer, 8);
        (supports_crypt_layer, 7); (ext_multipacket, 5); (supports_large_files, 4); (kad_version, 0)].
Definition emule_version_tag : Z := bits [(EMULE_VERSION_MAJOR, 17); (EMULE_VERSION_MINOR, 10); (EMULE_VERSION_UPDATE, 7)].

Definition append_recent_emule_hello_tags (i : Ed2kHelloIdentity) : res PeerError (list Z) :=
  nick ← push_ed2k_string_tag CT_NAME HELLO_NICKNAME;
  Ok (to_le_bytes 4 6 ++ nick ++
      push_ed2k_u32_tag CT_VERSION EDONKEY_VERSION ++
      push_ed2k_u32_tag CT_EMULE_UDPPORTS (Z.lor (Z.shiftl (hi_udp_port i) 16) (hi_udp_port i)) ++
      push_ed2k_u32_tag CT_EMULE_MISCOPTIONS1 emule_misc_options1 ++
      push_ed2k_u32_tag CT_EMULE_MISCOPTIONS2 (emule_misc_options2 (hi_connect_options i) (hi_direct_udp_callback i)) ++
      push_ed2k_u32_tag CT_EMULE_VERSION emule_version_tag).
Definition append_emule_hello_request_tags : Ed2kHelloIdentity → res PeerError (list Z) := append_recent_emule_hello_tags.
Definition append_emule_hello_answer_tags : Ed2kHelloIdentity → res PeerError (list Z) := append_recent_emule_hello_tags.
Definition encode_hello_type_payload (i : Ed2kHelloIdentity) (append_tags : Ed2kHelloIdentity → res PeerError (list Z))
    : res PeerError (list Z) :=
  tags ← append_tags i;
  Ok (hi_user_hash i ++ to_le_bytes 4 (hi_client_id i) ++ to_le_bytes 2 (hi_tcp_port i) ++ tags ++
      to_le_bytes 4 (hi_server_ip i) ++ to_le_bytes 2 (hi_server_port i)).
Definition encode_hello_request (i : Ed2kHelloIdentity) : res PeerError (list Z) :=
  payload ← encode_hello_type_payload i append_emule_hello_request_tags;
  encode_packet OP_EDONKEYPROT OP_HELLO ([16] ++ payload).
Definition encode_hello_answer (i : Ed2kHelloIdentity) : res PeerError (list Z) :=
  payload ← encode_hello_type_payload i append_emule_hello_answer_tags;
  encode_packet OP_EDONKEYPROT OP_HELLOANSWER payload.
Definition encode_emule_info_payload (kad_udp_port : Z) : list Z :=
  [EMULE_VERSION_SHORT] ++ [EMULE_PROTOCOL_VERSION] ++ to_le_bytes 4 7 ++
  push_ed2k_u32_tag ET_COMPRESSION 1 ++ push_ed2k_u32_tag ET_UDPVER 4 ++ push_ed2k_u32_tag ET_UDPPORT kad_udp_port ++
  push_ed2k_u32_tag ET_SOURCEEXCHANGE 3 ++ push_ed2k_u32_tag ET_COMMENTS 1 ++ push_ed2k_u32_tag ET_EXTENDEDREQUEST 2 ++
  push_ed2k_u32_tag ET_FEATURES EMULE_INFO_FEATURES.
Definition encode_emule_info_request (kad_udp_port : Z) : res PeerError (list Z) :=
  encode_packet OP_EMULEPROT OP_EMULEINFO (encode_emule_info_payload kad_udp_port).
Definition encode_emule_info_answer (kad_udp_port : Z) : res PeerError (list Z) :=
  encode_packet OP_EMULEPROT OP_EMULEINFOANSWER (encode_emule_info_payload kad_udp_port).

(** ** Decoding *)

Record DecodedEmuleInfoProfile : Type := mkInfoProfile {
  ip_data_compression_version : Z;
  ip_udp_version : Z;
  ip_udp_port : Z;
  ip_source_exchange_version : Z;
  ip_supports_source_exchange : bool;
  ip_extended_requests_version : Z;
  ip_accepts_comments : bool;
  ip_supports_secure_ident : bool;
  ip_supports_preview : bool
}.
Definition info_profile_default : DecodedEmuleInfoProfile := mkInfoProfile 0 0 0 0 false 0 false false false.

Record DecodedHelloTag : Type := mkHelloTag { ht_tag_name : option Z; ht_base_type : Z; ht_value : list Z; ht_remaining : list Z }.

Definition hello_tag_name (short_name : bool) (bytes : list Z) : res PeerError (option Z * list Z) :=
  if short_name then
    name ← byte bytes 0;
    bytes ← tail_from bytes 1;
    Ok (Some name, bytes)
  else if zlen bytes <? 2 then Err PShort
  else
    name_len ← le_at bytes 0 2;
    bytes ← tail_from bytes 2;
    if zlen bytes <? name_len then Err PShort
    else
      name ← (if name_len =? 1 then b ← byte bytes 0; Ok (Some b) else Ok None);
      bytes ← tail_from bytes name_len;
      Ok (name, bytes).
(** The value is [bytes[skip..total]]. *)
Definition split_value (bytes : list Z) (skip total : Z) : res PeerError (list Z * list Z) :=
  if zlen bytes <? total then Err PShort
  else
    value ← range bytes skip total;
    remaining ← tail_from bytes total;
    Ok (value, remaining).
Definition hello_tag_value (base_type : Z) (bytes : list Z) : res PeerError (list Z * list Z) :=
  if base_type =? TAGTYPE_STRING then
    if zlen bytes <? 2 then Err PShort else len ← le_at bytes 0 2; split_value bytes 2 (2 + len)
  else if (TAGTYPE_STR1 <=? base_type) && (base_type <=? 0x20) then split_value bytes 0 (base_type - TAGTYPE_STR1 + 1)
  else if (base_type =? TAGTYPE_UINT32) || (base_type =? TAGTYPE_FLOAT32) then split_value bytes 0 4
  else if base_type =? TAGTYPE_UINT64 then split_value bytes 0 8
  else if base_type =? TAGTYPE_UINT16 then split_value bytes 0 2
  else if (base_type =? TAGTYPE_UINT8) || (base_type =? TAGTYPE_BOOL) then split_value bytes 0 1
  else if base_type =? TAGTYPE_BOOLARRAY then
    if zlen bytes <? 2 then Err PShort
    else bit_len ← le_at bytes 0 2; let byte_len := bit_len / 8 + 1 in split_value bytes 0 (2 + byte_len)
  else if base_type =? TAGTYPE_BLOB then
    if zlen bytes <? 4 then Err PShort else blob_len ← le_at bytes 0 4; split_value bytes 4 (4 + blob_len)
  else if base_type =? 0x01 then split_value bytes 0 16
  else Err PUnsupported.
Definition decode_hello_tag (bytes : list Z) : res PeerError DecodedHelloTag :=
  if zlen bytes <? 2 then Err PShort
  else
    type_byte ← byte bytes 0;
    let short_name := negb (Z.land type_byte TAG_SHORT_NAME_MASK =? 0) in
    let base_type := Z.land type_byte (255 - TAG_SHORT_NAME_MASK) in
    bytes ← tail_from bytes 1;
    '(tag_name, bytes) ← hello_tag_name short_name bytes;
    '(value, remaining) ← hello_tag_value base_type bytes;
    Ok (mkHelloTag tag_name base_type value remaining).

Record DecodedHelloIdentity : Type := mkDecodedIdentity { di_user_hash : list Z; di_client_id : Z; di_tcp_port : Z }.
Record DecodedHelloProfile : Type := mkHelloProfile {
  hp_identity : DecodedHelloIdentity;
  hp_is_mule_hello : bool;
  hp_supports_aich : bool;
  hp_supports_secure_ident : bool;
  hp_supports_multipacket : bool;
  hp_supports_ext_multipacket : bool;
  hp_source_exchange_version : Z;
  hp_supports_source_exchange : bool;
  hp_supports_source_exchange2 : bool;
  hp_supports_file_identifiers : bool
}.

Definition decode_hello_tag_u32 (tag : DecodedHelloTag) : option Z :=
  let t := ht_base_type tag in
  let value := ht_value tag in
  if (t =? TAGTYPE_UINT32) || (t =? TAGTYPE_FLOAT32) then if zlen value =? 4 then Some (from_le_bytes value) else None
  else if t =? TAGTYPE_UINT16 then if zlen value =? 2 then Some (from_le_bytes value) else None
  else if (t =? TAGTYPE_UINT8) || (t =? TAGTYPE_BOOL) then head value
  else None.

Definition named (tag : DecodedHelloTag) (name : Z) : bool :=
  match ht_tag_name tag with Some n => n =? name | None => false end.
Definition field (v k mask : Z) : Z := Z.land (Z.shiftr v k) mask.
Definition flag (v : Z) : bool := negb (v =? 0).

Definition apply_info_value (p : DecodedEmuleInfoProfile) (name : option Z) (value : Z) : DecodedEmuleInfoProfile :=
  let '(mkInfoProfile dc uv up sv sx er cm si pv) := p in
  let has_name n := match name with Some m => m =? n | None => false end in
  if has_name ET_COMPRESSION then mkInfoProfile (value mod 256) uv up sv sx er cm si pv
  else if has_name ET_UDPVER then mkInfoProfile dc (value mod 256) up sv sx er cm si pv
  else if has_name ET_UDPPORT then mkInfoProfile dc uv (value mod 65536) sv sx er cm si pv
  else if has_name ET_SOURCEEXCHANGE then mkInfoProfile dc uv up (value mod 256) (flag value) er cm si pv
  else if has_name ET_COMMENTS then mkInfoProfile dc uv up sv sx er (flag value) si pv
  else if has_name ET_EXTENDEDREQUEST then mkInfoProfile dc uv up sv sx (value mod 256) cm si pv
  else if has_name ET_FEATURES then mkInfoProfile dc uv up sv sx er cm (flag (Z.land value 0x03)) (flag (field value 7 1))
  else p.
Definition apply_info_tag (p : DecodedEmuleInfoProfile) (tag : DecodedHelloTag) : DecodedEmuleInfoProfile :=
  match decode_hello_tag_u32 tag with
  | Some value => apply_info_value p (ht_tag_name tag) value
  | None => p
  end.
(** The loops over [tag_count] tags. Every tag takes bytes, so the fuel is the length. *)
Fixpoint tags_loop {A} (fuel : nat) (apply_tag : A → DecodedHelloTag → A) (count : Z) (cursor : list Z) (acc : A) : res PeerError A :=
  if count <=? 0 then Ok acc
  else
    match fuel with
    | O => Err PShort
    | S fuel' =>
        tag ← decode_hello_tag cursor;
        tags_loop fuel' apply_tag (count - 1) (ht_remaining tag) (apply_tag acc tag)
    end.
Definition decode_emule_info_profile (payload : list Z) : res PeerError DecodedEmuleInfoProfile :=
  if zlen payload <? 2 + 4 then Err PShort
  else
    version ← byte payload 1;
    if negb (version =? EMULE_PROTOCOL_VERSION) then Ok info_profile_default
    else
      cursor ← tail_from payload 2;
      tag_count ← le_at cursor 0 4;
      cursor ← tail_from cursor 4;
      profile ← tags_loop (S (length cursor)) apply_info_tag tag_count cursor info_profile_default;
      if ip_data_compression_version profile =? 0
      then Ok (mkInfoProfile 0 (ip_udp_version profile) 0 0 false 0 false (ip_supports_secure_ident profile) (ip_supports_preview profile))
      else Ok profile.

Definition apply_hello_tag (p : DecodedHelloProfile) (tag : DecodedHelloTag) : DecodedHelloProfile :=
  match p with
  | mkHelloProfile i mule aich si mp xmp sv sx sx2 fi =>
      let mule := mule || named tag CT_EMULE_VERSION in
      let '(fi, sx2, xmp) :=
        match (if named tag CT_EMULE_MISCOPTIONS2 then decode_hello_tag_u32 tag else None) with
        | Some v => (flag (field v 13 1), flag (field v 10 1), flag (field v 5 1))
        | None => (fi, sx2, xmp)
        end in
      let '(aich, si, sv, sx, mp) :=
        match (if named tag CT_EMULE_MISCOPTIONS1 then decode_hello_tag_u32 tag else None) with
        | Some v => (flag (Z.land (field v 29 0x07) 0x01), flag (field v 16 0x0F), field v 12 0x0F,
                     flag (field v 12 0x0F), flag (field v 1 1))
        | None => (aich, si, sv, sx, mp)
        end in
      mkHelloProfile i mule aich si mp xmp sv sx sx2 fi
  end.
Definition decode_hello_profile_from_type_payload (p : list Z) : res PeerError DecodedHelloProfile :=
  if zlen p <? 16 + 4 + 2 + 4 then Err PShort
  else
    user_hash ← range p 0 16;
    client_id ← le_at p 16 4;
    tcp_port ← le_at p 20 2;
    cursor ← tail_from p 22;
    tag_count ← le_at cursor 0 4;
    cursor ← tail_from cursor 4;
    tags_loop (S (length cursor)) apply_hello_tag tag_count cursor
      (mkHelloProfile (mkDecodedIdentity user_hash client_id tcp_port) false false false false false 0 false false false).
Definition decode_hello_profile (payload : list Z) : res PeerError DecodedHelloProfile :=
  let type_payload := match payload with
                      | first :: rest => if first =? 16 then rest else payload
                      | [] => payload
                      end in
  decode_hello_profile_from_type_payload type_payload.
Definition decode_hello_answer_profile : list Z → res PeerError DecodedHelloProfile := decode_hello_profile_from_type_payload.
Definition is_mule_hello_type_payload (payload : list Z) : res PeerError bool :=
  p ← decode_hello_profile_from_type_payload payload; Ok (hp_is_mule_hello p).
Definition is_mule_hello (payload : list Z) : res PeerError bool :=
  if zlen payload <? 1 + 16 + 4 + 2 + 4 then Err PShort
  else rest ← tail_from payload 1; is_mule_hello_type_payload rest.
Definition build_hello_responses (incoming_payload : list Z) (i : Ed2kHelloIdentity) : res PeerError (list (list Z)) :=
  mule ← is_mule_hello incoming_payload;
  info ← (if negb mule then r ← encode_emule_info_request (hi_udp_port i); Ok [r] else Ok []);
  answer ← encode_hello_answer i;
  Ok (info ++ [answer]).

(** ** Secure identification *)

(** [Ed2kSecureIdent]: the public key, and signing with the private one. *)
Record Ed2kSecureIdent : Type := mkSecureIdent { public_key_der : list Z; rsa_sign : list Z → list Z }.
Definition public_key_payload (s : Ed2kSecureIdent) : res PeerError (list Z) :=
  match try_from_u 8 (zlen (public_key_der s)) with
  | None => Err PTooLarge
  | Some len => Ok ([len] ++ public_key_der s)
  end.
Definition signature_payload (s : Ed2kSecureIdent) (peer_public_key : list Z) (challenge : Z) : res PeerError (list Z) :=
  let signature := rsa_sign s (peer_public_key ++ to_le_bytes 4 challenge) in
  match try_from_u 8 (zlen signature) with
  | None => Err PTooLarge
  | Some len => Ok ([len] ++ signature)
  end.
Record Ed2kPeerSecureIdentState : Type := mkIdentState {
  peer_public_key : option (list Z);
  peer_challenge_from : option Z;
  challenge_for : option Z;
  pending_signature : bool;
  peer_signature_received : bool;
  requested_peer_key : bool
}.
Definition ident_state_default : Ed2kPeerSecureIdentState := mkIdentState None None None false false false.
(** The first draw that is not zero. *)
Definition random_nonzero_u32 (draws : list Z) : option Z := List.find (λ v, negb (v =? 0)) draws.
Definition begin_secure_ident_probe (challenge : Z) (s : Ed2kPeerSecureIdentState)
    : res PeerError (Ed2kPeerSecureIdentState * list Z) :=
  packet ← encode_secident_state ED2K_SECURE_IDENT_KEY_AND_SIGNATURE_NEEDED challenge;
  Ok (mkIdentState (peer_public_key s) (peer_challenge_from s) (Some challenge) (pending_signature s)
        (peer_signature_received s) true, packet).
(** The signature packet that [try_send_secure_ident_signature] sends, if any; once it
    is sent, none is pending. *)
Definition secure_ident_signature (ident : Ed2kSecureIdent) (s : Ed2kPeerSecureIdentState) : res PeerError (option (list Z)) :=
  match peer_public_key s, peer_challenge_from s with
  | Some key, Some challenge =>
      if negb (pending_signature s) then Ok None
      else
        payload ← signature_payload ident key challenge;
        packet ← encode_packet OP_EMULEPROT OP_SIGNATURE payload;
        Ok (Some packet)
  | _, _ => Ok None
  end.

(** ** Decoders do not panic *)

Lemma land_mask_bound b : 0 ≤ b → 0 ≤ Z.land b (255 - TAG_SHORT_NAME_MASK) < 128.
Proof. intros Hb. change (255 - TAG_SHORT_NAME_MASK) with (Z.ones 7). rewrite Z.land_ones by done. by apply Z.mod_pos_bound. Qed.
Lemma safe_split bytes skip total : is_bytes bytes = true → 0 ≤ skip ≤ total →
  safe (λ '(v, r), is_bytes v = true ∧ zlen v = total - skip ∧ is_bytes r = true ∧ zlen r ≤ zlen bytes) (split_value bytes skip total).
Proof. intros Hb Hs. unfold split_value. safe_all. split_and!; done || lia. Qed.
#[export] Hint Resolve safe_split : peer.

Lemma safe_tag_value t bytes : is_bytes bytes = true →
  safe (λ '(v, r), is_bytes v = true ∧ is_bytes r = true ∧ zlen r ≤ zlen bytes) (hello_tag_value t bytes).
Proof.
  intros Hb. assert (Hw : ∀ skip total, 0 ≤ skip ≤ total →
    safe (λ '(v, r), is_bytes v = true ∧ is_bytes r = true ∧ zlen r ≤ zlen bytes) (split_value bytes skip total)).
  { intros skip total Hs. eapply safe_weaken; [by apply safe_split|]. intros [v r]. tauto. }
  unfold hello_tag_value. unfold TAGTYPE_STR1.
  repeat (case_match; bool_hyps; try (exact I); try (apply Hw; lia));
    (eapply safe_bind; [apply safe_le; safe_side|]; intros n Hn; cbv beta in Hn; apply Hw; try lia).
  pose proof (Z.div_pos n 8). lia.
Qed.
Lemma safe_tag_name short bytes : is_bytes bytes = true → 1 ≤ zlen bytes →
  safe (λ '(n, r), is_bytes r = true ∧ zlen r ≤ zlen bytes - 1) (hello_tag_name short bytes).
Proof.
  intros Hb Hl. unfold hello_tag_name. repeat safe_step; try (split; [done|lia]).
  eapply safe_bind with (λ _, True); [safe_all|]. intros n _. safe_all. split; [done|lia].
Qed.
Definition tag_shape (bytes : list Z) (t : DecodedHelloTag) : Prop :=
  is_bytes (ht_value t) = true ∧ is_bytes (ht_remaining t) = true ∧ zlen (ht_remaining t) ≤ zlen bytes - 2.
Lemma safe_tag bytes : is_bytes bytes = true → safe (tag_shape bytes) (decode_hello_tag bytes).
Proof.
  intros Hb. unfold decode_hello_tag. repeat safe_step; try done.
  eapply safe_bind; [apply safe_tag_name; [done|lia]|]. intros [n r] [Hr Hl].
  eapply safe_bind; [by apply safe_tag_value|]. intros [v' r'] (Hv' & Hr' & Hl'). split_and!; cbn; done || lia.
Qed.
Lemma safe_tags {A} (f : A → DecodedHelloTag → A) fuel count cursor acc : is_bytes cursor = true →
  safe (λ _, True) (tags_loop fuel f count cursor acc).
Proof.
  revert count cursor acc. induction fuel as [|fuel IH]; intros count cursor acc Hc; cbn [tags_loop]; case_match; try done.
  eapply safe_bind; [by apply safe_tag|]. intros t (_ & Hr & _). by apply IH.
Qed.
Lemma safe_info_profile payload : is_bytes payload = true → safe (λ _, True) (decode_emule_info_profile payload).
Proof.
  intros Hb. unfold decode_emule_info_profile. repeat safe_step; try done.
  eapply safe_bind; [by apply safe_tags|]. intros p _. by case_match.
Qed.
Lemma safe_type_profile payload : is_bytes payload = true → safe (λ _, True) (decode_hello_profile_from_type_payload payload).
Proof. intros Hb. unfold decode_hello_profile_from_type_payload. repeat safe_step; try done. by apply safe_tags. Qed.
Lemma safe_hello_profile payload : is_bytes payload = true → safe (λ _, True) (decode_hello_profile payload).
Proof.
  intros Hb. unfold decode_hello_profile. destruct payload as [|x l]; [by apply safe_type_profile|].
  case_match; [|by apply safe_type_profile]. apply safe_type_profile. cbn in Hb. by apply andb_prop in Hb as [_ ?].
Qed.

(** ** Hellos survive the wire *)

Definition identity_ok (i : Ed2kHelloIdentity) : Prop :=
  hash_ok (hi_user_hash i) ∧ is_u32 (hi_client_id i) = true ∧ is_u16 (hi_tcp_port i) = true ∧ is_u16 (hi_udp_port i) = true ∧
  is_u32 (hi_server_ip i) = true ∧ is_u16 (hi_server_port i) = true ∧ is_u8 (hi_connect_options i) = true.
Definition seen_identity (i : Ed2kHelloIdentity) : DecodedHelloIdentity :=
  mkDecodedIdentity (hi_user_hash i) (hi_client_id i) (hi_tcp_port i).

(** A tag with a one-byte name, whatever its value. *)
Lemma decode_short_tag t name value rest v : 0 ≤ t < 128 → hello_tag_value t (value ++ rest) = Ok (v, rest) →
  decode_hello_tag ((encode_ed2k_short_tag_header t name ++ value) ++ rest) = Ok (mkHelloTag (Some name) t v rest).
Proof.
  intros Ht Hv. unfold encode_ed2k_short_tag_header, decode_hello_tag. change (to_le_bytes 2 1) with [1; 0]. cbn [app].
  pose proof (zlen_nonneg (value ++ rest)). rewrite (proj2 (Z.ltb_ge _ _)) by (rewrite !zlen_cons; lia).
  rewrite byte_front. cbn [mbind res_bind].
  assert (Hm : Z.land t TAG_SHORT_NAME_MASK = 0).
  { unfold TAG_SHORT_NAME_MASK. change 128 with (2 ^ 7). apply Z.bits_inj_iff'. intros n Hn. rewrite Z.land_spec, Z.pow2_bits_eqb, Z.bits_0 by done.
    destruct (Z.eqb_spec 7 n) as [<-|]; [|apply andb_false_r]. rewrite Z.testbit_eqb, Z.div_small by lia. done. }
  assert (Hb : Z.land t (255 - TAG_SHORT_NAME_MASK) = t).
  { change (255 - TAG_SHORT_NAME_MASK) with (Z.ones 7). rewrite Z.land_ones by done. by apply Z.mod_small. }
  rewrite Hm, Hb, Z.eqb_refl. cbn [negb].
  change (t :: 1 :: 0 :: name :: value ++ rest) with ([t] ++ [1; 0; name] ++ value ++ rest). rewrite tail_mid by done. cbn [mbind res_bind].
  unfold hello_tag_name. rewrite (proj2 (Z.ltb_ge _ _)) by (cbn [app]; rewrite !zlen_cons; lia).
  change ([1; 0; name] ++ value ++ rest) with (to_le_bytes 2 1 ++ [name] ++ value ++ rest).
  rewrite le_front by done. cbn [mbind res_bind]. rewrite tail_mid by done. cbn [mbind res_bind app].
  rewrite (proj2 (Z.ltb_ge _ _)) by (rewrite zlen_cons; lia). change (1 =? 1) with true. cbv iota. rewrite byte_front. cbn [mbind res_bind].
  change (name :: value ++ rest) with ([name] ++ value ++ rest). rewrite tail_mid by done. cbn [mbind res_bind].
  rewrite Hv. done.
Qed.
Lemma split_front value rest n : n = zlen value → split_value (value ++ rest) 0 n = Ok (value, rest).
Proof.
  intros ->. unfold split_value. pose proof (zlen_nonneg value). pose proof (zlen_nonneg rest).
  rewrite (proj2 (Z.ltb_ge _ _)) by (rewrite zlen_app; lia). rewrite range_front by done. cbn [mbind res_bind]. by rewrite tail_mid.
Qed.
Lemma decode_u32_tag name v rest :
  decode_hello_tag (push_ed2k_u32_tag name v ++ rest) = Ok (mkHelloTag (Some name) TAGTYPE_UINT32 (to_le_bytes 4 v) rest).
Proof. apply decode_short_tag; [done|]. change (hello_tag_value TAGTYPE_UINT32) with (λ b, split_value b 0 4). by apply split_front. Qed.
Lemma tag_u32_value name v rest : 0 ≤ v < 2 ^ 32 →
  decode_hello_tag_u32 (mkHelloTag name TAGTYPE_UINT32 (to_le_bytes 4 v) rest) = Some v.
Proof. intros Hv. unfold decode_hello_tag_u32. cbn [ht_base_type ht_value]. rewrite zlen_le.
  transitivity (Some (from_le_bytes (to_le_bytes 4 v))); [done|by rewrite from_to_le_bytes]. Qed.
Lemma info_tag_value p name v rest : 0 ≤ v < 2 ^ 32 →
  apply_info_tag p (mkHelloTag name TAGTYPE_UINT32 (to_le_bytes 4 v) rest) = apply_info_value p name v.
Proof. intros Hv. unfold apply_info_tag. by rewrite tag_u32_value. Qed.
Lemma tags_step {A} (f : A → DecodedHelloTag → A) fuel count cursor acc tag : 0 < count →
  decode_hello_tag cursor = Ok tag → tags_loop (S fuel) f count cursor acc = tags_loop fuel f (count - 1) (ht_remaining tag) (f acc tag).
Proof. intros Hc E. cbn [tags_loop]. rewrite (proj2 (Z.leb_gt _ _)) by done. by rewrite E. Qed.
Lemma tags_done {A} (f : A → DecodedHelloTag → A) fuel cursor acc : tags_loop fuel f 0 cursor acc = Ok acc.
Proof. by destruct fuel. Qed.

(** The nickname's tag. *)
Definition nick_tag : list Z := encode_ed2k_short_tag_header (TAGTYPE_STR1 + 4) CT_NAME ++ HELLO_NICKNAME.
Lemma push_nick : push_ed2k_string_tag CT_NAME HELLO_NICKNAME = Ok nick_tag.
Proof. reflexivity. Qed.
Lemma decode_nick rest : decode_hello_tag (nick_tag ++ rest) = Ok (mkHelloTag (Some CT_NAME) (TAGTYPE_STR1 + 4) HELLO_NICKNAME rest).
Proof.
  apply decode_short_tag; [done|]. change (hello_tag_value (TAGTYPE_STR1 + 4)) with (λ b, split_value b 0 5). by apply split_front.
Qed.

Lemma misc_options2_fields o d : let v := emule_misc_options2 o d in
  0 ≤ v < 2 ^ 32 ∧ flag (field v 13 1) = true ∧ flag (field v 10 1) = true ∧ flag (field v 5 1) = true.
Proof. unfold emule_misc_options2. destruct (Z.land o EMULE_CRYPT_REQUESTS =? 0), (Z.land o EMULE_CRYPT_SUPPORTS =? 0), d; vm_compute; done. Qed.

(** The tags of a hello, with the six of the agent. *)
Definition hello_tags (i : Ed2kHelloIdentity) : list Z :=
  nick_tag ++ push_ed2k_u32_tag CT_VERSION EDONKEY_VERSION ++
  push_ed2k_u32_tag CT_EMULE_UDPPORTS (Z.lor (Z.shiftl (hi_udp_port i) 16) (hi_udp_port i)) ++
  push_ed2k_u32_tag CT_EMULE_MISCOPTIONS1 emule_misc_options1 ++
  push_ed2k_u32_tag CT_EMULE_MISCOPTIONS2 (emule_misc_options2 (hi_connect_options i) (hi_direct_udp_callback i)) ++
  push_ed2k_u32_tag CT_EMULE_VERSION emule_version_tag.
Lemma zlen_u32_tag name v : zlen (push_ed2k_u32_tag name v) = 8.
Proof. reflexivity. Qed.
Lemma hello_tags_loop i rest fuel id : (6 ≤ fuel)%nat →
  tags_loop fuel apply_hello_tag 6 (hello_tags i ++ rest) (mkHelloProfile id false false false false false 0 false false false) =
  Ok (mkHelloProfile id true true true true true 4 true true true).
Proof.
  intros Hf. do 6 (destruct fuel as [|fuel]; [lia|]). unfold hello_tags. rewrite <- !app_assoc.
  erewrite tags_step; [|done|apply decode_nick]. cbn [ht_remaining].
  do 5 (erewrite tags_step; [|done|apply decode_u32_tag]; cbn [ht_remaining]).
  rewrite tags_done. f_equal. pose proof (misc_options2_fields (hi_connect_options i) (hi_direct_udp_callback i)) as (Hv & H1 & H2 & H3).
  set (v := emule_misc_options2 _ _) in *. clearbody v.
  assert (Hstep : ∀ name value r p, named (mkHelloTag (Some name) TAGTYPE_UINT32 value r) CT_EMULE_VERSION = false →
    named (mkHelloTag (Some name) TAGTYPE_UINT32 value r) CT_EMULE_MISCOPTIONS1 = false →
    named (mkHelloTag (Some name) TAGTYPE_UINT32 value r) CT_EMULE_MISCOPTIONS2 = false →
    apply_hello_tag p (mkHelloTag (Some name) TAGTYPE_UINT32 value r) = p).
  { intros name value r [] E1 E2 E3. unfold apply_hello_tag. rewrite E1, E2, E3, orb_false_r. done. }
  rewrite (Hstep CT_VERSION), (Hstep CT_EMULE_UDPPORTS) by done.
  assert (E2 : ∀ r, (if named (mkHelloTag (Some CT_EMULE_MISCOPTIONS2) TAGTYPE_UINT32 (to_le_bytes 4 v) r) CT_EMULE_MISCOPTIONS2
    then decode_hello_tag_u32 (mkHelloTag (Some CT_EMULE_MISCOPTIONS2) TAGTYPE_UINT32 (to_le_bytes 4 v) r) else None) = Some v).
  { intros r. change (named _ _) with true. cbv iota. by apply tag_u32_value. }
  assert (E1 : ∀ r, apply_hello_tag (mkHelloProfile id false false false false false 0 false false false)
    (mkHelloTag (Some CT_EMULE_MISCOPTIONS1) TAGTYPE_UINT32 (to_le_bytes 4 emule_misc_options1) r) =
    mkHelloProfile id false true true true false 4 true false false) by reflexivity.
  change (apply_hello_tag (mkHelloProfile id false false false false false 0 false false false) (mkHelloTag (Some CT_NAME) _ _ _))
    with (mkHelloProfile id false false false false false 0 false false false).
  rewrite E1. unfold apply_hello_tag at 2. rewrite E2, H1, H2, H3. reflexivity.
Qed.

(** A hello tells who sends it and what it supports: the request and the answer of
    any identity are encoded, and decode to the user hash, client id and port of the
    sender with the profile of the agent; the information packet decodes to the
    agent's; and a hello is answered with one hello, not preceded by a request for
    information. *)
Lemma hello_roundtrip i j : identity_ok i → identity_ok j →
  let profile := mkHelloProfile (seen_identity i) true true true true true 4 true true true in
  (∃ payload, encode_hello_request i = Ok (frame (mkTcpPacket OP_EDONKEYPROT OP_HELLO payload)) ∧
     decode_hello_profile payload = Ok profile ∧
     ∃ answer, encode_hello_answer j = Ok answer ∧ build_hello_responses payload j = Ok [answer]) ∧
  (∃ payload, encode_hello_answer i = Ok (frame (mkTcpPacket OP_EDONKEYPROT OP_HELLOANSWER payload)) ∧
     decode_hello_answer_profile payload = Ok profile) ∧
  (∃ payload, encode_emule_info_answer (hi_udp_port i) = Ok (frame (mkTcpPacket OP_EMULEPROT OP_EMULEINFOANSWER payload)) ∧
     decode_emule_info_profile payload = Ok (mkInfoProfile 1 4 (hi_udp_port i) 3 true 2 true true false)).
Proof.
  intros Hi Hj profile.
  assert (Hpay : ∀ i, identity_ok i → ∃ payload, encode_hello_type_payload i append_recent_emule_hello_tags = Ok payload ∧
    zlen payload < 200 ∧ 26 ≤ zlen payload ∧ decode_hello_profile_from_type_payload payload =
      Ok (mkHelloProfile (seen_identity i) true true true true true 4 true true true)).
  { clear. intros i ([_ Hh] & Hc & Ht & Hu & Hs & Hp & Ho). unfold encode_hello_type_payload, append_recent_emule_hello_tags.
    rewrite push_nick. cbn [mbind res_bind]. fold (hello_tags i). eexists. split; [done|].
    apply is_u32_spec in Hc, Hs. apply is_u16_spec in Ht, Hu, Hp.
    set (tail := to_le_bytes 4 (hi_server_ip i) ++ to_le_bytes 2 (hi_server_port i)).
    assert (Htags : zlen (hello_tags i) = 49) by reflexivity.
    rewrite <- (app_assoc (to_le_bytes 4 6) (hello_tags i) tail).
    set (payload := hi_user_hash i ++ to_le_bytes 4 (hi_client_id i) ++ to_le_bytes 2 (hi_tcp_port i) ++ to_le_bytes 4 6 ++ hello_tags i ++ tail).
    assert (Hl : zlen payload = 81) by (unfold payload, tail; rewrite !zlen_app, !zlen_le, Hh, Htags; done).
    split; [lia|]. split; [lia|]. unfold decode_hello_profile_from_type_payload. rewrite (proj2 (Z.ltb_ge _ _)) by lia. unfold payload.
    rewrite range_front by done. cbn [mbind res_bind]. rewrite (le_mid (hi_user_hash i) 4 (hi_client_id i) _ 16) by (done || lia). cbn [mbind res_bind].
    rewrite (app_assoc (hi_user_hash i)), (le_mid (hi_user_hash i ++ to_le_bytes 4 (hi_client_id i)) 2 (hi_tcp_port i) _ 20) by (rewrite ?zlen_app, ?zlen_le; done || lia). cbn [mbind res_bind].
    rewrite (app_assoc _ (to_le_bytes 2 _)), tail_mid by (rewrite !zlen_app, !zlen_le; lia). cbn [mbind res_bind].
    rewrite le_front by done. cbn [mbind res_bind]. rewrite tail_mid by done. cbn [mbind res_bind].
    apply hello_tags_loop. rewrite length_app. unfold zlen in Htags. lia. }
  destruct (Hpay i Hi) as (pi & Ei & Hli & _ & Di). destruct (Hpay j Hj) as (pj & Ej & Hlj & _ & _).
  pose proof (zlen_nonneg pi). pose proof (zlen_nonneg pj). split; [|split].
  - exists ([16] ++ pi). unfold encode_hello_request, append_emule_hello_request_tags. rewrite Ei. cbn [mbind res_bind].
    rewrite encode_packet_frame by (rewrite zlen_app; change (zlen [16]) with 1; unfold U32_MAX; lia). split; [done|]. split; [exact Di|].
    unfold build_hello_responses, is_mule_hello, is_mule_hello_type_payload, encode_hello_answer, append_emule_hello_answer_tags.
    rewrite Ej. cbn [mbind res_bind]. rewrite encode_packet_frame by (unfold U32_MAX; lia). eexists. split; [done|].
    rewrite (proj2 (Z.ltb_ge _ _)). 2:{ rewrite zlen_app. change (zlen [16]) with 1. destruct (Hpay i Hi) as (p' & E' & _ & Hmin & _). rewrite Ei in E'. injection E' as <-. lia. }
    rewrite tail_mid by done. cbn [mbind res_bind]. by rewrite Di.
  - exists pi. unfold encode_hello_answer, append_emule_hello_answer_tags. rewrite Ei. cbn [mbind res_bind].
    rewrite encode_packet_frame by (unfold U32_MAX; lia). done.
  - exists (encode_emule_info_payload (hi_udp_port i)). unfold encode_emule_info_answer. rewrite encode_packet_frame by done. split; [done|].
    destruct Hi as (_ & _ & _ & Hu & _). apply is_u16_spec in Hu. unfold decode_emule_info_profile, encode_emule_info_payload. cbn [app].
    rewrite (proj2 (Z.ltb_ge _ _)) by done. set (tags := push_ed2k_u32_tag ET_COMPRESSION 1 ++ _).
    change (EMULE_VERSION_SHORT :: EMULE_PROTOCOL_VERSION :: to_le_bytes 4 7 ++ tags) with ([EMULE_VERSION_SHORT; EMULE_PROTOCOL_VERSION] ++ to_le_bytes 4 7 ++ tags).
    rewrite tail_mid by done. cbn [mbind res_bind]. change (byte _ 1) with (Ok (E:=PeerError) EMULE_PROTOCOL_VERSION). cbn [mbind res_bind negb]. 
    rewrite le_front by done. cbn [mbind res_bind]. rewrite tail_mid by done. cbn [mbind res_bind].
    change (S (length tags)) with 57%nat. unfold tags. rewrite <- (app_nil_r (push_ed2k_u32_tag ET_FEATURES _)).
    do 7 (erewrite tags_step; [|done|apply decode_u32_tag]; cbn [ht_remaining]). rewrite tags_done. cbn [mbind res_bind].
    rewrite !info_tag_value by (done || lia). cbn. rewrite (Z.mod_small (hi_udp_port i)) by lia. reflexivity.
Qed.

Definition sample_identity : Ed2kHelloIdentity := mkHelloIdentity (replicate 16 7) 1234 4662 4672 5 4661 3 true.
Lemma sample_identity_ok : identity_ok sample_identity.
Proof. repeat split. Qed.
Lemma hello_roundtrip_witness : ∃ payload,
  encode_hello_answer sample_identity = Ok (frame (mkTcpPacket OP_EDONKEYPROT OP_HELLOANSWER payload)) ∧
  decode_hello_answer_profile payload =
    Ok (mkHelloProfile (mkDecodedIdentity (replicate 16 7) 1234 4662) true true true true true 4 true true true).
Proof. exact (proj1 (proj2 (hello_roundtrip sample_identity sample_identity sample_identity_ok sample_identity_ok))). Defined.
