(* ===== verification/AgentPublish.v ===== *)
(** * Publishes of the agent

    Models the agent's side of publishing, [overlord-agent-emule/src/agent/publish.rs],
    [publish_runtime.rs] and [keyword.rs]: the tags of publishes, the identity they
    carry, the built-in seeds and their batches, the batches of popular files and the
    counters of their outcomes. The publishes themselves are those of [DhtPublish]: a
    batch is a function of their results. MD4, SHA-1, [str::trim], [to_lowercase] and
    [is_alphanumeric] are parameters. The counters wrap around at their widths, as in a
    release build. *)

From S2P Require Import Prelude Net NodeId Text Utf8 Wire Tag PacketTypes Packet.
From S2P Require Import Contact Bin Zone Table SearchExpr KadStore Hashset Transfer PeerTransport PeerParts Hello Traversal NodesDat DhtSearch DhtPublish.

Definition EMULE_LARGE_FILE_SIZE_THRESHOLD : Z := U32_MAX.

(** ** Identity *)

Definition emule_kad_chunk_order (bytes : list Z) : list Z :=
  flat_map (λ i, [byte_at bytes (4 * i + 3); byte_at bytes (4 * i + 2); byte_at bytes (4 * i + 1); byte_at bytes (4 * i)]) (seq 0 4).
Definition source_publish_client_hash (ed2k_user_hash : list Z) : NodeId := emule_kad_chunk_order ed2k_user_hash.
Definition normalize_ed2k_user_hash_markers (user_hash : list Z) : list Z := <[14%nat := 0x6F]> (<[5%nat := 0x0E]> user_hash).
Definition ed2k_user_hash_is_bad (user_hash : list Z) : bool :=
  let lo := from_le_bytes (take 8 user_hash) in
  let hi := from_le_bytes (drop 8 user_hash) in
  (Z.land lo 0xffff00ffffffffff =? 0) && (Z.land hi 0xff00ffffffffffff =? 0).
(** [create_ed2k_user_hash]: the first of the drawn hashes that is not bad. *)
Definition create_ed2k_user_hash (draws : list (list Z)) : option (list Z) :=
  List.find (λ h, negb (ed2k_user_hash_is_bad h)) (normalize_ed2k_user_hash_markers <$> draws).
(** [load_or_create_ed2k_user_hash], on the content of the file: the hash, and what is written. *)
Definition load_or_create_ed2k_user_hash (file : option (list Z)) (draws : list (list Z)) : option (list Z * option (list Z)) :=
  let created := (λ h, (h, Some h)) <$> create_ed2k_user_hash draws in
  match file with
  | Some bytes =>
      if (length bytes =? 16)%nat then
        let normalized := normalize_ed2k_user_hash_markers bytes in
        if negb (ed2k_user_hash_is_bad normalized) then
          Some (normalized, if bool_decide (normalized = bytes) then None else Some normalized)
        else created
      else created
  | None => created
  end.

(** ** Tags *)

Record SourcePublishSettings : Type := mkSettings { sp_tcp_port : Z; sp_obfuscation_enabled : bool }.
Definition emule_high_id_source_type (file_size : Z) : Z := if EMULE_LARGE_FILE_SIZE_THRESHOLD <? file_size then 4 else 1.
Definition emule_connect_options (obfuscation_enabled : bool) : Z :=
  if obfuscation_enabled then Z.lor EMULE_CRYPT_SUPPORTS EMULE_CRYPT_REQUESTS else 0.
Definition emule_source_encryption_options : bool → Z := emule_connect_options.
Definition build_source_publish_tags (bind_addr : SocketAddr) (settings : SourcePublishSettings) (file_size : Z) : list Tag :=
  [new_short SOURCETYPE (VUInt (emule_high_id_source_type file_size)); new_short SOURCEPORT (VUInt (sp_tcp_port settings))] ++
  match sa_ip bind_addr with V4 ip => [new_short SOURCEIP (VU32 (ip_val ip))] | V6 _ => [] end ++
  [new_short SOURCEUPORT (VU16 (sa_port bind_addr)); tag_filesize file_size;
   new_short ENCRYPTION (VU8 (emule_source_encryption_options (sp_obfuscation_enabled settings)))].
Definition build_notes_publish_tags (canonical_name : list Z) (file_size : Z) : list Tag :=
  [tag_filename canonical_name; tag_filesize file_size; new_short FILERATING (VU8 4);
   new_short DESCRIPTION (VString (lit "overlord validation note for " ++ canonical_name))].
Definition is_one_of (extension : list Z) (l : list string) : bool := existsb (λ e, bool_decide (extension = lit e)) l.
(** [rsplit('.').next()] is the part after the last dot, or the whole name. *)
Definition ed2k_file_type_search_term (file_name : list Z) : option (list Z) :=
  let extension := default [] (last (split_on 46 file_name [])) in
  if bool_decide (extension = file_name) then None
  else
    let e := to_ascii_lowercase extension in
    if is_one_of e ["mp3"; "aac"; "ac3"; "flac"; "m4a"; "ogg"; "wav"; "wma"] then Some (lit "Audio")
    else if is_one_of e ["avi"; "mkv"; "mov"; "mp4"; "mpeg"; "mpg"; "wmv"] then Some (lit "Video")
    else if is_one_of e ["bmp"; "gif"; "jpeg"; "jpg"; "png"; "tif"; "tiff"; "webp"] then Some (lit "Image")
    else if is_one_of e ["chm"; "csv"; "doc"; "docx"; "epub"; "htm"; "html"; "odt"; "pdf"; "pps"; "ppt"; "pptx"; "rtf"; "txt"; "xls"; "xlsx"] then Some (lit "Doc")
    else if is_one_of e ["7z"; "ace"; "apk"; "bat"; "bin"; "bz2"; "cab"; "cmd"; "com"; "dll"; "dmg"; "exe"; "gz"; "img"; "iso"; "jar"; "msi"; "pkg"; "rar";
      "sh"; "tar"; "tgz"; "xz"; "zip"] then Some (lit "Pro")
    else if is_one_of e ["emulecollection"] then Some (lit "EmuleCollection")
    else None.
(** The tags of the keyword publish of a popular file. *)
Definition keyword_publish_tags (canonical_name : list Z) (size source_count : Z) : list Tag :=
  [tag_filename canonical_name; tag_filesize size; tag_sources source_count] ++ option_list (tag_filetype <$> ed2k_file_type_search_term canonical_name).

(** ** Keywords *)

Definition is_hexdigit (b : Z) : bool := ((48 <=? b) && (b <=? 57)) || ((65 <=? b) && (b <=? 70)) || ((97 <=? b) && (b <=? 102)).
Definition ED2K_HASH_ONLY_QUERY_PREFIX : list Z := lit "ed2k::".
Definition strip_prefix (prefix s : list Z) : option (list Z) := if bool_decide (take (length prefix) s = prefix) then Some (drop (length prefix) s) else None.
Section keyword.
Context (md4 : list Z → list Z) (trim to_lowercase : list Z → list Z) (is_alphanumeric : list Z → bool).
Definition exact_ed2k_hash_query_token (query : list Z) : option (list Z) :=
  let trimmed := trim query in
  let candidate := trim (default trimmed (strip_prefix ED2K_HASH_ONLY_QUERY_PREFIX trimmed)) in
  if (zlen candidate =? 32) && forallb is_hexdigit candidate then Some (to_ascii_lowercase candidate) else None.
(** [split(|char| !char.is_alphanumeric())] *)
Fixpoint split_words (l : list (list Z)) (word : list Z) : list (list Z) :=
  match l with
  | [] => [word]
  | c :: l' => if is_alphanumeric c then split_words l' (word ++ c) else word :: split_words l' []
  end.
Definition significant_keyword_words (query : list Z) : list (list Z) :=
  let words := List.filter (λ word, 3 <=? zlen word)
    (map to_lowercase (List.filter (λ word, negb (bool_decide (word = []))) (split_words (chars query) []))) in
  match words with [] => [to_lowercase query] | _ => words end.
Definition keyword_target (query : list Z) : NodeId :=
  let first_word :=
    match exact_ed2k_hash_query_token query with
    | Some token => token
    | None => default (to_lowercase query) (head (significant_keyword_words query))
    end in
  id_from_be_bytes (md4 first_word).
End keyword.

(** ** Built-in seeds *)

Record SyntheticPopularSeed : Type := mkSeed { sd_title : list Z; sd_size : Z; sd_source_count : Z }.
Definition SYNTHETIC_POPULAR_SEEDS : list SyntheticPopularSeed :=
  [ mkSeed (lit "ubuntu linux 24.04 desktop amd64.iso") 734003200 31;
    mkSeed (lit "mario paint quorlith orchestra live at the moon.avi") 1417965568 24;
    mkSeed (lit "10 hours of nyan cat.mp4") 92381184 19;
    mkSeed (lit "laser dolphin documentary 1997.mkv") 2486124544 16;
    mkSeed (lit "cat-powered data center walkthrough.iso") 4597211136 11;
    mkSeed (lit "unofficial windows 98 vaporwave patch.zip") 803471360 27;
    mkSeed (lit "beep test but every beep is a fax machine.flac") 558366720 14;
    mkSeed (lit "office 2010 professional plus x86.iso") 128661504 22;
    mkSeed (lit "retro hamster workstation benchmark.mov") 1934155776 17;
    mkSeed (lit "flying toaster championship finals.mp4") 1215102976 29;
    mkSeed (lit "synthwave aquarium screensaver collection.rar") 677478400 13;
    mkSeed (lit "ubuntu linux server 24.04 live amd64.iso") 18456321 18;
    mkSeed (lit "very long train horn ambience.wav") 2812747776 12;
    mkSeed (lit "adobe photoshop cs6 portable.rar") 943128576 15;
    mkSeed (lit "windows 7 ultimate sp1 x64 dvd.iso") 421388288 9;
    mkSeed (lit "museum of broken gamepads.pdf") 67210240 21;
    mkSeed (lit "game of thrones season 1 complete 720p.mkv") 44992610 10;
    mkSeed (lit "the office us season 2 dvdrip xvid.avi") 134742016 8;
    mkSeed (lit "midnight subway cat rave.mkv") 3288334336 26;
    mkSeed (lit "top 100 dance hits 2009.mp3") 77414400 23;
    mkSeed (lit "vhs rip of the internet weather channel.ts") 5188911104 14;
    mkSeed (lit "ubuntu linux 22.04 desktop amd64.iso") 1104199680 28;
    mkSeed (lit "the lord of the rings extended trilogy 1080p.mkv") 612892672 20;
    mkSeed (lit "microsoft office 2007 enterprise.iso") 695205888 17;
    mkSeed (lit "grand theft auto vice city full rip.iso") 1544269824 12;
    mkSeed (lit "breaking bad season 3 complete 720p.mkv") 88199168 25;
    mkSeed (lit "ubuntu linux 20.04.6 live server amd64.iso") 3964108800 16;
    mkSeed (lit "top gear complete specials collection x264.mp4") 233308160 13;
    mkSeed (lit "the beatles abbey road remastered.flac") 1572864 7;
    mkSeed (lit "harry potter complete 1080p bluray x264.mkv") 376877056 11;
    mkSeed (lit "visual studio 2010 professional.iso") 190513152 9;
    mkSeed (lit "ubuntu linux 18.04 desktop amd64.iso") 1672331264 18;
    mkSeed (lit "pink floyd the wall remastered.flac") 49283072 15;
    mkSeed (lit "friends complete season 5 dvdrip xvid.avi") 2965983232 19;
    mkSeed (lit "ubuntu linux handbook 2026.pdf") 821051392 24;
    mkSeed (lit "windows xp professional sp3 corporate.iso") 1281286144 17;
    mkSeed (lit "portable rave lighthouse screensaver.scr") 28311552 12;
    mkSeed (lit "greatest floppy disk solos anthology.flac") 607518720 20;
    mkSeed (lit "galactic sandwich emulator setup.exe") 509607936 14;
    mkSeed (lit "vintage webcam ghost sightings collection.mkv") 2118541312 22 ].
Section seeds.
Context (md4 : list Z → list Z) (hex_encode : list Z → list Z).
Definition synthetic_file_hash (index : Z) (seed : SyntheticPopularSeed) : Ed2kHash :=
  md4 (lit "overlord-synthetic-kad-seed|" ++ decimal index ++ lit "|" ++ sd_title seed ++ lit "|" ++ decimal (sd_size seed) ++ lit "|" ++ decimal (sd_source_count seed)).
Definition synthetic_popular_hash (index : Z) (seed : SyntheticPopularSeed) : PopularHash :=
  mkPopular (hex_encode (synthetic_file_hash index seed)) (sd_title seed) (sd_size seed) (sd_source_count seed).
Definition synthetic_popular_hashes : list PopularHash := imap (λ index seed, synthetic_popular_hash (Z.of_nat index) seed) SYNTHETIC_POPULAR_SEEDS.
Definition synthetic_publish_queue_depth (cursor : Z) : Z :=
  let total := zlen SYNTHETIC_POPULAR_SEEDS in
  if total =? 0 then 0
  else
    let normalized := cursor mod total in
    if normalized =? 0 then total else total - normalized.
Definition seed_at (index : Z) : option PopularHash :=
  synthetic_popular_hash index <$> SYNTHETIC_POPULAR_SEEDS !! Z.to_nat index.
(** The batch and the new cursor; an index out of range would panic. *)
Definition next_synthetic_publish_batch (cursor batch_items : Z) : res unit (list PopularHash * Z) :=
  match SYNTHETIC_POPULAR_SEEDS with
  | [] => Ok ([], cursor)
  | _ =>
      let total := zlen SYNTHETIC_POPULAR_SEEDS in
      let start := cursor mod total in
      let batch_len := Z.min (Z.max batch_items 1) total in
      match mapM (λ offset, seed_at ((start + offset) mod total)) (seqZ 0 batch_len) with
      | Some batch => Ok (batch, (start + batch_len) mod total)
      | None => Panic
      end
  end.
Definition synthetic_publish_aich_hash (sha1 : list Z → list Z) (file_hash : Ed2kHash) (file_name : list Z) (file_size : Z) : list Z :=
  sha1 (file_hash ++ to_le_bytes 8 file_size ++ file_name).
(** [refresh_ed2k_shared_catalog]: the hints of the catalog are replaced. *)
Definition refresh_ed2k_shared_catalog (hashes : list PopularHash) (catalog : list Ed2kSharedEntry) : res TransferError (list Ed2kSharedEntry) :=
  let kept := List.filter (λ entry, negb (se_compatibility_hint entry)) catalog in
  let replacements := match hashes with [] => synthetic_popular_hashes | _ => hashes end in
  hints ← hint_entries replacements;
  Ok (kept ++ hints).
End seeds.

(** ** Counters of publishes *)

Inductive PublishSeedSource : Type := Coordinator | SyntheticFallback | ManualApi.
Record PublishBatchSummary : Type := mkSummary {
  bs_seed_source : PublishSeedSource;
  bs_published_items : Z;
  bs_closest_contacts_considered : Z;
  bs_attempted_contacts : Z;
  bs_acked_contacts : Z;
  bs_failed_contacts : Z;
  bs_timed_out_contacts : Z;
  bs_completed_at : Z;
  bs_last_success_at : option Z;
}.
Record PublishCounters : Type := mkCounters {
  pc_batches : Z;
  pc_published_items : Z;
  pc_closest_contacts_considered : Z;
  pc_attempted_contacts : Z;
  pc_acked_contacts : Z;
  pc_failed_contacts : Z;
  pc_timed_out_contacts : Z;
  pc_last_batch_at : option Z;
  pc_last_success_at : option Z;
}.
Definition wrap32 (n : Z) : Z := n mod 2 ^ 32.
Definition wrap64 (n : Z) : Z := n mod 2 ^ 64.
Definition counters_default : PublishCounters := mkCounters 0 0 0 0 0 0 0 None None.
(** The fields of [KadPublishObservability] that publishing changes. *)
Record KadPublishObservability : Type := mkPublishObs {
  po_last_seed_source : option PublishSeedSource;
  po_last_seed_at : option Z;
  po_latest_keyword_batch : option PublishBatchSummary;
  po_latest_source_batch : option PublishBatchSummary;
  po_latest_notes_batch : option PublishBatchSummary;
  po_keyword_counters : PublishCounters;
  po_source_counters : PublishCounters;
  po_notes_counters : PublishCounters;
  po_synthetic_drip_queue_depth : option Z;
}.
Definition build_publish_batch_summary (seed_source : PublishSeedSource) (published_items : Z) (stats : PublishAttemptStats) (completed_at : Z) : PublishBatchSummary :=
  mkSummary seed_source (published_items mod 2 ^ 32) (closest_contacts_considered stats) (attempted_contacts stats) (acked_contacts stats) (failed_contacts stats)
    (timed_out_contacts stats) completed_at (if 0 <? acked_contacts stats then Some completed_at else None).
Definition apply_publish_summary (counters : PublishCounters) (summary : PublishBatchSummary) : PublishCounters :=
  mkCounters (wrap64 (pc_batches counters + 1)) (wrap64 (pc_published_items counters + bs_published_items summary))
    (wrap64 (pc_closest_contacts_considered counters + bs_closest_contacts_considered summary))
    (wrap64 (pc_attempted_contacts counters + bs_attempted_contacts summary)) (wrap64 (pc_acked_contacts counters + bs_acked_contacts summary))
    (wrap64 (pc_failed_contacts counters + bs_failed_contacts summary)) (wrap64 (pc_timed_out_contacts counters + bs_timed_out_contacts summary))
    (Some (bs_completed_at summary))
    (match bs_last_success_at summary with Some t => Some t | None => pc_last_success_at counters end).
Definition publish_summary_has_progress (summary : PublishBatchSummary) : bool :=
  (0 <? bs_published_items summary) || (0 <? bs_closest_contacts_considered summary) || (0 <? bs_attempted_contacts summary) ||
  (0 <? bs_acked_contacts summary) || (0 <? bs_failed_contacts summary) || (0 <? bs_timed_out_contacts summary).
Definition effective_publish_counters (counters : PublishCounters) (latest_batch : option PublishBatchSummary) (last_seed_at : option Z) : PublishCounters :=
  match latest_batch with
  | None => counters
  | Some summary =>
      let batch_committed := bool_decide (pc_last_batch_at counters = Some (bs_completed_at summary)) in
      let batch_in_flight :=
        match last_seed_at, pc_last_batch_at counters with
        | Some observed_at, Some committed_at => committed_at <? observed_at
        | Some _, None => true
        | None, _ => false
        end in
      if batch_in_flight && negb batch_committed && publish_summary_has_progress summary then apply_publish_summary counters summary else counters
  end.
Definition record_publish_summaries (seed_source : PublishSeedSource) (published_items : Z) (keyword_stats source_stats : PublishAttemptStats)
    (notes_stats : option PublishAttemptStats) (completed_at : Z) (o : KadPublishObservability) : KadPublishObservability :=
  let keyword_summary := build_publish_batch_summary seed_source published_items keyword_stats completed_at in
  let source_summary := build_publish_batch_summary seed_source published_items source_stats completed_at in
  let notes_summary := (λ stats, build_publish_batch_summary seed_source published_items stats completed_at) <$> notes_stats in
  mkPublishObs (Some seed_source) (Some completed_at) (Some keyword_summary) (Some source_summary) notes_summary
    (apply_publish_summary (po_keyword_counters o) keyword_summary) (apply_publish_summary (po_source_counters o) source_summary)
    (match notes_summary with Some summary => apply_publish_summary (po_notes_counters o) summary | None => po_notes_counters o end)
    (po_synthetic_drip_queue_depth o).
Definition update_publish_progress (seed_source : PublishSeedSource) (processed_items : Z) (keyword_stats source_stats : PublishAttemptStats)
    (notes_stats : option PublishAttemptStats) (observed_at : Z) (o : KadPublishObservability) : KadPublishObservability :=
  let summary stats := build_publish_batch_summary seed_source processed_items stats observed_at in
  mkPublishObs (Some seed_source) (Some observed_at) (Some (summary keyword_stats)) (Some (summary source_stats))
    (match notes_stats with Some stats => Some (summary stats) | None => po_latest_notes_batch o end)
    (po_keyword_counters o) (po_source_counters o) (po_notes_counters o) (po_synthetic_drip_queue_depth o).
Definition set_synthetic_publish_queue_depth (remaining_items : Z) (o : KadPublishObservability) : KadPublishObservability :=
  mkPublishObs (po_last_seed_source o) (po_last_seed_at o) (po_latest_keyword_batch o) (po_latest_source_batch o) (po_latest_notes_batch o)
    (po_keyword_counters o) (po_source_counters o) (po_notes_counters o) (Some (remaining_items mod 2 ^ 32)).

(** ** Batches *)

Inductive SeedError : Type := NotBootstrapped | InvalidHash (raw_hash : list Z).
(** The publishes that a batch asks of the node. *)
Inductive publish_call : Type :=
| CallKeyword (request : KeywordPublishRequest)
| CallSource (file_hash : Ed2kHash) (publisher_id : NodeId) (tags : list Tag) (fanout : Z)
| CallNotes (file_hash : Ed2kHash) (publisher_id : NodeId) (tags : list Tag) (fanout : Z).
(** The results of the publishes of one file, and the clock. *)
Record item_io : Type := mkItem {
  io_keyword : DhtError + PublishAttemptStats;
  io_source : DhtError + PublishAttemptStats;
  io_notes : DhtError + PublishAttemptStats;
  io_now_keyword : Z;
  io_now_source : Z;
  io_now_notes : Z;
  io_observed_at : Z;
}.
Record batch_state : Type := mkBatch {
  ba_store : KadLocalStore;
  ba_obs : KadPublishObservability;
  ba_keyword : PublishAttemptStats;
  ba_source : PublishAttemptStats;
  ba_notes : PublishAttemptStats;
  ba_calls : list publish_call;
}.
Definition add_stats (total : PublishAttemptStats) (result : DhtError + PublishAttemptStats) : PublishAttemptStats :=
  match result with
  | inl _ => total
  | inr s => mkStats (wrap32 (closest_contacts_considered total + closest_contacts_considered s)) (wrap32 (attempted_contacts total + attempted_contacts s))
               (wrap32 (acked_contacts total + acked_contacts s)) (wrap32 (timed_out_contacts total + timed_out_contacts s))
  end.
(** What a batch is run with. *)
Record batch_context : Type := mkContext {
  cx_seed_source : PublishSeedSource;
  cx_bind_addr : SocketAddr;
  cx_own_id : NodeId;
  cx_source_publish_identity : NodeId;
  cx_settings : SourcePublishSettings;
  cx_notes_publish_enabled : bool;
  cx_work_class : Rpc.RpcWorkClass;
  cx_fanout : Z;
}.

Section batch.
Context (md4 sha1 : list Z → list Z) (trim to_lowercase : list Z → list Z) (is_alphanumeric : list Z → bool) (cx : batch_context).
Definition notes_stats (b : batch_state) : option PublishAttemptStats := if cx_notes_publish_enabled cx then Some (ba_notes b) else None.
(** The three parts of one round: the entry in the own cache, then the publish. *)
Definition seed_keyword (file_hash : Ed2kHash) (h : PopularHash) (io : item_io) (b : batch_state) : batch_state :=
  let target := keyword_target md4 trim to_lowercase is_alphanumeric (ph_canonical_name h) in
  let tags := keyword_publish_tags (ph_canonical_name h) (ph_size h) (ph_source_count h) in
  let store := fst (record_keyword_publish_batch (ba_store b) target [mkPublishEntry file_hash tags] (io_now_keyword io)) in
  let request := mkKeywordPublish target file_hash tags (Some (synthetic_publish_aich_hash sha1 file_hash (ph_canonical_name h) (ph_size h)))
    (cx_fanout cx) (cx_work_class cx) in
  mkBatch store (ba_obs b) (add_stats (ba_keyword b) (io_keyword io)) (ba_source b) (ba_notes b) (ba_calls b ++ [CallKeyword request]).
Definition seed_source_publish (file_hash : Ed2kHash) (h : PopularHash) (io : item_io) (b : batch_state) : batch_state :=
  let tags := build_source_publish_tags (cx_bind_addr cx) (cx_settings cx) (ph_size h) in
  let store :=
    match sa_ip (cx_bind_addr cx) with
    | V4 ip => fst (record_source_publish (ba_store b) (id_from_be_bytes file_hash) (cx_source_publish_identity cx) ip (sa_port (cx_bind_addr cx)) tags (io_now_source io))
    | V6 _ => ba_store b
    end in
  mkBatch store (ba_obs b) (ba_keyword b) (add_stats (ba_source b) (io_source io)) (ba_notes b)
    (ba_calls b ++ [CallSource file_hash (cx_source_publish_identity cx) tags (cx_fanout cx)]).
Definition seed_notes (file_hash : Ed2kHash) (h : PopularHash) (io : item_io) (b : batch_state) : batch_state :=
  if cx_notes_publish_enabled cx then
    let tags := build_notes_publish_tags (ph_canonical_name h) (ph_size h) in
    let store :=
      match sa_ip (cx_bind_addr cx) with
      | V4 ip => fst (record_notes_publish (ba_store b) (id_from_be_bytes file_hash) (cx_own_id cx) ip tags (io_now_notes io))
      | V6 _ => ba_store b
      end in
    mkBatch store (ba_obs b) (ba_keyword b) (ba_source b) (add_stats (ba_notes b) (io_notes io)) (ba_calls b ++ [CallNotes file_hash (cx_own_id cx) tags (cx_fanout cx)])
  else b.
Definition set_obs (f : KadPublishObservability → KadPublishObservability) (b : batch_state) : batch_state :=
  mkBatch (ba_store b) (f (ba_obs b)) (ba_keyword b) (ba_source b) (ba_notes b) (ba_calls b).
Definition show_progress (items observed_at : Z) (b : batch_state) : batch_state :=
  set_obs (update_publish_progress (cx_seed_source cx) items (ba_keyword b) (ba_source b) (notes_stats b) observed_at) b.
Definition seed_item (item_no : Z) (h : PopularHash) (io : item_io) (b : batch_state) : res SeedError batch_state :=
  file_hash ← map_err (λ _, InvalidHash (ph_hash h)) (hash_from_str (ph_hash h));
  let b := seed_notes file_hash h io (seed_source_publish file_hash h io (seed_keyword file_hash h io b)) in
  Ok (show_progress item_no (io_observed_at io) b).
(** The loop; an invalid hash leaves it, with the state of that time. *)
Fixpoint seed_items (item_no : Z) (l : list (PopularHash * item_io)) (b : batch_state) : batch_state * res SeedError unit :=
  match l with
  | [] => (b, Ok tt)
  | (h, io) :: l' =>
      match seed_item item_no h io b with
      | Ok b' => seed_items (item_no + 1) l' b'
      | Err e => (b, Err e)
      | Panic => (b, Panic)
      end
  end.
Definition seed_popular_impl (bootstrapped : bool) (l : list (PopularHash * item_io)) (started_at completed_at : Z) (store : KadLocalStore)
    (obs : KadPublishObservability) : batch_state * res SeedError unit :=
  let b := mkBatch store obs stats_default stats_default stats_default [] in
  if negb bootstrapped then (b, Err NotBootstrapped)
  else
    match seed_items 1 l (show_progress 0 started_at b) with
    | (b, Ok _) =>
        (set_obs (record_publish_summaries (cx_seed_source cx) (zlen l) (ba_keyword b) (ba_source b) (notes_stats b) completed_at) b, Ok tt)
    | (b, r) => (b, r)
    end.
End batch.

(** ** What is published is found *)

(** The widths that the wire picks for an integer. *)
Lemma normalize_uint v : 0 ≤ v < 2 ^ 64 →
  (normalize_value (VUInt v) = VU8 v ∧ v ≤ 255) ∨ (normalize_value (VUInt v) = VU16 v ∧ v < 2 ^ 16) ∨
  (normalize_value (VUInt v) = VU32 v ∧ v < 2 ^ 32) ∨ (normalize_value (VUInt v) = VU64 v).
Proof.
  intros H. unfold normalize_value, U16_MAX, U32_MAX in *.
  destruct (Z.leb_spec v 255); [left; split; [done|lia]|].
  destruct (Z.leb_spec v 65535); [right; left; split; [done|lia]|].
  destruct (Z.leb_spec v 4294967295); [do 2 right; left; split; [done|lia]|]. by do 3 right.
Qed.
Lemma normalize_port v : 0 ≤ v < 2 ^ 16 → normalize_value (VUInt v) = VU8 v ∨ normalize_value (VUInt v) = VU16 v.
Proof.
  intros H. unfold normalize_value, U16_MAX. destruct (Z.leb_spec v 255); [by left|].
  destruct (Z.leb_spec v 65535); [by right|lia].
Qed.

(** Tags as the wire delivers them. *)
Definition wired (tags : list Tag) : list Tag := map normalize_tag tags.
Lemma has_name_short n m v : has_name n (mkTag (Short m) v) = (m =? n).
Proof.
  unfold has_name. cbn. destruct (Z.eqb_spec m n) as [->|H]; [by apply bool_decide_eq_true_2|].
  apply bool_decide_eq_false_2. congruence.
Qed.
Local Arguments ipv4_from_u32 : simpl never.
Local Arguments id_to_be_bytes : simpl never.
Local Arguments Z.lor : simpl never.
Local Arguments Z.shiftl : simpl never.
(** Evaluates the readers of tags on lists of tags with known names. *)
Ltac read_tags := unfold tag_filename, tag_filesize, tag_filetype, tag_sources, tag_kad_aich_hash_pub, new_short; repeat (first [rewrite has_name_short | progress cbn]).

Lemma ipv4_from_val ip : wf_ip ip = true → ipv4_from_u32 (ip_val ip) = ip.
Proof.
  intros H. apply ip_val_inj; [apply wf_ipv4_from_u32|done|]. apply ip_val_from_u32, is_u32_spec.
  pose proof (ip_val_bound ip H). lia.
Qed.
Lemma as_u_small w v : 0 ≤ v < 2 ^ w → as_u w v = v.
Proof. apply Z.mod_small. Qed.

Lemma source_read bind ip settings size e file :
  sa_ip bind = V4 ip → wf_ip ip = true → 0 < sp_tcp_port settings < 2 ^ 16 → 0 < sa_port bind < 2 ^ 16 →
  src_tags e = stock_stored_source_publish_tags (wired (build_source_publish_tags bind settings size)) →
  source_result_from_tags file (source_entry_id (src_publisher_id e)) (wired (source_result_tags e)) =
  Some (mkSource file (id_to_be_bytes (src_publisher_id e)) ip (sp_tcp_port settings) (sa_port bind)
          (Some (emule_source_encryption_options (sp_obfuscation_enabled settings)))).
Proof.
  intros Hip Hwf Htcp Hudp Ht. unfold source_result_tags. generalize (stock_first_keyword_source_file_size (src_tags e)). intros o.
  rewrite Ht. unfold build_source_publish_tags. rewrite Hip.
  unfold wired, normalize_tag. cbn [map app new_short tag_name tag_value normalize_name tag_filesize].
  generalize (normalize_value (VUInt size)) (normalize_value (VUInt (emule_high_id_source_type size))). intros v1 v2.
  assert (Hz : (sa_port bind =? 0) = false) by lia. assert (Hz' : (sp_tcp_port settings =? 0) = false) by lia.
  pose proof (normalize_port (sp_tcp_port settings) ltac:(lia)) as Hp.
  unfold stock_stored_source_publish_tags, stock_stored_publish_tags, source_result_from_tags, source_entry_id.
  destruct o as [o|], Hp as [-> | ->]; repeat (first [rewrite Hz | progress read_tags]);
    by rewrite !as_u_small, Hz, Hz', ipv4_from_val by (done || lia).
Qed.

Lemma note_read trim name size e file :
  nt_tags e = stock_stored_publish_tags (wired (build_notes_publish_tags name size)) →
  note_result_from_tags trim file (id_to_be_bytes (nt_publisher_id e)) (wired (notes_result_tags e)) =
  Some (mkNote file (id_to_be_bytes (nt_publisher_id e)) (Some 4)
          (match trim (lit "overlord validation note for " ++ name) with [] => None | comment => Some comment end) (wired (notes_result_tags e))).
Proof.
  intros Ht. unfold notes_result_tags. generalize (stock_first_filename (nt_tags e)) (positive (stock_first_file_size (nt_tags e))).
  intros n s. rewrite Ht. unfold build_notes_publish_tags, note_result_from_tags. generalize (lit "overlord validation note for " ++ name). intros comment.
  unfold wired, normalize_tag. cbn [map app new_short tag_name tag_value normalize_name tag_filesize tag_filename].
  generalize (normalize_value (VUInt size)). intros v.
  unfold stock_stored_publish_tags. destruct n as [n|], s as [s|]; read_tags; rewrite ?as_u_small by lia; done.
Qed.

(** The tags of a keyword publish as a contact of version [version] is sent them. *)
Definition keyword_entry (h : PopularHash) (file_hash : Ed2kHash) (aich_hash : option (list Z)) (version : Z) : PublishEntry :=
  match build_keyword_publish_packet [] file_hash (keyword_publish_tags (ph_canonical_name h) (ph_size h) (ph_source_count h)) aich_hash version with
  | PPublishKeyReq req => mkPublishEntry file_hash (wired (flat_map pe_tags (pk_entries req)))
  | _ => mkPublishEntry file_hash []
  end.

Lemma keyword_entry_tags h file_hash aich_hash version :
  ∃ ft aich, pe_tags (keyword_entry h file_hash aich_hash version) =
    [tag_filename (ph_canonical_name h); new_short FILESIZE (normalize_value (VUInt (ph_size h)));
     new_short SOURCES (normalize_value (VUInt (ph_source_count h)))] ++ option_list (tag_filetype <$> ft) ++ option_list (tag_kad_aich_hash_pub <$> aich).
Proof.
  unfold keyword_entry, build_keyword_publish_packet, keyword_publish_tags.
  exists (ed2k_file_type_search_term (ph_canonical_name h)),
    (match aich_hash with Some a => if KAD_VERSION_AICH_KEYWORD_PUBLISH <=? version then Some a else None | None => None end).
  cbn [pe_tags pk_entries flat_map].
  destruct (ed2k_file_type_search_term _), aich_hash; try destruct (_ <=? version); reflexivity.
Qed.

Lemma normalized_count c : 0 ≤ c < 2 ^ 32 → cut_value 32 (normalize_value (normalize_value (VUInt c))) = Some c.
Proof.
  intros H. destruct (normalize_uint c) as [[-> ?]|[[-> ?]|[[-> ?]| Hv]]]; [lia|cbn; by rewrite as_u_small by lia..|].
  revert Hv. unfold normalize_value, U32_MAX. repeat case_match; try done. lia.
Qed.
Lemma entry_filename h file_hash aich_hash version :
  ph_canonical_name h ≠ [] → stock_first_filename (pe_tags (keyword_entry h file_hash aich_hash version)) = Some (ph_canonical_name h).
Proof.
  intros Hn. destruct (keyword_entry_tags h file_hash aich_hash version) as (ft & aich & ->).
  destruct (ph_canonical_name h); [done|]. unfold stock_first_filename. cbn [omap list_omap app]. unfold filename_of at 1. by read_tags.
Qed.
Lemma size_step_other b acc n v : n ≠ FILESIZE → n ≠ FILESIZE_HI → stock_size_step b acc (new_short n v) = acc.
Proof.
  intros H%Z.eqb_neq H'%Z.eqb_neq. destruct acc as [[size low] high].
  destruct v; cbn [stock_size_step new_short tag_name tag_value]; rewrite ?H, ?H'; done.
Qed.
Lemma entry_size h file_hash aich_hash version :
  0 ≤ ph_size h < 2 ^ 64 → stock_first_keyword_source_file_size (pe_tags (keyword_entry h file_hash aich_hash version)) = Some (ph_size h).
Proof.
  intros Hs. destruct (keyword_entry_tags h file_hash aich_hash version) as (ft & aich & ->).
  unfold stock_first_keyword_source_file_size, stock_first_file_size_impl. rewrite !foldl_app. cbn [foldl].
  unfold tag_filename. rewrite (size_step_other _ _ FILENAME), (size_step_other _ _ SOURCES) by done.
  assert (Hft : ∀ o acc, foldl (stock_size_step true) acc (option_list (tag_filetype <$> o)) = acc).
  { intros [t|] acc; [apply (size_step_other _ _ FILETYPE); done|done]. }
  assert (Ha : ∀ o acc, foldl (stock_size_step true) acc (option_list (tag_kad_aich_hash_pub <$> o)) = acc).
  { intros [t|] acc; [apply (size_step_other _ _ KADAICHHASHPUB); done|done]. }
  rewrite Hft, Ha. destruct (normalize_uint (ph_size h) Hs) as [[-> ?]|[[-> ?]|[[-> ?]| ->]]]; done.
Qed.

Lemma keyword_answer h file_hash aich_hash version e :
  ph_canonical_name h ≠ [] → 0 < ph_size h < 2 ^ 64 →
  kw_tags e = stock_stored_publish_tags (pe_tags (keyword_entry h file_hash aich_hash version)) →
  ∃ ft aich, keyword_result_tags e =
    [tag_filename (ph_canonical_name h); tag_filesize (ph_size h); new_short SOURCES (normalize_value (VUInt (ph_source_count h)))] ++
    option_list (tag_filetype <$> ft) ++ [keyword_publish_info_tag] ++ option_list (keyword_aich_result_tag <$> aich).
Proof.
  intros Hn Hs Ht. assert (Hstored : kw_tags e = pe_tags (keyword_entry h file_hash aich_hash version)).
  { rewrite Ht. destruct (keyword_entry_tags h file_hash aich_hash version) as (ft & aich & ->).
    destruct ft as [ft|], aich as [aich|]; unfold stock_stored_publish_tags; read_tags; done. }
  unfold keyword_result_tags. rewrite Hstored, entry_filename, entry_size by (done || lia). unfold positive. rewrite (proj2 (Z.ltb_lt 0 _)) by lia.
  destruct (keyword_entry_tags h file_hash aich_hash version) as (ft & aich & ->).
  exists ft, (aich ≫= λ a, stock_aich_publish_hash (tag_kad_aich_hash_pub a)).
  destruct ft as [ft|], aich as [aich|]; read_tags; done.
Qed.

Lemma keyword_read h file_hash aich_hash version e :
  ph_canonical_name h ≠ [] → 0 < ph_size h < 2 ^ 64 → 0 ≤ ph_source_count h < 2 ^ 32 →
  kw_tags e = stock_stored_publish_tags (pe_tags (keyword_entry h file_hash aich_hash version)) →
  search_result_from_tags file_hash (wired (keyword_result_tags e)) =
  mkSearchResult file_hash [ph_canonical_name h] (Some (ph_size h)) (Some (ph_source_count h)) (wired (keyword_result_tags e)).
Proof.
  intros Hn Hs Hc Ht. destruct (keyword_answer _ _ _ _ _ Hn Hs Ht) as (ft & aich & ->).
  pose proof (normalized_count (ph_source_count h) Hc) as Hw. revert Hw.
  generalize (normalize_value (VUInt (ph_source_count h))). intros w Hw.
  assert (Hrest : ∀ acc, foldl keyword_tag acc (wired (option_list (tag_filetype <$> ft) ++ [keyword_publish_info_tag] ++
    option_list (keyword_aich_result_tag <$> aich))) = acc).
  { intros [names size low high count]. unfold wired, normalize_tag, keyword_publish_info_tag, keyword_aich_result_tag.
    destruct ft, aich; read_tags; done. }
  unfold search_result_from_tags, wired in *. rewrite map_app, foldl_app, Hrest. generalize (map normalize_tag
    (option_list (tag_filetype <$> ft) ++ [keyword_publish_info_tag] ++ option_list (keyword_aich_result_tag <$> aich))). intros rest.
  pose proof (normalize_uint (ph_size h) ltac:(lia)) as Hsize. unfold normalize_tag.
  cbn [map new_short tag_name tag_value normalize_name tag_filename tag_filesize].
  destruct Hsize as [[-> ?]|[[-> ?]|[[-> ?]| ->]]]; read_tags; rewrite Hw; done.
Qed.

Lemma source_port_read bind settings size : 0 < sp_tcp_port settings < 2 ^ 16 →
  stock_source_tcp_port (wired (build_source_publish_tags bind settings size)) = Some (sp_tcp_port settings).
Proof.
  intros H. unfold stock_source_tcp_port, build_source_publish_tags, wired. cbn [app map]. unfold normalize_tag at 1 2. cbn [new_short tag_name tag_value normalize_name].
  assert (H0 : (0 <? sp_tcp_port settings) = true) by lia.
  match goal with |- head (omap ?f (?a :: ?b :: ?l)) = _ => change (head (match f a with Some x => x :: omap f (b :: l) | None =>
    match f b with Some y => y :: omap f l | None => omap f l end end) = Some (sp_tcp_port settings)) end.
  unfold source_tcp_port_of at 1 3. destruct (normalize_port (sp_tcp_port settings)) as [-> | ->]; [lia|..]; read_tags; by rewrite H0.
Qed.
Lemma source_accepted st id pid observed udp bind settings size t :
  enabled (st_config st) = true → observed ≠ (0, 0, 0, 0) → 0 < udp → 0 < sp_tcp_port settings < 2 ^ 16 →
  let '(st', load) := record_source_publish st id pid observed udp (wired (build_source_publish_tags bind settings size)) t in is_Some load.
Proof.
  intros He Ho Hu Hp. unfold record_source_publish. rewrite He, bool_decide_eq_false_2, (proj2 (Z.eqb_neq udp 0)) by (done || lia). cbn [negb orb].
  assert (Hty : is_stock_source_publish (wired (build_source_publish_tags bind settings size)) = true).
  { unfold is_stock_source_publish, build_source_publish_tags, wired. by read_tags. }
  rewrite (source_port_read bind settings size Hp), Hty. cbn. by eexists.
Qed.

(** C21. What the agent publishes is found. The tags of a publish are delivered by the
    wire to a node that caches them, the answer of that node to a search is delivered
    back, and the reader of results gives: for a keyword, the hash, the name, the size
    and the source count of the file, in a result that is acceptable; for a source,
    the publisher, the address that the agent bound, its two ports and its
    encryption options; for a note, the publisher, the rating 4 and the trimmed
    comment. A source or note of the agent is always accepted, whatever non-zero
    address the node observes. *)
Theorem agent_publishes_found to_lowercase trim st id sender limit t now :
  enabled (st_config st) = true → 0 < limit →
  (∀ h file_hash aich_hash version load,
     ph_canonical_name h ≠ [] → 0 < ph_size h < 2 ^ 64 → 0 ≤ ph_source_count h < 2 ^ 32 →
     stock_keyword_publish_decision (purge_expired (st_keyword_entries st) (keyword_ttl (st_config st)) t) id file_hash = (load, true) →
     let st' := fst (record_keyword_publish_batch st id [keyword_entry h file_hash aich_hash version] t) in
     now < t + keyword_ttl (st_config st) → zlen (st_keyword_entries st') ≤ limit →
     ∃ x, x ∈ results (snd (keyword_search_response to_lowercase st' sender (mkSearchKeyReq id 0 []) limit now)) ∧
       let r := search_result_from_tags (se_entry_id x) (wired (se_tags x)) in
       kr_hash r = file_hash ∧ kr_names r = [ph_canonical_name h] ∧ kr_size r = Some (ph_size h) ∧
       kr_source_count r = Some (ph_source_count h) ∧ is_acceptable_keyword_result r = true) ∧
  (∀ file_hash pid observed udp bind ip settings size,
     sa_ip bind = V4 ip → wf_ip ip = true → 0 < sp_tcp_port settings < 2 ^ 16 → 0 < sa_port bind < 2 ^ 16 →
     observed ≠ (0, 0, 0, 0) → 0 < udp →
     let '(st', load) := record_source_publish st id pid observed udp (wired (build_source_publish_tags bind settings size)) t in
     is_Some load ∧
     (now < t + source_ttl (st_config st) → zlen (st_source_entries st') ≤ limit →
      ∃ x, x ∈ results (snd (source_search_response st' sender (mkSearchSourceReq id 0 0) limit now)) ∧
        source_result_from_tags file_hash (se_entry_id x) (wired (se_tags x)) =
        Some (mkSource file_hash (id_to_be_bytes pid) ip (sp_tcp_port settings) (sa_port bind)
                (Some (emule_source_encryption_options (sp_obfuscation_enabled settings)))))) ∧
  (∀ file_hash pid observed name size,
     observed ≠ (0, 0, 0, 0) →
     let '(st', load) := record_notes_publish st id pid observed (wired (build_notes_publish_tags name size)) t in
     is_Some load ∧
     (now < t + notes_ttl (st_config st) → zlen (st_notes_entries st') ≤ limit →
      ∃ x, x ∈ results (snd (notes_search_response st' sender (mkSearchNotesReq id 0) limit now)) ∧
        note_result_from_tags trim file_hash (se_entry_id x) (wired (se_tags x)) =
        Some (mkNote file_hash (id_to_be_bytes pid) (Some 4)
                (match trim (lit "overlord validation note for " ++ name) with [] => None | comment => Some comment end) (wired (se_tags x))))).
Proof.
  intros He Hl. split; [|split].
  - intros h file_hash aich_hash version load Hn Hs Hc Hdec st' Hnow Hlen.
    destruct (keyword_publish_found to_lowercase st id (keyword_entry h file_hash aich_hash version) (ph_size h) (ph_canonical_name h) load t sender limit now)
      as [_ Hx]; try done.
    { unfold stock_keyword_file_size. rewrite entry_size by lia. cbn. by rewrite (proj2 (Z.ltb_lt 0 _)) by lia. }
    { by apply entry_filename. }
    eexists. split; [exact Hx|]. cbn [se_entry_id se_tags]. cbv zeta. rewrite (keyword_read h file_hash aich_hash version) by done. done.
  - intros file_hash pid observed udp bind ip settings size Hip Hwf Htcp Hport Ho Hu.
    pose proof (source_accepted st id pid observed udp bind settings size t He Ho Hu Htcp) as Hacc.
    destruct (record_source_publish _ _ _ _ _ _ _) as [st' load] eqn:Hpub. split; [done|]. intros Hnow Hlen. destruct Hacc as [l ->].
    destruct (source_publish_answer _ _ _ _ _ _ _ _ _ sender _ _ He Hl Hpub Hnow Hlen) as (tcp & _ & Hx).
    eexists. split; [exact Hx|]. cbn [se_entry_id se_tags].
    by refine (source_read bind ip settings size _ file_hash Hip Hwf Htcp Hport _).
  - intros file_hash pid observed name size Ho. destruct (record_notes_publish _ _ _ _ _ _) as [st' load] eqn:Hpub.
    assert (Hacc : is_Some load).
    { revert Hpub. unfold record_notes_publish. rewrite He, bool_decide_eq_false_2 by done. cbn [negb orb].
      replace (has_stock_note_tags _) with true; [intros [= <- <-]; by eexists|].
      unfold has_stock_note_tags. symmetry. apply existsb_exists. exists (new_short FILERATING (VU8 4)).
      split; [do 2 right; by left|done]. }
    split; [done|]. intros Hnow Hlen. destruct Hacc as [l ->]. eexists. split; [by eapply notes_publish_found|].
    cbn [se_entry_id se_tags]. by refine (note_read trim name size _ file_hash _).
Qed.

(** An agent bound to a private address, observed at a public one. *)
Lemma agent_publishes_found_witness :
  let st := store_new (from_kad_config true 86400 18000 86400 10 10 10) in
  let tags := wired (build_source_publish_tags (mkSocketAddr (V4 (192, 168, 1, 5)) 4672) (mkSettings 4662 true) 700) in
  let '(st', load) := record_source_publish st (replicate 16 1) (replicate 16 7) (80, 1, 2, 3) 4672 tags 5 in
  is_Some load ∧
  ∃ x, x ∈ results (snd (source_search_response st' (replicate 16 9) (mkSearchSourceReq (replicate 16 1) 0 0) 300 6)) ∧
    source_result_from_tags (replicate 16 2) (se_entry_id x) (wired (se_tags x)) =
    Some (mkSource (replicate 16 2) (id_to_be_bytes (replicate 16 7)) (192, 168, 1, 5) 4662 4672 (Some (emule_source_encryption_options true))).
Proof.
  cbv zeta.
  pose proof (proj1 (proj2 (agent_publishes_found (λ s, s) (λ s, s) (store_new (from_kad_config true 86400 18000 86400 10 10 10))
    (replicate 16 1) (replicate 16 9) 300 5 6 eq_refl eq_refl)) (replicate 16 2) (replicate 16 7) (80, 1, 2, 3) 4672
    (mkSocketAddr (V4 (192, 168, 1, 5)) 4672) (192, 168, 1, 5) (mkSettings 4662 true) 700 eq_refl eq_refl
    ltac:(cbn; lia) ltac:(cbn; lia) ltac:(done) ltac:(lia)) as H.
  destruct (record_source_publish _ _ _ _ _ _ _) as [st' load] eqn:Hpub. destruct H as [Hload H]. split; [exact Hload|].
  apply H; [vm_compute; reflexivity|]. vm_compute in Hpub. injection Hpub as <- _. vm_compute. discriminate.
Defined.

(** ** Accounting of batches *)

Section accounting.
Context (md4 sha1 : list Z → list Z) (trim to_lowercase : list Z → list Z) (is_alphanumeric : list Z → bool) (cx : batch_context).
Local Abbreviation seed_items := (seed_items md4 sha1 trim to_lowercase is_alphanumeric cx).
Local Abbreviation seed_item := (seed_item md4 sha1 trim to_lowercase is_alphanumeric cx).
Local Abbreviation seed_popular_impl := (seed_popular_impl md4 sha1 trim to_lowercase is_alphanumeric cx).

(** What one file asks of the node: its keyword, itself as a source, and a note where they are enabled. *)
Definition item_calls (h : PopularHash) (file_hash : Ed2kHash) : list publish_call :=
  let tags := keyword_publish_tags (ph_canonical_name h) (ph_size h) (ph_source_count h) in
  CallKeyword (mkKeywordPublish (keyword_target md4 trim to_lowercase is_alphanumeric (ph_canonical_name h)) file_hash tags
    (Some (synthetic_publish_aich_hash sha1 file_hash (ph_canonical_name h) (ph_size h))) (cx_fanout cx) (cx_work_class cx)) ::
  CallSource file_hash (cx_source_publish_identity cx) (build_source_publish_tags (cx_bind_addr cx) (cx_settings cx) (ph_size h)) (cx_fanout cx) ::
  (if cx_notes_publish_enabled cx then [CallNotes file_hash (cx_own_id cx) (build_notes_publish_tags (ph_canonical_name h) (ph_size h)) (cx_fanout cx)] else []).
Definition calls_of (l : list (PopularHash * item_io)) : list publish_call :=
  flat_map (λ p, match hash_from_str (ph_hash (fst p)) with Ok file_hash => item_calls (fst p) file_hash | _ => [] end) l.
Definition all_valid (l : list (PopularHash * item_io)) : bool := forallb (λ p, is_ok (hash_from_str (ph_hash (fst p)))) l.
Definition total_of (f : item_io → DhtError + PublishAttemptStats) (l : list (PopularHash * item_io)) : PublishAttemptStats :=
  foldl add_stats stats_default (map (λ p, f (snd p)) l).
Definition note_results (l : list (PopularHash * item_io)) : PublishAttemptStats :=
  if cx_notes_publish_enabled cx then total_of io_notes l else stats_default.
Definition counters (o : KadPublishObservability) : PublishCounters * PublishCounters * PublishCounters :=
  (po_keyword_counters o, po_source_counters o, po_notes_counters o).

(** The own cache stays well-formed. *)
Definition store_kept (st st' : KadLocalStore) : Prop :=
  wf_store_config (st_config st) → store_ok st → store_ok st' ∧ st_config st' = st_config st.
(** The state after the items of [l]. *)
Definition ran (l : list (PopularHash * item_io)) (b b' : batch_state) : Prop :=
  ba_calls b' = ba_calls b ++ calls_of l ∧
  ba_keyword b' = foldl add_stats (ba_keyword b) (map (λ p, io_keyword (snd p)) l) ∧
  ba_source b' = foldl add_stats (ba_source b) (map (λ p, io_source (snd p)) l) ∧
  ba_notes b' = (if cx_notes_publish_enabled cx then foldl add_stats (ba_notes b) (map (λ p, io_notes (snd p)) l) else ba_notes b) ∧
  counters (ba_obs b') = counters (ba_obs b) ∧
  store_kept (ba_store b) (ba_store b').

Lemma store_op_kept st o : store_kept st (run_store_op to_lowercase st o).
Proof. intros Hc Hs. by apply run_store_op_ok. Qed.
Lemma store_kept_trans a b c : store_kept a b → store_kept b c → store_kept a c.
Proof. intros H1 H2 Hc Hs. destruct (H1 Hc Hs) as [Hs' He]. destruct H2 as [? ?]; [by rewrite He|done|]. split; congruence. Qed.
Lemma seed_keyword_kept file_hash h io b :
  store_kept (ba_store b) (ba_store (seed_keyword md4 sha1 trim to_lowercase is_alphanumeric cx file_hash h io b)).
Proof.
  exact (store_op_kept (ba_store b) (PublishKeyword (keyword_target md4 trim to_lowercase is_alphanumeric (ph_canonical_name h))
    [mkPublishEntry file_hash (keyword_publish_tags (ph_canonical_name h) (ph_size h) (ph_source_count h))] (io_now_keyword io))).
Qed.
Lemma seed_source_kept file_hash h io b : store_kept (ba_store b) (ba_store (seed_source_publish cx file_hash h io b)).
Proof.
  unfold seed_source_publish. cbn [ba_store]. destruct (sa_ip _) as [ip|]; [|done].
  exact (store_op_kept (ba_store b) (PublishSource (id_from_be_bytes file_hash) (cx_source_publish_identity cx) ip (sa_port (cx_bind_addr cx))
    (build_source_publish_tags (cx_bind_addr cx) (cx_settings cx) (ph_size h)) (io_now_source io))).
Qed.
Lemma seed_notes_kept file_hash h io b : store_kept (ba_store b) (ba_store (seed_notes cx file_hash h io b)).
Proof.
  unfold seed_notes. destruct (cx_notes_publish_enabled cx); [|done]. cbn [ba_store]. destruct (sa_ip _) as [ip|]; [|done].
  exact (store_op_kept (ba_store b) (PublishNotes (id_from_be_bytes file_hash) (cx_own_id cx) ip
    (build_notes_publish_tags (ph_canonical_name h) (ph_size h)) (io_now_notes io))).
Qed.

Lemma seed_item_ran n h io b file_hash :
  hash_from_str (ph_hash h) = Ok file_hash → ∃ b', seed_item n h io b = Ok b' ∧ ran [(h, io)] b b' ∧
    ba_obs b' = update_publish_progress (cx_seed_source cx) n (ba_keyword b') (ba_source b') (notes_stats cx b') (io_observed_at io) (ba_obs b).
Proof.
  intros Hh. unfold AgentPublish.seed_item. rewrite Hh. cbn [map_err mbind res_bind]. eexists. split; [reflexivity|].
  set (b3 := seed_notes _ _ _ _ _).
  assert (Hkept : store_kept (ba_store b) (ba_store b3)).
  { eapply store_kept_trans; [apply seed_keyword_kept|]. eapply store_kept_trans; [apply seed_source_kept|apply seed_notes_kept]. }
  revert Hkept. unfold b3, ran, calls_of, show_progress, set_obs, seed_notes, item_calls, notes_stats. cbn [flat_map fst snd]. rewrite Hh.
  destruct (cx_notes_publish_enabled cx) eqn:Hn; cbn; rewrite ?Hn; (split; [|done]); rewrite <- ?app_assoc; done.
Qed.

Lemma ran_app l1 l2 a b c : ran l1 a b → ran l2 b c → ran (l1 ++ l2) a c.
Proof.
  intros (Hc1 & Hk1 & Hs1 & Hn1 & Ho1 & Hst1) (Hc2 & Hk2 & Hs2 & Hn2 & Ho2 & Hst2).
  unfold ran, calls_of in *. rewrite flat_map_app, !map_app, !foldl_app, app_assoc, <- Hc1, <- Hk1, <- Hs1.
  repeat (split; [first [done|congruence]|]). split.
  { destruct (cx_notes_publish_enabled cx); [by rewrite <- Hn1|congruence]. }
  split; [congruence|]. by eapply store_kept_trans.
Qed.

(** The loop over valid hashes. *)
Lemma seed_items_ran l n b : all_valid l = true → ∃ b', ran l b b' ∧
  (∀ rest, seed_items n (l ++ rest) b = seed_items (n + zlen l) rest b') ∧
  (∀ h io l1, l = l1 ++ [(h, io)] → ∃ o, ba_obs b' =
     update_publish_progress (cx_seed_source cx) (n + zlen l - 1) (ba_keyword b') (ba_source b') (notes_stats cx b') (io_observed_at io) o).
Proof.
  revert n b. induction l as [|[h io] l IH] using rev_ind; intros n b Hv.
  { exists b. split; [unfold ran; cbn; rewrite app_nil_r; by destruct (cx_notes_publish_enabled cx)|].
    split; [intros rest; cbn; f_equal; unfold zlen; cbn; lia|]. intros h io l1 H. by destruct l1. }
  unfold all_valid in Hv. rewrite forallb_app in Hv. apply andb_true_iff in Hv as [Hv Hh].
  destruct (IH n b Hv) as (b1 & Hr1 & Hrun & _).
  cbn in Hh. rewrite andb_true_r in Hh. destruct (hash_from_str (ph_hash h)) as [file_hash| |] eqn:Hhash; [|done..].
  destruct (seed_item_ran (n + zlen l) h io b1 file_hash Hhash) as (b2 & Hitem & Hr2 & Hobs).
  exists b2. split; [by eapply ran_app|]. split.
  - intros rest. rewrite <- app_assoc, Hrun. cbn. rewrite Hitem. f_equal. rewrite zlen_app. unfold zlen. cbn. lia.
  - intros h' io' l1 [Hl [= <- <-]]%app_inj_tail. exists (ba_obs b1). rewrite Hobs. f_equal. rewrite zlen_app. unfold zlen. cbn. lia.
Qed.

(** The parts of the totals are sums over the publishes that did not fail, modulo [2^32]. *)
Lemma total_sum (g : PublishAttemptStats → Z) f l :
  g ∈ [closest_contacts_considered; attempted_contacts; acked_contacts; timed_out_contacts] →
  g (total_of f l) = wrap32 (foldl Z.add 0 (map (λ p, match f (snd p) with inr s => g s | inl _ => 0 end) l)).
Proof.
  intros Hg. assert (H : g stats_default = 0 ∧ ∀ acc x, g (add_stats acc (inr x)) = wrap32 (g acc + g x)).
  { rewrite !elem_of_cons in Hg. destruct Hg as [-> | [-> | [-> | [-> | Hg]]]]; [done..|]. by apply not_elem_of_nil in Hg. }
  destruct H as [H0 Hadd]. unfold total_of. induction l as [|[h io] l IH] using rev_ind; [done|].
  rewrite !map_app, !foldl_app. cbn [map foldl snd]. destruct (f io) as [|x]; [by rewrite Z.add_0_r|].
  rewrite Hadd, IH. apply Zplus_mod_idemp_l.
Qed.

(** A summary that shows progress and is newer than the committed batch counts. *)
Lemma effective_in_flight c summary observed :
  0 < bs_published_items summary → bs_completed_at summary = observed →
  (∀ committed, pc_last_batch_at c = Some committed → committed < observed) →
  effective_publish_counters c (Some summary) (Some observed) = apply_publish_summary c summary.
Proof.
  intros Hp Ho Hc. unfold effective_publish_counters, publish_summary_has_progress. rewrite (proj2 (Z.ltb_lt 0 _)) by done. cbn [orb]. rewrite andb_true_r.
  destruct (pc_last_batch_at c) as [t|] eqn:Ht.
  - specialize (Hc t eq_refl). rewrite (proj2 (Z.ltb_lt t observed)), bool_decide_eq_false_2; [done| |done]. intros [= H]. lia.
  - by rewrite bool_decide_eq_false_2.
Qed.
Lemma effective_committed c summary at_ :
  effective_publish_counters (apply_publish_summary c summary) (Some summary) at_ = apply_publish_summary c summary.
Proof. unfold effective_publish_counters. rewrite bool_decide_eq_true_2 by done. cbn [negb]. by rewrite andb_false_r. Qed.

(** The counters of the keyword publishes, the source publishes and the notes, as they are reported. *)
Definition reported (o : KadPublishObservability) : PublishCounters * PublishCounters * PublishCounters :=
  (effective_publish_counters (po_keyword_counters o) (po_latest_keyword_batch o) (po_last_seed_at o),
   effective_publish_counters (po_source_counters o) (po_latest_source_batch o) (po_last_seed_at o),
   effective_publish_counters (po_notes_counters o) (po_latest_notes_batch o) (po_last_seed_at o)).
(** The counters after a batch of [n] files with the results of [l] at [at_]. *)
Definition advanced (n : Z) (l : list (PopularHash * item_io)) (at_ : Z) (o : KadPublishObservability) : PublishCounters * PublishCounters * PublishCounters :=
  let add f c := apply_publish_summary c (build_publish_batch_summary (cx_seed_source cx) n (total_of f l) at_) in
  (add io_keyword (po_keyword_counters o), add io_source (po_source_counters o), add io_notes (po_notes_counters o)).

(** A batch of fewer than 2^32 popular files is accounted for. Without a bootstrapped node nothing
    is published. With valid hashes every file is published once as a keyword, then
    as a source and, where enabled, with a note, in the order of the batch; the
    counters grow by one batch, the number of files and the sums over the results,
    and what is reported is what is committed. A batch that stops at an invalid hash
    has published exactly the files before it, its error names the hash, the
    committed counters are as before, and the reported ones count the files that
    were published, when these are newer than the last committed batch. The own
    cache stays well-formed throughout. *)
Lemma seed_popular_accounted l1 started completed store obs :
  cx_notes_publish_enabled cx = true → all_valid l1 = true → zlen l1 < 2 ^ 32 → wf_store_config (st_config store) → store_ok store →
  let idle := seed_popular_impl false l1 started completed store obs in
  (snd idle = Err NotBootstrapped ∧ ba_calls (fst idle) = [] ∧ ba_obs (fst idle) = obs ∧ ba_store (fst idle) = store) ∧
  (let '(b, r) := seed_popular_impl true l1 started completed store obs in
   r = Ok tt ∧ ba_calls b = calls_of l1 ∧ store_ok (ba_store b) ∧
   counters (ba_obs b) = advanced (zlen l1) l1 completed obs ∧ reported (ba_obs b) = counters (ba_obs b)) ∧
  (∀ h io l2 e, hash_from_str (ph_hash h) = Err e →
   let '(b, r) := seed_popular_impl true (l1 ++ (h, io) :: l2) started completed store obs in
   r = Err (InvalidHash (ph_hash h)) ∧ ba_calls b = calls_of l1 ∧ store_ok (ba_store b) ∧ counters (ba_obs b) = counters obs ∧
   (∀ l0 h0 io0, l1 = l0 ++ [(h0, io0)] →
      Forall (λ c, ∀ committed, pc_last_batch_at c = Some committed → committed < io_observed_at io0)
        [po_keyword_counters obs; po_source_counters obs; po_notes_counters obs] →
      reported (ba_obs b) = advanced (zlen l1) l1 (io_observed_at io0) obs)).
Proof.
  intros Hnotes Hv Hlen Hwf Hok. split; [done|].
  set (b0 := show_progress cx 0 started (mkBatch store obs stats_default stats_default stats_default [])).
  destruct (seed_items_ran l1 1 b0 Hv) as (b & (Hcalls & Hk & Hs & Hn & Hc & Hst) & Hrun & Hlast).
  rewrite Hnotes in Hn. destruct (Hst Hwf Hok) as [Hok' _].
  injection Hc as Hc1 Hc2 Hc3. split.
  - unfold AgentPublish.seed_popular_impl. cbn [negb]. fold b0. pose proof (Hrun []) as Hr. rewrite app_nil_r in Hr. rewrite Hr. cbn [AgentPublish.seed_items].
    split; [done|]. split; [done|]. split; [done|].
    unfold counters, reported, advanced, set_obs, record_publish_summaries, notes_stats. rewrite Hnotes.
    cbn [ba_obs po_keyword_counters po_source_counters po_notes_counters po_latest_keyword_batch po_latest_source_batch po_latest_notes_batch
      po_last_seed_at fmap option_fmap option_map].
    rewrite !effective_committed, Hc1, Hc2, Hc3, Hk, Hs, Hn. done.
  - intros h io l2 e He. unfold AgentPublish.seed_popular_impl. cbn [negb]. fold b0. rewrite Hrun. cbn [AgentPublish.seed_items].
    unfold AgentPublish.seed_item. rewrite He. cbn [map_err mbind res_bind].
    split; [done|]. split; [done|]. split; [done|]. split; [unfold counters; congruence|].
    intros l0 h0 io0 Hl Hnew. destruct (Hlast _ _ _ Hl) as [o Hobs]. rewrite !Forall_cons in Hnew. destruct Hnew as (Hn1 & Hn2 & Hn3 & _).
    unfold reported, advanced. rewrite Hc1, Hc2, Hc3, Hobs. unfold update_publish_progress, notes_stats. rewrite Hnotes.
    cbn [po_latest_keyword_batch po_latest_source_batch po_latest_notes_batch po_last_seed_at].
    assert (Hpos : 0 < zlen l1) by (rewrite Hl, zlen_app; unfold zlen; cbn; lia).
    rewrite !effective_in_flight by (cbn [build_publish_batch_summary bs_published_items bs_completed_at]; first [done | rewrite Z.mod_small; lia]).
    rewrite Hk, Hs, Hn. replace (1 + zlen l1 - 1) with (zlen l1) by lia. done.
Qed.
End accounting.


(** ** Identity and seeds *)

Lemma markers_fixed h : length h = 16%nat → h !! 5%nat = Some 0x0E → h !! 14%nat = Some 0x6F → normalize_ed2k_user_hash_markers h = h.
Proof.
  intros Hl H5 H14. unfold normalize_ed2k_user_hash_markers.
  rewrite (list_insert_id h 5) by done. by apply list_insert_id.
Qed.
Lemma markers_set h : length h = 16%nat → let h' := normalize_ed2k_user_hash_markers h in
  length h' = 16%nat ∧ h' !! 5%nat = Some 0x0E ∧ h' !! 14%nat = Some 0x6F.
Proof.
  intros Hl h'. unfold h', normalize_ed2k_user_hash_markers. rewrite !length_insert. split; [done|]. split.
  - rewrite list_lookup_insert_ne by lia. apply list_lookup_insert_eq. lia.
  - apply list_lookup_insert_eq. rewrite length_insert. lia.
Qed.

(** The user hash is stable: what is loaded or created carries eMule's two markers
    and is not bad, and the file that is left gives the same hash at the next start,
    which writes nothing, whatever it would draw. *)
Lemma user_hash_stable file draws hash written draws' :
  Forall (λ d, length d = 16%nat) draws → load_or_create_ed2k_user_hash file draws = Some (hash, written) →
  length hash = 16%nat ∧ hash !! 5%nat = Some 0x0E ∧ hash !! 14%nat = Some 0x6F ∧ ed2k_user_hash_is_bad hash = false ∧
  load_or_create_ed2k_user_hash (match written with Some w => Some w | None => file end) draws' = Some (hash, None).
Proof.
  intros Hd Hload.
  assert (H : (length hash = 16%nat ∧ hash !! 5%nat = Some 0x0E ∧ hash !! 14%nat = Some 0x6F ∧ ed2k_user_hash_is_bad hash = false) ∧
    match written with Some w => Some w | None => file end = Some hash).
  { assert (Hcreate : (λ h, (h, Some h)) <$> create_ed2k_user_hash draws = Some (hash, written) →
      (length hash = 16%nat ∧ hash !! 5%nat = Some 0x0E ∧ hash !! 14%nat = Some 0x6F ∧ ed2k_user_hash_is_bad hash = false) ∧
      match written with Some w => Some w | None => file end = Some hash).
    { unfold create_ed2k_user_hash. destruct (List.find _ _) as [h|] eqn:Hf; [|done]. cbn. intros [= <- <-]. split; [|done].
      apply find_some in Hf as [Hin Hb%negb_true_iff]. apply list_elem_of_In, list_elem_of_fmap in Hin as (d & -> & Hin).
      rewrite Forall_forall in Hd. destruct (markers_set d (Hd _ Hin)) as (? & ? & ?). done. }
    unfold load_or_create_ed2k_user_hash in Hload. destruct file as [bytes|]; [|by apply Hcreate].
    destruct (Nat.eqb_spec (length bytes) 16) as [Hl|]; [|by apply Hcreate].
    destruct (ed2k_user_hash_is_bad _) eqn:Hb; [by apply Hcreate|]. cbn [negb] in Hload. injection Hload as <- <-.
    destruct (markers_set bytes Hl) as (? & ? & ?). split; [done|].
    case_bool_decide; congruence. }
  destruct H as [(Hl & H5 & H14 & Hb) ->]. repeat (split; [done|]). unfold load_or_create_ed2k_user_hash.
  rewrite Hl, markers_fixed, Hb, bool_decide_eq_true_2 by done. done.
Qed.

(** The batches of seeds follow one another around the list: a batch never reads out
    of range, has the asked number of seeds up to all of them, and the next one
    starts where it stopped. *)
Lemma seed_batches_cycle md4 hex_encode cursor n : 0 ≤ cursor →
  ∃ batch, next_synthetic_publish_batch md4 hex_encode cursor n = Ok (batch, (cursor + zlen batch) mod 40) ∧
    zlen batch = Z.min (Z.max n 1) 40 ∧
    (∀ i, 0 ≤ i < zlen batch → batch !! Z.to_nat i = synthetic_popular_hashes md4 hex_encode !! Z.to_nat ((cursor + i) mod 40)).
Proof.
  intros Hc. unfold next_synthetic_publish_batch. change (zlen SYNTHETIC_POPULAR_SEEDS) with 40.
  destruct SYNTHETIC_POPULAR_SEEDS as [|s0 seeds] eqn:Hseeds; [done|].
  assert (Hat : ∀ i, 0 ≤ i < 40 → ∃ h, seed_at md4 hex_encode i = Some h ∧ synthetic_popular_hashes md4 hex_encode !! Z.to_nat i = Some h).
  { intros i Hi. unfold seed_at, synthetic_popular_hashes. rewrite list_lookup_imap.
    destruct (lookup_lt_is_Some_2 SYNTHETIC_POPULAR_SEEDS (Z.to_nat i)) as [s Hs].
    { assert (H40 : length SYNTHETIC_POPULAR_SEEDS = 40%nat) by reflexivity. lia. }
    rewrite Hs. cbn. rewrite Z2Nat.id by lia. by eexists. }
  set (len := Z.min (Z.max n 1) 40). assert (Hlen : 1 ≤ len ≤ 40) by lia.
  assert (Hmap : ∃ batch, mapM (λ offset, seed_at md4 hex_encode ((cursor mod 40 + offset) mod 40)) (seqZ 0 len) = Some batch).
  { apply mapM_is_Some_2, Forall_forall. intros i _.
    destruct (Hat ((cursor mod 40 + i) mod 40) (Z.mod_pos_bound _ 40 eq_refl)) as (h & Hh & _). exists h. exact Hh. }
  destruct Hmap as [batch Hmap]. rewrite Hmap. exists batch. pose proof (length_mapM _ _ _ Hmap) as Hl. rewrite length_seqZ in Hl.
  assert (Hz : zlen batch = len) by (unfold zlen; lia).
  split; [rewrite Hz, Zplus_mod_idemp_l; done|]. split; [done|]. intros i Hi.
  apply mapM_Some_1 in Hmap. rewrite Hz in Hi.
  destruct (Forall2_lookup_l _ _ _ (Z.to_nat i) i Hmap) as (h & Hb & Hh).
  { rewrite lookup_seqZ_lt by lia. f_equal. lia. }
  rewrite Zplus_mod_idemp_l in Hh. destruct (Hat ((cursor + i) mod 40)) as (h' & Hh' & Hs); [apply Z.mod_pos_bound; lia|]. congruence.
Qed.
