(* ===== verification/PortMap.v ===== *)
(** * Port mappings on the gateway

    Models [overlord-agent-nat]: the configuration and status, the manager that keeps
    the agent's ports mapped ([manager.rs]), its provider over miniupnpc
    ([provider/miniupnpc.rs]) and the one that is not implemented
    ([provider/igd.rs]). The gateway is reached through the C library miniupnpc: its
    operations are the class [GatewayApi], and what the theorems need of them is
    [GatewayLaws]. An error is the text of its outermost context, which is what
    [to_string] of an [anyhow] error gives. A turn of the manager's task is taken as
    a whole, or is aborted by a stop at any mapping of its reconcile, and then the
    blocking thread goes on by itself, one mapping at a time, between the later
    steps; the deletions of one release are taken together. The frozen provider over
    rupnp and log lines are left out. *)

From S2P Require Import Prelude Net Text.

(** ** Data *)

Inductive TransportProtocol : Type := Tcp | Udp.
#[export] Instance TransportProtocol_eq_dec : EqDecision TransportProtocol.
Proof. solve_decision. Defined.
Definition as_upnp_token (p : TransportProtocol) : list Z := match p with Tcp => lit "TCP" | Udp => lit "UDP" end.
Inductive MappingExposure : Type := Required | Preferred.
Record MappingSpec : Type := mkSpec {
  sp_name : list Z;
  sp_local_addr : SocketAddr;
  sp_protocol : TransportProtocol;
  sp_exposure : MappingExposure;
  sp_preferred_external_port : option Z;
}.
Record SelectedGateway : Type := mkSelected {
  sg_backend : list Z;
  sg_control_url : list Z;
  sg_local_ip : option (list Z);
  sg_gateway_ip : option (list Z);
  sg_external_ip : option (list Z);
}.
Record MappedEndpoint : Type := mkMapped {
  me_name : list Z;
  me_protocol : TransportProtocol;
  me_local_addr : SocketAddr;
  me_external_addr : SocketAddr;
  me_lease_expires_in_secs : Z;
  me_backend : list Z;
}.
Record NatStatus : Type := mkNatStatus {
  ns_enabled : bool;
  ns_gateway_discovered : bool;
  ns_backend : option (list Z);
  ns_bind_ip : option (list Z);
  ns_igd_ip : option (list Z);
  ns_minissdpd_socket : option (list Z);
  ns_ssdp_local_port : option Z;
  ns_external_ip_override : option (list Z);
  ns_gateway : option SelectedGateway;
  ns_mappings : list MappedEndpoint;
  ns_observed_external_addresses : list (list Z);
  ns_last_refresh_unix_secs : option Z;
  ns_last_error : option (list Z);
}.
Definition nat_status_default : NatStatus := mkNatStatus false false None None None None None None None [] [] None None.
Record NatConfig : Type := mkNatConfig {
  nc_enabled : bool;
  nc_backend_order : list (list Z);
  nc_bind_ip : option (list Z);
  nc_igd_ip : option (list Z);
  nc_minissdpd_socket : option (list Z);
  nc_ssdp_local_port : option Z;
  nc_discovery_timeout_secs : Z;
  nc_lease_duration_secs : Z;
  nc_renew_margin_secs : Z;
  nc_external_ip_override : option (list Z);
}.
Definition UPNP_MINIUPNPC_BACKEND : list Z := lit "upnp_miniupnpc".
Definition UPNP_IGD_BACKEND : list Z := lit "upnp_igd".
Definition default_upnp_backend_order : list (list Z) := [UPNP_MINIUPNPC_BACKEND].
Definition nat_config_default : NatConfig := mkNatConfig false default_upnp_backend_order None None None None 5 3600 300 None.

(** The port that a mapping asks for. *)
Definition external_port_of (spec : MappingSpec) : Z := default (sa_port (sp_local_addr spec)) (sp_preferred_external_port spec).

(** ** Providers *)

(** A provider acts on the outside world [W] and on the status. *)
Record PortMappingProvider (W : Type) : Type := mkProvider {
  pv_name : list Z;
  pv_reconcile : NatConfig → list MappingSpec → Z → NatStatus → W → W * NatStatus * (list Z + unit);
  pv_release : NatConfig → list MappedEndpoint → NatStatus → W → W * NatStatus * (list Z + unit);
}.
Arguments mkProvider {W} _ _ _.
Arguments pv_name {W} _.
Arguments pv_reconcile {W} _.
Arguments pv_release {W} _.
Definition igd_provider {W : Type} : PortMappingProvider W :=
  let not_implemented := UPNP_IGD_BACKEND ++ lit " backend not implemented yet" in
  mkProvider UPNP_IGD_BACKEND (λ _ _ _ status w, (w, status, inl not_implemented)) (λ _ _ status w, (w, status, inl not_implemented)).

(** *** miniupnpc *)

Record PortMappingEntry : Type := mkPortEntry { pm_internal_client : list Z; pm_internal_port : Z }.
Record DiscoveryOptions : Type := mkDiscovery {
  do_timeout_secs : Z;
  do_multicast_interface : option (list Z);
  do_minissdpd_socket : option (list Z);
  do_local_port : option Z;
}.
(** The operations of miniupnpc's [Gateway]; a failure is [inl]. *)
Class GatewayApi (G W : Type) := {
  control_url : G → list Z;
  gateway_ip : G → option (list Z);
  local_ip : G → option (list Z);
  external_ip : G → option (list Z);
  fetch_external_ip : G → W → W * (unit + option (list Z));
  add_port_mapping : G → Z → Z → list Z → list Z → list Z → Z → W → W * (unit + unit);
  delete_port_mapping : G → Z → list Z → W → W * (unit + unit);
  get_specific_port_mapping : G → Z → list Z → W → W * (unit + option PortMappingEntry);
  gateway_from_url : list Z → W → W * (unit + option G);
  discover : DiscoveryOptions → W → W * (unit + option G);
}.

Section miniupnpc.
Context {G W : Type} `{!GatewayApi G W}.
(** [str::parse::<IpAddr>] *)
Context (parse_ip : list Z → option IpAddr).

Definition candidate_root_description_urls (igd_ip : list Z) : list (list Z) :=
  (λ tail, lit "http://" ++ igd_ip ++ lit tail) <$> [":1900/gateDesc.xml"; ":1900/rootDesc.xml"; ":5000/rootDesc.xml"; ":49152/rootDesc.xml"]%string.
(** The loop over the URLs of a configured gateway. *)
Fixpoint probe_urls (urls : list (list Z)) (w : W) : W * option G :=
  match urls with
  | [] => (w, None)
  | url :: urls' =>
      match gateway_from_url url w with
      | (w, inl _) => (w, None)
      | (w, inr (Some g)) => (w, Some g)
      | (w, inr None) => probe_urls urls' w
      end
  end.
(** Its errors all end under the context of the caller, so [None] stands for them. *)
Definition discover_gateway (config : NatConfig) (w : W) : W * option G :=
  match nc_igd_ip config with
  | Some igd_ip => probe_urls (candidate_root_description_urls igd_ip) w
  | None =>
      match discover (mkDiscovery (Z.max (nc_discovery_timeout_secs config) 1) (nc_bind_ip config) (nc_minissdpd_socket config) (nc_ssdp_local_port config)) w with
      | (w, inr (Some g)) => (w, Some g)
      | (w, _) => (w, None)
      end
  end.
Definition parse_v4 (s : list Z) : option Ipv4Addr := match parse_ip s with Some (V4 ip) => Some ip | _ => None end.
Definition gateway_local_ip (config : NatConfig) (gateway : G) : option Ipv4Addr :=
  match nc_bind_ip config ≫= parse_v4 with
  | Some ip => Some ip
  | None => local_ip gateway ≫= parse_v4
  end.
Definition is_unspecified (ip : IpAddr) : bool := match ip with V4 ip => bool_decide (ip = (0, 0, 0, 0)) | V6 z => z =? 0 end.
Definition mapping_internal_ip (config : NatConfig) (spec : MappingSpec) (gateway_local_ip : Ipv4Addr) : Ipv4Addr :=
  if negb (is_unspecified (sa_ip (sp_local_addr spec))) then
    match sa_ip (sp_local_addr spec) with V4 ip => ip | V6 _ => (127, 0, 0, 1) end
  else default gateway_local_ip (nc_bind_ip config ≫= parse_v4).
Definition existing_mapping_matches (entry : PortMappingEntry) (expected_internal_ip : list Z) (expected_internal_port : Z) : bool :=
  bool_decide (pm_internal_client entry = expected_internal_ip) && (pm_internal_port entry =? expected_internal_port).
Definition mapping_matches_existing_entry (gateway : G) (external_port : Z) (protocol expected_internal_ip : list Z) (expected_internal_port : Z) (w : W)
    : W * (unit + bool) :=
  match get_specific_port_mapping gateway external_port protocol w with
  | (w, inl e) => (w, inl e)
  | (w, inr None) => (w, inr false)
  | (w, inr (Some entry)) => (w, inr (existing_mapping_matches entry expected_internal_ip expected_internal_port))
  end.
(** The mappings that are taken back, whatever the gateway answers. *)
Definition rollback (gateway : G) (applied : list (list Z * Z)) (w : W) : W :=
  foldl (λ w '(protocol, port), fst (delete_port_mapping gateway port protocol w)) w (rev applied).

Section mapping.
Context (backend_name : list Z) (config : NatConfig) (gateway : G) (own_ip : Ipv4Addr) (external_ip_text : option (list Z)).
Definition mapped_endpoint (spec : MappingSpec) (ip : IpAddr) : MappedEndpoint :=
  mkMapped (sp_name spec) (sp_protocol spec) (sp_local_addr spec) (mkSocketAddr ip (external_port_of spec)) (nc_lease_duration_secs config) backend_name.
Definition internal_ip_of (spec : MappingSpec) : list Z := ip_display (mapping_internal_ip config spec own_ip).
Definition gateway_error (what : string) (spec : MappingSpec) : list Z :=
  lit "gateway " ++ control_url gateway ++ lit what ++ sp_name spec ++ lit " mapping".
(** The body of the loop over the mappings: [applied] are those added so far, [mapped] those that are mapped. *)
Definition map_spec (spec : MappingSpec) (applied : list (list Z * Z)) (mapped : list MappedEndpoint) (w : W)
    : W * (list Z + list (list Z * Z) * list MappedEndpoint) :=
  let token := as_upnp_token (sp_protocol spec) in
  let port := external_port_of spec in
  let go_on applied w :=
    match parse_ip (default (ip_display own_ip) external_ip_text) with
    | None => (w, inl (lit "invalid external ip for " ++ sp_name spec))
    | Some ip => (w, inr (applied, mapped ++ [mapped_endpoint spec ip]))
    end in
  match add_port_mapping gateway port (sa_port (sp_local_addr spec)) (internal_ip_of spec) (sp_name spec) token (nc_lease_duration_secs config) w with
  | (w, inr _) => go_on (applied ++ [(token, port)]) w
  | (w, inl _) =>
      match mapping_matches_existing_entry gateway port token (internal_ip_of spec) (sa_port (sp_local_addr spec)) w with
      | (w, inl _) => (w, inl (gateway_error " failed to inspect existing " spec))
      | (w, inr true) => go_on applied w
      | (w, inr false) => (rollback gateway applied w, inl (gateway_error " failed to add " spec))
      end
  end.
Fixpoint map_specs (specs : list MappingSpec) (applied : list (list Z * Z)) (mapped : list MappedEndpoint) (w : W) : W * (list Z + list MappedEndpoint) :=
  match specs with
  | [] => (w, inr mapped)
  | spec :: specs' =>
      match map_spec spec applied mapped w with
      | (w, inl e) => (w, inl e)
      | (w, inr (applied, mapped)) => map_specs specs' applied mapped w
      end
  end.
End mapping.

Record ReconcileOutcome : Type := mkOutcome {
  ro_gateway : SelectedGateway;
  ro_observed_external_addresses : list (list Z);
  ro_mappings : list MappedEndpoint;
}.
(** What [reconcile_blocking] learns before its loop: the gateway, the own address and the external one. *)
Definition reconcile_prepare (config : NatConfig) (w : W) : W * (list Z + G * Ipv4Addr * option (list Z)) :=
  match discover_gateway config w with
  | (w, None) => (w, inl (lit "gateway discovery failed"))
  | (w, Some gateway) =>
      match gateway_local_ip config gateway with
      | None => (w, inl (lit "gateway " ++ control_url gateway ++ lit " did not provide a usable LAN IPv4"))
      | Some own_ip =>
          let '(w, external_ip_text) :=
            match nc_external_ip_override config with
            | Some text => (w, Some text)
            | None =>
                match fetch_external_ip gateway w with
                | (w, inr (Some text)) => (w, Some text)
                | (w, _) => (w, external_ip gateway)
                end
            end in
          (w, inr (gateway, own_ip, external_ip_text))
      end
  end.
Definition reconcile_blocking (backend_name : list Z) (config : NatConfig) (mappings : list MappingSpec) (w : W) : W * (list Z + ReconcileOutcome) :=
  match reconcile_prepare config w with
  | (w, inl e) => (w, inl e)
  | (w, inr (gateway, own_ip, external_ip_text)) =>
      match map_specs backend_name config gateway own_ip external_ip_text mappings [] [] w with
      | (w, inl e) => (w, inl e)
      | (w, inr mapped) =>
          (w, inr (mkOutcome (mkSelected backend_name (control_url gateway) (local_ip gateway) (gateway_ip gateway) external_ip_text)
                     (option_list external_ip_text) mapped))
      end
  end.
(** [reconcile_blocking] on its blocking thread, in the middle of the loop: what it has learned, and the mappings that it has still to do. *)
Record reconcile_thread : Type := mkThread {
  th_gateway : G;
  th_own_ip : Ipv4Addr;
  th_external_ip : option (list Z);
  th_left : list MappingSpec;
  th_applied : list (list Z * Z);
  th_mapped : list MappedEndpoint;
}.
(** The thread does one mapping; [None] when it has ended. *)
Definition thread_step (config : NatConfig) (th : reconcile_thread) (w : W) : W * option reconcile_thread :=
  match th_left th with
  | [] => (w, None)
  | spec :: rest =>
      match map_spec UPNP_MINIUPNPC_BACKEND config (th_gateway th) (th_own_ip th) (th_external_ip th) spec (th_applied th) (th_mapped th) w with
      | (w, inl _) => (w, None)
      | (w, inr (applied, mapped)) => (w, Some (mkThread (th_gateway th) (th_own_ip th) (th_external_ip th) rest applied mapped))
      end
  end.
Fixpoint thread_steps (config : NatConfig) (n : nat) (th : reconcile_thread) (w : W) : W * option reconcile_thread :=
  match n with
  | O => (w, Some th)
  | S n' => match thread_step config th w with (w, Some th) => thread_steps config n' th w | r => r end
  end.
Definition release_blocking (config : NatConfig) (mappings : list MappedEndpoint) (w : W) : W * (list Z + unit) :=
  match discover_gateway config w with
  | (w, None) => (w, inl (lit "gateway discovery failed during release"))
  | (w, Some gateway) =>
      (foldl (λ w m, fst (delete_port_mapping gateway (sa_port (me_external_addr m)) (as_upnp_token (me_protocol m)) w)) w mappings, inr tt)
  end.

Definition miniupnpc_reconcile (config : NatConfig) (mappings : list MappingSpec) (now : Z) (status : NatStatus) (w : W) : W * NatStatus * (list Z + unit) :=
  match mappings with
  | [] => (w, status, inr tt)
  | _ =>
      match reconcile_blocking UPNP_MINIUPNPC_BACKEND config mappings w with
      | (w, inl e) => (w, status, inl e)
      | (w, inr outcome) =>
          (w, mkNatStatus true true (Some UPNP_MINIUPNPC_BACKEND) (nc_bind_ip config) (nc_igd_ip config) (nc_minissdpd_socket config)
                (nc_ssdp_local_port config) (nc_external_ip_override config) (Some (ro_gateway outcome)) (ro_mappings outcome)
                (ro_observed_external_addresses outcome) (Some now) None, inr tt)
      end
  end.
Definition clear_mappings (s : NatStatus) : NatStatus :=
  mkNatStatus (ns_enabled s) (ns_gateway_discovered s) (ns_backend s) (ns_bind_ip s) (ns_igd_ip s) (ns_minissdpd_socket s) (ns_ssdp_local_port s)
    (ns_external_ip_override s) (ns_gateway s) [] (ns_observed_external_addresses s) (ns_last_refresh_unix_secs s) (ns_last_error s).
Definition miniupnpc_release (config : NatConfig) (mappings : list MappedEndpoint) (status : NatStatus) (w : W) : W * NatStatus * (list Z + unit) :=
  match mappings with
  | [] => (w, status, inr tt)
  | _ =>
      match release_blocking config mappings w with
      | (w, inl e) => (w, status, inl e)
      | (w, inr _) => (w, clear_mappings status, inr tt)
      end
  end.
Definition miniupnpc_provider : PortMappingProvider W := mkProvider UPNP_MINIUPNPC_BACKEND miniupnpc_reconcile miniupnpc_release.
End miniupnpc.

(** ** Manager *)

Definition join_with (sep : list Z) (l : list (list Z)) : list Z :=
  match l with [] => [] | x :: l' => x ++ flat_map (λ y, sep ++ y) l' end.
Definition aggregated_backend_error (backend_errors : list (list Z)) : list Z :=
  let backend_label := if zlen backend_errors =? 1 then lit "backend" else lit "backends" in
  lit "UPnP reconcile failed after " ++ decimal (zlen backend_errors) ++ lit " " ++ backend_label ++ lit ": " ++ join_with (lit "; ") backend_errors.
Definition release_targets_from_specs (mappings : list MappingSpec) (lease_duration_secs : Z) : list MappedEndpoint :=
  (λ spec, mkMapped (sp_name spec) (sp_protocol spec) (sp_local_addr spec)
     (mkSocketAddr (sa_ip (sp_local_addr spec)) (external_port_of spec)) lease_duration_secs []) <$> mappings.
Definition release_backend_order (selected_backend : option (list Z)) (backend_order : list (list Z)) : list (list Z) :=
  foldl (λ ordered backend_name, if bool_decide (backend_name ∈ ordered) then ordered else ordered ++ [backend_name])
    (option_list selected_backend) backend_order.
(** What [start] and a failed turn write into the status. *)
Definition set_desired (config : NatConfig) (last_error : option (list Z)) (last_refresh : option Z) (s : NatStatus) : NatStatus :=
  mkNatStatus (nc_enabled config) (ns_gateway_discovered s) (ns_backend s) (nc_bind_ip config) (nc_igd_ip config) (nc_minissdpd_socket config)
    (nc_ssdp_local_port config) (nc_external_ip_override config) (ns_gateway s) (ns_mappings s) (ns_observed_external_addresses s) last_refresh last_error.
(** The period between two successful turns, in seconds. *)
Definition refresh_period (config : NatConfig) : Z :=
  Z.max (saturating_sub (nc_lease_duration_secs config) (nc_renew_margin_secs config mod 2 ^ 32)) 30.

Section manager.
Context {W : Type}.
Record NatManager : Type := mkManager {
  nm_config : NatConfig;
  nm_mappings : list MappingSpec;
  nm_providers : list (PortMappingProvider W);
  nm_status : NatStatus;
  nm_task : bool;
}.
Definition nat_manager_new (config : NatConfig) (mappings : list MappingSpec) (providers : list (PortMappingProvider W)) : NatManager :=
  mkManager config mappings providers nat_status_default false.
Definition find_provider (providers : list (PortMappingProvider W)) (backend_name : list Z) : option (PortMappingProvider W) :=
  List.find (λ provider, bool_decide (pv_name provider = backend_name)) providers.

Definition nat_start (m : NatManager) : NatManager :=
  let s := nm_status m in
  if negb (nc_enabled (nm_config m)) || bool_decide (nm_mappings m = []) then
    mkManager (nm_config m) (nm_mappings m) (nm_providers m) (set_desired (nm_config m) (ns_last_error s) (ns_last_refresh_unix_secs s) s) (nm_task m)
  else if nm_task m then m
  else mkManager (nm_config m) (nm_mappings m) (nm_providers m) (set_desired (nm_config m) None (ns_last_refresh_unix_secs s) s) true.

Fixpoint reconcile_backends (config : NatConfig) (mappings : list MappingSpec) (providers : list (PortMappingProvider W)) (now : Z)
    (order backend_errors : list (list Z)) (status : NatStatus) (w : W) : W * NatStatus * (list Z + unit) :=
  match order with
  | [] =>
      (w, status, inl (match backend_errors with
                       | [] => lit "no configured NAT backends are available"
                       | _ => aggregated_backend_error backend_errors
                       end))
  | backend_name :: order' =>
      match find_provider providers backend_name with
      | None =>
          reconcile_backends config mappings providers now order' (backend_errors ++ [backend_name ++ lit ": backend not available in this build"]) status w
      | Some provider =>
          match pv_reconcile provider config mappings now status w with
          | (w, status, inr _) => (w, status, inr tt)
          | (w, status, inl error) =>
              reconcile_backends config mappings providers now order' (backend_errors ++ [pv_name provider ++ lit ": " ++ error]) status w
          end
      end
  end.
Definition reconcile_once (config : NatConfig) (mappings : list MappingSpec) (providers : list (PortMappingProvider W)) (now : Z)
    (status : NatStatus) (w : W) : W * NatStatus * (list Z + unit) :=
  reconcile_backends config mappings providers now (nc_backend_order config) [] status w.
(** One turn of [run_manager_loop] and the seconds to sleep after it. *)
Definition nat_turn (now : Z) (m : NatManager) (w : W) : W * NatManager * Z :=
  let '(w, status, r) := reconcile_once (nm_config m) (nm_mappings m) (nm_providers m) now (nm_status m) w in
  let with_status s := mkManager (nm_config m) (nm_mappings m) (nm_providers m) s (nm_task m) in
  match r with
  | inr _ => (w, with_status status, refresh_period (nm_config m))
  | inl error => (w, with_status (set_desired (nm_config m) (Some error) (Some now) status), 30)
  end.

Definition release_with (config : NatConfig) (providers : list (PortMappingProvider W)) (mappings : list MappedEndpoint) (acc : W * NatStatus)
    (backend_name : list Z) : W * NatStatus :=
  match find_provider providers backend_name with
  | Some provider => fst (pv_release provider config mappings (snd acc) (fst acc))
  | None => acc
  end.
Definition nat_stop (m : NatManager) (w : W) : W * NatManager :=
  let status := nm_status m in
  let stopped s := mkManager (nm_config m) (nm_mappings m) (nm_providers m) s false in
  let mappings :=
    match ns_mappings status with
    | [] => release_targets_from_specs (nm_mappings m) (nc_lease_duration_secs (nm_config m))
    | l => l
    end in
  match mappings with
  | [] => (w, stopped status)
  | _ =>
      let '(w, status) := foldl (release_with (nm_config m) (nm_providers m) mappings) (w, status)
        (release_backend_order (ns_backend status) (nc_backend_order (nm_config m))) in
      (w, stopped status)
  end.

End manager.
Arguments NatManager : clear implicits.
Arguments reconcile_thread : clear implicits.

Section system.
Context {G W : Type} `{!GatewayApi G W} (parse_ip : list Z → option IpAddr).
(** The manager with the gateways, and the threads of reconciles whose task was aborted: they go on. *)
Record nat_system : Type := mkSystem { sy_world : W; sy_manager : NatManager W; sy_threads : list (reconcile_thread G) }.
(** Where the task is in its turn when it is aborted: the time, how many backends have failed, and how many mappings the thread has done. *)
Record turn_point : Type := mkPoint { tp_now : Z; tp_tried : nat; tp_done : nat }.
(** The world, the status and the thread that an aborted task leaves; the task writes nothing any more. *)
Definition aborted_turn (p : turn_point) (m : NatManager W) (w : W) : W * NatStatus * option (reconcile_thread G) :=
  let order := nc_backend_order (nm_config m) in
  match nm_task m, reconcile_backends (nm_config m) (nm_mappings m) (nm_providers m) (tp_now p) (take (tp_tried p) order) [] (nm_status m) w with
  | true, (w', status, inl _) =>
      if bool_decide (order !! tp_tried p = Some UPNP_MINIUPNPC_BACKEND) then
        match reconcile_prepare parse_ip (nm_config m) w' with
        | (w', inl _) => (w', status, None)
        | (w', inr (gateway, own_ip, text)) =>
            let '(w', th) := thread_steps parse_ip (nm_config m) (tp_done p) (mkThread gateway own_ip text (nm_mappings m) [] []) w' in
            (w', status, th)
        end
      else (w, nm_status m, None)
  | _, _ => (w, nm_status m, None)
  end.
(** The operations on a manager, and the steps of the threads that were left. A turn is
    only taken while the task runs; a stop comes between two turns or aborts one. *)
Inductive nat_event : Type := NStart | NTurn (now : Z) | NStop (during : option turn_point) | NThread (i : nat).
Definition nat_step (s : nat_system) (e : nat_event) : nat_system :=
  let '(mkSystem w m threads) := s in
  match e with
  | NStart => mkSystem w (nat_start m) threads
  | NTurn now => if nm_task m then let '(w, m, _) := nat_turn now m w in mkSystem w m threads else s
  | NStop during =>
      let '(w, status, th) := match during with Some p => aborted_turn p m w | None => (w, nm_status m, None) end in
      let '(w, m) := nat_stop (mkManager (nm_config m) (nm_mappings m) (nm_providers m) status (nm_task m)) w in
      mkSystem w m (threads ++ option_list th)
  | NThread i =>
      match threads !! i with
      | None => s
      | Some th =>
          match thread_step parse_ip (nm_config m) th w with
          | (w, Some th) => mkSystem w m (<[i := th]> threads)
          | (w, None) => mkSystem w m (delete i threads)
          end
      end
  end.
End system.
Arguments nat_system : clear implicits.

(** ** The gateway *)

(** What UPnP documents of a gateway: its table [mapped_at] sends an external port
    and protocol to an internal address and port. A successful addition sets one
    entry and a successful deletion removes one; nothing else changes the table,
    and an inspection that finds an entry reports it. *)
Class GatewayLaws (G W : Type) `{!GatewayApi G W} (mapped_at : G → W → Z * list Z → option (list Z * Z)) : Prop := {
  add_law g port iport ip name token lease w w' r : add_port_mapping g port iport ip name token lease w = (w', r) →
    ∀ k, mapped_at g w' k = match r with inr _ => if bool_decide (k = (port, token)) then Some (ip, iport) else mapped_at g w k | inl _ => mapped_at g w k end;
  delete_law g port token w w' r : delete_port_mapping g port token w = (w', r) →
    ∀ k, mapped_at g w' k = match r with inr _ => if bool_decide (k = (port, token)) then None else mapped_at g w k | inl _ => mapped_at g w k end;
  inspect_law g port token w w' r : get_specific_port_mapping g port token w = (w', r) →
    (∀ k, mapped_at g w' k = mapped_at g w k) ∧
    (∀ e, r = inr (Some e) → mapped_at g w (port, token) = Some (pm_internal_client e, pm_internal_port e));
  fetch_law g w w' r : fetch_external_ip g w = (w', r) → ∀ k, mapped_at g w' k = mapped_at g w k;
}.

(** The entry of the table that a mapping asks for. *)
Definition key_of (spec : MappingSpec) : Z * list Z := (external_port_of spec, as_upnp_token (sp_protocol spec)).
Definition endpoint_key (m : MappedEndpoint) : Z * list Z := (sa_port (me_external_addr m), as_upnp_token (me_protocol m)).

Section gateway.
Context {G W : Type} `{!GatewayApi G W} (mapped_at : G → W → Z * list Z → option (list Z * Z)) `{!GatewayLaws G W mapped_at}.
Context (parse_ip : list Z → option IpAddr).

(** Deletions reach only their keys, and empty them where the gateway accepts them. *)
Definition delete_all (g : G) (keys : list (Z * list Z)) (w : W) : W := foldl (λ w k, fst (delete_port_mapping g (fst k) (snd k) w)) w keys.
Lemma delete_all_other g keys w k : k ∉ keys → mapped_at g (delete_all g keys w) k = mapped_at g w k.
Proof.
  revert w. induction keys as [|[p t] keys IH]; intros w Hk; [done|]. rewrite not_elem_of_cons in Hk. destruct Hk as [Hne Hk].
  change (delete_all g ((p, t) :: keys) w) with (delete_all g keys (fst (delete_port_mapping g p t w))).
  rewrite (IH _ Hk). destruct (delete_port_mapping g p t w) as [w' r] eqn:Hd. rewrite (delete_law _ _ _ _ _ _ Hd).
  destruct r; [done|]. by rewrite bool_decide_eq_false_2.
Qed.
Lemma delete_all_gone g keys w k : (∀ p t w, snd (delete_port_mapping g p t w) = inr tt) → k ∈ keys → mapped_at g (delete_all g keys w) k = None.
Proof.
  intros Hok. revert w. induction keys as [|[p t] keys IH]; intros w Hk; [by apply not_elem_of_nil in Hk|].
  change (delete_all g ((p, t) :: keys) w) with (delete_all g keys (fst (delete_port_mapping g p t w))).
  destruct (decide (k ∈ keys)) as [Hin|Hin]; [by apply IH|]. apply elem_of_cons in Hk as [-> | Hk]; [|done].
  rewrite delete_all_other by done. destruct (delete_port_mapping g p t w) as [w' r] eqn:Hd. rewrite (delete_law _ _ _ _ _ _ Hd).
  pose proof (Hok p t w) as Hr. rewrite Hd in Hr. cbn in Hr. subst r. by rewrite bool_decide_eq_true_2.
Qed.
Definition flip (k : list Z * Z) : Z * list Z := (snd k, fst k).
Lemma rollback_deletes g applied w : rollback g applied w = delete_all g (flip <$> rev applied) w.
Proof.
  unfold rollback, delete_all. generalize (rev applied). intros l. revert w.
  induction l as [|[t p] l IH]; intros w; [done|]. cbn. by rewrite IH.
Qed.
Lemma release_deletes config ms w : release_blocking config ms w =
  match discover_gateway config w with
  | (w, None) => (w, inl (lit "gateway discovery failed during release"))
  | (w, Some g) => (delete_all g (endpoint_key <$> ms) w, inr tt)
  end.
Proof.
  unfold release_blocking. destruct (discover_gateway config w) as [w' [g|]]; [|done]. f_equal. unfold delete_all.
  revert w'. induction ms as [|m ms IH]; intros w'; [done|]. cbn. by rewrite IH.
Qed.

Section specs.
Context (backend : list Z) (config : NatConfig) (g : G) (own_ip : Ipv4Addr) (text : option (list Z)).
Local Abbreviation map_spec := (map_spec parse_ip backend config g own_ip text).
Local Abbreviation map_specs := (map_specs parse_ip backend config g own_ip text).
Local Abbreviation target spec := (internal_ip_of parse_ip config own_ip spec, sa_port (sp_local_addr spec)).

(** What the loop does at one mapping. *)
Inductive mapping_step (spec : MappingSpec) (w : W) : W → list (list Z * Z) → Prop :=
| step_added w' : (∀ k, mapped_at g w' k = if bool_decide (k = key_of spec) then Some (target spec) else mapped_at g w k) →
    mapping_step spec w w' [(as_upnp_token (sp_protocol spec), external_port_of spec)]
| step_reused w' : (∀ k, mapped_at g w' k = mapped_at g w k) → mapped_at g w (key_of spec) = Some (target spec) → mapping_step spec w w' [].

Lemma map_spec_cases spec applied mapped w w' r :
  map_spec spec applied mapped w = (w', r) →
  (∃ new, mapping_step spec w w' new ∧
     r = match parse_ip (default (ip_display own_ip) text) with
         | None => inl (lit "invalid external ip for " ++ sp_name spec)
         | Some ip => inr (applied ++ new, mapped ++ [mapped_endpoint backend config spec ip])
         end) ∨
  (∃ w1, (∀ k, mapped_at g w1 k = mapped_at g w k) ∧
     ((w' = w1 ∧ r = inl (gateway_error g " failed to inspect existing " spec) ∧ ∃ w2 w3, get_specific_port_mapping g (external_port_of spec) (as_upnp_token (sp_protocol spec)) w2 = (w3, inl tt)) ∨
      (w' = rollback g applied w1 ∧ r = inl (gateway_error g " failed to add " spec)))).
Proof.
  unfold PortMap.map_spec. destruct (add_port_mapping _ _ _ _ _ _ _ _) as [w1 [[]|[]]] eqn:Hadd.
  - assert (Hsame : ∀ k, mapped_at g w1 k = mapped_at g w k) by exact (add_law _ _ _ _ _ _ _ _ _ _ Hadd). unfold mapping_matches_existing_entry.
    destruct (get_specific_port_mapping _ _ _ _) as [w2 [[]|[e|]]] eqn:Hget; destruct (inspect_law _ _ _ _ _ _ Hget) as [Hsame2 Hfound].
    + intros [= <- <-]. right. exists w2. split; [intros k; rewrite Hsame2; apply Hsame|]. left. eauto.
    + destruct (existing_mapping_matches _ _ _) eqn:Hm.
      * unfold existing_mapping_matches in Hm. apply andb_true_iff in Hm as [Hc%bool_decide_eq_true Hp%Z.eqb_eq].
        intros H. assert (w2 = w') as <- by (by destruct (parse_ip _); injection H as ?). left. exists []. split.
        { apply step_reused; [intros k; rewrite Hsame2; apply Hsame|]. unfold key_of. rewrite <- Hsame, (Hfound e eq_refl). by rewrite Hc, Hp. }
        rewrite app_nil_r. by destruct (parse_ip _); injection H as <-.
      * intros [= <- <-]. right. exists w2. split; [intros k; rewrite Hsame2; apply Hsame|]. by right.
    + intros [= <- <-]. right. exists w2. split; [intros k; rewrite Hsame2; apply Hsame|]. by right.
  - intros H. assert (w1 = w') as <- by (by destruct (parse_ip _); injection H as ?). left.
    exists [(as_upnp_token (sp_protocol spec), external_port_of spec)]. split.
    { apply step_added. exact (add_law _ _ _ _ _ _ _ _ _ _ Hadd). }
    by destruct (parse_ip _); injection H as <-.
Qed.
Lemma map_specs_cons spec specs applied mapped w w' r :
  map_specs (spec :: specs) applied mapped w = (w', r) →
  (∃ w1 new, mapping_step spec w w1 new ∧
     match parse_ip (default (ip_display own_ip) text) with
     | None => w' = w1 ∧ r = inl (lit "invalid external ip for " ++ sp_name spec)
     | Some ip => map_specs specs (applied ++ new) (mapped ++ [mapped_endpoint backend config spec ip]) w1 = (w', r)
     end) ∨
  (∃ w1, (∀ k, mapped_at g w1 k = mapped_at g w k) ∧
     ((w' = w1 ∧ r = inl (gateway_error g " failed to inspect existing " spec) ∧ ∃ w2 w3, get_specific_port_mapping g (external_port_of spec) (as_upnp_token (sp_protocol spec)) w2 = (w3, inl tt)) ∨
      (w' = rollback g applied w1 ∧ r = inl (gateway_error g " failed to add " spec)))).
Proof.
  cbn [PortMap.map_specs]. destruct (PortMap.map_spec _ _ _ _ _ _ _ _ _ _) as [w1 r1] eqn:Hs.
  apply map_spec_cases in Hs as [(new & Hstep & ->)|(w2 & Hsame & [(-> & -> & H)|(-> & ->)])].
  - intros H. left. exists w1, new. split; [done|]. destruct (parse_ip _); [done|]. by injection H as <- <-.
  - intros [= <- <-]. right. exists w2. split; [done|]. by left.
  - intros [= <- <-]. right. exists w2. split; [done|]. by right.
Qed.

Lemma step_here spec w w' new : mapping_step spec w w' new → mapped_at g w' (key_of spec) = Some (target spec).
Proof. intros [? H|? H H']; [|by rewrite H]. by rewrite H, bool_decide_eq_true_2. Qed.
Lemma step_other spec w w' new k : mapping_step spec w w' new → k ≠ key_of spec → mapped_at g w' k = mapped_at g w k.
Proof. intros [? H|? H H'] Hk; [|apply H]. by rewrite H, bool_decide_eq_false_2. Qed.
Lemma step_keys spec w w' new k : mapping_step spec w w' new → k ∈ (flip <$> new) → k = key_of spec.
Proof. intros [? H|? H H'] Hk; [|by apply not_elem_of_nil in Hk]. by apply list_elem_of_singleton in Hk. Qed.
(** A mapping that was not added was there before. *)
Lemma step_kept spec w w' new k : mapping_step spec w w' new → k ∉ (flip <$> new) → mapped_at g w' k = mapped_at g w k.
Proof. intros [? H|? H H'] Hk; [|apply H]. rewrite H, bool_decide_eq_false_2; [done|]. intros ->. apply Hk. by left. Qed.
Lemma rollback_other applied w k : k ∉ (flip <$> applied) → mapped_at g (rollback g applied w) k = mapped_at g w k.
Proof. intros Hk. rewrite rollback_deletes. apply delete_all_other. intros Hin. apply Hk.
  apply list_elem_of_fmap in Hin as (x & -> & Hin). apply list_elem_of_fmap. exists x. split; [done|]. by apply list_elem_of_In, in_rev, list_elem_of_In. Qed.

(** Entries that no mapping asks for are never touched. *)
Lemma map_specs_other specs applied mapped w w' r k : map_specs specs applied mapped w = (w', r) →
  k ∉ (key_of <$> specs) → (is_Some (match r with inl e => Some e | inr _ => None end) → k ∉ (flip <$> applied)) → mapped_at g w' k = mapped_at g w k.
Proof.
  revert applied mapped w. induction specs as [|spec specs IH]; intros applied mapped w H Hk Ha; [by injection H as <- <-|].
  rewrite fmap_cons, not_elem_of_cons in Hk. destruct Hk as [Hne Hk].
  apply map_specs_cons in H as [(w1 & new & Hstep & H)|(w1 & Hsame & [(-> & _)|(-> & ->)])].
  - rewrite <- (step_other _ _ _ _ _ Hstep Hne). destruct (parse_ip _); [|by destruct H as [-> _]].
    apply (IH _ _ _ H Hk). intros Hr. rewrite fmap_app, not_elem_of_app. split; [by apply Ha|]. intros Hin. by apply (step_keys _ _ _ _ _ Hstep) in Hin.
  - apply Hsame.
  - rewrite rollback_other by (apply Ha; by eexists). apply Hsame.
Qed.

(** When the loop succeeds every mapping is in the table and reported, in order. *)
Lemma map_specs_ok specs applied mapped w w' ms : map_specs specs applied mapped w = (w', inr ms) → NoDup (key_of <$> specs) →
  (∃ ip, ms = mapped ++ ((λ spec, mapped_endpoint backend config spec ip) <$> specs) ∧ (specs ≠ [] → parse_ip (default (ip_display own_ip) text) = Some ip)) ∧
  (∀ spec, spec ∈ specs → mapped_at g w' (key_of spec) = Some (target spec)).
Proof.
  revert applied mapped w. induction specs as [|spec specs IH]; intros applied mapped w H Hnd.
  { injection H as <- <-. split; [exists (V6 0); by rewrite app_nil_r|]. intros spec Hin. by apply not_elem_of_nil in Hin. }
  rewrite fmap_cons, NoDup_cons in Hnd. destruct Hnd as [Hnew Hnd].
  apply map_specs_cons in H as [(w1 & new & Hstep & H)|(w1 & _ & [(_ & ? & _)|(_ & ?)])]; [|done..].
  destruct (parse_ip _) as [ip|] eqn:Hip; [|by destruct H].
  destruct (IH _ _ _ H Hnd) as [(ip' & -> & Hip') Hall]. split.
  - exists ip. split; [|done]. rewrite <- app_assoc. destruct specs as [|spec' specs]; [done|].
    assert (ip' = ip) as -> by (specialize (Hip' ltac:(done)); congruence). done.
  - intros s Hs. apply elem_of_cons in Hs as [->|Hs]; [|by apply Hall]. rewrite <- (step_here _ _ _ _ Hstep).
    apply (map_specs_other _ _ _ _ _ _ _ H Hnew). by intros [? [=]].
Qed.

(** A refused mapping takes back what was added. *)
Lemma map_specs_failed ip specs applied mapped w w' e : parse_ip (default (ip_display own_ip) text) = Some ip →
  (∀ p t w, snd (delete_port_mapping g p t w) = inr tt) → (∀ p t w, snd (get_specific_port_mapping g p t w) ≠ inl tt) →
  map_specs specs applied mapped w = (w', inl e) →
  ∀ k, mapped_at g w' k = None ∨ ((k ∉ (flip <$> applied)) ∧ mapped_at g w' k = mapped_at g w k).
Proof.
  intros Hip Hdel Hget. revert applied mapped w. induction specs as [|spec specs IH]; intros applied mapped w H k; [done|].
  apply map_specs_cons in H as [(w1 & new & Hstep & H)|(w1 & Hsame & [(_ & _ & w2 & w3 & H)|(-> & _)])].
  - rewrite Hip in H. destruct (IH _ _ _ H k) as [?|[Hk Hsame]]; [by left|]. right.
    rewrite fmap_app, not_elem_of_app in Hk. destruct Hk as [Hk Hn]. split; [done|]. rewrite Hsame. by apply (step_kept _ _ _ _ _ Hstep).
  - exfalso. apply (Hget (external_port_of spec) (as_upnp_token (sp_protocol spec)) w2). by rewrite H.
  - destruct (decide (k ∈ (flip <$> applied))) as [Hin|Hin].
    + left. rewrite rollback_deletes. apply delete_all_gone; [done|].
      apply list_elem_of_fmap in Hin as (x & -> & Hin). apply list_elem_of_fmap. exists x. split; [done|]. by apply list_elem_of_In, in_rev; rewrite rev_involutive; apply list_elem_of_In.
    + right. split; [done|]. rewrite rollback_other by done. apply Hsame.
Qed.
End specs.

(** *** The provider *)

(** Discovery that only ever finds [g] and leaves its table alone. *)
Definition only_gateway (config : NatConfig) (g : G) : Prop :=
  ∀ w w' r, discover_gateway config w = (w', r) → (r = Some g ∨ r = None) ∧ ∀ k, mapped_at g w' k = mapped_at g w k.

(** The part of [reconcile_blocking] before the loop leaves the table alone. *)
Lemma prepare_ok config g w w' r : only_gateway config g → reconcile_prepare parse_ip config w = (w', r) →
  (∀ k, mapped_at g w' k = mapped_at g w k) ∧
  match r with
  | inl _ => True
  | inr (g', own_ip, text) => g' = g ∧ gateway_local_ip parse_ip config g = Some own_ip ∧
      (nc_external_ip_override config = None ∨ nc_external_ip_override config = text)
  end.
Proof.
  intros Hg. unfold reconcile_prepare. destruct (discover_gateway config w) as [w0 o] eqn:Hd.
  destruct (Hg _ _ _ Hd) as [[-> | ->] Hs0]; [|by intros [= <- <-]].
  destruct (gateway_local_ip parse_ip config g) as [own_ip|] eqn:Hip; [|by intros [= <- <-]].
  destruct (nc_external_ip_override config) as [t|]; [intros [= <- <-]; split; [done|]; auto|].
  destruct (fetch_external_ip g w0) as [w1 fr] eqn:Hf. pose proof (fetch_law _ _ _ _ Hf) as Hs1.
  destruct fr as [u|[t|]]; intros [= <- <-]; (split; [intros k; by rewrite Hs1|auto]).
Qed.
Lemma reconcile_loop config g backend mappings w w' r :
  only_gateway config g → reconcile_blocking parse_ip backend config mappings w = (w', r) →
  (∃ e, r = inl e ∧ ∀ k, mapped_at g w' k = mapped_at g w k) ∨
  (∃ own_ip text w1 lr, (∀ k, mapped_at g w1 k = mapped_at g w k) ∧ gateway_local_ip parse_ip config g = Some own_ip ∧
     map_specs parse_ip backend config g own_ip text mappings [] [] w1 = (w', lr) ∧
     (nc_external_ip_override config = None ∨ nc_external_ip_override config = text) ∧
     r = match lr with
         | inl e => inl e
         | inr mapped => inr (mkOutcome (mkSelected backend (control_url g) (local_ip g) (gateway_ip g) text) (option_list text) mapped)
         end).
Proof.
  intros Hg. unfold reconcile_blocking. destruct (reconcile_prepare _ _ _) as [w1 p] eqn:Hp. destruct (prepare_ok _ _ _ _ _ Hg Hp) as [Hs Hin].
  destruct p as [e|[[g' own_ip] text]]; [intros [= <- <-]; left; by eexists|]. destruct Hin as (-> & Hip & Ht).
  destruct (map_specs _ _ _ _ _ _ _ _ _) as [w2 lr] eqn:Hm. intros H. right. exists own_ip, text, w1, lr. do 2 (split; [done|]).
  destruct lr; injection H as <- <-; done.
Qed.

(** A reconcile of the miniupnpc provider, on the only gateway that discovery finds,
    with mappings that ask for different ports. If it succeeds, the gateway sends
    every external port to the internal address and port of its mapping, and the
    status reports exactly the mappings, in order, with the external address, the
    lease and the configuration. If it fails, the status is as it was, and when the
    gateway answers deletions and inspections and the configured external address
    can be read, everything that was added is taken back. Ports that no mapping
    asks for are never touched. *)
Lemma nat_reconcile config g mappings now status w w' status' r :
  only_gateway config g → NoDup (key_of <$> mappings) → mappings ≠ [] →
  miniupnpc_reconcile parse_ip config mappings now status w = (w', status', r) →
  (∀ k, k ∉ (key_of <$> mappings) → mapped_at g w' k = mapped_at g w k) ∧
  match r with
  | inr _ =>
      ∃ own_ip ip, gateway_local_ip parse_ip config g = Some own_ip ∧
        (∀ spec, spec ∈ mappings → mapped_at g w' (key_of spec) =
           Some (ip_display (mapping_internal_ip parse_ip config spec own_ip), sa_port (sp_local_addr spec))) ∧
        ns_mappings status' = ((λ spec, mapped_endpoint UPNP_MINIUPNPC_BACKEND config spec ip) <$> mappings) ∧
        ns_backend status' = Some UPNP_MINIUPNPC_BACKEND ∧ ns_enabled status' = true ∧ ns_last_error status' = None ∧ ns_last_refresh_unix_secs status' = Some now
  | inl _ =>
      status' = status ∧
      ((∀ p t w, snd (delete_port_mapping g p t w) = inr tt) → (∀ p t w, snd (get_specific_port_mapping g p t w) ≠ inl tt) →
       is_Some (nc_external_ip_override config ≫= parse_ip) →
       ∀ k, mapped_at g w' k = None ∨ mapped_at g w' k = mapped_at g w k)
  end.
Proof.
  intros Hg Hnd Hne. unfold miniupnpc_reconcile. destruct mappings as [|m0 ms]; [done|].
  destruct (reconcile_blocking _ _ _ _ _) as [w2 r2] eqn:Hr. destruct (reconcile_loop _ _ _ _ _ _ _ Hg Hr) as [(e & -> & Hs)|(own_ip & text & w1 & lr & Hs & Hip & Hm & Ht & ->)].
  { intros [= <- <- <-]. split; [by intros|]. split; [done|]. intros _ _ _ k. by right. }
  assert (Hother : ∀ k, k ∉ (key_of <$> m0 :: ms) → mapped_at g w2 k = mapped_at g w k).
  { intros k Hk. rewrite <- Hs. apply (map_specs_other _ _ _ _ _ _ _ _ _ _ _ _ Hm Hk). intros _. apply not_elem_of_nil. }
  destruct lr as [e|mapped]; intros [= <- <- <-]; (split; [exact Hother|]).
  - split; [done|]. intros Hdel Hget [ip Hover] k.
    assert (Hparse : parse_ip (default (ip_display own_ip) text) = Some ip).
    { destruct Ht as [Ht|Ht]; rewrite Ht in Hover; [done|]. destruct text; [done|]. done. }
    destruct (map_specs_failed _ _ _ _ _ _ _ _ _ _ _ _ Hparse Hdel Hget Hm k) as [?|[_ ?]]; [by left|]. right. congruence.
  - destruct (map_specs_ok _ _ _ _ _ _ _ _ _ _ _ Hm Hnd) as [(ip & -> & _) Hall]. exists own_ip, ip. done.
Qed.

(** *** The manager *)

(** The state of a manager with the two providers that are modelled. *)
Record nat_inv (config : NatConfig) (specs : list MappingSpec) (g : G) (w0 : W) (s : W * NatManager W) : Prop := {
  inv_config : nm_config (snd s) = config;
  inv_specs : nm_mappings (snd s) = specs;
  inv_providers : nm_providers (snd s) = [miniupnpc_provider parse_ip; igd_provider];
  inv_mappings : ns_mappings (nm_status (snd s)) = [] ∨ (endpoint_key <$> ns_mappings (nm_status (snd s))) = (key_of <$> specs);
  inv_other : ∀ k, k ∉ (key_of <$> specs) → mapped_at g (fst s) k = mapped_at g w0 k;
}.

Lemma reconcile_backends_inv config specs g w0 now order errors status w w' status' r :
  only_gateway config g → NoDup (key_of <$> specs) →
  (ns_mappings status = [] ∨ (endpoint_key <$> ns_mappings status) = (key_of <$> specs)) → (∀ k, k ∉ (key_of <$> specs) → mapped_at g w k = mapped_at g w0 k) →
  reconcile_backends config specs [miniupnpc_provider parse_ip; igd_provider] now order errors status w = (w', status', r) →
  (ns_mappings status' = [] ∨ (endpoint_key <$> ns_mappings status') = (key_of <$> specs)) ∧ (∀ k, k ∉ (key_of <$> specs) → mapped_at g w' k = mapped_at g w0 k).
Proof.
  intros Hg Hnd. revert errors status w. induction order as [|b order IH]; intros errors status w Hst Hw; [by intros [= <- <- <-]|].
  cbn [reconcile_backends]. unfold find_provider. cbn [List.find].
  destruct (bool_decide (pv_name (miniupnpc_provider parse_ip) = b)).
  - cbn [pv_reconcile miniupnpc_provider]. destruct (miniupnpc_reconcile _ _ _ _ _ _) as [[w1 s1] r1] eqn:Hr.
    destruct (decide (specs = [])) as [->|Hne].
    { cbn in Hr. injection Hr as <- <- <-. by intros [= <- <- <-]. }
    assert (Hinv : (ns_mappings s1 = [] ∨ (endpoint_key <$> ns_mappings s1) = (key_of <$> specs)) ∧ (∀ k, k ∉ (key_of <$> specs) → mapped_at g w1 k = mapped_at g w0 k)).
    { unfold miniupnpc_reconcile in Hr. destruct specs as [|s0 specs]; [done|].
      destruct (reconcile_blocking _ _ _ _ _) as [w2 r2] eqn:Hb.
      destruct (reconcile_loop _ _ _ _ _ _ _ Hg Hb) as [(e & -> & Hs)|(own_ip & text & w3 & lr & Hs & _ & Hm & _ & ->)].
      { injection Hr as <- <- <-. split; [done|]. intros k Hk. rewrite Hs. by apply Hw. }
      assert (Hother : ∀ k, k ∉ (key_of <$> s0 :: specs) → mapped_at g w2 k = mapped_at g w0 k).
      { intros k Hk. rewrite <- (Hw _ Hk), <- Hs. apply (map_specs_other _ _ _ _ _ _ _ _ _ _ _ _ Hm Hk). intros _. apply not_elem_of_nil. }
      destruct lr as [e|mapped]; injection Hr as <- <- <-; (split; [|exact Hother]); [done|]. right.
      destruct (map_specs_ok _ _ _ _ _ _ _ _ _ _ _ Hm Hnd) as [(ip & -> & _) _]. cbn [ns_mappings ro_mappings app].
      rewrite <- list_fmap_compose. by apply list_fmap_ext. }
    destruct Hinv as [Hst1 Hw1]. destruct r1; [|by intros [= <- <- <-]]. by apply IH.
  - destruct (bool_decide (pv_name igd_provider = b)); by apply IH.
Qed.

Lemma release_with_inv config specs g w0 w status b targets :
  only_gateway config g → (endpoint_key <$> targets) = (key_of <$> specs) →
  (∀ k, k ∉ (key_of <$> specs) → mapped_at g w k = mapped_at g w0 k) → (ns_mappings status = [] ∨ (endpoint_key <$> ns_mappings status) = (key_of <$> specs)) →
  let '(w', status') := release_with config [miniupnpc_provider parse_ip; igd_provider] targets (w, status) b in
  (∀ k, k ∉ (key_of <$> specs) → mapped_at g w' k = mapped_at g w0 k) ∧ (ns_mappings status' = [] ∨ (endpoint_key <$> ns_mappings status') = (key_of <$> specs)) ∧
  ((∀ p t w, snd (delete_port_mapping g p t w) = inr tt) → (∀ w, snd (discover_gateway config w) = Some g) →
   b = UPNP_MINIUPNPC_BACKEND ∨ (∀ k, k ∈ (key_of <$> specs) → mapped_at g w k = None) → (∀ k, k ∈ (key_of <$> specs) → mapped_at g w' k = None)).
Proof.
  intros Hg Hkeys Hw Hst. unfold release_with, find_provider. cbn [List.find fst snd].
  destruct (bool_decide (pv_name (miniupnpc_provider parse_ip) = b)) eqn:Hb.
  - cbn [pv_release miniupnpc_provider]. unfold miniupnpc_release. destruct targets as [|t0 ts].
    { destruct specs; [|done]. cbn [fst]. split; [done|]. split; [done|]. intros _ _ _ k Hk. by apply not_elem_of_nil in Hk. }
    rewrite release_deletes. destruct (discover_gateway config w) as [w1 o] eqn:Hd. destruct (Hg _ _ _ Hd) as [[-> | ->] Hs].
    + cbn [fst]. rewrite Hkeys. split; [intros k Hk; rewrite delete_all_other, Hs by done; by apply Hw|].
      split; [by left|]. intros Hdel _ _ k Hk. by apply delete_all_gone.
    + cbn [fst]. split; [intros k Hk; rewrite Hs; by apply Hw|]. split; [done|]. intros _ Hf. specialize (Hf w). by rewrite Hd in Hf.
  - assert (Hno : ∀ b', b' = b → b' ≠ UPNP_MINIUPNPC_BACKEND) by (intros b' -> ->; by apply bool_decide_eq_false in Hb).
    destruct (bool_decide (pv_name igd_provider = b)); cbn [fst]; (split; [done|]); (split; [done|]); intros _ _ [Hb'|?]; try done; by apply Hno in Hb'.
Qed.

Lemma release_order_elem selected order b : b ∈ release_backend_order selected order ↔ selected = Some b ∨ b ∈ order.
Proof.
  unfold release_backend_order. assert (H : ∀ l, b ∈ foldl (λ ordered name, if bool_decide (name ∈ ordered) then ordered else ordered ++ [name]) l order ↔ b ∈ l ∨ b ∈ order).
  { induction order as [|x order IH]; intros l; cbn [foldl]; [set_solver|]. rewrite IH, elem_of_cons. case_bool_decide; set_solver. }
  rewrite H. destruct selected; set_solver.
Qed.
(** No backend is asked twice, and the selected one is asked first. *)
Lemma release_order_nodup selected order : NoDup (release_backend_order selected order) ∧ (∀ b, selected = Some b → head (release_backend_order selected order) = Some b).
Proof.
  unfold release_backend_order. assert (H : ∀ l, NoDup l → let l' := foldl (λ ordered name, if bool_decide (name ∈ ordered) then ordered else ordered ++ [name]) l order in
    NoDup l' ∧ ∀ b, head l = Some b → head l' = Some b).
  { induction order as [|x order IH]; intros l Hl; cbn [foldl]; [done|]. case_bool_decide as Hx; [by apply IH|].
    destruct (IH (l ++ [x])) as [H1 H2].
    { apply NoDup_app. split; [done|]. split; [|apply NoDup_singleton]. set_solver. }
    split; [done|]. intros b Hb. apply H2. destruct l; [done|]. exact Hb. }
  destruct (H (option_list selected)) as [H1 H2]; [destruct selected; [apply NoDup_singleton|apply NoDup_nil_2]|].
  split; [done|]. intros b ->. by apply H2.
Qed.

Lemma endpoint_targets specs lease : (endpoint_key <$> release_targets_from_specs specs lease) = (key_of <$> specs).
Proof. unfold release_targets_from_specs. rewrite <- list_fmap_compose. by apply list_fmap_ext. Qed.

Lemma nat_stop_inv config specs g w0 w m :
  only_gateway config g → nat_inv config specs g w0 (w, m) → let s' := nat_stop m w in
  nat_inv config specs g w0 s' ∧ nm_task (snd s') = false ∧
  ((∀ p t w, snd (delete_port_mapping g p t w) = inr tt) → (∀ w, snd (discover_gateway config w) = Some g) → UPNP_MINIUPNPC_BACKEND ∈ nc_backend_order config →
   ∀ k, k ∈ (key_of <$> specs) → mapped_at g (fst s') k = None).
Proof.
  intros Hg [Hc Hm Hp Hst Hw]. cbn [fst snd] in *. unfold nat_stop. rewrite Hc, Hm, Hp.
  set (targets := match ns_mappings (nm_status m) with [] => release_targets_from_specs specs (nc_lease_duration_secs config) | l => l end).
  assert (Hkeys : (endpoint_key <$> targets) = (key_of <$> specs)).
  { unfold targets. destruct Hst as [Hst|Hst]; [rewrite Hst; apply endpoint_targets|].
    destruct (ns_mappings (nm_status m)) as [|x l]; [apply endpoint_targets|done]. }
  destruct targets as [|t0 ts]; [destruct specs; [|done]; split; [by constructor|]; split; [done|]; intros _ _ _ k Hk; by apply not_elem_of_nil in Hk|].
  set (order := release_backend_order _ _).
  assert (Hfold : ∀ l acc, (∀ k, k ∉ (key_of <$> specs) → mapped_at g (fst acc) k = mapped_at g w0 k) →
    (ns_mappings (snd acc) = [] ∨ (endpoint_key <$> ns_mappings (snd acc)) = (key_of <$> specs)) →
    let acc' := foldl (release_with config [miniupnpc_provider parse_ip; igd_provider] (t0 :: ts)) acc l in
    (∀ k, k ∉ (key_of <$> specs) → mapped_at g (fst acc') k = mapped_at g w0 k) ∧ (ns_mappings (snd acc') = [] ∨ (endpoint_key <$> ns_mappings (snd acc')) = (key_of <$> specs)) ∧
    ((∀ p t w, snd (delete_port_mapping g p t w) = inr tt) → (∀ w, snd (discover_gateway config w) = Some g) →
     UPNP_MINIUPNPC_BACKEND ∈ l ∨ (∀ k, k ∈ (key_of <$> specs) → mapped_at g (fst acc) k = None) → (∀ k, k ∈ (key_of <$> specs) → mapped_at g (fst acc') k = None))).
  { induction l as [|b l IH]; intros [w1 s1] Hw1 Hs1.
    { split; [done|]. split; [done|]. intros _ _ [Hin|?]; [by apply not_elem_of_nil in Hin|done]. }
    cbn [foldl]. pose proof (release_with_inv config specs g w0 w1 s1 b (t0 :: ts) Hg Hkeys Hw1 Hs1) as Hstep.
    destruct (release_with _ _ _ _ _) as [w2 s2]. destruct Hstep as (Hw2 & Hs2 & Hgone).
    destruct (IH (w2, s2) Hw2 Hs2) as (Hw3 & Hs3 & Hgone3). split; [done|]. split; [done|].
    intros Hdel Hdisc Hor. apply (Hgone3 Hdel Hdisc). rewrite elem_of_cons in Hor. destruct Hor as [[Hb|Hin]|Hgn]; [right|by left|right].
    - apply Hgone; auto.
    - apply Hgone; auto. }
  destruct (Hfold order (w, nm_status m) Hw Hst) as (Hw' & Hs' & Hgone).
  destruct (foldl _ _ order) as [w' s']. split; [by constructor|]. split; [done|].
  intros Hdel Hdisc Hin. apply (Hgone Hdel Hdisc). left. apply release_order_elem. by right.
Qed.

(** A thread that was left works on the gateway for mappings of the configuration. *)
Record thread_ok (specs : list MappingSpec) (g : G) (th : reconcile_thread G) : Prop := {
  tok_gateway : th_gateway th = g;
  tok_left : th_left th ⊆ specs;
  tok_applied : (flip <$> th_applied th) ⊆ (key_of <$> specs);
}.
Lemma rollback_none g applied w k : mapped_at g w k = None → mapped_at g (rollback g applied w) k = None.
Proof.
  rewrite rollback_deletes. unfold delete_all. generalize (flip <$> rev applied). intros keys. revert w.
  induction keys as [|x keys IH]; intros w Hk; [done|]. cbn [foldl]. apply IH.
  destruct (delete_port_mapping g (fst x) (snd x) w) as [w1 r] eqn:Hd. cbn [fst]. rewrite (delete_law _ _ _ _ _ _ Hd k).
  destruct r; [done|]. by case_bool_decide.
Qed.
Lemma thread_step_ok config specs g th w w' th' : thread_ok specs g th → thread_step parse_ip config th w = (w', th') →
  (∀ k, k ∉ (key_of <$> specs) → mapped_at g w' k = mapped_at g w k) ∧
  (∀ k, k ∉ (key_of <$> th_left th) → mapped_at g w k = None → mapped_at g w' k = None) ∧
  (∀ t, th' = Some t → thread_ok specs g t ∧ th_left t ⊆ th_left th).
Proof.
  intros [Hg Hl Ha]. unfold thread_step. destruct (th_left th) as [|spec rest] eqn:Hleft; [by intros [= <- <-]|]. rewrite Hg.
  assert (Hspec : spec ∈ specs) by (apply Hl; left). assert (Hkey : key_of spec ∈ (key_of <$> specs)) by (by apply list_elem_of_fmap_2).
  assert (Hrest : rest ⊆ spec :: rest) by (intros x Hx; by right).
  destruct (map_spec _ _ _ _ _ _ _ _ _ _) as [w1 r] eqn:Hs.
  apply map_spec_cases in Hs as [(new & Hstep & ->)|(w2 & Hsame & Hr)].
  - assert (Heff : (∀ k, k ∉ (key_of <$> specs) → mapped_at g w1 k = mapped_at g w k) ∧
      (∀ k, k ∉ (key_of <$> spec :: rest) → mapped_at g w k = None → mapped_at g w1 k = None)).
    { split; intros k Hk; [|intros <-]; apply (step_other _ _ _ _ _ _ _ _ Hstep); intros ->; apply Hk; [done|left]. }
    destruct (parse_ip _) as [ip|]; intros [= <- <-]; (split; [apply Heff|]; split; [apply Heff|]); intros t [= <-].
    split; [|done]. split; cbn; [done|by etransitivity|]. rewrite fmap_app. intros k [Hk|Hk]%elem_of_app; [by apply Ha|].
    by rewrite (step_keys _ _ _ _ _ _ _ _ Hstep Hk).
  - assert (w1 = w2 ∨ w1 = rollback g (th_applied th) w2) as Hw by (destruct Hr as [(-> & _)|(-> & _)]; auto).
    assert (∃ e, r = inl e) as [e ->] by (destruct Hr as [(_ & -> & _)|(_ & ->)]; eauto). clear Hr.
    intros [= <- <-]. split; [|split; [|done]]; intros k Hk.
    + rewrite <- Hsame. destruct Hw as [-> | ->]; [done|]. apply rollback_other. intros Hin. by apply Hk, Ha.
    + rewrite <- Hsame. intros Hn. destruct Hw as [-> | ->]; [done|]. by apply rollback_none.
Qed.
Lemma thread_steps_ok config specs g n th w w' th' : thread_ok specs g th → thread_steps parse_ip config n th w = (w', th') →
  (∀ k, k ∉ (key_of <$> specs) → mapped_at g w' k = mapped_at g w k) ∧ (∀ t, th' = Some t → thread_ok specs g t).
Proof.
  revert th w. induction n as [|n IH]; intros th w Hth; cbn [thread_steps]; [by intros [= <- <-]; split; [done|intros t [= <-]]|].
  destruct (thread_step _ _ _ _) as [w1 [t1|]] eqn:Hs; destruct (thread_step_ok _ _ _ _ _ _ _ Hth Hs) as (H1 & _ & H2).
  - intros H. destruct (IH _ _ (proj1 (H2 _ eq_refl)) H) as [H3 H4]. split; [|done]. intros k Hk. by rewrite H3, H1.
  - by intros [= <- <-].
Qed.

(** The state of the manager and of the threads that were left. *)
Record system_inv (config : NatConfig) (specs : list MappingSpec) (g : G) (w0 : W) (s : nat_system G W) : Prop := {
  si_manager : nat_inv config specs g w0 (sy_world s, sy_manager s);
  si_threads : Forall (thread_ok specs g) (sy_threads s);
}.
Lemma aborted_turn_inv config specs g w0 p w m w' status th : only_gateway config g → NoDup (key_of <$> specs) → nat_inv config specs g w0 (w, m) →
  aborted_turn parse_ip p m w = (w', status, th) →
  nat_inv config specs g w0 (w', mkManager (nm_config m) (nm_mappings m) (nm_providers m) status (nm_task m)) ∧ Forall (thread_ok specs g) (option_list th).
Proof.
  intros Hg Hnd [Hc Hm Hp Hst Hw]. cbn [fst snd] in *. unfold aborted_turn. rewrite Hc, Hm, Hp.
  destruct (nm_task m); [|intros [= <- <- <-]; split; [by constructor|by apply Forall_nil_2]].
  destruct (reconcile_backends _ _ _ _ _ _ _ _) as [[w1 s1] [e|u]] eqn:Hr; [|intros [= <- <- <-]; split; [by constructor|by apply Forall_nil_2]].
  destruct (reconcile_backends_inv _ _ _ _ _ _ _ _ _ _ _ _ Hg Hnd Hst Hw Hr) as [Hst1 Hw1].
  case_bool_decide; [|intros [= <- <- <-]; split; [by constructor|by apply Forall_nil_2]].
  destruct (reconcile_prepare _ _ _) as [w2 [e'|[[g' own_ip] text]]] eqn:Hpre; destruct (prepare_ok _ _ _ _ _ Hg Hpre) as [Hs Hin].
  { intros [= <- <- <-]. split; [|by apply Forall_nil_2]. constructor; [done..|]. intros k Hk. cbn. rewrite Hs. by apply Hw1. }
  destruct Hin as [-> _]. destruct (thread_steps _ _ _ _ _) as [w3 th'] eqn:Ht. intros [= <- <- <-].
  apply (thread_steps_ok _ specs g) in Ht as [Ht1 Ht2]; [|split; [done|done|intros k Hk; by apply not_elem_of_nil in Hk]].
  split; [constructor; [done..|]; intros k Hk; cbn; by rewrite Ht1, Hs, Hw1|]. destruct th' as [t|]; [|by apply Forall_nil_2]. apply Forall_singleton. auto.
Qed.
(** A stop leaves the threads that there were and at most the one of the turn it aborts,
    and when the gateway is found and accepts deletions no mapping. *)
Lemma nat_stop_step config specs g w0 s during : only_gateway config g → NoDup (key_of <$> specs) → system_inv config specs g w0 s →
  let s' := nat_step parse_ip s (NStop during) in
  system_inv config specs g w0 s' ∧ nm_task (sy_manager s') = false ∧ (during = None → sy_threads s' = sy_threads s) ∧
  ((∀ p t w, snd (delete_port_mapping g p t w) = inr tt) → (∀ w, snd (discover_gateway config w) = Some g) → UPNP_MINIUPNPC_BACKEND ∈ nc_backend_order config →
   ∀ k, k ∈ (key_of <$> specs) → mapped_at g (sy_world s') k = None).
Proof.
  intros Hg Hnd [Hinv Hth]. destruct s as [w m threads]. cbn [sy_world sy_manager sy_threads nat_step] in *.
  destruct (match during with Some p => aborted_turn parse_ip p m w | None => (w, nm_status m, None) end) as [[w1 status] th] eqn:Ha.
  assert (Hmid : nat_inv config specs g w0 (w1, mkManager (nm_config m) (nm_mappings m) (nm_providers m) status (nm_task m)) ∧ Forall (thread_ok specs g) (option_list th)).
  { destruct during as [p|]; [by eapply aborted_turn_inv|]. injection Ha as <- <- <-. split; [|by apply Forall_nil_2]. by destruct Hinv; constructor. }
  destruct Hmid as [Hinv1 Hth1]. destruct (nat_stop_inv _ _ _ _ _ _ Hg Hinv1) as (Hinv' & Htask & Hgone).
  destruct (nat_stop _ w1) as [w2 m2]. split; [split; [done|]; by apply Forall_app|]. split; [done|]. split; [|done].
  intros ->. injection Ha as _ _ <-. apply app_nil_r.
Qed.
Lemma nat_step_inv config specs g w0 s e : only_gateway config g → NoDup (key_of <$> specs) → system_inv config specs g w0 s →
  system_inv config specs g w0 (nat_step parse_ip s e).
Proof.
  intros Hg Hnd Hinv. destruct e as [|now|during|i]; [..|].
  - destruct s as [w m threads]. destruct Hinv as [[Hc Hm Hp Hst Hw] Hth]. split; [|done]. cbn. unfold nat_start. repeat case_match; by constructor.
  - destruct s as [w m threads]. cbn [nat_step]. destruct (nm_task m); [|done]. destruct Hinv as [[Hc Hm Hp Hst Hw] Hth]. cbn [fst snd sy_world sy_manager] in *.
    unfold nat_turn, reconcile_once. rewrite Hc, Hm, Hp. destruct (reconcile_backends _ _ _ _ _ _ _ _) as [[w' s'] r] eqn:Hr.
    destruct (reconcile_backends_inv _ _ _ _ _ _ _ _ _ _ _ _ Hg Hnd Hst Hw Hr) as [Hst' Hw']. destruct r; (split; [by constructor|done]).
  - by apply nat_stop_step.
  - destruct s as [w m threads]. cbn [nat_step]. destruct (threads !! i) as [th|] eqn:Hi; [|done]. destruct Hinv as [[Hc Hm Hp Hst Hw] Hth]. cbn [fst snd sy_world sy_manager sy_threads] in *.
    rewrite Hc. pose proof (Forall_lookup_1 _ _ _ _ Hth Hi) as Hok. destruct (thread_step _ _ _ _) as [w' [t|]] eqn:Ht;
      destruct (thread_step_ok _ _ _ _ _ _ _ Hok Ht) as (H1 & _ & H2); (split; [constructor; try done; intros k Hk; cbn; by rewrite H1, Hw|]); cbn.
    + apply Forall_insert; [done|]. by apply H2.
    + by apply Forall_delete.
Qed.
(** The threads that are left fill only ports that they had still to map. *)
Definition left_keys (s : nat_system G W) : list (Z * list Z) := key_of <$> (sy_threads s ≫= th_left).
Lemma thread_events config specs g w0 left steps : only_gateway config g → NoDup (key_of <$> specs) → ∀ s, system_inv config specs g w0 s →
  left_keys s ⊆ left → (∀ k, k ∈ (key_of <$> specs) → k ∉ left → mapped_at g (sy_world s) k = None) →
  ∀ k, k ∈ (key_of <$> specs) → k ∉ left → mapped_at g (sy_world (foldl (nat_step parse_ip) s (NThread <$> steps))) k = None.
Proof.
  intros Hg Hnd. induction steps as [|i steps IH]; intros s Hinv Hl Hn; [done|]. cbn [fmap list_fmap foldl].
  apply IH; [by apply nat_step_inv|..]; destruct s as [w m threads]; cbn [nat_step]; destruct (threads !! i) as [th|] eqn:Hi; try done;
    pose proof (Forall_lookup_1 _ _ _ _ (si_threads _ _ _ _ _ Hinv) Hi) as Hok;
    (assert (Hth : (key_of <$> th_left th) ⊆ left);
     [intros k (spec & -> & Hs)%list_elem_of_fmap; apply Hl, list_elem_of_fmap_2, list_elem_of_bind; exists th; split; [done|by eapply list_elem_of_lookup_2]|]);
    destruct (thread_step _ _ _ _) as [w' [t|]] eqn:Ht; destruct (thread_step_ok _ _ _ _ _ _ _ Hok Ht) as (_ & H1 & H2).
  - intros k (spec & -> & (t' & Hs & Ht')%list_elem_of_bind)%list_elem_of_fmap. cbn [sy_threads] in Ht'.
    apply list_elem_of_lookup in Ht' as [j Hj]. rewrite list_lookup_insert_Some in Hj. destruct Hj as [(-> & -> & _)|[_ Hj]].
    + apply Hth, list_elem_of_fmap_2. by apply (proj2 (H2 _ eq_refl)).
    + apply Hl, list_elem_of_fmap_2, list_elem_of_bind. exists t'. split; [done|]. by eapply list_elem_of_lookup_2.
  - intros k (spec & -> & (t' & Hs & Ht')%list_elem_of_bind)%list_elem_of_fmap. cbn [sy_threads] in Ht'.
    apply Hl, list_elem_of_fmap_2, list_elem_of_bind. exists t'. split; [done|]. apply list_elem_of_lookup in Ht' as [j Hj].
    destruct (decide (j < i)%nat) as [?|?]; [rewrite list_lookup_delete_lt in Hj by done|rewrite list_lookup_delete_ge in Hj by lia]; by eapply list_elem_of_lookup_2.
  - intros k Hk Hkl. cbn [sy_world]. apply H1; [intros Hin; by apply Hkl, Hth|by apply Hn].
  - intros k Hk Hkl. cbn [sy_world]. apply H1; [intros Hin; by apply Hkl, Hth|by apply Hn].
Qed.

End gateway.

(** ** Examples *)

Module Example.
(** A gateway that refuses to replace an entry of another client. *)
Definition table : Type := gmap (Z * list Z) (list Z * Z).
Definition url : list Z := lit "http://192.168.1.1:5000/ctl".
#[global] Instance table_api : GatewayApi unit table := {
  control_url _ := url;
  gateway_ip _ := Some (lit "192.168.1.1");
  local_ip _ := Some (lit "192.168.1.5");
  external_ip _ := None;
  fetch_external_ip _ w := (w, inr (Some (lit "80.1.2.3")));
  add_port_mapping _ port iport ip name token lease w :=
    match w !! (port, token) with
    | Some _ => (w, inl tt)
    | None => (<[(port, token) := (ip, iport)]> w, inr tt)
    end;
  delete_port_mapping _ port token w := (delete (port, token) w, inr tt);
  get_specific_port_mapping _ port token w := (w, inr ((λ '(ip, iport), mkPortEntry ip iport) <$> w !! (port, token)));
  gateway_from_url _ w := (w, inr None);
  discover _ w := (w, inr (Some tt));
}.
Definition entry_at (g : unit) (w : table) (k : Z * list Z) : option (list Z * Z) := w !! k.
#[global] Instance table_laws : GatewayLaws unit table entry_at.
Proof.
  split; unfold entry_at; cbn.
  - intros g port iport ip name token lease w w' r H k. destruct (w !! (port, token)); injection H as <- <-; [done|].
    case_bool_decide as Hk; [subst k; apply lookup_insert_eq|by apply lookup_insert_ne].
  - intros g port token w w' r [= <- <-] k. case_bool_decide as Hk; [subst k; apply lookup_delete_eq|by apply lookup_delete_ne].
  - intros g port token w w' r [= <- <-]. split; [done|]. intros e [= H]. destruct (w !! (port, token)) as [[ip iport]|]; [|done]. by injection H as <-.
  - by intros g w w' r [= <- <-].
Qed.
Definition parse (s : list Z) : option IpAddr := V4 <$> ipv4_from_str s.
Definition specs : list MappingSpec :=
  [mkSpec (lit "kad") (mkSocketAddr (V4 (0, 0, 0, 0)) 4672) Udp Required None; mkSpec (lit "ed2k") (mkSocketAddr (V4 (0, 0, 0, 0)) 4662) Tcp Required (Some 4663)].
Definition config : NatConfig := mkNatConfig true default_upnp_backend_order None None None None 5 3600 300 None.
Lemma only_tt c : nc_igd_ip c = None → only_gateway entry_at c tt.
Proof. intros Hc w w' r. unfold discover_gateway. rewrite Hc. cbn. intros [= <- <-]. split; [by left|done]. Qed.

(** The external address that cannot be read leaves the first mapping on the gateway
    after the reconcile has failed: only a refused mapping takes the others back. *)
Lemma unreadable_address_leaks :
  let bad := mkNatConfig true default_upnp_backend_order None None None None 5 3600 300 (Some (lit "router")) in
  let '(w, status, r) := miniupnpc_reconcile parse bad specs 100 nat_status_default ∅ in
  r = inl (lit "invalid external ip for kad") ∧ ns_mappings status = [] ∧ w !! (4672, lit "UDP") = Some (lit "192.168.1.5", 4672).
Proof. vm_compute. done. Qed.
(** A stop that aborts a turn after its first mapping: the thread adds the second one
    when both were released, and nothing knows of it any more. *)
Lemma stop_races_reconcile :
  let start := mkSystem ∅ (nat_manager_new config specs [miniupnpc_provider parse; igd_provider]) [] in
  let s := foldl (nat_step parse) start [NStart; NStop (Some (mkPoint 100 0 1)); NThread 0; NThread 0] in
  sy_threads s = [] ∧ nm_task (sy_manager s) = false ∧ ns_mappings (nm_status (sy_manager s)) = [] ∧
  sy_world s !! (4663, lit "TCP") = Some (lit "192.168.1.5", 4662).
Proof. vm_compute. done. Qed.
End Example.



(** A lease that is at least the margin and half a minute longer is renewed the margin before its end. *)
Lemma refresh_before_expiry config :
  0 ≤ nc_renew_margin_secs config < 2 ^ 32 → nc_renew_margin_secs config + 30 ≤ nc_lease_duration_secs config →
  refresh_period config = nc_lease_duration_secs config - nc_renew_margin_secs config.
Proof. intros Hm Hl. unfold refresh_period, saturating_sub. rewrite Z.mod_small by lia. lia. Qed.
(** The margin is cut to 32 bits: one of 2^32 seconds is no margin at all. *)
Lemma refresh_margin_cut : refresh_period (mkNatConfig true [] None None None None 5 3600 (2 ^ 32) None) = 3600.
Proof. reflexivity. Qed.

(** [reconcile_once] asks the backends in order until one succeeds, and otherwise reports all of their errors in order. *)
Lemma reconcile_backends_outcome {W : Type} config mappings (providers : list (PortMappingProvider W)) now order errors status w :
  let '(w', status', r) := reconcile_backends config mappings providers now order errors status w in
  match r with
  | inr _ => ∃ b p w1 s1, b ∈ order ∧ find_provider providers b = Some p ∧ pv_reconcile p config mappings now s1 w1 = (w', status', inr tt)
  | inl e => ∃ l, length l = length order ∧ e = match errors ++ l with [] => lit "no configured NAT backends are available" | all => aggregated_backend_error all end
  end.
Proof.
  revert errors status w. induction order as [|b order IH]; intros errors status w; cbn [reconcile_backends].
  { exists []. rewrite app_nil_r. by destruct errors. }
  destruct (find_provider providers b) as [p|] eqn:Hf.
  - destruct (pv_reconcile p config mappings now status w) as [[w1 s1] [e|[]]] eqn:Hr; [|exists b, p, w, status; split; [left|done]].
    specialize (IH (errors ++ [pv_name p ++ lit ": " ++ e]) s1 w1). destruct (reconcile_backends _ _ _ _ _ _ _ _) as [[w' s'] [e'|u]].
    + destruct IH as (l & Hl & ->). eexists (_ :: l). split; [cbn; by rewrite Hl|]. by rewrite <- app_assoc.
    + destruct IH as (b' & p' & w2 & s2 & Hin & H). exists b', p', w2, s2. split; [by right|done].
  - specialize (IH (errors ++ [b ++ lit ": backend not available in this build"]) status w). destruct (reconcile_backends _ _ _ _ _ _ _ _) as [[w' s'] [e'|u]].
    + destruct IH as (l & Hl & ->). eexists (_ :: l). split; [cbn; by rewrite Hl|]. by rewrite <- app_assoc.
    + destruct IH as (b' & p' & w2 & s2 & Hin & H). exists b', p', w2, s2. split; [by right|done].
Qed.
