(* ===== verification/Session.v ===== *)
(** * Sessions with peers: their monad

    A session of [ed2k_tcp] has variables of its own and works on what the agent's tasks
    share, and each of its steps may fail. This file has the monad of such steps, and
    what it means that a step keeps the invariants of both and does not panic. *)

From S2P Require Import Prelude PeerTransport PeerCodec.

(** A step of a session with variables [S] on the shared state [W]. *)
Definition PM (S W A : Type) : Type := S → W → S * W * res PeerError A.
#[export] Instance sm_ret {S W} : MRet (PM S W) := λ A a s w, (s, w, Ok a).
#[export] Instance sm_bind {S W} : MBind (PM S W) := λ A B k m s w,
  match m s w with
  | (s', w', Ok a) => k a s' w'
  | (s', w', Err e) => (s', w', Err e)
  | (s', w', Panic) => (s', w', Panic)
  end.
Section monad.
Context {S W : Type}.
(** A step of the codec. *)
Definition peer {A} (r : res PeerError A) : PM S W A := λ s w, (s, w, r).
Definition gets {A} (f : S → A) : PM S W A := λ s w, (s, w, Ok (f s)).
Definition update (f : S → S) : PM S W () := λ s w, (f s, w, Ok ()).
Definition when (b : bool) (m : PM S W ()) : PM S W () := if b then m else mret ().
End monad.

(** ** Invariants *)

Section fine.
Context {S W : Type} (I : S → Prop) (J : W → Prop).
(** A step keeps both invariants, also when it fails, does not panic, and yields a value
    of [Q]. *)
Definition fine {A} (Q : A → Prop) (m : PM S W A) : Prop := ∀ s w, I s → J w →
  let '(s', w', r) := m s w in I s' ∧ J w' ∧ safe Q r.

Lemma fine_ret {A} (Q : A → Prop) a : Q a → fine Q (mret a).
Proof. intros Ha s w Hs Hw. done. Qed.
Lemma fine_bind {A B} (P : A → Prop) (Q : B → Prop) (m : PM S W A) k :
  fine P m → (∀ a, P a → fine Q (k a)) → fine Q (m ≫= k).
Proof.
  intros Hm Hk s w Hs Hw. specialize (Hm s w Hs Hw). unfold mbind, sm_bind. destruct (m s w) as [[s' w'] [a|e|]]; [|done..].
  destruct Hm as (Hs' & Hw' & Ha). by apply Hk.
Qed.
Lemma fine_weaken {A} (P Q : A → Prop) (m : PM S W A) : fine P m → (∀ a, P a → Q a) → fine Q m.
Proof.
  intros Hm HPQ s w Hs Hw. specialize (Hm s w Hs Hw). destruct (m s w) as [[s' w'] r]. destruct Hm as (? & ? & Hr).
  split; [done|]. split; [done|]. by eapply safe_weaken.
Qed.
Lemma fine_peer {A} (Q : A → Prop) r : safe Q r → fine Q (peer r).
Proof. intros Hr s w Hs Hw. done. Qed.
Lemma fine_gets {A} (f : S → A) (Q : A → Prop) : (∀ s, I s → Q (f s)) → fine Q (gets f).
Proof. intros Hf s w Hs Hw. split; [done|]. split; [done|]. by apply Hf. Qed.
Lemma fine_update f : (∀ s, I s → I (f s)) → fine (λ _, True) (update f).
Proof. intros Hf s w Hs Hw. split; [by apply Hf|]. done. Qed.
Lemma fine_when b (m : PM S W ()) : fine (λ _, True) m → fine (λ _, True) (when b m).
Proof. destruct b; [done|]. intros _. by apply fine_ret. Qed.
Lemma fine_decoded {A B} (P : A → Prop) (Q : B → Prop) r (k : A → PM S W B) :
  safe P r → (∀ a, P a → fine Q (k a)) → fine Q (peer r ≫= k).
Proof. intros Hr Hk. eapply fine_bind; [by apply fine_peer|done]. Qed.
End fine.
