(* ===== verification/ServerTypes.v ===== *)
(** * The state of the server session

    [ed2k_server/types.rs]: what the agent knows of the eD2k server it is connected to,
    and [apply_server_state] and [enrich_hello_identity] of [ed2k_tcp.rs], which put it
    into the identity that hellos announce. *)

From S2P Require Import Prelude Net KadFirewall Hello.

Definition is_low_id (client_id : Z) : bool := client_id <? 0x01000000.
Record Ed2kServerState : Type := mkServerState {
  sv_endpoint : option SocketAddr;
  sv_client_id : option Z;
  sv_server_flags : option Z;
  sv_server_users : option Z;
  sv_server_files : option Z;
  sv_server_name : option (list Z);
  sv_server_description : option (list Z);
  sv_connected : bool
}.
Definition server_state_default : Ed2kServerState := mkServerState None None None None None None None false.
Definition tcp_firewalled (s : Ed2kServerState) : option bool := option_map is_low_id (sv_client_id s).

Definition apply_server_state (i : Ed2kHelloIdentity) (s : Ed2kServerState) : Ed2kHelloIdentity :=
  let client_id := default (hi_client_id i) (sv_client_id s) in
  let '(server_ip, server_port) :=
    match sv_endpoint s with
    | Some (mkSocketAddr (V4 (a, b, c, d)) port) => (from_le_bytes [a; b; c; d], port)
    | _ => (hi_server_ip i, hi_server_port i)
    end in
  mkHelloIdentity (hi_user_hash i) client_id (hi_tcp_port i) (hi_udp_port i) server_ip server_port (hi_connect_options i)
    (hi_direct_udp_callback i).
Definition enrich_hello_identity (i : Ed2kHelloIdentity) (s : Ed2kServerState) (f : KadFirewallState) : Ed2kHelloIdentity :=
  let i := apply_server_state i s in
  mkHelloIdentity (hi_user_hash i) (hi_client_id i) (hi_tcp_port i) (hi_udp_port i) (hi_server_ip i) (hi_server_port i)
    (hi_connect_options i) (negb (hi_client_id i =? 0) && (hi_client_id i <? 0x01000000) && udp_verified f && udp_open f).

(** ** Identities stay typed *)

Definition server_state_ok (s : Ed2kServerState) : Prop :=
  (∀ z, sv_client_id s = Some z → is_u32 z = true) ∧
  (∀ a, sv_endpoint s = Some a → is_u16 (sa_port a) = true ∧ match sa_ip a with V4 (a, b, c, d) => is_bytes [a; b; c; d] = true | V6 _ => True end).
Lemma enrich_ok i s f : identity_ok i → server_state_ok s → identity_ok (enrich_hello_identity i s f).
Proof.
  intros (Hh & Hc & Ht & Hu & Hi & Hp & Ho) [Hs He]. unfold enrich_hello_identity, apply_server_state, identity_ok.
  assert (Hid : is_u32 (default (hi_client_id i) (sv_client_id s)) = true) by (by destruct (sv_client_id s); [apply Hs|]).
  destruct (sv_endpoint s) as [[[[[[a b] c] d]|v6] port]|]; cbn [hi_user_hash hi_client_id hi_tcp_port hi_udp_port hi_server_ip
    hi_server_port hi_connect_options]; [|split_and!; done..].
  destruct (He _ eq_refl) as [Hport Hip]. split_and!; try done. apply is_u32_spec.
  pose proof (from_le_bytes_bound [a; b; c; d] Hip) as Hb. cbn [length] in Hb. lia.
Qed.
