(* ===== verification/Download.v ===== *)
(** * Download sessions

    [ed2k_tcp/download/]: the window of requested blocks ([window.rs]), the writing of
    what arrives ([blocks.rs], [session/parts.rs]), the start of a session
    ([session/startup.rs], [session/state.rs]) and its loop ([session.rs]). A session
    runs over its own state and the transfer store; a packet is an event, and so are
    the end of the stream, an error of it, and a timeout. Every write to the peer may
    fail. The clock and random challenges are arguments: one reading when a turn
    starts and one when its event arrives. The dumps of packets are left out. *)

From S2P Require Import Prelude F64 Net NodeId Text Hashset Transfer PeerTransport PeerCodec PeerParts Hello Session.

(** ** State *)

Record ActiveDownloadPiece : Type := mkActive { ap_piece_index : Z; ap_next_offset : Z; ap_piece_end : Z }.
Record PendingPartRequest : Type := mkPending {
  pr_piece_index : Z;
  pr_start : Z;
  pr_end : Z;
  queued : bool;
  received_end : Z;
  response_bytes : list Z
}.
Definition pending_new (piece_index start end_ : Z) : PendingPartRequest := mkPending piece_index start end_ false start [].
Definition matches_uncompressed_fragment (start end_ : Z) (r : PendingPartRequest) : bool :=
  queued r && (received_end r =? start) && (start <=? end_) && (end_ <=? pr_end r).
Definition buffer_response_bytes (start end_ : Z) (bytes : list Z) (r : PendingPartRequest) : res PeerError PendingPartRequest :=
  let expected_end := saturating_add 64 start (zlen bytes) in
  if negb (start =? received_end r) || negb (end_ =? expected_end) || (pr_end r <? end_) then Err PRange
  else Ok (mkPending (pr_piece_index r) (pr_start r) (pr_end r) (queued r) end_ (response_bytes r ++ bytes)).
Definition is_ready (r : PendingPartRequest) : bool := received_end r =? pr_end r.
Definition set_queued (r : PendingPartRequest) : PendingPartRequest :=
  mkPending (pr_piece_index r) (pr_start r) (pr_end r) true (received_end r) (response_bytes r).

(** The fields of [DownloadSessionState], in groups: what the peer supports, how far the
    start has come, and the transfer. *)
Record RemoteSupport : Type := mkRemote {
  remote_supports_aich : bool;
  remote_supports_secure_ident : bool;
  remote_supports_file_identifiers : bool;
  remote_supports_multipacket : bool;
  remote_supports_ext_multipacket : bool;
  remote_source_exchange_version : Z;
  remote_supports_source_exchange : bool;
  remote_supports_source_exchange2 : bool
}.
Record StartupState : Type := mkStartup {
  hello_complete : bool;
  secure_ident_started : bool;
  source_exchange_allowed : bool;
  startup_file_requests_sent : bool;
  startup_file_response_received : bool;
  source_request_sent : bool;
  aich_file_hash_requested : bool;
  hashset_requested_at : option Z;
  upload_requested : bool
}.
Record WindowState : Type := mkWindow {
  upload_accepted : bool;
  upload_accepted_at : option Z;
  part_response_deadline : option Z;
  queued_until : option Z;
  active_piece_request : option ActiveDownloadPiece;
  completed_block_count : Z;
  session_payload_down : Z
}.
Record DownloadSessionState : Type := mkDownloadState {
  peer_secure_ident : Ed2kPeerSecureIdentState;
  remote : RemoteSupport;
  startup : StartupState;
  window : WindowState
}.
(** [hashset_requested] is set with [hashset_requested_at] and nowhere else. *)
Definition hashset_requested (u : StartupState) : bool := bool_decide (is_Some (hashset_requested_at u)).

Definition download_state_new (initial_hello_complete initial_secure_ident_started source_exchange_allowed : bool)
    : DownloadSessionState :=
  let b := initial_hello_complete in
  mkDownloadState ident_state_default
    (mkRemote b b false b b (if b then ED2K_SOURCE_EXCHANGE2_VERSION else 0) b b)
    (mkStartup b initial_secure_ident_started source_exchange_allowed false false false false None false)
    (mkWindow false None None None None 0 0).

Definition waiting_for_peer_secure_ident (st : DownloadSessionState) : bool :=
  let i := peer_secure_ident st in
  secure_ident_started (startup st) &&
  (negb (bool_decide (is_Some (peer_challenge_from i))) || pending_signature i ||
   (requested_peer_key i && negb (bool_decide (is_Some (peer_public_key i)))) ||
   (bool_decide (is_Some (challenge_for i)) && negb (peer_signature_received i))).

Inductive Ed2kPeerDownloadOutcome : Type := Completed | AcceptedButIncomplete.

(** ** The limits of the window *)

Definition remaining_unverified_bytes (m : Ed2kResumeManifest) : Z :=
  foldr Z.add 0 ((λ p, saturating_sub (expected_piece_length (file_size m) (piece_size m) (piece_index p)) (bytes_written p)) <$> pieces m).

Record DownloadWindowLimits : Type := mkLimits { max_pending_blocks : Z; min_pending_blocks : Z }.
Definition select_download_window_limits (m : Ed2kResumeManifest) (completed_block_count session_payload_down elapsed : Z)
    : DownloadWindowLimits :=
  if (completed_block_count =? 0) || (session_payload_down =? 0) then mkLimits 1 1
  else
    let remaining_bytes := remaining_unverified_bytes m in
    let elapsed_secs := f64_max (as_secs_f64 elapsed) (f64_div (f64_of 1) (f64_of 1000)) in
    let download_rate := f64_div (f64_of session_payload_down) elapsed_secs in
    let '(max_pending_blocks, block_delta) :=
      if remaining_bytes <=? ED2K_PART_SIZE * 4 then
        if (completed_block_count <? 2) || SFltb download_rate (f64_of 600) || (session_payload_down <? 40 * 1024) then (1, 0)
        else if SFltb download_rate (f64_of 1200) then (2, 0)
        else (3, 1)
      else if (3 <=? completed_block_count) && SFltb (f64_of (75 * 1024)) download_rate then (6, 2)
      else (3, 1) in
    mkLimits max_pending_blocks (Z.max (saturating_sub max_pending_blocks block_delta) 1).

(** Durations and instants in nanoseconds. *)
Definition next_download_read_timeout (now base_timeout : Z) (fallback_poll_delay queued_until part_response_deadline : option Z) : Z :=
  let until t deadline := match deadline with Some d => Z.min t (saturating_sub d now) | None => t end in
  let t := match fallback_poll_delay with Some delay => Z.min base_timeout delay | None => base_timeout end in
  until (until t queued_until) part_response_deadline.

Definition HASHSET_STALL_UPLOAD_FALLBACK : Z := 500 * 1000000.
Definition QUEUE_RANK_GRACE : Z := 20 * NANOS_PER_SEC.
Definition PART_RESPONSE_GRACE : Z := 20 * NANOS_PER_SEC.
Definition hashset_request_stalled (now : Z) (u : StartupState) : bool :=
  match hashset_requested_at u with Some at_ => HASHSET_STALL_UPLOAD_FALLBACK <=? saturating_sub now at_ | None => false end.
Definition source_exchange_request_for_peer (st : DownloadSessionState) : PeerSourceExchangeRequest :=
  if negb (source_exchange_allowed (startup st)) then NoExchange
  else if remote_supports_source_exchange2 (remote st) then ExchangeV2
  else if remote_supports_source_exchange (remote st) then ExchangeV1
  else NoExchange.
Definition apply_hello_profile (p : DecodedHelloProfile) : RemoteSupport :=
  mkRemote (hp_supports_aich p) (hp_supports_secure_ident p) (hp_supports_file_identifiers p) (hp_supports_multipacket p)
    (hp_supports_ext_multipacket p) (hp_source_exchange_version p) (hp_supports_source_exchange p) (hp_supports_source_exchange2 p).
Definition apply_emule_info_profile (p : DecodedEmuleInfoProfile) (r : RemoteSupport) : RemoteSupport :=
  mkRemote (remote_supports_aich r) (ip_supports_secure_ident p) (remote_supports_file_identifiers r) (remote_supports_multipacket r)
    (remote_supports_ext_multipacket r) (ip_source_exchange_version p) (ip_supports_source_exchange p) false.

Section session.
Context `{Zlib}.

(** A session: the variables of [drive_download_session], what was sent, and whether
    each of the next writes fails. *)
Record session : Type := mkSession {
  pending_part_requests : list PendingPartRequest;
  pending_compressed_parts : list PendingCompressedPart;
  s_manifest : Ed2kResumeManifest;
  request_file_identifier : Ed2kFileIdentifier;
  session_state : DownloadSessionState;
  s_sent : list (list Z);
  s_broken : list bool
}.

(** ** Updates *)

Definition upd_pending (l : list PendingPartRequest) (s : session) : session :=
  mkSession l (pending_compressed_parts s) (s_manifest s) (request_file_identifier s) (session_state s) (s_sent s) (s_broken s).
Definition upd_compressed (l : list PendingCompressedPart) (s : session) : session :=
  mkSession (pending_part_requests s) l (s_manifest s) (request_file_identifier s) (session_state s) (s_sent s) (s_broken s).
Definition upd_manifest (m : Ed2kResumeManifest) (s : session) : session :=
  mkSession (pending_part_requests s) (pending_compressed_parts s) m (request_file_identifier s) (session_state s) (s_sent s) (s_broken s).
Definition upd_identifier (i : Ed2kFileIdentifier) (s : session) : session :=
  mkSession (pending_part_requests s) (pending_compressed_parts s) (s_manifest s) i (session_state s) (s_sent s) (s_broken s).
Definition upd_state (f : DownloadSessionState → DownloadSessionState) (s : session) : session :=
  mkSession (pending_part_requests s) (pending_compressed_parts s) (s_manifest s) (request_file_identifier s) (f (session_state s))
    (s_sent s) (s_broken s).
Definition upd_ident (f : Ed2kPeerSecureIdentState → Ed2kPeerSecureIdentState) (st : DownloadSessionState) : DownloadSessionState :=
  mkDownloadState (f (peer_secure_ident st)) (remote st) (startup st) (window st).
Definition upd_remote (r : RemoteSupport) (st : DownloadSessionState) : DownloadSessionState :=
  mkDownloadState (peer_secure_ident st) r (startup st) (window st).
Definition upd_startup (f : StartupState → StartupState) (st : DownloadSessionState) : DownloadSessionState :=
  mkDownloadState (peer_secure_ident st) (remote st) (f (startup st)) (window st).
Definition upd_window (f : WindowState → WindowState) (st : DownloadSessionState) : DownloadSessionState :=
  mkDownloadState (peer_secure_ident st) (remote st) (startup st) (f (window st)).

Definition hello_done (u : StartupState) : StartupState :=
  mkStartup true (secure_ident_started u) (source_exchange_allowed u) (startup_file_requests_sent u) (startup_file_response_received u)
    (source_request_sent u) (aich_file_hash_requested u) (hashset_requested_at u) (upload_requested u).
Definition ident_begun (u : StartupState) : StartupState :=
  mkStartup (hello_complete u) true (source_exchange_allowed u) (startup_file_requests_sent u) (startup_file_response_received u)
    (source_request_sent u) (aich_file_hash_requested u) (hashset_requested_at u) (upload_requested u).
Definition requests_sent (u : StartupState) : StartupState :=
  mkStartup (hello_complete u) (secure_ident_started u) (source_exchange_allowed u) true (startup_file_response_received u)
    (source_request_sent u) (aich_file_hash_requested u) (hashset_requested_at u) (upload_requested u).
Definition response_received (u : StartupState) : StartupState :=
  mkStartup (hello_complete u) (secure_ident_started u) (source_exchange_allowed u) (startup_file_requests_sent u) true
    (source_request_sent u) (aich_file_hash_requested u) (hashset_requested_at u) (upload_requested u).
Definition sources_sent (b : bool) (u : StartupState) : StartupState :=
  mkStartup (hello_complete u) (secure_ident_started u) (source_exchange_allowed u) (startup_file_requests_sent u)
    (startup_file_response_received u) b (aich_file_hash_requested u) (hashset_requested_at u) (upload_requested u).
Definition aich_sent (b : bool) (u : StartupState) : StartupState :=
  mkStartup (hello_complete u) (secure_ident_started u) (source_exchange_allowed u) (startup_file_requests_sent u)
    (startup_file_response_received u) (source_request_sent u) b (hashset_requested_at u) (upload_requested u).
Definition hashset_sent (now : Z) (u : StartupState) : StartupState :=
  mkStartup (hello_complete u) (secure_ident_started u) (source_exchange_allowed u) (startup_file_requests_sent u)
    (startup_file_response_received u) (source_request_sent u) (aich_file_hash_requested u) (Some now) (upload_requested u).
Definition upload_sent (u : StartupState) : StartupState :=
  mkStartup (hello_complete u) (secure_ident_started u) (source_exchange_allowed u) (startup_file_requests_sent u)
    (startup_file_response_received u) (source_request_sent u) (aich_file_hash_requested u) (hashset_requested_at u) true.

Definition accepted (now : Z) (w : WindowState) : WindowState :=
  mkWindow true (Some (default now (upload_accepted_at w))) (part_response_deadline w) None (active_piece_request w)
    (completed_block_count w) (session_payload_down w).
Definition set_deadline (d : option Z) (w : WindowState) : WindowState :=
  mkWindow (upload_accepted w) (upload_accepted_at w) d (queued_until w) (active_piece_request w) (completed_block_count w)
    (session_payload_down w).
Definition set_queued_until (d : option Z) (w : WindowState) : WindowState :=
  mkWindow (upload_accepted w) (upload_accepted_at w) (part_response_deadline w) d (active_piece_request w) (completed_block_count w)
    (session_payload_down w).
Definition set_active (a : option ActiveDownloadPiece) (w : WindowState) : WindowState :=
  mkWindow (upload_accepted w) (upload_accepted_at w) (part_response_deadline w) (queued_until w) a (completed_block_count w)
    (session_payload_down w).
Definition count_block (n : Z) (w : WindowState) : WindowState :=
  mkWindow (upload_accepted w) (upload_accepted_at w) (part_response_deadline w) (queued_until w) (active_piece_request w)
    (saturating_add 64 (completed_block_count w) 1) (saturating_add 64 (session_payload_down w) n).

(** ** The monad of a session *)

Abbreviation SM := (PM session world).
(** A step of the store. *)
Definition store {A} (t : TM A) : SM A := λ s w, let '(w', r) := t w in (s, w', map_err PTransfer r).
Definition update_startup (f : StartupState → StartupState) : SM () := update (upd_state (upd_startup f)).
Definition update_window (f : WindowState → WindowState) : SM () := update (upd_state (upd_window f)).
(** [transport.write_all], and that of a packet that may fail to be built. *)
Definition write_all (bytes : list Z) : SM () := λ s w,
  let write sent := mkSession (pending_part_requests s) (pending_compressed_parts s) (s_manifest s) (request_file_identifier s)
                      (session_state s) sent (tail (s_broken s)) in
  match s_broken s with
  | true :: _ => (write (s_sent s), w, Err PIo)
  | _ => (write (s_sent s ++ [bytes]), w, Ok ())
  end.
Definition send (packet : res PeerError (list Z)) : SM () := bytes ← peer packet; write_all bytes.

(** ** The session *)

(** [DownloadSessionOptions], less the runtime and the transport, and the fuel of the
    inflation of a fragment. *)
Record DownloadSessionOptions : Type := mkOptions {
  o_peer_addr : SocketAddr;
  o_hello_identity : Ed2kHelloIdentity;
  o_secure_ident : Ed2kSecureIdent;
  o_file_hash : Ed2kHash;
  o_timeout : Z;
  o_send_initial_requests : bool;
  o_fuel : nat
}.

Context (md4 sha1 : list Z → list Z) (hex_encode : list Z → list Z) (hex_decode : list Z → option (list Z)).
Context (trim : list Z → list Z) (o : DownloadSessionOptions).
Local Abbreviation hash := (o_file_hash o).
Local Abbreviation key := (hash_display (o_file_hash o)).

Definition probe (challenge : Z) : SM () :=
  st ← gets session_state;
  '((ident, packet) : Ed2kPeerSecureIdentState * list Z) ← peer (begin_secure_ident_probe challenge (peer_secure_ident st));
  update (upd_state (upd_ident (λ _, ident)));;
  write_all packet;;
  update_startup ident_begun.
Definition try_send_secure_ident_signature : SM bool :=
  st ← gets session_state;
  packet ← peer (secure_ident_signature (o_secure_ident o) (peer_secure_ident st));
  match packet with
  | None => mret false
  | Some packet =>
      write_all packet;;
      update (upd_state (upd_ident (λ i, mkIdentState (peer_public_key i) (peer_challenge_from i) (challenge_for i) false
        (peer_signature_received i) (requested_peer_key i))));;
      mret true
  end.

Definition send_file_requests : SM () :=
  st ← gets session_state;
  m ← gets s_manifest;
  let r := remote st in
  let exchange := source_exchange_request_for_peer st in
  let exchanging := negb (bool_decide (exchange = NoExchange)) in
  if remote_supports_file_identifiers r then
    i ← gets request_file_identifier;
    send (encode_multipacket_ext2_request i m exchange);;
    update_startup (sources_sent exchanging);;
    update_startup (aich_sent true)
  else if remote_supports_multipacket r then
    send (encode_multipacket_request hash m (remote_supports_ext_multipacket r) exchange (remote_supports_aich r));;
    update_startup (sources_sent exchanging);;
    update_startup (aich_sent (remote_supports_aich r))
  else
    send (encode_request_filename hash m);;
    when (ED2K_PART_SIZE <? file_size m) (send (encode_set_req_file_id hash)).
Definition send_hashset_request (now : Z) : SM () :=
  st ← gets session_state;
  m ← gets s_manifest;
  if file_size m <=? ED2K_PART_SIZE then
    m ← store (store_md4_hashset md4 hex_encode key [] now);
    update (upd_manifest m)
  else
    i ← gets request_file_identifier;
    send (if remote_supports_file_identifiers (remote st)
          then encode_hashset_request2 i (mkHashsetOptions true (bool_decide (is_Some (fi_aich_root i))))
          else encode_hashset_request hash);;
    update_startup (hashset_sent now).

Definition advance_download_startup (now challenge : Z) : SM () :=
  st0 ← gets session_state;
  let waiting := waiting_for_peer_secure_ident st0 in
  let go := o_send_initial_requests o && hello_complete (startup st0) in
  when (go && negb (secure_ident_started (startup st0)) && remote_supports_secure_ident (remote st0)) (probe challenge);;
  st ← gets session_state;
  when (go && negb (startup_file_requests_sent (startup st)) && negb waiting) (send_file_requests;; update_startup requests_sent);;
  st ← gets session_state;
  when (go && negb (source_request_sent (startup st)) && negb waiting && negb (remote_supports_file_identifiers (remote st)) &&
        source_exchange_allowed (startup st) && remote_supports_source_exchange (remote st))
    (send (if remote_supports_source_exchange2 (remote st) then encode_request_sources2 hash else encode_request_sources hash);;
     update_startup (sources_sent true));;
  st ← gets session_state;
  when (go && negb (aich_file_hash_requested (startup st)) && negb waiting && negb (remote_supports_file_identifiers (remote st)) &&
        remote_supports_aich (remote st))
    (send (encode_aich_file_hash_request hash);; update_startup (aich_sent true));;
  st ← gets session_state;
  m ← gets s_manifest;
  when (go && negb (file_size m =? 0) && negb (md4_hashset_acquired m) && negb (hashset_requested (startup st)) && negb waiting &&
        startup_file_response_received (startup st))
    (send_hashset_request now);;
  st ← gets session_state;
  m ← gets s_manifest;
  when (go && negb (file_size m =? 0) && (md4_hashset_acquired m || hashset_request_stalled now (startup st)) &&
        negb (upload_requested (startup st)) && negb waiting && startup_file_response_received (startup st))
    (send (encode_start_upload_req hash);; update_startup upload_sent).

(** *** The window *)

(** The loop that fills the window; each turn adds a request or leaves. *)
Fixpoint fill_window (fuel : nat) (max now : Z) : SM () :=
  match fuel with
  | O => mret ()
  | S fuel' =>
      s ← gets id;
      if max <=? zlen (pending_part_requests s) then mret ()
      else
        active ← match active_piece_request (window (session_state s)) with
                 | Some a => mret (Some a)
                 | None =>
                     next_part ← store (claim_next_missing_part key now);
                     match next_part with
                     | None => mret None
                     | Some c =>
                         let piece_start := cp_piece_index c * ED2K_PART_SIZE in
                         let piece_end := Z.min (piece_start + ED2K_PART_SIZE) (file_size (s_manifest s)) in
                         let a := mkActive (cp_piece_index c) (piece_start + cp_bytes_written c) piece_end in
                         update_window (set_active (Some a));;
                         mret (Some a)
                     end
                 end;
        match active with
        | None => mret ()
        | Some a =>
            if ap_piece_end a <=? ap_next_offset a then mret ()
            else
              let end_ := Z.min (ap_next_offset a + ED2K_EMBLOCK_SIZE) (ap_piece_end a) in
              update (λ s, upd_pending (pending_part_requests s ++ [pending_new (ap_piece_index a) (ap_next_offset a) end_]) s);;
              update_window (set_active (Some (mkActive (ap_piece_index a) end_ (ap_piece_end a))));;
              fill_window fuel' max now
        end
  end.
(** The first [n] requests that are not queued, and queuing them. *)
Fixpoint unqueued (n : nat) (l : list PendingPartRequest) : list (Z * Z) :=
  match n, l with
  | S n', r :: l' => if queued r then unqueued n l' else (pr_start r, pr_end r) :: unqueued n' l'
  | _, _ => []
  end.
Fixpoint queue_first (n : nat) (l : list PendingPartRequest) : list PendingPartRequest :=
  match n, l with
  | S n', r :: l' => if queued r then r :: queue_first n l' else set_queued r :: queue_first n' l'
  | _, _ => l
  end.
Definition pump_download_request_window (now : Z) : SM (option Z) :=
  s ← gets id;
  let w := window (session_state s) in
  let elapsed := saturating_sub now (default now (upload_accepted_at w)) in
  let limits := select_download_window_limits (s_manifest s) (completed_block_count w) (session_payload_down w) elapsed in
  when (zlen (pending_part_requests s) <? min_pending_blocks limits)
    (fill_window (S (Z.to_nat (max_pending_blocks limits))) (max_pending_blocks limits) now);;
  s ← gets id;
  let requested_ranges := unqueued 3 (pending_part_requests s) in
  if bool_decide (requested_ranges = []) then mret None
  else
    send (encode_request_parts_batch hash requested_ranges);;
    update (λ s, upd_pending (queue_first 3 (pending_part_requests s)) s);;
    mret (Some (now + PART_RESPONSE_GRACE)).

(** *** Blocks *)

Definition append_block (piece_index start end_ : Z) (bytes : list Z) (now : Z) : SM () :=
  '((piece_completed, m) : bool * Ed2kResumeManifest) ←
    store (append_piece_block_with_manifest md4 sha1 hex_encode hex_decode key piece_index start end_ bytes now);
  update (upd_manifest m);;
  when piece_completed (update_window (set_active None)).
(** The requests at the front whose bytes have all come; there are no more than the
    fuel. *)
Fixpoint flush_loop (fuel : nat) (now : Z) : SM () :=
  match fuel with
  | O => mret ()
  | S fuel' =>
      l ← gets pending_part_requests;
      match l with
      | r :: l' =>
          if queued r && is_ready r then
            update (upd_pending l');;
            append_block (pr_piece_index r) (pr_start r) (pr_end r) (response_bytes r) now;;
            update_window (count_block (saturating_sub (pr_end r) (pr_start r)));;
            flush_loop fuel' now
          else mret ()
      | [] => mret ()
      end
  end.
Definition flush_ready_download_blocks (now : Z) : SM () :=
  l ← gets pending_part_requests;
  flush_loop (S (length l)) now;;
  l ← gets pending_part_requests;
  when (negb (existsb queued l)) (update_window (set_deadline None)).

(** The end of a session: the bytes of requests that are not complete. *)
Fixpoint flush_prefixes_loop (fuel : nat) (now : Z) : SM () :=
  match fuel with
  | O => mret ()
  | S fuel' =>
      l ← gets pending_part_requests;
      match l with
      | [] => mret ()
      | r :: l' =>
          if negb (queued r) || bool_decide (response_bytes r = []) then mret ()
          else
            update (upd_pending (mkPending (pr_piece_index r) (received_end r) (pr_end r) (queued r) (received_end r) [] :: l'));;
            append_block (pr_piece_index r) (pr_start r) (received_end r) (response_bytes r) now;;
            if received_end r =? pr_end r then update (upd_pending l');; flush_prefixes_loop fuel' now
            else mret ()
      end
  end.
Definition flush_buffered_download_prefixes (now : Z) : SM () :=
  l ← gets pending_part_requests;
  flush_prefixes_loop (S (length l)) now.

Definition refresh_identifier : SM () :=
  m ← gets s_manifest;
  i ← peer (id_from_manifest hex_decode m);
  update (upd_identifier i).
Definition reconcile_download_manifest_metadata (peer_id : Ed2kFileIdentifier) (peer_file_name : option (list Z)) (now : Z) : SM () :=
  let learned_size := fi_size peer_id in
  let learned_name := match option_map trim peer_file_name with
                      | Some name => if bool_decide (name = []) then None else Some name
                      | None => None
                      end in
  if negb (bool_decide (is_Some learned_size)) && negb (bool_decide (is_Some learned_name)) &&
     negb (bool_decide (is_Some (fi_aich_root peer_id))) then mret ()
  else
    m ← store (reconcile_job_metadata trim key learned_name learned_size now);
    update (upd_manifest m);;
    m ← store (reconcile_aich_root hex_encode key (fi_aich_root peer_id) now);
    update (upd_manifest m);;
    refresh_identifier.

(** *** Parts *)

Definition same_part (r : PendingPartRequest) (c : PendingCompressedPart) : bool :=
  (pc_piece_index c =? pr_piece_index r) && (pc_start c =? pr_start r) && (pc_end c =? pr_end r).
(** [iter().position(f)] with the element. *)
Definition position {A} (f : A → bool) (l : list A) : option (nat * A) := list_find (λ x, f x = true) l.
Definition handle_compressed_part (use_i64 : bool) (payload : list Z) (now : Z) : SM (option Ed2kPeerDownloadOutcome) :=
  '((returned_hash, start, advertised, fragment) : Ed2kHash * Z * Z * list Z) ← peer (decode_compressed_part_fragment payload use_i64);
  if negb (bool_decide (returned_hash = hash)) then mret None
  else
    pending ← gets pending_part_requests;
    if negb (existsb queued pending) then mret (Some AcceptedButIncomplete)
    else
      match position (λ r, queued r && (pr_start r =? start) && (pr_start r <? pr_end r)) pending with
      | None => mret (Some AcceptedButIncomplete)
      | Some (pending_index, r) =>
          parts ← gets pending_compressed_parts;
          '((compressed_index, parts) : nat * list PendingCompressedPart) ←
            match position (same_part r) parts with
            | Some (i, c) => if negb (advertised_compressed_len c =? advertised) then peer (Err PFraming) else mret (i, parts)
            | None =>
                let parts' := parts ++ [mkCompressed (pr_piece_index r) (pr_start r) (pr_end r) advertised 0 0 inflater_new] in
                update (upd_compressed parts');;
                mret (length parts, parts')
            end;
          c ← peer (expect (parts !! compressed_index));
          '((c, bytes, finished) : PendingCompressedPart * list Z * bool) ← peer (inflate_compressed_part_fragment (o_fuel o) c fragment);
          update (upd_compressed (<[compressed_index := c]> parts));;
          let stream_end := pc_start c + uncompressed_written c in
          let stream_start := if zlen bytes <=? stream_end then stream_end - zlen bytes else start in
          let piece_len := pr_end r - pr_start r in
          if negb (bool_decide (bytes = [])) && negb (stream_start =? received_end r) then mret (Some AcceptedButIncomplete)
          else
            (if bool_decide (bytes = []) then mret ()
             else
               r ← peer (buffer_response_bytes stream_start stream_end bytes r);
               update (upd_pending (<[pending_index := r]> pending)));;
            if piece_len <? uncompressed_written c then peer (Err PSize)
            else if finished && negb (uncompressed_written c =? piece_len) then peer (Err PSize)
            else
              when (uncompressed_written c =? piece_len)
                (update (λ s, upd_compressed (delete compressed_index (pending_compressed_parts s)) s));;
              flush_ready_download_blocks now;;
              mret None
      end.
Definition handle_sending_part (use_i64 : bool) (payload : list Z) (now : Z) : SM (option Ed2kPeerDownloadOutcome) :=
  '((returned_hash, start, end_, bytes) : Ed2kHash * Z * Z * list Z) ← peer (decode_sending_part_payload payload use_i64);
  if negb (bool_decide (returned_hash = hash)) then mret None
  else
    pending ← gets pending_part_requests;
    if negb (existsb queued pending) then mret (Some AcceptedButIncomplete)
    else
      match position (matches_uncompressed_fragment start end_) pending with
      | None => mret (Some AcceptedButIncomplete)
      | Some (pending_index, r) =>
          if start <? pr_start r then mret (Some AcceptedButIncomplete)
          else
            r ← peer (buffer_response_bytes start end_ bytes r);
            update (upd_pending (<[pending_index := r]> pending));;
            flush_ready_download_blocks now;;
            mret None
      end.
Definition handle_download_part_packet (p : EmuleTcpPacket) (now : Z) : SM (option Ed2kPeerDownloadOutcome) :=
  let use_i64 := (tp_opcode p =? OP_SENDINGPART_I64) || (tp_opcode p =? OP_COMPRESSEDPART_I64) in
  if (tp_opcode p =? OP_COMPRESSEDPART) || (tp_opcode p =? OP_COMPRESSEDPART_I64)
  then handle_compressed_part use_i64 (tp_payload p) now
  else handle_sending_part use_i64 (tp_payload p) now.

(** *** Packets *)

Definition require_hash (h : Ed2kHash) : SM () := if bool_decide (h = hash) then mret () else peer (Err PMismatch).
(** A packet that is decoded and only reported. *)
Definition ignored {A} (r : res PeerError A) : SM () := peer r;; mret ().

Fixpoint remember_sources (l : list SourceExchangePeer) (now : Z) : SM () :=
  match l with
  | [] => mret ()
  | source :: l' =>
      when (negb ((src_tcp_port source =? 0) || bool_decide (src_ip source = [0; 0; 0; 0])))
        (store (remember_source key (mkHint (ip_display (ip_of_octets (src_ip source))) (src_tcp_port source)
           (hex_encode <$> src_user_hash source)) now));;
      remember_sources l' now
  end.
Definition remember_source_exchange_sources (answer_hash : Ed2kHash) (l : list SourceExchangePeer) (now : Z) : SM () :=
  if negb (bool_decide (answer_hash = hash)) then mret () else remember_sources l now.

(** The loops over the parts of a multipacket answer: the name and, where it is
    allowed, the root. A part takes a byte at least, so the fuel is the length. *)
Fixpoint multipacket_loop (fuel : nat) (with_root : bool) (file_size : Z) (remaining : list Z) (name root : option (list Z))
    : res PeerError (option (list Z) * option (list Z)) :=
  match remaining with
  | [] => Ok (name, root)
  | sub_opcode :: remaining =>
      match fuel with
      | O => Err PShort
      | S fuel' =>
          if sub_opcode =? OP_REQFILENAMEANSWER then
            '(file_name, rest) ← decode_request_filename_answer_body remaining;
            multipacket_loop fuel' with_root file_size rest (Some file_name) root
          else if sub_opcode =? OP_FILESTATUS then
            '(part_count, rest) ← skip_file_status_body remaining;
            _ ← validate_file_status_part_count part_count file_size;
            multipacket_loop fuel' with_root file_size rest name root
          else if with_root && (sub_opcode =? OP_AICHFILEHASHANS) then
            if zlen remaining <? 20 then Err PShort
            else
              r ← range remaining 0 20;
              rest ← tail_from remaining 20;
              multipacket_loop fuel' with_root file_size rest name (Some r)
          else Err PUnsupported
      end
  end.
Definition handle_multipacket_answer (payload : list Z) (now : Z) : SM () :=
  (if zlen payload <? 16 then peer (Err PShort) else mret ());;
  returned_hash ← peer (range payload 0 16);
  require_hash returned_hash;;
  remaining ← peer (tail_from payload 16);
  m ← gets s_manifest;
  '((name, root) : option (list Z) * option (list Z)) ← peer (multipacket_loop (length remaining) true (file_size m) remaining None None);
  m ← store (reconcile_aich_root hex_encode key root now);
  update (upd_manifest m);;
  m ← store (reconcile_job_metadata trim key name None now);
  update (upd_manifest m);;
  refresh_identifier;;
  update_startup response_received.
Definition handle_multipacket_answer_ext2 (payload : list Z) (now : Z) : SM () :=
  '((returned, remaining) : Ed2kFileIdentifier * list Z) ← peer (id_decode payload);
  i ← gets request_file_identifier;
  (if matches_relaxed i returned then mret () else peer (Err PMismatch));;
  m ← gets s_manifest;
  '((name, _) : option (list Z) * option (list Z)) ← peer (multipacket_loop (length remaining) false (file_size m) remaining None None);
  reconcile_download_manifest_metadata returned name now;;
  update_startup response_received.
Definition handle_hashset_answer2 (payload : list Z) (now : Z) : SM () :=
  answer ← peer (decode_hashset_answer2 payload);
  i ← gets request_file_identifier;
  (if matches_relaxed i (ha_file_identifier answer) then mret () else peer (Err PMismatch));;
  reconcile_download_manifest_metadata (ha_file_identifier answer) None now;;
  match ha_md4_hashset answer with
  | Some hashset => m ← store (store_md4_hashset md4 hex_encode key hashset now); update (upd_manifest m)
  | None => mret ()
  end;;
  match ha_aich_hashset answer with
  | Some hashset =>
      m ← store (store_aich_hashset sha1 hex_encode hex_decode key hashset now);
      update (upd_manifest m);;
      refresh_identifier
  | None => mret ()
  end.

Definition handle_secident_state (payload : list Z) (challenge : Z) : SM () :=
  '((state, peer_challenge) : Z * Z) ← peer (decode_secident_state payload);
  update (upd_state (upd_ident (λ i, mkIdentState (peer_public_key i) (Some peer_challenge) (challenge_for i)
    (pending_signature i || negb (state =? 0)) (peer_signature_received i) (requested_peer_key i))));;
  when (state =? ED2K_SECURE_IDENT_KEY_AND_SIGNATURE_NEEDED)
    (send (key_payload ← public_key_payload (o_secure_ident o); encode_packet OP_EMULEPROT OP_PUBLICKEY key_payload));;
  sent ← try_send_secure_ident_signature;
  st ← gets session_state;
  when (negb sent && (state =? ED2K_SECURE_IDENT_SIGNATURE_NEEDED) && negb (requested_peer_key (peer_secure_ident st)))
    (probe challenge).
Definition handle_public_key (payload : list Z) : SM () :=
  peer_key ← peer (decode_public_key_payload payload);
  update (upd_state (upd_ident (λ i, mkIdentState (Some peer_key) (peer_challenge_from i) (challenge_for i) (pending_signature i)
    (peer_signature_received i) (requested_peer_key i))));;
  try_send_secure_ident_signature;;
  mret ().
(** A signature that is malformed is ignored. *)
Definition handle_signature (payload : list Z) : SM () :=
  match decode_signature_payload payload with
  | Ok _ =>
      update (upd_state (upd_ident (λ i, mkIdentState (peer_public_key i) (peer_challenge_from i) (challenge_for i)
        (pending_signature i) true (requested_peer_key i))))
  | Err _ => mret ()
  | Panic => peer Panic
  end.

Fixpoint send_all (l : list (list Z)) : SM () :=
  match l with [] => mret () | bytes :: l' => write_all bytes;; send_all l' end.
Definition handle_hello (payload : list Z) (challenge : Z) : SM () :=
  profile ← peer (decode_hello_profile payload);
  replies ← peer (build_hello_responses payload (o_hello_identity o));
  send_all replies;;
  update_startup hello_done;;
  update (upd_state (upd_remote (apply_hello_profile profile)));;
  st ← gets session_state;
  when (hp_supports_secure_ident profile && negb (requested_peer_key (peer_secure_ident st))) (probe challenge).
Definition handle_hello_answer (payload : list Z) (challenge : Z) : SM () :=
  profile ← peer (decode_hello_answer_profile payload);
  update_startup hello_done;;
  update (upd_state (upd_remote (apply_hello_profile profile)));;
  st ← gets session_state;
  when (o_send_initial_requests o && hp_supports_secure_ident profile && negb (requested_peer_key (peer_secure_ident st)))
    (probe challenge).
Definition handle_emule_info (payload : list Z) : SM () :=
  profile ← peer (decode_emule_info_profile payload);
  st ← gets session_state;
  update (upd_state (upd_remote (apply_emule_info_profile profile (remote st)))).

(** Packets of the eDonkey protocol; the outcome, if the packet ends the session. *)
Definition go_on (m : SM ()) : SM (option Ed2kPeerDownloadOutcome) := m;; mret None.
Definition handle_hashset_answer (payload : list Z) (now : Z) : SM (option Ed2kPeerDownloadOutcome) :=
  '((returned_hash, hashset) : Ed2kHash * list (list Z)) ← peer (decode_hashset_answer payload);
  require_hash returned_hash;;
  m ← store (store_md4_hashset md4 hex_encode key hashset now);
  go_on (update (upd_manifest m)).
Definition handle_filename_answer (payload : list Z) (now : Z) : SM (option Ed2kPeerDownloadOutcome) :=
  '((returned_hash, name) : Ed2kHash * list Z) ← peer (decode_request_filename_answer payload);
  require_hash returned_hash;;
  m ← store (reconcile_job_metadata trim key (Some name) None now);
  update (upd_manifest m);;
  refresh_identifier;;
  go_on (update_startup response_received).
Definition handle_file_status (payload : list Z) : SM (option Ed2kPeerDownloadOutcome) :=
  '((returned_hash, part_count) : Ed2kHash * Z) ← peer (decode_file_status_payload payload);
  require_hash returned_hash;;
  m ← gets s_manifest;
  peer (validate_file_status_part_count part_count (file_size m));;
  go_on (update_startup response_received).
(** Chat, shared listings, refusals and parts. *)
Definition handle_edonkey_rest (p : EmuleTcpPacket) (now : Z) : SM (option Ed2kPeerDownloadOutcome) :=
  let payload := tp_payload p in
  let opcode := tp_opcode p in
  if opcode =? OP_MESSAGE then go_on (ignored (decode_client_message_payload payload))
  else if opcode =? OP_ASKSHAREDFILES then go_on (send encode_empty_shared_files_answer)
  else if opcode =? OP_ASKSHAREDDIRS then go_on (send encode_shared_browse_denied_answer)
  else if opcode =? OP_ASKSHAREDFILESDIR then
    peer (decode_shared_files_dir_request_payload payload);;
    go_on (send encode_shared_browse_denied_answer)
  else if opcode =? OP_ASKSHAREDFILESANSWER then go_on (ignored (decode_shared_files_answer_payload payload))
  else if opcode =? OP_ASKSHAREDDIRSANS then go_on (ignored (decode_shared_dirs_answer_payload payload))
  else if opcode =? OP_ASKSHAREDFILESDIRANS then go_on (ignored (decode_shared_files_dir_answer_payload payload))
  else if opcode =? OP_ASKSHAREDDENIEDANS then mret None
  else if opcode =? OP_FILEREQANSNOFIL then
    missing_hash ← peer (decode_exact_file_hash_payload payload);
    require_hash missing_hash;;
    mret (Some AcceptedButIncomplete)
  else if opcode =? OP_SENDINGPART then handle_download_part_packet p now
  else mret None.
Definition handle_edonkey_packet (p : EmuleTcpPacket) (now challenge : Z) : SM (option Ed2kPeerDownloadOutcome) :=
  let payload := tp_payload p in
  let opcode := tp_opcode p in
  if opcode =? OP_HELLO then go_on (handle_hello payload challenge)
  else if opcode =? OP_HELLOANSWER then go_on (handle_hello_answer payload challenge)
  else if opcode =? OP_ACCEPTUPLOADREQ then go_on (update_window (accepted now))
  else if opcode =? OP_HASHSETANSWER then handle_hashset_answer payload now
  else if opcode =? OP_REQFILENAMEANSWER then handle_filename_answer payload now
  else if opcode =? OP_FILESTATUS then handle_file_status payload
  else if opcode =? OP_SETREQFILEID then mret None
  else if opcode =? OP_QUEUERANK then
    peer (decode_edonkey_queue_rank_payload payload);;
    go_on (update_window (set_queued_until (Some (now + QUEUE_RANK_GRACE))))
  else if opcode =? OP_END_OF_DOWNLOAD then
    if bool_decide (decode_optional_file_hash_payload payload = Some hash) then mret (Some AcceptedButIncomplete) else mret None
  else if opcode =? OP_OUTOFPARTREQS then mret (Some AcceptedButIncomplete)
  else if opcode =? OP_CHANGE_CLIENT_ID then go_on (ignored (decode_client_id_change_payload payload))
  else if opcode =? OP_CHANGE_SLOT then mret None
  else handle_edonkey_rest p now.
Definition handle_aich_file_hash_answer (payload : list Z) (now : Z) : SM (option Ed2kPeerDownloadOutcome) :=
  '((returned_hash, root) : Ed2kHash * list Z) ← peer (decode_aich_file_hash_answer payload);
  require_hash returned_hash;;
  m ← store (reconcile_aich_root hex_encode key (Some root) now);
  update (upd_manifest m);;
  go_on refresh_identifier.
(** Descriptions, previews, AICH recovery and parts. *)
Definition handle_emule_rest (p : EmuleTcpPacket) (now : Z) : SM (option Ed2kPeerDownloadOutcome) :=
  let payload := tp_payload p in
  let opcode := tp_opcode p in
  if opcode =? OP_FILEDESC then go_on (ignored (decode_file_description_payload payload))
  else if opcode =? OP_REQUESTPREVIEW then go_on (ignored (decode_preview_request_payload payload))
  else if opcode =? OP_PREVIEWANSWER then go_on (ignored (decode_preview_answer_payload payload))
  else if opcode =? OP_AICHREQUEST then
    request ← peer (decode_aich_recovery_request_payload payload);
    go_on (send (encode_aich_recovery_failure_answer (arq_file_hash request)))
  else if opcode =? OP_AICHANSWER then go_on (ignored (decode_aich_recovery_answer_payload payload))
  else if (opcode =? OP_SENDINGPART_I64) || (opcode =? OP_COMPRESSEDPART) || (opcode =? OP_COMPRESSEDPART_I64)
  then handle_download_part_packet p now
  else mret None.
(** Packets of the eMule protocol. *)
Definition handle_emule_packet (p : EmuleTcpPacket) (now challenge : Z) : SM (option Ed2kPeerDownloadOutcome) :=
  let payload := tp_payload p in
  let opcode := tp_opcode p in
  if opcode =? OP_EMULEINFO then go_on (handle_emule_info payload;; send (encode_emule_info_answer (hi_udp_port (o_hello_identity o))))
  else if opcode =? OP_EMULEINFOANSWER then go_on (handle_emule_info payload)
  else if opcode =? OP_SECIDENTSTATE then go_on (handle_secident_state payload challenge)
  else if opcode =? OP_PUBLICKEY then go_on (handle_public_key payload)
  else if opcode =? OP_SIGNATURE then go_on (handle_signature payload)
  else if opcode =? OP_PUBLICIP_REQ then
    go_on (match sa_ip (o_peer_addr o) with V4 ip => send (encode_public_ip_answer ip) | V6 _ => mret () end)
  else if opcode =? OP_PUBLICIP_ANSWER then go_on (ignored (decode_public_ip_answer_payload payload))
  else if opcode =? OP_CALLBACK then go_on (ignored (decode_kad_callback_payload payload))
  else if opcode =? OP_REASKCALLBACKTCP then go_on (ignored (decode_reask_callback_tcp_payload payload))
  else if opcode =? OP_CHATCAPTCHAREQ then go_on (ignored (decode_chat_captcha_request_payload payload))
  else if opcode =? OP_CHATCAPTCHARES then go_on (ignored (decode_chat_captcha_result_payload payload))
  else if opcode =? OP_PORTTEST then go_on (send encode_port_test_answer)
  else if (opcode =? OP_KAD_FWTCPCHECK_ACK) || (opcode =? OP_BUDDYPING) || (opcode =? OP_BUDDYPONG) then mret None
  else if opcode =? OP_HASHSETANSWER2 then go_on (handle_hashset_answer2 payload now)
  else if opcode =? OP_MULTIPACKETANSWER then go_on (handle_multipacket_answer payload now)
  else if opcode =? OP_MULTIPACKETANSWER_EXT2 then go_on (handle_multipacket_answer_ext2 payload now)
  else if opcode =? OP_AICHFILEHASHANS then handle_aich_file_hash_answer payload now
  else if opcode =? OP_ANSWERSOURCES2 then
    '((answer_hash, sources) : Ed2kHash * list SourceExchangePeer) ← peer (decode_answer_sources2_payload payload);
    go_on (remember_source_exchange_sources answer_hash sources now)
  else if opcode =? OP_ANSWERSOURCES then
    st ← gets session_state;
    '((answer_hash, sources) : Ed2kHash * list SourceExchangePeer) ←
      peer (decode_answer_sources_payload payload (remote_source_exchange_version (remote st)));
    go_on (remember_source_exchange_sources answer_hash sources now)
  else if opcode =? OP_QUEUERANKING then
    peer (decode_emule_queue_ranking_payload payload);;
    go_on (update_window (set_queued_until (Some (now + QUEUE_RANK_GRACE))))
  else handle_emule_rest p now.
Definition handle_packet (p : EmuleTcpPacket) (now challenge : Z) : SM (option Ed2kPeerDownloadOutcome) :=
  if tp_protocol p =? OP_EDONKEYPROT then handle_edonkey_packet p now challenge
  else if tp_protocol p =? OP_EMULEPROT then handle_emule_packet p now challenge
  else mret None.

(** *** The loop *)

Inductive event : Type :=
| Received (p : EmuleTcpPacket)
| PeerClosed
| ReadFailed (shutdown : bool)
| TimedOut.
Definition incomplete_or (e : PeerError) : SM (option Ed2kPeerDownloadOutcome) :=
  st ← gets session_state;
  if hello_complete (startup st) then mret (Some AcceptedButIncomplete) else peer (Err e).
Definition before (now : Z) (deadline : option Z) : bool := match deadline with Some d => now <? d | None => false end.
Definition handle_event (e : event) (fallback : bool) (now challenge : Z) : SM (option Ed2kPeerDownloadOutcome) :=
  match e with
  | Received p => handle_packet p now challenge
  | PeerClosed => incomplete_or PClosed
  | ReadFailed shutdown => if shutdown then incomplete_or PIo else peer (Err PIo)
  | TimedOut =>
      s ← gets id;
      if fallback then mret None
      else if before now (queued_until (window (session_state s))) then mret None
      else
        when (negb (existsb queued (pending_part_requests s))) (update_window (set_deadline None));;
        s ← gets id;
        if before now (part_response_deadline (window (session_state s))) then mret None
        else incomplete_or PTimeout
  end.

(** One turn of the loop, up to the wait: the delay of the fallback, if it applies, and
    the time to wait. *)
Definition turn (now challenge : Z) : SM (option Z * Z) :=
  advance_download_startup now challenge;;
  s ← gets id;
  (if md4_hashset_acquired (s_manifest s) && upload_accepted (window (session_state s)) then
     deadline ← pump_download_request_window now;
     match deadline with
     | Some d => update_window (set_deadline (Some d))
     | None => mret ()
     end
   else mret ());;
  s ← gets id;
  let u := startup (session_state s) in
  let w := window (session_state s) in
  let fallback :=
    if o_send_initial_requests o && hello_complete u && hashset_requested u && negb (md4_hashset_acquired (s_manifest s)) &&
       negb (upload_requested u) && negb (waiting_for_peer_secure_ident (session_state s))
    then (λ at_, saturating_sub HASHSET_STALL_UPLOAD_FALLBACK (saturating_sub now at_)) <$> hashset_requested_at u
    else None in
  mret (fallback, next_download_read_timeout now (o_timeout o) fallback (queued_until w) (part_response_deadline w)).

Record input : Type := mkInput { in_now : Z; in_challenge : Z; in_event : event; in_after : Z; in_challenge_after : Z }.
Definition loop_turn (i : input) : SM (option Ed2kPeerDownloadOutcome) :=
  '((fallback, _) : option Z * Z) ← turn (in_now i) (in_challenge i);
  handle_event (in_event i) (bool_decide (is_Some fallback)) (in_after i) (in_challenge_after i).
(** The loop over the inputs of its turns; it is still running when they end. *)
Fixpoint session_loop (inputs : list input) : SM (option Ed2kPeerDownloadOutcome) :=
  m ← gets s_manifest;
  if completed m then mret (Some Completed)
  else
    match inputs with
    | [] => mret None
    | i :: inputs' =>
        outcome ← loop_turn i;
        match outcome with
        | Some r => mret (Some r)
        | None => session_loop inputs'
        end
    end.
(** After the loop: an incomplete session writes what it has, and the piece it claimed
    is released. *)
Definition finish_session (result : res PeerError (option Ed2kPeerDownloadOutcome)) (now : Z) : SM (option Ed2kPeerDownloadOutcome) :=
  match result with
  | Ok (Some AcceptedButIncomplete) => flush_buffered_download_prefixes now
  | _ => mret ()
  end;;
  s ← gets id;
  let claimed := match active_piece_request (window (session_state s)) with
                 | Some a => Some (ap_piece_index a)
                 | None => pr_piece_index <$> head (pending_part_requests s)
                 end in
  match claimed with
  | Some i => store (release_piece_request key i now)
  | None => mret ()
  end;;
  peer result.
Definition run_session (inputs : list input) (now : Z) : SM (option Ed2kPeerDownloadOutcome) := λ s w,
  match session_loop inputs s w with
  | (s', w', Ok None) => (s', w', Ok None)
  | (s', w', Panic) => (s', w', Panic)
  | (s', w', r) => finish_session r now s' w'
  end.
Definition session_new (m : Ed2kResumeManifest) (i : Ed2kFileIdentifier) (initial_hello_complete initial_secure_ident_started source_exchange_allowed : bool)
    (broken : list bool) : session :=
  mkSession [] [] m i (download_state_new initial_hello_complete initial_secure_ident_started source_exchange_allowed) [] broken.
Definition drive_download_session (initial_hello_complete initial_secure_ident_started source_exchange_allowed : bool) (broken : list bool)
    (inputs : list input) (start_now now : Z) (w : world) : world * res PeerError (option Ed2kPeerDownloadOutcome) :=
  match load_manifest key start_now w with
  | (w, Ok m) =>
      match id_from_manifest hex_decode m with
      | Ok i =>
          let '(_, w, r) := run_session inputs now
            (session_new m i initial_hello_complete initial_secure_ident_started source_exchange_allowed broken) w in
          (w, r)
      | Err e => (w, Err e)
      | Panic => (w, Panic)
      end
  | (w, Err e) => (w, Err (PTransfer e))
  | (w, Panic) => (w, Panic)
  end.
End session.
