(* ===== verification/DownloadOk.v ===== *)
(** * Download sessions are safe

    Whatever a peer sends, whenever the disk or the connection fails, and whatever else
    runs on the store in between, a session does not panic and keeps the store's
    invariant. *)

From S2P Require Import Prelude Net NodeId Text Hashset Transfer TransferOk TransferFrame PeerTransport PeerCodec PeerParts Hello Session Download.

(** ** Codecs *)

Lemma safe_encode protocol opcode payload : zlen payload < U32_MAX → safe (λ _, True) (encode_packet (E:=PeerError) protocol opcode payload).
Proof. intros Hl. by rewrite encode_packet_frame. Qed.
Lemma zlen_hash h : hash_ok h → zlen h = 16.
Proof. by intros []. Qed.

Lemma safe_sending_part payload wide : is_bytes payload = true →
  safe (λ '(h, a, b, bytes), 0 ≤ a ≤ b ∧ b - a = zlen bytes) (decode_sending_part_payload payload wide).
Proof.
  intros Hp. unfold decode_sending_part_payload. destruct wide; repeat safe_step; bool_hyps; try done;
    (eapply safe_bind with (λ '(a, b), 0 ≤ a ∧ 0 ≤ b); [safe_all; lia|]); intros [x y] [Hx Hy]; repeat safe_step; bool_hyps; try done; lia.
Qed.
Lemma safe_compressed_part payload wide : is_bytes payload = true →
  safe (λ '(h, a, n, bytes), 0 ≤ a) (decode_compressed_part_fragment payload wide).
Proof.
  intros Hp. unfold decode_compressed_part_fragment. destruct wide; repeat safe_step; try done;
    (eapply safe_bind with (λ '(a, b), 0 ≤ a); [safe_all; lia|]); intros [x y] Hx; safe_all.
Qed.
Lemma safe_request_parts payload wide : is_bytes payload = true →
  safe (λ '(h, l), hash_ok h ∧ Forall (λ '(a, b), 0 ≤ a < b) l) (decode_request_parts_payload payload wide).
Proof.
  intros Hp. assert (Hf : ∀ l : list (Z * Z), Forall (λ r, 0 ≤ r.1) l → Forall (λ '(a, b), 0 ≤ a < b) (List.filter (λ '(a, b), a <? b) l)).
  { induction 1 as [|[a b] l Ha _ IH]; [constructor|]. cbn in *. destruct (Z.ltb_spec a b); [constructor; [lia|done]|done]. }
  unfold decode_request_parts_payload, decode_range. destruct wide; repeat safe_step; try done;
    do 3 (eapply safe_bind with (λ r, 0 ≤ r.1); [safe_all; cbn; lia|intros ? ?]); cbn [safe]; (split; [done|]); apply Hf; by repeat constructor.
Qed.
Lemma safe_u32s l : safe (λ b, zlen b = 4 * zlen l) (encode_u32s l).
Proof.
  induction l as [|v l IH]; [done|]. cbn [encode_u32s]. destruct (try_from_u 32 v) as [z|]; [|done].
  eapply safe_bind; [exact IH|]. intros b Hb. cbn [safe]. rewrite zlen_app, zlen_cons, Hb. change (zlen (to_le_bytes 4 z)) with 4. lia.
Qed.
Lemma safe_parts_batch h ranges : hash_ok h → safe (λ _, True) (encode_request_parts_batch h ranges).
Proof.
  intros Hh%zlen_hash. unfold encode_request_parts_batch. destruct (_ || _); [done|]. destruct (existsb _ _).
  - apply safe_encode. unfold three, fmap. cbn [list_fmap concat]. rewrite !zlen_app, !zlen_le, !(zlen_nil (A:=Z)). unfold U32_MAX. lia.
  - eapply safe_bind; [apply safe_u32s|]. intros a Ha. eapply safe_bind; [apply safe_u32s|]. intros b Hb. apply safe_encode.
    rewrite !zlen_app, Ha, Hb. unfold three. unfold zlen. rewrite !length_fmap. cbn. unfold zlen in Hh. unfold U32_MAX. lia.
Qed.

Lemma safe_probe challenge st : safe (λ _, True) (begin_secure_ident_probe challenge st).
Proof. unfold begin_secure_ident_probe, encode_secident_state. eapply safe_bind with (λ _, True); [by apply safe_encode|done]. Qed.
Lemma safe_ident_signature ident st : safe (λ _, True) (secure_ident_signature ident st).
Proof.
  unfold secure_ident_signature. destruct (peer_public_key st), (peer_challenge_from st); try done. case_match; [done|].
  eapply safe_bind with (λ p, zlen p ≤ 256).
  - unfold signature_payload. destruct (try_from_u 8 _) eqn:E; [|done]. apply try_from_u_Some in E as [-> E].
    cbn [safe]. rewrite zlen_app. change (zlen [_]) with 1. lia.
  - intros p Hp. eapply safe_bind with (λ _, True); [apply safe_encode; unfold U32_MAX; lia|done].
Qed.
Section inflate.
Context `{ZlibLaws}.
Lemma safe_fragment_loop fuel st l out : safe (λ _, True) (inflate_fragment_loop fuel st l out).
Proof.
  revert st l out. induction fuel as [|fuel IH]; intros st [|x l] out; cbn [inflate_fragment_loop]; try done.
  destruct (decompress st (x :: l) ZLIB_BUFFER false) as [[[[st' n] out'] status]|] eqn:E; [|done].
  destruct (decompress_bounds _ _ _ _ _ _ _ E) as (Hn & _). rewrite tail_from_ok by lia. cbn [mbind res_bind].
  destruct status; try done; destruct (_ && _); done || apply IH.
Qed.
Lemma safe_finish_loop fuel st out : safe (λ _, True) (finish_loop fuel st out).
Proof.
  revert st out. induction fuel as [|fuel IH]; intros st out; [done|]. cbn [finish_loop].
  destruct (decompress st [] ZLIB_BUFFER true) as [[[[st' n] out'] status]|]; [|done]. destruct status; try done; case_match; done || apply IH.
Qed.
(** The bytes of a fragment are counted. *)
Lemma safe_inflate fuel c fragment : safe (λ '(c', bytes, _), pc_piece_index c' = pc_piece_index c ∧ pc_start c' = pc_start c ∧
  uncompressed_written c' = uncompressed_written c + zlen bytes) (inflate_compressed_part_fragment fuel c fragment).
Proof.
  unfold inflate_compressed_part_fragment. eapply safe_bind; [apply safe_fragment_loop|]. intros [[st bytes] finished] _.
  case_match; [done|]. eapply safe_bind with (λ '(c', _, _), pc_piece_index c' = pc_piece_index c ∧ pc_start c' = pc_start c ∧
    uncompressed_written c' = uncompressed_written c).
  - case_match; [|done]. eapply safe_bind; [apply safe_finish_loop|]. intros [st' bytes'] _. done.
  - intros [[c' bytes'] fin'] (? & ? & ?). cbn. split_and!; done || lia.
Qed.
End inflate.

Lemma ext_info_length m : zlen (encode_request_filename_ext_info m) ≤ 5 + zlen (pieces m) / 8.
Proof.
  unfold encode_request_filename_ext_info. set (n := default _ _).
  destruct (bitfield_loop_spec (pieces m) 0 (to_le_bytes 2 n) 0 ltac:(lia) ltac:(done)) as (bytes & last & -> & Hl & _).
  change (0 mod 8) with 0 in Hl. rewrite Z.add_0_l in Hl. rewrite zlen_app, zlen_le. case_match; rewrite ?zlen_app, ?zlen_le, Hl; [|lia].
  change (zlen [last]) with 1. lia.
Qed.

(** ** The invariant of a session *)

(** Offsets are below this, so that sums of an offset and a length are below [2^64]. *)
Definition LIMIT : Z := U32_MAX * ED2K_PART_SIZE.
Definition manifest_fine (key : list Z) (m : Ed2kResumeManifest) : Prop :=
  file_hash m = key ∧ size_ok (file_size m) = true ∧ zlen (pieces m) ≤ U32_MAX.
Definition id_small (i : Ed2kFileIdentifier) : Prop := zlen (fi_hash i) = 16 ∧ ∀ r, fi_aich_root i = Some r → zlen r = 20.
Definition request_ok (r : PendingPartRequest) : Prop :=
  0 ≤ pr_piece_index r ∧ 0 ≤ pr_start r ≤ received_end r ∧ received_end r ≤ pr_end r ≤ LIMIT ∧
  zlen (response_bytes r) = received_end r - pr_start r.
Definition active_ok (a : ActiveDownloadPiece) : Prop := 0 ≤ ap_piece_index a ∧ 0 ≤ ap_next_offset a ≤ LIMIT ∧ ap_piece_end a ≤ LIMIT.
Definition compressed_ok `{Zlib} (c : PendingCompressedPart) : Prop := 0 ≤ pc_start c ≤ LIMIT ∧ 0 ≤ uncompressed_written c.
Record sess_ok `{Zlib} (key : list Z) (s : session) : Prop := {
  sk_manifest : manifest_fine key (s_manifest s);
  sk_identifier : id_small (request_file_identifier s);
  sk_pending : Forall request_ok (pending_part_requests s);
  sk_compressed : Forall compressed_ok (pending_compressed_parts s);
  sk_active : ∀ a, active_piece_request (window (session_state s)) = Some a → active_ok a;
}.

Create HintDb session.
Create HintDb codec.
#[export] Hint Resolve safe_file_status safe_file_hash safe_exact_file_hash safe_client_id_change safe_kad_callback safe_reask safe_message safe_captcha
  safe_captcha_result safe_preview_request safe_preview_answer safe_aich_request safe_aich_answer safe_queue_rank safe_queue_ranking safe_public_ip
  safe_shared_files safe_description safe_aich_file_hash safe_shared_dirs safe_dir_request safe_dir_answer safe_filename_answer safe_answer_sources2
  safe_answer_sources safe_hashset_answer safe_hashset_answer2 : codec.

Section safe.
Context `{Laws : ZlibLaws}.
Context (md4 sha1 : list Z → list Z) (hex_encode : list Z → list Z) (hex_decode : list Z → option (list Z)) (trim : list Z → list Z).
Hypothesis hex_roundtrip : ∀ b, is_bytes b = true → hex_decode (hex_encode b) = Some b.
Hypothesis md4_hash : ∀ b, wf_Ed2kHash (md4 b) = true.
Context (o : DownloadSessionOptions).
Hypothesis o_hash : hash_ok (o_file_hash o).
Hypothesis o_identity : identity_ok (o_hello_identity o).
Local Abbreviation key := (hash_display (o_file_hash o)).
Local Abbreviation store_ok := (store_ok md4 hex_encode).
Local Abbreviation sess_ok := (sess_ok key).
Local Abbreviation triple := (triple md4 hex_encode).

(** The store is as it should be, and so is, for [K], what steps leave alone. *)
Context (K : list Ed2kCallbackIntent → Prop).
Local Abbreviation fine := (fine sess_ok (λ w, store_ok (core w) ∧ K (w_intents w))).

Lemma fine_store {A} (Q : A → Prop) (t : TM A) : keeps t → triple store_ok t (λ a s, store_ok s ∧ Q a) → fine Q (store t).
Proof.
  intros Hk Ht s w Hs [Hw HK]. specialize (Ht w Hw). specialize (Hk w). unfold store.
  destruct (t w) as [w' [a|e|]]; cbn in *; rewrite ?Hk; [|done..]. by destruct Ht.
Qed.
Lemma fine_write bytes : fine (λ _, True) (write_all bytes).
Proof. intros s w [] Hw. unfold write_all. destruct (s_broken s) as [|[] l]; done. Qed.
Lemma fine_send packet : safe (λ _, True) packet → fine (λ _, True) (send packet).
Proof. intros Hp. eapply fine_bind; [by apply fine_peer|]. intros b _. apply fine_write. Qed.

(** Updates that the invariant does not see. *)
Lemma fine_startup f : fine (λ _, True) (update_startup f).
Proof. apply fine_update. by intros s []. Qed.
Lemma fine_ident f : fine (λ _, True) (update (upd_state (upd_ident f))).
Proof. apply fine_update. by intros s []. Qed.
Lemma fine_remote r : fine (λ _, True) (update (upd_state (upd_remote r))).
Proof. apply fine_update. by intros s []. Qed.
Lemma fine_window f : (∀ w, active_piece_request (f w) = active_piece_request w) → fine (λ _, True) (update_window f).
Proof. intros Hf. apply fine_update. intros s [? ? ? ? Ha]. split; try done. cbn. intros a. rewrite Hf. apply Ha. Qed.
Lemma fine_active a : (∀ x, a = Some x → active_ok x) → fine (λ _, True) (update_window (set_active a)).
Proof. intros Ha. apply fine_update. intros s []. by split. Qed.
Lemma fine_pending l : Forall request_ok l → fine (λ _, True) (update (upd_pending l)).
Proof. intros Hl. apply fine_update. intros s []. by split. Qed.
Lemma fine_pending_by f : (∀ l, Forall request_ok l → Forall request_ok (f l)) →
  fine (λ _, True) (update (λ s, upd_pending (f (pending_part_requests s)) s)).
Proof. intros Hf. apply fine_update. intros s []. split; try done. by apply Hf. Qed.
Lemma fine_compressed l : Forall compressed_ok l → fine (λ _, True) (update (upd_compressed l)).
Proof. intros Hl. apply fine_update. intros s []. by split. Qed.
Lemma fine_manifest m : manifest_fine key m → fine (λ _, True) (update (upd_manifest m)).
Proof. intros Hm. apply fine_update. intros s []. by split. Qed.
Lemma fine_identifier i : id_small i → fine (λ _, True) (update (upd_identifier i)).
Proof. intros Hm. apply fine_update. intros s []. by split. Qed.

(** *** The store *)

Lemma at_key_fine m s : at_key md4 hex_encode key m s → manifest_fine key m.
Proof.
  intros Hat%at_key_ok. pose proof (mo_size _ _ _ _ _ Hat) as Hsize. split; [apply Hat|]. split; [done|].
  pose proof (piece_count_spec _ Hsize) as Hc. unfold zlen. rewrite (mo_count _ _ _ _ _ Hat). unfold piece_count in Hc.
  destruct (file_size m =? 0); [injection Hc as <-; done|]. change (ED2K_PART_SIZE =? 0) with false in Hc. cbv iota in Hc.
  injection Hc as <-. destruct (try_from_u 32 _) as [z|] eqn:E; cbn [from_option id]; [|done].
  apply try_from_u_Some in E as [-> E]. unfold U32_MAX. lia.
Qed.
Lemma fine_store_at t : keeps t → triple store_ok t (at_key md4 hex_encode key) → fine (manifest_fine key) (store t).
Proof.
  intros Hk Ht. apply fine_store; [done|]. eapply triple_weaken; [exact Ht|done|]. intros m s Hs. split; [apply Hs|by eapply at_key_fine].
Qed.
Lemma fine_store_unit (t : TM ()) : keeps t → triple store_ok t (λ _, store_ok) → fine (λ _, True) (store t).
Proof. intros Hk Ht. apply fine_store; [done|]. eapply triple_weaken; [exact Ht|done|]. done. Qed.

Lemma fine_md4 hashset now : Forall (λ x, wf_Ed2kHash x = true) hashset →
  fine (manifest_fine key) (store (store_md4_hashset md4 hex_encode key hashset now)).
Proof. intros Hh. apply fine_store_at; [auto with keeps|]. by apply triple_md4. Qed.
Lemma fine_aich h now : fine (manifest_fine key) (store (store_aich_hashset sha1 hex_encode hex_decode key h now)).
Proof. apply fine_store_at; [auto with keeps|]. by apply triple_aich. Qed.
Lemma fine_root root now : fine (manifest_fine key) (store (reconcile_aich_root hex_encode key root now)).
Proof. apply fine_store_at; [auto with keeps|]. by apply triple_root. Qed.
Lemma fine_reconcile name size now : (∀ n, size = Some n → size_ok n = true) →
  fine (manifest_fine key) (store (reconcile_job_metadata trim key name size now)).
Proof. intros Hs. apply fine_store_at; [auto with keeps|]. by apply triple_reconcile. Qed.
Lemma fine_remember source now : fine (λ _, True) (store (remember_source key source now)).
Proof. apply fine_store_unit; [auto with keeps|]. by apply triple_remember. Qed.
Lemma fine_release i now : 0 ≤ i → fine (λ _, True) (store (release_piece_request key i now)).
Proof. intros Hi. apply fine_store_unit; [auto with keeps|]. by apply triple_release. Qed.
Definition claim_fine (r : option Ed2kClaimedPart) : Prop :=
  ∀ c, r = Some c → 0 ≤ cp_piece_index c ∧ 0 ≤ cp_bytes_written c ∧ cp_piece_index c * ED2K_PART_SIZE + cp_bytes_written c ≤ LIMIT.
Lemma fine_claim now : fine claim_fine (store (claim_next_missing_part key now)).
Proof.
  apply fine_store; [auto with keeps|]. eapply triple_weaken; [by apply triple_claim|done|]. intros r s [Hs Hr]. split; [done|]. intros c Hc.
  destruct (Hr c Hc) as (m & k & p & Hat & -> & Hk & _ & <-). pose proof (at_key_ok _ _ _ _ _ Hat) as Hm.
  destruct (mo_piece _ _ _ _ _ _ _ Hm Hk) as (h & _ & _ & [_ Hw _ _]). pose proof (mo_bounds _ _ _ _ _ _ _ Hm Hk) as (Hlt & Hlen & Hend & _).
  pose proof (mo_size _ _ _ _ _ Hm) as Hsize. unfold size_ok in Hsize. bool_hyps. unfold LIMIT, piece_off in *. lia.
Qed.
Lemma fine_append i start end_ bytes now : 0 ≤ i →
  fine (λ '(_, m), manifest_fine key m)
    (store (append_piece_block_with_manifest md4 sha1 hex_encode hex_decode key i start end_ bytes now)).
Proof.
  intros Hi. apply fine_store; [auto with keeps|]. unfold append_piece_block_with_manifest. eapply triple_bind; [by apply triple_append|]. intros b.
  eapply triple_bind; [by apply triple_load|]. intros m. apply triple_ret. intros s Hs. split; [apply Hs|by eapply at_key_fine].
Qed.

Lemma fine_manifest_value : fine (manifest_fine key) (gets s_manifest).
Proof. apply fine_gets. by intros s []. Qed.
Lemma fine_identifier_value : fine id_small (gets request_file_identifier).
Proof. apply fine_gets. by intros s []. Qed.
Lemma fine_state_value : fine (λ st, ∀ a, active_piece_request (window st) = Some a → active_ok a) (gets session_state).
Proof. apply fine_gets. by intros s []. Qed.
Lemma fine_pending_value : fine (Forall request_ok) (gets pending_part_requests).
Proof. apply fine_gets. by intros s []. Qed.
Lemma fine_compressed_value : fine (Forall compressed_ok) (gets pending_compressed_parts).
Proof. apply fine_gets. by intros s []. Qed.
Lemma fine_session_value : fine sess_ok (gets id).
Proof. by apply fine_gets. Qed.
#[local] Hint Resolve fine_write fine_startup fine_ident fine_remote fine_manifest fine_identifier fine_md4 fine_aich fine_root fine_reconcile
  fine_remember fine_release fine_claim fine_append fine_manifest_value fine_identifier_value fine_state_value fine_pending_value
  fine_compressed_value fine_session_value : session.

Ltac fine_step :=
  lazymatch goal with
  | |- fine _ (mret _) => apply fine_ret
  | |- fine _ (when _ _) => apply fine_when
  | |- fine _ (if ?b then _ else _) => let E := fresh "E" in destruct b eqn:E; bool_hyps
  | |- fine _ (send _ ≫= _) => eapply fine_bind; [apply fine_send|intros [] _]
  | |- fine _ (when _ _ ≫= _) => eapply fine_bind; [apply fine_when|intros [] _]
  | |- fine _ (_ ≫= _) => eapply fine_bind; [solve [eauto 3 with session]|]; let v := fresh "v" in let Hv := fresh "Hv" in intros v Hv
  | |- fine _ (send _) => apply fine_send
  | |- fine _ (go_on _) => unfold go_on
  | |- fine _ (peer (Err _)) => by apply fine_peer
  | |- fine _ _ => solve [eauto 3 with session]
  end.
Ltac fine_all := repeat fine_step; try done.

Lemma fine_probe challenge : fine (λ _, True) (probe challenge).
Proof.
  unfold probe. fine_step. eapply fine_bind with (λ _, True).
  { apply fine_peer, safe_probe. }
  intros [ident packet] _. fine_all.
Qed.
Lemma fine_try_signature : fine (λ _, True) (try_send_secure_ident_signature o).
Proof.
  unfold try_send_secure_ident_signature. fine_step. eapply fine_bind; [apply fine_peer, safe_ident_signature|]. intros [p|] _; fine_all.
Qed.
#[local] Hint Resolve fine_probe fine_try_signature : session.

(** *** The start *)

Lemma div8_bound n : 0 ≤ n ≤ U32_MAX → n / 8 ≤ 536870912.
Proof. intros Hn. apply Z.div_le_upper_bound; unfold U32_MAX in *; lia. Qed.
Lemma ext_info_small m : manifest_fine key m → zlen (encode_request_filename_ext_info m) ≤ 536870920.
Proof.
  intros (_ & _ & Hn). pose proof (ext_info_length m). pose proof (zlen_nonneg (pieces m)). pose proof (div8_bound (zlen (pieces m))). lia.
Qed.
Lemma id_encode_small i : id_small i → zlen (id_encode i) ≤ 45.
Proof.
  intros [Hh Hr]. unfold id_encode. rewrite !zlen_app, Hh. change (zlen [_]) with 1. destruct (fi_size i) as [n|], (fi_aich_root i) as [r|];
    rewrite ?zlen_le, ?(zlen_nil (A:=Z)), ?(Hr r eq_refl); lia.
Qed.
Lemma multipacket_small m x : manifest_fine key m → zlen (multipacket_requests m x) ≤ 536871000.
Proof.
  intros Hm%ext_info_small. unfold multipacket_requests. rewrite !zlen_app. change (zlen [OP_REQUESTFILENAME]) with 1.
  assert (zlen (if ED2K_PART_SIZE <? file_size m then [OP_SETREQFILEID] else []) ≤ 1) by (by case_match).
  assert (zlen (match x with NoExchange => [] | ExchangeV1 => [OP_REQUESTSOURCES] | ExchangeV2 => [OP_REQUESTSOURCES2] ++ encode_request_sources2_subpayload end) ≤ 10)
    by (by destruct x). lia.
Qed.
Ltac small := unfold U32_MAX; rewrite ?zlen_app, ?zlen_le, ?(zlen_hash _ o_hash);
  repeat match goal with
         | |- context [zlen (if ?b then _ else _)] => destruct b
         | |- context [zlen [?x]] => change (zlen [x]) with 1
         end; rewrite ?zlen_le, ?(zlen_nil (A:=Z)); lia.

Lemma fine_file_requests : fine (λ _, True) (send_file_requests o).
Proof.
  unfold send_file_requests. do 2 fine_step. rename v0 into m, Hv0 into Hm.
  pose proof (multipacket_small m (source_exchange_request_for_peer v) Hm). pose proof (ext_info_small m Hm).
  fine_step; [|fine_step].
  - fine_step. pose proof (id_encode_small _ Hv0). fine_step; [|fine_all]. apply safe_encode. small.
  - fine_step; [|fine_all]. apply safe_encode. small.
  - fine_step; [apply safe_encode; small|]. fine_all. apply safe_encode. small.
Qed.
Lemma fine_hashset_request now : fine (λ _, True) (send_hashset_request md4 hex_encode o now).
Proof.
  unfold send_hashset_request. do 2 fine_step. fine_step.
  - eapply fine_bind; [by apply fine_md4|]. intros m Hm. fine_all.
  - fine_step. pose proof (id_encode_small _ Hv1). fine_step; [|fine_all]. case_match; [|apply safe_encode; small].
    unfold encode_hashset_request2. case_match; [done|]. apply safe_encode. small.
Qed.
#[local] Hint Resolve fine_file_requests fine_hashset_request : session.
Lemma fine_startup_step now challenge : fine (λ _, True) (advance_download_startup md4 hex_encode o now challenge).
Proof.
  unfold advance_download_startup. repeat fine_step; try done; try (apply safe_encode; small).
  case_match; apply safe_encode; [unfold encode_request_sources2_subpayload|]; small.
Qed.

(** *** The window *)

Lemma fine_fill fuel max now : fine (λ _, True) (fill_window o fuel max now).
Proof.
  induction fuel as [|fuel IH]; cbn [fill_window]; [fine_all|]. fine_step. rename v into s, Hv into Hs. destruct Hs as [Hm Hi Hp Hc Ha].
  fine_step; [fine_all|]. eapply fine_bind with (λ x, ∀ a, x = Some a → active_ok a).
  { destruct (active_piece_request _) as [a|]; [by apply fine_ret|]. fine_step. destruct v as [c|]; [|by apply fine_ret].
    destruct (Hv c eq_refl) as (H1 & H2 & H3). set (a := mkActive _ _ _).
    assert (active_ok a).
    { unfold active_ok, a; cbn. destruct Hm as (_ & Hsize & _). unfold size_ok in Hsize. bool_hyps. unfold LIMIT, ED2K_PART_SIZE in *. lia. }
    eapply fine_bind; [apply fine_active; by intros x [= <-]|]. intros [] _. apply fine_ret. by intros x [= <-]. }
  intros [a|] Hact; [|fine_all]. destruct (Hact a eq_refl) as (H1 & H2 & H3). fine_step; [fine_all|].
  eapply fine_bind; [apply (fine_pending_by (λ l, l ++ [_])); intros l Hl|].
  { apply Forall_app. split; [done|]. constructor; [|done]. unfold request_ok, pending_new. cbn. rewrite (zlen_nil (A:=Z)). unfold ED2K_EMBLOCK_SIZE, LIMIT in *. lia. }
  intros [] _. eapply fine_bind; [apply fine_active|].
  { intros x [= <-]. unfold active_ok; cbn. unfold ED2K_EMBLOCK_SIZE, LIMIT in *. lia. }
  intros [] _. exact IH.
Qed.
Lemma queue_first_ok n l : Forall request_ok l → Forall request_ok (queue_first n l).
Proof.
  intros Hl. revert n. induction Hl as [|r l Hr Hl IH]; intros [|n]; cbn [queue_first]; try done; [by constructor|].
  case_match; constructor; [done|apply IH|by destruct r|apply IH].
Qed.
#[local] Hint Resolve fine_fill fine_startup_step : session.
Lemma fine_pump now : fine (λ _, True) (pump_download_request_window o now).
Proof.
  unfold pump_download_request_window. fine_step. eapply fine_bind; [apply fine_when, fine_fill|]. intros [] _. fine_step. fine_step; [fine_all|].
  fine_step; [by apply safe_parts_batch|]. eapply fine_bind; [apply (fine_pending_by (queue_first 3)); intros l; apply queue_first_ok|]. intros [] _. fine_all.
Qed.
#[local] Hint Resolve fine_pump : session.

(** *** Blocks *)

Lemma fine_block i start end_ bytes now : 0 ≤ i →
  fine (λ _, True) (append_block md4 sha1 hex_encode hex_decode o i start end_ bytes now).
Proof.
  intros Hi. unfold append_block. eapply fine_bind; [by apply fine_append|]. intros [b m] Hm. fine_step. fine_step.
  by apply fine_active.
Qed.
Lemma fine_flush_loop fuel now : fine (λ _, True) (flush_loop md4 sha1 hex_encode hex_decode o fuel now).
Proof.
  induction fuel as [|fuel IH]; cbn [flush_loop]; [fine_all|]. fine_step. destruct v as [|r l]; [fine_all|].
  apply Forall_cons in Hv as [(Hr & _) Hl]. fine_step; [|fine_all]. eapply fine_bind; [by apply fine_pending|]. intros [] _.
  eapply fine_bind; [by apply fine_block|]. intros [] _. eapply fine_bind; [by apply fine_window|]. intros [] _. exact IH.
Qed.
Lemma fine_flush_ready now : fine (λ _, True) (flush_ready_download_blocks md4 sha1 hex_encode hex_decode o now).
Proof.
  unfold flush_ready_download_blocks. fine_step. eapply fine_bind; [apply fine_flush_loop|]. intros [] _. fine_step. fine_step.
  by apply fine_window.
Qed.
Lemma fine_flush_prefixes fuel now : fine (λ _, True) (flush_prefixes_loop md4 sha1 hex_encode hex_decode o fuel now).
Proof.
  induction fuel as [|fuel IH]; cbn [flush_prefixes_loop]; [fine_all|]. fine_step. destruct v as [|r l]; [fine_all|].
  apply Forall_cons in Hv as [(Hi & Hs & He & Hz) Hl]. fine_step; [fine_all|]. eapply fine_bind; [apply fine_pending|].
  { constructor; [|done]. unfold request_ok; cbn. rewrite (zlen_nil (A:=Z)). lia. }
  intros [] _. eapply fine_bind; [by apply fine_block|]. intros [] _. fine_step; [|fine_all].
  eapply fine_bind; [by apply fine_pending|]. intros [] _. exact IH.
Qed.
#[local] Hint Resolve fine_flush_ready : session.

Lemma safe_root t : safe (λ r, ∀ x, r = Some x → zlen x = 20) (decode_root hex_decode t).
Proof.
  unfold decode_root. destruct t as [t|]; [|done]. unfold decode_aich_hash_hex, decode_hash.
  destruct (hex_decode t) as [l|]; [|done]. destruct (Nat.eqb_spec (length l) 20); [|done]. cbn. intros x [= <-]. unfold zlen. lia.
Qed.
Lemma id_from_manifest_small m : manifest_fine key m → safe id_small (id_from_manifest hex_decode m).
Proof.
  intros (Hk & _ & _). unfold id_from_manifest. rewrite Hk, hash_from_str_display by (by apply wf_hash_bytes). cbn [map_err mbind res_bind].
  eapply safe_bind; [apply safe_root|]. intros r Hr. split; [by apply zlen_hash|done].
Qed.
Lemma fine_refresh : fine (λ _, True) (refresh_identifier hex_decode).
Proof. unfold refresh_identifier. fine_step. eapply fine_bind; [by apply fine_peer, id_from_manifest_small|]. intros i Hi. fine_all. Qed.
#[local] Hint Resolve fine_refresh : session.
Lemma fine_reconcile_download i name now : (∀ n, fi_size i = Some n → size_ok n = true) →
  fine (λ _, True) (reconcile_download_manifest_metadata hex_encode hex_decode trim o i name now).
Proof.
  intros Hi. unfold reconcile_download_manifest_metadata. fine_step; [fine_all|]. eapply fine_bind; [by apply fine_reconcile|].
  intros m Hm. fine_all.
Qed.

(** *** Parts *)

Lemma buffer_ok r start end_ bytes : request_ok r → 0 ≤ start →
  safe request_ok (buffer_response_bytes start end_ bytes r).
Proof.
  intros (Hi & Hs & He & Hz) Hst. unfold buffer_response_bytes. destruct (_ || _ || _) eqn:E; [done|]. bool_hyps. cbn [safe].
  unfold request_ok; cbn. rewrite zlen_app. pose proof (zlen_nonneg bytes). unfold saturating_add, LIMIT, U32_MAX, ED2K_PART_SIZE in *. lia.
Qed.
Lemma position_spec {A} (f : A → bool) l i x : position f l = Some (i, x) → l !! i = Some x ∧ f x = true.
Proof. unfold position. intros Hf%list_find_Some. tauto. Qed.
Lemma fine_sending wide payload now : is_bytes payload = true →
  fine (λ _, True) (handle_sending_part md4 sha1 hex_encode hex_decode o wide payload now).
Proof.
  intros Hp. unfold handle_sending_part. eapply fine_bind; [by apply fine_peer, safe_sending_part|]. intros [[[h start] end_] bytes] [Hs He].
  fine_step; [fine_all|]. fine_step. fine_step; [fine_all|]. destruct (position _ v) as [[i r]|] eqn:Hpos; [|fine_all].
  apply position_spec in Hpos as [Hi Hm]. pose proof (Forall_lookup_1 _ _ _ _ Hv Hi) as Hr. fine_step; [fine_all|].
  eapply fine_bind; [apply fine_peer, buffer_ok; [done|lia]|]. intros r' Hr'. eapply fine_bind; [by apply fine_pending, Forall_insert|].
  intros [] _. fine_all.
Qed.
Lemma fine_compressed_part wide payload now : is_bytes payload = true →
  fine (λ _, True) (handle_compressed_part md4 sha1 hex_encode hex_decode o wide payload now).
Proof.
  intros Hp. unfold handle_compressed_part. eapply fine_bind; [by apply fine_peer, safe_compressed_part|].
  intros [[[h start] len] fragment] Hstart. fine_step; [fine_all|]. fine_step. fine_step; [fine_all|].
  destruct (position _ v) as [[i r]|] eqn:Hpos; [|fine_all]. apply position_spec in Hpos as [Hi Hm]. bool_hyps.
  pose proof (Forall_lookup_1 _ _ _ _ Hv Hi) as Hr. pose proof Hr as (Hri & Hrs & Hre & Hrz). fine_step. rename v0 into parts, Hv0 into Hparts.
  eapply fine_bind with (λ '(k, parts'), is_Some (parts' !! k) ∧ Forall compressed_ok parts').
  { destruct (position (same_part r) parts) as [[k c]|] eqn:Hk.
    - apply position_spec in Hk as [Hk _]. fine_step; [fine_all|]. apply fine_ret. by rewrite Hk.
    - set (parts' := parts ++ _). assert (Hp' : Forall compressed_ok parts').
      { apply Forall_app. split; [done|]. constructor; [|done]. unfold compressed_ok; cbn. lia. }
      eapply fine_bind; [by apply fine_compressed|]. intros [] _. apply fine_ret. split; [|done].
      unfold parts'. rewrite lookup_app_r, Nat.sub_diag by lia. by eexists. }
  intros [k parts'] [[c Hc] Hparts']. rewrite Hc. cbn [expect].
  eapply fine_bind with (λ x, x = c); [by apply fine_peer|]. intros c0 ->. destruct (Forall_lookup_1 _ _ _ _ Hparts' Hc) as [Hcs Hcw].
  eapply fine_bind; [apply fine_peer, safe_inflate|]. intros [[c' bytes] fin] (_ & Es & Ew). pose proof (zlen_nonneg bytes).
  eapply fine_bind; [apply fine_compressed, Forall_insert; [done|]|].
  { unfold compressed_ok. rewrite Es, Ew. lia. }
  intros [] _. fine_step; [fine_all|]. eapply fine_bind with (λ _, True).
  { fine_step; [fine_all|]. eapply fine_bind; [apply fine_peer, buffer_ok; [done|]|].
    - case_match; bool_hyps; lia.
    - intros r' Hr'. by apply fine_pending, Forall_insert. }
  intros [] _. repeat (fine_step; [by fine_all|]). eapply fine_bind; [apply fine_when|].
  - apply fine_update. intros s []. split; try done. cbn. by apply Forall_delete.
  - intros [] _. fine_all.
Qed.
Lemma fine_part_packet p now : is_bytes (tp_payload p) = true →
  fine (λ _, True) (handle_download_part_packet md4 sha1 hex_encode hex_decode o p now).
Proof. intros Hp. unfold handle_download_part_packet. fine_step; [by apply fine_compressed_part|by apply fine_sending]. Qed.

(** *** Packets *)

Lemma fine_require h : fine (λ _, True) (require_hash o h).
Proof. unfold require_hash. fine_all. Qed.
Lemma fine_ignored {A} (Q : A → Prop) r : safe Q r → fine (λ _, True) (ignored r).
Proof. intros Hr. unfold ignored. eapply fine_bind; [by apply fine_peer|]. intros a _. fine_all. Qed.
Lemma fine_sources l now : fine (λ _, True) (remember_sources hex_encode o l now).
Proof. induction l as [|x l IH]; cbn [remember_sources]; [fine_all|]. eapply fine_bind; [apply fine_when, fine_remember|]. intros [] _. exact IH. Qed.
Lemma fine_exchange h l now : fine (λ _, True) (remember_source_exchange_sources hex_encode o h l now).
Proof. unfold remember_source_exchange_sources. fine_step; [fine_all|apply fine_sources]. Qed.
Lemma fine_send_all l : fine (λ _, True) (send_all l).
Proof. induction l as [|x l IH]; cbn [send_all]; [fine_all|]. fine_step. exact IH. Qed.
#[local] Hint Resolve fine_require fine_exchange fine_send_all : session.

Lemma safe_validate_parts n size : safe (λ _, True) (validate_file_status_part_count n size).
Proof. unfold validate_file_status_part_count. by repeat case_match. Qed.
Lemma safe_multipacket fuel root size l name r : is_bytes l = true → safe (λ _, True) (multipacket_loop fuel root size l name r).
Proof.
  revert l name r. induction fuel as [|fuel IH]; intros [|x l] name r Hl; cbn [multipacket_loop]; try done.
  assert (Hb : is_bytes l = true) by (cbn in Hl; by apply andb_prop in Hl as [_ ?]).
  case_match; [eapply safe_bind; [by apply safe_string|]; intros [f rest] (_ & Hr & _); by apply IH|].
  case_match; [|case_match; [|done]].
  - eapply safe_bind; [by apply safe_status_body|]. intros [n rest] [_ Hr]. eapply safe_bind; [apply safe_validate_parts|]. intros [] _. by apply IH.
  - repeat safe_step; try done. by apply IH.
Qed.

Lemma fine_multipacket payload now : is_bytes payload = true →
  fine (λ _, True) (handle_multipacket_answer hex_encode hex_decode trim o payload now).
Proof.
  intros Hp. unfold handle_multipacket_answer. destruct (zlen payload <? 16) eqn:E; bool_hyps.
  { eapply fine_bind with (λ _, False); [by apply fine_peer|done]. }
  eapply fine_bind with (λ _, True); [by apply fine_ret|]. intros [] _.
  eapply fine_bind; [apply fine_peer, safe_range; [done|lia|lia]|]. intros h _. fine_step.
  eapply fine_bind; [apply fine_peer, safe_tail; [done|lia]|]. intros rest [Hrest _]. fine_step.
  eapply fine_bind; [by apply fine_peer, safe_multipacket|]. intros [name root] _. fine_step. fine_step.
  eapply fine_bind; [by apply fine_reconcile|]. intros m Hm. fine_all.
Qed.
(** The file sizes that packets tell are those a transfer can have. *)
Definition sizes_fine (payload : list Z) : Prop := ∀ i rest, id_decode payload = Ok (i, rest) → ∀ n, fi_size i = Some n → size_ok n = true.
Lemma fine_multipacket_ext2 payload now : is_bytes payload = true → sizes_fine payload →
  fine (λ _, True) (handle_multipacket_answer_ext2 hex_encode hex_decode trim o payload now).
Proof.
  intros Hp Hs. unfold handle_multipacket_answer_ext2.
  eapply fine_bind with (λ '(i, rest), is_bytes rest = true ∧ ∀ n, fi_size i = Some n → size_ok n = true).
  { apply fine_peer. pose proof (safe_id payload Hp) as Hid. destruct (id_decode payload) as [[i rest]|e|] eqn:E; [|done..].
    destruct Hid as [_ Hr]. split; [done|by eapply Hs]. }
  intros [i rest] [Hr Hi]. fine_step. eapply fine_bind with (λ _, True); [fine_all|]. intros [] _. fine_step.
  eapply fine_bind; [by apply fine_peer, safe_multipacket|]. intros [name root] _.
  eapply fine_bind; [by apply fine_reconcile_download|]. intros [] _. fine_all.
Qed.
Lemma hashset_answer2_id payload a : decode_hashset_answer2 payload = Ok a → ∃ rest, id_decode payload = Ok (ha_file_identifier a, rest).
Proof.
  unfold decode_hashset_answer2. intros ([i rest] & E & Hk)%res_bind_Ok. exists rest. rewrite E. destruct rest as [|x l]; [done|].
  apply res_bind_Ok in Hk as ([hs l'] & _ & Hk). apply res_bind_Ok in Hk as (h & _ & [= <-]). done.
Qed.
Lemma fine_hashset2 payload now : is_bytes payload = true → sizes_fine payload →
  fine (λ _, True) (handle_hashset_answer2 md4 sha1 hex_encode hex_decode trim o payload now).
Proof.
  intros Hp Hs. unfold handle_hashset_answer2.
  eapply fine_bind with (λ a, (∀ hs, ha_md4_hashset a = Some hs → Forall (λ x, wf_Ed2kHash x = true) hs) ∧
    ∀ n, fi_size (ha_file_identifier a) = Some n → size_ok n = true).
  { apply fine_peer. pose proof (safe_hashset_answer2 payload Hp) as Ha.
    destruct (decode_hashset_answer2 payload) as [a|e|] eqn:E; [|done..]. destruct Ha as [_ Hh]. split.
    - intros hs Hhs. eapply Forall_impl; [by apply Hh|]. intros x. apply wf_hash_bytes.
    - apply hashset_answer2_id in E as [rest E]. by eapply Hs. }
  intros a [Hh Hn]. fine_step. eapply fine_bind with (λ _, True); [fine_all|]. intros [] _.
  eapply fine_bind; [by apply fine_reconcile_download|]. intros [] _. eapply fine_bind with (λ _, True).
  { destruct (ha_md4_hashset a) as [hs|]; [|fine_all]. eapply fine_bind; [apply fine_md4; by apply Hh|]. intros m Hm. fine_all. }
  intros [] _. destruct (ha_aich_hashset a); fine_all.
Qed.

Lemma safe_encode_hello_type i : identity_ok i →
  safe (λ p, zlen p = 81) (encode_hello_type_payload i append_recent_emule_hello_tags).
Proof.
  intros (Hh%zlen_hash & _). unfold encode_hello_type_payload, append_recent_emule_hello_tags. rewrite push_nick. cbn [mbind res_bind safe].
  fold (hello_tags i). rewrite !zlen_app, !zlen_le, Hh. reflexivity.
Qed.
Lemma safe_hello_answer i : identity_ok i → safe (λ _, True) (encode_hello_answer i).
Proof. intros Hi. eapply safe_bind; [by apply safe_encode_hello_type|]. intros p Hp. cbv beta in Hp. apply safe_encode. unfold U32_MAX. lia. Qed.
Lemma safe_hello_responses payload i : is_bytes payload = true → identity_ok i → safe (λ _, True) (build_hello_responses payload i).
Proof.
  intros Hp Hi. unfold build_hello_responses. eapply safe_bind with (λ _, True).
  { unfold is_mule_hello, is_mule_hello_type_payload. repeat safe_step; try done. eapply safe_bind; [by apply safe_type_profile|done]. }
  intros mule _. eapply safe_bind with (λ _, True).
  { destruct mule; [done|]. eapply safe_bind with (λ _, True); [by apply safe_encode|done]. }
  intros info _. eapply safe_bind; [by apply safe_hello_answer|done].
Qed.
Lemma fine_hello payload challenge : is_bytes payload = true → fine (λ _, True) (handle_hello o payload challenge).
Proof.
  intros Hp. unfold handle_hello. eapply fine_bind; [by apply fine_peer, safe_hello_profile|]. intros p _.
  eapply fine_bind; [by apply fine_peer, safe_hello_responses|]. intros replies _. fine_all.
Qed.
Lemma fine_hello_answer payload challenge : is_bytes payload = true → fine (λ _, True) (handle_hello_answer o payload challenge).
Proof.
  intros Hp. unfold handle_hello_answer. eapply fine_bind; [by apply fine_peer, safe_type_profile|]. intros p _. fine_all.
Qed.
Lemma fine_info payload : is_bytes payload = true → fine (λ _, True) (handle_emule_info payload).
Proof. intros Hp. unfold handle_emule_info. eapply fine_bind; [by apply fine_peer, safe_info_profile|]. intros p _. fine_all. Qed.
Lemma safe_key_packet ident : safe (λ _, True) (key_payload ← public_key_payload ident; encode_packet OP_EMULEPROT OP_PUBLICKEY key_payload).
Proof.
  eapply safe_bind with (λ p, zlen p ≤ 256).
  - unfold public_key_payload. destruct (try_from_u 8 _) eqn:E; [|done]. apply try_from_u_Some in E as [-> E].
    cbn [safe]. rewrite zlen_app. change (zlen [_]) with 1. lia.
  - intros p Hz. cbv beta in Hz. apply safe_encode. unfold U32_MAX. lia.
Qed.
Lemma fine_secident payload challenge : is_bytes payload = true → fine (λ _, True) (handle_secident_state o payload challenge).
Proof.
  intros Hp. unfold handle_secident_state. eapply fine_bind; [by apply fine_peer, safe_secident|]. intros [st c] _. fine_step.
  eapply fine_bind; [apply fine_when, fine_send, safe_key_packet|]. intros [] _. fine_all.
Qed.
Lemma fine_public_key payload : is_bytes payload = true → fine (λ _, True) (handle_public_key o payload).
Proof. intros Hp. unfold handle_public_key. eapply fine_bind; [by apply fine_peer, safe_public_key|]. intros k _. fine_all. Qed.
Lemma fine_signature payload : is_bytes payload = true → fine (λ _, True) (handle_signature payload).
Proof.
  intros Hp. unfold handle_signature. pose proof (safe_signature payload Hp) as Hs. destruct (decode_signature_payload payload); [|fine_all|done].
  fine_all.
Qed.

(** Packets as they come off the wire. *)
Definition packet_fine (p : EmuleTcpPacket) : Prop :=
  is_bytes (tp_payload p) = true ∧
  (tp_protocol p = OP_EMULEPROT → tp_opcode p = OP_HASHSETANSWER2 ∨ tp_opcode p = OP_MULTIPACKETANSWER_EXT2 → sizes_fine (tp_payload p)).

Lemma fine_go (m : PM session world ()) : fine (λ _, True) m → fine (λ _, True) (go_on m).
Proof. intros Hm. unfold go_on. eapply fine_bind; [exact Hm|]. intros [] _. fine_all. Qed.
Lemma fine_edonkey p now challenge : packet_fine p →
  fine (λ _, True) (handle_edonkey_packet md4 sha1 hex_encode hex_decode trim o p now challenge).
Proof.
  intros [Hp _]. unfold handle_edonkey_packet, handle_edonkey_rest, handle_hashset_answer, handle_filename_answer, handle_file_status. set (payload := tp_payload p) in *. set (opcode := tp_opcode p).
  case_match; [by apply fine_go, fine_hello|]. case_match; [by apply fine_go, fine_hello_answer|]. case_match; [by apply fine_go, fine_window|].
  case_match; [eapply fine_decoded; [by apply safe_hashset_answer|]; intros [h hs] [_ Hhs]; fine_step; eapply fine_bind; [apply fine_md4|]|].
  { eapply Forall_impl; [exact Hhs|]. intros x. apply wf_hash_bytes. }
  { intros m Hm. apply fine_go. fine_all. }
  case_match; [eapply fine_decoded; [by apply safe_filename_answer|]; intros [h name] _; fine_step; eapply fine_bind; [by apply fine_reconcile|]|].
  { intros m Hm. fine_all. }
  case_match; [eapply fine_decoded; [by apply safe_file_status|]; intros [h n] _; fine_step; fine_step; eapply fine_decoded; [apply safe_validate_parts|]; intros [] _; fine_all|].
  case_match; [fine_all|]. case_match; [eapply fine_decoded; [by apply safe_queue_rank|]; intros r _; by apply fine_go, fine_window|].
  case_match; [fine_all|]. case_match; [fine_all|].
  repeat (case_match; [solve [by fine_all | apply fine_go; eapply fine_ignored; eauto with codec | apply fine_go, fine_send; by apply safe_encode
    | eapply fine_decoded; [by eauto with codec|]; intros ? _; apply fine_go, fine_send; by apply safe_encode
    | eapply fine_decoded; [by eauto with codec|]; intros ? _; fine_all | by apply fine_part_packet]|]).
  fine_all.
Qed.
Lemma fine_emule p now challenge : packet_fine p → tp_protocol p = OP_EMULEPROT →
  fine (λ _, True) (handle_emule_packet md4 sha1 hex_encode hex_decode trim o p now challenge).
Proof.
  intros [Hp Hsz] Hproto. specialize (Hsz Hproto). unfold handle_emule_packet, handle_emule_rest, handle_aich_file_hash_answer. set (payload := tp_payload p) in *. set (opcode := tp_opcode p) in *.
  case_match; [apply fine_go; eapply fine_bind; [by apply fine_info|]; intros [] _; apply fine_send; by apply safe_encode|].
  case_match; [by apply fine_go, fine_info|]. case_match; [by apply fine_go, fine_secident|]. case_match; [by apply fine_go, fine_public_key|].
  case_match; [by apply fine_go, fine_signature|].
  case_match; [apply fine_go; destruct (sa_ip (o_peer_addr o)) as [[[[a b] c] d]|]; [apply fine_send; by apply safe_encode|fine_all]|].
  do 5 (case_match; [apply fine_go; eapply fine_ignored; eauto with codec|]). case_match; [apply fine_go, fine_send; by apply safe_encode|].
  case_match; [fine_all|]. case_match; [bool_hyps; apply fine_go, fine_hashset2; [done|by apply Hsz; left]|]. case_match; [by apply fine_go, fine_multipacket|].
  case_match; [bool_hyps; apply fine_go, fine_multipacket_ext2; [done|by apply Hsz; right]|].
  case_match; [eapply fine_decoded; [by apply safe_aich_file_hash|]; intros [h root] _; fine_step; fine_step; fine_step; apply fine_go, fine_refresh|].
  case_match; [eapply fine_decoded; [by apply safe_answer_sources2|]; intros [h l] _; apply fine_go, fine_exchange|].
  case_match; [fine_step; eapply fine_decoded; [by apply safe_answer_sources|]; intros [h l] _; apply fine_go, fine_exchange|].
  case_match; [eapply fine_decoded; [by apply safe_queue_ranking|]; intros r _; by apply fine_go, fine_window|].
  do 3 (case_match; [apply fine_go; eapply fine_ignored; eauto with codec|]).
  case_match; [eapply fine_decoded; [by apply safe_aich_request|]; intros r Hr; cbv beta in Hr; apply fine_go, fine_send, safe_encode; rewrite (zlen_hash _ Hr); done|].
  case_match; [apply fine_go; eapply fine_ignored; eauto with codec|]. case_match; [by apply fine_part_packet|fine_all].
Qed.
Lemma fine_packet p now challenge : packet_fine p →
  fine (λ _, True) (handle_packet md4 sha1 hex_encode hex_decode trim o p now challenge).
Proof.
  intros Hp. unfold handle_packet. case_match; [by apply fine_edonkey|]. case_match; bool_hyps; [by apply fine_emule|fine_all].
Qed.

(** *** The loop *)

Lemma fine_incomplete e : fine (λ _, True) (incomplete_or e).
Proof. unfold incomplete_or. fine_all. Qed.
Definition event_fine (e : event) : Prop := match e with Received p => packet_fine p | _ => True end.
Lemma fine_event e fallback now challenge : event_fine e →
  fine (λ _, True) (handle_event md4 sha1 hex_encode hex_decode trim o e fallback now challenge).
Proof.
  intros He. destruct e as [p| |[]|]; cbn [handle_event]; [by apply fine_packet|apply fine_incomplete|apply fine_incomplete|fine_all|].
  fine_step. fine_step; [fine_all|]. fine_step; [fine_all|]. eapply fine_bind; [by apply fine_when, fine_window|]. intros [] _.
  fine_step. fine_step; [fine_all|apply fine_incomplete].
Qed.
Lemma fine_turn now challenge : fine (λ _, True) (turn md4 hex_encode o now challenge).
Proof.
  unfold turn. eapply fine_bind; [apply fine_startup_step|]. intros [] _. fine_step. eapply fine_bind with (λ _, True); [|intros [] _; fine_all].
  fine_step; [|fine_all]. fine_step. destruct v0; [by apply fine_window|fine_all].
Qed.
Lemma fine_finish (r : res PeerError (option Ed2kPeerDownloadOutcome)) now : r ≠ Panic →
  fine (λ _, True) (finish_session md4 sha1 hex_encode hex_decode o r now).
Proof.
  intros Hr. unfold finish_session. eapply fine_bind with (λ _, True).
  { destruct r as [[[]|]|e|]; try fine_all. unfold flush_buffered_download_prefixes. fine_step. apply fine_flush_prefixes. }
  intros [] _. fine_step. destruct Hv as [_ _ Hp _ Ha]. eapply fine_bind with (λ _, True); [|intros [] _; apply fine_peer; by destruct r].
  set (claimed := match active_piece_request _ with Some a => Some (ap_piece_index a) | None => _ end). assert (Hc : ∀ i, claimed = Some i → 0 ≤ i).
  { unfold claimed. intros i. destruct (active_piece_request _) as [a|]; [intros [= <-]; by apply Ha|].
    destruct Hp as [|r0 l [H0 _] _]; [done|]. cbn. by intros [= <-]. }
  destruct claimed as [i|]; [|fine_all]. by apply fine_release, Hc.
Qed.

Lemma fine_session_loop inputs : Forall (λ i, event_fine (in_event i)) inputs →
  fine (λ _, True) (session_loop md4 sha1 hex_encode hex_decode trim o inputs).
Proof.
  induction 1 as [|i inputs Hi _ IH]; cbn [session_loop]; fine_step; (fine_step; [by apply fine_ret|]); [by apply fine_ret|].
  eapply fine_bind with (λ _, True); [|intros [r|] _; [by apply fine_ret|done]].
  unfold loop_turn. eapply fine_bind; [apply fine_turn|]. intros [fb d] _. by apply fine_event.
Qed.
Lemma fine_run_session inputs now : Forall (λ i, event_fine (in_event i)) inputs →
  fine (λ _, True) (run_session md4 sha1 hex_encode hex_decode trim o inputs now).
Proof.
  intros Hi s w Hs Hw. pose proof (fine_session_loop inputs Hi s w Hs Hw) as Hl. unfold run_session.
  destruct (session_loop _ _ _ _ _ _ inputs s w) as [[s' w'] r]. destruct Hl as (Hs' & Hw' & Hr).
  destruct r as [[x|]|e|]; [by apply fine_finish|done|by apply fine_finish|done].
Qed.
End safe.

Section reach.
Context `{Laws : ZlibLaws}.
Context (md4 sha1 : list Z → list Z) (hex_encode : list Z → list Z) (hex_decode : list Z → option (list Z)) (trim : list Z → list Z).
Hypothesis hex_roundtrip : ∀ b, is_bytes b = true → hex_decode (hex_encode b) = Some b.
Hypothesis md4_hash : ∀ b, wf_Ed2kHash (md4 b) = true.
Context (o : DownloadSessionOptions).
Hypothesis o_hash : hash_ok (o_file_hash o).
Hypothesis o_identity : identity_ok (o_hello_identity o).
Local Abbreviation key := (hash_display (o_file_hash o)).
Local Abbreviation store_ok := (store_ok md4 hex_encode).
Local Abbreviation sess_ok := (sess_ok key).
Local Abbreviation fine := (fine sess_ok (λ w, store_ok (core w) ∧ True)).

Lemma turn_fine now challenge : fine (λ _, True) (turn md4 hex_encode o now challenge).
Proof. by apply fine_turn with (K := λ _, True). Qed.
Lemma handle_event_fine e fallback now challenge : event_fine e →
  fine (λ _, True) (handle_event md4 sha1 hex_encode hex_decode trim o e fallback now challenge).
Proof. by apply fine_event with (K := λ _, True). Qed.
Lemma finish_fine (r : res PeerError (option Ed2kPeerDownloadOutcome)) now : r ≠ Panic →
  fine (λ _, True) (finish_session md4 sha1 hex_encode hex_decode o r now).
Proof. by apply fine_finish with (K := λ _, True). Qed.

(** *** Sessions among others

    A session turns, waits and handles what happened; between any two of its steps
    other tasks operate on the store. *)
Inductive phase : Type := Looping | Waiting (fallback : bool) | Ended (r : res PeerError (option Ed2kPeerDownloadOutcome)).
Inductive dl_reach : phase → session → world → Prop :=
| dl_start w now w' m i hello ident exchange broken : tx_reach md4 sha1 hex_encode hex_decode trim w →
    load_manifest key now w = (w', Ok m) → id_from_manifest hex_decode m = Ok i →
    dl_reach Looping (session_new m i hello ident exchange broken) w'
| dl_other ph s w op now : dl_reach ph s w → op_ok md4 op (core w) →
    dl_reach ph s (fst (run_op md4 sha1 hex_encode hex_decode trim op now w))
| dl_completed s w : dl_reach Looping s w → completed (s_manifest s) = true → dl_reach (Ended (Ok (Some Completed))) s w
| dl_turn s w now challenge s' w' r : dl_reach Looping s w → completed (s_manifest s) = false →
    turn md4 hex_encode o now challenge s w = (s', w', r) →
    dl_reach (match r with
              | Ok (fallback, _) => Waiting (bool_decide (is_Some fallback))
              | Err e => Ended (Err e)
              | Panic => Ended Panic
              end) s' w'
| dl_event fallback s w e now challenge s' w' r : dl_reach (Waiting fallback) s w → event_fine e →
    handle_event md4 sha1 hex_encode hex_decode trim o e fallback now challenge s w = (s', w', r) →
    dl_reach (match r with Ok None => Looping | r => Ended r end) s' w'.

Lemma dl_reach_ok ph s w : dl_reach ph s w → sess_ok s ∧ store_ok (core w) ∧ ph ≠ Ended Panic.
Proof.
  induction 1 as [w now w' m i hello ident exchange broken Hw Hl Hi|ph s w op now _ (IHs & IHw & IHp) Hop|s w _ (IHs & IHw & _) Hc|
    s w now challenge s' w' r _ (IHs & IHw & _) Hc Ht|fallback s w e now challenge s' w' r _ (IHs & IHw & _) He Hh].
  - pose proof (tx_reach_ok _ _ _ _ trim hex_roundtrip md4_hash w Hw) as Hs.
    pose proof (triple_load md4 sha1 hex_encode trim key now w Hs) as Hload. rewrite Hl in Hload.
    assert (Hm : manifest_fine key m) by by eapply at_key_fine. assert (Hid : safe id_small (id_from_manifest hex_decode m)) by (by eapply id_from_manifest_small).
    rewrite Hi in Hid. split; [by split; cbn|]. split; [apply Hload|done].
  - split; [done|]. split; [|done]. pose proof (triple_op _ sha1 _ _ trim hex_roundtrip md4_hash op now w (conj IHw Hop)) as Hx.
    by destruct (run_op _ _ _ _ _ op now w) as [w' [[]|e|]].
  - done.
  - pose proof (turn_fine now challenge s w IHs (conj IHw I)) as Hf. rewrite Ht in Hf. destruct Hf as (? & [? _] & Hr).
    split; [done|]. split; [done|]. by destruct r as [[]|e|].
  - pose proof (handle_event_fine e fallback now challenge He s w IHs (conj IHw I)) as Hf. rewrite Hh in Hf. destruct Hf as (? & [? _] & Hr).
    split; [done|]. split; [done|]. by destruct r as [[]|e0|].
Qed.
(** The loop runs along these steps. *)
Definition after (r : res PeerError (option Ed2kPeerDownloadOutcome)) : phase := match r with Ok None => Looping | r => Ended r end.
Lemma session_loop_reach inputs s w s' w' r : dl_reach Looping s w → Forall (λ i, event_fine (in_event i)) inputs →
  session_loop md4 sha1 hex_encode hex_decode trim o inputs s w = (s', w', r) → dl_reach (after r) s' w'.
Proof.
  intros Hs Hi. revert s w Hs. induction Hi as [|i inputs Hi _ IH]; intros s w Hs; cbn [session_loop]; unfold mbind, sm_bind, gets;
    destruct (completed (s_manifest s)) eqn:Hc; try (intros [= <- <- <-]; first [by apply dl_completed|done]).
  unfold loop_turn, mbind, sm_bind. destruct (turn _ _ _ _ _ s w) as [[s1 w1] r1] eqn:Ht. pose proof (dl_turn _ _ _ _ _ _ _ Hs Hc Ht) as H1.
  destruct r1 as [[fb d]|e|]; [|intros [= <- <- <-]; exact H1..].
  destruct (handle_event _ _ _ _ _ _ _ _ _ _ s1 w1) as [[s2 w2] r2] eqn:He. pose proof (dl_event _ _ _ _ _ _ _ _ _ H1 Hi He) as H2.
  destruct r2 as [[x|]|e|]; [intros [= <- <- <-]; exact H2| |intros [= <- <- <-]; exact H2..]. intros Hl. by eapply IH.
Qed.
End reach.

(** ** Property *)


(** A session that downloads a file of three bytes. *)
Definition sample_options : DownloadSessionOptions :=
  mkOptions (mkSocketAddr (V4 (80, 1, 2, 3)) 4662) sample_identity (mkSecureIdent [1; 2] (λ _, [3; 4])) (sum_hash sample_file) 30000 true 100.
Definition fresh_world : world :=
  sample_run [OEnsure (new_transfer_job (sum_hash sample_file) [97] 3)] (mkWorld [] [] ∅ ∅ ∅ ∅ ∅ []).
Lemma fresh_reach : tx_reach sum_hash sum_hash hex_text hex_bytes id fresh_world.
Proof.
  apply sample_run_reach; [apply tx_start|]. constructor; [|constructor]. intros s. cbn [op_ok].
  split; [|vm_compute; done]. exists (sum_hash sample_file). split; [apply sum_hash_wf|reflexivity].
Qed.
Definition says (opcode : Z) (payload : list Z) : input := mkInput 0 7 (Received (mkTcpPacket OP_EDONKEYPROT opcode payload)) 0 9.
Definition sample_inputs : list input :=
  [says OP_HELLOANSWER (replicate 16 5 ++ [9; 0; 0; 0; 54; 18] ++ replicate 10 0);
   says OP_FILESTATUS (sum_hash sample_file ++ [0; 0]);
   says OP_ACCEPTUPLOADREQ [];
   says OP_SENDINGPART (sum_hash sample_file ++ [0; 0; 0; 0; 3; 0; 0; 0] ++ sample_file)].
Lemma sample_inputs_fine : Forall (λ i, event_fine (in_event i)) sample_inputs.
Proof. repeat constructor; done. Qed.
Definition sample_loop (n : nat) : option (session * world * res PeerError (option Ed2kPeerDownloadOutcome)) :=
  match load_manifest sample_key 0 fresh_world with
  | (w, Ok m) =>
      match id_from_manifest hex_bytes m with
      | Ok i => Some (session_loop (H:=RunLength.rle_zlib) sum_hash sum_hash hex_text hex_bytes id sample_options (take n sample_inputs)
                  (session_new m i false false true []) w)
      | _ => None
      end
  | _ => None
  end.
Lemma sample_loop_reach n s w r : sample_loop n = Some (s, w, r) →
  dl_reach (H:=RunLength.rle_zlib) sum_hash sum_hash hex_text hex_bytes id sample_options (after r) s w.
Proof.
  unfold sample_loop. destruct (load_manifest _ _ _) as [w1 [m| |]] eqn:Hl; [|done..]. destruct (id_from_manifest _ _) as [i| |] eqn:Hi; [|done..].
  intros [= Hs]. eapply (session_loop_reach (H:=RunLength.rle_zlib)); [|apply Forall_take, sample_inputs_fine|exact Hs].
  eapply dl_start; [exact fresh_reach|exact Hl|exact Hi].
Qed.
(** The four packets of the peer are enough: the file is complete, and its bytes are on
    the disk. *)
Example sample_session_completes :
  option_map (λ '(_, w, r), (payload w sample_key, r)) (sample_loop 4) = Some (sample_file, Ok (Some Completed)).
Proof. vm_compute. reflexivity. Qed.

(** A file of exactly one part: its hash set has two entries, but a session stores the
    empty one, which is refused, so that the session ends. *)
Definition one_part_world : world :=
  sample_run [OEnsure (new_transfer_job (sum_hash sample_file) [97] ED2K_PART_SIZE)] (mkWorld [] [] ∅ ∅ ∅ ∅ ∅ []).
Definition one_part_result : option (res PeerError (option Ed2kPeerDownloadOutcome)) :=
  match load_manifest sample_key 0 one_part_world with
  | (w, Ok m) =>
      match id_from_manifest hex_bytes m with
      | Ok i => Some (snd (session_loop (H:=RunLength.rle_zlib) sum_hash sum_hash hex_text hex_bytes id sample_options sample_inputs
                  (session_new m i false false true []) w))
      | _ => None
      end
  | _ => None
  end.
Example one_part_refused : one_part_result = Some (Err (PTransfer EHashsetLength)).
Proof. vm_compute. reflexivity. Qed.
