(* ===== verification/Listener.v ===== *)
(** * The sessions that peers open

    [ed2k_tcp/listener/]: a peer connects, says hello, asks for files, hash sets and
    sources ([session/shared_file.rs]), queues for an upload slot
    ([session/upload_queue.rs]) and requests ranges ([session/upload_payload.rs]);
    [session.rs] has the loop, and [ed2k_transfer/upload.rs] what the upload queue offers
    to it. A session works on its own variables and on what the tasks of the agent share:
    the transfer store and the upload queue. As in downloads, packets, the end of the
    stream, errors of it and timeouts are events; every write may fail; the clock, random
    challenges and the routing table are arguments. Accepting the connection and the dumps
    of packets are left out. *)

From S2P Require Import Prelude Net NodeId Text Contact Packet PacketTypes UploadQueue Hashset Transfer PeerTransport PeerCodec PeerParts Hello Session Download ServerTypes.

Definition ED2K_CONNECTION_IDLE_TIMEOUT : Z := 5 * NANOS_PER_SEC.
Definition ED2K_UPLOAD_QUEUE_POLL_INTERVAL : Z := 500000000.
Definition ED2K_UPLOAD_QUEUE_REFRESH_INTERVAL : Z := 10 * NANOS_PER_SEC.

(** ** What tasks share *)

Record shared : Type := mkShared {
  sh_store : world;
  sh_uploads : Ed2kUploadQueueState;
  sh_next_upload_connection_id : Z
}.
Definition begin_upload_session (peer : Ed2kUploadPeerIdentity) (file_hash : Ed2kHash) (now : Z) (g : shared)
    : shared * (Ed2kUploadSessionHandle * Ed2kUploadSessionStatus) :=
  let connection_id := sh_next_upload_connection_id g in
  let handle := mkHandle (mkKey peer (hash_display file_hash)) connection_id in
  let '(q, status) := begin_session (sh_uploads g) (h_key handle) connection_id now in
  (mkShared (sh_store g) q ((connection_id + 1) mod 2 ^ 64), (handle, status)).
Definition poll_upload_session (handle : Ed2kUploadSessionHandle) (refresh_activity : bool) (now : Z) (g : shared)
    : shared * Ed2kUploadSessionStatus :=
  let '(q, status) := poll_session (sh_uploads g) handle now refresh_activity in
  (mkShared (sh_store g) q (sh_next_upload_connection_id g), status).
Definition note_upload_request_parts (handle : Ed2kUploadSessionHandle) (now : Z) (g : shared) : shared * Ed2kUploadSessionStatus :=
  let '(q, status) := note_request_parts (sh_uploads g) handle now in
  (mkShared (sh_store g) q (sh_next_upload_connection_id g), status).
Definition release_upload_session (handle : Ed2kUploadSessionHandle) (now : Z) (g : shared) : shared :=
  mkShared (sh_store g) (release_session (sh_uploads g) handle now) (sh_next_upload_connection_id g).

(** ** The variables of a session *)

Record ListenerUploadQueue : Type := mkListenerQueue {
  lq_session : option Ed2kUploadSessionHandle;
  lq_file_hash : option Ed2kHash;
  lq_granted_sent : bool;
  lq_last_queue_rank : option Z;
  lq_last_queue_rank_sent_at : option Z
}.
Definition listener_queue_new : ListenerUploadQueue := mkListenerQueue None None false None None.
(** What a session tells the Kad node: a key for a peer, and a packet to it. *)
Inductive kad_effect : Type := RegisterPeerKey (target : SocketAddr) (key : Z) | SendKad (target : SocketAddr) (p : KadPacket).

Record connection : Type := mkConnection {
  c_secure_ident : Ed2kPeerSecureIdentState;
  c_requested_file_hash : option Ed2kHash;
  c_supports_aich : bool;
  c_supports_file_identifiers : bool;
  c_identity : Ed2kUploadPeerIdentity;
  c_queue : ListenerUploadQueue;
  c_sent : list (list Z);
  c_kad : list kad_effect;
  c_broken : list bool
}.
Definition set_ident (f : Ed2kPeerSecureIdentState → Ed2kPeerSecureIdentState) (c : connection) : connection :=
  mkConnection (f (c_secure_ident c)) (c_requested_file_hash c) (c_supports_aich c) (c_supports_file_identifiers c) (c_identity c)
    (c_queue c) (c_sent c) (c_kad c) (c_broken c).
Definition set_requested (h : option Ed2kHash) (c : connection) : connection :=
  mkConnection (c_secure_ident c) h (c_supports_aich c) (c_supports_file_identifiers c) (c_identity c) (c_queue c) (c_sent c) (c_kad c)
    (c_broken c).
Definition set_profile (aich file_identifiers : bool) (i : Ed2kUploadPeerIdentity) (c : connection) : connection :=
  mkConnection (c_secure_ident c) (c_requested_file_hash c) aich file_identifiers i (c_queue c) (c_sent c) (c_kad c) (c_broken c).
Definition set_listener_queue (f : ListenerUploadQueue → ListenerUploadQueue) (c : connection) : connection :=
  mkConnection (c_secure_ident c) (c_requested_file_hash c) (c_supports_aich c) (c_supports_file_identifiers c) (c_identity c)
    (f (c_queue c)) (c_sent c) (c_kad c) (c_broken c).
Definition set_output (sent : list (list Z)) (kad : list kad_effect) (broken : list bool) (c : connection) : connection :=
  mkConnection (c_secure_ident c) (c_requested_file_hash c) (c_supports_aich c) (c_supports_file_identifiers c) (c_identity c)
    (c_queue c) sent kad broken.

Local Abbreviation LM := (PM connection shared).
Definition on_shared {A} (f : shared → shared * A) : LM A := λ c g, let '(g', a) := f g in (c, g', Ok a).
Definition on_store {A} (t : TM A) : LM A := λ c g,
  let '(w', r) := t (sh_store g) in (c, mkShared w' (sh_uploads g) (sh_next_upload_connection_id g), map_err PTransfer r).
(** [transport.write_all], and that of a packet that may fail to be built. *)
Definition send_bytes (bytes : list Z) : LM () := λ c g,
  match c_broken c with
  | true :: broken => (set_output (c_sent c) (c_kad c) broken c, g, Err PIo)
  | broken => (set_output (c_sent c ++ [bytes]) (c_kad c) (tail broken) c, g, Ok ())
  end.
Definition reply (packet : res PeerError (list Z)) : LM () := bytes ← peer packet; send_bytes bytes.
Definition update_queue (f : ListenerUploadQueue → ListenerUploadQueue) : LM () := update (set_listener_queue f).

(** ** The peer's place in the upload queue *)

Inductive ListenerQueuePoll : Type := PollContinue | PollClose.
Inductive ListenerQueueDecision : Type := QGranted | QWaiting | QStale.

Definition read_timeout (q : ListenerUploadQueue) : Z :=
  if bool_decide (is_Some (lq_session q)) then ED2K_UPLOAD_QUEUE_POLL_INTERVAL else ED2K_CONNECTION_IDLE_TIMEOUT.
Definition mark_granted_sent (q : ListenerUploadQueue) : ListenerUploadQueue :=
  mkListenerQueue (lq_session q) (lq_file_hash q) true None None.
Definition mark_waiting (rank now : Z) (q : ListenerUploadQueue) : ListenerUploadQueue :=
  mkListenerQueue (lq_session q) (lq_file_hash q) false (Some rank) (Some now).
Definition forget_rank (q : ListenerUploadQueue) : ListenerUploadQueue :=
  mkListenerQueue (lq_session q) (lq_file_hash q) (lq_granted_sent q) None None.
Definition hold_session (h : Ed2kUploadSessionHandle) (file_hash : Ed2kHash) (granted_sent : bool) (q : ListenerUploadQueue)
    : ListenerUploadQueue :=
  mkListenerQueue (Some h) (Some file_hash) granted_sent (lq_last_queue_rank q) (lq_last_queue_rank_sent_at q).

Definition send_accept_if_needed : LM () :=
  c ← gets c_queue;
  if lq_granted_sent c then update_queue forget_rank
  else reply encode_accept_upload_req;; update_queue mark_granted_sent.
Definition send_queue_rank (rank now : Z) : LM () :=
  reply (encode_queue_ranking rank);; update_queue (mark_waiting rank now).
Definition send_status (status : Ed2kUploadSessionStatus) (now : Z) : LM ListenerQueueDecision :=
  match status with
  | StGranted => send_accept_if_needed;; mret QGranted
  | StWaiting rank => send_queue_rank rank now;; mret QWaiting
  | StStale => mret QStale
  end.
Definition should_refresh (q : ListenerUploadQueue) (rank now : Z) : bool :=
  negb (bool_decide (lq_last_queue_rank q = Some rank)) ||
  match lq_last_queue_rank_sent_at q with
  | None => true
  | Some sent_at => ED2K_UPLOAD_QUEUE_REFRESH_INTERVAL <=? saturating_sub now sent_at
  end.
Definition poll_on_timeout (now : Z) : LM ListenerQueuePoll :=
  q ← gets c_queue;
  match lq_session q with
  | None => mret PollClose
  | Some handle =>
      status ← on_shared (poll_upload_session handle true now);
      match status with
      | StGranted => send_accept_if_needed;; mret PollContinue
      | StWaiting rank => when (should_refresh q rank now) (send_queue_rank rank now);; mret PollContinue
      | StStale => mret PollClose
      end
  end.
Definition start_upload_reply (identity : Ed2kUploadPeerIdentity) (requested : Ed2kHash) (now : Z) : LM (list Z) :=
  q ← gets c_queue;
  status ← (if bool_decide (lq_file_hash q = Some requested) then
              match lq_session q with
              | Some handle => on_shared (poll_upload_session handle true now)
              | None => mret StStale
              end
            else
              '((handle, status) : Ed2kUploadSessionHandle * Ed2kUploadSessionStatus) ← on_shared (begin_upload_session identity requested now);
              update_queue (λ q, hold_session handle requested (lq_granted_sent q) q);;
              mret status);
  match status with
  | StGranted => update_queue mark_granted_sent;; peer encode_accept_upload_req
  | StWaiting rank => update_queue (mark_waiting rank now);; peer (encode_queue_ranking rank)
  | StStale => update_queue (mark_waiting 1 now);; peer (encode_queue_ranking 1)
  end.
Definition ensure_session_for_parts (identity : Ed2kUploadPeerIdentity) (requested : Ed2kHash) (now : Z) : LM ListenerQueueDecision :=
  q ← gets c_queue;
  if bool_decide (lq_file_hash q = Some requested) then mret QGranted
  else
    '((handle, status) : Ed2kUploadSessionHandle * Ed2kUploadSessionStatus) ← on_shared (begin_upload_session identity requested now);
    update_queue (hold_session handle requested false);;
    send_status status now.
Definition listener_note_request_parts (now : Z) : LM ListenerQueueDecision :=
  q ← gets c_queue;
  match lq_session q with
  | None => mret QWaiting
  | Some handle => status ← on_shared (note_upload_request_parts handle now); send_status status now
  end.
Definition release (now : Z) : LM () :=
  q ← gets c_queue;
  match lq_session q with
  | Some handle => on_shared (λ g, (release_upload_session handle now g, ()))
  | None => mret ()
  end;;
  update_queue (λ _, listener_queue_new).

Section session.
Context `{Zlib}.

(** What a session is given. *)
Record ListenerOptions : Type := mkListenerOptions {
  lo_peer_addr : SocketAddr;
  lo_response_identity : Ed2kHelloIdentity;
  lo_kad_udp_port : Z;
  lo_secure_ident : Ed2kSecureIdent;
  lo_fuel : nat
}.
Context (md4 sha1 : list Z → list Z) (hex_encode : list Z → list Z) (hex_decode : list Z → option (list Z)).
Context (trim : list Z → list Z) (o : ListenerOptions).

(** ** Questions on files *)

Definition send_nofile (requested : Ed2kHash) : LM () := reply (encode_file_req_ans_nofil requested).
(** [try_into] of a vector to an array of [n] bytes. *)
Definition array_of (n : nat) (bytes : list Z) : option (list Z) := if (length bytes =? n)%nat then Some bytes else None.
Definition shared_aich_root (e : Ed2kSharedEntry) : option (list Z) :=
  root ← se_aich_root e; bytes ← hex_decode root; array_of 20 bytes.
Definition exchange_peer (source : Ed2kSourceHint) : option SourceExchangePeer :=
  '(a, b, c, d) ← ipv4_from_str (sh_ip source);
  if sh_tcp_port source =? 0 then None
  else Some (mkSource [a; b; c; d] (sh_tcp_port source) 0 0 (text ← sh_user_hash source; bytes ← hex_decode text; array_of 16 bytes) 0).
Definition source_exchange_peers (requested : Ed2kHash) (now : Z) : LM (list SourceExchangePeer) :=
  m ← on_store (load_manifest (hash_display requested) now);
  mret (omap exchange_peer (sources m)).
(** The answer to a request for sources in the version that is used. *)
Definition answer_sources (requested : Ed2kHash) (second : bool) (used_version : Z) (now : Z) : LM () :=
  l ← source_exchange_peers requested now;
  if source_exchange_entry_count used_version l =? 0 then mret ()
  else reply (if second then encode_answer_sources2 requested used_version l else encode_answer_sources requested l).
Definition answer_source_request_subpacket (requested : Ed2kHash) (opcode : Z) (remaining : list Z) (now : Z) : LM (list Z) :=
  let second := opcode =? OP_REQUESTSOURCES2 in
  requested_version ← (if second then if zlen remaining <? 3 then peer (Err PShort) else peer (byte remaining 0) else mret 1);
  remaining ← (if second then peer (tail_from remaining 3) else mret remaining);
  if requested_version =? 0 then mret remaining
  else
    let used_version := if second then Z.min requested_version ED2K_SOURCE_EXCHANGE2_VERSION else 1 in
    answer_sources requested second used_version now;;
    mret remaining.

(** The loops over the parts of a multipacket: whether the name and the status are
    asked for, and the root. A part takes a byte at least, so the fuel is the length. *)
Fixpoint ext2_loop (fuel : nat) (requested : Ed2kHash) (file_size : Z) (remaining : list Z) (name status : bool) (now : Z)
    : LM (bool * bool) :=
  match remaining with
  | [] => mret (name, status)
  | sub_opcode :: remaining =>
      match fuel with
      | O => peer (Err PShort)
      | S fuel' =>
          if sub_opcode =? OP_REQUESTFILENAME then
            rest ← peer (skip_request_filename_ext_info remaining file_size);
            ext2_loop fuel' requested file_size rest true status now
          else if sub_opcode =? OP_SETREQFILEID then ext2_loop fuel' requested file_size remaining name true now
          else if sub_opcode =? OP_REQUESTSOURCES then
            l ← source_exchange_peers requested now;
            reply (encode_answer_sources requested l);;
            ext2_loop fuel' requested file_size remaining name status now
          else if sub_opcode =? OP_REQUESTSOURCES2 then
            rest ← answer_source_request_subpacket requested OP_REQUESTSOURCES2 remaining now;
            ext2_loop fuel' requested file_size rest name status now
          else if sub_opcode =? OP_AICHFILEHASHREQ then ext2_loop fuel' requested file_size remaining name status now
          else peer (Err PUnsupported)
      end
  end.
Definition handle_multipacket_ext2_request (payload : list Z) (now : Z) : LM (option Ed2kHash) :=
  '((requested_identifier, remaining) : Ed2kFileIdentifier * list Z) ← peer (id_decode payload);
  let requested := fi_hash requested_identifier in
  entry ← on_store (local_entry requested now);
  match entry with
  | None => send_nofile requested;; mret (Some requested)
  | Some e =>
      i ← peer (id_from_shared_entry hex_decode e);
      if negb (matches_relaxed i requested_identifier) then send_nofile requested;; mret (Some requested)
      else
        '((name, status) : bool * bool) ← ext2_loop (length remaining) requested (se_file_size e) remaining false false now;
        when (name || status) (reply (encode_multipacket_ext2_answer i (se_canonical_name e) name status));;
        mret (Some requested)
  end.
Fixpoint listener_multipacket_loop (fuel : nat) (requested : Ed2kHash) (e : Ed2kSharedEntry) (with_root : bool) (remaining : list Z)
    (name status : bool) (root : option (list Z)) (now : Z) : LM (bool * bool * option (list Z)) :=
  match remaining with
  | [] => mret (name, status, root)
  | sub_opcode :: remaining =>
      match fuel with
      | O => peer (Err PShort)
      | S fuel' =>
          if sub_opcode =? OP_REQUESTFILENAME then
            rest ← peer (skip_request_filename_ext_info remaining (se_file_size e));
            listener_multipacket_loop fuel' requested e with_root rest true status root now
          else if sub_opcode =? OP_SETREQFILEID then listener_multipacket_loop fuel' requested e with_root remaining name true root now
          else if (sub_opcode =? OP_REQUESTSOURCES) || (sub_opcode =? OP_REQUESTSOURCES2) then
            rest ← answer_source_request_subpacket requested sub_opcode remaining now;
            listener_multipacket_loop fuel' requested e with_root rest name status root now
          else if sub_opcode =? OP_AICHFILEHASHREQ then
            listener_multipacket_loop fuel' requested e with_root remaining name status
              (if with_root then shared_aich_root e else root) now
          else peer (Err PUnsupported)
      end
  end.
Definition handle_multipacket_request (opcode : Z) (payload : list Z) (supports_aich supports_file_identifiers : bool) (now : Z)
    : LM (option Ed2kHash) :=
  (if zlen payload <? 16 then peer (Err PShort) else mret ());;
  requested ← peer (range payload 0 16);
  remaining ← peer (tail_from payload 16);
  '((requested_size, remaining) : option Z * list Z) ←
    (if opcode =? OP_MULTIPACKET_EXT then
       if zlen remaining <? 8 then peer (Err PShort)
       else size ← peer (le_at remaining 0 8); rest ← peer (tail_from remaining 8); mret (some_size size, rest)
     else mret (None, remaining));
  entry ← on_store (local_entry requested now);
  match entry with
  | None => send_nofile requested;; mret (Some requested)
  | Some e =>
      if match requested_size with Some size => negb (size =? se_file_size e) | None => false end
      then send_nofile requested;; mret (Some requested)
      else
        '((name, status, root) : bool * bool * option (list Z)) ← listener_multipacket_loop (length remaining) requested e
          (negb supports_file_identifiers && supports_aich) remaining false false None now;
        when (name || status || bool_decide (is_Some root))
          (reply (encode_multipacket_answer requested (se_canonical_name e) name status root));;
        mret (Some requested)
  end.

Definition handle_request_filename (payload : list Z) (now : Z) : LM (option Ed2kHash) :=
  requested ← peer (decode_file_hash_payload payload);
  entry ← on_store (local_entry requested now);
  reply match entry with
        | Some e => encode_request_filename_answer requested (se_canonical_name e)
        | None => encode_file_req_ans_nofil requested
        end;;
  mret (Some requested).
Definition handle_set_req_file_id (payload : list Z) (now : Z) : LM (option Ed2kHash) :=
  requested ← peer (decode_exact_file_hash_payload payload);
  entry ← on_store (local_entry requested now);
  reply match entry with
        | Some _ => encode_file_status_complete requested
        | None => encode_file_req_ans_nofil requested
        end;;
  mret (Some requested).
Definition handle_hashset_request (payload : list Z) (now : Z) : LM (option Ed2kHash) :=
  requested ← peer (decode_exact_file_hash_payload payload);
  entry ← on_store (local_entry requested now);
  hashset ← match entry with
            | Some _ => on_store (md4_hashset_known hex_decode requested now)
            | None => mret None
            end;
  reply match hashset with
        | Some hs => encode_hashset_answer requested hs
        | None => encode_file_req_ans_nofil requested
        end;;
  mret (Some requested).
Definition handle_hashset_request2 (payload : list Z) (now : Z) : LM (option Ed2kHash) :=
  '((requested_identifier, options) : Ed2kFileIdentifier * Ed2kHashsetRequestOptions) ← peer (decode_hashset_request2 payload);
  let requested := fi_hash requested_identifier in
  if negb (has_known_request options) then mret (Some requested)
  else
    entry ← on_store (local_entry requested now);
    packet ← match entry with
             | None => mret (encode_file_req_ans_nofil requested)
             | Some e =>
                 i ← peer (id_from_shared_entry hex_decode e);
                 if negb (matches_relaxed i requested_identifier) then mret (encode_file_req_ans_nofil requested)
                 else
                   md4_hashset ← (if request_md4 options then on_store (md4_hashset_known hex_decode requested now) else mret None);
                   aich_hashset ← (if request_aich options then on_store (aich_hashset_known sha1 hex_decode requested now) else mret None);
                   mret (encode_hashset_answer2 i md4_hashset aich_hashset)
             end;
    reply packet;;
    mret (Some requested).
Definition handle_source_request (opcode : Z) (payload : list Z) (now : Z) : LM (option Ed2kHash) :=
  '((requested, requested_version) : Ed2kHash * Z) ← peer (decode_request_sources_payload opcode payload);
  let second := opcode =? OP_REQUESTSOURCES2 in
  if second && (requested_version =? 0) then mret (Some requested)
  else
    entry ← on_store (local_entry requested now);
    match entry with
    | Some _ => answer_sources requested second (if second then Z.min requested_version ED2K_SOURCE_EXCHANGE2_VERSION else 1) now
    | None => mret ()
    end;;
    mret (Some requested).
Definition handle_aich_file_hash_request (payload : list Z) (supports_aich : bool) (now : Z) : LM (option Ed2kHash) :=
  requested ← peer (decode_file_hash_payload payload);
  (if supports_aich then
     entry ← on_store (local_entry requested now);
     match entry ≫= shared_aich_root with
     | Some root => reply (encode_aich_file_hash_answer requested root)
     | None => mret ()
     end
   else mret ());;
  mret (Some requested).

(** ** Uploads *)

Inductive UploadPayloadOutcome : Type := UploadContinue (requested : Ed2kHash) | UploadClose.
Fixpoint send_packets (l : list EncodedUploadPartPacket) : LM () :=
  match l with [] => mret () | p :: l' => send_bytes (up_packet p);; send_packets l' end.
Fixpoint serve_ranges (requested : Ed2kHash) (name : list Z) (wide : bool) (ranges : list (Z * Z)) (now : Z) : LM () :=
  match ranges with
  | [] => mret ()
  | (start, end_) :: ranges' =>
      bytes ← on_store (read_verified_range requested start end_ now);
      match bytes with
      | None => mret ()
      | Some bytes =>
          packets ← peer (build_upload_part_packets (lo_fuel o) requested name start end_ bytes wide);
          send_packets packets
      end;;
      serve_ranges requested name wide ranges' now
  end.
Definition serve_upload_payload (opcode : Z) (payload : list Z) (now : Z) : LM UploadPayloadOutcome :=
  let wide := opcode =? OP_REQUESTPARTS_I64 in
  '((requested, ranges) : Ed2kHash * list (Z * Z)) ← peer (decode_request_parts_payload payload wide);
  entry ← on_store (local_entry requested now);
  match entry with
  | None => send_nofile requested;; mret (UploadContinue requested)
  | Some e =>
      identity ← gets c_identity;
      decision ← ensure_session_for_parts identity requested now;
      match decision with
      | QGranted =>
          decision ← listener_note_request_parts now;
          match decision with
          | QGranted => serve_ranges requested (se_canonical_name e) wide ranges now;; mret (UploadContinue requested)
          | QWaiting => mret (UploadContinue requested)
          | QStale => mret UploadClose
          end
      | _ => mret (UploadContinue requested)
      end
  end.

(** ** The UDP firewall check of a peer *)

Definition kad_register (target : SocketAddr) (key : Z) : LM () :=
  update (λ c, set_output (c_sent c) (c_kad c ++ [RegisterPeerKey target key]) (c_broken c) c).
Definition kad_send (target : SocketAddr) (p : KadPacket) : LM () := λ c g,
  match c_broken c with
  | true :: broken => (set_output (c_sent c) (c_kad c) broken c, g, Err PIo)
  | broken => (set_output (c_sent c) (c_kad c ++ [SendKad target p]) (tail broken) c, g, Ok ())
  end.
Fixpoint firewall_replies (ports : list Z) (peer_ip : IpAddr) (error_code sender_udp_key : Z) : LM () :=
  match ports with
  | [] => mret ()
  | port :: ports' =>
      let target := mkSocketAddr peer_ip port in
      when (negb (sender_udp_key =? 0)) (kad_register target sender_udp_key);;
      kad_send target (PFirewallUdp (mkFirewallUdp error_code port));;
      firewall_replies ports' peer_ip error_code sender_udp_key
  end.
Definition reply_with_firewall_udp (contacts : list Contact) (peer_ip : IpAddr) (request : FirewallCheckUdpRequest) : LM () :=
  let internal := fc_internal_udp_port request in
  let external := fc_external_udp_port request in
  if internal =? 0 then mret ()
  else
    let ports := if negb (external =? 0) && negb (external =? internal) then [internal; external] else [internal] in
    let error_code := match peer_ip with
                      | V4 ip => if existsb (λ c, bool_decide (c_ip c = ip)) contacts then 1 else 0
                      | V6 _ => 1
                      end in
    firewall_replies (List.filter (λ port, negb (port =? 0)) ports) peer_ip error_code (fc_sender_udp_key request).

(** ** Packets *)

Definition upload_peer_identity_from_socket (a : SocketAddr) : Ed2kUploadPeerIdentity := mkPeer (sa_ip a) (sa_port a) None None false.
Definition upload_peer_identity_from_hello (a : SocketAddr) (i : DecodedHelloIdentity) : Ed2kUploadPeerIdentity :=
  mkPeer (sa_ip a) (if di_tcp_port i =? 0 then sa_port a else di_tcp_port i) (Some (di_user_hash i)) (Some (di_client_id i)) false.

(** What a turn gets: the clock, a random challenge, the contacts of the routing table,
    and the turns of the download that a hello may start, with the clock at its end. *)
Record listener_input : Type := mkListenerInput {
  li_now : Z;
  li_challenge : Z;
  li_contacts : list Contact;
  li_download : list input;
  li_download_end : Z
}.
(** A turn leaves the session open, ends it, or it is still in a download. *)
Inductive listener_outcome : Type := SessionOpen | SessionEnds | SessionDownloads.

Definition listener_probe (challenge : Z) : LM () :=
  st ← gets c_secure_ident;
  '((ident, packet) : Ed2kPeerSecureIdentState * list Z) ← peer (begin_secure_ident_probe challenge st);
  update (set_ident (λ _, ident));;
  send_bytes packet.
Fixpoint reply_all (l : list (list Z)) : LM () :=
  match l with [] => mret () | bytes :: l' => send_bytes bytes;; reply_all l' end.
Definition listener_send_signature : LM bool :=
  st ← gets c_secure_ident;
  packet ← peer (secure_ident_signature (lo_secure_ident o) st);
  match packet with
  | None => mret false
  | Some packet =>
      send_bytes packet;;
      update (set_ident (λ i, mkIdentState (peer_public_key i) (peer_challenge_from i) (challenge_for i) false (peer_signature_received i)
        (requested_peer_key i)));;
      mret true
  end.

(** The download for which the peer was asked to call back, on the same connection. *)
Definition download_options (file_hash : Ed2kHash) : DownloadSessionOptions :=
  mkOptions (lo_peer_addr o) (lo_response_identity o) (lo_secure_ident o) file_hash ED2K_CONNECTION_IDLE_TIMEOUT true (lo_fuel o).
Definition callback_session (file_hash : Ed2kHash) (s : session) (i : listener_input) : LM (option Ed2kPeerDownloadOutcome) := λ c g,
  let '(s', w', r) := run_session md4 sha1 hex_encode hex_decode trim (download_options file_hash) (li_download i) (li_download_end i)
                        s (sh_store g) in
  (set_output (c_sent c ++ s_sent s') (c_kad c) (s_broken s') c, mkShared w' (sh_uploads g) (sh_next_upload_connection_id g), r).
Definition callback_download (file_hash : Ed2kHash) (i : listener_input) : LM listener_outcome :=
  m ← on_store (load_manifest (hash_display file_hash) (li_now i));
  identifier ← peer (id_from_manifest hex_decode m);
  broken ← gets c_broken;
  outcome ← callback_session file_hash (session_new m identifier true true true broken) i;
  mret (match outcome with None => SessionDownloads | Some _ => SessionEnds end).
Definition listener_hello (payload : list Z) (i : listener_input) : LM listener_outcome :=
  profile ← peer (decode_hello_profile payload);
  update (set_profile (hp_supports_aich profile) (hp_supports_file_identifiers profile)
            (upload_peer_identity_from_hello (lo_peer_addr o) (hp_identity profile)));;
  replies ← peer (build_hello_responses payload (lo_response_identity o));
  reply_all replies;;
  st ← gets c_secure_ident;
  when (hp_supports_secure_ident profile && negb (requested_peer_key st)) (listener_probe (li_challenge i));;
  intent ← on_shared (λ g, let '(w', intent) := claim_callback_intent (di_client_id (hp_identity profile)) (sh_store g) in
                           (mkShared w' (sh_uploads g) (sh_next_upload_connection_id g), intent));
  match intent with
  | None => mret SessionOpen
  | Some intent =>
      file_hash ← peer (map_err (λ _, PTransfer EInvalidFileHash) (hash_from_str (ci_file_hash intent)));
      callback_download file_hash i
  end.
Definition listener_secident_state (payload : list Z) (challenge : Z) : LM () :=
  '((state, peer_challenge) : Z * Z) ← peer (decode_secident_state payload);
  update (set_ident (λ i, mkIdentState (peer_public_key i) (Some peer_challenge) (challenge_for i)
    (pending_signature i || negb (state =? 0)) (peer_signature_received i) (requested_peer_key i)));;
  when (state =? ED2K_SECURE_IDENT_KEY_AND_SIGNATURE_NEEDED)
    (reply (key_payload ← public_key_payload (lo_secure_ident o); encode_packet OP_EMULEPROT OP_PUBLICKEY key_payload));;
  sent ← listener_send_signature;
  st ← gets c_secure_ident;
  when (negb sent && (state =? ED2K_SECURE_IDENT_SIGNATURE_NEEDED) && negb (requested_peer_key st))
    (update (set_ident (λ i, mkIdentState (peer_public_key i) (peer_challenge_from i) (Some challenge) true (peer_signature_received i) true));;
     reply (encode_secident_state ED2K_SECURE_IDENT_KEY_AND_SIGNATURE_NEEDED challenge)).
Definition listener_public_key (payload : list Z) : LM () :=
  peer_key ← peer (decode_public_key_payload payload);
  update (set_ident (λ i, mkIdentState (Some peer_key) (peer_challenge_from i) (challenge_for i) (pending_signature i)
    (peer_signature_received i) (requested_peer_key i)));;
  listener_send_signature;;
  mret ().
(** A signature is only reported, also when it is malformed. *)
Definition listener_signature (payload : list Z) : LM () :=
  match decode_signature_payload payload with Panic => peer Panic | _ => mret () end.

Definition stay (m : LM ()) : LM listener_outcome := m;; mret SessionOpen.
Definition asked (m : LM (option Ed2kHash)) : LM listener_outcome := h ← m; update (set_requested h);; mret SessionOpen.
(** A packet that is decoded and only reported. *)
Definition reported {A} (r : res PeerError A) : LM () := peer r;; mret ().
Definition listener_start_upload (payload : list Z) (now : Z) : LM () :=
  requested ← peer (decode_exact_file_hash_payload payload);
  update (set_requested (Some requested));;
  entry ← on_store (local_entry requested now);
  bytes ← match entry with
          | Some _ => identity ← gets c_identity; start_upload_reply identity requested now
          | None => peer (encode_file_req_ans_nofil requested)
          end;
  send_bytes bytes.
Definition listener_request_parts (opcode : Z) (payload : list Z) (now : Z) : LM listener_outcome :=
  outcome ← serve_upload_payload opcode payload now;
  match outcome with
  | UploadContinue requested => update (set_requested (Some requested));; mret SessionOpen
  | UploadClose => mret SessionEnds
  end.
Definition listener_edonkey_rest (opcode : Z) (payload : list Z) : LM listener_outcome :=
  if opcode =? OP_OUTOFPARTREQS then mret SessionOpen
  else if opcode =? OP_CHANGE_CLIENT_ID then stay (reported (decode_client_id_change_payload payload))
  else if opcode =? OP_CHANGE_SLOT then mret SessionOpen
  else if opcode =? OP_MESSAGE then stay (reported (decode_client_message_payload payload))
  else if opcode =? OP_ASKSHAREDFILES then stay (reply encode_empty_shared_files_answer)
  else if opcode =? OP_ASKSHAREDDIRS then stay (reply encode_shared_browse_denied_answer)
  else if opcode =? OP_ASKSHAREDFILESDIR then
    peer (decode_shared_files_dir_request_payload payload);; stay (reply encode_shared_browse_denied_answer)
  else if opcode =? OP_ASKSHAREDFILESANSWER then stay (reported (decode_shared_files_answer_payload payload))
  else if opcode =? OP_ASKSHAREDDIRSANS then stay (reported (decode_shared_dirs_answer_payload payload))
  else if opcode =? OP_ASKSHAREDFILESDIRANS then stay (reported (decode_shared_files_dir_answer_payload payload))
  else if opcode =? OP_ASKSHAREDDENIEDANS then mret SessionOpen
  else if opcode =? OP_QUEUERANK then stay (reported (decode_edonkey_queue_rank_payload payload))
  else mret SessionEnds.
Definition listener_edonkey_packet (opcode : Z) (payload : list Z) (i : listener_input) : LM listener_outcome :=
  if opcode =? OP_HELLO then listener_hello payload i
  else if opcode =? OP_HELLOANSWER then mret SessionOpen
  else if opcode =? OP_REQUESTFILENAME then asked (handle_request_filename payload (li_now i))
  else if opcode =? OP_SETREQFILEID then asked (handle_set_req_file_id payload (li_now i))
  else if opcode =? OP_STARTUPLOADREQ then stay (listener_start_upload payload (li_now i))
  else if opcode =? OP_CANCELTRANSFER then release (li_now i);; mret SessionEnds
  else if opcode =? OP_END_OF_DOWNLOAD then
    requested ← gets c_requested_file_hash;
    if bool_decide (requested = decode_optional_file_hash_payload payload) then release (li_now i);; mret SessionEnds
    else mret SessionOpen
  else if opcode =? OP_HASHSETREQUEST then asked (handle_hashset_request payload (li_now i))
  else if opcode =? OP_REQUESTPARTS then listener_request_parts opcode payload (li_now i)
  else listener_edonkey_rest opcode payload.
Definition listener_emule_rest (opcode : Z) (payload : list Z) (i : listener_input) : LM listener_outcome :=
  if opcode =? OP_PUBLICIP_REQ then
    stay (match sa_ip (lo_peer_addr o) with V4 ip => reply (encode_public_ip_answer ip) | V6 _ => mret () end)
  else if opcode =? OP_PUBLICIP_ANSWER then stay (reported (decode_public_ip_answer_payload payload))
  else if opcode =? OP_CALLBACK then stay (reported (decode_kad_callback_payload payload))
  else if opcode =? OP_REASKCALLBACKTCP then stay (reported (decode_reask_callback_tcp_payload payload))
  else if opcode =? OP_CHATCAPTCHAREQ then stay (reported (decode_chat_captcha_request_payload payload))
  else if opcode =? OP_CHATCAPTCHARES then stay (reported (decode_chat_captcha_result_payload payload))
  else if opcode =? OP_PORTTEST then stay (reply encode_port_test_answer)
  else if opcode =? OP_FWCHECKUDPREQ then
    request ← peer (fw_check_decode payload); stay (reply_with_firewall_udp (li_contacts i) (sa_ip (lo_peer_addr o)) request)
  else if (opcode =? OP_KAD_FWTCPCHECK_ACK) || (opcode =? OP_BUDDYPING) || (opcode =? OP_BUDDYPONG) then mret SessionOpen
  else if opcode =? OP_FILEDESC then stay (reported (decode_file_description_payload payload))
  else if opcode =? OP_REQUESTPREVIEW then stay (reported (decode_preview_request_payload payload))
  else if opcode =? OP_PREVIEWANSWER then stay (reported (decode_preview_answer_payload payload))
  else if opcode =? OP_AICHREQUEST then
    request ← peer (decode_aich_recovery_request_payload payload);
    stay (reply (encode_aich_recovery_failure_answer (arq_file_hash request)))
  else if opcode =? OP_AICHANSWER then stay (reported (decode_aich_recovery_answer_payload payload))
  else mret SessionEnds.
Definition listener_emule_packet (opcode : Z) (payload : list Z) (i : listener_input) : LM listener_outcome :=
  c ← gets id;
  if (opcode =? OP_MULTIPACKET) || (opcode =? OP_MULTIPACKET_EXT) then
    asked (handle_multipacket_request opcode payload (c_supports_aich c) (c_supports_file_identifiers c) (li_now i))
  else if opcode =? OP_MULTIPACKET_EXT2 then asked (handle_multipacket_ext2_request payload (li_now i))
  else if opcode =? OP_QUEUERANKING then stay (reported (decode_emule_queue_ranking_payload payload))
  else if opcode =? OP_HASHSETREQUEST2 then asked (handle_hashset_request2 payload (li_now i))
  else if (opcode =? OP_REQUESTSOURCES) || (opcode =? OP_REQUESTSOURCES2) then asked (handle_source_request opcode payload (li_now i))
  else if opcode =? OP_AICHFILEHASHREQ then asked (handle_aich_file_hash_request payload (c_supports_aich c) (li_now i))
  else if opcode =? OP_REQUESTPARTS_I64 then listener_request_parts opcode payload (li_now i)
  else if opcode =? OP_EMULEINFO then stay (reply (encode_emule_info_answer (lo_kad_udp_port o)))
  else if opcode =? OP_EMULEINFOANSWER then mret SessionOpen
  else if opcode =? OP_SECIDENTSTATE then stay (listener_secident_state payload (li_challenge i))
  else if opcode =? OP_PUBLICKEY then stay (listener_public_key payload)
  else if opcode =? OP_SIGNATURE then stay (listener_signature payload)
  else listener_emule_rest opcode payload i.
Definition listener_packet (p : EmuleTcpPacket) (i : listener_input) : LM listener_outcome :=
  if tp_protocol p =? OP_EDONKEYPROT then listener_edonkey_packet (tp_opcode p) (tp_payload p) i
  else if tp_protocol p =? OP_EMULEPROT then listener_emule_packet (tp_opcode p) (tp_payload p) i
  else mret SessionEnds.

(** ** The loop *)

Definition listener_turn (e : event) (i : listener_input) : LM listener_outcome :=
  match e with
  | Received p => listener_packet p i
  | PeerClosed => mret SessionEnds
  | ReadFailed _ => peer (Err PIo)
  | TimedOut =>
      poll ← poll_on_timeout (li_now i);
      mret (match poll with PollContinue => SessionOpen | PollClose => SessionEnds end)
  end.
(** When the loop ends the session's place in the queue is released; an error leaves the
    function before that. *)
Definition listener_step (e : event) (i : listener_input) : LM listener_outcome :=
  outcome ← listener_turn e i;
  match outcome with SessionEnds => release (li_now i) | _ => mret () end;;
  mret outcome.
Definition connection_new (broken : list bool) : connection :=
  mkConnection ident_state_default None false false (upload_peer_identity_from_socket (lo_peer_addr o)) listener_queue_new [] [] broken.
Fixpoint handle_connection (turns : list (event * listener_input)) : LM listener_outcome :=
  match turns with
  | [] => mret SessionOpen
  | (e, i) :: turns' =>
      outcome ← listener_step e i;
      match outcome with SessionOpen => handle_connection turns' | _ => mret outcome end
  end.
End session.
