(* ===== verification/ListenerOk.v ===== *)
(** * The sessions that peers open are safe

    Whatever peers send in whatever order, over however many connections, with disk and
    connections failing at any point: no session panics, the transfer store and the
    upload queue keep their invariants, and parts of files go only to peers with an
    upload slot, and only bytes that their file's hash stands for. *)

From S2P Require Import Prelude Net NodeId Text Contact Packet PacketTypes UploadQueue Hashset Transfer TransferOk TransferFrame PeerTransport PeerCodec PeerParts Hello Session Download DownloadOk ServerTypes Listener.

(** ** Encoders *)

Lemma safe_nofil h : hash_ok h → safe (λ _, True) (encode_file_req_ans_nofil (E:=PeerError) h).
Proof. intros Hh%zlen_hash. apply safe_encode. by rewrite Hh. Qed.
Lemma safe_status_complete h : hash_ok h → safe (λ _, True) (encode_file_status_complete (E:=PeerError) h).
Proof. intros Hh%zlen_hash. apply safe_encode. rewrite zlen_app, Hh. done. Qed.
Lemma safe_queue_ranking_packet rank : safe (λ _, True) (encode_queue_ranking (E:=PeerError) rank).
Proof. by apply safe_encode. Qed.
Lemma safe_accept : safe (λ _, True) (encode_accept_upload_req (E:=PeerError)).
Proof. by apply safe_encode. Qed.
Lemma safe_aich_file_answer h root : hash_ok h → zlen root = 20 → safe (λ _, True) (encode_aich_file_hash_answer (E:=PeerError) h root).
Proof. intros Hh%zlen_hash Hr. apply safe_encode. by rewrite zlen_app, Hh, Hr. Qed.
Lemma safe_name_body name : safe (λ b, zlen b ≤ 65537) (encode_request_filename_answer_body name).
Proof.
  unfold encode_request_filename_answer_body, encode_ed2k_string_body. destruct (try_from_u 16 (zlen name)) as [n|] eqn:E; [|done].
  apply try_from_u_Some in E as [-> E]. cbn [safe]. rewrite zlen_app, zlen_le. lia.
Qed.
Lemma safe_filename_packet h name : hash_ok h → safe (λ _, True) (encode_request_filename_answer h name).
Proof.
  intros Hh%zlen_hash. eapply safe_bind; [apply safe_name_body|]. intros b Hb. cbv beta in Hb. apply safe_encode. rewrite zlen_app, Hh.
  unfold U32_MAX. lia.
Qed.
Lemma safe_answers name a b : safe (λ l, zlen l ≤ 65541) (multipacket_answers name a b).
Proof.
  unfold multipacket_answers. eapply safe_bind with (λ l, zlen l ≤ 65538).
  - destruct a; [|done]. eapply safe_bind; [apply safe_name_body|]. intros l Hl. cbv beta in Hl. cbn [safe]. rewrite zlen_app.
    change (zlen [_]) with 1. lia.
  - intros l Hl. cbv beta in Hl. cbn [safe]. rewrite zlen_app. destruct b; [change (zlen (_ ++ _)) with 3|change (zlen []) with 0]; lia.
Qed.
Lemma safe_ext2_answer i name a b : id_small i → safe (λ _, True) (encode_multipacket_ext2_answer i name a b).
Proof.
  intros Hi%id_encode_small. eapply safe_bind; [apply safe_answers|]. intros l Hl. cbv beta in Hl. apply safe_encode. rewrite zlen_app.
  unfold U32_MAX. lia.
Qed.
Lemma safe_multipacket_answer h name a b root : hash_ok h → (∀ r, root = Some r → zlen r = 20) →
  safe (λ _, True) (encode_multipacket_answer h name a b root).
Proof.
  intros Hh%zlen_hash Hr. eapply safe_bind; [apply safe_answers|]. intros l Hl. cbv beta in Hl. apply safe_encode. rewrite !zlen_app, Hh.
  destruct root as [r|]; [rewrite zlen_app, (Hr r eq_refl); change (zlen [_]) with 1|change (zlen []) with 0]; unfold U32_MAX; lia.
Qed.
Lemma zlen_concat {A} (n : Z) (l : list (list A)) : Forall (λ x, zlen x = n) l → zlen (concat l) = n * zlen l.
Proof. induction 1 as [|x l Hx _ IH]; [by rewrite Z.mul_0_r|]. cbn [concat]. rewrite zlen_app, zlen_cons, Hx, IH. lia. Qed.
Lemma safe_hashes_body h hs : zlen h = 16 → Forall (λ x, zlen x = 16) hs → safe (λ b, zlen b ≤ 2000000) (encode_md4_hashset_body h hs).
Proof.
  intros Hh Hs. unfold encode_md4_hashset_body. destruct (try_from_u 16 _) as [n|] eqn:E; [|done]. apply try_from_u_Some in E as [-> E].
  cbn [safe]. rewrite !zlen_app, zlen_le, Hh, (zlen_concat 16) by done. lia.
Qed.
Lemma safe_hashset_packet h hs : hash_ok h → Forall (λ x, zlen x = 16) hs → safe (λ _, True) (encode_hashset_answer h hs).
Proof.
  intros Hh%zlen_hash Hs. eapply safe_bind; [by apply safe_hashes_body|]. intros b Hb. cbv beta in Hb. apply safe_encode. unfold U32_MAX. lia.
Qed.
Definition aich_sized (h : Ed2kAichHashset) : Prop := zlen (master_hash h) = 20 ∧ Forall (λ x, zlen x = 20) (part_hashes h).
Lemma safe_hashset2_packet i md4s aich : id_small i → (∀ hs, md4s = Some hs → Forall (λ x, zlen x = 16) hs) →
  (∀ h, aich = Some h → aich_sized h) → safe (λ _, True) (encode_hashset_answer2 i md4s aich).
Proof.
  intros Hi Hm Ha. unfold encode_hashset_answer2. cbv zeta. eapply safe_bind with (λ b, zlen b ≤ 2000000).
  { destruct md4s as [hs|]; [|done]. case_match; [|done]. apply safe_hashes_body; [apply Hi|by apply Hm]. }
  intros b Hb. eapply safe_bind with (λ b, zlen b ≤ 2000000).
  { destruct aich as [h|]; [|done]. destruct (Ha h eq_refl) as [Hh Hp]. unfold encode_aich_hashset_body.
    destruct (try_from_u 16 _) as [n|] eqn:E; [|done]. apply try_from_u_Some in E as [-> E].
    cbn [safe]. rewrite !zlen_app, zlen_le, Hh, (zlen_concat 20) by done. lia. }
  intros b' Hb'. cbv beta in Hb, Hb'. apply safe_encode. rewrite !zlen_app. pose proof (id_encode_small i Hi). change (zlen [_]) with 1.
  unfold U32_MAX. lia.
Qed.

(** *** Sources *)

Definition exchange_fine (s : SourceExchangePeer) : Prop := ∀ h, src_user_hash s = Some h → zlen h = 16.
Lemma safe_encode_sources version l : Forall exchange_fine l → (2 ≤ version → Forall (λ s, is_Some (src_user_hash s)) l) →
  safe (λ b, zlen b ≤ 29 * zlen l) (encode_sources version l).
Proof.
  induction 1 as [|s l Hs _ IH]; intros Hv; [done|]. cbn [encode_sources]. eapply safe_bind with (λ b, zlen b ≤ 29).
  - unfold encode_source. cbv zeta. eapply safe_bind with (λ h, zlen h ≤ 16).
    + destruct (Z.leb_spec 2 version) as [H2|H2]; [|done]. destruct (Forall_cons_1 _ _ _ (Hv H2)) as [[h Hh] _]. rewrite Hh. cbn [expect safe].
      rewrite (Hs h Hh). lia.
    + intros h Hh. cbv beta in Hh. cbn [safe]. rewrite !zlen_app, !zlen_le. case_match; [change (zlen [_]) with 1|change (zlen []) with 0]; lia.
  - intros b Hb. cbv beta in Hb. eapply safe_bind; [apply IH; intros H2; by destruct (Forall_cons_1 _ _ _ (Hv H2))|].
    intros rest Hr. cbv beta in Hr. cbn [safe]. rewrite zlen_app, zlen_cons. lia.
Qed.
Lemma safe_source_entries version l : Forall exchange_fine l → safe (λ b, zlen b ≤ 20000) (encode_source_exchange_entries version l).
Proof.
  intros Hl. unfold encode_source_exchange_entries, source_exchange_entry_count. set (e := exchanged_sources version l).
  assert (He : zlen e ≤ 501) by (unfold e, exchanged_sources, zlen; rewrite length_take; lia).
  assert (Hsub : ∀ P : SourceExchangePeer → Prop, Forall P (List.filter (λ s, negb (2 <=? version) || bool_decide (is_Some (src_user_hash s))) l) →
    Forall P e) by (intros P HP; unfold e, exchanged_sources; by apply Forall_take).
  unfold try_from_u. replace (is_u 16 (zlen e)) with true by (symmetry; unfold is_u; pose proof (zlen_nonneg e); lia). cbn [expect mbind res_bind].
  eapply safe_bind; [apply safe_encode_sources|].
  - apply Hsub, Forall_forall. intros x Hx%list_elem_of_In. apply filter_In in Hx as [Hx _]. by eapply Forall_forall in Hl; [|apply list_elem_of_In].
  - intros H2. apply Hsub, Forall_forall. intros x Hx%list_elem_of_In. apply filter_In in Hx as [_ Hx].
    rewrite (proj2 (Z.leb_le 2 version) H2) in Hx. cbn in Hx. by apply bool_decide_eq_true in Hx.
  - intros b Hb. cbv beta in Hb. cbn [safe]. rewrite zlen_app, zlen_le. lia.
Qed.
Lemma safe_answer_sources_packet h l : hash_ok h → Forall exchange_fine l → safe (λ _, True) (encode_answer_sources h l).
Proof.
  intros Hh%zlen_hash Hl. eapply safe_bind; [by apply safe_source_entries|]. intros b Hb. cbv beta in Hb. apply safe_encode.
  rewrite zlen_app, Hh. unfold U32_MAX. lia.
Qed.
Lemma safe_answer_sources2_packet h version l : hash_ok h → Forall exchange_fine l → safe (λ _, True) (encode_answer_sources2 h version l).
Proof.
  intros Hh%zlen_hash Hl. eapply safe_bind; [by apply safe_source_entries|]. intros b Hb. cbv beta in Hb. apply safe_encode.
  rewrite !zlen_app, Hh. change (zlen [_]) with 1. unfold U32_MAX. lia.
Qed.

(** *** Parts *)

Section parts.
Context `{ZlibLaws}.
Lemma safe_compress_loop fuel c l out : safe (λ _, True) (compress_loop fuel c l out).
Proof.
  revert c l out. induction fuel as [|fuel IH]; intros c l out; [done|]. cbn [compress_loop].
  destruct (compress c l ZLIB_BUFFER) as [[[[c' n] out'] status]|] eqn:E; [|done]. pose proof (compress_bounds _ _ _ _ _ _ E) as Hn.
  rewrite tail_from_ok by lia. cbn [mbind res_bind]. destruct status; try done; case_match; done || apply IH.
Qed.
Lemma safe_packets_loop fuel encode bytes offset packets : 0 ≤ offset → zlen bytes - offset ≤ Z.of_nat fuel →
  (∀ a n f, zlen f < ED2K_UPLOAD_PACKET_SPLIT_THRESHOLD → safe (λ _, True) (encode a n f)) →
  safe (λ _, True) (packets_loop fuel encode bytes offset packets).
Proof.
  revert offset packets. induction fuel as [|fuel IH]; intros offset packets Hoff Hf He; cbn [packets_loop].
  - destruct (Z.leb_spec (zlen bytes) offset); [done|lia].
  - destruct (Z.leb_spec (zlen bytes) offset); [done|]. cbv zeta. destruct (fragment_len_bounds (zlen bytes - offset)) as [[Hl Hu] Ht]; [lia|].
    rewrite range_ok by lia. cbn [mbind res_bind]. eapply safe_bind; [apply He|]; [|intros p _; apply IH; [lia|lia|done]].
    unfold slice, zlen. rewrite length_take. unfold zlen in *. lia.
Qed.
Lemma safe_build_packets fuel h name start end_ bytes wide : hash_ok h →
  safe (λ _, True) (build_upload_part_packets fuel h name start end_ bytes wide).
Proof.
  intros Hh%zlen_hash. unfold build_upload_part_packets. case_match; [done|]. eapply safe_bind with (λ _, True).
  { unfold compress_upload_payload. case_match; [done|]. eapply safe_bind; [apply safe_compress_loop|]. intros l _. by case_match. }
  assert (Hlen : ∀ f : list Z, zlen f < ED2K_UPLOAD_PACKET_SPLIT_THRESHOLD → zlen f < 13000) by done.
  intros [l|] _; apply safe_packets_loop; try (unfold zlen; lia); intros a n f Hf%Hlen; (eapply safe_bind with (λ _, True); [|done]).
  - unfold encode_compressed_part_fragment. destruct (try_from_u 32 _); [|done]. destruct wide; [|destruct (try_from_u 32 _); [|done]];
      apply safe_encode; rewrite !zlen_app, !zlen_le, Hh; unfold U32_MAX; lia.
  - unfold encode_sending_part. destruct wide; [|repeat case_match; try done];
      apply safe_encode; rewrite !zlen_app, !zlen_le, Hh; unfold U32_MAX; lia.
Qed.
End parts.

(** ** The invariants *)

(** Callbacks are registered with the text of a hash. *)
Definition intents_ok (l : list Ed2kCallbackIntent) : Prop :=
  Forall (λ i, ∃ h, wf_Ed2kHash h = true ∧ ci_file_hash i = hash_display h) l.
Record shared_ok (md4 hex_encode : list Z → list Z) (g : shared) : Prop := {
  sg_store : store_ok md4 hex_encode (core (sh_store g));
  sg_intents : intents_ok (w_intents (sh_store g));
  sg_config : wf_config (q_config (sh_uploads g));
  sg_uploads : queue_ok (sh_uploads g);
}.
(** A session holds a handle exactly when it holds a file, and it is for that file. *)
Definition conn_ok (c : connection) : Prop :=
  match lq_session (c_queue c), lq_file_hash (c_queue c) with
  | Some h, Some f => key_file_hash (h_key h) = hash_display f
  | None, None => True
  | _, _ => False
  end.

Create HintDb listener.
#[export] Hint Resolve safe_nofil safe_status_complete safe_queue_ranking_packet safe_accept safe_aich_file_answer safe_filename_packet
  safe_ext2_answer safe_hashset_packet safe_answer_sources_packet safe_answer_sources2_packet safe_build_packets : codec.

Section safe.
Context `{Laws : ZlibLaws}.
Context (md4 sha1 : list Z → list Z) (hex_encode : list Z → list Z) (hex_decode : list Z → option (list Z)) (trim : list Z → list Z).
Hypothesis hex_roundtrip : ∀ b, is_bytes b = true → hex_decode (hex_encode b) = Some b.
Hypothesis md4_hash : ∀ b, wf_Ed2kHash (md4 b) = true.
Context (o : ListenerOptions).
Hypothesis o_identity : identity_ok (lo_response_identity o).
Local Abbreviation store_ok := (store_ok md4 hex_encode).
Local Abbreviation shared_ok := (shared_ok md4 hex_encode).
Local Abbreviation triple := (triple md4 hex_encode).
Local Abbreviation fine := (fine conn_ok shared_ok).

Lemma fine_on_store {A} (Q : A → Prop) (t : TM A) : keeps t → triple store_ok t (λ a s, store_ok s ∧ Q a) → fine Q (on_store t).
Proof.
  intros Hk Ht c g Hc [Hs Hi Hg Hq]. specialize (Ht _ Hs). specialize (Hk (sh_store g)). unfold on_store.
  destruct (t (sh_store g)) as [w' [a|e|]]; cbn in *; rewrite <- ?Hk in Hi; [destruct Ht| |done]; (split; [done|]); split; [by split|done|by split|done].
Qed.
Lemma fine_on_shared {A} (Q : A → Prop) (f : shared → shared * A) : (∀ g, shared_ok g → shared_ok (fst (f g)) ∧ Q (snd (f g))) → fine Q (on_shared f).
Proof. intros Hf c g Hc Hg. unfold on_shared. destruct (Hf g Hg) as [H1 H2]. destruct (f g) as [g' a]. done. Qed.
Lemma fine_send_bytes bytes : fine (λ _, True) (send_bytes bytes).
Proof. intros c g Hc Hg. unfold send_bytes. by destruct (c_broken c) as [|[] l]. Qed.
Lemma fine_reply packet : safe (λ _, True) packet → fine (λ _, True) (reply packet).
Proof. intros Hp. eapply fine_bind; [by apply fine_peer|]. intros b _. apply fine_send_bytes. Qed.
Lemma fine_set_ident f : fine (λ _, True) (update (set_ident f)).
Proof. by apply fine_update. Qed.
Lemma fine_set_requested h : fine (λ _, True) (update (set_requested h)).
Proof. by apply fine_update. Qed.
Lemma fine_set_profile a b i : fine (λ _, True) (update (set_profile a b i)).
Proof. by apply fine_update. Qed.
Lemma fine_queue f : (∀ q, lq_session (f q) = lq_session q ∧ lq_file_hash (f q) = lq_file_hash q) → fine (λ _, True) (update_queue f).
Proof. intros Hf. apply fine_update. intros c Hc. unfold conn_ok in *. cbn. by destruct (Hf (c_queue c)) as [-> ->]. Qed.
Lemma fine_get {A} (f : connection → A) : fine (λ _, True) (gets f).
Proof. by apply fine_gets. Qed.
#[local] Hint Resolve fine_send_bytes fine_set_ident fine_set_requested fine_set_profile fine_get : listener.

(** *** The upload queue *)

Lemma begin_shared identity h now g : shared_ok g → shared_ok (fst (begin_upload_session identity h now g)) ∧
  key_file_hash (h_key (fst (snd (begin_upload_session identity h now g)))) = hash_display h.
Proof.
  intros [Hs Hi Hc Hq]. unfold begin_upload_session. cbv zeta.
  match goal with |- context [begin_session ?q ?k ?id ?n] => destruct (begin_ok q k id n Hc Hq) as [Hq' Hc'];
    destruct (begin_session q k id n) as [q' st] end.
  cbn in *. rewrite <- Hc' in Hc. split; [by split|done].
Qed.
Lemma poll_shared h refresh now g : shared_ok g → shared_ok (fst (poll_upload_session h refresh now g)).
Proof.
  intros [Hs Hi Hc Hq]. unfold poll_upload_session. destruct (poll_ok (sh_uploads g) h now refresh Hq) as [Hq' Hc'].
  destruct (poll_session _ _ _ _) as [q' st]. cbn in *. rewrite <- Hc' in Hc. by split.
Qed.
Lemma note_shared h now g : shared_ok g → shared_ok (fst (note_upload_request_parts h now g)).
Proof.
  intros [Hs Hi Hc Hq]. unfold note_upload_request_parts. destruct (note_ok (sh_uploads g) h now Hq) as [Hq' Hc'].
  destruct (note_request_parts _ _ _) as [q' st]. cbn in *. rewrite <- Hc' in Hc. by split.
Qed.
Lemma release_shared h now g : shared_ok g → shared_ok (release_upload_session h now g).
Proof. intros [Hs Hi Hc Hq]. destruct (release_ok (sh_uploads g) h now Hq) as [Hq' Hc']. split; try done. cbn. by rewrite Hc'. Qed.

Lemma fine_accept : fine (λ _, True) send_accept_if_needed.
Proof.
  unfold send_accept_if_needed. eapply fine_bind; [apply fine_get|]. intros q _. case_match; [by apply fine_queue|].
  eapply fine_bind; [by apply fine_reply; auto with codec|]. intros [] _. by apply fine_queue.
Qed.
Lemma fine_rank rank now : fine (λ _, True) (send_queue_rank rank now).
Proof. eapply fine_bind; [by apply fine_reply; auto with codec|]. intros [] _. by apply fine_queue. Qed.
Lemma fine_send_status status now : fine (λ _, True) (send_status status now).
Proof.
  destruct status; cbn [send_status].
  - eapply fine_bind; [apply fine_rank|]. intros [] _. by apply fine_ret.
  - eapply fine_bind; [apply fine_accept|]. intros [] _. by apply fine_ret.
  - by apply fine_ret.
Qed.
Lemma fine_poll now : fine (λ _, True) (poll_on_timeout now).
Proof.
  unfold poll_on_timeout. eapply fine_bind; [apply fine_get|]. intros q _. destruct (lq_session q) as [h|]; [|by apply fine_ret].
  eapply fine_bind with (λ _, True); [apply fine_on_shared; intros g Hg; split; [by apply poll_shared|done]|].
  intros [rank| |] _; [| |by apply fine_ret]; (eapply fine_bind with (λ _, True); [|intros [] _; by apply fine_ret]).
  - apply fine_when, fine_rank.
  - apply fine_accept.
Qed.
Lemma fine_hold handle h b : key_file_hash (h_key handle) = hash_display h →
  fine (λ _, True) (update_queue (λ q, hold_session handle h (b q) q)).
Proof. intros Hk. by apply fine_update. Qed.
Lemma fine_begin identity h now : fine (λ p, key_file_hash (h_key (fst p)) = hash_display h) (on_shared (begin_upload_session identity h now)).
Proof. apply fine_on_shared. intros g Hg. exact (begin_shared identity h now g Hg). Qed.
Lemma fine_start_upload identity h now : fine (λ _, True) (start_upload_reply identity h now).
Proof.
  unfold start_upload_reply. eapply fine_bind; [apply fine_get|]. intros q _. eapply fine_bind with (λ _, True).
  - case_match.
    + destruct (lq_session q) as [handle|]; [|by apply fine_ret]. apply fine_on_shared. intros g Hg. split; [by apply poll_shared|done].
    + eapply fine_bind; [apply fine_begin|]. intros [handle status] Hk.
      eapply fine_bind; [by apply (fine_hold _ _ lq_granted_sent)|]. intros [] _. by apply fine_ret.
  - intros [rank| |] _; (eapply fine_bind; [by apply fine_queue|]); intros [] _; apply fine_peer; auto with codec.
Qed.
Lemma fine_ensure identity h now : fine (λ _, True) (ensure_session_for_parts identity h now).
Proof.
  unfold ensure_session_for_parts. eapply fine_bind; [apply fine_get|]. intros q _. case_match; [by apply fine_ret|].
  eapply fine_bind; [apply fine_begin|]. intros [handle status] Hk.
  eapply fine_bind; [by apply (fine_hold _ _ (λ _, false))|]. intros [] _. apply fine_send_status.
Qed.
Lemma fine_note now : fine (λ _, True) (listener_note_request_parts now).
Proof.
  unfold listener_note_request_parts. eapply fine_bind; [apply fine_get|]. intros q _. destruct (lq_session q) as [h|]; [|by apply fine_ret].
  eapply fine_bind with (λ _, True); [apply fine_on_shared; intros g Hg; split; [by apply note_shared|done]|]. intros status _. apply fine_send_status.
Qed.
Lemma fine_release_all now : fine (λ _, True) (release now).
Proof.
  unfold release. eapply fine_bind; [apply fine_get|]. intros q _. eapply fine_bind with (λ _, True).
  - destruct (lq_session q) as [h|]; [|by apply fine_ret]. apply fine_on_shared. intros g Hg. split; [by apply release_shared|done].
  - intros [] _. by apply fine_update.
Qed.
#[local] Hint Resolve fine_poll fine_start_upload fine_ensure fine_note fine_release_all : listener.

(** *** The store *)

Lemma decode_hash_sized n e t l : decode_hash hex_decode n e t = Ok l → zlen l = Z.of_nat n.
Proof.
  unfold decode_hash. destruct (hex_decode t) as [b|]; [|done]. destruct (Nat.eqb_spec (length b) n) as [Hn|]; [|done]. intros [= <-].
  unfold zlen. by rewrite Hn.
Qed.
Lemma collect_each {A B} (f : A → res TransferError B) (Q : B → Prop) l ys : (∀ x y, f x = Ok y → Q y) → collect_results f l = Ok ys → Forall Q ys.
Proof.
  intros Hf. revert ys. induction l as [|x l IH]; cbn; intros ys; [intros [= <-]; constructor|].
  destruct (f x) as [y| |] eqn:E; [|done..]. cbn. destruct (collect_results f l) as [ys'| |]; [|done..]. intros [= <-].
  constructor; [by eapply Hf|by apply IH].
Qed.
(** What a step of the store yields, wherever it starts. *)
Definition yields {A} (Q : A → Prop) (t : TM A) : Prop := ∀ w w' a, t w = (w', Ok a) → Q a.
Lemma yields_bind {A B} (Q : B → Prop) (t : TM A) k : (∀ a, yields Q (k a)) → yields Q (t ≫= k).
Proof. intros Hk w w' b. unfold mbind, tm_bind. destruct (t w) as [w1 [a|e|]]; [apply Hk|done..]. Qed.
Lemma yields_ret {A} (Q : A → Prop) a : Q a → yields Q (mret a).
Proof. by intros Ha w w' b [= _ <-]. Qed.
Lemma yields_lift {A} (Q : A → Prop) r : (∀ a, r = Ok a → Q a) → yields Q (lift r).
Proof. intros Hr w w' a [= _ Ha]. by apply Hr. Qed.
Lemma fine_yields {A} (Q : A → Prop) (t : TM A) : keeps t → triple store_ok t (λ _, store_ok) → yields Q t → fine Q (on_store t).
Proof.
  intros Hk Ht Hy. apply fine_on_store; [done|]. intros w Hw. specialize (Ht w Hw). specialize (Hy w).
  destruct (t w) as [w' [a|e|]]; [|done..]. split; [done|by eapply Hy].
Qed.

(** What is known of the entry of a file. *)
Definition entry_fine (h : Ed2kHash) (r : option Ed2kSharedEntry) : Prop := ∀ e, r = Some e → se_file_hash e = hash_display h.
Lemma fine_entry h now : fine (entry_fine h) (on_store (local_entry h now)).
Proof.
  apply fine_on_store; [auto with keeps|]. eapply triple_bind; [by apply triple_existing|]. intros m. apply triple_ret. intros s [Hs Hm].
  split; [done|]. destruct m as [m|]; [|done]. intros e [= <-]. cbn. exact (mo_key _ _ _ _ _ (at_key_ok _ _ _ _ _ (Hm m eq_refl))).
Qed.
Lemma fine_md4_known h now : fine (λ r, ∀ hs, r = Some hs → Forall (λ x, zlen x = 16) hs) (on_store (md4_hashset_known hex_decode h now)).
Proof.
  apply fine_yields; [auto with keeps|by apply triple_md4_known|]. apply yields_bind. intros [m|]; [|by apply yields_ret].
  case_match; [|by apply yields_ret]. intros w w' r. unfold mbind, tm_bind, lift. destruct (collect_results _ _) as [hs| |] eqn:E; [|done..].
  intros [= _ <-] ? [= <-]. eapply collect_each; [|exact E]. intros x y. apply (decode_hash_sized 16).
Qed.
Lemma fine_aich_known h now : fine (λ r, ∀ x, r = Some x → aich_sized x) (on_store (aich_hashset_known sha1 hex_decode h now)).
Proof.
  apply fine_yields; [auto with keeps|by apply triple_aich_known|]. apply yields_bind. intros [m|]; [|by apply yields_ret].
  case_match; [by apply yields_ret|]. intros w w' r. unfold mbind, tm_bind, lift, decode_manifest_aich_hashset.
  destruct (aich_root m) as [root|]; [|done]. destruct (decode_aich_hash_hex _ root) as [b| |] eqn:Eb; [|done..]. cbn [mbind res_bind].
  destruct (collect_results _ _) as [hs| |] eqn:E; [|done..]. cbn [mbind res_bind].
  destruct (if aich_hashset_acquired m then _ else _); [|done..]. intros [= _ <-] ? [= <-].
  split; [exact (decode_hash_sized 20 _ _ _ Eb)|]. eapply collect_each; [|exact E]. intros x y. apply (decode_hash_sized 20).
Qed.
Lemma fine_load h now : hash_ok h → fine (manifest_fine (hash_display h)) (on_store (load_manifest (hash_display h) now)).
Proof.
  intros Hh. apply fine_on_store; [auto with keeps|]. eapply triple_weaken; [by apply triple_load|done|]. intros m s Hm.
  split; [apply Hm|by eapply (at_key_fine _ _ (download_options o h))].
Qed.
#[local] Hint Resolve fine_entry fine_md4_known fine_aich_known fine_load : listener.

Ltac listen_step :=
  lazymatch goal with
  | |- fine _ (mret _) => apply fine_ret
  | |- fine _ (when _ _) => apply fine_when
  | |- fine _ (if ?b then _ else _) => let E := fresh "E" in destruct b eqn:E; bool_hyps
  | |- fine _ (send_nofile _) => apply fine_reply
  | |- fine _ (reply _) => apply fine_reply
  | |- fine _ (reply _ ≫= _) => eapply fine_bind; [apply fine_reply|intros [] _]
  | |- fine _ (send_nofile _ ≫= _) => eapply fine_bind; [apply fine_reply|intros [] _]
  | |- fine _ (when _ _ ≫= _) => eapply fine_bind; [apply fine_when|intros [] _]
  | |- fine _ (peer ?r ≫= _) => eapply fine_decoded; [solve [eauto 3 with codec]|]; let v := fresh "v" in let Hv := fresh "Hv" in intros v Hv
  | |- fine _ (_ ≫= _) => eapply fine_bind; [solve [eauto 3 with listener]|]; let v := fresh "v" in let Hv := fresh "Hv" in intros v Hv
  | |- fine _ (peer (Err _)) => by apply fine_peer
  | |- fine _ _ => solve [eauto 3 with listener]
  | |- safe _ _ => solve [eauto 3 with codec]
  end.
Ltac listen := repeat listen_step; try done.

(** *** Questions on files *)

Lemma array_sized n bytes l : array_of n bytes = Some l → zlen l = Z.of_nat n.
Proof. unfold array_of. destruct (Nat.eqb_spec (length bytes) n); [|done]. intros [= <-]. unfold zlen. lia. Qed.
Lemma shared_root_sized e r : shared_aich_root hex_decode e = Some r → zlen r = 20.
Proof.
  unfold shared_aich_root. destruct (se_aich_root e) as [t|]; [|done]. cbn. destruct (hex_decode t) as [b|]; [|done]. apply (array_sized 20).
Qed.
Lemma exchange_peer_fine source p : exchange_peer hex_decode source = Some p → exchange_fine p.
Proof.
  unfold exchange_peer. destruct (ipv4_from_str (sh_ip source)) as [[[[a b] c] d]|]; [|done]. cbn. case_match; [done|]. intros [= <-] h. cbn.
  destruct (sh_user_hash source) as [t|]; [|done]. cbn. destruct (hex_decode t) as [l|]; [|done]. apply (array_sized 16).
Qed.
Lemma fine_source_peers h now : hash_ok h → fine (Forall exchange_fine) (source_exchange_peers hex_decode h now).
Proof.
  intros Hh. unfold source_exchange_peers. listen. apply Forall_forall. intros p (source & _ & Hp)%list_elem_of_omap. by eapply exchange_peer_fine.
Qed.
#[local] Hint Resolve fine_source_peers : listener.
Lemma fine_answer_sources h second version now : hash_ok h → fine (λ _, True) (answer_sources hex_decode h second version now).
Proof. intros Hh. unfold answer_sources. listen. destruct second; auto with codec. Qed.
#[local] Hint Resolve fine_answer_sources : listener.
Lemma fine_subpacket h opcode l now : hash_ok h → is_bytes l = true →
  fine (λ r, is_bytes r = true) (answer_source_request_subpacket hex_decode h opcode l now).
Proof.
  intros Hh Hl. unfold answer_source_request_subpacket. cbv zeta. destruct (opcode =? OP_REQUESTSOURCES2).
  - eapply fine_bind with (λ _, 3 ≤ zlen l).
    { case_match; bool_hyps; [by apply fine_peer|]. apply fine_peer. eapply safe_weaken; [apply safe_byte; [done|lia]|]. intros; lia. }
    intros v Hv. eapply fine_decoded; [apply safe_tail; [done|lia]|]. intros r [Hr _]. listen.
  - eapply fine_bind with (λ _, True); [by apply fine_ret|]. intros v _. eapply fine_bind with (λ r, is_bytes r = true); [by apply fine_ret|].
    intros r Hr. listen.
Qed.
#[local] Hint Resolve safe_ext_info : codec.
#[local] Hint Resolve fine_subpacket : listener.
Lemma bytes_tail x l : is_bytes (x :: l) = true → is_bytes l = true.
Proof. unfold is_bytes. cbn. by intros [_ ?]%andb_prop. Qed.
Lemma fine_ext2 fuel h size l name status now : hash_ok h → is_bytes l = true → fine (λ _, True) (ext2_loop hex_decode fuel h size l name status now).
Proof.
  intros Hh. revert l name status. induction fuel as [|fuel IH]; intros [|op l] name status Hl; cbn [ext2_loop]; try (by apply fine_ret);
    [by apply fine_peer|apply bytes_tail in Hl]. listen.
Qed.
Lemma fine_multi fuel h e with_root l name status root now : hash_ok h → is_bytes l = true → (∀ r, root = Some r → zlen r = 20) →
  fine (λ '(_, _, root), ∀ r, root = Some r → zlen r = 20)
    (listener_multipacket_loop hex_decode fuel h e with_root l name status root now).
Proof.
  intros Hh. revert l name status root. induction fuel as [|fuel IH]; intros [|op l] name status root Hl Hr; cbn [listener_multipacket_loop];
    try (by apply fine_ret); [by apply fine_peer|apply bytes_tail in Hl]. listen.
  apply IH; [done|]. intros r. case_match; [apply shared_root_sized|apply Hr].
Qed.
#[local] Hint Resolve fine_ext2 fine_multi : listener.
Lemma safe_entry_id h r e : hash_ok h → entry_fine h r → r = Some e → safe id_small (id_from_shared_entry hex_decode e).
Proof.
  intros Hh Hr He. unfold id_from_shared_entry. rewrite (Hr e He), hash_from_str_display by (by apply wf_hash_bytes).
  cbn [map_err mbind res_bind]. eapply safe_bind; [apply safe_root|]. intros root Hroot. split; [by apply zlen_hash|done].
Qed.
#[local] Hint Resolve safe_entry_id : codec.
Lemma fine_multipacket_ext2_request payload now : is_bytes payload = true →
  fine (λ _, True) (handle_multipacket_ext2_request hex_decode payload now).
Proof.
  intros Hp. unfold handle_multipacket_ext2_request. eapply fine_decoded; [by apply safe_id|]. intros [i rest] [[Hh _] Hr]. listen_step.
  destruct v as [e|]; listen. destruct v0 as [name status]. listen.
Qed.
Lemma fine_multipacket_request opcode payload a b now : is_bytes payload = true →
  fine (λ _, True) (handle_multipacket_request hex_decode opcode payload a b now).
Proof.
  intros Hp. unfold handle_multipacket_request. eapply fine_bind with (λ _, 16 ≤ zlen payload).
  { case_match; bool_hyps; [by apply fine_peer|by apply fine_ret]. }
  intros [] H16. eapply fine_decoded; [apply safe_range; [done|lia|lia]|]. intros h Hh.
  eapply fine_decoded; [apply safe_tail; [done|lia]|]. intros rest [Hr _].
  eapply fine_bind with (λ '(_, r), is_bytes r = true).
  { case_match; [|by apply fine_ret]. case_match; bool_hyps; [by apply fine_peer|].
    eapply fine_decoded; [apply safe_le; [done|lia|lia|lia]|]. intros size _.
    eapply fine_decoded; [apply safe_tail; [done|lia]|]. intros r [Hr' _]. by apply fine_ret. }
  intros [size r] Hr'. assert (hash_ok h) by done. listen_step. destruct v as [e|]; listen.
  eapply fine_bind; [by apply fine_multi|]. intros [[name status] root] Hroot. listen. by apply safe_multipacket_answer.
Qed.
Lemma fine_request_filename payload now : is_bytes payload = true → fine (λ _, True) (handle_request_filename payload now).
Proof. intros Hp. unfold handle_request_filename. listen. case_match; auto with codec. Qed.
Lemma fine_set_req payload now : is_bytes payload = true → fine (λ _, True) (handle_set_req_file_id payload now).
Proof. intros Hp. unfold handle_set_req_file_id. listen. case_match; auto with codec. Qed.
Lemma fine_hashset_request_1 payload now : is_bytes payload = true → fine (λ _, True) (handle_hashset_request hex_decode payload now).
Proof.
  intros Hp. unfold handle_hashset_request. do 2 listen_step. eapply fine_bind with (λ r, ∀ hs, r = Some hs → Forall (λ x, zlen x = 16) hs).
  - destruct v0; [auto with listener|by apply fine_ret].
  - intros [hs|] Hs; listen.
Qed.
Lemma fine_hashset_request_2 payload now : is_bytes payload = true → fine (λ _, True) (handle_hashset_request2 sha1 hex_decode payload now).
Proof.
  intros Hp. unfold handle_hashset_request2. eapply fine_decoded; [by apply safe_hashset_request2|]. intros [i options] [Hh _]. listen_step; [listen|].
  listen_step. eapply fine_bind with (safe (λ _, True)); [|intros packet Hpacket; listen].
  destruct v as [e|]; [|apply fine_ret; auto with codec]. listen_step. listen_step; [apply fine_ret; auto with codec|].
  eapply fine_bind with (λ r, ∀ hs, r = Some hs → Forall (λ x, zlen x = 16) hs); [case_match; [auto with listener|by apply fine_ret]|]. intros m Hm.
  eapply fine_bind with (λ r, ∀ x, r = Some x → aich_sized x); [case_match; [auto with listener|by apply fine_ret]|]. intros a Ha.
  apply fine_ret. by apply safe_hashset2_packet.
Qed.
Lemma safe_request_sources opcode payload : is_bytes payload = true → safe (λ '(h, _), hash_ok h) (decode_request_sources_payload opcode payload).
Proof.
  intros Hp. unfold decode_request_sources_payload. case_match; [eapply safe_bind; [by apply safe_file_hash|done]|]. case_match; [|done].
  case_match; bool_hyps; [done|]. eapply safe_bind; [apply safe_tail; [done|lia]|]. intros rest [Hr _].
  eapply safe_bind; [by apply safe_file_hash|]. intros h Hh. eapply safe_bind; [apply safe_byte; [done|lia]|]. done.
Qed.
Lemma fine_source_request opcode payload now : is_bytes payload = true → fine (λ _, True) (handle_source_request hex_decode opcode payload now).
Proof.
  intros Hp. unfold handle_source_request. eapply fine_decoded; [by apply safe_request_sources|]. intros [h version] Hh. cbv zeta. listen_step; [listen|].
  listen_step. eapply fine_bind with (λ _, True); [destruct v; listen|]. intros [] _. listen.
Qed.
Lemma fine_aich_file_hash payload b now : is_bytes payload = true → fine (λ _, True) (handle_aich_file_hash_request hex_decode payload b now).
Proof.
  intros Hp. unfold handle_aich_file_hash_request. listen_step. eapply fine_bind with (λ _, True); [|intros [] _; listen].
  listen_step; [|listen]. listen_step. destruct (v0 ≫= _) as [root|] eqn:Eroot; listen. apply safe_aich_file_answer; [done|].
  destruct v0 as [e|]; [|done]. by eapply shared_root_sized.
Qed.
#[local] Hint Resolve fine_multipacket_ext2_request fine_multipacket_request fine_request_filename fine_set_req fine_hashset_request_1
  fine_hashset_request_2 fine_source_request fine_aich_file_hash : listener.

(** *** Uploads *)

Lemma fine_send_packets l : fine (λ _, True) (send_packets l).
Proof. induction l as [|p l IH]; cbn [send_packets]; listen. Qed.
Lemma fine_read_range h start end_ now : fine (λ _, True) (on_store (read_verified_range h start end_ now)).
Proof.
  apply fine_yields; [auto with keeps| |done]. eapply triple_weaken; [by apply triple_read_range|done|]. by intros r s [].
Qed.
#[local] Hint Resolve fine_send_packets fine_read_range : listener.
Lemma fine_serve_ranges h name wide l now : hash_ok h → fine (λ _, True) (serve_ranges o h name wide l now).
Proof.
  intros Hh. induction l as [|[start end_] l IH]; cbn [serve_ranges]; listen. eapply fine_bind with (λ _, True); [|done].
  destruct v as [bytes|]; listen.
Qed.
#[local] Hint Resolve fine_serve_ranges : listener.
Lemma fine_serve opcode payload now : is_bytes payload = true → fine (λ _, True) (serve_upload_payload o opcode payload now).
Proof.
  intros Hp. unfold serve_upload_payload. cbv zeta. eapply fine_decoded; [by apply safe_request_parts|]. intros [h ranges] [Hh _]. listen_step.
  destruct v as [e|]; listen. destruct v0; listen. destruct v0; listen.
Qed.
#[local] Hint Resolve fine_serve : listener.

(** *** The firewall check of a peer *)

Lemma fine_kad_send target p : fine (λ _, True) (kad_send target p).
Proof. intros c g Hc Hg. unfold kad_send. by destruct (c_broken c) as [|[] l]. Qed.
Lemma fine_kad_register target key : fine (λ _, True) (kad_register target key).
Proof. by apply fine_update. Qed.
#[local] Hint Resolve fine_kad_send fine_kad_register : listener.
Lemma fine_firewall_replies ports ip code key : fine (λ _, True) (firewall_replies ports ip code key).
Proof. induction ports as [|port ports IH]; cbn [firewall_replies]; listen. Qed.
#[local] Hint Resolve fine_firewall_replies : listener.
Lemma fine_firewall contacts ip r : fine (λ _, True) (reply_with_firewall_udp contacts ip r).
Proof. unfold reply_with_firewall_udp. cbv zeta. listen. Qed.

(** *** Identification *)

Lemma fine_reply_all l : fine (λ _, True) (reply_all l).
Proof. induction l as [|bytes l IH]; cbn [reply_all]; listen. Qed.
Lemma fine_listener_probe challenge : fine (λ _, True) (listener_probe challenge).
Proof. unfold listener_probe. listen_step. eapply fine_decoded; [apply safe_probe|]. intros [ident packet] _. listen. Qed.
Lemma fine_listener_signature : fine (λ _, True) (listener_send_signature o).
Proof. unfold listener_send_signature. listen_step. eapply fine_decoded; [apply safe_ident_signature|]. intros [packet|] _; listen. Qed.
#[local] Hint Resolve fine_firewall fine_reply_all fine_listener_probe fine_listener_signature : listener.
Lemma fine_listener_secident payload challenge : is_bytes payload = true → fine (λ _, True) (listener_secident_state o payload challenge).
Proof.
  intros Hp. unfold listener_secident_state. eapply fine_decoded; [by apply safe_secident|]. intros [st c] _. listen_step.
  eapply fine_bind; [apply fine_when, fine_reply, safe_key_packet|]. intros [] _. listen.
Qed.
Lemma fine_listener_key payload : is_bytes payload = true → fine (λ _, True) (listener_public_key o payload).
Proof. intros Hp. unfold listener_public_key. eapply fine_decoded; [by apply safe_public_key|]. intros k _. listen. Qed.
Lemma fine_listener_received payload : is_bytes payload = true → fine (λ _, True) (listener_signature payload).
Proof.
  intros Hp. unfold listener_signature. pose proof (safe_panic _ _ (safe_signature payload Hp)) as Hs.
  destruct (decode_signature_payload payload); [by apply fine_ret..|done].
Qed.

(** *** The download on a callback *)

Definition input_fine (i : listener_input) : Prop := Forall (λ x, event_fine (in_event x)) (li_download i).
Lemma fine_callback_session h s i : hash_ok h → input_fine i → sess_ok (hash_display h) s →
  fine (λ _, True) (callback_session md4 sha1 hex_encode hex_decode trim o h s i).
Proof.
  intros Hh Hi Hs c g Hc [Hst Hin Hg Hq]. unfold callback_session.
  pose proof (fine_run_session md4 sha1 hex_encode hex_decode trim hex_roundtrip (download_options o h) Hh o_identity intents_ok
    (li_download i) (li_download_end i) Hi s (sh_store g) Hs (conj Hst Hin)) as Hf.
  destruct (run_session _ _ _ _ _ _ _ _ s (sh_store g)) as [[s' w'] r]. destruct Hf as (_ & [Hst' Hin'] & Hr).
  split; [done|]. split; [by split|done].
Qed.
Lemma fine_callback_download h i : hash_ok h → input_fine i →
  fine (λ _, True) (callback_download md4 sha1 hex_encode hex_decode trim o h i).
Proof.
  intros Hh Hi. unfold callback_download. listen_step.
  eapply fine_decoded; [by apply (id_from_manifest_small hex_decode (download_options o h))|]. intros identifier Hid. listen_step.
  eapply fine_bind; [apply fine_callback_session; [done..|by split]|]. intros r _. listen.
Qed.
Lemma hash_ok_wf h : wf_Ed2kHash h = true → hash_ok h.
Proof. unfold wf_Ed2kHash. intros [Hl%Nat.eqb_eq Hb]%andb_prop. split; [done|]. unfold zlen. by rewrite Hl. Qed.
Lemma fine_claim_intent client_id :
  fine (λ r, ∀ x, r = Some x → ∃ h, wf_Ed2kHash h = true ∧ ci_file_hash x = hash_display h)
    (on_shared (λ g, let '(w', intent) := claim_callback_intent client_id (sh_store g) in
                     (mkShared w' (sh_uploads g) (sh_next_upload_connection_id g), intent))).
Proof.
  apply fine_on_shared. intros g [Hs Hi Hc Hq]. unfold claim_callback_intent. destruct (Prelude.position _ _) as [n|]; cbn; [|by split].
  split; [split; [done|by apply Forall_delete|done|done]|]. intros x Hx. by eapply Forall_lookup_1 in Hi.
Qed.
Lemma fine_listener_hello payload i : is_bytes payload = true → input_fine i →
  fine (λ _, True) (listener_hello md4 sha1 hex_encode hex_decode trim o payload i).
Proof.
  intros Hp Hi. unfold listener_hello. eapply fine_decoded; [by apply safe_hello_profile|]. intros p _. listen_step.
  eapply fine_decoded; [by apply safe_hello_responses|]. intros replies _. do 2 listen_step. listen_step; [auto with listener|].
  eapply fine_bind; [apply fine_claim_intent|]. intros [x|] Hx; [|listen]. destruct (Hx x eq_refl) as (h & Hh & ->).
  rewrite hash_from_str_display by done. cbn [map_err]. eapply fine_decoded with (hash_ok); [by apply hash_ok_wf|].
  intros h' Hh'. by apply fine_callback_download.
Qed.
#[local] Hint Resolve fine_listener_secident fine_listener_key fine_listener_received fine_listener_hello : listener.

(** *** Packets *)

Lemma fine_stay m : fine (λ _, True) m → fine (λ _, True) (stay m).
Proof. intros Hm. eapply fine_bind; [exact Hm|]. intros [] _. listen. Qed.
Lemma fine_asked m : fine (λ _, True) m → fine (λ _, True) (asked m).
Proof. intros Hm. eapply fine_bind; [exact Hm|]. intros h _. listen. Qed.
Lemma fine_reported {A} (Q : A → Prop) r : safe Q r → fine (λ _, True) (reported r).
Proof. intros Hr. eapply fine_decoded; [exact Hr|]. intros a _. listen. Qed.
Lemma fine_start payload now : is_bytes payload = true → fine (λ _, True) (listener_start_upload payload now).
Proof.
  intros Hp. unfold listener_start_upload. do 3 listen_step. eapply fine_bind with (λ _, True); [|intros bytes _; listen].
  destruct v1 as [e|]; [listen|]. apply fine_peer. auto with codec.
Qed.
Lemma fine_parts opcode payload now : is_bytes payload = true → fine (λ _, True) (listener_request_parts o opcode payload now).
Proof. intros Hp. unfold listener_request_parts. listen_step. destruct v as [h|]; listen. Qed.
#[local] Hint Resolve fine_start fine_parts : listener.
Ltac arm := case_match; [first [ apply fine_asked; solve [eauto 3 with listener]
  | apply fine_stay; first [ solve [eauto 3 with listener] | eapply fine_reported; solve [eauto 3 with codec]
      | apply fine_reply; first [solve [eauto 3 with codec] | by apply safe_encode] ]
  | by apply fine_ret | solve [eauto 3 with listener] | idtac ]|].
Lemma fine_edonkey_rest opcode payload : is_bytes payload = true → fine (λ _, True) (listener_edonkey_rest opcode payload).
Proof.
  intros Hp. unfold listener_edonkey_rest. repeat arm; try (by apply fine_ret).
  eapply fine_decoded; [by apply safe_dir_request|]. intros dir _. apply fine_stay, fine_reply. by apply safe_encode.
Qed.
#[local] Hint Resolve fine_edonkey_rest : listener.
Lemma fine_edonkey_packet opcode payload i : is_bytes payload = true → input_fine i →
  fine (λ _, True) (listener_edonkey_packet md4 sha1 hex_encode hex_decode trim o opcode payload i).
Proof. intros Hp Hi. unfold listener_edonkey_packet. repeat arm; listen. Qed.
Lemma safe_fw_check payload : is_bytes payload = true → safe (λ _, True) (fw_check_decode payload).
Proof.
  intros Hp. unfold fw_check_decode. case_match; bool_hyps; [done|].
  do 3 (eapply safe_bind with (λ _, True); [eapply safe_weaken; [apply safe_le; [done|lia..]|done]|intros ? _]). done.
Qed.
#[local] Hint Resolve safe_fw_check : codec.
Lemma fine_emule_rest opcode payload i : is_bytes payload = true → fine (λ _, True) (listener_emule_rest o opcode payload i).
Proof.
  intros Hp. unfold listener_emule_rest. repeat arm; try (by apply fine_ret).
  - apply fine_stay, fine_reply. destruct ip as [[[a b] c] d]. by apply safe_encode.
  - listen_step. apply fine_stay. listen.
  - eapply fine_decoded; [by apply safe_aich_request|]. intros r Hr. apply fine_stay, fine_reply. apply safe_encode. by rewrite (zlen_hash _ Hr).
Qed.
#[local] Hint Resolve fine_emule_rest : listener.
Lemma fine_emule_packet opcode payload i : is_bytes payload = true →
  fine (λ _, True) (listener_emule_packet sha1 hex_decode o opcode payload i).
Proof.
  intros Hp. unfold listener_emule_packet. listen_step. repeat arm; listen.
Qed.
#[local] Hint Resolve fine_edonkey_packet fine_emule_packet : listener.
Definition listener_event_fine (e : event) : Prop := match e with Received p => is_bytes (tp_payload p) = true | _ => True end.
Lemma fine_listener_turn e i : listener_event_fine e → input_fine i →
  fine (λ _, True) (listener_turn md4 sha1 hex_encode hex_decode trim o e i).
Proof. intros He Hi. destruct e as [p| | |]; cbn [listener_turn] in *; [unfold listener_packet|..]; listen. Qed.
Lemma fine_listener_step e i : listener_event_fine e → input_fine i →
  fine (λ _, True) (listener_step md4 sha1 hex_encode hex_decode trim o e i).
Proof.
  intros He Hi. eapply fine_bind; [by apply fine_listener_turn|]. intros outcome _.
  eapply fine_bind with (λ _, True); [destruct outcome; listen|]. intros [] _. listen.
Qed.

(** ** What is sent to a peer *)

Definition emits {A} (P : list Z → Prop) (m : PM connection shared A) : Prop := ∀ c g, conn_ok c → shared_ok g →
  ∃ l, c_sent (m c g).1.1 = c_sent c ++ l ∧ Forall P l.
Lemma emits_silent {A} P (m : PM connection shared A) : (∀ c g, c_sent (m c g).1.1 = c_sent c) → emits P m.
Proof. intros Hm c g _ _. exists []. by rewrite app_nil_r. Qed.
Lemma emits_bind {A B} P (Q : A → Prop) (m : PM connection shared A) (k : A → PM connection shared B) :
  emits P m → fine Q m → (∀ a, Q a → emits P (k a)) → emits P (m ≫= k).
Proof.
  intros Hm Hf Hk c g Hc Hg. destruct (Hm c g Hc Hg) as (l & Hl & HP). specialize (Hf c g Hc Hg). unfold mbind, sm_bind.
  destruct (m c g) as [[c1 g1] [a|e|]]; [|by exists l..]. destruct Hf as (Hc1 & Hg1 & Ha). destruct (Hk a Ha c1 g1 Hc1 Hg1) as (l' & Hl' & HP').
  exists (l ++ l'). rewrite Hl'. cbn in Hl. rewrite Hl, <- app_assoc. split; [done|by apply Forall_app_2].
Qed.
Lemma emits_send (P : list Z → Prop) bytes : P bytes → emits P (send_bytes bytes).
Proof.
  intros Hb c g _ _. unfold send_bytes. destruct (c_broken c) as [|[] l]; cbn; [by exists [bytes]; auto|exists []; by rewrite app_nil_r|].
  exists [bytes]; auto.
Qed.
Lemma emits_reply (P : list Z → Prop) packet : safe (λ _, True) packet → (∀ b, packet = Ok b → P b) → emits P (reply packet).
Proof.
  intros Hs HP. eapply emits_bind with (λ b, packet = Ok b); [by apply emits_silent| |intros b Hb; by apply emits_send, HP].
  apply fine_peer. by destruct packet.
Qed.
Lemma emits_queue (P : list Z → Prop) f : emits P (update_queue f).
Proof. by apply emits_silent. Qed.

(** The answers that have no bytes of files. *)
Definition is_control (bytes : list Z) : Prop :=
  encode_accept_upload_req (E:=PeerError) = Ok bytes ∨ (∃ rank, encode_queue_ranking (E:=PeerError) rank = Ok bytes) ∨
  ∃ h, encode_file_req_ans_nofil (E:=PeerError) h = Ok bytes.
Lemma emits_status status now : emits is_control (send_status status now).
Proof.
  destruct status as [rank| |]; cbn [send_status]; [| |by apply emits_silent].
  - eapply emits_bind; [|apply fine_rank|intros [] _; by apply emits_silent]. unfold send_queue_rank.
    eapply emits_bind; [apply emits_reply; [auto with codec|]|by apply fine_reply; auto with codec|intros [] _; apply emits_queue].
    intros b Hb. right. left. by eexists.
  - eapply emits_bind; [|apply fine_accept|intros [] _; by apply emits_silent]. unfold send_accept_if_needed.
    eapply emits_bind; [by apply emits_silent|apply fine_get|]. intros q _. case_match; [apply emits_queue|].
    eapply emits_bind; [apply emits_reply; [auto with codec|]|by apply fine_reply; auto with codec|intros [] _; apply emits_queue].
    intros b Hb. by left.
Qed.
Lemma emits_ensure identity h now : emits is_control (ensure_session_for_parts identity h now).
Proof.
  unfold ensure_session_for_parts. eapply emits_bind; [by apply emits_silent|apply fine_get|]. intros q _. case_match; [by apply emits_silent|].
  eapply emits_bind; [|apply fine_begin|].
  - apply emits_silent. intros c g. unfold on_shared. by destruct (begin_upload_session identity h now g).
  - intros [handle status] Hk. eapply emits_bind; [apply emits_queue|by apply (fine_hold _ _ (λ _, false))|intros [] _; apply emits_status].
Qed.
Lemma emits_note now : emits is_control (listener_note_request_parts now).
Proof.
  unfold listener_note_request_parts. eapply emits_bind; [by apply emits_silent|apply fine_get|]. intros q _.
  destruct (lq_session q) as [h|]; [|by apply emits_silent]. eapply emits_bind with (λ _, True); [| |intros status _; apply emits_status].
  - apply emits_silent. intros c g. unfold on_shared. by destruct (note_upload_request_parts h now g).
  - apply fine_on_shared. intros g Hg. split; [by apply note_shared|done].
Qed.

(** *** Parts of files *)

(** A packet of the bytes of a requested range, each of which lies in a part that the
    hash of the file stands for. *)
Definition is_part (h : Ed2kHash) (wide : bool) (ranges : list (Z * Z)) (bytes : list Z) : Prop :=
  ∃ start end_ file data name packets, (start, end_) ∈ ranges ∧ range_authentic md4 h file start end_ data ∧
    build_upload_part_packets (lo_fuel o) h name start end_ data wide = Ok packets ∧ bytes ∈ (up_packet <$> packets).
Lemma fine_read_authentic h start end_ now : hash_ok h → 0 ≤ start →
  fine (λ r, ∀ bytes, r = Some bytes → ∃ file, range_authentic md4 h file start end_ bytes) (on_store (read_verified_range h start end_ now)).
Proof.
  intros Hh Hs. apply fine_on_store; [auto with keeps|].
  eapply triple_weaken; [apply (triple_read_authentic md4 sha1 hex_encode trim); [by apply wf_hash_bytes|done]|done|].
  intros r s [Hok Hr]. split; [done|]. intros bytes Hb. eexists. by apply Hr.
Qed.
Lemma emits_store {A} P (t : TM A) : emits P (on_store t).
Proof. apply emits_silent. intros c g. unfold on_store. by destruct (t (sh_store g)) as [w r]. Qed.
Lemma emits_packets (P : list Z → Prop) l : Forall P (up_packet <$> l) → emits P (send_packets l).
Proof.
  induction l as [|p l IH]; cbn [send_packets]; [intros _; by apply emits_silent|]. intros [Hp Hl]%Forall_cons_1.
  eapply emits_bind; [by apply emits_send|apply fine_send_bytes|intros [] _; by apply IH].
Qed.
Lemma emits_ranges h name wide ranges l now : hash_ok h → Forall (λ '(a, b), 0 ≤ a < b) l → Forall (λ r, r ∈ ranges) l →
  emits (is_part h wide ranges) (serve_ranges o h name wide l now).
Proof.
  intros Hh. induction l as [|[start end_] l IH]; intros Hl Hin; cbn [serve_ranges]; [by apply emits_silent|].
  apply Forall_cons_1 in Hl as [Hs Hl]. apply Forall_cons_1 in Hin as [Hr Hin].
  eapply emits_bind; [apply emits_store|apply fine_read_authentic; [done|lia]|]. intros r Hdata.
  eapply emits_bind with (λ _, True); [| |intros [] _; by apply IH].
  - destruct r as [data|]; [|by apply emits_silent]. destruct (Hdata data eq_refl) as [file Hfile].
    eapply emits_bind with (λ l, build_upload_part_packets (lo_fuel o) h name start end_ data wide = Ok l); [by apply emits_silent| |].
    + apply fine_peer. pose proof (safe_build_packets (lo_fuel o) h name start end_ data wide Hh) as Hb. by destruct (build_upload_part_packets _ _ _ _ _ _ _).
    + intros packets Hb. apply emits_packets, Forall_forall. intros bytes Hx. exists start, end_, file, data, name, packets. done.
  - destruct r as [data|]; listen.
Qed.

(** A peer that is served has a slot. *)
Definition has_slot (h : Ed2kHash) (c : connection) (g : shared) : Prop := ∃ handle e,
  lq_session (c_queue c) = Some handle ∧ key_file_hash (h_key handle) = hash_display h ∧
  q_sessions (sh_uploads g) !! canon (h_key handle) = Some e ∧ s_phase e = PhUploading ∧ s_connection_id e = h_connection_id handle.
Lemma note_granted q h now : snd (note_request_parts q h now) = StGranted → ∃ e,
  q_sessions (fst (note_request_parts q h now)) !! canon (h_key h) = Some e ∧ s_phase e = PhUploading ∧ s_connection_id e = h_connection_id h.
Proof.
  unfold note_request_parts. destruct (q_sessions (reap_expired_sessions q now) !! canon (h_key h)) as [x|] eqn:E; [|done].
  destruct (Z.eqb_spec (s_connection_id x) (h_connection_id h)) as [Hid|]; [|done]. cbn [negb]. destruct (is_active x) eqn:Ha.
  - intros _. eexists. cbn [fst set_sessions q_sessions]. by rewrite lookup_insert_eq.
  - cbn [snd]. unfold status_for_key. cbn [set_sessions q_sessions]. rewrite lookup_insert_eq. cbn. unfold is_active in Ha. by destruct (s_phase x).
Qed.
Definition holds (c : connection) : option Ed2kUploadSessionHandle * option Ed2kHash := (lq_session (c_queue c), lq_file_hash (c_queue c)).
Lemma reply_spec packet c g : (reply packet c g).1.2 = g ∧ c_queue (reply packet c g).1.1 = c_queue c.
Proof. unfold reply, mbind, sm_bind, peer, send_bytes. destruct packet; [|done..]. by destruct (c_broken c) as [|[] l]. Qed.
Lemma send_status_spec status now c g c' g' r : send_status status now c g = (c', g', r) →
  g' = g ∧ holds c' = holds c ∧ (r = Ok QGranted → status = StGranted).
Proof.
  destruct status as [rank| |]; cbn [send_status].
  - unfold send_queue_rank, mbind, sm_bind. destruct (reply_spec (encode_queue_ranking rank) c g) as [Hg Hq].
    destruct (reply _ c g) as [[c1 g1] [[]|e|]]; cbn in Hg, Hq; intros [= <- <- <-]; unfold holds; cbn; by rewrite ?Hq.
  - unfold send_accept_if_needed, mbind, sm_bind, gets. destruct (lq_granted_sent _); [by intros [= <- <- <-]|].
    destruct (reply_spec encode_accept_upload_req c g) as [Hg Hq].
    destruct (reply _ c g) as [[c1 g1] [[]|e|]]; cbn in Hg, Hq; intros [= <- <- <-]; unfold holds; cbn; by rewrite ?Hq.
  - by intros [= <- <- <-].
Qed.
Lemma ensure_granted identity h now c g c' g' : ensure_session_for_parts identity h now c g = (c', g', Ok QGranted) →
  lq_file_hash (c_queue c') = Some h.
Proof.
  unfold ensure_session_for_parts, mbind, sm_bind, gets. case_bool_decide; [by intros [= <- <-]|]. unfold on_shared.
  destruct (begin_upload_session identity h now g) as [g1 [handle status]]. unfold update_queue, update.
  intros (_ & Hh & _)%send_status_spec. by injection Hh.
Qed.
Lemma note_slot h now c g c' g' : conn_ok c → lq_file_hash (c_queue c) = Some h →
  listener_note_request_parts now c g = (c', g', Ok QGranted) → has_slot h c' g'.
Proof.
  intros Hc Hh. unfold listener_note_request_parts, mbind, sm_bind, gets. unfold conn_ok in Hc. rewrite Hh in Hc.
  destruct (lq_session (c_queue c)) as [handle|] eqn:Es; [|done]. unfold on_shared, note_upload_request_parts.
  pose proof (note_granted (sh_uploads g) handle now) as Hn. destruct (note_request_parts (sh_uploads g) handle now) as [q status].
  intros (-> & Hq & Hg)%send_status_spec. destruct (Hn (Hg eq_refl)) as (e & He & Hp & Hi). injection Hq as Hs _. exists handle, e.
  by rewrite Hs, Es.
Qed.
Lemma ranges_frame h name wide l now c g : let '(c', g', _) := serve_ranges o h name wide l now c g in
  c_queue c' = c_queue c ∧ sh_uploads g' = sh_uploads g.
Proof.
  assert (Hsend : ∀ l c g, let '(c', g', _) := send_packets l c g in c_queue c' = c_queue c ∧ sh_uploads g' = sh_uploads g).
  { clear. induction l as [|p l IH]; intros c g; cbn [send_packets]; [done|]. unfold mbind, sm_bind, send_bytes.
    destruct (c_broken c) as [|[] b]; [|done|]; match goal with |- context [send_packets l ?x g] => exact (IH x g) end. }
  revert c g. induction l as [|[start end_] l IH]; intros c g; cbn [serve_ranges]; [done|]. unfold mbind, sm_bind, on_store.
  destruct (read_verified_range h start end_ now (sh_store g)) as [w [[data|]|e|]]; cbn [map_err]; [| |done..].
  - unfold peer. destruct (build_upload_part_packets _ _ _ _ _ _ _) as [packets|e|]; [|done..].
    pose proof (Hsend packets c (mkShared w (sh_uploads g) (sh_next_upload_connection_id g))) as Hp.
    destruct (send_packets packets _ _) as [[c1 g1] [[]|e|]]; [|done..]. specialize (IH c1 g1).
    destruct (serve_ranges _ _ _ _ _ _ _ _) as [[c2 g2] r]. cbn in *. by destruct Hp as [<- <-].
  - exact (IH c (mkShared w (sh_uploads g) (sh_next_upload_connection_id g))).
Qed.
Lemma serve_sent opcode payload now c g c' g' r : conn_ok c → shared_ok g → is_bytes payload = true →
  serve_upload_payload o opcode payload now c g = (c', g', r) →
  ∃ control parts, c_sent c' = c_sent c ++ control ++ parts ∧ Forall is_control control ∧
    (parts = [] ∨ ∃ h ranges, decode_request_parts_payload payload (opcode =? OP_REQUESTPARTS_I64) = Ok (h, ranges) ∧ has_slot h c' g' ∧
       Forall (is_part h (opcode =? OP_REQUESTPARTS_I64) ranges) parts).
Proof.
  intros Hc Hg Hp. unfold serve_upload_payload. cbv zeta. set (wide := opcode =? OP_REQUESTPARTS_I64).
  pose proof (safe_request_parts payload wide Hp) as Hd. unfold mbind at 1, sm_bind at 1, peer.
  assert (Hnil : ∀ c : connection, c_sent c = c_sent c ++ [] ++ []) by (intros; by rewrite !app_nil_r).
  destruct (decode_request_parts_payload payload wide) as [[h ranges]|e|]; [|intros [= <- <- <-]; exists [], []; auto..]. destruct Hd as [Hh Hr].
  pose proof (fine_entry h now c g Hc Hg) as He. unfold mbind at 1, sm_bind at 1. unfold on_store in *.
  destruct (local_entry h now (sh_store g)) as [w [[entry|]|e|]]; cbn [map_err] in *; destruct He as (_ & Hg1 & _);
    [| |intros [= <- <- <-]; exists [], []; auto..].
  - unfold mbind at 1, sm_bind at 1, gets. set (g1 := mkShared _ _ _) in *. clearbody g1.
    destruct (emits_ensure (c_identity c) h now c g1 Hc Hg1) as (l1 & Hl1 & HP1). pose proof (fine_ensure (c_identity c) h now c g1 Hc Hg1) as Hf1.
    unfold mbind at 1, sm_bind at 1. destruct (ensure_session_for_parts (c_identity c) h now c g1) as [[c2 g2] r2] eqn:E2. cbn in Hl1.
    destruct Hf1 as (Hc2 & Hg2 & _).
    destruct r2 as [[| |]|e|]; try (intros [= <- <- <-]; exists l1, []; split; [by rewrite app_nil_r|auto]).
    destruct (emits_note now c2 g2 Hc2 Hg2) as (l2 & Hl2 & HP2). pose proof (fine_note now c2 g2 Hc2 Hg2) as Hf2.
    unfold mbind at 1, sm_bind at 1. destruct (listener_note_request_parts now c2 g2) as [[c3 g3] r3] eqn:E3. cbn in Hl2.
    destruct Hf2 as (Hc3 & Hg3 & _). rewrite Hl1, <- app_assoc in Hl2.
    destruct r3 as [[| |]|e|]; try (intros [= <- <- <-]; exists (l1 ++ l2), []; split; [by rewrite app_nil_r|split; [by apply Forall_app_2|auto]]).
    pose proof (note_slot h now c2 g2 c3 g3 Hc2 (ensure_granted _ _ _ _ _ _ _ E2) E3) as Hslot.
    destruct (emits_ranges h (se_canonical_name entry) wide ranges ranges now Hh Hr ltac:(by apply Forall_forall) c3 g3 Hc3 Hg3) as (l3 & Hl3 & HP3).
    pose proof (ranges_frame h (se_canonical_name entry) wide ranges now c3 g3) as Hfr. unfold mbind at 1, sm_bind at 1.
    destruct (serve_ranges _ _ _ _ _ _ c3 g3) as [[c4 g4] r4]. cbn in Hl3, Hfr. destruct Hfr as [Hq4 Hu4].
    assert (Hend : ∀ r', (c4, g4, r') = (c', g', r) → c4 = c' ∧ g4 = g') by (by intros r' [= -> ->]).
    intros Hres. assert (c4 = c' ∧ g4 = g') as [<- <-] by (destruct r4; by eapply Hend). exists (l1 ++ l2), l3.
    split; [by rewrite Hl3, Hl2, <- !app_assoc|]. split; [by apply Forall_app_2|]. right. exists h, ranges. split; [done|]. split; [|done].
    unfold has_slot. by rewrite Hq4, Hu4.
  - set (g1 := mkShared _ _ _) in *. clearbody g1.
    assert (Hem : emits is_control (send_nofile h)) by (apply emits_reply; [auto with codec|]; intros b Hb; right; right; by exists h).
    destruct (Hem c g1 Hc Hg1) as (l & Hl & HP). unfold mbind, sm_bind. destruct (send_nofile h c g1) as [[c2 g2] [[]|e|]]; cbn in Hl;
      intros [= <- <- <-]; exists l, []; (split; [by rewrite app_nil_r|auto]).
Qed.
End safe.

(** ** Many sessions

    The agent accepts connections, each with the options of its time; their sessions
    take turns in any order, each on any event, and other tasks operate on the store and
    register callbacks between turns. A session that ends or fails is gone. *)
Section system.
Context `{Laws : ZlibLaws}.
Context (md4 sha1 : list Z → list Z) (hex_encode : list Z → list Z) (hex_decode : list Z → option (list Z)) (trim : list Z → list Z).
Local Abbreviation step := (listener_step md4 sha1 hex_encode hex_decode trim).
Definition set_store (w : world) (g : shared) : shared := mkShared w (sh_uploads g) (sh_next_upload_connection_id g).
Inductive sys_reach : gmap nat (ListenerOptions * connection) → shared → Prop :=
| sys_start w config : tx_reach md4 sha1 hex_encode hex_decode trim w → w_intents w = [] → wf_config config →
    sys_reach ∅ (mkShared w (queue_new config) 1)
| sys_accept m g k o broken : sys_reach m g → identity_ok (lo_response_identity o) → sys_reach (<[k := (o, connection_new o broken)]> m) g
| sys_turn m g k o c e i c' g' r : sys_reach m g → m !! k = Some (o, c) → listener_event_fine e → input_fine i →
    step o e i c g = (c', g', r) → sys_reach (match r with Ok SessionOpen => <[k := (o, c')]> m | _ => delete k m end) g'
| sys_store m g op now : sys_reach m g → op_ok md4 op (core (sh_store g)) →
    sys_reach m (set_store (fst (run_op md4 sha1 hex_encode hex_decode trim op now (sh_store g))) g)
| sys_callback m g intent h : sys_reach m g → wf_Ed2kHash h = true → ci_file_hash intent = hash_display h →
    sys_reach m (set_store (register_callback_intent intent (sh_store g)) g).

Hypothesis hex_roundtrip : ∀ b, is_bytes b = true → hex_decode (hex_encode b) = Some b.
Hypothesis md4_hash : ∀ b, wf_Ed2kHash (md4 b) = true.
Definition session_ok (x : ListenerOptions * connection) : Prop := identity_ok (lo_response_identity x.1) ∧ conn_ok x.2.

Lemma run_op_intents op now w : intents_ok (w_intents w) →
  intents_ok (w_intents (fst (run_op md4 sha1 hex_encode hex_decode trim op now w))).
Proof.
  assert (Hi : ∀ {A} (t : TM A), keeps t → keeps (ignore t)).
  { intros A t Ht. apply keeps_bind; [done|]. intros a. apply keeps_ret. }
  intros Hw. destruct op; cbn [run_op]; [..|by apply Forall_nil];
    (lazymatch goal with |- intents_ok (w_intents (fst (?t w))) => enough (keeps t) as Hk by (by rewrite Hk) end);
    first [apply Hi; solve [auto using keeps_ensure, keeps_reclaim, keeps_append_block, keeps_ingest with keeps]
          |solve [auto using keeps_store_piece with keeps]].
Qed.
Lemma register_intents intent h w : intents_ok (w_intents w) → wf_Ed2kHash h = true → ci_file_hash intent = hash_display h →
  intents_ok (w_intents (register_callback_intent intent w)).
Proof.
  intros Hw Hh Hi. unfold register_callback_intent. case_match; [done|]. cbn. apply Forall_app_2; [done|]. constructor; [by exists h|constructor].
Qed.
Lemma register_core intent w : core (register_callback_intent intent w) = core w.
Proof. unfold register_callback_intent. by case_match. Qed.
Lemma sys_reach_ok m g : sys_reach m g → shared_ok md4 hex_encode g ∧ map_Forall (λ _, session_ok) m.
Proof.
  induction 1 as [w config Hw Hi Hc|m g k o broken _ [IHg IHm] Ho|m g k o c e i c' g' r _ [IHg IHm] Hk He Hi Hs|
    m g op now _ [IHg IHm] Hop|m g intent h _ [IHg IHm] Hh Hi].
  - split; [|apply map_Forall_empty]. split; [by eapply tx_reach_ok|cbn; rewrite Hi; constructor|done|by apply queue_new_ok].
  - split; [done|]. by apply map_Forall_insert_2.
  - destruct (IHm k _ Hk) as [Ho Hc]. pose proof (fine_listener_step md4 sha1 hex_encode hex_decode trim hex_roundtrip o Ho e i He Hi c g Hc IHg) as Hf.
    rewrite Hs in Hf. destruct Hf as (Hc' & Hg' & _). split; [done|].
    destruct r as [[| |]|x|]; first [by apply map_Forall_insert_2|by apply map_Forall_delete].
  - split; [|done]. destruct IHg as [Hst Hin Hc Hq]. split; [|by apply run_op_intents|done|done].
    pose proof (triple_op _ sha1 _ _ trim hex_roundtrip md4_hash op now (sh_store g) (conj Hst Hop)) as Hx. cbn [set_store sh_store].
    by destruct (run_op _ _ _ _ _ op now (sh_store g)) as [w' [[]|e|]].
  - split; [|done]. destruct IHg as [Hst Hin Hc Hq]. split; [cbn [set_store sh_store]; by rewrite register_core|by eapply register_intents|done|done].
Qed.
End system.

(** C26. Whatever peers send over however many connections, in any interleaving of their
    sessions' turns with each other and with other operations on the transfer store, and
    wherever disks and connections fail: every manifest of the store vouches only for bytes
    of its file, the upload queue keeps its invariant (slots, capacity, order), and no
    session panics on its next event. The other operations respect [op_ok] (no file is
    ingested over the payload of a manifest that exists, which does break the store when
    the copy fails, see [TransferOk.reingest_breaks]; no transfer of more than 2^32 - 1
    parts), and the packets of a download over a callback connection tell only sizes of at
    most that many parts ([input_fine]). Such a download is one turn of its session here;
    its steps, interleaved with the other tasks, are those of [DownloadOk.dl_reach]. *)
Theorem listener_system_safe `{ZlibLaws} md4 sha1 hex_encode hex_decode trim m g :
  (∀ b, is_bytes b = true → hex_decode (hex_encode b) = Some b) → (∀ b, wf_Ed2kHash (md4 b) = true) →
  sys_reach md4 sha1 hex_encode hex_decode trim m g →
  (∀ key f, w_cache (sh_store g) !! key = Some f ∨ w_manifests (sh_store g) !! key = Some (Some f) →
     manifest_ok md4 hex_encode key (payload (sh_store g) key) f) ∧
  queue_ok (sh_uploads g) ∧
  ∀ k o c e i, m !! k = Some (o, c) → listener_event_fine e → input_fine i →
    snd (listener_step md4 sha1 hex_encode hex_decode trim o e i c g) ≠ Panic.
Proof.
  intros Hhex Hmd Hr. destruct (sys_reach_ok md4 sha1 hex_encode hex_decode trim Hhex Hmd m g Hr) as [Hg Hm].
  split; [|split; [apply Hg|]].
  - intros key f [E|E]; [by apply (so_cache _ _ _ (sg_store _ _ _ Hg) key)|by apply (so_disk _ _ _ (sg_store _ _ _ Hg) key)].
  - intros k o c e i Hk He Hi. destruct (Hm k _ Hk) as [Ho Hc].
    pose proof (fine_listener_step md4 sha1 hex_encode hex_decode trim Hhex o Ho e i He Hi c g Hc Hg) as Hf.
    destruct (listener_step _ _ _ _ _ o e i c g) as [[c' g'] r]. destruct Hf as (_ & _ & Hf). by apply safe_panic in Hf.
Qed.

(** C27. Parts of files go only to peers whose turn it is, and only authentic ones: what a
    session of the running agent sends for a request of parts is control packets (accepted,
    a rank in the queue, no such file) and then packets of the requested ranges; if there
    are any of these, the session holds an entry of the upload queue for that file, in the
    uploading phase and under this connection, and every byte lies in a part that the
    file's hash stands for. *)
Theorem uploads_authentic `{ZlibLaws} md4 sha1 hex_encode hex_decode trim m g k o c opcode payload now c' g' r :
  (∀ b, is_bytes b = true → hex_decode (hex_encode b) = Some b) → (∀ b, wf_Ed2kHash (md4 b) = true) →
  sys_reach md4 sha1 hex_encode hex_decode trim m g → m !! k = Some (o, c) → is_bytes payload = true →
  serve_upload_payload o opcode payload now c g = (c', g', r) →
  ∃ control parts, c_sent c' = c_sent c ++ control ++ parts ∧ Forall is_control control ∧
    (parts = [] ∨ ∃ h ranges, decode_request_parts_payload payload (opcode =? OP_REQUESTPARTS_I64) = Ok (h, ranges) ∧ has_slot h c' g' ∧
       Forall (is_part md4 o h (opcode =? OP_REQUESTPARTS_I64) ranges) parts).
Proof.
  intros Hhex Hmd Hr Hk Hp. destruct (sys_reach_ok md4 sha1 hex_encode hex_decode trim Hhex Hmd m g Hr) as [Hg Hm].
  destruct (Hm k _ Hk) as [Ho Hc]. by apply (serve_sent md4 sha1 hex_encode trim).
Qed.

(** A peer that asks for a slot and then for the bytes of a file of three bytes. *)
Definition upload_options : ListenerOptions :=
  mkListenerOptions (mkSocketAddr (V4 (80, 1, 2, 3)) 4662) sample_identity 4672 (mkSecureIdent [1; 2] (λ _, [3; 4])) 100.
Definition upload_turn (opcode : Z) (payload : list Z) : event * listener_input :=
  (Received (mkTcpPacket OP_EDONKEYPROT opcode payload), mkListenerInput 0 7 [] [] 9).
Definition parts_request : list Z := sum_hash sample_file ++ [0; 0; 0; 0] ++ replicate 8 0 ++ [3; 0; 0; 0] ++ replicate 8 0.
Definition start_shared : shared := mkShared sample_world (queue_new default_config) 1.
Definition queued : connection * shared * res PeerError listener_outcome :=
  let '(e, i) := upload_turn OP_STARTUPLOADREQ (sum_hash sample_file) in
  listener_step (H:=RunLength.rle_zlib) sum_hash sum_hash hex_text hex_bytes id upload_options e i (connection_new upload_options []) start_shared.
Definition served : connection * shared * res PeerError UploadPayloadOutcome :=
  serve_upload_payload (H:=RunLength.rle_zlib) upload_options OP_REQUESTPARTS parts_request 0 queued.1.1 queued.1.2.
Lemma queued_reach : sys_reach (H:=RunLength.rle_zlib) sum_hash sum_hash hex_text hex_bytes id {[0%nat := (upload_options, queued.1.1)]} queued.1.2.
Proof.
  assert (Hr : queued.2 = Ok SessionOpen) by (vm_compute; reflexivity). unfold queued in *. unfold upload_turn in *. cbv beta iota zeta in *.
  destruct (listener_step _ _ _ _ _ _ _ _ _ _) as [[c' g'] r] eqn:E. cbn [fst snd] in *. subst r.
  replace {[0%nat := (upload_options, c')]} with (<[0%nat := (upload_options, c')]> {[0%nat := (upload_options, connection_new upload_options [])]} :> gmap nat _)
    by apply insert_singleton_eq.
  eapply (sys_turn (H:=RunLength.rle_zlib)) with (r := Ok SessionOpen); [|apply lookup_singleton_eq| | |exact E]; [|done|constructor].
  apply (sys_accept (H:=RunLength.rle_zlib) _ _ _ _ _ ∅); [|exact sample_identity_ok].
  assert (Hi : w_intents sample_world = []) by (vm_compute; reflexivity). assert (Hc : wf_config default_config) by (split; cbn; lia).
  exact (sys_start _ _ _ _ _ sample_world default_config sample_reach Hi Hc).
Qed.
(** The peer is granted a slot and sent the three bytes. *)
Example upload_served : c_sent served.1.1 =
  match encode_accept_upload_req (E:=PeerError), encode_sending_part (sum_hash sample_file) 0 3 sample_file false with
  | Ok accept, Ok part => [accept; part]
  | _, _ => []
  end.
Proof. vm_compute. reflexivity. Qed.
Lemma listener_system_safe_witness : queue_ok (sh_uploads queued.1.2) ∧
  snd (listener_step (H:=RunLength.rle_zlib) sum_hash sum_hash hex_text hex_bytes id upload_options (upload_turn OP_REQUESTPARTS parts_request).1
    (upload_turn OP_REQUESTPARTS parts_request).2 queued.1.1 queued.1.2) ≠ Panic.
Proof.
  pose proof (@listener_system_safe RunLength.rle_zlib RunLength.rle_laws sum_hash sum_hash hex_text hex_bytes id _ _ hex_text_bytes sum_hash_wf
    queued_reach) as (_ & Hq & Hp).
  split; [exact Hq|]. apply (Hp 0%nat); [apply lookup_singleton_eq|reflexivity|constructor].
Defined.
Lemma uploads_authentic_witness : ∃ control parts, c_sent served.1.1 = c_sent queued.1.1 ++ control ++ parts ∧ Forall is_control control ∧
  (parts = [] ∨ ∃ h ranges, decode_request_parts_payload parts_request false = Ok (h, ranges) ∧ has_slot h served.1.1 served.1.2 ∧
     Forall (is_part (H:=RunLength.rle_zlib) sum_hash upload_options h false ranges) parts).
Proof.
  destruct served as [[c' g'] r] eqn:E. unfold served in E.
  exact (@uploads_authentic RunLength.rle_zlib RunLength.rle_laws sum_hash sum_hash hex_text hex_bytes id _ _ 0%nat upload_options queued.1.1
    OP_REQUESTPARTS parts_request 0 c' g' r hex_text_bytes sum_hash_wf queued_reach (lookup_singleton_eq _ _) eq_refl E).
Defined.

(** An error ends a session without releasing its place: the slot that the peer was
    granted stays taken, until it times out. *)
Definition failed : connection * shared * res PeerError listener_outcome :=
  let '(_, i) := upload_turn 0 [] in
  listener_step (H:=RunLength.rle_zlib) sum_hash sum_hash hex_text hex_bytes id upload_options (ReadFailed false) i queued.1.1 queued.1.2.
Example failed_keeps_slot : snd failed = Err PIo ∧ active_session_count (sh_uploads failed.1.2) = 1.
Proof. vm_compute. split; reflexivity. Qed.
