(* ===== verification/FirewallHelper.v ===== *)
(** * Connections of the firewall check

    Models [overlord-agent-emule/src/ed2k_tcp/firewall_helper.rs]: the session with a peer
    that is asked to check the UDP port, the connection to a peer that asked for a
    callback, and the acknowledgement of a TCP check. A session is run on what
    happens on its connection until each of its two deadlines; the connection itself
    is that of [PeerTransport], and writes may fail. Packet dumps are left out. *)

From S2P Require Import Prelude Net NodeId Wire Tag PacketTypes Packet Contact PeerTransport PeerCodec PeerParts Hello Session Download DownloadOk Listener ListenerOk.

(** The variables of a session: the state of identification, the packets sent, what the
    Kad node is told, and which of the next writes fail. *)
Record helper : Type := mkHelper {
  h_ident : Ed2kPeerSecureIdentState;
  h_sent : list (list Z);
  h_kad : list kad_effect;
  h_broken : list bool;
}.
Local Abbreviation HM := (PM helper ()).
Definition helper_ident (f : Ed2kPeerSecureIdentState → Ed2kPeerSecureIdentState) (h : helper) : helper :=
  mkHelper (f (h_ident h)) (h_sent h) (h_kad h) (h_broken h).
(** [transport.write_all], with or without a timeout. *)
Definition helper_send (bytes : list Z) : HM () := λ h w,
  match h_broken h with
  | true :: broken => (mkHelper (h_ident h) (h_sent h) (h_kad h) broken, w, Err PIo)
  | broken => (mkHelper (h_ident h) (h_sent h ++ [bytes]) (h_kad h) (tail broken), w, Ok ())
  end.
Definition helper_reply (packet : res PeerError (list Z)) : HM () := bytes ← peer packet; helper_send bytes.
Definition helper_register (target : SocketAddr) (key : Z) : HM () :=
  update (λ h, mkHelper (h_ident h) (h_sent h) (h_kad h ++ [RegisterPeerKey target key]) (h_broken h)).
Definition helper_kad_send (target : SocketAddr) (p : KadPacket) : HM () := λ h w,
  match h_broken h with
  | true :: broken => (mkHelper (h_ident h) (h_sent h) (h_kad h) broken, w, Err PIo)
  | broken => (mkHelper (h_ident h) (h_sent h) (h_kad h ++ [SendKad target p]) (tail broken), w, Ok ())
  end.
Fixpoint helper_firewall_replies (ports : list Z) (peer_ip : IpAddr) (error_code sender_udp_key : Z) : HM () :=
  match ports with
  | [] => mret ()
  | port :: ports' =>
      let target := mkSocketAddr peer_ip port in
      when (negb (sender_udp_key =? 0)) (helper_register target sender_udp_key);;
      helper_kad_send target (PFirewallUdp (mkFirewallUdp error_code port));;
      helper_firewall_replies ports' peer_ip error_code sender_udp_key
  end.
Definition helper_reply_with_firewall_udp (contacts : list Contact) (peer_ip : IpAddr) (request : FirewallCheckUdpRequest) : HM () :=
  let internal := fc_internal_udp_port request in
  let external := fc_external_udp_port request in
  if internal =? 0 then mret ()
  else
    let ports := if negb (external =? 0) && negb (external =? internal) then [internal; external] else [internal] in
    let error_code := match peer_ip with
                      | V4 ip => if existsb (λ c, bool_decide (c_ip c = ip)) contacts then 1 else 0
                      | V6 _ => 1
                      end in
    helper_firewall_replies (List.filter (λ port, negb (port =? 0)) ports) peer_ip error_code (fc_sender_udp_key request).

(** What a read of a session gives: a packet with a random challenge and the contacts of
    the routing table at that time, the end of the stream, or an error, which may be
    the shutdown of the connection. A deadline is the end of the events. *)
Inductive helper_event : Type :=
| HPacket (packet : EmuleTcpPacket) (challenge : Z) (contacts : list Contact)
| HClosed
| HReadError (shutdown : bool).
(** [FirewallHelperContext]; the DHT node may be missing. *)
Record FirewallHelperContext : Type := mkHelperContext {
  hc_helper_addr : SocketAddr;
  hc_hello_identity : Ed2kHelloIdentity;
  hc_secure_ident : Ed2kSecureIdent;
  hc_dht : bool;
}.
Definition helper_packet_completes_hello (p : EmuleTcpPacket) : bool :=
  (tp_protocol p =? OP_EDONKEYPROT) && ((tp_opcode p =? OP_HELLO) || (tp_opcode p =? OP_HELLOANSWER)).

Section session.
Context (cx : FirewallHelperContext).
Definition helper_probe (challenge : Z) : HM () :=
  st ← gets h_ident;
  '((ident, packet) : Ed2kPeerSecureIdentState * list Z) ← peer (begin_secure_ident_probe challenge st);
  update (helper_ident (λ _, ident));;
  helper_send packet.
(** The probe that follows a hello of either direction. *)
Definition probe_if_supported (profile : DecodedHelloProfile) (challenge : Z) : HM () :=
  st ← gets h_ident;
  when (hp_supports_secure_ident profile && negb (requested_peer_key st)) (helper_probe challenge).
Definition helper_send_signature : HM bool :=
  st ← gets h_ident;
  packet ← peer (secure_ident_signature (hc_secure_ident cx) st);
  match packet with
  | None => mret false
  | Some packet =>
      helper_send packet;;
      update (helper_ident (λ i, mkIdentState (peer_public_key i) (peer_challenge_from i) (challenge_for i) false (peer_signature_received i) (requested_peer_key i)));;
      mret true
  end.
Definition helper_secident_state (payload : list Z) (challenge : Z) : HM () :=
  '((state, peer_challenge) : Z * Z) ← peer (decode_secident_state payload);
  update (helper_ident (λ i, mkIdentState (peer_public_key i) (Some peer_challenge) (challenge_for i)
    (pending_signature i || negb (state =? 0)) (peer_signature_received i) (requested_peer_key i)));;
  when (state =? ED2K_SECURE_IDENT_KEY_AND_SIGNATURE_NEEDED)
    (helper_reply (key_payload ← public_key_payload (hc_secure_ident cx); encode_packet OP_EMULEPROT OP_PUBLICKEY key_payload));;
  sent ← helper_send_signature;
  st ← gets h_ident;
  when (negb sent && (state =? ED2K_SECURE_IDENT_SIGNATURE_NEEDED) && negb (requested_peer_key st))
    (update (helper_ident (λ i, mkIdentState (peer_public_key i) (peer_challenge_from i) (Some challenge) true (peer_signature_received i) true));;
     helper_reply (encode_secident_state ED2K_SECURE_IDENT_KEY_AND_SIGNATURE_NEEDED challenge)).
Definition helper_public_key (payload : list Z) : HM () :=
  peer_key ← peer (decode_public_key_payload payload);
  update (helper_ident (λ i, mkIdentState (Some peer_key) (peer_challenge_from i) (challenge_for i) (pending_signature i) (peer_signature_received i) (requested_peer_key i)));;
  helper_send_signature;;
  mret ().
Definition go_on (m : HM ()) : HM bool := m;; mret true.
(** [false] ends the loop that reads. *)
Definition handle_firewall_helper_packet (p : EmuleTcpPacket) (challenge : Z) (contacts : list Contact) : HM bool :=
  let opcode := tp_opcode p in
  let payload := tp_payload p in
  if tp_protocol p =? OP_EDONKEYPROT then
    if opcode =? OP_HELLO then
      go_on (profile ← peer (decode_hello_profile payload);
             helper_reply (encode_hello_answer (hc_hello_identity cx));;
             probe_if_supported profile challenge)
    else if opcode =? OP_HELLOANSWER then
      go_on (profile ← peer (decode_hello_answer_profile payload); probe_if_supported profile challenge)
    else mret false
  else if tp_protocol p =? OP_EMULEPROT then
    if opcode =? OP_EMULEINFO then go_on (helper_reply (encode_emule_info_answer (hi_udp_port (hc_hello_identity cx))))
    else if opcode =? OP_EMULEINFOANSWER then mret true
    else if opcode =? OP_SECIDENTSTATE then go_on (helper_secident_state payload challenge)
    else if opcode =? OP_PUBLICKEY then go_on (helper_public_key payload)
    else if opcode =? OP_SIGNATURE then mret true
    else if opcode =? OP_FWCHECKUDPREQ then
      if hc_dht cx then
        go_on (request ← peer (fw_check_decode payload); helper_reply_with_firewall_udp contacts (sa_ip (hc_helper_addr cx)) request)
      else mret false
    else mret false
  else mret false.

Fixpoint hello_loop (events : list helper_event) : HM bool :=
  match events with
  | [] => mret false
  | HClosed :: _ | HReadError true :: _ => mret false
  | HReadError false :: _ => peer (Err PIo)
  | HPacket p challenge contacts :: events' =>
      more ← handle_firewall_helper_packet p challenge contacts;
      if negb more then mret false
      else if helper_packet_completes_hello p then mret true
      else hello_loop events'
  end.
Definition drive_firewall_helper_hello_exchange (events : list helper_event) : HM bool :=
  helper_reply (encode_hello_request (hc_hello_identity cx));;
  hello_loop events.
(** The wait after the request; an error of the connection only ends it. *)
Fixpoint post_loop (events : list helper_event) : HM () :=
  match events with
  | [] | HClosed :: _ | HReadError _ :: _ => mret ()
  | HPacket p challenge contacts :: events' =>
      more ← handle_firewall_helper_packet p challenge contacts;
      if negb more then mret () else post_loop events'
  end.
Definition request_packet (request : FirewallCheckUdpRequest) : res PeerError (list Z) := encode_packet OP_EMULEPROT OP_FWCHECKUDPREQ (fw_check_encode request).
Definition request_udp_firewall_check (connected : res PeerError ()) (request : FirewallCheckUdpRequest) (hello_events post_events : list helper_event) : HM () :=
  peer connected;;
  hello_completed ← drive_firewall_helper_hello_exchange hello_events;
  if negb hello_completed then peer (Err PUnsupported)
  else
    helper_reply (request_packet request);;
    post_loop post_events.

(** The connection to a peer that asked for a callback, after it is made. *)
Fixpoint helper_send_all (l : list (list Z)) : HM () := match l with [] => mret () | b :: l' => helper_send b;; helper_send_all l' end.
Fixpoint callback_peer_loop (events : list helper_event) : HM () :=
  match events with
  | [] | HClosed :: _ | HReadError true :: _ => mret ()
  | HReadError false :: _ => peer (Err PIo)
  | HPacket p _ _ :: events' =>
      if (tp_protocol p =? OP_EDONKEYPROT) && (tp_opcode p =? OP_HELLO) then
        replies ← peer (build_hello_responses (tp_payload p) (hc_hello_identity cx));
        helper_send_all replies;;
        callback_peer_loop events'
      else if (tp_protocol p =? OP_EMULEPROT) && (tp_opcode p =? OP_EMULEINFO) then
        helper_reply (encode_emule_info_answer (hi_udp_port (hc_hello_identity cx)))
      else mret ()
  end.
Definition connect_callback_peer (connected : res PeerError ()) (events : list helper_event) : HM () :=
  peer connected;;
  helper_reply (encode_hello_request (hc_hello_identity cx));;
  callback_peer_loop events.
Definition send_kad_firewall_tcp_ack (connected : res PeerError ()) : HM () :=
  peer connected;;
  helper_reply (encode_hello_request (hc_hello_identity cx));;
  helper_reply (encode_packet OP_EMULEPROT OP_KAD_FWTCPCHECK_ACK []).
End session.

(** ** What a session sends *)

(** A request for a firewall check, by the header of its packet. *)
Definition is_fw_request (bytes : list Z) : bool := (byte_at bytes 0 =? OP_EMULEPROT) && (byte_at bytes 5 =? OP_FWCHECKUDPREQ).
Definition fw_requests (h : helper) : list (list Z) := List.filter is_fw_request (h_sent h).

Lemma encode_header protocol opcode payload bytes : encode_packet (E := PeerError) protocol opcode payload = Ok bytes → byte_at bytes 0 = protocol ∧ byte_at bytes 5 = opcode.
Proof. unfold encode_packet. destruct (expect _) as [len| |]; [|done..]. cbn [mbind res_bind]. intros [= <-]. done. Qed.
(** A packet with another header. *)
Definition other (bytes : list Z) : Prop := is_fw_request bytes = false.
Lemma encode_other protocol opcode payload : (protocol =? OP_EMULEPROT) && (opcode =? OP_FWCHECKUDPREQ) = false →
  zlen payload < U32_MAX → safe other (encode_packet (E := PeerError) protocol opcode payload).
Proof.
  intros Ho Hl. destruct (encode_packet protocol opcode payload) as [bytes|e|] eqn:He; [|done|].
  - cbn. unfold other, is_fw_request. destruct (encode_header _ _ _ _ He) as [-> ->]. done.
  - pose proof (safe_encode protocol opcode payload Hl) as H. by rewrite He in H.
Qed.

Create HintDb quiet.
Section sends.
Context (cx : FirewallHelperContext) (k : list (list Z)).
Hypothesis cx_identity : identity_ok (hc_hello_identity cx).
(** A step that does not panic and asks for no check. *)
Local Abbreviation quiet := (fine (λ h, fw_requests h = k) (λ _ : (), True)).

Lemma quiet_send bytes : other bytes → quiet (λ _, True) (helper_send bytes).
Proof.
  intros Ho h w Hh _. unfold helper_send. assert (Hadd : fw_requests (mkHelper (h_ident h) (h_sent h ++ [bytes]) (h_kad h) (tail (h_broken h))) = k).
  { unfold fw_requests in *. cbn. rewrite List.filter_app. cbn. by rewrite Ho, app_nil_r. }
  destruct (h_broken h) as [|[] broken]; done.
Qed.
Lemma quiet_reply packet : safe other packet → quiet (λ _, True) (helper_reply packet).
Proof. intros Hp. eapply fine_bind; [by apply fine_peer|]. intros bytes Hb. by apply quiet_send. Qed.
Lemma quiet_ident f : quiet (λ _, True) (update (helper_ident f)).
Proof. by apply fine_update. Qed.
Lemma quiet_ask {A} (f : helper → A) : quiet (λ _, True) (gets f).
Proof. by apply fine_gets. Qed.
#[local] Hint Resolve quiet_send quiet_reply quiet_ident quiet_ask : quiet.
Ltac quiet_next := eapply fine_bind with (λ _, True); [auto with quiet|intros ? _].

Lemma secident_other state challenge : safe other (encode_secident_state (E := PeerError) state challenge).
Proof. by apply encode_other. Qed.
Lemma quiet_probe challenge : quiet (λ _, True) (helper_probe challenge).
Proof.
  unfold helper_probe. quiet_next. eapply fine_bind with (λ p, other (snd p)).
  { apply fine_peer. unfold begin_secure_ident_probe. eapply safe_bind; [apply secident_other|]. intros packet Hp. exact Hp. }
  intros [ident packet] Hp. quiet_next. by apply quiet_send.
Qed.
Lemma quiet_probe_if profile challenge : quiet (λ _, True) (probe_if_supported profile challenge).
Proof. unfold probe_if_supported. quiet_next. apply fine_when, quiet_probe. Qed.
Lemma quiet_signature : quiet (λ _, True) (helper_send_signature cx).
Proof.
  unfold helper_send_signature. eapply fine_bind with (λ _, True); [auto with quiet|]. intros st _.
  eapply fine_bind with (λ o, match o with Some packet => other packet | None => True end).
  { apply fine_peer. unfold secure_ident_signature. destruct (peer_public_key st), (peer_challenge_from st); try done. case_match; [done|].
    eapply safe_bind with (λ p, zlen p ≤ 256).
    - unfold signature_payload. destruct (try_from_u 8 _) eqn:E; [|done]. apply try_from_u_Some in E as [-> E]. cbn [safe]. rewrite zlen_app. change (zlen [_]) with 1. lia.
    - intros p Hp. eapply safe_bind; [apply encode_other; [done|unfold U32_MAX; lia]|]. intros packet Ho. exact Ho. }
  intros [packet|] Hp; [|by apply fine_ret]. eapply fine_bind; [by apply quiet_send|]. intros _ _. quiet_next. by apply fine_ret.
Qed.
#[local] Hint Resolve quiet_probe quiet_probe_if quiet_signature : quiet.
Lemma key_packet_other : safe other (key_payload ← public_key_payload (hc_secure_ident cx); encode_packet OP_EMULEPROT OP_PUBLICKEY key_payload).
Proof.
  eapply safe_bind with (λ p, zlen p ≤ 256).
  - unfold public_key_payload. destruct (try_from_u 8 _) eqn:E; [|done]. apply try_from_u_Some in E as [-> E]. cbn [safe]. rewrite zlen_app. change (zlen [_]) with 1. lia.
  - intros p Hp. apply encode_other; [done|unfold U32_MAX; lia].
Qed.
Lemma quiet_secident payload challenge : is_bytes payload = true → quiet (λ _, True) (helper_secident_state cx payload challenge).
Proof.
  intros Hp. unfold helper_secident_state. eapply fine_decoded; [by apply safe_secident|]. intros [state c] _. quiet_next.
  eapply fine_bind with (λ _, True); [apply fine_when, quiet_reply, key_packet_other|]. intros _ _.
  eapply fine_bind; [apply quiet_signature|]. intros sent _. quiet_next. apply fine_when.
  eapply fine_bind with (λ _, True); [auto with quiet|]. intros _ _. apply quiet_reply, secident_other.
Qed.
Lemma quiet_key payload : is_bytes payload = true → quiet (λ _, True) (helper_public_key cx payload).
Proof.
  intros Hp. unfold helper_public_key. eapply fine_decoded; [by apply safe_public_key|]. intros key _. quiet_next.
  eapply fine_bind; [apply quiet_signature|]. intros _ _. by apply fine_ret.
Qed.
Lemma quiet_kad_send target p : quiet (λ _, True) (helper_kad_send target p).
Proof. intros h w Hh _. unfold helper_kad_send. destruct (h_broken h) as [|[] broken]; done. Qed.
Lemma quiet_firewall contacts ip request : quiet (λ _, True) (helper_reply_with_firewall_udp contacts ip request).
Proof.
  unfold helper_reply_with_firewall_udp. case_match; [by apply fine_ret|]. generalize (List.filter (λ port, negb (port =? 0))
    (if negb (fc_external_udp_port request =? 0) && negb (fc_external_udp_port request =? fc_internal_udp_port request)
     then [fc_internal_udp_port request; fc_external_udp_port request] else [fc_internal_udp_port request])). intros ports.
  generalize (match ip with V4 ip => if existsb (λ c, bool_decide (c_ip c = ip)) contacts then 1 else 0 | V6 _ => 1 end). intros code.
  induction ports as [|port ports IH]; [by apply fine_ret|]. cbn [helper_firewall_replies].
  eapply fine_bind with (λ _, True); [apply fine_when; by apply fine_update|]. intros _ _.
  eapply fine_bind; [apply quiet_kad_send|]. intros _ _. exact IH.
Qed.
Lemma quiet_go_on m : quiet (λ _, True) m → quiet (λ _, True) (go_on m).
Proof. intros Hm. eapply fine_bind; [exact Hm|]. intros _ _. by apply fine_ret. Qed.
Lemma answer_other : safe other (encode_hello_answer (hc_hello_identity cx)).
Proof. eapply safe_bind; [by apply safe_encode_hello_type|]. intros p Hp. cbv beta in Hp. apply encode_other; [done|unfold U32_MAX; lia]. Qed.
Lemma hello_other : safe other (encode_hello_request (hc_hello_identity cx)).
Proof.
  eapply safe_bind; [by apply safe_encode_hello_type|]. intros p Hp. cbv beta in Hp. apply encode_other; [done|].
  rewrite zlen_app. change (zlen [16]) with 1. unfold U32_MAX. lia.
Qed.
Lemma quiet_packet p challenge contacts : is_bytes (tp_payload p) = true → quiet (λ _, True) (handle_firewall_helper_packet cx p challenge contacts).
Proof.
  intros Hp. unfold handle_firewall_helper_packet.
  repeat (case_match; try (by apply fine_ret)); try apply quiet_go_on.
  - eapply fine_decoded; [by apply safe_hello_profile|]. intros profile _. eapply fine_bind; [apply quiet_reply, answer_other|]. intros _ _. apply quiet_probe_if.
  - eapply fine_decoded; [by apply safe_type_profile|]. intros profile _. apply quiet_probe_if.
  - apply quiet_reply. by apply encode_other.
  - by apply quiet_secident.
  - by apply quiet_key.
  - eapply fine_decoded; [by apply safe_fw_check|]. intros request _. apply quiet_firewall.
Qed.

(** The packets that reads deliver are bytes. *)
Definition event_ok (e : helper_event) : Prop := match e with HPacket p _ _ => is_bytes (tp_payload p) = true | _ => True end.
Definition completes (e : helper_event) : Prop := match e with HPacket p _ _ => helper_packet_completes_hello p = true | _ => False end.
Lemma quiet_hello_loop events : Forall event_ok events → quiet (λ done_, done_ = true → Exists completes events) (hello_loop cx events).
Proof.
  induction events as [|e events IH]; intros Hok; [by apply fine_ret|]. apply Forall_cons in Hok as [He Hok].
  destruct e as [p challenge contacts| |[|]]; cbn [hello_loop]; [|by apply fine_ret..|by apply fine_peer].
  eapply fine_bind; [by apply quiet_packet|]. intros more _. destruct more; cbn [negb]; [|by apply fine_ret].
  destruct (helper_packet_completes_hello p) eqn:Hc; [apply fine_ret; intros _; by left|].
  eapply fine_weaken; [by apply IH|]. intros b Hb Ht. right. by apply Hb.
Qed.
Lemma quiet_exchange events : Forall event_ok events → quiet (λ done_, done_ = true → Exists completes events) (drive_firewall_helper_hello_exchange cx events).
Proof. intros Hok. eapply fine_bind; [apply quiet_reply, hello_other|]. intros _ _. by apply quiet_hello_loop. Qed.
Lemma quiet_post events : Forall event_ok events → quiet (λ _, True) (post_loop cx events).
Proof.
  induction events as [|e events IH]; intros Hok; [by apply fine_ret|]. apply Forall_cons in Hok as [He Hok].
  destruct e as [p challenge contacts| |]; cbn [post_loop]; [|by apply fine_ret..].
  eapply fine_bind; [by apply quiet_packet|]. intros more _. destruct more; cbn [negb]; [|by apply fine_ret]. by apply IH.
Qed.
Lemma responses_other payload : is_bytes payload = true → safe (Forall other) (build_hello_responses payload (hc_hello_identity cx)).
Proof.
  intros Hp. unfold build_hello_responses. eapply safe_bind with (λ _, True).
  { unfold is_mule_hello, is_mule_hello_type_payload. repeat safe_step; try done. eapply safe_bind; [by apply safe_type_profile|done]. }
  intros mule _. eapply safe_bind with (Forall other).
  { destruct mule; [by apply Forall_nil|]. eapply safe_bind; [by apply encode_other|]. intros r Hr. by apply Forall_singleton. }
  intros info Hi. eapply safe_bind; [apply answer_other|]. intros answer Ha. apply Forall_app. split; [done|]. by apply Forall_singleton.
Qed.
Lemma quiet_send_all l : Forall other l → quiet (λ _, True) (helper_send_all l).
Proof.
  induction l as [|b l IH]; intros Hl; [by apply fine_ret|]. apply Forall_cons in Hl as [Hb Hl]. cbn [helper_send_all].
  eapply fine_bind; [by apply quiet_send|]. intros _ _. by apply IH.
Qed.
Lemma quiet_callback events : Forall event_ok events → quiet (λ _, True) (callback_peer_loop cx events).
Proof.
  induction events as [|e events IH]; intros Hok; [by apply fine_ret|]. apply Forall_cons in Hok as [He Hok].
  destruct e as [p challenge contacts| |[|]]; cbn [callback_peer_loop]; [|by apply fine_ret..|by apply fine_peer].
  case_match; [|case_match; [apply quiet_reply; by apply encode_other|by apply fine_ret]].
  eapply fine_decoded; [by apply responses_other|]. intros replies Hr. eapply fine_bind; [by apply quiet_send_all|]. intros _ _. by apply IH.
Qed.
Lemma quiet_connect_callback connected events : connected ≠ Panic → Forall event_ok events → quiet (λ _, True) (connect_callback_peer cx connected events).
Proof.
  intros Hc Hok. eapply fine_decoded with (λ _, True); [by destruct connected|]. intros _ _. eapply fine_bind; [apply quiet_reply, hello_other|]. intros _ _. by apply quiet_callback.
Qed.
Lemma quiet_tcp_ack connected : connected ≠ Panic → quiet (λ _, True) (send_kad_firewall_tcp_ack cx connected).
Proof.
  intros Hc. eapply fine_decoded with (λ _, True); [by destruct connected|]. intros _ _. eapply fine_bind; [apply quiet_reply, hello_other|]. intros _ _.
  apply quiet_reply. by apply encode_other.
Qed.
End sends.

(** The write of the request: it fails, or the request is the one packet of its kind. *)
Lemma send_request request h w : fw_requests h = [] →
  let '(h', _, r) := helper_reply (request_packet request) h w in
  match r with
  | Ok _ => ∃ bytes, request_packet request = Ok bytes ∧ fw_requests h' = [bytes]
  | Err _ => fw_requests h' = []
  | Panic => False
  end.
Proof.
  intros Hh. unfold helper_reply, mbind, sm_bind, peer. destruct (request_packet request) as [bytes|e|] eqn:Hr.
  - unfold helper_send. destruct (encode_header _ _ _ _ Hr) as [H0 H5].
    assert (Hadd : ∀ broken, fw_requests (mkHelper (h_ident h) (h_sent h ++ [bytes]) (h_kad h) broken) = [bytes]).
    { intros broken. unfold fw_requests in *. cbn. rewrite List.filter_app, Hh. cbn. unfold is_fw_request. by rewrite H0, H5. }
    destruct (h_broken h) as [|[] broken]; [exists bytes; auto|done|exists bytes; auto].
  - done.
  - pose proof (safe_encode OP_EMULEPROT OP_FWCHECKUDPREQ (fw_check_encode request)) as Hs. unfold request_packet in Hr. rewrite Hr in Hs. by apply Hs.
Qed.

(** A firewall check never panics, whatever the helper sends and whichever reads or
    writes fail. It asks the helper at most once, with the packet of the request, and
    only after the helper has said hello or answered ours; it succeeds only when the
    request was sent. No other packet of this session, of a callback connection or
    of an acknowledgement asks for a check. *)
Lemma firewall_check_asked cx connected request hello_events post_events broken kad :
  identity_ok (hc_hello_identity cx) → connected ≠ Panic → Forall event_ok hello_events → Forall event_ok post_events →
  let start := mkHelper ident_state_default [] kad broken in
  let '(h, _, r) := request_udp_firewall_check cx connected request hello_events post_events start () in
  r ≠ Panic ∧
  (fw_requests h = [] ∨ ∃ bytes, request_packet request = Ok bytes ∧ fw_requests h = [bytes] ∧ Exists completes hello_events) ∧
  (r = Ok () → fw_requests h ≠ []) ∧
  (let '(h', _, r') := connect_callback_peer cx connected hello_events start () in r' ≠ Panic ∧ fw_requests h' = []) ∧
  (let '(h', _, r') := send_kad_firewall_tcp_ack cx connected start () in r' ≠ Panic ∧ fw_requests h' = []).
Proof.
  intros Hi Hc Hh Hp start. assert (Hquiet : ∀ A (m : HM A) Q, fine (λ h, fw_requests h = []) (λ _, True) Q m → let '(h', _, r') := m start () in r' ≠ Panic ∧ fw_requests h' = []).
  { intros A m Q Hm. specialize (Hm start () eq_refl I). destruct (m start ()) as [[h' u] r']. destruct Hm as (Hk & _ & Hs). split; [by destruct r'|done]. }
  unfold request_udp_firewall_check.
  pose proof (quiet_exchange cx [] Hi hello_events Hh start () eq_refl I) as Hex.
  unfold mbind, sm_bind, peer at 1. destruct connected as [[]|e|]; [| |done].
  2:{ split; [done|]. split; [by left|]. split; [done|]. split; [eapply Hquiet, quiet_connect_callback; done|eapply Hquiet, quiet_tcp_ack; done]. }
  destruct (drive_firewall_helper_hello_exchange cx hello_events start ()) as [[h1 []] r1]. destruct Hex as (Hk1 & _ & Hs1).
  assert (Hrest : ∀ h (r : res PeerError ()), r ≠ Panic →
    (fw_requests h = [] ∨ ∃ bytes, request_packet request = Ok bytes ∧ fw_requests h = [bytes] ∧ Exists completes hello_events) → (r = Ok () → fw_requests h ≠ []) →
    r ≠ Panic ∧ (fw_requests h = [] ∨ ∃ bytes, request_packet request = Ok bytes ∧ fw_requests h = [bytes] ∧ Exists completes hello_events) ∧ (r = Ok () → fw_requests h ≠ []) ∧
    (let '(h', _, r') := connect_callback_peer cx (Ok ()) hello_events start () in r' ≠ Panic ∧ fw_requests h' = []) ∧
    (let '(h', _, r') := send_kad_firewall_tcp_ack cx (Ok ()) start () in r' ≠ Panic ∧ fw_requests h' = [])).
  { intros h r H1 H2 H3. split; [done|]. split; [done|]. split; [done|]. split; [eapply Hquiet, quiet_connect_callback; done|eapply Hquiet, quiet_tcp_ack; done]. }
  destruct r1 as [done_|e|]; [|apply Hrest; [done|by left|done]|done]. cbn [safe] in Hs1.
  destruct done_; cbn [negb]; [|apply Hrest; [done|by left|done]]. specialize (Hs1 eq_refl).
  pose proof (send_request request h1 () Hk1) as Hsend. destruct (helper_reply (request_packet request) h1 ()) as [[h2 []] r2].
  destruct r2 as [[]|e|]; [|apply Hrest; [done|by left|done]|done]. destruct Hsend as (bytes & Hb & Hk2).
  pose proof (quiet_post cx [bytes] Hi post_events Hp h2 () Hk2 I) as Hpost. destruct (post_loop cx post_events h2 ()) as [[h3 []] r3].
  destruct Hpost as (Hk3 & _ & Hs3). apply Hrest; [by destruct r3|right; exists bytes; done|by rewrite Hk3].
Qed.

