(* ===== verification/KadHandler.v ===== *)
(** * The Kad packet handler of the agent

    Models [agent/kad_runtime.rs] (greetings), [handle_unsolicited_packet] of
    [agent/kad_unsolicited.rs] as a whole, and the tasks it starts
    ([agent/kad_firewall_runtime.rs]): the answers to peers that check whether they are
    behind a firewall, and the check of our own TCP port. The requests for contacts,
    searches and publishes are those of [Responder]; the node is that of [DhtNode], and
    the state of the checks that of [KadFirewall]. A task is a step when it starts and a
    step when it ends; other steps may come in between. Logging is left out. *)

From S2P Require Import Prelude Net NodeId Wire Tag PacketTypes Packet Contact Bin Zone Table KadStore Responder KadObfuscation Rpc.
From S2P Require Import DhtPublish DhtNode KadFirewall PeerTransport Hello AgentPublish Session ServerTypes FirewallHelper.

(** ** Greetings *)

Definition KADMISCOPTIONS : Z := 0xF2.
Record KadHelloPeerMetadata : Type := mkMetadata {
  km_hello_source_udp_port : option Z;
  km_udp_firewalled : bool;
  km_tcp_firewalled : bool;
  km_requests_hello_res_ack : bool;
}.
Definition metadata_default : KadHelloPeerMetadata := mkMetadata None false false false.
Definition read_u16_tag_value (value : TagValue) : option Z :=
  match value with
  | VU16 port | VU8 port => Some port
  | VU32 port | VUInt port => try_from_u 16 port
  | _ => None
  end.
Definition read_u8_tag_value (value : TagValue) : option Z :=
  match value with
  | VU8 bits => Some bits
  | VU16 bits | VU32 bits | VUInt bits => try_from_u 8 bits
  | _ => None
  end.
Definition metadata_tag (m : KadHelloPeerMetadata) (tag : Tag) : KadHelloPeerMetadata :=
  match tag_name tag with
  | Long _ => m
  | Short name =>
      if name =? SOURCEUPORT then
        mkMetadata (port ← read_u16_tag_value (tag_value tag); if port =? 0 then None else Some port)
          (km_udp_firewalled m) (km_tcp_firewalled m) (km_requests_hello_res_ack m)
      else if name =? KADMISCOPTIONS then
        match read_u8_tag_value (tag_value tag) with
        | None => m
        | Some bits => mkMetadata (km_hello_source_udp_port m) (negb (Z.land bits 0x01 =? 0)) (negb (Z.land bits 0x02 =? 0)) (negb (Z.land bits 0x04 =? 0))
        end
      else m
  end.
Definition parse_kad_hello_metadata (tags : list Tag) : KadHelloPeerMetadata := foldl metadata_tag metadata_default tags.

Definition misc_options (udp_firewalled tcp_firewalled request_ack : bool) : Z :=
  Z.lor (Z.lor (Z.b2z udp_firewalled) (Z.shiftl (Z.b2z tcp_firewalled) 1)) (Z.shiftl (Z.b2z request_ack) 2).
Definition build_kad_hello_response_tags (kad_udp_port : Z) (udp_firewalled tcp_firewalled request_ack : bool) : list Tag :=
  [new_short SOURCEUPORT (VU16 kad_udp_port); new_short KADMISCOPTIONS (VU8 (misc_options udp_firewalled tcp_firewalled request_ack))].
Definition build_kad_hello_request_tags (kad_udp_port : Z) (can_advertise_source_udp_port udp_firewalled tcp_firewalled request_ack : bool) : list Tag :=
  if request_ack || udp_firewalled || tcp_firewalled then [new_short KADMISCOPTIONS (VU8 (misc_options udp_firewalled tcp_firewalled request_ack))]
  else if can_advertise_source_udp_port then [new_short SOURCEUPORT (VU16 kad_udp_port)]
  else [].
Definition should_request_hello_response_ack (peer_version : Z) (receiver_verify_key_valid : bool) (sender_verify_key : option Z) : bool :=
  (8 <=? peer_version) && negb receiver_verify_key_valid && bool_decide (is_Some sender_verify_key).

(** ** The agent *)

(** What the handler works on. The addresses of the two sockets may be unreadable, with
    the text of the error. *)
Record kad_agent : Type := mkAgent {
  ka_dht : DhtNode;
  ka_store : KadLocalStore;
  ka_firewall : KadFirewallState;
  ka_server : Ed2kServerState;
  ka_bind_addr : string + SocketAddr;
  ka_listener : string + SocketAddr;
  ka_user_hash : Ed2kHash;
  ka_obfuscation : bool;
}.
Definition with_dht (n : DhtNode) (a : kad_agent) : kad_agent :=
  mkAgent n (ka_store a) (ka_firewall a) (ka_server a) (ka_bind_addr a) (ka_listener a) (ka_user_hash a) (ka_obfuscation a).
Definition with_store (st : KadLocalStore) (a : kad_agent) : kad_agent :=
  mkAgent (ka_dht a) st (ka_firewall a) (ka_server a) (ka_bind_addr a) (ka_listener a) (ka_user_hash a) (ka_obfuscation a).
Definition with_firewall (f : KadFirewallState) (a : kad_agent) : kad_agent :=
  mkAgent (ka_dht a) (ka_store a) f (ka_server a) (ka_bind_addr a) (ka_listener a) (ka_user_hash a) (ka_obfuscation a).
Definition with_server (s : Ed2kServerState) (a : kad_agent) : kad_agent :=
  mkAgent (ka_dht a) (ka_store a) (ka_firewall a) s (ka_bind_addr a) (ka_listener a) (ka_user_hash a) (ka_obfuscation a).

Inductive HandlerError : Type := HProto (e : ProtoError) | HIo (e : string).
(** The tasks the handler starts. *)
Inductive kad_task : Type :=
| TFirewalled (from : SocketAddr) (tcp_port : Z)
| TModern (from : SocketAddr) (tcp_port : Z) (peer_user_hash : Ed2kHash) (peer_connect_options : Z)
| TCheck (from : SocketAddr) (peer_version : Z).
Inductive handler_effect : Type := HEffect (e : effect) | HSpawn (t : kad_task).

Definition current_tcp_firewalled (listener : string + SocketAddr) (s : Ed2kServerState) : bool :=
  match tcp_firewalled s with
  | Some b => b
  | None => match listener with inr addr => sa_port addr =? 0 | inl _ => true end
  end.
Definition udp_firewalled (f : KadFirewallState) : bool := udp_verified f && negb (udp_open f).
Definition local_addr (addr : string + SocketAddr) : res HandlerError SocketAddr := match addr with inr a => Ok a | inl e => Err (HIo e) end.
Definition build_hello_response (a : kad_agent) (request_ack : bool) : res HandlerError HelloRes :=
  bind_addr ← local_addr (ka_bind_addr a);
  listener ← local_addr (ka_listener a);
  Ok (mkHelloRes (dn_own_id (ka_dht a)) (sa_port listener) KAD_VERSION
    (build_kad_hello_response_tags (sa_port bind_addr) (udp_firewalled (ka_firewall a))
      (current_tcp_firewalled (ka_listener a) (ka_server a)) request_ack)).
Definition build_hello_request (a : kad_agent) (request_ack : bool) : res HandlerError HelloReq :=
  bind_addr ← local_addr (ka_bind_addr a);
  listener ← local_addr (ka_listener a);
  Ok (mkHelloReq (dn_own_id (ka_dht a)) (sa_port listener) KAD_VERSION
    (build_kad_hello_request_tags (sa_port bind_addr) (udp_verified (ka_firewall a) && udp_open (ka_firewall a)) (udp_firewalled (ka_firewall a))
      (current_tcp_firewalled (ka_listener a) (ka_server a)) request_ack)).

(** The contact that a greeting introduces. *)
Definition hello_contact (now : Z) (ip : Ipv4Addr) (port : Z) (node_id : NodeId) (tcp_port version : Z) (udp_key : option Z)
    (m : KadHelloPeerMetadata) : Contact :=
  let c := new_contact now node_id ip (default port (km_hello_source_udp_port m)) tcp_port version in
  mkContact (c_id c) (c_ip c) (c_udp_port c) (c_tcp_port c) (c_kad_version c) (default (c_udp_key c) udp_key) (km_hello_source_udp_port m)
    (km_udp_firewalled m) (km_tcp_firewalled m) (km_requests_hello_res_ack m) (c_verified c) (c_contact_type c) (c_last_seen c) (c_created_at c).
(** [Panic] is a panic of the routing table; its errors are only logged. *)
Definition add_contact_from_hello (n : DhtNode) (from : SocketAddr) (node_id : NodeId) (tcp_port version : Z) (udp_key : option Z)
    (tags : list Tag) (now : Z) : DhtNode * res HandlerError KadHelloPeerMetadata :=
  let m := parse_kad_hello_metadata tags in
  let m := if version <? 8 then mkMetadata (km_hello_source_udp_port m) (km_udp_firewalled m) (km_tcp_firewalled m) false else m in
  match sa_ip from with
  | V6 _ => (n, Ok m)
  | V4 ip =>
      if km_udp_firewalled m then (n, Ok m)
      else
        let '(n, r) := node_add_contact n (hello_contact now ip (sa_port from) node_id tcp_port version udp_key m) in
        (n, match r with Panic => Panic | _ => Ok m end)
  end.
Definition register_sender (from : SocketAddr) (key : option Z) (n : DhtNode) : DhtNode :=
  match key with Some key => set_layer (register_peer_key from key) n | None => n end.

(** ** The handler *)

Definition sends (m : res ProtoError (list effect)) : res HandlerError (list handler_effect) := effects ← map_err HProto m; Ok (map HEffect effects).
Definition responder_of (a : kad_agent) : responder :=
  mkResponder (dn_routing_table (ka_dht a)) (ka_store a) (match ka_bind_addr a with inr b => sa_port b | inl _ => 0 end).

Section handler.
Context (to_lowercase : list Z → list Z).
(** The arms that [Responder] models. *)
Definition handle_as_request (a : kad_agent) (from : SocketAddr) (packet : KadPacket) (now : Z) : kad_agent * res HandlerError (list handler_effect) :=
  match handle_request to_lowercase (responder_of a) from packet now with
  | Some (Ok (r, effects)) => (with_store (rp_store r) a, Ok (map HEffect effects))
  | Some (Err e) => (a, Err (HProto e))
  | Some Panic => (a, Panic)
  | None => (a, Ok [])
  end.
(** The effects come with the state, which keeps what was changed before an error. *)
Definition handle_unsolicited_packet (a : kad_agent) (received : ReceivedKadPacket) (now : Z) : kad_agent * res HandlerError (list handler_effect) :=
  let from := rk_from received in
  let sender_verify_key := rk_sender_verify_key received in
  match rk_packet received with
  | PFirewalledReq req => (a, Ok [HSpawn (TFirewalled from (fw_tcp_port req))])
  | PFirewalled2Req req => (a, Ok [HSpawn (TModern from (f2_tcp_port req) (f2_user_hash req) (f2_connect_options req))])
  | PFirewallUdp packet =>
      match record_firewall_udp_packet (ka_firewall a) (sa_ip from) (fu_error_code packet) (fu_udp_port packet) now with
      | Ok (f, _) => (with_firewall f a, Ok [])
      | _ => (a, Panic)
      end
  | PHelloReq req =>
      let n := register_sender from sender_verify_key (ka_dht a) in
      let '(n, peer_metadata) := add_contact_from_hello n from (hq_node_id req) (hq_tcp_port req) (hq_version req) sender_verify_key (hq_tags req) now in
      let a := with_dht n a in
      (a, _ ← peer_metadata;
          let request_ack := should_request_hello_response_ack (hq_version req) (rk_receiver_verify_key_valid received) sender_verify_key in
          hello_res ← build_hello_response a request_ack;
          sent ← sends (ignore_err (send_packet from (PHelloRes hello_res)));
          Ok (sent ++ [HSpawn (TCheck from (hq_version req))]))
  | PHelloRes res_ =>
      let n := register_sender from sender_verify_key (ka_dht a) in
      let '(n, peer_metadata) := add_contact_from_hello n from (hr_node_id res_) (hr_tcp_port res_) (hr_version res_) sender_verify_key (hr_tags res_) now in
      let a := with_dht n a in
      (a, m ← peer_metadata;
          sent ← (if km_requests_hello_res_ack m && bool_decide (is_Some sender_verify_key) then
                    sends (ignore_err (send_packet from (PHelloResAck (mkHelloResAck (dn_own_id n) []))))
                  else Ok []);
          Ok (sent ++ [HSpawn (TCheck from (hr_version res_))]))
  | PFindBuddyReq _ | PFindBuddyRes _ | PCallbackReq _ | PHelloResAck _ => (a, Ok [])
  | PBootstrapReq =>
      match ka_bind_addr a with
      | inl e => (a, Err (HIo e))
      | inr _ => handle_as_request a from PBootstrapReq now
      end
  | packet => handle_as_request a from packet now
  end.
End handler.

(** ** The tasks *)

Definition send_firewalled_response (from : SocketAddr) : res ProtoError (list effect) :=
  match sa_ip from with
  | V6 _ => Ok []
  | V4 ip => send_packet from (PFirewalledRes (mkFirewalledRes (ip_val ip)))
  end.
(** [spawn_firewalled_response], given whether the connection to the peer was made. *)
Definition firewalled_response (from : SocketAddr) (probe : bool) : res ProtoError (list effect) :=
  match sa_ip from with
  | V6 _ => Ok []
  | V4 _ =>
      sent ← ignore_err (send_firewalled_response from);
      if negb probe then Ok sent
      else more ← ignore_err (send_packet from PFirewalledAckRes); Ok (sent ++ more)
  end.
(** [spawn_modern_firewalled_response]: the packets sent over Kad, and what the connection
    to the peer is given to send, when it is tried. *)
Definition modern_firewalled_response (a : kad_agent) (from : SocketAddr) (tcp_port : Z)
    : res ProtoError (list effect) * option (SocketAddr * Ed2kHelloIdentity) :=
  match sa_ip from with
  | V6 _ => (Ok [], None)
  | V4 ip =>
      (ignore_err (send_firewalled_response from),
       match ka_listener a, ka_bind_addr a with
       | inr listener, inr bind_addr =>
           Some (mkSocketAddr (V4 ip) tcp_port,
             enrich_hello_identity (mkHelloIdentity (ka_user_hash a) 0 (sa_port listener) (sa_port bind_addr) 0 0
               (emule_connect_options (ka_obfuscation a)) false) (ka_server a) (ka_firewall a))
       | _, _ => None
       end)
  end.
(** The acknowledgement itself is the session of [FirewallHelper]. *)
Definition modern_ack (target : SocketAddr) (identity : Ed2kHelloIdentity) (secure : Ed2kSecureIdent) (connected : res PeerError ()) (broken : list bool)
    : list (list Z) * res PeerError () :=
  let '(h, _, r) := send_kad_firewall_tcp_ack (mkHelperContext target identity secure false) connected (mkHelper ident_state_default [] [] broken) () in
  (h_sent h, r).

Section check.
Context (debug : KadPacket → string) (show : NetError → string).
(** [spawn_kad_firewalled_check] up to its request; [tcp_firewalled] was read before. *)
Definition begin_firewalled_check (a : kad_agent) (tcp_firewalled : bool) (from : SocketAddr) (peer_version started_at : Z)
    : KadFirewallState * option KadPacket :=
  let f := ka_firewall a in
  if negb tcp_firewalled then (refresh_tcp_recheck f false started_at, None)
  else
    match sa_ip from with
    | V6 _ => (f, None)
    | V4 _ =>
        let f := refresh_tcp_recheck f true started_at in
        let '(f, begun) := try_begin_tcp_firewall_probe f (sa_ip from) started_at in
        if negb begun then (f, None)
        else
          match ka_listener a with
          | inl error => (record_tcp_firewall_probe_failed f (sa_ip from) ("failed to read local eD2k TCP port: " ++ error), None)
          | inr listener =>
              (f, Some (if 6 <? peer_version
                        then PFirewalled2Req (mkFirewalled2Req (sa_port listener) (ka_user_hash a) (emule_connect_options (ka_obfuscation a)))
                        else PFirewalledReq (mkFirewalledReq (sa_port listener))))
          end
    end.
(** And from its outcome to its end. *)
Definition end_firewalled_check (f : KadFirewallState) (from : SocketAddr) (outcome : NetError + KadPacket) (now : Z) : KadFirewallState :=
  match outcome with
  | inr (PFirewalledRes response) => fst (record_firewalled_response f (sa_ip from) (V4 (ipv4_from_u32 (fr_ip response))) now)
  | inr other => record_tcp_firewall_probe_failed f (sa_ip from) ("unexpected Kad firewalled response " ++ debug other)
  | inl error => record_tcp_firewall_probe_failed f (sa_ip from) (show error)
  end.
End check.

(** ** The agent as a state machine *)

Inductive agent_event : Type :=
| EReceived (received : ReceivedKadPacket) (now : Z)
| ENode (e : node_event)
| EStore (o : store_op)
| EFirewall (o : fw_op)
| ECheckBegin (tcp_firewalled : bool) (from : SocketAddr) (peer_version now : Z)
| ECheckEnd (from : SocketAddr) (outcome : NetError + KadPacket) (now : Z)
| EServer (s : Ed2kServerState).
Section machine.
Context (to_lowercase : list Z → list Z) (debug : KadPacket → string) (show : NetError → string).
(** The agent after an event; [None] when it panicked. An error of the handler is only
    logged. *)
Definition agent_step (a : kad_agent) (e : agent_event) : option kad_agent :=
  match e with
  | EReceived received now =>
      let '(a, r) := handle_unsolicited_packet to_lowercase a received now in
      match r with Panic => None | _ => Some a end
  | ENode e => match node_step (ka_dht a) e with Ok n => Some (with_dht n a) | _ => None end
  | EStore o => Some (with_store (run_store_op to_lowercase (ka_store a) o) a)
  | EFirewall o => (λ f, with_firewall f a) <$> run_fw_op (ka_firewall a) o
  | ECheckBegin tcp_firewalled from version now => Some (with_firewall (fst (begin_firewalled_check a tcp_firewalled from version now)) a)
  | ECheckEnd from outcome now => Some (with_firewall (end_firewalled_check debug show (ka_firewall a) from outcome now) a)
  | EServer s => Some (with_server s a)
  end.
Fixpoint run_agent (a : kad_agent) (es : list agent_event) : option kad_agent :=
  match es with
  | [] => Some a
  | e :: es' => a' ← agent_step a e; run_agent a' es'
  end.
End machine.
Definition agent_new (config : DhtConfig) (drawn_id : NodeId) (drawn_key : Z) (store : KadLocalStoreConfig) (bind_addr listener : string + SocketAddr)
    (user_hash : Ed2kHash) (obfuscation : bool) : kad_agent :=
  mkAgent (node_new config drawn_id drawn_key) (store_new store) firewall_default server_state_default bind_addr listener user_hash obfuscation.

(** ** Specification *)

Record agent_ok (a : kad_agent) : Prop := {
  ao_node : node_ok (ka_dht a);
  ao_config : wf_store_config (st_config (ka_store a));
  ao_store : store_ok (ka_store a);
  ao_firewall : fw_reachable (ka_firewall a);
}.
(** Addresses and packets as they come from the network. *)
Definition wf_addr (a : SocketAddr) : bool := match sa_ip a with V4 ip => wf_ip ip | V6 _ => true end && is_u16 (sa_port a).
Definition wf_received (r : ReceivedKadPacket) : bool :=
  wf_addr (rk_from r) && wf_packet (rk_packet r) && match rk_sender_verify_key r with Some k => is_u32 k | None => true end.
Definition small_op (o : store_op) : bool :=
  match o with
  | PublishKeyword _ es _ => forallb (λ e, small_tags (pe_tags e)) es
  | PublishSource _ _ _ _ tags _ | PublishNotes _ _ _ tags _ => small_tags tags
  | _ => true
  end.
Definition wf_agent_event (e : agent_event) : bool :=
  match e with
  | EReceived received _ => wf_received received
  | ENode e => wf_event e
  | EStore _ | EFirewall _ | ECheckBegin _ _ _ _ | ECheckEnd _ _ _ | EServer _ => true
  end.
(** A publish, as it is received or as a task makes it, whose entries hold at most 254
    tags that can all be encoded; and a search over a cache with a larger entry. *)
Definition small_event (e : agent_event) : bool :=
  match e with EReceived received _ => small_request (rk_packet received) | EStore o => small_op o | _ => true end.
Definition overfull_search (a : kad_agent) (p : KadPacket) : Prop := searches p = true ∧ ¬ store_small (ka_store a).
(** What a packet may cause: packets back to its sender, and tasks about it. *)
Definition task_peer (t : kad_task) : SocketAddr := match t with TFirewalled from _ | TModern from _ _ _ | TCheck from _ => from end.
Definition about (from : SocketAddr) (e : handler_effect) : Prop :=
  match e with HEffect e => Responder.goes_to from e ∧ Responder.sendable e | HSpawn t => task_peer t = from end.
Definition greets (p : KadPacket) : bool := match p with PHelloReq _ | PHelloRes _ => true | _ => false end.
Definition reports_udp (p : KadPacket) : bool := match p with PFirewallUdp _ => true | _ => false end.
(** The packets whose answer needs the addresses of the sockets. *)
Definition address_missing (a : kad_agent) (p : KadPacket) : Prop :=
  match p with
  | PHelloReq _ => is_ok (local_addr (ka_bind_addr a)) && is_ok (local_addr (ka_listener a)) = false
  | PBootstrapReq => is_ok (local_addr (ka_bind_addr a)) = false
  | _ => False
  end.

(** ** Lemmas *)

Lemma metadata_tag_u16 m tag : wf_Tag tag = true → (∀ p, km_hello_source_udp_port m = Some p → is_u16 p = true) →
  ∀ p, km_hello_source_udp_port (metadata_tag m tag) = Some p → is_u16 p = true.
Proof.
  intros [_ Hv]%andb_true_iff Hm p. unfold metadata_tag. destruct (tag_name tag) as [name|]; [|apply Hm].
  destruct (name =? SOURCEUPORT); [cbn|destruct (name =? KADMISCOPTIONS); [destruct (read_u8_tag_value _); apply Hm|apply Hm]].
  intros (q & Hq & Hp)%bind_Some. destruct (q =? 0); [done|]. injection Hp as <-. revert Hq Hv.
  destruct (tag_value tag); cbn; try done; try (intros [= <-] Hv; first [exact Hv|apply is_u8_spec in Hv; apply is_u16_spec; lia]);
    intros [-> Hb]%try_from_u_Some _; by apply is_u_spec.
Qed.
Lemma metadata_u16 tags p : wf_tags tags = true → km_hello_source_udp_port (parse_kad_hello_metadata tags) = Some p → is_u16 p = true.
Proof.
  intros Hw. unfold parse_kad_hello_metadata. assert (H0 : ∀ q, km_hello_source_udp_port metadata_default = Some q → is_u16 q = true) by done. revert H0.
  generalize metadata_default. revert p. induction tags as [|t tags IH]; intros p m Hm; cbn [foldl]; [apply Hm|].
  cbn in Hw. apply andb_true_iff in Hw as [Ht Hw]. apply (IH Hw). by apply metadata_tag_u16.
Qed.

(** The metadata that a greeting of version 8 or later gives. *)
Definition greeting_metadata (version : Z) (tags : list Tag) : KadHelloPeerMetadata :=
  let m := parse_kad_hello_metadata tags in
  if version <? 8 then mkMetadata (km_hello_source_udp_port m) (km_udp_firewalled m) (km_tcp_firewalled m) false else m.
Lemma hello_contact_wf now ip port id tcp version key tags : wf_ip ip = true → is_u16 port = true → wf_NodeId id = true → is_u16 tcp = true →
  is_u8 version = true → wf_tags tags = true → match key with Some k => is_u32 k | None => true end = true →
  wf_contact (hello_contact now ip port id tcp version key (greeting_metadata version tags)) = true.
Proof.
  intros Hip Hport Hid Htcp Hv Ht Hk. unfold wf_contact. cbn [hello_contact new_contact c_id c_ip c_udp_port c_tcp_port c_kad_version c_udp_key].
  assert (Hsame : km_hello_source_udp_port (greeting_metadata version tags) = km_hello_source_udp_port (parse_kad_hello_metadata tags)) by
    (unfold greeting_metadata; by destruct (version <? 8)). rewrite Hsame, !andb_true_iff. repeat split; try done; [|by destruct key].
  destruct (km_hello_source_udp_port (parse_kad_hello_metadata tags)) as [p|] eqn:Hp; [|done]. by eapply metadata_u16.
Qed.
Lemma node_add_no_panic n c : node_ok n → wf_contact c = true → node_ok (fst (node_add_contact n c)) ∧ snd (node_add_contact n c) ≠ Panic.
Proof.
  intros Hn Hc. pose proof (node_add_spec n c Hn Hc) as H. destruct (node_add_contact n c) as [n' r]. destruct H as (Hok & -> & _). split; [done|].
  destruct (add_contact_spec (dn_routing_table n) (keyed n c) (no_table n Hn) (wf_keyed n c Hn Hc)) as [_ Hpost]. cbn.
  by destruct (snd (add_contact _ _)) as [[]|e|].
Qed.
Lemma register_sender_ok from key n : match key with Some k => is_u32 k | None => true end = true → node_ok n → node_ok (register_sender from key n).
Proof. destruct key; [apply register_key_ok|done]. Qed.
Lemma add_hello_ok n from id tcp version key tags now : node_ok n → wf_addr from = true → wf_NodeId id = true → is_u16 tcp = true → is_u8 version = true →
  wf_tags tags = true → match key with Some k => is_u32 k | None => true end = true →
  let '(n', r) := add_contact_from_hello n from id tcp version key tags now in node_ok n' ∧ r = Ok (greeting_metadata version tags).
Proof.
  intros Hn [Hip Hport]%andb_true_iff Hid Htcp Hv Ht Hk. unfold add_contact_from_hello. fold (greeting_metadata version tags).
  destruct (sa_ip from) as [ip|ip6]; [|done]. destruct (km_udp_firewalled (greeting_metadata version tags)); [done|].
  destruct (node_add_no_panic n (hello_contact now ip (sa_port from) id tcp version key (greeting_metadata version tags))) as [H1 H2];
    [done|by apply hello_contact_wf|]. destruct (node_add_contact n _) as [n' r]. split; [done|]. by destruct r.
Qed.
Lemma sends_ok from m : (∃ sent, m = Ok sent ∧ effects_ok from sent) → ∃ sent, sends m = Ok sent ∧ Forall (about from) sent.
Proof. intros (sent & -> & Hs). exists (map HEffect sent). split; [done|]. by apply Forall_fmap. Qed.
Lemma ignored_ok from p : packet_fits p = true → ∃ sent, ignore_err (send_packet from p) = Ok sent ∧ effects_ok from sent.
Proof. intros Hp. destruct (send_one_ok from p Hp) as (sent & -> & Hs). by exists sent. Qed.

(** What one packet does to a sound agent. *)
Definition handled (a : kad_agent) (from : SocketAddr) (p : KadPacket) (out : kad_agent * res HandlerError (list handler_effect)) : Prop :=
  agent_ok (fst out) ∧
  (match snd out with Ok effects => Forall (about from) effects | Err _ => address_missing a p | Panic => overfull_search a p end) ∧
  (greets p = false → ka_dht (fst out) = ka_dht a) ∧ (reports_udp p = false → ka_firewall (fst out) = ka_firewall a) ∧
  (greets p || reports_udp p = true → ka_store (fst out) = ka_store a) ∧
  (small_request p = true → store_small (ka_store a) → store_small (ka_store (fst out))).
Lemma agent_ok_dht n a : node_ok n → agent_ok a → agent_ok (with_dht n a).
Proof. by intros Hn []. Qed.
Lemma agent_ok_store st a : st_config st = st_config (ka_store a) → store_ok st → agent_ok a → agent_ok (with_store st a).
Proof. intros Hc H1 []. split; try done. cbn. by rewrite Hc. Qed.
Lemma agent_ok_firewall f a : fw_reachable f → agent_ok a → agent_ok (with_firewall f a).
Proof. by intros Hn []. Qed.
Lemma fw_op_reachable f o f' : fw_reachable f → run_fw_op f o = Some f' → fw_reachable f'.
Proof. intros Hf Ho. eapply rtc_r; [exact Hf|]. by econstructor. Qed.

Lemma handled_nothing a from p effects : agent_ok a → Forall (about from) effects → handled a from p (a, Ok effects).
Proof. by split; [|split]. Qed.
Lemma handle_as_request_ok to_lowercase a from p now : agent_ok a → wf_packet p = true → greets p || reports_udp p = false →
  handled a from p (handle_as_request to_lowercase a from p now).
Proof.
  intros Ha Hp Hg. apply orb_false_iff in Hg as [Hg Hr]. unfold handle_as_request.
  destruct (handle_request to_lowercase (responder_of a) from p now) as [m|] eqn:Hm; [|by apply handled_nothing].
  destruct (handle_request_any to_lowercase (responder_of a) from p now m Hp Hm) as [(sent & -> & Hsent)|(-> & Hs)].
  - destruct (store_after_sound to_lowercase (responder_of a) from p now (ao_config a Ha) (ao_store a Ha)) as (H1 & H2).
    split; [by apply agent_ok_store|]. split; [by apply Forall_fmap|]. cbn -[small_request]. rewrite Hg, Hr. repeat (split; [done|]).
    intros Hsmall Hst. by apply store_after_small.
  - split; [done|]. split; [done|]. cbn -[small_request]. by rewrite Hg, Hr.
Qed.

Lemma hello_tags_fit port b1 b2 b3 : is_u16 port = true → wf_tags (build_kad_hello_response_tags port b1 b2 b3) = true ∧
  fits_tags8 (build_kad_hello_response_tags port b1 b2 b3) = true.
Proof. intros Hp. split; [|done]. cbn [build_kad_hello_response_tags wf_tags forallb]. unfold wf_Tag. cbn [tag_name tag_value new_short wf_TagName wf_TagValue]. rewrite Hp. by destruct b1, b2, b3. Qed.

Section handler_ok.
Context (to_lowercase : list Z → list Z) (a : kad_agent) (from : SocketAddr) (key : option Z) (valid obfuscated : bool) (now : Z).
Hypothesis (Ha : agent_ok a) (Hfrom : wf_addr from = true) (Hkey : match key with Some k => is_u32 k | None => true end = true).
Local Abbreviation received p := (mkReceived p from obfuscated key valid).

Lemma register_sender_own k n : dn_own_id (register_sender from k n) = dn_own_id n.
Proof. by destruct k. Qed.
Lemma hello_request_ok req : wf_packet (PHelloReq req) = true → handled a from (PHelloReq req) (handle_unsolicited_packet to_lowercase a (received (PHelloReq req)) now).
Proof.
  intros Hw. cbn [wf_packet] in Hw. bool_hyps. unfold handle_unsolicited_packet. cbn [rk_packet rk_from rk_sender_verify_key rk_receiver_verify_key_valid].
  pose proof (add_hello_ok (register_sender from key (ka_dht a)) from (hq_node_id req) (hq_tcp_port req) (hq_version req) key (hq_tags req) now
    ltac:(by apply register_sender_ok; [|apply Ha]) Hfrom ltac:(done) ltac:(done) ltac:(done) ltac:(done) Hkey) as Hadd.
  destruct (add_contact_from_hello _ _ _ _ _ _ _ _) as [n r]. destruct Hadd as [Hn ->]. cbn [mbind res_bind].
  split; [by apply agent_ok_dht|]. split; [|done]. cbn [snd].
  set (ack := should_request_hello_response_ack _ _ _). unfold build_hello_response. cbn [with_dht ka_bind_addr ka_listener].
  destruct (ka_bind_addr a) as [e|bind] eqn:Hb; [cbn; by rewrite Hb|]. destruct (ka_listener a) as [e|listener] eqn:Hl; [cbn; by rewrite Hb, Hl|].
  cbn [local_addr mbind res_bind]. match goal with |- context [PHelloRes ?x] => destruct (sends_ok from _ (ignored_ok from (PHelloRes x) eq_refl)) as (sent & -> & Hs) end.
  cbn. apply Forall_app. split; [done|]. by repeat constructor.
Qed.
Lemma hello_response_ok res_ : wf_packet (PHelloRes res_) = true → handled a from (PHelloRes res_) (handle_unsolicited_packet to_lowercase a (received (PHelloRes res_)) now).
Proof.
  intros Hw. cbn [wf_packet] in Hw. bool_hyps. unfold handle_unsolicited_packet. cbn [rk_packet rk_from rk_sender_verify_key rk_receiver_verify_key_valid].
  pose proof (add_hello_ok (register_sender from key (ka_dht a)) from (hr_node_id res_) (hr_tcp_port res_) (hr_version res_) key (hr_tags res_) now
    ltac:(by apply register_sender_ok; [|apply Ha]) Hfrom ltac:(done) ltac:(done) ltac:(done) ltac:(done) Hkey) as Hadd.
  destruct (add_contact_from_hello _ _ _ _ _ _ _ _) as [n r]. destruct Hadd as [Hn ->]. cbn [mbind res_bind].
  split; [by apply agent_ok_dht|]. split; [|done]. cbn [snd]. destruct (km_requests_hello_res_ack _ && _); [|cbn; by repeat constructor].
  destruct (sends_ok from _ (ignored_ok from (PHelloResAck (mkHelloResAck (dn_own_id n) [])) eq_refl)) as (sent & -> & Hs).
  cbn. apply Forall_app. split; [done|]. by repeat constructor.
Qed.
Lemma handle_ok p : wf_packet p = true → handled a from p (handle_unsolicited_packet to_lowercase a (received p) now).
Proof.
  intros Hp. destruct p as [| | | | | | | | | | | | | | | | | | | |packet| | | | | |] eqn:E; try (by apply handle_as_request_ok); try (by apply handled_nothing; [|repeat constructor]);
    [| | |].
  - unfold handle_unsolicited_packet. cbn [rk_packet]. destruct (ka_bind_addr a) as [e|] eqn:Hb; [|by apply handle_as_request_ok].
    split; [done|]. split; [|done]. cbn. by rewrite Hb.
  - by apply hello_request_ok.
  - by apply hello_response_ok.
  - unfold handle_unsolicited_packet. cbn [rk_packet rk_from].
    destruct (run_fw_op_total (ka_firewall a) (OUdpPacket (sa_ip from) (fu_error_code packet) (fu_udp_port packet) now)) as [f Hf]. pose proof Hf as Hf'. cbn in Hf.
    destruct (record_firewall_udp_packet _ _ _ _ _) as [[f' o]|e|]; [|done..]. injection Hf as ->.
    split; [|split; [constructor|done]]. apply agent_ok_firewall; [|done]. by eapply fw_op_reachable; [apply Ha|].
Qed.
End handler_ok.

Lemma begin_check_reachable a b from version t : fw_reachable (ka_firewall a) → fw_reachable (fst (begin_firewalled_check a b from version t)).
Proof.
  intros Hf. unfold begin_firewalled_check. destruct b; cbn [negb]; [|by apply (fw_op_reachable _ (ORefreshTcp false t) _ Hf)].
  destruct (sa_ip from) as [ip|ip6]; [|done].
  assert (H1 : fw_reachable (refresh_tcp_recheck (ka_firewall a) true t)) by by apply (fw_op_reachable _ (ORefreshTcp true t) _ Hf).
  pose proof (fw_op_reachable _ (OProbe (V4 ip) t) _ H1 eq_refl) as H2. cbn in H2.
  destruct (try_begin_tcp_firewall_probe _ _ _) as [f begun]. cbn [fst] in H2. destruct begun; [|done]. cbn [negb].
  destruct (ka_listener a) as [e|listener]; [|done]. by eapply (fw_op_reachable f (OProbeFailed (V4 ip) _) _ H2).
Qed.
Lemma end_check_reachable debug show f from outcome t : fw_reachable f → fw_reachable (end_firewalled_check debug show f from outcome t).
Proof.
  intros Hf. unfold end_firewalled_check.
  assert (Hfail : ∀ e, fw_reachable (record_tcp_firewall_probe_failed f (sa_ip from) e)) by (intros e; by apply (fw_op_reachable f (OProbeFailed (sa_ip from) e) _ Hf)).
  destruct outcome as [e|p]; [done|]. destruct p; try done. by eapply (fw_op_reachable f (OResponse (sa_ip from) _ t) _ Hf).
Qed.
Lemma agent_step_ok to_lowercase debug show a e : agent_ok a → wf_agent_event e = true →
  match agent_step to_lowercase debug show a e with
  | Some a' => agent_ok a' ∧ (small_event e = true → store_small (ka_store a) → store_small (ka_store a'))
  | None => ∃ received now, e = EReceived received now ∧ overfull_search a (rk_packet received)
  end.
Proof.
  intros Ha He. destruct e as [[p from o k v] now|e|o|o|b from version t|from outcome t|s]; cbn [wf_agent_event] in He; cbn [agent_step].
  - unfold wf_received in He. cbn [rk_from rk_packet rk_sender_verify_key] in He. bool_hyps.
    destruct (handle_ok to_lowercase a from k v o now) with (p := p) as (Hok & Hr & _ & _ & _ & Hsm); [done..|].
    destruct (handle_unsolicited_packet _ _ _ _) as [a' r]. cbn [fst snd] in Hok, Hr, Hsm. destruct r; [done|done|]. by eexists _, _.
  - destruct (node_step_ok (ka_dht a) e) as (n & -> & Hn & _); [apply Ha|done|]. split; [by apply agent_ok_dht|done].
  - destruct (run_store_op_ok to_lowercase (ka_store a) o (ao_config a Ha) (ao_store a Ha)) as [H1 H2]. split; [by apply agent_ok_store|].
    intros Hs Hsm. by apply search_keeps_small.
  - destruct (run_fw_op_total (ka_firewall a) o) as [f Hf]. rewrite Hf. split; [|done]. apply agent_ok_firewall; [|done].
    by eapply fw_op_reachable; [apply Ha|].
  - split; [|done]. apply agent_ok_firewall; [|done]. apply begin_check_reachable, Ha.
  - split; [|done]. apply agent_ok_firewall; [|done]. apply end_check_reachable, Ha.
  - split; [by destruct Ha|done].
Qed.
Lemma run_agent_ok to_lowercase debug show es a : agent_ok a → forallb wf_agent_event es = true →
  match run_agent to_lowercase debug show a es with
  | Some a' => agent_ok a' ∧ (forallb small_event es = true → store_small (ka_store a) → store_small (ka_store a'))
  | None => ∃ es1 received now es2 a1, es = es1 ++ EReceived received now :: es2 ∧ run_agent to_lowercase debug show a es1 = Some a1 ∧
      overfull_search a1 (rk_packet received) ∧ (forallb small_event es1 = true → store_small (ka_store a) → store_small (ka_store a1))
  end.
Proof.
  revert a. induction es as [|e es IH]; intros a Ha He; [done|]. cbn [forallb] in He |- *. apply andb_true_iff in He as [He Hes]. cbn [run_agent].
  pose proof (agent_step_ok to_lowercase debug show a e Ha He) as Hstep. destruct (agent_step _ _ _ a e) as [a'|] eqn:E; cbn [mbind option_bind].
  - destruct Hstep as [Ha' Hsm]. specialize (IH a' Ha' Hes). destruct (run_agent _ _ _ a' es) as [a2|].
    + destruct IH as [? IH]. split; [done|]. intros [H1 H2]%andb_true_iff. auto.
    + destruct IH as (es1 & received & now & es2 & a1 & -> & Hrun & Ho & IH). exists (e :: es1), received, now, es2, a1. split; [done|].
      cbn [run_agent forallb]. rewrite E. split; [done|]. split; [done|]. intros [H1 H2]%andb_true_iff. auto.
  - destruct Hstep as (received & now & -> & Ho). exists [], received, now, es, a. repeat (split; [done|]). done.
Qed.
Lemma agent_new_ok config id key store bind listener hash obf : wf_NodeId (dc_node_id config) = true → wf_NodeId id = true → wf_store_config store →
  agent_ok (agent_new config id key store bind listener hash obf).
Proof. intros Hc Hd Hs. split; cbn; [by apply node_new_ok|done|by apply store_new_ok|constructor]. Qed.

(** ** Correctness *)


Definition sample_agent : kad_agent :=
  agent_new dht_config_default (replicate 16 1) 5 (from_kad_config true 86400 18000 86400 10 10 10) (inr (mkSocketAddr (V4 (0, 0, 0, 0)) 4672))
    (inr (mkSocketAddr (V4 (0, 0, 0, 0)) 4662)) (replicate 16 7) true.
Definition greeter : SocketAddr := mkSocketAddr (V4 (90, 1, 2, 3)) 4000.
Definition sample_greeting : ReceivedKadPacket :=
  mkReceived (PHelloReq (mkHelloReq (replicate 16 9) 4662 9 [new_short SOURCEUPORT (VU16 4672)])) greeter false (Some 77) false.

(** ** Two agents that greet *)

Definition tcp_firewalled_of (a : kad_agent) : bool := current_tcp_firewalled (ka_listener a) (ka_server a).
Definition nonzero (port : Z) : option Z := if port =? 0 then None else Some port.
(** The port a request names: only when the agent knows that it is reachable. *)
Definition advertised (a : kad_agent) (port : Z) : option Z :=
  if udp_verified (ka_firewall a) && udp_open (ka_firewall a) && negb (tcp_firewalled_of a) then nonzero port else None.
(** A node that was introduced to a contact. One behind a UDP firewall is left out.
    Of another the network layer knows the identity and the version, and the table
    took it in, changed the entry that it has of it, or refused it: an unknown contact
    that is accepted is entered as it introduced itself; of a known one the
    address, ports, version and key are brought up to date, and what the entry says
    about firewalls stays as it was; and a refusal, for a reason that holds of the
    table ([add_contact_post]), changes nobody. *)
Definition introduced (n n' : DhtNode) (c : Contact) : Prop :=
  if c_udp_firewalled c then n' = n
  else
    let k := keyed n c in
    let r := snd (add_contact (dn_routing_table n) k) in
    same_setup n n' ∧ peer_of (dn_layer n') (addr_from_contact c) = mkPeerCrypto (Some (c_id c)) (Some (c_kad_version c)) ∧
    add_contact_post (dn_routing_table n) k (dn_routing_table n') r ∧
    match r with
    | Ok _ =>
        (c_id c ∉ contact_ids n → k ∈ contacts (dn_routing_table n') ∧ c_tcp_firewalled k = c_tcp_firewalled c ∧ addr_from_contact k = addr_from_contact c) ∧
        (∀ e, e ∈ contacts (dn_routing_table n) → c_id e = c_id c → update_contact e k ∈ contacts (dn_routing_table n'))
    | _ => contacts (dn_routing_table n') ≡ₚ contacts (dn_routing_table n)
    end.
Definition travels (windows_1252 : list Z → list Z) (zlib_decode : list Z → option (list Z)) (p : KadPacket) : Prop :=
  ∃ bytes, encode p = Ok bytes ∧ decode windows_1252 zlib_decode bytes = Ok p.

Lemma parse_response_tags port u t r : parse_kad_hello_metadata (build_kad_hello_response_tags port u t r) = mkMetadata (nonzero port) u t r.
Proof. unfold nonzero. destruct u, t, r; cbn -[Z.eqb]; by destruct (port =? 0). Qed.
Lemma parse_request_tags port adv u t : parse_kad_hello_metadata (build_kad_hello_request_tags port adv u t false) =
  mkMetadata (if adv && negb u && negb t then nonzero port else None) u t false.
Proof. unfold nonzero. destruct adv, u, t; cbn -[Z.eqb]; try done; by destruct (port =? 0). Qed.
Lemma wf_short_tag name v : is_u8 name = true → wf_TagValue v = true → wf_Tag (new_short name v) = true.
Proof. intros H1 H2. unfold wf_Tag. cbn [tag_name tag_value new_short wf_TagName]. by rewrite H1, H2. Qed.
Lemma request_tags_wf port adv u t r : is_u16 port = true → wf_tags (build_kad_hello_request_tags port adv u t r) = true.
Proof.
  intros Hp. unfold build_kad_hello_request_tags. case_match; [|case_match; [|done]]; unfold wf_tags; cbn [forallb]; rewrite wf_short_tag; try done. by destruct u, t, r.
Qed.
Lemma request_tags_normal port adv u t r : map normalize_tag (build_kad_hello_request_tags port adv u t r) = build_kad_hello_request_tags port adv u t r.
Proof. unfold build_kad_hello_request_tags. by repeat case_match. Qed.
Lemma request_tags_fit port adv u t r : fits_tags8 (build_kad_hello_request_tags port adv u t r) = true.
Proof. unfold build_kad_hello_request_tags. by repeat case_match. Qed.
Lemma packet_travels w z p : wf_packet p = true → packet_fits p = true → normalize_packet p = p → travels w z p.
Proof.
  intros Hw Hf Hn. pose proof (encode_total p) as Ht. rewrite Hf in Ht. destruct Ht as [bytes Hb]. exists bytes. split; [done|].
  rewrite (decode_encode w z p bytes Hw Hb). by rewrite Hn.
Qed.
Lemma introduced_spec n from ip port id tcp version key tags now : node_ok n → from = mkSocketAddr (V4 ip) port → wf_addr from = true → wf_NodeId id = true →
  is_u16 tcp = true → is_u8 version = true → wf_tags tags = true → match key with Some k => is_u32 k | None => true end = true →
  let '(n', r) := add_contact_from_hello n from id tcp version key tags now in
  r = Ok (greeting_metadata version tags) ∧ dn_own_id n' = dn_own_id n ∧
  introduced n n' (hello_contact now ip port id tcp version key (greeting_metadata version tags)).
Proof.
  intros Hn -> Hfrom Hid Htcp Hv Ht Hk. pose proof Hfrom as [Hip Hport]%andb_true_iff.
  assert (Hw := hello_contact_wf now ip port id tcp version key tags Hip Hport Hid Htcp Hv Ht Hk).
  unfold add_contact_from_hello, introduced. cbn [sa_ip sa_port]. fold (greeting_metadata version tags). set (c := hello_contact _ _ _ _ _ _ _ _) in *.
  change (km_udp_firewalled (greeting_metadata version tags)) with (c_udp_firewalled c). destruct (c_udp_firewalled c); [done|].
  pose proof (node_add_spec n c Hn Hw) as Ha. pose proof (node_add_no_panic n c Hn Hw) as [_ Hp].
  destruct (node_add_step_ok n c Hn Hw) as (n1 & Hstep & _ & Hset & _). cbn [node_step] in Hstep.
  destruct (node_add_contact n c) as [n' r] eqn:E. cbn [snd] in Hp. destruct Ha as (Hok & -> & Htab & Hpeer).
  assert (n1 = n') as -> by (destruct (to_dht _); by inversion Hstep). split; [by destruct (to_dht _)|]. split; [apply Hset|].
  destruct (add_contact_spec (dn_routing_table n) (keyed n c) (no_table n Hn) (wf_keyed n c Hn Hw)) as [_ Hpost]. rewrite <- Htab in Hpost.
  repeat (split; [done|]). pose proof (keyed_id n c) as Hkid. destruct (snd (add_contact _ _)) as [[]|e|]; [|by destruct Hpost|done].
  assert (Hnd : NoDup (c_id <$> contacts (dn_routing_table n))) by (eapply zone_NoDup, ok_zone, Hn).
  split.
  - intros Hnew. destruct Hpost as [(_ & -> & _)|(e & rest & Hperm & He & _)].
    + split; [by left|]. unfold keyed. repeat case_match; done.
    + destruct Hnew. unfold contact_ids. rewrite Hperm, fmap_cons, He, Hkid. by left.
  - intros e He Hid'. destruct Hpost as [(Hnew & _)|(e' & rest & Hperm & He' & ->)].
    + destruct Hnew. rewrite Hkid, <- Hid'. by apply list_elem_of_fmap_2.
    + assert (e = e') as ->; [|by left]. apply (Traversal.NoDup_unique c_id (contacts (dn_routing_table n))); try done; [rewrite Hperm; by left|congruence].
Qed.

(** What one agent's greeting tells the other: the contact it is introduced as. *)
Definition greeted (now : Z) (a : kad_agent) (ip : Ipv4Addr) (port : Z) (tcp_port : Z) (key source_port : option Z) (ack : bool) : Contact :=
  hello_contact now ip port (dn_own_id (ka_dht a)) tcp_port KAD_VERSION key
    (mkMetadata source_port (udp_firewalled (ka_firewall a)) (tcp_firewalled_of a) ack).
Definition typed_key (k : option Z) : bool := match k with Some k => is_u32 k | None => true end.

Lemma answer_greeting to_lowercase b from ip port req bind listener key valid obf now :
  agent_ok b → from = mkSocketAddr (V4 ip) port → wf_addr from = true → typed_key key = true → wf_packet (PHelloReq req) = true → 8 ≤ hq_version req →
  ka_bind_addr b = inr bind → ka_listener b = inr listener →
  let '(b', r) := handle_unsolicited_packet to_lowercase b (mkReceived (PHelloReq req) from obf key valid) now in
  r = Ok [HEffect (SendPacket from (PHelloRes (mkHelloRes (dn_own_id (ka_dht b)) (sa_port listener) KAD_VERSION
        (build_kad_hello_response_tags (sa_port bind) (udp_firewalled (ka_firewall b)) (tcp_firewalled_of b) (negb valid && bool_decide (is_Some key))))));
      HSpawn (TCheck from (hq_version req))] ∧
  introduced (register_sender from key (ka_dht b)) (ka_dht b')
    (hello_contact now ip port (hq_node_id req) (hq_tcp_port req) (hq_version req) key (parse_kad_hello_metadata (hq_tags req))).
Proof.
  intros Hb Hfrom Hwf Hkey Hw Hv Hbind Hlisten. cbn [wf_packet] in Hw. bool_hyps. unfold handle_unsolicited_packet.
  cbn [rk_packet rk_from rk_sender_verify_key rk_receiver_verify_key_valid].
  pose proof (introduced_spec (register_sender from key (ka_dht b)) from ip port (hq_node_id req) (hq_tcp_port req) (hq_version req) key (hq_tags req) now
    ltac:(by apply register_sender_ok; [|apply Hb]) Hfrom Hwf ltac:(done) ltac:(done) ltac:(done) ltac:(done) Hkey) as Hadd.
  assert (Hm : greeting_metadata (hq_version req) (hq_tags req) = parse_kad_hello_metadata (hq_tags req)).
  { unfold greeting_metadata. by rewrite (proj2 (Z.ltb_ge _ _)). }
  rewrite Hm in Hadd. destruct (add_contact_from_hello _ _ _ _ _ _ _ _) as [n r]. destruct Hadd as (-> & Hown & Hintro). split; [|done].
  unfold build_hello_response, should_request_hello_response_ack. cbn [with_dht ka_bind_addr ka_listener ka_dht ka_firewall ka_server mbind res_bind].
  rewrite Hbind, Hlisten, Hown, register_sender_own. cbn [local_addr mbind res_bind]. rewrite (proj2 (Z.leb_le _ _)) by done. cbn [andb].
  set (p := PHelloRes _). destruct (send_packet_ok from p) as [-> _]; [done|]. cbn. unfold tcp_firewalled_of. by rewrite Hlisten.
Qed.
Lemma receive_greeting to_lowercase a from ip port ans key valid obf now :
  agent_ok a → from = mkSocketAddr (V4 ip) port → wf_addr from = true → typed_key key = true → wf_packet (PHelloRes ans) = true → 8 ≤ hr_version ans →
  let m := parse_kad_hello_metadata (hr_tags ans) in
  let '(a', r) := handle_unsolicited_packet to_lowercase a (mkReceived (PHelloRes ans) from obf key valid) now in
  r = Ok ((if km_requests_hello_res_ack m && bool_decide (is_Some key)
           then [HEffect (SendPacket from (PHelloResAck (mkHelloResAck (dn_own_id (ka_dht a)) [])))] else []) ++ [HSpawn (TCheck from (hr_version ans))]) ∧
  introduced (register_sender from key (ka_dht a)) (ka_dht a') (hello_contact now ip port (hr_node_id ans) (hr_tcp_port ans) (hr_version ans) key m).
Proof.
  intros Hb Hfrom Hwf Hkey Hw Hv m. cbn [wf_packet] in Hw. bool_hyps. unfold handle_unsolicited_packet.
  cbn [rk_packet rk_from rk_sender_verify_key rk_receiver_verify_key_valid].
  pose proof (introduced_spec (register_sender from key (ka_dht a)) from ip port (hr_node_id ans) (hr_tcp_port ans) (hr_version ans) key (hr_tags ans) now
    ltac:(by apply register_sender_ok; [|apply Hb]) Hfrom Hwf ltac:(done) ltac:(done) ltac:(done) ltac:(done) Hkey) as Hadd.
  assert (Hm : greeting_metadata (hr_version ans) (hr_tags ans) = m).
  { unfold greeting_metadata. by rewrite (proj2 (Z.ltb_ge _ _)). }
  rewrite Hm in Hadd. destruct (add_contact_from_hello _ _ _ _ _ _ _ _) as [n r]. destruct Hadd as (-> & Hown & Hintro). split; [|done].
  cbn [mbind res_bind]. destruct (km_requests_hello_res_ack m && _); [|done]. rewrite Hown, register_sender_own.
  set (p := PHelloResAck _). by destruct (send_packet_ok from p) as [-> _].
Qed.


Definition other_agent : kad_agent :=
  agent_new dht_config_default (replicate 16 2) 6 (from_kad_config true 86400 18000 86400 10 10 10) (inr (mkSocketAddr (V4 (0, 0, 0, 0)) 5672))
    (inr (mkSocketAddr (V4 (0, 0, 0, 0)) 5662)) (replicate 16 8) true.
Lemma sample_agents_ok : agent_ok sample_agent ∧ agent_ok other_agent.
Proof. split; (apply agent_new_ok; [done|done|vm_compute; repeat split; discriminate]). Qed.

(** ** The check of the TCP port *)

(** What the task for a peer that checks its port sends to it, and where it connects. *)
Definition task_sends (b : kad_agent) (t : kad_task) (probe : bool) : res ProtoError (list effect) :=
  match t with
  | TFirewalled from _ => firewalled_response from probe
  | TModern from tcp_port _ _ => fst (modern_firewalled_response b from tcp_port)
  | TCheck _ _ => Ok []
  end.
Definition task_connects (b : kad_agent) (t : kad_task) : option SocketAddr :=
  match t with
  | TFirewalled from tcp_port => Some (mkSocketAddr (sa_ip from) tcp_port)
  | TModern from tcp_port _ _ => fst <$> snd (modern_firewalled_response b from tcp_port)
  | TCheck _ _ => None
  end.
Definition asked (f : KadFirewallState) : gset IpAddr := match active_tcp_round f with Some r => tr_active_helpers r | None => ∅ end.
Definition answers (f : KadFirewallState) : Z := match active_tcp_round f with Some r => tr_completed_checks r | None => 0 end.

(** What ends the question to a peer: that it failed or was answered, or that the agent
    turned out not to be firewalled. An answer of any peer counts. *)
Definition keeps_asking (ip : IpAddr) (o : fw_op) : bool :=
  match o with
  | ORefreshTcp false _ => false
  | OProbeFailed helper _ | OResponse helper _ _ => negb (bool_decide (helper = ip))
  | _ => true
  end.
Definition is_response (o : fw_op) : bool := match o with OResponse _ _ _ => true | _ => false end.

Lemma op_stays_asked f o f' ip : run_fw_op f o = Some f' → keeps_asking ip o = true → ip ∈ asked f → answers f + Z.b2z (is_response o) < 4 →
  ip ∈ asked f' ∧ answers f' ≤ answers f + Z.b2z (is_response o).
Proof.
  intros Hrun Hk Hin Hlt. unfold asked, answers in *. destruct (on_tcp o) eqn:Ht.
  - destruct f as [q1 q2 q3 q4 q5 q6 q7 q8 q9 q10 q11 q12 q13 q14 q15 q16 [r|] q18 q19]; cbn [active_tcp_round] in *; [|set_solver].
    destruct o as [| | |b t|h t|h e|h rep t| | | |]; try done; cbn in Hrun, Hk, Hlt; injection Hrun as <-; cbn [is_response Z.b2z] in *.
    + destruct b; [|done]. cbn. split; [done|lia].
    + unfold try_begin_tcp_firewall_probe. cbn [active_tcp_round]. destruct (_ || _); cbn; (split; [|lia]); [done|]. apply elem_of_union. by right.
    + apply negb_true_iff, bool_decide_eq_false in Hk. cbn. split; [set_solver|lia].
    + apply negb_true_iff, bool_decide_eq_false in Hk. unfold record_firewalled_response, TCP_FIREWALL_RECHECK_LIMIT. cbn [active_tcp_round].
      case_bool_decide; cbn [fst active_tcp_round]; [split; [done|lia]|]. rewrite (proj2 (Z.leb_gt _ _)) by lia. cbn. split; [set_solver|lia].
  - destruct (run_fw_op_frame f o f' Hrun) as (_ & Hv & _). specialize (Hv Ht). unfold tcp_view in Hv. injection Hv as _ Hv. rewrite Hv.
    split; [done|]. destruct (is_response o); cbn; lia.
Qed.
Lemma ops_stay_asked f ops f' ip : run_fw_ops f ops = Some f' → forallb (keeps_asking ip) ops = true → ip ∈ asked f →
  answers f + Z.of_nat (countb is_response ops) < 4 → ip ∈ asked f' ∧ answers f' ≤ answers f + Z.of_nat (countb is_response ops).
Proof.
  revert f. induction ops as [|o ops IH]; intros f Hr Hk Hin Hlt; [injection Hr as <-; split; [done|unfold countb; cbn; lia]|].
  cbn in Hk. apply andb_true_iff in Hk as [Hk Hks]. cbn [run_fw_ops] in Hr. apply bind_Some in Hr as (f1 & H1 & Hr). rewrite countb_cons in Hlt |- *.
  destruct (op_stays_asked f o f1 ip H1 Hk Hin) as [Hin1 Ha1]; [destruct (is_response o); cbn in *; lia|].
  destruct (IH f1 Hr Hks Hin1) as [? ?]; destruct (is_response o); cbn in *; try lia; split; (done || lia).
Qed.
Lemma begin_check_spec a from ip version t listen : agent_ok a → ka_listener a = inr listen → sa_ip from = V4 ip →
  let '(f, request) := begin_firewalled_check a true from version t in
  if bool_decide (V4 ip ∈ asked (ka_firewall a)) || (4 <=? Z.of_nat (size (asked (ka_firewall a)))) then request = None ∧ asked f = asked (ka_firewall a)
  else request = Some (if 6 <? version then PFirewalled2Req (mkFirewalled2Req (sa_port listen) (ka_user_hash a) (emule_connect_options (ka_obfuscation a)))
                       else PFirewalledReq (mkFirewalledReq (sa_port listen))) ∧
       ∃ r, active_tcp_round f = Some r ∧ tr_active_helpers r = {[V4 ip]} ∪ asked (ka_firewall a) ∧ tr_completed_checks r = answers (ka_firewall a).
Proof.
  intros Ha Hl Hip. pose proof (fk_tcp _ (fw_reachable_ok _ (ao_firewall a Ha))) as Ht. unfold tcp_ok in Ht. unfold begin_firewalled_check, asked, answers.
  rewrite Hip, Hl. cbn [negb]. unfold refresh_tcp_recheck, try_begin_tcp_firewall_probe.
  destruct (ka_firewall a) as [q1 q2 q3 q4 q5 q6 q7 q8 q9 q10 q11 q12 q13 q14 q15 q16 round q18 q19]. cbn [active_tcp_round] in *.
  destruct round as [r|]; cbn -[size].
  - destruct Ht as (_ & Hc & Hs). unfold TCP_FIREWALL_RECHECK_LIMIT. rewrite (proj2 (Z.leb_gt 4 (tr_completed_checks r))) by lia. cbn -[size].
    destruct (bool_decide (V4 ip ∈ tr_active_helpers r)), (4 <=? Z.of_nat (size (tr_active_helpers r))); cbn -[size]; try done. split; [done|]. by eexists.
  - rewrite size_empty, bool_decide_false by set_solver. cbn -[size]. split; [done|]. by eexists.
Qed.
(** What a report does: nothing unless the peer is being asked. *)
Lemma end_check_spec debug show f from ip reported t : sa_ip from = V4 ip → wf_ip reported = true →
  let f' := end_firewalled_check debug show f from (inr (PFirewalledRes (mkFirewalledRes (ip_val reported)))) t in
  if bool_decide (V4 ip ∈ asked f) then
    last_reported_external_ip f' = Some (V4 reported) ∧
    if 4 <=? answers f + 1 then active_tcp_round f' = None else active_tcp_round f' = Some (mkTcpRound (asked f ∖ {[V4 ip]}) (answers f + 1))
  else f' = f.
Proof.
  intros Hip Hw. unfold end_firewalled_check, asked, answers. cbn [fr_ip]. rewrite Hip, ipv4_from_val by done. unfold record_firewalled_response, TCP_FIREWALL_RECHECK_LIMIT.
  destruct (active_tcp_round f) as [r|] eqn:Hr; [|rewrite bool_decide_false by set_solver; done].
  destruct (decide (V4 ip ∈ tr_active_helpers r)) as [Hin|Hin].
  - rewrite (bool_decide_true (V4 ip ∈ _)), (bool_decide_false (V4 ip ∉ _)) by (done || (intros H; by apply H)). destruct f. cbn. case_match; done.
  - by rewrite (bool_decide_false (V4 ip ∈ _)), (bool_decide_true (V4 ip ∉ _)).
Qed.

(** What the question makes the asked peer do. *)
Lemma check_task_spec to_lowercase a b ip_a port_a version listen key valid obf t1 :
  let addr_a := mkSocketAddr (V4 ip_a) port_a in
  ∃ task, handle_unsolicited_packet to_lowercase b
      (mkReceived (if 6 <? version then PFirewalled2Req (mkFirewalled2Req (sa_port listen) (ka_user_hash a) (emule_connect_options (ka_obfuscation a)))
                   else PFirewalledReq (mkFirewalledReq (sa_port listen))) addr_a obf key valid) t1 = (b, Ok [HSpawn task]) ∧
    (∀ probe, ∃ rest, task_sends b task probe = Ok (SendPacket addr_a (PFirewalledRes (mkFirewalledRes (ip_val ip_a))) :: rest)) ∧
    (∀ target, task_connects b task = Some target → target = mkSocketAddr (V4 ip_a) (sa_port listen)).
Proof.
  intros addr_a. assert (Hsend : send_firewalled_response addr_a = Ok [SendPacket addr_a (PFirewalledRes (mkFirewalledRes (ip_val ip_a)))]).
  { unfold send_firewalled_response. change (sa_ip addr_a) with (V4 ip_a). by destruct (send_packet_ok addr_a (PFirewalledRes (mkFirewalledRes (ip_val ip_a))) eq_refl) as [-> _]. }
  destruct (6 <? version);
    [exists (TModern addr_a (sa_port listen) (ka_user_hash a) (emule_connect_options (ka_obfuscation a)))|exists (TFirewalled addr_a (sa_port listen))]; (split; [done|]); split.
  - intros probe. exists []. cbn [task_sends]. unfold modern_firewalled_response. change (sa_ip addr_a) with (V4 ip_a). cbn [fst]. by rewrite Hsend.
  - intros target. cbn. by destruct (ka_listener b), (ka_bind_addr b); cbn; try done; intros [= <-].
  - intros probe. cbn [task_sends]. unfold firewalled_response. change (sa_ip addr_a) with (V4 ip_a). rewrite Hsend. cbn [ignore_err mbind res_bind].
    destruct probe; cbn [negb]; [|by exists []]. destruct (send_packet_ok addr_a PFirewalledAckRes eq_refl) as [-> _]. by eexists.
  - by intros target [= <-].
Qed.



(** The round that the fourth answer ended starts again with the next greeting. *)
Definition check_with (n : Z) : list agent_event :=
  let peer := mkSocketAddr (V4 (90, 1, 2, n)) 4672 in [ECheckBegin true peer 9 n; ECheckEnd peer (inr (PFirewalledRes (mkFirewalledRes (ip_val (80, 4, 4, 4))))) n].
Lemma recheck_starts_again :
  ∃ a, run_agent id (λ _, "e"%string) (λ _, "e"%string) sample_agent (mjoin (check_with <$> [1; 2; 3; 4])) = Some a ∧
    active_tcp_round (ka_firewall a) = None ∧ is_Some (snd (begin_firewalled_check a true greeter 9 5)).
Proof. eexists. split; [vm_compute; reflexivity|]. split; [vm_compute; reflexivity|]. vm_compute. by eexists. Qed.
