(* ===== verification/UdpCheck.v ===== *)
(** * The check of the UDP port

    Models the rest of [agent/kad_firewall_runtime.rs] (the external port, the choice of
    helpers), a turn of the task of [agent/background_firewall.rs], which asks helpers to
    send to our UDP port, and the turns of [spawn_kad_hello_intro_task]
    ([agent/background_routing.rs]), which greet the contacts of the table. While a task
    waits, others work on the firewall state: each wait is given the operations that
    happen meanwhile. The sessions with helpers are those of [FirewallHelper], and give
    their outcomes; sleeps, logging and the flag that stops the tasks are left out. *)

From S2P Require Import Prelude Order Net NodeId Text PacketTypes Packet Contact Bin Zone Table KadStore Responder KadObfuscation Rpc.
From S2P Require Import DhtPublish DhtNode KadFirewall PeerTransport Hello AgentPublish PortMap ServerTypes KadHandler.

Definition KAD_EXTERNAL_PORT_DISCOVERY_MAX_ATTEMPTS : nat := 8.
Definition UDP_FIREWALL_HELPER_CANDIDATE_MULTIPLIER : Z := 4.

(** ** The ports *)

Record ActiveUdpFirewallPorts : Type := mkPorts { ap_internal : Z; ap_external : Z }.
Definition expected_ports (p : ActiveUdpFirewallPorts) : list Z :=
  if negb (ap_external p =? 0) && negb (ap_external p =? ap_internal p) then [ap_internal p; ap_external p] else [ap_internal p].
Definition nat_external_udp_port (status : NatStatus) : option Z :=
  (λ m, sa_port (me_external_addr m)) <$>
    List.find (λ m, bool_decide (me_name m = lit "kad") && bool_decide (me_protocol m = Udp)) (ns_mappings status).

(** A contact asked for our port: what happens before it is asked and while it is, the
    outcome, and the time. *)
Record attempt : Type := mkAttempt { at_before : list fw_op; at_meanwhile : list fw_op; at_outcome : NetError + KadPacket; at_now : Z }.

Section tasks.
(** [shuffle] of the [rand] crate. *)
Context (shuffle : list Contact → list Contact) (md5 : list Z → list Z).

(** The loop that asks: the state, and the addresses asked. *)
Fixpoint discover_loop (f : KadFirewallState) (contacts : list Contact) (env : nat → attempt) : option (KadFirewallState * list SocketAddr) :=
  match contacts with
  | [] => Some (f, [])
  | contact :: contacts' =>
      f ← run_fw_ops f (at_before (env O));
      if negb (needs_external_port_discovery f) then Some (f, [])
      else
        let addr := mkSocketAddr (V4 (c_ip contact)) (c_udp_port contact) in
        f ← run_fw_ops f (at_meanwhile (env O));
        let f := match at_outcome (env O) with
                 | inr (PPong pong) => fst (record_external_port_candidate f (sa_ip addr) (po_udp_port pong) (at_now (env O)))
                 | _ => f
                 end in
        '(f, addrs) ← discover_loop f contacts' (λ i, env (S i));
        Some (f, addr :: addrs)
  end.
Definition can_report_port (bind_ip : Ipv4Addr) (contact : Contact) : bool :=
  (6 <=? c_kad_version contact) && negb (c_udp_port contact =? 0) && negb (bool_decide (c_ip contact = bind_ip)).
Definition discover_external_kad_udp_port (a : kad_agent) (env : nat → attempt) (started finished : Z)
    : option (KadFirewallState * list SocketAddr * Z) :=
  match ka_bind_addr a with
  | inl _ | inr (mkSocketAddr (V6 _) _) => Some (ka_firewall a, [], 0)
  | inr (mkSocketAddr (V4 bind_ip) _) =>
      let f := begin_external_port_discovery (ka_firewall a) started in
      let contacts := shuffle (List.filter (can_report_port bind_ip) (routing_contacts (ka_dht a))) in
      '(f, addrs) ← discover_loop f (take KAD_EXTERNAL_PORT_DISCOVERY_MAX_ATTEMPTS contacts) env;
      let f := finish_external_port_discovery f finished in
      Some (f, addrs, external_udp_port_for_request f)
  end.
Definition active_udp_firewall_ports (a : kad_agent) (status : NatStatus) (internal_udp_port : Z) (env : nat → attempt) (started finished : Z)
    : option (KadFirewallState * ActiveUdpFirewallPorts) :=
  match nat_external_udp_port status with
  | Some external_udp_port => Some (ka_firewall a, mkPorts internal_udp_port external_udp_port)
  | None =>
      '(f, _, external_udp_port) ← discover_external_kad_udp_port a env started finished;
      Some (f, mkPorts internal_udp_port external_udp_port)
  end.

(** ** The helpers *)

(** The order of [sort_by_key(Reverse(score_udp_firewall_helper))]. *)
Definition better_helper (x y : Contact) : comparison :=
  then_with (bool_cmp (bool_decide (c_contact_type y = Active)) (bool_decide (c_contact_type x = Active)))
  (then_with (bool_cmp (c_verified y) (c_verified x))
  (then_with (bool_cmp (negb (c_tcp_firewalled y)) (negb (c_tcp_firewalled x)))
  (then_with (bool_cmp (negb (c_udp_firewalled y)) (negb (c_udp_firewalled x)))
  (then_with (bool_cmp (negb (c_udp_key y =? KadUdpKey_ZERO)) (negb (c_udp_key x =? KadUdpKey_ZERO)))
    (Z.compare (c_kad_version y) (c_kad_version x)))))).
Definition can_help (local_ip : IpAddr) (contact : Contact) : bool :=
  (6 <=? c_kad_version contact) && negb (c_tcp_port contact =? 0) && negb (c_udp_port contact =? 0) &&
  negb (bool_decide (c_contact_type contact = Dead)) && negb (bool_decide (V4 (c_ip contact) = local_ip)).
Fixpoint pick_helpers (helper_count : Z) (seen_ips : gset Ipv4Addr) (selected contacts : list Contact) : list Contact :=
  match contacts with
  | [] => selected
  | contact :: contacts' =>
      if bool_decide (c_ip contact ∈ seen_ips) then pick_helpers helper_count seen_ips selected contacts'
      else
        let selected := selected ++ [contact] in
        if helper_count <=? zlen selected then selected
        else pick_helpers helper_count ({[c_ip contact]} ∪ seen_ips) selected contacts'
  end.
Definition select_udp_firewall_helpers (a : kad_agent) (helper_count : Z) : res HandlerError (list Contact) :=
  addr ← local_addr (ka_bind_addr a);
  let contacts := shuffle (List.filter (can_help (sa_ip addr)) (routing_contacts (ka_dht a))) in
  Ok (pick_helpers helper_count ∅ [] (sort_by better_helper contacts)).

(** ** A turn of the check *)

Inductive helper_result : Type := RequestSent | RequestError (error : string) | TaskError.
(** What happens around a turn: before the check begins, while each request is waited for,
    with its result, and while the helpers send. *)
Record turn_env : Type := mkTurnEnv {
  te_discovery : nat → attempt;
  te_discovery_started : Z;
  te_discovery_finished : Z;
  te_before : list fw_op;
  te_started_at : Z;
  te_requests : nat → list fw_op * helper_result;
  te_waiting : list fw_op;
  te_finished_at : Z;
}.
(** A turn waits five seconds, goes on at once, or asked the helpers. *)
Inductive turn_end : Type :=
| TurnSleep
| TurnContinue
| TurnAsked (requests : list (SocketAddr * FirewallCheckUdpRequest)) (summary : option UdpFirewallCheckSummary).
Fixpoint record_results (f : KadFirewallState) (helpers : list Contact) (env : nat → list fw_op * helper_result) : option KadFirewallState :=
  match helpers with
  | [] => Some f
  | contact :: helpers' =>
      f ← run_fw_ops f (fst (env O));
      let f := match snd (env O) with
               | RequestError error => record_helper_request_failed f (V4 (c_ip contact)) error
               | RequestSent | TaskError => f
               end in
      record_results f helpers' (λ i, env (S i))
  end.
Definition helper_request (a : kad_agent) (ports : ActiveUdpFirewallPorts) (contact : Contact) : SocketAddr * FirewallCheckUdpRequest :=
  (mkSocketAddr (V4 (c_ip contact)) (c_tcp_port contact),
   mkFwCheck (ap_internal ports) (ap_external ports) (verify_key_for_ip md5 (dn_layer (ka_dht a)) (c_ip contact))).
Definition udp_check_turn (a : kad_agent) (identity : Ed2kHelloIdentity) (status : NatStatus) (contact_count : Z) (env : turn_env)
    : option (KadFirewallState * turn_end) :=
  let f := ka_firewall a in
  if negb (dn_bootstrapped (ka_dht a)) then Some (f, TurnSleep)
  else
    match ka_bind_addr a with
    | inl _ => Some (f, TurnContinue)
    | inr bind_addr =>
        let hello := enrich_hello_identity identity (ka_server a) f in
        if (hi_client_id hello =? 0) || (hi_server_ip hello =? 0) || (hi_server_port hello =? 0) then Some (f, TurnSleep)
        else
          match select_udp_firewall_helpers a (saturating_mul 64 contact_count UDP_FIREWALL_HELPER_CANDIDATE_MULTIPLIER), sa_ip bind_addr with
          | Ok [], _ => Some (f, TurnContinue)
          | Ok helpers, V4 _ =>
              '(f, ports) ← active_udp_firewall_ports a status (sa_port bind_addr) (te_discovery env) (te_discovery_started env) (te_discovery_finished env);
              f ← run_fw_ops f (te_before env);
              let '(f, begun) := begin_udp_check f (map (λ c, V4 (c_ip c)) helpers) (expected_ports ports) (te_started_at env) in
              if negb begun then Some (f, TurnContinue)
              else
                f ← record_results f helpers (te_requests env);
                f ← run_fw_ops f (te_waiting env);
                let '(f, summary) := finish_udp_check f (te_finished_at env) in
                Some (f, TurnAsked (map (helper_request a ports) helpers) summary)
          | _, _ => Some (f, TurnContinue)
          end
    end.
End tasks.

(** ** The helpers are the best *)

Instance better_helper_total : TotalCmp better_helper.
Proof. unfold better_helper. repeat apply then_total; apply _. Qed.
(** [s] stands for [c]: the same address, and not worse. *)
Definition stands_for (s c : Contact) : Prop := c_ip s = c_ip c ∧ cmp_le better_helper s c = true.
Definition limit (helper_count : Z) : Z := Z.max 1 helper_count.

Lemma pick_helpers_spec helper_count rest : ∀ seen selected (processed : list Contact),
  ordered better_helper rest → (∀ s c, s ∈ selected → c ∈ rest → cmp_le better_helper s c = true) → seen = list_to_set (c_ip <$> selected) →
  NoDup (c_ip <$> selected) → (∀ c, c ∈ processed → ∃ s, s ∈ selected ∧ stands_for s c) → zlen selected < limit helper_count →
  let l := pick_helpers helper_count seen selected rest in
  NoDup (c_ip <$> l) ∧ (∀ c, c ∈ l → c ∈ selected ∨ c ∈ rest) ∧ zlen l ≤ limit helper_count ∧
  ∀ c, c ∈ processed ∨ c ∈ rest → (∃ s, s ∈ l ∧ stands_for s c) ∨ (zlen l = limit helper_count ∧ ∀ s, s ∈ l → cmp_le better_helper s c = true).
Proof.
  induction rest as [|c rest IH]; intros seen selected processed Ho Hle Hseen Hnd Hproc Hlen; cbn [pick_helpers].
  { split; [done|]. split; [by left|]. split; [lia|]. intros c [Hc|Hc%elem_of_nil]; [left; by apply Hproc|done]. }
  apply StronglySorted_inv in Ho as [Ho Hc]. rewrite Forall_forall in Hc. case_bool_decide as Hin.
  - destruct (IH seen selected (c :: processed)) as (H1 & H2 & H3 & H4); [done|intros s c' Hs Hc'; apply Hle; [done|by right]|done|done| |done|].
    { intros c' [->|Hc']%elem_of_cons; [|by apply Hproc]. subst seen. apply elem_of_list_to_set, list_elem_of_fmap in Hin as (s & Hs & Hin).
      exists s. split; [done|]. split; [done|]. apply Hle; [done|by left]. }
    split; [done|]. split; [intros c' Hc'; rewrite elem_of_cons; destruct (H2 c' Hc'); tauto|]. split; [done|]. intros c' Hc'. apply H4. rewrite elem_of_cons in *. tauto.
  - assert (Hnd' : NoDup (c_ip <$> selected ++ [c])).
    { rewrite fmap_app. apply NoDup_app. split; [done|]. split; [|apply NoDup_singleton]. subst seen. intros ip Hip ->%list_elem_of_singleton. by apply Hin, elem_of_list_to_set. }
    assert (Hle' : ∀ s c', s ∈ selected ++ [c] → c' ∈ rest → cmp_le better_helper s c' = true).
    { intros s c' [Hs| ->%list_elem_of_singleton]%elem_of_app Hc'; [apply Hle; [done|by right]|by apply Hc]. }
    assert (Hself : stands_for c c).
    { split; [done|]. destruct (cmp_le better_helper c c) eqn:E; [done|]. pose proof (cmp_le_total better_helper c c E). congruence. }
    assert (Hz : zlen (selected ++ [c]) = zlen selected + 1) by (by rewrite zlen_app).
    assert (Hproc' : ∀ c', c' ∈ processed ∨ c' = c → ∃ s, s ∈ selected ++ [c] ∧ stands_for s c').
    { intros c' [Hc'| ->]; [destruct (Hproc c' Hc') as (s & Hs & H'); exists s|exists c]; rewrite elem_of_app, ?list_elem_of_singleton; tauto. }
    destruct (Z.leb_spec helper_count (zlen (selected ++ [c]))) as [Hfull|Hmore].
    + unfold limit in *. split; [done|]. split; [intros c'; rewrite elem_of_app, list_elem_of_singleton, elem_of_cons; tauto|]. split; [lia|]. intros c' Hc'. rewrite elem_of_cons in Hc'. destruct Hc' as [Hc'|[->|Hc']].
      * left. apply Hproc'. by left.
      * left. apply Hproc'. by right.
      * right. split; [pose proof (zlen_nonneg selected); lia|]. intros s Hs. by apply Hle'.
    + destruct (IH ({[c_ip c]} ∪ seen) (selected ++ [c]) (c :: processed)) as (H1 & H2 & H3 & H4); [done|done| |done| |unfold limit in *; lia|].
      { subst seen. rewrite fmap_app, list_to_set_app_L, (union_comm_L {[c_ip c]}). cbn. by rewrite union_empty_r_L. }
      { intros c' Hc'. apply Hproc'. rewrite elem_of_cons in Hc'. tauto. }
      split; [done|]. split; [intros c' Hc'; destruct (H2 c' Hc') as [Hc2|Hc2]; rewrite elem_of_cons; [apply elem_of_app in Hc2; rewrite list_elem_of_singleton in Hc2|]; tauto|].
      split; [done|]. intros c' Hc'. apply H4. rewrite elem_of_cons in *. tauto.
Qed.
(** The helpers selected are eligible contacts of the table at different addresses, at most
    the number wanted, but at least one; and none is passed over: every eligible contact
    has a helper at its address that is not worse, or enough helpers none of whom is
    worse were found. *)
Lemma helpers_selected shuffle a helper_count l addr : (∀ l, shuffle l ≡ₚ l) →
  ka_bind_addr a = inr addr → select_udp_firewall_helpers shuffle a helper_count = Ok l →
  NoDup (c_ip <$> l) ∧ Forall (λ c, c ∈ routing_contacts (ka_dht a) ∧ can_help (sa_ip addr) c = true) l ∧ zlen l ≤ limit helper_count ∧
  ∀ c, c ∈ routing_contacts (ka_dht a) → can_help (sa_ip addr) c = true →
    (∃ s, s ∈ l ∧ stands_for s c) ∨ (zlen l = limit helper_count ∧ ∀ s, s ∈ l → cmp_le better_helper s c = true).
Proof.
  intros Hshuffle Haddr. unfold select_udp_firewall_helpers. rewrite Haddr. cbn [local_addr mbind res_bind]. intros [= <-].
  set (contacts := sort_by better_helper _).
  assert (Hin : ∀ c, c ∈ contacts ↔ c ∈ routing_contacts (ka_dht a) ∧ can_help (sa_ip addr) c = true).
  { intros c. unfold contacts. rewrite sort_by_perm, Hshuffle. rewrite !list_elem_of_In, filter_In. done. }
  destruct (pick_helpers_spec helper_count contacts ∅ [] []) as (H1 & H2 & H3 & H4).
  - apply sort_by_ordered; [apply cmp_le_total|apply cmp_le_trans]; apply _.
  - intros s c Hs%elem_of_nil. done.
  - done.
  - constructor.
  - intros c Hc%elem_of_nil. done.
  - unfold limit. rewrite zlen_nil. lia.
  - split; [done|]. split; [|split; [done|]].
    + apply Forall_forall. intros c Hc. apply Hin. destruct (H2 c Hc) as [Hn%elem_of_nil|]; done.
    + intros c Hc He. apply H4. right. by apply Hin.
Qed.

(** ** The external port *)

(** The reports of the contacts that were asked. *)
Fixpoint pongs (env : nat → attempt) (addrs : list SocketAddr) : list fw_op :=
  match addrs with
  | [] => []
  | addr :: addrs' =>
      match at_outcome (env O) with inr (PPong pong) => [OPort (sa_ip addr) (po_udp_port pong) (at_now (env O))] | _ => [] end
      ++ pongs (λ i, env (S i)) addrs'
  end.
(** Only the discovery works on the port. *)
Definition off_port (o : fw_op) : bool := negb (on_port o).
Definition quiet_env (env : nat → attempt) : Prop := ∀ i, forallb off_port (at_before (env i)) = true ∧ forallb off_port (at_meanwhile (env i)) = true.

Lemma run_fw_ops_app f l k : run_fw_ops f (l ++ k) = f' ← run_fw_ops f l; run_fw_ops f' k.
Proof. revert f. induction l as [|o l IH]; intros f; [done|]. cbn. by destruct (run_fw_op f o); cbn. Qed.
Lemma reports_off_port acc l : forallb off_port l = true → foldl report_step acc l = acc.
Proof. revert acc. induction l as [|o l IH]; intros acc Hl; [done|]. cbn in Hl. apply andb_true_iff in Hl as [Ho Hl]. cbn. rewrite IH by done. by destruct o. Qed.
Lemma off_during l : forallb off_port l = true → forallb during_port l = true.
Proof. induction l as [|o l IH]; intros Hl; [done|]. cbn in *. apply andb_true_iff in Hl as [Ho Hl]. rewrite IH by done. by destruct o. Qed.
Lemma discover_loop_spec contacts : ∀ f env, quiet_env env → ∃ f' addrs ops,
  discover_loop f contacts env = Some (f', addrs) ∧ run_fw_ops f ops = Some f' ∧ forallb during_port ops = true ∧
  (∀ acc, foldl report_step acc ops = foldl report_step acc (pongs env addrs)) ∧
  addrs `prefix_of` map addr_from_contact contacts.
Proof.
  induction contacts as [|c contacts IH]; intros f env Henv.
  { exists f, [], []. repeat (split; [done|]). apply prefix_nil. }
  destruct (Henv O) as [Hb Hm]. cbn [discover_loop]. destruct (run_fw_ops_total f (at_before (env O))) as [f1 H1]. rewrite H1. cbn [mbind option_bind].
  destruct (negb (needs_external_port_discovery f1)).
  { exists f1, [], (at_before (env O)). split; [done|]. split; [done|]. split; [by apply off_during|]. split; [intros acc; by apply reports_off_port|apply prefix_nil]. }
  destruct (run_fw_ops_total f1 (at_meanwhile (env O))) as [f2 H2]. rewrite H2. cbn [mbind option_bind].
  set (addr := mkSocketAddr _ _). set (report := match at_outcome (env O) with inr (PPong pong) => [OPort (sa_ip addr) (po_udp_port pong) (at_now (env O))] | _ => [] end).
  set (f3 := match at_outcome (env O) with inr (PPong pong) => _ | _ => f2 end).
  assert (H3 : run_fw_ops f2 report = Some f3) by (unfold report, f3; by repeat case_match).
  destruct (IH f3 (λ i, env (S i)) (λ i, Henv (S i))) as (f' & addrs & ops & Hl & Hr & Hd & Hrep & Hpre).
  exists f', (addr :: addrs), (at_before (env O) ++ at_meanwhile (env O) ++ report ++ ops). split; [by rewrite Hl|]. split; [|split; [|split]].
  - rewrite run_fw_ops_app, H1. cbn. rewrite run_fw_ops_app, H2. cbn. rewrite run_fw_ops_app, H3. done.
  - rewrite !forallb_app, !off_during, Hd by done. unfold report. by repeat case_match.
  - intros acc. rewrite !foldl_app, (reports_off_port acc (at_before _)), (reports_off_port acc (at_meanwhile _)) by done. cbn [pongs]. rewrite foldl_app. fold report. by rewrite Hrep.
  - by apply prefix_cons.
Qed.
(** The port of the discovery is the one that two of the first three contacts to report a
    port named, and zero if there is none; at most eight contacts are asked, all of the
    table, none at our address; and no discovery is left. *)
Lemma external_port_discovered shuffle a env started finished bind_ip bind_port : (∀ l, shuffle l ≡ₚ l) → quiet_env env →
  ka_bind_addr a = inr (mkSocketAddr (V4 bind_ip) bind_port) →
  ∃ f addrs, discover_external_kad_udp_port shuffle a env started finished = Some (f, addrs, default 0 (agreed (first_reports (pongs env addrs)).*2)) ∧
    needs_external_port_discovery f = false ∧ (length addrs ≤ 8)%nat ∧
    Forall (λ addr, ∃ c, c ∈ routing_contacts (ka_dht a) ∧ can_report_port bind_ip c = true ∧ addr = addr_from_contact c) addrs.
Proof.
  intros Hshuffle Henv Hbind. unfold discover_external_kad_udp_port. rewrite Hbind. set (contacts := shuffle _).
  destruct (discover_loop_spec (take KAD_EXTERNAL_PORT_DISCOVERY_MAX_ATTEMPTS contacts) (begin_external_port_discovery (ka_firewall a) started) env Henv)
    as (f & addrs & ops & -> & Hr & Hd & Hrep & Hpre). cbn [mbind option_bind].
  destruct (external_port_agreed (ka_firewall a) started ops finished Hd) as (f' & Hf' & Hport & Hneed). rewrite Hr in Hf'. injection Hf' as <-.
  eexists _, addrs. split; [rewrite Hport; unfold first_reports; by rewrite Hrep|]. split; [done|].
  pose proof (prefix_length _ _ Hpre) as Hlen. rewrite length_map, length_take in Hlen. split; [unfold KAD_EXTERNAL_PORT_DISCOVERY_MAX_ATTEMPTS in Hlen; lia|].
  apply Forall_forall. intros addr Ha. destruct Hpre as [k Hk]. assert (Hin : addr ∈ map addr_from_contact (take KAD_EXTERNAL_PORT_DISCOVERY_MAX_ATTEMPTS contacts)) by (rewrite Hk; set_solver).
  apply list_elem_of_fmap in Hin as (c & -> & Hc). exists c. apply (subseteq_take _ contacts) in Hc. unfold contacts in Hc. rewrite Hshuffle in Hc.
  apply list_elem_of_In, filter_In in Hc as [Hc He]. by rewrite list_elem_of_In.
Qed.

(** ** The verdict of a turn *)

(** What the firewall state goes through while the results of the requests come in. *)
Fixpoint result_ops (helpers : list Contact) (env : nat → list fw_op * helper_result) : list fw_op :=
  match helpers with
  | [] => []
  | contact :: helpers' =>
      fst (env O) ++ match snd (env O) with RequestError error => [OHelperFailed (V4 (c_ip contact)) error] | _ => [] end ++ result_ops helpers' (λ i, env (S i))
  end.
(** Only this task begins and ends checks and works on the port. *)
Definition turn_alone (env : turn_env) : Prop :=
  quiet_env (te_discovery env) ∧ (∀ i, forallb during_udp (fst (te_requests env i)) = true) ∧ forallb during_udp (te_waiting env) = true.
Lemma record_results_ops helpers : ∀ f env, record_results f helpers env = run_fw_ops f (result_ops helpers env).
Proof.
  induction helpers as [|c helpers IH]; intros f env; [done|]. cbn [record_results result_ops]. rewrite run_fw_ops_app.
  destruct (run_fw_ops f (fst (env O))) as [f1|]; [|done]. cbn [mbind option_bind]. rewrite run_fw_ops_app, IH. by destruct (snd (env O)).
Qed.
Lemma result_ops_during helpers : ∀ env, (∀ i, forallb during_udp (fst (env i)) = true) → forallb during_udp (result_ops helpers env) = true.
Proof.
  induction helpers as [|c helpers IH]; intros env Henv; [done|]. cbn [result_ops]. rewrite !forallb_app, Henv, IH by (intros i; apply (Henv (S i))).
  by destruct (snd (env O)).
Qed.
Lemma begin_refused f ips ports t f' : begin_udp_check f ips ports t = (f', false) → ips = [] ∨ ∀ p, p ∈ ports → p = 0.
Proof.
  unfold begin_udp_check. destruct ips as [|ip ips]; [by left|]. case_match eqn:E1.
  { apply Nat.eqb_eq, map_size_empty_inv in E1. pose proof (pending_lookup (ip :: ips) ip) as Hl. by rewrite E1, lookup_empty, bool_decide_true in Hl by by left. }
  case_match eqn:E2; [|done]. intros _. right. apply Nat.eqb_eq, size_empty_inv in E2. intros p Hp. destruct (Z.eqb_spec p 0); [done|]. exfalso.
  assert (Hin : p ∈ (list_to_set (List.filter (λ port, negb (port =? 0)) ports) : gset Z)); [|by rewrite E2 in Hin; apply elem_of_empty in Hin].
  apply elem_of_list_to_set. apply list_elem_of_In, filter_In. split; [by apply list_elem_of_In|]. apply negb_true_iff. lia.
Qed.


Definition helper_contact : Contact := new_contact 0 (replicate 16 9) (90, 1, 2, 3) 4672 4662 9.
Definition checking_agent : kad_agent :=
  with_server (mkServerState (Some (mkSocketAddr (V4 (70, 1, 1, 1)) 4661)) (Some 0x04030201) None None None None None true)
    (with_dht (set_bootstrapped (fst (node_add_contact (ka_dht sample_agent) helper_contact))) sample_agent).
Definition sample_turn : turn_env :=
  mkTurnEnv (λ _, mkAttempt [] [] (inl NIo) 0) 1 2 [] 3 (λ _, ([], RequestSent)) [OUdpPacket (V4 (90, 1, 2, 3)) 0 4672 4] 5.

(** A turn without a contact that can help goes on at once, and leaves everything as it is. *)
Lemma turn_spins shuffle md5 a identity status contact_count env bind : (∀ l, shuffle l ≡ₚ l) → dn_bootstrapped (ka_dht a) = true → ka_bind_addr a = inr bind →
  (∀ c, c ∈ routing_contacts (ka_dht a) → can_help (sa_ip bind) c = false) →
  let hello := enrich_hello_identity identity (ka_server a) (ka_firewall a) in
  hi_client_id hello ≠ 0 → hi_server_ip hello ≠ 0 → hi_server_port hello ≠ 0 →
  udp_check_turn shuffle md5 a identity status contact_count env = Some (ka_firewall a, TurnContinue).
Proof.
  intros Hs Hb Hbind Hnone hello H1 H2 H3. unfold udp_check_turn. fold hello. rewrite Hb, Hbind. cbn [negb].
  rewrite (proj2 (Z.eqb_neq _ _) H1), (proj2 (Z.eqb_neq _ _) H2), (proj2 (Z.eqb_neq _ _) H3). cbn [orb]. unfold select_udp_firewall_helpers. rewrite Hbind. cbn [local_addr mbind res_bind].
  assert (Hnil : List.filter (can_help (sa_ip bind)) (routing_contacts (ka_dht a)) = []).
  { destruct (List.filter _ _) as [|c l] eqn:E; [done|]. exfalso. assert (Hc : c ∈ c :: l) by by left. rewrite <- E in Hc. apply list_elem_of_In, filter_In in Hc as [Hc He].
    rewrite Hnone in He by by apply list_elem_of_In. done. }
  rewrite Hnil. assert (He : shuffle [] = []) by (apply Permutation_nil; symmetry; apply Hs). by rewrite He.
Qed.

(** ** Greeting the contacts of the table *)

Section intro.
Context (shuffle : list (Contact * SocketAddr) → list (Contact * SocketAddr)).
Definition to_introduce (local_ip : IpAddr) (introduced : gset SocketAddr) (contact : Contact) : option (Contact * SocketAddr) :=
  let addr := mkSocketAddr (V4 (c_ip contact)) (c_udp_port contact) in
  if negb (c_udp_port contact =? 0) && (6 <=? c_kad_version contact) && negb (bool_decide (V4 (c_ip contact) = local_ip)) && negb (bool_decide (addr ∈ introduced))
  then Some (contact, addr) else None.
(** The agent at each greeting, and whether its send succeeded. *)
Fixpoint intro_loop (introduced : gset SocketAddr) (l : list (Contact * SocketAddr)) (env : nat → kad_agent * bool) : gset SocketAddr * list (SocketAddr * HelloReq) :=
  match l with
  | [] => (introduced, [])
  | (_, addr) :: l' =>
      match build_hello_request (fst (env O)) false, snd (env O) with
      | Ok hello, true =>
          let '(introduced, sent) := intro_loop ({[addr]} ∪ introduced) l' (λ i, env (S i)) in
          (introduced, (addr, hello) :: sent)
      | _, _ => intro_loop introduced l' (λ i, env (S i))
      end
  end.
Definition hello_intro_turn (a : kad_agent) (introduced : gset SocketAddr) (fanout : Z) (env : nat → kad_agent * bool) : gset SocketAddr * list (SocketAddr * HelloReq) :=
  if negb (dn_bootstrapped (ka_dht a)) then (introduced, [])
  else
    match ka_bind_addr a with
    | inl _ => (introduced, [])
    | inr addr =>
        let contacts := shuffle (omap (to_introduce (sa_ip addr) introduced) (routing_contacts (ka_dht a))) in
        intro_loop introduced (take (Z.to_nat (Z.max fanout 1)) contacts) env
    end.
Fixpoint hello_intro (introduced : gset SocketAddr) (fanout : Z) (turns : list (kad_agent * (nat → kad_agent * bool))) : list (SocketAddr * HelloReq) :=
  match turns with
  | [] => []
  | (a, env) :: turns' => let '(introduced, sent) := hello_intro_turn a introduced fanout env in sent ++ hello_intro introduced fanout turns'
  end.
End intro.

Lemma intro_loop_spec l : ∀ introduced env, NoDup l.*2 → (∀ addr, addr ∈ l.*2 → addr ∉ introduced) →
  let '(introduced', sent) := intro_loop introduced l env in
  introduced' = introduced ∪ list_to_set sent.*1 ∧ NoDup sent.*1 ∧ (∀ addr, addr ∈ sent.*1 → addr ∈ l.*2) ∧ (length sent ≤ length l)%nat.
Proof.
  induction l as [|[c addr] l IH]; intros introduced env Hnd Hnew; cbn [intro_loop].
  { cbn. split; [by rewrite union_empty_r_L|]. split; [constructor|done]. }
  cbn [fmap list_fmap snd] in Hnd, Hnew. apply NoDup_cons in Hnd as [Hna Hnd].
  assert (Hskip : let '(introduced', sent) := intro_loop introduced l (λ i, env (S i)) in introduced' = introduced ∪ list_to_set sent.*1 ∧ NoDup sent.*1 ∧
    (∀ x, x ∈ sent.*1 → x ∈ addr :: l.*2) ∧ (length sent ≤ S (length l))%nat).
  { specialize (IH introduced (λ i, env (S i)) Hnd). destruct (intro_loop _ _ _) as [i' sent]. destruct IH as (H1 & H2 & H3 & H4); [intros x Hx; apply Hnew; by right|].
    split; [done|]. split; [done|]. split; [intros x Hx; right; by apply H3|lia]. }
  destruct (build_hello_request (fst (env O)) false) as [hello| |], (snd (env O)); try exact Hskip. clear Hskip.
  specialize (IH ({[addr]} ∪ introduced) (λ i, env (S i)) Hnd). destruct (intro_loop _ _ _) as [i' sent]. destruct IH as (-> & H2 & H3 & H4).
  { intros x Hx [->%elem_of_singleton|Hin]%elem_of_union; [done|]. by eapply Hnew; [right|]. }
  cbn. split; [by rewrite (union_comm_L {[addr]}), <- union_assoc_L|]. split; [|split; [|lia]].
  - apply NoDup_cons. split; [|done]. intros Hin. by apply Hna, H3.
  - intros x [->|Hx]%elem_of_cons; [by left|right; by apply H3].
Qed.
(** The addresses of a table are different. *)
#[local] Instance V4_inj : Inj (=) (=) V4.
Proof. by intros ? ? [=]. Qed.
Lemma table_addrs_NoDup n : node_ok n → NoDup (addr_from_contact <$> routing_contacts n).
Proof.
  intros Hn. assert (Hip : NoDup (c_ip <$> routing_contacts n)).
  { unfold routing_contacts. rewrite (proj1 (all_contacts_spec (dn_routing_table n) (no_table n Hn) ltac:(change (t_own_id ?t) with (own_id t); rewrite (no_own n Hn); apply Hn))).
    apply one_per_ip_NoDup, (no_table n Hn). }
  apply (NoDup_fmap_1 sa_ip). rewrite <- list_fmap_compose. apply (NoDup_fmap_2 V4) in Hip. by rewrite <- list_fmap_compose in Hip.
Qed.
(** No address is greeted twice, however many turns there are and whichever sends fail; no
    turn greets more contacts than configured, and all of them are contacts of the table
    that may be greeted. *)
Definition turn_ok (t : kad_agent * (nat → kad_agent * bool)) : Prop := node_ok (ka_dht (fst t)).
Lemma hello_intro_turn_ok shuffle a introduced fanout env : (∀ l, shuffle l ≡ₚ l) → node_ok (ka_dht a) →
  let '(introduced', sent) := hello_intro_turn shuffle a introduced fanout env in
  introduced' = introduced ∪ list_to_set sent.*1 ∧ NoDup sent.*1 ∧ (∀ addr, addr ∈ sent.*1 → addr ∉ introduced) ∧ zlen sent ≤ Z.max fanout 1 ∧
  (∀ addr, addr ∈ sent.*1 → ∃ c, c ∈ routing_contacts (ka_dht a) ∧ addr = addr_from_contact c ∧ 6 ≤ c_kad_version c ∧ c_udp_port c ≠ 0).
Proof.
  intros Hshuffle Hn. unfold hello_intro_turn.
  assert (Hnone : introduced = introduced ∪ list_to_set ([] : list (SocketAddr * HelloReq)).*1) by (cbn; by rewrite union_empty_r_L).
  assert (Hidle : introduced = introduced ∪ list_to_set ([] : list (SocketAddr * HelloReq)).*1 ∧ NoDup ([] : list (SocketAddr * HelloReq)).*1 ∧
    (∀ addr, addr ∈ ([] : list (SocketAddr * HelloReq)).*1 → addr ∉ introduced) ∧ zlen ([] : list (SocketAddr * HelloReq)) ≤ Z.max fanout 1 ∧
    (∀ addr, addr ∈ ([] : list (SocketAddr * HelloReq)).*1 → ∃ c, c ∈ routing_contacts (ka_dht a) ∧ addr = addr_from_contact c ∧ 6 ≤ c_kad_version c ∧ c_udp_port c ≠ 0)).
  { split; [done|]. split; [constructor|]. split; [by intros addr ?%elem_of_nil|]. split; [rewrite zlen_nil; lia|by intros addr ?%elem_of_nil]. }
  destruct (negb (dn_bootstrapped (ka_dht a))); [exact Hidle|]. destruct (ka_bind_addr a) as [e|bind]; [exact Hidle|]. clear Hidle Hnone.
  set (chosen := omap _ _). assert (Hchosen : ∀ c addr, (c, addr) ∈ chosen → c ∈ routing_contacts (ka_dht a) ∧ addr = addr_from_contact c ∧ (addr ∉ introduced) ∧ 6 ≤ c_kad_version c ∧ c_udp_port c ≠ 0).
  { intros c addr (c' & Hc & Hi)%list_elem_of_omap. unfold to_introduce in Hi. case_match eqn:E; [|done]. injection Hi as -> <-. bool_hyps.
    by repeat (split; [done|]). }
  assert (Hsub : sublist chosen.*2 (addr_from_contact <$> routing_contacts (ka_dht a))).
  { unfold chosen. generalize (routing_contacts (ka_dht a)). induction l as [|c l IH]; [constructor|]. cbn. unfold to_introduce at 1. destruct (negb _ && _ && _ && _); cbn; [by apply sublist_skip|by apply sublist_cons]. }
  set (l := take _ (shuffle chosen)). assert (Hl : ∀ x, x ∈ l → x ∈ chosen).
  { intros x Hx. apply (subseteq_take _ (shuffle chosen)) in Hx. by rewrite Hshuffle in Hx. }
  assert (Hnd : NoDup l.*2).
  { unfold l. rewrite fmap_take. eapply sublist_NoDup; [|apply sublist_take]. rewrite Hshuffle. eapply sublist_NoDup; [|exact Hsub]. by apply table_addrs_NoDup. }
  assert (Hall : ∀ addr, addr ∈ l.*2 → ∃ c, (c, addr) ∈ chosen).
  { intros addr ([c addr'] & -> & Hin)%list_elem_of_fmap. exists c. by apply Hl. }
  pose proof (intro_loop_spec l introduced env Hnd) as H. destruct (intro_loop introduced l env) as [introduced' sent]. destruct H as (H1 & H2 & H3 & H4).
  { intros addr (c & Hc)%Hall. by apply (Hchosen c). }
  split; [done|]. split; [done|]. split; [|split].
  - intros addr (c & Hc)%H3%Hall. by apply (Hchosen c).
  - unfold l in H4. rewrite length_take in H4. unfold zlen. lia.
  - intros addr (c & Hc)%H3%Hall. exists c. by destruct (Hchosen c addr Hc) as (? & ? & _ & ?).
Qed.
Lemma greeted_once shuffle fanout turns : ∀ introduced, (∀ l, shuffle l ≡ₚ l) → Forall turn_ok turns →
  let sent := hello_intro shuffle introduced fanout turns in NoDup sent.*1 ∧ ∀ addr, addr ∈ sent.*1 → addr ∉ introduced.
Proof.
  induction turns as [|[a env] turns IH]; intros introduced Hs Ht; [split; [constructor|by intros addr ?%elem_of_nil]|].
  apply Forall_cons in Ht as [Ha Ht]. cbn [hello_intro]. pose proof (hello_intro_turn_ok shuffle a introduced fanout env Hs Ha) as H.
  destruct (hello_intro_turn shuffle a introduced fanout env) as [introduced' sent]. destruct H as (-> & H2 & H3 & _).
  destruct (IH (introduced ∪ list_to_set sent.*1) Hs Ht) as [H4 H5]. cbv zeta. rewrite fmap_app. split.
  - apply NoDup_app. split; [done|]. split; [|done]. intros addr Hin Hin'. by apply (H5 addr Hin'), elem_of_union_r, elem_of_list_to_set.
  - intros addr [Hin|Hin]%elem_of_app; [by apply H3|]. intros Hi. by apply (H5 addr Hin), elem_of_union_l.
Qed.
