(* ===== verification/ServerQuery.v ===== *)
(** * Queries to eD2k servers

    [ed2k_server/search_expr.rs]: the text of a keyword search is cut into words, quoted
    phrases, parentheses and operators, parsed by precedence climbing (juxtaposition is a
    conjunction, which binds weakest; then disjunction, then exclusion), and encoded in
    the format of search expressions. The recursion of the parser has fuel; three steps
    per token and two more are enough, and the text gives as much. *)

From S2P Require Import Prelude Utf8 Text Wire SearchExpr.

Inductive QueryError : Type := QUnterminated | QTrailing | QMissingParen | QInvalid | QTooLong | QFuel.
#[export] Instance QueryError_eq_dec : EqDecision QueryError.
Proof. solve_decision. Defined.

Inductive SearchExprNode : Type :=
| NTerm (value : list Z)
| NAnd (l r : SearchExprNode)
| NOr (l r : SearchExprNode)
| NNot (l r : SearchExprNode).
Inductive SearchToken : Type := TTerm (value : list Z) | TAnd | TOr | TNot | TOpenParen | TCloseParen.
#[export] Instance SearchToken_eq_dec : EqDecision SearchToken.
Proof. solve_decision. Defined.
Inductive SearchBinaryOperator : Type := BAnd | BOr | BNot.

(** ** Characters

    Those of the standard library that the code uses, on characters as their UTF-8
    bytes. *)
Definition is_whitespace (ch : list Z) : bool :=
  match ch with
  | [a] => (9 <=? a) && (a <=? 13) || (a =? 32)
  | [a; b] => (a =? 0xC2) && ((b =? 0x85) || (b =? 0xA0))
  | [a; b; c] =>
      (a =? 0xE1) && (b =? 0x9A) && (c =? 0x80) ||
      (a =? 0xE2) && (b =? 0x80) && ((0x80 <=? c) && (c <=? 0x8A) || (c =? 0xA8) || (c =? 0xA9) || (c =? 0xAF)) ||
      (a =? 0xE2) && (b =? 0x81) && (c =? 0x9F) || (a =? 0xE3) && (b =? 0x80) && (c =? 0x80)
  | _ => false
  end.
Fixpoint trim_start (cs : list (list Z)) : list (list Z) :=
  match cs with c :: cs' => if is_whitespace c then trim_start cs' else cs | [] => [] end.
Definition trim_chars (cs : list (list Z)) : list (list Z) := reverse (trim_start (reverse (trim_start cs))).
Definition to_ascii_uppercase (s : list Z) : list Z := (λ b, if (97 <=? b) && (b <=? 122) then b - 32 else b) <$> s.

(** ** The words of a query *)

Definition ends_word (ch : list Z) : bool := is_whitespace ch || is_char 40 ch || is_char 41 ch || is_char 34 ch.
Definition word_token (word : list Z) : SearchToken :=
  let uppercase := to_ascii_uppercase word in
  if bool_decide (uppercase = lit "AND") then TAnd
  else if bool_decide (uppercase = lit "OR") then TOr
  else if bool_decide (uppercase = lit "NOT") then TNot
  else TTerm word.
(** Every round takes a character at least, so the fuel is their number. *)
Fixpoint tokenize_chars (fuel : nat) (cs : list (list Z)) : res QueryError (list SearchToken) :=
  match fuel, cs with
  | _, [] => Ok []
  | O, _ => Err QFuel
  | S fuel', ch :: cs' =>
      if is_whitespace ch then tokenize_chars fuel' cs'
      else if is_char 40 ch then ts ← tokenize_chars fuel' cs'; Ok (TOpenParen :: ts)
      else if is_char 41 ch then ts ← tokenize_chars fuel' cs'; Ok (TCloseParen :: ts)
      else if is_char 34 ch then
        let '(phrase, rest) := span (λ c, negb (is_char 34 c)) cs' in
        match rest with
        | [] => Err QUnterminated
        | _ :: rest' =>
            let phrase := trim_chars phrase in
            ts ← tokenize_chars fuel' rest';
            Ok (match phrase with [] => ts | _ => TTerm (concat phrase) :: ts end)
        end
      else
        let '(word, rest) := span (λ c, negb (ends_word c)) cs in
        ts ← tokenize_chars fuel' rest;
        Ok (word_token (concat word) :: ts)
  end.
Definition tokenize_search_expression (input : list Z) : res QueryError (list SearchToken) :=
  tokenize_chars (length (chars input)) (chars input).

(** ** The parser *)

Definition peek_binary_operator (ts : list SearchToken) : option (SearchBinaryOperator * Z * bool) :=
  match ts with
  | TAnd :: _ => Some (BAnd, 1, false)
  | TOr :: _ => Some (BOr, 2, false)
  | TNot :: _ => Some (BNot, 3, false)
  | TTerm _ :: _ | TOpenParen :: _ => Some (BAnd, 1, true)
  | TCloseParen :: _ | [] => None
  end.
Definition binary (op : SearchBinaryOperator) (l r : SearchExprNode) : SearchExprNode :=
  match op with BAnd => NAnd l r | BOr => NOr l r | BNot => NNot l r end.
Fixpoint parse_expression (fuel : nat) (min_precedence : Z) (ts : list SearchToken) : res QueryError (SearchExprNode * list SearchToken) :=
  match fuel with
  | O => Err QFuel
  | S fuel' =>
      '(lhs, ts) ← parse_primary fuel' ts;
      parse_operators fuel' lhs min_precedence ts
  end
with parse_operators (fuel : nat) (lhs : SearchExprNode) (min_precedence : Z) (ts : list SearchToken)
    : res QueryError (SearchExprNode * list SearchToken) :=
  match fuel with
  | O => Err QFuel
  | S fuel' =>
      match peek_binary_operator ts with
      | None => Ok (lhs, ts)
      | Some (operator, precedence, implicit) =>
          if precedence <? min_precedence then Ok (lhs, ts)
          else
            '(rhs, ts) ← parse_expression fuel' (precedence + 1) (if implicit then ts else tail ts);
            parse_operators fuel' (binary operator lhs rhs) min_precedence ts
      end
  end
with parse_primary (fuel : nat) (ts : list SearchToken) : res QueryError (SearchExprNode * list SearchToken) :=
  match fuel with
  | O => Err QFuel
  | S fuel' =>
      match ts with
      | TTerm value :: ts => Ok (NTerm value, ts)
      | TOpenParen :: ts =>
          '(e, ts) ← parse_expression fuel' 1 ts;
          match ts with TCloseParen :: ts => Ok (e, ts) | _ => Err QMissingParen end
      | _ => Err QInvalid
      end
  end.
Definition parser_fuel (ts : list SearchToken) : nat := 3 * length ts + 2.
Definition parse_tokens (ts : list SearchToken) : res QueryError (option SearchExprNode) :=
  match ts with
  | [] => Ok None
  | _ =>
      '(e, rest) ← parse_expression (parser_fuel ts) 1 ts;
      match rest with [] => Ok (Some e) | _ => Err QTrailing end
  end.
Definition parse_search_expression (input : list Z) : res QueryError (option SearchExprNode) :=
  tokenize_search_expression input ≫= parse_tokens.

(** ** The encoding *)

Definition encode_search_string_param (value : list Z) : res QueryError (list Z) :=
  match try_from_u 16 (zlen value) with None => Err QTooLong | Some len => Ok ([1] ++ to_le_bytes 2 len ++ value) end.
Fixpoint encode_search_expression (e : SearchExprNode) : res QueryError (list Z) :=
  let pair (code : Z) (l r : res QueryError (list Z)) := l ← l; r ← r; Ok ([0; code] ++ l ++ r) in
  match e with
  | NTerm value => encode_search_string_param value
  | NAnd l r => pair 0 (encode_search_expression l) (encode_search_expression r)
  | NOr l r => pair 1 (encode_search_expression l) (encode_search_expression r)
  | NNot l r => pair 2 (encode_search_expression l) (encode_search_expression r)
  end.
(** [flatten_and_terms]: the terms of an expression that has only conjunctions. *)
Fixpoint flatten_and_terms (e : SearchExprNode) : option (list (list Z)) :=
  match e with
  | NTerm value => Some [value]
  | NAnd l r => l ← flatten_and_terms l; r ← flatten_and_terms r; Some (l ++ r)
  | NOr _ _ | NNot _ _ => None
  end.
Fixpoint join_with (sep : list Z) (l : list (list Z)) : list Z :=
  match l with [] => [] | [x] => x | x :: l' => x ++ sep ++ join_with sep l' end.
Definition encode_node (e : SearchExprNode) : res QueryError (list Z) :=
  match flatten_and_terms e with
  | Some terms => encode_search_string_param (join_with [32] terms)
  | None => encode_search_expression e
  end.
Definition encode_search_request (term : list Z) : res QueryError (list Z) :=
  expression ← parse_search_expression term;
  match expression with None => Ok [] | Some e => encode_node e end.

(** ** Specification *)

(** The grammar of queries by levels: conjunctions, disjunctions, exclusions, and terms
    or parenthesised queries. *)
Inductive derives : Z → list SearchToken → SearchExprNode → Prop :=
| d_term v : derives 4 [TTerm v] (NTerm v)
| d_paren ts e : derives 1 ts e → derives 4 (TOpenParen :: ts ++ [TCloseParen]) e
| d_not a b l r : derives 3 a l → derives 4 b r → derives 3 (a ++ TNot :: b) (NNot l r)
| d_or a b l r : derives 2 a l → derives 3 b r → derives 2 (a ++ TOr :: b) (NOr l r)
| d_and a b l r : derives 1 a l → derives 2 b r → derives 1 (a ++ TAnd :: b) (NAnd l r)
| d_words a b l r : derives 1 a l → derives 2 b r → derives 1 (a ++ b) (NAnd l r)
| d_level p ts e : 1 ≤ p → derives (p + 1) ts e → derives p ts e.

(** The precedence of the operator at the front, zero when there is none. *)
Definition front (ts : list SearchToken) : Z := match peek_binary_operator ts with Some (_, p, _) => p | None => 0 end.

(** ** The parser ends *)

Lemma front_bounds ts : 0 ≤ front ts ≤ 3.
Proof. by destruct ts as [|[] ?]. Qed.
(** What a parser leaves is shorter, and it does not run out of fuel. *)
Definition shrinks (n : nat) (r : res QueryError (SearchExprNode * list SearchToken)) : Prop :=
  match r with Ok (_, rest) => (length rest ≤ n)%nat | Err e => e ≠ QFuel | Panic => False end.
Lemma shrinks_bind n m r k : shrinks n r → (∀ e rest, (length rest ≤ n)%nat → shrinks m (k e rest)) →
  shrinks m ('(e, rest) ← r; k e rest).
Proof. destruct r as [[e rest]|e|]; cbn; auto. Qed.
Lemma shrinks_mono n m r : (n ≤ m)%nat → shrinks n r → shrinks m r.
Proof. intros Hn. destruct r as [[e rest]|e|]; cbn; auto. lia. Qed.

Lemma parsers_shrink fuel :
  (∀ p ts, (3 * length ts + 2 ≤ fuel)%nat → shrinks (length ts - 1) (parse_expression fuel p ts)) ∧
  (∀ lhs p ts, (3 * length ts + 3 ≤ fuel)%nat → shrinks (length ts) (parse_operators fuel lhs p ts)) ∧
  (∀ ts, (3 * length ts + 1 ≤ fuel)%nat → shrinks (length ts - 1) (parse_primary fuel ts)).
Proof.
  induction fuel as [|fuel (IHe & IHo & IHp)]; [split_and!; intros; lia|]. split_and!.
  - intros p ts Hf. cbn [parse_expression]. destruct ts as [|t ts].
    { cbn [length] in Hf. destruct fuel; [lia|]. done. }
    eapply shrinks_bind; [apply IHp; cbn [length] in *; lia|]. intros e rest Hr. cbn [length] in *.
    eapply shrinks_mono; [|apply IHo; lia]. lia.
  - intros lhs p ts Hf. cbn [parse_operators]. destruct (peek_binary_operator ts) as [[[op q] implicit]|] eqn:Ep; [|cbn; lia].
    destruct (q <? p); [cbn; lia|]. assert (Hlen : (1 ≤ length ts)%nat) by (by destruct ts; cbn in *; [done|lia]).
    assert (Hts : (length (if implicit then ts else tail ts) ≤ length ts)%nat) by (destruct implicit, ts; cbn; lia).
    eapply shrinks_bind; [apply IHe; lia|]. intros e rest Hr. eapply shrinks_mono; [|apply IHo]; lia.
  - intros ts Hf. cbn [parse_primary]. destruct ts as [|[v| | | | |] ts]; cbn [length] in *; try done; [cbn; lia|].
    eapply shrinks_bind; [apply IHe; lia|]. intros e rest Hr. destruct rest as [|[] rest]; cbn in *; try done. lia.
Qed.
(** An outcome that is a value or an error of the query. *)
Definition settled {A} (r : res QueryError A) : Prop := match r with Ok _ => True | Err e => e ≠ QFuel | Panic => False end.
Lemma settled_bind {A B} (r : res QueryError A) (k : A → res QueryError B) : settled r → (∀ a, settled (k a)) → settled (r ≫= k).
Proof. destruct r; cbn; auto. Qed.
Lemma span_shorter {A} (f : A → bool) l : (length (span f l).2 ≤ length l)%nat.
Proof. rewrite <- (span_app f l) at 2. rewrite length_app. lia. Qed.
Lemma tokenize_settled fuel cs : (length cs ≤ fuel)%nat → settled (tokenize_chars fuel cs).
Proof.
  revert cs. induction fuel as [|fuel IH]; intros [|ch cs] Hl; cbn [length] in *; [done|lia|done|]. cbn [tokenize_chars].
  assert (Hcs : ∀ l, (length l ≤ length cs)%nat → settled (tokenize_chars fuel l)) by (intros; apply IH; lia).
  destruct (is_whitespace ch) eqn:E1; [by apply Hcs|]. destruct (is_char 40 ch) eqn:E2; [by apply settled_bind; [apply Hcs|]|].
  destruct (is_char 41 ch) eqn:E3; [by apply settled_bind; [apply Hcs|]|]. destruct (is_char 34 ch) eqn:E4.
  - pose proof (span_shorter (λ c, negb (is_char 34 c)) cs) as Hs. destruct (span _ cs) as [phrase rest]. cbn in Hs.
    destruct rest as [|q rest]; [done|]. cbn in Hs. apply settled_bind; [apply Hcs; lia|done].
  - assert (He : ends_word ch = false) by (unfold ends_word; by rewrite E1, E2, E3, E4). cbn [span]. rewrite He. cbn [negb].
    pose proof (span_shorter (λ c, negb (ends_word c)) cs) as Hs. destruct (span _ cs) as [word rest]. cbn in Hs.
    apply settled_bind; [by apply Hcs|done].
Qed.
Lemma shrinks_settled n r : shrinks n r → settled r.
Proof. destruct r as [[]|e|]; cbn; auto. Qed.
Lemma parse_tokens_settled ts : settled (parse_tokens ts).
Proof.
  unfold parse_tokens. destruct ts as [|t ts]; [done|]. pose proof (proj1 (parsers_shrink (parser_fuel (t :: ts))) 1 (t :: ts) ltac:(done)) as Hp.
  destruct (parse_expression _ _ _) as [[e rest]|e|]; [by destruct rest|done..].
Qed.

(** ** More fuel changes nothing *)

Lemma expression_S fuel p ts : parse_expression (S fuel) p ts = '(lhs, ts) ← parse_primary fuel ts; parse_operators fuel lhs p ts.
Proof. done. Qed.
Lemma operators_S fuel lhs p ts : parse_operators (S fuel) lhs p ts =
  match peek_binary_operator ts with
  | None => Ok (lhs, ts)
  | Some (op, q, implicit) =>
      if q <? p then Ok (lhs, ts)
      else '(rhs, ts) ← parse_expression fuel (q + 1) (if implicit then ts else tail ts); parse_operators fuel (binary op lhs rhs) p ts
  end.
Proof. done. Qed.
Lemma primary_S fuel ts : parse_primary (S fuel) ts =
  match ts with
  | TTerm value :: ts => Ok (NTerm value, ts)
  | TOpenParen :: ts =>
      '(e, ts) ← parse_expression fuel 1 ts;
      match ts with TCloseParen :: ts => Ok (e, ts) | _ => Err QMissingParen end
  | _ => Err QInvalid
  end.
Proof. done. Qed.
Lemma stable_bind {A B} (m m' : res QueryError A) (k k' : A → res QueryError B) : settled (m ≫= k) → (settled m → m' = m) →
  (∀ a, settled (k a) → k' a = k a) → m' ≫= k' = m ≫= k.
Proof. intros Hs Hm Hk. destruct m as [a|e|]; cbn in Hs; [rewrite Hm by done; cbn; by apply Hk|by rewrite Hm|done]. Qed.
Lemma parsers_stable fuel :
  (∀ p ts, settled (parse_expression fuel p ts) → parse_expression (S fuel) p ts = parse_expression fuel p ts) ∧
  (∀ lhs p ts, settled (parse_operators fuel lhs p ts) → parse_operators (S fuel) lhs p ts = parse_operators fuel lhs p ts) ∧
  (∀ ts, settled (parse_primary fuel ts) → parse_primary (S fuel) ts = parse_primary fuel ts).
Proof.
  induction fuel as [|fuel (IHe & IHo & IHp)]; [split_and!; intros; by exfalso|]. split_and!.
  - intros p ts. rewrite (expression_S (S fuel)), expression_S. intros Hs. eapply stable_bind; [done|apply IHp|]. intros [lhs r]. apply IHo.
  - intros lhs p ts. rewrite (operators_S (S fuel)), operators_S. destruct (peek_binary_operator ts) as [[[op q] implicit]|]; [|done].
    destruct (q <? p); [done|]. intros Hs. eapply stable_bind; [done|apply IHe|]. intros [rhs r]. apply IHo.
  - intros ts. rewrite (primary_S (S fuel)), primary_S. destruct ts as [|[] ts]; try done. intros Hs. eapply stable_bind; [done|apply IHe|].
    by intros [e r].
Qed.
Lemma expression_more fuel fuel' p ts : (fuel ≤ fuel')%nat → settled (parse_expression fuel p ts) →
  parse_expression fuel' p ts = parse_expression fuel p ts.
Proof.
  induction 1 as [|fuel' _ IH]; [done|]. intros Hs. rewrite (proj1 (parsers_stable fuel')), IH; [done..|]. by rewrite IH.
Qed.
Lemma operators_more fuel fuel' lhs p ts : (fuel ≤ fuel')%nat → settled (parse_operators fuel lhs p ts) →
  parse_operators fuel' lhs p ts = parse_operators fuel lhs p ts.
Proof.
  induction 1 as [|fuel' _ IH]; [done|]. intros Hs. rewrite (proj1 (proj2 (parsers_stable fuel'))), IH; [done..|]. by rewrite IH.
Qed.

(** ** The parser follows the grammar *)

Lemma derives_level p ts e : derives p ts e → 1 ≤ p ≤ 4.
Proof. induction 1; lia. Qed.
Lemma derives_weaken p q ts e : 1 ≤ p ≤ q → derives q ts e → derives p ts e.
Proof.
  intros Hp Hd. destruct (Z_of_nat_complete (q - p) ltac:(lia)) as [n Hn]. revert p Hp Hn.
  induction n as [|n IH]; intros p Hp Hn; [by replace p with q by lia|]. apply d_level; [lia|]. apply IH; lia.
Qed.
(** Operators are taken while they bind at least as strongly as asked. *)
Lemma operators_front fuel lhs p ts e rest : 1 ≤ p → parse_operators fuel lhs p ts = Ok (e, rest) → front rest < p.
Proof.
  revert lhs ts. induction fuel as [|fuel IH]; intros lhs ts Hp; [done|]. rewrite operators_S.
  destruct (peek_binary_operator ts) as [[[op q] implicit]|] eqn:Ep; [|intros [= <- <-]; unfold front; rewrite Ep; lia].
  destruct (Z.ltb_spec q p); [intros [= <- <-]; unfold front; by rewrite Ep|].
  destruct (parse_expression _ _ _) as [[rhs r]| |]; [|done..]. cbn. by apply IH.
Qed.
Lemma expression_front fuel p ts e rest : 1 ≤ p → parse_expression fuel p ts = Ok (e, rest) → front rest < p.
Proof.
  destruct fuel as [|fuel]; [done|]. intros Hp. rewrite expression_S. destruct (parse_primary fuel ts) as [[l r]| |]; [|done..]. cbn.
  by apply operators_front.
Qed.
Lemma binary_derives op q implicit ts a b l r : peek_binary_operator ts = Some (op, q, implicit) → derives q a l → derives (q + 1) b r →
  derives q (a ++ (if implicit then [] else take 1 ts) ++ b) (binary op l r).
Proof. destruct ts as [|[] ts]; cbn; intros [= <- <- <-] Ha Hb; [by apply d_words|by apply d_and|by apply d_or|by apply d_not|by apply d_words]. Qed.
Lemma parsers_sound fuel :
  (∀ p ts e rest, 1 ≤ p ≤ 4 → parse_expression fuel p ts = Ok (e, rest) → ∃ a, ts = a ++ rest ∧ derives p a e) ∧
  (∀ lhs p q ts e rest b, 1 ≤ p ≤ q → derives q b lhs → front ts ≤ q → parse_operators fuel lhs p ts = Ok (e, rest) →
     ∃ a, ts = a ++ rest ∧ derives p (b ++ a) e) ∧
  (∀ ts e rest, parse_primary fuel ts = Ok (e, rest) → ∃ a, ts = a ++ rest ∧ derives 4 a e).
Proof.
  induction fuel as [|fuel (IHe & IHo & IHp)]; [done|]. split_and!.
  - intros p ts e rest Hp. rewrite expression_S. destruct (parse_primary fuel ts) as [[l r]| |] eqn:E; [|done..]. cbn. intros Ho.
    destruct (IHp _ _ _ E) as (a & -> & Ha). pose proof (front_bounds r).
    destruct (IHo l p 4 r e rest a ltac:(lia) Ha ltac:(lia) Ho) as (a' & -> & Ha'). exists (a ++ a'). by rewrite app_assoc.
  - intros lhs p q ts e rest b Hpq Hb Hf. rewrite operators_S.
    destruct (peek_binary_operator ts) as [[[op x] implicit]|] eqn:Ep; [|intros [= <- <-]; exists []; rewrite app_nil_r; split; [done|by eapply derives_weaken]].
    assert (Hx : x ≤ q) by (unfold front in Hf; by rewrite Ep in Hf). assert (H13 : 1 ≤ x ≤ 3) by (by destruct ts as [|[] ?]; cbn in Ep; inversion Ep).
    destruct (Z.ltb_spec x p); [intros [= <- <-]; exists []; rewrite app_nil_r; split; [done|by eapply derives_weaken]|].
    destruct (parse_expression _ _ _) as [[rhs r]| |] eqn:Ee; [|done..]. cbn. intros Ho. pose proof (expression_front fuel (x + 1) _ _ _ ltac:(lia) Ee) as Hr.
    destruct (IHe (x + 1) _ _ _ ltac:(lia) Ee) as (c & Hc & Hd).
    pose proof (binary_derives _ _ _ _ b c lhs rhs Ep (derives_weaken x q b lhs ltac:(lia) Hb) Hd) as Hn.
    destruct (IHo (binary op lhs rhs) p x r e rest _ ltac:(lia) Hn ltac:(lia) Ho) as (a' & -> & Ha').
    exists ((if implicit then [] else take 1 ts) ++ c ++ a'). split; [|by rewrite <- !app_assoc in Ha'].
    rewrite <- !app_assoc, <- Hc. destruct implicit; [done|]. by destruct ts.
  - intros ts e rest. rewrite primary_S. destruct ts as [|[v| | | | |] ts]; try done; [intros [= <- <-]; by exists [TTerm v]; split; [|constructor]|].
    destruct (parse_expression _ _ _) as [[e' r]| |] eqn:Ee; [|done..]. cbn. destruct r as [|[] r]; try done. intros [= <- <-].
    destruct (IHe 1 _ _ _ ltac:(lia) Ee) as (a & -> & Ha). exists (TOpenParen :: a ++ [TCloseParen]). cbn. rewrite <- app_assoc. by split; [|constructor].
Qed.
Lemma derives_head p ts e : derives p ts e → ∃ t l, ts = t :: l ∧ match t with TTerm _ | TOpenParen => True | _ => False end.
Proof.
  induction 1 as [v|ts e _ _|a b l r _ IHa _ _|a b l r _ IHa _ _|a b l r _ IHa _ _|a b l r _ IHa _ _|p ts e Hp _ IH]; try done; try (by do 2 eexists);
    destruct IHa as (t & l' & -> & Ht); by do 2 eexists.
Qed.
Lemma parsers_complete p ts e : derives p ts e → ∀ m rest f r, 1 ≤ m ≤ p → front rest ≤ p → parse_operators f e m rest = r → settled r →
  ∃ f', parse_expression f' m (ts ++ rest) = r.
Proof.
  assert (Hstop : ∀ e m rest, front rest < m → parse_operators 1 e m rest = Ok (e, rest)).
  { intros e0 m rest. rewrite operators_S. unfold front. destruct (peek_binary_operator rest) as [[[op q] implicit]|]; [|done].
    by destruct (Z.ltb_spec q m); [|lia]. }
  assert (Hbin : ∀ op q (implicit : bool) a b ts l r0 m rest f r, 1 ≤ m ≤ q → front rest ≤ q →
    (∀ m rest f r, 1 ≤ m ≤ q → front rest ≤ q → parse_operators f l m rest = r → settled r → ∃ f', parse_expression f' m (a ++ rest) = r) →
    (∀ m rest f r, 1 ≤ m ≤ q + 1 → front rest ≤ q + 1 → parse_operators f r0 m rest = r → settled r → ∃ f', parse_expression f' m (b ++ rest) = r) →
    peek_binary_operator (ts ++ b ++ rest) = Some (op, q, implicit) → (if implicit then ts = [] else length ts = 1%nat) →
    parse_operators f (binary op l r0) m rest = r → settled r → ∃ f', parse_expression f' m (a ++ ts ++ b ++ rest) = r).
  { intros op q implicit a b ts0 l r0 m rest f r Hm Hf IHa IHb Hpeek Himp Hop Hs.
    destruct (IHb (q + 1) rest 1%nat (Ok (r0, rest)) ltac:(lia) ltac:(lia) (Hstop r0 (q + 1) rest ltac:(lia)) I) as (fb & Hb).
    apply (IHa m (ts0 ++ b ++ rest) (S (max fb f)) r); [lia| |..|done].
    - unfold front. rewrite Hpeek. lia.
    - rewrite operators_S, Hpeek. destruct (Z.ltb_spec q m); [lia|].
      assert (Hrest : (if implicit then ts0 ++ b ++ rest else tail (ts0 ++ b ++ rest)) = b ++ rest).
      { destruct implicit; [by subst ts0|]. by destruct ts0 as [|t [|]]. }
      rewrite Hrest, (expression_more fb), Hb by (lia || by rewrite Hb). cbn [mbind res_bind]. rewrite (operators_more f); [done|lia|by rewrite Hop]. }
  induction 1 as [v|ts e _ IH|a b l r0 _ IHa _ IHb|a b l r0 _ IHa _ IHb|a b l r0 _ IHa _ IHb|a b l r0 _ IHa Hb IHb|p ts e Hp _ IH]; intros m rest f r Hm Hf Hop Hs.
  - exists (S (S f)). rewrite expression_S, primary_S. cbn [mbind res_bind app]. rewrite (operators_more f); [done|lia|by rewrite Hop].
  - destruct (IH 1 (TCloseParen :: rest) 1%nat (Ok (e, TCloseParen :: rest)) ltac:(lia) ltac:(done) (Hstop e 1 (TCloseParen :: rest) ltac:(done)) I) as (f' & Hf').
    exists (S (S (max f f'))). rewrite expression_S, primary_S. cbn [app]. rewrite <- app_assoc. cbn [app].
    rewrite (expression_more f'), Hf' by (lia || by rewrite Hf'). cbn [mbind res_bind]. rewrite (operators_more f); [done|lia|by rewrite Hop].
  - rewrite <- app_assoc. by apply (Hbin BNot 3 false a b [TNot] l r0 m rest f r).
  - rewrite <- app_assoc. by apply (Hbin BOr 2 false a b [TOr] l r0 m rest f r).
  - rewrite <- app_assoc. by apply (Hbin BAnd 1 false a b [TAnd] l r0 m rest f r).
  - rewrite <- app_assoc. apply (Hbin BAnd 1 true a b [] l r0 m rest f r); try done.
    destruct (derives_head 2 b r0 Hb) as (t & ts & -> & Ht). by destruct t.
  - apply (IH m rest f r); lia || done.
Qed.

(** The query of a text: what the grammar reads in its tokens. *)
Lemma parse_tokens_derives ts e : parse_tokens ts = Ok (Some e) ↔ derives 1 ts e.
Proof.
  unfold parse_tokens. split.
  - destruct ts as [|t ts]; [done|]. destruct (parse_expression _ _ _) as [[e' rest]| |] eqn:E; [|done..]. cbn. destruct rest; [|done].
    intros [= <-]. destruct (proj1 (parsers_sound _) 1 _ _ _ ltac:(lia) E) as (a & -> & Ha). by rewrite app_nil_r.
  - intros Hd. destruct (parsers_complete _ _ _ Hd 1 [] 1%nat (Ok (e, [])) ltac:(lia) ltac:(done) eq_refl I) as (f & Hf). rewrite app_nil_r in Hf.
    destruct (derives_head _ _ _ Hd) as (t & l & -> & _).
    assert (Hs : settled (parse_expression (parser_fuel (t :: l)) 1 (t :: l))) by (eapply shrinks_settled, (proj1 (parsers_shrink _)); done).
    rewrite <- (expression_more _ (parser_fuel (t :: l) + f) 1 _ ltac:(apply Nat.le_add_r) Hs), (expression_more f); [by rewrite Hf|lia|by rewrite Hf].
Qed.

(** ** What is sent is a search expression *)

Fixpoint node_expr (e : SearchExprNode) : expr :=
  match e with
  | NTerm v => EStr v
  | NAnd l r => EAnd (node_expr l) (node_expr r)
  | NOr l r => EOr (node_expr l) (node_expr r)
  | NNot l r => ENot (node_expr l) (node_expr r)
  end.
(** The expression of a request: the words of a plain conjunction in one string. *)
Definition request_expr (e : SearchExprNode) : expr :=
  match flatten_and_terms e with Some terms => EStr (join_with [32] terms) | None => node_expr e end.
Fixpoint node_bytes (e : SearchExprNode) : Prop :=
  match e with NTerm v => is_bytes v = true | NAnd l r | NOr l r | NNot l r => node_bytes l ∧ node_bytes r end.
Definition token_bytes (t : SearchToken) : Prop := match t with TTerm v => is_bytes v = true | _ => True end.

Lemma derives_bytes p ts e : derives p ts e → Forall token_bytes ts → node_bytes e.
Proof.
  induction 1 as [v|ts e _ IH|a b l r _ IHa _ IHb|a b l r _ IHa _ IHb|a b l r _ IHa _ IHb|a b l r _ IHa _ IHb|p ts e Hp _ IH]; intros Ht; cbn.
  - by apply Forall_inv in Ht.
  - apply Forall_cons_1 in Ht as [_ Ht]. apply IH. by apply Forall_app in Ht as [? _].
  - apply Forall_app in Ht as [Ha [_ Hb]%Forall_cons_1]. auto.
  - apply Forall_app in Ht as [Ha [_ Hb]%Forall_cons_1]. auto.
  - apply Forall_app in Ht as [Ha [_ Hb]%Forall_cons_1]. auto.
  - apply Forall_app in Ht as [Ha Hb]. auto.
  - auto.
Qed.
Lemma concat_bytes (l : list (list Z)) : Forall (λ c, is_bytes c = true) l → is_bytes (concat l) = true.
Proof. induction 1 as [|c l Hc _ IH]; [done|]. cbn. by rewrite is_bytes_app, Hc, IH. Qed.
Lemma chars_bytes s : is_bytes s = true → Forall (λ c, is_bytes c = true) (chars s).
Proof.
  intros Hs. rewrite <- (chars_concat s) in Hs. induction (chars s) as [|c l IH]; [constructor|]. cbn in Hs. rewrite is_bytes_app in Hs.
  apply andb_true_iff in Hs as [Hc Hl]. constructor; auto.
Qed.
Lemma trim_start_Forall P cs : Forall P cs → Forall P (trim_start cs).
Proof. induction 1 as [|c cs Hc Hcs IH]; [constructor|]. cbn. by destruct (is_whitespace c); [|constructor]. Qed.
Lemma trim_Forall P cs : Forall P cs → Forall P (trim_chars cs).
Proof. intros H. unfold trim_chars. by apply Forall_reverse, trim_start_Forall, Forall_reverse, trim_start_Forall. Qed.
Lemma word_token_bytes w : is_bytes w = true → token_bytes (word_token w).
Proof. intros Hw. unfold word_token. cbv zeta. by repeat case_bool_decide. Qed.
Lemma tokenize_bytes fuel cs ts : Forall (λ c, is_bytes c = true) cs → tokenize_chars fuel cs = Ok ts → Forall token_bytes ts.
Proof.
  revert cs ts. induction fuel as [|fuel IH]; intros [|ch cs] ts Hcs; cbn [tokenize_chars]; [intros [= <-]; apply Forall_nil_2|done|intros [= <-]; apply Forall_nil_2|].
  assert (Hcons : ∀ t l, token_bytes t → Forall (λ c, is_bytes c = true) l →
    (ts' ← tokenize_chars fuel l; Ok (t :: ts')) = Ok ts → Forall token_bytes ts).
  { intros t l Ht Hl. destruct (tokenize_chars fuel l) as [ts'| |] eqn:E; [|done..]. intros [= <-]. constructor; [done|by apply (IH l)]. }
  destruct (Forall_cons_1 _ _ _ Hcs) as [_ Htl]. case_match; [by apply IH|]. do 2 (case_match; [by apply Hcons|]). case_match.
  - pose proof (span_app (λ c, negb (is_char 34 c)) cs) as Hs. destruct (span _ cs) as [phrase rest]. cbn in Hs. subst cs.
    apply Forall_app in Htl as [Hph Hrest]. destruct rest as [|q rest]; [done|]. apply Forall_cons_1 in Hrest as [_ Hrest].
    pose proof (trim_Forall _ _ Hph) as Htr. destruct (trim_chars phrase) as [|c l] eqn:Et; [|apply (Hcons (TTerm (concat (c :: l)))); [by apply concat_bytes|done]].
    destruct (tokenize_chars fuel rest) as [ts'| |] eqn:E; [|done..]. intros [= <-]. by apply (IH rest).
  - pose proof (span_app (λ c, negb (ends_word c)) (ch :: cs)) as Hs. destruct (span _ (ch :: cs)) as [word rest]. cbn in Hs. rewrite <- Hs in Hcs.
    apply Forall_app in Hcs as [Hw Hrest]. apply Hcons; [by apply word_token_bytes, concat_bytes|done].
Qed.

Lemma encode_param_spec v b : is_bytes v = true → encode_search_string_param v = Ok b → wf_bytes16 v = true ∧ b = 1 :: print_bytes v.
Proof.
  intros Hv. unfold encode_search_string_param. destruct (try_from_u 16 (zlen v)) as [n|] eqn:E; [|done].
  apply try_from_u_Some in E as [-> Hn]. intros [= <-]. split; [|done]. unfold wf_bytes16. rewrite Hv. apply is_u16_spec. lia.
Qed.
Lemma encode_expression_spec e b : node_bytes e → encode_search_expression e = Ok b → wf_expr (node_expr e) = true ∧ b = print (node_expr e).
Proof.
  revert b. induction e as [v|l IHl r IHr|l IHl r IHr|l IHl r IHr]; intros b; [apply encode_param_spec|..]; intros [Hl Hr]; cbn [encode_search_expression];
    (destruct (encode_search_expression l) as [bl| |]; [|done..]); cbn [mbind res_bind];
    (destruct (encode_search_expression r) as [br| |]; [|done..]); cbn [mbind res_bind]; intros [= <-];
    destruct (IHl bl Hl eq_refl) as [Wl ->], (IHr br Hr eq_refl) as [Wr ->]; cbn; by rewrite Wl, Wr.
Qed.
Lemma flatten_bytes e terms : node_bytes e → flatten_and_terms e = Some terms → Forall (λ t, is_bytes t = true) terms.
Proof.
  revert terms. induction e as [v|l IHl r IHr|l IHl r IHr|l IHl r IHr]; intros terms; cbn; [intros Hv [= <-]; by constructor| |done..].
  intros [Hl Hr]. destruct (flatten_and_terms l) as [tl|]; [|done]. destruct (flatten_and_terms r) as [tr|]; [|done]. cbn. intros [= <-].
  apply Forall_app_2; auto.
Qed.
Lemma join_bytes sep l : is_bytes sep = true → Forall (λ t, is_bytes t = true) l → is_bytes (join_with sep l) = true.
Proof.
  intros Hs. induction 1 as [|x l Hx Hl IH]; [done|]. destruct l as [|y l]; [done|]. change (join_with sep (x :: y :: l)) with (x ++ sep ++ join_with sep (y :: l)).
  by rewrite !is_bytes_app, Hx, Hs, IH.
Qed.
Lemma encode_node_spec e b : node_bytes e → encode_node e = Ok b → wf_expr (request_expr e) = true ∧ b = print (request_expr e).
Proof.
  intros He. unfold encode_node, request_expr. destruct (flatten_and_terms e) as [terms|] eqn:Et; [|by apply encode_expression_spec].
  apply encode_param_spec. apply join_bytes; [done|]. by eapply flatten_bytes.
Qed.

(** ** Queries are read by the grammar and understood by their readers *)

(** C39. The parser of queries ends on every text, without a panic, and reads exactly the
    grammar: it returns a query if and only if the text has tokens that the grammar
    derives it from, where juxtaposed words are a conjunction, conjunction binds weaker
    than disjunction and that weaker than exclusion, and all associate to the left; the
    grammar gives a text at most one query. *)
Theorem query_parsed text :
  settled (parse_search_expression text) ∧
  (∀ e, parse_search_expression text = Ok (Some e) ↔ ∃ ts, tokenize_search_expression text = Ok ts ∧ derives 1 ts e) ∧
  ∀ ts e e', derives 1 ts e → derives 1 ts e' → e = e'.
Proof.
  split; [|split].
  - apply settled_bind; [by apply tokenize_settled|apply parse_tokens_settled].
  - intros e. unfold parse_search_expression. split.
    + destruct (tokenize_search_expression text) as [ts| |]; [|done..]. cbn. intros H. exists ts. split; [done|]. by apply parse_tokens_derives.
    + intros (ts & -> & Hd). cbn. by apply parse_tokens_derives.
  - intros ts e e' He%parse_tokens_derives He'%parse_tokens_derives. congruence.
Qed.

(** What is sent for a query is understood: the payload of a request is the encoding
    of its expression, and the reader of search expressions that serves such requests in
    the Kad network reads that expression back, when it is nested at most 24 deep. *)
Lemma query_understood to_lowercase text payload : is_bytes text = true →
  encode_search_request text = Ok payload → payload ≠ [] →
  ∃ e, parse_search_expression text = Ok (Some e) ∧ payload = print (request_expr e) ∧
    ((expr_depth (request_expr e) ≤ MAX_SEARCH_EXPR_DEPTH)%nat →
     parse_search_term to_lowercase MAX_SEARCH_EXPR_DEPTH payload = Ok (term_of to_lowercase (request_expr e), [])).
Proof.
  intros Hb. unfold encode_search_request. destruct (parse_search_expression text) as [[e|]| |] eqn:Ep; cbn; [|by intros [= <-]|done..].
  intros He Hne. assert (Hn : node_bytes e).
  { unfold parse_search_expression in Ep. destruct (tokenize_search_expression text) as [ts| |] eqn:Et; [|done..]. cbn in Ep.
    apply parse_tokens_derives in Ep. eapply derives_bytes; [exact Ep|]. eapply tokenize_bytes; [|exact Et]. by apply chars_bytes. }
  destruct (encode_node_spec e payload Hn He) as [Hw ->]. exists e. split; [done|]. split; [done|]. intros Hd.
  pose proof (parse_print to_lowercase MAX_SEARCH_EXPR_DEPTH (request_expr e) [] Hw) as Hp. rewrite app_nil_r in Hp. etrans; [exact Hp|].
  by destruct (Nat.leb_spec (expr_depth (request_expr e)) MAX_SEARCH_EXPR_DEPTH); [|lia].
Qed.
(** Words with operators of all three kinds. *)
Definition sample_query : list Z := lit "linux (iso OR img) not beta".
Example sample_query_parsed : parse_search_expression sample_query =
  Ok (Some (NAnd (NTerm (lit "linux")) (NNot (NOr (NTerm (lit "iso")) (NTerm (lit "img"))) (NTerm (lit "beta"))))).
Proof. vm_compute. reflexivity. Qed.
