(* ===== verification/ServerCodec.v ===== *)
(** * The messages of eD2k servers

    [ed2k_server/tag_codec.rs], [packet_codec.rs], [result_decoder.rs], the decoders of
    [packet_handler.rs] and the encoders of [startup.rs]: tags, framing with optional
    compression, pages of search results, found sources, identifications, the login, and
    the advertisement of shared files. Loops over a count that the message announces have
    the length of the message as fuel, since every round takes bytes. *)

From S2P Require Import Prelude Utf8 Text NodeId Net SearchExpr Hashset Transfer PeerTransport PeerCodec PeerParts Hello ServerTypes.

(** ** Constants *)

Definition OP_LOGINREQUEST : Z := 0x01.
Definition OP_REJECT : Z := 0x05.
Definition OP_GETSERVERLIST : Z := 0x14.
Definition OP_OFFERFILES : Z := 0x15.
Definition OP_SEARCHREQUEST : Z := 0x16.
Definition OP_GETSOURCES : Z := 0x19.
Definition OP_CALLBACKREQUEST : Z := 0x1C.
Definition OP_GETSOURCES_OBFU : Z := 0x23.
Definition OP_QUERY_MORE_RESULT : Z := 0x21.
Definition OP_GLOBSEARCHREQ3 : Z := 0x90.
Definition OP_GLOBSEARCHREQ2 : Z := 0x92.
Definition OP_GLOBGETSOURCES2 : Z := 0x94.
Definition OP_GLOBSERVSTATREQ : Z := 0x96.
Definition OP_GLOBSERVSTATRES : Z := 0x97.
Definition OP_GLOBSEARCHREQ : Z := 0x98.
Definition OP_GLOBSEARCHRES : Z := 0x99.
Definition OP_GLOBGETSOURCES : Z := 0x9A.
Definition OP_GLOBFOUNDSOURCES : Z := 0x9B.
Definition OP_SERVERLIST : Z := 0x32.
Definition OP_SEARCHRESULT : Z := 0x33.
Definition OP_SERVERSTATUS : Z := 0x34.
Definition OP_CALLBACKREQUESTED : Z := 0x35.
Definition OP_CALLBACK_FAIL : Z := 0x36.
Definition OP_SERVERMESSAGE : Z := 0x38.
Definition OP_IDCHANGE : Z := 0x40.
Definition OP_SERVERIDENT : Z := 0x41.
Definition OP_FOUNDSOURCES : Z := 0x42.
Definition OP_FOUNDSOURCES_OBFU : Z := 0x44.
Definition MAX_SERVER_DECOMPRESSED_PACKET_LEN : Z := 250000.
Definition TAGTYPE_HASH : Z := 0x01.
Definition CT_SERVER_UDPSEARCH_FLAGS : Z := 0x0E.
Definition CT_SERVER_FLAGS : Z := 0x20.
Definition SRVCAP_ZLIB : Z := 0x0001.
Definition SRVCAP_NEWTAGS : Z := 0x0008.
Definition SRVCAP_UNICODE : Z := 0x0010.
Definition SRVCAP_LARGEFILES : Z := 0x0100.
Definition SRVCAP_SUPPORTCRYPT : Z := 0x0200.
Definition SRVCAP_REQUESTCRYPT : Z := 0x0400.
Definition SRVCAP_REQUIRECRYPT : Z := 0x0800.
Definition SOURCE_OBFUSCATION_USER_HASH_PRESENT : Z := 0x80.
Definition SRVCAP_UDP_NEWTAGS_LARGEFILES : Z := 0x0001.
Definition SERVER_TCP_FLAG_COMPRESSION : Z := 0x00000001.
Definition SERVER_TCP_FLAG_TCPOBFUSCATION : Z := 0x00000400.
Definition SERVER_UDP_FLAG_EXT_GETSOURCES : Z := 0x00000001.
Definition SERVER_UDP_FLAG_EXT_GETFILES : Z := 0x00000002.
Definition SERVER_UDP_FLAG_EXT_GETSOURCES2 : Z := 0x00000020.
Definition SERVER_UDP_FLAG_LARGEFILES : Z := 0x00000100.
Definition SERVER_UDP_FLAG_UDPOBFUSCATION : Z := 0x00000200.
Definition SERVER_UDP_FLAG_TCPOBFUSCATION : Z := 0x00000400.
Definition ST_SERVERNAME : Z := 0x01.
Definition ST_DESCRIPTION : Z := 0x0B.
Definition FT_FILENAME : Z := 0x01.
Definition FT_FILESIZE : Z := 0x02.
Definition FT_FILETYPE : Z := 0x03.
Definition FT_SOURCES : Z := 0x15.
Definition FT_FILESIZE_HI : Z := 0x3A.
Definition ED2K_FILETYPE_PROGRAM : Z := 0x04.
Definition ED2K_FILETYPE_DOCUMENT : Z := 0x05.
Definition ED2K_FILETYPE_ARCHIVE : Z := 0x06.
Definition ED2K_FILETYPE_AUDIO : Z := 0x07.
Definition ED2K_FILETYPE_VIDEO : Z := 0x08.
Definition OFFER_FILE_COMPLETE_SENTINEL_CLIENT_ID : Z := 0xFBFBFBFB.
Definition OFFER_FILE_COMPLETE_SENTINEL_CLIENT_PORT : Z := 0xFBFB.
Definition OFFER_FILE_SAMPLE_HASH : list Z :=
  [0x9F; 0x3C; 0x23; 0xDB; 0x76; 0x51; 0xEF; 0xBA; 0xC9; 0xA8; 0x37; 0xA8; 0xA0; 0xAE; 0x3E; 0xD9].
Definition OFFER_FILE_SAMPLE_NAME : list Z := lit "ubuntu-linux-oracle-sample.iso".
Definition OFFER_FILE_SAMPLE_SIZE : Z := 0x00200000.

(** [flags & mask != 0] *)
Definition has_flag (flags mask : Z) : bool := negb (Z.land flags mask =? 0).

(** ** Framing *)

Section packed.
(** [ZlibEncoder] with [finish], which may fail, and the reads of a [ZlibDecoder]. *)
Context (zlib_encode : list Z → option (list Z)) (zlib_reads : list Z → list (list Z) * bool).
Definition encode_server_packet (opcode : Z) (payload : list Z) (use_compression : bool) : res PeerError (list Z) :=
  let protocol := if use_compression then OP_PACKEDPROT else OP_EDONKEYPROT in
  encoded ← (if use_compression then match zlib_encode payload with Some b => Ok b | None => Err PInflate end else Ok payload);
  match try_from_u 32 (zlen encoded + 1) with
  | None => Err PTooLarge
  | Some len => Ok ([protocol] ++ to_le_bytes 4 len ++ [opcode] ++ encoded)
  end.
Fixpoint server_inflate_loop (chunks : list (list Z)) (ended : bool) (decoded : list Z) : res PeerError (list Z) :=
  match chunks with
  | [] => if ended then Ok decoded else Err PInflate
  | chunk :: chunks' =>
      if MAX_SERVER_DECOMPRESSED_PACKET_LEN <? saturating_add 64 (zlen decoded) (zlen chunk) then Err PTooLarge
      else server_inflate_loop chunks' ended (decoded ++ chunk)
  end.
Definition decode_server_payload (protocol : Z) (payload : list Z) : res PeerError (list Z) :=
  if negb (protocol =? OP_PACKEDPROT) then Ok payload
  else let '(chunks, ended) := zlib_reads payload in server_inflate_loop chunks ended [].
End packed.

(** ** Tags *)

(** A float is its four bytes as a number. *)
Inductive DecodedTagValue : Type :=
| VString (s : list Z)
| VUnsigned (z : Z)
| VBool (b : bool)
| VFloat32 (bits : Z)
| VHash (h : list Z)
| VBlob (b : list Z)
| VBoolArray (b : list Z).

Definition push_u32_tag (name value : Z) : list Z := [TAGTYPE_UINT32] ++ to_le_bytes 2 1 ++ [name] ++ to_le_bytes 4 value.
Definition push_short_u32_tag (name value : Z) : list Z := [Z.lor TAG_SHORT_NAME_MASK TAGTYPE_UINT32; name] ++ to_le_bytes 4 value.
Definition push_short_u8_tag (name value : Z) : list Z := [Z.lor TAG_SHORT_NAME_MASK TAGTYPE_UINT8; name; value].
Definition server_string_tag_type (len : Z) : Z := if (1 <=? len) && (len <=? 16) then TAGTYPE_STR1 + (len - 1) else TAGTYPE_STRING.
(** The length and the bytes of a string; a length over 16 bits panics. *)
Definition string_tag_value (value : list Z) : res PeerError (list Z) :=
  if server_string_tag_type (zlen value) =? TAGTYPE_STRING
  then len ← expect (try_from_u 16 (zlen value)); Ok (to_le_bytes 2 len ++ value)
  else Ok value.
Definition push_string_tag (name : Z) (value : list Z) : res PeerError (list Z) :=
  body ← string_tag_value value;
  Ok ([server_string_tag_type (zlen value)] ++ to_le_bytes 2 1 ++ [name] ++ body).
Definition push_short_string_tag (name : Z) (value : list Z) : res PeerError (list Z) :=
  body ← string_tag_value value;
  Ok ([Z.lor TAG_SHORT_NAME_MASK (server_string_tag_type (zlen value)); name] ++ body).

Definition decode_ed2k_string (payload : list Z) : res PeerError (option (list Z)) :=
  if zlen payload <? 2 then Ok None
  else
    len ← le_at payload 0 2;
    if zlen payload <? len + 2 then Err PShort
    else s ← range payload 2 (2 + len); Ok (Some (from_utf8_lossy s)).

(** The first [n] bytes and those after them. *)
Definition split_bytes (bytes : list Z) (n : Z) : res PeerError (list Z * list Z) :=
  if zlen bytes <? n then Err PShort
  else value ← range bytes 0 n; rest ← tail_from bytes n; Ok (value, rest).
Definition split_le (bytes : list Z) (n : Z) : res PeerError (Z * list Z) :=
  '(value, rest) ← split_bytes bytes n; Ok (from_le_bytes value, rest).
Definition tag_name (short_name : bool) (bytes : list Z) : res PeerError (option Z * list Z) :=
  if short_name then name ← byte bytes 0; rest ← tail_from bytes 1; Ok (Some name, rest)
  else
    '(name_len, bytes) ← split_le bytes 2;
    if zlen bytes <? name_len then Err PShort
    else
      name ← (if name_len =? 1 then name ← byte bytes 0; Ok (Some name) else Ok None);
      rest ← tail_from bytes name_len;
      Ok (name, rest).
Definition tag_value (base_type : Z) (bytes : list Z) : res PeerError (DecodedTagValue * list Z) :=
  if base_type =? TAGTYPE_STRING then
    '(len, bytes) ← split_le bytes 2; '(s, rest) ← split_bytes bytes len; Ok (VString (from_utf8_lossy s), rest)
  else if (TAGTYPE_STR1 <=? base_type) && (base_type <=? 0x20) then
    '(s, rest) ← split_bytes bytes (base_type - TAGTYPE_STR1 + 1); Ok (VString (from_utf8_lossy s), rest)
  else if base_type =? TAGTYPE_UINT32 then '(z, rest) ← split_le bytes 4; Ok (VUnsigned z, rest)
  else if base_type =? TAGTYPE_UINT64 then '(z, rest) ← split_le bytes 8; Ok (VUnsigned z, rest)
  else if base_type =? TAGTYPE_UINT16 then '(z, rest) ← split_le bytes 2; Ok (VUnsigned z, rest)
  else if (base_type =? TAGTYPE_UINT8) || (base_type =? TAGTYPE_BOOL) then
    '(z, rest) ← split_le bytes 1;
    Ok (if base_type =? TAGTYPE_BOOL then VBool (negb (z =? 0)) else VUnsigned z, rest)
  else if base_type =? TAGTYPE_FLOAT32 then '(z, rest) ← split_le bytes 4; Ok (VFloat32 z, rest)
  else if base_type =? TAGTYPE_HASH then '(h, rest) ← split_bytes bytes 16; Ok (VHash h, rest)
  else if base_type =? TAGTYPE_BOOLARRAY then
    '(bit_len, bytes) ← split_le bytes 2; '(b, rest) ← split_bytes bytes (bit_len / 8 + 1); Ok (VBoolArray b, rest)
  else if base_type =? TAGTYPE_BLOB then
    '(blob_len, bytes) ← split_le bytes 4; '(b, rest) ← split_bytes bytes blob_len; Ok (VBlob b, rest)
  else Err PUnsupported.
Definition decode_tag_value (bytes : list Z) : res PeerError (option Z * option DecodedTagValue * list Z) :=
  if zlen bytes <? 2 then Err PShort
  else
    type_byte ← byte bytes 0;
    bytes ← tail_from bytes 1;
    '(name, bytes) ← tag_name (has_flag type_byte TAG_SHORT_NAME_MASK) bytes;
    '(value, bytes) ← tag_value (Z.land type_byte 0x7F) bytes;
    Ok (name, Some value, bytes).
Definition decode_tag (bytes : list Z) : res PeerError (option Z * option (list Z) * list Z) :=
  '(name, value, rest) ← decode_tag_value bytes;
  Ok (name, match value with Some (VString s) => Some s | _ => None end, rest).

(** ** Search results *)

Record Ed2kSearchFile : Type := mkSearchFile {
  sf_file_hash : Ed2kHash;
  sf_file_name : option (list Z);
  sf_file_size : option Z;
  sf_file_type : option (list Z);
  sf_source_count : option Z
}.
Record SearchResultPage : Type := mkPage { pg_files : list Ed2kSearchFile; pg_more_results_available : bool }.
(** The fields that the tags of a result fill. *)
Record result_tags : Type := mkResultTags {
  rt_name : option (list Z);
  rt_size : option Z;
  rt_size_hi : option Z;
  rt_type : option (list Z);
  rt_sources : option Z
}.
Definition result_tag (t : result_tags) (name : option Z) (value : option DecodedTagValue) : res PeerError result_tags :=
  match name, value with
  | Some name, Some (VString s) =>
      Ok (if (name =? FT_FILENAME) && bool_decide (rt_name t = None)
          then mkResultTags (Some s) (rt_size t) (rt_size_hi t) (rt_type t) (rt_sources t)
          else if (name =? FT_FILETYPE) && bool_decide (rt_type t = None)
          then mkResultTags (rt_name t) (rt_size t) (rt_size_hi t) (Some s) (rt_sources t)
          else t)
  | Some name, Some (VUnsigned z) =>
      if name =? FT_FILESIZE then Ok (mkResultTags (rt_name t) (Some z) (rt_size_hi t) (rt_type t) (rt_sources t))
      else if name =? FT_FILESIZE_HI then Ok (mkResultTags (rt_name t) (rt_size t) (Some z) (rt_type t) (rt_sources t))
      else if name =? FT_SOURCES then
        match try_from_u 32 z with
        | None => Err PTooLarge
        | Some z => Ok (mkResultTags (rt_name t) (rt_size t) (rt_size_hi t) (rt_type t) (Some z))
        end
      else Ok t
  | _, _ => Ok t
  end.
Fixpoint result_tags_loop (fuel : nat) (count : Z) (cursor : list Z) (t : result_tags) : res PeerError (result_tags * list Z) :=
  if count =? 0 then Ok (t, cursor)
  else
    match fuel with
    | O => Err PShort
    | S fuel' =>
        '(name, value, rest) ← decode_tag_value cursor;
        t ← result_tag t name value;
        result_tags_loop fuel' (count - 1) rest t
    end.
Definition shifted_size (upper : Z) : Z := (upper * 2 ^ 32) mod 2 ^ 64.
Definition result_size (size size_hi : option Z) : option Z :=
  match size, size_hi with
  | Some value, Some upper =>
      if (value <=? U32_MAX) && negb (upper =? 0) then Some (Z.lor (shifted_size upper) value) else Some value
  | Some value, None => Some value
  | None, Some upper => Some (shifted_size upper)
  | None, None => None
  end.
Fixpoint result_files_loop (fuel : nat) (count : Z) (cursor : list Z) (files : list Ed2kSearchFile)
    : res PeerError (list Ed2kSearchFile * list Z) :=
  if count =? 0 then Ok (files, cursor)
  else
    match fuel with
    | O => Err PShort
    | S fuel' =>
        if zlen cursor <? 26 then Err PShort
        else
          file_hash ← range cursor 0 16;
          tag_count ← le_at cursor 22 4;
          cursor ← tail_from cursor 26;
          '((t, cursor) : result_tags * list Z) ← result_tags_loop (length cursor) tag_count cursor (mkResultTags None None None None None);
          result_files_loop fuel' (count - 1) cursor
            (files ++ [mkSearchFile file_hash (rt_name t) (result_size (rt_size t) (rt_size_hi t)) (rt_type t) (rt_sources t)])
    end.
Definition udp_chain_matches (payload : list Z) (opcode : Z) : bool :=
  match payload with a :: b :: _ => (a =? OP_EDONKEYPROT) && (b =? opcode) | _ => false end.
Definition is_more_marker (b : Z) : bool := (b =? 0) || (b =? 1).
Definition result_trailer (cursor : list Z) : res PeerError (bool * list Z) :=
  match cursor with
  | [] => Ok (false, [])
  | [marker] => if is_more_marker marker then Ok (negb (marker =? 0), []) else Err PUnsupported
  | marker :: rest =>
      if is_more_marker marker && udp_chain_matches rest OP_GLOBSEARCHRES then rest ← tail_from rest 2; Ok (negb (marker =? 0), rest)
      else if udp_chain_matches cursor OP_GLOBSEARCHRES then rest ← tail_from cursor 2; Ok (false, rest)
      else Err PSize
  end.
Definition decode_search_result_page_from (payload : list Z) : res PeerError (SearchResultPage * list Z) :=
  if zlen payload <? 4 then Err PShort
  else
    count ← le_at payload 0 4;
    cursor ← tail_from payload 4;
    '((files, cursor) : list Ed2kSearchFile * list Z) ← result_files_loop (length cursor) count cursor [];
    '((more, rest) : bool * list Z) ← result_trailer cursor;
    Ok (mkPage files more, rest).
Definition decode_search_result_page (payload : list Z) : res PeerError SearchResultPage :=
  '((page, rest) : SearchResultPage * list Z) ← decode_search_result_page_from payload;
  match rest with [] => Ok page | _ => Err PSize end.
Fixpoint udp_pages_loop (fuel : nat) (cursor : list Z) (pages : list SearchResultPage) : res PeerError (list SearchResultPage) :=
  match cursor with
  | [] => Ok pages
  | _ =>
      match fuel with
      | O => Err PShort
      | S fuel' =>
          '((page, rest) : SearchResultPage * list Z) ← decode_search_result_page_from cursor;
          udp_pages_loop fuel' rest (pages ++ [page])
      end
  end.
Definition decode_udp_search_result_pages (payload : list Z) : res PeerError (list SearchResultPage) :=
  udp_pages_loop (length payload) payload [].

(** ** Found sources *)

Record Ed2kFoundSource : Type := mkFoundSource {
  fs_file_hash : Ed2kHash;
  fs_ip : Ipv4Addr;
  fs_tcp_port : Z;
  fs_client_id : Z;
  fs_low_id : bool;
  fs_obfuscated : bool;
  fs_obfuscation_options : option Z;
  fs_user_hash : option (list Z);
  fs_source_server : option SocketAddr
}.
Definition is_direct_dialable (s : Ed2kFoundSource) : bool := negb (fs_low_id s).
Definition ipv4_from_client_id (client_id : Z) : Ipv4Addr := ip_of_octets (to_le_bytes 4 client_id).
(** The options of an obfuscated source, and its user hash when they announce it. *)
Definition source_options (obfuscated : bool) (cursor : list Z) : res PeerError (option Z * option (list Z) * list Z) :=
  if obfuscated then
    match cursor with
    | [] => Err PShort
    | options :: cursor =>
        if has_flag options SOURCE_OBFUSCATION_USER_HASH_PRESENT
        then '(hash, rest) ← split_bytes cursor 16; Ok (Some options, Some hash, rest)
        else Ok (Some options, None, cursor)
    end
  else Ok (None, None, cursor).
Fixpoint found_sources_loop (count : nat) (file_hash : Ed2kHash) (obfuscated : bool) (cursor : list Z) (results : list Ed2kFoundSource)
    : res PeerError (list Ed2kFoundSource * list Z) :=
  match count with
  | O => Ok (results, cursor)
  | S count' =>
      if zlen cursor <? 6 then Err PShort
      else
        client_id ← le_at cursor 0 4;
        tcp_port ← le_at cursor 4 2;
        cursor ← tail_from cursor 6;
        '((options, user_hash, cursor) : option Z * option (list Z) * list Z) ← source_options obfuscated cursor;
        found_sources_loop count' file_hash obfuscated cursor
          (results ++ [mkFoundSource file_hash (ipv4_from_client_id client_id) tcp_port client_id (is_low_id client_id) obfuscated options
                         user_hash None])
  end.
Definition decode_found_sources_from (payload : list Z) (obfuscated : bool) : res PeerError (list Ed2kFoundSource * list Z) :=
  if zlen payload <? 17 then Err PShort
  else
    file_hash ← range payload 0 16;
    count ← byte payload 16;
    cursor ← tail_from payload 17;
    '((results, cursor) : list Ed2kFoundSource * list Z) ← found_sources_loop (Z.to_nat count) file_hash obfuscated cursor [];
    rest ← (if udp_chain_matches cursor OP_GLOBFOUNDSOURCES then tail_from cursor 2 else Ok cursor);
    Ok (results, rest).
Definition decode_found_sources (payload : list Z) (obfuscated : bool) : res PeerError (list Ed2kFoundSource) :=
  '((results, rest) : list Ed2kFoundSource * list Z) ← decode_found_sources_from payload obfuscated;
  match rest with [] => Ok results | _ => Err PSize end.
Fixpoint udp_sources_loop (fuel : nat) (cursor : list Z) (sets : list (list Ed2kFoundSource)) : res PeerError (list (list Ed2kFoundSource)) :=
  match cursor with
  | [] => Ok sets
  | _ =>
      match fuel with
      | O => Err PShort
      | S fuel' =>
          '((sources, rest) : list Ed2kFoundSource * list Z) ← decode_found_sources_from cursor false;
          udp_sources_loop fuel' rest (sets ++ [sources])
      end
  end.
Definition decode_udp_found_source_sets (payload : list Z) : res PeerError (list (list Ed2kFoundSource)) :=
  udp_sources_loop (length payload) payload [].

Definition set_source_server (endpoint : option SocketAddr) (s : Ed2kFoundSource) : Ed2kFoundSource :=
  mkFoundSource (fs_file_hash s) (fs_ip s) (fs_tcp_port s) (fs_client_id s) (fs_low_id s) (fs_obfuscated s) (fs_obfuscation_options s)
    (fs_user_hash s) endpoint.
Definition annotate_found_sources_server (results : list Ed2kFoundSource) (server_endpoint : SocketAddr) : list Ed2kFoundSource :=
  set_source_server (Some server_endpoint) <$> results.
Definition validate_found_sources (results : list Ed2kFoundSource) (expected_file_hash : Ed2kHash) : res PeerError () :=
  if forallb (λ s, bool_decide (fs_file_hash s = expected_file_hash)) results then Ok () else Err PMismatch.
Definition same_source (a b : Ed2kFoundSource) : bool :=
  bool_decide (fs_ip a = fs_ip b) && (fs_tcp_port a =? fs_tcp_port b) &&
  bool_decide (fs_obfuscation_options a = fs_obfuscation_options b) && bool_decide (fs_user_hash a = fs_user_hash b).
Definition merge_found_source (aggregated : list Ed2kFoundSource) (source : Ed2kFoundSource) : list Ed2kFoundSource :=
  match position (λ existing, same_source existing source) aggregated with
  | Some i =>
      alter (λ existing, if bool_decide (fs_source_server existing = None) && bool_decide (is_Some (fs_source_server source))
                         then set_source_server (fs_source_server source) existing else existing) i aggregated
  | None => aggregated ++ [source]
  end.
Definition merge_found_sources (aggregated new_results : list Ed2kFoundSource) : list Ed2kFoundSource :=
  foldl merge_found_source aggregated new_results.

(** ** The other messages of a server *)

Record IdChangePayload : Type := mkIdChange { ic_client_id : Z; ic_server_flags : option Z; ic_reported_client_ip : option Ipv4Addr }.
Definition decode_id_change_payload (payload : list Z) : res PeerError IdChangePayload :=
  if zlen payload <? 4 then Err PShort
  else
    client_id ← le_at payload 0 4;
    server_flags ← (if 8 <=? zlen payload then flags ← le_at payload 4 4; Ok (Some flags) else Ok None);
    reported ← (if 16 <=? zlen payload
                then id ← le_at payload 12 4; Ok (if is_low_id id then None else Some (ipv4_from_client_id id))
                else Ok None);
    Ok (mkIdChange client_id server_flags reported).
Record CallbackRequest : Type := mkCallback { cb_peer_addr : SocketAddr; cb_connect_options : option Z; cb_user_hash : option (list Z) }.
Definition decode_callback_request (payload : list Z) : res PeerError (option CallbackRequest) :=
  if zlen payload <? 6 then Ok None
  else
    id ← le_at payload 0 4;
    port ← le_at payload 4 2;
    '((options, hash) : option Z * option (list Z)) ←
      (if 23 <=? zlen payload
       then options ← byte payload 6; hash ← range payload 7 23; Ok (Some options, Some hash)
       else Ok (None, None));
    Ok (Some (mkCallback (mkSocketAddr (V4 (ipv4_from_client_id id)) port) options hash)).
Fixpoint ident_tags_loop (fuel : nat) (count : Z) (cursor : list Z) (name description : option (list Z))
    : res PeerError (option (list Z) * option (list Z)) :=
  if count =? 0 then Ok (name, description)
  else
    match fuel with
    | O => Err PShort
    | S fuel' =>
        '((tag, value, rest) : option Z * option (list Z) * list Z) ← decode_tag cursor;
        if bool_decide (tag = Some ST_SERVERNAME) then ident_tags_loop fuel' (count - 1) rest value description
        else if bool_decide (tag = Some ST_DESCRIPTION) then ident_tags_loop fuel' (count - 1) rest name value
        else ident_tags_loop fuel' (count - 1) rest name description
    end.
Definition decode_server_ident (payload : list Z) : res PeerError (option (list Z) * option (list Z)) :=
  if zlen payload <? 26 then Ok (None, None)
  else
    tag_count ← le_at payload 22 4;
    cursor ← tail_from payload 26;
    ident_tags_loop (length cursor) tag_count cursor None None.

(** ** Requests *)

Definition server_version_tag : Z :=
  Z.lor (Z.lor (Z.shiftl EMULE_VERSION_MAJOR 17) (Z.shiftl EMULE_VERSION_MINOR 10)) (Z.shiftl EMULE_VERSION_UPDATE 7).
Definition server_capabilities (connect_options : Z) : Z :=
  let flags := Z.lor (Z.lor (Z.lor SRVCAP_ZLIB SRVCAP_NEWTAGS) SRVCAP_LARGEFILES) SRVCAP_UNICODE in
  let flags := if has_flag connect_options 0x01 then Z.lor flags SRVCAP_SUPPORTCRYPT else flags in
  let flags := if has_flag connect_options 0x02 then Z.lor flags SRVCAP_REQUESTCRYPT else flags in
  if has_flag connect_options 0x04 then Z.lor flags SRVCAP_REQUIRECRYPT else flags.
Definition encode_login_request (i : Ed2kHelloIdentity) : res PeerError (list Z) :=
  nick ← push_string_tag CT_NAME HELLO_NICKNAME;
  Ok (hi_user_hash i ++ to_le_bytes 4 0 ++ to_le_bytes 2 (hi_tcp_port i) ++ to_le_bytes 4 4 ++ nick ++
      push_u32_tag CT_VERSION EDONKEY_VERSION ++ push_u32_tag CT_SERVER_FLAGS (server_capabilities (hi_connect_options i)) ++
      push_u32_tag CT_EMULE_VERSION server_version_tag).

Definition advertised_client_endpoint_for_offer_file (client_id : option Z) (tcp_port : Z) (server_flags : option Z) : Z * Z :=
  if has_flag (default 0 server_flags) SERVER_TCP_FLAG_COMPRESSION
  then (OFFER_FILE_COMPLETE_SENTINEL_CLIENT_ID, OFFER_FILE_COMPLETE_SENTINEL_CLIENT_PORT)
  else match client_id with Some id => if is_low_id id then (0, 0) else (id, tcp_port) | None => (0, 0) end.
Definition ed2k_offer_file_type (file_name : list Z) : Z :=
  let extension := to_ascii_lowercase (default [] (last (split_on 46 file_name []))) in
  let any l := existsb (λ e, bool_decide (extension = e)) l in
  if any [lit "avi"; lit "mp4"; lit "mkv"; lit "mov"; lit "wmv"; lit "mpeg"; lit "mpg"] then ED2K_FILETYPE_VIDEO
  else if any [lit "mp3"; lit "flac"; lit "ogg"; lit "wav"; lit "aac"; lit "m4a"] then ED2K_FILETYPE_AUDIO
  else if any [lit "zip"; lit "rar"; lit "7z"; lit "tar"; lit "gz"; lit "bz2"] then ED2K_FILETYPE_ARCHIVE
  else if any [lit "pdf"; lit "doc"; lit "docx"; lit "txt"; lit "rtf"; lit "epub"] then ED2K_FILETYPE_DOCUMENT
  else ED2K_FILETYPE_PROGRAM.
(** A file as it is offered: hash, name, size and type. *)
Definition offered : Type := list Z * list Z * Z * Z.
Definition popular_hash_offer_file (e : Ed2kSharedEntry) : res PeerError (option offered) :=
  match hash_from_str (se_file_hash e) with
  | Ok h => Ok (Some (h, se_canonical_name e, se_file_size e, ed2k_offer_file_type (se_canonical_name e)))
  | Err _ => Ok None
  | Panic => Panic
  end.
(** The first [n] entries that can be offered; the entries after them are not looked at. *)
Fixpoint offered_take (n : nat) (l : list Ed2kSharedEntry) : res PeerError (list offered) :=
  match n, l with
  | O, _ | _, [] => Ok []
  | S n', e :: l' =>
      f ← popular_hash_offer_file e;
      match f with Some f => rest ← offered_take n' l'; Ok (f :: rest) | None => offered_take n l' end
  end.
Definition or_sample (l : list offered) : list offered :=
  match l with
  | [] => [(OFFER_FILE_SAMPLE_HASH, OFFER_FILE_SAMPLE_NAME, OFFER_FILE_SAMPLE_SIZE, ED2K_FILETYPE_PROGRAM)]
  | _ => l
  end.
Definition offered_files_catalog (shared_catalog : list Ed2kSharedEntry) : res PeerError (list offered) :=
  l ← offered_take 200 shared_catalog; Ok (or_sample l).
Definition offer_file (client_id client_port : Z) (f : offered) : res PeerError (list Z) :=
  let '(file_hash, file_name, file_size, file_type) := f in
  let lower := file_size mod 2 ^ 32 in
  let upper := default U32_MAX (try_from_u 32 (Z.shiftr file_size 32)) in
  name ← push_short_string_tag FT_FILENAME file_name;
  Ok (file_hash ++ to_le_bytes 4 client_id ++ to_le_bytes 2 client_port ++ to_le_bytes 4 (if upper =? 0 then 3 else 4) ++ name ++
      push_short_u32_tag FT_FILESIZE lower ++ (if upper =? 0 then [] else push_short_u32_tag FT_FILESIZE_HI upper) ++
      push_short_u8_tag FT_FILETYPE file_type).
Fixpoint offer_files (client_id client_port : Z) (l : list offered) : res PeerError (list Z) :=
  match l with
  | [] => Ok []
  | f :: l' => b ← offer_file client_id client_port f; rest ← offer_files client_id client_port l'; Ok (b ++ rest)
  end.
Definition encode_offer_files_payload (shared_catalog : list Ed2kSharedEntry) (client_id : option Z) (tcp_port : Z) (server_flags : option Z)
    : res PeerError (list Z) :=
  let '(advertised_id, advertised_port) := advertised_client_endpoint_for_offer_file client_id tcp_port server_flags in
  l ← offered_files_catalog shared_catalog;
  count ← expect (try_from_u 32 (zlen l));
  body ← offer_files advertised_id advertised_port l;
  Ok (to_le_bytes 4 count ++ body).

Definition encode_source_request (file_hash : Ed2kHash) (file_size : Z) : list Z :=
  if file_size =? 0 then file_hash
  else file_hash ++ (if U32_MAX <? file_size then to_le_bytes 4 0 ++ to_le_bytes 8 file_size else to_le_bytes 4 (file_size mod 2 ^ 32)).
Definition encode_udp_search_request (udp_flags : Z) (search_payload : list Z) : Z * list Z :=
  if has_flag udp_flags SERVER_UDP_FLAG_EXT_GETFILES && has_flag udp_flags SERVER_UDP_FLAG_LARGEFILES then
    (OP_GLOBSEARCHREQ3, to_le_bytes 4 1 ++ push_u32_tag CT_SERVER_UDPSEARCH_FLAGS SRVCAP_UDP_NEWTAGS_LARGEFILES ++ search_payload)
  else if has_flag udp_flags SERVER_UDP_FLAG_EXT_GETFILES then (OP_GLOBSEARCHREQ2, search_payload)
  else (OP_GLOBSEARCHREQ, search_payload).
Definition encode_udp_source_request (udp_flags : Z) (file_hash : Ed2kHash) (file_size : Z) : Z * list Z :=
  if has_flag udp_flags SERVER_UDP_FLAG_EXT_GETSOURCES2 then (OP_GLOBGETSOURCES2, encode_source_request file_hash file_size)
  else (OP_GLOBGETSOURCES, file_hash).
Definition source_request_opcode (connect_options : Z) (server_flags : option Z) : Z :=
  if negb (connect_options =? 0) && has_flag (default 0 server_flags) SERVER_TCP_FLAG_TCPOBFUSCATION
  then OP_GETSOURCES_OBFU else OP_GETSOURCES.

(** ** Messages are typed *)

Definition utf8_text (s : list Z) : Prop := is_bytes s = true ∧ utf8_valid s = true.
Definition some_of {A} (P : A → Prop) (o : option A) : Prop := ∀ a, o = Some a → P a.
Definition value_ok (v : DecodedTagValue) : Prop :=
  match v with
  | VString s => utf8_text s
  | VUnsigned z => 0 ≤ z < 2 ^ 64
  | VBool _ => True
  | VFloat32 z => 0 ≤ z < 2 ^ 32
  | VHash h => hash_ok h
  | VBlob b | VBoolArray b => is_bytes b = true
  end.
Definition file_ok (f : Ed2kSearchFile) : Prop :=
  hash_ok (sf_file_hash f) ∧ some_of utf8_text (sf_file_name f) ∧ some_of (λ z, 0 ≤ z < 2 ^ 64) (sf_file_size f) ∧
  some_of utf8_text (sf_file_type f) ∧ some_of (λ z, 0 ≤ z < 2 ^ 32) (sf_source_count f).
Definition ip_ok (ip : Ipv4Addr) : Prop := is_bytes (octets ip) = true.
Definition found_ok (s : Ed2kFoundSource) : Prop :=
  hash_ok (fs_file_hash s) ∧ ip_ok (fs_ip s) ∧ 0 ≤ fs_tcp_port s < 2 ^ 16 ∧ 0 ≤ fs_client_id s < 2 ^ 32 ∧
  fs_low_id s = is_low_id (fs_client_id s) ∧ fs_ip s = ipv4_from_client_id (fs_client_id s) ∧ some_of (λ z, 0 ≤ z < 2 ^ 8) (fs_obfuscation_options s) ∧
  some_of hash_ok (fs_user_hash s).

Lemma lossy_text l : is_bytes l = true → utf8_text (from_utf8_lossy l).
Proof. intros Hl. split; [by apply is_bytes_lossy|apply lossy_is_valid]. Qed.
Lemma server_safe_split bytes n : is_bytes bytes = true → 0 ≤ n →
  safe (λ '(v, rest), is_bytes v = true ∧ zlen v = n ∧ is_bytes rest = true ∧ zlen rest = zlen bytes - n) (split_bytes bytes n).
Proof.
  intros Hb Hn. unfold split_bytes. destruct (Z.ltb_spec (zlen bytes) n); [done|].
  eapply safe_bind; [apply safe_range; [done|lia|lia]|]. intros v [Hv Hz]. eapply safe_bind; [apply safe_tail; [done|lia]|]. intros r [Hr Hrz].
  cbn. split_and!; try done. lia.
Qed.
Lemma safe_split_le bytes n : is_bytes bytes = true → 0 ≤ n →
  safe (λ '(z, rest), 0 ≤ z < 256 ^ n ∧ is_bytes rest = true ∧ zlen rest = zlen bytes - n) (split_le bytes n).
Proof.
  intros Hb Hn. eapply safe_bind; [by apply server_safe_split|]. intros [v rest] (Hv & Hz & Hr & Hrz). cbn. pose proof (from_le_bytes_bound v Hv) as Hbd.
  unfold zlen in Hz. replace (Z.of_nat (length v)) with n in Hbd by lia. done.
Qed.
Lemma server_safe_tag_name short bytes : is_bytes bytes = true → 1 ≤ zlen bytes →
  safe (λ '(_, rest), is_bytes rest = true ∧ zlen rest ≤ zlen bytes - 1) (tag_name short bytes).
Proof.
  intros Hb Hl. unfold tag_name. destruct short.
  - eapply safe_bind; [apply safe_byte; [done|lia]|]. intros name _. eapply safe_bind; [apply safe_tail; [done|lia]|]. intros r [Hr Hz].
    cbn. split; [done|lia].
  - eapply safe_bind; [apply safe_split_le; [done|lia]|]. intros [n rest] (Hn & Hr & Hz). case_match; bool_hyps; [done|].
    eapply safe_bind with (λ _, True).
    { case_match; bool_hyps; [|done]. eapply safe_bind; [apply safe_byte; [done|lia]|done]. }
    intros name _. eapply safe_bind; [apply safe_tail; [done|lia]|]. intros r [Hr' Hz']. cbn. split; [done|lia].
Qed.
Lemma server_safe_tag_value base bytes : is_bytes bytes = true →
  safe (λ '(v, rest), value_ok v ∧ is_bytes rest = true ∧ zlen rest ≤ zlen bytes) (tag_value base bytes).
Proof.
  intros Hb. unfold tag_value.
  assert (Hle : ∀ n (f : Z → DecodedTagValue), 0 ≤ n → (∀ z, 0 ≤ z < 256 ^ n → value_ok (f z)) →
    safe (λ '(v, rest), value_ok v ∧ is_bytes rest = true ∧ zlen rest ≤ zlen bytes) ('(z, rest) ← split_le bytes n; Ok (f z, rest))).
  { intros n f Hn Hf. eapply safe_bind; [by apply safe_split_le|]. intros [z rest] (Hz & Hr & Hl). cbn. split_and!; [by apply Hf|done|lia]. }
  assert (Hbytes : ∀ bytes' n (f : list Z → DecodedTagValue), is_bytes bytes' = true → zlen bytes' ≤ zlen bytes → 0 ≤ n →
    (∀ b, is_bytes b = true → zlen b = n → value_ok (f b)) →
    safe (λ '(v, rest), value_ok v ∧ is_bytes rest = true ∧ zlen rest ≤ zlen bytes) ('(b, rest) ← split_bytes bytes' n; Ok (f b, rest))).
  { intros bytes' n f Hb' Hle' Hn Hf. eapply safe_bind; [by apply server_safe_split|]. intros [b rest] (Hv & Hz & Hr & Hl). cbn.
    split_and!; [by apply Hf|done|lia]. }
  repeat (case_match; bool_hyps); try done; try (by apply Hle; [lia|cbn; intros; lia]);
    try (eapply safe_bind; [apply safe_split_le; [done|lia]|]; intros [n rest] (Hn & Hr & Hl); apply Hbytes; [done|lia|try lia; pose proof (Z.div_pos n 8); lia|]);
    try (intros b Hb' Hlen; cbn; by apply lossy_text || done).
  - apply Hbytes; [done|lia|unfold TAGTYPE_STR1 in *; lia|]. intros b Hb' _. by apply lossy_text.
  - apply Hbytes; [done|lia|lia|]. by intros b Hb' Hz.
Qed.
Lemma server_safe_tag bytes : is_bytes bytes = true →
  safe (λ '(_, v, rest), some_of value_ok v ∧ is_bytes rest = true ∧ zlen rest ≤ zlen bytes - 2) (decode_tag_value bytes).
Proof.
  intros Hb. unfold decode_tag_value. case_match; bool_hyps; [done|]. eapply safe_bind; [apply safe_byte; [done|lia]|]. intros t _.
  eapply safe_bind; [apply safe_tail; [done|lia]|]. intros r [Hr Hz]. eapply safe_bind; [apply server_safe_tag_name; [done|lia]|]. intros [name r'] [Hr' Hz'].
  eapply safe_bind; [by apply server_safe_tag_value|]. intros [v r''] (Hv & Hr'' & Hz''). cbn. split; [by intros v' [= <-]|]. split; [done|lia].
Qed.
Definition tags_ok (t : result_tags) : Prop :=
  some_of utf8_text (rt_name t) ∧ some_of (λ z, 0 ≤ z < 2 ^ 64) (rt_size t) ∧ some_of (λ z, 0 ≤ z < 2 ^ 64) (rt_size_hi t) ∧
  some_of utf8_text (rt_type t) ∧ some_of (λ z, 0 ≤ z < 2 ^ 32) (rt_sources t).
Lemma safe_result_tag t name v : tags_ok t → some_of value_ok v → safe tags_ok (result_tag t name v).
Proof.
  intros (Hn & Hs & Hh & Ht & Hc) Hv. unfold result_tag. destruct name as [name|]; [|done]. destruct v as [v|]; [|done].
  specialize (Hv v eq_refl). destruct v as [s|z|b|z|h|b|b]; try done; cbn in Hv.
  - cbn [safe]. repeat case_match; (split_and!; cbn; try done; by intros x [= <-]).
  - repeat case_match; cbn [safe]; try done; (split_and!; cbn; try done); intros x [= <-]; try done.
    by match goal with H : try_from_u 32 _ = Some _ |- _ => apply try_from_u_Some in H as [-> H] end.
Qed.
Lemma safe_result_tags fuel count cursor t : is_bytes cursor = true → tags_ok t →
  safe (λ '(t', rest), tags_ok t' ∧ is_bytes rest = true ∧ zlen rest ≤ zlen cursor) (result_tags_loop fuel count cursor t).
Proof.
  revert count cursor t. induction fuel as [|fuel IH]; intros count cursor t Hc Ht; cbn [result_tags_loop]; case_match; try (by cbn; split_and!; [| |lia]); [done|].
  eapply safe_bind; [by apply server_safe_tag|]. intros [[name v] rest] (Hv & Hr & Hz). eapply safe_bind; [by apply safe_result_tag|]. intros t' Ht'.
  eapply safe_weaken; [by apply IH|]. intros [t'' r] (? & ? & ?). split_and!; try done. lia.
Qed.
Lemma shifted_bound z : 0 ≤ shifted_size z < 2 ^ 64.
Proof. unfold shifted_size. apply Z.mod_pos_bound. lia. Qed.
Lemma result_size_ok size hi : some_of (λ z, 0 ≤ z < 2 ^ 64) size → some_of (λ z, 0 ≤ z < 2 ^ 64) hi →
  some_of (λ z, 0 ≤ z < 2 ^ 64) (result_size size hi).
Proof.
  intros Hs Hh z. unfold result_size. destruct size as [v|], hi as [u|]; try done.
  - specialize (Hs v eq_refl). case_match; bool_hyps; intros [= <-]; [|done]. apply lor_bound; [lia|apply shifted_bound|done].
  - intros [= <-]. by apply Hs.
  - intros [= <-]. apply shifted_bound.
Qed.
Lemma safe_result_files fuel count cursor files : is_bytes cursor = true → Forall file_ok files →
  safe (λ '(l, rest), Forall file_ok l ∧ is_bytes rest = true ∧ zlen rest ≤ zlen cursor) (result_files_loop fuel count cursor files).
Proof.
  revert count cursor files. induction fuel as [|fuel IH]; intros count cursor files Hc Hf; cbn [result_files_loop]; case_match;
    try (by cbn; split_and!; [| |lia]); [done|].
  case_match; bool_hyps; [done|]. eapply safe_bind; [apply safe_range; [done|lia|lia]|]. intros h Hh.
  eapply safe_bind; [apply safe_le; [done|lia..]|]. intros n _. eapply safe_bind; [apply safe_tail; [done|lia]|]. intros r [Hr Hz].
  eapply safe_bind; [by apply safe_result_tags|]. intros [t r'] ((Hn & Hs & Hh' & Ht & Hcn) & Hr' & Hz').
  eapply safe_weaken; [apply IH; [done|]|intros [l rest] (? & ? & ?); split_and!; try done; lia].
  apply Forall_app_2; [done|]. constructor; [|constructor]. split_and!; cbn; try done. by apply result_size_ok.
Qed.
Lemma safe_trailer cursor : is_bytes cursor = true → safe (λ '(_, rest), is_bytes rest = true ∧ zlen rest ≤ zlen cursor) (result_trailer cursor).
Proof.
  intros Hc. unfold result_trailer. destruct cursor as [|m [|x l]]; [by cbn; split; [|lia]|case_match; [|done]; cbn; split; [done|rewrite zlen_cons; pose proof (zlen_nonneg (A:=Z) []); lia]|].
  assert (Hl : 2 ≤ zlen (m :: x :: l)) by (rewrite !zlen_cons; pose proof (zlen_nonneg l); lia). repeat case_match; try done; bool_hyps.
  - assert (Hch : 2 ≤ zlen (x :: l)) by (destruct l; [done|]; rewrite !zlen_cons; pose proof (zlen_nonneg l); lia).
    eapply safe_bind; [apply safe_tail; [|lia]|].
    { unfold is_bytes in *. cbn in Hc. bool_hyps. cbn. by rewrite !andb_true_iff. }
    intros r [Hr Hz]. cbn. split; [done|]. rewrite zlen_cons. lia.
  - eapply safe_bind; [apply safe_tail; [done|lia]|]. intros r [Hr Hz]. cbn. split; [done|lia].
Qed.
Lemma safe_page_from payload : is_bytes payload = true →
  safe (λ '(page, rest), Forall file_ok (pg_files page) ∧ is_bytes rest = true ∧ zlen rest ≤ zlen payload - 4) (decode_search_result_page_from payload).
Proof.
  intros Hp. unfold decode_search_result_page_from. case_match; bool_hyps; [done|]. eapply safe_bind; [apply safe_le; [done|lia..]|]. intros n _.
  eapply safe_bind; [apply safe_tail; [done|lia]|]. intros c [Hc Hz]. eapply safe_bind; [by apply safe_result_files|]. intros [files r] (Hf & Hr & Hz').
  eapply safe_bind; [by apply safe_trailer|]. intros [more rest] [Hrest Hz'']. cbn. split_and!; [done..|lia].
Qed.
Lemma safe_page payload : is_bytes payload = true → safe (λ page, Forall file_ok (pg_files page)) (decode_search_result_page payload).
Proof. intros Hp. eapply safe_bind; [by apply safe_page_from|]. intros [page rest] (Hf & _). by case_match. Qed.
Lemma safe_udp_pages fuel cursor pages : is_bytes cursor = true → Forall (λ page, Forall file_ok (pg_files page)) pages →
  safe (Forall (λ page, Forall file_ok (pg_files page))) (udp_pages_loop fuel cursor pages).
Proof.
  revert cursor pages. induction fuel as [|fuel IH]; intros [|b l] pages Hc Hp; cbn [udp_pages_loop]; try done.
  eapply safe_bind; [by apply safe_page_from|]. intros [page rest] (Hf & Hr & _). apply IH; [done|]. by apply Forall_app_2; [|constructor].
Qed.

Lemma bytes_cons b l : is_bytes (b :: l) = true → 0 ≤ b < 256 ∧ is_bytes l = true.
Proof. unfold is_bytes. cbn. intros [Hb Hl]%andb_true_iff. split; [|done]. unfold is_u8, is_u in Hb. bool_hyps. lia. Qed.
Lemma safe_source_options obfuscated cursor : is_bytes cursor = true →
  safe (λ '(options, hash, rest), some_of (λ z, 0 ≤ z < 2 ^ 8) options ∧ some_of hash_ok hash ∧ is_bytes rest = true ∧ zlen rest ≤ zlen cursor)
    (source_options obfuscated cursor).
Proof.
  intros Hc. unfold source_options. destruct obfuscated; [|by cbn; split_and!; [..|lia]]. destruct cursor as [|b l]; [done|].
  apply bytes_cons in Hc as [Hb Hl]. rewrite zlen_cons. case_match.
  - eapply safe_bind; [apply server_safe_split; [done|lia]|]. intros [h rest] (Hh & Hz & Hr & Hz'). cbn. split_and!; [by intros x [= <-]|by intros x [= <-]|done|lia].
  - cbn. split_and!; [by intros x [= <-]|done|done|lia].
Qed.
Lemma client_ip_ok id : ip_ok (ipv4_from_client_id id).
Proof.
  unfold ip_ok, ipv4_from_client_id, ip_of_octets, octets. pose proof (is_bytes_to_le 4 id) as Hb. pose proof (length_to_le_bytes 4 id) as Hl.
  by destruct (to_le_bytes 4 id) as [|a [|b [|c [|d [|e l]]]]].
Qed.
Lemma safe_server_sources count h obfuscated cursor results : is_bytes cursor = true → hash_ok h → Forall found_ok results →
  Forall (λ s, fs_file_hash s = h) results →
  safe (λ '(l, rest), Forall found_ok l ∧ Forall (λ s, fs_file_hash s = h) l ∧ is_bytes rest = true ∧ zlen rest ≤ zlen cursor)
    (found_sources_loop count h obfuscated cursor results).
Proof.
  intros Hc Hh. revert cursor results Hc. induction count as [|count IH]; intros cursor results Hc Hs Hr; cbn [found_sources_loop]; [by cbn; split_and!; [..|lia]|].
  case_match; bool_hyps; [done|]. eapply safe_bind; [apply safe_le; [done|lia..]|]. intros id Hid. eapply safe_bind; [apply safe_le; [done|lia..]|].
  intros port Hport. eapply safe_bind; [apply safe_tail; [done|lia]|]. intros c [Hc' Hz]. eapply safe_bind; [by apply safe_source_options|].
  intros [[options user] c'] (Ho & Hu & Hc'' & Hz'). eapply safe_weaken; [apply IH; [done|..]|].
  - apply Forall_app_2; [done|]. constructor; [|constructor]. cbv beta in Hid, Hport. split_and!; cbn; try done; try lia. apply client_ip_ok.
  - apply Forall_app_2; [done|]. by constructor.
  - intros [l rest] (? & ? & ? & ?). split_and!; try done. lia.
Qed.
Lemma safe_sources_from payload obfuscated : is_bytes payload = true →
  safe (λ '(l, rest), Forall found_ok l ∧ is_bytes rest = true ∧ zlen rest ≤ zlen payload - 17) (decode_found_sources_from payload obfuscated).
Proof.
  intros Hp. unfold decode_found_sources_from. case_match; bool_hyps; [done|]. eapply safe_bind; [apply safe_range; [done|lia|lia]|]. intros h Hh.
  eapply safe_bind; [apply safe_byte; [done|lia]|]. intros n _. eapply safe_bind; [apply safe_tail; [done|lia]|]. intros c [Hc Hz].
  eapply safe_bind; [by apply (safe_server_sources (Z.to_nat n) h)|]. intros [l r] (Hl & _ & Hr & Hz').
  eapply safe_bind with (λ rest, is_bytes rest = true ∧ zlen rest ≤ zlen r).
  - case_match; [|by cbn; split; [|lia]]. eapply safe_weaken; [apply safe_tail; [done|]|intros rest [? ?]; split; [done|lia]].
    destruct r as [|a [|b r]]; try done. rewrite !zlen_cons. pose proof (zlen_nonneg r). lia.
  - intros rest [Hrest Hz'']. cbn. split_and!; [done..|lia].
Qed.
Lemma safe_found_sources payload obfuscated : is_bytes payload = true → safe (Forall found_ok) (decode_found_sources payload obfuscated).
Proof. intros Hp. eapply safe_bind; [by apply safe_sources_from|]. intros [l rest] (Hl & _). by case_match. Qed.
Lemma safe_udp_sources fuel cursor sets : is_bytes cursor = true → Forall (Forall found_ok) sets →
  safe (Forall (Forall found_ok)) (udp_sources_loop fuel cursor sets).
Proof.
  revert cursor sets. induction fuel as [|fuel IH]; intros [|b l] sets Hc Hp; cbn [udp_sources_loop]; try done.
  eapply safe_bind; [by apply safe_sources_from|]. intros [s rest] (Hf & Hr & _). apply IH; [done|]. by apply Forall_app_2; [|constructor].
Qed.
Lemma safe_ed2k_string payload : is_bytes payload = true → safe (some_of utf8_text) (decode_ed2k_string payload).
Proof.
  intros Hp. unfold decode_ed2k_string. case_match; [done|]. bool_hyps. eapply safe_bind; [apply safe_le; [done|lia..]|]. intros n Hn. cbv beta in Hn.
  case_match; bool_hyps; [done|]. eapply safe_bind; [apply safe_range; [done|lia|lia]|]. intros s [Hs _]. cbn. intros x [= <-]. by apply lossy_text.
Qed.
Definition id_change_ok (i : IdChangePayload) : Prop :=
  0 ≤ ic_client_id i < 2 ^ 32 ∧ some_of (λ z, 0 ≤ z < 2 ^ 32) (ic_server_flags i) ∧ some_of ip_ok (ic_reported_client_ip i).
Lemma safe_id_change payload : is_bytes payload = true → safe id_change_ok (decode_id_change_payload payload).
Proof.
  intros Hp. unfold decode_id_change_payload. case_match; bool_hyps; [done|]. eapply safe_bind; [apply safe_le; [done|lia..]|]. intros id Hid.
  eapply safe_bind with (some_of (λ z, 0 ≤ z < 2 ^ 32)).
  { case_match; bool_hyps; [|done]. eapply safe_bind; [apply safe_le; [done|lia..]|]. intros z Hz. cbn. by intros x [= <-]. }
  intros flags Hf. eapply safe_bind with (some_of ip_ok).
  { case_match; bool_hyps; [|done]. eapply safe_bind; [apply safe_le; [done|lia..]|]. intros z Hz. cbn. case_match; [done|]. intros x [= <-]. apply client_ip_ok. }
  intros ip Hip. by cbn.
Qed.
Definition callback_ok (c : CallbackRequest) : Prop :=
  (∃ ip, sa_ip (cb_peer_addr c) = V4 ip ∧ ip_ok ip) ∧ 0 ≤ sa_port (cb_peer_addr c) < 2 ^ 16 ∧ some_of (λ z, 0 ≤ z < 2 ^ 8) (cb_connect_options c) ∧
  some_of hash_ok (cb_user_hash c).
Lemma safe_callback payload : is_bytes payload = true → safe (some_of callback_ok) (decode_callback_request payload).
Proof.
  intros Hp. unfold decode_callback_request. case_match; bool_hyps; [done|]. eapply safe_bind; [apply safe_le; [done|lia..]|]. intros id Hid.
  eapply safe_bind; [apply safe_le; [done|lia..]|]. intros port Hport.
  eapply safe_bind with (λ '(options, hash), some_of (λ z, 0 ≤ z < 2 ^ 8) options ∧ some_of hash_ok hash).
  { case_match; bool_hyps; [|done]. eapply safe_bind; [apply safe_byte; [done|lia]|]. intros z Hz. eapply safe_bind; [apply safe_range; [done|lia|lia]|].
    intros h Hh. cbn. split; [by intros x [= <-]|by intros x [= <-]]. }
  intros [options hash] [Ho Hh]. cbn. intros c [= <-]. cbv beta in Hport. split_and!; cbn; try done; try lia. eexists. split; [done|apply client_ip_ok].
Qed.
Lemma safe_ident_tags fuel count cursor name description : is_bytes cursor = true → some_of utf8_text name → some_of utf8_text description →
  safe (λ '(a, b), some_of utf8_text a ∧ some_of utf8_text b) (ident_tags_loop fuel count cursor name description).
Proof.
  revert count cursor name description. induction fuel as [|fuel IH]; intros count cursor name description Hc Hn Hd; cbn [ident_tags_loop]; case_match; [by cbn|done|by cbn|].
  eapply safe_bind with (λ '(_, v, rest), some_of utf8_text v ∧ is_bytes rest = true).
  { eapply safe_bind; [by apply server_safe_tag|]. intros [[t v] rest] (Hv & Hr & _). cbn. split; [|done]. destruct v as [[]|]; try done. intros x [= <-]. by apply (Hv _ eq_refl). }
  intros [[t v] rest] [Hv Hr]. repeat case_match; by apply IH.
Qed.
Lemma safe_ident payload : is_bytes payload = true → safe (λ '(a, b), some_of utf8_text a ∧ some_of utf8_text b) (decode_server_ident payload).
Proof.
  intros Hp. unfold decode_server_ident. case_match; bool_hyps; [done|]. eapply safe_bind; [apply safe_le; [done|lia..]|]. intros n _.
  eapply safe_bind; [apply safe_tail; [done|lia]|]. intros c [Hc _]. by apply safe_ident_tags.
Qed.

(** ** What is offered reads back *)

Lemma short_tag_type x : 0 ≤ x < 128 → has_flag (Z.lor TAG_SHORT_NAME_MASK x) TAG_SHORT_NAME_MASK = true ∧ Z.land (Z.lor TAG_SHORT_NAME_MASK x) 0x7F = x.
Proof.
  intros Hx. assert (Hall : forallb (λ n, let x := Z.of_nat n in
    has_flag (Z.lor TAG_SHORT_NAME_MASK x) TAG_SHORT_NAME_MASK && (Z.land (Z.lor TAG_SHORT_NAME_MASK x) 0x7F =? x)) (seq 0 128) = true) by (vm_compute; reflexivity).
  pose proof (proj1 (forallb_forall _ _) Hall (Z.to_nat x)) as Hn. cbv beta zeta in Hn. rewrite Z2Nat.id in Hn by lia.
  destruct (andb_prop _ _ (Hn ltac:(apply in_seq; lia))) as [H1 H2]. split; [done|by apply Z.eqb_eq].
Qed.
Lemma split_app b rest : split_bytes (b ++ rest) (zlen b) = Ok (b, rest).
Proof.
  unfold split_bytes. pose proof (zlen_nonneg b). pose proof (zlen_nonneg rest). destruct (Z.ltb_spec (zlen (b ++ rest)) (zlen b)) as [Hl|_]; [rewrite zlen_app in Hl; lia|].
  rewrite range_ok by (rewrite ?zlen_app; lia). cbn [mbind res_bind]. rewrite tail_from_ok by (rewrite zlen_app; lia). cbn [mbind res_bind].
  unfold slice, zlen. rewrite Z.sub_0_r, drop_0, Nat2Z.id, take_app_length, drop_app_length. done.
Qed.
Lemma split_le_app n v rest : 0 ≤ v < 256 ^ Z.of_nat n → split_le (to_le_bytes n v ++ rest) (Z.of_nat n) = Ok (v, rest).
Proof. intros Hv. unfold split_le. rewrite <- (zlen_le n v), split_app. cbn. by rewrite from_to_le_bytes by done. Qed.
(** A tag with a short name. *)
Lemma server_decode_short_tag x name body v rest : 0 ≤ x < 128 → tag_value x (body ++ rest) = Ok (v, rest) →
  decode_tag_value ([Z.lor TAG_SHORT_NAME_MASK x; name] ++ body ++ rest) = Ok (Some name, Some v, rest).
Proof.
  intros Hx Hv. destruct (short_tag_type x Hx) as [Hs Ht]. unfold decode_tag_value. set (l := body ++ rest) in *. pose proof (zlen_nonneg l).
  cbn [app]. rewrite !zlen_cons. destruct (Z.ltb_spec (1 + (1 + zlen l)) 2); [lia|]. rewrite byte_ok by (rewrite !zlen_cons; lia). cbn [mbind res_bind].
  rewrite tail_from_ok by (rewrite !zlen_cons; lia). cbn [mbind res_bind]. change (nth (Z.to_nat 0) (Z.lor TAG_SHORT_NAME_MASK x :: name :: l) 0) with (Z.lor TAG_SHORT_NAME_MASK x).
  change (drop (Z.to_nat 1) (Z.lor TAG_SHORT_NAME_MASK x :: name :: l)) with (name :: l). rewrite Hs, Ht. unfold tag_name.
  rewrite byte_ok by (rewrite zlen_cons; lia). cbn [mbind res_bind]. rewrite tail_from_ok by (rewrite zlen_cons; lia). cbn [mbind res_bind].
  change (drop (Z.to_nat 1) (name :: l)) with l. by rewrite Hv.
Qed.
Lemma decode_string_tag name s b rest : utf8_text s → push_short_string_tag name s = Ok b →
  decode_tag_value (b ++ rest) = Ok (Some name, Some (VString s), rest).
Proof.
  intros [_ Hv]. unfold push_short_string_tag, string_tag_value, server_string_tag_type. pose proof (zlen_nonneg s).
  destruct ((1 <=? zlen s) && (zlen s <=? 16)) eqn:El.
  - bool_hyps. replace (TAGTYPE_STR1 + (zlen s - 1) =? TAGTYPE_STRING) with false by (symmetry; apply Z.eqb_neq; unfold TAGTYPE_STR1, TAGTYPE_STRING; lia).
    cbn [mbind res_bind]. intros [= <-]. apply server_decode_short_tag; [unfold TAGTYPE_STR1; lia|]. unfold tag_value.
    replace (TAGTYPE_STR1 + (zlen s - 1) =? TAGTYPE_STRING) with false by (symmetry; apply Z.eqb_neq; unfold TAGTYPE_STR1, TAGTYPE_STRING; lia).
    replace ((TAGTYPE_STR1 <=? TAGTYPE_STR1 + (zlen s - 1)) && (TAGTYPE_STR1 + (zlen s - 1) <=? 32)) with true by (symmetry; unfold TAGTYPE_STR1; lia).
    replace (TAGTYPE_STR1 + (zlen s - 1) - TAGTYPE_STR1 + 1) with (zlen s) by lia. rewrite split_app. cbn. by rewrite lossy_valid_id.
  - change (TAGTYPE_STRING =? TAGTYPE_STRING) with true. cbv iota. destruct (try_from_u 16 (zlen s)) as [n|] eqn:En; [|done].
    apply try_from_u_Some in En as [-> Hn]. cbn [expect mbind res_bind]. intros [= <-]. apply server_decode_short_tag; [done|]. unfold tag_value.
    change (TAGTYPE_STRING =? TAGTYPE_STRING) with true. cbv iota. change (_ :: _ :: s) with (to_le_bytes 2 (zlen s) ++ s). rewrite <- app_assoc.
    rewrite (split_le_app 2) by done. cbn [mbind res_bind]. rewrite split_app. cbn. by rewrite lossy_valid_id.
Qed.
Lemma server_decode_u32_tag name v rest : 0 ≤ v < 2 ^ 32 → decode_tag_value (push_short_u32_tag name v ++ rest) = Ok (Some name, Some (VUnsigned v), rest).
Proof.
  intros Hv. apply server_decode_short_tag; [done|].
  change (tag_value TAGTYPE_UINT32 (to_le_bytes 4 v ++ rest)) with ('(z, rest) ← split_le (to_le_bytes 4 v ++ rest) (Z.of_nat 4); Ok (VUnsigned z, rest) : res PeerError (DecodedTagValue * list Z)).
  by rewrite split_le_app.
Qed.
Lemma decode_u8_tag name v rest : 0 ≤ v < 256 → decode_tag_value (push_short_u8_tag name v ++ rest) = Ok (Some name, Some (VUnsigned v), rest).
Proof.
  intros Hv. apply (server_decode_short_tag TAGTYPE_UINT8 name [v]); [done|].
  replace [v] with (to_le_bytes 1 v) by (cbn; by rewrite Z.mod_small).
  change (tag_value TAGTYPE_UINT8 (to_le_bytes 1 v ++ rest)) with ('(z, rest) ← split_le (to_le_bytes 1 v ++ rest) (Z.of_nat 1); Ok (VUnsigned z, rest) : res PeerError (DecodedTagValue * list Z)).
  by rewrite split_le_app.
Qed.
Lemma offer_type_range name : 0 ≤ ed2k_offer_file_type name < 256.
Proof. unfold ed2k_offer_file_type. repeat case_match; done. Qed.
(** The tags of a result are read one after the other. *)
Lemma result_tags_step fuel count cursor t name value rest t' : 0 < count → decode_tag_value cursor = Ok (name, value, rest) →
  result_tag t name value = Ok t' → result_tags_loop (S fuel) count cursor t = result_tags_loop fuel (count - 1) rest t'.
Proof. intros Hc Hd Ht. cbn [result_tags_loop]. destruct (Z.eqb_spec count 0); [lia|]. rewrite Hd. cbn [mbind res_bind]. by rewrite Ht. Qed.
Lemma result_tags_done fuel cursor t : result_tags_loop fuel 0 cursor t = Ok (t, cursor).
Proof. by destruct fuel. Qed.
Lemma size_halves size : 0 ≤ size < 2 ^ 64 → 0 ≤ Z.shiftr size 32 < 2 ^ 32 ∧ size = Z.lor (shifted_size (Z.shiftr size 32)) (size mod 2 ^ 32).
Proof.
  intros Hs. rewrite Z.shiftr_div_pow2 by lia. assert (Hq : 0 ≤ size / 2 ^ 32 < 2 ^ 32) by (split; [apply Z.div_pos; lia|apply Z.div_lt_upper_bound; lia]).
  split; [done|]. unfold shifted_size. rewrite Z.mod_small by lia. rewrite <- Z.shiftl_mul_pow2 by lia. rewrite <- Z.land_ones by lia.
  apply Z.bits_inj'. intros n Hn. rewrite Z.lor_spec, Z.land_spec. rewrite <- Z.shiftr_div_pow2 by lia. destruct (Z.ltb_spec n 32).
  - rewrite Z.shiftl_spec_low, Z.ones_spec_low by lia. by rewrite andb_true_r.
  - rewrite Z.shiftl_spec, Z.shiftr_spec, Z.ones_spec_high by lia. rewrite andb_false_r, orb_false_r. f_equal. lia.
Qed.
(** What can be offered, and what a reader of the offer sees of it. *)
Definition offer_ok (f : offered) : Prop :=
  let '(h, name, size, ty) := f in hash_ok h ∧ utf8_text name ∧ zlen name < 2 ^ 16 ∧ 0 ≤ size < 2 ^ 64 ∧ 0 ≤ ty < 256.
Definition offer_seen (f : offered) : Ed2kSearchFile :=
  let '(h, name, size, ty) := f in mkSearchFile h (Some name) (Some size) None None.
Lemma push_name_ok name s : zlen s < 2 ^ 16 → ∃ b, push_short_string_tag name s = Ok b.
Proof.
  intros Hs. unfold push_short_string_tag, string_tag_value. pose proof (zlen_nonneg s). case_match; [|by eexists].
  unfold try_from_u, is_u. replace ((0 <=? zlen s) && (zlen s <? 2 ^ 16)) with true by (symmetry; apply andb_true_intro; split; lia). by eexists.
Qed.
Lemma offer_file_ok cid port f : offer_ok f → ∃ b, offer_file cid port f = Ok b ∧ 26 ≤ zlen b.
Proof.
  destruct f as [[[h name] size] ty]. intros ([_ Hh] & Hn & Hl & Hs & Ht). destruct (push_name_ok FT_FILENAME name Hl) as [b Hb].
  unfold offer_file. rewrite Hb. cbn [mbind res_bind]. eexists. split; [done|]. rewrite !zlen_app, !zlen_le. pose proof (zlen_nonneg b).
  match goal with |- context [zlen (if ?c then _ else _)] => pose proof (zlen_nonneg (if c then [] else push_short_u32_tag FT_FILESIZE_HI (default U32_MAX (try_from_u 32 (size ≫ 32))))) end.
  pose proof (zlen_nonneg (push_short_u32_tag FT_FILESIZE (size mod 2 ^ 32))). pose proof (zlen_nonneg (push_short_u8_tag FT_FILETYPE ty)). lia.
Qed.
(** The tags of an offered file, as a reader of results takes them. *)
Definition offer_tags (size ty : Z) : list Z :=
  let upper := default U32_MAX (try_from_u 32 (Z.shiftr size 32)) in
  push_short_u32_tag FT_FILESIZE (size mod 2 ^ 32) ++ (if upper =? 0 then [] else push_short_u32_tag FT_FILESIZE_HI upper) ++ push_short_u8_tag FT_FILETYPE ty.
Definition offer_tag_count (size : Z) : Z := if default U32_MAX (try_from_u 32 (Z.shiftr size 32)) =? 0 then 3 else 4.
Lemma offer_file_eq cid port h name size ty :
  offer_file cid port (h, name, size, ty) =
    (b ← push_short_string_tag FT_FILENAME name; Ok (h ++ to_le_bytes 4 cid ++ to_le_bytes 2 port ++ to_le_bytes 4 (offer_tag_count size) ++ b ++ offer_tags size ty)).
Proof. done. Qed.
Lemma offer_tags_read k name size ty b rest : utf8_text name → 0 ≤ size < 2 ^ 64 → 0 ≤ ty < 256 → push_short_string_tag FT_FILENAME name = Ok b →
  ∃ t, result_tags_loop (4 + k) (offer_tag_count size) (b ++ offer_tags size ty ++ rest) (mkResultTags None None None None None) = Ok (t, rest) ∧
    rt_name t = Some name ∧ result_size (rt_size t) (rt_size_hi t) = Some size ∧ rt_type t = None ∧ rt_sources t = None.
Proof.
  intros Hn Hs Ht Hb. destruct (size_halves size Hs) as [Hup Hsz]. unfold offer_tag_count, offer_tags.
  assert (Eu : try_from_u 32 (Z.shiftr size 32) = Some (Z.shiftr size 32)) by (by apply try_from_u_Some). rewrite Eu. cbn [default from_option id].
  assert (Hlow : 0 ≤ size mod 2 ^ 32 < 2 ^ 32) by (apply Z.mod_pos_bound; lia). change (4 + k)%nat with (S (S (S (S k)))).
  destruct (Z.eqb_spec (Z.shiftr size 32) 0) as [E0|E0].
  - eexists. rewrite app_nil_l, <- app_assoc. erewrite result_tags_step; [|lia|by apply decode_string_tag|done].
    erewrite result_tags_step; [|lia|by apply server_decode_u32_tag|done]. erewrite result_tags_step; [|lia|by apply decode_u8_tag|done].
    rewrite result_tags_done. split; [done|]. cbn [rt_name rt_size rt_size_hi rt_type rt_sources result_size]. split_and!; try done.
    f_equal. rewrite Z.shiftr_div_pow2 in E0 by lia. rewrite Z.mod_eq, E0 by lia. lia.
  - eexists. rewrite <- !app_assoc. erewrite result_tags_step; [|lia|by apply decode_string_tag|done].
    erewrite result_tags_step; [|lia|by apply server_decode_u32_tag|done]. erewrite result_tags_step; [|lia|by apply server_decode_u32_tag|done].
    erewrite result_tags_step; [|lia|by apply decode_u8_tag|done]. rewrite result_tags_done. split; [done|].
    cbn [rt_name rt_size rt_size_hi rt_type rt_sources result_size]. split_and!; try done.
    destruct (Z.leb_spec (size mod 2 ^ 32) U32_MAX) as [_|]; [|unfold U32_MAX in *; lia]. destruct (Z.eqb_spec (Z.shiftr size 32) 0); [done|]. cbn. by rewrite <- Hsz.
Qed.
Lemma ok_inj {E A} (a b : A) : @Ok E A a = Ok b → a = b.
Proof. by intros [= ->]. Qed.
Lemma range_head {E} m rest b : zlen m = b → range (E:=E) (m ++ rest) 0 b = Ok m.
Proof. intros <-. by apply (range_mid []). Qed.
Lemma offer_file_read fuel count cid port f b rest files : offer_ok f → offer_file cid port f = Ok b → 0 < count →
  result_files_loop (S fuel) count (b ++ rest) files = result_files_loop fuel (count - 1) rest (files ++ [offer_seen f]).
Proof.
  destruct f as [[[h name] size] ty]. intros ([_ Hh] & Hn & Hl & Hs & Ht) Hf Hc. rewrite offer_file_eq in Hf.
  destruct (push_name_ok FT_FILENAME name Hl) as [nb Hb]. rewrite Hb in Hf.
  set (body := nb ++ offer_tags size ty ++ rest). set (hd := to_le_bytes 4 cid ++ to_le_bytes 2 port).
  assert (Hz : zlen hd = 6) by (unfold hd; rewrite zlen_app, !zlen_le; lia).
  replace (b ++ rest) with (h ++ hd ++ to_le_bytes 4 (offer_tag_count size) ++ body).
  2:{ apply ok_inj in Hf. rewrite <- Hf. unfold hd, body. by rewrite <- !app_assoc. }
  cbn [result_files_loop]. destruct (Z.eqb_spec count 0); [lia|]. pose proof (zlen_nonneg body).
  assert (Hzz : zlen (h ++ hd ++ to_le_bytes 4 (offer_tag_count size) ++ body) = 26 + zlen body) by (rewrite !zlen_app, zlen_le; lia).
  destruct (Z.ltb_spec (zlen (h ++ hd ++ to_le_bytes 4 (offer_tag_count size) ++ body)) 26); [lia|].
  rewrite range_head by done. cbn [mbind res_bind]. rewrite (app_assoc h hd).
  rewrite (le_mid (h ++ hd) 4) by (done || (rewrite zlen_app; lia) || (unfold offer_tag_count; by case_match)). cbn [mbind res_bind].
  rewrite (app_assoc (h ++ hd)). rewrite tail_mid by (rewrite !zlen_app, zlen_le; lia). cbn [mbind res_bind].
  assert (Hlen : ∃ k, length body = (4 + k)%nat).
  { exists (length body - 4)%nat. unfold body, offer_tags, push_short_u32_tag. rewrite !length_app, length_to_le_bytes. cbn [length]. lia. }
  destruct Hlen as [k ->]. unfold body. destruct (offer_tags_read k name size ty nb rest Hn Hs Ht Hb) as ([] & -> & Hname & Hsize & Hty & Hsrc).
  cbn [rt_name rt_size rt_size_hi rt_type rt_sources] in *. cbn [mbind res_bind rt_name rt_size rt_size_hi rt_type rt_sources]. by subst; rewrite Hsize.
Qed.
Lemma offer_files_read cid port l rest files : Forall offer_ok l → ∃ b, offer_files cid port l = Ok b ∧ zlen l ≤ zlen b ∧
  ∀ k, result_files_loop (length l + k) (zlen l) (b ++ rest) files = Ok (files ++ (offer_seen <$> l), rest).
Proof.
  intros Hl. revert files. induction Hl as [|f l Hf Hl IH]; intros files; cbn [offer_files].
  - exists []. split_and!; [done..|]. intros k. cbn. rewrite app_nil_r. by destruct k.
  - destruct (offer_file_ok cid port f Hf) as (b & Hb & Hz). destruct (IH (files ++ [offer_seen f])) as (b' & Hb' & Hz' & Hk). exists (b ++ b').
    rewrite Hb. cbn [mbind res_bind]. rewrite Hb'. split_and!; [done|rewrite zlen_app, zlen_cons; lia|]. intros k. rewrite <- app_assoc.
    change (length (f :: l) + k)%nat with (S (length l + k)). rewrite (offer_file_read _ _ cid port f b) by (done || (rewrite zlen_cons; pose proof (zlen_nonneg l); lia)).
    rewrite zlen_cons, Z.add_simpl_l, Hk, <- app_assoc. done.
Qed.
(** An entry of the shared catalog that can be offered: its hash is one, its name is text whose length fits, its size has 64 bits. *)
Definition sharable (e : Ed2kSharedEntry) : Prop :=
  (∃ h, wf_Ed2kHash h = true ∧ se_file_hash e = hash_display h) ∧ utf8_text (se_canonical_name e) ∧ zlen (se_canonical_name e) < 2 ^ 16 ∧
  0 ≤ se_file_size e < 2 ^ 64.
(** A result that describes an entry. *)
Definition describes (e : Ed2kSharedEntry) (f : Ed2kSearchFile) : Prop :=
  hash_display (sf_file_hash f) = se_file_hash e ∧ sf_file_name f = Some (se_canonical_name e) ∧ sf_file_size f = Some (se_file_size e).
Lemma offered_take_ok n l : Forall sharable l → ∃ fs, offered_take n l = Ok fs ∧ Forall offer_ok fs ∧ Forall2 describes (take n l) (offer_seen <$> fs).
Proof.
  intros Hl. revert n. induction Hl as [|e l He Hl IH]; intros [|n]; [by exists []..|]. destruct He as ((h & Hh & Ee) & Hn & Hz & Hs).
  cbn [offered_take]. unfold popular_hash_offer_file. rewrite Ee, hash_from_str_display by done. cbn [mbind res_bind].
  destruct (IH n) as (fs & -> & Hok & Hd). cbn [mbind res_bind]. eexists. split; [done|]. cbn [take fmap list_fmap]. split; constructor; try done.
  apply wf_Ed2kHash_spec in Hh as [? ?]. split_and!; try done; try lia; [split; [done|unfold zlen; lia]|apply offer_type_range..].
Qed.
Lemma offer_payload_read l b cid port : Forall offer_ok l → zlen l < 2 ^ 32 → offer_files cid port l = Ok b →
  decode_search_result_page (to_le_bytes 4 (zlen l) ++ b) = Ok (mkPage (offer_seen <$> l) false).
Proof.
  intros Hl Hz Hb. pose proof (zlen_nonneg l). pose proof (zlen_nonneg b). destruct (offer_files_read cid port l [] [] Hl) as (b' & Hb' & Hzb & Hk).
  assert (b' = b) as -> by congruence. unfold decode_search_result_page, decode_search_result_page_from.
  destruct (Z.ltb_spec (zlen (to_le_bytes 4 (zlen l) ++ b)) 4) as [Hlt|_]; [rewrite zlen_app, zlen_le in Hlt; lia|].
  pose proof (le_mid (E:=PeerError) [] 4 (zlen l) b 0 4 eq_refl eq_refl ltac:(split; [done|exact Hz])) as Hle. rewrite app_nil_l in Hle. rewrite Hle.
  cbn [mbind res_bind]. rewrite tail_mid by (by rewrite zlen_le). cbn [mbind res_bind].
  replace (length b) with (length l + (length b - length l))%nat by (unfold zlen in *; lia). rewrite app_nil_r in Hk. by rewrite Hk.
Qed.
Definition sample_seen : Ed2kSearchFile := mkSearchFile OFFER_FILE_SAMPLE_HASH (Some OFFER_FILE_SAMPLE_NAME) (Some OFFER_FILE_SAMPLE_SIZE) None None.
(** What the agent offers reads back: the advertisement of a catalog of sharable entries encodes without a panic, and read as a
    page of results it is exactly the first 200 entries, in order, each with its hash, its name and its full 64-bit size (split over two tags
    when it needs more than 32 bits), with nothing left over and no further page announced; an empty catalog advertises the sample file. *)
Lemma offer_files_read_back (cat : list Ed2kSharedEntry) (cid flags : option Z) (port : Z) : Forall sharable cat →
  ∃ b page, encode_offer_files_payload cat cid port flags = Ok b ∧ decode_search_result_page b = Ok page ∧
    pg_more_results_available page = false ∧
    match cat with [] => pg_files page = [sample_seen] | _ => Forall2 describes (take 200 cat) (pg_files page) end.
Proof.
  intros Hc. unfold encode_offer_files_payload. destruct (advertised_client_endpoint_for_offer_file cid port flags) as [id p].
  destruct (offered_take_ok 200 cat Hc) as (fs & Hfs & Hok & Hd). unfold offered_files_catalog. rewrite Hfs. cbn [mbind res_bind].
  assert (Hlen : (length fs ≤ 200)%nat).
  { apply Forall2_length in Hd. rewrite length_take, length_fmap in Hd. lia. }
  set (l := or_sample fs). assert (Hl : Forall offer_ok l ∧ zlen l < 2 ^ 32 ∧ match cat with [] => offer_seen <$> l = [sample_seen] | _ => Forall2 describes (take 200 cat) (offer_seen <$> l) end).
  { unfold l, or_sample. destruct fs as [|f fs].
    - destruct cat; [|by inversion Hd]. split_and!; try done. repeat constructor; done.
    - destruct cat; [by inversion Hd|]. split_and!; try done. unfold zlen. lia. }
  destruct Hl as (Hlok & Hz & Hshow). destruct (offer_files_read id p l [] [] Hlok) as (b & Hb & _).
  rewrite (proj2 (try_from_u_Some 32 (zlen l) (zlen l))) by (split; [done|split; [apply zlen_nonneg|done]]). cbn [expect mbind res_bind]. rewrite Hb.
  eexists _, _. split; [done|]. split; [by apply (offer_payload_read l b id p)|]. by split.
Qed.
Definition shared_sample : Ed2kSharedEntry := mkEntry (hash_display OFFER_FILE_SAMPLE_HASH) (lit "a film.mkv") 5000000000 true [] false None None.
(** A name that does not fit: the advertisement panics. *)
Lemma long_name_panics h name size verified ranges partial type aich cid port flags : wf_Ed2kHash h = true → 2 ^ 16 ≤ zlen name →
  encode_offer_files_payload [mkEntry (hash_display h) name size verified ranges partial type aich] cid port flags = Panic.
Proof.
  intros Hh Hn. unfold encode_offer_files_payload, offered_files_catalog. destruct (advertised_client_endpoint_for_offer_file cid port flags) as [id p].
  cbn [offered_take]. unfold popular_hash_offer_file. cbn [se_file_hash se_canonical_name se_file_size]. rewrite hash_from_str_display by done.
  cbn -[offer_file]. unfold offer_file, push_short_string_tag, string_tag_value, server_string_tag_type.
  assert (Hb : (1 <=? zlen name) && (zlen name <=? 16) = false) by (apply andb_false_iff; right; apply Z.leb_gt; lia).
  destruct (try_from_u 16 (zlen name)) as [v|] eqn:Ht; [apply try_from_u_Some in Ht; lia|]. by rewrite Hb.
Qed.

(** C38. Whatever bytes a server sends, every decoder of its messages gives a value or an error and never panics, and what it gives is typed:
    results have 16-byte hashes, names that are valid UTF-8 text, 64-bit sizes and 32-bit source counts; sources have a 16-bit port and
    an address that is the one their client id encodes, and are marked low-id exactly when the id is one; identifications are text. *)
Theorem server_messages_typed (payload : list Z) (obfuscated : bool) : is_bytes payload = true →
  safe (λ page, Forall file_ok (pg_files page)) (decode_search_result_page payload) ∧
  safe (Forall (λ page, Forall file_ok (pg_files page))) (decode_udp_search_result_pages payload) ∧
  safe (Forall found_ok) (decode_found_sources payload obfuscated) ∧
  safe (Forall (Forall found_ok)) (decode_udp_found_source_sets payload) ∧
  safe (some_of utf8_text) (decode_ed2k_string payload) ∧
  safe id_change_ok (decode_id_change_payload payload) ∧
  safe (some_of callback_ok) (decode_callback_request payload) ∧
  safe (λ '(name, description), some_of utf8_text name ∧ some_of utf8_text description) (decode_server_ident payload).
Proof.
  intros Hp. split_and!;
    [by apply safe_page|by apply safe_udp_pages|by apply safe_found_sources|by apply safe_udp_sources|by apply safe_ed2k_string|by apply safe_id_change
    |by apply safe_callback|by apply safe_ident].
Qed.
Lemma server_messages_typed_witness :
  safe (Forall found_ok) (decode_found_sources (OFFER_FILE_SAMPLE_HASH ++ [1; 1; 2; 3; 4; 54; 18]) false) ∧
  decode_found_sources (OFFER_FILE_SAMPLE_HASH ++ [1; 1; 2; 3; 4; 54; 18]) false =
    Ok [mkFoundSource OFFER_FILE_SAMPLE_HASH (ip_of_octets [1; 2; 3; 4]) 4662 0x04030201 false false None None None].
Proof. split; [apply (server_messages_typed (OFFER_FILE_SAMPLE_HASH ++ [1; 1; 2; 3; 4; 54; 18]) false); by vm_compute|by vm_compute]. Defined.
