(* ===== verification/ServerLink.v ===== *)
(** * Connections to eD2k servers

    [ed2k_server/server_entry.rs], [obfuscation.rs], [udp.rs], [udp_runtime.rs] and
    [session.rs]: the configured servers and their endpoints, the Diffie-Hellman handshake
    of obfuscated connections, datagrams, and the state of a session with its packets.
    Resolution of names, the parsing of socket addresses, MD5 and zlib are parameters;
    random choices are arguments; the clock is a field of the session. *)

From Stdlib Require Import Zpow_facts.
From S2P Require Import Prelude Net Text NodeId Hashset Transfer PeerTransport PeerCodec Session ServerTypes ServerCodec.

(** ** Constants *)

Definition OFFER_FILE_SEARCH_SETTLE_DELAY : Z := 80.
Definition EMULE_UDP_CRYPT_HEADER_LEN : Z := 8.
Definition EMULE_UDP_CRYPT_MAGIC_SYNC_SERVER : Z := 0x13EF24D5.
Definition EMULE_UDP_CRYPT_MAGIC_CLIENT_SERVER : Z := 0x6B.
Definition EMULE_UDP_CRYPT_MAGIC_SERVER_CLIENT : Z := 0xA5.
Definition SERVER_OBFUSCATION_PUBLIC_KEY_LEN : nat := 96.
Definition SERVER_OBFUSCATION_RANDOM_EXPONENT_LEN : nat := 16.
Definition SERVER_OBFUSCATION_MAX_PADDING_LEN : Z := 15.
Definition SERVER_OBFUSCATION_PRIME_BYTES : list Z :=
  [0xF2; 0xBF; 0x52; 0xC5; 0x5F; 0x58; 0x7A; 0xDD; 0x53; 0x71; 0xA9; 0x36; 0xE8; 0x86; 0xEB; 0x3C;
   0x62; 0x17; 0xA3; 0x3E; 0xC3; 0x4C; 0xB4; 0x0D; 0xC7; 0x3A; 0x41; 0xA6; 0x43; 0xAF; 0xFC; 0xE7;
   0x21; 0xFC; 0x28; 0x63; 0x66; 0x53; 0x5B; 0xDB; 0xCE; 0x25; 0x9F; 0x22; 0x86; 0xDA; 0x4A; 0x91;
   0xB2; 0x07; 0xCB; 0xAA; 0x52; 0x55; 0xD4; 0xF6; 0x1C; 0xCE; 0xAE; 0xD4; 0x5A; 0xD5; 0xE0; 0x74;
   0x7D; 0xF7; 0x78; 0x18; 0x28; 0x10; 0x5F; 0x34; 0x0F; 0x76; 0x23; 0x87; 0xF8; 0x8B; 0x28; 0x91;
   0x42; 0xFB; 0x42; 0x68; 0x8F; 0x05; 0x15; 0x0F; 0x54; 0x8B; 0x5F; 0x43; 0x6A; 0xF7; 0x0D; 0xF3].

(** ** Configured servers *)

Record Ed2kServerEntry : Type := mkServerEntry {
  ce_host : list Z;
  ce_port : Z;
  ce_name : option (list Z);
  ce_description : option (list Z);
  ce_udp_flags : Z;
  ce_udp_key : Z;
  ce_udp_key_ip : Z;
  ce_obfuscation_port_tcp : Z;
  ce_obfuscation_port_udp : Z
}.
(** [ConfiguredServerEntry] has the same fields. *)
Definition ConfiguredServerEntry : Type := Ed2kServerEntry.
(** The fields of [Ed2kConfig] on servers. *)
Record Ed2kConfig : Type := mkConfig {
  cf_server_entries : list Ed2kServerEntry;
  cf_server_endpoints : list (list Z);
  cf_probe_search_term : option (list Z);
  cf_connect_timeout_secs : Z;
  cf_keepalive_secs : Z;
  cf_session_rotation_secs : Z
}.
Record ResolvedServerEntry : Type := mkResolved { rv_entry : ConfiguredServerEntry; rv_ip : Ipv4Addr }.
Definition supports_obfuscation_tcp (e : ConfiguredServerEntry) : bool :=
  negb (ce_obfuscation_port_tcp e =? 0) &&
  has_flag (ce_udp_flags e) (Z.lor SERVER_UDP_FLAG_UDPOBFUSCATION SERVER_UDP_FLAG_TCPOBFUSCATION).
Definition supports_obfuscation_udp (e : ConfiguredServerEntry) : bool := has_flag (ce_udp_flags e) SERVER_UDP_FLAG_UDPOBFUSCATION.
Definition base_endpoint (s : ResolvedServerEntry) : SocketAddr := mkSocketAddr (V4 (rv_ip s)) (ce_port (rv_entry s)).
Definition transport_endpoint (s : ResolvedServerEntry) (use_obfuscation : bool) : SocketAddr :=
  mkSocketAddr (V4 (rv_ip s))
    (if use_obfuscation && negb (ce_obfuscation_port_tcp (rv_entry s) =? 0) then ce_obfuscation_port_tcp (rv_entry s)
     else ce_port (rv_entry s)).
Definition should_use_server_obfuscation (connect_options : Z) (s : ResolvedServerEntry) : bool :=
  negb (connect_options =? 0) && supports_obfuscation_tcp (rv_entry s).

Section entries.
(** [str::trim], [str::parse::<SocketAddr>], the text of an IPv6 address, and
    [lookup_host]. *)
Context (trim : list Z → list Z) (socket_from_str : list Z → option SocketAddr) (v6_display : Z → list Z)
  (lookup_host : list Z → option (list SocketAddr)).
Definition ip_text (ip : IpAddr) : list Z := match ip with V4 ip => ip_display ip | V6 z => v6_display z end.
Definition socket_text (a : SocketAddr) : list Z :=
  match sa_ip a with
  | V4 ip => ip_display ip ++ lit ":" ++ decimal (sa_port a)
  | V6 z => lit "[" ++ v6_display z ++ lit "]:" ++ decimal (sa_port a)
  end.
Definition from_endpoint_text (endpoint_text : list Z) : res PeerError ConfiguredServerEntry :=
  match socket_from_str endpoint_text with
  | None => Err PUnsupported
  | Some endpoint => Ok (mkServerEntry (ip_text (sa_ip endpoint)) (sa_port endpoint) None None 0 0 0 0 0)
  end.
Definition from_metadata (e : Ed2kServerEntry) : res PeerError ConfiguredServerEntry :=
  if bool_decide (trim (ce_host e) = []) || (ce_port e =? 0) then Err PUnsupported else Ok e.
Definition base_endpoint_text (e : ConfiguredServerEntry) : list Z := ce_host e ++ lit ":" ++ decimal (ce_port e).
(** The first error ends the collection. *)
Fixpoint collect {A B} (f : A → res PeerError B) (l : list A) : res PeerError (list B) :=
  match l with [] => Ok [] | a :: l' => b ← f a; bs ← collect f l'; Ok (b :: bs) end.
Definition configured_server_entries (config : Ed2kConfig) : res PeerError (list ConfiguredServerEntry) :=
  match cf_server_entries config with
  | [] => collect from_endpoint_text (cf_server_endpoints config)
  | entries => collect from_metadata entries
  end.
Definition v4_of (a : SocketAddr) : option Ipv4Addr := match sa_ip a with V4 ip => Some ip | V6 _ => None end.
Definition resolve_server_entry (e : ConfiguredServerEntry) : res PeerError ResolvedServerEntry :=
  ip ← match ipv4_from_str (ce_host e) with
       | Some ip => Ok ip
       | None =>
           match lookup_host (base_endpoint_text e) with
           | None => Err PIo
           | Some l => match omap v4_of l with [] => Err PMismatch | ip :: _ => Ok ip end
           end
       end;
  Ok (mkResolved e ip).
Fixpoint resolve_matching (endpoint : SocketAddr) (l : list ConfiguredServerEntry) : res PeerError (option ResolvedServerEntry) :=
  match l with
  | [] => Ok None
  | e :: l' =>
      server ← resolve_server_entry e;
      if bool_decide (base_endpoint server = endpoint) then Ok (Some server) else resolve_matching endpoint l'
  end.
Definition resolve_callback_server_entry (config : Ed2kConfig) (server_endpoint : SocketAddr) : res PeerError ResolvedServerEntry :=
  match sa_ip server_endpoint with
  | V6 _ => Err PUnsupported
  | V4 ip =>
      entries ← configured_server_entries config;
      found ← resolve_matching server_endpoint entries;
      match found with
      | Some server => Ok server
      | None => e ← from_endpoint_text (socket_text server_endpoint); Ok (mkResolved e ip)
      end
  end.
End entries.

(** ** Keys *)

(** [BigUint::from_bytes_be], and [biguint_to_fixed_be]: a number that needs more bytes is
    an error. *)
Definition from_bytes_be (l : list Z) : Z := from_le_bytes (reverse l).
Definition biguint_to_fixed_be (value : Z) (byte_len : nat) : res PeerError (list Z) :=
  if 256 ^ Z.of_nat byte_len <=? value then Err PTooLarge else Ok (reverse (to_le_bytes byte_len value)).
Definition modpow (base exponent modulus : Z) : Z := Zpow_mod base exponent modulus.
(** The bytes drawn, or one when all are zero. *)
Definition random_nonzero_biguint (drawn : list Z) : Z :=
  if forallb (λ b, b =? 0) drawn then from_bytes_be (<[(length drawn - 1)%nat := 1]> drawn) else from_bytes_be drawn.
(** [Rc4KeyStream::new_with_discard] *)
Definition rc4_new_with_discard (key : list Z) (discard_len : nat) : res PeerError Rc4KeyStream :=
  if zlen key =? 0 then Panic
  else
    let s := rc4_schedule 256 0 key (Z.of_nat <$> seq 0 256) 0 in
    Ok (fst (rc4_apply (mkRc4 s 0 0) (replicate discard_len 0))).

Section keys.
Context (md5 : list Z → list Z).
Definition derive_server_cipher (shared_secret : list Z) (magic : Z) : res PeerError Rc4KeyStream :=
  rc4_new_with_discard (md5 (shared_secret ++ [magic])) EMULE_TCP_CRYPT_DISCARD_LEN.

(** ** Datagrams *)

Definition should_obfuscate_server_udp (s : ResolvedServerEntry) : bool :=
  negb (ce_udp_key (rv_entry s) =? 0) && supports_obfuscation_udp (rv_entry s).
Definition server_udp_endpoint (s : ResolvedServerEntry) : SocketAddr :=
  let e := rv_entry s in
  mkSocketAddr (V4 (rv_ip s))
    (if should_obfuscate_server_udp s then
       if negb (ce_obfuscation_port_udp e =? 0) then ce_obfuscation_port_udp e
       else if ce_port e <=? 65535 - 12 then ce_port e + 12 else ce_port e
     else if ce_port e <=? 65535 - 4 then ce_port e + 4 else ce_port e).
Definition derive_server_udp_cipher (server_udp_key random_key_part magic : Z) : res PeerError Rc4KeyStream :=
  rc4_new_with_discard (md5 (to_le_bytes 4 server_udp_key ++ [magic] ++ to_le_bytes 2 random_key_part)) 0.
(** The first byte drawn that does not announce a packet in the clear. *)
Definition random_non_ed2k_udp_marker (draws : list Z) : option Z := List.find (λ b, negb (b =? OP_EDONKEYPROT)) draws.
Definition encode_server_udp_datagram (s : ResolvedServerEntry) (opcode : Z) (payload : list Z) (random_key_part marker : Z)
    : res PeerError (SocketAddr * list Z) :=
  let plain := [OP_EDONKEYPROT; opcode] ++ payload in
  if negb (should_obfuscate_server_udp s) then Ok (server_udp_endpoint s, plain)
  else
    cipher ← derive_server_udp_cipher (ce_udp_key (rv_entry s)) random_key_part EMULE_UDP_CRYPT_MAGIC_CLIENT_SERVER;
    Ok (server_udp_endpoint s,
        [marker] ++ to_le_bytes 2 random_key_part ++
        snd (rc4_apply cipher (to_le_bytes 4 EMULE_UDP_CRYPT_MAGIC_SYNC_SERVER ++ [0] ++ plain))).
Definition decode_server_udp_datagram (s : ResolvedServerEntry) (packet : list Z) : res PeerError (option (list Z)) :=
  if bool_decide (head packet = Some OP_EDONKEYPROT) then Ok (Some packet)
  else if negb (should_obfuscate_server_udp s) || (zlen packet <=? EMULE_UDP_CRYPT_HEADER_LEN) then Ok None
  else
    random_key_part ← le_at packet 1 2;
    encrypted ← tail_from packet 3;
    cipher ← derive_server_udp_cipher (ce_udp_key (rv_entry s)) random_key_part EMULE_UDP_CRYPT_MAGIC_SERVER_CLIENT;
    let decrypted := snd (rc4_apply cipher encrypted) in
    if zlen decrypted <? 5 then Ok None
    else
      magic ← le_at decrypted 0 4;
      if negb (magic =? EMULE_UDP_CRYPT_MAGIC_SYNC_SERVER) then Ok None
      else
        b ← byte decrypted 4;
        let payload_offset := 5 + Z.land b 0x0F in
        if zlen decrypted <=? payload_offset then Ok None
        else payload ← tail_from decrypted payload_offset; Ok (Some payload).
Record ServerUdpPacket : Type := mkUdpPacket { up_opcode : Z; up_payload : list Z; up_from : SocketAddr }.
(** [read_server_udp_packet] on a datagram that was received. *)
Definition read_server_udp_packet (s : ResolvedServerEntry) (datagram : list Z) (from : SocketAddr) : res PeerError (option ServerUdpPacket) :=
  packet ← decode_server_udp_datagram s datagram;
  match packet with
  | Some (protocol :: opcode :: payload) =>
      Ok (if protocol =? OP_EDONKEYPROT then Some (mkUdpPacket opcode payload from) else None)
  | _ => Ok None
  end.
End keys.

(** ** Sessions *)

Inductive ServerSessionPhase : Type := Connecting | AwaitingIdChange | Connected | OfferFilesSent | SearchActive | AwaitingMore | Completed.
#[export] Instance ServerSessionPhase_eq_dec : EqDecision ServerSessionPhase.
Proof. solve_decision. Defined.
Record Ed2kPacket : Type := mkServerPacket { pk_opcode : Z; pk_payload : list Z }.
(** The connection of a session: its stream and ciphers, the time of the last write, the
    time, in milliseconds, and which of the next writes fail. *)
Record server_link : Type := mkLink {
  lk_stream : stream;
  lk_receive_cipher : option Rc4KeyStream;
  lk_send_cipher : option Rc4KeyStream;
  lk_last_tx : Z;
  lk_now : Z;
  lk_broken : list bool
}.
Record ServerSession : Type := mkServerSession {
  ss_link : server_link;
  ss_endpoint : SocketAddr;
  ss_login_accepted : bool;
  ss_probe_search_sent : bool;
  ss_offer_files_sent : bool;
  ss_offer_files_sent_at : option Z;
  ss_offer_files_catalog_fingerprint : option Z;
  ss_assigned_client_id : option Z;
  ss_server_flags : option Z;
  ss_server_list_requested : bool;
  ss_phase : ServerSessionPhase
}.
Definition set_link (f : server_link → server_link) (s : ServerSession) : ServerSession :=
  mkServerSession (f (ss_link s)) (ss_endpoint s) (ss_login_accepted s) (ss_probe_search_sent s) (ss_offer_files_sent s)
    (ss_offer_files_sent_at s) (ss_offer_files_catalog_fingerprint s) (ss_assigned_client_id s) (ss_server_flags s)
    (ss_server_list_requested s) (ss_phase s).
Definition set_phase (p : ServerSessionPhase) (s : ServerSession) : ServerSession :=
  mkServerSession (ss_link s) (ss_endpoint s) (ss_login_accepted s) (ss_probe_search_sent s) (ss_offer_files_sent s)
    (ss_offer_files_sent_at s) (ss_offer_files_catalog_fingerprint s) (ss_assigned_client_id s) (ss_server_flags s)
    (ss_server_list_requested s) p.
(** The identity and the flags that a server assigns, and whether it accepted the login. *)
Definition set_login (accepted : bool) (client_id flags : option Z) (s : ServerSession) : ServerSession :=
  mkServerSession (ss_link s) (ss_endpoint s) accepted (ss_probe_search_sent s) (ss_offer_files_sent s)
    (ss_offer_files_sent_at s) (ss_offer_files_catalog_fingerprint s) client_id flags
    (ss_server_list_requested s) (ss_phase s).
Definition set_offered (fingerprint : Z) (s : ServerSession) : ServerSession :=
  mkServerSession (ss_link s) (ss_endpoint s) (ss_login_accepted s) (ss_probe_search_sent s) true
    (Some (lk_now (ss_link s))) (Some fingerprint) (ss_assigned_client_id s) (ss_server_flags s)
    (ss_server_list_requested s) (ss_phase s).
Definition set_list_requested (s : ServerSession) : ServerSession :=
  mkServerSession (ss_link s) (ss_endpoint s) (ss_login_accepted s) (ss_probe_search_sent s) (ss_offer_files_sent s)
    (ss_offer_files_sent_at s) (ss_offer_files_catalog_fingerprint s) (ss_assigned_client_id s) (ss_server_flags s) true (ss_phase s).
Definition set_probe_sent (s : ServerSession) : ServerSession :=
  mkServerSession (ss_link s) (ss_endpoint s) (ss_login_accepted s) true (ss_offer_files_sent s)
    (ss_offer_files_sent_at s) (ss_offer_files_catalog_fingerprint s) (ss_assigned_client_id s) (ss_server_flags s)
    (ss_server_list_requested s) (ss_phase s).
Definition set_stream (st : stream) (l : server_link) : server_link :=
  mkLink st (lk_receive_cipher l) (lk_send_cipher l) (lk_last_tx l) (lk_now l) (lk_broken l).
Definition set_ciphers (receive send : option Rc4KeyStream) (l : server_link) : server_link :=
  mkLink (lk_stream l) receive send (lk_last_tx l) (lk_now l) (lk_broken l).
Definition set_broken (b : list bool) (l : server_link) : server_link :=
  mkLink (lk_stream l) (lk_receive_cipher l) (lk_send_cipher l) (lk_last_tx l) (lk_now l) b.
Definition set_now (t : Z) (l : server_link) : server_link :=
  mkLink (lk_stream l) (lk_receive_cipher l) (lk_send_cipher l) (lk_last_tx l) t (lk_broken l).
Definition touch (l : server_link) : server_link :=
  mkLink (lk_stream l) (lk_receive_cipher l) (lk_send_cipher l) (lk_now l) (lk_now l) (lk_broken l).

(** [ServerSession::connect], once the stream is connected. *)
Definition server_connect (endpoint : SocketAddr) (st : stream) (now : Z) (broken : list bool) : ServerSession :=
  mkServerSession (mkLink st None None now now broken) endpoint false false false None None None None false Connecting.

Section session.
Context (zlib_encode : list Z → option (list Z)) (zlib_reads : list Z → list (list Z) * bool) (md5 : list Z → list Z) {W : Type}.
Local Abbreviation SS := (PM ServerSession W).

(** [stream.write_all] and [stream.read_exact]. *)
Definition link_write (bytes : list Z) : SS () :=
  broken ← gets (λ s, lk_broken (ss_link s));
  update (set_link (set_broken (tail broken)));;
  if default false (head broken) then peer (Err PIo)
  else update (set_link (λ l, set_stream (stream_write bytes (lk_stream l)) l)).
Definition link_read (n : Z) : SS (list Z) :=
  st ← gets (λ s, lk_stream (ss_link s));
  '((bytes, st) : list Z * stream) ← peer (stream_read n st);
  update (set_link (set_stream st));;
  mret bytes.
Definition link_decrypt (bytes : list Z) : SS (list Z) :=
  c ← gets (λ s, lk_receive_cipher (ss_link s));
  let '(c, out) := apply_opt c bytes in
  update (set_link (λ l, set_ciphers c (lk_send_cipher l) l));;
  mret out.
Definition server_supports_compression (s : ServerSession) : bool :=
  has_flag (default 0 (ss_server_flags s)) SERVER_TCP_FLAG_COMPRESSION.
Definition server_send_packet (opcode : Z) (payload : list Z) : SS () :=
  use_compression ← gets server_supports_compression;
  packet ← peer (encode_server_packet zlib_encode opcode payload use_compression);
  c ← gets (λ s, lk_send_cipher (ss_link s));
  let '(c, out) := apply_opt c packet in
  update (set_link (λ l, set_ciphers (lk_receive_cipher l) c l));;
  link_write out;;
  update (set_link touch).
Definition send_encoded_packet (packet : list Z) : SS () := link_write packet;; update (set_link touch).

(** What the handshake draws: the bytes of the secret, the marker, and both paddings. *)
Record handshake_draws : Type := mkDraws { dr_secret : list Z; dr_marker : Z; dr_padding : list Z; dr_response_padding : list Z }.
Definition PRIME : Z := from_bytes_be SERVER_OBFUSCATION_PRIME_BYTES.
(** The padding after the header of a server is read when there is any. *)
Definition read_server_padding (receive_cipher : Rc4KeyStream) (padding_len : Z) : SS Rc4KeyStream :=
  if 0 <? padding_len then padding ← link_read padding_len; mret (fst (rc4_apply receive_cipher padding))
  else mret receive_cipher.
Definition negotiate_obfuscation_and_send (d : handshake_draws) (first_packet : list Z) : SS () :=
  let secret := random_nonzero_biguint (dr_secret d) in
  public_bytes ← peer (biguint_to_fixed_be (modpow 2 secret PRIME) SERVER_OBFUSCATION_PUBLIC_KEY_LEN);
  padding_len ← peer (expect (try_from_u 8 (zlen (dr_padding d))));
  link_write ([dr_marker d] ++ public_bytes ++ [padding_len] ++ dr_padding d);;
  remote_public_bytes ← link_read (Z.of_nat SERVER_OBFUSCATION_PUBLIC_KEY_LEN);
  let shared_secret := modpow (from_bytes_be remote_public_bytes) secret PRIME in
  shared_secret_bytes ← peer (biguint_to_fixed_be shared_secret SERVER_OBFUSCATION_PUBLIC_KEY_LEN);
  send_cipher ← peer (derive_server_cipher md5 shared_secret_bytes EMULE_TCP_CRYPT_MAGIC_REQUESTER);
  receive_cipher ← peer (derive_server_cipher md5 shared_secret_bytes EMULE_TCP_CRYPT_MAGIC_SERVER);
  encrypted_header ← link_read 7;
  let '(receive_cipher, header) := rc4_apply receive_cipher encrypted_header in
  magic ← peer (le_at header 0 4);
  if negb (magic =? EMULE_TCP_CRYPT_MAGIC_SYNC) then peer (Err PHandshake)
  else
    server_padding_len ← peer (byte header 6);
    receive_cipher ← read_server_padding receive_cipher server_padding_len;
    response_padding_len ← peer (expect (try_from_u 8 (zlen (dr_response_padding d))));
    let response := to_le_bytes 4 EMULE_TCP_CRYPT_MAGIC_SYNC ++ [EMULE_ENCRYPTION_METHOD_OBFUSCATION; response_padding_len] ++
      dr_response_padding d ++ first_packet in
    let '(send_cipher, response) := rc4_apply send_cipher response in
    link_write response;;
    update (set_link (set_ciphers (Some receive_cipher) (Some send_cipher)));;
    update (set_link touch).

(** The header, unless the stream ends before it is complete. *)
Definition read_server_header : SS (option (list Z)) :=
  st ← gets (λ s, lk_stream (ss_link s));
  if (zlen (st_incoming st) <? TCP_PACKET_HEADER_LEN) && negb (st_reset st)
  then update (set_link (set_stream (mkStream [] (st_reset st) (st_written st))));; mret None
  else header ← link_read TCP_PACKET_HEADER_LEN; header ← link_decrypt header; mret (Some header).
Definition server_read_packet : SS (option Ed2kPacket) :=
  header ← read_server_header;
  match header with
  | None => mret None
  | Some header =>
      protocol ← peer (byte header 0);
      if negb ((protocol =? OP_EDONKEYPROT) || (protocol =? OP_PACKEDPROT)) then peer (Err PUnsupported)
      else
        packet_length ← peer (le_at header 1 4);
        if packet_length =? 0 then peer (Err PSize)
        else
          payload ← link_read (packet_length - 1);
          payload ← link_decrypt payload;
          payload ← peer (decode_server_payload zlib_reads protocol payload);
          opcode ← peer (byte header 5);
          mret (Some (mkServerPacket opcode payload))
  end.
(** The future of [read_packet] is dropped after it took [n] bytes from the stream, which
    are lost; the cipher has moved on when they include the header. *)
Definition drop_read (n : nat) : SS () :=
  st ← gets (λ s, lk_stream (ss_link s));
  update (set_link (set_stream (mkStream (drop n (st_incoming st)) (st_reset st) (st_written st))));;
  if 6 <=? Z.of_nat n then link_decrypt (take 6 (st_incoming st));; mret () else mret ().
End session.

(** ** The key exchange *)

Lemma PRIME_gt : 1 < PRIME.
Proof. vm_compute. reflexivity. Qed.
Lemma PRIME_fits : PRIME < 256 ^ Z.of_nat SERVER_OBFUSCATION_PUBLIC_KEY_LEN.
Proof. vm_compute. reflexivity. Qed.
Lemma modpow_spec a e : modpow a e PRIME = (a ^ e) mod PRIME.
Proof. apply Zpow_mod_correct. pose proof PRIME_gt. lia. Qed.
Lemma modpow_range a e : 0 ≤ modpow a e PRIME < PRIME.
Proof. rewrite modpow_spec. apply Z.mod_pos_bound. pose proof PRIME_gt. lia. Qed.
Lemma modpow_agree x y : 0 ≤ x → 0 ≤ y → modpow (modpow 2 x PRIME) y PRIME = modpow (modpow 2 y PRIME) x PRIME.
Proof.
  intros Hx Hy. pose proof PRIME_gt. rewrite !modpow_spec. rewrite <- !Zpower_mod by lia. rewrite <- !Z.pow_mul_r by lia. by rewrite Z.mul_comm.
Qed.
Lemma fixed_ok v n : 0 ≤ v < 256 ^ Z.of_nat n → biguint_to_fixed_be v n = Ok (reverse (to_le_bytes n v)).
Proof. intros Hv. unfold biguint_to_fixed_be. destruct (Z.leb_spec (256 ^ Z.of_nat n) v); [lia|done]. Qed.
Lemma from_be_fixed v n : 0 ≤ v < 256 ^ Z.of_nat n → from_bytes_be (reverse (to_le_bytes n v)) = v.
Proof. intros Hv. unfold from_bytes_be. rewrite reverse_involutive. by apply from_to_le_bytes. Qed.
Lemma zlen_reverse (l : list Z) : zlen (reverse l) = zlen l.
Proof. unfold zlen. by rewrite length_reverse. Qed.
(** The bytes of a public key or of the shared secret. *)
Definition key_bytes (v : Z) : list Z := reverse (to_le_bytes SERVER_OBFUSCATION_PUBLIC_KEY_LEN v).
Lemma key_range a e : 0 ≤ modpow a e PRIME < 256 ^ Z.of_nat SERVER_OBFUSCATION_PUBLIC_KEY_LEN.
Proof. pose proof (modpow_range a e). pose proof PRIME_fits. lia. Qed.
Lemma key_fixed a e : biguint_to_fixed_be (modpow a e PRIME) SERVER_OBFUSCATION_PUBLIC_KEY_LEN = Ok (key_bytes (modpow a e PRIME)).
Proof. apply fixed_ok, key_range. Qed.
Lemma from_key a e : from_bytes_be (key_bytes (modpow a e PRIME)) = modpow a e PRIME.
Proof. apply from_be_fixed, key_range. Qed.
Lemma zlen_key v : zlen (key_bytes v) = 96.
Proof. unfold key_bytes. by rewrite zlen_reverse, zlen_le. Qed.
#[global] Opaque key_bytes.
Lemma from_bytes_be_nonneg l : is_bytes l = true → 0 ≤ from_bytes_be l.
Proof.
  intros Hl. unfold from_bytes_be. apply from_le_bytes_bound. unfold is_bytes in *. apply forallb_forall. intros x Hx.
  apply (proj1 (forallb_forall _ _) Hl). apply list_elem_of_In in Hx. apply list_elem_of_In. by apply elem_of_reverse.
Qed.
Lemma secret_nonneg l : is_bytes l = true → 0 ≤ random_nonzero_biguint l.
Proof.
  intros Hl. unfold random_nonzero_biguint. case_match; [|by apply from_bytes_be_nonneg]. apply from_bytes_be_nonneg.
  unfold is_bytes in *. apply forallb_forall. intros x Hx. apply list_elem_of_In, list_elem_of_lookup in Hx as [i Hi].
  apply list_lookup_insert_Some in Hi as [(_ & <- & _)|[_ Hi]]; [done|]. apply (proj1 (forallb_forall _ _) Hl), list_elem_of_In. by eapply list_elem_of_lookup_2.
Qed.

(** ** A server's packets arrive *)

Section delivery.
Context (zlib_encode : list Z → option (list Z)) (zlib_reads : list Z → list (list Z) * bool) (md5 : list Z → list Z) {W : Type}.
Lemma run_bind {S A B} (m : PM S W A) (k : A → PM S W B) s w s' w' a : m s w = (s', w', Ok a) → (m ≫= k) s w = k a s' w'.
Proof. intros H. unfold mbind, sm_bind. by rewrite H. Qed.
Lemma run_bind2 {S A B C} (m : PM S W A) (f : A → PM S W B) (k : B → PM S W C) s w s' w' b :
  (m ≫= f) s w = (s', w', Ok b) → (m ≫= λ a, f a ≫= k) s w = k b s' w'.
Proof. unfold mbind, sm_bind. destruct (m s w) as [[s1 w1] [a|e|]]; try done. intros H. by rewrite H. Qed.
Lemma link_write_ok bytes s (w : W) : lk_broken (ss_link s) = [] →
  link_write bytes s w = (set_link (λ l, set_stream (stream_write bytes (lk_stream l)) l) s, w, Ok ()).
Proof. destruct s as [[] ? ? ? ? ? ? ? ? ? ?]. cbn. by intros ->. Qed.
Lemma link_read_ok n a b s (w : W) : st_incoming (lk_stream (ss_link s)) = a ++ b → zlen a = n →
  link_read n s w = (set_link (λ l, set_stream (mkStream b (st_reset (lk_stream l)) (st_written (lk_stream l))) l) s, w, Ok a).
Proof.
  destruct s as [[[inc rs wr] ? ? ? ? ?] ? ? ? ? ? ? ? ? ? ?]. cbn [ss_link lk_stream st_incoming]. intros -> Hn. unfold link_read, gets, mbind, sm_bind, peer.
  cbn [ss_link lk_stream]. by rewrite stream_read_app.
Qed.
(** A packet on the wire, the bytes that it carries packed or not. *)
Definition server_frame (protocol opcode : Z) (raw : list Z) : list Z := [protocol] ++ to_le_bytes 4 (zlen raw + 1) ++ [opcode] ++ raw.
Definition frame_ok (protocol : Z) (raw : list Z) : Prop := (protocol = OP_EDONKEYPROT ∨ protocol = OP_PACKEDPROT) ∧ zlen raw + 1 < 2 ^ 32.
Lemma zlen_frame protocol opcode raw : zlen (server_frame protocol opcode raw) = 6 + zlen raw.
Proof. unfold server_frame. rewrite !zlen_app, zlen_le. change (zlen [protocol]) with 1. change (zlen [opcode]) with 1. lia. Qed.
(** The rest of what the connection has to deliver, in the clear. *)
Definition to_come (s : ServerSession) : list Z := snd (apply_opt (lk_receive_cipher (ss_link s)) (st_incoming (lk_stream (ss_link s)))).
(** After reading [n] bytes the cipher has moved on by as many. *)
Definition advanced (n : nat) (s : ServerSession) : ServerSession :=
  set_link (λ l, mkLink (mkStream (drop n (st_incoming (lk_stream l))) (st_reset (lk_stream l)) (st_written (lk_stream l)))
    (fst (apply_opt (lk_receive_cipher l) (take n (st_incoming (lk_stream l))))) (lk_send_cipher l) (lk_last_tx l) (lk_now l) (lk_broken l)) s.
Lemma advanced_add n m s : (n + m ≤ length (st_incoming (lk_stream (ss_link s))))%nat → advanced m (advanced n s) = advanced (n + m) s.
Proof.
  destruct s as [[[inc rs wr] rc sc ? ? ?] ? ? ? ? ? ? ? ? ? ?]. unfold advanced, set_link. cbn. intros Hl. f_equal. f_equal; [by rewrite drop_drop|].
  replace (take (n + m) inc) with (take n inc ++ take m (drop n inc)) by (rewrite take_take_drop; done).
  rewrite apply_opt_app. destruct (apply_opt rc (take n inc)) as [c1 o1]. cbn [fst]. by destruct (apply_opt c1 (take m (drop n inc))).
Qed.
Lemma to_come_advanced n s : (n ≤ length (st_incoming (lk_stream (ss_link s))))%nat → to_come (advanced n s) = drop n (to_come s).
Proof.
  destruct s as [[[inc rs wr] rc sc ? ? ?] ? ? ? ? ? ? ? ? ? ?]. unfold advanced, to_come. cbn. intros Hn. rewrite (apply_opt_split rc inc n) by done.
  symmetry. apply drop_app_length'. pose proof (zlen_apply_opt rc (take n inc)) as Hz. unfold zlen in Hz. rewrite length_take in Hz. lia.
Qed.
Lemma length_to_come s : length (to_come s) = length (st_incoming (lk_stream (ss_link s))).
Proof. unfold to_come. pose proof (zlen_apply_opt (lk_receive_cipher (ss_link s)) (st_incoming (lk_stream (ss_link s)))) as Hz. unfold zlen in Hz. lia. Qed.
(** Reading and deciphering takes from the front of what is to come. *)
Lemma read_clear n a rest s (w : W) : to_come s = a ++ rest → zlen a = n →
  (bytes ← link_read n; link_decrypt bytes) s w = (advanced (length a) s, w, Ok a) ∧ to_come (advanced (length a) s) = rest.
Proof.
  intros Hs Hn. pose proof (length_to_come s) as Hl. rewrite Hs, length_app in Hl. split; [|by rewrite to_come_advanced, Hs, drop_app_length by lia].
  assert (Ha : snd (apply_opt (lk_receive_cipher (ss_link s)) (take (length a) (st_incoming (lk_stream (ss_link s))))) = a).
  { unfold to_come in Hs. rewrite (apply_opt_split _ _ (length a)) in Hs by lia. apply app_inj_1 in Hs as [? _]; [done|].
    pose proof (zlen_apply_opt (lk_receive_cipher (ss_link s)) (take (length a) (st_incoming (lk_stream (ss_link s))))) as Hz. unfold zlen in Hz. rewrite length_take in Hz. lia. }
  unfold mbind at 1, sm_bind at 1.
  rewrite (link_read_ok n (take (length a) (st_incoming (lk_stream (ss_link s)))) (drop (length a) (st_incoming (lk_stream (ss_link s))))).
  2:{ by rewrite take_drop. }
  2:{ unfold zlen in *. rewrite length_take. lia. }
  destruct s as [[[inc rs wr] rc sc ? ? ?] ? ? ? ? ? ? ? ? ? ?]. cbn in *. unfold link_decrypt, gets, mbind, sm_bind, update. cbn.
  unfold advanced, set_link. cbn. destruct (apply_opt rc (take (length a) inc)) as [c out]. cbn in *. by subst.
Qed.
Lemma header_read protocol opcode raw : let h := [protocol] ++ to_le_bytes 4 (zlen raw + 1) ++ [opcode] in frame_ok protocol raw →
  zlen h = 6 ∧ byte (E:=PeerError) h 0 = Ok protocol ∧ le_at (E:=PeerError) h 1 4 = Ok (zlen raw + 1) ∧ byte (E:=PeerError) h 5 = Ok opcode.
Proof.
  intros h [_ Hz]. pose proof (zlen_nonneg raw). assert (Hh : zlen h = 6) by (unfold h; rewrite !zlen_app, zlen_le; done). split_and!; [done|done| |done].
  unfold h. rewrite (le_mid [protocol] 4) by (done || lia). done.
Qed.
Lemma server_read_frame protocol opcode raw payload rest s (w : W) :
  to_come s = server_frame protocol opcode raw ++ rest → frame_ok protocol raw → decode_server_payload zlib_reads protocol raw = Ok payload →
  server_read_packet zlib_reads s w = (advanced (length (server_frame protocol opcode raw)) s, w, Ok (Some (mkServerPacket opcode payload))) ∧
  to_come (advanced (length (server_frame protocol opcode raw)) s) = rest.
Proof.
  intros Hs Hf Hd. set (h := [protocol] ++ to_le_bytes 4 (zlen raw + 1) ++ [opcode]). destruct (header_read protocol opcode raw Hf) as (Hh & H0 & H1 & H5). fold h in Hh, H0, H1, H5.
  assert (Hs' : to_come s = h ++ raw ++ rest) by (rewrite Hs; unfold h, server_frame; by rewrite <- !app_assoc).
  destruct (read_clear 6 h (raw ++ rest) s w Hs' Hh) as [Hr Ht]. pose proof (length_to_come s) as Hl. rewrite Hs', !length_app in Hl.
  destruct (read_clear (zlen raw + 1 - 1) raw rest (advanced (length h) s) w Ht ltac:(lia)) as [Hr2 Ht2].
  rewrite advanced_add in Hr2, Ht2 by lia. replace (length (server_frame protocol opcode raw)) with (length h + length raw)%nat by (unfold h, server_frame; rewrite !length_app; cbn [length]; lia).
  split; [|done]. unfold server_read_packet. erewrite run_bind.
  2:{ unfold read_server_header. erewrite run_bind by done. cbn beta.
      destruct (Z.ltb_spec (zlen (st_incoming (lk_stream (ss_link s)))) TCP_PACKET_HEADER_LEN) as [Hlt|_]; [unfold zlen, TCP_PACKET_HEADER_LEN in *; lia|].
      cbn [andb]. erewrite (run_bind2 (link_read TCP_PACKET_HEADER_LEN)); [|exact Hr]. done. }
  cbv beta iota. erewrite run_bind; [|unfold peer; by rewrite H0]. destruct Hf as [Hp Hz]. replace (negb ((protocol =? OP_EDONKEYPROT) || (protocol =? OP_PACKEDPROT))) with false by (by destruct Hp as [-> | ->]).
  erewrite run_bind; [|unfold peer; by rewrite H1]. pose proof (zlen_nonneg raw). destruct (Z.eqb_spec (zlen raw + 1) 0); [lia|].
  erewrite (run_bind2 (link_read _)); [|exact Hr2]. erewrite run_bind; [|unfold peer; by rewrite Hd]. erewrite run_bind; [|unfold peer; by rewrite H5]. done.
Qed.
Lemma server_read_eof s (w : W) : to_come s = [] → st_reset (lk_stream (ss_link s)) = false →
  ∃ s', server_read_packet zlib_reads s w = (s', w, Ok None).
Proof.
  intros Hs Hr. pose proof (length_to_come s) as Hlen. rewrite Hs in Hlen. unfold server_read_packet, mbind at 1, sm_bind at 1, read_server_header, mbind at 1, sm_bind at 1, gets at 1.
  destruct s as [[[inc rs wr] ? ? ? ? ?] ? ? ? ? ? ? ? ? ? ?]. cbn in *. destruct inc; [|done]. subst rs. cbn. by eexists.
Qed.
(** Reading packets until the stream ends. *)
Fixpoint server_read_all (n : nat) : PM ServerSession W (list Ed2kPacket) :=
  match n with
  | O => mret []
  | S n' =>
      p ← server_read_packet zlib_reads;
      match p with None => mret [] | Some p => ps ← server_read_all n'; mret (p :: ps) end
  end.
(** What a server sends: the protocol, the opcode and the bytes of each packet. *)
Definition wire_packet : Type := Z * Z * list Z.
Definition wire (l : list wire_packet) : list Z := flat_map (λ '(protocol, opcode, raw), server_frame protocol opcode raw) l.
Definition carries (p : wire_packet) (q : Ed2kPacket) : Prop :=
  let '(protocol, opcode, raw) := p in frame_ok protocol raw ∧ pk_opcode q = opcode ∧ decode_server_payload zlib_reads protocol raw = Ok (pk_payload q).
Lemma server_reads_wire l qs s (w : W) : Forall2 carries l qs → to_come s = wire l → st_reset (lk_stream (ss_link s)) = false →
  ∃ s', server_read_all (S (length l)) s w = (s', w, Ok qs).
Proof.
  intros Hl. revert s. induction Hl as [|[[protocol opcode] raw] [op payload] l qs (Hf & He & Hd) Hl IH]; intros s Hs Hr.
  - cbn [server_read_all length]. destruct (server_read_eof s w Hs Hr) as [s' Hs']. exists s'. erewrite run_bind; [|exact Hs']. done.
  - cbn in He, Hd. subst op. change (wire (_ :: l)) with (server_frame protocol opcode raw ++ wire l) in Hs.
    destruct (server_read_frame protocol opcode raw payload (wire l) s w Hs Hf Hd) as [Hp Ht].
    destruct (IH (advanced (length (server_frame protocol opcode raw)) s) Ht) as [s' Hs']; [by destruct s as [[[] ? ? ? ? ?] ? ? ? ? ? ? ? ? ? ?]|].
    exists s'. change (length ((protocol, opcode, raw) :: l)) with (S (length l)). cbn [server_read_all].
    erewrite run_bind; [|exact Hp]. cbv beta iota. change (p ← server_read_packet zlib_reads; _) with (server_read_all (S (length l))) at 1.
    erewrite run_bind; [|exact Hs']. done.
Qed.
End delivery.

(** ** The obfuscated connection *)

Section handshake.
Context (zlib_reads : list Z → list (list Z) * bool) (md5 : list Z → list Z).
(** An MD5 digest has 16 bytes. *)
Hypothesis md5_length : ∀ l, zlen (md5 l) = 16.
Lemma derive_ok shared magic : ∃ c, derive_server_cipher md5 shared magic = Ok c.
Proof. unfold derive_server_cipher, rc4_new_with_discard. rewrite md5_length. by eexists. Qed.
Definition draws_ok (d : handshake_draws) : Prop :=
  is_bytes (dr_secret d) = true ∧ zlen (dr_padding d) ≤ SERVER_OBFUSCATION_MAX_PADDING_LEN ∧
  zlen (dr_response_padding d) ≤ SERVER_OBFUSCATION_MAX_PADDING_LEN.
(** What the agent sends first, what a server with the secret [y] answers, with the ciphers
    that it derives from both, and what the agent sends then. *)
Definition obfuscation_request (d : handshake_draws) : list Z :=
  [dr_marker d] ++ key_bytes (modpow 2 (random_nonzero_biguint (dr_secret d)) PRIME) ++ [zlen (dr_padding d)] ++ dr_padding d.
Definition server_secret (request : list Z) (y : Z) : list Z := key_bytes (modpow (from_bytes_be (slice request 1 96)) y PRIME).
Definition server_header (methods : Z * Z) (pad : list Z) : list Z :=
  to_le_bytes 4 EMULE_TCP_CRYPT_MAGIC_SYNC ++ [methods.1; methods.2; zlen pad] ++ pad.
Definition server_answer (cr : Rc4KeyStream) (y : Z) (methods : Z * Z) (pad : list Z) (l : list wire_packet) : list Z :=
  key_bytes (modpow 2 y PRIME) ++ snd (rc4_apply cr (server_header methods pad ++ wire l)).
Definition obfuscation_response (d : handshake_draws) (first_packet : list Z) : list Z :=
  to_le_bytes 4 EMULE_TCP_CRYPT_MAGIC_SYNC ++ [EMULE_ENCRYPTION_METHOD_OBFUSCATION; zlen (dr_response_padding d)] ++
  dr_response_padding d ++ first_packet.
Lemma secret_agrees d y : is_bytes (dr_secret d) = true → 0 ≤ y →
  server_secret (obfuscation_request d) y = key_bytes (modpow (from_bytes_be (key_bytes (modpow 2 y PRIME))) (random_nonzero_biguint (dr_secret d)) PRIME).
Proof.
  intros Hd Hy. unfold server_secret. replace (slice (obfuscation_request d) 1 96) with (key_bytes (modpow 2 (random_nonzero_biguint (dr_secret d)) PRIME)).
  - rewrite !from_key. f_equal. apply modpow_agree; [by apply secret_nonneg|done].
  - unfold obfuscation_request. pose proof (range_mid (E:=PeerError) [dr_marker d] (key_bytes (modpow 2 (random_nonzero_biguint (dr_secret d)) PRIME)) ([zlen (dr_padding d)] ++ dr_padding d) 1 97 eq_refl) as Hm.
    rewrite zlen_key in Hm. specialize (Hm eq_refl). rewrite range_ok in Hm.
    + by apply ok_inj in Hm.
    + lia.
    + rewrite !zlen_app, zlen_key. pose proof (zlen_nonneg ([zlen (dr_padding d)] ++ dr_padding d)) as Hz. rewrite zlen_app in Hz. change (zlen [dr_marker d]) with 1. lia.
Qed.
Lemma server_header_read (methods : Z * Z) (pad : list Z) : zlen pad < 256 →
  le_at (E:=PeerError) (to_le_bytes 4 EMULE_TCP_CRYPT_MAGIC_SYNC ++ [methods.1; methods.2; zlen pad]) 0 4 = Ok EMULE_TCP_CRYPT_MAGIC_SYNC ∧
  byte (E:=PeerError) (to_le_bytes 4 EMULE_TCP_CRYPT_MAGIC_SYNC ++ [methods.1; methods.2; zlen pad]) 6 = Ok (zlen pad) ∧
  zlen (to_le_bytes 4 EMULE_TCP_CRYPT_MAGIC_SYNC ++ [methods.1; methods.2; zlen pad]) = 7.
Proof. intros _. split_and!; by vm_compute. Qed.
Lemma read_server_padding_ok c pad more s {W} (w : W) : st_incoming (lk_stream (ss_link s)) = snd (rc4_apply c pad) ++ more →
  read_server_padding c (zlen pad) s w =
    (set_link (λ l, set_stream (mkStream more (st_reset (lk_stream l)) (st_written (lk_stream l))) l) s, w, Ok (fst (rc4_apply c pad))).
Proof.
  intros Hs. unfold read_server_padding. destruct (Z.ltb_spec 0 (zlen pad)) as [Hpos|Hz].
  - erewrite run_bind; [|apply (link_read_ok _ _ more _ _ Hs); unfold zlen; by rewrite length_rc4]. cbv beta. by rewrite rc4_apply_inv.
  - destruct pad as [|x pad]; [|rewrite zlen_cons in Hz; pose proof (zlen_nonneg pad); lia]. 
    destruct s as [[[inc rs wr] ? ? ? ? ?] ? ? ? ? ? ? ? ? ? ?]. cbn in Hs. by subst inc.
Qed.
Lemma rc4_three c a b d : snd (rc4_apply c (a ++ b ++ d)) =
  snd (rc4_apply c a) ++ snd (rc4_apply (fst (rc4_apply c a)) b) ++ snd (rc4_apply (fst (rc4_apply c (a ++ b))) d).
Proof.
  rewrite !rc4_apply_app. destruct (rc4_apply c a) as [c1 o1]. cbn [fst snd]. rewrite !rc4_apply_app. destruct (rc4_apply c1 b) as [c2 o2]. cbn [fst snd].
  by destruct (rc4_apply c2 d).
Qed.
Lemma rc4_fst_app c a b : fst (rc4_apply c (a ++ b)) = fst (rc4_apply (fst (rc4_apply c a)) b).
Proof. rewrite rc4_apply_app. destruct (rc4_apply c a) as [c1 ?]. cbn [fst]. by destruct (rc4_apply c1 b). Qed.
Lemma pad_len_ok (pad : list Z) : zlen pad ≤ SERVER_OBFUSCATION_MAX_PADDING_LEN → try_from_u 8 (zlen pad) = Some (zlen pad).
Proof. intros Hp. apply try_from_u_Some. pose proof (zlen_nonneg pad). unfold SERVER_OBFUSCATION_MAX_PADDING_LEN in Hp. lia. Qed.
Lemma negotiate_ok d y methods pad first_packet l cs cr endpoint now {W} (w : W) :
  draws_ok d → 0 ≤ y → zlen pad < 256 →
  derive_server_cipher md5 (server_secret (obfuscation_request d) y) EMULE_TCP_CRYPT_MAGIC_REQUESTER = Ok cs →
  derive_server_cipher md5 (server_secret (obfuscation_request d) y) EMULE_TCP_CRYPT_MAGIC_SERVER = Ok cr →
  ∃ s, negotiate_obfuscation_and_send md5 d first_packet (server_connect endpoint (mkStream (server_answer cr y methods pad l) false []) now []) w = (s, w, Ok ()) ∧
    lk_stream (ss_link s) = mkStream (snd (rc4_apply (fst (rc4_apply cr (server_header methods pad))) (wire l))) false
      (obfuscation_request d ++ snd (rc4_apply cs (obfuscation_response d first_packet))) ∧
    lk_receive_cipher (ss_link s) = Some (fst (rc4_apply cr (server_header methods pad))) ∧
    lk_send_cipher (ss_link s) = Some (fst (rc4_apply cs (obfuscation_response d first_packet))).
Proof.
  intros (Hsec & Hp & Hrp) Hy Hpad Hcs Hcr. rewrite secret_agrees in Hcs, Hcr by done.
  destruct (server_header_read methods pad Hpad) as (Hm & Hb & Hz). set (h := to_le_bytes 4 EMULE_TCP_CRYPT_MAGIC_SYNC ++ [methods.1; methods.2; zlen pad]) in *.
  assert (Eh : server_header methods pad = h ++ pad) by (unfold server_header, h; by rewrite <- app_assoc).
  unfold server_answer. rewrite Eh, <- app_assoc, rc4_three.
  set (tail := snd (rc4_apply (fst (rc4_apply cr (h ++ pad))) (wire l))). set (epad := snd (rc4_apply (fst (rc4_apply cr h)) pad)).
  eexists. split.
  - unfold negotiate_obfuscation_and_send. erewrite run_bind; [|unfold peer; by rewrite key_fixed].
    erewrite run_bind; [|unfold peer; by rewrite pad_len_ok]. erewrite run_bind; [|by apply link_write_ok].
    erewrite run_bind; [|apply (link_read_ok _ (key_bytes (modpow 2 y PRIME)) (snd (rc4_apply cr h) ++ epad ++ tail)); [done|by rewrite zlen_key]].
    erewrite run_bind; [|unfold peer; by rewrite key_fixed]. erewrite run_bind; [|unfold peer; by rewrite Hcs]. erewrite run_bind; [|unfold peer; by rewrite Hcr].
    erewrite run_bind; [|apply (link_read_ok _ (snd (rc4_apply cr h)) (epad ++ tail)); [done|unfold zlen in *; by rewrite length_rc4]].
    rewrite rc4_apply_inv. erewrite run_bind; [|unfold peer; by rewrite Hm]. rewrite Z.eqb_refl. cbn [negb].
    erewrite run_bind; [|unfold peer; by rewrite Hb]. erewrite run_bind; [|by apply (read_server_padding_ok _ pad tail)].
    erewrite run_bind; [|unfold peer; by rewrite pad_len_ok]. cbv beta zeta. fold (obfuscation_response d first_packet).
    rewrite (surjective_pairing (rc4_apply cs (obfuscation_response d first_packet))). erewrite run_bind; [|by apply link_write_ok].
    rewrite <- rc4_fst_app. reflexivity.
  - by split_and!.
Qed.
(** An obfuscated connection delivers. The agent and a server that answers the key exchange with a secret of its own derive the same
    ciphers, so that the handshake succeeds whatever padding either side adds, the server reads the response and the first packet of the
    agent in the clear and stays in step with its key stream, and every packet that the server sends after its header, packed or not, arrives
    in order and unchanged until the end of the stream. *)
Lemma server_link_delivers d y methods pad first_packet l qs endpoint now :
  draws_ok d → 0 ≤ y → zlen pad < 256 → Forall2 (carries zlib_reads) l qs →
  ∃ cs cr s s', let request := obfuscation_request d in let response := obfuscation_response d first_packet in
    derive_server_cipher md5 (server_secret request y) EMULE_TCP_CRYPT_MAGIC_REQUESTER = Ok cs ∧
    derive_server_cipher md5 (server_secret request y) EMULE_TCP_CRYPT_MAGIC_SERVER = Ok cr ∧
    negotiate_obfuscation_and_send md5 d first_packet (server_connect endpoint (mkStream (server_answer cr y methods pad l) false []) now []) () = (s, (), Ok ()) ∧
    (∃ sent, st_written (lk_stream (ss_link s)) = request ++ sent ∧ rc4_apply cs sent = (fst (rc4_apply cs response), response) ∧
       lk_send_cipher (ss_link s) = Some (fst (rc4_apply cs sent))) ∧
    server_read_all zlib_reads (S (length l)) s () = (s', (), Ok qs).
Proof.
  intros Hd Hy Hpad Hl. destruct (derive_ok (server_secret (obfuscation_request d) y) EMULE_TCP_CRYPT_MAGIC_REQUESTER) as [cs Hcs].
  destruct (derive_ok (server_secret (obfuscation_request d) y) EMULE_TCP_CRYPT_MAGIC_SERVER) as [cr Hcr].
  destruct (negotiate_ok d y methods pad first_packet l cs cr endpoint now () Hd Hy Hpad Hcs Hcr) as (s & Hs & Hst & Hrc & Hsc).
  destruct (server_reads_wire zlib_reads l qs s () Hl) as [s' Hs'].
  { unfold to_come. rewrite Hrc, Hst. cbn [st_incoming apply_opt]. by rewrite rc4_apply_inv. }
  { by rewrite Hst. }
  exists cs, cr, s, s'. split_and!; try done. eexists. rewrite Hst. cbn [st_written]. split; [done|]. rewrite rc4_apply_inv. by rewrite Hsc.
Qed.
End handshake.
Definition sample_draws : handshake_draws := mkDraws (replicate 16 5) 7 [1; 2; 3] [9].
Definition sample_md5 (_ : list Z) : list Z := replicate 16 7.

(** ** Datagrams are read back *)

(** A datagram of a server: the agent reads what the server put into it, in the clear or with the
    key that both know. *)
Definition server_datagram (c : Rc4KeyStream) (marker random_key_part padding_byte : Z) (padding body : list Z) : list Z :=
  [marker] ++ to_le_bytes 2 random_key_part ++ snd (rc4_apply c (to_le_bytes 4 EMULE_UDP_CRYPT_MAGIC_SYNC_SERVER ++ [padding_byte] ++ padding ++ body)).
Lemma server_datagram_read md5 s c marker rk pb padding opcode payload from :
  should_obfuscate_server_udp s = true → marker ≠ OP_EDONKEYPROT → 0 ≤ rk < 2 ^ 16 → Z.land pb 0x0F = zlen padding →
  derive_server_udp_cipher md5 (ce_udp_key (rv_entry s)) rk EMULE_UDP_CRYPT_MAGIC_SERVER_CLIENT = Ok c →
  read_server_udp_packet md5 s (server_datagram c marker rk pb padding ([OP_EDONKEYPROT; opcode] ++ payload)) from = Ok (Some (mkUdpPacket opcode payload from)).
Proof.
  intros Hs Hm Hrk Hpb Hc. unfold read_server_udp_packet, decode_server_udp_datagram, server_datagram.
  set (plain := to_le_bytes 4 _ ++ [pb] ++ padding ++ _). set (enc := snd (rc4_apply c plain)).
  assert (Hp : zlen plain = 7 + zlen padding + zlen payload).
  { unfold plain. repeat rewrite ?zlen_app, ?zlen_le, ?zlen_cons. rewrite zlen_nil. lia. }
  assert (He : zlen enc = zlen plain) by (unfold enc, zlen; by rewrite length_rc4). pose proof (zlen_nonneg padding). pose proof (zlen_nonneg payload).
  rewrite bool_decide_false by (cbn; congruence). rewrite Hs. cbn [negb orb].
  assert (Hz : zlen ([marker] ++ to_le_bytes 2 rk ++ enc) = 3 + zlen enc) by (rewrite !zlen_app, zlen_le; change (zlen [marker]) with 1; lia).
  destruct (Z.leb_spec (zlen ([marker] ++ to_le_bytes 2 rk ++ enc)) EMULE_UDP_CRYPT_HEADER_LEN) as [Hle|_]; [unfold EMULE_UDP_CRYPT_HEADER_LEN in Hle; lia|].
  rewrite (le_mid [marker] 2) by (done || lia). cbn [mbind res_bind].
  rewrite (app_assoc [marker]). rewrite tail_mid by (rewrite zlen_app, zlen_le; done). cbn [mbind res_bind]. rewrite Hc. cbn [mbind res_bind].
  unfold enc. rewrite rc4_apply_inv. cbn [snd]. destruct (Z.ltb_spec (zlen plain) 5); [lia|].
  replace (le_at plain 0 4) with (Ok (E:=PeerError) EMULE_UDP_CRYPT_MAGIC_SYNC_SERVER) by (symmetry; by apply (le_mid [] 4)). cbn [mbind res_bind]. rewrite Z.eqb_refl. cbn [negb].
  replace (byte plain 4) with (Ok (E:=PeerError) pb) by done. cbn [mbind res_bind]. rewrite Hpb. destruct (Z.leb_spec (zlen plain) (5 + zlen padding)); [lia|].
  unfold plain. rewrite !app_assoc. rewrite <- (app_assoc _ [OP_EDONKEYPROT; opcode]). rewrite tail_mid by (rewrite !zlen_app, zlen_le; done). cbn. done.
Qed.
