(* ===== verification/ServerDriver.v ===== *)
(** * The background session with an eD2k server

    [ed2k_server/startup.rs], [packet_handler.rs], [background.rs], [session_driver.rs] and
    [loop_runtime.rs]: what the agent sends once a server has accepted it, the handling of
    the server's packets, the searches that jobs ask for, and the loop of the session over
    packets, datagrams, requests and timers. The loop waits for all of these at once, and
    what happens first drops the reading of a packet that was under way: each turn but that
    of a packet says how many bytes the dropped reading had taken. *)

From S2P Require Import Prelude Net Text NodeId KadFirewall SearchExpr Hashset Transfer PeerTransport PeerCodec Hello Session ServerTypes ServerQuery ServerCodec ServerLink.

(** ** Data *)

(** The answers to a request, on the channel that came with it. *)
Inductive reply : Type := RFiles (l : list Ed2kSearchFile) | RSources (l : list Ed2kFoundSource) | RCallback | RFailed.
Inductive BackgroundServerSearchRequest : Type :=
| QKeyword (query : list Z) (timeout : Z) (response : Z)
| QSource (file_hash : Ed2kHash) (file_size timeout : Z) (response : Z)
| QCallback (client_id : Z) (response : Z).
Inductive PendingBackgroundServerSearch : Type :=
| PKeyword (query : list Z) (deadline : Z) (results : list Ed2kSearchFile) (page_count : Z) (response : Z)
| PSource (file_hash : Ed2kHash) (deadline : Z) (response : Z).
Definition request_channel (r : BackgroundServerSearchRequest) : Z :=
  match r with QKeyword _ _ c | QSource _ _ _ c | QCallback _ c => c end.
Definition pending_channel (p : PendingBackgroundServerSearch) : Z := match p with PKeyword _ _ _ _ c | PSource _ _ c => c end.

(** What the session shares with other tasks and what it leaves to them: the state of the
    server, the catalog and the firewall, the callbacks it started, the replies it gave,
    and the datagrams sent, with the random choices and the failures to come. *)
Record server_world : Type := mkWorld {
  w_state : Ed2kServerState;
  w_catalog : list Ed2kSharedEntry;
  w_firewall : KadFirewallState;
  w_callbacks : list (Ed2kHelloIdentity * CallbackRequest);
  w_replies : list (Z * reply);
  w_datagrams : list (SocketAddr * list Z);
  w_draws : list (Z * Z);
  w_udp_broken : list bool
}.
Definition on_state (f : Ed2kServerState → Ed2kServerState) (w : server_world) : server_world :=
  mkWorld (f (w_state w)) (w_catalog w) (w_firewall w) (w_callbacks w) (w_replies w) (w_datagrams w) (w_draws w) (w_udp_broken w).
Definition add_callback (c : Ed2kHelloIdentity * CallbackRequest) (w : server_world) : server_world :=
  mkWorld (w_state w) (w_catalog w) (w_firewall w) (w_callbacks w ++ [c]) (w_replies w) (w_datagrams w) (w_draws w) (w_udp_broken w).
Definition add_reply (c : Z) (r : reply) (w : server_world) : server_world :=
  mkWorld (w_state w) (w_catalog w) (w_firewall w) (w_callbacks w) (w_replies w ++ [(c, r)]) (w_datagrams w) (w_draws w) (w_udp_broken w).
Definition set_udp (sent : list (SocketAddr * list Z)) (draws : list (Z * Z)) (broken : list bool) (w : server_world) : server_world :=
  mkWorld (w_state w) (w_catalog w) (w_firewall w) (w_callbacks w) (w_replies w) sent draws broken.

(** ** Changes of the server state *)

Definition state_login (connected : bool) (client_id flags : option Z) (s : Ed2kServerState) : Ed2kServerState :=
  mkServerState (sv_endpoint s) client_id flags (sv_server_users s) (sv_server_files s) (sv_server_name s) (sv_server_description s) connected.
Definition state_counts (users files : Z) (s : Ed2kServerState) : Ed2kServerState :=
  mkServerState (sv_endpoint s) (sv_client_id s) (sv_server_flags s) (Some users) (Some files) (sv_server_name s) (sv_server_description s)
    (sv_connected s).
Definition state_ident (name description : option (list Z)) (s : Ed2kServerState) : Ed2kServerState :=
  mkServerState (sv_endpoint s) (sv_client_id s) (sv_server_flags s) (sv_server_users s) (sv_server_files s)
    (match name with Some _ => name | None => sv_server_name s end)
    (match description with Some _ => description | None => sv_server_description s end) (sv_connected s).
Definition state_connecting (endpoint : SocketAddr) (s : Ed2kServerState) : Ed2kServerState :=
  mkServerState (Some endpoint) None None (sv_server_users s) (sv_server_files s) (sv_server_name s) (sv_server_description s) false.
Definition clear_server_connection_state (s : Ed2kServerState) : Ed2kServerState :=
  mkServerState None None None (sv_server_users s) (sv_server_files s) (sv_server_name s) (sv_server_description s) false.

Definition world {S A} (f : server_world → A) : PM S server_world A := λ s w, (s, w, Ok (f w)).
Definition change {S} (f : server_world → server_world) : PM S server_world () := λ s w, (s, f w, Ok ()).
(** [if let Err(error) = m { warn!(..) }] *)
Definition warned {S W} (m : PM S W ()) : PM S W () := λ s w,
  match m s w with (s', w', Err _) => (s', w', Ok ()) | r => r end.

Section driver.
Context (zlib_encode : list Z → option (list Z)) (zlib_reads : list Z → list (list Z) * bool) (md5 : list Z → list Z).
(** The hash of the offered files by [DefaultHasher]. *)
Context (fingerprint : list offered → Z).
Local Abbreviation SS := (PM ServerSession server_world).
Local Abbreviation server_send_packet := (server_send_packet zlib_encode).

(** ** Startup *)

Definition send_offer_files_advertisement (tcp_port : Z) : SS () :=
  shared_catalog ← world w_catalog;
  offered_files ← peer (offered_files_catalog shared_catalog);
  let catalog_fingerprint := fingerprint offered_files in
  s ← gets id;
  if ss_offer_files_sent s && bool_decide (ss_offer_files_catalog_fingerprint s = Some catalog_fingerprint) then mret ()
  else
    payload ← peer (encode_offer_files_payload shared_catalog (ss_assigned_client_id s) tcp_port (ss_server_flags s));
    server_send_packet OP_OFFERFILES payload;;
    update (set_offered catalog_fingerprint);;
    update (set_phase OfferFilesSent).
Definition send_server_list_request : SS () :=
  requested ← gets ss_server_list_requested;
  if requested : bool then mret () else server_send_packet OP_GETSERVERLIST [];; update set_list_requested.
Definition send_connected_server_startup (tcp_port : Z) : SS () :=
  update (set_phase Connected);; send_offer_files_advertisement tcp_port;; send_server_list_request.
(** The session sleeps until the delay after the advertisement is over. *)
Definition wait_for_offer_files_settle : SS () :=
  sent_at ← gets ss_offer_files_sent_at;
  match sent_at with
  | None => mret ()
  | Some sent_at => update (set_link (λ l, set_now (Z.max (lk_now l) (sent_at + OFFER_FILE_SEARCH_SETTLE_DELAY)) l))
  end.

(** ** Packets of the server *)

(** The fields of [ServerSessionContext] that do not change. *)
Record ServerSessionContext : Type := mkContext {
  cx_hello_identity : Ed2kHelloIdentity;
  cx_probe_search_term : option (list Z);
  cx_keepalive_interval : Z;
  cx_rotation_interval : option Z
}.
Context (context : ServerSessionContext).
Definition search_request (query : list Z) : res PeerError (list Z) := map_err (λ _, PUnsupported) (encode_search_request query).
Definition maybe_send_probe_search : SS () :=
  s ← gets id;
  match cx_probe_search_term context with
  | Some term =>
      if negb (ss_login_accepted s) || ss_probe_search_sent s then mret ()
      else
        search_payload ← peer (search_request term);
        if bool_decide (search_payload = []) then mret ()
        else
          wait_for_offer_files_settle;;
          update (set_phase SearchActive);;
          server_send_packet OP_SEARCHREQUEST search_payload;;
          update set_probe_sent
  | None => mret ()
  end.
Definition handle_id_change (payload : list Z) (allow_probe_search : bool) : SS () :=
  id_change ← peer (decode_id_change_payload payload);
  if ic_client_id id_change =? 0 then
    change (on_state (state_login false None (ic_server_flags id_change)));;
    update (set_login false None (ic_server_flags id_change))
  else
    change (on_state (state_login true (Some (ic_client_id id_change)) (ic_server_flags id_change)));;
    update (set_login true (Some (ic_client_id id_change)) (ic_server_flags id_change));;
    send_connected_server_startup (hi_tcp_port (cx_hello_identity context));;
    when allow_probe_search maybe_send_probe_search.
Definition handle_search_result (payload : list Z) : SS () :=
  page ← peer (decode_search_result_page payload);
  s ← gets id;
  if pg_more_results_available page then update (set_phase AwaitingMore);; server_send_packet OP_QUERY_MORE_RESULT []
  else when (ss_probe_search_sent s) (update (set_phase Completed)).
Definition user_counts (payload : list Z) : res PeerError (option (Z * Z)) :=
  if 8 <=? zlen payload then users ← le_at payload 0 4; files ← le_at payload 4 4; Ok (Some (users, files)) else Ok None.
Definition handle_server_packet (packet : Ed2kPacket) (allow_probe_search : bool) : SS () :=
  let opcode := pk_opcode packet in let payload := pk_payload packet in
  if opcode =? OP_IDCHANGE then handle_id_change payload allow_probe_search
  else if opcode =? OP_SEARCHRESULT then handle_search_result payload
  else if opcode =? OP_SERVERSTATUS then
    counts ← peer (user_counts payload);
    match counts with Some (users, files) => change (on_state (state_counts users files)) | None => mret () end
  else if opcode =? OP_SERVERIDENT then
    '((name, description) : option (list Z) * option (list Z)) ← peer (decode_server_ident payload);
    change (on_state (state_ident name description));;
    when allow_probe_search maybe_send_probe_search
  else if opcode =? OP_SERVERLIST then when allow_probe_search maybe_send_probe_search
  else if opcode =? OP_SERVERMESSAGE then
    peer (decode_ed2k_string payload);; when allow_probe_search maybe_send_probe_search
  else if opcode =? OP_CALLBACKREQUESTED then
    callback ← peer (decode_callback_request payload);
    match callback with
    | Some callback =>
        w ← world id;
        change (add_callback (enrich_hello_identity (cx_hello_identity context) (w_state w) (w_firewall w), callback))
    | None => mret ()
    end
  else if opcode =? OP_REJECT then peer (Err PUnsupported)
  else mret ().

(** ** Searches for jobs *)

Context (server : ResolvedServerEntry) (udp_socket : bool).
Definition send_server_udp_packet {S} (opcode : Z) (payload : list Z) : PM S server_world () :=
  w ← world id;
  let '(random_key_part, marker) := default (0, 0) (head (w_draws w)) in
  datagram ← peer (encode_server_udp_datagram md5 server opcode payload random_key_part marker);
  change (set_udp (w_datagrams w) (tail (w_draws w)) (tail (w_udp_broken w)));;
  if default false (head (w_udp_broken w)) then peer (Err PIo)
  else change (set_udp (w_datagrams w ++ [datagram]) (tail (w_draws w)) (tail (w_udp_broken w))).
Definition send_server_udp_status_request {S} : PM S server_world () := send_server_udp_packet OP_GLOBSERVSTATREQ [].
Definition send_udp_keyword_search {S} (search_payload : list Z) : PM S server_world () :=
  let '(opcode, payload) := encode_udp_search_request (ce_udp_flags (rv_entry server)) search_payload in
  send_server_udp_packet opcode payload.
Definition send_udp_source_search {S} (file_hash : Ed2kHash) (file_size : Z) : PM S server_world () :=
  let '(opcode, payload) := encode_udp_source_request (ce_udp_flags (rv_entry server)) file_hash file_size in
  send_server_udp_packet opcode payload.
Definition fail_background_search_request (r : option BackgroundServerSearchRequest) (w : server_world) : server_world :=
  match r with Some r => add_reply (request_channel r) RFailed w | None => w end.
Definition fail_pending_background_search (p : option PendingBackgroundServerSearch) (w : server_world) : server_world :=
  match p with Some p => add_reply (pending_channel p) RFailed w | None => w end.
Definition start_background_server_search (request : BackgroundServerSearchRequest) : SS (option PendingBackgroundServerSearch) :=
  match request with
  | QKeyword query timeout response =>
      search_payload ← peer (search_request query);
      if bool_decide (search_payload = []) then change (add_reply response (RFiles []));; peer (Err PUnsupported)
      else
        wait_for_offer_files_settle;;
        update (set_phase SearchActive);;
        server_send_packet OP_SEARCHREQUEST search_payload;;
        when udp_socket (warned (send_udp_keyword_search search_payload));;
        s ← gets id;
        mret (Some (PKeyword query (lk_now (ss_link s) + timeout) [] 0 response))
  | QSource file_hash file_size timeout response =>
      wait_for_offer_files_settle;;
      update (set_phase SearchActive);;
      s ← gets id;
      server_send_packet (source_request_opcode (hi_connect_options (cx_hello_identity context)) (ss_server_flags s))
        (encode_source_request file_hash file_size);;
      when udp_socket (warned (send_udp_source_search file_hash file_size));;
      s ← gets id;
      mret (Some (PSource file_hash (lk_now (ss_link s) + timeout) response))
  | QCallback client_id response =>
      wait_for_offer_files_settle;;
      update (set_phase SearchActive);;
      server_send_packet OP_CALLBACKREQUEST (to_le_bytes 4 client_id);;
      change (add_reply response RCallback);;
      mret None
  end.

(** The sets of sources of a datagram, each checked and merged into what came before. *)
Fixpoint merge_source_sets (file_hash : Ed2kHash) (sets : list (list Ed2kFoundSource)) (aggregated : list Ed2kFoundSource)
    : res PeerError (list Ed2kFoundSource) :=
  match sets with
  | [] => Ok aggregated
  | results :: sets' =>
      let results := annotate_found_sources_server results (base_endpoint server) in
      validate_found_sources results file_hash;;
      merge_source_sets file_hash sets' (merge_found_sources aggregated results)
  end.

(** ** The loop *)

(** A session with the request that waits for the login and the search under way. *)
Record background : Type := mkBackground {
  bg_session : ServerSession;
  bg_queued : option BackgroundServerSearchRequest;
  bg_pending : option PendingBackgroundServerSearch
}.
Local Abbreviation BG := (PM background server_world).
Definition on_session {A} (m : SS A) : BG A := λ b w,
  let '(s, w, r) := m (bg_session b) w in (mkBackground s (bg_queued b) (bg_pending b), w, r).
Definition set_search (queued : option BackgroundServerSearchRequest) (pending : option PendingBackgroundServerSearch) (b : background) : background :=
  mkBackground (bg_session b) queued pending.
Definition set_pending (pending : option PendingBackgroundServerSearch) (b : background) : background := set_search (bg_queued b) pending b.

(** [handle_background_udp_packet]: a search of the other kind is taken and dropped;
    [unlocked] says whether the state could be locked at once. *)
Definition handle_background_udp_packet (packet : ServerUdpPacket) (unlocked : bool) : BG () :=
  let payload := up_payload packet in
  if negb (bool_decide (sa_ip (up_from packet) = V4 (rv_ip server))) then mret ()
  else if up_opcode packet =? OP_GLOBSEARCHRES then
    pending ← gets bg_pending;
    update (set_pending None);;
    match pending with
    | Some (PKeyword query deadline results page_count response) =>
        pages ← peer (decode_udp_search_result_pages payload);
        change (add_reply response (RFiles (results ++ flat_map pg_files pages)))
    | _ => mret ()
    end
  else if up_opcode packet =? OP_GLOBFOUNDSOURCES then
    pending ← gets bg_pending;
    update (set_pending None);;
    match pending with
    | Some (PSource file_hash deadline response) =>
        sets ← peer (decode_udp_found_source_sets payload);
        aggregated ← peer (merge_source_sets file_hash sets []);
        change (add_reply response (RSources aggregated))
    | _ => mret ()
    end
  else if up_opcode packet =? OP_GLOBSERVSTATRES then
    counts ← peer (user_counts payload);
    match counts with
    | Some (users, files) => when unlocked (change (on_state (state_counts users files)))
    | None => mret ()
    end
  else mret ().

(** A request that starts: when it fails its channel is dropped. *)
Definition start_search (request : BackgroundServerSearchRequest) : BG () := λ b w,
  match on_session (start_background_server_search request) b w with
  | (b', w', Ok pending) => (set_pending pending b', w', Ok ())
  | (b', w', Err _) => (b', w', Ok ())
  | (b', w', Panic) => (b', w', Panic)
  end.
(** The packet that a search waits for, if it is one: whether it was taken. *)
Definition pending_packet (packet : Ed2kPacket) : BG bool :=
  pending ← gets bg_pending;
  update (set_pending None);;
  match pending with
  | Some (PKeyword query deadline results page_count response) =>
      if pk_opcode packet =? OP_SEARCHRESULT then
        page ← peer (decode_search_result_page (pk_payload packet));
        let page_count := (page_count + 1) mod 2 ^ 32 in
        let results := results ++ pg_files page in
        (if pg_more_results_available page then
           on_session (update (set_phase AwaitingMore));;
           on_session (server_send_packet OP_QUERY_MORE_RESULT []);;
           update (set_pending (Some (PKeyword query deadline results page_count response)))
         else on_session (update (set_phase Completed));; change (add_reply response (RFiles results)));;
        mret true
      else update (set_pending pending);; mret false
  | Some (PSource file_hash deadline response) =>
      if (pk_opcode packet =? OP_FOUNDSOURCES) || (pk_opcode packet =? OP_FOUNDSOURCES_OBFU) then
        found ← peer (decode_found_sources (pk_payload packet) (pk_opcode packet =? OP_FOUNDSOURCES_OBFU));
        b ← gets id;
        let results := annotate_found_sources_server found (ss_endpoint (bg_session b)) in
        peer (validate_found_sources results file_hash);;
        on_session (update (set_phase Completed));;
        change (add_reply response (RSources results));;
        mret true
      else update (set_pending pending);; mret false
  | None => mret false
  end.
Definition is_none {A} (o : option A) : bool := match o with None => true | Some _ => false end.
Definition fail_both : BG () :=
  b ← gets id;
  change (fail_pending_background_search (bg_pending b) ∘ fail_background_search_request (bg_queued b));;
  update (set_search None None).
Definition packet_turn : BG () :=
  packet ← on_session (server_read_packet zlib_reads);
  match packet with
  | None => fail_both;; peer (Err PClosed)
  | Some packet =>
      taken ← pending_packet packet;
      if taken : bool then mret ()
      else
        b ← gets id;
        on_session (handle_server_packet packet (is_none (bg_queued b) && is_none (bg_pending b)));;
        b ← gets id;
        match bg_queued b with
        | Some request =>
            if ss_login_accepted (bg_session b) && is_none (bg_pending b)
            then update (set_search None (bg_pending b));; start_search request
            else mret ()
        | None => mret ()
        end
  end.
Definition keepalive_due (s : ServerSession) : bool := cx_keepalive_interval context <=? lk_now (ss_link s) - lk_last_tx (ss_link s).
Definition keepalive_turn : BG () :=
  on_session (s ← gets id;
    when (keepalive_due s)
      (send_offer_files_advertisement (hi_tcp_port (cx_hello_identity context));;
       s ← gets id;
       when (keepalive_due s) (server_send_packet OP_OFFERFILES (to_le_bytes 4 0))));;
  when udp_socket (warned send_server_udp_status_request).

(** What ends the wait of a turn. *)
Inductive bg_event : Type :=
| EvShutdown
| EvRotate
| EvRequest (request : option BackgroundServerSearchRequest)
| EvDeadline
| EvPacket
| EvDatagram (datagram : list Z) (from : SocketAddr) (unlocked : bool)
| EvUdpError
| EvKeepalive.
(** The branches that a turn waits for. *)
Definition awaited (e : bg_event) (b : background) : bool :=
  match e with
  | EvRotate => bool_decide (is_Some (cx_rotation_interval context)) && is_none (bg_queued b) && is_none (bg_pending b)
  | EvRequest _ => is_none (bg_queued b) && is_none (bg_pending b)
  | EvDeadline => negb (is_none (bg_pending b))
  | EvDatagram _ _ _ | EvUdpError => udp_socket
  | EvShutdown | EvPacket | EvKeepalive => true
  end.
(** A turn: whether the loop goes on. *)
Definition bg_handle (e : bg_event) : BG bool :=
  match e with
  | EvShutdown | EvRotate => fail_both;; change (on_state clear_server_connection_state);; mret false
  | EvRequest None => mret true
  | EvRequest (Some request) =>
      b ← gets id;
      (if ss_login_accepted (bg_session b) then start_search request else update (set_search (Some request) (bg_pending b)));;
      mret true
  | EvDeadline =>
      b ← gets id;
      change (fail_pending_background_search (bg_pending b));; update (set_pending None);; mret true
  | EvPacket => packet_turn;; mret true
  | EvDatagram datagram from unlocked => λ b w,
      match read_server_udp_packet md5 server datagram from with
      | Ok (Some packet) => (handle_background_udp_packet packet unlocked;; mret true) b w
      | Ok None | Err _ => (b, w, Ok true)
      | Panic => (b, w, Panic)
      end
  | EvUdpError => mret true
  | EvKeepalive => keepalive_turn;; mret true
  end.
(** A turn at the time [now], whose event drops a reading of [lost] bytes unless it is the
    packet itself; a shutdown is seen before the turn waits. *)
Definition bg_turn (now : Z) (lost : nat) (e : bg_event) : BG bool :=
  on_session (update (set_link (λ l, set_now (Z.max now (lk_now l)) l)));;
  (match e with EvPacket | EvShutdown => mret () | _ => on_session (drop_read lost) end);;
  bg_handle e.

(** ** The start of a session *)

Definition login (draws : handshake_draws) : SS () :=
  payload ← peer (encode_login_request (cx_hello_identity context));
  (if should_use_server_obfuscation (hi_connect_options (cx_hello_identity context)) server then
     login_request ← peer (encode_server_packet zlib_encode OP_LOGINREQUEST payload false);
     negotiate_obfuscation_and_send md5 draws login_request
   else server_send_packet OP_LOGINREQUEST payload);;
  update (set_phase AwaitingIdChange).
(** [run_one_server_session] up to its loop, once the stream is connected. *)
Definition bg_start (draws : handshake_draws) (st : stream) (now : Z) (broken : list bool) (w : server_world) : background * server_world * res PeerError () :=
  let endpoint := transport_endpoint server (should_use_server_obfuscation (hi_connect_options (cx_hello_identity context)) server) in
  on_session (login draws) (mkBackground (server_connect endpoint st now broken) None None) (on_state (state_connecting (base_endpoint server)) w).
End driver.

(** ** The runtime *)

(** The context that [run_ed2k_server_loop] makes of the configuration: times in seconds, at least one. *)
Definition session_context (config : Ed2kConfig) (identity : Ed2kHelloIdentity) : ServerSessionContext :=
  mkContext identity (cf_probe_search_term config) (1000 * Z.max (cf_keepalive_secs config) 1)
    (if 0 <? cf_session_rotation_secs config then Some (1000 * cf_session_rotation_secs config) else None).
(** After a session: an error clears the state. *)
Definition after_session {A} (r : res PeerError A) (w : server_world) : server_world :=
  match r with Err _ => on_state clear_server_connection_state w | _ => w end.
