(* ===== verification/ServerStep.v ===== *)
(** * Steps of sessions with eD2k servers

    What it means that a step of a session keeps a relation and does not panic, and that the
    steps on the connection, which all sessions share, keep every relation that only looks
    at the connection's types: reading, deciphering and inflating packets, writing, the
    handshake, and the advertisement of files. *)

From S2P Require Import Prelude Utf8 Net Text NodeId KadFirewall SearchExpr Hashset Transfer PeerTransport PeerCodec PeerParts Hello Session ServerTypes ServerQuery ServerCodec ServerLink ServerDriver.

(** ** Triples *)

Section hoare.
Context {S W : Type}.
(** From [P] the step yields a value and a state of [Q], or an error and a state of [E], and does not panic. *)
Definition hoare {A} (P : S → W → Prop) (m : PM S W A) (Q : A → S → W → Prop) (E : S → W → Prop) : Prop :=
  ∀ s w, P s w → match m s w with (s', w', Ok a) => Q a s' w' | (s', w', Err _) => E s' w' | (_, _, Panic) => False end.
Lemma hoare_ret {A} (P : S → W → Prop) (Q : A → S → W → Prop) E a : (∀ s w, P s w → Q a s w) → hoare P (mret a) Q E.
Proof. intros H s w HP. by apply H. Qed.
Lemma hoare_bind {A B} P (R : A → S → W → Prop) (Q : B → S → W → Prop) E (m : PM S W A) k :
  hoare P m R E → (∀ a, hoare (R a) (k a) Q E) → hoare P (m ≫= k) Q E.
Proof. intros Hm Hk s w HP. specialize (Hm s w HP). unfold mbind, sm_bind. destruct (m s w) as [[s' w'] [a|e|]]; try done. by apply Hk. Qed.
Lemma hoare_weaken {A} (P P' : S → W → Prop) (Q Q' : A → S → W → Prop) (E E' : S → W → Prop) m :
  hoare P' m Q' E' → (∀ s w, P s w → P' s w) → (∀ a s w, Q' a s w → Q a s w) → (∀ s w, E' s w → E s w) → hoare P m Q E.
Proof. intros Hm HP HQ HE s w H. specialize (Hm s w (HP s w H)). destruct (m s w) as [[s' w'] [a|e|]]; auto. Qed.
Lemma hoare_peer {A} (P : S → W → Prop) (Q : A → Prop) r : safe Q r → hoare P (peer r) (λ a s w, P s w ∧ Q a) P.
Proof. intros Hr s w HP. unfold peer. by destruct r. Qed.
Lemma hoare_gets {A} (P : S → W → Prop) (f : S → A) E : hoare P (gets f) (λ a s w, P s w ∧ a = f s) E.
Proof. intros s w HP. done. Qed.
Lemma hoare_update (P Q : S → W → Prop) f E : (∀ s w, P s w → Q (f s) w) → hoare P (update f) (λ _, Q) E.
Proof. intros H s w HP. by apply H. Qed.
Lemma hoare_when (P : S → W → Prop) b (m : PM S W ()) E : hoare P m (λ _, P) E → hoare P (when b m) (λ _, P) E.
Proof. destruct b; [done|]. intros _. by apply hoare_ret. Qed.
Lemma hoare_pure {A} (P : S → W → Prop) (φ : Prop) (m : PM S W A) Q E : (φ → hoare P m Q E) → hoare (λ s w, P s w ∧ φ) m Q E.
Proof. intros H s w [HP Hφ]. by apply H. Qed.

(** A step keeps a relation, also when it fails, and yields a value of [Q]. *)
Definition keeps {A} (R : S → W → Prop) (Q : A → Prop) (m : PM S W A) : Prop := hoare R m (λ a s w, R s w ∧ Q a) R.
Lemma keep_bind {A B} R (P : A → Prop) (Q : B → Prop) (m : PM S W A) k :
  keeps R P m → (∀ a, P a → keeps R Q (k a)) → keeps R Q (m ≫= k).
Proof. intros Hm Hk. eapply hoare_bind; [exact Hm|]. intros a. apply hoare_pure, Hk. Qed.
Lemma keep_ret {A} (R : S → W → Prop) (Q : A → Prop) a : Q a → keeps R Q (mret a).
Proof. intros Ha. by apply hoare_ret. Qed.
Lemma keeps_peer {A} R (Q : A → Prop) r : safe Q r → keeps R Q (peer r).
Proof. apply hoare_peer. Qed.
Lemma keeps_gets {A} R (f : S → A) : keeps R (λ _, True) (gets f).
Proof. intros s w HR. done. Qed.
Lemma keeps_update (R : S → W → Prop) f : (∀ s w, R s w → R (f s) w) → keeps R (λ _, True) (update f).
Proof. intros H s w HR. split; [by apply H|done]. Qed.
Lemma keeps_when R b (m : PM S W ()) : keeps R (λ _, True) m → keeps R (λ _, True) (when b m).
Proof. destruct b; [done|]. intros _. by apply keep_ret. Qed.
Lemma keeps_warned R (m : PM S W ()) : keeps R (λ _, True) m → keeps R (λ _, True) (warned m).
Proof. intros Hm s w HR. specialize (Hm s w HR). unfold warned. by destruct (m s w) as [[s' w'] [[]|e|]]. Qed.
Lemma keeps_weaken {A} (R : S → W → Prop) (P Q : A → Prop) m : keeps R P m → (∀ a, P a → Q a) → keeps R Q m.
Proof. intros Hm H. eapply hoare_weaken; [exact Hm|done| |done]. intros a s w [? ?]. auto. Qed.
End hoare.
Lemma keeps_world {S A} R (f : server_world → A) : keeps (S:=S) R (λ _, True) (world f).
Proof. intros s w HR. done. Qed.
Lemma keeps_change {S} (R : S → server_world → Prop) f : (∀ s w, R s w → R s (f w)) → keeps R (λ _, True) (change f).
Proof. intros H s w HR. split; [by apply H|done]. Qed.

(** ** Ciphers keep bytes *)

Lemma new_cipher_ok key n c : rc4_new_with_discard key n = Ok c → cipher_ok c.
Proof.
  unfold rc4_new_with_discard. case_match; [done|]. intros Hk. apply ok_inj in Hk. rewrite <- Hk. apply rc4_bytes; [|apply is_bytes_spec, Forall_replicate; lia].
  apply schedule_bytes. vm_compute. reflexivity.
Qed.
Definition opt_cipher_ok (c : option Rc4KeyStream) : Prop := ∀ k, c = Some k → cipher_ok k.
Lemma apply_opt_bytes c l : opt_cipher_ok c → is_bytes l = true → opt_cipher_ok (fst (apply_opt c l)) ∧ is_bytes (snd (apply_opt c l)) = true.
Proof.
  intros Hc Hl. destruct c as [c|]; [|done]. unfold apply_opt. destruct (rc4_bytes c l (Hc c eq_refl) Hl) as [H1 H2]. destruct (rc4_apply c l) as [c' o]. cbn [fst snd] in *.
  split; [|done]. by intros k [= <-].
Qed.


(** ** Steps on the connection *)

Definition link_ok (l : server_link) : Prop := is_bytes (st_incoming (lk_stream l)) = true ∧ opt_cipher_ok (lk_receive_cipher l).
(** A relation that the connection's steps keep. *)
Class Stable (R : ServerSession → server_world → Prop) : Prop := {
  stable_link s w : R s w → link_ok (ss_link s);
  stable_catalog s w : R s w → Forall sharable (w_catalog w);
  stable_set_link f s w : R s w → link_ok (f (ss_link s)) → R (set_link f s) w;
  stable_phase p s w : R s w → R (set_phase p s) w;
  stable_offered x s w : R s w → R (set_offered x s) w;
  stable_listed s w : R s w → R (set_list_requested s) w
}.
Section stable.
Context (zlib_encode : list Z → option (list Z)) (zlib_reads : list Z → list (list Z) * bool) (md5 : list Z → list Z) (fingerprint : list offered → Z).
(** The zlib reader yields bytes, and an MD5 digest has 16 of them. *)
Hypothesis reads_bytes : ∀ l, Forall (λ c, is_bytes c = true) (fst (zlib_reads l)).
Hypothesis md5_length : ∀ l, zlen (md5 l) = 16.
Context (R : ServerSession → server_world → Prop) `{!Stable R}.
Lemma step_link f s w : (∀ l, link_ok l → link_ok (f l)) → R s w → R (set_link f s) w.
Proof. intros Hf HR. apply stable_set_link; [done|]. by eapply Hf, stable_link. Qed.
Lemma keeps_set_phase p : keeps R (λ _, True) (update (set_phase p)).
Proof. apply keeps_update. intros s w. apply stable_phase. Qed.
Lemma keeps_link_write bytes : keeps R (λ _, True) (link_write bytes).
Proof.
  eapply keep_bind; [apply keeps_gets|]. intros broken _. eapply keep_bind; [apply keeps_update; intros s w; by apply step_link|]. intros _ _.
  case_match; [by apply keeps_peer|]. apply keeps_update. intros s w. apply step_link. by intros [[]].
Qed.
Lemma keeps_link_read n : 0 ≤ n → keeps R (λ b, is_bytes b = true ∧ zlen b = n) (link_read n).
Proof.
  intros Hn s w HR. destruct (stable_link s w HR) as [Hb Hc]. unfold link_read, gets, mbind, sm_bind, peer, update, mret, sm_ret, stream_read.
  destruct (Z.leb_spec n (zlen (st_incoming (lk_stream (ss_link s))))) as [Hle|]; [|done]. split.
  - apply stable_set_link; [done|]. split; [by apply is_bytes_drop|done].
  - split; [by apply is_bytes_take|]. unfold zlen in *. rewrite length_take. lia.
Qed.
Lemma keeps_link_decrypt bytes : is_bytes bytes = true → keeps R (λ b, is_bytes b = true ∧ zlen b = zlen bytes) (link_decrypt bytes).
Proof.
  intros Hb s w HR. destruct (stable_link s w HR) as [Hl Hc]. unfold link_decrypt, gets, mbind, sm_bind, update, mret, sm_ret.
  destruct (apply_opt_bytes (lk_receive_cipher (ss_link s)) bytes Hc Hb) as [H1 H2]. pose proof (zlen_apply_opt (lk_receive_cipher (ss_link s)) bytes) as Hz.
  destruct (apply_opt (lk_receive_cipher (ss_link s)) bytes) as [c o]. cbn [fst snd] in *. split; [|done]. by apply stable_set_link.
Qed.
Lemma keeps_send opcode payload : keeps R (λ _, True) (server_send_packet zlib_encode opcode payload).
Proof.
  eapply keep_bind; [apply keeps_gets|]. intros compress _. eapply keep_bind with (λ _, True).
  { apply keeps_peer. unfold encode_server_packet. destruct compress; [destruct (zlib_encode payload)|]; cbn [mbind res_bind]; [case_match; done|done|case_match; done]. }
  intros packet _. eapply keep_bind; [apply keeps_gets|]. intros c _. destruct (apply_opt c packet) as [c' out].
  eapply keep_bind; [apply keeps_update; intros s w; by apply step_link|]. intros _ _. eapply keep_bind; [apply keeps_link_write|]. intros _ _.
  apply keeps_update. intros s w. by apply step_link.
Qed.
Lemma inflate_bytes chunks ended decoded : Forall (λ c, is_bytes c = true) chunks → is_bytes decoded = true →
  safe (λ b, is_bytes b = true) (server_inflate_loop chunks ended decoded).
Proof.
  intros Hc. revert decoded. induction Hc as [|c chunks Hc _ IH]; intros decoded Hd; cbn [server_inflate_loop]; [by destruct ended|].
  case_match; [done|]. apply IH. by rewrite is_bytes_app, Hd, Hc.
Qed.
Lemma payload_bytes protocol payload : is_bytes payload = true → safe (λ b, is_bytes b = true) (decode_server_payload zlib_reads protocol payload).
Proof.
  intros Hp. unfold decode_server_payload. case_match; [done|]. pose proof (reads_bytes payload) as Hr. destruct (zlib_reads payload) as [chunks ended].
  by apply inflate_bytes.
Qed.
Lemma keeps_read_packet : keeps R (λ o, ∀ p, o = Some p → is_bytes (pk_payload p) = true) (server_read_packet zlib_reads).
Proof.
  eapply keep_bind with (λ o, ∀ h, o = Some h → is_bytes h = true ∧ zlen h = 6).
  { unfold read_server_header. eapply keep_bind; [apply keeps_gets|]. intros st _. case_match.
    - eapply keep_bind; [|intros _ _; by apply keep_ret]. apply keeps_update. intros s w HR. destruct (stable_link s w HR). by apply stable_set_link.
    - eapply keep_bind; [by apply keeps_link_read|]. intros h [Hh Hz]. eapply keep_bind; [by apply keeps_link_decrypt|]. intros h' [Hh' Hz']. apply keep_ret. intros x [= <-].
      split; [done|]. by rewrite Hz', Hz. }
  intros [h|] Hh; [|by apply keep_ret]. destruct (Hh h eq_refl) as [Hb Hz].
  eapply keep_bind; [apply keeps_peer, safe_byte; [done|lia]|]. intros protocol _. case_match; [by apply keeps_peer|].
  eapply keep_bind; [apply keeps_peer, safe_le; [done|lia..]|]. intros len Hlen. cbv beta in Hlen. case_match; bool_hyps; [by apply keeps_peer|].
  eapply keep_bind; [apply keeps_link_read; lia|]. intros b [Hbb _]. eapply keep_bind; [by apply keeps_link_decrypt|]. intros b' [Hb' _].
  eapply keep_bind; [by apply keeps_peer, payload_bytes|]. intros payload Hp. eapply keep_bind; [apply keeps_peer, safe_byte; [done|lia]|]. intros opcode _.
  apply keep_ret. by intros p [= <-].
Qed.
Lemma keeps_drop_read n : keeps R (λ _, True) (drop_read n).
Proof.
  intros s w HR0. destruct (stable_link s w HR0) as [Hb Hc]. unfold drop_read. unfold mbind, sm_bind, gets, update at 1.
  assert (HR : R (set_link (set_stream (mkStream (drop n (st_incoming (lk_stream (ss_link s)))) (st_reset (lk_stream (ss_link s))) (st_written (lk_stream (ss_link s))))) s) w).
  { apply stable_set_link; [done|]. split; [by apply is_bytes_drop|done]. }
  destruct (6 <=? Z.of_nat n); [|by split]. apply (keep_bind R _ (λ _, True) _ (λ _, mret ()) (keeps_link_decrypt _ (is_bytes_take 6 _ Hb))); [|done]. intros _ _. by apply keep_ret.
Qed.
Lemma catalog_safe cat : Forall sharable cat → safe (λ l, Forall offer_ok l ∧ (length l ≤ 200)%nat) (offered_files_catalog cat).
Proof.
  intros Hc. unfold offered_files_catalog. destruct (offered_take_ok 200 cat Hc) as (fs & -> & Hok & Hd). cbn. apply Forall2_length in Hd. rewrite length_take, length_fmap in Hd.
  unfold or_sample. destruct fs; [split; [repeat constructor; done|cbn; lia]|split; [done|lia]].
Qed.
Lemma offer_payload_safe cat cid port flags : Forall sharable cat → safe (λ _, True) (encode_offer_files_payload cat cid port flags).
Proof.
  intros Hc. unfold encode_offer_files_payload. destruct (advertised_client_endpoint_for_offer_file cid port flags) as [id p]. eapply safe_bind; [by apply catalog_safe|].
  intros l [Hl Hn]. rewrite (proj2 (try_from_u_Some 32 (zlen l) (zlen l))) by (unfold zlen; lia). cbn [expect mbind res_bind].
  destruct (offer_files_read id p l [] [] Hl) as (b & -> & _). done.
Qed.
Lemma keeps_advertise port : keeps R (λ _, True) (send_offer_files_advertisement zlib_encode fingerprint port).
Proof.
  intros s w HR. assert (Hc : Forall sharable (w_catalog w)) by (by eapply stable_catalog). revert s w HR Hc.
  cut (∀ cat, Forall sharable cat → keeps R (λ _, True) (offered_files ← peer (offered_files_catalog cat);
    s ← gets id; if ss_offer_files_sent s && bool_decide (ss_offer_files_catalog_fingerprint s = Some (fingerprint offered_files)) then mret ()
    else payload ← peer (encode_offer_files_payload cat (ss_assigned_client_id s) port (ss_server_flags s));
         server_send_packet zlib_encode OP_OFFERFILES payload;; update (set_offered (fingerprint offered_files));; update (set_phase OfferFilesSent))).
  { intros H s w HR Hc. by apply (H (w_catalog w) Hc s w HR). }
  intros cat Hc. eapply keep_bind; [by apply keeps_peer, catalog_safe|]. intros l _. eapply keep_bind; [apply keeps_gets|]. intros s _. case_match; [by apply keep_ret|].
  eapply keep_bind; [by apply keeps_peer, offer_payload_safe|]. intros payload _. eapply keep_bind; [apply keeps_send|]. intros _ _.
  eapply keep_bind; [apply keeps_update; intros s' w'; apply stable_offered|]. intros _ _. apply keeps_set_phase.
Qed.
Lemma keeps_startup port : keeps R (λ _, True) (send_connected_server_startup zlib_encode fingerprint port).
Proof.
  eapply keep_bind; [apply keeps_set_phase|]. intros _ _. eapply keep_bind; [apply keeps_advertise|]. intros _ _.
  eapply keep_bind; [apply keeps_gets|]. intros [] _; [by apply keep_ret|]. eapply keep_bind; [apply keeps_send|]. intros _ _. apply keeps_update. intros s' w'. apply stable_listed.
Qed.
Lemma keep_settle : keeps R (λ _, True) wait_for_offer_files_settle.
Proof. eapply keep_bind; [apply keeps_gets|]. intros [t|] _; [|by apply keep_ret]. apply keeps_update. intros s w. by apply step_link. Qed.
Lemma search_request_safe q : safe (λ _, True) (search_request q).
Proof.
  assert (Hp : ∀ v, settled (encode_search_string_param v)) by (intros v; unfold encode_search_string_param; by case_match).
  assert (Hn : settled (encode_search_request q)).
  { unfold encode_search_request. apply settled_bind; [apply settled_bind; [by apply tokenize_settled|apply parse_tokens_settled]|]. intros [e|]; [|done].
    unfold encode_node. case_match; [apply Hp|]. clear -Hp. induction e as [v|l IHl r IHr|l IHl r IHr|l IHl r IHr]; cbn [encode_search_expression]; [apply Hp|..];
      (apply settled_bind; [done|]; intros a; apply settled_bind; [done|]; intros b; done). }
  unfold search_request. by destruct (encode_search_request q).
Qed.
Lemma login_tag_ok : ∃ b, push_string_tag CT_NAME HELLO_NICKNAME = Ok b.
Proof. vm_compute. by eexists. Qed.
Lemma keeps_negotiate d packet : draws_ok d → keeps (R) (λ _, True) (negotiate_obfuscation_and_send md5 d packet).
Proof.
  intros (_ & Hp & Hrp).
  assert (Hfix : ∀ a e, safe (λ _, True) (biguint_to_fixed_be (modpow a e PRIME) SERVER_OBFUSCATION_PUBLIC_KEY_LEN)) by (intros; by rewrite key_fixed).
  assert (Hder : ∀ x m, safe cipher_ok (derive_server_cipher md5 x m)).
  { intros x m. destruct (derive_ok md5 md5_length x m) as [c Hc]. rewrite Hc. cbn. by eapply new_cipher_ok. }
  eapply keep_bind; [by apply keeps_peer|]. intros pub _. eapply keep_bind with (λ _, True); [apply keeps_peer; by rewrite pad_len_ok|]. intros n _.
  eapply keep_bind; [apply keeps_link_write|]. intros _ _. eapply keep_bind; [by apply keeps_link_read|]. intros remote _. eapply keep_bind; [by apply keeps_peer|]. intros shared _.
  eapply keep_bind; [by apply keeps_peer|]. intros sc _. eapply keep_bind; [by apply keeps_peer|]. intros rc Hrc. eapply keep_bind; [by apply keeps_link_read|]. intros h [Hh Hz].
  destruct (rc4_bytes rc h Hrc Hh) as [Hrc' Hh']. pose proof (length_rc4 rc h) as Hlen. destruct (rc4_apply rc h) as [rc' h']. cbn [fst snd] in *.
  assert (Hz' : zlen h' = 7) by (unfold zlen in *; lia). eapply keep_bind; [apply keeps_peer, safe_le; [done|lia..]|]. intros magic _. case_match; [by apply keeps_peer|].
  eapply keep_bind; [apply keeps_peer, safe_byte; [done|lia]|]. intros pl Hpl. eapply keep_bind with cipher_ok.
  { unfold read_server_padding. case_match; bool_hyps; [|by apply keep_ret]. eapply keep_bind; [apply keeps_link_read; lia|]. intros b [Hb _]. by apply keep_ret, rc4_bytes. }
  intros rc'' Hrc''. eapply keep_bind with (λ _, True); [apply keeps_peer; by rewrite pad_len_ok|]. intros rl _. destruct (rc4_apply sc _) as [sc' response].
  eapply keep_bind; [apply keeps_link_write|]. intros _ _. eapply keep_bind; [|intros _ _; apply keeps_update; intros s w; by apply step_link].
  apply keeps_update. intros s w. apply step_link. intros l [Hl _]. split; [done|]. by intros k [= <-].
Qed.
End stable.
