(* ===== verification/ServerOk.v ===== *)
(** * The background session is right

    Whatever a server sends and in whatever order packets, datagrams, requests and timers
    come, the background session does not panic, what it shares about the server agrees with
    what it knows, and each request gets at most one reply, of its own kind, that holds what
    the server sent for it. *)

From S2P Require Import Prelude Utf8 Net Text NodeId KadFirewall SearchExpr Hashset Transfer PeerTransport PeerCodec PeerParts Hello Session ServerTypes ServerQuery ServerCodec ServerLink ServerDriver ServerStep.

(** ** The session and what it shares agree *)

Section session.
Context (zlib_encode : list Z → option (list Z)) (zlib_reads : list Z → list (list Z) * bool) (md5 : list Z → list Z) (fingerprint : list offered → Z).
Context (context : ServerSessionContext) (server : ResolvedServerEntry) (udp_socket : bool).
(** The zlib reader yields bytes, and an MD5 digest has 16 of them. *)
Hypothesis reads_bytes : ∀ l, Forall (λ c, is_bytes c = true) (fst (zlib_reads l)).
Hypothesis md5_length : ∀ l, zlen (md5 l) = 16.

(** The endpoint that the session is connected to: its obfuscation port when it is obfuscated. *)
Definition session_endpoint : SocketAddr := transport_endpoint server (should_use_server_obfuscation (hi_connect_options (cx_hello_identity context)) server).
(** The login was accepted when there is an identity, which is not zero, and the shared state says the same. *)
Definition login_ok (s : ServerSession) (st : Ed2kServerState) : Prop :=
  ss_login_accepted s = negb (is_none (ss_assigned_client_id s)) ∧ ss_assigned_client_id s ≠ Some 0 ∧
  some_of (λ z, 0 ≤ z < 2 ^ 32) (ss_assigned_client_id s) ∧ some_of (λ z, 0 ≤ z < 2 ^ 32) (ss_server_flags s) ∧
  sv_connected st = ss_login_accepted s ∧ sv_client_id st = ss_assigned_client_id s ∧ sv_server_flags st = ss_server_flags s ∧
  sv_endpoint st = Some (base_endpoint server).
(** What both know, the replies so far, and whether the login is accepted where that is fixed. *)
Definition agree (fixed : option bool) (replies : list (Z * reply)) (s : ServerSession) (w : server_world) : Prop :=
  (link_ok (ss_link s) ∧ ss_endpoint s = session_endpoint) ∧ (login_ok s (w_state w) ∧ some_of (λ b, ss_login_accepted s = b) fixed) ∧ Forall sharable (w_catalog w) ∧ w_replies w = replies.
Section replies.
Context (fixed : option bool) (replies : list (Z * reply)).
Local Abbreviation R := (agree fixed replies).
Lemma agree_link f s w : (∀ l, link_ok l → link_ok (f l)) → R s w → R (set_link f s) w.
Proof. intros Hf ([Hl He] & Hrest). split; [split; [by apply Hf|done]|done]. Qed.
#[export] Instance agree_stable : Stable R.
Proof.
  split; [intros s w H; apply H|intros s w H; apply H| |done..]. intros f s w ([_ He] & Hrest) Hf. by split.
Qed.
Lemma agree_state f s w : R s w → (login_ok s (w_state w) → login_ok s (f (w_state w))) → R s (on_state f w).
Proof. intros (Hl & [Hg Hx] & Hrest) Hf. split; [done|]. split; [|done]. split; [by apply Hf|done]. Qed.
Lemma keeps_probe : keeps R (λ _, True) (maybe_send_probe_search zlib_encode context).
Proof.
  eapply keep_bind; [apply keeps_gets|]. intros s _. case_match; [|by apply keep_ret]. case_match; [by apply keep_ret|].
  eapply keep_bind; [apply keeps_peer, search_request_safe|]. intros payload _. case_match; [by apply keep_ret|].
  eapply keep_bind; [apply keep_settle; apply _|]. intros _ _. eapply keep_bind; [apply keeps_set_phase; apply _|]. intros _ _.
  eapply keep_bind; [apply keeps_send; apply _|]. intros _ _. by apply keeps_update.
Qed.
(** The shared state and the session change together. *)
Lemma keeps_login (accepted : bool) id flags {B} (k : () → PM ServerSession server_world B) (Q : B → Prop) :
  fixed = None → accepted = negb (is_none id) → id ≠ Some 0 → some_of (λ z, 0 ≤ z < 2 ^ 32) id → some_of (λ z, 0 ≤ z < 2 ^ 32) flags → keeps R Q (k ()) →
  keeps R Q (change (on_state (state_login accepted id flags));; update (set_login accepted id flags) ≫= k).
Proof.
  intros Hx Ha Hz Hi Hf Hk s w (Hl & [Hg _] & Hc & Hr). rewrite Hx in *. apply (Hk (set_login accepted id flags s) (on_state (state_login accepted id flags) w)).
  split; [done|]. split; [|done]. split; [|done]. destruct Hg as (_ & _ & _ & _ & _ & _ & _ & He). by split_and!.
Qed.
Lemma keeps_id_change payload allow : fixed = None → is_bytes payload = true → keeps R (λ _, True) (handle_id_change zlib_encode fingerprint context payload allow).
Proof.
  intros Hx Hp. eapply keep_bind; [by apply keeps_peer, safe_id_change|]. intros c (Hid & Hf & _). destruct (Z.eqb_spec (ic_client_id c) 0) as [E|E].
  - intros s w HR. pose proof (keeps_login false None (ic_server_flags c) mret (λ _, True) Hx eq_refl ltac:(done) ltac:(done) Hf ltac:(by apply keep_ret) s w HR) as H.
    unfold mbind, sm_bind, change, update, mret, sm_ret in *. done.
  - apply keeps_login; [done|done|by intros [= ?]|by intros x [= <-]|done|]. eapply keep_bind; [apply keeps_startup; apply _|]. intros _ _. apply keeps_when, keeps_probe.
Qed.
Lemma keeps_search_result payload : is_bytes payload = true → keeps R (λ _, True) (handle_search_result zlib_encode payload).
Proof.
  intros Hp. eapply keep_bind; [by apply keeps_peer, safe_page|]. intros page _. eapply keep_bind; [apply keeps_gets|]. intros s _. case_match.
  - eapply keep_bind; [apply keeps_set_phase; apply _|]. intros _ _. apply keeps_send; apply _.
  - apply keeps_when, keeps_set_phase; apply _.
Qed.
Lemma user_counts_safe payload : is_bytes payload = true → safe (λ _, True) (user_counts payload).
Proof.
  intros Hp. unfold user_counts. case_match; [|done]. bool_hyps. eapply safe_bind; [apply safe_le; [done|lia..]|]. intros u _.
  eapply safe_bind; [apply safe_le; [done|lia..]|]. done.
Qed.
Lemma keeps_counts users files : keeps R (λ _, True) (change (on_state (state_counts users files))) (S:=ServerSession).
Proof. apply keeps_change. intros s w HR. by apply agree_state. Qed.
Lemma keeps_server_packet packet allow : fixed = None → is_bytes (pk_payload packet) = true →
  keeps R (λ _, True) (handle_server_packet zlib_encode fingerprint context packet allow).
Proof.
  intros Hx Hp. unfold handle_server_packet. case_match; [by apply keeps_id_change|]. case_match; [by apply keeps_search_result|]. case_match.
  { eapply keep_bind; [by apply keeps_peer, user_counts_safe|]. intros [[u f]|] _; [apply keeps_counts|by apply keep_ret]. }
  case_match.
  { eapply keep_bind; [by apply keeps_peer, safe_ident|]. intros [n d] _. eapply keep_bind; [|intros _ _; apply keeps_when, keeps_probe].
    apply keeps_change. intros s w HR. by apply agree_state. }
  case_match; [apply keeps_when, keeps_probe|]. case_match.
  { eapply keep_bind; [by apply keeps_peer, safe_ed2k_string|]. intros _ _. apply keeps_when, keeps_probe. }
  case_match.
  { eapply keep_bind; [by apply keeps_peer, safe_callback|]. intros [c|] _; [|by apply keep_ret]. eapply keep_bind; [apply keeps_world|]. intros w _. by apply keeps_change. }
  case_match; [by apply keeps_peer|by apply keep_ret].
Qed.
End replies.
Lemma keeps_udp {S} (R : S → server_world → Prop) opcode payload : (∀ s w sent draws broken, R s w → R s (set_udp sent draws broken w)) →
  keeps R (λ _, True) (send_server_udp_packet md5 server opcode payload).
Proof.
  intros HR. eapply keep_bind; [apply keeps_world|]. intros w0 _. destruct (default (0, 0) (head (w_draws w0))) as [rk marker]. eapply keep_bind with (λ _, True).
  { apply keeps_peer. unfold encode_server_udp_datagram. case_match; [done|]. unfold derive_server_udp_cipher, rc4_new_with_discard. by rewrite md5_length. }
  intros datagram _. eapply keep_bind; [by apply keeps_change; intros s w; apply HR|]. intros _ _. case_match; [by apply keeps_peer|]. apply keeps_change. intros s w. apply HR.
Qed.

(** ** Searches *)

Section searches.
Context (fixed : option bool).
(** What starting a request leaves: the search under way, and the replies given. *)
Definition started (r : BackgroundServerSearchRequest) (replies : list (Z * reply)) (o : option PendingBackgroundServerSearch)
    (s : ServerSession) (w : server_world) : Prop :=
  match r with
  | QKeyword query _ c => agree fixed replies s w ∧ ∃ deadline, o = Some (PKeyword query deadline [] 0 c)
  | QSource h _ _ c => agree fixed replies s w ∧ ∃ deadline, o = Some (PSource h deadline c)
  | QCallback _ c => agree fixed (replies ++ [(c, RCallback)]) s w ∧ o = None
  end.
(** A request that fails is dropped, or answered by nothing found. *)
Definition not_started (r : BackgroundServerSearchRequest) (replies : list (Z * reply)) (s : ServerSession) (w : server_world) : Prop :=
  agree fixed replies s w ∨ ∃ query timeout c, r = QKeyword query timeout c ∧ agree fixed (replies ++ [(c, RFiles [])]) s w.
Lemma hoare_keeps {A B} replies (Q : A → Prop) (m : PM ServerSession server_world A) (k : A → PM ServerSession server_world B) P E :
  keeps (agree fixed replies) Q m → (∀ a, Q a → hoare (agree fixed replies) (k a) P E) → (∀ s w, agree fixed replies s w → E s w) → hoare (agree fixed replies) (m ≫= k) P E.
Proof.
  intros Hm Hk HE. eapply hoare_bind; [eapply hoare_weaken; [exact Hm|done|intros a s w H; exact H|done]|]. intros a. by apply hoare_pure, Hk.
Qed.
Lemma agree_reply replies c r s w : agree fixed replies s w → agree fixed (replies ++ [(c, r)]) s (add_reply c r w).
Proof. intros (Hl & Hg & Hc & Hr). split; [done|]. split; [done|]. split; [done|]. cbn. by rewrite Hr. Qed.
Lemma start_hoare r replies :
  hoare (agree fixed replies) (start_background_server_search zlib_encode md5 context server udp_socket r) (started r replies) (not_started r replies).
Proof.
  assert (HE : ∀ s w, agree fixed replies s w → not_started r replies s w) by (by left).
  assert (Hudp : ∀ op pl, keeps (agree fixed replies) (λ _, True) (when udp_socket (warned (send_server_udp_packet (S:=ServerSession) md5 server op pl)))).
  { intros. by apply keeps_when, keeps_warned, keeps_udp. }
  destruct r as [query timeout c|h size timeout c|id c]; cbn [start_background_server_search].
  - eapply hoare_keeps; [apply keeps_peer, search_request_safe|intros payload _|done]. case_match.
    + eapply hoare_bind with (λ _, agree fixed (replies ++ [(c, RFiles [])])).
      { intros s w HR. by apply agree_reply. }
      intros _ s w HR. right. by eexists _, _, _.
    + eapply hoare_keeps; [apply keep_settle; apply _|intros _ _|done]. eapply hoare_keeps; [apply keeps_set_phase; apply _|intros _ _|done].
      eapply hoare_keeps; [apply keeps_send; apply _|intros _ _|done]. eapply hoare_keeps; [|intros _ _|done].
      { unfold send_udp_keyword_search. destruct (encode_udp_search_request _ _). apply Hudp. }
      eapply hoare_keeps; [apply keeps_gets|intros s _|done]. apply hoare_ret. intros s' w HR. split; [done|by eexists].
  - eapply hoare_keeps; [apply keep_settle; apply _|intros _ _|done]. eapply hoare_keeps; [apply keeps_set_phase; apply _|intros _ _|done].
    eapply hoare_keeps; [apply keeps_gets|intros s _|done]. eapply hoare_keeps; [apply keeps_send; apply _|intros _ _|done]. eapply hoare_keeps; [|intros _ _|done].
    { unfold send_udp_source_search. destruct (encode_udp_source_request _ _ _). apply Hudp. }
    eapply hoare_keeps; [apply keeps_gets|intros s' _|done]. apply hoare_ret. intros s'' w HR. split; [done|by eexists].
  - eapply hoare_keeps; [apply keep_settle; apply _|intros _ _|done]. eapply hoare_keeps; [apply keeps_set_phase; apply _|intros _ _|done].
    eapply hoare_keeps; [apply keeps_send; apply _|intros _ _|done]. eapply hoare_bind with (λ _, agree fixed (replies ++ [(c, RCallback)])).
    { intros s w HR. by apply agree_reply. }
    intros _. by apply hoare_ret.
Qed.
End searches.

(** ** Requests and replies *)

(** A source as a reply holds it: typed, of the file, and marked with the endpoint that named it. *)
Definition source_for (h : Ed2kHash) (endpoint : SocketAddr) (s : Ed2kFoundSource) : Prop :=
  found_ok s ∧ fs_file_hash s = h ∧ fs_source_server s = Some endpoint.
(** A reply that fits a request: it failed, or it holds typed results; sources are all of the requested file and marked with
    one endpoint of the server, that of the session or, if they came by datagram, the one the server is configured with. *)
Definition answers (r : BackgroundServerSearchRequest) (a : reply) : Prop :=
  match r, a with
  | _, RFailed => True
  | QKeyword _ _ _, RFiles l => Forall file_ok l
  | QSource h _ _ _, RSources l => ∃ endpoint, (endpoint = session_endpoint ∨ endpoint = base_endpoint server) ∧ Forall (source_for h endpoint) l
  | QCallback _ _, RCallback => True
  | _, _ => False
  end.
Section requests.
(** The requests that jobs have made. *)
Context (asked : list BackgroundServerSearchRequest).
Definition replied (replies : list (Z * reply)) : Prop :=
  NoDup (fst <$> replies) ∧ Forall (λ '(c, a), ∃ r, r ∈ asked ∧ request_channel r = c ∧ answers r a) replies.
Definition queued_ok (replies : list (Z * reply)) (r : BackgroundServerSearchRequest) : Prop := r ∈ asked ∧ request_channel r ∉ (fst <$> replies).
Definition pending_ok (replies : list (Z * reply)) (p : PendingBackgroundServerSearch) : Prop :=
  (pending_channel p ∉ (fst <$> replies)) ∧
  match p with
  | PKeyword query _ results _ c => (∃ timeout, QKeyword query timeout c ∈ asked) ∧ Forall file_ok results
  | PSource h _ c => ∃ size timeout, QSource h size timeout c ∈ asked
  end.
(** The session at the top of its loop: a request waits for the login, and for no other search. *)
Definition bg_ok (b : background) (w : server_world) : Prop := ∃ replies,
  agree (match bg_queued b with Some _ => Some false | None => None end) replies (bg_session b) w ∧ replied replies ∧
  some_of (queued_ok replies) (bg_queued b) ∧ some_of (pending_ok replies) (bg_pending b) ∧ (bg_queued b = None ∨ bg_pending b = None).
(** After its end only the replies count. *)
Definition bg_over (b : background) (w : server_world) : Prop := replied (w_replies w).

Lemma replied_add replies r a : replied replies → r ∈ asked → request_channel r ∉ (fst <$> replies) → answers r a → replied (replies ++ [(request_channel r, a)]).
Proof.
  intros [Hn Hf] Hr Hc Ha. split.
  - rewrite fmap_app. apply NoDup_app. split; [done|]. split; [|apply NoDup_singleton]. intros x Hx Hx'%list_elem_of_singleton. by subst.
  - apply Forall_app_2; [done|]. constructor; [|done]. by exists r.
Qed.
(** The session of a background whose requests are given. *)
Definition at_work fixed replies q p (b : background) (w : server_world) : Prop := agree fixed replies (bg_session b) w ∧ bg_queued b = q ∧ bg_pending b = p.
Lemma hoare_on_session {A} fixed replies q p (Q : A → Prop) m : keeps (agree fixed replies) Q m →
  keeps (at_work fixed replies q p) Q (on_session m).
Proof.
  intros Hm b w (Hb & Hq & Hp). specialize (Hm (bg_session b) w Hb). unfold on_session. destruct (m (bg_session b) w) as [[s' w'] [a|e|]]; try done.
  by destruct Hm.
Qed.
Lemma at_work_over fixed replies q p b w : replied replies → at_work fixed replies q p b w → bg_over b w.
Proof. intros Hr ((_ & _ & _ & Hw) & _). unfold bg_over. by rewrite Hw. Qed.
Lemma agree_any fixed replies s w : agree fixed replies s w → agree None replies s w.
Proof. intros (Hl & [Hg _] & Hrest). split; [done|]. split; [|done]. by split. Qed.
(** The search that starts, in a session with nothing else to do. *)
Lemma start_search_ok r fixed replies : replied replies → queued_ok replies r →
  hoare (at_work fixed replies None None) (start_search zlib_encode md5 context server udp_socket r) (λ _, bg_ok) bg_over.
Proof.
  intros Hr [Hin Hch] b w (Hb & Hq & Hp). unfold start_search, on_session. pose proof (start_hoare fixed r replies (bg_session b) w Hb) as Hs.
  destruct (start_background_server_search zlib_encode md5 context server udp_socket r (bg_session b) w) as [[s' w'] [o|e|]]; try done.
  - unfold set_pending, set_search. cbn [bg_session bg_queued bg_pending]. rewrite Hq. unfold bg_ok. cbn [bg_session bg_queued bg_pending]. destruct r as [query t c|h size t c|id c]; destruct Hs as [Ha Ho].
    + destruct Ho as [d ->]. exists replies. split; [by eapply agree_any|]. split; [done|]. split; [done|]. split; [|by left]. intros x [= <-].
      split; [done|]. split; [by eexists|done].
    + destruct Ho as [d ->]. exists replies. split; [by eapply agree_any|]. split; [done|]. split; [done|]. split; [|by left]. intros x [= <-].
      split; [done|]. by eexists _, _.
    + subst o. eexists. split; [by eapply agree_any|]. split; [exact (replied_add _ (QCallback id c) RCallback Hr Hin Hch I)|]. split; [done|]. split; [done|by left].
  - unfold bg_ok. cbn [bg_session bg_queued bg_pending]. rewrite Hq, Hp. destruct Hs as [Ha|(query & t & c & -> & Ha)].
    + exists replies. split; [by eapply agree_any|]. split; [done|]. split; [done|]. split; [done|by left].
    + eexists. split; [by eapply agree_any|]. split; [exact (replied_add _ (QKeyword query t c) (RFiles []) Hr Hin Hch (Forall_nil_2 _))|]. split; [done|]. split; [done|by left].
Qed.
Lemma annotated_ok l h a u : Forall found_ok l → validate_found_sources (annotate_found_sources_server l a) h = Ok u →
  Forall (source_for h a) (annotate_found_sources_server l a).
Proof.
  intros Hl Hv. unfold validate_found_sources in Hv. revert Hv. destruct (forallb _ _) eqn:Hf; [|done]. intros _. apply Forall_forall. intros s Hs.
  pose proof (proj1 (forallb_forall _ _) Hf s (proj1 (list_elem_of_In _ _) Hs)) as Hh. cbv beta in Hh. apply bool_decide_eq_true in Hh.
  unfold annotate_found_sources_server in Hs. apply list_elem_of_fmap in Hs as (s0 & -> & Hs0). split; [exact (proj1 (Forall_forall found_ok l) Hl s0 Hs0)|]. by split.
Qed.
Lemma merged_ok h a agg l : Forall (source_for h a) agg → Forall (source_for h a) l → Forall (source_for h a) (merge_found_sources agg l).
Proof.
  intros Ha Hl. unfold merge_found_sources. revert agg Ha. induction Hl as [|s l (Hs & Hh & Hsrv) _ IH]; intros agg Ha; cbn [foldl]; [done|]. apply IH.
  unfold merge_found_source. case_match; [|apply Forall_app_2; [done|]; constructor; [|done]; split; [done|by split]].
  apply Forall_alter; [done|]. intros x _ (Hx & Hxh & Hxs). case_match; [|split; [done|by split]]. split; [done|by split].
Qed.
Lemma merge_sets_ok h sets agg : Forall (Forall found_ok) sets → Forall (source_for h (base_endpoint server)) agg →
  safe (Forall (source_for h (base_endpoint server))) (merge_source_sets server h sets agg).
Proof.
  intros Hs. revert agg. induction Hs as [|l sets Hl _ IH]; intros agg Ha; cbn [merge_source_sets]; [done|].
  destruct (validate_found_sources (annotate_found_sources_server l (base_endpoint server)) h) as [u|e|] eqn:Ev; cbn [mbind res_bind]; [|done|].
  - apply IH, merged_ok; [done|]. by eapply annotated_ok.
  - unfold validate_found_sources in Ev. by destruct (forallb _ _).
Qed.
(** The search under way, taken from the session. *)
Lemma hoare_take {B} fixed replies q p (k : option PendingBackgroundServerSearch → PM background server_world B) Q E :
  hoare (at_work fixed replies q None) (k p) Q E →
  hoare (at_work fixed replies q p) (pending ← gets bg_pending; update (set_pending None);; k pending) Q E.
Proof. intros Hk b w (Hb & Hq & <-). by apply (Hk (set_pending None b) w). Qed.
Lemma hoare_at {A B} fixed replies q p (Q : A → Prop) (m : PM background server_world A) (k : A → PM background server_world B) P :
  replied replies → keeps (at_work fixed replies q p) Q m → (∀ a, Q a → hoare (at_work fixed replies q p) (k a) P bg_over) →
  hoare (at_work fixed replies q p) (m ≫= k) P bg_over.
Proof.
  intros Hr Hm Hk. eapply hoare_bind; [eapply hoare_weaken; [exact Hm|done|intros a b w H; exact H|]|intros a; by apply hoare_pure, Hk].
  intros b w. by apply at_work_over.
Qed.
Lemma over_peer {A} fixed replies q p (Q : A → Prop) r : replied replies → safe Q r → keeps (at_work fixed replies q p) Q (peer r).
Proof. intros _ Hr. by apply keeps_peer. Qed.
(** A search that ends with a reply. *)
Lemma reply_ok fixed replies r a : replied replies → r ∈ asked → request_channel r ∉ (fst <$> replies) → answers r a →
  hoare (at_work fixed replies None None) (change (add_reply (request_channel r) a)) (λ _, bg_ok) bg_over.
Proof.
  intros Hr Hin Hch Ha b w (Hb & Hq & Hp). change (bg_ok b (add_reply (request_channel r) a w)). unfold bg_ok. rewrite Hq, Hp. eexists. split; [by eapply agree_any, agree_reply|].
  split; [by apply replied_add|]. split; [done|]. split; [done|by left].
Qed.
(** Back to the loop, with what waits unchanged. *)
Lemma loop_ok replies q p b w : at_work (match q with Some _ => Some false | None => None end) replies q p b w → replied replies →
  some_of (queued_ok replies) q → some_of (pending_ok replies) p → q = None ∨ p = None → bg_ok b w.
Proof. intros (Hb & Hq & Hp) Hr H1 H2 H3. exists replies. by rewrite Hq, Hp. Qed.
Lemma pending_packet_ok replies q p packet : replied replies → some_of (queued_ok replies) q → some_of (pending_ok replies) p → q = None ∨ p = None →
  is_bytes (pk_payload packet) = true →
  hoare (at_work (match q with Some _ => Some false | None => None end) replies q p) (pending_packet zlib_encode packet)
    (λ taken b w, if taken then bg_ok b w else at_work (match q with Some _ => Some false | None => None end) replies q p b w) bg_over.
Proof.
  intros Hr Hq Hp Hqp Hb. set (fixed := match q with Some _ => Some false | None => None end). apply hoare_take.
  assert (Hback : hoare (at_work fixed replies q None) (update (set_pending p);; mret false)
    (λ (taken : bool) b w, if taken then bg_ok b w else at_work fixed replies q p b w) bg_over).
  { intros b w (Ha & Hbq & _). by split_and!. }
  destruct p as [[query deadline results n c|h deadline c]|]; [| |by apply hoare_ret].
  - destruct Hqp as [->|]; [|done]. destruct (Hp _ eq_refl) as [Hch [[t Hin] Hres]]. case_match; [|exact Hback].
    eapply hoare_at; [done|by apply keeps_peer, safe_page|]. intros page Hpage. cbv zeta. eapply hoare_bind with (λ _, bg_ok); [|intros _; by apply hoare_ret].
    case_match.
    + eapply hoare_at; [done|apply hoare_on_session, keeps_set_phase; apply _|]. intros _ _. eapply hoare_at; [done|apply hoare_on_session, keeps_send; apply _|]. intros _ _ b w (Ha & Hbq & _).
      apply (loop_ok replies None (Some (PKeyword query deadline (results ++ pg_files page) ((n + 1) mod 2 ^ 32) c))); try done; [|by left].
      intros x [= <-]. split; [done|]. split; [by eexists|by apply Forall_app_2].
    + eapply hoare_at; [done|apply hoare_on_session, keeps_set_phase; apply _|]. intros _ _. apply (reply_ok fixed replies (QKeyword query t c)); try done. by apply Forall_app_2.
  - destruct Hqp as [->|]; [|done]. destruct (Hp _ eq_refl) as [Hch (size & t & Hin)]. case_match; [|exact Hback].
    eapply hoare_at; [done|by apply keeps_peer, safe_found_sources|]. intros found Hfound.
    eapply hoare_at with (Q := λ b, ss_endpoint (bg_session b) = session_endpoint); [done|by intros b w Hw; split; [|apply Hw]|]. intros b0 He. cbv zeta. rewrite He.
    destruct (validate_found_sources (annotate_found_sources_server found session_endpoint) h) as [u|e|] eqn:Ev.
    + eapply hoare_at with (Q:=λ _, True); [done|by apply keeps_peer|]. intros _ _. eapply hoare_at; [done|apply hoare_on_session, keeps_set_phase; apply _|]. intros _ _.
      eapply hoare_bind with (λ _, bg_ok); [|intros _; by apply hoare_ret]. apply (reply_ok fixed replies (QSource h size t c)); try done.
      exists session_endpoint. split; [by left|]. by eapply annotated_ok.
    + intros b w Hw. by apply (at_work_over fixed replies None None).
    + unfold validate_found_sources in Ev. by destruct (forallb _ _).
Qed.
(** The channel of a search under way is that of a request. *)
Lemma pending_request replies p : pending_ok replies p → ∃ r, r ∈ asked ∧ request_channel r = pending_channel p.
Proof. intros [_ Hp]. destruct p; [destruct Hp as [[t Hin] _]; by eexists|destruct Hp as (size & t & Hin); by eexists]. Qed.
Lemma fail_pending_ok replies p w : replied replies → w_replies w = replies → some_of (pending_ok replies) p →
  replied (w_replies (fail_pending_background_search p w)).
Proof.
  intros Hr Hw Hp. destruct p as [p|]; cbn; rewrite Hw; [|done]. destruct (pending_request replies p (Hp p eq_refl)) as (r & Hin & Ec). rewrite <- Ec.
  apply replied_add; [done|done| |by destruct r]. rewrite Ec. apply (Hp p eq_refl).
Qed.
Lemma fail_both_ok fixed replies q p : replied replies → some_of (queued_ok replies) q → some_of (pending_ok replies) p → q = None ∨ p = None →
  hoare (at_work fixed replies q p) fail_both (λ _, bg_over) bg_over.
Proof.
  intros Hr Hq Hp Hqp b w ((Hl & Hg & Hc & Hw) & <- & <-). change (bg_over (set_search None None b) (fail_pending_background_search (bg_pending b) (fail_background_search_request (bg_queued b) w))).
  unfold bg_over. destruct (bg_queued b) as [r|].
  - destruct Hqp as [|Hn]; [done|]. rewrite Hn. cbn. rewrite Hw. destruct (Hq r eq_refl) as [Hin Hch]. apply replied_add; [done|done|done|by destruct r].
  - cbn [fail_background_search_request]. by eapply fail_pending_ok.
Qed.
Lemma bg_ok_at (P : background → server_world → Prop) {A} (m : PM background server_world A) Q E :
  (∀ replies q p, replied replies → some_of (queued_ok replies) q → some_of (pending_ok replies) p → q = None ∨ p = None →
    hoare (λ b w, at_work (match q with Some _ => Some false | None => None end) replies q p b w ∧ P b w) m Q E) →
  hoare (λ b w, bg_ok b w ∧ P b w) m Q E.
Proof. intros H b w [(replies & Ha & Hr & Hq & Hp & Hqp) HP]. apply (H replies (bg_queued b) (bg_pending b)); try done. Qed.
Lemma packet_turn_ok replies q p : replied replies → some_of (queued_ok replies) q → some_of (pending_ok replies) p → q = None ∨ p = None →
  hoare (at_work (match q with Some _ => Some false | None => None end) replies q p) (packet_turn zlib_encode zlib_reads md5 fingerprint context server udp_socket)
    (λ _, bg_ok) bg_over.
Proof.
  intros Hr Hq Hp Hqp. eapply hoare_at; [done|apply hoare_on_session, keeps_read_packet; [exact reads_bytes|apply _]|]. intros [packet|] Hb.
  2:{ eapply hoare_bind; [by apply (fail_both_ok _ replies q p)|]. intros _ b w H. exact H. }
  eapply hoare_bind; [apply pending_packet_ok; try done; by apply Hb|]. intros [|]; [by apply hoare_ret|].
  eapply (hoare_weaken _ (at_work None replies q p)); [|intros b w (Ha & Hx); split; [by eapply agree_any|done]|intros a b w H; exact H|intros b w H; exact H].
  eapply hoare_at; [done|apply keeps_gets|]. intros b0 _. eapply hoare_at; [done|apply hoare_on_session, keeps_server_packet; [done|by apply Hb]|]. intros _ _ b w (Ha & Hbq & Hbp).
  unfold mbind at 1, sm_bind at 1, gets at 1. unfold id. rewrite Hbq. destruct q as [r|]; [|by apply (loop_ok replies None p)].
  destruct Hqp as [|Hn]; [done|]. rewrite Hbp, Hn. cbn [is_none]. rewrite Hn in Hbp. rewrite andb_true_r. destruct (ss_login_accepted (bg_session b)) eqn:El.
  - unfold mbind at 1, sm_bind at 1, update at 1. apply (start_search_ok r None replies Hr (Hq r eq_refl) (set_search None None b) w). by split.
  - apply (loop_ok replies (Some r) None); try done; [|by right]. split; [|done]. destruct Ha as (Hl & [Hg _] & Hrest). split; [done|]. split; [|done]. split; [done|]. by intros x [= <-].
Qed.
Lemma udp_packet_ok replies q p packet unlocked : replied replies → some_of (queued_ok replies) q → some_of (pending_ok replies) p → q = None ∨ p = None →
  is_bytes (up_payload packet) = true →
  hoare (at_work (match q with Some _ => Some false | None => None end) replies q p) (handle_background_udp_packet server packet unlocked) (λ _, bg_ok) bg_over.
Proof.
  intros Hr Hq Hp Hqp Hb. set (fixed := match q with Some _ => Some false | None => None end).
  assert (Hsame : hoare (at_work fixed replies q p) (mret ()) (λ _ : (), bg_ok) bg_over) by (apply hoare_ret; intros b w Hw; by apply (loop_ok replies q p)).
  assert (Hdrop : hoare (at_work fixed replies q None) (mret ()) (λ _ : (), bg_ok) bg_over).
  { apply hoare_ret. intros b w Hw. apply (loop_ok replies q None); try done. by right. }
  unfold handle_background_udp_packet. case_match; [exact Hsame|]. case_match.
  { apply hoare_take. destruct p as [[query deadline results n c|h deadline c]|]; [|exact Hdrop..]. destruct Hqp as [->|]; [|done]. destruct (Hp _ eq_refl) as [Hch [[t Hin] Hres]].
    eapply hoare_at; [done|by apply keeps_peer, safe_udp_pages|]. intros pages Hpages. apply (reply_ok fixed replies (QKeyword query t c)); try done.
    apply Forall_app_2; [done|]. apply Forall_forall. intros f (x & Hx & Hf)%list_elem_of_In%in_flat_map. apply list_elem_of_In in Hx, Hf.
    exact (proj1 (Forall_forall _ _) (proj1 (Forall_forall _ _) Hpages x Hx) f Hf). }
  case_match.
  { apply hoare_take. destruct p as [[query deadline results n c|h deadline c]|]; [exact Hdrop| |exact Hdrop]. destruct Hqp as [->|]; [|done]. destruct (Hp _ eq_refl) as [Hch (size & t & Hin)].
    eapply hoare_at; [done|by apply keeps_peer, safe_udp_sources|]. intros sets Hsets. eapply hoare_at; [done|by apply keeps_peer, merge_sets_ok|]. intros agg Hagg.
    apply (reply_ok fixed replies (QSource h size t c)); try done. exists (base_endpoint server). split; [by right|done]. }
  case_match; [|exact Hsame]. eapply hoare_at; [done|by apply keeps_peer, user_counts_safe|]. intros [[u f]|] _; [|exact Hsame]. destruct unlocked; [|exact Hsame].
  intros b w (Ha & Hbq & Hbp). apply (loop_ok replies q p); [split; [by apply agree_state|done]|done..].
Qed.
Lemma udp_read_safe datagram from : is_bytes datagram = true →
  safe (λ o, ∀ p, o = Some p → is_bytes (up_payload p) = true) (read_server_udp_packet md5 server datagram from).
Proof.
  intros Hd. unfold read_server_udp_packet. eapply safe_bind with (λ o, ∀ b, o = Some b → is_bytes b = true).
  - unfold decode_server_udp_datagram. case_match; [by cbn; intros b [= <-]|]. case_match; [done|]. bool_hyps. unfold EMULE_UDP_CRYPT_HEADER_LEN in *.
    eapply safe_bind; [apply safe_le; [done|lia..]|]. intros rk _. eapply safe_bind; [apply safe_tail; [done|lia]|]. intros e [He Hz].
    unfold derive_server_udp_cipher. destruct (rc4_new_with_discard _ _) as [c|er|] eqn:Ec; [|done|].
    2:{ unfold rc4_new_with_discard in Ec. by rewrite md5_length in Ec. }
    cbn [mbind res_bind]. destruct (rc4_bytes c e (new_cipher_ok _ _ c Ec) He) as [_ Hb]. set (d := snd (rc4_apply c e)) in *. case_match; bool_hyps; [done|].
    eapply safe_bind; [apply safe_le; [done|lia..]|]. intros magic _. case_match; [done|]. eapply safe_bind; [apply safe_byte; [done|lia]|]. intros b Hbb.
    case_match; bool_hyps; [done|]. eapply safe_bind; [apply safe_tail; [done|]|].
    + pose proof (Z.land_nonneg b 15). lia.
    + intros pl [Hpl _]. cbn. by intros x [= <-].
  - intros [b|] Hb; [|done]. destruct b as [|x [|y b]]; try done. cbn. intros p. case_match; [|done]. intros [= <-]. cbn.
    specialize (Hb _ eq_refl). apply is_bytes_spec in Hb. apply Forall_cons_1 in Hb as [_ Hb]. apply Forall_cons_1 in Hb as [_ Hb]. by apply is_bytes_spec.
Qed.
Lemma keepalive_ok fixed replies q p : keeps (at_work fixed replies q p) (λ _, True) (keepalive_turn zlib_encode md5 fingerprint context server udp_socket).
Proof.
  eapply keep_bind.
  - apply hoare_on_session. eapply keep_bind; [apply keeps_gets|]. intros s _. apply keeps_when. eapply keep_bind; [apply keeps_advertise; apply _|]. intros _ _.
    eapply keep_bind; [apply keeps_gets|]. intros s' _. apply keeps_when, keeps_send; apply _.
  - intros _ _. apply keeps_when, keeps_warned. by apply keeps_udp.
Qed.
Lemma bg_handle_ok e replies q p : replied replies → some_of (queued_ok replies) q → some_of (pending_ok replies) p → q = None ∨ p = None →
  (∀ datagram from unlocked, e = EvDatagram datagram from unlocked → is_bytes datagram = true) →
  (∀ r, e = EvRequest (Some r) → q = None ∧ p = None ∧ queued_ok replies r) →
  hoare (at_work (match q with Some _ => Some false | None => None end) replies q p) (bg_handle zlib_encode zlib_reads md5 fingerprint context server udp_socket e)
    (λ on b w, if on then bg_ok b w else bg_over b w ∧ sv_connected (w_state w) = false ∧ sv_client_id (w_state w) = None) bg_over.
Proof.
  intros Hr Hq Hp Hqp Hd Hreq. set (fixed := match q with Some _ => Some false | None => None end).
  assert (Hsame : hoare (at_work fixed replies q p) (mret true)
    (λ (on : bool) b w, if on then bg_ok b w else bg_over b w ∧ sv_connected (w_state w) = false ∧ sv_client_id (w_state w) = None) bg_over).
  { apply hoare_ret. intros b w Hw. by apply (loop_ok replies q p). }
  assert (Hend : hoare (at_work fixed replies q p) (fail_both;; change (on_state clear_server_connection_state);; mret false)
    (λ (on : bool) b w, if on then bg_ok b w else bg_over b w ∧ sv_connected (w_state w) = false ∧ sv_client_id (w_state w) = None) bg_over).
  { eapply hoare_bind; [by apply (fail_both_ok fixed replies q p)|]. intros _ b w Hw. done. }
  destruct e as [| |[r|]| | |datagram from unlocked| |]; cbn [bg_handle]; [exact Hend|exact Hend| |exact Hsame| | | |exact Hsame|].
  - destruct (Hreq r eq_refl) as (Hqn & Hpn & Hro). subst q p. subst fixed. intros b w Hw.
    unfold mbind at 1, sm_bind at 1, gets at 1. unfold id. destruct (ss_login_accepted (bg_session b)) eqn:El.
    + apply (hoare_bind (at_work None replies None None) (λ _, bg_ok) _ bg_over (start_search zlib_encode md5 context server udp_socket r) (λ _, mret true)); [by apply start_search_ok| |done].
      intros _. by apply hoare_ret.
    + destruct Hw as (Ha & Hbq & Hbp). apply (loop_ok replies (Some r) (bg_pending b)); [|done|by intros x [= <-]|by rewrite Hbp|by right].
      split; [|done]. destruct Ha as (Hl & [Hg _] & Hrest). split; [done|]. split; [|done]. split; [done|]. by intros x [= <-].
  - intros b w (Ha & Hbq & Hbp). unfold mbind, sm_bind, gets, change, update, mret, sm_ret. cbn. rewrite Hbp. unfold set_pending, set_search. destruct p as [p|].
    + destruct Hqp as [->|]; [|done]. destruct (pending_request replies p (Hp p eq_refl)) as (r & Hin & Ec). unfold bg_ok. cbn [bg_session bg_queued bg_pending]. rewrite Hbq.
      exists (replies ++ [(pending_channel p, RFailed)]). split; [by eapply agree_any, agree_reply|]. split; [|split; [done|split; [done|by left]]].
      rewrite <- Ec. apply replied_add; [done|done| |by destruct r]. rewrite Ec. apply (Hp p eq_refl).
    + apply (loop_ok replies q None); [by split_and!|done..].
  - eapply hoare_bind with (λ _, bg_ok); [by apply packet_turn_ok|]. intros ?. by apply hoare_ret.
  - intros b w Hw. pose proof (udp_read_safe datagram from (Hd _ _ _ eq_refl)) as Hs. destruct (read_server_udp_packet md5 server datagram from) as [[packet|]|er|]; [|by apply Hsame|by apply Hsame|done].
    apply (hoare_bind (at_work fixed replies q p) (λ _, bg_ok) _ bg_over (handle_background_udp_packet server packet unlocked) (λ _, mret true)); [|intros _; by apply hoare_ret|done].
    apply udp_packet_ok; try done. by apply Hs.
  - eapply hoare_at; [done|apply keepalive_ok|]. intros _ _. exact Hsame.
Qed.
End requests.

(** ** Every session *)

Lemma replied_mono asked asked' replies : asked ⊆ asked' → replied asked replies → replied asked' replies.
Proof. intros Hs [Hn Hf]. split; [done|]. eapply Forall_impl; [exact Hf|]. intros [c a] (r & Hr & H). exists r. split; [by apply Hs|done]. Qed.
Lemma queued_mono asked asked' replies r : asked ⊆ asked' → queued_ok asked replies r → queued_ok asked' replies r.
Proof. intros Hs [H1 H2]. split; [by apply Hs|done]. Qed.
Lemma pending_mono asked asked' replies p : asked ⊆ asked' → pending_ok asked replies p → pending_ok asked' replies p.
Proof.
  intros Hs [H1 H2]. split; [done|]. destruct p; [destruct H2 as [[t H2] H3]; split; [exists t; by apply Hs|done]|destruct H2 as (size & t & H2); exists size, t; by apply Hs].
Qed.
(** The requests after an event. *)
Definition asked_after (e : bg_event) (asked : list BackgroundServerSearchRequest) : list BackgroundServerSearchRequest :=
  match e with EvRequest (Some r) => r :: asked | _ => asked end.
(** Datagrams are bytes, and each request comes with a channel of its own. *)
Definition event_ok (e : bg_event) (asked : list BackgroundServerSearchRequest) : Prop :=
  match e with
  | EvRequest (Some r) => request_channel r ∉ (request_channel <$> asked)
  | EvDatagram datagram _ _ => is_bytes datagram = true
  | _ => True
  end.
Lemma asked_grows e asked : asked ⊆ asked_after e asked.
Proof. destruct e as [| |[r|]| | | | |]; cbn; set_solver. Qed.
Lemma fresh_channel asked replies c : replied asked replies → c ∉ (request_channel <$> asked) → c ∉ (fst <$> replies).
Proof.
  intros [_ Hf] Hc Hin. apply list_elem_of_fmap in Hin as ([c' a] & -> & Hin). destruct (proj1 (Forall_forall _ _) Hf _ Hin) as (r & Hr & <- & _). apply Hc. cbn. apply list_elem_of_fmap. by exists r.
Qed.
Local Abbreviation turn_of := (bg_turn zlib_encode zlib_reads md5 fingerprint context server udp_socket).
Definition turn_outcome (asked : list BackgroundServerSearchRequest) (on : bool) (b : background) (w : server_world) : Prop :=
  if on then bg_ok asked b w else bg_over asked b w ∧ sv_connected (w_state w) = false ∧ sv_client_id (w_state w) = None.
Lemma bg_turn_ok asked now lost e b w : bg_ok asked b w → awaited context udp_socket e b = true → event_ok e asked →
  match turn_of now lost e b w with
  | (b', w', Ok on) => turn_outcome (asked_after e asked) on b' w'
  | (b', w', Err _) => bg_over (asked_after e asked) b' w'
  | (_, _, Panic) => False
  end.
Proof.
  intros (replies & Ha & Hr & Hq & Hp & Hqp) Hw He. pose proof (asked_grows e asked) as Hg.
  assert (Hr' : replied (asked_after e asked) replies) by (by eapply replied_mono).
  set (fixed := match bg_queued b with Some _ => Some false | None => None end).
  assert (H : hoare (at_work fixed replies (bg_queued b) (bg_pending b)) (turn_of now lost e) (turn_outcome (asked_after e asked)) (bg_over (asked_after e asked))); [|by apply (H b w)].
  eapply hoare_at; [done|apply hoare_on_session, keeps_update; intros s' w'; by apply agree_link|]. intros _ _.
  eapply hoare_at with (Q:=λ _, True); [done| |].
  { destruct e; first [by apply keep_ret|apply hoare_on_session, keeps_drop_read; apply _]. }
  intros _ _. apply bg_handle_ok; try done.
  - intros r Er. by eapply queued_mono, Hq.
  - intros p Ep. by eapply pending_mono, Hp.
  - intros d f u ->. exact He.
  - intros r ->. cbn in Hw. apply andb_prop in Hw as [H1 H2]. destruct (bg_queued b); [done|]. destruct (bg_pending b); [done|]. split; [done|]. split; [done|].
    split; [by left|]. by eapply (fresh_channel asked).
Qed.
Lemma keeps_login_sent fixed replies d : draws_ok d → keeps (agree fixed replies) (λ _, True) (login zlib_encode md5 context server d).
Proof.
  intros Hd. eapply keep_bind with (λ _, True).
  { apply keeps_peer. unfold encode_login_request. destruct login_tag_ok as [b ->]. done. }
  intros payload _. eapply keep_bind; [|intros _ _; apply keeps_set_phase; apply _]. case_match; [|apply keeps_send; apply _]. eapply keep_bind with (λ _, True).
  { apply keeps_peer. unfold encode_server_packet. cbn [mbind res_bind]. by case_match. }
  intros request _. apply keeps_negotiate; [exact md5_length|apply _|done].
Qed.

(** What other tasks change while the session waits. *)
Definition others (w w' : server_world) : Prop :=
  w_state w' = w_state w ∧ w_replies w' = w_replies w ∧ Forall sharable (w_catalog w').
Local Abbreviation start_of := (bg_start zlib_encode md5 context server).
(** The states of a background session at the top of its loop, with the requests made so far. *)
Inductive bg_reach : list BackgroundServerSearchRequest → background → server_world → Prop :=
| reach_login draws st now broken w b w' : draws_ok draws → is_bytes (st_incoming st) = true → Forall sharable (w_catalog w) → w_replies w = [] →
    start_of draws st now broken w = (b, w', Ok ()) → bg_reach [] b w'
| reach_others asked b w w' : bg_reach asked b w → others w w' → bg_reach asked b w'
| reach_turn asked b w now lost e b' w' : bg_reach asked b w → awaited context udp_socket e b = true → event_ok e asked →
    turn_of now lost e b w = (b', w', Ok true) → bg_reach (asked_after e asked) b' w'.
Lemma bg_start_ok draws st now broken w : draws_ok draws → is_bytes (st_incoming st) = true → Forall sharable (w_catalog w) → w_replies w = [] →
  match start_of draws st now broken w with (b, w', Ok _) => bg_ok [] b w' | (b, w', Err _) => True | (_, _, Panic) => False end.
Proof.
  intros Hd Hb Hc Hw. unfold bg_start.
  assert (Ha : at_work None [] None None (mkBackground (server_connect (transport_endpoint server (should_use_server_obfuscation (hi_connect_options (cx_hello_identity context)) server)) st now broken) None None)
    (on_state (state_connecting (base_endpoint server)) w)).
  { split; [|done]. split; [split; [by split|done]|]. split; [|by split]. split; [|done]. by split_and!. }
  pose proof (hoare_on_session None [] None None (λ _, True) (login zlib_encode md5 context server draws) (keeps_login_sent None [] draws Hd) _ _ Ha) as H.
  destruct (on_session _ _ _) as [[b' w'] [u|e|]]; try done. destruct H as [(Hb' & Hq & Hp) _]. exists []. rewrite Hq, Hp. split; [done|]. split; [by split; [constructor|]|].
  split; [done|]. split; [done|by left].
Qed.
Lemma bg_reach_ok asked b w : bg_reach asked b w → bg_ok asked b w.
Proof.
  induction 1 as [draws st now broken w b w' Hd Hb Hc Hw Hs|asked b w w' _ IH (Hst & Hrep & Hc)|asked b w now lost e b' w' _ IH Ha He Ht].
  - pose proof (bg_start_ok draws st now broken w Hd Hb Hc Hw) as H. by rewrite Hs in H.
  - destruct IH as (replies & (Hl & Hg & _ & Hw) & Hrest). exists replies. split; [|done]. split; [done|]. rewrite Hst. split; [done|]. split; [done|]. by rewrite Hrep.
  - pose proof (bg_turn_ok asked now lost e b w IH Ha He) as H. by rewrite Ht in H.
Qed.
(** C28. The background session does not panic, as long as the names in the catalog are shorter than 64 KiB, and never misleads. In every state
    that it reaches, whatever the server sends, with any writes failing, readings dropped, requests, datagrams and timers in any order and other
    tasks changing the catalog to others whose entries are [sharable], what the agent shares about its server is what the session knows: connected
    exactly while the login is accepted, the assigned identity, which is then not zero, the flags, and the server's endpoint; a request is kept
    waiting only while the login is outstanding and no search is under way; and no event that the loop waits for makes it panic, and once the
    session has ended, by itself or by an error, the agent is shown as disconnected. A shared file with a longer name does make the
    advertisement panic ([ServerCodec.long_name_panics]). *)
Theorem server_session_agrees asked b w : bg_reach asked b w →
  sv_connected (w_state w) = ss_login_accepted (bg_session b) ∧ sv_client_id (w_state w) = ss_assigned_client_id (bg_session b) ∧
  sv_server_flags (w_state w) = ss_server_flags (bg_session b) ∧ sv_endpoint (w_state w) = Some (base_endpoint server) ∧
  (ss_login_accepted (bg_session b) = true ↔ ∃ id, ss_assigned_client_id (bg_session b) = Some id ∧ 0 < id < 2 ^ 32) ∧
  (∀ r, bg_queued b = Some r → ss_login_accepted (bg_session b) = false ∧ bg_pending b = None) ∧
  ∀ now lost e, awaited context udp_socket e b = true → event_ok e asked →
    let '(_, w', r) := bg_turn zlib_encode zlib_reads md5 fingerprint context server udp_socket now lost e b w in
    r ≠ Panic ∧ (r ≠ Ok true → sv_connected (w_state (after_session r w')) = false ∧ sv_client_id (w_state (after_session r w')) = None).
Proof.
  intros Hr. pose proof (bg_reach_ok asked b w Hr) as Hok.
  assert (Ht : ∀ now lost e, awaited context udp_socket e b = true → event_ok e asked →
    let '(_, w', r) := bg_turn zlib_encode zlib_reads md5 fingerprint context server udp_socket now lost e b w in
    r ≠ Panic ∧ (r ≠ Ok true → sv_connected (w_state (after_session r w')) = false ∧ sv_client_id (w_state (after_session r w')) = None)).
  { intros now lost e Hw He. pose proof (bg_turn_ok asked now lost e b w Hok Hw He) as H. destruct (bg_turn _ _ _ _ _ _ _ _ _ _ _ _) as [[b' w'] [[|]|er|]]; [|by destruct H|by split|done].
    split; [done|]. by intros []. }
  destruct Hok as (replies & (_ & [(H1 & H2 & H3 & H4 & H5 & H6 & H7 & H8) Hx] & _) & _ & _ & _ & Hqp). split_and!; try done.
  - rewrite H1. destruct (ss_assigned_client_id (bg_session b)) as [id|]; cbn; split; try done.
    + intros _. exists id. split; [done|]. specialize (H3 id eq_refl). cbv beta in H3. assert (id ≠ 0) by congruence. lia.
    + by intros (id & ? & _).
  - intros r Hq. rewrite Hq in Hx, Hqp. split; [by apply Hx|]. by destruct Hqp.
Qed.
End session.
