(* ===== verification/ServerRun.v ===== *)
(** * Searches on the background session complete

    A keyword search that a job asks for on a connected session gathers every page that the
    server sends, with one request for each further page, and replies once with all of
    them. Concrete sessions show what happens when a reading is dropped, and when a datagram
    of the other kind arrives. *)

From S2P Require Import Prelude Utf8 Net Text NodeId KadFirewall SearchExpr Hashset Transfer PeerTransport PeerCodec PeerParts Hello Session ServerTypes ServerQuery ServerCodec ServerLink ServerDriver ServerStep ServerOk.

Section run.
Context (zlib_encode : list Z → option (list Z)) (zlib_reads : list Z → list (list Z) * bool) (md5 : list Z → list Z) (fingerprint : list offered → Z).
Context (context : ServerSessionContext) (server : ResolvedServerEntry) (udp_socket : bool).
Hypothesis md5_length : ∀ l, zlen (md5 l) = 16.

(** A session that is logged in and whose writes succeed. *)
Definition live (s : ServerSession) : Prop := ss_login_accepted s = true ∧ lk_broken (ss_link s) = [].
(** A packet as the session frames it: packed when the server takes that. *)
Definition framed (s : ServerSession) (opcode : Z) (payload packet : list Z) : Prop :=
  encode_server_packet zlib_encode opcode payload (server_supports_compression s) = Ok packet.
(** Between two states the session wrote these bytes, through its cipher if it has one. *)
Definition wrote (bytes : list Z) (s s' : ServerSession) : Prop :=
  let '(c, out) := apply_opt (lk_send_cipher (ss_link s)) bytes in
  lk_send_cipher (ss_link s') = c ∧ st_written (lk_stream (ss_link s')) = st_written (lk_stream (ss_link s)) ++ out.
(** Steps that leave what is to come, and write [bytes]. *)
Definition steady (bytes : list Z) (s s' : ServerSession) : Prop :=
  live s' ∧ to_come s' = to_come s ∧ wrote bytes s s' ∧ ss_server_flags s' = ss_server_flags s.
Lemma wrote_nil s s' : lk_send_cipher (ss_link s') = lk_send_cipher (ss_link s) → st_written (lk_stream (ss_link s')) = st_written (lk_stream (ss_link s)) → wrote [] s s'.
Proof. intros Hc Hw. unfold wrote. rewrite Hc, Hw. destruct (lk_send_cipher (ss_link s)) as [c|]; cbn [apply_opt]; [change (rc4_apply c []) with (c, @nil Z)|]; cbn beta iota; split; by rewrite ?app_nil_r. Qed.
Lemma wrote_app a b s1 s2 s3 : wrote a s1 s2 → wrote b s2 s3 → wrote (a ++ b) s1 s3.
Proof.
  unfold wrote. rewrite apply_opt_app. destruct (apply_opt _ a) as [c1 o1]. intros [-> Hw1]. destruct (apply_opt c1 b) as [c2 o2]. intros [-> ->]. by rewrite Hw1, app_assoc.
Qed.
Lemma steady_app a b s1 s2 s3 : steady a s1 s2 → steady b s2 s3 → steady (a ++ b) s1 s3.
Proof. intros (_ & Ht1 & Hw1 & Hf1) (Hl & Ht2 & Hw2 & Hf2). split; [done|]. split; [congruence|]. split; [by eapply wrote_app|congruence]. Qed.
Lemma framed_flags s s' opcode payload packet : ss_server_flags s' = ss_server_flags s → framed s opcode payload packet → framed s' opcode payload packet.
Proof. unfold framed, server_supports_compression. by intros ->. Qed.
Lemma send_live opcode payload packet s (w : server_world) : live s → framed s opcode payload packet →
  ∃ s', server_send_packet zlib_encode opcode payload s w = (s', w, Ok ()) ∧ steady packet s s'.
Proof.
  intros [Hl Hb] Hf. unfold server_send_packet. erewrite run_bind; [|done]. unfold peer. rewrite Hf. erewrite run_bind; [|done]. erewrite run_bind; [|done].
  destruct (apply_opt (lk_send_cipher (ss_link s)) packet) as [c out] eqn:E. erewrite run_bind; [|done]. erewrite run_bind; [|by apply link_write_ok]. eexists. split; [done|].
  split; [|split; [|split; [|done]]]; [by destruct s as [[[] ? ? ? ? ?] ? ? ? ? ? ? ? ? ? ?]..|]. unfold wrote. rewrite E. by destruct s as [[[] ? ? ? ? ?] ? ? ? ? ? ? ? ? ? ?].
Qed.
Lemma settle_live s (w : server_world) : live s → ∃ s', wait_for_offer_files_settle s w = (s', w, Ok ()) ∧ steady [] s s'.
Proof.
  intros Hl. unfold wait_for_offer_files_settle. erewrite run_bind; [|done]. destruct (ss_offer_files_sent_at s); eexists; (split; [done|]);
    (split; [|split; [|split; [apply wrote_nil|]]]); by destruct s as [[[] ? ? ? ? ?] ? ? ? ? ? ? ? ? ? ?].
Qed.
Lemma udp_warned {S} opcode payload (s : S) w : ∃ w', when udp_socket (warned (send_server_udp_packet md5 server opcode payload)) s w = (s, w', Ok ()) ∧ w_replies w' = w_replies w.
Proof.
  destruct udp_socket; [|by eexists]. cbn [when]. unfold warned, send_server_udp_packet, world, mbind, sm_bind, change, peer. change (id w) with w.
  destruct (default (0, 0) (head (w_draws w))) as [rk marker].
  assert (Hd : ∃ d, encode_server_udp_datagram md5 server opcode payload rk marker = Ok d).
  { unfold encode_server_udp_datagram, derive_server_udp_cipher, rc4_new_with_discard. rewrite md5_length. case_match; by eexists. }
  destruct Hd as [d ->]. destruct (default false (head (w_udp_broken w))); by eexists.
Qed.
(** A search starts: its query is sent, and the session waits for the results. *)
Lemma keyword_starts query payload request timeout c s w : live s → search_request query = Ok payload → payload ≠ [] → framed s OP_SEARCHREQUEST payload request →
  ∃ s' w' deadline, start_background_server_search zlib_encode md5 context server udp_socket (QKeyword query timeout c) s w = (s', w', Ok (Some (PKeyword query deadline [] 0 c))) ∧
    steady request s s' ∧ w_replies w' = w_replies w.
Proof.
  intros Hl Hq Hne Hf. cbn [start_background_server_search]. erewrite run_bind; [|unfold peer; by rewrite Hq]. rewrite bool_decide_false by done.
  destruct (settle_live s w Hl) as (s1 & H1 & Hst1). pose proof Hst1 as (Hl1 & _ & _ & Hfl1). erewrite run_bind; [|exact H1]. erewrite run_bind; [|done].
  assert (Hf2 : framed (set_phase SearchActive s1) OP_SEARCHREQUEST payload request) by (by eapply framed_flags; [|exact Hf]).
  destruct (send_live OP_SEARCHREQUEST payload request (set_phase SearchActive s1) w Hl1 Hf2) as (s3 & H3 & Hst3).
  erewrite run_bind; [|exact H3]. unfold send_udp_keyword_search. destruct (encode_udp_search_request _ _) as [op pl].
  destruct (udp_warned op pl s3 w) as (w4 & H4 & Hr4). erewrite run_bind; [|exact H4]. erewrite run_bind; [|done]. eexists _, _, _. split; [done|]. split; [|done].
  exact (steady_app [] request _ _ _ Hst1 Hst3).
Qed.
(** What the server sends for a search: pages, all but the last of which announce another. *)
Fixpoint pages_sent (l : list wire_packet) (files : list Ed2kSearchFile) : Prop :=
  match l with
  | [] => False
  | (protocol, opcode, raw) :: l' => ∃ payload page,
      opcode = OP_SEARCHRESULT ∧ frame_ok protocol raw ∧ decode_server_payload zlib_reads protocol raw = Ok payload ∧ decode_search_result_page payload = Ok page ∧
      match l' with
      | [] => pg_more_results_available page = false ∧ files = pg_files page
      | _ => pg_more_results_available page = true ∧ ∃ rest, files = pg_files page ++ rest ∧ pages_sent l' rest
      end
  end.
Local Abbreviation turn_of := (bg_turn zlib_encode zlib_reads md5 fingerprint context server udp_socket).
(** A turn for each packet, at the times given. *)
Fixpoint packet_turns (times : list Z) (b : background) (w : server_world) : background * server_world * res PeerError () :=
  match times with
  | [] => (b, w, Ok ())
  | now :: times' =>
      match turn_of now 0 EvPacket b w with
      | (b', w', Ok true) => packet_turns times' b' w'
      | (b', w', Ok false) => (b', w', Ok ())
      | (b', w', Err e) => (b', w', Err e)
      | (b', w', Panic) => (b', w', Panic)
      end
  end.
Lemma steady_advanced n s : live s → live (advanced n s) ∧ wrote [] s (advanced n s).
Proof. intros Hl. split; [done|]. by apply wrote_nil. Qed.
Lemma on_session_run {A} (m : PM ServerSession server_world A) b w s' w' r : m (bg_session b) w = (s', w', r) →
  on_session m b w = (mkBackground s' (bg_queued b) (bg_pending b), w', r).
Proof. intros H. unfold on_session. by rewrite H. Qed.
Lemma pending_page query deadline results n c payload page more s w : live s → framed s OP_QUERY_MORE_RESULT [] more → decode_search_result_page payload = Ok page →
  ∃ s', steady (if pg_more_results_available page then more else []) s s' ∧
    pending_packet zlib_encode (mkServerPacket OP_SEARCHRESULT payload) (mkBackground s None (Some (PKeyword query deadline results n c))) w =
      if pg_more_results_available page
      then (mkBackground s' None (Some (PKeyword query deadline (results ++ pg_files page) ((n + 1) mod 2 ^ 32) c)), w, Ok true)
      else (mkBackground s' None None, add_reply c (RFiles (results ++ pg_files page)) w, Ok true).
Proof.
  intros Hl Hf Hp. unfold pending_packet. destruct (pg_more_results_available page) eqn:Em.
  - destruct (send_live OP_QUERY_MORE_RESULT [] more (set_phase AwaitingMore s) w Hl Hf) as (s2 & H2 & Hst2). exists s2. split; [exact Hst2|].
    erewrite run_bind; [|done]. erewrite run_bind; [|done]. cbn [bg_pending pk_opcode pk_payload]. rewrite Z.eqb_refl. erewrite run_bind; [|unfold peer; by rewrite Hp]. cbv zeta. rewrite Em.
    erewrite run_bind; [done|]. erewrite run_bind; [|by apply on_session_run]. erewrite run_bind; [|by apply on_session_run]. done.
  - exists (set_phase Completed s). split; [split; [done|]; split; [done|]; split; [by apply wrote_nil|done]|].
    erewrite run_bind; [|done]. erewrite run_bind; [|done]. cbn [bg_pending pk_opcode pk_payload]. rewrite Z.eqb_refl.
    erewrite run_bind; [|unfold peer; by rewrite Hp]. cbv zeta. by rewrite Em.
Qed.
(** A page arrives while the search waits. *)
Lemma page_turn now query deadline results n c protocol raw payload page more rest s w :
  live s → framed s OP_QUERY_MORE_RESULT [] more → to_come s = server_frame protocol OP_SEARCHRESULT raw ++ rest → frame_ok protocol raw →
  decode_server_payload zlib_reads protocol raw = Ok payload → decode_search_result_page payload = Ok page →
  ∃ s', (live s' ∧ to_come s' = rest ∧ wrote (if pg_more_results_available page then more else []) s s' ∧ ss_server_flags s' = ss_server_flags s) ∧
    turn_of now 0 EvPacket (mkBackground s None (Some (PKeyword query deadline results n c))) w =
      if pg_more_results_available page
      then (mkBackground s' None (Some (PKeyword query deadline (results ++ pg_files page) ((n + 1) mod 2 ^ 32) c)), w, Ok true)
      else (mkBackground s' None None, add_reply c (RFiles (results ++ pg_files page)) w, Ok true).
Proof.
  intros Hl Hfm Hs Hf Hd Hp. set (s0 := set_link (λ l, set_now (Z.max now (lk_now l)) l) s).
  destruct (server_read_frame zlib_reads protocol OP_SEARCHRESULT raw payload rest s0 w Hs Hf Hd) as [Hr Ht]. set (s1 := advanced _ s0) in *.
  destruct (pending_page query deadline results n c payload page more s1 w Hl Hfm Hp) as (s2 & (Hl2 & Ht2 & Hw2 & Hfl2) & H2). exists s2. split.
  { split; [done|]. split; [by rewrite Ht2|]. split; [|done]. apply (wrote_app [] _ s s1 s2); [by apply wrote_nil|exact Hw2]. }
  unfold bg_turn. erewrite run_bind; [|by apply on_session_run]. erewrite run_bind; [|done]. cbn [bg_handle].
  destruct (pg_more_results_available page).
  - erewrite run_bind; [done|]. unfold packet_turn. erewrite run_bind; [|apply on_session_run; exact Hr]. cbn [bg_queued bg_pending]. erewrite run_bind; [|exact H2]. done.
  - erewrite run_bind; [done|]. unfold packet_turn. erewrite run_bind; [|apply on_session_run; exact Hr]. cbn [bg_queued bg_pending]. erewrite run_bind; [|exact H2]. done.
Qed.
Lemma pages_gathered l files times query deadline results n c more s w : live s → framed s OP_QUERY_MORE_RESULT [] more →
  to_come s = wire l → pages_sent l files → length times = length l →
  ∃ s', live s' ∧ to_come s' = [] ∧ wrote (concat (replicate (length l - 1) more)) s s' ∧
    packet_turns times (mkBackground s None (Some (PKeyword query deadline results n c))) w = (mkBackground s' None None, add_reply c (RFiles (results ++ files)) w, Ok ()).
Proof.
  revert files times results n s. induction l as [|[[protocol opcode] raw] l IH]; intros files times results n s Hl Hfm Hs Hp Ht; [done|].
  destruct times as [|now times]; [done|]. injection Ht as Ht. destruct Hp as (payload & page & -> & Hf & Hd & Hpg & Hrest).
  change (wire ((protocol, OP_SEARCHRESULT, raw) :: l)) with (server_frame protocol OP_SEARCHRESULT raw ++ wire l) in Hs.
  destruct (page_turn now query deadline results n c protocol raw payload page more (wire l) s w Hl Hfm Hs Hf Hd Hpg) as (s1 & (Hl1 & Ht1 & Hw1 & Hfl1) & H1).
  cbn [packet_turns]. rewrite H1. destruct l as [|p l].
  - destruct Hrest as [Hm ->]. rewrite Hm in *. destruct times; [|done]. by exists s1.
  - destruct Hrest as [Hm (rest & -> & Hp)]. rewrite Hm in *. rewrite app_assoc.
    destruct (IH rest times (results ++ pg_files page) ((n + 1) mod 2 ^ 32) s1 Hl1 ltac:(by eapply framed_flags) Ht1 Hp Ht) as (s2 & Hl2 & Ht2 & Hw2 & H2).
    exists s2. split; [done|]. split; [done|]. split; [|done]. cbn [length] in Hw2. rewrite Nat.sub_succ, Nat.sub_0_r in Hw2.
    change (wrote (concat (replicate (S (length l)) more)) s s2).
    cbn [replicate concat]. by eapply wrote_app.
Qed.

(** C30. A search on the connected session completes. When the session is logged in and idle and its writes succeed, a job's query is sent to
    the server, packed if the server takes that and zlib can pack it, and through the cipher if the session has one; and if the server answers
    with pages, each of which but the last announces another, then after a turn for each packet, at whatever times, the session has asked once for
    each further page and sent nothing else, the job has its one reply, with the files of all pages in order, every packet has been read, and
    the session is idle and logged in again. *)
Theorem keyword_search_completes query payload request more timeout c s w now l files times :
  live s → search_request query = Ok payload → payload ≠ [] → framed s OP_SEARCHREQUEST payload request → framed s OP_QUERY_MORE_RESULT [] more →
  to_come s = wire l → pages_sent l files → length times = length l →
  ∃ b1 w1 s2 w2, turn_of now 0 (EvRequest (Some (QKeyword query timeout c))) (mkBackground s None None) w = (b1, w1, Ok true) ∧
    wrote request s (bg_session b1) ∧ w_replies w1 = w_replies w ∧
    packet_turns times b1 w1 = (mkBackground s2 None None, w2, Ok ()) ∧
    wrote (request ++ concat (replicate (length l - 1) more)) s s2 ∧
    w_replies w2 = w_replies w ++ [(c, RFiles files)] ∧ live s2 ∧ to_come s2 = [].
Proof.
  intros Hl Hq Hne Hfr Hfm Hs Hp Ht. set (s0 := set_link (λ l, set_now (Z.max now (lk_now l)) l) s).
  assert (Hd : drop_read 0 s0 w = (s0, w, Ok ())) by (by destruct s as [[[] ? ? ? ? ?] ? ? ? ? ? ? ? ? ? ?]).
  destruct (keyword_starts query payload request timeout c s0 w Hl Hq Hne Hfr) as (s1 & w1 & deadline & H1 & (Hl1 & Ht1 & Hw1 & Hfl1) & Hr1).
  destruct (pages_gathered l files times query deadline [] 0 c more s1 w1 Hl1 ltac:(by eapply framed_flags) ltac:(by rewrite Ht1) Hp Ht) as (s2 & Hl2 & Ht2 & Hw2 & H2).
  assert (Hw : wrote request s s1) by (apply (wrote_app [] request s s0 s1); [by apply wrote_nil|exact Hw1]).
  exists (mkBackground s1 None (Some (PKeyword query deadline [] 0 c))), w1, s2, (add_reply c (RFiles files) w1). split; [|split; [done|split; [done|split; [done|split; [|split; [|done]]]]]].
  - unfold bg_turn. erewrite run_bind; [|by apply on_session_run]. erewrite run_bind; [|apply on_session_run; exact Hd]. cbn [bg_handle]. erewrite run_bind; [|done].
    change (ss_login_accepted (bg_session _)) with (ss_login_accepted s). destruct Hl as [Hlog _]. cbn [bg_session]. change (ss_login_accepted s0) with (ss_login_accepted s). rewrite Hlog.
    erewrite run_bind; [done|]. unfold start_search. erewrite on_session_run; [|exact H1]. done.
  - by eapply wrote_app.
  - cbn. by rewrite Hr1.
Qed.
End run.

(** ** A session *)

Definition run_identity : Ed2kHelloIdentity := mkHelloIdentity (replicate 16 1) 0 4662 4672 0 0 0 false.
Definition run_context : ServerSessionContext := mkContext run_identity None 1000 None.
Definition run_server : ResolvedServerEntry := mkResolved (mkServerEntry (lit "1.2.3.4") 4661 None None 0 0 0 0 0) (1, 2, 3, 4).
Definition run_world : server_world := mkWorld server_state_default [shared_sample] firewall_default [] [] [] [] [].
(** What the server sends: an identity, and a page with one file. *)
Definition page_bytes : list Z := match encode_offer_files_payload [shared_sample] None 0 None with Ok b => b | _ => [] end.
Definition run_packets : list wire_packet := [(OP_EDONKEYPROT, OP_IDCHANGE, to_le_bytes 4 0x04030201); (OP_EDONKEYPROT, OP_SEARCHRESULT, page_bytes)].
Definition no_zlib (_ : list Z) : list (list Z) * bool := ([], false).
Local Abbreviation sample_turn := (bg_turn (λ _, None) no_zlib sample_md5 (λ _, 0) run_context run_server true).
Definition login_state := bg_start (λ _, None) sample_md5 run_context run_server sample_draws (mkStream (wire run_packets) false []) 0 [] run_world.
Definition connected_state := sample_turn 10 0 EvPacket (fst (fst login_state)) (snd (fst login_state)).
Definition film_query : BackgroundServerSearchRequest := QKeyword (lit "a film") 5000 7.
Definition searching_state := sample_turn 200 0 (EvRequest (Some film_query)) (fst (fst connected_state)) (snd (fst connected_state)).
Local Abbreviation sample_reach := (bg_reach (λ _, None) no_zlib sample_md5 (λ _, 0) run_context run_server true).
Lemma sample_catalog : Forall sharable (w_catalog run_world).
Proof. repeat constructor; try (vm_compute; done). exists OFFER_FILE_SAMPLE_HASH. by vm_compute. Qed.
Lemma triple_eq {A B C} (x : A * B * C) c : snd x = c → x = (fst (fst x), snd (fst x), c).
Proof. intros <-. by destruct x as [[? ?] ?]. Qed.
Lemma login_reached : sample_reach [] (fst (fst login_state)) (snd (fst login_state)).
Proof.
  apply (reach_login _ _ _ _ _ _ _ sample_draws (mkStream (wire run_packets) false []) 0 [] run_world); [by vm_compute|by vm_compute|apply sample_catalog|done|].
  unfold login_state. apply triple_eq. by vm_compute.
Qed.
Lemma connected_reached : sample_reach [] (fst (fst connected_state)) (snd (fst connected_state)).
Proof.
  apply (reach_turn _ _ _ _ _ _ _ [] (fst (fst login_state)) (snd (fst login_state)) 10 0 EvPacket); [apply login_reached|done|done|].
  unfold connected_state. apply triple_eq. by vm_compute.
Qed.
Lemma searching_reached : sample_reach [film_query] (fst (fst searching_state)) (snd (fst searching_state)).
Proof.
  apply (reach_turn _ _ _ _ _ _ _ [] (fst (fst connected_state)) (snd (fst connected_state)) 200 0 (EvRequest (Some film_query)) (fst (fst searching_state)) (snd (fst searching_state)));
    [apply connected_reached|by vm_compute|set_solver|].
  unfold searching_state. apply triple_eq. by vm_compute.
Qed.
Lemma server_session_agrees_witness :
  sv_connected (w_state (snd (fst connected_state))) = true ∧ sv_client_id (w_state (snd (fst connected_state))) = Some 0x04030201 ∧
  sv_connected (w_state (snd (fst connected_state))) = ss_login_accepted (bg_session (fst (fst connected_state))).
Proof.
  split; [by vm_compute|]. split; [by vm_compute|].
  exact (proj1 (server_session_agrees (λ _, None) no_zlib sample_md5 (λ _, 0) run_context run_server true (λ _, Forall_nil_2 _) (λ _, eq_refl) [] (fst (fst connected_state)) (snd (fst connected_state)) connected_reached)).
Defined.
Lemma keyword_search_completes_witness : ∃ b1 w1 s2 w2 payload,
  sample_turn 200 0 (EvRequest (Some film_query)) (fst (fst connected_state)) (snd (fst connected_state)) = (b1, w1, Ok true) ∧
  search_request (lit "a film") = Ok payload ∧
  wrote (server_frame OP_EDONKEYPROT OP_SEARCHREQUEST payload) (bg_session (fst (fst connected_state))) (bg_session b1) ∧
  packet_turns (λ _, None) no_zlib sample_md5 (λ _, 0) run_context run_server true [300] b1 w1 = (mkBackground s2 None None, w2, Ok ()) ∧
  w_replies w2 = [(7, RFiles [mkSearchFile OFFER_FILE_SAMPLE_HASH (Some (lit "a film.mkv")) (Some 5000000000) None None])].
Proof.
  assert (Hb : fst (fst connected_state) = mkBackground (bg_session (fst (fst connected_state))) None None) by (by vm_compute).
  destruct (search_request (lit "a film")) as [payload| |] eqn:Eq; [|by vm_compute in Eq..].
  destruct (keyword_search_completes (λ _, None) no_zlib sample_md5 (λ _, 0) run_context run_server true (λ _, eq_refl) (lit "a film") payload
    (server_frame OP_EDONKEYPROT OP_SEARCHREQUEST payload) (server_frame OP_EDONKEYPROT OP_QUERY_MORE_RESULT []) 5000 7 (bg_session (fst (fst connected_state)))
    (snd (fst connected_state)) 200 [(OP_EDONKEYPROT, OP_SEARCHRESULT, page_bytes)] [mkSearchFile OFFER_FILE_SAMPLE_HASH (Some (lit "a film.mkv")) (Some 5000000000) None None] [300])
    as (b1 & w1 & s2 & w2 & H1 & Hw1 & _ & H2 & _ & H3 & _).
  - split; vm_compute; reflexivity.
  - exact Eq.
  - vm_compute in Eq. injection Eq as <-. done.
  - vm_compute in Eq. injection Eq as <-. vm_compute. reflexivity.
  - vm_compute. reflexivity.
  - by vm_compute.
  - eexists page_bytes, _. split; [done|]. split; [by split; [left|vm_compute]|]. split; [by vm_compute|]. split; [vm_compute; reflexivity|]. split; vm_compute; reflexivity.
  - reflexivity.
  - exists b1, w1, s2, w2, payload. rewrite Hb at 1. split; [exact H1|]. split; [reflexivity|]. split; [exact Hw1|]. split; [exact H2|]. rewrite H3. by vm_compute.
Defined.

(** ** What goes wrong *)

(** A timer that fires while the header of the page has been read drops the header, and the rest of
    the page is taken for the next one: the session fails on a server that did nothing wrong. *)
Example dropped_read_desyncs : ∃ b w,
  sample_turn 1300 6 EvKeepalive (fst (fst searching_state)) (snd (fst searching_state)) = (b, w, Ok true) ∧
  snd (sample_turn 1400 0 EvPacket b w) = Err PUnsupported.
Proof. eexists _, _. split; [vm_compute; reflexivity|]. by vm_compute. Qed.
(** A datagram with sources drops a keyword search that is under way, without a reply. *)
Example datagram_drops_search : ∃ b w,
  sample_turn 300 0 (EvDatagram ([OP_EDONKEYPROT; OP_GLOBFOUNDSOURCES] ++ replicate 17 0) (mkSocketAddr (V4 (1, 2, 3, 4)) 4665) true)
    (fst (fst searching_state)) (snd (fst searching_state)) = (b, w, Ok true) ∧
  bg_pending (fst (fst searching_state)) ≠ None ∧ bg_pending b = None ∧ w_replies w = [].
Proof. eexists _, _. split; [vm_compute; reflexivity|]. by vm_compute. Qed.
