(* ===== verification/ServerActive.v ===== *)
(** * One-shot sessions with eD2k servers

    [ed2k_server/active_keyword.rs], [active_source.rs] and [active_callback.rs]: a keyword
    search, a search of sources over TCP and over UDP, and a request for a callback, each on
    connections of its own to the configured servers in turn. What a connection meets is a
    list of events; a list that ends leaves the operation waiting. *)

From S2P Require Import Prelude Utf8 Net Text NodeId KadFirewall SearchExpr Hashset Transfer PeerTransport PeerCodec PeerParts Hello Session ServerTypes ServerQuery ServerCodec ServerLink ServerDriver ServerStep ServerOk.

(** What ends a wait: the job is cancelled, the time is over, or a packet can be read (or
    the stream has ended or failed), at the time given. *)
Inductive act_event : Type := ACancel | ATimeout | APacket (now : Z).
(** What an attempt meets: whether the job is cancelled before it, the answer of the
    resolver, the stream if the connection succeeds, the writes that fail, the random
    choices, and the events. *)
Record attempt : Type := mkAttempt {
  tr_cancelled : bool;
  tr_stream : option stream;
  tr_now : Z;
  tr_broken : list bool;
  tr_draws : handshake_draws;
  tr_events : list act_event
}.

Section active.
Context (zlib_encode : list Z → option (list Z)) (zlib_reads : list Z → list (list Z) * bool) (md5 : list Z → list Z) (fingerprint : list offered → Z).
Context (trim : list Z → list Z) (socket_from_str : list Z → option SocketAddr) (v6_display : Z → list Z)
  (lookup_host : list Z → option (list SocketAddr)).
Context (identity : Ed2kHelloIdentity) (catalog : list Ed2kSharedEntry) (firewall : KadFirewallState).
Local Abbreviation SS := (PM ServerSession server_world).
Local Abbreviation server_send_packet := (server_send_packet zlib_encode).
Local Abbreviation startup := (send_connected_server_startup zlib_encode fingerprint (hi_tcp_port identity)).
Local Abbreviation resolve := (resolve_server_entry lookup_host).

(** The world of a one-shot session: a state of its own and the catalog of the job. *)
Definition active_world : server_world := mkWorld server_state_default catalog firewall [] [] [] [] [].
Definition active_login (server : ResolvedServerEntry) (draws : handshake_draws) (plain : list Z → SS ()) : SS () :=
  payload ← peer (encode_login_request identity);
  login_request ← peer (encode_server_packet zlib_encode OP_LOGINREQUEST payload false);
  (if should_use_server_obfuscation (hi_connect_options identity) server then negotiate_obfuscation_and_send md5 draws login_request
   else plain login_request);;
  update (set_phase AwaitingIdChange).
Definition act_now (now : Z) : SS () := update (set_link (λ l, set_now (Z.max now (lk_now l)) l)).
(** A server that assigns an identity of zero refuses the session. *)
Definition accept_id (payload : list Z) : SS () :=
  id_change ← peer (decode_id_change_payload payload);
  s ← gets id;
  update (set_login (ss_login_accepted s) (ss_assigned_client_id s) (ic_server_flags id_change));;
  if ic_client_id id_change =? 0 then peer (Err PUnsupported)
  else update (set_login (ss_login_accepted s) (Some (ic_client_id id_change)) (ic_server_flags id_change));; startup.

(** ** Keyword searches *)

(** A packet: the results so far, and whether they are complete. *)
Definition keyword_packet (search_payload : list Z) (packet : Ed2kPacket) (results : list Ed2kSearchFile) : SS (list Ed2kSearchFile * bool) :=
  let opcode := pk_opcode packet in
  if opcode =? OP_IDCHANGE then
    accept_id (pk_payload packet);;
    wait_for_offer_files_settle;;
    update (set_phase SearchActive);;
    server_send_packet OP_SEARCHREQUEST search_payload;;
    mret (results, false)
  else if opcode =? OP_SEARCHRESULT then
    page ← peer (decode_search_result_page (pk_payload packet));
    if pg_more_results_available page
    then update (set_phase AwaitingMore);; server_send_packet OP_QUERY_MORE_RESULT [];; mret (results ++ pg_files page, false)
    else update (set_phase Completed);; mret (results ++ pg_files page, true)
  else if opcode =? OP_REJECT then peer (Err PUnsupported)
  else mret (results, false).
Fixpoint keyword_loop (search_payload : list Z) (events : list act_event) (results : list Ed2kSearchFile) : SS (option (list Ed2kSearchFile)) :=
  match events with
  | [] => mret None
  | ACancel :: _ => mret (Some [])
  | ATimeout :: _ => peer (Err PTimeout)
  | APacket now :: events' =>
      act_now now;;
      packet ← server_read_packet zlib_reads;
      match packet with
      | None => mret (Some results)
      | Some packet =>
          '((results, complete) : list Ed2kSearchFile * bool) ← keyword_packet search_payload packet results;
          if complete : bool then mret (Some results) else keyword_loop search_payload events' results
      end
  end.
Definition run_session {A} (server : ResolvedServerEntry) (t : attempt) (m : SS A) : res PeerError A :=
  match tr_stream t with
  | None => Err PIo
  | Some st =>
      let endpoint := transport_endpoint server (should_use_server_obfuscation (hi_connect_options identity) server) in
      snd (m (server_connect endpoint st (tr_now t) (tr_broken t)) active_world)
  end.
Definition search_keyword_on_server (search_payload : list Z) (server : ResolvedServerEntry) (t : attempt) : res PeerError (option (list Ed2kSearchFile)) :=
  run_session server t
    (active_login server (tr_draws t) send_encoded_packet;; keyword_loop search_payload (tr_events t) []).
(** The preferred server goes first. *)
Definition is_endpoint (a : SocketAddr) (e : ConfiguredServerEntry) : bool := bool_decide (ce_host e = ip_text v6_display (sa_ip a)) && (ce_port e =? sa_port a).
Definition prefer (preferred : option SocketAddr) (servers : list ConfiguredServerEntry) : list ConfiguredServerEntry :=
  match preferred with
  | None => servers
  | Some a =>
      match position (is_endpoint a) servers with
      | Some i => match servers !! i with Some e => e :: delete i servers | None => servers end
      | None => servers
      end
  end.
Definition last_result {A} (last_error : option PeerError) (a : A) : res PeerError (option A) :=
  match last_error with Some e => Err e | None => Ok (Some a) end.
(** The attempts, one environment each: the first results that are not empty. *)
Fixpoint keyword_attempts (search_payload : list Z) (servers : list ConfiguredServerEntry) (env : nat → attempt) (i : nat) (last_error : option PeerError)
    : res PeerError (option (list Ed2kSearchFile)) :=
  match servers with
  | [] => last_result last_error []
  | e :: servers' =>
      if tr_cancelled (env i) then Ok (Some [])
      else
        match resolve e with
        | Err er => keyword_attempts search_payload servers' env (S i) (Some er)
        | Panic => Panic
        | Ok server =>
            match search_keyword_on_server search_payload server (env i) with
            | Ok None => Ok None
            | Ok (Some []) => keyword_attempts search_payload servers' env (S i) last_error
            | Ok (Some results) => Ok (Some results)
            | Err er => keyword_attempts search_payload servers' env (S i) (Some er)
            | Panic => Panic
            end
        end
  end.
Definition search_keyword_servers (config : Ed2kConfig) (preferred : option SocketAddr) (max_attempts : nat) (query : list Z) (env : nat → attempt)
    : res PeerError (option (list Ed2kSearchFile)) :=
  servers ← configured_server_entries trim socket_from_str v6_display config;
  if bool_decide (servers = []) then Err PUnsupported
  else
    search_payload ← search_request query;
    if bool_decide (search_payload = []) then Ok (Some [])
    else keyword_attempts search_payload (take (max_attempts `max` 1) (prefer preferred servers)) env 0 None.

(** ** Searches of sources *)

Definition source_packet (server : ResolvedServerEntry) (file_hash : Ed2kHash) (file_size : Z) (packet : Ed2kPacket) : SS (option (list Ed2kFoundSource)) :=
  let opcode := pk_opcode packet in
  if opcode =? OP_IDCHANGE then
    accept_id (pk_payload packet);;
    update (set_phase SearchActive);;
    s ← gets id;
    server_send_packet (source_request_opcode (hi_connect_options identity) (ss_server_flags s)) (encode_source_request file_hash file_size);;
    mret None
  else if (opcode =? OP_FOUNDSOURCES) || (opcode =? OP_FOUNDSOURCES_OBFU) then
    found ← peer (decode_found_sources (pk_payload packet) (opcode =? OP_FOUNDSOURCES_OBFU));
    let results := annotate_found_sources_server found (base_endpoint server) in
    peer (validate_found_sources results file_hash);;
    update (set_phase Completed);;
    mret (Some results)
  else if opcode =? OP_REJECT then peer (Err PUnsupported)
  else mret None.
Fixpoint source_loop (server : ResolvedServerEntry) (file_hash : Ed2kHash) (file_size : Z) (events : list act_event) : SS (option (list Ed2kFoundSource)) :=
  match events with
  | [] => mret None
  | ACancel :: _ => mret (Some [])
  | ATimeout :: _ => peer (Err PTimeout)
  | APacket now :: events' =>
      act_now now;;
      packet ← server_read_packet zlib_reads;
      match packet with
      | None => mret (Some [])
      | Some packet =>
          found ← source_packet server file_hash file_size packet;
          match found with Some results => mret (Some results) | None => source_loop server file_hash file_size events' end
      end
  end.
Definition search_sources_on_server (file_hash : Ed2kHash) (file_size : Z) (server : ResolvedServerEntry) (t : attempt) : res PeerError (option (list Ed2kFoundSource)) :=
  run_session server t
    (active_login server (tr_draws t) (λ _, payload ← peer (encode_login_request identity); server_send_packet OP_LOGINREQUEST payload);;
     source_loop server file_hash file_size (tr_events t)).
Definition exclude (excluded : option SocketAddr) (servers : list ConfiguredServerEntry) : list ConfiguredServerEntry :=
  match excluded with Some a => List.filter (λ e, negb (is_endpoint a e)) servers | None => servers end.
Fixpoint source_attempts (file_hash : Ed2kHash) (file_size : Z) (servers : list ConfiguredServerEntry) (env : nat → attempt) (i : nat)
    (aggregated : list Ed2kFoundSource) (last_error : option PeerError) : res PeerError (option (list Ed2kFoundSource)) :=
  match servers with
  | [] => match aggregated with [] => last_result last_error [] | _ => Ok (Some aggregated) end
  | e :: servers' =>
      if tr_cancelled (env i) then Ok (Some [])
      else
        match resolve e with
        | Err er => source_attempts file_hash file_size servers' env (S i) aggregated (Some er)
        | Panic => Panic
        | Ok server =>
            match search_sources_on_server file_hash file_size server (env i) with
            | Ok None => Ok None
            | Ok (Some results) => source_attempts file_hash file_size servers' env (S i) (merge_found_sources aggregated results) last_error
            | Err er => source_attempts file_hash file_size servers' env (S i) aggregated (Some er)
            | Panic => Panic
            end
        end
  end.
Definition search_source_servers (config : Ed2kConfig) (preferred excluded : option SocketAddr) (max_attempts : nat) (file_hash : Ed2kHash) (file_size : Z)
    (env : nat → attempt) : res PeerError (option (list Ed2kFoundSource)) :=
  servers ← configured_server_entries trim socket_from_str v6_display config;
  if bool_decide (servers = []) then Err PUnsupported
  else
    let servers := exclude excluded (prefer preferred servers) in
    if bool_decide (servers = []) then Ok (Some [])
    else source_attempts file_hash file_size (take (max_attempts `max` 1) servers) env 0 [] None.

(** ** Searches of sources by datagrams *)

Inductive udp_event : Type := UCancel | UExpired | UFailed | UDatagram (datagram : list Z) (from : SocketAddr).
Record udp_attempt : Type := mkUdpAttempt { ua_cancelled : bool; ua_draw : Z * Z; ua_send_fails : bool; ua_events : list udp_event }.
(** How the wait for one server ends: it goes on with what was found, the socket failed, the
    job was cancelled, or it is still waiting. *)
Inductive udp_wait : Type := WGoOn (found : list Ed2kFoundSource) | WFailed | WCancelled | WWaiting.
Fixpoint udp_source_loop (server : ResolvedServerEntry) (file_hash : Ed2kHash) (events : list udp_event) (aggregated : list Ed2kFoundSource) : res PeerError udp_wait :=
  match events with
  | [] => Ok WWaiting
  | UCancel :: _ => Ok WCancelled
  | UExpired :: _ => Ok (WGoOn aggregated)
  | UFailed :: _ => Ok WFailed
  | UDatagram datagram from :: events' =>
      packet ← read_server_udp_packet md5 server datagram from;
      match packet with
      | Some packet =>
          if bool_decide (sa_ip (up_from packet) = V4 (rv_ip server)) && (up_opcode packet =? OP_GLOBFOUNDSOURCES) then
            sets ← decode_udp_found_source_sets (up_payload packet);
            aggregated ← merge_source_sets server file_hash sets aggregated;
            Ok (WGoOn aggregated)
          else udp_source_loop server file_hash events' aggregated
      | None => udp_source_loop server file_hash events' aggregated
      end
  end.
Definition udp_source_datagram (server : ResolvedServerEntry) (file_hash : Ed2kHash) (file_size : Z) (draw : Z * Z) : res PeerError (SocketAddr * list Z) :=
  let '(opcode, payload) := encode_udp_source_request (ce_udp_flags (rv_entry server)) file_hash file_size in
  encode_server_udp_datagram md5 server opcode payload draw.1 draw.2.
Fixpoint udp_source_attempts (file_hash : Ed2kHash) (file_size : Z) (servers : list ConfiguredServerEntry) (env : nat → udp_attempt) (i : nat)
    (last_error : option PeerError) : res PeerError (option (list Ed2kFoundSource)) :=
  match servers with
  | [] => last_result last_error []
  | e :: servers' =>
      let next last_error := udp_source_attempts file_hash file_size servers' env (S i) last_error in
      if ua_cancelled (env i) then Ok (Some [])
      else
        match resolve e with
        | Err er => next (Some er)
        | Panic => Panic
        | Ok server =>
            udp_source_datagram server file_hash file_size (ua_draw (env i));;
            if ua_send_fails (env i) then next (Some PIo)
            else
              wait ← udp_source_loop server file_hash (ua_events (env i)) [];
              match wait with
              | WWaiting => Ok None
              | WCancelled => Ok (Some [])
              | WFailed => next (Some PIo)
              | WGoOn [] => next last_error
              | WGoOn aggregated => Ok (Some aggregated)
              end
        end
  end.
(** Aggregated sources end the search, so that each server starts from none. *)
Definition search_source_udp_servers (config : Ed2kConfig) (preferred excluded : option SocketAddr) (max_attempts : nat) (file_hash : Ed2kHash) (file_size : Z)
    (bound : bool) (env : nat → udp_attempt) : res PeerError (option (list Ed2kFoundSource)) :=
  servers ← configured_server_entries trim socket_from_str v6_display config;
  if bool_decide (servers = []) then Err PUnsupported
  else
    let servers := exclude excluded (prefer preferred servers) in
    if bool_decide (servers = []) then Ok (Some [])
    else if bound then udp_source_attempts file_hash file_size (take (max_attempts `max` 1) servers) env 0 None
    else Err PIo.

(** ** Callbacks *)

(** The wait for a refusal after the request was sent: the job is done when the deadline is
    found to have passed. *)
Fixpoint callback_wait (deadline : Z) (events : list act_event) : SS (option ()) :=
  match events with
  | ACancel :: _ => mret (Some ())
  | _ =>
      s ← gets id;
      if deadline <=? lk_now (ss_link s) then update (set_phase Completed);; mret (Some ())
      else
        match events with
        | [] | ACancel :: _ => mret None
        | ATimeout :: _ => peer (Err PTimeout)
        | APacket now :: events' =>
            act_now now;;
            packet ← server_read_packet zlib_reads;
            match packet with
            | None => peer (Err PClosed)
            | Some packet =>
                if (pk_opcode packet =? OP_CALLBACK_FAIL) || (pk_opcode packet =? OP_REJECT) then peer (Err PUnsupported)
                else callback_wait deadline events'
            end
        end
  end.
Definition send_callback_request (client_id : Z) (payload : list Z) : SS () :=
  accept_id payload;;
  wait_for_offer_files_settle;;
  update (set_phase SearchActive);;
  server_send_packet OP_CALLBACKREQUEST (to_le_bytes 4 client_id).
Fixpoint callback_loop (client_id timeout : Z) (events : list act_event) : SS (option ()) :=
  match events with
  | [] => mret None
  | ACancel :: _ => mret (Some ())
  | ATimeout :: _ => peer (Err PTimeout)
  | APacket now :: events' =>
      act_now now;;
      packet ← server_read_packet zlib_reads;
      match packet with
      | None => peer (Err PClosed)
      | Some packet =>
          if pk_opcode packet =? OP_IDCHANGE then
            send_callback_request client_id (pk_payload packet);;
            s ← gets id;
            callback_wait (lk_now (ss_link s) + Z.min timeout 5000) events'
          else if pk_opcode packet =? OP_REJECT then peer (Err PUnsupported)
          else callback_loop client_id timeout events'
      end
  end.
Definition request_callback_on_server (config : Ed2kConfig) (server_endpoint : SocketAddr) (client_id timeout : Z) (t : attempt) : res PeerError (option ()) :=
  server ← resolve_callback_server_entry trim socket_from_str v6_display lookup_host config server_endpoint;
  run_session server t
    (active_login server (tr_draws t) (λ _, payload ← peer (encode_login_request identity); server_send_packet OP_LOGINREQUEST payload);;
     callback_loop client_id timeout (tr_events t)).
End active.

(** ** One-shot sessions are sound *)

(** The types of a session, which its steps keep. *)
Definition typed_session (s : ServerSession) (w : server_world) : Prop := link_ok (ss_link s) ∧ Forall sharable (w_catalog w).
#[export] Instance typed_stable : Stable typed_session.
Proof. split; try done; [by intros s w []|by intros s w []|]. intros f s w [_ Hc] Hf. by split. Qed.
(** What identifies a source when results are merged. *)
Definition source_key (s : Ed2kFoundSource) : Ipv4Addr * Z * option Z * option (list Z) := (fs_ip s, fs_tcp_port s, fs_obfuscation_options s, fs_user_hash s).
Lemma same_source_key a b : same_source a b = true ↔ source_key a = source_key b.
Proof. unfold same_source, source_key. rewrite !andb_true_iff, !bool_decide_eq_true, Z.eqb_eq. split; [by intros (((-> & ->) & ->) & ->)|by intros [= -> -> -> ->]]. Qed.
Lemma merge_one_Forall (P : Ed2kFoundSource → Prop) agg s : (∀ x, P x → is_Some (fs_source_server x)) → Forall P agg → P s → Forall P (merge_found_source agg s).
Proof.
  intros HP Ha Hs. unfold merge_found_source. case_match; [|by apply Forall_app_2; [|constructor]]. apply Forall_alter; [done|]. intros x _ Hx.
  destruct (HP x Hx) as [a Ex]. rewrite Ex. by rewrite bool_decide_false.
Qed.
Lemma merge_Forall (P : Ed2kFoundSource → Prop) agg l : (∀ x, P x → is_Some (fs_source_server x)) → Forall P agg → Forall P l → Forall P (merge_found_sources agg l).
Proof.
  intros HP Ha Hl. unfold merge_found_sources. revert agg Ha. induction Hl as [|s l Hs _ IH]; intros agg Ha; cbn [foldl]; [done|]. apply IH. by apply merge_one_Forall.
Qed.
Lemma merge_one_distinct agg s : NoDup (source_key <$> agg) → NoDup (source_key <$> merge_found_source agg s).
Proof.
  intros Ha. unfold merge_found_source. destruct (position (λ x, same_source x s) agg) as [i|] eqn:Ep.
  - replace (source_key <$> alter _ i agg) with (source_key <$> agg); [done|]. rewrite (list_fmap_alter source_key _ id); [by rewrite list_alter_id|].
    apply Forall_forall. intros x _. by case_match.
  - apply position_None in Ep. rewrite fmap_app. apply NoDup_app. split; [done|]. split; [|apply NoDup_singleton]. intros k Hk Hk'%list_elem_of_singleton. subst k.
    apply list_elem_of_fmap in Hk as (x & Hx & Hin). pose proof (proj1 (Forall_forall _ _) Ep x Hin) as Hf. cbv beta in Hf. symmetry in Hx. apply same_source_key in Hx. congruence.
Qed.
Lemma merge_distinct agg l : NoDup (source_key <$> agg) → NoDup (source_key <$> merge_found_sources agg l).
Proof. unfold merge_found_sources. revert agg. induction l as [|s l IH]; intros agg Ha; cbn [foldl]; [done|]. by apply IH, merge_one_distinct. Qed.

Section sound.
Context (zlib_encode : list Z → option (list Z)) (zlib_reads : list Z → list (list Z) * bool) (md5 : list Z → list Z) (fingerprint : list offered → Z).
Context (trim : list Z → list Z) (socket_from_str : list Z → option SocketAddr) (v6_display : Z → list Z)
  (lookup_host : list Z → option (list SocketAddr)).
Context (identity : Ed2kHelloIdentity) (catalog : list Ed2kSharedEntry) (firewall : KadFirewallState).
Hypothesis reads_bytes : ∀ l, Forall (λ c, is_bytes c = true) (fst (zlib_reads l)).
Hypothesis md5_length : ∀ l, zlen (md5 l) = 16.
Hypothesis catalog_ok : Forall sharable catalog.
Local Abbreviation T := typed_session.
(** An attempt gets bytes, and draws paddings of allowed lengths. *)
Definition attempt_ok (t : attempt) : Prop := draws_ok (tr_draws t) ∧ ∀ st, tr_stream t = Some st → is_bytes (st_incoming st) = true.
Lemma login_packet_safe : safe (λ _, True) (encode_login_request identity).
Proof. unfold encode_login_request. destruct login_tag_ok as [b ->]. done. Qed.
Lemma keeps_active_login server draws plain : draws_ok draws → (∀ b, keeps T (λ _, True) (plain b)) →
  keeps T (λ _, True) (active_login zlib_encode md5 identity server draws plain).
Proof.
  intros Hd Hp. eapply keep_bind; [apply keeps_peer, login_packet_safe|]. intros payload _. eapply keep_bind with (λ _, True).
  { apply keeps_peer. unfold encode_server_packet. cbn [mbind res_bind]. by case_match. }
  intros request _. eapply keep_bind; [|intros _ _; apply keeps_set_phase, _]. case_match; [|apply Hp]. apply keeps_negotiate; [exact md5_length|apply _|done].
Qed.
Lemma keeps_act_now now : keeps T (λ _, True) (act_now now).
Proof. apply keeps_update. intros s w H. by apply (step_link T). Qed.
Lemma keeps_accept_id payload : is_bytes payload = true → keeps T (λ _, True) (accept_id zlib_encode fingerprint identity payload).
Proof.
  intros Hp. eapply keep_bind; [by apply keeps_peer, safe_id_change|]. intros c _. eapply keep_bind; [apply keeps_gets|]. intros s _.
  eapply keep_bind; [by apply keeps_update|]. intros _ _. case_match; [by apply keeps_peer|]. eapply keep_bind; [by apply keeps_update|]. intros _ _. apply keeps_startup, _.
Qed.
Lemma keeps_keyword_packet sp packet results : is_bytes (pk_payload packet) = true → Forall file_ok results →
  keeps T (λ '(l, _), Forall file_ok l) (keyword_packet zlib_encode fingerprint identity sp packet results).
Proof.
  intros Hp Hr. unfold keyword_packet. case_match.
  { eapply keep_bind; [by apply keeps_accept_id|]. intros _ _. eapply keep_bind; [apply keep_settle, _|]. intros _ _. eapply keep_bind; [apply keeps_set_phase, _|]. intros _ _.
    eapply keep_bind; [apply keeps_send, _|]. intros _ _. by apply keep_ret. }
  case_match.
  { eapply keep_bind; [by apply keeps_peer, safe_page|]. intros page Hpage. case_match.
    - eapply keep_bind; [apply keeps_set_phase, _|]. intros _ _. eapply keep_bind; [apply keeps_send, _|]. intros _ _. apply keep_ret. by apply Forall_app_2.
    - eapply keep_bind; [apply keeps_set_phase, _|]. intros _ _. apply keep_ret. by apply Forall_app_2. }
  case_match; [by apply keeps_peer|by apply keep_ret].
Qed.
Lemma keeps_keyword_loop sp events results : Forall file_ok results →
  keeps T (λ o, some_of (Forall file_ok) o) (keyword_loop zlib_encode zlib_reads fingerprint identity sp events results).
Proof.
  revert results. induction events as [|[| |now] events IH]; intros results Hr; cbn [keyword_loop]; [by apply keep_ret|apply keep_ret; by intros x [= <-]|by apply keeps_peer|].
  eapply keep_bind; [apply keeps_act_now|]. intros _ _. eapply keep_bind; [apply keeps_read_packet; [exact reads_bytes|apply _]|]. intros [packet|] Hp; [|apply keep_ret; by intros x [= <-]].
  eapply keep_bind; [apply keeps_keyword_packet; [by apply Hp|done]|]. intros [l [|]] Hl; [apply keep_ret; by intros x [= <-]|by apply IH].
Qed.
Lemma run_session_safe {A} (Q : A → Prop) server t (m : PM ServerSession server_world A) : attempt_ok t → keeps T Q m →
  safe Q (run_session identity catalog firewall server t m).
Proof.
  intros [_ Hs] Hm. unfold run_session. destruct (tr_stream t) as [st|]; [|done].
  set (s0 := server_connect _ _ _ _). assert (H0 : T s0 (active_world catalog firewall)) by (split; [split; [by apply Hs|done]|done]).
  specialize (Hm _ _ H0). by destruct (m s0 _) as [[s' w'] [a|e|]]; [destruct Hm|..].
Qed.
Lemma search_keyword_safe sp server t : attempt_ok t → safe (some_of (Forall file_ok)) (search_keyword_on_server zlib_encode zlib_reads md5 fingerprint identity catalog firewall sp server t).
Proof.
  intros Ht. apply run_session_safe; [done|]. eapply keep_bind; [apply keeps_active_login; [apply Ht|]|intros _ _; by apply keeps_keyword_loop].
  intros b. eapply keep_bind; [apply keeps_link_write, _|]. intros _ _. apply keeps_update. intros s w H. by apply (step_link T).
Qed.

(** A source for a file that a server named. *)
Definition source_from (h : Ed2kHash) (endpoint : SocketAddr) (s : Ed2kFoundSource) : Prop := found_ok s ∧ fs_file_hash s = h ∧ fs_source_server s = Some endpoint.
Lemma annotated_from l h a u : Forall found_ok l → validate_found_sources (annotate_found_sources_server l a) h = Ok u →
  Forall (source_from h a) (annotate_found_sources_server l a).
Proof.
  intros Hl Hv. pose proof (annotated_ok l h a u Hl Hv) as Ha. apply Forall_forall. intros s Hs. destruct (proj1 (Forall_forall _ _) Ha s Hs) as (H1 & H2 & _).
  unfold annotate_found_sources_server in Hs. apply list_elem_of_fmap in Hs as (s0 & -> & _). split; [done|by split].
Qed.
Lemma validate_safe l h : safe (λ _, True) (validate_found_sources l h).
Proof. unfold validate_found_sources. by case_match. Qed.
Lemma keeps_source_packet server h size packet : is_bytes (pk_payload packet) = true →
  keeps T (some_of (Forall (source_from h (base_endpoint server)))) (source_packet zlib_encode fingerprint identity server h size packet).
Proof.
  intros Hp. unfold source_packet. case_match.
  { eapply keep_bind; [by apply keeps_accept_id|]. intros _ _. eapply keep_bind; [apply keeps_set_phase, _|]. intros _ _. eapply keep_bind; [apply keeps_gets|]. intros s _.
    eapply keep_bind; [apply keeps_send, _|]. intros _ _. by apply keep_ret. }
  case_match; [|case_match; [by apply keeps_peer|by apply keep_ret]].
  eapply keep_bind; [by apply keeps_peer, safe_found_sources|]. intros found Hf. cbv zeta. pose proof (validate_safe (annotate_found_sources_server found (base_endpoint server)) h) as Hv.
  destruct (validate_found_sources _ h) as [u|e|] eqn:Ev; [|by apply keeps_peer|done]. eapply keep_bind with (λ _, True); [by apply keeps_peer|]. intros _ _.
  eapply keep_bind; [apply keeps_set_phase, _|]. intros _ _. apply keep_ret. intros x [= <-]. by eapply annotated_from.
Qed.
Lemma keeps_source_loop server h size events :
  keeps T (some_of (Forall (source_from h (base_endpoint server)))) (source_loop zlib_encode zlib_reads fingerprint identity server h size events).
Proof.
  induction events as [|[| |now] events IH]; cbn [source_loop]; [by apply keep_ret|apply keep_ret; by intros x [= <-]|by apply keeps_peer|].
  eapply keep_bind; [apply keeps_act_now|]. intros _ _. eapply keep_bind; [apply keeps_read_packet; [exact reads_bytes|apply _]|]. intros [packet|] Hp; [|apply keep_ret; by intros x [= <-]].
  eapply keep_bind; [apply keeps_source_packet; by apply Hp|]. intros [l|] Hl; [by apply keep_ret|exact IH].
Qed.
Lemma search_sources_safe h size server t : attempt_ok t →
  safe (some_of (Forall (source_from h (base_endpoint server)))) (search_sources_on_server zlib_encode zlib_reads md5 fingerprint identity catalog firewall h size server t).
Proof.
  intros Ht. apply run_session_safe; [done|]. eapply keep_bind; [apply keeps_active_login; [apply Ht|]|intros _ _; apply keeps_source_loop].
  intros b. eapply keep_bind; [apply keeps_peer, login_packet_safe|]. intros payload _. apply keeps_send, _.
Qed.

(** ** The attempts *)

(** The sources of a reply: each of the requested file and named by one of the servers, and no two alike. *)
Definition named (servers : list ConfiguredServerEntry) (h : Ed2kHash) (s : Ed2kFoundSource) : Prop :=
  ∃ e server, e ∈ servers ∧ resolve_server_entry lookup_host e = Ok server ∧ source_from h (base_endpoint server) s.
Definition sound_sources (servers : list ConfiguredServerEntry) (h : Ed2kHash) (l : list Ed2kFoundSource) : Prop :=
  Forall (named servers h) l ∧ NoDup (source_key <$> l).
Lemma named_marked servers h s : named servers h s → is_Some (fs_source_server s).
Proof. intros (e & server & _ & _ & _ & _ & ->). by eexists. Qed.
Lemma from_named servers h e server l : e ∈ servers → resolve_server_entry lookup_host e = Ok server → Forall (source_from h (base_endpoint server)) l → Forall (named servers h) l.
Proof. intros He Hs Hl. eapply Forall_impl; [exact Hl|]. intros s Hf. by exists e, server. Qed.
Lemma sound_nil servers h : sound_sources servers h [].
Proof. split; constructor. Qed.
Lemma sound_merge servers h agg l : sound_sources servers h agg → Forall (named servers h) l → sound_sources servers h (merge_found_sources agg l).
Proof. intros [H1 H2] Hl. split; [apply merge_Forall; [apply named_marked|done..]|by apply merge_distinct]. Qed.
Lemma resolve_safe e : safe (λ _, True) (resolve_server_entry lookup_host e).
Proof. unfold resolve_server_entry. repeat case_match; try done. Qed.
Lemma entries_safe config : safe (λ _, True) (configured_server_entries trim socket_from_str v6_display config).
Proof.
  assert (Hc : ∀ {A B} (f : A → res PeerError B) l, (∀ a, safe (λ _, True) (f a)) → safe (λ _, True) (collect f l)).
  { intros A B f l Hf. induction l as [|a l IH]; cbn [collect]; [done|]. eapply safe_bind; [apply Hf|]. intros b _. eapply safe_bind; [exact IH|]. done. }
  unfold configured_server_entries. case_match; apply Hc; intros a; [unfold from_endpoint_text|unfold from_metadata]; by case_match.
Qed.
Lemma source_attempts_safe all h size servers env i agg last : (∀ i, attempt_ok (env i)) → servers ⊆ all → sound_sources all h agg →
  safe (some_of (sound_sources all h)) (source_attempts zlib_encode zlib_reads md5 fingerprint lookup_host identity catalog firewall h size servers env i agg last).
Proof.
  intros Henv. revert i agg last. induction servers as [|e servers IH]; intros i agg last Hsub Hagg; cbn [source_attempts].
  - destruct agg; [|by cbn; intros x [= <-]]. unfold last_result. destruct last; [done|]. cbn. intros x [= <-]. apply sound_nil.
  - assert (Hsub' : servers ⊆ all) by (intros x Hx; apply Hsub; by right). assert (He : e ∈ all) by (apply Hsub; by left).
    case_match; [cbn; intros x [= <-]; apply sound_nil|]. pose proof (resolve_safe e) as Hres. destruct (resolve_server_entry lookup_host e) as [server|er|] eqn:Er; [|by apply IH|done].
    pose proof (search_sources_safe h size server (env i) (Henv i)) as Hs. destruct (search_sources_on_server _ _ _ _ _ _ _ _ _ _ _) as [[l|]|er|]; [|done|by apply IH|done].
    apply IH; [done|]. apply sound_merge; [done|]. eapply from_named; [done|done|]. by apply Hs.
Qed.
(** Datagrams are bytes. *)
Definition udp_attempt_ok (t : udp_attempt) : Prop := Forall (λ e, match e with UDatagram d _ => is_bytes d = true | _ => True end) (ua_events t).
Lemma merge_sets_sound all h e server sets agg : e ∈ all → resolve_server_entry lookup_host e = Ok server → Forall (Forall found_ok) sets → sound_sources all h agg →
  safe (sound_sources all h) (merge_source_sets server h sets agg).
Proof.
  intros He Hs Hsets. revert agg. induction Hsets as [|l sets Hl _ IH]; intros agg Ha; cbn [merge_source_sets]; [done|].
  pose proof (validate_safe (annotate_found_sources_server l (base_endpoint server)) h) as Hv. destruct (validate_found_sources _ h) as [u|er|] eqn:Ev; cbn [mbind res_bind]; [|done|done].
  apply IH, sound_merge; [done|]. eapply from_named; [done|done|]. by eapply annotated_from.
Qed.
Lemma udp_loop_safe all h e server events : e ∈ all → resolve_server_entry lookup_host e = Ok server →
  Forall (λ e, match e with UDatagram d _ => is_bytes d = true | _ => True end) events →
  safe (λ r, ∀ l, r = WGoOn l → sound_sources all h l) (udp_source_loop md5 server h events []).
Proof.
  intros He Hs. induction 1 as [|ev events Hev Hevs IH]; cbn [udp_source_loop]; [done|]. destruct ev as [| | |d from]; [done|cbn; intros l [= <-]; apply sound_nil|done|].
  eapply safe_bind; [by apply (udp_read_safe md5 server md5_length)|]. intros [packet|] Hp; [|exact IH]. case_match; [|exact IH].
  eapply safe_bind; [apply safe_udp_sources; [by apply Hp|done]|]. intros sets Hsets. eapply safe_bind; [by eapply merge_sets_sound, sound_nil|]. intros agg Hagg. cbn. by intros l [= <-].
Qed.
Lemma udp_datagram_safe server h size draw : safe (λ _, True) (udp_source_datagram md5 server h size draw).
Proof.
  unfold udp_source_datagram. destruct (encode_udp_source_request _ _ _). unfold encode_server_udp_datagram. case_match; [done|].
  unfold derive_server_udp_cipher, rc4_new_with_discard. by rewrite md5_length.
Qed.
Lemma udp_attempts_safe all h size servers env i last : (∀ i, udp_attempt_ok (env i)) → servers ⊆ all →
  safe (some_of (sound_sources all h)) (udp_source_attempts md5 lookup_host h size servers env i last).
Proof.
  intros Henv. revert i last. induction servers as [|e servers IH]; intros i last Hsub; cbn [udp_source_attempts].
  - unfold last_result. destruct last; [done|]. cbn. intros x [= <-]. apply sound_nil.
  - assert (Hsub' : servers ⊆ all) by (intros x Hx; apply Hsub; by right). assert (He : e ∈ all) by (apply Hsub; by left).
    case_match; [cbn; intros x [= <-]; apply sound_nil|]. pose proof (resolve_safe e) as Hres. destruct (resolve_server_entry lookup_host e) as [server|er|] eqn:Er; [|by apply IH|done].
    eapply safe_bind; [apply udp_datagram_safe|]. intros _ _. case_match; [by apply IH|]. eapply safe_bind; [by eapply (udp_loop_safe all h e server), Henv|].
    intros [l| | |] Hl; [|by apply IH|cbn; intros x [= <-]; apply sound_nil|done]. specialize (Hl l eq_refl). destruct l; [by apply IH|]. cbn. by intros x [= <-].
Qed.
Lemma keyword_attempts_safe sp servers env i last : (∀ i, attempt_ok (env i)) →
  safe (some_of (Forall file_ok)) (keyword_attempts zlib_encode zlib_reads md5 fingerprint lookup_host identity catalog firewall sp servers env i last).
Proof.
  intros Henv. revert i last. induction servers as [|e servers IH]; intros i last; cbn [keyword_attempts].
  - unfold last_result. destruct last; [done|]. cbn. by intros x [= <-].
  - case_match; [cbn; by intros x [= <-]|]. pose proof (resolve_safe e) as Hres. destruct (resolve_server_entry lookup_host e) as [server|er|]; [|apply IH|done].
    pose proof (search_keyword_safe sp server (env i) (Henv i)) as Hs. destruct (search_keyword_on_server _ _ _ _ _ _ _ _ _ _) as [[l|]|er|]; [|done|apply IH|done].
    destruct l; [apply IH|exact Hs].
Qed.
Lemma prefer_sub preferred servers : prefer v6_display preferred servers ⊆ servers.
Proof.
  unfold prefer. destruct preferred as [a|]; [|done]. destruct (position _ _) as [i|]; [|done]. destruct (servers !! i) as [e|] eqn:E; [|done].
  intros x [->|Hx]%elem_of_cons; [by eapply list_elem_of_lookup_2|]. by eapply list_subseteq_delete.
Qed.
Lemma tried_sub preferred excluded servers n : take n (exclude v6_display excluded (prefer v6_display preferred servers)) ⊆ servers.
Proof.
  intros x Hx. apply (prefer_sub preferred servers). apply elem_of_take in Hx as (i & Hi & _). apply list_elem_of_lookup_2 in Hi. unfold exclude in Hi.
  destruct excluded; [|done]. apply list_elem_of_In, filter_In in Hi as [Hi _]. by apply list_elem_of_In.
Qed.
Lemma keeps_callback_wait deadline events : keeps T (λ _, True) (callback_wait zlib_reads deadline events).
Proof.
  assert (Hend : keeps T (λ _ : option (), True) (update (set_phase Completed);; mret (Some ()))).
  { eapply keep_bind; [apply keeps_set_phase, _|]. intros _ _. by apply keep_ret. }
  induction events as [|[| |now] events IH]; cbn [callback_wait]; [|by apply keep_ret|..].
  - eapply keep_bind; [apply keeps_gets|]. intros s _. case_match; [exact Hend|by apply keep_ret].
  - eapply keep_bind; [apply keeps_gets|]. intros s _. case_match; [exact Hend|by apply keeps_peer].
  - eapply keep_bind; [apply keeps_gets|]. intros s _. case_match; [exact Hend|]. eapply keep_bind; [apply keeps_act_now|]. intros _ _.
    eapply keep_bind; [apply keeps_read_packet; [exact reads_bytes|apply _]|]. intros [packet|] _; [|by apply keeps_peer]. case_match; [by apply keeps_peer|exact IH].
Qed.
Lemma keeps_callback_loop id timeout events : keeps T (λ _, True) (callback_loop zlib_encode zlib_reads fingerprint identity id timeout events).
Proof.
  induction events as [|[| |now] events IH]; cbn [callback_loop]; [by apply keep_ret|by apply keep_ret|by apply keeps_peer|].
  eapply keep_bind; [apply keeps_act_now|]. intros _ _. eapply keep_bind; [apply keeps_read_packet; [exact reads_bytes|apply _]|]. intros [packet|] Hp; [|by apply keeps_peer].
  case_match; [|case_match; [by apply keeps_peer|exact IH]]. eapply keep_bind.
  - eapply keep_bind; [apply keeps_accept_id; by apply Hp|]. intros _ _. eapply keep_bind; [apply keep_settle, _|]. intros _ _. eapply keep_bind; [apply keeps_set_phase, _|]. intros _ _. apply keeps_send, _.
  - intros _ _. eapply keep_bind; [apply keeps_gets|]. intros s _. apply keeps_callback_wait.
Qed.
(** C31. One-shot searches are sound. Whatever servers send, in whatever order packets, cancellations and timeouts come, with connections,
    writes and resolutions failing at any point, no search or callback panics as long as the entries of the catalog are [sharable], with names
    shorter than 64 KiB (a longer one makes the advertisement after the login panic, [ServerCodec.long_name_panics]); a search of sources, over
    TCP through every server that is tried or over UDP, returns only well-typed sources of the requested file, each marked with the endpoint of
    a configured server, no two of them alike; a keyword search returns only well-typed files. *)
Theorem one_shot_searches_sound config preferred excluded max_attempts h size query bound env udp_env servers callback_server client_id timeout t :
  configured_server_entries trim socket_from_str v6_display config = Ok servers →
  (∀ i, attempt_ok (env i)) → (∀ i, udp_attempt_ok (udp_env i)) → attempt_ok t →
  safe (some_of (sound_sources servers h))
    (search_source_servers zlib_encode zlib_reads md5 fingerprint trim socket_from_str v6_display lookup_host identity catalog firewall config preferred excluded max_attempts h size env) ∧
  safe (some_of (sound_sources servers h))
    (search_source_udp_servers md5 trim socket_from_str v6_display lookup_host config preferred excluded max_attempts h size bound udp_env) ∧
  safe (some_of (Forall file_ok))
    (search_keyword_servers zlib_encode zlib_reads md5 fingerprint trim socket_from_str v6_display lookup_host identity catalog firewall config preferred max_attempts query env) ∧
  safe (λ _, True) (request_callback_on_server zlib_encode zlib_reads md5 fingerprint trim socket_from_str v6_display lookup_host identity catalog firewall config callback_server client_id timeout t).
Proof.
  intros Hs Henv Hudp Ht. split_and!.
  - unfold search_source_servers. rewrite Hs. cbn [mbind res_bind]. case_match; [done|]. case_match; [cbn; intros x [= <-]; apply sound_nil|].
    apply source_attempts_safe; [done|apply tried_sub|apply sound_nil].
  - unfold search_source_udp_servers. rewrite Hs. cbn [mbind res_bind]. case_match; [done|]. case_match; [cbn; intros x [= <-]; apply sound_nil|].
    destruct bound; [|done]. apply udp_attempts_safe; [done|apply tried_sub].
  - unfold search_keyword_servers. rewrite Hs. cbn [mbind res_bind]. case_match; [done|]. eapply safe_bind; [apply search_request_safe|]. intros sp _.
    case_match; [cbn; by intros x [= <-]|]. by apply keyword_attempts_safe.
  - unfold request_callback_on_server. eapply safe_bind with (λ _, True).
    { unfold resolve_callback_server_entry. destruct (sa_ip callback_server); [|done]. rewrite Hs. cbn [mbind res_bind]. eapply safe_bind with (λ _, True).
      - clear -servers. induction servers as [|e l IH]; cbn [resolve_matching]; [done|]. eapply safe_bind; [apply resolve_safe|]. intros s _. case_match; [done|exact IH].
      - intros [s|] _; [done|]. unfold from_endpoint_text. case_match; done. }
    intros server _. apply run_session_safe; [done|]. eapply keep_bind; [apply keeps_active_login; [apply Ht|]|intros _ _; apply keeps_callback_loop].
    intros b. eapply keep_bind; [apply keeps_peer, login_packet_safe|]. intros payload _. apply keeps_send, _.
Qed.
End sound.

(** ** Searches *)

Definition act_identity : Ed2kHelloIdentity := mkHelloIdentity (replicate 16 1) 0 4662 4672 0 0 1 false.
Definition plain_entry : Ed2kServerEntry := mkServerEntry (lit "1.2.3.4") 4661 None None 0 0 0 0 0.
Definition act_config : Ed2kConfig := mkConfig [plain_entry] [] None 10 60 0.
(** The server accepts the login and names a source. *)
Definition act_wire : list Z :=
  wire [(OP_EDONKEYPROT, OP_IDCHANGE, to_le_bytes 4 0x04030201); (OP_EDONKEYPROT, OP_FOUNDSOURCES, OFFER_FILE_SAMPLE_HASH ++ [1; 5; 6; 7; 8; 54; 18])].
Definition act_attempt (events : list act_event) : attempt :=
  mkAttempt false (Some (mkStream act_wire false [])) 0 [] (mkDraws (replicate 16 1) 7 [] []) events.
Lemma act_attempt_ok events : attempt_ok (act_attempt events).
Proof. split; [by vm_compute|]. by intros st [= <-]. Qed.
Local Abbreviation sources_of := (search_source_servers (λ _, None) (λ _, ([], true)) (λ _, replicate 16 7) (λ _, 0) id (λ _, None) (λ _, []) (λ _, None) act_identity [] firewall_default).
Lemma one_shot_searches_sound_witness :
  sources_of act_config None None 3 OFFER_FILE_SAMPLE_HASH 10 (λ _, act_attempt [APacket 1; APacket 2]) =
    Ok (Some [mkFoundSource OFFER_FILE_SAMPLE_HASH (5, 6, 7, 8) 4662 0x08070605 false false None None (Some (mkSocketAddr (V4 (1, 2, 3, 4)) 4661))]) ∧
  safe (some_of (sound_sources (λ _, None) [plain_entry] OFFER_FILE_SAMPLE_HASH))
    (sources_of act_config None None 3 OFFER_FILE_SAMPLE_HASH 10 (λ _, act_attempt [APacket 1; APacket 2])).
Proof.
  split; [vm_compute; reflexivity|].
  exact (proj1 (one_shot_searches_sound (λ _, None) (λ _, ([], true)) (λ _, replicate 16 7) (λ _, 0) id (λ _, None) (λ _, []) (λ _, None) act_identity [] firewall_default
    (λ _, Forall_nil_2 _) (λ _, eq_refl) (Forall_nil_2 _) act_config None None 3 OFFER_FILE_SAMPLE_HASH 10 [] true (λ _, act_attempt [APacket 1; APacket 2])
    (λ _, mkUdpAttempt false (0, 0) false []) [plain_entry] (mkSocketAddr (V4 (1, 2, 3, 4)) 4661) 5 1000 (act_attempt [])
    eq_refl (λ _, act_attempt_ok _) (λ _, Forall_nil_2 _) (act_attempt_ok _))).
Defined.
(** A callback on a server that does not refuse it: when nothing more comes before the time is over,
    the request is reported as failed, although it was sent. *)
Example silent_callback_fails :
  request_callback_on_server (λ _, None) (λ _, ([], true)) (λ _, replicate 16 7) (λ _, 0) id (λ _, None) (λ _, []) (λ _, None) act_identity [] firewall_default act_config
    (mkSocketAddr (V4 (1, 2, 3, 4)) 4661) 5 8000 (act_attempt [APacket 1; ATimeout]) = Err PTimeout.
Proof. vm_compute. reflexivity. Qed.
(** The endpoint that the background session marks sources with is that of its connection: for an
    obfuscated one, the server's entry is not found by it, and the obfuscated port would be dialled in the clear. *)
Definition hidden_entry : Ed2kServerEntry := mkServerEntry (lit "1.2.3.4") 4661 None None SERVER_UDP_FLAG_TCPOBFUSCATION 0 0 4700 0.
Definition hidden_server : ResolvedServerEntry := mkResolved hidden_entry (1, 2, 3, 4).
Example obfuscated_endpoint_unknown :
  let marked := transport_endpoint hidden_server (should_use_server_obfuscation 1 hidden_server) in
  ∃ server, resolve_callback_server_entry id (λ _, Some marked) (λ _, []) (λ _, None) (mkConfig [hidden_entry] [] None 10 60 0) marked = Ok server ∧
    ce_port (rv_entry server) = 4700 ∧ should_use_server_obfuscation 1 server = false.
Proof. eexists. split; [vm_compute; reflexivity|]. by vm_compute. Qed.
