(* ===== verification/NativeDownload.v ===== *)
(** * Downloads of the agent

    Models the jobs that download a file: [overlord-agent-emule/src/agent/ed2k_download.rs]
    with [ed2k_download/sources.rs] and [ed2k_download/direct.rs], the helpers of
    [agent/ed2k_runtime.rs], [agent/ed2k_enrich.rs] and [agent/source_merge.rs], and the
    metadata and Kad sources of [agent/ed2k_search.rs]. What the job asks of the
    transfer store, the servers, Kad and peers is recorded as a list of effects;
    what they answer, and the order in which downloads from peers end, are inputs.
    The sessions with peers are those of [Download]. Log lines, the activity shown
    to the coordinator and the packet dump are left out; [str::trim],
    [to_lowercase] and [hex::decode] are parameters. *)

From S2P Require Import Prelude Net NodeId Text Wire Tag PacketTypes Hashset Transfer PeerTransport PeerCodec PeerParts Hello DhtSearch AgentPublish Session ServerTypes Download ServerCodec ServerDriver.

Definition ED2K_DOWNLOAD_KAD_SOURCE_CAP : Z := 64.
Definition ED2K_DOWNLOAD_KAD_SOURCE_TIMEOUT_FLOOR_SECS : Z := 45.
Definition ED2K_DOWNLOAD_SOURCE_REQUERY_ROUNDS : Z := 2.
Definition ED2K_SOURCE_OBFUSCATION_REQUIRES_CRYPT : Z := 0x04.

(** ** Sources *)

Definition Ed2kSourceAttemptKey : Type := Ipv4Addr * Z * option (list Z) * option Z.
Definition Ed2kSourceEndpointKey : Type := Ipv4Addr * Z.
Definition ed2k_source_attempt_key (source : Ed2kFoundSource) : Ed2kSourceAttemptKey :=
  (fs_ip source, fs_tcp_port source, fs_user_hash source, fs_obfuscation_options source).
Definition ed2k_source_endpoint_key (source : Ed2kFoundSource) : Ed2kSourceEndpointKey := (fs_ip source, fs_tcp_port source).
Inductive Ed2kServerCallbackRoute : Type := BackgroundSession | SourceServer (endpoint : SocketAddr).
Definition ed2k_server_callback_route (source_server connected_server : option SocketAddr) : Ed2kServerCallbackRoute :=
  match source_server, connected_server with
  | Some source_server, Some connected => if bool_decide (source_server = connected) then BackgroundSession else SourceServer source_server
  | Some source_server, None => SourceServer source_server
  | None, _ => BackgroundSession
  end.
(** The key of a source in the sort, as a number. *)
Definition source_rank (s : Ed2kFoundSource) : Z :=
  4 * Z.b2z (negb (is_direct_dialable s)) + 2 * Z.b2z (bool_decide (fs_user_hash s = None)) + Z.b2z (bool_decide (fs_obfuscation_options s = None)).
Definition sort_native_ed2k_download_sources (sources : list Ed2kFoundSource) : list Ed2kFoundSource :=
  sort_by (λ a b, source_rank a ?= source_rank b) sources.
(** The closure of [direct_download_candidate_sources], on [seen_endpoints] and the sources that pass. *)
Definition candidate_step (attempted : gset Ed2kSourceEndpointKey) (acc : gset Ed2kSourceEndpointKey * list Ed2kFoundSource) (source : Ed2kFoundSource)
    : gset Ed2kSourceEndpointKey * list Ed2kFoundSource :=
  let '(seen, kept) := acc in
  let endpoint := ed2k_source_endpoint_key source in
  if negb (is_direct_dialable source) then acc
  else if bool_decide (endpoint ∈ attempted) then acc
  else if bool_decide (endpoint ∈ seen) then acc
  else ({[endpoint]} ∪ seen, kept ++ [source]).
Definition direct_download_candidate_sources (sources : list Ed2kFoundSource) (attempted : gset Ed2kSourceEndpointKey) : list Ed2kFoundSource :=
  snd (foldl (candidate_step attempted) (∅, []) sources).
Definition new_direct_ed2k_source_count (sources : list Ed2kFoundSource) (attempted : gset Ed2kSourceEndpointKey) : Z :=
  zlen (direct_download_candidate_sources sources attempted).
Definition should_skip_no_progress_source_requery (had_direct_sources manifest_has_progress : bool) (new_direct_source_count completed_rounds : Z) : bool :=
  had_direct_sources && negb manifest_has_progress && (new_direct_source_count =? 0) && negb (completed_rounds =? 0).
Definition plaintext_fallback_for_obfuscated_source (s : Ed2kFoundSource) : option Ed2kFoundSource :=
  match fs_obfuscation_options s with
  | None => None
  | Some options =>
      if negb (Z.land options ED2K_SOURCE_OBFUSCATION_REQUIRES_CRYPT =? 0) then None
      else Some (mkFoundSource (fs_file_hash s) (fs_ip s) (fs_tcp_port s) (fs_client_id s) (fs_low_id s) false None None (fs_source_server s))
  end.
Definition manifest_has_ed2k_transfer_progress (m : Ed2kResumeManifest) : bool :=
  completed m || md4_hashset_acquired m || negb (bool_decide (verified_ranges m = [])) || existsb (λ piece, negb (bytes_written piece =? 0)) (pieces m).

Definition same_source (a b : Ed2kFoundSource) : bool :=
  bool_decide (fs_ip a = fs_ip b) && (fs_tcp_port a =? fs_tcp_port b) && bool_decide (fs_obfuscation_options a = fs_obfuscation_options b) &&
  bool_decide (fs_user_hash a = fs_user_hash b).
Definition adopt_server (existing source : Ed2kFoundSource) : Ed2kFoundSource :=
  match fs_source_server existing, fs_source_server source with
  | None, Some server =>
      mkFoundSource (fs_file_hash existing) (fs_ip existing) (fs_tcp_port existing) (fs_client_id existing) (fs_low_id existing) (fs_obfuscated existing)
        (fs_obfuscation_options existing) (fs_user_hash existing) (Some server)
  | _, _ => existing
  end.
Fixpoint merge_one (aggregated : list Ed2kFoundSource) (source : Ed2kFoundSource) : list Ed2kFoundSource :=
  match aggregated with
  | [] => [source]
  | existing :: l => if same_source existing source then adopt_server existing source :: l else existing :: merge_one l source
  end.
Definition merge_download_sources (aggregated new_sources : list Ed2kFoundSource) : list Ed2kFoundSource := foldl merge_one aggregated new_sources.

(** ** Metadata *)

Record LearnedEd2kMetadata : Type := mkLearned { lm_canonical_name : option (list Z); lm_file_size : option Z }.
Definition merge_missing_from (a b : LearnedEd2kMetadata) : LearnedEd2kMetadata :=
  mkLearned (match lm_canonical_name a with Some n => Some n | None => lm_canonical_name b end)
    (match lm_file_size a with Some n => Some n | None => lm_file_size b end).
Definition learned_is_complete (m : LearnedEd2kMetadata) : bool := bool_decide (is_Some (lm_canonical_name m)) && bool_decide (is_Some (lm_file_size m)).
Definition learned_is_empty (m : LearnedEd2kMetadata) : bool := bool_decide (lm_canonical_name m = None) && bool_decide (lm_file_size m = None).
Definition nonzero (o : option Z) : option Z := match o with Some v => if v =? 0 then None else Some v | None => None end.
Section metadata.
Context (trim : list Z → list Z).
Definition normalized_optional_canonical_name (value : option (list Z)) : option (list Z) :=
  value ≫= λ v, match trim v with [] => None | t => Some t end.
(** What a result teaches, with the key that [max_by_key] compares, as a number. *)
Definition ed2k_candidate (file_hash : Ed2kHash) (r : Ed2kSearchFile) : option (Z * Z * LearnedEd2kMetadata) :=
  if negb (bool_decide (sf_file_hash r = file_hash)) then None
  else
    let metadata := mkLearned (normalized_optional_canonical_name (sf_file_name r)) (nonzero (sf_file_size r)) in
    if learned_is_empty metadata then None
    else Some (2 * Z.b2z (bool_decide (is_Some (lm_file_size metadata))) + Z.b2z (bool_decide (is_Some (lm_canonical_name metadata))),
               default 0 (sf_source_count r), metadata).
(** [max_by_key]: the last of the greatest. *)
Definition better (best : option (Z * Z * LearnedEd2kMetadata)) (c : Z * Z * LearnedEd2kMetadata) : option (Z * Z * LearnedEd2kMetadata) :=
  match best with
  | None => Some c
  | Some b =>
      let '(rb, nb, _) := b in
      let '(rc, nc, _) := c in
      if (rb <? rc) || ((rb =? rc) && (nb <=? nc)) then Some c else Some b
  end.
Definition select_ed2k_keyword_metadata (results : list Ed2kSearchFile) (file_hash : Ed2kHash) : option LearnedEd2kMetadata :=
  snd <$> foldl better None (omap (ed2k_candidate file_hash) results).
Definition select_kad_keyword_metadata (result : SearchResult) (file_hash : Ed2kHash) : option LearnedEd2kMetadata :=
  if negb (bool_decide (kr_hash result = file_hash)) then None
  else
    let metadata := mkLearned (head (omap (λ name, normalized_optional_canonical_name (Some name)) (kr_names result))) (nonzero (kr_size result)) in
    if learned_is_empty metadata then None else Some metadata.
(** [collect_kad_ed2k_metadata], on the results that come before the timeout or the end of the stream. *)
Fixpoint collect_kad_ed2k_metadata (file_hash : Ed2kHash) (learned : LearnedEd2kMetadata) (results : list SearchResult) : LearnedEd2kMetadata :=
  match results with
  | [] => learned
  | r :: results' =>
      match select_kad_keyword_metadata r file_hash with
      | None => collect_kad_ed2k_metadata file_hash learned results'
      | Some c =>
          let learned := merge_missing_from learned c in
          if learned_is_complete learned then learned else collect_kad_ed2k_metadata file_hash learned results'
      end
  end.
Definition learn_from (file_hash : Ed2kHash) (learned : LearnedEd2kMetadata) (results : option (list Ed2kSearchFile)) : LearnedEd2kMetadata :=
  match results ≫= λ l, select_ed2k_keyword_metadata l file_hash with
  | Some c => merge_missing_from learned c
  | None => learned
  end.
(** [resolve_hash_only_ed2k_metadata]: the three searches, a failed one being [None]. *)
Definition resolve_hash_only_ed2k_metadata (file_hash : Ed2kHash) (background active : option (list Ed2kSearchFile)) (kad : list SearchResult)
    : option LearnedEd2kMetadata :=
  let learned := learn_from file_hash (mkLearned None None) background in
  let learned := if learned_is_complete learned then learned else learn_from file_hash learned active in
  let learned := if learned_is_complete learned then learned else merge_missing_from learned (collect_kad_ed2k_metadata file_hash (mkLearned None None) kad) in
  if learned_is_empty learned then None else Some learned.
End metadata.

(** ** Acquisition of sources *)

Definition kad_source_result_to_ed2k_found_source (r : SourceResult) : Ed2kFoundSource :=
  mkFoundSource (so_file_hash r) (so_ip r) (so_tcp_port r) (ip_val (so_ip r)) false (bool_decide (is_Some (so_obfuscation_options r)))
    (so_obfuscation_options r) (Some (so_source_id r)) None.
(** One search of Kad: whether the deadline had passed before it, its results until
    the timeout or the end of the stream, and whether the deadline is near after it. *)
Record kad_attempt : Type := mkKadAttempt { at_expired : bool; at_results : list SourceResult; at_last : bool }.
(** The results of one search; [true] when the cap is reached. *)
Fixpoint kad_results (sources : list Ed2kFoundSource) (results : list SourceResult) : list Ed2kFoundSource * bool :=
  match results with
  | [] => (sources, false)
  | r :: results' =>
      let sources := merge_download_sources sources [kad_source_result_to_ed2k_found_source r] in
      if ED2K_DOWNLOAD_KAD_SOURCE_CAP <=? zlen sources then (sources, true) else kad_results sources results'
  end.
Fixpoint collect_kad_ed2k_sources (attempts : list kad_attempt) (sources : list Ed2kFoundSource) : list Ed2kFoundSource :=
  match attempts with
  | [] => sources
  | a :: attempts' =>
      if at_expired a then sources
      else
        let '(sources, capped) := kad_results sources (at_results a) in
        if capped then sources
        else if negb (bool_decide (sources = [])) then sources
        else if at_last a then sources
        else collect_kad_ed2k_sources attempts' sources
  end.

Definition ed2k_source_search_timeout (connect_timeout_secs : Z) : Z := Z.max connect_timeout_secs 15.
Definition ed2k_configured_server_attempt_budget (entries endpoints : Z) : Z := Z.max (Z.max entries endpoints) 1.
Definition ed2k_download_source_server_attempt_budget (budget entries endpoints : Z) : Z :=
  Z.min (Z.max budget 1) (ed2k_configured_server_attempt_budget entries endpoints).
Definition should_exclude_background_endpoint (has_background_search : bool) (aggregated_source_count : Z) : bool :=
  has_background_search && negb (aggregated_source_count =? 0).

(** The searches that an acquisition makes. *)
Inductive source_search : Type :=
| OnBackground
| OnServers (preferred excluded : option SocketAddr) (max_attempts : Z)
| OnUdp (preferred : option SocketAddr) (max_attempts : Z)
| OnKad (timeout_secs : Z).
(** Their answers; a failed search is [None]. *)
Record source_answers : Type := mkAnswers {
  sa_background : option (list Ed2kFoundSource);
  sa_servers : option (list Ed2kFoundSource);
  sa_udp : option (list Ed2kFoundSource);
  sa_kad : list kad_attempt;
}.
Record source_config : Type := mkSourceConfig {
  sc_connect_timeout_secs : Z;
  sc_server_attempt_budget : Z;
  sc_kad_source_supplement_max_existing_sources : Z;
}.
Definition merge_answer (sources : list Ed2kFoundSource) (answer : option (list Ed2kFoundSource)) : list Ed2kFoundSource :=
  match answer with Some l => merge_download_sources sources l | None => sources end.
(** [server] is the state of the server session: [None], or [Some] of its endpoint when it is connected. *)
Definition native_ed2k_download_sources (config : source_config) (server : option (option SocketAddr)) (file_size : Z) (answers : source_answers)
    : list Ed2kFoundSource * list source_search :=
  let timeout := ed2k_source_search_timeout (sc_connect_timeout_secs config) in
  let preferred := mjoin server in
  let has_background := bool_decide (is_Some server) in
  let sources := if has_background then merge_answer [] (sa_background answers) else [] in
  let calls := if has_background then [OnBackground] else [] in
  let excluded := if should_exclude_background_endpoint has_background (zlen sources) then preferred else None in
  let sources := merge_answer sources (sa_servers answers) in
  let calls := calls ++ [OnServers preferred excluded (sc_server_attempt_budget config)] in
  let '(sources, calls) :=
    if bool_decide (sources = []) then (merge_answer sources (sa_udp answers), calls ++ [OnUdp preferred (sc_server_attempt_budget config)]) else (sources, calls) in
  if file_size =? 0 then (sources, calls)
  else if (zlen sources =? 0) || (zlen sources <=? sc_kad_source_supplement_max_existing_sources config) then
    (merge_download_sources sources (collect_kad_ed2k_sources (sa_kad answers) []),
     calls ++ [OnKad (Z.max timeout ED2K_DOWNLOAD_KAD_SOURCE_TIMEOUT_FLOOR_SECS)])
  else (sources, calls).

(** ** Downloads from peers *)

(** An error of a download: whether the connection was refused, and its text. *)
Record dial_error : Type := mkDialError { de_connection_refused : bool; de_text : list Z }.
Definition is_retryable_direct_download_error (e : dial_error) : bool := de_connection_refused e.
Inductive joined : Type := JoinedOk (outcome : Ed2kPeerDownloadOutcome) | JoinedErr (e : dial_error) | JoinedPanic.
Inductive JobError : Type :=
| UnsupportedKind
| InvalidFileHash
| WaitingForInterface
| JStore (e : TransferError)
| InvalidSourceHash
| NoSources
| WorkerPanicked
| NotCompleted (last_error : list Z)
| IncompletePeers (n : Z)
| NoConcreteError
| OnlyCallbackSources.
Record NativeDirectDownloadOutcome : Type := mkDirectOutcome {
  do_completed : bool;
  do_accepted_incomplete_peers : Z;
  do_last_error : option (list Z);
}.
(** A round over the sources: those that wait, those that are dialled, and the dials made so far. *)
Record round_state : Type := mkRound {
  rd_pending : list Ed2kFoundSource;
  rd_active : list Ed2kFoundSource;
  rd_accepted : Z;
  rd_retryable : bool;
  rd_last_error : option dial_error;
  rd_dialled : list Ed2kFoundSource;
}.
Fixpoint spawn_loop (max_parallel : Z) (pending active dialled : list Ed2kFoundSource) : list Ed2kFoundSource * list Ed2kFoundSource * list Ed2kFoundSource :=
  match pending with
  | [] => ([], active, dialled)
  | source :: pending' =>
      if zlen active <? max_parallel then spawn_loop max_parallel pending' (active ++ [source]) (dialled ++ [source]) else (pending, active, dialled)
  end.
Definition spawn_pending_direct_downloads (max_parallel : Z) (st : round_state) : round_state :=
  let '(pending, active, dialled) := spawn_loop max_parallel (rd_pending st) (rd_active st) (rd_dialled st) in
  mkRound pending active (rd_accepted st) (rd_retryable st) (rd_last_error st) dialled.
(** A download that ends: its place among the active ones, its result, and the manifest as it is read then. *)
Record join_event : Type := mkJoin { jn_index : nat; jn_result : joined; jn_manifest : res TransferError Ed2kResumeManifest }.
(** The loop goes on, or the function returns. *)
Definition on_joined (max_parallel : Z) (e : join_event) (st : round_state) : round_state + res JobError NativeDirectDownloadOutcome :=
  match rd_active st !! jn_index e with
  | None => inl st
  | Some source =>
      let st := mkRound (rd_pending st) (delete (jn_index e) (rd_active st)) (rd_accepted st) (rd_retryable st) (rd_last_error st) (rd_dialled st) in
      match jn_result e with
      | JoinedPanic => inr (Err WorkerPanicked)
      | JoinedOk Completed =>
          match jn_manifest e with
          | Err err => inr (Err (JStore err))
          | Panic => inr Panic
          | Ok m =>
              if completed m then inr (Ok (mkDirectOutcome true (rd_accepted st) (de_text <$> rd_last_error st)))
              else inl (spawn_pending_direct_downloads max_parallel st)
          end
      | JoinedOk AcceptedButIncomplete =>
          inl (spawn_pending_direct_downloads max_parallel
                 (mkRound (rd_pending st) (rd_active st) (rd_accepted st + 1) (rd_retryable st) (rd_last_error st) (rd_dialled st)))
      | JoinedErr err =>
          inl (spawn_pending_direct_downloads max_parallel
                 (mkRound (option_list (plaintext_fallback_for_obfuscated_source source) ++ rd_pending st) (rd_active st) (rd_accepted st)
                    (rd_retryable st || is_retryable_direct_download_error err) (Some err) (rd_dialled st)))
      end
  end.
(** The state when no download is active any more, or the state at the event on which
    the function returns, with its result; [None] while downloads are still active
    after the events. *)
Fixpoint run_joins (max_parallel : Z) (events : list join_event) (st : round_state) : option (round_state * option (res JobError NativeDirectDownloadOutcome)) :=
  match rd_active st with
  | [] => Some (st, None)
  | _ =>
      match events with
      | [] => None
      | e :: events' =>
          match on_joined max_parallel e st with
          | inl st' => run_joins max_parallel events' st'
          | inr r => Some (st, Some r)
          end
      end
  end.
Definition round_start (max_parallel : Z) (sources : list Ed2kFoundSource) (last_error : option dial_error) : round_state :=
  spawn_pending_direct_downloads max_parallel (mkRound sources [] 0 false last_error []).
(** A round: its events, the manifest at its end, and whether the deadline of retries has passed then. *)
Record round_io : Type := mkRoundIo { ri_events : list join_event; ri_manifest : res TransferError Ed2kResumeManifest; ri_deadline_passed : bool }.
(** The result of the function, after the dials [dialled] of the rounds before, with the
    dials of all its rounds; [None] while a round runs. *)
Fixpoint direct_rounds (max_parallel : Z) (sources : list Ed2kFoundSource) (may_retry : bool) (rounds : list round_io) (last_error : option dial_error)
    (dialled : list (list Ed2kFoundSource)) : option (list (list Ed2kFoundSource) * res JobError NativeDirectDownloadOutcome) :=
  match rounds with
  | [] => None
  | io :: rounds' =>
      match run_joins max_parallel (ri_events io) (round_start max_parallel sources last_error) with
      | None => None
      | Some (st, ended) =>
          let dialled := dialled ++ [rd_dialled st] in
          match ended, ri_manifest io with
          | Some r, _ => Some (dialled, r)
          | None, Err e => Some (dialled, Err (JStore e))
          | None, Panic => Some (dialled, Panic)
          | None, Ok m =>
              let outcome := mkDirectOutcome (completed m) (rd_accepted st) (de_text <$> rd_last_error st) in
              if do_completed outcome || negb (do_accepted_incomplete_peers outcome =? 0) then Some (dialled, Ok outcome)
              else if negb may_retry then Some (dialled, Ok outcome)
              else if negb (rd_retryable st) || ri_deadline_passed io then Some (dialled, Ok outcome)
              else direct_rounds max_parallel sources may_retry rounds' (rd_last_error st) dialled
          end
      end
  end.
Definition run_native_ed2k_direct_downloads (sources : list Ed2kFoundSource) (max_parallel_download_peers : Z) (rounds : list round_io)
    : option (list (list Ed2kFoundSource) * res JobError NativeDirectDownloadOutcome) :=
  let may_retry := negb (bool_decide (sources = [])) && forallb (λ s, is_loopback (fs_ip s)) sources in
  direct_rounds (Z.max max_parallel_download_peers 1) sources may_retry rounds None [].

(** ** The job *)

Record EnrichEd2kDownloadSource : Type := mkEnrichSource {
  es_ip : Ipv4Addr;
  es_tcp_port : Z;
  es_client_id : option Z;
  es_low_id : option bool;
  es_obfuscation_options : option Z;
  es_user_hash : option (list Z);
}.
Record EnrichEd2kDownloadRequest : Type := mkEnrichRequest {
  er_kind : list Z;
  er_file_hash : list Z;
  er_file_name : option (list Z);
  er_file_size : option Z;
  er_sources : list EnrichEd2kDownloadSource;
}.
Section job.
Context (trim : list Z → list Z) (hex_decode : list Z → option (list Z)).
Definition into_found_source (s : EnrichEd2kDownloadSource) (file_hash : Ed2kHash) : res JobError Ed2kFoundSource :=
  user_hash ← match es_user_hash s with
              | None => Ok None
              | Some value =>
                  match hex_decode value with
                  | Some bytes => if zlen bytes =? 16 then Ok (Some bytes) else Err InvalidSourceHash
                  | None => Err InvalidSourceHash
                  end
              end;
  Ok (mkFoundSource file_hash (es_ip s) (es_tcp_port s) (default (ip_val (es_ip s)) (es_client_id s)) (default false (es_low_id s))
        (bool_decide (is_Some (es_obfuscation_options s))) (es_obfuscation_options s) user_hash None).
Definition hash_only_ed2k_placeholder_name (file_hash : list Z) : list Z := lit "ed2k-" ++ file_hash ++ lit ".bin".
Definition is_hash_only_ed2k_placeholder_name (name file_hash : list Z) : bool :=
  bool_decide (to_ascii_lowercase name = to_ascii_lowercase (hash_only_ed2k_placeholder_name file_hash)).
Definition request_canonical_name (r : EnrichEd2kDownloadRequest) : list Z :=
  default (hash_only_ed2k_placeholder_name (er_file_hash r)) (normalized_optional_canonical_name trim (er_file_name r)).
Definition file_size_or_unknown (r : EnrichEd2kDownloadRequest) : Z := default 0 (er_file_size r).

(** What the job asks of the rest of the agent; [DialSources] has the sources that are
    handed to the direct downloads and the dials that each of their rounds made. *)
Inductive job_effect : Type :=
| EnsureJob (name : list Z) (size : Z)
| ReclaimStalePieces
| ReconcileMetadata (name : option (list Z)) (size : option Z)
| RegisterIntent (client_id : Z) (name : list Z) (size : Z) (hint : Ed2kSourceHint)
| RequestCallback (client_id : Z) (route : Ed2kServerCallbackRoute)
| DialSources (sources : list Ed2kFoundSource) (dialled : list (list Ed2kFoundSource))
| RefreshSources.
Record job_state : Type := mkJobState {
  js_sources : list Ed2kFoundSource;
  js_attempted : gset Ed2kSourceEndpointKey;
  js_callbacks : gset Ed2kSourceAttemptKey;
  js_had_direct : bool;
  js_accepted : Z;
  js_last_error : option (list Z);
  js_round : Z;
  js_effects : list job_effect;
}.
(** What the loop is run with. *)
Record job_context : Type := mkJobContext {
  jc_name : list Z;
  jc_size : Z;
  jc_auto_acquire : bool;
  jc_max_parallel : Z;
  jc_connected_server : option SocketAddr;
}.
Context (hex_encode : list Z → list Z) (jc : job_context).
(** One source that can only be reached by a callback. *)
Definition request_callback (st : gset Ed2kSourceAttemptKey * list job_effect) (s : Ed2kFoundSource) : gset Ed2kSourceAttemptKey * list job_effect :=
  let '(asked, effects) := st in
  let key := ed2k_source_attempt_key s in
  if bool_decide (key ∈ asked) then st
  else
    ({[key]} ∪ asked,
     effects ++ [RegisterIntent (fs_client_id s) (jc_name jc) (jc_size jc) (mkHint (ip_display (fs_ip s)) (fs_tcp_port s) (hex_encode <$> fs_user_hash s));
                 RequestCallback (fs_client_id s) (ed2k_server_callback_route (fs_source_server s) (jc_connected_server jc))]).
Definition saturating_add_u32 (a b : Z) : Z := Z.min (a + b) U32_MAX.
(** The inputs of one turn of the loop. *)
Record turn_io : Type := mkTurn {
  ti_rounds : list round_io;
  ti_manifest : res TransferError Ed2kResumeManifest;
  ti_refreshed : option (list Ed2kFoundSource);
  ti_refreshed_manifest : res TransferError Ed2kResumeManifest;
}.
Inductive turn_result : Type := TReturn (st : job_state) (r : res JobError unit) | TContinue (st : job_state) | TBreak (st : job_state).
(** The callbacks and the direct downloads of a turn. *)
Definition turn_dial (io : turn_io) (st : job_state) : option turn_result :=
  let sources := sort_native_ed2k_download_sources (js_sources st) in
  let '(asked, effects) := foldl request_callback (js_callbacks st, js_effects st) (List.filter fs_low_id sources) in
  let direct_sources := direct_download_candidate_sources sources (js_attempted st) in
  let had_direct := js_had_direct st || negb (bool_decide (direct_sources = [])) in
  let attempted := js_attempted st ∪ list_to_set (ed2k_source_endpoint_key <$> direct_sources) in
  let dialled accepted last_error effects := mkJobState sources attempted asked had_direct accepted last_error (js_round st) effects in
  match direct_sources with
  | [] => Some (TContinue (dialled (js_accepted st) (js_last_error st) effects))
  | _ =>
      match run_native_ed2k_direct_downloads direct_sources (jc_max_parallel jc) (ti_rounds io) with
      | None => None
      | Some (dials, r) =>
          let effects := effects ++ [DialSources direct_sources dials] in
          match r with
          | Ok outcome =>
              let st' := dialled (saturating_add_u32 (js_accepted st) (do_accepted_incomplete_peers outcome))
                (match do_last_error outcome with Some e => Some e | None => js_last_error st end) effects in
              if do_completed outcome then Some (TReturn st' (map_err JStore (_ ← ti_manifest io; Ok tt)))
              else Some (TContinue st')
          | _ => Some (TReturn (dialled (js_accepted st) (js_last_error st) effects) (_ ← r; Ok tt))
          end
      end
  end.
(** The refresh of the sources at the end of a turn. *)
Definition turn_refresh (io : turn_io) (st : job_state) : turn_result :=
  if jc_auto_acquire jc && negb (jc_size jc =? 0) && (js_round st <? ED2K_DOWNLOAD_SOURCE_REQUERY_ROUNDS) then
    match ti_manifest io with
    | Err e => TReturn st (Err (JStore e))
    | Panic => TReturn st Panic
    | Ok m =>
        if should_skip_no_progress_source_requery (js_had_direct st) (manifest_has_ed2k_transfer_progress m)
             (new_direct_ed2k_source_count (js_sources st) (js_attempted st)) (js_round st)
        then TBreak st
        else
          let round := js_round st + 1 in
          let with_sources l := mkJobState l (js_attempted st) (js_callbacks st) (js_had_direct st) (js_accepted st) (js_last_error st) round (js_effects st ++ [RefreshSources]) in
          match ti_refreshed io with
          | Some refreshed =>
              let sources := merge_download_sources (js_sources st) refreshed in
              match ti_refreshed_manifest io with
              | Err e => TReturn (with_sources sources) (Err (JStore e))
              | Panic => TReturn (with_sources sources) Panic
              | Ok m =>
                  if manifest_has_ed2k_transfer_progress m then TContinue (with_sources sources)
                  else if negb (new_direct_ed2k_source_count sources (js_attempted st) =? 0) then TContinue (with_sources sources)
                  else if negb (js_had_direct st) && (round <? ED2K_DOWNLOAD_SOURCE_REQUERY_ROUNDS) then TContinue (with_sources sources)
                  else TBreak (with_sources sources)
              end
          | None =>
              if round <? ED2K_DOWNLOAD_SOURCE_REQUERY_ROUNDS then TContinue (with_sources (js_sources st)) else TBreak (with_sources (js_sources st))
          end
    end
  else TBreak st.
Fixpoint job_loop (turns : list turn_io) (st : job_state) : option turn_result :=
  match turns with
  | [] => None
  | io :: turns' =>
      match turn_dial io st with
      | Some (TContinue st) =>
          match turn_refresh io st with
          | TContinue st => job_loop turns' st
          | r => Some r
          end
      | r => r
      end
  end.
(** [await_callback_transfer_completion]: the manifests that are read until the time is over. *)
Fixpoint await_callback_transfer_completion (last : Ed2kResumeManifest) (polls : list (res TransferError Ed2kResumeManifest)) : res TransferError Ed2kResumeManifest :=
  match polls with
  | [] => Ok last
  | Ok m :: polls' => if completed m || negb (bool_decide (verified_ranges m = [])) then Ok m else await_callback_transfer_completion m polls'
  | Err e :: _ => Err e
  | Panic :: _ => Panic
  end.
(** What follows the loop: the wait for callbacks, and the verdict on the manifest. *)
Record job_end : Type := mkJobEnd { je_initial : res TransferError Ed2kResumeManifest; je_polls : list (res TransferError Ed2kResumeManifest); je_final : res TransferError Ed2kResumeManifest }.
Definition job_verdict (st : job_state) (e : job_end) : res JobError unit :=
  m ← map_err JStore (je_final e);
  if completed m then Ok tt
  else if js_had_direct st then
    match js_last_error st with
    | Some error => Err (NotCompleted error)
    | None => if negb (js_accepted st =? 0) then Err (IncompletePeers (js_accepted st)) else Err NoConcreteError
    end
  else Err OnlyCallbackSources.
Definition job_finish (st : job_state) (e : job_end) : res JobError unit :=
  if bool_decide (js_callbacks st = ∅) then job_verdict st e
  else
    initial ← map_err JStore (je_initial e);
    m ← (if completed initial then Ok initial else map_err JStore (await_callback_transfer_completion initial (je_polls e)));
    if completed m then Ok tt
    else if manifest_has_ed2k_transfer_progress m then Ok tt
    else job_verdict st e.
Definition job_state_new (sources : list Ed2kFoundSource) (effects : list job_effect) : job_state :=
  mkJobState (sort_native_ed2k_download_sources sources) ∅ ∅ false 0 None 0 effects.
(** The loop and what follows it, on the sources that were acquired; [None] while it runs. *)
Definition run_job (sources : list Ed2kFoundSource) (effects : list job_effect) (turns : list turn_io) (e : job_end) : option (res JobError unit) :=
  match sources with
  | [] => Some (Err NoSources)
  | _ =>
      match job_loop turns (job_state_new sources effects) with
      | None => None
      | Some (TReturn _ r) => Some r
      | Some (TContinue _) => None
      | Some (TBreak st) => Some (job_finish st e)
      end
  end.
End job.

(** The inputs of a job before its loop: the store's answers, what searches for the
    metadata taught, and the first acquisition of sources. *)
Record start_io : Type := mkStartIo {
  st_runtime : bool;
  st_ensure : res TransferError unit;
  st_reclaim : res TransferError unit;
  st_learned : option LearnedEd2kMetadata;
  st_reconciled : res TransferError Ed2kResumeManifest;
  st_acquired : list Ed2kFoundSource;
}.
Section start.
Context (trim : list Z → list Z) (hex_decode : list Z → option (list Z)) (hex_encode : list Z → list Z).
Definition ED2K_DOWNLOAD_KIND : list Z := lit "ed2k_download".
Definition start_native_ed2k_download (request : EnrichEd2kDownloadRequest) (max_parallel : Z) (connected_server : option SocketAddr) (io : start_io)
    (turns : list turn_io) (e : job_end) : option (res JobError unit) :=
  if negb (bool_decide (er_kind request = ED2K_DOWNLOAD_KIND)) then Some (Err UnsupportedKind)
  else
    match hash_from_str (er_file_hash request) with
    | Err _ => Some (Err InvalidFileHash)
    | Panic => Some Panic
    | Ok file_hash =>
        if negb (st_runtime io) then Some (Err WaitingForInterface)
        else
          let name := request_canonical_name trim request in
          let size := file_size_or_unknown request in
          let adopt_learned_name := is_hash_only_ed2k_placeholder_name name (er_file_hash request) in
          let prepared :=
            map_err JStore (st_ensure io);;
            map_err JStore (st_reclaim io);;
            let effects := [EnsureJob name size; ReclaimStalePieces] in
            match (if bool_decide (er_sources request = []) && ((size =? 0) || adopt_learned_name) then st_learned io else None) with
            | Some learned =>
                m ← map_err JStore (st_reconciled io);
                Ok (canonical_name m, file_size m,
                    effects ++ [ReconcileMetadata (if adopt_learned_name then lm_canonical_name learned else None) (lm_file_size learned)])
            | None => Ok (name, size, effects)
            end in
          let run :=
            '(name, size, effects) ← prepared;
            sources ← match er_sources request with
                      | [] => Ok (st_acquired io)
                      | l => foldr (λ s acc, s ← into_found_source hex_decode s file_hash; acc ← acc; Ok (s :: acc)) (Ok []) l
                      end;
            Ok (name, size, effects, sources) in
          match run with
          | Err error => Some (Err error)
          | Panic => Some Panic
          | Ok (name, size, effects, sources) =>
              run_job hex_encode (mkJobContext name size (bool_decide (er_sources request = [])) max_parallel connected_server) sources effects turns e
          end
    end.
End start.

(** ** Jobs in progress *)

(** The downloads that are active or queued, and the free permits of the gate. *)
Record download_gate : Type := mkGate { dg_active : list (list Z); dg_running : list (list Z); dg_permits : Z }.
Inductive gate_event : Type := GSpawn (normalized_hash : list Z) | GPermit (normalized_hash : list Z) | GFinish (normalized_hash : list Z).
Definition remove_hash (h : list Z) (l : list (list Z)) : list (list Z) := List.filter (λ x, negb (bool_decide (x = h))) l.
(** [spawn_native_ed2k_download]: a hash that is active is refused; a task runs when it
    holds a permit, and its end frees both. *)
Definition gate_step (g : download_gate) (e : gate_event) : download_gate * bool :=
  match e with
  | GSpawn h => if bool_decide (h ∈ dg_active g) then (g, false) else (mkGate (dg_active g ++ [h]) (dg_running g) (dg_permits g), true)
  | GPermit h =>
      if bool_decide (h ∈ dg_active g) && negb (bool_decide (h ∈ dg_running g)) && (0 <? dg_permits g)
      then (mkGate (dg_active g) (dg_running g ++ [h]) (dg_permits g - 1), true) else (g, false)
  | GFinish h =>
      if bool_decide (h ∈ dg_running g) then (mkGate (remove_hash h (dg_active g)) (remove_hash h (dg_running g)) (dg_permits g + 1), true) else (g, false)
  end.

(** ** Rounds of downloads *)

Local Abbreviation fallback := plaintext_fallback_for_obfuscated_source.
Lemma fallback_plain s s' : fallback s = Some s' → fallback s' = None ∧ ed2k_source_endpoint_key s' = ed2k_source_endpoint_key s.
Proof.
  unfold plaintext_fallback_for_obfuscated_source at 1. destruct (fs_obfuscation_options s); [|done]. case_match; [done|]. by intros [= <-].
Qed.
Lemma fallback_twice l : omap fallback (omap fallback l) = [].
Proof.
  induction l as [|s l IH]; [done|]. cbn. destruct (fallback s) as [s'|] eqn:Hs; [|done]. cbn. by rewrite (proj1 (fallback_plain _ _ Hs)).
Qed.

(** The state of a round over [sources]: the limit of parallel dials is kept and used,
    and the dials made and waiting are the sources and a plaintext second dial for
    each failed one that allows it. *)
Record round_ok (max_parallel : Z) (sources : list Ed2kFoundSource) (st : round_state) : Prop := {
  rok_limit : zlen (rd_active st) ≤ max_parallel;
  rok_busy : rd_pending st ≠ [] → zlen (rd_active st) = max_parallel;
  rok_dials : ∃ failed finished, rd_dialled st ≡ₚ rd_active st ++ finished ∧ failed ⊆+ finished ∧
    rd_dialled st ++ rd_pending st ≡ₚ sources ++ omap fallback failed;
}.

Lemma spawn_loop_ok max_parallel pending active dialled : zlen active ≤ max_parallel →
  let '(pending', active', dialled') := spawn_loop max_parallel pending active dialled in
  zlen active' ≤ max_parallel ∧ (pending' ≠ [] → zlen active' = max_parallel) ∧
  ∃ new, active' = active ++ new ∧ dialled' = dialled ++ new ∧ pending = new ++ pending'.
Proof.
  revert active dialled. induction pending as [|s pending IH]; intros active dialled Hlen; cbn [spawn_loop].
  { split; [done|]. split; [done|]. exists []. by rewrite !app_nil_r. }
  destruct (Z.ltb_spec (zlen active) max_parallel) as [Hlt|Hge].
  - specialize (IH (active ++ [s]) (dialled ++ [s])). destruct (spawn_loop _ _ _ _) as [[p' a'] d'].
    destruct IH as (H1 & H2 & new & -> & -> & ->). { rewrite zlen_app. unfold zlen at 2. cbn. lia. }
    split; [done|]. split; [done|]. exists (s :: new). rewrite <- !app_assoc. done.
  - split; [done|]. split; [lia|]. exists []. by rewrite !app_nil_r.
Qed.

Lemma spawn_ok max_parallel sources st :
  zlen (rd_active st) ≤ max_parallel →
  (∃ failed finished, rd_dialled st ≡ₚ rd_active st ++ finished ∧ failed ⊆+ finished ∧ rd_dialled st ++ rd_pending st ≡ₚ sources ++ omap fallback failed) →
  round_ok max_parallel sources (spawn_pending_direct_downloads max_parallel st).
Proof.
  intros Hlen (failed & finished & Hd & Hf & Hp). unfold spawn_pending_direct_downloads.
  pose proof (spawn_loop_ok max_parallel (rd_pending st) (rd_active st) (rd_dialled st) Hlen) as H.
  destruct (spawn_loop _ _ _ _) as [[pending active] dialled]. destruct H as (H1 & H2 & new & Ha & Hdl & Hpd).
  split; cbn [rd_active rd_pending rd_dialled]; [done..|]. exists failed, finished. rewrite Ha, Hdl. split; [|split; [done|]].
  - rewrite Hd. rewrite <- !app_assoc. by rewrite (Permutation_app_comm finished new).
  - rewrite <- app_assoc, <- Hpd. done.
Qed.
Lemma round_start_ok max_parallel sources last_error : 1 ≤ max_parallel → round_ok max_parallel sources (round_start max_parallel sources last_error).
Proof. intros H. apply spawn_ok; cbn; [unfold zlen; cbn; lia|]. exists [], []. cbn. by rewrite app_nil_r. Qed.

Lemma on_joined_ok max_parallel sources e st st' : 1 ≤ max_parallel → round_ok max_parallel sources st → on_joined max_parallel e st = inl st' → round_ok max_parallel sources st'.
Proof.
  intros Hmax [Hlimit Hbusy (failed & finished & Hd & Hf & Hp)]. unfold on_joined.
  destruct (rd_active st !! jn_index e) as [source|] eqn:Hs; [|intros [= <-]; split; eauto].
  pose proof (delete_Permutation _ _ _ Hs) as Hperm.
  assert (Hlen : zlen (delete (jn_index e) (rd_active st)) ≤ max_parallel).
  { apply Permutation_length in Hperm. cbn in Hperm. unfold zlen in *. lia. }
  assert (Hdone : rd_dialled st ≡ₚ delete (jn_index e) (rd_active st) ++ source :: finished).
  { etransitivity; [exact Hd|]. etransitivity; [exact (Permutation_app_tail finished Hperm)|]. by rewrite <- Permutation_middle. }
  destruct (jn_result e) as [[|]|err|]; [destruct (jn_manifest e) as [m| |]; [destruct (completed m)|..]| | |]; intros [= <-].
  - apply spawn_ok; cbn; [done|]. exists failed, (source :: finished). split; [done|]. split; [by apply submseteq_cons|done].
  - apply spawn_ok; cbn; [done|]. exists failed, (source :: finished). split; [done|]. split; [by apply submseteq_cons|done].
  - apply spawn_ok; cbn; [done|]. exists (source :: failed), (source :: finished). split; [done|]. split; [by apply submseteq_skip|].
    change (omap fallback (source :: failed)) with (match fallback source with Some x => x :: omap fallback failed | None => omap fallback failed end).
    destruct (fallback source) as [s'|]; [|done]. cbn [option_list app].
    etransitivity; [apply Permutation_sym, Permutation_middle|]. etransitivity; [|apply Permutation_middle]. by apply perm_skip.
Qed.

(** The dials that a round can still make. *)
Definition weight_of (s : Ed2kFoundSource) : Z := match fallback s with Some _ => 2 | None => 1 end.
Definition weight (l : list Ed2kFoundSource) : Z := foldr (λ s acc, weight_of s + acc) 0 l.
Lemma weight_cons s l : weight (s :: l) = weight_of s + weight l.
Proof. done. Qed.
Lemma weight_app l k : weight (l ++ k) = weight l + weight k.
Proof. induction l as [|s l IH]; [done|]. cbn [app]. rewrite !weight_cons, IH. lia. Qed.
Lemma weight_perm l k : l ≡ₚ k → weight l = weight k.
Proof. induction 1; rewrite ?weight_cons; lia. Qed.
Lemma weight_bound l : 0 ≤ weight l ≤ 2 * zlen l.
Proof. induction l as [|s l IH]; [done|]. rewrite zlen_cons, weight_cons. unfold weight_of. case_match; lia. Qed.
Definition round_weight (st : round_state) : Z := weight (rd_active st ++ rd_pending st).
Lemma spawn_weight max_parallel st : round_weight (spawn_pending_direct_downloads max_parallel st) = round_weight st.
Proof.
  unfold round_weight, spawn_pending_direct_downloads. destruct st as [pending active acc rt le dialled]. cbn [rd_pending rd_active rd_dialled].
  assert (H : ∀ pending active dialled, let '(p', a', _) := spawn_loop max_parallel pending active dialled in a' ++ p' = active ++ pending).
  { clear. induction pending as [|s pending IH]; intros active dialled; cbn [spawn_loop]; [done|]. destruct (_ <? _); [|done].
    specialize (IH (active ++ [s]) (dialled ++ [s])). destruct (spawn_loop _ _ _ _) as [[p' a'] d']. rewrite IH, <- app_assoc. done. }
  specialize (H pending active dialled). destruct (spawn_loop _ _ _ _) as [[p' a'] d']. cbn. by rewrite H.
Qed.
Lemma on_joined_weight max_parallel e st st' : is_Some (rd_active st !! jn_index e) → on_joined max_parallel e st = inl st' → round_weight st' < round_weight st.
Proof.
  intros [source Hs]. unfold on_joined. rewrite Hs. pose proof (delete_Permutation _ _ _ Hs) as Hperm. apply weight_perm in Hperm. rewrite weight_cons in Hperm.
  assert (Hw : 1 ≤ weight_of source) by (unfold weight_of; case_match; lia).
  destruct (jn_result e) as [[|]|err|]; [destruct (jn_manifest e) as [m| |]; [destruct (completed m)|..]| | |]; intros [= <-];
    rewrite spawn_weight; unfold round_weight; cbn [rd_active rd_pending]; rewrite !weight_app; try lia.
  unfold weight_of in Hperm, Hw. destruct (fallback source) as [s'|] eqn:Hf; [|change (weight (option_list None)) with 0; lia].
  change (option_list (Some s')) with [s']. assert (Hs' : weight [s'] = 1) by (unfold weight; cbn; unfold weight_of; by rewrite (proj1 (fallback_plain _ _ Hf))). lia.
Qed.

(** The second dials are of sources, once each. *)
Lemma second_dials sources failed : failed ⊆+ sources ++ omap fallback failed → omap fallback failed ⊆+ omap fallback sources.
Proof.
  intros Hf. assert (H : omap fallback failed ⊆+ omap fallback (sources ++ omap fallback failed)).
  { induction Hf as [|x l k _ IH|x y l|x l k _ IH|l k j _ IH1 _ IH2]; [done|..].
    - cbn. destruct (fallback x); [by apply submseteq_skip|done].
    - cbn. destruct (fallback y), (fallback x); try done. apply submseteq_swap.
    - cbn. destruct (fallback x); [by apply submseteq_cons|done].
    - by etransitivity. }
  by rewrite omap_app, fallback_twice, app_nil_r in H.
Qed.

(** What a round over [sources] dials: each source at most once, and at most once more in
    the clear those that offer obfuscation without requiring it. *)
Definition round_dials (sources dialled : list Ed2kFoundSource) : Prop := ∃ second, second ⊆+ omap fallback sources ∧ dialled ⊆+ sources ++ second.
Lemma round_ok_dials max_parallel sources st : round_ok max_parallel sources st → round_dials sources (rd_dialled st).
Proof.
  intros [_ _ (failed & finished & Hd & Hf & Hp)]. exists (omap fallback failed). split.
  - apply second_dials. rewrite <- Hp, Hd. etransitivity; [exact Hf|]. etransitivity; [apply submseteq_inserts_l|apply submseteq_inserts_r]; reflexivity.
  - rewrite <- Hp. by apply submseteq_inserts_r.
Qed.
Lemma run_joins_ok max_parallel sources events st st' r : 1 ≤ max_parallel → round_ok max_parallel sources st → run_joins max_parallel events st = Some (st', r) →
  round_ok max_parallel sources st' ∧
  match r with
  | None => rd_active st' = []
  | Some (Ok outcome) => do_completed outcome = true ∧ ∃ e m, e ∈ events ∧ jn_manifest e = Ok m ∧ completed m = true
  | Some _ => True
  end.
Proof.
  intros Hmax. revert st. induction events as [|e events IH]; intros st Hok Hr; cbn [run_joins] in Hr.
  { destruct (rd_active st) eqn:Ha; [|done]. injection Hr as <- <-. done. }
  destruct (rd_active st) as [|a active] eqn:Ha; [injection Hr as <- <-; done|].
  destruct (on_joined max_parallel e st) as [st1|res] eqn:Hj.
  - specialize (IH st1 (on_joined_ok _ _ _ _ _ Hmax Hok Hj) Hr) as [Hok' IH]. split; [done|]. destruct r as [[outcome| |]|]; try done.
    destruct IH as (Hc & e' & m & Hin & Hm). split; [done|]. exists e', m. split; [by right|done].
  - injection Hr as <- <-. split; [done|]. revert Hj. unfold on_joined. destruct (_ !! _); [|done].
    destruct (jn_result e) as [[|]|err|]; try done; [|by intros [= <-]].
    destruct (jn_manifest e) as [m| |] eqn:Hm; [|by intros [= <-]..]. destruct (completed m) eqn:Hcm; [|done]. intros [= <-].
    split; [done|]. exists e, m. split; [by left|done].
Qed.

(** A round of downloads over a list of sources. Never more than the configured number
    of peers (at least one) are dialled at the same time, and that many are while
    sources wait. Each download that ends leaves the round strictly fewer dials to
    make, of at most two per source, so it ends. A round that ends without completing
    the file has dialled every source exactly once, and after a failure once more in
    the clear those that offered obfuscation without requiring it. The file is
    reported as completed in the middle of a round only when its manifest says so. *)
Lemma direct_downloads_fair max_parallel sources last_error events :
  1 ≤ max_parallel →
  let start := round_start max_parallel sources last_error in
  round_weight start ≤ 2 * zlen sources ∧
  (∀ st e st', round_ok max_parallel sources st → is_Some (rd_active st !! jn_index e) → on_joined max_parallel e st = inl st' →
     zlen (rd_active st') ≤ max_parallel ∧ (rd_pending st' ≠ [] → zlen (rd_active st') = max_parallel) ∧ round_weight st' < round_weight st) ∧
  match run_joins max_parallel events start with
  | Some (st, None) => rd_active st = [] ∧ rd_pending st = [] ∧
      ∃ second, second ⊆+ omap fallback sources ∧ rd_dialled st ≡ₚ sources ++ second
  | Some (_, Some (Ok outcome)) => do_completed outcome = true ∧ ∃ e m, e ∈ events ∧ jn_manifest e = Ok m ∧ completed m = true
  | _ => True
  end.
Proof.
  intros Hmax start. split; [|split].
  - unfold start, round_start. rewrite spawn_weight. unfold round_weight. cbn. apply weight_bound.
  - intros st e st' Hok Hi Hj. destruct (on_joined_ok _ _ _ _ _ Hmax Hok Hj) as [H1 H2 _]. split; [done|]. split; [done|]. by eapply on_joined_weight.
  - destruct (run_joins max_parallel events start) as [[st r]|] eqn:Hr; [|done].
    destruct (run_joins_ok _ _ _ _ _ _ Hmax (round_start_ok _ sources last_error Hmax) Hr) as [[_ Hbusy (failed & finished & Hd & Hf & Hp)] H].
    destruct r as [[outcome| |]|]; [done..|]. rewrite H in Hd, Hbusy.
    assert (Hpending : rd_pending st = []).
    { destruct (rd_pending st); [done|]. specialize (Hbusy ltac:(done)). unfold zlen in Hbusy. cbn in Hbusy. lia. }
    split; [done|]. split; [done|]. rewrite Hpending, app_nil_r in Hp. cbn in Hd. exists (omap fallback failed). split; [|done].
    apply second_dials. by rewrite <- Hp, Hd.
Qed.

(** The dials of the direct downloads of [sources]: those of each round, and one round
    unless every source is on the agent's own host. *)
Definition dials_fair (sources : list Ed2kFoundSource) (dialled : list (list Ed2kFoundSource)) : Prop :=
  Forall (round_dials sources) dialled ∧
  (length dialled = 1%nat ∨ Forall (λ s, is_loopback (fs_ip s) = true) sources).
Lemma direct_rounds_dials max_parallel sources may_retry rounds last_error before dialled r : 1 ≤ max_parallel → Forall (round_dials sources) before →
  direct_rounds max_parallel sources may_retry rounds last_error before = Some (dialled, r) →
  Forall (round_dials sources) dialled ∧ (may_retry = false → length dialled = S (length before)).
Proof.
  intros Hmax. revert last_error before. induction rounds as [|io rounds IH]; intros last_error before Hb Hr; [done|]. cbn [direct_rounds] in Hr.
  destruct (run_joins _ _ _) as [[st ended]|] eqn:Hj; [|done].
  destruct (run_joins_ok _ _ _ _ _ _ Hmax (round_start_ok _ sources last_error Hmax) Hj) as [Hok _].
  assert (Hb' : Forall (round_dials sources) (before ++ [rd_dialled st])).
  { apply Forall_app. split; [done|]. apply Forall_singleton. by eapply round_ok_dials. }
  assert (Hdone : ∀ r', Some (before ++ [rd_dialled st], r') = Some (dialled, r) →
    Forall (round_dials sources) dialled ∧ (may_retry = false → length dialled = S (length before))).
  { intros r' [= <- _]. split; [done|]. intros _. rewrite length_app. cbn. lia. }
  destruct ended as [r'|]; [by eapply Hdone|]. destruct (ri_manifest io) as [m| |]; [|by eapply Hdone..].
  destruct (_ || negb _); [by eapply Hdone|]. destruct may_retry; cbn [negb] in Hr; [|by eapply Hdone].
  destruct (negb (rd_retryable st) || _); [by eapply Hdone|]. destruct (IH _ _ Hb' Hr) as [H _]. done.
Qed.
Lemma direct_downloads_dials sources max_parallel rounds dialled r :
  run_native_ed2k_direct_downloads sources max_parallel rounds = Some (dialled, r) → dials_fair sources dialled.
Proof.
  unfold run_native_ed2k_direct_downloads. intros Hr. eapply direct_rounds_dials in Hr as [H1 H2]; [|lia|apply Forall_nil_2].
  split; [done|]. destruct (forallb _ sources) eqn:Hl; [right|left; apply H2; apply andb_false_r].
  by apply Forall_forall, forallb_elem.
Qed.

(** ** The job *)

Lemma candidates_ok sources attempted :
  let l := direct_download_candidate_sources sources attempted in
  NoDup (ed2k_source_endpoint_key <$> l) ∧ (∀ s, s ∈ l → s ∈ sources ∧ is_direct_dialable s = true ∧ ed2k_source_endpoint_key s ∉ attempted) ∧
  (∀ s, s ∈ sources → is_direct_dialable s = true → ed2k_source_endpoint_key s ∉ attempted → ed2k_source_endpoint_key s ∈ (ed2k_source_endpoint_key <$> l)).
Proof.
  unfold direct_download_candidate_sources.
  assert (H : ∀ done_ todo acc, sources = done_ ++ todo →
    (∀ k, k ∈ fst acc ↔ k ∈ (ed2k_source_endpoint_key <$> snd acc)) → NoDup (ed2k_source_endpoint_key <$> snd acc) →
    (∀ s, s ∈ snd acc → s ∈ sources ∧ is_direct_dialable s = true ∧ ed2k_source_endpoint_key s ∉ attempted) →
    (∀ s, s ∈ done_ → is_direct_dialable s = true → ed2k_source_endpoint_key s ∉ attempted → ed2k_source_endpoint_key s ∈ (ed2k_source_endpoint_key <$> snd acc)) →
    let l := snd (foldl (candidate_step attempted) acc todo) in
    NoDup (ed2k_source_endpoint_key <$> l) ∧ (∀ s, s ∈ l → s ∈ sources ∧ is_direct_dialable s = true ∧ ed2k_source_endpoint_key s ∉ attempted) ∧
    (∀ s, s ∈ sources → is_direct_dialable s = true → ed2k_source_endpoint_key s ∉ attempted → ed2k_source_endpoint_key s ∈ (ed2k_source_endpoint_key <$> l))).
  { intros done_ todo. revert done_. induction todo as [|s todo IH]; intros done_ [seen kept] Hsrc Hseen Hnd Hin Hall; cbn [foldl snd fst] in *.
    { rewrite app_nil_r in Hsrc. subst done_. done. }
    assert (Hs : s ∈ sources) by (rewrite Hsrc; apply elem_of_app; right; left).
    apply (IH (done_ ++ [s])); [by rewrite <- app_assoc|..]; unfold candidate_step;
      destruct (is_direct_dialable s) eqn:Hdial; cbn [negb]; try (case_bool_decide as Ha; [|case_bool_decide as Hb]); cbn [fst snd]; try done.
    - intros k. rewrite fmap_app, elem_of_app, elem_of_union, elem_of_singleton. cbn. rewrite list_elem_of_singleton, Hseen. tauto.
    - rewrite fmap_app. apply NoDup_app. split; [done|]. split; [|apply NoDup_singleton]. intros k Hk Hk'.
      cbn in Hk'. apply list_elem_of_singleton in Hk' as ->. by apply Hb, Hseen.
    - intros x Hx. apply elem_of_app in Hx as [Hx|Hx]; [by apply Hin|]. apply list_elem_of_singleton in Hx as ->. done.
    - intros x Hx Hd Hna. apply elem_of_app in Hx as [Hx|Hx]; [by apply Hall|]. apply list_elem_of_singleton in Hx as ->. done.
    - intros x Hx Hd Hna. apply elem_of_app in Hx as [Hx|Hx]; [by apply Hall|]. apply list_elem_of_singleton in Hx as ->. by apply Hseen.
    - intros x Hx Hd Hna. rewrite fmap_app, elem_of_app. apply elem_of_app in Hx as [Hx|Hx]; [left; by apply Hall|]. right.
      apply list_elem_of_singleton in Hx as ->. by left.
    - intros x Hx Hd Hna. apply elem_of_app in Hx as [Hx|Hx]; [by apply Hall|]. apply list_elem_of_singleton in Hx as ->. congruence. }
  apply (H [] sources (∅, [])); cbn [fst snd]; try done.
  - intros k. split; intros Hk; [by apply not_elem_of_empty in Hk|by apply not_elem_of_nil in Hk].
  - apply NoDup_nil_2.
  - intros s Hs. by apply not_elem_of_nil in Hs.
  - intros s Hs. by apply not_elem_of_nil in Hs.
Qed.

(** The sources that were handed to the direct downloads. *)
Definition handed_of (effects : list job_effect) : list Ed2kFoundSource := flat_map (λ e, match e with DialSources l _ => l | _ => [] end) effects.
Definition callbacks_of (effects : list job_effect) : list Z := omap (λ e, match e with RequestCallback client_id _ => Some client_id | _ => None end) effects.
Definition refreshes_of (effects : list job_effect) : Z := zlen (List.filter (λ e, match e with RefreshSources => true | _ => false end) effects).

(** The state of a job: what it has dialled and asked for. *)
Record job_ok (st : job_state) : Prop := {
  jok_dials : NoDup (ed2k_source_endpoint_key <$> handed_of (js_effects st));
  jok_attempted : ∀ k, k ∈ js_attempted st ↔ k ∈ (ed2k_source_endpoint_key <$> handed_of (js_effects st));
  jok_dialable : ∀ s, s ∈ handed_of (js_effects st) → is_direct_dialable s = true;
  jok_fair : ∀ l dialled, DialSources l dialled ∈ js_effects st → dials_fair l dialled;
  jok_callbacks : length (callbacks_of (js_effects st)) = size (js_callbacks st);
  jok_rounds : refreshes_of (js_effects st) = js_round st ∧ js_round st ≤ ED2K_DOWNLOAD_SOURCE_REQUERY_ROUNDS;
}.

Lemma handed_app a b : handed_of (a ++ b) = handed_of a ++ handed_of b.
Proof. apply flat_map_app. Qed.
Lemma callbacks_app a b : callbacks_of (a ++ b) = callbacks_of a ++ callbacks_of b.
Proof. apply omap_app. Qed.
Lemma refreshes_app a b : refreshes_of (a ++ b) = refreshes_of a + refreshes_of b.
Proof. unfold refreshes_of. by rewrite List.filter_app, zlen_app. Qed.

Section job_theorems.
Context (hex_encode : list Z → list Z) (jc : job_context).
Local Abbreviation turn_dial := (turn_dial hex_encode jc).
Local Abbreviation turn_refresh := (turn_refresh jc).
Local Abbreviation job_loop := (job_loop hex_encode jc).
Local Abbreviation run_job := (run_job hex_encode jc).

(** The requests for callbacks of a turn. *)
Lemma request_callbacks_ok l asked effects asked' effects' :
  foldl (request_callback hex_encode jc) (asked, effects) l = (asked', effects') → length (callbacks_of effects) = size asked →
  length (callbacks_of effects') = size asked' ∧ handed_of effects' = handed_of effects ∧ refreshes_of effects' = refreshes_of effects ∧
  (∀ s, s ∈ l → ed2k_source_attempt_key s ∈ asked').
Proof.
  assert (Hmono : ∀ l asked effects asked' effects', foldl (request_callback hex_encode jc) (asked, effects) l = (asked', effects') → asked ⊆ asked').
  { clear. induction l as [|s l IH]; intros asked effects asked' effects' H; [by injection H as <- <-|]. cbn [foldl] in H.
    unfold request_callback at 2 in H. case_bool_decide; apply IH in H; [done|]. etransitivity; [|exact H]. apply union_subseteq_r. }
  revert asked effects. induction l as [|s l IH]; intros asked effects H Hlen.
  { injection H as <- <-. repeat (split; [done|]). intros s Hs. by apply not_elem_of_nil in Hs. }
  cbn [foldl] in H. unfold request_callback at 2 in H. case_bool_decide as Hk.
  - pose proof (Hmono _ _ _ _ _ H) as Hsub. destruct (IH _ _ H Hlen) as (H1 & H2 & H3 & H4). repeat (split; [done|]).
    intros x Hx. apply elem_of_cons in Hx as [-> | Hx]; [by apply Hsub|by apply H4].
  - pose proof (Hmono _ _ _ _ _ H) as Hsub. destruct (IH _ _ H) as (H1 & H2 & H3 & H4).
    { rewrite callbacks_app, length_app, Hlen. cbn. rewrite size_union, size_singleton; [lia|]. intros x Hx%elem_of_singleton. by subst. }
    rewrite handed_app, app_nil_r in H2. rewrite refreshes_app in H3. cbn in H3. change (refreshes_of [_; _]) with 0 in H3.
    split; [done|]. split; [done|]. split; [lia|].
    intros x Hx. apply elem_of_cons in Hx as [-> | Hx]; [apply Hsub, elem_of_union; left; by apply elem_of_singleton|by apply H4].
Qed.

Lemma request_callbacks_dials l asked effects asked' effects' sources dialled :
  foldl (request_callback hex_encode jc) (asked, effects) l = (asked', effects') → DialSources sources dialled ∈ effects' → DialSources sources dialled ∈ effects.
Proof.
  revert asked effects. induction l as [|s l IH]; intros asked effects H Hin; [by injection H as <- <-|]. cbn [foldl] in H.
  unfold request_callback at 2 in H. case_bool_decide; specialize (IH _ _ H Hin); [done|].
  apply elem_of_app in IH as [?|IH]; [done|]. by repeat (apply elem_of_cons in IH as [[=]|IH]); apply not_elem_of_nil in IH.
Qed.

Definition state_of (r : turn_result) : job_state := match r with TReturn st _ | TContinue st | TBreak st => st end.

Lemma turn_dial_ok io st r : job_ok st → turn_dial io st = Some r → job_ok (state_of r) ∧ js_round (state_of r) = js_round st.
Proof.
  intros [Hd Ha Hdl Hfair Hc Hr]. unfold NativeDownload.turn_dial.
  set (sources := sort_native_ed2k_download_sources (js_sources st)).
  destruct (foldl _ _ _) as [asked effects] eqn:Hcb. destruct (request_callbacks_ok _ _ _ _ _ Hcb Hc) as (Hc' & Hde & Hre & _).
  pose proof (λ l d H, Hfair l d (request_callbacks_dials _ _ _ _ _ l d Hcb H)) as Hfair'.
  pose proof (candidates_ok sources (js_attempted st)) as Hcand. cbv zeta in Hcand. destruct Hcand as (Hnd & Hin & _).
  set (direct := direct_download_candidate_sources sources (js_attempted st)) in *. cbv zeta.
  assert (Hok : ∀ accepted last_error tail, handed_of tail = direct → callbacks_of tail = [] → refreshes_of tail = 0 → (∀ l d, DialSources l d ∈ tail → dials_fair l d) →
    job_ok (mkJobState sources (js_attempted st ∪ list_to_set (ed2k_source_endpoint_key <$> direct)) asked (js_had_direct st || negb (bool_decide (direct = []))) accepted last_error
      (js_round st) (effects ++ tail))).
  { intros accepted last_error tail Ht1 Ht2 Ht3 Ht4. split; cbn [js_effects js_attempted js_callbacks js_round].
    - rewrite handed_app, Hde, Ht1, fmap_app. apply NoDup_app. split; [done|]. split; [|done]. intros k Hk Hk'.
      apply list_elem_of_fmap in Hk' as (s & -> & Hs). apply (proj2 (proj2 (Hin _ Hs))). by apply Ha.
    - intros k. by rewrite handed_app, Hde, Ht1, fmap_app, elem_of_app, elem_of_union, elem_of_list_to_set, Ha.
    - intros s. rewrite handed_app, Hde, Ht1, elem_of_app. intros [Hs|Hs]; [by apply Hdl|]. apply (Hin _ Hs).
    - intros l d [H|H]%elem_of_app; [by apply Hfair'|by apply Ht4].
    - rewrite callbacks_app, Ht2, app_nil_r. done.
    - rewrite refreshes_app, Hre, Ht3. lia. }
  destruct direct as [|d0 ds] eqn:Hdir.
  { intros [= <-]. cbn [state_of]. split; [|done]. specialize (Hok (js_accepted st) (js_last_error st) [] eq_refl eq_refl eq_refl). rewrite app_nil_r in Hok. apply Hok. by intros l d ?%not_elem_of_nil. }
  assert (Htail : ∀ accepted last_error dialled, dials_fair (d0 :: ds) dialled → job_ok (mkJobState sources (js_attempted st ∪ list_to_set (ed2k_source_endpoint_key <$> d0 :: ds)) asked
    (js_had_direct st || negb (bool_decide (d0 :: ds = []))) accepted last_error (js_round st) (effects ++ [DialSources (d0 :: ds) dialled]))).
  { intros accepted last_error dialled Hf. apply Hok; [apply app_nil_r|done|done|]. by intros l d [= -> ->]%list_elem_of_singleton. }
  destruct (run_native_ed2k_direct_downloads _ _ _) as [[dialled r']|] eqn:Hrun; [|done]. apply direct_downloads_dials in Hrun.
  destruct r' as [outcome| |]; [destruct (do_completed outcome)|..]; intros [= <-]; (split; [by apply Htail|done]).
Qed.

Lemma turn_refresh_ok io st : job_ok st → let r := turn_refresh io st in
  job_ok (state_of r) ∧ match r with TContinue st' => js_round st' = js_round st + 1 | _ => True end.
Proof.
  intros [Hd Ha Hdl Hfair Hc Hr] r. unfold r, NativeDownload.turn_refresh.
  destruct (jc_auto_acquire jc && negb (jc_size jc =? 0) && (js_round st <? ED2K_DOWNLOAD_SOURCE_REQUERY_ROUNDS)) eqn:Hguard; [|by split].
  apply andb_true_iff in Hguard as [_ Hlt%Z.ltb_lt].
  assert (Hnew : ∀ l, job_ok (mkJobState l (js_attempted st) (js_callbacks st) (js_had_direct st) (js_accepted st) (js_last_error st) (js_round st + 1) (js_effects st ++ [RefreshSources]))).
  { intros l. split; cbn [js_effects js_attempted js_callbacks js_round]; rewrite ?handed_app, ?callbacks_app, ?app_nil_r; try done.
    { intros l' d [H|H]%elem_of_app; [by apply Hfair|]. by apply list_elem_of_singleton in H. }
    rewrite refreshes_app. change (refreshes_of [RefreshSources]) with 1. lia. }
  destruct (ti_manifest io) as [m| |]; [|by split..]. destruct (should_skip_no_progress_source_requery _ _ _ _); [by split|].
  destruct (ti_refreshed io) as [refreshed|]; [|destruct (_ <? _); (split; [apply Hnew|done])].
  destruct (ti_refreshed_manifest io) as [m'| |]; [|split; [apply Hnew|done]..].
  destruct (manifest_has_ed2k_transfer_progress m'); [split; [apply Hnew|done]|].
  destruct (negb (new_direct_ed2k_source_count _ _ =? 0)); [split; [apply Hnew|done]|].
  destruct (negb (js_had_direct st) && _); (split; [apply Hnew|done]).
Qed.

Lemma job_loop_ok turns st r : job_ok st → job_loop turns st = Some r → job_ok (state_of r).
Proof.
  revert st. induction turns as [|io turns IH]; intros st Hok Hr; [done|]. cbn [NativeDownload.job_loop] in Hr.
  destruct (turn_dial io st) as [[st1 r1|st1|st1]|] eqn:Hdial; [..|done]; destruct (turn_dial_ok _ _ _ Hok Hdial) as [Hok1 _]; cbn [state_of] in Hok1;
    [by injection Hr as <-| |by injection Hr as <-].
  destruct (turn_refresh_ok io st1 Hok1) as [Hok2 _].
  destruct (turn_refresh io st1) as [st2 r2|st2|st2]; [by injection Hr as <-| |by injection Hr as <-]. by apply (IH _ Hok2).
Qed.
(** The state after turns that go on. *)
Fixpoint job_after (turns : list turn_io) (st : job_state) : option job_state :=
  match turns with
  | [] => Some st
  | io :: turns' =>
      match turn_dial io st with
      | Some (TContinue st') => match turn_refresh io st' with TContinue st'' => job_after turns' st'' | _ => None end
      | _ => None
      end
  end.
Lemma job_loop_ends turns st : job_ok st → job_loop turns st = None →
  zlen turns ≤ ED2K_DOWNLOAD_SOURCE_REQUERY_ROUNDS - js_round st ∨
  ∃ before io later st', turns = before ++ io :: later ∧ job_after before st = Some st' ∧ turn_dial io st' = None.
Proof.
  revert st. induction turns as [|io turns IH]; intros st Hok Hr; [left; destruct (jok_rounds _ Hok); unfold zlen; cbn; lia|]. cbn [NativeDownload.job_loop] in Hr.
  destruct (turn_dial io st) as [r1|] eqn:Hdial; [|right; by exists [], io, turns, st].
  destruct (turn_dial_ok _ _ _ Hok Hdial) as [Hok1 Hr1]. destruct r1 as [st1 r1|st1|st1]; [done| |done]. cbn [state_of] in Hok1, Hr1.
  destruct (turn_refresh_ok io st1 Hok1) as [Hok2 Hr2]. destruct (turn_refresh io st1) as [st2 r2|st2|st2] eqn:Href; [done| |done].
  destruct (IH st2 Hok2 Hr) as [Hlen|(before & io' & later & st' & -> & Hafter & H)]; [left; rewrite zlen_cons; lia|]. right.
  exists (io :: before), io', later, st'. cbn. by rewrite Hdial, Href.
Qed.

(** When the loop ends by itself, every source it knows that can be dialled was. *)
Definition all_dialled (st : job_state) : Prop :=
  ∀ s, s ∈ js_sources st → is_direct_dialable s = true → ed2k_source_endpoint_key s ∈ js_attempted st.
Lemma candidates_none sources attempted : new_direct_ed2k_source_count sources attempted = 0 →
  ∀ s, s ∈ sources → is_direct_dialable s = true → ed2k_source_endpoint_key s ∈ attempted.
Proof.
  unfold new_direct_ed2k_source_count. pose proof (candidates_ok sources attempted) as (_ & _ & H). intros Hn s Hs Hd.
  destruct (decide (ed2k_source_endpoint_key s ∈ attempted)) as [?|Hna]; [done|]. specialize (H s Hs Hd Hna).
  destruct (direct_download_candidate_sources sources attempted); [by apply not_elem_of_nil in H|]. rewrite zlen_cons in Hn. unfold zlen in Hn. lia.
Qed.
Lemma turn_dial_all io st st' : turn_dial io st = Some (TContinue st') → all_dialled st'.
Proof.
  unfold NativeDownload.turn_dial. set (sources := sort_native_ed2k_download_sources (js_sources st)). destruct (foldl _ _ _) as [asked effects].
  pose proof (candidates_ok sources (js_attempted st)) as (_ & _ & Hall). set (direct := direct_download_candidate_sources sources (js_attempted st)) in *. cbv zeta.
  assert (H : ∀ s, s ∈ sources → is_direct_dialable s = true →
    ed2k_source_endpoint_key s ∈ js_attempted st ∪ list_to_set (ed2k_source_endpoint_key <$> direct)).
  { intros s Hs Hd. rewrite elem_of_union, elem_of_list_to_set. destruct (decide (ed2k_source_endpoint_key s ∈ js_attempted st)) as [?|Hna]; [by left|].
    right. by apply Hall. }
  clearbody direct sources. clear Hall. destruct direct as [|d0 ds]; [by intros [= <-]|].
  destruct (run_native_ed2k_direct_downloads _ _ _) as [[dialled [outcome| |]]|]; [|done..]. destruct (do_completed outcome); [done|]. by intros [= <-].
Qed.
Lemma turn_refresh_all io st st' : all_dialled st → turn_refresh io st = TBreak st' → all_dialled st'.
Proof.
  intros Hst. unfold NativeDownload.turn_refresh. destruct (jc_auto_acquire jc && _ && _); [|by intros [= <-]].
  destruct (ti_manifest io); [|done..]. destruct (should_skip_no_progress_source_requery _ _ _ _); [by intros [= <-]|].
  destruct (ti_refreshed io) as [refreshed|]; [|destruct (_ <? _); [done|]; by intros [= <-]].
  destruct (ti_refreshed_manifest io); [|done..]. destruct (manifest_has_ed2k_transfer_progress _); [done|].
  destruct (Z.eqb_spec (new_direct_ed2k_source_count (merge_download_sources (js_sources st) refreshed) (js_attempted st)) 0) as [Hn|]; cbn [negb]; [|done].
  destruct (negb (js_had_direct st) && _); [done|]. intros [= <-]. exact (candidates_none _ _ Hn).
Qed.
Lemma job_loop_all turns st st' : job_loop turns st = Some (TBreak st') → all_dialled st'.
Proof.
  revert st. induction turns as [|io turns IH]; intros st Hr; [done|]. cbn [NativeDownload.job_loop] in Hr.
  destruct (turn_dial io st) as [r|] eqn:Hd; [|done]. pose proof (turn_dial_all io st) as Hall. destruct r as [st1 r1|st1|st1]; [done| |].
  - destruct (turn_refresh io st1) as [st2 r2|st2|st2] eqn:Hf; [done|by apply (IH st2)|]. injection Hr as <-. eapply turn_refresh_all; [|exact Hf]. by apply Hall.
  - exfalso. revert Hd. unfold NativeDownload.turn_dial. repeat case_match; done.
Qed.

Lemma job_loop_never_continues turns st st' : job_loop turns st ≠ Some (TContinue st').
Proof.
  revert st. induction turns as [|io turns IH]; intros st; [done|]. cbn [NativeDownload.job_loop].
  destruct (turn_dial io st) as [[st1 r1|st1|st1]|]; try done. by destruct (turn_refresh io st1).
Qed.

(** The manifests that a job reads. *)
Definition rounds_reads (rounds : list round_io) : list (res TransferError Ed2kResumeManifest) := flat_map (λ r, ri_manifest r :: map jn_manifest (ri_events r)) rounds.
Definition job_reads (turns : list turn_io) (e : job_end) : list (res TransferError Ed2kResumeManifest) :=
  flat_map (λ io, rounds_reads (ti_rounds io)) turns ++ je_initial e :: je_polls e ++ [je_final e].

Lemma direct_rounds_completed max_parallel sources may_retry rounds last_error before dialled outcome : 1 ≤ max_parallel →
  direct_rounds max_parallel sources may_retry rounds last_error before = Some (dialled, Ok outcome) → do_completed outcome = true →
  ∃ m, Ok m ∈ rounds_reads rounds ∧ completed m = true.
Proof.
  intros Hmax. revert last_error before. induction rounds as [|io rounds IH]; intros last_error before Hr Hc; [done|]. cbn [direct_rounds] in Hr.
  destruct (run_joins _ _ _) as [[st r]|] eqn:Hj; [|done].
  destruct (run_joins_ok _ _ _ _ _ _ Hmax (round_start_ok _ sources last_error Hmax) Hj) as [_ Hok]. unfold rounds_reads. cbn [flat_map].
  destruct r as [r|].
  - injection Hr as _ ->. destruct Hok as (_ & e & m & Hin & Hm & Hcm). exists m. split; [|done].
    right. apply elem_of_app. left. rewrite <- Hm. by apply list_elem_of_In, in_map, list_elem_of_In.
  - destruct (ri_manifest io) as [m| |] eqn:Hm; [|done..]. cbn [do_completed do_accepted_incomplete_peers] in Hr.
    destruct (completed m) eqn:Hcm; [exists m; split; [left|done]|]. cbn [orb] in Hr.
    destruct (negb (rd_accepted st =? 0)); [injection Hr as _ <-; done|]. destruct (negb may_retry); [injection Hr as _ <-; done|].
    destruct (negb (rd_retryable st) || ri_deadline_passed io); [injection Hr as _ <-; done|].
    destruct (IH _ _ Hr Hc) as (m' & Hin & Hm'). exists m'. split; [|done]. apply elem_of_cons. right. apply elem_of_app. by right.
Qed.

Lemma job_loop_returns turns st st' : job_loop turns st = Some (TReturn st' (Ok tt)) →
  ∃ m, Ok m ∈ flat_map (λ io, rounds_reads (ti_rounds io)) turns ∧ completed m = true.
Proof.
  revert st. induction turns as [|io turns IH]; intros st Hr; [done|]. cbn [NativeDownload.job_loop flat_map] in *.
  assert (Hdial : ∀ st1, turn_dial io st = Some (TReturn st1 (Ok tt)) → ∃ m, Ok m ∈ rounds_reads (ti_rounds io) ∧ completed m = true).
  { intros st1. unfold NativeDownload.turn_dial. destruct (foldl _ _ _) as [asked effects]. destruct (direct_download_candidate_sources _ _) as [|d0 ds]; [done|].
    unfold run_native_ed2k_direct_downloads. destruct (direct_rounds _ _ _ _ _ _) as [[dialled [outcome| |]]|] eqn:Hd; [|done..].
    destruct (do_completed outcome) eqn:Hc; [|done]. intros _. eapply direct_rounds_completed; [|exact Hd|done]. lia. }
  destruct (turn_dial io st) as [[st1 r1|st1|st1]|] eqn:Hd; [| |done..].
  - injection Hr as -> ->. destruct (Hdial _ eq_refl) as (m & Hin & Hm). exists m. split; [|done]. apply elem_of_app. by left.
  - assert (Href : ∀ st2 r2, turn_refresh io st1 = TReturn st2 r2 → r2 ≠ Ok tt).
    { intros st2 r2. unfold NativeDownload.turn_refresh. repeat case_match; try done; by intros [= _ <-]. }
    destruct (turn_refresh io st1) as [st2 r2|st2|st2] eqn:Hf; [injection Hr as -> ->; by destruct (Href _ _ eq_refl)| |done].
    destruct (IH _ Hr) as (m & Hin & Hm). exists m. split; [|done]. apply elem_of_app. by right.
Qed.

Lemma await_reads last polls m : await_callback_transfer_completion last polls = Ok m → m = last ∨ Ok m ∈ polls.
Proof.
  revert last. induction polls as [|[m'| |] polls IH]; intros last H; [by injection H as <-; left| |done..]. cbn in H.
  destruct (_ || _); [injection H as <-; right; left|]. destruct (IH _ H) as [->|?]; right; [left|by right].
Qed.
Lemma job_finish_ok st e : job_finish st e = Ok tt → ∃ m, Ok m ∈ je_initial e :: je_polls e ++ [je_final e] ∧
  (completed m = true ∨ (js_callbacks st ≠ ∅ ∧ manifest_has_ed2k_transfer_progress m = true)).
Proof.
  assert (Hv : job_verdict st e = Ok tt → ∃ m, Ok m ∈ je_initial e :: je_polls e ++ [je_final e] ∧ completed m = true).
  { unfold job_verdict. destruct (je_final e) as [m| |] eqn:Hf; cbn; [|done..]. destruct (completed m) eqn:Hc; [|repeat case_match; done].
    intros _. exists m. split; [|done]. right. apply elem_of_app. right. left. }
  unfold job_finish. case_bool_decide as Hcb; [intros H; destruct (Hv H) as (m & ? & ?); exists m; auto|].
  destruct (je_initial e) as [initial| |] eqn:Hi; [|done..]. cbn [map_err mbind res_bind].
  assert (Hcase : ∀ m, m = initial ∨ Ok m ∈ je_polls e → (if completed m then Ok tt else if manifest_has_ed2k_transfer_progress m then Ok tt else job_verdict st e) = Ok tt →
    ∃ m, Ok m ∈ Ok initial :: je_polls e ++ [je_final e] ∧ (completed m = true ∨ js_callbacks st ≠ ∅ ∧ manifest_has_ed2k_transfer_progress m = true)).
  { intros m Hm H. assert (Hin : Ok m ∈ Ok initial :: je_polls e ++ [je_final e]).
    { destruct Hm as [->|Hm]; [left|right; apply elem_of_app; by left]. }
    destruct (completed m) eqn:Hc; [exists m; auto|]. destruct (manifest_has_ed2k_transfer_progress m) eqn:Hp; [exists m; auto|].
    destruct (Hv H) as (m' & ? & ?). exists m'; auto. }
  destruct (completed initial) eqn:Hci; [intros H; cbn in H; apply (Hcase initial); [by left|by rewrite Hci]|].
  destruct (await_callback_transfer_completion initial (je_polls e)) as [m| |] eqn:Ha; [|done..]. intros H. apply (Hcase m); [by apply await_reads|exact H].
Qed.

End job_theorems.

Module Sample.
Definition plain (last : Z) : Ed2kFoundSource := mkFoundSource (replicate 16 1) (10, 0, 0, last) 4662 0 false false None None None.
Definition manifest (done_ : bool) : Ed2kResumeManifest := mkManifest [] [] 5 5 done_ false [] false None [] [] [] [].
Definition refused : dial_error := mkDialError true (lit "connection refused").
Definition context : job_context := mkJobContext (lit "a.iso") 5 true 2 None.
Definition turns : list turn_io :=
  [mkTurn [mkRoundIo [mkJoin 0 (JoinedErr refused) (Ok (manifest false))] (Ok (manifest false)) false] (Ok (manifest false)) (Some [plain 2]) (Ok (manifest false));
   mkTurn [mkRoundIo [mkJoin 0 (JoinedOk Completed) (Ok (manifest true))] (Ok (manifest true)) false] (Ok (manifest true)) None (Ok (manifest true))].
Definition last : job_end := mkJobEnd (Ok (manifest true)) [] (Ok (manifest true)).
Definition firewalled : Ed2kFoundSource := mkFoundSource (replicate 16 1) (0, 0, 0, 7) 4662 7 true false None None None.
End Sample.

(** A refresh that finds only sources behind firewalls ends a job that had dialled
    others: no callback is asked of them. *)
Lemma refreshed_callbacks_ignored :
  let fails := mkRoundIo [mkJoin 0 (JoinedErr Sample.refused) (Ok (Sample.manifest false))] (Ok (Sample.manifest false)) false in
  let turn := mkTurn [fails] (Ok (Sample.manifest false)) (Some [Sample.firewalled]) (Ok (Sample.manifest false)) in
  ∃ st, job_loop (λ h, h) Sample.context [turn] (job_state_new [Sample.plain 1] []) = Some (TBreak st) ∧
    Sample.firewalled ∈ js_sources st ∧ js_callbacks st = ∅.
Proof. eexists. split; [vm_compute; reflexivity|]. split; [right; left|done]. Qed.


(** ** Lemmas on the parts *)

(** A hash has one job at a time, and at most the configured number run. *)
Lemma gate_safe permits events :
  0 ≤ permits → let g := foldl (λ g e, fst (gate_step g e)) (mkGate [] [] permits) events in
  NoDup (dg_active g) ∧ NoDup (dg_running g) ∧ dg_running g ⊆ dg_active g ∧ zlen (dg_running g) + dg_permits g = permits ∧ 0 ≤ dg_permits g.
Proof.
  intros Hp. cbv zeta.
  assert (Hrm : ∀ h l, remove_hash h l = filter (λ x, x ≠ h) l).
  { intros h l. induction l as [|x l IH]; [done|]. unfold remove_hash in *. cbn [List.filter]. rewrite filter_cons. case_bool_decide as Hx; cbn [negb]; case_decide; [done|..|done]; congruence. }
  assert (H0 : let g := mkGate [] [] permits in NoDup (dg_active g) ∧ NoDup (dg_running g) ∧ dg_running g ⊆ dg_active g ∧ zlen (dg_running g) + dg_permits g = permits ∧ 0 ≤ dg_permits g).
  { cbn. repeat split; try apply NoDup_nil_2; [done|lia]. }
  revert H0. generalize (mkGate [] [] permits). induction events as [|e events IH]; intros g Hg; [done|]. cbn [foldl]. apply IH. clear IH.
  destruct Hg as (Ha & Hr & Hsub & Hsum & Hpos). destruct e as [h|h|h]; cbn [gate_step].
  - case_bool_decide as Hin; [done|]. cbn. split; [|split; [done|split; [|done]]].
    + apply NoDup_app. split; [done|]. split; [|apply NoDup_singleton]. intros x Hx Hx'. by apply list_elem_of_singleton in Hx' as ->.
    + intros x Hx. apply elem_of_app. left. by apply Hsub.
  - case_bool_decide as Hin; [|done]. case_bool_decide as Hrun; [done|]. cbn [negb andb]. destruct (Z.ltb_spec 0 (dg_permits g)); [|done]. cbn.
    split; [done|]. split; [|split; [|split; [|lia]]].
    + apply NoDup_app. split; [done|]. split; [|apply NoDup_singleton]. intros x Hx Hx'. by apply list_elem_of_singleton in Hx' as ->.
    + intros x Hx. apply elem_of_app in Hx as [Hx|Hx]; [by apply Hsub|]. by apply list_elem_of_singleton in Hx as ->.
    + rewrite zlen_app. unfold zlen at 2. cbn. lia.
  - case_bool_decide as Hin; [|done]. cbn. rewrite !Hrm. split; [by apply NoDup_filter|]. split; [by apply NoDup_filter|]. split; [|split; [|lia]].
    + intros x Hx. apply list_elem_of_filter in Hx as [Hne Hx]. apply list_elem_of_filter. split; [done|by apply Hsub].
    + assert (Hlen : zlen (filter (λ x, x ≠ h) (dg_running g)) = zlen (dg_running g) - 1); [|lia].
      clear - Hr Hin. induction (dg_running g) as [|x l IH]; [by apply not_elem_of_nil in Hin|]. apply NoDup_cons in Hr as [Hx Hr].
      rewrite filter_cons, zlen_cons. apply elem_of_cons in Hin as [->|Hin].
      * rewrite decide_False by auto. assert (Hall : filter (λ y, y ≠ x) l = l); [|rewrite Hall; lia].
        clear - Hx. induction l as [|y l IH]; [done|]. rewrite not_elem_of_cons in Hx. destruct Hx as [Hxy Hx]. rewrite filter_cons, decide_True by congruence. by rewrite IH.
      * rewrite decide_True by congruence. rewrite zlen_cons, IH by done. lia.
Qed.

(** Merging keeps what was there, adds each new source or its equal, and never holds two sources with the same key. *)
Lemma merge_one_keys l s : ed2k_source_attempt_key <$> merge_one l s =
  (ed2k_source_attempt_key <$> l) ++ (if existsb (λ x, same_source x s) l then [] else [ed2k_source_attempt_key s]).
Proof.
  induction l as [|x l IH]; [done|]. cbn [merge_one existsb]. destruct (same_source x s).
  - cbn. rewrite app_nil_r. f_equal. unfold adopt_server. by repeat case_match.
  - cbn. rewrite IH. done.
Qed.
Lemma same_source_attempt a b : same_source a b = true ↔ ed2k_source_attempt_key a = ed2k_source_attempt_key b.
Proof.
  unfold same_source, ed2k_source_attempt_key. rewrite !andb_true_iff, !bool_decide_eq_true, Z.eqb_eq. split; [intros (((-> & ->) & ->) & ->); done|]. intros [=]. tauto.
Qed.
Lemma job_merge_distinct l new : NoDup (ed2k_source_attempt_key <$> l) → NoDup (ed2k_source_attempt_key <$> merge_download_sources l new).
Proof.
  unfold merge_download_sources. revert l. induction new as [|s new IH]; intros l Hl; [done|]. cbn [foldl]. apply IH.
  rewrite merge_one_keys. destruct (existsb _ l) eqn:He; [by rewrite app_nil_r|]. apply NoDup_app. split; [done|]. split; [|apply NoDup_singleton].
  intros k Hk Hk'. apply list_elem_of_singleton in Hk' as ->. apply list_elem_of_fmap in Hk as (x & Hx & Hin).
  assert (existsb (λ x, same_source x s) l = true); [|congruence]. apply existsb_exists. exists x. split; [by apply list_elem_of_In|]. by apply same_source_attempt.
Qed.
(** Kad gives at most 64 sources, all different. *)
Lemma kad_sources_bounded attempts : zlen (collect_kad_ed2k_sources attempts []) ≤ ED2K_DOWNLOAD_KAD_SOURCE_CAP ∧
  NoDup (ed2k_source_attempt_key <$> collect_kad_ed2k_sources attempts []).
Proof.
  assert (Hres : ∀ results l, zlen l < ED2K_DOWNLOAD_KAD_SOURCE_CAP → NoDup (ed2k_source_attempt_key <$> l) →
    let '(l', capped) := kad_results l results in zlen l' ≤ ED2K_DOWNLOAD_KAD_SOURCE_CAP ∧ NoDup (ed2k_source_attempt_key <$> l')).
  { induction results as [|r results IH]; intros l Hlen Hnd; cbn [kad_results]; [split; [lia|done]|].
    set (l1 := merge_download_sources l _). assert (Hl1 : zlen l1 ≤ zlen l + 1).
    { unfold l1, merge_download_sources. cbn [foldl]. pose proof (f_equal length (merge_one_keys l (kad_source_result_to_ed2k_found_source r))) as H.
      rewrite length_app, !length_fmap in H. unfold zlen. destruct (existsb _ l); cbn in H; lia. }
    assert (Hnd1 : NoDup (ed2k_source_attempt_key <$> l1)) by by apply job_merge_distinct.
    destruct (Z.leb_spec ED2K_DOWNLOAD_KAD_SOURCE_CAP (zlen l1)); [split; [lia|done]|]. by apply IH. }
  induction attempts as [|a attempts IH]; cbn [collect_kad_ed2k_sources]; [split; [done|apply NoDup_nil_2]|].
  destruct (at_expired a); [split; [done|apply NoDup_nil_2]|].
  specialize (Hres (at_results a) [] ltac:(done) ltac:(apply NoDup_nil_2)). destruct (kad_results [] (at_results a)) as [l capped].
  destruct capped; [done|]. case_bool_decide as Hl; cbn [negb]; [|done]. subst l. destruct (at_last a); [done|]. apply IH.
Qed.
